(* ===== verification/_CoqProject ===== *)
-Q . S2P
Prelude.v
GoStrings.v
GoStrconv.v
GoText.v
GoFloat.v
JsonLines.v
KvCausal.v
KvSnapshot.v
KvMerge.v
KvLocal.v
KvPattern.v
KvSync.v
KvStore.v
KvP2P.v
KvPush.v
Collections.v
Bech32.v
Mailbox.v
MailboxWorkflow.v
Seal.v
Identity.v
Join.v
Secrets.v
Messaging.v
MessagingStore.v
MessagingKV.v
MessagingBroker.v
Mpp.v
X402Budget.v
X402Protocol.v
X402Registry.v
X402Backend.v
Bridge.v
BridgeConn.v
FsOps.v
FsLocalLog.v
FsOutbox.v
GoPath.v
MessagingInbound.v
FsPoll.v
FsPath.v
FsReconcile.v
FsChunks.v
FsStore.v
FsPacks.v
FsDownload.v
FsPeer.v
FsPeerSync.v
FsPeerNet.v
AgentJobs.v
