(* ===== verification/Prelude.v ===== *)
(** * A verification library for sky10

    sky10 is a local-first suite for people and their agents, written in Go: a
    replicated key-value store, an encrypted file sync, a mailbox between
    agents and a client for paid HTTP services.  This library models the state
    and the decisions of these parts as functions and step relations, and
    proves what makes them correct.  Paths below are relative to [src/].

    ** How the parts interact

    The key-value store and the file sync are built alike.  Every device keeps
    a JSONL log of its writes ([JsonLines]); a snapshot is the replay of that
    log under last-writer-wins clocks; devices exchange snapshots, diff them
    against the baseline they saw last and append the differences to their own
    logs, where replay resolves them.  On top of the key-value store lie leases,
    append-only logs and payload references ([Collections]); on top of those, in
    the source, the mailbox, which is modelled over an abstract backend.  The
    paid calls of x402 are admitted by the registry, its pins and the budget
    before the wallet signs.  Addresses are Bech32m strings.

    ** Conventions

    A Go string is a Rocq [string] of 8-bit characters, an [int] that cannot
    overflow is a [Z], and machine integers whose width matters carry their
    wrap-around ([int64_wrap], [uint8_wrap]); times are nanoseconds since the
    epoch, [zeroTime] Go's zero time.  A fallible operation returns [result]
    and an operation that changes state returns the new state with its result,
    also on its error paths.  What comes from outside the code -- clock
    readings, fresh identifiers, outcomes of system calls, the order in which
    Go ranges over a map -- is an argument.  Third-party and library code that
    cannot be computed here (JSON codecs, ciphers, Unicode case tables, wallets,
    HTTP) is a class or a section variable, with the laws the code relies on;
    every theorem that uses one has a witness on a concrete instance.  A mutex
    makes an operation one atomic step of a step relation ([log_step],
    [push_step], [store_reachable]).  The texts of errors are abbreviated where
    the source quotes values into them.

    ** Files

    - [Prelude]: results, option and list lemmas, machine integers, stable
      insertion sort, the tactics and the hint databases of the library.
    - [GoStrings], [GoStrconv], [GoText], [GoPath]: the functions of Go's
      [strings], [strconv], [fmt], [unicode/utf8], [encoding/base64] and
      [path/filepath] that the sources use.
    - [JsonLines]: append and scan of a JSONL file with short writes, over the
      interface [LineCodec].
    - [KvCausal] ([pkg/kv/causal.go]), [KvSnapshot] ([entry.go], [snapshot.go],
      [visibility.go]), [KvMerge]: version vectors, entries, replay, and replay
      as a map of last-writer-wins registers.
    - [KvLocal] ([local.go]), [KvPattern] ([pattern.go]), [KvStore]
      ([store.go], [status.go]): the log, the wildcard matcher, the store with
      its health record.
    - [KvSync] ([poller.go]), [KvP2P], [KvPush] ([p2p.go], [baseline.go]): the
      merge of a remote snapshot, the handlers of peer sync and their wire
      format, the push loop and the framing of messages.
    - [Collections] ([pkg/kv/collections]): leases, append logs, payload
      references over the interface [KVStore].
    - [Bech32] ([pkg/key/bech32m.go], [key.go]): the address codec.
    - [Mailbox], [MailboxWorkflow] ([pkg/agent/mailbox]): records, index, store,
      lifecycle sweep, statistics; tasks, approvals and the payment flow.
    - [Seal] ([pkg/key/seal.go], [sign.go]), [Identity] ([pkg/id], [key.go]):
      sealing over the primitives of Go's crypto packages (class [CryptoLib]),
      the device manifest, the local files and their synchronisation.
    - [Join] ([pkg/join]): the answer to a join request, invites, approval
      through the backend.
    - [Secrets] ([pkg/secrets]): sealed, chunked, versioned secrets over
      [KVStore].
    - [Messaging] ([pkg/messaging/types.go], [policy]): the records with their
      validation, policy decisions and policy documents.
    - [MessagingStore], [MessagingKV] ([pkg/messaging/store]): the index with its
      secondary indexes, the store's requests over the interface
      [MessagingBackend], and the backend that keeps the records under keys of a
      [KVStore].
    - [MessagingBroker] ([pkg/messaging/broker/policy.go], [outbound.go]): drafts,
      approvals and sends, in a monad over the store, the clock and the trace of
      calls to the adapter and the approval mailbox (class [BrokerEnv]).
    - [Bridge] ([pkg/sandbox/bridge]: endpoint, registry, replay, quota),
      [BridgeConn] (its frame.go, conn.go): what an endpoint accepts, and the
      calls of a connection as a state machine of its goroutines; [GoFloat] has
      the doubles of the token buckets.
    - [AgentJobs] ([pkg/agent/jobs.go], [job_store.go], [job_rpc.go]): the job
      log, its operations in two critical sections, calls of agents.
    - [MessagingInbound] ([broker.go], [pkg/messaging/runtime/manager.go]): the
      life of a connection and of its supervised process, polls, webhooks, and
      the storing of what they bring, in the monad of [MessagingBroker] and over
      any adapter (class [InboundEnv]).
    - [FsChunks] ([pkg/fs/chunk.go], [compress.go], [keys.go], [chunk_source_planner.go]),
      [FsStore] ([skyfs.go]: uploads), [FsPacks] ([pack.go]), [FsDownload]
      ([skyfs.go]: downloads, [pull_planner.go]): content-defined chunks sealed
      under keys of their own, uploads with the keys of a namespace, the index of
      the packs, and downloads from every kind of source.
    - [FsPeer], [FsPeerSync], [FsPeerNet] ([pkg/fs/p2p.go], [p2p_state.go]): what a
      device takes from a peer's snapshot, one round over a network that may
      answer anything, the state of the peers, the manager and the chunk
      protocol.
    - [Mpp] ([pkg/payments/mpp/protocol.go]): payment challenges in headers.
    - [X402Budget], [X402Protocol], [X402Registry], [X402Backend]
      ([pkg/x402]): caps and receipts, the challenge formats and the choice of a
      requirement, manifests with approvals and pins, and the paid call.
    - [FsOps], [FsLocalLog] ([pkg/fs/opslog]): entries, clocks and replay of the
      file tree; the local log with its cache and compaction.
    - [FsOutbox] ([synclog.go], [outbox_worker.go]), [FsPoll] ([snapshot_poller.go],
      [opslog/snapshot_json.go], [baseline.go], [conflict.go]), [FsReconcile]
      ([reconciler.go], [scan.go]), [FsPath] ([path.go], [path_policy.go]):
      the queue of local changes, the merge of remote snapshots, the pass that
      brings the directory in line, and the names of files.

    ** What the theorems show

    - Convergence and refinement.  Replay of the key-value log is the abstract
      last-writer-wins map, hence independent of order, where clocks respect
      causality ([kv_replay_is_lww], [kv_replay_converges]).  Replay of the file
      log is one at every path whose edits follow their clocks
      ([fs_files_are_lww]): an entry that names the content it replaces is newer
      than what has that content.  It fails where clocks do not respect causality and
      where a content comes back after it was replaced; such a put is lost ([fs_revert_lost]), and devices can
      stay apart over it ([fs_poll_revert_splits], [fs_peer_revert_splits]).  A
      delta exchange is the join of two
      replicas ([kv_delta_is_join]), a round between two peers leaves both equal
      ([kv_sync_round_converges]), and so do two drives that poll each other,
      under the same condition on edits ([fs_exchange_converges]).
    - Invariants.  The cached snapshot of a log is the replay of its file in
      every reachable state ([kv_log_cache_is_replay], [fs_log_cache_is_replay]);
      snapshots are well formed ([fs_snapshot_invariant]); compaction preserves
      what replay yields ([kv_compact_preserves], [fs_compact_preserves]); a
      sweep settles every record of the mailbox ([mailbox_sweep_settles]).
    - Safety.  No paid call without manifest, approval, pin and budget
      ([x402_call_is_admitted]); the caps hold after every admitted charge
      ([x402_caps_hold]); a lease granted while no other operation on it is in
      flight excludes everybody else under any interleaving ([lease_exclusive]),
      but two claims at the same time can both be granted ([lease_claims_race]);
      a receipt matches its quote
      ([mailbox_receipt_matches_quote]).
    - Functional behaviour, errors, liveness and bounds: the reconciler settles a
      directory ([fs_reconcile_settles]), the outbox drains
      ([fs_outbox_drains]), requests are idempotent
      ([mailbox_request_idempotent]), a decision is taken once
      ([mailbox_decides_once]), every trigger of a push is served
      ([kv_push_triggers_served]), retry delays stay in range
      ([mailbox_retry_delay]).
    - Round trips: addresses, snapshots on the wire, logical paths, payment
      challenges and the persisted registry ([address_roundtrip],
      [kv_snapshot_wire_roundtrip], [fs_path_roundtrip],
      [mpp_challenges_roundtrip], [x402_registry_reload]).
    - Flaws, each as a theorem about the code as it is:
      [mailbox_completed_requeued], [fs_conflict_copy_retries],
      [fs_reconcile_removes_queued], [fs_poll_delete_beats_edit],
      [fs_compact_after_delete_root], [x402_live_quote_unchecked], and lemmas
      such as [kv_torn_write_loses_next] or [fs_restart_reuses_seq].
    - Keys and secrets: what is sealed opens ([seal_open_roundtrip]); a
      synchronised device holds the shared identity and is listed
      ([identity_sync_joins]); what [Put] stored [Get] returns on the recipients
      and nowhere else ([secrets_put_get]); the namespace key agrees with the
      shared record ([secrets_bootstrap_agrees]).  Flaws: [join_needs_no_invite],
      [join_failed_persist_forgotten], [identity_replaced_on_load_error],
      [identity_read_error_drops_devices], [secrets_rewrap_explicit_stuck].
    - Messaging: a message leaves only as the policy and the latest approval
      permit ([broker_send_needs_approval]); the first decision on an approval
      stands ([broker_first_decision_stands]); every listing is a filter of the
      records, whatever happened ([msg_listings_exact],
      [broker_listings_stay_exact]); a store reloads to what it kept
      ([msg_store_reloads]).  Flaws: an edited draft goes out under the approval of
      its former text ([broker_edit_reuses_approval]); two requests at the same
      time log one event twice ([msg_event_race_twice]).
    - Bridge: a replay is answered as an unbounded memory would
      ([bridge_replay_is_history]); an envelope is handled at most once
      ([bridge_handled_once]) and behind every gate ([bridge_dispatch_gated]).
      Flaw: a read loop that blocks for ever ([bridge_read_loop_blocks]).
    - Jobs: the log is a book of jobs ([jobs_log_is_book]) in which a finished
      job stays ([jobs_finished_is_final]).  Flaws: [jobs_race_overwrites],
      [jobs_call_forgets_completion].
    - Events of connections: a checkpoint follows the events of its batch
      ([inbound_checkpoint_follows_events]), an event is logged once as long as one
      request comes after another ([inbound_events_once]) and a batch that comes
      again changes no log
      ([inbound_replay_adds_nothing]); a created connection is supervised
      ([connection_created]), a disabled one silent
      ([connection_disabled_is_silent]), and no connection's directories go with
      another's ([connection_directories_apart]).  Flaws:
      [connection_refresh_revives], [connection_failed_upsert],
      [inbound_listing_endless], [inbound_message_replaces].
    - Content of files: what is put is got back unless a blob under
      another key had the name ([fs_put_get]; [fs_put_unreadable]), a chunk that
      opens is the chunk that was named ([fs_chunk_authentic]), a finished
      download is the file ([fs_download_is_file]) and a download comes back from
      any faults of its sources ([fs_download_returns]).
    - Peers: where clocks can decide, a merge joins what both know
      ([fs_peer_merge_joins]) and a round leaves both with the same files
      ([fs_peer_sync_converges]); digests name trees
      ([fs_digest_faithful]); state and messages are bounded ([fs_peers_pruned],
      [fs_peer_chunk_limit]).  Flaws: [fs_peer_revert_splits],
      [fs_peer_dir_comes_back], [fs_peer_never_settles], [fs_peer_too_large],
      [fs_peer_wrong_key_is_success], [fs_reconnect_waits], [fs_packs_overwritten].

    ** Fuel

    Loops that are not structural carry fuel, each with a lemma that the
    fuel given is enough.  [match_loop] starts with more fuel than its measure
    [loop_measure], which every turn decreases ([match_loop_spec]); [covered] and
    [markAbove] walk up a path, which every turn shortens, with the length of
    the path as fuel ([covered_spec], [markAbove_spec]); [emitGroups] emits at
    most one group per bit it holds ([emitGroups_spec]).  [parseParams]
    consumes its input, whose length is its fuel ([parseParams_fuel]); [chunkLoop] takes at least one byte per
    turn, with the length as fuel ([chunkLoop_concat]); [coveringFrom] walks up a
    path ([coveringFrom_none]).  [listPages] alone depends on the adapter: where
    its cursors go down, enough pages are enough ([inbound_listing_ends]), and
    where they do not, no number is ([inbound_listing_endless]).  All other
    recursion is structural.

    ** Not modelled

    Goroutines, timers, channels and HTTP or libp2p connections are left out
    where they only call the operations modelled; so are the S3 adapters, the RPC
    handlers and the command line.  Ciphers and signatures are the laws of
    [CryptoLib], not computations.  Of the
    file sync the manifests and remote log of the older layout, the SQLite index,
    garbage collection and the drives with their watchers are not modelled, and
    of peer-to-peer sync the interleaving of rounds of one drive.  Of the agents'
    part the router, the relay and the public queue of the mailbox are not; of
    messaging the adapters' processes and search.  The
    installers of third-party programs, virtual machines, messengers, model
    clients, wallets and the user interface are glue around other programs.
 *)

From stdpp Require Import base numbers list sorting gmap strings.
From stdpp Require Export options.

#[global] Open Scope Z_scope.

Declare Scope go_scope.
Delimit Scope go_scope with go.

Create HintDb go discriminated.
Create Rewrite HintDb go.

(** ** Results: Go's [(value, error)] pairs with a non-nil error or a value *)

Inductive result (E A : Type) : Type :=
| Ok (a : A)
| Err (e : E).
Arguments Ok {E A} a.
Arguments Err {E A} e.

#[export] Instance result_ret (E : Type) : MRet (result E) := fun A a => Ok a.
#[export] Instance result_bind (E : Type) : MBind (result E) := fun A B f m =>
  match m with Ok a => f a | Err e => Err e end.
#[export] Instance result_fmap (E : Type) : FMap (result E) := fun A B f m =>
  match m with Ok a => Ok (f a) | Err e => Err e end.

#[export] Instance result_eq_dec `{EqDecision E, EqDecision A} :
  EqDecision (result E A).
Proof. solve_decision. Defined.

Definition is_ok {E A} (r : result E A) : bool :=
  match r with Ok _ => true | Err _ => false end.

(** [if err := check; err != nil { return err }] *)
Definition guard_err {E} (b : bool) (e : E) : result E unit :=
  if b then Ok tt else Err e.

(** ** Machine integers *)

Definition uint8_wrap (z : Z) : Z := z mod 2 ^ 8.
Definition uint32_wrap (z : Z) : Z := z mod 2 ^ 32.
Definition uint64_wrap (z : Z) : Z := z mod 2 ^ 64.
(** Two's complement [int] / [int64] (64-bit platforms). *)
Definition int64_wrap (z : Z) : Z := (z + 2 ^ 63) mod 2 ^ 64 - 2 ^ 63.

Definition int64_range (z : Z) : Prop := - 2 ^ 63 <= z < 2 ^ 63.
Definition uint64_range (z : Z) : Prop := 0 <= z < 2 ^ 64.

Lemma int64_wrap_id z : int64_range z -> int64_wrap z = z.
Proof. unfold int64_range, int64_wrap. intros ?. rewrite Z.mod_small; lia. Qed.

Lemma int64_wrap_range z : int64_range (int64_wrap z).
Proof.
  unfold int64_range, int64_wrap.
  pose proof (Z.mod_pos_bound (z + 2 ^ 63) (2 ^ 64) ltac:(lia)). lia.
Qed.

(** Bit fields laid side by side add up. *)
Lemma testbit_small b n i : 0 <= n -> 0 <= b < 2 ^ n -> n <= i -> Z.testbit b i = false.
Proof.
  intros Hn Hb Hi. rewrite <- (Z.mod_small b (2 ^ n)) by done. by apply Z.mod_pow2_bits_high.
Qed.

Lemma shiftl_lor a b n : 0 <= n -> 0 <= b < 2 ^ n -> Z.lor (Z.shiftl a n) b = a * 2 ^ n + b.
Proof.
  intros Hn Hb. rewrite <- Z.shiftl_mul_pow2, <- Z.add_lor_land by done.
  assert (Z.land (Z.shiftl a n) b = 0) as ->; [|lia].
  apply Z.bits_inj'. intros i Hi. rewrite Z.land_spec, Z.bits_0.
  destruct (Z.lt_ge_cases i n).
  - by rewrite Z.shiftl_spec_low.
  - rewrite (testbit_small b n) by done. apply andb_false_r.
Qed.

Lemma uint64_wrap_id z : uint64_range z -> uint64_wrap z = z.
Proof. unfold uint64_range, uint64_wrap. intros ?. rewrite Z.mod_small; lia. Qed.

Lemma uint64_wrap_range z : uint64_range (uint64_wrap z).
Proof. unfold uint64_range, uint64_wrap. apply Z.mod_pos_bound; lia. Qed.

#[export] Hint Resolve int64_wrap_range uint64_wrap_range : go.

(** ** Times

    A [time.Time] is the number of nanoseconds since the Unix epoch; the zero
    [time.Time{}] is January 1 of year 1.  [time.Unix(s, 0)] and [t.Unix()]
    convert from and to whole seconds; [t.Sub(u)] saturates to [int64]. *)

Abbreviation Time := Z.
Abbreviation Duration := Z.

Definition nanosecond : Z := 1.
Definition second : Z := 1000000000.
Definition minute : Z := 60 * second.
Definition hour : Z := 60 * minute.

Definition zeroTime : Time := -62135596800 * second.
Definition time_IsZero (t : Time) : bool := Z.eqb t zeroTime.
Definition time_Unix (sec : Z) : Time := sec * second.
Definition unix_seconds (t : Time) : Z := t / second.
Definition time_Sub (t u : Time) : Duration :=
  Z.max (- 2 ^ 63) (Z.min (2 ^ 63 - 1) (t - u)).

Lemma unix_seconds_time_Unix s : unix_seconds (time_Unix s) = s.
Proof. unfold unix_seconds, time_Unix, second. by rewrite Z.div_mul. Qed.

#[export] Hint Rewrite unix_seconds_time_Unix : go.

(** ** Strings: Go compares strings bytewise *)

Definition str_ltb (s t : string) : bool :=
  match String.compare s t with Lt => true | _ => false end.

Notation "s <s? t" := (str_ltb s t) (at level 70) : go_scope.

Lemma string_compare_refl s : String.compare s s = Eq.
Proof.
  induction s as [|c s IH]; simpl; [done|].
  unfold Ascii.compare. by rewrite N.compare_refl.
Qed.

Lemma str_ltb_irrefl s : str_ltb s s = false.
Proof. unfold str_ltb. by rewrite string_compare_refl. Qed.

Lemma str_ltb_asym s t : str_ltb s t = true -> str_ltb t s = false.
Proof.
  unfold str_ltb. rewrite (String.compare_antisym t s).
  destruct (String.compare s t); simpl; congruence.
Qed.

Lemma str_ltb_total s t : s <> t -> str_ltb s t = false -> str_ltb t s = true.
Proof.
  unfold str_ltb. rewrite (String.compare_antisym t s).
  intros Hne. destruct (String.compare s t) eqn:E; simpl; try congruence.
  by apply String.compare_eq_iff in E.
Qed.

Lemma str_ltb_le s t : str_ltb s t = true <-> String.le s t /\ s <> t.
Proof.
  unfold str_ltb, String.le, String.leb.
  destruct (String.compare s t) eqn:E; simpl.
  - apply String.compare_eq_iff in E. naive_solver.
  - split; [|done]. intros _. split; [done|]. intros ->.
    by rewrite string_compare_refl in E.
  - naive_solver.
Qed.

Lemma str_ltb_trans s t u :
  str_ltb s t = true -> str_ltb t u = true -> str_ltb s u = true.
Proof.
  rewrite !str_ltb_le. intros [H1 N1] [H2 N2]. split; [by etrans|].
  intros ->. apply N1. by apply (anti_symm String.le).
Qed.

Lemma str_ltb_ntrans s t u : str_ltb s t = false -> str_ltb t u = false -> str_ltb s u = false.
Proof.
  intros H1 H2. destruct (str_ltb s u) eqn:E; [|done]. destruct (decide (s = t)) as [->|Hne]; [congruence|].
  rewrite (str_ltb_trans t s u) in H2; [done|by apply str_ltb_total|done].
Qed.

(** [sort.Slice] with the comparison [lt], ties kept in order. *)
Fixpoint insertBy {A} (lt : A -> A -> bool) (x : A) (l : list A) : list A :=
  match l with
  | [] => [x]
  | y :: l' => if lt y x then y :: insertBy lt x l' else x :: l
  end.

Definition sortBy {A} (lt : A -> A -> bool) (l : list A) : list A := foldr (insertBy lt) [] l.

Lemma insertBy_perm {A} lt (x : A) l : insertBy lt x l ≡ₚ x :: l.
Proof.
  induction l as [|y l IH]; [done|]. simpl. destruct (lt y x); [|done].
  rewrite IH. apply Permutation_swap.
Qed.

Lemma sortBy_perm {A} lt (l : list A) : sortBy lt l ≡ₚ l.
Proof. induction l as [|x l IH]; [done|]. cbn [sortBy foldr]. rewrite insertBy_perm. by rewrite IH. Qed.

(** A comparison that breaks ties by an identifier: sorting yields one list
    only, whatever the order of the elements before. *)
Record tie_broken {A} (ident : A -> string) (lt : A -> A -> bool) : Prop := {
  tb_trans x y z : lt x y = true -> lt y z = true -> lt x z = true;
  tb_asym x y : lt x y = true -> lt y x = false;
  tb_total x y : lt x y = false -> lt y x = false -> ident x = ident y
}.

Lemma insertBy_sorted {A} ident lt (x : A) l :
  tie_broken ident lt -> ident x ∉ map ident l -> StronglySorted (fun a b => lt a b = true) l ->
  StronglySorted (fun a b => lt a b = true) (insertBy lt x l).
Proof.
  intros Hlt Hx Hl. induction Hl as [|y l Hl IH Hy]; [by repeat constructor|]. cbn [insertBy map] in *.
  apply not_elem_of_cons in Hx as [Hne Hx]. destruct (lt y x) eqn:E.
  - constructor; [by apply IH|]. rewrite insertBy_perm. by constructor.
  - destruct (lt x y) eqn:E'; [|by destruct Hne; apply (tb_total _ _ Hlt)].
    repeat constructor; try done. eapply Forall_impl; [exact Hy|]. intros z Hz. by eapply tb_trans.
Qed.

Lemma sortBy_unique {A} ident lt (l l' : list A) :
  tie_broken ident lt -> NoDup (map ident l) -> l ≡ₚ l' -> sortBy lt l = sortBy lt l'.
Proof.
  intros Hlt Hnd Hp. assert (forall l, NoDup (map ident l) -> StronglySorted (fun a b => lt a b = true) (sortBy lt l)) as Hs.
  { clear -Hlt. induction l as [|x l IH]; [constructor|]. cbn [map sortBy foldr]. intros [Hx Hnd]%NoDup_cons.
    apply (insertBy_sorted ident); [done| |by apply IH]. by rewrite (fmap_Permutation ident _ _ (sortBy_perm lt l)). }
  eapply (StronglySorted_unique_strong (fun a b => lt a b = true)).
  - intros x y _ _ Hxy Hyx. by rewrite (tb_asym _ _ Hlt _ _ Hxy) in Hyx.
  - by apply Hs.
  - apply Hs. by rewrite <- (fmap_Permutation ident _ _ Hp).
  - by rewrite !sortBy_perm.
Qed.

(** The order of a comparison whose ties need not be equal: what every
    [sort.Slice] of the program is given. *)
Record weak_order {A} (lt : A -> A -> bool) : Prop := {
  wo_asym x y : lt x y = true -> lt y x = false;
  wo_ntrans x y z : lt x y = false -> lt y z = false -> lt x z = false
}.

Lemma weak_tie_broken {A} (ident : A -> string) lt :
  weak_order lt -> (forall x y, lt x y = false -> lt y x = false -> ident x = ident y) -> tie_broken ident lt.
Proof.
  intros [Ha Hn] Ht. split; [|done..]. intros x y z Hxy Hyz. destruct (lt x z) eqn:E; [done|].
  by rewrite (Hn x z y E (Ha _ _ Hyz)) in Hxy.
Qed.

Lemma insertBy_weak {A} lt (x : A) l :
  weak_order lt -> StronglySorted (fun a b => lt b a = false) l -> StronglySorted (fun a b => lt b a = false) (insertBy lt x l).
Proof.
  intros [Ha Hn] Hl. induction Hl as [|y l Hl IH Hy]; [by repeat constructor|]. cbn [insertBy]. destruct (lt y x) eqn:E.
  - constructor; [done|]. rewrite insertBy_perm. constructor; [by apply Ha|done].
  - constructor; [by constructor|]. constructor; [done|]. eapply Forall_impl; [exact Hy|]. intros z Hz. by apply (Hn z y x).
Qed.

Lemma sortBy_weak {A} lt (l : list A) : weak_order lt -> StronglySorted (fun a b => lt b a = false) (sortBy lt l).
Proof. intros Hw. induction l as [|x l IH]; [constructor|]. by apply insertBy_weak. Qed.

Lemma sortBy_sorted_id {A} lt (l : list A) : StronglySorted (fun a b => lt b a = false) l -> sortBy lt l = l.
Proof.
  intros Hl. induction Hl as [|x l Hl IH Hx]; [done|]. cbn [sortBy foldr]. fold (sortBy lt l). rewrite IH.
  destruct l as [|y l]; [done|]. cbn [insertBy]. inversion Hx as [|?? Hy _]; subst. by rewrite Hy.
Qed.

(** [sort.Strings] *)
Definition sort_Strings (l : list string) : list string := merge_sort String.le l.

Lemma sort_Strings_perm l : sort_Strings l ≡ₚ l.
Proof. apply merge_sort_Permutation. Qed.

Lemma sort_Strings_sorted l : StronglySorted String.le (sort_Strings l).
Proof. apply StronglySorted_merge_sort; apply _. Qed.

Lemma sort_Strings_unique l l' : l ≡ₚ l' -> sort_Strings l = sort_Strings l'.
Proof.
  intros Hp. apply (StronglySorted_unique String.le).
  - apply sort_Strings_sorted.
  - apply sort_Strings_sorted.
  - by rewrite !sort_Strings_perm.
Qed.

Lemma elem_of_sort_Strings x l : x ∈ sort_Strings l <-> x ∈ l.
Proof. by rewrite sort_Strings_perm. Qed.

Lemma sort_Strings_snoc x l :
  (forall y, y ∈ l -> String.le y x) -> sort_Strings (x :: l) = sort_Strings l ++ [x].
Proof.
  intros H. apply (StronglySorted_unique String.le).
  - apply sort_Strings_sorted.
  - apply StronglySorted_app_2; [|apply sort_Strings_sorted|repeat constructor].
    intros y z Hy ->%list_elem_of_singleton. apply H. by apply elem_of_sort_Strings.
  - rewrite !sort_Strings_perm. apply Permutation_cons_append.
Qed.

#[export] Hint Resolve sort_Strings_sorted sort_Strings_perm : go.

(** ** Loops over Go maps

    [for k, v := range m] visits the pairs of [m] in an unspecified order.  A
    loop whose body only accumulates is [range_fold] over some enumeration;
    [range_fold_perm] says when the enumeration does not matter. *)

Definition range_fold {A B} (f : B -> string * A -> B) (b : B)
  (m : gmap string A) : B := foldl f b (map_to_list m).

Lemma foldl_perm_comm {A B} (f : B -> A -> B) (l l' : list A) (b : B) :
  (forall b x y, x ∈ l -> y ∈ l -> f (f b x) y = f (f b y) x) ->
  l ≡ₚ l' -> foldl f b l = foldl f b l'.
Proof.
  intros Hc Hp. revert b Hc. induction Hp; intros b Hc; simpl.
  - done.
  - apply IHHp. intros. apply Hc; by constructor.
  - rewrite Hc; [done| |]; repeat constructor.
  - rewrite IHHp1; [apply IHHp2|]; [|done].
    intros. apply Hc; by rewrite Hp1.
Qed.

Lemma foldl_invariant {A B} (P : B -> Prop) (f : B -> A -> B) (l : list A) (b : B) :
  P b -> (forall b x, x ∈ l -> P b -> P (f b x)) -> P (foldl f b l).
Proof.
  revert b. induction l as [|x l IH]; intros b Hb Hf; simpl; [done|].
  apply IH; [apply Hf; [by constructor|done]|].
  intros. apply Hf; [by constructor|done].
Qed.

Lemma foldl_snoc {A B} (f : B -> A -> B) (b : B) (l : list A) (x : A) :
  foldl f b (l ++ [x]) = f (foldl f b l) x.
Proof. by rewrite foldl_app. Qed.

(** [keys_of m]: the keys of a Go map, in some order without repetition. *)
Definition keys_of {A} (m : gmap string A) : list string := (map_to_list m).*1.

Lemma elem_of_keys_of {A} (m : gmap string A) k :
  k ∈ keys_of m <-> is_Some (m !! k).
Proof.
  unfold keys_of. rewrite list_elem_of_fmap. split.
  - intros [[k' v] [-> H]]. apply elem_of_map_to_list in H. by eexists.
  - intros [v H]. exists (k, v). split; [done|]. by apply elem_of_map_to_list.
Qed.

Lemma NoDup_keys_of {A} (m : gmap string A) : NoDup (keys_of m).
Proof. apply NoDup_fst_map_to_list. Qed.

#[export] Hint Resolve NoDup_keys_of : go.

(** ** Tactics *)

(** Split every [match]/[if] of the goal, remembering the equations. *)
Ltac case_all := repeat (case_match; simplify_eq/=).

(** Split the innermost scrutinee of a hypothesis. *)
Ltac case_in H :=
  repeat match type of H with
  | context [match ?x with _ => _ end] => destruct x eqn:?; simplify_eq/=
  end.

Ltac by_lia := repeat case_bool_decide; simplify_eq/=; lia.

(** Boolean hypotheses to propositions. *)
Ltac bool_prop :=
  repeat match goal with
  | H : (_ && _)%bool = true |- _ => apply andb_prop in H; destruct H
  | H : (_ || _)%bool = false |- _ => apply orb_false_elim in H; destruct H
  | H : negb _ = true |- _ => apply negb_true_iff in H
  | H : negb _ = false |- _ => apply negb_false_iff in H
  | H : Z.ltb _ _ = true |- _ => apply Z.ltb_lt in H
  | H : Z.ltb _ _ = false |- _ => apply Z.ltb_ge in H
  | H : Z.leb _ _ = true |- _ => apply Z.leb_le in H
  | H : Z.leb _ _ = false |- _ => apply Z.leb_gt in H
  | H : Z.eqb _ _ = true |- _ => apply Z.eqb_eq in H
  | H : Z.eqb _ _ = false |- _ => apply Z.eqb_neq in H
  end.

#[global] Open Scope go_scope.
