(* ===== verification/GoStrings.v ===== *)
(** * The string functions of the Go standard library that the program uses

    A Go string is a byte sequence, here a Rocq [string] of 8-bit characters.
    The functions carry the names of Go's [strings], [strconv] and [fmt]. *)

From Stdlib Require Import Ascii.
From stdpp Require Import base numbers list strings pretty.
From S2P Require Import Prelude.

(** ** Slicing *)

(** [len(s)] *)
Definition slen (s : string) : Z := Z.of_nat (String.length s).

(** [s[n:]] and [s[:n]] for [n <= len(s)]. *)
Fixpoint str_drop (n : nat) (s : string) : string :=
  match n, s with
  | O, _ => s
  | S n', String _ s' => str_drop n' s'
  | S _, EmptyString => EmptyString
  end.

Fixpoint str_take (n : nat) (s : string) : string :=
  match n, s with
  | O, _ => EmptyString
  | S n', String c s' => String c (str_take n' s')
  | S _, EmptyString => EmptyString
  end.

Lemma str_app_nil_l s : "" +:+ s = s.
Proof. done. Qed.

Lemma str_app_nil_r s : s +:+ "" = s.
Proof. induction s as [|c s IH]; [done|]. change (String c (s +:+ "") = String c s). by rewrite IH. Qed.

Lemma str_app_cons c s t : String c s +:+ t = String c (s +:+ t).
Proof. done. Qed.

Lemma str_app_assoc s t u : (s +:+ t) +:+ u = s +:+ (t +:+ u).
Proof. induction s as [|c s IH]; [done|]. by rewrite !str_app_cons, IH. Qed.

Lemma str_length_app s t :
  String.length (s +:+ t) = (String.length s + String.length t)%nat.
Proof. induction s as [|c s IH]; [done|]. rewrite str_app_cons. simpl. by rewrite IH. Qed.

Lemma str_app_inj_l s t t' : s +:+ t = s +:+ t' -> t = t'.
Proof. induction s as [|c s IH]; [done|]. rewrite !str_app_cons. intros [=]. auto. Qed.

Lemma str_drop_app s t : str_drop (String.length s) (s +:+ t) = t.
Proof. induction s as [|c s IH]; [done|]. by rewrite str_app_cons. Qed.

Lemma str_take_app s t : str_take (String.length s) (s +:+ t) = s.
Proof. induction s as [|c s IH]; [by destruct t|]. rewrite str_app_cons. simpl. by rewrite IH. Qed.

Lemma str_take_drop n s : str_take n s +:+ str_drop n s = s.
Proof.
  revert s. induction n as [|n IH]; intros s; [done|].
  destruct s as [|c s]; [done|]. simpl. by rewrite str_app_cons, IH.
Qed.

Lemma str_length_drop n s :
  String.length (str_drop n s) = (String.length s - n)%nat.
Proof. revert s. induction n as [|n IH]; intros [|c s]; simpl; auto with lia. Qed.

Lemma str_length_take n s : (n <= String.length s)%nat -> String.length (str_take n s) = n.
Proof. revert s. induction n as [|n IH]; intros [|c s]; simpl; intros; auto with lia. Qed.

#[export] Hint Rewrite str_app_nil_r str_length_app str_drop_app str_take_app : go.

(** ** Prefixes and suffixes *)

Definition HasPrefix (s prefix : string) : bool := String.prefix prefix s.

Lemma HasPrefix_spec s p : HasPrefix s p = true <-> exists t, s = p +:+ t.
Proof.
  revert s. induction p as [|c p IH]; intros s; unfold HasPrefix in *; simpl.
  - split; [|by destruct s]. intros _. by exists s.
  - destruct s as [|d s]; [split; [done|intros [t H]; by rewrite str_app_cons in H]|].
    unfold String.prefix; fold String.prefix.
    destruct (Ascii.ascii_dec c d) as [->|Hne].
    + rewrite IH. split; intros [t H]; exists t; [by rewrite H|].
      rewrite str_app_cons in H. by simplify_eq.
    + split; [done|]. intros [t H]. rewrite str_app_cons in H. by simplify_eq.
Qed.

Lemma HasPrefix_app p t : HasPrefix (p +:+ t) p = true.
Proof. apply HasPrefix_spec. by exists t. Qed.

Lemma HasPrefix_false s p : HasPrefix s p = false <-> forall t, s <> p +:+ t.
Proof.
  rewrite <- not_true_iff_false, HasPrefix_spec. naive_solver.
Qed.

Definition HasSuffix (s suffix : string) : bool :=
  (String.length suffix <=? String.length s)%nat
  && bool_decide (str_drop (String.length s - String.length suffix) s = suffix).

Lemma HasSuffix_spec s p : HasSuffix s p = true <-> exists t, s = t +:+ p.
Proof.
  unfold HasSuffix. rewrite andb_true_iff, Nat.leb_le, bool_decide_eq_true. split.
  - intros [Hl Hd]. exists (str_take (String.length s - String.length p) s).
    rewrite <- Hd at 2. by rewrite str_take_drop.
  - intros [t ->]. rewrite str_length_app. split; [lia|].
    replace (String.length t + String.length p - String.length p)%nat
      with (String.length t) by lia. apply str_drop_app.
Qed.

Definition TrimPrefix (s prefix : string) : string :=
  if HasPrefix s prefix then str_drop (String.length prefix) s else s.

Definition TrimSuffix (s suffix : string) : string :=
  if HasSuffix s suffix then str_take (String.length s - String.length suffix) s else s.

Definition CutPrefix (s prefix : string) : string * bool :=
  if HasPrefix s prefix then (str_drop (String.length prefix) s, true) else (s, false).

Lemma TrimPrefix_app p t : TrimPrefix (p +:+ t) p = t.
Proof. unfold TrimPrefix. by rewrite HasPrefix_app, str_drop_app. Qed.

Lemma TrimSuffix_app t p : TrimSuffix (t +:+ p) p = t.
Proof.
  unfold TrimSuffix. rewrite (proj2 (HasSuffix_spec (t +:+ p) p)) by by eexists.
  rewrite str_length_app.
  replace (String.length t + String.length p - String.length p)%nat
    with (String.length t) by lia. apply str_take_app.
Qed.

(** ** Searching for a single byte *)

(** [strings.IndexByte(s, c)]; [None] is Go's -1. *)
Fixpoint IndexByte (s : string) (c : ascii) : option nat :=
  match s with
  | EmptyString => None
  | String d s' => if Ascii.eqb d c then Some O else S <$> IndexByte s' c
  end.

(** [strings.LastIndexByte(s, c)], also [strings.LastIndex] with a one-byte pattern. *)
Fixpoint LastIndexByte (s : string) (c : ascii) : option nat :=
  match s with
  | EmptyString => None
  | String d s' =>
      match LastIndexByte s' c with
      | Some i => Some (S i)
      | None => if Ascii.eqb d c then Some O else None
      end
  end.

(** [strings.Cut(s, sep)] with a one-byte separator: [before, after, found]. *)
Definition CutByte (s : string) (c : ascii) : option (string * string) :=
  match IndexByte s c with
  | Some i => Some (str_take i s, str_drop (S i) s)
  | None => None
  end.

Fixpoint str_forall (P : ascii -> bool) (s : string) : bool :=
  match s with
  | EmptyString => true
  | String c s' => P c && str_forall P s'
  end.

Lemma str_forall_app P s t : str_forall P (s +:+ t) = str_forall P s && str_forall P t.
Proof.
  induction s as [|c s IH]; [done|]. rewrite str_app_cons. simpl.
  by rewrite IH, andb_assoc.
Qed.

Lemma IndexByte_app s c t :
  str_forall (fun d => negb (Ascii.eqb d c)) s = true ->
  IndexByte (s +:+ String c t) c = Some (String.length s).
Proof.
  induction s as [|d s IH]; simpl; intros H.
  - change (IndexByte (String c t) c = Some O). simpl. by rewrite Ascii.eqb_refl.
  - apply andb_prop in H as [Hd H].
    apply negb_true_iff in Hd. by rewrite Hd, IH.
Qed.

Lemma CutByte_app s c t :
  str_forall (fun d => negb (Ascii.eqb d c)) s = true ->
  CutByte (s +:+ String c t) c = Some (s, t).
Proof.
  intros H. unfold CutByte. rewrite IndexByte_app by done. f_equal. f_equal.
  - apply str_take_app.
  - clear H. induction s as [|d s IH]; [done|]. by rewrite str_app_cons.
Qed.

Lemma IndexByte_none s c :
  str_forall (fun d => negb (Ascii.eqb d c)) s = true -> IndexByte s c = None.
Proof.
  induction s as [|d s IH]; simpl; [done|]. intros [Hd%negb_true_iff Hs]%andb_prop.
  by rewrite Hd, IH.
Qed.

Lemma CutByte_none s c :
  str_forall (fun d => negb (Ascii.eqb d c)) s = true -> CutByte s c = None.
Proof. intros H. unfold CutByte. by rewrite IndexByte_none. Qed.

Lemma str_forall_impl (P Q : ascii -> bool) s :
  (forall c, P c = true -> Q c = true) -> str_forall P s = true -> str_forall Q s = true.
Proof.
  intros HPQ. induction s as [|c s IH]; simpl; [done|]. intros [Hc Hs]%andb_prop.
  by rewrite HPQ, IH.
Qed.

Lemma str_forall_take P n s : str_forall P s = true -> str_forall P (str_take n s) = true.
Proof.
  intros H. rewrite <- (str_take_drop n s), str_forall_app in H. by apply andb_prop in H as [? _].
Qed.

Lemma str_forall_drop P n s : str_forall P s = true -> str_forall P (str_drop n s) = true.
Proof.
  intros H. rewrite <- (str_take_drop n s), str_forall_app in H. by apply andb_prop in H as [_ ?].
Qed.

Lemma LastIndexByte_None s c :
  LastIndexByte s c = None <-> str_forall (fun d => negb (Ascii.eqb d c)) s = true.
Proof.
  induction s as [|d s IH]; simpl; [done|].
  destruct (LastIndexByte s c) as [i|] eqn:E.
  - split; [done|]. rewrite andb_true_iff. intros [_ H]. by apply IH in H.
  - rewrite (proj1 IH eq_refl), andb_true_r. destruct (Ascii.eqb d c); done.
Qed.

Lemma LastIndexByte_Some s c i :
  LastIndexByte s c = Some i ->
  exists a b, s = a +:+ String c b /\ String.length a = i
    /\ str_forall (fun d => negb (Ascii.eqb d c)) b = true.
Proof.
  revert i. induction s as [|d s IH]; simpl; intros i H; [done|].
  destruct (LastIndexByte s c) as [j|] eqn:E.
  - simplify_eq. destruct (IH j eq_refl) as (a & b & -> & Hl & Hb).
    exists (String d a), b. rewrite str_app_cons. simpl. auto with lia.
  - destruct (Ascii.eqb_spec d c) as [->|]; simplify_eq. exists "", s.
    split; [done|]. split; [done|]. by apply LastIndexByte_None.
Qed.

Lemma str_take_length_lt i s :
  (i < String.length s)%nat -> (String.length (str_take i s) < String.length s)%nat.
Proof. intros. rewrite str_length_take; lia. Qed.

(** ** Runes

    [[]rune(s)], [for _, c := range s]: UTF-8 decoding, where each byte that
    starts no valid encoding becomes U+FFFD. *)

Definition byte_of (c : ascii) : Z := Z.of_N (N_of_ascii c).

Fixpoint bytes_of (s : string) : list Z :=
  match s with
  | EmptyString => []
  | String c s' => byte_of c :: bytes_of s'
  end.

Definition RuneError : Z := 0xFFFD.

Definition in_range (lo hi b : Z) : bool := (lo <=? b) && (b <=? hi).
Definition cont_byte (b : Z) : bool := in_range 0x80 0xBF b.

Definition valid2 (b0 b1 : Z) : bool := in_range 0xC2 0xDF b0 && cont_byte b1.
Definition valid3 (b0 b1 b2 : Z) : bool :=
  ((in_range 0xE0 0xE0 b0 && in_range 0xA0 0xBF b1)
   || (in_range 0xE1 0xEC b0 && cont_byte b1)
   || (in_range 0xED 0xED b0 && in_range 0x80 0x9F b1)
   || (in_range 0xEE 0xEF b0 && cont_byte b1)) && cont_byte b2.
Definition valid4 (b0 b1 b2 b3 : Z) : bool :=
  ((in_range 0xF0 0xF0 b0 && in_range 0x90 0xBF b1)
   || (in_range 0xF1 0xF3 b0 && cont_byte b1)
   || (in_range 0xF4 0xF4 b0 && in_range 0x80 0x8F b1)) && cont_byte b2 && cont_byte b3.

Definition rune2 (b0 b1 : Z) : Z := Z.lor (Z.shiftl (Z.land b0 0x1F) 6) (Z.land b1 0x3F).
Definition rune3 (b0 b1 b2 : Z) : Z :=
  Z.lor (Z.shiftl (Z.land b0 0x0F) 12) (Z.lor (Z.shiftl (Z.land b1 0x3F) 6) (Z.land b2 0x3F)).
Definition rune4 (b0 b1 b2 b3 : Z) : Z :=
  Z.lor (Z.shiftl (Z.land b0 0x07) 18) (Z.lor (Z.shiftl (Z.land b1 0x3F) 12)
    (Z.lor (Z.shiftl (Z.land b2 0x3F) 6) (Z.land b3 0x3F))).

Fixpoint decode_runes (bs : list Z) : list Z :=
  match bs with
  | [] => []
  | b0 :: t0 =>
      if b0 <? 0x80 then b0 :: decode_runes t0
      else match t0 with
      | b1 :: t1 =>
          if valid2 b0 b1 then rune2 b0 b1 :: decode_runes t1
          else match t1 with
          | b2 :: t2 =>
              if valid3 b0 b1 b2 then rune3 b0 b1 b2 :: decode_runes t2
              else match t2 with
              | b3 :: t3 =>
                  if valid4 b0 b1 b2 b3 then rune4 b0 b1 b2 b3 :: decode_runes t3
                  else RuneError :: decode_runes t0
              | [] => RuneError :: decode_runes t0
              end
          | [] => RuneError :: decode_runes t0
          end
      | [] => RuneError :: decode_runes t0
      end
  end.

Definition runes_of (s : string) : list Z := decode_runes (bytes_of s).

Definition ascii_byte (c : ascii) : bool := byte_of c <? 0x80.

Lemma runes_of_ascii s : str_forall ascii_byte s = true -> runes_of s = bytes_of s.
Proof.
  unfold runes_of. induction s as [|c s IH]; simpl; [done|]. intros [Hc Hs]%andb_prop.
  unfold ascii_byte in Hc. by rewrite Hc, IH.
Qed.

Lemma bytes_of_app s t : bytes_of (s +:+ t) = bytes_of s ++ bytes_of t.
Proof. induction s as [|c s IH]; [done|]. rewrite str_app_cons. simpl. by rewrite IH. Qed.

(** ** Bytes *)

(** [byte(z)] as a character, and back. *)
Definition char_of_byte (z : Z) : ascii := ascii_of_N (Z.to_N (uint8_wrap z)).

Lemma uint8_wrap_range z : 0 <= uint8_wrap z < 256.
Proof. unfold uint8_wrap. pose proof (Z.mod_pos_bound z (2 ^ 8) ltac:(lia)). lia. Qed.

Lemma uint8_wrap_id z : 0 <= z < 256 -> uint8_wrap z = z.
Proof. intros ?. unfold uint8_wrap. apply Z.mod_small. lia. Qed.

Lemma byte_of_char z : byte_of (char_of_byte z) = uint8_wrap z.
Proof.
  unfold byte_of, char_of_byte. pose proof (uint8_wrap_range z).
  rewrite N_ascii_embedding by lia. lia.
Qed.

Lemma byte_of_range c : 0 <= byte_of c < 256.
Proof. unfold byte_of. pose proof (N_ascii_bounded c). lia. Qed.

Lemma char_of_byte_of c : char_of_byte (byte_of c) = c.
Proof.
  unfold char_of_byte. rewrite uint8_wrap_id by apply byte_of_range. unfold byte_of.
  rewrite N2Z.id. apply ascii_N_embedding.
Qed.

(** A byte slice as the string of its bytes. *)
Definition string_of_bytes (bs : list Z) : string :=
  foldr (fun b s => String (char_of_byte b) s) EmptyString bs.

Lemma string_of_bytes_of s : string_of_bytes (bytes_of s) = s.
Proof. induction s as [|c s IH]; [done|]. simpl. by rewrite IH, char_of_byte_of. Qed.

Lemma bytes_of_string_of bs :
  Forall (fun b => 0 <= b < 256) bs -> bytes_of (string_of_bytes bs) = bs.
Proof.
  induction 1 as [|b bs Hb _ IH]; [done|]. simpl. by rewrite IH, byte_of_char, uint8_wrap_id.
Qed.

(** [io.ReadFull] of [n] bytes from a stream that ends after [s]. *)
Definition read_full (n : nat) (s : string) : option (string * string) :=
  if (n <=? String.length s)%nat then Some (str_take n s, str_drop n s) else None.

Lemma read_full_app a s : read_full (String.length a) (a +:+ s) = Some (a, s).
Proof.
  unfold read_full. rewrite str_length_app, (proj2 (Nat.leb_le _ _)) by lia.
  by rewrite str_take_app, str_drop_app.
Qed.
