(* ===== verification/GoStrconv.v ===== *)
(** * Numbers as text and white space: [strconv], [fmt] verbs and
      [strings.TrimSpace] as the program uses them

    Decimal formatting is fixed-width padding ([pad_dec], the [%0wd] verb)
    without its leading zeros; parsing is [ParseInt] in base 10. *)

From Stdlib Require Import Ascii.
From stdpp Require Import base numbers list strings.
From S2P Require Import Prelude GoStrings.

(** ** Decimal digits *)

Definition digit_char (d : Z) : ascii := char_of_byte (48 + d).

Definition digit_val (c : ascii) : option Z :=
  let d := byte_of c - 48 in
  if (0 <=? d) && (d <=? 9) then Some d else None.

Lemma digit_val_char d : 0 <= d < 10 -> digit_val (digit_char d) = Some d.
Proof.
  intros Hd. unfold digit_val, digit_char. rewrite byte_of_char, uint8_wrap_id by lia.
  replace (48 + d - 48) with d by lia.
  by rewrite (proj2 (Z.leb_le 0 d)), (proj2 (Z.leb_le d 9)) by lia.
Qed.

(** The last [w] digits of [z], [%0wd] for [0 <= z < 10 ^ w]. *)
Fixpoint pad_dec (w : nat) (z : Z) : string :=
  match w with
  | O => ""
  | S w' => pad_dec w' (z / 10) +:+ String (digit_char (z mod 10)) ""
  end.

(** The digits read from the left with an accumulator. *)
Fixpoint parse_digits (acc : Z) (s : string) : option Z :=
  match s with
  | EmptyString => Some acc
  | String c s' =>
      match digit_val c with
      | Some d => parse_digits (acc * 10 + d) s'
      | None => None
      end
  end.

Lemma parse_digits_app acc s t :
  parse_digits acc (s +:+ t) = parse_digits acc s ≫= fun a => parse_digits a t.
Proof.
  revert acc. induction s as [|c s IH]; intros acc; [done|]. rewrite str_app_cons. simpl.
  by destruct (digit_val c).
Qed.

Lemma parse_pad_dec w z acc :
  0 <= z < 10 ^ Z.of_nat w -> parse_digits acc (pad_dec w z) = Some (acc * 10 ^ Z.of_nat w + z).
Proof.
  revert z acc. induction w as [|w IH]; intros z acc Hz.
  - simpl in *. f_equal. lia.
  - rewrite Nat2Z.inj_succ, Z.pow_succ_r in * by lia. cbn [pad_dec].
    rewrite parse_digits_app, IH.
    2:{ split; [apply Z.div_pos; lia|apply Z.div_lt_upper_bound; lia]. }
    cbn [mbind option_bind parse_digits].
    rewrite digit_val_char by (apply Z.mod_pos_bound; lia). f_equal.
    pose proof (Z.div_mod z 10 ltac:(lia)). lia.
Qed.

Lemma pad_dec_length w z : String.length (pad_dec w z) = w.
Proof.
  revert z. induction w as [|w IH]; intros z; [done|]. cbn [pad_dec].
  rewrite str_length_app, IH. simpl. lia.
Qed.

Lemma pad_dec_forall (P : ascii -> bool) w z :
  (forall d, 0 <= d < 10 -> P (digit_char d) = true) -> 0 <= z ->
  str_forall P (pad_dec w z) = true.
Proof.
  intros HP. revert z. induction w as [|w IH]; intros z Hz; [done|]. cbn [pad_dec].
  rewrite str_forall_app, IH by (apply Z.div_pos; lia). simpl.
  by rewrite HP by (apply Z.mod_pos_bound; lia).
Qed.

Fixpoint trim_zeros (s : string) : string :=
  match s with
  | String c s' =>
      if Ascii.eqb c "0" then match trim_zeros s' with EmptyString => "0" | t => t end else s
  | EmptyString => ""
  end.

Lemma parse_trim_zeros acc s : acc = 0 -> parse_digits acc (trim_zeros s) = parse_digits acc s.
Proof.
  intros ->. induction s as [|c s IH]; [done|]. cbn [trim_zeros].
  destruct (Ascii.eqb_spec c "0") as [->|]; [|done].
  change (parse_digits 0 (String "0" s)) with (parse_digits 0 s). rewrite <- IH.
  by destruct (trim_zeros s).
Qed.

(** [strconv.Itoa], [FormatInt(z, 10)] and [%d] of a 64-bit integer. *)
Definition Itoa (z : Z) : string :=
  if z <? 0 then "-" +:+ trim_zeros (pad_dec 20 (- z)) else trim_zeros (pad_dec 20 z).

(** [ParseInt(s, 10, 64)]: an optional sign, digits, the range of [int64]. *)
Definition ParseInt (s : string) : option Z :=
  let '(neg, digits) :=
    match s with
    | String c s' =>
        if Ascii.eqb c "-" then (true, s') else if Ascii.eqb c "+" then (false, s') else (false, s)
    | EmptyString => (false, s)
    end in
  match digits with
  | EmptyString => None
  | _ =>
      match parse_digits 0 digits with
      | None => None
      | Some n =>
          let z := if neg then - n else n in
          if (- 2 ^ 63 <=? z) && (z <? 2 ^ 63) then Some z else None
      end
  end.

Lemma digits_of_parse s acc n :
  parse_digits acc s = Some n -> str_forall (fun c => bool_decide (is_Some (digit_val c))) s = true.
Proof.
  revert acc. induction s as [|c s IH]; intros acc H; [done|]. simpl in *.
  destruct (digit_val c) eqn:E; [|done]. simpl. by eapply IH.
Qed.

Lemma trim_zeros_nonempty s : s <> "" -> trim_zeros s <> "".
Proof. destruct s as [|c s]; [done|]. intros _. simpl. case_match; [|done]. by case_match. Qed.

Lemma ParseInt_digits s n :
  s <> "" -> parse_digits 0 s = Some n -> - 2 ^ 63 <= n < 2 ^ 63 -> ParseInt s = Some n.
Proof.
  intros Hne Hp Hr. unfold ParseInt. destruct s as [|c s]; [done|].
  assert (is_Some (digit_val c)) as [d Hd].
  { apply digits_of_parse in Hp. simpl in Hp. apply andb_prop in Hp as [Hp _].
    by apply bool_decide_eq_true in Hp. }
  destruct (Ascii.eqb_spec c "-") as [->|]; [by vm_compute in Hd|].
  destruct (Ascii.eqb_spec c "+") as [->|]; [by vm_compute in Hd|]. rewrite Hp.
  by rewrite (proj2 (Z.leb_le _ _)), (proj2 (Z.ltb_lt _ _)) by lia.
Qed.

Lemma ParseInt_Itoa z : int64_range z -> ParseInt (Itoa z) = Some z.
Proof.
  unfold int64_range. intros Hz. unfold Itoa. destruct (Z.ltb_spec z 0).
  - unfold ParseInt. rewrite str_app_cons, str_app_nil_l. cbn [Ascii.eqb Bool.eqb].
    assert (trim_zeros (pad_dec 20 (- z)) <> "") as Hne.
    { apply trim_zeros_nonempty. intros E. pose proof (pad_dec_length 20 (- z)) as Hl. by rewrite E in Hl. }
    destruct (trim_zeros (pad_dec 20 (- z))) as [|c s] eqn:E; [done|].
    rewrite <- E, parse_trim_zeros, parse_pad_dec by lia. cbn.
    rewrite (proj2 (Z.leb_le _ _)), (proj2 (Z.ltb_lt _ _)) by lia. f_equal. lia.
  - apply ParseInt_digits; [|rewrite parse_trim_zeros, parse_pad_dec by lia; f_equal; lia|lia].
    apply trim_zeros_nonempty. intros E. pose proof (pad_dec_length 20 z) as Hl. by rewrite E in Hl.
Qed.

(** Padded decimals sort like their values. *)
Lemma str_ltb_app_eq s t u v :
  String.length s = String.length t ->
  ((s +:+ u) <s? (t +:+ v)) = (s <s? t) || (bool_decide (s = t) && (u <s? v)).
Proof.
  revert t. induction s as [|c s IH]; intros [|d t] Hl; try done.
  injection Hl as Hl. rewrite !str_app_cons. unfold str_ltb. simpl.
  specialize (IH t Hl). unfold str_ltb in IH.
  destruct (Ascii.compare c d) eqn:E.
  - apply Ascii.compare_eq_iff in E as ->. rewrite IH.
    destruct (decide (s = t)) as [->|Hne].
    + by rewrite !bool_decide_eq_true_2.
    + rewrite !bool_decide_eq_false_2 by congruence. done.
  - done.
  - rewrite bool_decide_eq_false_2; [done|]. intros [= -> ->].
    unfold Ascii.compare in E. by rewrite N.compare_refl in E.
Qed.

Lemma digit_char_inj d e : 0 <= d < 10 -> 0 <= e < 10 -> digit_char d = digit_char e -> d = e.
Proof.
  intros Hd He H. assert (digit_val (digit_char d) = digit_val (digit_char e)) as E by by rewrite H.
  rewrite !digit_val_char in E by done. by injection E.
Qed.

Lemma digit_char_ltb d e :
  0 <= d < 10 -> 0 <= e < 10 ->
  (String (digit_char d) "" <s? String (digit_char e) "") = (d <? e).
Proof.
  intros Hd He.
  assert (In d [0; 1; 2; 3; 4; 5; 6; 7; 8; 9]) as Hd' by (simpl; lia).
  assert (In e [0; 1; 2; 3; 4; 5; 6; 7; 8; 9]) as He' by (simpl; lia).
  clear Hd He. simpl in *.
  repeat (destruct Hd' as [<-|Hd']; [repeat (destruct He' as [<-|He']; [done|]); done|]). done.
Qed.

Lemma pad_dec_ltb w a b :
  0 <= a < 10 ^ Z.of_nat w -> 0 <= b < 10 ^ Z.of_nat w ->
  (pad_dec w a <s? pad_dec w b) = (a <? b).
Proof.
  revert a b. induction w as [|w IH]; intros a b Ha Hb.
  - simpl in *. symmetry. apply Z.ltb_ge. lia.
  - rewrite Nat2Z.inj_succ, Z.pow_succ_r in * by lia. cbn [pad_dec].
    assert (forall z, 0 <= z < 10 * 10 ^ Z.of_nat w -> 0 <= z / 10 < 10 ^ Z.of_nat w) as Hdiv
      by (intros z Hz; split; [apply Z.div_pos; lia|apply Z.div_lt_upper_bound; lia]).
    rewrite str_ltb_app_eq by by rewrite !pad_dec_length.
    rewrite IH by auto. rewrite digit_char_ltb by (apply Z.mod_pos_bound; lia).
    pose proof (Z.div_mod a 10 ltac:(lia)). pose proof (Z.div_mod b 10 ltac:(lia)).
    pose proof (Z.mod_pos_bound a 10 ltac:(lia)). pose proof (Z.mod_pos_bound b 10 ltac:(lia)).
    destruct (Z.ltb_spec (a / 10) (b / 10)) as [H4|H4]; simpl.
    { symmetry. apply Z.ltb_lt. lia. }
    case_bool_decide as He; simpl.
    + assert (a / 10 = b / 10) as E.
      { assert (parse_digits 0 (pad_dec w (a / 10)) = parse_digits 0 (pad_dec w (b / 10))) as Hp by by rewrite He.
        rewrite !parse_pad_dec in Hp by auto. injection Hp as Hp. lia. }
      destruct (Z.ltb_spec (a mod 10) (b mod 10)), (Z.ltb_spec a b); lia.
    + assert (a / 10 <> b / 10) by congruence. symmetry. apply Z.ltb_ge. lia.
Qed.

(** ** White space

    [unicode.IsSpace]: the ASCII spaces and the multi-byte encodings of U+0085,
    U+00A0 and the space separators. *)

Definition ascii_space (b : Z) : bool := in_range 9 13 b || (b =? 32).
Definition space2 (b0 b1 : Z) : bool := (b0 =? 0xC2) && ((b1 =? 0x85) || (b1 =? 0xA0)).
Definition space3 (b0 b1 b2 : Z) : bool :=
  ((b0 =? 0xE1) && (b1 =? 0x9A) && (b2 =? 0x80))
  || ((b0 =? 0xE2) && (b1 =? 0x80)
      && (in_range 0x80 0x8A b2 || (b2 =? 0xA8) || (b2 =? 0xA9) || (b2 =? 0xAF)))
  || ((b0 =? 0xE2) && (b1 =? 0x81) && (b2 =? 0x9F))
  || ((b0 =? 0xE3) && (b1 =? 0x80) && (b2 =? 0x80)).

Fixpoint trim_left (bs : list Z) : list Z :=
  match bs with
  | [] => []
  | b0 :: t0 =>
      if ascii_space b0 then trim_left t0
      else match t0 with
      | b1 :: t1 =>
          if space2 b0 b1 then trim_left t1
          else match t1 with
          | b2 :: t2 => if space3 b0 b1 b2 then trim_left t2 else bs
          | [] => bs
          end
      | [] => bs
      end
  end.

(** The same on the reversed bytes. *)
Fixpoint trim_right_rev (bs : list Z) : list Z :=
  match bs with
  | [] => []
  | b0 :: t0 =>
      if ascii_space b0 then trim_right_rev t0
      else match t0 with
      | b1 :: t1 =>
          if space2 b1 b0 then trim_right_rev t1
          else match t1 with
          | b2 :: t2 => if space3 b2 b1 b0 then trim_right_rev t2 else bs
          | [] => bs
          end
      | [] => bs
      end
  end.

(** [strings.TrimSpace] *)
Definition TrimSpace (s : string) : string :=
  string_of_bytes (reverse (trim_right_rev (reverse (trim_left (bytes_of s))))).

(** [strings.TrimSpace(s) == ""] *)
Definition isBlank (s : string) : bool := bool_decide (TrimSpace s = "").

(** Visible ASCII characters are never trimmed. *)
Definition solid (c : ascii) : bool := in_range 33 127 (byte_of c).

Lemma solid_bytes s :
  str_forall solid s = true -> Forall (fun b => 33 <= b <= 127) (bytes_of s).
Proof.
  induction s as [|c s IH]; simpl; [constructor|]. intros [Hc Hs]%andb_prop.
  unfold solid, in_range in Hc. apply andb_prop in Hc as [?%Z.leb_le ?%Z.leb_le].
  constructor; auto.
Qed.

Lemma not_space b : 33 <= b <= 127 -> ascii_space b = false.
Proof.
  intros Hb. unfold ascii_space, in_range. apply orb_false_iff. split; [|apply Z.eqb_neq; lia].
  apply andb_false_iff. right. apply Z.leb_gt. lia.
Qed.

Lemma neqb_range b k : 33 <= b <= 127 -> 127 < k -> Z.eqb b k = false.
Proof. intros ? ?. apply Z.eqb_neq. lia. Qed.

Lemma trim_left_solid bs : Forall (fun b => 33 <= b <= 127) bs -> trim_left bs = bs.
Proof.
  intros H. destruct H as [|b0 bs H0 H]; [done|]. cbn [trim_left]. rewrite not_space by done.
  destruct H as [|b1 bs _ H]; [done|]. unfold space2. rewrite (neqb_range b0) by lia. simpl.
  destruct H as [|b2 bs _ _]; [done|]. unfold space3.
  rewrite !(neqb_range b0) by lia. done.
Qed.

Lemma trim_right_solid bs : Forall (fun b => 33 <= b <= 127) bs -> trim_right_rev bs = bs.
Proof.
  intros H. destruct H as [|b0 bs H0 H]; [done|]. cbn [trim_right_rev]. rewrite not_space by done.
  destruct H as [|b1 bs H1 H]; [done|]. unfold space2. rewrite (neqb_range b1) by lia. simpl.
  destruct H as [|b2 bs H2 _]; [done|]. unfold space3.
  rewrite !(neqb_range b2) by lia. done.
Qed.

Lemma TrimSpace_solid s : str_forall solid s = true -> TrimSpace s = s.
Proof.
  intros H%solid_bytes. unfold TrimSpace. rewrite trim_left_solid by done.
  rewrite trim_right_solid by by apply Forall_reverse.
  by rewrite reverse_involutive, string_of_bytes_of.
Qed.

Definition blank (c : ascii) : bool := ascii_space (byte_of c).

Lemma trim_left_blank s bs : str_forall blank s = true -> trim_left (bytes_of s ++ bs) = trim_left bs.
Proof.
  induction s as [|c s IH]; [done|]. simpl. intros [Hc Hs]%andb_prop. unfold blank in Hc.
  rewrite Hc. by apply IH.
Qed.

Lemma trim_right_blank bs s :
  str_forall blank s = true -> trim_right_rev (reverse (bytes_of s) ++ bs) = trim_right_rev bs.
Proof.
  induction s as [|c s IH] in bs |- *; [done|]. simpl. intros [Hc Hs]%andb_prop. unfold blank in Hc.
  rewrite reverse_cons, <- (assoc_L (++)). rewrite IH by done. cbn [app trim_right_rev]. by rewrite Hc.
Qed.

Lemma trim_left_head b bs : 33 <= b <= 127 -> trim_left (b :: bs) = b :: bs.
Proof.
  intros Hb. cbn [trim_left]. rewrite not_space by done.
  destruct bs as [|b1 [|b2 bs]]; [done| |]; unfold space2, space3; rewrite !(neqb_range b) by lia; done.
Qed.

Lemma trim_right_head b bs : 33 <= b <= 127 -> trim_right_rev (b :: bs) = b :: bs.
Proof.
  intros Hb. cbn [trim_right_rev]. rewrite not_space by done.
  assert (128 <=? b = false) as Hr by (apply Z.leb_gt; lia).
  destruct bs as [|b1 [|b2 bs]]; [done| |]; unfold space2, space3, in_range;
    rewrite !(neqb_range b) by lia; rewrite ?Hr; simpl; rewrite ?andb_false_r; done.
Qed.

Lemma solid_range c : solid c = true -> 33 <= byte_of c <= 127.
Proof. unfold solid, in_range. intros [?%Z.leb_le ?%Z.leb_le]%andb_prop. lia. Qed.

(** Only the blanks around a text that begins and ends with visible
    characters are trimmed. *)
Lemma TrimSpace_ends l core r c m d n :
  str_forall blank l = true -> str_forall blank r = true ->
  core = String c m -> core = n +:+ String d "" -> solid c = true -> solid d = true ->
  TrimSpace (l +:+ core +:+ r) = core.
Proof.
  intros Hl Hr H1 H2 Hc%solid_range Hd%solid_range. unfold TrimSpace.
  rewrite !bytes_of_app, trim_left_blank by done.
  assert (trim_left (bytes_of core ++ bytes_of r) = bytes_of core ++ bytes_of r) as ->.
  { rewrite H1. cbn [bytes_of app]. by apply trim_left_head. }
  rewrite reverse_app, trim_right_blank by done.
  rewrite H2, bytes_of_app, reverse_app. cbn [bytes_of]. rewrite reverse_singleton. cbn [app].
  rewrite trim_right_head by done. rewrite reverse_cons, reverse_involutive.
  rewrite <- (string_of_bytes_of (n +:+ String d "")). by rewrite bytes_of_app.
Qed.

#[global] Arguments TrimSpace : simpl never.
#[global] Arguments isBlank : simpl never.
#[global] Arguments Itoa : simpl never.
#[global] Arguments ParseInt : simpl never.
#[global] Arguments pad_dec : simpl never.
