(* ===== verification/GoText.v ===== *)
(** * Letter case, trimming by character and base64 of the Go standard library

    [strings.ToLower] and [strings.EqualFold] on the strings the program
    compares, [strings.TrimRight]/[Contains] for one character, and
    [encoding/base64] with its two alphabets, padded and raw. *)

From Stdlib Require Import Ascii.
From stdpp Require Import base numbers list strings.
From S2P Require Import Prelude GoStrings.

(** Concatenations nested to the right, constants in front. *)
Ltac str_norm :=
  repeat first [rewrite str_app_assoc | rewrite str_app_cons | rewrite str_app_nil_l].

(** ** Letter case *)

Definition lowerChar (c : ascii) : ascii :=
  if in_range 65 90 (byte_of c) then char_of_byte (byte_of c + 32) else c.

Fixpoint lowerASCII (s : string) : string :=
  match s with
  | EmptyString => EmptyString
  | String c s' => String (lowerChar c) (lowerASCII s')
  end.

(** [strings.ToLower]: computed on ASCII strings, the Unicode table
    ([unicodeLower]) is a parameter. *)
Definition ToLower (unicodeLower : string -> string) (s : string) : string :=
  if str_forall ascii_byte s then lowerASCII s else unicodeLower s.

Definition upperChar (c : ascii) : ascii :=
  if in_range 97 122 (byte_of c) then char_of_byte (byte_of c - 32) else c.

Fixpoint upperASCII (s : string) : string :=
  match s with
  | EmptyString => EmptyString
  | String c s' => String (upperChar c) (upperASCII s')
  end.

(** [strings.ToUpper], likewise. *)
Definition ToUpper (unicodeUpper : string -> string) (s : string) : string :=
  if str_forall ascii_byte s then upperASCII s else unicodeUpper s.

(** Simple case folding of a rune, as far as ASCII letters are reached: the
    only other runes that fold to one are U+017F and U+212A. *)
Definition foldRune (r : Z) : Z :=
  if in_range 65 90 r then r + 32
  else if r =? 0x17F then 115
  else if r =? 0x212A then 107
  else r.

(** [strings.EqualFold(s, t)] for an ASCII [t]. *)
Definition EqualFold (s t : string) : bool :=
  bool_decide (map foldRune (runes_of s) = map foldRune (runes_of t)).

(** ** Trimming by character *)

(** [strings.TrimRight(s, string(c))] *)
Fixpoint TrimRightByte (c : ascii) (s : string) : string :=
  match s with
  | EmptyString => ""
  | String a s' =>
      match TrimRightByte c s' with
      | EmptyString => if Ascii.eqb a c then "" else String a ""
      | t => String a t
      end
  end.

(** [strings.Contains(s, string(c))] *)
Definition ContainsByte (c : ascii) (s : string) : bool :=
  negb (str_forall (fun a => negb (Ascii.eqb a c)) s).

Lemma TrimRightByte_none c s :
  str_forall (fun a => negb (Ascii.eqb a c)) s = true -> TrimRightByte c s = s.
Proof.
  induction s as [|a s IH]; [done|]. simpl. intros [H1%negb_true_iff H2]%andb_prop.
  rewrite IH by done. destruct s; [by rewrite H1|done].
Qed.

(** ** base64 *)

(** The alphabet of a standard or URL encoding. *)
Definition b64char (url : bool) (i : Z) : ascii :=
  if i <? 26 then char_of_byte (65 + i)
  else if i <? 52 then char_of_byte (71 + i)
  else if i <? 62 then char_of_byte (i - 4)
  else if i =? 62 then (if url then "-" else "+")%char
  else (if url then "_" else "/")%char.

Definition b64val (url : bool) (c : ascii) : option Z :=
  let b := byte_of c in
  if in_range 65 90 b then Some (b - 65)
  else if in_range 97 122 b then Some (b - 71)
  else if in_range 48 57 b then Some (b + 4)
  else if Ascii.eqb c (if url then "-" else "+")%char then Some 62
  else if Ascii.eqb c (if url then "_" else "/")%char then Some 63
  else None.

(** [EncodeToString]; [pad] is false for the raw encodings. *)
Fixpoint b64encode (url pad : bool) (s : string) : string :=
  match s with
  | EmptyString => ""
  | String a EmptyString =>
      let x := byte_of a in
      String (b64char url (x / 4)) (String (b64char url (x mod 4 * 16)) (if pad then "==" else ""))
  | String a (String b EmptyString) =>
      let x := byte_of a in let y := byte_of b in
      String (b64char url (x / 4)) (String (b64char url (x mod 4 * 16 + y / 16))
        (String (b64char url (y mod 16 * 4)) (if pad then "=" else "")))
  | String a (String b (String c s')) =>
      let x := byte_of a in let y := byte_of b in let z := byte_of c in
      String (b64char url (x / 4)) (String (b64char url (x mod 4 * 16 + y / 16))
        (String (b64char url (y mod 16 * 4 + z / 64)) (String (b64char url (z mod 64))
          (b64encode url pad s'))))
  end.

Definition b64byte1 (x y : Z) : ascii := char_of_byte (x * 4 + y / 16).
Definition b64byte2 (y z : Z) : ascii := char_of_byte (y mod 16 * 16 + z / 4).
Definition b64byte3 (z w : Z) : ascii := char_of_byte (z mod 4 * 64 + w).

(** [DecodeString] after the line breaks are dropped; the bits left in the last
    group are not checked. *)
Fixpoint b64quanta (url pad : bool) (s : string) : option string :=
  match s with
  | EmptyString => Some ""
  | String a (String b (String c (String d s'))) =>
      match b64val url a, b64val url b with
      | Some x, Some y =>
          match b64val url c, b64val url d with
          | Some z, Some w =>
              (fun r => String (b64byte1 x y) (String (b64byte2 y z) (String (b64byte3 z w) r)))
                <$> b64quanta url pad s'
          | Some z, None =>
              if pad && Ascii.eqb d "=" && bool_decide (s' = "")
              then Some (String (b64byte1 x y) (String (b64byte2 y z) "")) else None
          | None, _ =>
              if pad && Ascii.eqb c "=" && Ascii.eqb d "=" && bool_decide (s' = "")
              then Some (String (b64byte1 x y) "") else None
          end
      | _, _ => None
      end
  | String a (String b (String c EmptyString)) =>
      if pad then None
      else match b64val url a, b64val url b, b64val url c with
           | Some x, Some y, Some z => Some (String (b64byte1 x y) (String (b64byte2 y z) ""))
           | _, _, _ => None
           end
  | String a (String b EmptyString) =>
      if pad then None
      else match b64val url a, b64val url b with
           | Some x, Some y => Some (String (b64byte1 x y) "")
           | _, _ => None
           end
  | String a EmptyString => None
  end.

Fixpoint dropNewlines (s : string) : string :=
  match s with
  | EmptyString => ""
  | String c s' =>
      if (byte_of c =? 10) || (byte_of c =? 13) then dropNewlines s' else String c (dropNewlines s')
  end.

Definition b64decode (url pad : bool) (s : string) : option string :=
  b64quanta url pad (dropNewlines s).

Lemma b64val_char url i : 0 <= i < 64 -> b64val url (b64char url i) = Some i.
Proof.
  intros Hi. assert (forallb (fun i => bool_decide (b64val url (b64char url i) = Some i))
    (map Z.of_nat (seq 0 64)) = true) as H by (destruct url; vm_compute; reflexivity).
  rewrite forallb_forall in H. specialize (H i). rewrite bool_decide_eq_true in H. apply H.
  apply in_map_iff. exists (Z.to_nat i). split; [lia|]. apply in_seq. lia.
Qed.

(** The characters base64 writes. *)
Definition b64safe (c : ascii) : bool :=
  in_range 43 57 (byte_of c) || in_range 65 90 (byte_of c) || (byte_of c =? 61)
  || (byte_of c =? 95) || in_range 97 122 (byte_of c).

Lemma b64char_safe url i : 0 <= i < 64 -> b64safe (b64char url i) = true.
Proof.
  intros Hi. assert (forallb (fun i => b64safe (b64char url i))
    (map Z.of_nat (seq 0 64)) = true) as H by (destruct url; vm_compute; reflexivity).
  rewrite forallb_forall in H. apply (H i).
  apply in_map_iff. exists (Z.to_nat i). split; [lia|]. apply in_seq. lia.
Qed.

Lemma string_ind3 (P : string -> Prop) :
  P "" -> (forall a, P (String a "")) -> (forall a b, P (String a (String b ""))) ->
  (forall a b c s, P s -> P (String a (String b (String c s)))) -> forall s, P s.
Proof.
  intros H0 H1 H2 H3. fix IH 1. intros [|a [|b [|c s]]]; [done|apply H1|apply H2|].
  apply H3, IH.
Qed.

Lemma b64encode_safe url pad s : str_forall b64safe (b64encode url pad s) = true.
Proof.
  induction s as [|a|a b|a b c s IH] using string_ind3; [done| | |]; cbn [b64encode str_forall];
    pose proof (byte_of_range a); try pose proof (byte_of_range b); try pose proof (byte_of_range c);
    rewrite !b64char_safe by (Z.div_mod_to_equations; lia); try done; by destruct pad.
Qed.

Lemma dropNewlines_safe s : str_forall b64safe s = true -> dropNewlines s = s.
Proof.
  induction s as [|c s IH]; [done|]. simpl. intros [H1 H2]%andb_prop. rewrite IH by done.
  unfold b64safe, in_range in H1. destruct (Z.eqb_spec (byte_of c) 10) as [E|]; [by rewrite E in H1|].
  destruct (Z.eqb_spec (byte_of c) 13) as [E|]; [by rewrite E in H1|done].
Qed.

Lemma char_of_byte_eq z c : z = byte_of c -> char_of_byte z = c.
Proof. intros ->. apply char_of_byte_of. Qed.

Lemma b64_roundtrip url pad s : b64decode url pad (b64encode url pad s) = Some s.
Proof.
  unfold b64decode. rewrite dropNewlines_safe by apply b64encode_safe.
  induction s as [|a|a b|a b c s IH] using string_ind3; [done| | |]; cbn [b64encode];
    pose proof (byte_of_range a); try pose proof (byte_of_range b); try pose proof (byte_of_range c);
    unfold b64byte1, b64byte2, b64byte3.
  - destruct pad; cbn [b64quanta]; rewrite !b64val_char by (Z.div_mod_to_equations; lia);
      [replace (b64val url "=") with (@None Z) by (by destruct url)|]; cbn; do 2 f_equal;
      apply char_of_byte_eq; Z.div_mod_to_equations; lia.
  - destruct pad; cbn [b64quanta]; rewrite !b64val_char by (Z.div_mod_to_equations; lia);
      [replace (b64val url "=") with (@None Z) by (by destruct url)|]; cbn; repeat f_equal;
      apply char_of_byte_eq; Z.div_mod_to_equations; lia.
  - cbn [b64quanta]. rewrite !b64val_char by (Z.div_mod_to_equations; lia). rewrite IH. cbn.
    repeat f_equal; apply char_of_byte_eq; Z.div_mod_to_equations; lia.
Qed.

(** ** [encoding/hex] *)

Definition hexDigit (z : Z) : ascii := default "0"%char (String.get (Z.to_nat z) "0123456789abcdef").
Definition hexEncode (s : string) : string :=
  foldr (fun b acc => String (hexDigit (b / 16)) (String (hexDigit (b mod 16)) acc)) "" (bytes_of s).

Lemma hexEncode_length s : slen (hexEncode s) = 2 * slen s.
Proof. unfold hexEncode, slen. induction s as [|c s IH]; [done|]. cbn [bytes_of foldr String.length] in *. lia. Qed.

(** A digit of a number below 16. *)
Definition hexChar (c : ascii) : bool := in_range 48 57 (byte_of c) || in_range 97 102 (byte_of c).

Lemma hexDigit_char z : 0 <= z < 16 -> hexChar (hexDigit z) = true.
Proof.
  intros H. assert (forallb (fun n => hexChar (hexDigit (Z.of_nat n))) (seq 0 16) = true) as Hall by (vm_compute; reflexivity).
  rewrite forallb_forall in Hall. specialize (Hall (Z.to_nat z)). rewrite Z2Nat.id in Hall by lia. apply Hall, in_seq. lia.
Qed.

Lemma hexEncode_chars s : str_forall hexChar (hexEncode s) = true.
Proof.
  unfold hexEncode. induction s as [|c s IH]; [done|]. cbn [bytes_of foldr str_forall]. pose proof (byte_of_range c).
  rewrite !hexDigit_char, IH; [done| |]; [apply Z.mod_pos_bound; lia|].
  split; [apply Z.div_pos; lia|apply Z.div_lt_upper_bound; lia].
Qed.
