(* ===== verification/GoFloat.v ===== *)
(** * Go's [float64]

    The operations the sources use on doubles, by the executable specification of
    IEEE 754 in the Standard Library ([SpecFloat], 53 bits of precision,
    exponents below 1024), and the arithmetic of counts. *)

From Stdlib Require SpecFloat.
From stdpp Require Import base numbers list.
From S2P Require Import Prelude.

#[local] Open Scope Z_scope.

Notation float64 := SpecFloat.spec_float.

Definition f64_of_int (z : Z) : float64 := SpecFloat.binary_normalize 53 1024 z 0 false.
Definition f64_add : float64 -> float64 -> float64 := SpecFloat.SFadd 53 1024.
Definition f64_sub : float64 -> float64 -> float64 := SpecFloat.SFsub 53 1024.
Definition f64_mul : float64 -> float64 -> float64 := SpecFloat.SFmul 53 1024.
Definition f64_div : float64 -> float64 -> float64 := SpecFloat.SFdiv 53 1024.
Definition f64_lt : float64 -> float64 -> bool := SpecFloat.SFltb.

(** [Duration.Seconds]: the whole seconds and the rest, as doubles. *)
Definition duration_Seconds (d : Duration) : float64 :=
  f64_add (f64_of_int (Z.quot d second)) (f64_div (f64_of_int (Z.rem d second)) (f64_of_int 1000000000)).

(** ** Counts

    Counts below [2^53] are exact, and one is taken from them exactly. *)

Definition digits (n : Z) : Z := Z.log2 n + 1.

(** The double of a count [n > 0]. *)
Definition count64 (n : Z) : float64 :=
  match n * 2 ^ (53 - digits n) with Zpos m => SpecFloat.S754_finite false m (digits n - 53) | _ => SpecFloat.S754_zero false end.

Lemma digits2_log2 p : Zpos (SpecFloat.digits2_pos p) = digits (Zpos p).
Proof.
  unfold digits. induction p as [p IH|p IH|]; simpl SpecFloat.digits2_pos; [| |done].
  - rewrite Pos2Z.inj_succ, IH. change (Zpos p~1) with (2 * Zpos p + 1). rewrite Z.log2_succ_double by lia. lia.
  - rewrite Pos2Z.inj_succ, IH. change (Zpos p~0) with (2 * Zpos p). rewrite Z.log2_double by lia. lia.
Qed.

Lemma Zdigits2_log2 z : 0 < z -> SpecFloat.Zdigits2 z = digits z.
Proof. destruct z as [|p|p]; [lia| |lia]. intros _. apply digits2_log2. Qed.

Lemma digits_shift n k : 0 < n -> 0 <= k -> digits (n * 2 ^ k) = digits n + k.
Proof. intros Hn Hk. unfold digits. rewrite Z.log2_mul_pow2 by lia. lia. Qed.

Lemma iter_shift d m : Zpos (Pos.iter xO m d) = Zpos m * 2 ^ Zpos d.
Proof.
  induction d as [|d IH] using Pos.peano_ind; [change (2 ^ 1) with 2; simpl Pos.iter; lia|].
  rewrite Pos.iter_succ, Pos2Z.inj_succ, Z.pow_succ_r by lia. change (Zpos (Pos.iter xO m d)~0) with (2 * Zpos (Pos.iter xO m d)). lia.
Qed.

Lemma iter_pos_add {A} (f : A -> A) p x : SpecFloat.iter_pos f p x = Pos.iter f x p.
Proof.
  revert x. induction p as [p IH|p IH|]; intros x; simpl; [| |done].
  - by rewrite !IH, !Pos.iter_swap.
  - by rewrite !IH.
Qed.

Definition exact (m : Z) : SpecFloat.shr_record := SpecFloat.Build_shr_record m false false.

Lemma shr_1_exact m : 0 < m -> SpecFloat.shr_1 (exact (2 * m)) = exact m.
Proof. destruct m; [lia| |lia]. done. Qed.

Lemma shr_exact k m e : 0 < m -> 0 <= k -> SpecFloat.shr (exact (m * 2 ^ k)) e k = (exact m, e + k).
Proof.
  intros Hm Hk. destruct k as [|p|p]; [|clear Hk|lia].
  { simpl. by rewrite Z.mul_1_r, Z.add_0_r. }
  unfold SpecFloat.shr. f_equal. rewrite iter_pos_add. revert m Hm. induction p as [|p IH] using Pos.peano_ind; intros m Hm.
  - simpl Pos.iter. rewrite Z.mul_comm. by apply shr_1_exact.
  - rewrite Pos.iter_succ_r, Pos2Z.inj_succ, Z.pow_succ_r by lia. replace (m * (2 * 2 ^ Zpos p)) with (2 * (m * 2 ^ Zpos p)) by lia.
    rewrite shr_1_exact by lia. by apply IH.
Qed.

Lemma round_exact c s E :
  0 < c -> digits c = 53 -> 0 <= s -> - 1074 <= E <= 971 ->
  SpecFloat.binary_round_aux 53 1024 false (c * 2 ^ s) (E - s) SpecFloat.loc_Exact =
  match c with Zpos m => SpecFloat.S754_finite false m E | _ => SpecFloat.S754_zero false end.
Proof.
  intros Hc Hd Hs HE. unfold SpecFloat.binary_round_aux, SpecFloat.shr_fexp.
  assert (0 < c * 2 ^ s) as Hcs by (apply Z.mul_pos_pos; [done|apply Z.pow_pos_nonneg; lia]).
  rewrite Zdigits2_log2, digits_shift, Hd by done.
  assert (SpecFloat.fexp 53 1024 (53 + s + (E - s)) - (E - s) = s) as -> by (unfold SpecFloat.fexp, SpecFloat.emin; lia).
  change (SpecFloat.shr_record_of_loc (c * 2 ^ s) SpecFloat.loc_Exact) with (exact (c * 2 ^ s)). rewrite shr_exact by done.
  simpl (SpecFloat.round_nearest_even _ _). rewrite Zdigits2_log2, Hd by done.
  replace (E - s + s) with E by lia.
  assert (SpecFloat.fexp 53 1024 (53 + E) - E = 0) as -> by (unfold SpecFloat.fexp, SpecFloat.emin; lia).
  simpl. destruct c as [|m|m]; [lia| |lia]. simpl. by rewrite (proj2 (Z.leb_le E (1024 - 53))) by lia.
Qed.

Lemma normalize_exact n k :
  0 < n < 2 ^ 53 -> 0 <= k <= 1000 -> SpecFloat.binary_normalize 53 1024 (n * 2 ^ k) (- k) false = count64 n.
Proof.
  intros Hn Hk. assert (1 <= digits n <= 53) as Hd.
  { unfold digits. pose proof (Z.log2_nonneg n). assert (Z.log2 n < 53) by (apply Z.log2_lt_pow2; lia). lia. }
  assert (0 < 2 ^ (53 - digits n)) as Hp by (apply Z.pow_pos_nonneg; lia).
  set (c := n * 2 ^ (53 - digits n)). assert (digits c = 53) as Hc53 by (unfold c; rewrite digits_shift by lia; lia).
  assert (0 < c) as Hc by (unfold c; nia).
  assert (count64 n = match c with Zpos m => SpecFloat.S754_finite false m (digits n - 53) | _ => SpecFloat.S754_zero false end) as -> by done.
  assert (0 < n * 2 ^ k) as Hnk by (apply Z.mul_pos_pos; [lia|apply Z.pow_pos_nonneg; lia]).
  pose proof (digits_shift n k ltac:(lia) ltac:(lia)) as Hdk. unfold SpecFloat.binary_normalize.
  destruct (n * 2 ^ k) as [|m|m] eqn:Em; [lia| |lia]. unfold SpecFloat.binary_round. rewrite digits2_log2, Hdk.
  assert (SpecFloat.fexp 53 1024 (digits n + k + - k) = digits n - 53) as -> by (unfold SpecFloat.fexp, SpecFloat.emin; lia).
  unfold SpecFloat.shl_align. destruct (digits n - 53 - - k) as [|d|d] eqn:Ed.
  - rewrite <- (round_exact c 0 (digits n - 53) Hc Hc53) by lia. rewrite Z.mul_1_r, <- Em. f_equal; [|lia]. unfold c. f_equal. f_equal. lia.
  - rewrite <- (round_exact c (Zpos d) (digits n - 53) Hc Hc53) by lia. f_equal; [|lia]. rewrite <- Em. unfold c. rewrite <- Z.mul_assoc, <- Z.pow_add_r by lia.
    f_equal. f_equal. lia.
  - rewrite <- (round_exact c 0 (digits n - 53) Hc Hc53) by lia. rewrite Z.mul_1_r, Z.sub_0_r, iter_shift, <- Em. f_equal. unfold c.
    rewrite <- Z.mul_assoc, <- Z.pow_add_r by lia. f_equal. f_equal. lia.
Qed.

Lemma f64_count n : 0 < n < 2 ^ 53 -> f64_of_int n = count64 n.
Proof. intros Hn. unfold f64_of_int. rewrite <- (normalize_exact n 0) by lia. by rewrite Z.mul_1_r. Qed.

Lemma count64_shape n : 0 < n < 2 ^ 53 -> exists m, n * 2 ^ (53 - digits n) = Zpos m /\ count64 n = SpecFloat.S754_finite false m (digits n - 53) /\ 1 <= digits n <= 53.
Proof.
  intros Hn. assert (1 <= digits n <= 53) as Hd.
  { unfold digits. pose proof (Z.log2_nonneg n). assert (Z.log2 n < 53) by (apply Z.log2_lt_pow2; lia). lia. }
  assert (0 < 2 ^ (53 - digits n)) by (apply Z.pow_pos_nonneg; lia). unfold count64.
  destruct (n * 2 ^ (53 - digits n)) as [|m|m] eqn:Em; [nia| |nia]. by exists m.
Qed.

Lemma count64_one : count64 1 = SpecFloat.S754_finite false (2 ^ 52) (- 52).
Proof. reflexivity. Qed.

Lemma take_one n : 0 < n < 2 ^ 53 -> f64_sub (f64_of_int n) (f64_of_int 1) = f64_of_int (n - 1).
Proof.
  intros Hn. rewrite (f64_count n), (f64_count 1), count64_one by lia. destruct (count64_shape n Hn) as (m & Hm & -> & Hd).
  unfold f64_sub, SpecFloat.SFsub. replace (Z.min (digits n - 53) (- 52)) with (- 52) by lia.
  assert (Zpos (fst (SpecFloat.shl_align m (digits n - 53) (- 52))) = n * 2 ^ 52) as Hx.
  { unfold SpecFloat.shl_align. destruct (- 52 - (digits n - 53)) as [|d|d] eqn:Ed; simpl fst; [rewrite <- Hm|lia|rewrite iter_shift, <- Hm].
    - f_equal. f_equal. lia.
    - rewrite <- Z.mul_assoc, <- Z.pow_add_r by lia. f_equal. f_equal. lia. }
  cbn [SpecFloat.cond_Zopp]. rewrite Hx. replace (n * 2 ^ 52 - Zpos (fst (SpecFloat.shl_align (2 ^ 52) (- 52) (- 52)))) with ((n - 1) * 2 ^ 52).
  2: { simpl fst. change (Zpos (2 ^ 52)%positive) with (2 ^ 52). lia. }
  destruct (Z.eq_dec n 1) as [->|]; [done|]. change (- 52) with (- (52)). rewrite normalize_exact, f64_count by lia. done.
Qed.

Lemma has_token n : 0 < n < 2 ^ 53 -> f64_lt (f64_of_int n) (f64_of_int 1) = false.
Proof.
  intros Hn. rewrite (f64_count n), (f64_count 1), count64_one by lia. destruct (count64_shape n Hn) as (m & Hm & -> & Hd).
  unfold f64_lt, SpecFloat.SFltb, SpecFloat.SFcompare. destruct (Z.compare_spec (digits n - 53) (- 52)) as [E| |]; [|lia|done].
  assert (digits n = 1) as E1 by lia. assert (n = 1) as ->.
  { unfold digits in E1. destruct (Z.eq_dec n 1) as [|Hn1]; [done|]. assert (1 <= Z.log2 n) by (apply Z.log2_le_pow2; lia). lia. }
  change (digits 1) with 1 in Hm. change (1 * 2 ^ (53 - 1)) with (2 ^ 52) in Hm. change (2 ^ 52) with (Zpos (2 ^ 52)) in Hm. injection Hm as <-. done.
Qed.

Lemma no_token : f64_lt (f64_of_int 0) (f64_of_int 1) = true.
Proof. reflexivity. Qed.

Lemma no_time t : duration_Seconds (time_Sub t t) = SpecFloat.S754_zero false.
Proof. unfold time_Sub. by replace (t - t) with 0 by lia. Qed.
