(* ===== verification/JsonLines.v ===== *)
(** * JSONL files: one JSON object per line, appended and scanned

    Three parts of the program keep their state in such a file: the log of the
    key-value store, the log of the file sync and its queues.  A file is its
    byte string; every operation takes the outcome of the system calls as an
    argument, short writes included.  The JSON encoding of an entry is the
    interface [LineCodec]: [json.Marshal] yields one line, and
    [json.Unmarshal] inverts it on entries whose strings are valid UTF-8. *)

From Stdlib Require Import Ascii.
From stdpp Require Import base numbers list gmap strings.
From S2P Require Import Prelude GoStrings.

Definition LF : ascii := "010"%char.
Definition CR : string := String "013"%char EmptyString.

(** ** The JSON interface *)

Class LineCodec (A : Type) := {
  (** [json.Marshal] and [json.Unmarshal]. *)
  marshal : A -> string;
  unmarshal : string -> option A;
  (** The entries whose strings are valid UTF-8. *)
  wire_ok : A -> Prop;
  unmarshal_marshal : forall e, wire_ok e -> unmarshal (marshal e) = Some e;
  (** One JSON object on one line. *)
  marshal_no_lf : forall e, str_forall (fun c => negb (Ascii.eqb c LF)) (marshal e) = true;
  marshal_no_cr : forall e, HasSuffix (marshal e) CR = false;
  marshal_nonempty : forall e, marshal e <> ""
}.

(** ** Reading: [bufio.Scanner] with [ScanLines] and a 1 MiB buffer *)

Definition maxTokenSize : Z := 1024 * 1024.

Fixpoint scan_lines (s : string) : list string :=
  match s with
  | EmptyString => []
  | String c s' =>
      if Ascii.eqb c LF then "" :: scan_lines s'
      else match scan_lines s' with
           | [] => [String c EmptyString]
           | l :: ls => String c l :: ls
           end
  end.

Definition dropCR (l : string) : string := TrimSuffix l CR.

Inductive LogErr := ErrOpen | ErrRead | ErrTooLong | ErrWrite | ErrCreate | ErrRename.

#[export] Instance LogErr_eq_dec : EqDecision LogErr.
Proof. solve_decision. Defined.

(** The outcome of opening and writing the file. *)
Inductive WriteIO := WOk | WOpenFails | WShort (n : nat).

(** The outcome of a rewrite through a temporary file. *)
Inductive CompactIO := CIOk | CICreateFails | CIWriteFails | CIRenameFails.

Section Lines.
Context `{Codec : LineCodec A}.
Implicit Types (e : A) (es : list A).

(** Empty lines and lines that do not parse are skipped. *)
Definition readable_line (l : string) : option A :=
  if bool_decide (dropCR l = "") then None else unmarshal (dropCR l).

(** [None] is a file that does not exist; [rd] is false when opening an
    existing one fails. *)
Definition read_lines (rd : bool) (f : option string) : result LogErr (list A) :=
  match f with
  | None => Ok []
  | Some f =>
      if negb rd then Err ErrRead
      else if existsb (fun line => maxTokenSize <=? slen line) (scan_lines f)
      then Err ErrTooLong
      else Ok (omap readable_line (scan_lines f))
  end.

(** The file after the call, and the error.  The file is opened with
    [O_APPEND|O_CREATE] and one [Write] appends the line. *)
Definition append_file (io : WriteIO) (f : option string) (e : A) : option string * result LogErr unit :=
  let data := marshal e +:+ String LF EmptyString in
  match io with
  | WOpenFails => (f, Err ErrOpen)
  | WShort n => (Some (default "" f +:+ str_take n data), Err ErrWrite)
  | WOk => (Some (default "" f +:+ data), Ok tt)
  end.

(** The entries one per line. *)
Definition jsonl (es : list A) : string :=
  foldr (fun e acc => (marshal e +:+ String LF EmptyString) +:+ acc) "" es.

End Lines.

(** ** Lines *)

Fixpoint ends_line (s : string) : bool :=
  match s with
  | EmptyString => true
  | String c s' => match s' with EmptyString => Ascii.eqb c LF | _ => ends_line s' end
  end.

Lemma scan_lines_line a b :
  str_forall (fun c => negb (Ascii.eqb c LF)) a = true ->
  scan_lines (a +:+ String LF b) = a :: scan_lines b.
Proof.
  induction a as [|c a IH]; intros H.
  - done.
  - simpl in H. apply andb_prop in H as [Hc H]. apply negb_true_iff in Hc.
    rewrite str_app_cons. simpl. by rewrite Hc, IH.
Qed.

Lemma scan_lines_unfold c s :
  scan_lines (String c s) =
    if Ascii.eqb c LF then "" :: scan_lines s
    else match scan_lines s with
         | [] => [String c EmptyString]
         | l :: ls => String c l :: ls
         end.
Proof. done. Qed.

Lemma scan_lines_cons c s : scan_lines (String c s) <> [].
Proof. rewrite scan_lines_unfold. case_match; [done|]. by case_match. Qed.

Lemma scan_lines_app f g :
  ends_line f = true -> scan_lines (f +:+ g) = scan_lines f ++ scan_lines g.
Proof.
  induction f as [|c f IH]; intros H; [done|]. rewrite str_app_cons. destruct f as [|d f].
  - simpl in H. rewrite str_app_nil_l, !scan_lines_unfold, H. done.
  - specialize (IH H). pose proof (scan_lines_cons d f) as Hne.
    rewrite scan_lines_unfold, IH, (scan_lines_unfold c).
    destruct (scan_lines (String d f)); [done|]. by case_match.
Qed.

Lemma ends_line_app f g : ends_line g = true -> g <> "" -> ends_line (f +:+ g) = true.
Proof.
  intros Hg Hne. induction f as [|c f IH]; [done|]. rewrite str_app_cons. simpl.
  destruct (f +:+ g) eqn:E; [|done]. exfalso. destruct f;
    [by rewrite str_app_nil_l in E|by rewrite str_app_cons in E].
Qed.

Lemma ends_line_line a : ends_line (a +:+ String LF EmptyString) = true.
Proof. by apply ends_line_app. Qed.

(** ** The entries of a file *)

Section Entries.
Context `{Codec : LineCodec A}.
Implicit Types (e : A) (es : list A).

Definition file_entries (f : option string) : list A :=
  omap readable_line (scan_lines (default "" f)).

(** An entry that survives the file: encodable, and shorter than the buffer. *)
Definition good_line e : Prop := wire_ok e /\ slen (marshal e) < maxTokenSize.

(** A file that appends have left: complete lines, each shorter than the buffer. *)
Definition well_formed (f : option string) : Prop :=
  ends_line (default "" f) = true /\ Forall (fun s => slen s < maxTokenSize) (scan_lines (default "" f)).

(** Appending a good line to a terminated file adds exactly its entry. *)
Definition append_line (f : option string) e : option string :=
  Some (default "" f +:+ (marshal e +:+ String LF EmptyString)).

Lemma append_file_ok f e : append_file WOk f e = (append_line f e, Ok tt).
Proof. done. Qed.

Lemma scan_append f e :
  ends_line (default "" f) = true ->
  scan_lines (default "" (append_line f e)) = scan_lines (default "" f) ++ [marshal e].
Proof.
  intros Hf. simpl. rewrite scan_lines_app by done. f_equal.
  by rewrite scan_lines_line by apply marshal_no_lf.
Qed.

Lemma readable_marshal e : wire_ok e -> readable_line (marshal e) = Some e.
Proof.
  intros He. unfold readable_line, dropCR, TrimSuffix. rewrite marshal_no_cr.
  rewrite bool_decide_eq_false_2 by apply marshal_nonempty. by apply unmarshal_marshal.
Qed.

Lemma file_append f e :
  ends_line (default "" f) = true -> wire_ok e ->
  file_entries (append_line f e) = file_entries f ++ [e].
Proof.
  intros Hf He. unfold file_entries. rewrite scan_append, omap_app by done. simpl.
  by rewrite readable_marshal.
Qed.

Lemma well_formed_none : well_formed None.
Proof. by split; [|constructor]. Qed.

Lemma well_formed_append f e : well_formed f -> good_line e -> well_formed (append_line f e).
Proof.
  intros [Hf Hs] [_ Hlen]. split.
  - simpl. apply ends_line_app; [apply ends_line_line|by destruct (marshal e)].
  - rewrite scan_append by done. apply Forall_app_2; [done|by constructor].
Qed.

Lemma read_well_formed rd f :
  well_formed f -> read_lines rd f = Ok (file_entries f) \/ (read_lines rd f = Err ErrRead /\ rd = false).
Proof.
  intros [_ Hs]. unfold read_lines, file_entries. destruct f as [f|]; [|by left]. simpl in *.
  destruct rd; simpl; [left|by right].
  assert (existsb (fun line => maxTokenSize <=? slen line) (scan_lines f) = false) as ->; [|done].
  apply not_true_iff_false. rewrite existsb_exists. intros (x & Hx & Hlen).
  rewrite <- list_elem_of_In in Hx. rewrite Forall_forall in Hs. specialize (Hs x Hx).
  apply Z.leb_le in Hlen. lia.
Qed.

Lemma scan_jsonl es : scan_lines (jsonl es) = map marshal es.
Proof.
  induction es as [|e es IH]; [done|]. simpl. rewrite str_app_assoc, str_app_cons, str_app_nil_l.
  rewrite scan_lines_line by apply marshal_no_lf. by rewrite IH.
Qed.

Lemma file_entries_jsonl es : Forall wire_ok es -> file_entries (Some (jsonl es)) = es.
Proof.
  intros H. unfold file_entries. simpl. rewrite scan_jsonl.
  induction H as [|e es He _ IH]; [done|]. simpl. rewrite readable_marshal by done. by f_equal.
Qed.

Lemma ends_line_jsonl es : ends_line (jsonl es) = true.
Proof.
  induction es as [|e es IH]; [done|]. simpl. destruct es as [|e' es].
  - simpl. rewrite str_app_nil_r. apply ends_line_line.
  - apply ends_line_app; [done|]. simpl. by destruct (marshal e').
Qed.

Lemma well_formed_jsonl es : Forall good_line es -> well_formed (Some (jsonl es)).
Proof.
  intros H. split; [apply ends_line_jsonl|]. simpl. rewrite scan_jsonl. apply Forall_fmap.
  eapply Forall_impl; [done|]. by intros e [_ ?].
Qed.

Lemma read_jsonl es : Forall good_line es -> read_lines true (Some (jsonl es)) = Ok es.
Proof.
  intros H. destruct (read_well_formed true (Some (jsonl es))) as [->|[_ ?]]; [by apply well_formed_jsonl| |done].
  f_equal. apply file_entries_jsonl. eapply Forall_impl; [done|]. by intros e [? _].
Qed.

End Entries.

(** ** A concrete codec *)

Fixpoint bits_of_pos (p : positive) : string :=
  match p with
  | xH => "1"
  | xO q => String "o" (bits_of_pos q)
  | xI q => String "i" (bits_of_pos q)
  end.

Fixpoint pos_of_bits (s : string) : positive :=
  match s with
  | EmptyString => xH
  | String c s' => if Ascii.eqb c "o" then xO (pos_of_bits s')
                   else if Ascii.eqb c "i" then xI (pos_of_bits s') else xH
  end.

Lemma pos_of_bits_of_pos p : pos_of_bits (bits_of_pos p) = p.
Proof. induction p; simpl; by f_equal. Qed.

Lemma bits_no_lf p : str_forall (fun c => negb (Ascii.eqb c LF)) (bits_of_pos p) = true.
Proof. by induction p. Qed.

Lemma bits_last p : exists s, bits_of_pos p = s +:+ "1".
Proof.
  induction p as [p [s IH]|p [s IH]|]; simpl; [exists (String "i" s)|exists (String "o" s)|by exists ""];
    by rewrite str_app_cons, <- IH.
Qed.

Lemma bits_no_cr p : HasSuffix (bits_of_pos p) CR = false.
Proof.
  apply not_true_iff_false. rewrite HasSuffix_spec. intros [t Ht].
  destruct (bits_last p) as [s Hs]. rewrite Hs in Ht. clear Hs.
  revert t Ht. induction s as [|c s IH]; intros t Ht.
  - destruct t as [|? [|? ?]]; done.
  - destruct t as [|d t]; rewrite str_app_cons in Ht; [by destruct s|].
    rewrite str_app_cons in Ht. simplify_eq. by eapply IH.
Qed.

(** Any type whose values have a code instantiates the interface, so that its
    laws can hold. *)
Definition bits_codec {A} (code : A -> list positive) (decode : list positive -> option A)
  (H : forall a, decode (code a) = Some a) : LineCodec A.
Proof.
  refine {| marshal e := bits_of_pos (positives_flatten (code e));
            unmarshal s := positives_unflatten (pos_of_bits s) ≫= decode;
            wire_ok _ := True |}.
  - abstract (intros e _; rewrite pos_of_bits_of_pos, positives_unflatten_flatten; exact (H e)).
  - abstract (intros e; apply bits_no_lf).
  - abstract (intros e; apply bits_no_cr).
  - abstract (intros e; by destruct (positives_flatten _)).
Defined.
