(* ===== verification/KvCausal.v ===== *)
(** * Version vectors of the key-value store (pkg/kv/causal.go)

    A [VersionVector] maps actors to the highest counter observed; the Go nil
    map and the empty map read alike, and every write in the source is guarded
    by a [make], so both are the empty [gmap].  Counters are [uint64]s and are
    never incremented here.  The laws of the vectors are stated on [vget], the
    Go read [v[actor]] with its zero default: vectors that agree on it are
    equivalent ([vv_eq]) and every operation respects the equivalence. *)

From stdpp Require Import base numbers list gmap strings.
From S2P Require Import Prelude.

Abbreviation VersionVector := (gmap string N).

(** [v[actor]] *)
Definition vget (v : VersionVector) (actor : string) : N := default 0%N (v !! actor).

Definition Observe (v : VersionVector) (actor : string) (counter : N) : VersionVector :=
  if bool_decide (actor = "") || N.eqb counter 0 then v
  else match v !! actor with
       | Some current => if N.ltb current counter then <[actor := counter]> v else v
       | None => <[actor := counter]> v
       end.

Definition Merge (v other : VersionVector) : VersionVector :=
  range_fold (fun acc '(actor, counter) => Observe acc actor counter) v other.

Definition Dominates (v other : VersionVector) : bool :=
  forallb (fun '(actor, counter) => negb (N.ltb (vget v actor) counter))
    (map_to_list other)
  && forallb (fun '(actor, counter) => negb (N.ltb counter (vget other actor)))
    (map_to_list v).

(** [context.Clone()] shares nothing with its argument: values are copied. *)
Definition CausalVersion (actor : string) (counter : N) (context : VersionVector)
  : VersionVector := Observe context actor counter.

Definition compareCausal (aActor : string) (aCounter : N) (aContext : VersionVector)
    (bActor : string) (bCounter : N) (bContext : VersionVector) : Z :=
  if bool_decide (aActor = "") || N.eqb aCounter 0
     || bool_decide (bActor = "") || N.eqb bCounter 0 then 0
  else
    let aFull := CausalVersion aActor aCounter aContext in
    let bFull := CausalVersion bActor bCounter bContext in
    let aDominates := Dominates aFull bFull in
    let bDominates := Dominates bFull aFull in
    if aDominates && negb bDominates then 1
    else if bDominates && negb aDominates then -1
    else 0.

(** ** The order of vectors *)

Definition vle (v w : VersionVector) : Prop := forall a, (vget v a <= vget w a)%N.
Definition vv_eq (v w : VersionVector) : Prop := forall a, vget v a = vget w a.

#[export] Instance vle_preorder : PreOrder vle.
Proof. split; [by intros v a|]. intros u v w H1 H2 a. specialize (H1 a). specialize (H2 a). lia. Qed.

#[export] Instance vv_eq_equivalence : Equivalence vv_eq.
Proof.
  split; [by intros v a|by intros v w H a; rewrite H|].
  intros u v w H1 H2 a. by rewrite H1, H2.
Qed.

#[export] Instance vle_proper : Proper (vv_eq ==> vv_eq ==> iff) vle.
Proof. intros v v' Hv w w' Hw. unfold vle. split; intros H a; specialize (H a);
  [rewrite <- Hv, <- Hw|rewrite Hv, Hw]; done. Qed.

Lemma vle_antisym v w : vle v w -> vle w v -> vv_eq v w.
Proof. intros H1 H2 a. specialize (H1 a). specialize (H2 a). lia. Qed.

Lemma vget_insert v a c b :
  vget (<[a := c]> v) b = if decide (a = b) then c else vget v b.
Proof. unfold vget. rewrite lookup_insert. by case_decide. Qed.

Lemma vget_Observe v a c b :
  vget (Observe v a c) b =
    if decide (b = a /\ a <> "") then N.max (vget v b) c else vget v b.
Proof.
  unfold Observe. case_decide as Hb.
  - destruct Hb as [-> Hne]. rewrite bool_decide_eq_false_2 by done. simpl.
    destruct (N.eqb_spec c 0) as [->|Hc]; [by rewrite N.max_0_r|].
    unfold vget at 2. destruct (v !! a) as [cur|] eqn:E; simpl.
    + destruct (N.ltb_spec cur c); [rewrite vget_insert, decide_True by done; lia|].
      unfold vget. rewrite E. simpl. lia.
    + rewrite vget_insert, decide_True by done. lia.
  - case_match; [done|]. apply orb_false_elim in H as [H _].
    apply bool_decide_eq_false in H.
    assert (a <> b) by (intros ->; by apply Hb).
    destruct (v !! a); [case_match; [|done]|];
      by rewrite vget_insert, decide_False.
Qed.

Lemma vget_Observe_ne v a c b : b <> a -> vget (Observe v a c) b = vget v b.
Proof. intros. rewrite vget_Observe, decide_False; [done|naive_solver]. Qed.

Lemma vget_Observe_eq v a c : a <> "" -> vget (Observe v a c) a = N.max (vget v a) c.
Proof. intros. by rewrite vget_Observe, decide_True. Qed.

#[export] Hint Rewrite vget_insert : go.

Lemma vle_Observe v a c : vle v (Observe v a c).
Proof. intros b. rewrite vget_Observe. case_decide; lia. Qed.

Lemma Observe_mono v w a c : vle v w -> vle (Observe v a c) (Observe w a c).
Proof. intros H b. specialize (H b). rewrite !vget_Observe. case_decide; lia. Qed.

Lemma Observe_comm v a c a' c' :
  vv_eq (Observe (Observe v a c) a' c') (Observe (Observe v a' c') a c).
Proof. intros b. rewrite !vget_Observe. repeat case_decide; lia. Qed.

(** A least-upper-bound reading of the loop over any list of dots. *)
Lemma vget_foldl_Observe (l : list (string * N)) v a n :
  a <> "" ->
  (vget (foldl (fun acc '(actor, counter) => Observe acc actor counter) v l) a <= n)%N
  <-> (vget v a <= n)%N /\ forall c, (a, c) ∈ l -> (c <= n)%N.
Proof.
  intros Ha. revert v. induction l as [|[b c] l IH]; intros v; simpl.
  - split; [|naive_solver]. intros; split; [done|]. intros ? ?%not_elem_of_nil; done.
  - rewrite IH. setoid_rewrite elem_of_cons. destruct (decide (a = b)) as [->|Hne].
    + rewrite vget_Observe_eq by done. split.
      * intros [H1 H2]. split; [lia|]. intros c' [[=->]|H]; [lia|auto].
      * intros [H1 H2]. split; [|auto]. specialize (H2 c (or_introl eq_refl)). lia.
    + rewrite vget_Observe_ne by done. naive_solver.
Qed.

Lemma vget_Merge v w a : a <> "" -> vget (Merge v w) a = N.max (vget v a) (vget w a).
Proof.
  intros Ha.
  assert (forall n, (vget (Merge v w) a <= n <-> N.max (vget v a) (vget w a) <= n)%N) as H.
  { intros n. unfold Merge, range_fold. rewrite vget_foldl_Observe by done.
    setoid_rewrite elem_of_map_to_list. unfold vget at 3.
    destruct (w !! a) as [c|] eqn:E; simpl.
    - split; [intros [H1 H2]; specialize (H2 c eq_refl); lia|].
      intros. split; [lia|]. intros ? [= <-]. lia.
    - split; [lia|]. intros. split; [lia|done]. }
  apply N.le_antisymm; apply H; lia.
Qed.

Lemma vget_Merge_empty v w : vget (Merge v w) "" = vget v "".
Proof.
  unfold Merge, range_fold. generalize (map_to_list w) as l.
  intros l. revert v. induction l as [|[b c] l IH]; intros v; simpl; [done|].
  rewrite IH. destruct (decide (b = "")) as [->|]; [|by apply vget_Observe_ne].
  unfold Observe. done.
Qed.

#[export] Instance Observe_proper : Proper (vv_eq ==> (=) ==> (=) ==> vv_eq) Observe.
Proof. intros v v' Hv a ? <- c ? <- b. rewrite !vget_Observe, Hv. done. Qed.

#[export] Instance CausalVersion_proper :
  Proper ((=) ==> (=) ==> vv_eq ==> vv_eq) CausalVersion.
Proof. intros a ? <- c ? <- v v' Hv. unfold CausalVersion. by f_equiv. Qed.

#[export] Instance Merge_proper : Proper (vv_eq ==> vv_eq ==> vv_eq) Merge.
Proof.
  intros v v' Hv w w' Hw a. destruct (decide (a = "")) as [->|].
  - by rewrite !vget_Merge_empty.
  - by rewrite !vget_Merge, Hv, Hw.
Qed.

(** [Merge] is the least upper bound on named actors. *)
Lemma vle_Merge_l v w : vle v (Merge v w).
Proof.
  intros a. destruct (decide (a = "")) as [->|].
  - by rewrite vget_Merge_empty.
  - rewrite vget_Merge by done. lia.
Qed.

Lemma Merge_Observe_comm v a c w :
  vv_eq (Observe (Merge v w) a c) (Merge (Observe v a c) w).
Proof.
  intros b. destruct (decide (b = "")) as [->|].
  - rewrite vget_Merge_empty, !vget_Observe, vget_Merge_empty. done.
  - rewrite vget_Merge, !vget_Observe, vget_Merge by done. case_decide; lia.
Qed.

Lemma Merge_Merge_comm v w w' : vv_eq (Merge (Merge v w) w') (Merge (Merge v w') w).
Proof.
  intros b. destruct (decide (b = "")) as [->|].
  - by rewrite !vget_Merge_empty.
  - rewrite !vget_Merge by done. lia.
Qed.

(** ** [Dominates] decides the pointwise order *)

Lemma Dominates_vle v w : Dominates v w = true <-> vle w v.
Proof.
  unfold Dominates. rewrite andb_true_iff, !forallb_forall. split.
  - intros [H1 H2] a. destruct (w !! a) as [c|] eqn:E.
    + specialize (H1 (a, c)). rewrite <- list_elem_of_In, elem_of_map_to_list in H1.
      specialize (H1 E). simpl in H1. apply negb_true_iff, N.ltb_ge in H1.
      unfold vget at 1. by rewrite E.
    + unfold vget at 1. rewrite E. simpl. lia.
  - intros H. split; intros [a c]; rewrite <- list_elem_of_In, elem_of_map_to_list;
      intros E; apply negb_true_iff, N.ltb_ge; specialize (H a).
    + unfold vget in H at 1. by rewrite E in H.
    + unfold vget in H at 2. by rewrite E in H.
Qed.

Lemma Dominates_false v w : Dominates v w = false <-> ~ vle w v.
Proof. rewrite <- Dominates_vle. by destruct (Dominates v w). Qed.

#[export] Instance vle_dec : RelDecision vle.
Proof.
  intros v w. destruct (Dominates w v) eqn:E;
    [left; by apply Dominates_vle|right; by apply Dominates_false].
Defined.

#[export] Instance Dominates_proper : Proper (vv_eq ==> vv_eq ==> (=)) Dominates.
Proof.
  intros v v' Hv w w' Hw. apply eq_true_iff_eq. by rewrite !Dominates_vle, Hv, Hw.
Qed.

(** ** The causal comparison *)

(** A dot [(actor, counter)] is known when both parts are set. *)
Definition known (actor : string) (counter : N) : Prop := actor <> "" /\ counter <> 0%N.

#[export] Instance known_dec actor counter : Decision (known actor counter).
Proof. apply _. Defined.

Lemma compareCausal_unfold aA aC aX bA bC bX :
  known aA aC -> known bA bC ->
  compareCausal aA aC aX bA bC bX =
    let a := CausalVersion aA aC aX in let b := CausalVersion bA bC bX in
    if decide (vle b a /\ ~ vle a b) then 1
    else if decide (vle a b /\ ~ vle b a) then -1 else 0.
Proof.
  intros [H1 H2] [H3 H4]. unfold compareCausal.
  rewrite (bool_decide_eq_false_2 (aA = "")), (bool_decide_eq_false_2 (bA = "")) by done.
  rewrite (proj2 (N.eqb_neq aC 0) H2), (proj2 (N.eqb_neq bC 0) H4). cbn zeta. simpl.
  set (a := CausalVersion aA aC aX). set (b := CausalVersion bA bC bX).
  destruct (Dominates a b) eqn:Eab, (Dominates b a) eqn:Eba; simpl;
    rewrite ?Dominates_vle, ?Dominates_false in *;
    repeat case_decide; naive_solver.
Qed.

Lemma compareCausal_unknown aA aC aX bA bC bX :
  ~ (known aA aC /\ known bA bC) -> compareCausal aA aC aX bA bC bX = 0.
Proof.
  intros H. unfold compareCausal, known in *. case_match eqn:E; [done|].
  exfalso. apply H. repeat (apply orb_false_elim in E as [E ?]).
  rewrite ?bool_decide_eq_false, ?N.eqb_neq in *. done.
Qed.

Lemma compareCausal_pos aA aC aX bA bC bX :
  compareCausal aA aC aX bA bC bX = 1 <->
  known aA aC /\ known bA bC /\
  vle (CausalVersion bA bC bX) (CausalVersion aA aC aX) /\
  ~ vle (CausalVersion aA aC aX) (CausalVersion bA bC bX).
Proof.
  destruct (decide (known aA aC /\ known bA bC)) as [[Ha Hb]|Hn].
  - rewrite compareCausal_unfold by done. simpl. repeat case_decide; naive_solver.
  - rewrite compareCausal_unknown by done. naive_solver.
Qed.

Lemma compareCausal_antisym aA aC aX bA bC bX :
  compareCausal aA aC aX bA bC bX = - compareCausal bA bC bX aA aC aX.
Proof.
  destruct (decide (known aA aC /\ known bA bC)) as [[Ha Hb]|Hn].
  - rewrite !compareCausal_unfold by done. simpl. repeat case_decide; naive_solver.
  - rewrite !compareCausal_unknown by naive_solver. done.
Qed.
