(* ===== verification/KvSnapshot.v ===== *)
(** * Entries and snapshots of the key-value store
      (pkg/kv/entry.go, pkg/kv/snapshot.go, pkg/kv/visibility.go)

    A snapshot is the replay of log entries over an optional base.  Values are
    byte strings; a Go [nil] context and an empty one coincide (KvCausal).  The
    clock readings [time.Now()] of the source are arguments. *)

From stdpp Require Import base numbers list gmap strings.
From S2P Require Import Prelude GoStrings KvCausal.

(** ** Data (entry.go) *)

(** [EntryType] is a string in the source: any other value is possible. *)
Definition EntrySet : string := "set".
Definition EntryDelete : string := "delete".

Record Entry := mkEntry {
  eType : string;
  eKey : string;
  eValue : string;
  eNamespace : string;
  eDevice : string;
  eTimestamp : Z;
  eSeq : Z;
  eActor : string;
  eCounter : N;
  eContext : VersionVector
}.

Record clockTuple := mkClock { ts : Z; device : string; seq : Z }.

#[export] Instance clockTuple_eq_dec : EqDecision clockTuple.
Proof. solve_decision. Defined.

Definition beats (c other : clockTuple) : bool :=
  if negb (Z.eqb (ts c) (ts other)) then Z.ltb (ts other) (ts c)
  else if negb (bool_decide (device c = device other)) then device other <s? device c
  else Z.ltb (seq other) (seq c).

Record ValueInfo := mkValueInfo {
  viValue : string;
  viModified : Time;
  viDevice : string;
  viSeq : Z;
  viActor : string;
  viCounter : N;
  viContext : VersionVector
}.

Record TombstoneInfo := mkTombstoneInfo {
  tiModified : Time;
  tiDevice : string;
  tiSeq : Z;
  tiActor : string;
  tiCounter : N;
  tiContext : VersionVector
}.

#[export] Instance ValueInfo_eq_dec : EqDecision ValueInfo.
Proof. solve_decision. Defined.
#[export] Instance TombstoneInfo_eq_dec : EqDecision TombstoneInfo.
Proof. solve_decision. Defined.
#[export] Instance Entry_eq_dec : EqDecision Entry.
Proof. solve_decision. Defined.

Record Snapshot := mkSnapshot {
  entries : gmap string ValueInfo;
  deleted : gmap string TombstoneInfo;
  vector : VersionVector;
  created : Time;
  updated : Time
}.

(** [ClockOf] (entry.go): the exported clock of a value. *)
Definition ClockOf (vi : ValueInfo) : clockTuple :=
  mkClock (unix_seconds (viModified vi)) (viDevice vi) (viSeq vi).

(** ** Normalisation and comparison (snapshot.go) *)

Definition effectiveActor (actor device : string) : string :=
  if bool_decide (actor <> "") then actor else device.

(** [uint64(seq)] of a positive [int]. *)
Definition effectiveCounter (counter : N) (seq : Z) : N :=
  if negb (N.eqb counter 0) then counter
  else if Z.ltb 0 seq then Z.to_N seq
  else 0%N.

Definition normalizeEntry (e : Entry) : Entry :=
  mkEntry (eType e) (eKey e) (eValue e) (eNamespace e) (eDevice e) (eTimestamp e)
    (eSeq e) (effectiveActor (eActor e) (eDevice e))
    (effectiveCounter (eCounter e) (eSeq e)) (eContext e).

Definition clockCompare (a b : clockTuple) : Z :=
  if beats a b then 1 else if beats b a then -1 else 0.

Definition valueClock (v : ValueInfo) : clockTuple :=
  mkClock (unix_seconds (viModified v)) (viDevice v) (viSeq v).

Definition tombstoneClock (v : TombstoneInfo) : clockTuple :=
  mkClock (unix_seconds (tiModified v)) (tiDevice v) (tiSeq v).

Definition valueInfoBeats (a b : ValueInfo) : bool :=
  let causal := compareCausal
    (effectiveActor (viActor a) (viDevice a)) (effectiveCounter (viCounter a) (viSeq a)) (viContext a)
    (effectiveActor (viActor b) (viDevice b)) (effectiveCounter (viCounter b) (viSeq b)) (viContext b) in
  if negb (Z.eqb causal 0) then Z.ltb 0 causal
  else Z.ltb 0 (clockCompare (valueClock a) (valueClock b)).

Definition valueBeatsTombstone (a : ValueInfo) (b : TombstoneInfo) : bool :=
  let causal := compareCausal
    (effectiveActor (viActor a) (viDevice a)) (effectiveCounter (viCounter a) (viSeq a)) (viContext a)
    (effectiveActor (tiActor b) (tiDevice b)) (effectiveCounter (tiCounter b) (tiSeq b)) (tiContext b) in
  if negb (Z.eqb causal 0) then Z.ltb 0 causal
  else Z.ltb 0 (clockCompare (valueClock a) (tombstoneClock b)).

Definition tombstoneBeatsValue (a : TombstoneInfo) (b : ValueInfo) : bool :=
  let causal := compareCausal
    (effectiveActor (tiActor a) (tiDevice a)) (effectiveCounter (tiCounter a) (tiSeq a)) (tiContext a)
    (effectiveActor (viActor b) (viDevice b)) (effectiveCounter (viCounter b) (viSeq b)) (viContext b) in
  if negb (Z.eqb causal 0) then Z.ltb 0 causal
  else Z.ltb 0 (clockCompare (tombstoneClock a) (valueClock b)).

Definition tombstoneInfoBeats (a b : TombstoneInfo) : bool :=
  let causal := compareCausal
    (effectiveActor (tiActor a) (tiDevice a)) (effectiveCounter (tiCounter a) (tiSeq a)) (tiContext a)
    (effectiveActor (tiActor b) (tiDevice b)) (effectiveCounter (tiCounter b) (tiSeq b)) (tiContext b) in
  if negb (Z.eqb causal 0) then Z.ltb 0 causal
  else Z.ltb 0 (clockCompare (tombstoneClock a) (tombstoneClock b)).

(** ** Materialization *)

(** [if prev, ok := m[k]; ok && !test(prev) { continue }] *)
Definition blocked {A} (m : gmap string A) (k : string) (test : A -> bool) : bool :=
  match m !! k with Some prev => negb (test prev) | None => false end.

(** The value and the tombstone an entry proposes. *)
Definition incomingValue (e : Entry) : ValueInfo :=
  mkValueInfo (eValue e) (time_Unix (eTimestamp e)) (eDevice e) (eSeq e)
    (eActor e) (eCounter e) (eContext e).

Definition incomingTombstone (e : Entry) : TombstoneInfo :=
  mkTombstoneInfo (time_Unix (eTimestamp e)) (eDevice e) (eSeq e)
    (eActor e) (eCounter e) (eContext e).

(** One iteration of the loop of [buildSnapshot]. *)
Definition buildStep (snap : Snapshot) (e0 : Entry) : Snapshot :=
  let e := normalizeEntry e0 in
  let vec := Observe (Merge (vector snap) (eContext e)) (eActor e) (eCounter e) in
  let skip := mkSnapshot (entries snap) (deleted snap) vec (created snap) (updated snap) in
  if bool_decide (eType e = EntrySet) then
    let incoming := incomingValue e in
    if blocked (entries snap) (eKey e) (valueInfoBeats incoming) then skip
    else if blocked (deleted snap) (eKey e) (valueBeatsTombstone incoming) then skip
    else mkSnapshot (<[eKey e := incoming]> (entries snap))
           (base.delete (eKey e) (deleted snap)) vec (created snap) (updated snap)
  else if bool_decide (eType e = EntryDelete) then
    let incoming := incomingTombstone e in
    if blocked (entries snap) (eKey e) (tombstoneBeatsValue incoming) then skip
    else if blocked (deleted snap) (eKey e) (tombstoneInfoBeats incoming) then skip
    else mkSnapshot (base.delete (eKey e) (entries snap))
           (<[eKey e := incoming]> (deleted snap)) vec (created snap) (updated snap)
  else skip.

(** [now0] and [now1] are the readings of [time.Now()] at the start and the end. *)
Definition buildSnapshot (now0 now1 : Time) (base : option Snapshot) (es : list Entry)
  : Snapshot :=
  let init :=
    match base with
    | Some b => mkSnapshot (entries b) (deleted b) (vector b) (created b) now0
    | None => mkSnapshot ∅ ∅ ∅ now0 now0
    end in
  let snap := foldl buildStep init es in
  mkSnapshot (entries snap) (deleted snap) (vector snap) (created snap) now1.

(** ** Queries *)

Definition Lookup (s : Snapshot) (key : string) : option ValueInfo := entries s !! key.

Definition Keys (s : Snapshot) : list string := sort_Strings (keys_of (entries s)).

Definition KeysWithPrefix (s : Snapshot) (prefix : string) : list string :=
  sort_Strings (filter (fun k => HasPrefix k prefix = true) (keys_of (entries s))).

Definition Len (s : Snapshot) : nat := size (entries s).

(** [Entries] and [Tombstones] return copies, [DeletedKeys] the key set. *)
Definition Entries (s : Snapshot) : gmap string ValueInfo := entries s.
Definition Tombstones (s : Snapshot) : gmap string TombstoneInfo := deleted s.
Definition DeletedKeys (s : Snapshot) : gmap string bool := (fun _ => true) <$> deleted s.
Definition Vector (s : Snapshot) : VersionVector := vector s.

Record SnapshotSummary := mkSummary {
  sumVector : VersionVector;
  sumKeys : Z;
  sumTombstones : Z
}.

(** The receiver may be nil. *)
Definition Summary (s : option Snapshot) : SnapshotSummary :=
  match s with
  | None => mkSummary ∅ 0 0
  | Some s => mkSummary (vector s) (Z.of_nat (size (entries s))) (Z.of_nat (size (deleted s)))
  end.

Definition HasState (s : option Snapshot) : bool :=
  match s with
  | None => false
  | Some s => (0 <? Z.of_nat (size (entries s))) || (0 <? Z.of_nat (size (deleted s)))
  end.

Definition valueVersion (vi : ValueInfo) : VersionVector :=
  CausalVersion (effectiveActor (viActor vi) (viDevice vi))
    (effectiveCounter (viCounter vi) (viSeq vi)) (viContext vi).

Definition tombstoneVersion (tomb : TombstoneInfo) : VersionVector :=
  CausalVersion (effectiveActor (tiActor tomb) (tiDevice tomb))
    (effectiveCounter (tiCounter tomb) (tiSeq tomb)) (tiContext tomb).

Definition DeltaSince (s : option Snapshot) (seen : VersionVector) : Snapshot :=
  match s with
  | None => mkSnapshot ∅ ∅ ∅ zeroTime zeroTime
  | Some s =>
      mkSnapshot
        (filter (fun '(_, vi) => Dominates seen (valueVersion vi) = false) (entries s))
        (filter (fun '(_, tomb) => Dominates seen (tombstoneVersion tomb) = false) (deleted s))
        (vector s) (created s) (updated s)
  end.

(** ** Visibility (visibility.go) *)

Definition internalSlashPrefix : string := "_sys/".

Definition IsInternalKey (key : string) : bool := HasPrefix key internalSlashPrefix.

Definition filterVisibleKeys (keys : list string) (includeInternal : bool) : list string :=
  if includeInternal then keys else filter (fun k => IsInternalKey k = false) keys.

Definition filterVisibleEntries (es : gmap string string) (includeInternal : bool)
  : gmap string string :=
  if includeInternal then es else filter (fun '(k, _) => IsInternalKey k = false) es.

Definition visibleKeyCount (snap : option Snapshot) : Z :=
  match snap with
  | None => 0
  | Some s => Z.of_nat (length (filter (fun k => IsInternalKey k = false) (keys_of (entries s))))
  end.
