(* ===== verification/KvMerge.v ===== *)
(** * The key-value snapshot as a last-writer-wins register map

    [reg_of s k] is the register of key [k]: a live value or a tombstone.
    Replaying entries is, key by key, a left fold of [reg_join]
    ([reg_buildSnapshot]).  When the clocks of the proposals of a key respect
    causality and distinct proposals have distinct clocks ([coherent]), that
    fold is the abstract last-writer-wins maximum [lww_max], so replay commutes
    with every reordering of the log.  Without coherence it does not:
    [replay_order_matters] replays three entries in two orders. *)

From stdpp Require Import base numbers list gmap strings.
From S2P Require Import Prelude GoStrings KvCausal KvSnapshot.

(** ** Clocks *)

Lemma beats_irrefl c : beats c c = false.
Proof.
  unfold beats. rewrite Z.eqb_refl, bool_decide_eq_true_2 by done. simpl.
  apply Z.ltb_irrefl.
Qed.

Lemma beats_spec c d :
  beats c d = true <->
  ts d < ts c \/ (ts c = ts d /\
    ((device d <s? device c) = true \/ (device c = device d /\ seq d < seq c))).
Proof.
  unfold beats. destruct (Z.eqb_spec (ts c) (ts d)) as [E|E]; simpl.
  - destruct (bool_decide_reflect (device c = device d)) as [D|D]; simpl.
    + rewrite Z.ltb_lt, D, str_ltb_irrefl. naive_solver lia.
    + naive_solver lia.
  - rewrite Z.ltb_lt. naive_solver lia.
Qed.

Lemma beats_trans c d e : beats c d = true -> beats d e = true -> beats c e = true.
Proof.
  rewrite !beats_spec. intros [H1|[E1 H1]] [H2|[E2 H2]]; [lia..|].
  right. split; [lia|]. destruct H1 as [H1|[D1 H1]], H2 as [H2|[D2 H2]].
  - left. by eapply str_ltb_trans.
  - left. by rewrite <- D2.
  - left. by rewrite D1.
  - right. split; [congruence|lia].
Qed.

Lemma beats_asym c d : beats c d = true -> beats d c = false.
Proof.
  intros H1. apply not_true_iff_false. intros H2.
  pose proof (beats_trans _ _ _ H1 H2) as H. by rewrite beats_irrefl in H.
Qed.

Lemma beats_total c d : c <> d -> beats c d = false -> beats d c = true.
Proof.
  intros Hne Hb. apply beats_spec. apply not_true_iff_false in Hb.
  rewrite beats_spec in Hb. destruct c as [t1 d1 s1], d as [t2 d2 s2]; simpl in *.
  destruct (Z.lt_trichotomy t1 t2) as [?|[->|?]]; [auto| |naive_solver].
  right. split; [done|]. destruct (decide (d1 = d2)) as [->|Hd].
  - right. split; [done|]. destruct (Z.lt_trichotomy s1 s2) as [?|[->|?]]; naive_solver.
  - left. destruct (str_ltb d1 d2) eqn:E; [done|].
    exfalso. apply Hb. right. split; [done|]. left. by apply str_ltb_total.
Qed.

Lemma clockCompare_pos c d : Z.ltb 0 (clockCompare c d) = beats c d.
Proof. unfold clockCompare. destruct (beats c d); [done|]. by destruct (beats d c). Qed.

(** ** Registers *)

Inductive Reg := Live (v : ValueInfo) | Dead (t : TombstoneInfo).

#[export] Instance Reg_eq_dec : EqDecision Reg.
Proof. solve_decision. Defined.

Definition regClock (r : Reg) : clockTuple :=
  match r with Live v => valueClock v | Dead t => tombstoneClock t end.

Definition regActor (r : Reg) : string :=
  match r with
  | Live v => effectiveActor (viActor v) (viDevice v)
  | Dead t => effectiveActor (tiActor t) (tiDevice t)
  end.

Definition regCounter (r : Reg) : N :=
  match r with
  | Live v => effectiveCounter (viCounter v) (viSeq v)
  | Dead t => effectiveCounter (tiCounter t) (tiSeq t)
  end.

Definition regContext (r : Reg) : VersionVector :=
  match r with Live v => viContext v | Dead t => tiContext t end.

Definition regVersion (r : Reg) : VersionVector :=
  CausalVersion (regActor r) (regCounter r) (regContext r).

Definition regCausal (a b : Reg) : Z :=
  compareCausal (regActor a) (regCounter a) (regContext a)
    (regActor b) (regCounter b) (regContext b).

(** The common reading of the four comparisons of the source. *)
Definition regBeats (a b : Reg) : bool :=
  if negb (Z.eqb (regCausal a b) 0) then Z.ltb 0 (regCausal a b)
  else beats (regClock a) (regClock b).

Lemma valueInfoBeats_reg a b : valueInfoBeats a b = regBeats (Live a) (Live b).
Proof. unfold valueInfoBeats. cbn zeta. by rewrite clockCompare_pos. Qed.
Lemma valueBeatsTombstone_reg a b : valueBeatsTombstone a b = regBeats (Live a) (Dead b).
Proof. unfold valueBeatsTombstone. cbn zeta. by rewrite clockCompare_pos. Qed.
Lemma tombstoneBeatsValue_reg a b : tombstoneBeatsValue a b = regBeats (Dead a) (Live b).
Proof. unfold tombstoneBeatsValue. cbn zeta. by rewrite clockCompare_pos. Qed.
Lemma tombstoneInfoBeats_reg a b : tombstoneInfoBeats a b = regBeats (Dead a) (Dead b).
Proof. unfold tombstoneInfoBeats. cbn zeta. by rewrite clockCompare_pos. Qed.

#[export] Hint Rewrite valueInfoBeats_reg valueBeatsTombstone_reg
  tombstoneBeatsValue_reg tombstoneInfoBeats_reg : go.

Definition reg_of (s : Snapshot) (k : string) : option Reg :=
  match entries s !! k with
  | Some v => Some (Live v)
  | None => Dead <$> deleted s !! k
  end.

Definition incoming (e0 : Entry) : option Reg :=
  let e := normalizeEntry e0 in
  if bool_decide (eType e = EntrySet) then Some (Live (incomingValue e))
  else if bool_decide (eType e = EntryDelete) then Some (Dead (incomingTombstone e))
  else None.

Definition reg_join (cur : option Reg) (r : Reg) : option Reg :=
  match cur with
  | None => Some r
  | Some c => if regBeats r c then Some r else Some c
  end.

(** No key is both live and deleted. *)
Definition separated (s : Snapshot) : Prop :=
  forall k, entries s !! k = None \/ deleted s !! k = None.

Lemma reg_of_live s k v : separated s -> reg_of s k = Some (Live v) <-> entries s !! k = Some v.
Proof.
  intros _. unfold reg_of. destruct (entries s !! k); [naive_solver|].
  destruct (deleted s !! k); naive_solver.
Qed.

Lemma reg_of_dead s k t : separated s -> reg_of s k = Some (Dead t) <-> deleted s !! k = Some t.
Proof.
  intros Hs. unfold reg_of. destruct (Hs k) as [E|E].
  - rewrite E. destruct (deleted s !! k); naive_solver.
  - rewrite E. destruct (entries s !! k); naive_solver.
Qed.

Lemma separated_ext s t :
  separated s -> separated t -> (forall k, reg_of s k = reg_of t k) ->
  entries s = entries t /\ deleted s = deleted t.
Proof.
  intros Hs Ht H. split; apply map_eq; intros k; apply option_eq.
  - intros v. by rewrite <- !reg_of_live, H.
  - intros v. by rewrite <- !reg_of_dead, H.
Qed.

(** ** One step of the replay *)

Lemma buildStep_separated s e : separated s -> separated (buildStep s e).
Proof.
  intros Hs k. unfold buildStep. cbn zeta.
  repeat case_match; simpl; try apply Hs;
    (destruct (decide (eKey e = k)) as [->|Hne];
      [rewrite ?lookup_delete_eq; auto
      |rewrite ?lookup_delete_ne, ?lookup_insert_ne by done; apply Hs]).
Qed.

Lemma blocked_set s k v :
  separated s ->
  blocked (entries s) k (valueInfoBeats v) || blocked (deleted s) k (valueBeatsTombstone v)
  = from_option (fun c => negb (regBeats (Live v) c)) false (reg_of s k).
Proof.
  intros Hs. unfold blocked, reg_of. destruct (Hs k) as [E|E]; rewrite E.
  - destruct (deleted s !! k); [|done]. simpl. by rewrite valueBeatsTombstone_reg.
  - destruct (entries s !! k); [|done]. simpl. by rewrite valueInfoBeats_reg, orb_false_r.
Qed.

Lemma blocked_delete s k t :
  separated s ->
  blocked (entries s) k (tombstoneBeatsValue t) || blocked (deleted s) k (tombstoneInfoBeats t)
  = from_option (fun c => negb (regBeats (Dead t) c)) false (reg_of s k).
Proof.
  intros Hs. unfold blocked, reg_of. destruct (Hs k) as [E|E]; rewrite E.
  - destruct (deleted s !! k); [|done]. simpl. by rewrite tombstoneInfoBeats_reg.
  - destruct (entries s !! k); [|done]. simpl. by rewrite tombstoneBeatsValue_reg, orb_false_r.
Qed.

(** Storing a register: the step's two writes. *)
Definition reg_store (s : Snapshot) (k : string) (r : Reg) (vec : VersionVector) : Snapshot :=
  match r with
  | Live v => mkSnapshot (<[k := v]> (entries s)) (base.delete k (deleted s)) vec
                (created s) (updated s)
  | Dead t => mkSnapshot (base.delete k (entries s)) (<[k := t]> (deleted s)) vec
                (created s) (updated s)
  end.

Lemma reg_of_store s k r vec k' :
  reg_of (reg_store s k r vec) k' = if decide (k = k') then Some r else reg_of s k'.
Proof.
  unfold reg_of. destruct r; simpl; case_decide; subst;
    rewrite ?lookup_insert_eq, ?lookup_delete_eq, ?lookup_insert_ne, ?lookup_delete_ne
      by done; done.
Qed.

Definition stepVector (vec : VersionVector) (e0 : Entry) : VersionVector :=
  let e := normalizeEntry e0 in
  Observe (Merge vec (eContext e)) (eActor e) (eCounter e).

(** The step of the replay, seen on registers. *)
Lemma buildStep_reg s e :
  separated s ->
  buildStep s e =
    let vec := stepVector (vector s) e in
    let skip := mkSnapshot (entries s) (deleted s) vec (created s) (updated s) in
    match incoming e with
    | None => skip
    | Some r => if from_option (fun c => negb (regBeats r c)) false (reg_of s (eKey e))
                then skip else reg_store s (eKey e) r vec
    end.
Proof.
  intros Hs. unfold buildStep, incoming. cbn zeta.
  change (eKey (normalizeEntry e)) with (eKey e).
  case_bool_decide; [|case_bool_decide; [|done]].
  - rewrite <- blocked_set by done. by destruct (blocked _ _ _).
  - rewrite <- blocked_delete by done. by destruct (blocked _ _ _).
Qed.

Lemma reg_buildStep s e k :
  separated s ->
  reg_of (buildStep s e) k =
    if decide (eKey e = k) then
      match incoming e with Some r => reg_join (reg_of s k) r | None => reg_of s k end
    else reg_of s k.
Proof.
  intros Hs. rewrite buildStep_reg by done. cbn zeta.
  destruct (incoming e) as [r|]; [|by case_decide].
  case_decide as Hk; subst; unfold reg_join.
  - destruct (reg_of s (eKey e)) as [c|] eqn:E; simpl.
    + destruct (regBeats r c); simpl; [by rewrite reg_of_store, decide_True|done].
    + by rewrite reg_of_store, decide_True.
  - case_match; [done|]. by rewrite reg_of_store, decide_False.
Qed.

Lemma vector_buildStep s e : vector (buildStep s e) = stepVector (vector s) e.
Proof. unfold buildStep. cbn zeta. by repeat case_match. Qed.

(** ** The whole replay *)

Definition proposals (es : list Entry) (k : string) : list Reg :=
  omap (fun e => if decide (eKey e = k) then incoming e else None) es.

Definition base_reg (base : option Snapshot) (k : string) : option Reg :=
  base ≫= fun b => reg_of b k.

Definition base_separated (base : option Snapshot) : Prop :=
  match base with Some b => separated b | None => True end.

Lemma foldl_buildStep_separated s es : separated s -> separated (foldl buildStep s es).
Proof. intros Hs. apply foldl_invariant; [done|]. intros. by apply buildStep_separated. Qed.

Lemma reg_foldl_buildStep s es k :
  separated s -> reg_of (foldl buildStep s es) k = foldl reg_join (reg_of s k) (proposals es k).
Proof.
  revert s. induction es as [|e es IH]; intros s Hs; simpl; [done|].
  rewrite IH by by apply buildStep_separated. rewrite reg_buildStep by done.
  unfold proposals. simpl. case_decide; [|done]. by destruct (incoming e).
Qed.

Lemma vector_foldl_buildStep s es :
  vector (foldl buildStep s es) = foldl stepVector (vector s) es.
Proof.
  revert s. induction es as [|e es IH]; intros s; simpl; [done|].
  by rewrite IH, vector_buildStep.
Qed.

Lemma buildSnapshot_separated n0 n1 base es :
  base_separated base -> separated (buildSnapshot n0 n1 base es).
Proof.
  intros Hb k. unfold buildSnapshot. cbn zeta. simpl.
  apply foldl_buildStep_separated. destruct base as [b|]; [exact Hb|by left].
Qed.

Lemma reg_buildSnapshot n0 n1 base es k :
  base_separated base ->
  reg_of (buildSnapshot n0 n1 base es) k = foldl reg_join (base_reg base k) (proposals es k).
Proof.
  intros Hb. unfold buildSnapshot. cbn zeta.
  set (init := match base with Some b => _ | None => _ end).
  change (reg_of (mkSnapshot _ _ _ _ _) k) with (reg_of (foldl buildStep init es) k).
  rewrite reg_foldl_buildStep by (destruct base as [b|]; [exact Hb|by left]).
  by destruct base.
Qed.

Lemma vector_buildSnapshot n0 n1 base es :
  vector (buildSnapshot n0 n1 base es) = foldl stepVector (from_option vector ∅ base) es.
Proof. unfold buildSnapshot. simpl. rewrite vector_foldl_buildStep. by destruct base. Qed.

(** Snapshots are compared up to the two clock readings. *)
Definition snap_eq (s t : Snapshot) : Prop :=
  entries s = entries t /\ deleted s = deleted t /\ vv_eq (vector s) (vector t).

#[export] Instance snap_eq_equivalence : Equivalence snap_eq.
Proof.
  split.
  - by intros s.
  - intros s t (H1 & H2 & H3). by split_and!.
  - intros s t u (H1 & H2 & H3) (H4 & H5 & H6). split_and!; etrans; done.
Qed.

#[export] Instance reg_of_proper : Proper (snap_eq ==> (=) ==> (=)) reg_of.
Proof. intros s t (H1 & H2 & _) k ? <-. unfold reg_of. by rewrite H1, H2. Qed.

(** ** The vector of a replay is the least bound of its entries *)

Definition entryVersion (e : Entry) : VersionVector :=
  CausalVersion (eActor (normalizeEntry e)) (eCounter (normalizeEntry e)) (eContext e).

Lemma vget_stepVector v e a :
  a <> "" -> vget (stepVector v e) a = N.max (vget v a) (vget (entryVersion e) a).
Proof.
  intros Ha. unfold stepVector, entryVersion, CausalVersion. cbn zeta. simpl.
  rewrite !vget_Observe, vget_Merge by done. case_decide; lia.
Qed.

Lemma vget_stepVector_empty v e : vget (stepVector v e) "" = vget v "".
Proof.
  unfold stepVector. cbn zeta.
  rewrite vget_Observe, vget_Merge_empty, decide_False; [done|naive_solver].
Qed.

Lemma vget_foldl_stepVector es v a n :
  a <> "" ->
  (vget (foldl stepVector v es) a <= n)%N <->
  (vget v a <= n)%N /\ forall e, e ∈ es -> (vget (entryVersion e) a <= n)%N.
Proof.
  intros Ha. revert v. induction es as [|e es IH]; intros v; simpl.
  - split; [|naive_solver]. intros; split; [done|]. by intros ? ?%not_elem_of_nil.
  - rewrite IH, vget_stepVector by done. setoid_rewrite elem_of_cons.
    split; [intros [H1 H2]|intros [H1 H2]].
    + split; [lia|]. intros e' [->|He]; [lia|auto].
    + split; [|auto]. specialize (H2 e (or_introl eq_refl)). lia.
Qed.

Lemma vget_foldl_stepVector_empty es v : vget (foldl stepVector v es) "" = vget v "".
Proof.
  revert v. induction es as [|e es IH]; intros v; simpl; [done|].
  by rewrite IH, vget_stepVector_empty.
Qed.

Lemma foldl_stepVector_mono es es' v a :
  (forall e, e ∈ es -> e ∈ es') ->
  (vget (foldl stepVector v es) a <= vget (foldl stepVector v es') a)%N.
Proof.
  intros Hs. destruct (decide (a = "")) as [->|Ha].
  { by rewrite !vget_foldl_stepVector_empty. }
  apply vget_foldl_stepVector; [done|].
  destruct (proj1 (vget_foldl_stepVector es' v a _ Ha) (N.le_refl _)) as [H1 H2].
  split; auto.
Qed.

Lemma foldl_stepVector_set es es' v :
  (forall e, e ∈ es <-> e ∈ es') -> vv_eq (foldl stepVector v es) (foldl stepVector v es').
Proof. intros Hs a. apply N.le_antisymm; apply foldl_stepVector_mono; naive_solver. Qed.

(** ** The abstract specification: the maximum by clock *)

Definition lww_join (cur : option Reg) (r : Reg) : option Reg :=
  match cur with
  | None => Some r
  | Some c => if beats (regClock r) (regClock c) then Some r else Some c
  end.

Definition lww_max (rs : list Reg) : option Reg := foldl lww_join None rs.

(** Clocks respect causality, and a clock names one register. *)
Definition pair_coherent (a b : Reg) : Prop :=
  (regCausal a b = 1 -> beats (regClock a) (regClock b) = true) /\
  (regClock a = regClock b -> a = b).

Definition coherent (rs : list Reg) : Prop :=
  forall a b, a ∈ rs -> b ∈ rs -> pair_coherent a b.

Lemma coherent_Forall rs :
  coherent rs <-> Forall (fun a => Forall (pair_coherent a) rs) rs.
Proof.
  unfold coherent. rewrite Forall_forall. setoid_rewrite Forall_forall. naive_solver.
Qed.

#[export] Instance pair_coherent_dec a b : Decision (pair_coherent a b).
Proof. apply _. Defined.

#[export] Instance coherent_dec rs : Decision (coherent rs).
Proof.
  destruct (decide (Forall (fun a => Forall (pair_coherent a) rs) rs));
    [left|right]; by rewrite coherent_Forall.
Defined.

(** The registers that compete for key [k]. *)
Definition candidates (base : option Snapshot) (es : list Entry) (k : string) : list Reg :=
  option_list (base_reg base k) ++ proposals es k.

Lemma regBeats_coherent rs a b :
  coherent rs -> a ∈ rs -> b ∈ rs -> regBeats a b = beats (regClock a) (regClock b).
Proof.
  intros Hc Ha Hb. unfold regBeats.
  destruct (Z.eqb_spec (regCausal a b) 0) as [|Hne]; [done|]. simpl.
  destruct (Z.ltb_spec 0 (regCausal a b)) as [Hp|Hp].
  - symmetry. apply (Hc a b); [done..|]. unfold regCausal in *.
    revert Hp. unfold compareCausal. repeat case_match; lia.
  - symmetry. apply beats_asym. apply (Hc b a); [done..|].
    unfold regCausal in *. rewrite compareCausal_antisym. revert Hp Hne.
    unfold compareCausal. repeat case_match; lia.
Qed.

Lemma foldl_reg_join_lww rs o l :
  coherent rs -> (forall r, o = Some r -> r ∈ rs) -> (forall r, r ∈ l -> r ∈ rs) ->
  foldl reg_join o l = foldl lww_join o l.
Proof.
  intros Hc. revert o. induction l as [|r l IH]; intros o Ho Hl; simpl; [done|].
  assert (reg_join o r = lww_join o r) as ->.
  { destruct o as [c|]; [|done]. simpl.
    rewrite (regBeats_coherent rs) by (auto; apply Hl; by constructor). done. }
  apply IH; [|intros; apply Hl; by constructor].
  intros r' Hr'. unfold lww_join in Hr'.
  destruct o as [c|]; [case_match|]; simplify_eq; try (by apply Ho);
    apply Hl; by constructor.
Qed.

Lemma foldl_lww_join_base o l : foldl lww_join o l = lww_max (option_list o ++ l).
Proof. by destruct o. Qed.

(** The winner is a candidate that no other candidate beats. *)
Lemma lww_max_spec rs :
  match lww_max rs with
  | None => rs = []
  | Some r => r ∈ rs /\ forall r', r' ∈ rs -> beats (regClock r') (regClock r) = false
  end.
Proof.
  unfold lww_max. induction rs as [|r rs IH] using rev_ind; [done|].
  rewrite foldl_snoc. destruct (foldl lww_join None rs) as [c|]; simpl.
  - destruct IH as [Hin Hmax]. destruct (beats (regClock r) (regClock c)) eqn:E; simpl.
    + split; [set_solver|]. intros r' [H| ->%list_elem_of_singleton]%elem_of_app;
        [|by rewrite beats_irrefl].
      apply not_true_iff_false. intros H'. specialize (Hmax r' H).
      by rewrite (beats_trans _ _ _ H' E) in Hmax.
    + split; [set_solver|]. intros r' [H| ->%list_elem_of_singleton]%elem_of_app; auto.
  - subst. simpl. split; [set_solver|]. intros r' ->%list_elem_of_singleton.
    by rewrite beats_irrefl.
Qed.

Lemma lww_max_perm rs rs' :
  coherent rs -> (forall r, r ∈ rs <-> r ∈ rs') -> lww_max rs = lww_max rs'.
Proof.
  intros Hc Hp. pose proof (lww_max_spec rs) as H1. pose proof (lww_max_spec rs') as H2.
  destruct (lww_max rs) as [r|] eqn:E1, (lww_max rs') as [r'|] eqn:E2.
  - destruct H1 as [Hin1 Hm1], H2 as [Hin2 Hm2]. f_equal.
    assert (r' ∈ rs) as Hr' by by apply Hp.
    destruct (decide (regClock r = regClock r')) as [E|E]; [by apply (Hc r r')|].
    assert (beats (regClock r) (regClock r') = false) as Hb by (apply Hm2; by apply Hp).
    pose proof (beats_total _ _ E Hb) as Hb'. by rewrite Hm1 in Hb'.
  - subst. destruct H1 as [Hin _]. apply Hp in Hin. by apply not_elem_of_nil in Hin.
  - subst. destruct H2 as [Hin _]. apply Hp in Hin. by apply not_elem_of_nil in Hin.
  - done.
Qed.

Lemma elem_of_proposals es k r :
  r ∈ proposals es k <-> exists e, e ∈ es /\ eKey e = k /\ incoming e = Some r.
Proof.
  unfold proposals. rewrite list_elem_of_omap. split.
  - intros (e & He & H). case_decide; [|done]. eauto.
  - intros (e & He & <- & H). exists e. by rewrite decide_True.
Qed.

Lemma reg_buildSnapshot_lww n0 n1 base es k :
  base_separated base -> coherent (candidates base es k) ->
  reg_of (buildSnapshot n0 n1 base es) k = lww_max (candidates base es k).
Proof.
  intros Hb Hc. rewrite reg_buildSnapshot by done.
  rewrite (foldl_reg_join_lww (candidates base es k)); [apply foldl_lww_join_base|done|..].
  - intros r Hr. unfold candidates. rewrite Hr. set_solver.
  - intros r Hr. unfold candidates. set_solver.
Qed.

Lemma candidates_set base es es' k :
  (forall e, e ∈ es <-> e ∈ es') ->
  forall r, r ∈ candidates base es k <-> r ∈ candidates base es' k.
Proof.
  intros Hs r. unfold candidates. rewrite !elem_of_app, !elem_of_proposals.
  naive_solver.
Qed.

(** [snap_eq] is decided by the registers and the vector. *)
Lemma snap_eq_regs s t :
  separated s -> separated t -> (forall k, reg_of s k = reg_of t k) ->
  vv_eq (vector s) (vector t) -> snap_eq s t.
Proof. intros Hs Ht Hr Hv. destruct (separated_ext s t) as [H1 H2]; [done..|]. by split_and!. Qed.

(** The reading of [updated] never reaches the other fields. *)
Lemma buildStep_updated s e u :
  buildStep (mkSnapshot (entries s) (deleted s) (vector s) (created s) u) e =
    let s' := buildStep s e in
    mkSnapshot (entries s') (deleted s') (vector s') (created s') u.
Proof. unfold buildStep. cbn zeta. simpl. by repeat case_match. Qed.

Lemma foldl_buildStep_updated es s u :
  foldl buildStep (mkSnapshot (entries s) (deleted s) (vector s) (created s) u) es =
    let s' := foldl buildStep s es in
    mkSnapshot (entries s') (deleted s') (vector s') (created s') u.
Proof.
  revert s. induction es as [|e es IH]; intros s; simpl; [done|].
  rewrite buildStep_updated. cbn zeta. by rewrite IH.
Qed.

Lemma buildSnapshot_app n0 n1 m0 m1 base es1 es2 :
  buildSnapshot n0 n1 (Some (buildSnapshot m0 m1 base es1)) es2 =
    buildSnapshot m0 n1 base (es1 ++ es2).
Proof.
  unfold buildSnapshot. cbn zeta. simpl. rewrite foldl_app.
  set (s := foldl buildStep _ es1). by rewrite foldl_buildStep_updated.
Qed.

(** ** Properties *)

(** C1 (refinement).  Replaying log entries over a base implements the
    last-writer-wins register map: when the clocks of the competing entries of
    a key respect causality, the key is live with value [v], respectively
    deleted with tombstone [t], exactly when [v], respectively [t], is the
    maximum of the candidates by (timestamp, device, seq). *)
Theorem kv_replay_is_lww n0 n1 base es k :
  base_separated base -> coherent (candidates base es k) ->
  (forall v, Lookup (buildSnapshot n0 n1 base es) k = Some v <->
     lww_max (candidates base es k) = Some (Live v)) /\
  (forall t, Tombstones (buildSnapshot n0 n1 base es) !! k = Some t <->
     lww_max (candidates base es k) = Some (Dead t)).
Proof.
  intros Hb Hc. rewrite <- (reg_buildSnapshot_lww n0 n1) by done.
  pose proof (buildSnapshot_separated n0 n1 base es Hb) as Hs.
  split; intros x; [by rewrite reg_of_live|by rewrite reg_of_dead].
Qed.

(**  Strong eventual consistency: two logs holding the same
    set of entries, in any order and with any duplicates, materialize the same
    values, the same tombstones and the same version vector. *)
Theorem kv_replay_converges n0 n1 m0 m1 base es es' :
  base_separated base ->
  (forall e, e ∈ es <-> e ∈ es') ->
  (forall k, coherent (candidates base es k)) ->
  snap_eq (buildSnapshot n0 n1 base es) (buildSnapshot m0 m1 base es').
Proof.
  intros Hb Hs Hc. apply snap_eq_regs; [by apply buildSnapshot_separated..| |].
  - intros k. pose proof (candidates_set base es es' k Hs) as Hset.
    rewrite !reg_buildSnapshot_lww; try done.
    + by apply lww_max_perm.
    + intros a b Ha Hb'. apply (Hc k); by apply Hset.
  - rewrite !vector_buildSnapshot. by apply foldl_stepVector_set.
Qed.

(**  The incremental cache update of [Append] is exact:
    replaying [es2] over the materialized [es1] is replaying [es1 ++ es2]. *)
Theorem kv_replay_incremental n0 n1 m0 m1 base es1 es2 :
  buildSnapshot n0 n1 (Some (buildSnapshot m0 m1 base es1)) es2 =
    buildSnapshot m0 n1 base (es1 ++ es2).
Proof. apply buildSnapshot_app. Qed.

(** ** Concrete logs *)

Definition demoSet (dev : string) (t q : Z) (k v : string) (ctx : VersionVector) : Entry :=
  mkEntry EntrySet k v "" dev t q "" 0%N ctx.
Definition demoDelete (dev : string) (t q : Z) (k : string) (ctx : VersionVector) : Entry :=
  mkEntry EntryDelete k "" "" dev t q "" 0%N ctx.

Definition demoLog : list Entry :=
  [demoSet "dev-a" 10 1 "k" "one" ∅;
   demoDelete "dev-b" 11 1 "k" {["dev-a" := 1%N]};
   demoSet "dev-c" 10 1 "k" "two" ∅].

Lemma demoLog_coherent k : coherent (candidates None demoLog k).
Proof.
  destruct (decide (k = "k")) as [->|Hk].
  - apply (bool_decide_unpack _). vm_compute. done.
  - unfold candidates, proposals. simpl. rewrite !decide_False by done.
    intros ?? []%not_elem_of_nil.
Defined.

Lemma kv_replay_is_lww_witness :
  Lookup (buildSnapshot 0 0 None demoLog) "k" = None /\
  Tombstones (buildSnapshot 0 0 None demoLog) !! "k" =
    Some (mkTombstoneInfo (time_Unix 11) "dev-b" 1 "dev-b" 1%N {["dev-a" := 1%N]}).
Proof.
  split.
  - destruct (Lookup _ "k") as [v|] eqn:E; [|done].
    apply (proj1 (kv_replay_is_lww 0 0 None demoLog "k" I (demoLog_coherent "k"))) in E.
    vm_compute in E. discriminate E.
  - apply (proj2 (kv_replay_is_lww 0 0 None demoLog "k" I (demoLog_coherent "k"))).
    vm_compute. reflexivity.
Defined.

Lemma kv_replay_converges_witness :
  snap_eq (buildSnapshot 0 0 None demoLog)
    (buildSnapshot 5 5 None (reverse demoLog ++ demoLog)).
Proof.
  apply (kv_replay_converges 0 0 5 5 None demoLog (reverse demoLog ++ demoLog) I).
  - intros e. rewrite elem_of_app, elem_of_reverse. tauto.
  - exact demoLog_coherent.
Defined.

Definition skewA : Entry := demoSet "dev-a" 5 1 "k" "wa" {["dev-b" := 1%N]}.
Definition skewB : Entry := demoSet "dev-b" 10 1 "k" "wb" ∅.
Definition skewC : Entry := demoSet "dev-c" 7 1 "k" "wc" ∅.

(**  Without clocks that respect causality replay is not
    commutative: [skewA] has observed [skewB] but carries an older timestamp,
    and [skewC] is concurrent with both and dated in between.  Replaying the
    three writes in two orders keeps two different values. *)
Theorem kv_replay_order_matters :
  [skewB; skewC; skewA] ≡ₚ [skewA; skewB; skewC] /\
  (viValue <$> Lookup (buildSnapshot 0 0 None [skewB; skewC; skewA]) "k") = Some "wa" /\
  (viValue <$> Lookup (buildSnapshot 0 0 None [skewA; skewB; skewC]) "k") = Some "wc".
Proof.
  split; [symmetry; apply (Permutation_cons_append [skewB; skewC] skewA)|].
  split; vm_compute; reflexivity.
Qed.
