(* ===== verification/KvLocal.v ===== *)
(** * The local log of the key-value store (pkg/kv/local.go)

    A [LocalLog] is a JSONL file and a cached snapshot.  The file is its byte
    string; every operation that touches it takes the outcome of the system
    calls as an argument, short writes included.  The JSON encoding of an entry
    is the interface [LineCodec] of JsonLines.  The mutex of the source makes
    each operation one atomic step of [log_step]. *)

From Stdlib Require Import Ascii.
From stdpp Require Import base numbers list gmap strings.
From S2P Require Import Prelude GoStrings JsonLines KvCausal KvSnapshot KvMerge.

Record LocalLog := mkLocalLog {
  llDeviceID : string;
  llActorID : string;
  llCache : option Snapshot;
  llSeq : Z;
  llFile : option string   (** the bytes at [path]; [None] when it does not exist *)
}.

Definition NewLocalLogWithActor (file : option string) (deviceID actorID : string) : LocalLog :=
  mkLocalLog deviceID (if bool_decide (actorID = "") then deviceID else actorID) None 0 file.

Definition NewLocalLog (file : option string) (deviceID : string) : LocalLog :=
  NewLocalLogWithActor file deviceID deviceID.

Section Log.
Context `{Codec : LineCodec Entry}.

(** [rd] is false when opening an existing file fails. *)
Definition readAllLocked (rd : bool) (l : LocalLog) : result LogErr (list Entry) :=
  read_lines rd (llFile l).

Definition rebuildLocked (rd : bool) (n0 n1 : Time) (l : LocalLog) : LocalLog * result LogErr Snapshot :=
  match readAllLocked rd l with
  | Err e => (l, Err e)
  | Ok es =>
      let cache := buildSnapshot n0 n1 None es in
      let sq := foldl (fun sq e =>
        if bool_decide (eDevice e = llDeviceID l) && Z.ltb sq (eSeq e) then eSeq e else sq)
        (llSeq l) es in
      (mkLocalLog (llDeviceID l) (llActorID l) (Some cache) sq (llFile l), Ok cache)
  end.

(** The file after the call, and the error. *)
Definition appendToFile (io : WriteIO) (f : option string) (e : Entry)
  : option string * result LogErr unit := append_file io f e.

Definition refreshCache (n0 n1 : Time) (c : option Snapshot) (e : Entry) : option Snapshot :=
  match c with Some c => Some (buildSnapshot n0 n1 (Some c) [e]) | None => None end.

Definition Append (io : WriteIO) (n0 n1 : Time) (e : Entry) (l : LocalLog)
  : LocalLog * result LogErr unit :=
  match appendToFile io (llFile l) e with
  | (f, Err x) => (mkLocalLog (llDeviceID l) (llActorID l) (llCache l) (llSeq l) f, Err x)
  | (f, Ok _) =>
      (mkLocalLog (llDeviceID l) (llActorID l) (refreshCache n0 n1 (llCache l) e) (llSeq l) f, Ok tt)
  end.

(** The entry [AppendLocal] writes, from the state after [l.seq++]. *)
Definition localEntry (now : Time) (e : Entry) (dev actor : string) (sq : Z)
  (context : VersionVector) : Entry :=
  mkEntry (eType e) (eKey e) (eValue e) (eNamespace e) dev
    (if Z.eqb (eTimestamp e) 0 then unix_seconds now else eTimestamp e)
    sq actor (Z.to_N (uint64_wrap sq)) context.

Definition AppendLocal (rd : bool) (io : WriteIO) (n0 n1 now : Time) (e : Entry) (l : LocalLog)
  : LocalLog * result LogErr unit :=
  let '(l, r) := match llCache l with
                 | Some c => (l, Ok c)
                 | None => rebuildLocked rd n0 n1 l
                 end in
  match r with
  | Err x => (l, Err x)
  | Ok c =>
      let sq := int64_wrap (llSeq l + 1) in
      let e := localEntry now e (llDeviceID l) (llActorID l) sq (Vector c) in
      let l := mkLocalLog (llDeviceID l) (llActorID l) (llCache l) sq (llFile l) in
      Append io n0 n1 e l
  end.

(** [Snapshot()] and [Lookup] *)
Definition getSnapshot (rd : bool) (n0 n1 : Time) (l : LocalLog) : LocalLog * result LogErr Snapshot :=
  match llCache l with
  | Some c => (l, Ok c)
  | None => rebuildLocked rd n0 n1 l
  end.

Definition logLookup (rd : bool) (n0 n1 : Time) (key : string) (l : LocalLog)
  : LocalLog * option ValueInfo :=
  match getSnapshot rd n0 n1 l with
  | (l, Ok c) => (l, Lookup c key)
  | (l, Err _) => (l, None)
  end.

Definition InvalidateCache (l : LocalLog) : LocalLog :=
  mkLocalLog (llDeviceID l) (llActorID l) None (llSeq l) (llFile l).

(** The synthetic entries of [Compact]. *)
Definition compactValue (kv : string * ValueInfo) : Entry :=
  let '(key, vi) := kv in
  mkEntry EntrySet key (viValue vi) "" (viDevice vi) (unix_seconds (viModified vi))
    (viSeq vi) (viActor vi) (viCounter vi) (viContext vi).

Definition compactTombstone (kt : string * TombstoneInfo) : Entry :=
  let '(key, tomb) := kt in
  mkEntry EntryDelete key "" "" (tiDevice tomb) (unix_seconds (tiModified tomb))
    (tiSeq tomb) (tiActor tomb) (tiCounter tomb) (tiContext tomb).

(** [live] and [dead] are the enumerations of the two map loops.  The new
    content goes to a temporary file; only the rename touches [path]. *)
Definition Compact (rd : bool) (io : CompactIO) (n0 n1 : Time)
    (live : Snapshot -> list (string * ValueInfo))
    (dead : Snapshot -> list (string * TombstoneInfo)) (l : LocalLog)
  : LocalLog * result LogErr unit :=
  let '(l, r) := getSnapshot rd n0 n1 l in
  match r with
  | Err x => (l, Err x)
  | Ok c =>
      match io with
      | CICreateFails => (l, Err ErrCreate)
      | CIWriteFails => (l, Err ErrWrite)
      | CIRenameFails => (l, Err ErrRename)
      | CIOk =>
          let f := jsonl (map compactValue (live c) ++ map compactTombstone (dead c)) in
          (mkLocalLog (llDeviceID l) (llActorID l) None (llSeq l) (Some f), Ok tt)
      end
  end.

End Log.

(** ** Versions of the stored registers *)

Lemma effectiveActor_idem a d : effectiveActor (effectiveActor a d) d = effectiveActor a d.
Proof. unfold effectiveActor. by repeat case_bool_decide. Qed.

Lemma effectiveCounter_idem c q : effectiveCounter (effectiveCounter c q) q = effectiveCounter c q.
Proof.
  unfold effectiveCounter. destruct (N.eqb_spec c 0) as [->|Hc]; simpl.
  - destruct (Z.ltb_spec 0 q); [|done]. by destruct (N.eqb _ 0).
  - by rewrite (proj2 (N.eqb_neq c 0)).
Qed.

Lemma incoming_reg e r :
  incoming e = Some r ->
  regActor r = eActor (normalizeEntry e) /\ regCounter r = eCounter (normalizeEntry e) /\
  regContext r = eContext e /\ regVersion r = entryVersion e.
Proof.
  unfold incoming, regVersion, entryVersion. cbn zeta. intros H.
  repeat case_bool_decide; simplify_eq; simpl;
    by rewrite effectiveActor_idem, effectiveCounter_idem.
Qed.

Lemma foldl_reg_join_elem o l r :
  foldl reg_join o l = Some r -> o = Some r \/ r ∈ l.
Proof.
  revert o. induction l as [|x l IH]; intros o H; simpl in *; [auto|].
  apply IH in H as [H|H]; [|set_solver].
  destruct o as [c|]; simpl in H; [case_match|]; simplify_eq; set_solver.
Qed.

Lemma reg_of_replay n0 n1 es k r :
  reg_of (buildSnapshot n0 n1 None es) k = Some r ->
  exists e, e ∈ es /\ eKey e = k /\ incoming e = Some r.
Proof.
  rewrite reg_buildSnapshot by done. simpl.
  intros [?|H]%foldl_reg_join_elem; [done|]. by apply elem_of_proposals.
Qed.

(** The vector of a replay covers each of its entries on named actors. *)
Lemma vector_replay_bound n0 n1 es a n :
  a <> "" ->
  (vget (vector (buildSnapshot n0 n1 None es)) a <= n)%N <->
  forall e, e ∈ es -> (vget (entryVersion e) a <= n)%N.
Proof.
  intros Ha. rewrite vector_buildSnapshot, vget_foldl_stepVector by done.
  simpl. unfold vget at 1. rewrite lookup_empty. simpl. naive_solver lia.
Qed.

Lemma vector_replay_empty n0 n1 es : vget (vector (buildSnapshot n0 n1 None es)) "" = 0%N.
Proof. by rewrite vector_buildSnapshot, vget_foldl_stepVector_empty. Qed.

Lemma vector_replay_covers n0 n1 es e :
  e ∈ es -> vget (eContext e) "" = 0%N ->
  vle (entryVersion e) (vector (buildSnapshot n0 n1 None es)).
Proof.
  intros He Hn a. destruct (decide (a = "")) as [->|Ha].
  - unfold entryVersion, CausalVersion.
    rewrite vget_Observe, decide_False by naive_solver. rewrite Hn. lia.
  - by apply (proj1 (vector_replay_bound n0 n1 es a _ Ha) (N.le_refl _)).
Qed.

(** ** Reachable logs *)

Section Reachable.
Context `{Codec : LineCodec Entry}.
Implicit Types (l : LocalLog) (e : Entry).

(** The highest sequence number of the device in the file, as [rebuildLocked]
    recovers it from a zero counter. *)
Definition own_max (dev : string) (sq : Z) (es : list Entry) : Z :=
  foldl (fun sq e => if bool_decide (eDevice e = dev) && Z.ltb sq (eSeq e) then eSeq e else sq)
    sq es.

(** An entry carries a dot, and its context names actors only. *)
Definition dotted e : Prop :=
  known (eActor (normalizeEntry e)) (eCounter (normalizeEntry e)) /\
  vget (eContext e) "" = 0%N.

(** A remote entry knows this device only through what it has persisted. *)
Definition admissible l e : Prop :=
  good_line e /\ dotted e /\
  let m := own_max (llDeviceID l) 0 (file_entries (llFile l)) in
  (vget (entryVersion e) (llActorID l) <= Z.to_N m)%N /\
  (eDevice e = llDeviceID l -> eSeq e <= m).

(** The sequence counter does not overflow an [int]. *)
Definition has_room l : Prop :=
  Z.max (llSeq l) (own_max (llDeviceID l) 0 (file_entries (llFile l))) + 1 < 2 ^ 63.

(** The entry [AppendLocal] stamps in state [l] with cached snapshot [c]. *)
Definition stamped (now : Time) e l (c : Snapshot) : Entry :=
  localEntry now e (llDeviceID l) (llActorID l) (int64_wrap (llSeq l + 1)) (Vector c).

(** One atomic step.  Writes either succeed or fail to open the file. *)
Inductive log_step : LocalLog -> LocalLog -> Prop :=
| step_AppendLocal l l' r rd io n0 n1 now e :
    (forall n, io <> WShort n) -> has_room l ->
    (forall l1 c, getSnapshot rd n0 n1 l = (l1, Ok c) -> good_line (stamped now e l1 c)) ->
    AppendLocal rd io n0 n1 now e l = (l', r) -> log_step l l'
| step_Append l l' r io n0 n1 e :
    (forall n, io <> WShort n) -> admissible l e ->
    Append io n0 n1 e l = (l', r) -> log_step l l'
| step_Snapshot l l' r rd n0 n1 :
    getSnapshot rd n0 n1 l = (l', r) -> log_step l l'
| step_InvalidateCache l : log_step l (InvalidateCache l)
| step_restart l :
    log_step l (mkLocalLog (llDeviceID l) (llActorID l) None 0 (llFile l)).

Inductive log_reachable (dev actor : string) : LocalLog -> Prop :=
| reach_new : log_reachable dev actor (NewLocalLogWithActor None dev actor)
| reach_step l l' : log_reachable dev actor l -> log_step l l' -> log_reachable dev actor l'.

Record log_inv l : Prop := {
  inv_term : ends_line (default "" (llFile l)) = true;
  inv_short : Forall (fun s => slen s < maxTokenSize) (scan_lines (default "" (llFile l)));
  inv_cache : forall c, llCache l = Some c ->
    exists n0 n1, c = buildSnapshot n0 n1 None (file_entries (llFile l));
  inv_dotted : Forall dotted (file_entries (llFile l));
  inv_own : forall e, e ∈ file_entries (llFile l) ->
    (vget (entryVersion e) (llActorID l) <=
      Z.to_N (own_max (llDeviceID l) 0 (file_entries (llFile l))))%N;
  inv_seq : is_Some (llCache l) ->
    own_max (llDeviceID l) 0 (file_entries (llFile l)) <= llSeq l;
  inv_range : 0 <= llSeq l /\ own_max (llDeviceID l) 0 (file_entries (llFile l)) < 2 ^ 63
}.

Lemma own_max_ge dev sq es : sq <= own_max dev sq es.
Proof.
  unfold own_max. apply (foldl_invariant (fun x => sq <= x)); [lia|].
  intros x e _ Hx. case_match eqn:E; [|done]. bool_prop. lia.
Qed.

Lemma own_max_split dev sq es : 0 <= sq -> own_max dev sq es = Z.max sq (own_max dev 0 es).
Proof.
  induction es as [|e es IH] using rev_ind; intros Hs; [simpl; lia|].
  unfold own_max in *. rewrite !foldl_snoc, IH by done.
  set (m := foldl _ 0 es) in *. destruct (bool_decide (eDevice e = dev)); simpl; [|done].
  destruct (Z.ltb_spec (Z.max sq m) (eSeq e)), (Z.ltb_spec m (eSeq e)); lia.
Qed.

Lemma own_max_snoc dev es e :
  own_max dev 0 (es ++ [e]) =
    if bool_decide (eDevice e = dev) then Z.max (own_max dev 0 es) (eSeq e)
    else own_max dev 0 es.
Proof.
  unfold own_max. rewrite foldl_snoc. case_bool_decide; simpl; [|done].
  case_match; bool_prop; lia.
Qed.

Lemma readAll_inv rd l :
  log_inv l ->
  readAllLocked rd l = Ok (file_entries (llFile l)) \/ (readAllLocked rd l = Err ErrRead /\ rd = false).
Proof. intros Hl. apply read_well_formed. split; apply Hl. Qed.

Lemma getSnapshot_inv rd n0 n1 l l' r :
  log_inv l -> getSnapshot rd n0 n1 l = (l', r) ->
  log_inv l' /\ llFile l' = llFile l /\ llDeviceID l' = llDeviceID l /\
  llActorID l' = llActorID l /\
  match r with
  | Ok c => llCache l' = Some c
  | Err _ => l' = l /\ rd = false
  end.
Proof.
  intros Hl H. unfold getSnapshot in H. destruct (llCache l) as [c|] eqn:Ec; simplify_eq; [done|].
  unfold rebuildLocked in H. destruct (readAllLocked rd l) as [es|x] eqn:Er; simplify_eq/=.
  - assert (es = file_entries (llFile l)) as -> by (destruct (readAll_inv rd l Hl) as [?|[? _]]; congruence).
    fold (own_max (llDeviceID l) (llSeq l) (file_entries (llFile l))).
    destruct Hl. split_and!; try done. split; simpl; try done.
    + intros c [= <-]. eauto.
    + intros _. rewrite (own_max_split _ (llSeq l)) by lia. lia.
    + rewrite (own_max_split _ (llSeq l)) by lia. lia.
  - split_and!; try done. by destruct (readAll_inv rd _ Hl) as [?|[_ ->]]; [congruence|].
Qed.

Lemma own_max_range dev es : 0 <= own_max dev 0 es.
Proof. apply own_max_ge. Qed.

Lemma refreshCache_inv n0 n1 f c e c' :
  (forall d, c = Some d -> exists n0 n1, d = buildSnapshot n0 n1 None (file_entries f)) ->
  ends_line (default "" f) = true -> wire_ok e ->
  refreshCache n0 n1 c e = Some c' ->
  exists n0 n1, c' = buildSnapshot n0 n1 None (file_entries (append_line f e)).
Proof.
  intros Hc Hf He H. destruct c as [d|]; [|done]. simpl in H. simplify_eq.
  destruct (Hc d eq_refl) as (m0 & m1 & ->). exists m0, n1.
  by rewrite file_append, buildSnapshot_app.
Qed.

(** [Append] keeps the invariant when the entry is bounded by what the file
    (or the sequence counter just advanced) knows of this device. *)
Lemma Append_inv io n0 n1 e l l' r :
  log_inv l -> (forall n, io <> WShort n) -> good_line e -> dotted e ->
  (vget (entryVersion e) (llActorID l) <=
    Z.to_N (own_max (llDeviceID l) 0 (file_entries (llFile l) ++ [e])))%N ->
  (is_Some (llCache l) ->
    own_max (llDeviceID l) 0 (file_entries (llFile l) ++ [e]) <= llSeq l) ->
  own_max (llDeviceID l) 0 (file_entries (llFile l) ++ [e]) < 2 ^ 63 ->
  Append io n0 n1 e l = (l', r) -> log_inv l'.
Proof.
  intros Hl Hio [Hw Hlen] Hd Hown Hseq Hmax H. unfold Append, appendToFile in H.
  destruct io as [| |n]; simplify_eq/=; [|by destruct Hl|by destruct (Hio n)].
  fold (append_line (llFile l) e). pose proof (file_append _ e (inv_term l Hl) Hw) as Hfe.
  split; simpl llFile; simpl llDeviceID; simpl llActorID; simpl llCache; simpl llSeq;
    rewrite ?Hfe.
  - simpl. apply ends_line_app; [apply ends_line_line|by destruct (marshal e)].
  - rewrite scan_append by apply Hl. apply Forall_app_2; [apply Hl|by constructor].
  - intros c Hc. rewrite <- Hfe. eapply refreshCache_inv; [apply Hl|apply Hl|done|done].
  - apply Forall_app_2; [apply Hl|by constructor].
  - intros e' [He'| ->%list_elem_of_singleton]%elem_of_app; [|done].
    pose proof (inv_own l Hl e' He'). rewrite own_max_snoc. case_bool_decide; lia.
  - intros Hc. apply Hseq. by destruct (llCache l).
  - destruct Hl. lia.
Qed.

(** The state between [l.seq++] and the write of [AppendLocal]. *)
Definition bump l : LocalLog :=
  mkLocalLog (llDeviceID l) (llActorID l) (llCache l) (int64_wrap (llSeq l + 1)) (llFile l).

Lemma bump_inv l : log_inv l -> llSeq l + 1 < 2 ^ 63 -> log_inv (bump l).
Proof.
  intros Hl Hs. destruct (inv_range l Hl) as [H0 Hm].
  assert (int64_wrap (llSeq l + 1) = llSeq l + 1) as E by (apply int64_wrap_id; unfold int64_range; lia).
  pose proof (inv_seq l Hl).
  destruct Hl. split; simpl; rewrite ?E; try done; [intros; specialize (H H1)|]; lia.
Qed.

Lemma AppendLocal_unfold rd io n0 n1 now e l l1 c :
  getSnapshot rd n0 n1 l = (l1, Ok c) ->
  AppendLocal rd io n0 n1 now e l =
    Append io n0 n1 (localEntry now e (llDeviceID l1) (llActorID l1)
      (int64_wrap (llSeq l1 + 1)) (Vector c)) (bump l1).
Proof. intros H. unfold AppendLocal, getSnapshot in *. by rewrite H. Qed.

Lemma AppendLocal_error rd io n0 n1 now e l l1 x :
  getSnapshot rd n0 n1 l = (l1, Err x) -> AppendLocal rd io n0 n1 now e l = (l1, Err x).
Proof. intros H. unfold AppendLocal, getSnapshot in *. by rewrite H. Qed.

Lemma local_normalized now e dev actor sq ctx :
  actor <> "" -> 0 < sq < 2 ^ 63 ->
  eActor (normalizeEntry (localEntry now e dev actor sq ctx)) = actor /\
  eCounter (normalizeEntry (localEntry now e dev actor sq ctx)) = Z.to_N sq.
Proof.
  intros Ha Hs. simpl. unfold effectiveActor, effectiveCounter.
  rewrite bool_decide_eq_true_2 by done.
  rewrite uint64_wrap_id by (unfold uint64_range; lia).
  by rewrite (proj2 (N.eqb_neq (Z.to_N sq) 0)) by lia.
Qed.

Lemma local_version now e dev actor sq ctx :
  actor <> "" -> 0 < sq < 2 ^ 63 ->
  entryVersion (localEntry now e dev actor sq ctx) = Observe ctx actor (Z.to_N sq).
Proof.
  intros Ha Hs. unfold entryVersion, CausalVersion.
  by destruct (local_normalized now e dev actor sq ctx Ha Hs) as [-> ->].
Qed.

Lemma local_dotted now e dev actor sq ctx :
  actor <> "" -> 0 < sq < 2 ^ 63 -> vget ctx "" = 0%N ->
  dotted (localEntry now e dev actor sq ctx).
Proof.
  intros Ha Hs Hc. split; [|done]. unfold known.
  destruct (local_normalized now e dev actor sq ctx Ha Hs) as [-> ->]. split; [done|lia].
Qed.

(** The facts about the cached snapshot of a reachable log. *)
Lemma cache_vector l c :
  log_inv l -> llCache l = Some c -> llActorID l <> "" ->
  (vget (vector c) (llActorID l) <= Z.to_N (llSeq l))%N /\ vget (vector c) "" = 0%N.
Proof.
  intros Hl Hc Ha. destruct (inv_cache l Hl c Hc) as (n0 & n1 & ->).
  split; [|apply vector_replay_empty]. apply vector_replay_bound; [done|].
  intros e He. pose proof (inv_own l Hl e He).
  pose proof (inv_seq l Hl ltac:(rewrite Hc; eauto)). lia.
Qed.

Lemma AppendLocal_inv rd io n0 n1 now e l l' r :
  log_inv l -> llActorID l <> "" -> (forall n, io <> WShort n) ->
  (forall l1 c, getSnapshot rd n0 n1 l = (l1, Ok c) -> llSeq l1 + 1 < 2 ^ 63) ->
  (forall l1 c, getSnapshot rd n0 n1 l = (l1, Ok c) -> good_line (stamped now e l1 c)) ->
  AppendLocal rd io n0 n1 now e l = (l', r) -> log_inv l'.
Proof.
  intros Hl Ha Hio Hseq Hg H. destruct (getSnapshot rd n0 n1 l) as [l1 [c|x]] eqn:Eg.
  2:{ erewrite AppendLocal_error in H by done. simplify_eq.
      by destruct (getSnapshot_inv _ _ _ _ _ _ Hl Eg). }
  erewrite AppendLocal_unfold in H by done. specialize (Hseq l1 c eq_refl).
  specialize (Hg l1 c eq_refl). unfold stamped in Hg.
  destruct (getSnapshot_inv _ _ _ _ _ _ Hl Eg) as (Hl1 & Hf & Hdv & Hac & Hc).
  pose proof (bump_inv l1 Hl1 Hseq) as Hb. rewrite <- Hac in Ha.
  destruct (cache_vector l1 c Hl1 Hc Ha) as [Hv Hv0].
  destruct (inv_range l1 Hl1) as [H0 _].
  assert (int64_wrap (llSeq l1 + 1) = llSeq l1 + 1) as E
    by (apply int64_wrap_id; unfold int64_range; lia).
  pose proof (inv_seq l1 Hl1 ltac:(rewrite Hc; eauto)) as Hs.
  rewrite E in H, Hg. eapply Append_inv; [exact Hb|done|exact Hg| | | | |exact H].
  - apply local_dotted; [done|lia|done].
  - rewrite local_version by (done || lia). simpl. unfold Vector. rewrite vget_Observe_eq by done.
    rewrite own_max_snoc, bool_decide_eq_true_2 by done. simpl. lia.
  - intros _. rewrite own_max_snoc, bool_decide_eq_true_2 by done. simpl. rewrite E. lia.
  - rewrite own_max_snoc, bool_decide_eq_true_2 by done. simpl. lia.
Qed.

Lemma getSnapshot_room rd n0 n1 l l1 r :
  log_inv l -> has_room l -> getSnapshot rd n0 n1 l = (l1, r) -> llSeq l1 + 1 < 2 ^ 63.
Proof.
  intros Hl Hr H. unfold has_room, getSnapshot in *.
  destruct (llCache l) as [c|]; simplify_eq; [lia|]. unfold rebuildLocked in H.
  destruct (readAll_inv rd l Hl) as [E|[E _]]; rewrite E in H; simplify_eq/=; [|lia].
  fold (own_max (llDeviceID l) (llSeq l) (file_entries (llFile l))).
  destruct (inv_range l Hl). rewrite (own_max_split _ (llSeq l)) by lia. lia.
Qed.

Lemma Append_ids io n0 n1 e l l' r :
  Append io n0 n1 e l = (l', r) -> llDeviceID l' = llDeviceID l /\ llActorID l' = llActorID l.
Proof. unfold Append. intros H. by repeat case_match; simplify_eq. Qed.

Lemma AppendLocal_ids rd io n0 n1 now e l l' r :
  log_inv l -> AppendLocal rd io n0 n1 now e l = (l', r) ->
  llDeviceID l' = llDeviceID l /\ llActorID l' = llActorID l.
Proof.
  intros Hl H. destruct (getSnapshot rd n0 n1 l) as [l1 [c|x]] eqn:Eg;
    destruct (getSnapshot_inv _ _ _ _ _ _ Hl Eg) as (Hl1 & _ & Hd & Ha & _).
  - erewrite AppendLocal_unfold in H by done. apply Append_ids in H as [H1 H2].
    simpl in *. by rewrite H1, H2.
  - erewrite AppendLocal_error in H by done. by simplify_eq.
Qed.

Lemma log_step_ids l l' :
  log_inv l -> log_step l l' -> llDeviceID l' = llDeviceID l /\ llActorID l' = llActorID l.
Proof.
  intros Hl Hs. inversion Hs; subst; try done.
  - by eapply AppendLocal_ids.
  - by eapply Append_ids.
  - by destruct (getSnapshot_inv _ _ _ _ _ _ Hl H) as (_ & _ & ? & ? & _).
Qed.

Lemma log_step_inv l l' : llActorID l <> "" -> log_inv l -> log_step l l' -> log_inv l'.
Proof.
  intros Ha Hl Hs. destruct Hs as [l l' r rd io n0 n1 now e Hio Hroom Hg H
    |l l' r io n0 n1 e Hio (Hg & Hd & Hv & Hs') H|l l' r rd n0 n1 H|l|l].
  - eapply AppendLocal_inv; [done..| |exact Hg|exact H].
    intros l1 c Hc. by eapply getSnapshot_room.
  - pose proof (inv_seq l Hl). pose proof (own_max_range (llDeviceID l) (file_entries (llFile l))).
    destruct (inv_range l Hl).
    eapply Append_inv; [done|done|done|done| | | |exact H]; rewrite own_max_snoc;
      case_bool_decide; try (specialize (Hs' ltac:(done))); naive_solver lia.
  - by destruct (getSnapshot_inv _ _ _ _ _ _ Hl H).
  - destruct Hl. by split; simpl.
  - destruct Hl as [? ? ? ? ? ? [? ?]]. by split; simpl.
Qed.

Lemma new_inv dev actor : log_inv (NewLocalLogWithActor None dev actor).
Proof. split; simpl; try done. by intros ? ?%not_elem_of_nil. Qed.

Lemma log_reachable_inv dev actor l :
  dev <> "" -> log_reachable dev actor l -> log_inv l /\ llActorID l <> "" /\ llDeviceID l = dev.
Proof.
  intros Hd. induction 1 as [|l l' _ (Hl & Ha & Hdev) Hs].
  - split; [apply new_inv|]. split; [|done]. simpl. by case_bool_decide.
  - destruct (log_step_ids l l' Hl Hs) as [-> ->]. split; [|done]. by eapply log_step_inv.
Qed.

(** A register whose version lies strictly below the incoming one loses. *)
Lemma regBeats_later r c :
  known (regActor r) (regCounter r) -> known (regActor c) (regCounter c) ->
  vle (regVersion c) (regVersion r) -> ~ vle (regVersion r) (regVersion c) ->
  regBeats r c = true.
Proof.
  intros Hr Hc H1 H2. unfold regBeats.
  assert (regCausal r c = 1) as ->; [|done]. by apply compareCausal_pos.
Qed.

(** A local entry beats every register of the replay it was stamped from. *)
Lemma local_entry_wins l1 c now e k r :
  log_inv l1 -> llCache l1 = Some c -> llActorID l1 <> "" -> llSeq l1 + 1 < 2 ^ 63 ->
  let e' := localEntry now e (llDeviceID l1) (llActorID l1) (llSeq l1 + 1) (Vector c) in
  incoming e' = Some r -> reg_join (reg_of c k) r = Some r.
Proof.
  intros Hl Hc Ha Hroom e' Hr. destruct (cache_vector l1 c Hl Hc Ha) as [Hv Hv0].
  destruct (inv_range l1 Hl) as [H0 _].
  destruct (reg_of c k) as [cur|] eqn:Ecur; [|done]. simpl. rewrite regBeats_later; [done|..].
  - destruct (incoming_reg e' r Hr) as (-> & -> & _ & _).
    by destruct (local_dotted now e (llDeviceID l1) (llActorID l1) (llSeq l1 + 1) (Vector c))
      as [? _]; [done|lia|..].
  - destruct (inv_cache l1 Hl c Hc) as (n0 & n1 & ->).
    apply reg_of_replay in Ecur as (e0 & He0 & _ & Hi0).
    destruct (incoming_reg e0 cur Hi0) as (-> & -> & _ & _).
    pose proof (inv_dotted l1 Hl) as Hd. rewrite Forall_forall in Hd. by apply Hd.
  - destruct (incoming_reg e' r Hr) as (_ & _ & _ & ->). unfold e'.
    rewrite local_version by (done || lia).
    destruct (inv_cache l1 Hl c Hc) as (n0 & n1 & ->).
    apply reg_of_replay in Ecur as (e0 & He0 & _ & Hi0).
    destruct (incoming_reg e0 cur Hi0) as (_ & _ & _ & ->).
    etrans; [|apply vle_Observe]. apply vector_replay_covers; [done|].
    pose proof (inv_dotted l1 Hl) as Hd. rewrite Forall_forall in Hd. by apply Hd.
  - destruct (incoming_reg e' r Hr) as (_ & _ & _ & ->). unfold e'.
    rewrite local_version by (done || lia). intros Hle. specialize (Hle (llActorID l1)).
    rewrite vget_Observe_eq in Hle by done.
    destruct (inv_cache l1 Hl c Hc) as (n0 & n1 & ->).
    apply reg_of_replay in Ecur as (e0 & He0 & _ & Hi0).
    destruct (incoming_reg e0 cur Hi0) as (_ & _ & _ & E). rewrite E in Hle.
    pose proof (inv_own l1 Hl e0 He0). pose proof (inv_seq l1 Hl ltac:(rewrite Hc; eauto)). lia.
Qed.

(** The state after a successful local append. *)
Lemma AppendLocal_ok n0 n1 now e l l1 c l' r :
  log_inv l -> llActorID l <> "" -> has_room l ->
  getSnapshot true n0 n1 l = (l1, Ok c) ->
  AppendLocal true WOk n0 n1 now e l = (l', r) ->
  let e' := localEntry now e (llDeviceID l) (llActorID l) (llSeq l1 + 1) (Vector c) in
  r = Ok tt /\
  llFile l' = append_line (llFile l) e' /\
  llCache l' = Some (buildSnapshot n0 n1 (Some c) [e']) /\
  log_inv l1 /\ llCache l1 = Some c /\ llSeq l1 + 1 < 2 ^ 63.
Proof.
  intros Hl Ha Hroom Hg H e'. pose proof (getSnapshot_room _ _ _ _ _ _ Hl Hroom Hg) as Hr1.
  destruct (getSnapshot_inv _ _ _ _ _ _ Hl Hg) as (Hl1 & Hf & Hdv & Hac & Hc).
  destruct (inv_range l1 Hl1).
  erewrite AppendLocal_unfold in H by done. rewrite int64_wrap_id in H by (unfold int64_range; lia).
  rewrite Hdv, Hac in H. unfold Append, bump in H. simpl in H. fold e' in H.
  rewrite Hf, Hc in H. simplify_eq/=. by split_and!.
Qed.

Lemma reg_of_refresh n0 n1 c e k :
  separated c ->
  reg_of (buildSnapshot n0 n1 (Some c) [e]) k =
    if decide (eKey e = k) then
      match incoming e with Some r => reg_join (reg_of c k) r | None => reg_of c k end
    else reg_of c k.
Proof.
  intros Hs. rewrite reg_buildSnapshot by done. unfold proposals. simpl.
  case_decide; [|done]. by destruct (incoming e).
Qed.

Lemma logLookup_warm rd m0 m1 l c k :
  llCache l = Some c -> logLookup rd m0 m1 k l = (l, Lookup c k).
Proof. intros H. unfold logLookup, getSnapshot. by rewrite H. Qed.

(** ** Compaction *)

Lemma readAll_jsonl es l :
  Forall good_line es -> llFile l = Some (jsonl es) -> readAllLocked true l = Ok es.
Proof. intros H Hf. unfold readAllLocked. rewrite Hf. by apply read_jsonl. Qed.

(** Registers stored by a replay are normalized. *)
Definition normal (r : Reg) : Prop :=
  match r with
  | Live v => viActor v = effectiveActor (viActor v) (viDevice v) /\
      viCounter v = effectiveCounter (viCounter v) (viSeq v) /\
      time_Unix (unix_seconds (viModified v)) = viModified v
  | Dead t => tiActor t = effectiveActor (tiActor t) (tiDevice t) /\
      tiCounter t = effectiveCounter (tiCounter t) (tiSeq t) /\
      time_Unix (unix_seconds (tiModified t)) = tiModified t
  end.

Definition compactEntry (k : string) (r : Reg) : Entry :=
  match r with Live v => compactValue (k, v) | Dead t => compactTombstone (k, t) end.

Lemma incoming_normal e r : incoming e = Some r -> normal r.
Proof.
  unfold incoming. cbn zeta. intros H. repeat case_bool_decide; simplify_eq; simpl;
    by rewrite effectiveActor_idem, effectiveCounter_idem, unix_seconds_time_Unix.
Qed.

Lemma incoming_compact k r : normal r -> incoming (compactEntry k r) = Some r.
Proof.
  intros H. destruct r as [[? ? ? ? ? ? ?]|[? ? ? ? ? ?]];
    unfold incoming, incomingValue, incomingTombstone; simpl in *;
    destruct H as (<- & <- & ->); done.
Qed.

Lemma proposals_compact (mk : string * Reg -> Entry) (l : list (string * Reg)) k :
  (forall kr, kr ∈ l -> eKey (mk kr) = kr.1 /\ incoming (mk kr) = Some kr.2) ->
  NoDup l.*1 ->
  proposals (map mk l) k = option_list ((list_to_map l : gmap string Reg) !! k).
Proof.
  intros H Hnd. induction l as [|[k' r] l IH]; simpl; [done|].
  apply NoDup_cons in Hnd as [Hk Hnd]. unfold proposals in *. simpl.
  destruct (H (k', r)) as [-> ->]; [set_solver|]. simpl.
  rewrite IH; [|intros; apply H; set_solver|done]. destruct (decide (k' = k)) as [->|Hne].
  - rewrite lookup_insert_eq. rewrite not_elem_of_list_to_map_1 by done. done.
  - by rewrite lookup_insert_ne.
Qed.

(** The enumerations of the two loops, as one list of registers. *)
Definition reg_list (live : list (string * ValueInfo)) (dead : list (string * TombstoneInfo))
  : list (string * Reg) :=
  map (fun '(k, v) => (k, Live v)) live ++ map (fun '(k, t) => (k, Dead t)) dead.

Lemma reg_list_compact live dead :
  map compactValue live ++ map compactTombstone dead =
    map (fun kr => compactEntry kr.1 kr.2) (reg_list live dead).
Proof.
  unfold reg_list. rewrite map_app, !map_map. f_equal; apply map_ext; by intros [k x].
Qed.

Lemma elem_of_reg_list c live dead k r :
  separated c -> live ≡ₚ map_to_list (entries c) -> dead ≡ₚ map_to_list (deleted c) ->
  (k, r) ∈ reg_list live dead <-> reg_of c k = Some r.
Proof.
  intros Hs Hl Hd. unfold reg_list. rewrite elem_of_app, !list_elem_of_fmap.
  setoid_rewrite Hl. setoid_rewrite Hd. split.
  - intros [([k' v] & Heq & Hin)|([k' t] & Heq & Hin)]; simplify_eq;
      apply elem_of_map_to_list in Hin; [by apply reg_of_live|by apply reg_of_dead].
  - intros H. destruct r as [v|t].
    + left. exists (k, v). split; [done|]. apply elem_of_map_to_list. by apply reg_of_live.
    + right. exists (k, t). split; [done|]. apply elem_of_map_to_list. by apply reg_of_dead.
Qed.

Lemma NoDup_reg_list c live dead :
  separated c -> live ≡ₚ map_to_list (entries c) -> dead ≡ₚ map_to_list (deleted c) ->
  NoDup (reg_list live dead).*1.
Proof.
  intros Hs Hl Hd. unfold reg_list. rewrite fmap_app, <- !list_fmap_compose.
  assert (forall A (f : A -> Reg) (l : list (string * A)),
    (fst ∘ (fun '(k, x) => (k, f x))) <$> l = l.*1) as E.
  { intros A f l. apply list_fmap_ext. by intros ? [k x] ?. }
  rewrite (E _ Live), (E _ Dead). apply NoDup_app. split_and!.
  - rewrite Hl. apply NoDup_fst_map_to_list.
  - intros k. rewrite Hl, Hd, !list_elem_of_fmap.
    intros ([k1 v] & -> & H1%elem_of_map_to_list) ([k2 t] & E2 & H2%elem_of_map_to_list).
    simpl in E2. subst. destruct (Hs k2); congruence.
  - rewrite Hd. apply NoDup_fst_map_to_list.
Qed.

Lemma reg_replay_compact n0 n1 c live dead k :
  separated c -> (forall k r, reg_of c k = Some r -> normal r) ->
  live ≡ₚ map_to_list (entries c) -> dead ≡ₚ map_to_list (deleted c) ->
  reg_of (buildSnapshot n0 n1 None (map compactValue live ++ map compactTombstone dead)) k
    = reg_of c k.
Proof.
  intros Hs Hn Hl Hd. rewrite reg_buildSnapshot, reg_list_compact by done.
  rewrite (proposals_compact (fun kr => compactEntry kr.1 kr.2)).
  - simpl. apply option_eq. intros r. rewrite <- (elem_of_reg_list c live dead k r) by done.
    rewrite (elem_of_list_to_map (M := gmap string)) by (by eapply NoDup_reg_list).
    destruct (list_to_map (reg_list live dead) !! k); done.
  - intros [k' r] Hin. apply (elem_of_reg_list c live dead k' r Hs Hl Hd) in Hin.
    simpl. split; [by destruct r|]. apply incoming_compact. by eapply Hn.
  - by eapply NoDup_reg_list.
Qed.

Lemma vector_replay_compact n0 n1 c live dead es m0 m1 :
  c = buildSnapshot m0 m1 None es -> Forall dotted es ->
  live ≡ₚ map_to_list (entries c) -> dead ≡ₚ map_to_list (deleted c) ->
  vle (vector (buildSnapshot n0 n1 None (map compactValue live ++ map compactTombstone dead)))
    (vector c).
Proof.
  intros Hc Hdt Hl Hd a. destruct (decide (a = "")) as [->|Ha].
  { rewrite vector_replay_empty. lia. }
  assert (separated c) as Hs by (subst; by apply buildSnapshot_separated).
  apply vector_replay_bound; [done|]. intros e He. rewrite reg_list_compact in He.
  apply list_elem_of_fmap in He as ([k r] & -> & Hin).
  apply (elem_of_reg_list c live dead k r Hs Hl Hd) in Hin. subst c.
  apply reg_of_replay in Hin as (e0 & He0 & _ & Hi0).
  pose proof (incoming_compact k r (incoming_normal _ _ Hi0)) as Hic. cbn [fst snd].
  destruct (incoming_reg _ _ Hi0) as (_ & _ & _ & E0).
  destruct (incoming_reg _ _ Hic) as (_ & _ & _ & E1). rewrite <- E1, E0.
  apply (vector_replay_covers m0 m1 es e0); [done|]. rewrite Forall_forall in Hdt.
  by apply Hdt.
Qed.

(** ** Properties *)

(** C27 (invariant).  In every state a log can reach through appends, cache
    rebuilds, invalidations and restarts of the process, with files that fail
    to open along the way, the cached snapshot is the replay of the entries the
    file holds, the file ends in a complete line, and the sequence counter of a
    warm log is at least every sequence number of this device in the file. *)
Theorem kv_log_cache_is_replay dev actor l :
  dev <> "" -> log_reachable dev actor l ->
  ends_line (default "" (llFile l)) = true /\
  forall c, llCache l = Some c ->
    (exists n0 n1, c = buildSnapshot n0 n1 None (file_entries (llFile l))) /\
    own_max dev 0 (file_entries (llFile l)) <= llSeq l.
Proof.
  intros Hd Hr. destruct (log_reachable_inv dev actor l Hd Hr) as (Hl & _ & <-).
  split; [apply Hl|]. intros c Hc. split; [by apply Hl|]. apply Hl. by rewrite Hc.
Qed.

(**  Read your writes, whatever the clocks say: after a
    successful [AppendLocal] of a set (a delete) in a reachable state, the key
    reads back as the value just written (as absent), even when the stored
    entry of the key carries a later timestamp; every other key is unchanged. *)
Theorem kv_append_local_wins dev actor l l1 c n0 n1 now e l' r :
  dev <> "" -> log_reachable dev actor l -> has_room l ->
  getSnapshot true n0 n1 l = (l1, Ok c) ->
  AppendLocal true WOk n0 n1 now e l = (l', r) ->
  r = Ok tt /\
  (eType e = EntrySet ->
     (viValue <$> (logLookup true n0 n1 (eKey e) l').2) = Some (eValue e)) /\
  (eType e = EntryDelete -> (logLookup true n0 n1 (eKey e) l').2 = None) /\
  (forall k, k <> eKey e -> (logLookup true n0 n1 k l').2 = Lookup c k).
Proof.
  intros Hd Hreach Hroom Hg H.
  destruct (log_reachable_inv dev actor l Hd Hreach) as (Hl & Ha & _).
  destruct (AppendLocal_ok _ _ _ _ _ _ _ _ _ Hl Ha Hroom Hg H) as (Hr & _ & Hc' & Hl1 & Hc1 & Hs).
  destruct (getSnapshot_inv _ _ _ _ _ _ Hl Hg) as (_ & _ & Hdv & Hac & _).
  set (e' := localEntry _ _ _ _ _ _) in *.
  assert (separated c) as Hsep.
  { destruct (inv_cache l1 Hl1 c Hc1) as (? & ? & ->). by apply buildSnapshot_separated. }
  assert (forall rg, incoming e' = Some rg -> reg_join (reg_of c (eKey e)) rg = Some rg) as Hwin.
  { intros rg Hi. apply (local_entry_wins l1 c now e); try done; by rewrite ?Hac, ?Hdv. }
  pose proof (buildSnapshot_separated n0 n1 (Some c) [e'] Hsep) as Hsep'.
  split; [done|]. split_and!; intros.
  - rewrite (logLookup_warm _ _ _ _ _ _ Hc'). simpl. unfold Lookup.
    pose proof (reg_of_refresh n0 n1 c e' (eKey e) Hsep) as E. rewrite decide_True in E by done.
    assert (incoming e' = Some (Live (incomingValue (normalizeEntry e')))) as Hi
      by (unfold incoming; by rewrite bool_decide_eq_true_2).
    rewrite Hi, Hwin in E by done. apply reg_of_live in E; [|done]. by rewrite E.
  - rewrite (logLookup_warm _ _ _ _ _ _ Hc'). simpl. unfold Lookup.
    pose proof (reg_of_refresh n0 n1 c e' (eKey e) Hsep) as E. rewrite decide_True in E by done.
    assert (incoming e' = Some (Dead (incomingTombstone (normalizeEntry e')))) as Hi.
    { unfold incoming. cbn zeta. rewrite bool_decide_eq_false_2, bool_decide_eq_true_2; try done.
      simpl. rewrite H0. done. }
    rewrite Hi, Hwin in E by done. apply reg_of_dead in E; [|done].
    destruct (Hsep' (eKey e)) as [?|E']; [done|by rewrite E' in E].
  - rewrite (logLookup_warm _ _ _ _ _ _ Hc'). simpl. unfold Lookup. apply option_eq. intros v.
    rewrite <- !reg_of_live by done. rewrite reg_of_refresh, decide_False by done. done.
Qed.

(** C38 (functional).  Compaction loses no state: rewriting the log as one
    synthetic entry per live key and per tombstone, in any order, and reading
    the file back gives the same values and the same tombstones; the version
    vector never grows.  A compaction that fails anywhere leaves the file as it
    was. *)
Theorem kv_compact_preserves dev actor l l1 c n0 n1 m0 m1 live dead io l' r :
  dev <> "" -> log_reachable dev actor l ->
  getSnapshot true n0 n1 l = (l1, Ok c) ->
  live c ≡ₚ map_to_list (entries c) -> dead c ≡ₚ map_to_list (deleted c) ->
  Forall good_line (map compactValue (live c) ++ map compactTombstone (dead c)) ->
  Compact true io n0 n1 live dead l = (l', r) ->
  (io <> CIOk -> llFile l' = llFile l /\ is_ok r = false) /\
  (io = CIOk -> r = Ok tt /\ exists l2 c', getSnapshot true m0 m1 l' = (l2, Ok c') /\
    entries c' = entries c /\ deleted c' = deleted c /\ vle (vector c') (vector c)).
Proof.
  intros Hd Hreach Hg Hlive Hdead Hgood H.
  destruct (log_reachable_inv dev actor l Hd Hreach) as (Hl & Ha & _).
  destruct (getSnapshot_inv _ _ _ _ _ _ Hl Hg) as (Hl1 & Hf & _ & _ & Hc).
  destruct (inv_cache l1 Hl1 c Hc) as (p0 & p1 & Ec).
  assert (separated c) as Hs by (subst c; by apply buildSnapshot_separated).
  unfold Compact in H. rewrite Hg in H.
  split; intros Hio; destruct io; try done; injection H as <- <-; try done.
  split; [done|]. unfold getSnapshot, rebuildLocked. simpl.
  erewrite readAll_jsonl by done. eexists _, _. split; [done|].
  destruct (separated_ext (buildSnapshot m0 m1 None
    (map compactValue (live c) ++ map compactTombstone (dead c))) c) as [-> ->]; [|done| |].
  - by apply buildSnapshot_separated.
  - intros k. apply reg_replay_compact; [done| |done..]. intros k' rg Hrg. rewrite Ec in Hrg.
    apply reg_of_replay in Hrg as (e & _ & _ & Hi). by eapply incoming_normal.
  - split; [done|]. split; [done|].
    by eapply vector_replay_compact; [exact Ec|apply inv_dotted| |].
Qed.
End Reachable.

(** ** A concrete codec and concrete logs *)

(** The fields one after the other, each with its own code. *)
Definition entry_code (e : Entry) : list positive :=
  [encode (eType e); encode (eKey e); encode (eValue e); encode (eNamespace e);
   encode (eDevice e); encode (eTimestamp e); encode (eSeq e); encode (eActor e);
   encode (eCounter e); encode (eContext e)].

Definition entry_decode (ps : list positive) : option Entry :=
  match ps with
  | [a; b; c; d; e; f; g; h; i; j] =>
      a ← decode a; b ← decode b; c ← decode c; d ← decode d; e ← decode e;
      f ← decode f; g ← decode g; h ← decode h; i ← decode i; j ← decode j;
      Some (mkEntry a b c d e f g h i j)
  | _ => None
  end.

Lemma entry_decode_code e : entry_decode (entry_code e) = Some e.
Proof. unfold entry_code, entry_decode. rewrite !decode_encode. by destruct e. Qed.

Definition demoCodec : LineCodec Entry := bits_codec entry_code entry_decode entry_decode_code.

Section Demo.
#[local] Existing Instance demoCodec.

Definition demoWrite (k v : string) (t : Z) : Entry :=
  mkEntry EntrySet k v "" "" t 0 "" 0%N ∅.

(** A remote write to ["k"], dated in the far future. *)
Definition demoRemote : Entry := mkEntry EntrySet "k" "old" "" "D-b" 9999999999 1 "" 0%N ∅.

Definition demoL0 : LocalLog := NewLocalLogWithActor None "D-a" "".
Definition demoL1 : LocalLog := (Append WOk 0 0 demoRemote demoL0).1.
Definition demoL2 : LocalLog := (getSnapshot true 0 0 demoL1).1.
Definition demoC2 : Snapshot := from_option id (buildSnapshot 0 0 None []) (llCache demoL2).
Definition demoL3 : LocalLog :=
  (AppendLocal true WOk 0 0 (time_Unix 100) (demoWrite "k" "new" 0) demoL2).1.

Lemma demo_remote_admissible : admissible demoL0 demoRemote.
Proof.
  split; [split; [exact I|vm_compute; reflexivity]|].
  split; [split; [split; vm_compute; discriminate|vm_compute; reflexivity]|].
  cbn zeta. split; [vm_compute; discriminate|discriminate].
Qed.

Lemma demo_reach2 : log_reachable "D-a" "" demoL2.
Proof.
  eapply reach_step; [|eapply step_Snapshot; apply surjective_pairing].
  eapply reach_step; [apply reach_new|].
  eapply (step_Append _ _ _ WOk 0 0 demoRemote); [done|apply demo_remote_admissible|].
  apply surjective_pairing.
Qed.

Lemma demo_room : has_room demoL2.
Proof. vm_compute. done. Qed.

Lemma demo_warm : getSnapshot true 0 0 demoL2 = (demoL2, Ok demoC2).
Proof. vm_compute. reflexivity. Qed.

Lemma demo_cache : llCache demoL2 = Some demoC2.
Proof. vm_compute. reflexivity. Qed.

Lemma kv_log_cache_is_replay_witness :
  log_reachable "D-a" "" demoL2 /\ llCache demoL2 = Some demoC2 /\
  own_max "D-a" 0 (file_entries (llFile demoL2)) <= llSeq demoL2.
Proof.
  split; [exact demo_reach2|]. split; [exact demo_cache|].
  exact (proj2 (proj2 (kv_log_cache_is_replay "D-a" "" demoL2 ltac:(discriminate) demo_reach2)
    demoC2 demo_cache)).
Defined.

Lemma demo_append :
  AppendLocal true WOk 0 0 (time_Unix 100) (demoWrite "k" "new" 0) demoL2 = (demoL3, Ok tt).
Proof. vm_compute. reflexivity. Qed.

Lemma demo_before : (viValue <$> (logLookup true 0 0 "k" demoL2).2) = Some "old".
Proof. vm_compute. reflexivity. Qed.

(** The remote value carries the later timestamp and still loses. *)
Lemma kv_append_local_wins_witness :
  (viValue <$> (logLookup true 0 0 "k" demoL2).2) = Some "old" /\
  (viValue <$> (logLookup true 0 0 (eKey (demoWrite "k" "new" 0)) demoL3).2) =
    Some (eValue (demoWrite "k" "new" 0)).
Proof.
  split; [exact demo_before|].
  exact (proj1 (proj2 (kv_append_local_wins "D-a" "" demoL2 demoL2 demoC2 0 0 (time_Unix 100)
    (demoWrite "k" "new" 0) demoL3 (Ok tt) ltac:(discriminate) demo_reach2 demo_room demo_warm
    demo_append)) eq_refl).
Defined.

Definition demoLive (c : Snapshot) := map_to_list (entries c).
Definition demoDead (c : Snapshot) := map_to_list (deleted c).
Definition demoCompacted : LocalLog := (Compact true CIOk 0 0 demoLive demoDead demoL2).1.

Lemma demo_compact :
  Compact true CIOk 0 0 demoLive demoDead demoL2 = (demoCompacted, Ok tt).
Proof. vm_compute. reflexivity. Qed.

Lemma demo_good_lines es :
  forallb (fun e => Z.ltb (slen (marshal e)) maxTokenSize) es = true -> Forall good_line es.
Proof.
  rewrite forallb_forall, Forall_forall. intros H e He. split; [done|].
  apply list_elem_of_In, H in He. by apply Z.ltb_lt.
Qed.

Lemma demo_compact_good :
  Forall good_line (map compactValue (demoLive demoC2) ++ map compactTombstone (demoDead demoC2)).
Proof. apply demo_good_lines. vm_compute. reflexivity. Qed.

Lemma kv_compact_preserves_witness :
  exists l2 c', getSnapshot true 0 0 demoCompacted = (l2, Ok c') /\
    entries c' = entries demoC2 /\ deleted c' = deleted demoC2 /\
    vle (vector c') (vector demoC2).
Proof.
  exact (proj2 (proj2 (kv_compact_preserves "D-a" "" demoL2 demoL2 demoC2 0 0 0 0
    demoLive demoDead CIOk demoCompacted (Ok tt) ltac:(discriminate) demo_reach2 demo_warm
    (Permutation_refl _) (Permutation_refl _) demo_compact_good demo_compact) eq_refl)).
Defined.

(**  A torn write loses the next acknowledged write: after a
    process dies in the middle of a line, the following [AppendLocal] succeeds
    and reads back, but its line is glued to the torn one, and the next
    rebuild of the cache skips both. *)
Theorem kv_torn_write_loses_next :
  let l1 := (AppendLocal true (WShort 7) 0 0 (time_Unix 100) (demoWrite "a" "1" 0) demoL0).1 in
  let l2 := NewLocalLogWithActor (llFile l1) "D-a" "" in
  let '(l3, r) := AppendLocal true WOk 0 0 (time_Unix 200) (demoWrite "b" "2" 0) l2 in
  r = Ok tt /\
  (viValue <$> (logLookup true 0 0 "b" l3).2) = Some "2" /\
  (logLookup true 0 0 "b" (InvalidateCache l3)).2 = None.
Proof. vm_compute. split_and!; reflexivity. Qed.

End Demo.
