(* ===== verification/KvPattern.v ===== *)
(** * Key patterns (pkg/kv/pattern.go)

    [matchPattern] is the iterative wildcard matcher with one backtracking
    point.  [glob] is its specification: a star matches any sequence of runes,
    a question mark exactly one, any other rune itself.  The matcher decides
    [glob] on keys without a star rune ([matchPattern_glob]); on other keys it
    may take a star of the pattern literally ([matchPattern_literal_star]). *)

From Stdlib Require Import Ascii.
From stdpp Require Import base numbers list strings.
From S2P Require Import Prelude GoStrings.

Definition star_rune : Z := 42.
Definition any_rune : Z := 63.

Section Loop.
Variables pat text : list Z.

(** [for p < len(pat) && pat[p] == '*' { p++ }; return p == len(pat)] *)
Fixpoint skip_stars (rest : list Z) : bool :=
  match rest with
  | [] => true
  | c :: rest' => if Z.eqb c star_rune then skip_stars rest' else false
  end.

(** The [for k < len(text)] loop; [star = None] is Go's [-1]. *)
Fixpoint match_loop (fuel : nat) (p k : nat) (star : option nat) (mtch : nat) : option bool :=
  match fuel with
  | O => None
  | S fuel' =>
      match text !! k with
      | None => Some (skip_stars (drop p pat))
      | Some d =>
          if match pat !! p with
             | Some c => Z.eqb c any_rune || Z.eqb c d
             | None => false
             end
          then match_loop fuel' (S p) (S k) star mtch
          else if bool_decide (pat !! p = Some star_rune)
          then match_loop fuel' (S p) k (Some p) k
          else match star with
               | Some s => match_loop fuel' (S s) (S mtch) star (S mtch)
               | None => Some false
               end
      end
  end.

(** Every iteration advances [p] or the start of the last star's match. *)
Definition loop_fuel : nat := S (length text * S (length pat) + length pat).
End Loop.

Definition match_runes (pat text : list Z) : bool :=
  default false (match_loop pat text (loop_fuel pat text) 0 0 None 0).

Definition matchPattern (pattern key : string) : bool :=
  match_runes (runes_of pattern) (runes_of key).

Definition filterKeysByPattern (keys : list string) (pattern : string) : list string :=
  filter (fun key => matchPattern pattern key = true) keys.

(** ** Specification *)

Inductive glob : list Z -> list Z -> Prop :=
| glob_nil : glob [] []
| glob_star_none p t : glob p t -> glob (star_rune :: p) t
| glob_star_more p d t : glob (star_rune :: p) t -> glob (star_rune :: p) (d :: t)
| glob_any p d t : glob p t -> glob (any_rune :: p) (d :: t)
| glob_rune p d t : d <> star_rune -> glob p t -> glob (d :: p) (d :: t).

Lemma glob_star p t : glob (star_rune :: p) t <-> exists u t', t = u ++ t' /\ glob p t'.
Proof.
  split.
  - intros H. remember (star_rune :: p) as q eqn:Hq. revert p Hq.
    induction H as [|p' t H _|p' d t H IH|p' d t H _|p' d t Hd H _]; intros p Hq; simplify_eq.
    + by exists [], t.
    + destruct (IH _ eq_refl) as (u & t' & -> & Ht). by exists (d :: u), t'.
  - intros (u & t' & -> & H). induction u as [|d u IH]; simpl; by constructor.
Qed.

(** One step of a pattern rune that is not a star. *)
Definition rune_matches (c d : Z) : Prop := c = any_rune \/ c = d.

Lemma glob_cons c p d t :
  c <> star_rune -> glob (c :: p) (d :: t) <-> rune_matches c d /\ glob p t.
Proof.
  intros Hc. split.
  - inversion 1; subst; unfold rune_matches; auto; done.
  - intros [[->| ->] H]; by constructor.
Qed.

Lemma glob_cons_nil c p : c <> star_rune -> ~ glob (c :: p) [].
Proof. intros Hc. inversion 1; subst; done. Qed.

Lemma glob_nil_cons d t : ~ glob [] (d :: t).
Proof. inversion 1. Qed.

Definition no_star (l : list Z) : Prop := Forall (fun c => c <> star_rune) l.

Lemma glob_segment seg q t :
  no_star seg ->
  glob (seg ++ q) t <-> exists w t', t = w ++ t' /\ Forall2 rune_matches seg w /\ glob q t'.
Proof.
  intros Hs. revert t. induction Hs as [|c seg Hc _ IH]; intros t; simpl.
  - split; [by exists [], t|]. intros (w & t' & -> & Hw & H). by inversion Hw.
  - destruct t as [|d t].
    + split; [intros H; by apply glob_cons_nil in H|].
      by intros (w & t' & H & (? & ? & ? & ? & ->)%Forall2_cons_inv_l & _).
    + rewrite glob_cons, IH by done. split.
      * intros (Hm & w & t' & -> & Hw & H). exists (d :: w), t'. split_and!; [done|by constructor|done].
      * intros (w & t' & Ht & (d' & w' & Hm & Hw & ->)%Forall2_cons_inv_l & H).
        simplify_eq/=. split; [done|]. by exists w', t'.
Qed.

Lemma skip_stars_glob q : skip_stars q = true <-> glob q [].
Proof.
  induction q as [|c q IH]; simpl; [split; [constructor|done]|].
  destruct (Z.eqb_spec c star_rune) as [->|Hc].
  - rewrite IH, glob_star. split; [by exists [], []|].
    intros (u & t' & H & Hg). by apply eq_sym, app_nil in H as [-> ->].
  - split; [done|]. by intros ?%glob_cons_nil.
Qed.

(** The three moves of the matcher after a star whose segment [seg] has been
    matched against [w]. *)

Lemma seg_length seg w : Forall2 rune_matches seg w -> length seg = length w.
Proof. apply Forall2_length. Qed.

Lemma glob_last seg r w :
  no_star seg -> Forall2 rune_matches seg w ->
  glob (star_rune :: seg ++ r) w <-> glob r [].
Proof.
  intros Hs Hw. rewrite glob_star. split.
  - intros (u & t' & -> & (w' & t'' & -> & Hw' & H)%glob_segment); [|done].
    apply seg_length in Hw, Hw'. rewrite !length_app in Hw.
    destruct t''; [done|]. simpl in Hw. lia.
  - intros H. exists [], w. split; [done|]. apply glob_segment; [done|].
    exists w, []. by rewrite app_nil_r.
Qed.

Lemma glob_restart seg q w t :
  no_star seg -> Forall2 rune_matches seg w ->
  glob (star_rune :: seg ++ star_rune :: q) (w ++ t) <-> glob (star_rune :: q) t.
Proof.
  intros Hs Hw. rewrite glob_star. split.
  - intros (u & t' & Ht & (w' & t'' & -> & Hw' & H)%glob_segment); [|done].
    apply seg_length in Hw, Hw'. rewrite app_assoc in Ht.
    assert (exists v, t = v ++ t'') as [v ->].
    { exists (drop (length w) (u ++ w')).
      rewrite <- (drop_app_length w t), Ht, drop_app_le; [done|].
      rewrite length_app. lia. }
    apply glob_star in H as (u2 & t2 & -> & H). apply glob_star.
    exists (v ++ u2), t2. by rewrite app_assoc.
  - intros H. exists [], (w ++ t). split; [done|]. apply glob_segment; [done|].
    by exists w, t.
Qed.

Lemma glob_mismatch seg r w d t :
  no_star seg -> Forall2 rune_matches seg w -> ~ glob r (d :: t) ->
  glob (star_rune :: seg ++ r) (w ++ d :: t)
  <-> glob (star_rune :: seg ++ r) (drop 1 (w ++ d :: t)).
Proof.
  intros Hs Hw Hr. rewrite !glob_star. split.
  - intros ([|x u] & t' & Ht & H).
    + exfalso. simpl in Ht. subst t'. apply glob_segment in H as (w' & t'' & Ht & Hw' & H); [|done].
      apply seg_length in Hw, Hw'. apply Hr. apply app_inj_1 in Ht as [_ ->]; [done|lia].
    + rewrite Ht. by exists u, t'.
  - destruct (w ++ d :: t) as [|x l] eqn:E; [by destruct w|]. simpl.
    rewrite drop_0. intros (u & t' & -> & H). by exists (x :: u), t'.
Qed.

(** ** The loop decides the specification *)

Section Correct.
Variables pat text : list Z.
Hypothesis text_no_star : no_star text.

(** The pattern splits at the loop's [p] into what has been matched since the
    last star and what is left; the text at [k] likewise. *)
Definition loop_inv (p k : nat) (star : option nat) (mtch : nat) : Prop :=
  (p <= length pat)%nat /\ (mtch <= k)%nat /\ (k <= length text)%nat /\
  match star with
  | None => mtch = 0%nat /\ (glob pat text <-> glob (drop p pat) (drop k text))
  | Some s =>
      (s < p)%nat /\
      (glob pat text <-> glob (star_rune :: drop (S s) pat) (drop mtch text)) /\
      exists seg w, drop (S s) pat = seg ++ drop p pat /\
        drop mtch text = w ++ drop k text /\ no_star seg /\ Forall2 rune_matches seg w
  end.

Definition loop_measure (p mtch : nat) : nat :=
  ((length text - mtch) * S (length pat) + (length pat - p))%nat.

Lemma loop_inv_init : loop_inv 0 0 None 0.
Proof. unfold loop_inv. rewrite !drop_0. auto with lia. Qed.

Lemma loop_inv_match p k star m c d :
  loop_inv p k star m -> pat !! p = Some c -> text !! k = Some d ->
  Z.eqb c any_rune || Z.eqb c d = true ->
  loop_inv (S p) (S k) star m.
Proof using text_no_star.
  unfold loop_inv. intros (Hp & Hm & Hk & Hs) Hc Hd Heq.
  pose proof (lookup_lt_Some _ _ _ Hc). pose proof (lookup_lt_Some _ _ _ Hd).
  assert (c <> star_rune) as Hcs.
  { intros ->. apply orb_true_iff in Heq as [Hq%Z.eqb_eq|Hq%Z.eqb_eq]; [done|].
    subst d. by eapply (Forall_lookup_1 _ _ _ _ text_no_star) in Hd. }
  assert (rune_matches c d) as Hcd.
  { unfold rune_matches. apply orb_true_iff in Heq as [?%Z.eqb_eq|?%Z.eqb_eq]; auto. }
  split_and!; [lia..|]. destruct star as [s|].
  - destruct Hs as (Hsp & Hg & seg & w & E1 & E2 & Hseg & Hw).
    split_and!; [lia|done|]. exists (seg ++ [c]), (w ++ [d]).
    rewrite <- !app_assoc; simpl. rewrite <- (drop_S _ _ _ Hc), <- (drop_S _ _ _ Hd).
    split_and!; [done..| |].
    + apply Forall_app. auto.
    + apply Forall2_app; auto.
  - destruct Hs as [-> Hg]. split; [done|].
    rewrite Hg, (drop_S _ _ _ Hc), (drop_S _ _ _ Hd), glob_cons by done. tauto.
Qed.

Lemma loop_inv_star p k star m :
  loop_inv p k star m -> pat !! p = Some star_rune ->
  (k < length text)%nat -> loop_inv (S p) k (Some p) k.
Proof.
  unfold loop_inv. intros (Hp & Hm & Hk & Hs) Hc Hlt.
  pose proof (lookup_lt_Some _ _ _ Hc). split_and!; [lia..| |].
  - destruct star as [s|].
    + destruct Hs as (Hsp & Hg & seg & w & E1 & E2 & Hseg & Hw).
      rewrite Hg, E1, E2, (drop_S _ _ _ Hc). by apply glob_restart.
    + destruct Hs as [-> Hg]. by rewrite Hg, (drop_S _ _ _ Hc).
  - exists [], []. split_and!; try done; constructor.
Qed.

Lemma loop_inv_back p k s m d :
  loop_inv p k (Some s) m -> text !! k = Some d ->
  ~ glob (drop p pat) (drop k text) ->
  loop_inv (S s) (S m) (Some s) (S m).
Proof.
  unfold loop_inv. intros (Hp & Hm & Hk & Hsp & Hg & seg & w & E1 & E2 & Hseg & Hw) Hd Hn.
  pose proof (lookup_lt_Some _ _ _ Hd). split_and!; [lia..| |].
  - rewrite Hg, E1, E2, (drop_S _ _ _ Hd), glob_mismatch; [|done|done|].
    + rewrite <- (drop_S _ _ _ Hd), <- E2, drop_drop.
      replace (m + 1)%nat with (S m) by lia. done.
    + by rewrite <- (drop_S _ _ _ Hd).
  - exists [], []. split_and!; try done; constructor.
Qed.

Lemma match_loop_spec fuel p k star m :
  loop_inv p k star m -> (loop_measure p m < fuel)%nat ->
  exists b, match_loop pat text fuel p k star m = Some b /\ (b = true <-> glob pat text).
Proof using text_no_star.
  revert p k star m. induction fuel as [|fuel IH]; intros p k star m Hinv Hf; [lia|].
  pose proof Hinv as (Hp & Hm & Hk & Hs). unfold loop_measure in *. cbn [match_loop].
  destruct (text !! k) as [d|] eqn:Hd.
  2: { exists (skip_stars (drop p pat)). split; [done|]. rewrite skip_stars_glob.
       apply lookup_ge_None in Hd. rewrite (drop_ge text k) in Hs by done.
       destruct star as [s|].
       - destruct Hs as (_ & -> & seg & w & -> & -> & Hseg & Hw).
         rewrite app_nil_r. by rewrite glob_last.
       - by destruct Hs as [_ ->]. }
  pose proof (lookup_lt_Some _ _ _ Hd) as Hkl.
  destruct (pat !! p) as [c|] eqn:Hc; [pose proof (lookup_lt_Some _ _ _ Hc) as Hpl|].
  - destruct (_ || _) eqn:Hcd.
    { apply IH; [by eapply loop_inv_match|lia]. }
    case_bool_decide as Hst.
    { injection Hst as ->. apply IH; [by eapply loop_inv_star|nia]. }
    assert (~ glob (drop p pat) (drop k text)) as Hn.
    { rewrite (drop_S _ _ _ Hc), (drop_S _ _ _ Hd), glob_cons by congruence.
      apply orb_false_iff in Hcd as [?%Z.eqb_neq ?%Z.eqb_neq]. intros [[?|?] _]; done. }
    destruct star as [s|]; [apply IH; [by eapply loop_inv_back|nia]|].
    exists false. split; [done|]. destruct Hs as [_ ->]. by split.
  - case_bool_decide; [done|].
    assert (~ glob (drop p pat) (drop k text)) as Hn.
    { rewrite drop_ge by (by apply lookup_ge_None). rewrite (drop_S _ _ _ Hd).
      apply glob_nil_cons. }
    destruct star as [s|]; [apply IH; [by eapply loop_inv_back|nia]|].
    exists false. split; [done|]. destruct Hs as [_ ->]. by split.
Qed.
End Correct.

Lemma match_runes_spec pat text :
  no_star text ->
  exists b, match_loop pat text (loop_fuel pat text) 0 0 None 0 = Some b
    /\ (b = true <-> glob pat text).
Proof.
  intros H. apply match_loop_spec; [done|apply loop_inv_init|].
  unfold loop_measure, loop_fuel. lia.
Qed.

(** ** Properties *)

(** [matchPattern] terminates and decides the glob relation on every
    key without a star: a star of the pattern matches any run of characters,
    slashes included, a question mark exactly one, anything else itself. *)
Theorem kv_matchPattern_glob (pattern key : string) :
  no_star (runes_of key) ->
  (exists b, match_loop (runes_of pattern) (runes_of key)
     (loop_fuel (runes_of pattern) (runes_of key)) 0 0 None 0 = Some b) /\
  (matchPattern pattern key = true <-> glob (runes_of pattern) (runes_of key)).
Proof.
  intros H. destruct (match_runes_spec (runes_of pattern) (runes_of key) H) as (b & E & Hb).
  unfold matchPattern, match_runes. rewrite E. by split; [exists b|].
Qed.

Lemma kv_matchPattern_glob_witness :
  glob (runes_of "job/*/st?te") (runes_of "job/a/b/state").
Proof.
  exact (proj1 (proj2 (kv_matchPattern_glob "job/*/st?te" "job/a/b/state"
    ltac:(apply (bool_decide_unpack _); vm_compute; exact I))) eq_refl).
Defined.

(** On a key that holds a star the matcher may take the
    pattern's star for that character: the pattern that matches everything
    refuses such a key, so [ListMatching] silently leaves it out. *)
Theorem kv_matchPattern_literal_star (c : ascii) :
  str_forall ascii_byte (String c "") = true -> byte_of c <> star_rune ->
  glob (runes_of "*") (runes_of ("*" +:+ String c ""))
  /\ matchPattern "*" ("*" +:+ String c "") = false.
Proof.
  intros Ha Hc. split.
  - rewrite (runes_of_ascii "*") by done. apply (glob_star [] _).
    exists (runes_of ("*" +:+ String c "")), []. split; [by rewrite app_nil_r|constructor].
  - unfold matchPattern. rewrite str_app_cons, str_app_nil_l.
    rewrite (runes_of_ascii (String "*" (String c ""))) by (simpl in Ha |- *; by rewrite Ha).
    done.
Qed.

Lemma kv_matchPattern_literal_star_witness : matchPattern "*" "*a" = false.
Proof.
  exact (proj2 (kv_matchPattern_literal_star "a"%char eq_refl ltac:(discriminate))).
Defined.
