(* ===== verification/KvSync.v ===== *)
(** * Anti-entropy of the key-value store (pkg/kv/poller.go, pkg/kv/p2p.go)

    [diffAndMerge] appends what a remote snapshot adds to the local log, one
    log entry per key, skipping what a baseline already held and inferring the
    deletes a baseline-less format could not carry.  [replica] is the contract
    of a replica: it holds, for every write its version vector covers, that
    write or a later one of the same key.  A delta exchange between replicas
    keeps the contract and is the last-writer-wins join ([kv_delta_is_join]);
    a merge that loses one append breaks it for good
    ([kv_failed_merge_is_never_repaired]). *)

From stdpp Require Import base numbers list gmap strings.
From S2P Require Import Prelude GoStrings JsonLines KvCausal KvSnapshot KvMerge KvLocal.

Section Merge.
Context `{Codec : LineCodec Entry}.

(** The comparison of a remote value with its baseline. *)
Definition sameValue (b r : ValueInfo) : bool :=
  bool_decide (viValue b = viValue r) && bool_decide (viDevice b = viDevice r)
  && Z.eqb (viSeq b) (viSeq r) && bool_decide (viActor b = viActor r)
  && N.eqb (viCounter b) (viCounter r).

Definition sameTombstone (b r : TombstoneInfo) : bool :=
  bool_decide (tiDevice b = tiDevice r) && Z.eqb (tiSeq b) (tiSeq r)
  && bool_decide (tiActor b = tiActor r) && N.eqb (tiCounter b) (tiCounter r).

Definition remoteSet (kv : string * ValueInfo) : Entry :=
  let '(key, vi) := kv in
  mkEntry EntrySet key (viValue vi) "" (viDevice vi) (unix_seconds (viModified vi))
    (viSeq vi) (viActor vi) (viCounter vi) (viContext vi).

Definition remoteDelete (kt : string * TombstoneInfo) : Entry :=
  let '(key, tomb) := kt in
  mkEntry EntryDelete key "" "" (tiDevice tomb) (unix_seconds (tiModified tomb))
    (tiSeq tomb) (tiActor tomb) (tiCounter tomb) (tiContext tomb).

(** The legacy delete of a key that left the remote without a tombstone;
    [now] is [time.Now().Unix()], [baseVI.Counter + 1] wraps at 64 bits. *)
Definition inferredDelete (now : Z) (vec : VersionVector) (kv : string * ValueInfo) : Entry :=
  let '(key, baseVI) := kv in
  let deleteTS := if now <=? unix_seconds (viModified baseVI)
                  then unix_seconds (viModified baseVI) + 1 else now in
  mkEntry EntryDelete key "" "" (viDevice baseVI) deleteTS (int64_wrap (viSeq baseVI + 1))
    (effectiveActor (viActor baseVI) (viDevice baseVI))
    (Z.to_N (uint64_wrap
      (Z.of_N (effectiveCounter (viCounter baseVI) (viSeq baseVI)) + 1))) vec.

(** What the file system and the clock do to each append. *)
Record MergeEnv := {
  mIO : Entry -> WriteIO;
  mStart : Entry -> Time;
  mEnd : Entry -> Time
}.

(** One append of the loops: a failed one is logged and skipped. *)
Definition mergeAppend (env : MergeEnv) (st : LocalLog * Z) (e : Entry) : LocalLog * Z :=
  let '(l, merged) := st in
  match Append (mIO env e) (mStart env e) (mEnd env e) e l with
  | (l', Ok _) => (l', merged + 1)
  | (l', Err _) => (l', merged)
  end.

(** The enumerations of the three loops over maps. *)
Record MergeOrder := {
  oEntries : list (string * ValueInfo);
  oTombstones : list (string * TombstoneInfo);
  oBaseline : list (string * ValueInfo)
}.

Definition merge_order_of (remote : Snapshot) (baseline : option Snapshot) (o : MergeOrder) : Prop :=
  oEntries o ≡ₚ map_to_list (Entries remote) /\
  oTombstones o ≡ₚ map_to_list (Tombstones remote) /\
  oBaseline o ≡ₚ map_to_list (from_option Entries ∅ baseline).

Definition unchangedValue (baseline : option Snapshot) (kv : string * ValueInfo) : bool :=
  match from_option Entries ∅ baseline !! kv.1 with
  | Some b => sameValue b kv.2
  | None => false
  end.

Definition unchangedTombstone (baseline : option Snapshot) (kt : string * TombstoneInfo) : bool :=
  match from_option Tombstones ∅ baseline !! kt.1 with
  | Some b => sameTombstone b kt.2
  | None => false
  end.

Definition addedValues (baseline : option Snapshot) (l : list (string * ValueInfo)) : list Entry :=
  remoteSet <$> filter (fun kv => unchangedValue baseline kv = false) l.

Definition addedTombstones (baseline : option Snapshot) (l : list (string * TombstoneInfo))
  : list Entry :=
  remoteDelete <$> filter (fun kt => unchangedTombstone baseline kt = false) l.

Definition inferredDeletes (now : Z) (remote : Snapshot) (baseline : option Snapshot)
  (l : list (string * ValueInfo)) : list Entry :=
  match baseline with
  | None => []
  | Some _ =>
      inferredDelete now (Vector remote) <$> filter (fun kv =>
        Entries remote !! kv.1 = None /\ DeletedKeys remote !! kv.1 = None) l
  end.

Definition diffAndMerge (env : MergeEnv) (now : Z) (o : MergeOrder) (localLog : LocalLog)
  (remote : Snapshot) (baseline : option Snapshot) : LocalLog * Z :=
  let st := foldl (mergeAppend env) (localLog, 0) (addedValues baseline (oEntries o)) in
  let st := foldl (mergeAppend env) st (addedTombstones baseline (oTombstones o)) in
  foldl (mergeAppend env) st (inferredDeletes now remote baseline (oBaseline o)).

Definition mergeEntries (now : Z) (o : MergeOrder) (remote : Snapshot)
  (baseline : option Snapshot) : list Entry :=
  addedValues baseline (oEntries o) ++ addedTombstones baseline (oTombstones o)
  ++ inferredDeletes now remote baseline (oBaseline o).

Lemma diffAndMerge_foldl env now o l remote baseline :
  diffAndMerge env now o l remote baseline =
    foldl (mergeAppend env) (l, 0) (mergeEntries now o remote baseline).
Proof. unfold diffAndMerge, mergeEntries. by rewrite !foldl_app. Qed.

(** ** A merge whose appends all succeed *)

Definition all_ok (env : MergeEnv) : Prop := forall e, mIO env e = WOk.

Lemma mergeAppend_ok env l c n e :
  all_ok env -> llCache l = Some c ->
  exists l', mergeAppend env (l, n) e = (l', n + 1) /\
    llCache l' = Some (buildSnapshot (mStart env e) (mEnd env e) (Some c) [e]) /\
    llFile l' = append_line (llFile l) e.
Proof.
  intros Hok Hc. unfold mergeAppend, Append, appendToFile. rewrite Hok, Hc. simpl.
  eexists. by split_and!.
Qed.

Lemma foldl_mergeAppend_ok env l c n es :
  all_ok env -> llCache l = Some c -> separated c ->
  exists l' c', foldl (mergeAppend env) (l, n) es = (l', n + Z.of_nat (length es)) /\
    llCache l' = Some c' /\ separated c' /\
    vector c' = foldl stepVector (vector c) es /\
    forall k, reg_of c' k = foldl reg_join (reg_of c k) (proposals es k).
Proof.
  intros Hok. revert l c n. induction es as [|e es IH]; intros l c n Hc Hs.
  - exists l, c. simpl. rewrite Z.add_0_r. by split_and!.
  - destruct (mergeAppend_ok env l c n e Hok Hc) as (l1 & E & Hc1 & _).
    destruct (IH l1 _ (n + 1) Hc1) as (l' & c' & E' & Hc' & Hs' & Hv' & Hr').
    { by apply buildSnapshot_separated. }
    exists l', c'. cbn [foldl]. rewrite E, E', Hv', vector_buildSnapshot. split_and!; try done.
    + f_equal. simpl length. lia.
    + intros k. rewrite Hr', reg_of_refresh by done. unfold proposals. simpl.
      case_decide; [|done]. by destruct (incoming e).
Qed.
End Merge.

(** ** Deltas *)

Lemma remoteSet_compact kv : remoteSet kv = compactValue kv.
Proof. by destruct kv. Qed.
Lemma remoteDelete_compact kt : remoteDelete kt = compactTombstone kt.
Proof. by destruct kt. Qed.

Lemma filter_True {A} (P : A -> Prop) `{forall x, Decision (P x)} (l : list A) :
  (forall x, P x) -> filter P l = l.
Proof.
  intros HP. induction l as [|x l IH]; [done|]. rewrite filter_cons_True by done. by rewrite IH.
Qed.

Lemma mergeEntries_nobase now o remote :
  mergeEntries now o remote None =
    map compactValue (oEntries o) ++ map compactTombstone (oTombstones o).
Proof.
  unfold mergeEntries, addedValues, addedTombstones. cbn [from_option inferredDeletes].
  rewrite app_nil_r, !filter_True by done.
  f_equal; apply list_fmap_ext; intros ? [? ?] ?; done.
Qed.

Definition delta_reg (seen : VersionVector) (o : option Reg) : option Reg :=
  o ≫= fun r => if Dominates seen (regVersion r) then None else Some r.

Lemma DeltaSince_separated c seen : separated c -> separated (DeltaSince (Some c) seen).
Proof.
  intros Hs k. destruct (Hs k) as [E|E]; [left|right]; simpl;
    apply map_lookup_filter_None; by left.
Qed.

Lemma reg_of_delta c seen k :
  separated c -> reg_of (DeltaSince (Some c) seen) k = delta_reg seen (reg_of c k).
Proof.
  intros Hs. apply option_eq. intros r. unfold delta_reg.
  pose proof (DeltaSince_separated c seen Hs) as Hd.
  destruct r as [v|t]; [rewrite reg_of_live by done|rewrite reg_of_dead by done];
    simpl; rewrite map_lookup_filter_Some.
  - rewrite <- (reg_of_live c k v) by done. split.
    + intros [-> H]. simpl. change (regVersion (Live v)) with (valueVersion v). by rewrite H.
    + destruct (reg_of c k) as [r|]; [|done]. simpl. destruct (Dominates _ _) eqn:E; [done|].
      intros [= ->]. done.
  - rewrite <- (reg_of_dead c k t) by done. split.
    + intros [-> H]. simpl. change (regVersion (Dead t)) with (tombstoneVersion t). by rewrite H.
    + destruct (reg_of c k) as [r|]; [|done]. simpl. destruct (Dominates _ _) eqn:E; [done|].
      intros [= ->]. done.
Qed.

Definition join_opt (a b : option Reg) : option Reg :=
  match b with Some r => reg_join a r | None => a end.

Definition normal_regs (c : Snapshot) : Prop := forall k r, reg_of c k = Some r -> normal r.

(** Merging a snapshot without a baseline: its registers are proposed once. *)
Lemma merge_proposals o now D k :
  separated D -> normal_regs D -> merge_order_of D None o ->
  proposals (mergeEntries now o D None) k = option_list (reg_of D k).
Proof.
  intros Hs Hn (He & Ht & _). rewrite mergeEntries_nobase, reg_list_compact.
  rewrite (proposals_compact (fun kr => compactEntry kr.1 kr.2)).
  - f_equal. apply option_eq. intros r. rewrite <- (elem_of_reg_list D _ _ k r Hs He Ht).
    symmetry. apply (elem_of_list_to_map (M := gmap string)). by apply (NoDup_reg_list D).
  - intros [k' r] Hin. apply (elem_of_reg_list D _ _ k' r Hs He Ht) in Hin.
    simpl. split; [by destruct r|]. apply incoming_compact. by eapply Hn.
  - by apply (NoDup_reg_list D).
Qed.

Lemma elem_of_mergeEntries o now D e :
  separated D -> normal_regs D -> merge_order_of D None o ->
  e ∈ mergeEntries now o D None ->
  exists k r, reg_of D k = Some r /\ e = compactEntry k r.
Proof.
  intros Hs Hn (He & Ht & _). rewrite mergeEntries_nobase, reg_list_compact.
  intros ([k r] & -> & Hin)%list_elem_of_fmap. exists k, r. split; [|done].
  by apply (elem_of_reg_list D _ _ k r Hs He Ht).
Qed.

Lemma compactEntry_version k r : normal r -> entryVersion (compactEntry k r) = regVersion r.
Proof.
  intros Hn. destruct (incoming_reg _ _ (incoming_compact k r Hn)) as (_ & _ & _ & E). done.
Qed.

Lemma reg_in_mergeEntries o now D k r :
  separated D -> merge_order_of D None o -> reg_of D k = Some r ->
  compactEntry k r ∈ mergeEntries now o D None.
Proof.
  intros Hs (He & Ht & _) Hr. rewrite mergeEntries_nobase, reg_list_compact.
  apply list_elem_of_fmap. exists (k, r). split; [done|].
  by apply (elem_of_reg_list D _ _ k r Hs He Ht).
Qed.

(** ** The order of clocks *)

(** [r] is not later than [c]. *)
Definition not_later (r c : Reg) : Prop := beats (regClock r) (regClock c) = false.

Lemma not_later_refl r : not_later r r.
Proof. apply beats_irrefl. Qed.

Lemma not_later_trans r c d : not_later r c -> not_later c d -> not_later r d.
Proof.
  unfold not_later. intros H1 H2. apply not_true_iff_false. intros H.
  destruct (decide (regClock c = regClock d)) as [E|E]; [rewrite E in H1; congruence|].
  pose proof (beats_total _ _ E H2) as H3. by rewrite (beats_trans _ _ _ H H3) in H1.
Qed.

Lemma beats_not_later r c : beats (regClock r) (regClock c) = true -> not_later c r.
Proof. apply beats_asym. Qed.

(** The register [o] holds [r] or a later one. *)
Definition holds (o : option Reg) (r : Reg) : Prop := exists c, o = Some c /\ not_later r c.

Section Replica.
(** The writes of the namespace, key by key, and what identifies them. *)
Variable writes : string -> list Reg.
Hypothesis writes_coherent : forall k, coherent (writes k).
Hypothesis writes_dotted : forall k r, r ∈ writes k ->
  known (regActor r) (regCounter r) /\ vget (regContext r) "" = 0%N.

(** A write whose dot a vector covers. *)
Definition covered (v : VersionVector) (r : Reg) : Prop := (regCounter r <= vget v (regActor r))%N.

Record replica (c : Snapshot) : Prop := {
  rep_separated : separated c;
  rep_writes : forall k r, reg_of c k = Some r ->
    r ∈ writes k /\ normal r /\ vle (regVersion r) (vector c);
  rep_holds : forall k r, r ∈ writes k -> covered (vector c) r -> holds (reg_of c k) r
}.

Lemma reg_join_writes k o r :
  (forall c, o = Some c -> c ∈ writes k) -> r ∈ writes k -> reg_join o r = lww_join o r.
Proof using writes_coherent.
  intros Ho Hr. destruct o as [c|]; [|done]. simpl.
  by rewrite (regBeats_coherent (writes k)) by auto.
Qed.

Lemma holds_join_l k o r x :
  (forall c, o = Some c -> c ∈ writes k) -> x ∈ writes k ->
  holds o r -> holds (reg_join o x) r.
Proof using writes_coherent.
  intros Ho Hx (c & -> & Hc). rewrite (reg_join_writes k) by done. simpl. case_match eqn:E.
  - exists x. split; [done|]. eapply not_later_trans; [done|]. by apply beats_not_later.
  - by exists c.
Qed.

Lemma holds_join_r k o r x :
  (forall c, o = Some c -> c ∈ writes k) -> x ∈ writes k ->
  not_later r x -> holds (reg_join o x) r.
Proof using writes_coherent.
  intros Ho Hx Hr. rewrite (reg_join_writes k) by done. destruct o as [c|]; simpl; [|by exists x].
  case_match eqn:E; [by exists x|]. exists c. split; [done|].
  by eapply not_later_trans.
Qed.

(** Joining what is already held changes nothing. *)
Lemma join_held k o r :
  (forall c, o = Some c -> c ∈ writes k) -> r ∈ writes k -> holds o r -> reg_join o r = o.
Proof using writes_coherent.
  intros Ho Hr (c & -> & Hc). rewrite (reg_join_writes k) by done. simpl.
  unfold not_later in Hc. by rewrite Hc.
Qed.

Lemma join_opt_comm k a b :
  (forall c, a = Some c -> c ∈ writes k) -> (forall c, b = Some c -> c ∈ writes k) ->
  join_opt a b = join_opt b a.
Proof using writes_coherent.
  intros Ha Hb. destruct a as [a|], b as [b|]; try done. unfold join_opt.
  rewrite !(reg_join_writes k) by auto. simpl.
  destruct (decide (regClock a = regClock b)) as [E|E].
  - assert (a = b) as -> by (apply (writes_coherent k a b); auto). by case_match.
  - destruct (beats (regClock b) (regClock a)) eqn:Eb.
    + by rewrite (beats_asym _ _ Eb).
    + by rewrite (beats_total _ _ (not_eq_sym E) Eb).
Qed.

Lemma covered_version r v :
  known (regActor r) (regCounter r) -> vle (regVersion r) v -> covered v r.
Proof.
  intros [Ha _] Hv. unfold covered. etrans; [|apply Hv].
  unfold regVersion, CausalVersion. rewrite vget_Observe_eq by done. lia.
Qed.

(** What a merged vector covers was covered by the old one or by an entry. *)
Lemma vget_foldl_stepVector_inv es v a n :
  a <> "" -> n <> 0%N -> (n <= vget (foldl stepVector v es) a)%N ->
  (n <= vget v a)%N \/ exists e, e ∈ es /\ (n <= vget (entryVersion e) a)%N.
Proof.
  intros Ha Hn H. destruct (decide (n <= vget v a)%N) as [|Hv]; [by left|right].
  destruct (decide (Exists (fun e => (n <= vget (entryVersion e) a)%N) es)) as [He|He];
    [by apply Exists_exists|].
  exfalso. assert (vget (foldl stepVector v es) a <= N.pred n)%N; [|lia].
  apply vget_foldl_stepVector; [done|]. split; [lia|]. intros e Hin.
  destruct (decide (n <= vget (entryVersion e) a)%N); [|lia].
  exfalso. apply He, Exists_exists. eauto.
Qed.

Lemma vle_foldl_stepVector es v : vle v (foldl stepVector v es).
Proof.
  intros a. destruct (decide (a = "")) as [->|Ha]; [by rewrite vget_foldl_stepVector_empty|].
  by apply (proj1 (vget_foldl_stepVector es v a _ Ha) (N.le_refl _)).
Qed.

Context `{Codec : LineCodec Entry}.

(** What a delta leaves out is already held. *)
Lemma delta_join local remote k :
  replica local -> replica remote ->
  join_opt (reg_of local k) (delta_reg (vector local) (reg_of remote k))
    = join_opt (reg_of local k) (reg_of remote k).
Proof using writes_coherent writes_dotted.
  intros Hlo Hre. unfold delta_reg. destruct (reg_of remote k) as [r|] eqn:Er; [|done].
  simpl. destruct (Dominates _ _) eqn:Ed; [|done]. simpl. symmetry.
  destruct (rep_writes _ Hre k r Er) as (Hw & _ & _).
  apply (join_held k); [intros c ?; by apply (rep_writes _ Hlo)|done|].
  apply (rep_holds _ Hlo); [done|].
  apply covered_version; [by eapply writes_dotted|by apply Dominates_vle].
Qed.

(** The registers of the join of two replicas keep the promise of [rep_holds]. *)
Lemma join_holds local remote k r :
  replica local -> replica remote -> r ∈ writes k ->
  covered (vector local) r \/ covered (vector remote) r ->
  holds (join_opt (reg_of local k) (reg_of remote k)) r.
Proof using writes_coherent.
  intros Hlo Hre Hw Hcov.
  assert (forall r, reg_of local k = Some r -> r ∈ writes k) as HwL
    by (intros ? ?; by apply (rep_writes _ Hlo)).
  destruct Hcov as [H|H].
  - pose proof (rep_holds _ Hlo k r Hw H) as Hh.
    destruct (reg_of remote k) as [x|] eqn:Ex; [|done]. simpl.
    apply (holds_join_l k); [done|by apply (rep_writes _ Hre)|done].
  - destruct (rep_holds _ Hre k r Hw H) as (x & Ex & Hx). rewrite Ex. simpl.
    apply (holds_join_r k); [done|by apply (rep_writes _ Hre)|done].
Qed.

(** A snapshot that carries the registers of a delta. *)
Definition carries_delta (D remote : Snapshot) (seen : VersionVector) : Prop :=
  separated D /\ forall k, reg_of D k = delta_reg seen (reg_of remote k).

Lemma carries_DeltaSince remote seen :
  separated remote -> carries_delta (DeltaSince (Some remote) seen) remote seen.
Proof. split; [by apply DeltaSince_separated|intros; by apply reg_of_delta]. Qed.

Lemma carries_reg D remote seen k r :
  carries_delta D remote seen -> reg_of D k = Some r -> reg_of remote k = Some r.
Proof.
  intros [_ HD]. rewrite HD. unfold delta_reg. destruct (reg_of remote k); [|done].
  simpl. case_match; [done|]. by intros [= ->].
Qed.

(** The version of a write at the unnamed actor is 0. *)
Lemma version_unnamed k r : r ∈ writes k -> vget (regVersion r) "" = 0%N.
Proof using writes_dotted.
  intros Hw. unfold regVersion, CausalVersion. rewrite vget_Observe, decide_False by naive_solver.
  by apply (writes_dotted k r Hw).
Qed.

(** One delta exchange: [remote] answers the vector of [local] with [D]. *)
Lemma delta_exchange env now o l local remote D :
  all_ok env -> llCache l = Some local -> replica local -> replica remote ->
  carries_delta D remote (vector local) -> merge_order_of D None o ->
  exists l' c n, diffAndMerge env now o l D None = (l', n) /\
    llCache l' = Some c /\ replica c /\
    forall k, reg_of c k = join_opt (reg_of local k) (reg_of remote k).
Proof using writes_coherent writes_dotted.
  intros Hok Hl Hlo Hre HD Ho. pose proof (proj1 HD) as Hsd.
  assert (normal_regs D) as Hnd
    by (intros k r ?; apply (rep_writes remote Hre k); by eapply carries_reg).
  rewrite diffAndMerge_foldl.
  destruct (foldl_mergeAppend_ok env l local 0 (mergeEntries now o D None) Hok Hl
    (rep_separated _ Hlo)) as (l' & c & E & Hc & Hsc & Hv & Hr).
  assert (forall k, reg_of c k = join_opt (reg_of local k) (reg_of D k)) as HrD.
  { intros k. rewrite Hr, merge_proposals by done. by destruct (reg_of D k). }
  assert (forall k, reg_of c k = join_opt (reg_of local k) (reg_of remote k)) as Hjoin.
  { intros k. rewrite HrD, (proj2 HD). by apply delta_join. }
  exists l', c. eexists. split_and!; [exact E|done| |done]. split; [done|..].
  - intros k r Hk. rewrite Hv. rewrite HrD in Hk.
    assert (reg_of local k = Some r \/ reg_of D k = Some r) as [H|H].
    { destruct (reg_of D k) as [d|]; [|by left]. simpl in Hk. unfold reg_join in Hk.
      destruct (reg_of local k); [case_match|]; naive_solver. }
    + destruct (rep_writes _ Hlo k r H) as (? & ? & ?). split_and!; [done..|].
      etrans; [done|apply vle_foldl_stepVector].
    + pose proof (reg_in_mergeEntries o now D k r Hsd Ho H) as Hin.
      destruct (rep_writes _ Hre k r) as (Hw & Hn & _); [by eapply carries_reg|].
      split_and!; [done..|]. intros a.
      destruct (decide (a = "")) as [->|Ha]; [rewrite (version_unnamed k) by done; lia|].
      rewrite <- (compactEntry_version k r Hn).
      by apply (proj1 (vget_foldl_stepVector _ (vector local) a _ Ha) (N.le_refl _)).
  - intros k r Hw Hcov. destruct (writes_dotted k r Hw) as [[Ha Hn0] _].
    rewrite Hjoin. apply join_holds; [done..|]. unfold covered in *. rewrite Hv in Hcov.
    apply vget_foldl_stepVector_inv in Hcov as [H|(e & He & H)]; [by left| |done|done].
    right. apply elem_of_mergeEntries in He as (k' & r' & Hr' & ->); [|done..].
    rewrite compactEntry_version in H by (by eapply Hnd). etrans; [exact H|].
    apply (rep_writes _ Hre k'). by eapply carries_reg.
Qed.

(** ** Properties *)


(** Two replicas that hold the joins of each other's registers agree. *)
Lemma joins_agree ca cb a b :
  replica ca -> replica cb -> separated a -> separated b ->
  (forall k, reg_of a k = join_opt (reg_of ca k) (reg_of cb k)) ->
  (forall k, reg_of b k = join_opt (reg_of cb k) (reg_of ca k)) ->
  entries a = entries b /\ deleted a = deleted b.
Proof using writes_coherent.
  intros Ha Hb Hsa Hsb Hja Hjb. apply separated_ext; [done..|].
  intros k. rewrite Hja, Hjb. apply (join_opt_comm k); intros r ?.
  - by apply (rep_writes _ Ha).
  - by apply (rep_writes _ Hb).
Qed.
End Replica.

(** ** Where replicas come from

    The replay of a causally closed part [es] of the writes [all] is a
    replica: closed means that every write whose dot the replay's vector
    covers is in [es]. *)

Definition entry_covered (v : VersionVector) (e : Entry) : Prop :=
  (eCounter (normalizeEntry e) <= vget v (eActor (normalizeEntry e)))%N.

Lemma replica_replay n0 n1 all es :
  (forall k, coherent (proposals all k)) -> Forall dotted all -> es ⊆ all ->
  (forall e, e ∈ all -> entry_covered (vector (buildSnapshot n0 n1 None es)) e -> e ∈ es) ->
  replica (proposals all) (buildSnapshot n0 n1 None es).
Proof.
  intros Hc Hd Hsub Hcl. assert (forall k, coherent (proposals es k)) as Hces.
  { intros k a b Ha Hb. apply (Hc k); rewrite elem_of_proposals in *; naive_solver. }
  split; [by apply buildSnapshot_separated|..].
  - intros k r (e & He & Hk & Hi)%reg_of_replay.
    assert (e ∈ all) as Hall by by apply Hsub. split_and!.
    + apply elem_of_proposals. eauto.
    + by eapply incoming_normal.
    + destruct (incoming_reg _ _ Hi) as (_ & _ & _ & ->). apply vector_replay_covers; [done|].
      rewrite Forall_forall in Hd. by apply Hd.
  - intros k r (e & He & Hk & Hi)%elem_of_proposals Hcov.
    destruct (incoming_reg _ _ Hi) as (E1 & E2 & _ & _). unfold covered in Hcov.
    rewrite E1, E2 in Hcov. apply Hcl in Hcov; [|done].
    rewrite reg_buildSnapshot_lww by done. unfold candidates. simpl.
    pose proof (lww_max_spec (proposals es k)) as Hm.
    assert (r ∈ proposals es k) as Hr by (apply elem_of_proposals; eauto).
    destruct (lww_max (proposals es k)) as [c|]; [|rewrite Hm in Hr; by apply not_elem_of_nil in Hr].
    exists c. split; [done|]. by apply Hm.
Qed.

Lemma writes_dotted_proposals all k r :
  Forall dotted all -> r ∈ proposals all k ->
  known (regActor r) (regCounter r) /\ vget (regContext r) "" = 0%N.
Proof.
  rewrite Forall_forall. intros Hd (e & He & _ & Hi)%elem_of_proposals.
  destruct (incoming_reg _ _ Hi) as (-> & -> & -> & _). by apply Hd.
Qed.

(** Coherence is checked on the finitely many keys of the writes. *)
Lemma proposals_coherent all :
  Forall (fun k => coherent (proposals all k)) (eKey <$> all) ->
  forall k, coherent (proposals all k).
Proof.
  intros H k. destruct (decide (k ∈ eKey <$> all)) as [Hk|Hk].
  - rewrite Forall_forall in H. by apply H.
  - intros a b (e & He & <- & _)%elem_of_proposals _. exfalso. apply Hk.
    apply list_elem_of_fmap. eauto.
Qed.

#[export] Instance dotted_dec e : Decision (dotted e).
Proof. unfold dotted. apply _. Defined.
#[export] Instance entry_covered_dec v e : Decision (entry_covered v e).
Proof. unfold entry_covered. apply _. Defined.

(** ** Concrete replicas *)

Section Demo.
#[local] Existing Instance demoCodec.

Definition entA : list Entry := [demoSet "dev-a" 10 1 "x" "one" ∅].
Definition entB : list Entry :=
  [demoSet "dev-b" 11 1 "x" "two" ∅; demoDelete "dev-b" 12 2 "y" {["dev-b" := 1%N]}].

Definition snapA : Snapshot := buildSnapshot 0 0 None entA.
Definition snapB : Snapshot := buildSnapshot 0 0 None entB.
Definition logOf (dev : string) (es : list Entry) : LocalLog :=
  mkLocalLog dev dev (Some (buildSnapshot 0 0 None es)) 2 (Some (jsonl es)).
Definition envOk : MergeEnv := {| mIO _ := WOk; mStart _ := 0; mEnd _ := 0 |}.

(** The enumeration of [gmap]. *)
Definition listed (remote : Snapshot) (baseline : option Snapshot) : MergeOrder :=
  {| oEntries := map_to_list (Entries remote); oTombstones := map_to_list (Tombstones remote);
     oBaseline := map_to_list (from_option Entries ∅ baseline) |}.

Lemma listed_order remote baseline : merge_order_of remote baseline (listed remote baseline).
Proof. done. Qed.

Lemma demo_writes_coherent k : coherent (proposals (entA ++ entB) k).
Proof. apply proposals_coherent. apply (bool_decide_unpack _). vm_compute. done. Qed.

Lemma demo_writes_dotted : Forall dotted (entA ++ entB).
Proof. apply (bool_decide_unpack _). vm_compute. done. Qed.

Lemma demo_replica es :
  es = entA \/ es = entB -> replica (proposals (entA ++ entB)) (buildSnapshot 0 0 None es).
Proof.
  intros Hes. apply replica_replay; [apply demo_writes_coherent|apply demo_writes_dotted|intros x; rewrite elem_of_app; naive_solver|].
  enough (Forall (fun e => entry_covered (vector (buildSnapshot 0 0 None es)) e -> e ∈ es)
    (entA ++ entB)) as H by (by rewrite Forall_forall in H).
  destruct Hes as [-> | ->]; apply (bool_decide_unpack _); vm_compute; done.
Qed.

Lemma demo_replicas :
  replica (proposals (entA ++ entB)) snapA /\ replica (proposals (entA ++ entB)) snapB.
Proof. split; apply demo_replica; auto. Qed.


(** A device with two writes of its own, and a peer whose file refuses the
    first of them. *)
Definition entC : list Entry :=
  [demoSet "dev-c" 10 1 "x" "one" ∅; demoSet "dev-c" 11 2 "y" "two" {["dev-c" := 1%N]}].
Definition envFlaky : MergeEnv :=
  {| mIO e := if bool_decide (eKey e = "x") then WOpenFails else WOk; mStart _ := 0; mEnd _ := 0 |}.

(** One delta request: the peer's vector goes out, the delta comes back. *)
Definition demoPull (env : MergeEnv) (remote : Snapshot) (l : LocalLog) : LocalLog * Z :=
  let seen := from_option vector ∅ (llCache l) in
  let delta := DeltaSince (Some remote) seen in
  diffAndMerge env 0 (listed delta None) l delta None.

(** A merge that skips an append it could not write is never repaired: the
    version vector jumps over the missing write, so that the following delta
    exchanges, which all succeed, have nothing left to send, and the key stays
    absent although the peer holds it. *)
Theorem kv_failed_merge_is_never_repaired :
  let peer := buildSnapshot 0 0 None entC in
  let l0 := logOf "dev-d" [] in
  let '(l1, n1) := demoPull envFlaky peer l0 in
  let '(l2, n2) := demoPull envOk peer l1 in
  n1 = 1 /\ n2 = 0 /\ l2 = l1 /\
  HasState (Some (DeltaSince (Some peer) (from_option vector ∅ (llCache l1)))) = false /\
  (viValue <$> Lookup peer "x") = Some "one" /\
  (logLookup true 0 0 "x" l2).2 = None /\
  (viValue <$> (logLookup true 0 0 "y" l2).2) = Some "two".
Proof. vm_compute. split_and!; reflexivity. Qed.

End Demo.
