(* ===== verification/KvStore.v ===== *)
(** * The key-value store and its sync health (pkg/kv/store.go, pkg/kv/status.go)

    A [Store] is a local log, a resolved namespace (symmetric key and opaque
    identifier) and the health record that [Status] reports.  Key resolution
    talks to disk, S3 and the identity key: its outcome is an argument.  The
    goroutines that [pokeSync] wakes are the result [poked] of an operation. *)

From stdpp Require Import base numbers list gmap strings.
From S2P Require Import Prelude GoStrings JsonLines KvCausal KvSnapshot KvMerge KvLocal KvPattern.

Definition MaxValueSize : Z := 8192.

(** ** Health (status.go) *)

Record syncHealth := mkHealth {
  hReady : bool;
  hReadyError : string;
  hLastSyncOK : Time;
  hLastSyncPeer : string;
  hLastSyncErrorAt : Time;
  hLastSyncError : string;
  hLastSyncErrPeer : string;
  hMismatchAt : Time;
  hMismatchPeer : string;
  hMismatchGot : string;
  hMismatchWant : string
}.

Definition noHealth : syncHealth :=
  mkHealth false "" zeroTime "" zeroTime "" "" zeroTime "" "" "".

Definition markReadyLocked (h : syncHealth) : syncHealth :=
  mkHealth true "" (hLastSyncOK h) (hLastSyncPeer h) (hLastSyncErrorAt h) (hLastSyncError h)
    (hLastSyncErrPeer h) (hMismatchAt h) (hMismatchPeer h) (hMismatchGot h) (hMismatchWant h).

Definition markResolveError (now : Time) (err : string) (h : syncHealth) : syncHealth :=
  mkHealth false err (hLastSyncOK h) (hLastSyncPeer h) now err
    (hLastSyncErrPeer h) (hMismatchAt h) (hMismatchPeer h) (hMismatchGot h) (hMismatchWant h).

Definition recordSyncSuccess (now : Time) (peer : string) (h : syncHealth) : syncHealth :=
  mkHealth (hReady h) (hReadyError h) now peer zeroTime "" "" zeroTime "" "" "".

Definition recordSyncError (now : Time) (peer err : string) (h : syncHealth) : syncHealth :=
  mkHealth (hReady h) (hReadyError h) (hLastSyncOK h) (hLastSyncPeer h) now err peer
    (hMismatchAt h) (hMismatchPeer h) (hMismatchGot h) (hMismatchWant h).

Definition recordNamespaceMismatch (now : Time) (peer got want : string) (h : syncHealth)
  : syncHealth :=
  mkHealth (hReady h) (hReadyError h) (hLastSyncOK h) (hLastSyncPeer h) now
    ("namespace mismatch: got " +:+ got +:+ " want " +:+ want) peer now peer got want.

(** ** The store *)

Record Store := mkStore {
  stNamespace : string;
  stDeviceID : string;
  stExpectedPeers : Z;
  stLog : LocalLog;
  stNsKey : option string;   (** [None] is the nil key *)
  stNsID : string;
  stHealth : syncHealth;
  stBaselines : gmap string string   (** the baseline files, by remote device *)
}.

Definition with_log (s : Store) (l : LocalLog) : Store :=
  mkStore (stNamespace s) (stDeviceID s) (stExpectedPeers s) l (stNsKey s) (stNsID s) (stHealth s)
    (stBaselines s).
Definition with_health (s : Store) (h : syncHealth) : Store :=
  mkStore (stNamespace s) (stDeviceID s) (stExpectedPeers s) (stLog s) (stNsKey s) (stNsID s) h
    (stBaselines s).

Inductive StoreErr :=
| ErrResolve (msg : string)
| ErrUnavailable (msg : string)     (** kv namespace unavailable *)
| ErrNotResolved                    (** kv namespace not resolved yet *)
| ErrValueTooLarge
| ErrKeyRequired
| ErrLog (e : LogErr).

(** What the outside world does to one operation. *)
Record OpEnv := {
  oResolve : result string (string * string);  (** namespace key and identifier *)
  oRead : bool;
  oIO : string -> WriteIO;                     (** per key *)
  oStart : Time;
  oEnd : Time;
  oNow : Time
}.

Definition namespaceResolved (s : Store) : bool :=
  bool_decide (is_Some (stNsKey s)) && bool_decide (stNsID s <> "").

(** [resolveKeys] and the callers' [markResolveError]. *)
Definition resolveKeys (env : OpEnv) (s : Store) : Store * result StoreErr unit :=
  match oResolve env with
  | Err msg => (with_health s (markResolveError (oNow env) msg (stHealth s)), Err (ErrResolve msg))
  | Ok (nsKey, nsID) =>
      (mkStore (stNamespace s) (stDeviceID s) (stExpectedPeers s) (stLog s) (Some nsKey) nsID
         (markReadyLocked (stHealth s)) (stBaselines s), Ok tt)
  end.

Definition ensureReady (s : Store) : result StoreErr unit :=
  if namespaceResolved s then Ok tt
  else if bool_decide (hReadyError (stHealth s) <> "")
  then Err (ErrUnavailable (hReadyError (stHealth s)))
  else Err ErrNotResolved.

(** The common head of the mutating operations. *)
Definition prepare (env : OpEnv) (s : Store) : Store * result StoreErr unit :=
  let '(s, r) := if namespaceResolved s then (s, Ok tt) else resolveKeys env s in
  match r with
  | Err e => (s, Err e)
  | Ok _ => (s, ensureReady s)
  end.

Section Operations.
Context `{Codec : LineCodec Entry}.

Definition storeAppend (env : OpEnv) (s : Store) (e : Entry) : Store * result StoreErr unit :=
  match AppendLocal (oRead env) (oIO env (eKey e)) (oStart env) (oEnd env) (oNow env) e (stLog s) with
  | (l, Ok _) => (with_log s l, Ok tt)
  | (l, Err x) => (with_log s l, Err (ErrLog x))
  end.

(** The third component says whether [pokeSync] ran. *)
Definition Set_ (env : OpEnv) (s : Store) (key value : string) : Store * result StoreErr unit * bool :=
  match prepare env s with
  | (s, Err e) => (s, Err e, false)
  | (s, Ok _) =>
      if MaxValueSize <? slen value then (s, Err ErrValueTooLarge, false)
      else match storeAppend env s (mkEntry EntrySet key value (stNsID s) "" 0 0 "" 0%N ∅) with
           | (s, Err e) => (s, Err e, false)
           | (s, Ok _) => (s, Ok tt, true)
           end
  end.

Definition Get (env : OpEnv) (s : Store) (key : string) : Store * option string :=
  let '(l, v) := logLookup (oRead env) (oStart env) (oEnd env) key (stLog s) in
  (with_log s l, viValue <$> v).

(** The loop of [deleteKeys]; [seen] is the set of keys already deleted. *)
Fixpoint deleteLoop (env : OpEnv) (s : Store) (seen : gset string) (keys : list string)
  : Store * result StoreErr unit :=
  match keys with
  | [] => (s, Ok tt)
  | key :: keys =>
      if bool_decide (key = "") then (s, Err ErrKeyRequired)
      else if bool_decide (key ∈ seen) then deleteLoop env s seen keys
      else match storeAppend env s (mkEntry EntryDelete key "" (stNsID s) "" 0 0 "" 0%N ∅) with
           | (s, Err e) => (s, Err e)
           | (s, Ok _) => deleteLoop env s ({[key]} ∪ seen) keys
           end
  end.

Definition deleteKeys (env : OpEnv) (s : Store) (keys : list string)
  : Store * result StoreErr unit * bool :=
  if bool_decide (keys = []) then (s, Ok tt, false)
  else match prepare env s with
       | (s, Err e) => (s, Err e, false)
       | (s, Ok _) =>
           match deleteLoop env s ∅ keys with
           | (s, Err e) => (s, Err e, false)
           | (s, Ok _) => (s, Ok tt, true)
           end
       end.

Definition Delete (env : OpEnv) (s : Store) (key : string) := deleteKeys env s [key].
Definition DeleteMany (env : OpEnv) (s : Store) (keys : list string) := deleteKeys env s keys.

(** [Snapshot] of the store; the reads below warm the cache on the way. *)
Definition storeSnapshot (env : OpEnv) (s : Store) : Store * result LogErr Snapshot :=
  let '(l, r) := getSnapshot (oRead env) (oStart env) (oEnd env) (stLog s) in (with_log s l, r).

Definition List (env : OpEnv) (s : Store) (prefix : string) : Store * list string :=
  match storeSnapshot env s with
  | (s, Err _) => (s, [])
  | (s, Ok snap) =>
      (s, if bool_decide (prefix = "") then Keys snap else KeysWithPrefix snap prefix)
  end.

Definition ListMatching (env : OpEnv) (s : Store) (pattern : string) (includeInternal : bool)
  : Store * result LogErr (list string) :=
  match storeSnapshot env s with
  | (s, Err x) => (s, Err x)
  | (s, Ok snap) =>
      (s, Ok (filterKeysByPattern (filterVisibleKeys (Keys snap) includeInternal) pattern))
  end.

Definition GetAll (env : OpEnv) (s : Store) (prefix : string) : Store * gmap string string :=
  match storeSnapshot env s with
  | (s, Err _) => (s, ∅)
  | (s, Ok snap) =>
      (s, viValue <$> filter (fun kv => prefix = "" \/ HasPrefix kv.1 prefix = true) (Entries snap))
  end.

(** ** Status *)

Record StatusReport := mkStatus {
  sNamespace : string;
  sDeviceID : string;
  sKeys : Z;
  sNSID : string;
  sReady : bool;
  sPeerCount : Z;
  sExpectedPeers : Z;
  sSyncState : string;
  sSyncMessage : string;
  sLastSyncOK : option Time;      (** formatted as RFC 3339 in the source *)
  sLastSyncPeer : string;
  sLastSyncError : string;
  sLastSyncErrorAt : option Time
}.

Definition statusReady (s : Store) : bool :=
  namespaceResolved s && bool_decide (hReadyError (stHealth s) = "").

(** The state and message of the [switch]. *)
Definition syncState (ready : bool) (expected peers : Z) (h : syncHealth) : string * string :=
  if negb ready then
    ("error", if bool_decide (hReadyError h <> "") then hReadyError h
              else "KV namespace is not resolved")
  else if negb (time_IsZero (hMismatchAt h)) then
    ("error", "Private-network KV namespace mismatch with peer " +:+ hMismatchPeer h)
  else if bool_decide (hLastSyncError h <> "") then ("error", hLastSyncError h)
  else if (0 <? expected) && (peers =? 0) then
    ("waiting", "No connected private-network peers")
  else if (0 <? expected) && time_IsZero (hLastSyncOK h) then
    ("waiting", "Connected peers found, but no successful KV sync yet")
  else ("ok", "").

(** [peers] is [None] without a running P2P node. *)
Definition Status (env : OpEnv) (peers : option Z) (s : Store) : Store * result LogErr StatusReport :=
  match storeSnapshot env s with
  | (s, Err x) => (s, Err x)
  | (s, Ok snap) =>
      let h := stHealth s in
      let ready := statusReady s in
      let count := default 0 peers in
      let '(state, msg) := syncState ready (stExpectedPeers s) count h in
      let okAt := hLastSyncOK h in
      (s, Ok (mkStatus (stNamespace s) (stDeviceID s) (visibleKeyCount (Some snap)) (stNsID s) ready count (stExpectedPeers s)
        state msg
        (if time_IsZero okAt then None else Some okAt)
        (if time_IsZero okAt then "" else hLastSyncPeer h)
        (hLastSyncError h)
        (if bool_decide (hLastSyncError h <> "") && negb (time_IsZero (hLastSyncErrorAt h))
         then Some (hLastSyncErrorAt h) else None)))
  end.
End Operations.

(** ** What the sync state means

    The health record summarises the whole history of sync and resolution
    events.  [reported] says, from the history alone, what [Status] shows. *)

Inductive HealthEvent :=
| EvResolved
| EvResolveError (now : Time) (err : string)
| EvSuccess (now : Time) (peer : string)
| EvError (now : Time) (peer err : string)
| EvMismatch (now : Time) (peer got want : string).

Definition applyEvent (h : syncHealth) (ev : HealthEvent) : syncHealth :=
  match ev with
  | EvResolved => markReadyLocked h
  | EvResolveError now err => markResolveError now err h
  | EvSuccess now peer => recordSyncSuccess now peer h
  | EvError now peer err => recordSyncError now peer err h
  | EvMismatch now peer got want => recordNamespaceMismatch now peer got want h
  end.

(** Clocks are past the zero time and errors have a message. *)
Definition event_ok (ev : HealthEvent) : Prop :=
  match ev with
  | EvResolved => True
  | EvResolveError now err => err <> ""
  | EvSuccess now _ => now <> zeroTime
  | EvError _ _ err => err <> ""
  | EvMismatch now _ _ _ => now <> zeroTime
  end.

Definition is_success (ev : HealthEvent) : bool :=
  match ev with EvSuccess _ _ => true | _ => false end.
Definition is_failure (ev : HealthEvent) : bool :=
  match ev with EvResolveError _ _ | EvError _ _ _ | EvMismatch _ _ _ _ => true | _ => false end.
Definition is_mismatch (ev : HealthEvent) : bool :=
  match ev with EvMismatch _ _ _ _ => true | _ => false end.

(** The events after the last success. *)
Definition since_success (evs : list HealthEvent) : list HealthEvent :=
  foldl (fun acc ev => if is_success ev then [] else acc ++ [ev]) [] evs.

(** The message of the last resolution, empty when it succeeded. *)
Definition resolve_error (evs : list HealthEvent) : string :=
  foldl (fun acc ev => match ev with
    | EvResolved => "" | EvResolveError _ err => err | _ => acc end) "" evs.

Definition reported (resolved : bool) (expected peers : Z) (evs : list HealthEvent) : string :=
  if negb (resolved && bool_decide (resolve_error evs = "")) then "error"
  else if existsb is_failure (since_success evs) then "error"
  else if (0 <? expected) && ((peers =? 0) || negb (existsb is_success evs)) then "waiting"
  else "ok".

Lemma existsb_snoc {A} (f : A -> bool) l x : existsb f (l ++ [x]) = existsb f l || f x.
Proof. rewrite existsb_app. simpl. by rewrite orb_false_r. Qed.

(** The health record remembers exactly what [reported] looks at. *)
Lemma health_history evs :
  Forall event_ok evs ->
  let h := foldl applyEvent noHealth evs in
  hReadyError h = resolve_error evs /\
  negb (time_IsZero (hMismatchAt h)) = existsb is_mismatch (since_success evs) /\
  bool_decide (hLastSyncError h <> "") = existsb is_failure (since_success evs) /\
  time_IsZero (hLastSyncOK h) = negb (existsb is_success evs).
Proof.
  assert (forall t, t <> zeroTime -> time_IsZero t = false) as Hz by (intros; by apply Z.eqb_neq).
  cbn zeta. induction evs as [|ev evs IH] using rev_ind; intros Hok; [done|].
  apply Forall_app in Hok as [Hok Hev]. apply Forall_cons in Hev as [Hev _].
  destruct (IH Hok) as (E1 & E2 & E3 & E4). unfold since_success, resolve_error in *.
  rewrite !foldl_snoc, existsb_snoc. set (h := foldl applyEvent noHealth evs) in *.
  destruct ev as [|now err|now peer|now peer err|now peer got want]; simpl in *;
    rewrite ?existsb_snoc, ?orb_false_r, ?orb_true_r, ?Hz by done;
    split_and!; try done; try by rewrite bool_decide_eq_true_2.
Qed.

Lemma mismatch_failure evs : existsb is_mismatch evs = true -> existsb is_failure evs = true.
Proof.
  rewrite !existsb_exists. intros (ev & H & E). exists ev. split; [done|]. by destruct ev.
Qed.

(** The reported sync state depends only on the history of sync and
    resolution events: "error" while the namespace is unresolved or anything
    failed since the last successful sync, "waiting" while peers are expected
    and none is connected or none has synced yet, "ok" otherwise.  In
    particular a resolution failure that has since been repaired keeps the
    state at "error" until a peer sync succeeds. *)
Theorem kv_status_reports_history evs resolved expected peers :
  Forall event_ok evs ->
  let h := foldl applyEvent noHealth evs in
  (syncState (resolved && bool_decide (hReadyError h = "")) expected peers h).1
    = reported resolved expected peers evs.
Proof.
  intros Hok. destruct (health_history evs Hok) as (E1 & E2 & E3 & E4). cbn zeta in *.
  unfold syncState, reported. rewrite E1, E2, E3, E4.
  destruct (negb (resolved && _)); [done|].
  destruct (existsb is_mismatch _) eqn:Em; [by rewrite mismatch_failure|].
  destruct (existsb is_failure _); [done|].
  destruct (0 <? expected), (peers =? 0), (existsb is_success evs); done.
Qed.

Lemma kv_status_reports_history_witness :
  (syncState (true && true) 0 0
     (foldl applyEvent noHealth [EvResolveError 5 "disk"; EvResolved])).1 = "error".
Proof.
  exact (kv_status_reports_history [EvResolveError 5 "disk"; EvResolved] true 0 0
    ltac:(repeat constructor; discriminate)).
Defined.
