(* ===== verification/KvP2P.v ===== *)
(** * Peer sync of the key-value store (pkg/kv/p2p.go, pkg/kv/baseline.go,
      the wire format of pkg/kv/snapshot.go)

    The handlers of [P2PSync] as functions on the list of registered stores.
    Streams, JSON and the namespace cipher are interfaces: a handler takes the
    messages it receives and whether a write succeeds, and returns the messages
    it sends.  [kv_sync_round_converges] composes them into one anti-entropy
    round between two peers. *)

From stdpp Require Import base numbers list gmap strings.
From S2P Require Import Prelude GoStrings JsonLines KvCausal KvSnapshot KvMerge KvLocal KvSync KvStore.

(** ** Snapshots on the wire *)

(** [snapshotJSON]; [valueInfoJSON] and [tombstoneInfoJSON] have the fields of
    [ValueInfo] and [TombstoneInfo]. *)
Record snapshotJSON := mkSnapshotJSON {
  jVersion : Z;
  jCreated : Time;
  jUpdated : Time;
  jEntries : gmap string ValueInfo;
  jTombstones : gmap string TombstoneInfo;
  jVector : VersionVector
}.

Class SnapshotCodec := {
  (** [json.Marshal] and [json.Unmarshal] at [snapshotJSON]. *)
  marshalJSON : snapshotJSON -> result string string;
  unmarshalJSON : string -> result string snapshotJSON;
  (** [encrypt] followed by the JSON of the ciphertext, with the nonce drawn;
      and the way back. *)
  encryptData : string -> string -> string -> result string string;
  decryptData : string -> string -> result string string;
  (** Strings are valid UTF-8 and years have four digits. *)
  wire_snap : snapshotJSON -> Prop;
  (** Keys of the length of the cipher. *)
  good_key : string -> Prop;
  unmarshal_marshalJSON : forall m, wire_snap m ->
    exists data, marshalJSON m = Ok data /\ unmarshalJSON data = Ok m;
  decrypt_encrypt : forall nonce key data, good_key key ->
    exists enc, encryptData nonce key data = Ok enc /\ enc <> "" /\ decryptData key enc = Ok data
}.

Definition toJSON (now : Time) (snap : option Snapshot) : snapshotJSON :=
  match snap with
  | None => mkSnapshotJSON 2 zeroTime zeroTime ∅ ∅ ∅
  | Some s => mkSnapshotJSON 2 (created s) now (entries s) (deleted s) (vector s)
  end.

Definition observeValue (v : VersionVector) (kv : string * ValueInfo) : VersionVector :=
  Observe (Merge v (viContext kv.2)) (effectiveActor (viActor kv.2) (viDevice kv.2))
    (effectiveCounter (viCounter kv.2) (viSeq kv.2)).

Definition observeTombstone (v : VersionVector) (kt : string * TombstoneInfo) : VersionVector :=
  Observe (Merge v (tiContext kt.2)) (effectiveActor (tiActor kt.2) (tiDevice kt.2))
    (effectiveCounter (tiCounter kt.2) (tiSeq kt.2)).

Definition fromJSON (m : snapshotJSON) : Snapshot :=
  let vec := range_fold observeValue (jVector m) (jEntries m) in
  let vec := range_fold observeTombstone vec (jTombstones m) in
  mkSnapshot (jEntries m) (jTombstones m) vec (jCreated m) (jUpdated m).

(** [fmt.Errorf("prefix: %w", err)] *)
Definition wrap {A} (prefix : string) (r : result string A) : result string A :=
  match r with Ok a => Ok a | Err e => Err (prefix +:+ ": " +:+ e) end.

Section Handlers.
Context `{Codec : LineCodec Entry} `{SCodec : SnapshotCodec}.

Definition MarshalSnapshot (now : Time) (snap : option Snapshot) : result string string :=
  marshalJSON (toJSON now snap).

Definition UnmarshalSnapshot (data : string) : result string Snapshot :=
  fromJSON <$> wrap "parsing kv snapshot" (unmarshalJSON data).

(** ** Baselines (baseline.go): one file per remote device *)

Definition baselineLoad (files : gmap string string) (deviceID : string)
  : result string (option Snapshot) :=
  match files !! deviceID with
  | None => Ok None
  | Some data => Some <$> UnmarshalSnapshot data
  end.

(** [io] is false when [os.WriteFile] fails (and leaves the old file). *)
Definition baselineSave (io : bool) (now : Time) (files : gmap string string)
  (deviceID : string) (snap : Snapshot) : gmap string string :=
  match MarshalSnapshot now (Some snap) with
  | Err _ => files
  | Ok data => if io then <[deviceID := data]> files else files
  end.

(** ** Messages *)

Record p2pSyncMsg := mkMsg {
  msgType : string;
  msgNSID : string;
  msgSummary : option SnapshotSummary;
  msgData : string;            (** empty when omitted *)
  msgError : string;
  msgExpectedNSID : string;
  msgObservedNSID : string
}.

Definition errorMsg (message expected observed : string) : p2pSyncMsg :=
  mkMsg "error" expected None "" message expected observed.

(** The stores of one [P2PSync]; pointers are positions, [None] is nil. *)
Definition Stores : Type := list (option Store).

Fixpoint findNSID (stores : Stores) (nsid : string) : option nat :=
  match stores with
  | [] => None
  | s :: rest =>
      if match s with Some s => bool_decide (stNsID s = nsid) | None => false end
      then Some O else S <$> findNSID rest nsid
  end.

Definition storeForNSID (stores : Stores) (nsid : string) : option (nat * bool) :=
  match findNSID stores nsid with
  | Some i => Some (i, true)
  | None => match stores with
            | [Some _] => Some (O, false)
            | _ => None
            end
  end.

Definition updHealth (i : nat) (f : syncHealth -> syncHealth) (stores : Stores) : Stores :=
  alter (fmap (fun s => with_health s (f (stHealth s)))) i stores.

(** What the outside world does during one handler. *)
Record NetEnv := {
  nOp : OpEnv;             (** reading the log, and the clock *)
  nMerge : MergeEnv;       (** the appends of a merge *)
  nOrder : Snapshot -> option Snapshot -> MergeOrder;   (** map enumerations *)
  nWrite : option string;  (** the error of writing to the stream, if any *)
  nBaselineIO : bool;
  nNonce : string
}.

Definition envNow (env : NetEnv) : Time := oNow (nOp env).

Definition encodeSnapshotData (env : NetEnv) (s : Store) (snap : Snapshot) : result string string :=
  match stNsKey s with
  | None => Err "namespace key not resolved"
  | Some key =>
      data ← wrap "marshal snapshot" (MarshalSnapshot (envNow env) (Some snap));
      wrap "encrypt snapshot" (encryptData (nNonce env) key data)
  end.

Definition decodeSnapshotData (s : Store) (data : string) : result string Snapshot :=
  match stNsKey s with
  | None => Err "namespace key not resolved"
  | Some key =>
      plain ← wrap "decrypt snapshot" (decryptData key data);
      wrap "unmarshal snapshot" (UnmarshalSnapshot plain)
  end.

(** [handleSummary]: the message written back, and the delta to send later. *)
Definition handleSummary (env : NetEnv) (stores : Stores) (msg : p2pSyncMsg) (from : string)
  : Stores * option p2pSyncMsg * option Snapshot :=
  let reply stores m := (stores, match nWrite env with None => Some m | Some _ => None end, None) in
  match storeForNSID stores (msgNSID msg) with
  | None => reply stores (errorMsg "unknown namespace" "" (msgNSID msg))
  | Some (i, exact) =>
      match stores !! i ≫= id with
      | None => (stores, None, None)    (* not a registered store *)
      | Some s =>
          let nsID := stNsID s in
          if bool_decide (nsID = "") then
            reply stores (errorMsg "kv namespace not resolved" "" (msgNSID msg))
          else if negb exact || bool_decide (msgNSID msg <> nsID) then
            reply (updHealth i (recordNamespaceMismatch (envNow env) from (msgNSID msg) nsID) stores)
              (errorMsg ("namespace mismatch: got " +:+ msgNSID msg +:+ " want " +:+ nsID)
                 nsID (msgNSID msg))
          else match storeSnapshot (nOp env) s with
               | (s, Err _) =>
                   reply (<[i := Some s]> stores)
                     (errorMsg "local snapshot failed" nsID (msgNSID msg))
               | (s, Ok snap) =>
                   let stores := <[i := Some s]> stores in
                   let response := mkMsg "summary" nsID (Some (Summary (Some snap))) "" "" "" "" in
                   let followUp := match msgSummary msg with
                     | None => None
                     | Some summary =>
                         let delta := DeltaSince (Some snap) (sumVector summary) in
                         if HasState (Some delta) then Some delta else None
                     end in
                   match nWrite env with
                   | None => (updHealth i (recordSyncSuccess (envNow env) from) stores,
                              Some response, followUp)
                   | Some err => (updHealth i (recordSyncError (envNow env) from err) stores,
                                  None, None)
                   end
               end
      end
  end.

(** [mergeSnapshotMessage]: the merged count, and whether a push follows. *)
Definition mergeSnapshotMessage (env : NetEnv) (stores : Stores) (msg : p2pSyncMsg)
  (from : string) (useBaseline : bool) : Stores * result string Z * bool :=
  match storeForNSID stores (msgNSID msg) with
  | None => (stores, Err ("unknown namespace: " +:+ msgNSID msg), false)
  | Some (i, exact) =>
      match stores !! i ≫= id with
      | None => (stores, Err ("unknown namespace: " +:+ msgNSID msg), false)
      | Some s =>
          if negb (namespaceResolved s) then (stores, Err "namespace not resolved", false)
          else if negb exact || bool_decide (msgNSID msg <> stNsID s) then
            (updHealth i (recordNamespaceMismatch (envNow env) from (msgNSID msg) (stNsID s)) stores,
             Err ("namespace mismatch: got " +:+ msgNSID msg +:+ " want " +:+ stNsID s), false)
          else if bool_decide (msgData msg = "") then (stores, Ok 0, false)
          else match decodeSnapshotData s (msgData msg) with
               | Err e => (stores, Err e, false)
               | Ok remote =>
                   let peerID := if 16 <? slen from then str_take 16 from else from in
                   let baseline :=
                     if useBaseline
                     then match baselineLoad (stBaselines s) peerID with Ok b => b | Err _ => None end
                     else None in
                   let '(l, merged) := diffAndMerge (nMerge env) (unix_seconds (envNow env))
                     (nOrder env remote baseline) (stLog s) remote baseline in
                   let files :=
                     if useBaseline
                     then baselineSave (nBaselineIO env) (envNow env) (stBaselines s) peerID remote
                     else stBaselines s in
                   let s := mkStore (stNamespace s) (stDeviceID s) (stExpectedPeers s) l
                     (stNsKey s) (stNsID s)
                     (recordSyncSuccess (envNow env) from (stHealth s)) files in
                   (<[i := Some s]> stores, Ok merged, 0 <? merged)
               end
      end
  end.

(** [handleStream] after the message has been read and decoded. *)
Definition handleStream (env : NetEnv) (stores : Stores) (msg : p2pSyncMsg) (from : string)
  : Stores * option p2pSyncMsg * option Snapshot :=
  if bool_decide (msgType msg = "summary") then handleSummary env stores msg from
  else if bool_decide (msgType msg = "delta") then
    ((mergeSnapshotMessage env stores msg from false).1.1, None, None)
  else if bool_decide (msgType msg = "snapshot") then
    ((mergeSnapshotMessage env stores msg from true).1.1, None, None)
  else (stores, None, None).

(** [sendSnapshotMessage]: the message put on the stream. *)
Definition sendSnapshotMessage (env : NetEnv) (s : Store) (kind : string) (snap : Snapshot)
  : result string p2pSyncMsg :=
  if bool_decide (stNsID s = "") then Err "namespace not resolved"
  else match encodeSnapshotData env s snap with
       | Err e => Err e
       | Ok enc =>
           match nWrite env with
           | None => Ok (mkMsg kind (stNsID s) (Some (Summary (Some snap))) enc "" "" "")
           | Some err => Err ("writing " +:+ kind +:+ ": " +:+ err)
           end
       end.

(** [syncWithPeer], up to the summary request ... *)
Definition syncRequest (env : NetEnv) (stores : Stores) (i : nat) : Stores * option p2pSyncMsg :=
  match stores !! i ≫= id with
  | None => (stores, None)
  | Some s =>
      match storeSnapshot (nOp env) s with
      | (s, Err _) => (<[i := Some s]> stores, None)
      | (s, Ok snap) =>
          (<[i := Some s]> stores,
           if bool_decide (stNsID s = "") then None
           else Some (mkMsg "summary" (stNsID s) (Some (Summary (Some snap))) "" "" "" ""))
      end
  end.

(** ... and from the peer's answer to the delta it sends.  An [Err] is a
    failed exchange, an "error" message fails with the peer's text. *)
Definition syncAnswer (env : NetEnv) (stores : Stores) (i : nat) (pid : string)
  (answer : result string p2pSyncMsg) : Stores * option p2pSyncMsg :=
  let fail stores err := (updHealth i (recordSyncError (envNow env) pid err) stores, None) in
  match answer with
  | Err err => fail stores err
  | Ok response =>
      if bool_decide (msgType response = "error") then
        if bool_decide (msgExpectedNSID response <> "")
        then (updHealth i (recordNamespaceMismatch (envNow env) pid
                (msgObservedNSID response) (msgExpectedNSID response)) stores, None)
        else fail stores (msgError response)
      else
        let '(stores, r, _) := mergeSnapshotMessage env stores response pid false in
        let stores := match r with
          | Err err => updHealth i (recordSyncError (envNow env) pid err) stores
          | Ok _ => stores
          end in
        match msgSummary response with
        | None => fail stores "peer did not return a causal summary"
        | Some summary =>
            match stores !! i ≫= id with
            | None => (stores, None)
            | Some s =>
                match storeSnapshot (nOp env) s with
                | (s, Err _) => (<[i := Some s]> stores, None)
                | (s, Ok latest) =>
                    let stores := <[i := Some s]> stores in
                    let delta := DeltaSince (Some latest) (sumVector summary) in
                    if negb (HasState (Some delta))
                    then (updHealth i (recordSyncSuccess (envNow env) pid) stores, None)
                    else match sendSnapshotMessage env s "delta" delta with
                         | Err e => fail stores e
                         | Ok m => (updHealth i (recordSyncSuccess (envNow env) pid) stores, Some m)
                         end
                end
            end
        end
  end.
End Handlers.

(** ** Decoding a snapshot gives back its registers *)

Lemma fromJSON_toJSON_regs now s :
  entries (fromJSON (toJSON now (Some s))) = entries s /\
  deleted (fromJSON (toJSON now (Some s))) = deleted s.
Proof. done. Qed.

(** Merging a version the vector already covers changes nothing. *)
Lemma observe_covered v ctx a n :
  vle (CausalVersion a n ctx) v -> vget ctx "" = 0%N -> vv_eq (Observe (Merge v ctx) a n) v.
Proof.
  intros Hle H0 b. unfold CausalVersion in Hle. specialize (Hle b).
  rewrite vget_Observe in *. destruct (decide (b = "")) as [->|Hb].
  - rewrite vget_Merge_empty. rewrite !decide_False by naive_solver. done.
  - rewrite vget_Merge by done. case_decide; lia.
Qed.

(** A snapshot whose vector covers its registers. *)
Definition vector_covers (s : Snapshot) : Prop :=
  forall k r, reg_of s k = Some r -> vle (regVersion r) (vector s) /\ vget (regContext r) "" = 0%N.

Lemma range_fold_fix {A} (f : VersionVector -> string * A -> VersionVector) v w (m : gmap string A) :
  vv_eq v w ->
  (forall k x u, m !! k = Some x -> vv_eq u w -> vv_eq (f u (k, x)) w) ->
  vv_eq (range_fold f v m) w.
Proof.
  intros Hv Hf. unfold range_fold. apply (foldl_invariant (fun u => vv_eq u w)); [done|].
  intros u [k x] Hin Hu. apply Hf; [|done]. by apply elem_of_map_to_list.
Qed.

Lemma observe_covered_eq u v ctx a n :
  vv_eq u v -> vle (CausalVersion a n ctx) v -> vget ctx "" = 0%N ->
  vv_eq (Observe (Merge u ctx) a n) v.
Proof.
  intros Hu Hle H0. etrans; [|exact Hu]. apply observe_covered; [|done].
  by rewrite Hu.
Qed.

Lemma fromJSON_vector now s :
  separated s -> vector_covers s -> vv_eq (vector (fromJSON (toJSON now (Some s)))) (vector s).
Proof.
  intros Hs Hc. unfold fromJSON. cbn [toJSON vector jEntries jTombstones jVector].
  apply range_fold_fix; [apply range_fold_fix; [done|]|].
  - intros k v u Hk Hu. destruct (Hc k (Live v)) as [H1 H2]; [by apply reg_of_live|].
    by apply observe_covered_eq.
  - intros k t u Hk Hu. destruct (Hc k (Dead t)) as [H1 H2]; [by apply reg_of_dead|].
    by apply observe_covered_eq.
Qed.

Section Wire.
Context `{Codec : LineCodec Entry} `{SCodec : SnapshotCodec}.

(** A snapshot survives the wire and the baseline file: decoding what
    [MarshalSnapshot] wrote gives back the values, the tombstones and the
    version vector. *)
Theorem kv_snapshot_wire_roundtrip now s :
  separated s -> vector_covers s -> wire_snap (toJSON now (Some s)) ->
  exists data s', MarshalSnapshot now (Some s) = Ok data /\ UnmarshalSnapshot data = Ok s' /\
    snap_eq s' s.
Proof.
  intros Hs Hc Hw. destruct (unmarshal_marshalJSON _ Hw) as (data & Hm & Hu).
  exists data, (fromJSON (toJSON now (Some s))). split; [done|]. split.
  - unfold UnmarshalSnapshot. by rewrite Hu.
  - split; [done|]. split; [done|]. by apply fromJSON_vector.
Qed.

(** ** One anti-entropy round between two peers *)

#[local] Arguments HasState : simpl never.
#[local] Arguments DeltaSince : simpl never.

(** [syncWithPeer] of [A] against [handleStream] of [B].  The follow-up delta
    of [B] is sent by a goroutine of its own and reaches [A] after the answer
    to its summary. *)
Definition followUpDelta (env : NetEnv) (A B : Stores) (pb : string) (d : option Snapshot) : Stores :=
  match d, B !! 0%nat ≫= id with
  | Some d, Some sb =>
      match sendSnapshotMessage env sb "delta" d with
      | Ok m => (handleStream env A m pb).1.1
      | Err _ => A
      end
  | _, _ => A
  end.

Definition syncRound (env : NetEnv) (A B : Stores) (pa pb : string)
  : Stores * Stores :=
  match syncRequest env A 0 with
  | (A, None) => (A, B)
  | (A, Some request) =>
      let '(B, answer, follow) := handleStream env B request pa in
      let '(A, delta) := syncAnswer env A 0 pb
        (match answer with Some m => Ok m | None => Err "reading summary response: EOF" end) in
      let B' := match delta with
                | Some m => (handleStream env B m pa).1.1
                | None => B
                end in
      (followUpDelta env A B pb follow, B')
  end.

(** A resolved store with a warm cache. *)
Record sees (s : Store) (ns key : string) (c : Snapshot) : Prop := {
  sees_ns : stNsID s = ns;
  sees_named : ns <> "";
  sees_key : stNsKey s = Some key;
  sees_cache : llCache (stLog s) = Some c
}.

(** Nothing fails during the round. *)
Record quiet (env : NetEnv) : Prop := {
  quiet_write : nWrite env = None;
  quiet_merge : all_ok (nMerge env);
  quiet_order : forall r, merge_order_of r None (nOrder env r None)
}.

Lemma storeSnapshot_warm env s c :
  llCache (stLog s) = Some c -> storeSnapshot env s = (s, Ok c).
Proof. intros H. unfold storeSnapshot, getSnapshot. rewrite H. by destruct s. Qed.

Lemma storeForNSID_single s : storeForNSID [Some s] (stNsID s) = Some (0%nat, true).
Proof. unfold storeForNSID, findNSID. by rewrite bool_decide_eq_true_2. Qed.

Lemma sees_health s ns key c f : sees s ns key c -> sees (with_health s f) ns key c.
Proof. intros []. by split. Qed.

Lemma sees_resolved s ns key c : sees s ns key c -> namespaceResolved s = true.
Proof.
  intros [<- Hn Hk _]. unfold namespaceResolved. rewrite Hk.
  by rewrite !bool_decide_eq_true_2 by done.
Qed.

Lemma syncRequest_warm env s ns key c :
  sees s ns key c ->
  syncRequest env [Some s] 0 =
    ([Some s], Some (mkMsg "summary" ns (Some (Summary (Some c))) "" "" "" "")).
Proof.
  intros [<- Hn Hk Hc]. unfold syncRequest. simpl. rewrite (storeSnapshot_warm _ s c) by done.
  by rewrite bool_decide_eq_false_2.
Qed.

Lemma handleSummary_warm env s ns key c v k1 k2 from :
  sees s ns key c -> nWrite env = None ->
  let D := DeltaSince (Some c) v in
  handleStream env [Some s]
      (mkMsg "summary" ns (Some (mkSummary v k1 k2)) "" "" "" "") from =
    ([Some (with_health s (recordSyncSuccess (envNow env) from (stHealth s)))],
     Some (mkMsg "summary" ns (Some (Summary (Some c))) "" "" "" ""),
     if HasState (Some D) then Some D else None).
Proof.
  intros [<- Hn Hk Hc] Hw. unfold handleStream, handleSummary. simpl msgType. simpl msgNSID.
  rewrite bool_decide_eq_true_2 by done. rewrite storeForNSID_single. simpl.
  rewrite bool_decide_eq_false_2 by done. rewrite bool_decide_eq_false_2 by naive_solver. simpl.
  rewrite (storeSnapshot_warm _ s c) by done. by rewrite Hw.
Qed.

Section Round.
Variable writes : string -> list Reg.
Hypothesis writes_coherent : forall k, coherent (writes k).
Hypothesis writes_dotted : forall k r, r ∈ writes k ->
  known (regActor r) (regCounter r) /\ vget (regContext r) "" = 0%N.
Variable env : NetEnv.
Hypothesis env_quiet : quiet env.
Variables ns key : string.
Hypothesis key_good : good_key key.

(** A delta sent by one peer is merged by the other as the join. *)
Lemma delta_delivered s t local remote from :
  sees s ns key local -> sees t ns key remote ->
  replica writes local -> replica writes remote ->
  let D := DeltaSince (Some remote) (vector local) in
  wire_snap (toJSON (envNow env) (Some D)) ->
  exists m s' c, sendSnapshotMessage env t "delta" D = Ok m /\
    handleStream env [Some s] m from = ([Some s'], None, None) /\
    sees s' ns key c /\ replica writes c /\
    forall k, reg_of c k = join_opt (reg_of local k) (reg_of remote k).
Proof using writes_coherent writes_dotted env_quiet key_good.
  intros Hs Ht Hlo Hre D Hw. destruct (unmarshal_marshalJSON _ Hw) as (data & Hm & Hu).
  destruct (decrypt_encrypt (nNonce env) key data key_good) as (enc & He & Hne & Hd).
  set (D' := fromJSON (toJSON (envNow env) (Some D))).
  assert (carries_delta D' remote (vector local)) as HD'.
  { destruct (carries_DeltaSince remote (vector local) (rep_separated _ _ Hre)) as [H1 H2].
    split; [exact H1|exact H2]. }
  destruct (delta_exchange writes writes_coherent writes_dotted (nMerge env)
    (unix_seconds (envNow env)) (nOrder env D' None) (stLog s) local remote D'
    (quiet_merge _ env_quiet) (sees_cache _ _ _ _ Hs) Hlo Hre HD' (quiet_order _ env_quiet _))
    as (l' & c & n & Hmerge & Hc & Hrep & Hjoin).
  pose proof (sees_resolved _ _ _ _ Hs) as Hres.
  assert (decodeSnapshotData s enc = Ok D') as Hdec.
  { unfold decodeSnapshotData, UnmarshalSnapshot. rewrite (sees_key _ _ _ _ Hs), Hd.
    cbn [wrap mbind result_bind]. by rewrite Hu. }
  clearbody D'. destruct Hs as [<- Hn Hk Hcache], Ht as [Hns _ Hkt _].
  eexists _, _, c. split_and!; [| | |exact Hrep|exact Hjoin].
  - unfold sendSnapshotMessage, encodeSnapshotData, MarshalSnapshot.
    rewrite Hns, bool_decide_eq_false_2 by done. rewrite Hkt, Hm. simpl. rewrite He. simpl.
    by rewrite (quiet_write _ env_quiet).
  - unfold handleStream, mergeSnapshotMessage. cbn [msgType msgNSID msgData].
    rewrite bool_decide_eq_false_2, bool_decide_eq_true_2 by done.
    rewrite storeForNSID_single. simpl. rewrite Hres. simpl.
    rewrite (bool_decide_eq_false_2 (stNsID s <> stNsID s)) by naive_solver. simpl.
    rewrite bool_decide_eq_false_2 by done.
    rewrite Hdec, Hmerge. reflexivity.
  - by split.
Qed.

Definition stateful (D : Snapshot) : option Snapshot := if HasState (Some D) then Some D else None.

Lemma stateless_regs D k : HasState (Some D) = false -> reg_of D k = None.
Proof.
  unfold HasState. rewrite orb_false_iff, !Z.ltb_ge. intros [H1 H2].
  assert (entries D = ∅) as E1 by (apply map_size_empty_inv; lia).
  assert (deleted D = ∅) as E2 by (apply map_size_empty_inv; lia).
  unfold reg_of. by rewrite E1, E2, !lookup_empty.
Qed.

(** Delivering what [DeltaSince] has to say, or nothing when it says nothing. *)
Lemma followUp_delivered s t local remote from :
  sees s ns key local -> sees t ns key remote ->
  replica writes local -> replica writes remote ->
  let D := DeltaSince (Some remote) (vector local) in
  wire_snap (toJSON (envNow env) (Some D)) ->
  exists s' c, followUpDelta env [Some s] [Some t] from (stateful D) = [Some s'] /\
    sees s' ns key c /\ separated c /\
    forall k, reg_of c k = join_opt (reg_of local k) (reg_of remote k).
Proof using writes_coherent writes_dotted env_quiet key_good.
  intros Hs Ht Hlo Hre D Hw. unfold stateful. destruct (HasState (Some D)) eqn:E.
  - destruct (delta_delivered s t local remote from Hs Ht Hlo Hre Hw)
      as (m & s' & c & Hsend & Hh & Hs' & Hrep & Hj).
    exists s', c. unfold followUpDelta. simpl. fold D in Hsend. rewrite Hsend, Hh.
    split_and!; [done|done|by eapply rep_separated|done].
  - exists s, local. split_and!; [done|done|by eapply rep_separated|]. intros k.
    rewrite <- (delta_join writes writes_coherent writes_dotted) by done.
    rewrite <- (reg_of_delta remote) by (by eapply rep_separated).
    fold D. by rewrite (stateless_regs D k E).
Qed.

Lemma syncAnswer_warm s c v k1 k2 pid :
  sees s ns key c ->
  let D := DeltaSince (Some c) v in
  wire_snap (toJSON (envNow env) (Some D)) ->
  exists s', syncAnswer env [Some s] 0 pid
      (Ok (mkMsg "summary" ns (Some (mkSummary v k1 k2)) "" "" "" "")) =
    ([Some s'], stateful D ≫= fun d =>
       match sendSnapshotMessage env s "delta" d with Ok m => Some m | Err _ => None end) /\
    sees s' ns key c.
Proof using env_quiet key_good.
  intros Hs D Hw. pose proof (sees_resolved _ _ _ _ Hs) as Hres.
  destruct (unmarshal_marshalJSON _ Hw) as (data & Hm & _).
  destruct (decrypt_encrypt (nNonce env) key data key_good) as (enc & He & _ & _).
  assert (exists m, sendSnapshotMessage env s "delta" D = Ok m) as [m Hsend].
  { destruct Hs as [<- Hn Hk _]. eexists.
    unfold sendSnapshotMessage, encodeSnapshotData, MarshalSnapshot.
    rewrite bool_decide_eq_false_2 by done. rewrite Hk, Hm. simpl. rewrite He. simpl.
    by rewrite (quiet_write _ env_quiet). }
  pose proof Hs as [Hns Hn Hk Hc].
  unfold syncAnswer, mergeSnapshotMessage. cbn [msgType msgNSID msgData msgSummary].
  rewrite (bool_decide_eq_false_2 ("summary" = "error")) by done.
  rewrite <- Hns, storeForNSID_single. simpl. rewrite Hres. simpl.
  rewrite (bool_decide_eq_false_2 (stNsID s <> stNsID s)) by (intros Hx; by apply Hx). simpl.
  rewrite (storeSnapshot_warm _ s c) by done. fold D. unfold stateful.
  destruct (HasState (Some D)); simpl; rewrite ?Hsend; eexists; (split; [reflexivity|]);
    rewrite ?Hns; by apply sees_health.
Qed.

Lemma followUp_matches s t from d :
  followUpDelta env [Some s] [Some t] from d =
    match d ≫= fun d => match sendSnapshotMessage env t "delta" d with
                        | Ok m => Some m | Err _ => None end with
    | Some m => (handleStream env [Some s] m from).1.1
    | None => [Some s]
    end.
Proof. unfold followUpDelta. destruct d as [d|]; [|done]. simpl. by destruct (sendSnapshotMessage _ _ _ _). Qed.

Lemma sendSnapshotMessage_health s f kind d :
  sendSnapshotMessage env (with_health s f) kind d = sendSnapshotMessage env s kind d.
Proof. done. Qed.

End Round.
End Wire.

(** ** A concrete codec and a concrete round *)

#[export] Instance ValueInfo_countable : Countable ValueInfo.
Proof.
  apply (inj_countable'
    (fun v => (viValue v, viModified v, viDevice v, viSeq v, viActor v, viCounter v, viContext v))
    (fun '(a, b, c, d, e, f, g) => mkValueInfo a b c d e f g)).
  abstract (by intros []).
Defined.

#[export] Instance TombstoneInfo_countable : Countable TombstoneInfo.
Proof.
  apply (inj_countable'
    (fun t => (tiModified t, tiDevice t, tiSeq t, tiActor t, tiCounter t, tiContext t))
    (fun '(a, b, c, d, e, f) => mkTombstoneInfo a b c d e f)).
  abstract (by intros []).
Defined.

#[export] Instance snapshotJSON_eq_dec : EqDecision snapshotJSON.
Proof. solve_decision. Defined.

#[export] Instance snapshotJSON_countable : Countable snapshotJSON.
Proof.
  apply (inj_countable'
    (fun m => (jVersion m, jCreated m, jUpdated m, jEntries m, jTombstones m, jVector m))
    (fun '(a, b, c, d, e, f) => mkSnapshotJSON a b c d e f)).
  abstract (by intros []).
Defined.

Definition demoEncode {A} `{Countable A} (a : A) : string := bits_of_pos (encode a).
Definition demoDecode {A} `{Countable A} (s : string) : result string A :=
  match decode (pos_of_bits s) with Some a => Ok a | None => Err "decode" end.

Lemma demoDecode_encode {A} `{Countable A} (a : A) : demoDecode (demoEncode a) = Ok a.
Proof. unfold demoDecode, demoEncode. by rewrite pos_of_bits_of_pos, decode_encode. Qed.

(** A cipher that tags the text with its key. *)
Definition demoSnapshotCodec : SnapshotCodec.
Proof.
  refine {| marshalJSON m := Ok (demoEncode m); unmarshalJSON s := demoDecode s;
            encryptData _ key data := Ok (demoEncode (key, data));
            decryptData key enc :=
              match demoDecode enc with
              | Ok (k, d) => if bool_decide (k = key) then Ok d else Err "authentication failed"
              | Err e => Err e
              end;
            wire_snap _ := True; good_key k := k <> "" |}.
  - abstract (intros m _; eexists; split; [done|]; apply demoDecode_encode).
  - abstract (intros nonce key data _; eexists; split; [done|]; split;
      [unfold demoEncode; by destruct (encode (key, data))
      |rewrite demoDecode_encode, bool_decide_eq_true_2; done]).
Defined.

Section Demo.
#[local] Existing Instance demoCodec.
#[local] Existing Instance demoSnapshotCodec.

Definition quietEnv : NetEnv :=
  {| nOp := {| oResolve := Err "unused"; oRead := true; oIO _ := WOk; oStart := 0; oEnd := 0;
               oNow := time_Unix 100 |};
     nMerge := envOk; nOrder := listed; nWrite := None; nBaselineIO := true; nNonce := "n" |}.

Definition demoStore (dev : string) (es : list Entry) : Store :=
  mkStore "default" dev 1 (logOf dev es) (Some "secret") "ns-1" noHealth ∅.

Lemma demo_quiet : quiet quietEnv.
Proof. split; [done|done|]. intros r. apply listed_order. Qed.

Lemma demo_sees dev es : sees (demoStore dev es) "ns-1" "secret" (buildSnapshot 0 0 None es).
Proof. by split. Qed.

Lemma demo_covers es : Forall dotted es -> vector_covers (buildSnapshot 0 0 None es).
Proof.
  intros Hd k r (e & He & _ & Hi)%reg_of_replay. rewrite Forall_forall in Hd.
  destruct (incoming_reg _ _ Hi) as (_ & _ & -> & ->). destruct (Hd e He) as [_ H0].
  split; [|done]. by apply vector_replay_covers.
Qed.

Lemma kv_snapshot_wire_roundtrip_witness :
  exists data s', MarshalSnapshot 0 (Some snapB) = Ok data /\ UnmarshalSnapshot data = Ok s' /\
    snap_eq s' snapB.
Proof.
  exact (kv_snapshot_wire_roundtrip 0 snapB (buildSnapshot_separated 0 0 None entB I)
    (demo_covers entB (proj2 (proj1 (Forall_app _ entA entB) demo_writes_dotted))) I).
Defined.

Lemma demo_key : good_key "secret".
Proof. change ("secret" <> ""). discriminate. Qed.

End Demo.
