(* ===== verification/KvPush.v ===== *)
(** * Push rounds and wire framing of the peer sync (pkg/kv/p2p.go)

    [PushToAll] starts a goroutine running [runPushLoop] unless one is already
    running, and then only marks that another round is wanted.  The two
    critical sections of [pushMu] are the atomic steps of [push_step].
    [writeMsg] and [readMsg] frame one message on a stream. *)

From stdpp Require Import base numbers list sets strings.
From S2P Require Import Prelude GoStrings.

(** ** The push loop *)

(** Where a goroutine of [runPushLoop] is: about to begin a round, inside
    [runPushRound], or in the select on the coalescing timer. *)
Inductive LoopPhase := Starting | InRound | Waiting.

#[export] Instance LoopPhase_eq_dec : EqDecision LoopPhase.
Proof. solve_decision. Defined.

(** [loops] are the goroutines alive; [unserved] is history: a trigger came
    after the last round began. *)
Record PushState := mkPush {
  pushRunning : bool;
  pushPending : bool;
  loops : list LoopPhase;
  unserved : bool
}.

Definition pushIdle : PushState := mkPush false false [] false.

Definition PushToAll (st : PushState) : PushState :=
  if pushRunning st then mkPush true true (loops st) true
  else mkPush true (pushPending st) (loops st ++ [Starting]) true.

(** The steps of goroutine [i] of [runPushLoop]. *)
Definition beginRound (i : nat) (st : PushState) : PushState :=
  mkPush (pushRunning st) (pushPending st) (<[i := InRound]> (loops st)) false.

Definition endRound (i : nat) (st : PushState) : PushState :=
  if negb (pushPending st) then mkPush false (pushPending st) (delete i (loops st)) (unserved st)
  else mkPush (pushRunning st) false (<[i := Waiting]> (loops st)) (unserved st).

Definition timerFires (i : nat) (st : PushState) : PushState :=
  mkPush (pushRunning st) (pushPending st) (<[i := Starting]> (loops st)) (unserved st).

Definition ctxDone (i : nat) (st : PushState) : PushState :=
  mkPush false false (delete i (loops st)) (unserved st).

Inductive push_event := EvTrigger | EvBegin (i : nat) | EvEnd (i : nat) | EvTimer (i : nat) | EvCancel (i : nat).

Inductive push_step : PushState -> push_event -> PushState -> Prop :=
| push_trigger st : push_step st EvTrigger (PushToAll st)
| push_begin st i : loops st !! i = Some Starting -> push_step st (EvBegin i) (beginRound i st)
| push_end st i : loops st !! i = Some InRound -> push_step st (EvEnd i) (endRound i st)
| push_timer st i : loops st !! i = Some Waiting -> push_step st (EvTimer i) (timerFires i st)
| push_cancel st i : loops st !! i = Some Waiting -> push_step st (EvCancel i) (ctxDone i st).

Inductive push_run : PushState -> list push_event -> PushState -> Prop :=
| run_nil st : push_run st [] st
| run_cons st ev st1 evs st2 :
    push_step st ev st1 -> push_run st1 evs st2 -> push_run st (ev :: evs) st2.

Definition is_cancel (ev : push_event) : bool :=
  match ev with EvCancel _ => true | _ => false end.

(** One goroutine while running, none otherwise; an unserved trigger is owed
    by a round that has not begun or by the pending mark. *)
Definition push_inv (st : PushState) : Prop :=
  (pushRunning st = false -> loops st = [] /\ pushPending st = false /\ unserved st = false) /\
  (pushRunning st = true -> exists ph, loops st = [ph] /\
     (unserved st = true -> ph = InRound -> pushPending st = true)).

Lemma push_inv_idle : push_inv pushIdle.
Proof. by split. Qed.

Lemma push_inv_running st i ph :
  push_inv st -> loops st !! i = Some ph ->
  pushRunning st = true /\ i = 0%nat /\ loops st = [ph] /\
  (unserved st = true -> ph = InRound -> pushPending st = true).
Proof.
  intros [H1 H2] Hi. destruct (pushRunning st); [|by destruct H1 as [E _]; rewrite ?E in Hi].
  destruct H2 as (ph' & E & Hu); [done|]. rewrite E in Hi. destruct i; [|done].
  by injection Hi as ->.
Qed.

Lemma push_step_inv st ev st' :
  is_cancel ev = false -> push_step st ev st' -> push_inv st -> push_inv st'.
Proof.
  intros Hc Hs Hi. destruct Hs as [st|st i Hl|st i Hl|st i Hl|st i Hl]; [|..|done].
  2-4: destruct (push_inv_running _ _ _ Hi Hl) as (Hr & -> & El & Hu).
  - unfold PushToAll. destruct Hi as [H1 H2]. destruct (pushRunning st).
    + destruct H2 as (ph & E & _); [done|]. split; [done|]. intros _. exists ph. by split.
    + destruct H1 as (E & _ & _); [done|]. split; [done|]. intros _.
      exists Starting. simpl. by rewrite E.
  - unfold beginRound. rewrite Hr, El. split; [done|]. intros _. by exists InRound.
  - unfold endRound. destruct (pushPending st) eqn:Ep; simpl; rewrite ?Hr, ?El.
    + split; [done|]. intros _. exists Waiting. by split.
    + split; [|done]. intros _. split_and!; try done. simpl.
      destruct (unserved st); [|done]. by specialize (Hu eq_refl eq_refl).
  - unfold timerFires. rewrite Hr, El. split; [done|]. intros _. by exists Starting.
Qed.

Lemma push_run_inv st evs st' :
  push_run st evs st' -> forallb (fun ev => negb (is_cancel ev)) evs = true ->
  push_inv st -> push_inv st'.
Proof.
  induction 1 as [|st ev st1 evs st2 Hs _ IH]; [done|]. simpl. intros [Hc Hf]%andb_prop Hi.
  apply IH; [done|]. eapply push_step_inv; [|done..]. by apply negb_true_iff.
Qed.

(** No trigger is lost while no context ends: at any time at most one
    goroutine runs rounds, and if a trigger came after the last round began,
    that goroutine's own next steps, at most three of them, begin another
    round. *)
Theorem kv_push_triggers_served evs st :
  push_run pushIdle evs st -> forallb (fun ev => negb (is_cancel ev)) evs = true ->
  (length (loops st) <= 1)%nat /\
  (unserved st = true -> exists evs' st', push_run st evs' st' /\ (length evs' <= 3)%nat /\
     last evs' = Some (EvBegin 0) /\ unserved st' = false /\ EvTrigger ∉ evs').
Proof.
  intros Hrun Hf. pose proof (push_run_inv _ _ _ Hrun Hf push_inv_idle) as [H1 H2].
  destruct st as [[] p ls u]; simpl in *.
  2: { destruct H1 as (-> & _ & ->); [done|]. simpl. split; [lia|done]. }
  destruct H2 as (ph & -> & Hu); [done|]. simpl. split; [lia|]. intros ->. destruct ph.
  - exists [EvBegin 0]. eexists. split; [by repeat econstructor|]. split_and!; try done; set_solver.
  - rewrite (Hu eq_refl eq_refl). exists [EvEnd 0; EvTimer 0; EvBegin 0]. eexists.
    split; [by repeat econstructor|]. split_and!; try done; set_solver.
  - exists [EvTimer 0; EvBegin 0]. eexists.
    split; [by repeat econstructor|]. split_and!; try done; simpl; [lia|set_solver].
Qed.

Lemma demo_push_run :
  push_run pushIdle [EvTrigger; EvBegin 0; EvTrigger; EvEnd 0] (mkPush true false [Waiting] true).
Proof. do 4 (eapply run_cons; [by constructor|]). constructor. Qed.

Lemma kv_push_triggers_served_witness :
  exists evs' st', push_run (mkPush true false [Waiting] true) evs' st' /\ (length evs' <= 3)%nat /\
     last evs' = Some (EvBegin 0) /\ unserved st' = false /\ EvTrigger ∉ evs'.
Proof.
  exact (proj2 (kv_push_triggers_served _ _ demo_push_run eq_refl) eq_refl).
Defined.

(** The context a loop runs under is the one of the call that started it:
    when that context ends during the coalescing delay, the trigger another
    caller left pending is dropped, and no goroutine is left to serve it. *)
Theorem kv_push_cancel_drops_trigger :
  exists st, push_run pushIdle
      [EvTrigger; EvBegin 0; EvTrigger; EvEnd 0; EvCancel 0] st /\
    unserved st = true /\ loops st = [] /\ pushPending st = false.
Proof.
  eexists. split; [do 5 (eapply run_cons; [by constructor|]); constructor|]. by split_and!.
Qed.

(** ** Framing *)

Definition maxSyncMessageSize : Z := 32 * 1024 * 1024.

(** The four header bytes of [writeMsg]; [uint32(len(data))] wraps. *)
Definition frameHeader (data : string) : string :=
  let length := uint32_wrap (slen data) in
  string_of_bytes [Z.shiftr length 24; Z.shiftr length 16; Z.shiftr length 8; length].

Definition writeMsg (data : string) : string := frameHeader data +:+ data.

Inductive ReadErr := ErrEOF | ErrTooLarge (length : Z).

#[export] Instance ReadErr_eq_dec : EqDecision ReadErr.
Proof. solve_decision. Defined.

(** Reading a frame of at most [maxSize] bytes from a stream: the message and the
    unread rest. *)
Definition readFrameMax (maxSize : Z) (stream : string) : result ReadErr (string * string) :=
  match read_full 4 stream with
  | None => Err ErrEOF
  | Some (header, stream) =>
      match bytes_of header with
      | [b0; b1; b2; b3] =>
          let length := Z.lor (Z.lor (Z.lor (Z.shiftl b0 24) (Z.shiftl b1 16)) (Z.shiftl b2 8)) b3 in
          if maxSize <? length then Err (ErrTooLarge length)
          else match read_full (Z.to_nat length) stream with
               | None => Err ErrEOF
               | Some (data, rest) => Ok (data, rest)
               end
      | _ => Err ErrEOF
      end
  end.

(** [readMsg] on a stream. *)
Definition readMsg (stream : string) : result ReadErr (string * string) := readFrameMax maxSyncMessageSize stream.

Lemma header_value z :
  0 <= z < 2 ^ 32 ->
  Z.lor (Z.lor (Z.lor (Z.shiftl (uint8_wrap (Z.shiftr z 24)) 24)
    (Z.shiftl (uint8_wrap (Z.shiftr z 16)) 16)) (Z.shiftl (uint8_wrap (Z.shiftr z 8)) 8))
    (uint8_wrap z) = z.
Proof.
  intros Hz. rewrite !Z.shiftr_div_pow2 by done. unfold uint8_wrap.
  assert (forall a, 0 <= a mod 2 ^ 8 < 256) as Hm by (intros a; apply (Z.mod_pos_bound a (2 ^ 8)); lia).
  pose proof (Hm z). pose proof (Hm (z / 2 ^ 8)). pose proof (Hm (z / 2 ^ 16)).
  pose proof (Hm (z / 2 ^ 24)).
  rewrite <- !Z.lor_assoc.
  rewrite (shiftl_lor _ (z mod 2 ^ 8)) by lia.
  rewrite (shiftl_lor _ (_ * 2 ^ 8 + _)) by lia. rewrite shiftl_lor by lia.
  change (2 ^ 24) with (2 ^ 16 * 2 ^ 8). change (2 ^ 16) with (2 ^ 8 * 2 ^ 8).
  rewrite <- !Z.div_div by lia.
  assert (z / 2 ^ 8 / 2 ^ 8 / 2 ^ 8 < 2 ^ 8).
  { rewrite !Z.div_div by lia. apply Z.div_lt_upper_bound; lia. }
  pose proof (Z.div_pos z (2 ^ 8) ltac:(lia) ltac:(lia)).
  pose proof (Z.div_pos (z / 2 ^ 8) (2 ^ 8) ltac:(lia) ltac:(lia)).
  pose proof (Z.div_pos (z / 2 ^ 8 / 2 ^ 8) (2 ^ 8) ltac:(lia) ltac:(lia)).
  rewrite (Z.mod_small (z / 2 ^ 8 / 2 ^ 8 / 2 ^ 8)) by lia.
  pose proof (Z.div_mod z (2 ^ 8) ltac:(lia)).
  pose proof (Z.div_mod (z / 2 ^ 8) (2 ^ 8) ltac:(lia)).
  pose proof (Z.div_mod (z / 2 ^ 8 / 2 ^ 8) (2 ^ 8) ltac:(lia)). lia.
Qed.

Lemma frame_roundtrip maxSize data rest :
  slen data < 2 ^ 32 ->
  readFrameMax maxSize (writeMsg data +:+ rest) = if maxSize <? slen data then Err (ErrTooLarge (slen data)) else Ok (data, rest).
Proof.
  intros Hlen. assert (0 <= slen data) as H0 by (unfold slen; lia).
  assert (uint32_wrap (slen data) = slen data) as Hw
    by (unfold uint32_wrap; apply Z.mod_small; lia).
  unfold writeMsg, readFrameMax. rewrite str_app_assoc.
  assert (String.length (frameHeader data) = 4%nat) as Hh by done.
  rewrite <- Hh, read_full_app. unfold frameHeader. rewrite Hw.
  cbn [string_of_bytes foldr bytes_of]. rewrite !byte_of_char, header_value by done.
  case_match; [done|]. replace (Z.to_nat (slen data)) with (String.length data) by (unfold slen; lia).
  by rewrite read_full_app.
Qed.

(** A message written by [writeMsg] is read back by [readMsg] with the
    rest of the stream untouched when it is at most 32 MiB, and is refused by
    its length when it is longer. *)
Theorem kv_frame_roundtrip data rest :
  slen data < 2 ^ 32 ->
  readMsg (writeMsg data +:+ rest) =
    if maxSyncMessageSize <? slen data then Err (ErrTooLarge (slen data)) else Ok (data, rest).
Proof. apply frame_roundtrip. Qed.

Lemma kv_frame_roundtrip_witness : readMsg (writeMsg "delta" +:+ "tail") = Ok ("delta", "tail").
Proof. exact (kv_frame_roundtrip "delta" "tail" eq_refl). Defined.
