(* ===== verification/Collections.v ===== *)
(** * Collections over a key-value store (pkg/kv/collections)

    [KVStore] is the interface the collections rely on, with the laws a store
    obeys on its own device: a write that succeeds is read back, one that fails
    changes nothing.  [Lease] is a record at one key, claimed by a read, a write
    and a read; [AppendLog] orders its entries by identifiers that sort like
    their creation times; [PayloadRef] names bytes stored elsewhere.  Clock
    readings and fresh identifiers are arguments. *)

From Stdlib Require Import Ascii.
From stdpp Require Import base numbers list gmap strings.
From S2P Require Import Prelude GoStrings GoStrconv.

(** ** The store interface (appendlog.go) *)

Class KVStore (S : Type) := {
  kvView : S -> gmap string string;       (** what [Get] returns, key by key *)
  kvSet : S -> string -> string -> S * result string unit;
  kvDelete : S -> string -> S * result string unit;
  kvSet_view s k v :
    kvView (kvSet s k v).1 = if is_ok (kvSet s k v).2 then <[k := v]> (kvView s) else kvView s;
  kvDelete_view s k :
    kvView (kvDelete s k).1 = if is_ok (kvDelete s k).2 then delete k (kvView s) else kvView s
}.

Definition kvGet {S} `{KVStore S} (s : S) (k : string) : option string := kvView s !! k.

Definition kvList {S} `{KVStore S} (s : S) (prefix : string) : list string :=
  sort_Strings (filter (fun k => HasPrefix k prefix = true) (keys_of (kvView s))).

Definition normalizeCollectionPrefix (prefix : string) : string :=
  TrimSuffix (TrimSpace prefix) "/".

(** ** Leases (lease.go) *)

Record LeaseRecord := mkLease {
  lName : string;
  lHolder : string;
  lToken : string;
  lAcquiredAt : Time;
  lExpiresAt : Time
}.

#[export] Instance LeaseRecord_eq_dec : EqDecision LeaseRecord.
Proof. solve_decision. Defined.

Definition noLease : LeaseRecord := mkLease "" "" "" zeroTime zeroTime.

(** [json.Marshal] and [json.Unmarshal] at [LeaseRecord]; the times are UTC
    with four-digit years, the strings valid UTF-8. *)
Class LeaseCodec := {
  marshalLease : LeaseRecord -> result string string;
  unmarshalLease : string -> result string LeaseRecord;
  wire_lease : LeaseRecord -> Prop;
  unmarshal_marshalLease r : wire_lease r ->
    exists data, marshalLease r = Ok data /\ unmarshalLease data = Ok r
}.

Definition Expired (r : LeaseRecord) (now : Time) : bool := negb (now <? lExpiresAt r).

Definition validateLeaseInput (name holder : string) (ttl : Duration) : result string unit :=
  if isBlank name then Err "lease name is required"
  else if isBlank holder then Err "lease holder is required"
  else if ttl <=? 0 then Err "lease ttl must be positive"
  else Ok tt.

Section Lease.
Context {S : Type} `{KV : !KVStore S} `{LC : LeaseCodec}.
Variable prefix : string.   (** already normalized *)
Implicit Types (s : S) (r : LeaseRecord).

Definition leaseKey (name : string) : string := prefix +:+ "/" +:+ name.

Definition getRaw (s : S) (name : string) : result string (LeaseRecord * bool) :=
  if isBlank name then Err "lease name is required"
  else match kvGet s (leaseKey name) with
       | None => Ok (noLease, false)
       | Some raw =>
           match unmarshalLease raw with
           | Err e => Err ("parsing lease " +:+ name +:+ ": " +:+ e)
           | Ok record => Ok (record, true)
           end
       end.

Definition leaseGet (now : Time) (s : S) (name : string) : result string (LeaseRecord * bool) :=
  if isBlank name then Err "lease name is required"
  else match kvGet s (leaseKey name) with
       | None => Ok (noLease, false)
       | Some raw =>
           match unmarshalLease raw with
           | Err e => Err ("parsing lease " +:+ name +:+ ": " +:+ e)
           | Ok record => if Expired record now then Ok (noLease, false) else Ok (record, true)
           end
       end.

Definition put (s : S) (record : LeaseRecord) : S * result string unit :=
  match marshalLease record with
  | Err e => (s, Err e)
  | Ok data => kvSet s (leaseKey (lName record)) data
  end.

(** The read after the write of [Claim] and [Renew]. *)
Definition confirm (now : Time) (s : S) (name token : string) : result string (LeaseRecord * bool) :=
  match leaseGet now s name with
  | Err e => Err e
  | Ok (stored, ok) =>
      if negb ok || bool_decide (lToken stored <> token) then Ok (stored, false)
      else Ok (stored, true)
  end.

(** The readings of the clock in the order an operation takes them. *)
Record Readings := mkReadings { rd1 : Time; rd2 : Time; rd3 : Time }.

(** [Claim] up to its write; [inl]: an unexpired lease was found. *)
Definition claimRecord (clk : Readings) (uuid : string) (s : S) (name holder : string)
  (ttl : Duration) : result string (LeaseRecord + LeaseRecord) :=
  match validateLeaseInput name holder ttl with
  | Err e => Err e
  | Ok _ =>
      match leaseGet (rd1 clk) s name with
      | Err e => Err e
      | Ok (current, ok) =>
          if ok && negb (Expired current (rd2 clk)) then Ok (inl current)
          else Ok (inr (mkLease name holder uuid (rd2 clk) (rd2 clk + ttl)))
      end
  end.

(** [Claim] when nothing runs between its read, its write and its second read; so
    are [Renew] and [Release].  Their halves are [beginOp] and [writeOp] below. *)
Definition Claim (clk : Readings) (uuid : string) (s : S) (name holder : string) (ttl : Duration)
  : S * result string (LeaseRecord * bool) :=
  match claimRecord clk uuid s name holder ttl with
  | Err e => (s, Err e)
  | Ok (inl current) => (s, Ok (current, false))
  | Ok (inr record) =>
      match put s record with
      | (s, Err e) => (s, Err e)
      | (s, Ok _) => (s, confirm (rd3 clk) s name (lToken record))
      end
  end.

(** [Renew] up to its write: the record to write, or what is returned without. *)
Definition renewRecord (clk : Readings) (s : S) (name holder token : string) (ttl : Duration)
  : result string (LeaseRecord * bool + LeaseRecord) :=
  match validateLeaseInput name holder ttl with
  | Err e => Err e
  | Ok _ =>
      if bool_decide (token = "") then Err "lease token is required"
      else match leaseGet (rd1 clk) s name with
           | Err e => Err e
           | Ok (current, ok) =>
               if negb ok || Expired current (rd2 clk) then Ok (inl (noLease, false))
               else if bool_decide (lHolder current <> holder) || bool_decide (lToken current <> token)
               then Ok (inl (current, false))
               else Ok (inr (mkLease (lName current) (lHolder current) (lToken current)
                               (lAcquiredAt current) (rd2 clk + ttl)))
           end
  end.

Definition Renew (clk : Readings) (s : S) (name holder token : string) (ttl : Duration)
  : S * result string (LeaseRecord * bool) :=
  match renewRecord clk s name holder token ttl with
  | Err e => (s, Err e)
  | Ok (inl answer) => (s, Ok answer)
  | Ok (inr record) =>
      match put s record with
      | (s, Err e) => (s, Err e)
      | (s, Ok _) => (s, confirm (rd3 clk) s name token)
      end
  end.

(** [Release] up to its deletion: whether it is to be done. *)
Definition releaseHeld (s : S) (name holder token : string) : result string bool :=
  if isBlank name then Err "lease name is required"
  else if isBlank holder then Err "lease holder is required"
  else if bool_decide (token = "") then Err "lease token is required"
  else match getRaw s name with
       | Err e => Err e
       | Ok (current, ok) =>
           if negb ok then Ok false
           else Ok (negb (bool_decide (lHolder current <> holder) || bool_decide (lToken current <> token)))
       end.

Definition Release (s : S) (name holder token : string) : S * result string bool :=
  match releaseHeld s name holder token with
  | Err e => (s, Err e)
  | Ok false => (s, Ok false)
  | Ok true =>
      match kvDelete s (leaseKey name) with
      | (s, Err e) => (s, Err e)
      | (s, Ok _) => (s, Ok true)
      end
  end.

Lemma validateLeaseInput_ok name holder ttl :
  validateLeaseInput name holder ttl = Ok tt <->
  isBlank name = false /\ isBlank holder = false /\ 0 < ttl.
Proof.
  unfold validateLeaseInput. destruct (isBlank name), (isBlank holder), (Z.leb_spec ttl 0);
    naive_solver lia.
Qed.

Lemma claimRecord_new clk uuid s name holder ttl r :
  claimRecord clk uuid s name holder ttl = Ok (inr r) ->
  r = mkLease name holder uuid (rd2 clk) (rd2 clk + ttl) /\ isBlank name = false.
Proof.
  unfold claimRecord. destruct (validateLeaseInput name holder ttl) as [[]|] eqn:E; [|done].
  apply validateLeaseInput_ok in E as (Hb & _ & _).
  destruct (leaseGet _ _ _) as [[c ok]|]; [|done]. case_match; [done|]. by intros [= <-].
Qed.

(** ** The holder of a lease *)

Lemma leaseKey_inj n m : leaseKey n = leaseKey m -> n = m.
Proof. unfold leaseKey. intros H. by do 2 apply str_app_inj_l in H. Qed.

(** The key of [r] holds exactly [r]. *)
Definition stored s r : Prop :=
  exists raw, kvGet s (leaseKey (lName r)) = Some raw /\ unmarshalLease raw = Ok r.

Lemma leaseGet_stored s r now :
  stored s r -> isBlank (lName r) = false -> now < lExpiresAt r ->
  leaseGet now s (lName r) = Ok (r, true).
Proof.
  intros (raw & Hg & Hu) Hn Hnow. unfold leaseGet. rewrite Hn, Hg, Hu. unfold Expired.
  by rewrite (proj2 (Z.ltb_lt _ _)).
Qed.

Lemma put_other s r r' :
  stored s r -> lName r' <> lName r -> stored (put s r').1 r.
Proof.
  intros (raw & Hg & Hu) Hne. exists raw. split; [|done]. unfold put, kvGet in *.
  destruct (marshalLease r') as [data|]; [|done]. rewrite kvSet_view. case_match; [|done].
  rewrite lookup_insert_ne; [done|]. intros E. by apply leaseKey_inj in E.
Qed.

Lemma put_stored s r s' : wire_lease r -> put s r = (s', Ok tt) -> stored s' r.
Proof.
  intros Hw Hp. destruct (unmarshal_marshalLease r Hw) as (data & Hm & Hu).
  unfold put in Hp. rewrite Hm in Hp. exists data. split; [|done]. unfold kvGet.
  change s' with (s', Ok (E := string) tt).1. rewrite <- Hp, kvSet_view, Hp. simpl.
  by rewrite lookup_insert_eq.
Qed.

(** ** Operations step by step *)

Inductive lease_op :=
| OpClaim (clk : Readings) (uuid name holder : string) (ttl : Duration)
| OpRenew (clk : Readings) (name holder token : string) (ttl : Duration)
| OpRelease (name holder token : string).

(** No lock is held from the read of an operation to its write: an operation that
    has read and not yet written is one of these. *)
Inductive pending :=
| PPut (record : LeaseRecord)
| PDelete (name : string).

(** The read of an operation; it is over unless it decides to write. *)
Definition beginOp (s : S) (op : lease_op) : option pending :=
  match op with
  | OpClaim clk uuid name holder ttl =>
      match claimRecord clk uuid s name holder ttl with Ok (inr record) => Some (PPut record) | _ => None end
  | OpRenew clk name holder token ttl =>
      match renewRecord clk s name holder token ttl with Ok (inr record) => Some (PPut record) | _ => None end
  | OpRelease name holder token =>
      match releaseHeld s name holder token with Ok true => Some (PDelete name) | _ => None end
  end.

Definition writeOp (s : S) (p : pending) : S :=
  match p with
  | PPut record => (put s record).1
  | PDelete name => (kvDelete s (leaseKey name)).1
  end.

Definition run_op (s : S) (op : lease_op) : S :=
  match op with
  | OpClaim clk uuid name holder ttl => (Claim clk uuid s name holder ttl).1
  | OpRenew clk name holder token ttl => (Renew clk s name holder token ttl).1
  | OpRelease name holder token => (Release s name holder token).1
  end.

(** An operation that nothing interrupts is its read followed by its write; the
    read after the write changes nothing. *)
Lemma run_op_halves s op :
  run_op s op = match beginOp s op with Some p => writeOp s p | None => s end.
Proof.
  destruct op as [clk uuid name holder ttl|clk name holder token ttl|name holder token]; simpl.
  - unfold Claim. destruct (claimRecord _ _ _ _ _ _) as [[c|r]|e]; [done| |done]. simpl. by destruct (put s r) as [s' []].
  - unfold Renew. destruct (renewRecord _ _ _ _ _ _) as [[c|r]|e]; [done| |done]. simpl. by destruct (put s r) as [s' []].
  - unfold Release. destruct (releaseHeld _ _ _ _) as [[]|e]; [|done..]. simpl. by destruct (kvDelete s _) as [s' []].
Qed.

Definition pendingName (p : pending) : string := match p with PPut record => lName record | PDelete name => name end.

(** An operation of somebody who does not present [r]'s holder and token; claims of
    the same lease read the clock before [r] expires. *)
Definition foreign r (op : lease_op) : Prop :=
  match op with
  | OpClaim clk _ name _ _ => name = lName r -> rd1 clk < lExpiresAt r /\ rd2 clk < lExpiresAt r
  | OpRenew _ name holder token _ | OpRelease name holder token =>
      name = lName r -> holder <> lHolder r \/ token <> lToken r
  end.

(** Records are stored under their own name, and can be stored again. *)
Definition well_named s : Prop :=
  forall name raw r, kvGet s (leaseKey name) = Some raw -> unmarshalLease raw = Ok r ->
    lName r = name /\ wire_lease r.

Definition wire_ok_op (op : lease_op) : Prop :=
  match op with
  | OpClaim clk uuid name holder ttl => wire_lease (mkLease name holder uuid (rd2 clk) (rd2 clk + ttl))
  | OpRenew clk name holder token ttl =>
      forall r, wire_lease r ->
        wire_lease (mkLease (lName r) (lHolder r) (lToken r) (lAcquiredAt r) (rd2 clk + ttl))
  | OpRelease _ _ _ => True
  end.

Definition wire_pending (p : pending) : Prop := match p with PPut record => wire_lease record | PDelete _ => True end.

(** One step of the others while somebody holds [r]: an operation reads, or one that
    has read writes, whichever and however long ago it read. *)
Inductive lease_step r : S * list pending -> S * list pending -> Prop :=
| step_read op s ps :
    foreign r op -> wire_ok_op op -> lease_step r (s, ps) (s, option_list (beginOp s op) ++ ps)
| step_write s ps1 p ps2 : lease_step r (s, ps1 ++ p :: ps2) (writeOp s p, ps1 ++ ps2).

Lemma put_well_named s r : well_named s -> wire_lease r -> well_named (put s r).1.
Proof.
  intros Hn Hw name raw r0. destruct (unmarshal_marshalLease r Hw) as (data & Hm & Hu).
  unfold put. rewrite Hm. unfold kvGet. rewrite kvSet_view. case_match; [|apply Hn].
  destruct (decide (leaseKey (lName r) = leaseKey name)) as [E|E].
  - rewrite E, lookup_insert_eq. intros [= <-]. rewrite Hu. intros [= <-]. split; [by apply leaseKey_inj|done].
  - rewrite lookup_insert_ne by done. apply Hn.
Qed.

Lemma delete_well_named s name : well_named s -> well_named (kvDelete s (leaseKey name)).1.
Proof.
  intros Hn n raw r. unfold kvGet. rewrite kvDelete_view. case_match; [|apply Hn].
  destruct (decide (leaseKey name = leaseKey n)) as [->|];
    [by rewrite lookup_delete_eq|rewrite lookup_delete_ne by done; apply Hn].
Qed.

Lemma delete_other s r name : stored s r -> name <> lName r -> stored (kvDelete s (leaseKey name)).1 r.
Proof.
  intros (raw & Hg & Hu) Hne. exists raw. split; [|done]. unfold kvGet in *. rewrite kvDelete_view. case_match; [|done].
  rewrite lookup_delete_ne; [done|]. intros E. by apply leaseKey_inj in E.
Qed.

Lemma leaseGet_raw now s name r :
  leaseGet now s name = Ok (r, true) ->
  isBlank name = false /\ exists raw, kvGet s (leaseKey name) = Some raw /\ unmarshalLease raw = Ok r.
Proof. unfold leaseGet. destruct (isBlank name); [done|]. intros H. case_in H. naive_solver. Qed.

Lemma getRaw_stored s r : stored s r -> isBlank (lName r) = false -> getRaw s (lName r) = Ok (r, true).
Proof. intros (raw & Hg & Hu) Hn. unfold getRaw. by rewrite Hn, Hg, Hu. Qed.

Lemma claimRecord_held s r clk uuid holder ttl :
  stored s r -> isBlank (lName r) = false -> rd1 clk < lExpiresAt r -> rd2 clk < lExpiresAt r ->
  validateLeaseInput (lName r) holder ttl = Ok tt ->
  claimRecord clk uuid s (lName r) holder ttl = Ok (inl r).
Proof.
  intros Hs Hn H1 H2 Hv. unfold claimRecord. rewrite Hv, leaseGet_stored by done. simpl.
  unfold Expired. by rewrite (proj2 (Z.ltb_lt _ _)).
Qed.

(** A renewal writes the record it read under the name, and only with its holder and
    token. *)
Lemma renewRecord_new clk s name holder token ttl r :
  well_named s -> renewRecord clk s name holder token ttl = Ok (inr r) ->
  exists c, stored s c /\ lName c = name /\ wire_lease c /\ lHolder c = holder /\ lToken c = token /\
    r = mkLease name holder token (lAcquiredAt c) (rd2 clk + ttl).
Proof.
  intros Hn. unfold renewRecord. case_match; [|done]. case_match; [done|].
  destruct (leaseGet _ _ _) as [[c ok]|] eqn:Eg; [|done].
  destruct (negb ok || _) eqn:Eo; [done|]. apply orb_false_elim in Eo as [Eo _].
  apply negb_false_iff in Eo as ->. destruct (_ || _) eqn:Eh; [done|]. intros [= <-].
  apply orb_false_elim in Eh as [Eh1 Eh2]. rewrite bool_decide_eq_false in Eh1, Eh2.
  apply leaseGet_raw in Eg as (_ & raw & Hg & Hu). destruct (Hn _ _ _ Hg Hu) as [<- Hw].
  assert (lHolder c = holder) as <- by (destruct (decide (lHolder c = holder)); tauto).
  assert (lToken c = token) as <- by (destruct (decide (lToken c = token)); tauto).
  exists c. split_and!; try done. by exists raw.
Qed.

(** The read of another's operation on a held lease decides to write nothing there. *)
Lemma beginOp_foreign s r op p :
  well_named s -> stored s r -> isBlank (lName r) = false -> foreign r op -> wire_ok_op op ->
  beginOp s op = Some p -> pendingName p <> lName r /\ wire_pending p.
Proof.
  intros Hn Hs Hb Hf Hw. destruct op as [clk uuid name holder ttl|clk name holder token ttl|name holder token]; simpl in *.
  - destruct (claimRecord _ _ _ _ _ _) as [[c|r']|e] eqn:E; [done| |done]. intros [= <-].
    destruct (claimRecord_new _ _ _ _ _ _ _ E) as [-> _]. simpl. split; [|done]. intros ->.
    destruct (Hf eq_refl) as [H1 H2]. unfold claimRecord in E. destruct (validateLeaseInput _ _ _); [|done].
    rewrite leaseGet_stored in E by done. simpl in E. unfold Expired in E. by rewrite (proj2 (Z.ltb_lt _ _)) in E.
  - destruct (renewRecord _ _ _ _ _ _) as [[c|r']|e] eqn:E; [done| |done]. intros [= <-].
    destruct (renewRecord_new _ _ _ _ _ _ _ Hn E) as (c & Hc & <- & Hwc & <- & <- & ->). simpl. split; [|by apply Hw].
    intros En. destruct Hs as (raw & Hg & Hu), Hc as (raw' & Hg' & Hu'). rewrite En, Hg in Hg'. injection Hg' as <-.
    rewrite Hu in Hu'. injection Hu' as <-. destruct (Hf En); congruence.
  - destruct (releaseHeld _ _ _ _) as [[]|e] eqn:E; [|done..]. intros [= <-]. simpl. split; [|done]. intros ->.
    unfold releaseHeld in E. rewrite Hb in E. case_match; [done|]. case_match; [done|]. rewrite getRaw_stored in E by done. simpl in E.
    injection E as E. apply negb_true_iff, orb_false_elim in E as [E1 E2]. rewrite bool_decide_eq_false in E1, E2.
    destruct (Hf eq_refl) as [Hx|Hx]; [apply E1|apply E2]; congruence.
Qed.

(** While [r] is held and no write of its name is on the way. *)
Definition held r (c : S * list pending) : Prop :=
  well_named c.1 /\ stored c.1 r /\ Forall (fun p => pendingName p <> lName r /\ wire_pending p) c.2.

Lemma held_step r c c' : isBlank (lName r) = false -> lease_step r c c' -> held r c -> held r c'.
Proof.
  intros Hb Hstep (Hn & Hs & Hps). destruct Hstep as [op s ps Hf Hw|s ps1 p ps2]; simpl in *.
  - split_and!; [done..|]. apply Forall_app. split; [|done]. destruct (beginOp s op) as [p|] eqn:E; [|constructor].
    apply Forall_singleton. by eapply beginOp_foreign.
  - apply Forall_app in Hps as [H1 H2]. apply Forall_cons in H2 as [[Hp Hw] H2].
    assert (Forall (fun p => pendingName p <> lName r /\ wire_pending p) (ps1 ++ ps2)) as H by (by apply Forall_app).
    destruct p as [r'|name]; simpl in *; split_and!; try done;
      [by apply put_well_named|by apply put_other|by apply delete_well_named|by apply delete_other].
Qed.

(** C28 (safety). A granted lease excludes everybody else until it expires, under any
    interleaving: when the confirming read of a claim or a renewal grants a lease
    and no other operation on its name is between its read and its write at that
    moment, then after any steps of claims, renewals and releases, of this and
    other leases, by parties that do not present its holder and token, each
    operation reading and writing at moments of its own, the lease still reads as
    granted; a claim of the name reads the holder's record and writes nothing, and
    no confirming read grants it with another token.  Without the condition two
    claims can both be granted ([lease_claims_race]). *)
Theorem lease_exclusive now s ps name token r t qs :
  confirm now s name token = Ok (r, true) ->
  well_named s -> Forall (fun p => pendingName p <> name /\ wire_pending p) ps ->
  rtc (lease_step r) (s, ps) (t, qs) ->
  lName r = name /\ lToken r = token /\ now < lExpiresAt r /\
  (forall now', now' < lExpiresAt r -> leaseGet now' t name = Ok (r, true)) /\
  (forall clk' uuid' holder' ttl', isBlank holder' = false -> 0 < ttl' ->
     rd1 clk' < lExpiresAt r -> rd2 clk' < lExpiresAt r ->
     claimRecord clk' uuid' t name holder' ttl' = Ok (inl r)) /\
  (forall now' token', now' < lExpiresAt r -> token' <> token -> confirm now' t name token' = Ok (r, false)).
Proof.
  intros Hc Hn Hps Hsteps. unfold confirm in Hc. destruct (leaseGet now s name) as [[st ok]|] eqn:Eg; [|done].
  destruct (negb ok || _) eqn:Eo; [done|]. injection Hc as ->.
  apply orb_false_elim in Eo as [Eo Et]. apply negb_false_iff in Eo as ->.
  assert (lToken r = token) as <- by (apply bool_decide_eq_false in Et; by destruct (decide (lToken r = token))).
  pose proof Eg as Eg'. apply leaseGet_raw in Eg as (Hb & raw & Hg & Hu). destruct (Hn _ _ _ Hg Hu) as [<- _].
  assert (held r (t, qs)) as (_ & Ht & _).
  { assert (held r (s, ps)) as Hheld by (split_and!; [done|by exists raw|done]). revert Hheld. clear -Hsteps Hb.
    induction Hsteps as [|c c' c'' Hstep _ IH]; [done|]. intros H. apply IH. by eapply held_step. }
  simpl in Ht. assert (forall now', now' < lExpiresAt r -> leaseGet now' t (lName r) = Ok (r, true)) as Hget
    by (intros now' Hnow; by apply leaseGet_stored).
  split_and!; try done.
  - unfold leaseGet in Eg'. rewrite Hb, Hg, Hu in Eg'. unfold Expired in Eg'. destruct (Z.ltb_spec now (lExpiresAt r)); [done|by injection Eg'].
  - intros clk' uuid' holder' ttl' Hh Httl H1 H2. apply claimRecord_held; try done. by apply validateLeaseInput_ok.
  - intros now' token' Hnow Hne. unfold confirm. rewrite Hget by done. by rewrite (bool_decide_eq_true_2 (lToken r <> token')) by congruence.
Qed.
End Lease.

(** ** Append-only logs (appendlog.go) *)

Record AppendLogEntry := mkLogEntry { aID : string; aCreatedAt : Time; aValue : string }.

(** [%020d-%s]; a sign takes one of the twenty columns. *)
Definition appendLogID (at_ : Time) (suffix : string) : string :=
  (if at_ <? 0 then "-" +:+ pad_dec 19 (- at_) else pad_dec 20 at_) +:+ "-" +:+ suffix.

Definition parseAppendLogID (id : string) : result string Time :=
  match CutByte id "-" with
  | None => Err "invalid append log id"
  | Some (head, _) =>
      match ParseInt head with
      | None => Err "parsing append log id"
      | Some unixNano => Ok unixNano
      end
  end.

Section AppendLog.
Context {S : Type} `{KV : !KVStore S}.
Variable prefix : string.

Definition listPrefix : string := prefix +:+ "/".
Definition entryKey (id : string) : string := listPrefix +:+ id.

Definition logAppend (now : Time) (uuid : string) (s : S) (value : string)
  : S * result string AppendLogEntry :=
  let id := appendLogID now uuid in
  match kvSet s (entryKey id) value with
  | (s, Err e) => (s, Err e)
  | (s, Ok _) => (s, Ok (mkLogEntry id now value))
  end.

Definition logGet (s : S) (id : string) : result string (option AppendLogEntry) :=
  match kvGet s (entryKey id) with
  | None => Ok None
  | Some value =>
      match parseAppendLogID id with
      | Err e => Err e
      | Ok createdAt => Ok (Some (mkLogEntry id createdAt value))
      end
  end.

Fixpoint logCollect (s : S) (keys : list string) : result string (list AppendLogEntry) :=
  match keys with
  | [] => Ok []
  | key :: keys =>
      let '(id, ok) := CutPrefix key listPrefix in
      if negb ok || bool_decide (id = "") then logCollect s keys
      else match logGet s id with
           | Err e => Err e
           | Ok None => logCollect s keys
           | Ok (Some entry) =>
               match logCollect s keys with Err e => Err e | Ok out => Ok (entry :: out) end
           end
  end.

Definition logList (s : S) : result string (list AppendLogEntry) :=
  logCollect s (sort_Strings (kvList s listPrefix)).

(** ** Order and round trip of identifiers *)

(** Times of the years 1970 to 2262, the range of [UnixNano]. *)
Definition nano_range (t : Time) : Prop := 0 <= t < 2 ^ 63.

Lemma appendLogID_nonneg t u : nano_range t -> appendLogID t u = pad_dec 20 t +:+ "-" +:+ u.
Proof. intros [Ht _]. unfold appendLogID. by rewrite (proj2 (Z.ltb_ge _ _)). Qed.

Lemma pad_no_dash w z :
  0 <= z -> str_forall (fun c => negb (Ascii.eqb c "-")) (pad_dec w z) = true.
Proof.
  intros Hz. apply pad_dec_forall; [|done]. intros d Hd. apply negb_true_iff, Ascii.eqb_neq.
  intros E. pose proof (digit_val_char d Hd) as H. by rewrite E in H.
Qed.

Lemma parse_appendLogID t u : nano_range t -> parseAppendLogID (appendLogID t u) = Ok t.
Proof.
  intros Ht. rewrite appendLogID_nonneg by done. unfold parseAppendLogID, nano_range in *.
  rewrite (str_app_cons "-"), str_app_nil_l, CutByte_app by (apply pad_no_dash; lia).
  rewrite (ParseInt_digits _ t); [done| |rewrite parse_pad_dec by (simpl; lia); f_equal; lia|lia].
  intros E. pose proof (pad_dec_length 20 t) as Hl. by rewrite E in Hl.
Qed.

Lemma appendLogID_ltb t u t' u' :
  nano_range t -> nano_range t' -> t < t' -> (appendLogID t u <s? appendLogID t' u') = true.
Proof.
  intros H1 H2 Hlt. rewrite !appendLogID_nonneg by done.
  rewrite str_ltb_app_eq by by rewrite !pad_dec_length. unfold nano_range in *.
  rewrite pad_dec_ltb by (simpl; lia). by rewrite (proj2 (Z.ltb_lt _ _)).
Qed.

Lemma str_ltb_prefix p s t : (p +:+ s <s? p +:+ t) = (s <s? t).
Proof. rewrite str_ltb_app_eq, str_ltb_irrefl, bool_decide_eq_true_2 by done. done. Qed.

(** Every entry of the log was appended at a time before [now]. *)
Definition appended_before (s : S) (now : Time) : Prop :=
  forall key, HasPrefix key listPrefix = true -> is_Some (kvView s !! key) ->
    exists t u, key = entryKey (appendLogID t u) /\ nano_range t /\ t < now.

Lemma logCollect_app s ks ks' :
  logCollect s (ks ++ ks') =
    match logCollect s ks with
    | Err e => Err e
    | Ok out => match logCollect s ks' with Err e => Err e | Ok out' => Ok (out ++ out') end
    end.
Proof.
  induction ks as [|key ks IH]; cbn [app logCollect]; [by destruct (logCollect s ks')|].
  destruct (CutPrefix key listPrefix) as [id ok]. destruct (negb ok || _); [exact IH|].
  destruct (logGet s id) as [[e|]|]; [|done|done]. rewrite IH.
  destruct (logCollect s ks); [|done]. by destruct (logCollect s ks').
Qed.

Lemma logCollect_ext s s' ks :
  (forall key, key ∈ ks -> kvGet s' key = kvGet s key) -> logCollect s' ks = logCollect s ks.
Proof.
  induction ks as [|key ks IH]; intros H; [done|]. cbn [logCollect].
  rewrite IH by (intros; apply H; by constructor).
  destruct (CutPrefix key listPrefix) as [id ok] eqn:E. unfold CutPrefix in E.
  destruct (HasPrefix key listPrefix) eqn:Ep; injection E as <- <-; [|done].
  apply HasPrefix_spec in Ep as [id ->]. rewrite str_drop_app.
  unfold logGet. unfold entryKey. by rewrite H by constructor.
Qed.

Lemma CutPrefix_app p t : CutPrefix (p +:+ t) p = (t, true).
Proof. unfold CutPrefix. by rewrite HasPrefix_app, str_drop_app. Qed.

Lemma appendLogID_nonempty t u : appendLogID t u <> "".
Proof.
  unfold appendLogID. intros E. assert (String.length "" = 0%nat) as H by done.
  rewrite <- E, !str_length_app in H. simpl in H. lia.
Qed.

(** The listing after an append is the old listing with the new key last. *)
Lemma kvList_append s now u value s' :
  nano_range now -> appended_before s now ->
  kvSet s (entryKey (appendLogID now u)) value = (s', Ok tt) ->
  sort_Strings (kvList s' listPrefix) =
    sort_Strings (kvList s listPrefix) ++ [entryKey (appendLogID now u)].
Proof.
  intros Hnow Hb Hset. set (key := entryKey (appendLogID now u)) in *.
  pose proof (kvSet_view s key value) as Hv. rewrite Hset in Hv. simpl in Hv.
  assert (forall k, k ∈ filter (fun k => HasPrefix k listPrefix = true) (keys_of (kvView s)) ->
    str_ltb k key = true) as Hlt.
  { intros k [Hp Hk]%list_elem_of_filter. apply elem_of_keys_of in Hk.
    destruct (Hb k Hp Hk) as (t & u' & -> & Ht & Htn). unfold key, entryKey.
    rewrite str_ltb_prefix. by apply appendLogID_ltb. }
  assert (kvView s !! key = None) as Hnone.
  { destruct (kvView s !! key) as [x|] eqn:E; [|done]. exfalso.
    assert (str_ltb key key = true) as H; [|by rewrite str_ltb_irrefl in H].
    apply Hlt, list_elem_of_filter. split; [apply HasPrefix_app|]. apply elem_of_keys_of. eauto. }
  unfold kvList. rewrite <- sort_Strings_snoc.
  - apply sort_Strings_unique. rewrite !sort_Strings_perm. unfold keys_of. rewrite Hv.
    rewrite map_to_list_insert by done. rewrite fmap_cons, filter_cons_True by apply HasPrefix_app.
    done.
  - intros y Hy. apply elem_of_sort_Strings, Hlt in Hy. by apply str_ltb_le in Hy as [? _].
Qed.

(** Appending to a log whose entries are all older adds the new entry
    at the end of [List], with the identifier, the creation time and the value
    that [Append] returned, and leaves the entries before it as they were. *)
Theorem appendlog_append_lists_last s now u value s' e es :
  nano_range now -> appended_before s now -> logList s = Ok es ->
  logAppend now u s value = (s', Ok e) ->
  e = mkLogEntry (appendLogID now u) now value /\ logList s' = Ok (es ++ [e]).
Proof.
  intros Hnow Hb Hl Ha. unfold logAppend in Ha.
  destruct (kvSet s (entryKey (appendLogID now u)) value) as [s1 [[]|x]] eqn:Hset; [|done].
  injection Ha as -> <-. split; [done|]. unfold logList in *.
  pose proof (kvSet_view s (entryKey (appendLogID now u)) value) as Hv.
  rewrite Hset in Hv. simpl in Hv.
  rewrite (kvList_append _ _ _ _ _ Hnow Hb Hset), logCollect_app.
  rewrite (logCollect_ext s s').
  - rewrite Hl. cbn [logCollect]. unfold entryKey at 1. rewrite CutPrefix_app.
    rewrite bool_decide_eq_false_2 by apply appendLogID_nonempty. simpl.
    unfold logGet, kvGet. rewrite Hv, lookup_insert_eq, parse_appendLogID by done. done.
  - intros k Hk. unfold kvList in Hk. rewrite !elem_of_sort_Strings in Hk.
    apply list_elem_of_filter in Hk as [Hp Hk].
    apply elem_of_keys_of in Hk. destruct (Hb k Hp Hk) as (t & u' & -> & Ht & Htn).
    unfold kvGet. rewrite Hv, lookup_insert_ne; [done|]. unfold entryKey.
    intros E%str_app_inj_l. pose proof (appendLogID_ltb t u' now u Ht Hnow Htn) as H.
    by rewrite E, str_ltb_irrefl in H.
Qed.
End AppendLog.

(** ** Payload references (payloadref.go) *)

Record PayloadRef := mkPayloadRef { prKind : string; prKey : string; prSize : Z; prDigest : string }.

Definition PayloadRef_Validate (r : PayloadRef) : result string unit :=
  if bool_decide (prKind r = "") then Err "payload ref kind is required"
  else if bool_decide (prKey r = "") then Err "payload ref key is required"
  else if prSize r <? 0 then Err "payload ref size must be non-negative"
  else if bool_decide (prDigest r <> "") && (slen (prDigest r) <? slen "sha256:" + 64)
  then Err "payload ref digest is too short"
  else Ok tt.

Definition ShouldInline (size maxInline : Z) : bool :=
  if maxInline <=? 0 then false else size <=? maxInline.

Definition NewPayloadRef (kind key : string) (size : Z) (digest : string) : result string PayloadRef :=
  let ref := mkPayloadRef kind key size digest in
  match PayloadRef_Validate ref with Err e => Err e | Ok _ => Ok ref end.

(** ** A store and concrete claims *)

(** A map with the value limit of the key-value store. *)
#[export] Instance mapStore : KVStore (gmap string string).
Proof.
  refine {| kvView m := m;
            kvSet m k v := if 8192 <? slen v then (m, Err "value exceeds 8KB limit")
                           else (<[k := v]> m, Ok tt);
            kvDelete m k := (delete k m, Ok tt) |}.
  - abstract (intros s k v; by case_match).
  - abstract done.
Defined.

Definition lease_fields (r : LeaseRecord) : list string :=
  [lName r; lHolder r; lToken r; Itoa (lAcquiredAt r); Itoa (lExpiresAt r)].

(** A record as its lines. *)
Definition demoLeaseCodec : LeaseCodec.
Proof.
  refine {| marshalLease r :=
              Ok (foldr (fun f acc => f +:+ String "010"%char acc) "" (lease_fields r));
            unmarshalLease raw :=
              match CutByte raw "010"%char ≫= fun '(a, r1) =>
                    CutByte r1 "010"%char ≫= fun '(b, r2) =>
                    CutByte r2 "010"%char ≫= fun '(c, r3) =>
                    CutByte r3 "010"%char ≫= fun '(d, r4) =>
                    CutByte r4 "010"%char ≫= fun '(e, _) =>
                    ParseInt d ≫= fun d => ParseInt e ≫= fun e => Some (mkLease a b c d e) with
              | Some r => Ok r
              | None => Err "invalid"
              end;
            wire_lease r :=
              Forall (fun f => str_forall (fun c => negb (Ascii.eqb c "010")) f = true) (lease_fields r)
              /\ int64_range (lAcquiredAt r) /\ int64_range (lExpiresAt r) |}.
  abstract (intros [a b c d e] [Hf [Hd He]]; eexists; split; [reflexivity|];
    repeat (apply Forall_cons in Hf as [? Hf]); simpl in *;
    rewrite !CutByte_app by done; simpl; rewrite !CutByte_app by done; simpl;
    rewrite !CutByte_app by done; simpl; rewrite !CutByte_app by done; simpl;
    rewrite !CutByte_app by done; simpl; by rewrite !ParseInt_Itoa).
Defined.

Section Demo.
#[local] Existing Instance demoLeaseCodec.

Definition demoClk : Readings := mkReadings 100 100 100.
Definition demoGrant := Claim "leases" demoClk "token-1" ∅ "job" "agent-a" 50.
Definition demoLease : LeaseRecord := mkLease "job" "agent-a" "token-1" 100 150.
(** A claim of the held lease, and one of another that writes after a renewal and a
    release with a wrong token were tried. *)
Definition demoOther : LeaseRecord := mkLease "other" "agent-b" "token-3" 111 161.
Definition demoOp1 : lease_op := OpClaim (mkReadings 110 110 110) "token-2" "job" "agent-b" 50.
Definition demoOp2 : lease_op := OpClaim (mkReadings 110 111 111) "token-3" "other" "agent-b" 50.
Definition demoOp3 : lease_op := OpRenew (mkReadings 120 120 120) "job" "agent-b" "token-2" 50.
Definition demoOp4 : lease_op := OpRelease "job" "agent-b" "token-2".
Definition demoAfter : gmap string string := writeOp "leases" demoGrant.1 (PPut demoOther).

Lemma demo_grant_ok : demoGrant = (demoGrant.1, Ok (demoLease, true)).
Proof. vm_compute. reflexivity. Qed.

Lemma demo_wire r :
  forallb (str_forall (fun c => negb (Ascii.eqb c "010"))) (lease_fields r) = true ->
  int64_range (lAcquiredAt r) -> int64_range (lExpiresAt r) -> wire_lease r.
Proof.
  intros H ? ?. split; [|done]. apply Forall_forall. intros f Hf.
  rewrite forallb_forall in H. by apply H, list_elem_of_In.
Qed.

Lemma demo_empty_named : well_named "leases" (∅ : gmap string string).
Proof. by intros name raw r H. Qed.

Lemma demo_wire_lease : wire_lease demoLease.
Proof. apply demo_wire; [vm_compute; reflexivity|done|done]. Qed.

Lemma demo_ops_foreign : Forall (fun op => foreign demoLease op /\ wire_ok_op op) [demoOp1; demoOp2; demoOp3; demoOp4].
Proof.
  repeat apply Forall_cons_2; [| | | |constructor]; simpl.
  - split; [done|]. apply demo_wire; [vm_compute; reflexivity|done|done].
  - split; [done|]. apply demo_wire; [vm_compute; reflexivity|done|done].
  - split; [intros _; right; discriminate|]. intros r (Hf & Ha & _). split; [|done].
    unfold lease_fields in *. simpl in *. rewrite !Forall_cons in *. naive_solver.
  - split; [intros _; right; discriminate|done].
Qed.

Lemma demo_grant_named : well_named "leases" demoGrant.1.
Proof.
  intros name raw r. assert (kvView demoGrant.1 = {["leases/job" := default "" (kvView demoGrant.1 !! "leases/job")]}) as E by (vm_compute; reflexivity).
  unfold kvGet. rewrite E. intros [Hk <-]%lookup_singleton_Some Hu.
  assert (unmarshalLease (default "" (kvView demoGrant.1 !! "leases/job")) = Ok demoLease) as E2 by (vm_compute; reflexivity).
  rewrite E2 in Hu. injection Hu as <-. split; [|apply demo_wire_lease]. exact (leaseKey_inj "leases" "job" name Hk).
Qed.

Lemma demo_steps : rtc (lease_step "leases" demoLease) (demoGrant.1, []) (demoAfter, []).
Proof.
  pose proof demo_ops_foreign as H.
  apply Forall_cons in H as [[F1 W1] H]. apply Forall_cons in H as [[F2 W2] H]. apply Forall_cons in H as [[F3 W3] H].
  apply Forall_cons in H as [[F4 W4] _].
  assert (forall op ps p, beginOp "leases" demoGrant.1 op = p -> foreign demoLease op -> wire_ok_op op ->
    lease_step "leases" demoLease (demoGrant.1, ps) (demoGrant.1, option_list p ++ ps)) as Hread by (intros op ps p <-; apply step_read).
  assert (beginOp "leases" demoGrant.1 demoOp1 = None /\ beginOp "leases" demoGrant.1 demoOp2 = Some (PPut demoOther) /\
    beginOp "leases" demoGrant.1 demoOp3 = None /\ beginOp "leases" demoGrant.1 demoOp4 = None) as (B1 & B2 & B3 & B4)
    by (split_and!; vm_compute; reflexivity).
  eapply rtc_l; [exact (Hread demoOp1 [] None B1 F1 W1)|]. eapply rtc_l; [exact (Hread demoOp2 [] (Some (PPut demoOther)) B2 F2 W2)|].
  eapply rtc_l; [exact (Hread demoOp3 [PPut demoOther] None B3 F3 W3)|]. eapply rtc_l; [exact (Hread demoOp4 [PPut demoOther] None B4 F4 W4)|].
  eapply rtc_l; [exact (step_write _ _ _ [] (PPut demoOther) [])|]. apply rtc_refl.
Qed.

Lemma demo_confirmed : confirm "leases" 100 demoGrant.1 "job" "token-1" = Ok (demoLease, true).
Proof. vm_compute. reflexivity. Qed.

Lemma lease_exclusive_witness :
  confirm "leases" 100 demoGrant.1 "job" "token-1" = Ok (demoLease, true) /\
  claimRecord "leases" (mkReadings 149 149 149) "token-4" demoAfter "job" "agent-c" 10 = Ok (inl demoLease).
Proof.
  split; [exact demo_confirmed|].
  exact (proj1 (proj2 (proj2 (proj2 (proj2 (lease_exclusive "leases" 100 demoGrant.1 [] "job" "token-1" demoLease demoAfter []
    demo_confirmed demo_grant_named (Forall_nil_2 _) demo_steps)))))
    (mkReadings 149 149 149) "token-4" "agent-c" 10 eq_refl eq_refl eq_refl eq_refl).
Defined.

(** The claim is not atomic: its check after the write only sees writes
    that came before it.  When a second claim of a free lease reads before the
    first one writes, and writes after the first one checked, both are granted. *)
Theorem lease_claims_race :
  let s := (∅ : gmap string string) in
  let ra := mkLease "job" "agent-a" "token-1" 100 150 in
  let rb := mkLease "job" "agent-b" "token-2" 100 150 in
  let sa := (put "leases" s ra).1 in
  let sb := (put "leases" sa rb).1 in
  claimRecord "leases" demoClk "token-1" s "job" "agent-a" 50 = Ok (inr ra) /\
  claimRecord "leases" demoClk "token-2" s "job" "agent-b" 50 = Ok (inr rb) /\
  (put "leases" s ra).2 = Ok tt /\ confirm "leases" 100 sa "job" "token-1" = Ok (ra, true) /\
  (put "leases" sa rb).2 = Ok tt /\ confirm "leases" 100 sb "job" "token-2" = Ok (rb, true).
Proof. cbn zeta. split_and!; vm_compute; reflexivity. Qed.

Definition demoAppended : gmap string string := (logAppend "log" 5 "u1" ∅ "first").1.

Lemma demo_appended_before : appended_before "log" demoAppended 7.
Proof.
  intros key _ [x H]. exists 5, "u1". unfold demoAppended in H.
  assert (kvView demoAppended = {["log/00000000000000000005-u1" := "first"]}) as E
    by (vm_compute; reflexivity).
  fold demoAppended in H. rewrite E in H. apply lookup_singleton_Some in H as [<- _].
  split; [vm_compute; reflexivity|]. unfold nano_range. lia.
Qed.

Lemma demo_logList : logList "log" demoAppended = Ok [mkLogEntry "00000000000000000005-u1" 5 "first"].
Proof. vm_compute. reflexivity. Qed.

Lemma demo_nano : nano_range 7.
Proof. unfold nano_range. lia. Qed.

Lemma appendlog_append_lists_last_witness :
  logList "log" (logAppend "log" 7 "u2" demoAppended "second").1 =
    Ok ([mkLogEntry "00000000000000000005-u1" 5 "first"]
        ++ [mkLogEntry "00000000000000000007-u2" 7 "second"]).
Proof.
  exact (proj2 (appendlog_append_lists_last "log" demoAppended 7 "u2" "second"
    (logAppend "log" 7 "u2" demoAppended "second").1 _ _ demo_nano demo_appended_before demo_logList
    eq_refl)).
Defined.
End Demo.
