(* ===== verification/Bech32.v ===== *)
(** * Bech32m addresses (pkg/key/bech32m.go, pkg/key/key.go)

    The encoder, the decoder and the address functions, with [byte] and
    [uint32] values as [Z] of their width.  Lower-casing a string with
    non-ASCII characters is a parameter ([unicodeLower]).  Bit regrouping is
    specified by the bit string of a list of groups ([bits_of_list]), the checksum
    by the linearity of its polynomial step ([cstep_lxor]). *)

From Stdlib Require Import Ascii Btauto.
From stdpp Require Import base numbers list strings.
From S2P Require Import Prelude GoStrings GoStrconv GoText.

Definition bech32mConst : Z := 0x2bc830a3.
Definition separator : string := "10".
Definition charset : string := "qpzry9x8gf2tvdw0s3jn54khce6mua7l".

(** ** Regrouping bits *)

(** The inner loop [for bits >= toBits] on the reversed result; [fuel] at
    least [bits] is enough, as [toBits] is positive. *)
Fixpoint emitGroups (fuel toBits : nat) (acc : Z) (bits : nat) (result : list Z) : nat * list Z :=
  match fuel with
  | O => (bits, result)
  | S fuel' =>
      if (toBits <=? bits)%nat then
        let bits := (bits - toBits)%nat in
        emitGroups fuel' toBits acc bits
          (result ++ [Z.land (Z.shiftr acc (Z.of_nat bits)) (Z.ones (Z.of_nat toBits))])
      else (bits, result)
  end.

Definition convertStep (fromBits toBits : nat) (st : Z * nat * list Z) (value : Z)
  : Z * nat * list Z :=
  let '(acc, bits, result) := st in
  let acc := uint32_wrap (Z.lor (Z.shiftl acc (Z.of_nat fromBits)) value) in
  let bits := (bits + fromBits)%nat in
  let '(bits, result) := emitGroups bits toBits acc bits result in
  (acc, bits, result).

Definition convertBits (data : list Z) (fromBits toBits : nat) (pad : bool) : result string (list Z) :=
  let '(acc, bits, result) := foldl (convertStep fromBits toBits) (0, 0%nat, []) data in
  let last := Z.land (uint32_wrap (Z.shiftl acc (Z.of_nat toBits - Z.of_nat bits)))
                (Z.ones (Z.of_nat toBits)) in
  if pad then Ok (if (0 <? bits)%nat then result ++ [last] else result)
  else if (fromBits <=? bits)%nat then Err "invalid padding"
  else if negb (Z.eqb last 0) then Err "non-zero padding"
  else Ok result.

(** ** Checksum *)

Definition gen : list Z := [0x3b6a57b2; 0x26508e6d; 0x1ea119fa; 0x3d4233dd; 0x2a1462b3].

Definition polyStep (chk v : Z) : Z :=
  let b := Z.shiftr chk 25 in
  let chk := Z.lxor (Z.shiftl (Z.land chk 0x1ffffff) 5) v in
  foldl (fun chk '(i, g) => if Z.eqb (Z.land (Z.shiftr b i) 1) 1 then Z.lxor chk g else chk)
    chk (combine [0; 1; 2; 3; 4] gen).

Definition polymod (values : list Z) : Z := foldl polyStep 1 values.

(** [byte(c >> 5)] and [byte(c & 31)] of the runes of the prefix. *)
Definition hrpExpand (hrp : string) : list Z :=
  map (fun c => uint8_wrap (Z.shiftr c 5)) (runes_of hrp) ++ [0]
  ++ map (fun c => Z.land c 31) (runes_of hrp).

Definition bech32mChecksum (hrp : string) (values : list Z) : list Z :=
  let mod_ := Z.lxor (polymod (hrpExpand hrp ++ values ++ [0; 0; 0; 0; 0; 0])) bech32mConst in
  map (fun i => Z.land (Z.shiftr mod_ (5 * (5 - i))) 31) [0; 1; 2; 3; 4; 5].

Definition bech32mVerify (hrp : string) (values : list Z) : bool :=
  Z.eqb (polymod (hrpExpand hrp ++ values)) bech32mConst.

(** ** Characters *)

(** [charset[v]]; the index is always below 32. *)
Definition charsetAt (v : Z) : ascii := default "q"%char (String.get (Z.to_nat v) charset).

(** [charsetRev[c]]; [None] is -1. *)
Definition charsetRev (c : ascii) : option Z := Z.of_nat <$> IndexByte charset c.

(** [strings.LastIndex] *)
Fixpoint LastIndex (s sep : string) : option nat :=
  match s with
  | EmptyString => if bool_decide (sep = "") then Some 0%nat else None
  | String c s' =>
      match LastIndex s' sep with
      | Some i => Some (S i)
      | None => if HasPrefix s sep then Some 0%nat else None
      end
  end.

(** The characters of the data part; a rune above 127 fails like a character
    outside the charset. *)
Fixpoint decodeChars (s : string) : option (list Z) :=
  match s with
  | EmptyString => Some []
  | String c s' =>
      match charsetRev c with
      | Some v => cons v <$> decodeChars s'
      | None => None
      end
  end.

Section Lower.
Variable unicodeLower : string -> string.

Definition encodeChars (values : list Z) : string :=
  foldr (fun v s => String (charsetAt v) s) "" values.

Definition Bech32mEncode (hrp : string) (version : Z) (data : list Z) : result string string :=
  if bool_decide (hrp = "") then Err "empty hrp"
  else if 31 <? version then Err "version must be 0-31"
  else match convertBits data 8 5 true with
       | Err e => Err ("converting bits: " +:+ e)
       | Ok converted =>
           let values := version :: converted in
           let values := values ++ bech32mChecksum hrp values in
           Ok (hrp +:+ separator +:+ encodeChars values)
       end.

Definition Bech32mDecode (s : string) : result string (string * Z * list Z) :=
  let s := ToLower unicodeLower s in
  match LastIndex s separator with
  | None => Err "no separator found"
  | Some sepIdx =>
      if (sepIdx <? 1)%nat then Err "no separator found"
      else
        let hrp := str_take sepIdx s in
        let dataStr := str_drop (sepIdx + 2) s in
        if bool_decide (hrp = "") then Err "empty hrp"
        else if slen dataStr <? 7 then Err "data too short"
        else match decodeChars dataStr with
             | None => Err "invalid character"
             | Some values =>
                 if negb (bech32mVerify hrp values) then Err "invalid checksum"
                 else
                   let values := take (length values - 6) values in
                   match values with
                   | [] => Err "unreachable"       (* at least one value is left *)
                   | version :: values =>
                       match convertBits values 5 8 false with
                       | Err e => Err ("converting bits: " +:+ e)
                       | Ok data => Ok (hrp, version, data)
                       end
                   end
             end
  end.

(** ** Addresses (key.go) *)

Definition HRP : string := "sky".
Definition VersionEd25519 : Z := 0.
Definition PublicKeySize : Z := 32.

(** [addr, _ := Bech32mEncode(...)] *)
Definition Address (publicKey : list Z) : string :=
  match Bech32mEncode HRP VersionEd25519 publicKey with Ok a => a | Err _ => "" end.

Definition ShortIDFromAddress (addr : string) : string :=
  if 13 <? slen addr then str_take 8 (str_drop 5 addr) else addr.

Definition ShortID (publicKey : list Z) : string := ShortIDFromAddress (Address publicKey).

Definition ParseAddress (address : string) : result string (list Z) :=
  match Bech32mDecode address with
  | Err e => Err ("invalid address: " +:+ e)
  | Ok (hrp, version, data) =>
      if bool_decide (hrp <> HRP) then Err "invalid hrp"
      else if negb (Z.eqb version VersionEd25519) then Err "unsupported key version"
      else if negb (Z.eqb (Z.of_nat (length data)) PublicKeySize) then Err "invalid public key length"
      else Ok data
  end.
End Lower.

(** ** The bits of a list of groups *)

(** The low [n] bits of [v], most significant first. *)
Fixpoint bitsn (n : nat) (v : Z) : list bool :=
  match n with
  | O => []
  | S n' => Z.testbit v (Z.of_nat n') :: bitsn n' v
  end.

Definition bits_of_list (n : nat) (l : list Z) : list bool := flat_map (bitsn n) l.

Lemma bitsn_length n v : length (bitsn n v) = n.
Proof. induction n; simpl; auto. Qed.

Lemma bits_of_list_length n l : length (bits_of_list n l) = (n * length l)%nat.
Proof.
  unfold bits_of_list. induction l as [|v l IH]; simpl; [lia|].
  rewrite length_app, bitsn_length, IH. lia.
Qed.

Lemma bits_of_list_app n l l' : bits_of_list n (l ++ l') = bits_of_list n l ++ bits_of_list n l'.
Proof. apply flat_map_app. Qed.

Lemma bitsn_app a b v : bitsn (a + b) v = bitsn a (Z.shiftr v (Z.of_nat b)) ++ bitsn b v.
Proof.
  induction a as [|a IH]; [done|]. simpl. rewrite IH. f_equal.
  rewrite Z.shiftr_spec by lia. f_equal. lia.
Qed.

(** The bits only depend on the low part. *)
Lemma bitsn_ext n v w :
  (forall i, 0 <= i < Z.of_nat n -> Z.testbit v i = Z.testbit w i) -> bitsn n v = bitsn n w.
Proof.
  induction n as [|n IH]; intros H; [done|]. simpl. f_equal; [apply H; lia|].
  apply IH. intros i Hi. apply H. lia.
Qed.

Lemma bitsn_inj n v w :
  0 <= v < 2 ^ Z.of_nat n -> 0 <= w < 2 ^ Z.of_nat n -> bitsn n v = bitsn n w -> v = w.
Proof.
  intros Hv Hw H. apply Z.bits_inj'. intros i Hi.
  destruct (Z.lt_ge_cases i (Z.of_nat n)) as [Hlt|Hge].
  - clear Hv Hw. induction n as [|n IH]; [lia|]. simpl in H. injection H as Hb H.
    destruct (decide (i = Z.of_nat n)) as [->|]; [done|]. apply IH; [done|lia].
  - by rewrite !(testbit_small _ (Z.of_nat n)) by lia.
Qed.

Lemma bits_of_list_inj n l l' :
  n <> 0%nat ->
  Forall (fun v => 0 <= v < 2 ^ Z.of_nat n) l -> Forall (fun v => 0 <= v < 2 ^ Z.of_nat n) l' ->
  bits_of_list n l = bits_of_list n l' -> l = l'.
Proof.
  intros Hn Hl. revert l'. induction Hl as [|v l Hv _ IH]; intros l' Hl' H.
  - destruct l' as [|w l']; [done|]. apply (f_equal length) in H.
    rewrite !bits_of_list_length in H. simpl in H. lia.
  - destruct Hl' as [|w l' Hw Hl'].
    + apply (f_equal length) in H. rewrite !bits_of_list_length in H. simpl in H. lia.
    + simpl in H. apply app_inj_1 in H as [H1 H2]; [|by rewrite !bitsn_length].
      f_equal; [by eapply bitsn_inj|by apply IH].
Qed.

Lemma bitsn_zero n : bitsn n 0 = repeat false n.
Proof. induction n as [|n IH]; [done|]. simpl. by rewrite IH, Z.testbit_0_l. Qed.

Definition group (n : nat) (v : Z) : Prop := 0 <= v < 2 ^ Z.of_nat n.

Lemma land_ones_group n v : group n (Z.land v (Z.ones (Z.of_nat n))).
Proof. unfold group. rewrite Z.land_ones by lia. apply Z.mod_pos_bound. lia. Qed.

Lemma bitsn_land_ones n v : bitsn n (Z.land v (Z.ones (Z.of_nat n))) = bitsn n v.
Proof.
  apply bitsn_ext. intros i Hi. rewrite Z.land_spec, Z.ones_spec_low by lia. apply andb_true_r.
Qed.

Lemma emitGroups_spec fuel m acc bits res b' res' :
  m <> 0%nat -> (bits <= fuel)%nat -> Forall (group m) res ->
  emitGroups fuel m acc bits res = (b', res') ->
  (b' < m)%nat /\ Forall (group m) res' /\
  bits_of_list m res' ++ bitsn b' acc = bits_of_list m res ++ bitsn bits acc.
Proof.
  intros Hm. revert bits res. induction fuel as [|fuel IH]; intros bits res Hf Hr H.
  - injection H as <- <-. split_and!; [lia|done|done].
  - cbn [emitGroups] in H. destruct (Nat.leb_spec m bits) as [Hle|Hlt].
    + apply IH in H as (H1 & H2 & ->); [|lia|apply Forall_app_2; [done|by repeat constructor; apply land_ones_group]].
      split_and!; [done..|]. rewrite bits_of_list_app, <- app_assoc. f_equal.
      unfold bits_of_list. simpl. rewrite app_nil_r, bitsn_land_ones, <- bitsn_app.
      f_equal. lia.
    + injection H as <- <-. by split_and!.
Qed.

Lemma bitsn_push bits n acc v :
  (bits + n <= 32)%nat -> group n v ->
  bitsn (bits + n) (uint32_wrap (Z.lor (Z.shiftl acc (Z.of_nat n)) v)) = bitsn bits acc ++ bitsn n v.
Proof.
  intros Hb Hv. rewrite (bitsn_ext _ _ (Z.lor (Z.shiftl acc (Z.of_nat n)) v)).
  - rewrite bitsn_app. f_equal; apply bitsn_ext; intros i Hi.
    + rewrite Z.shiftr_spec, Z.lor_spec, Z.shiftl_spec_high by lia.
      rewrite (testbit_small v (Z.of_nat n)), orb_false_r by (done || lia). f_equal. lia.
    + rewrite Z.lor_spec, Z.shiftl_spec_low by lia. done.
  - intros i Hi. unfold uint32_wrap. apply Z.mod_pow2_bits_low. lia.
Qed.

Definition convert_inv (n m : nat) (data : list Z) (st : Z * nat * list Z) : Prop :=
  let '(acc, bits, res) := st in
  (bits < m)%nat /\ Forall (group m) res /\
  bits_of_list m res ++ bitsn bits acc = bits_of_list n data.

Lemma convertStep_inv n m data st v :
  m <> 0%nat -> n <> 0%nat -> (m + n <= 32)%nat -> group n v ->
  convert_inv n m data st -> convert_inv n m (data ++ [v]) (convertStep n m st v).
Proof.
  intros Hm Hn Hs Hv. destruct st as [[acc bits] res]. intros (Hb & Hr & Heq).
  unfold convertStep. cbn zeta.
  destruct (emitGroups _ _ _ _ _) as [b' res'] eqn:E.
  apply emitGroups_spec in E as (H1 & H2 & H3); [|done|done|done].
  split_and!; [done..|]. rewrite H3, bitsn_push by (done || lia).
  rewrite app_assoc, Heq, bits_of_list_app. unfold bits_of_list at 3. simpl. by rewrite app_nil_r.
Qed.

Lemma convert_fold n m data :
  m <> 0%nat -> n <> 0%nat -> (m + n <= 32)%nat -> Forall (group n) data ->
  convert_inv n m data (foldl (convertStep n m) (0, 0%nat, []) data).
Proof.
  intros Hm Hn Hs. induction data as [|v data IH] using rev_ind; intros Hd.
  - split_and!; [lia|done|done].
  - apply Forall_app in Hd as [Hd Hv]. apply Forall_cons in Hv as [Hv _].
    rewrite foldl_snoc. apply convertStep_inv; auto.
Qed.

(** The padded group: the pending bits, then zeros. *)
Lemma bitsn_pad m bits acc :
  (bits < m <= 32)%nat ->
  bitsn m (Z.land (uint32_wrap (Z.shiftl acc (Z.of_nat m - Z.of_nat bits))) (Z.ones (Z.of_nat m)))
    = bitsn bits acc ++ repeat false (m - bits).
Proof.
  intros Hb. rewrite bitsn_land_ones.
  replace m with (bits + (m - bits))%nat at 1 by lia. rewrite bitsn_app. f_equal.
  - apply bitsn_ext. intros i Hi. rewrite Z.shiftr_spec by lia. unfold uint32_wrap.
    rewrite Z.mod_pow2_bits_low by lia. rewrite Z.shiftl_spec_high by lia. f_equal. lia.
  - rewrite <- bitsn_zero. apply bitsn_ext. intros i Hi. unfold uint32_wrap.
    rewrite Z.mod_pow2_bits_low by lia. rewrite Z.shiftl_spec_low, Z.testbit_0_l by lia. done.
Qed.

(** Padding extends the bit string to the next group, with zeros. *)
Lemma convertBits_pad n m data :
  m <> 0%nat -> n <> 0%nat -> (m + n <= 32)%nat -> Forall (group n) data ->
  exists res k, convertBits data n m true = Ok res /\ Forall (group m) res /\ (k < m)%nat /\
    bits_of_list m res = bits_of_list n data ++ repeat false k.
Proof.
  intros Hm Hn Hs Hd. pose proof (convert_fold n m data Hm Hn Hs Hd) as Hi. unfold convertBits.
  destruct (foldl _ _ data) as [[acc bits] res]. destruct Hi as (Hb & Hr & Heq).
  destruct (Nat.ltb_spec 0 bits) as [H0|H0].
  - eexists _, (m - bits)%nat. split; [done|]. split_and!; [|lia|].
    + apply Forall_app_2; [done|]. repeat constructor; apply land_ones_group.
    + rewrite bits_of_list_app. unfold bits_of_list at 2. simpl.
      rewrite app_nil_r, bitsn_pad by lia. by rewrite app_assoc, Heq.
  - exists res, 0%nat. replace bits with 0%nat in Heq by lia. simpl in Heq.
    rewrite app_nil_r in Heq. split_and!; [done|done|lia|]. simpl. by rewrite app_nil_r.
Qed.

Lemma repeat_false_inj a b : repeat false a = repeat false b -> a = b.
Proof. intros H%(f_equal length). by rewrite !repeat_length in H. Qed.

Lemma pad_zero_iff m bits acc :
  (bits < m <= 32)%nat ->
  Z.land (uint32_wrap (Z.shiftl acc (Z.of_nat m - Z.of_nat bits))) (Z.ones (Z.of_nat m)) = 0
    <-> bitsn bits acc = repeat false bits.
Proof.
  intros Hb. split.
  - intros H. pose proof (bitsn_pad m bits acc Hb) as E. rewrite H, bitsn_zero in E.
    replace m with (bits + (m - bits))%nat in E at 1 by lia. rewrite repeat_app in E.
    by apply app_inj_1 in E as [<- _]; [|by rewrite repeat_length, bitsn_length].
  - intros H. eapply (bitsn_inj m); [apply land_ones_group|lia|].
    rewrite bitsn_pad, H, bitsn_zero, <- repeat_app by done. f_equal. lia.
Qed.

(** Without padding: success exactly when fewer than [n] zero bits are left. *)
Lemma convertBits_nopad n m data res :
  m <> 0%nat -> n <> 0%nat -> (m + n <= 32)%nat -> Forall (group n) data ->
  convertBits data n m false = Ok res <->
  Forall (group m) res /\ exists k, (k < n)%nat /\ (k < m)%nat /\
    bits_of_list n data = bits_of_list m res ++ repeat false k.
Proof.
  intros Hm Hn Hs Hd. pose proof (convert_fold n m data Hm Hn Hs Hd) as Hi. unfold convertBits.
  destruct (foldl _ _ data) as [[acc bits] res0]. destruct Hi as (Hb & Hr & Heq).
  assert (forall k r, (k < m)%nat -> bits_of_list n data = bits_of_list m r ++ repeat false k ->
    k = bits /\ length r = length res0) as Hlen.
  { intros k r Hk H. rewrite H in Heq. apply (f_equal length) in Heq.
    rewrite !length_app, !bits_of_list_length, bitsn_length, repeat_length in Heq.
    assert (length r = length res0) by nia. split; [nia|done]. }
  destruct (Nat.leb_spec n bits) as [Hle|Hlt].
  { split; [done|]. intros (_ & k & Hk & Hkm & H). destruct (Hlen k res Hkm H). lia. }
  destruct (Z.eqb_spec (Z.land (uint32_wrap (Z.shiftl acc (Z.of_nat m - Z.of_nat bits)))
    (Z.ones (Z.of_nat m))) 0) as [Hz|Hz]; simpl.
  - apply pad_zero_iff in Hz; [|lia]. rewrite Hz in Heq. split.
    + intros [= <-]. split; [done|]. exists bits. by split_and!.
    + intros (Hg & k & Hk & Hkm & H). destruct (Hlen k res Hkm H) as [-> Hl]. f_equal.
      apply (bits_of_list_inj m); [done|done|done|]. rewrite H in Heq.
      by apply app_inv_tail in Heq.
  - split; [done|]. intros (Hg & k & Hk & Hkm & H). destruct (Hlen k res Hkm H) as [-> Hl].
    exfalso. apply Hz, pad_zero_iff; [lia|]. rewrite H in Heq.
    apply app_inj_1 in Heq as [_ E]; [done|]. by rewrite !bits_of_list_length, Hl.
Qed.

(** Regrouping bytes into 5-bit groups with padding and back without
    is the identity, for every byte string. *)
Lemma bech32_convertBits_roundtrip data :
  Forall (group 8) data ->
  exists groups, convertBits data 8 5 true = Ok groups /\ Forall (group 5) groups /\
    convertBits groups 5 8 false = Ok data.
Proof.
  intros Hd. destruct (convertBits_pad 8 5 data) as (res & k & H & Hg & Hk & Hb); [lia..|done|].
  exists res. split_and!; [done|done|]. apply convertBits_nopad; [lia..|done|].
  split; [done|]. exists k. split_and!; [lia|lia|done].
Qed.

(** ** The polynomial step is linear over exclusive or *)

Definition tap (x i g : Z) : Z := if Z.testbit x (25 + i) then g else 0.

Definition feedback (x : Z) : Z :=
  Z.lxor (Z.lxor (Z.lxor (Z.lxor (tap x 0 0x3b6a57b2) (tap x 1 0x26508e6d))
    (tap x 2 0x1ea119fa)) (tap x 3 0x3d4233dd)) (tap x 4 0x2a1462b3).

Lemma tap_test x i : 0 <= i -> Z.eqb (Z.land (Z.shiftr (Z.shiftr x 25) i) 1) 1 = Z.testbit x (25 + i).
Proof.
  intros Hi. rewrite Z.shiftr_shiftr by lia. change 1 with (Z.ones 1) at 1.
  rewrite Z.land_ones by lia. change (2 ^ 1) with 2.
  pose proof (Z.testbit_spec' x (25 + i) ltac:(lia)) as H. rewrite Z.shiftr_div_pow2 by lia.
  rewrite <- H. by destruct (Z.testbit x (25 + i)).
Qed.

Lemma if_lxor (b : bool) x g : (if b then Z.lxor x g else x) = Z.lxor x (if b then g else 0).
Proof. destruct b; [done|]. by rewrite Z.lxor_0_r. Qed.

Lemma polyStep_eq x v :
  polyStep x v = Z.lxor (Z.lxor (Z.shiftl (Z.land x 0x1ffffff) 5) v) (feedback x).
Proof.
  unfold polyStep, feedback, gen, tap. cbn [foldl combine].
  rewrite !tap_test by lia. rewrite !if_lxor. by rewrite !Z.lxor_assoc.
Qed.

Ltac xor_bits :=
  apply Z.bits_inj'; intros ? ?; rewrite ?Z.lxor_spec; btauto.

Lemma tap_lxor x y i g : tap (Z.lxor x y) i g = Z.lxor (tap x i g) (tap y i g).
Proof.
  unfold tap. rewrite Z.lxor_spec.
  by destruct (Z.testbit x _), (Z.testbit y _); rewrite ?Z.lxor_nilpotent, ?Z.lxor_0_r, ?Z.lxor_0_l.
Qed.

Lemma land_lxor x y m : Z.land (Z.lxor x y) m = Z.lxor (Z.land x m) (Z.land y m).
Proof.
  apply Z.bits_inj'. intros n _. rewrite !Z.land_spec, !Z.lxor_spec, !Z.land_spec.
  by destruct (Z.testbit x n), (Z.testbit y n), (Z.testbit m n).
Qed.

Lemma polyStep_lxor x y v w :
  polyStep (Z.lxor x y) (Z.lxor v w) = Z.lxor (polyStep x v) (polyStep y w).
Proof.
  rewrite !polyStep_eq. unfold feedback. rewrite !tap_lxor, land_lxor, Z.shiftl_lxor. xor_bits.
Qed.

Lemma foldl_polyStep_lxor x y vs ws :
  length vs = length ws ->
  foldl polyStep (Z.lxor x y) (zip_with Z.lxor vs ws)
    = Z.lxor (foldl polyStep x vs) (foldl polyStep y ws).
Proof.
  revert x y ws. induction vs as [|v vs IH]; intros x y [|w ws] Hl; try done.
  injection Hl as Hl. simpl. rewrite polyStep_lxor. by apply IH.
Qed.

Lemma zip_lxor_zeros ws : zip_with Z.lxor (repeat 0 (length ws)) ws = ws.
Proof. induction ws as [|w ws IH]; [done|]. simpl. by rewrite IH. Qed.

(** The effect of a suffix: the effect of zeros, and the suffix from state 0. *)
Lemma foldl_polyStep_split s ws :
  foldl polyStep s ws =
    Z.lxor (foldl polyStep s (repeat 0 (length ws))) (foldl polyStep 0 ws).
Proof.
  rewrite <- foldl_polyStep_lxor by by rewrite repeat_length.
  by rewrite zip_lxor_zeros, Z.lxor_0_r.
Qed.

(** *** Ranges *)

Lemma lxor_range n x y : 0 <= n -> 0 <= x < 2 ^ n -> 0 <= y < 2 ^ n -> 0 <= Z.lxor x y < 2 ^ n.
Proof.
  intros Hn Hx Hy. assert (0 <= Z.lxor x y) as H0 by (apply Z.lxor_nonneg; lia).
  split; [done|]. destruct (Z.eq_dec (Z.lxor x y) 0) as [->|Hne]; [lia|].
  apply Z.log2_lt_pow2; [lia|]. pose proof (Z.log2_lxor x y ltac:(lia) ltac:(lia)).
  destruct (Z.eq_dec n 0) as [->|Hn0].
  { assert (x = 0) as -> by lia. assert (y = 0) as -> by lia. done. }
  assert (forall z, 0 <= z < 2 ^ n -> Z.log2 z < n) as Hl.
  { intros z Hz. destruct (Z.eq_dec z 0) as [->|]; [simpl; lia|]. apply Z.log2_lt_pow2; lia. }
  pose proof (Hl x Hx). pose proof (Hl y Hy). lia.
Qed.

Lemma tap_range x i g : 0 <= g < 2 ^ 30 -> 0 <= tap x i g < 2 ^ 30.
Proof. intros Hg. unfold tap. case_match; lia. Qed.

Lemma polyStep_range x v : 0 <= v < 2 ^ 30 -> 0 <= polyStep x v < 2 ^ 30.
Proof.
  intros Hv. rewrite polyStep_eq. unfold feedback.
  repeat apply lxor_range; try lia; try (apply tap_range; lia).
  rewrite Z.shiftl_mul_pow2 by lia. change 0x1ffffff with (Z.ones 25). rewrite Z.land_ones by lia.
  pose proof (Z.mod_pos_bound x (2 ^ 25) ltac:(lia)). lia.
Qed.

Lemma foldl_polyStep_range s vs :
  0 <= s < 2 ^ 30 -> Forall (fun v => 0 <= v < 2 ^ 30) vs -> 0 <= foldl polyStep s vs < 2 ^ 30.
Proof.
  intros Hs Hvs. revert s Hs. induction Hvs as [|v vs Hv _ IH]; intros s Hs; [done|].
  simpl. apply IH. by apply polyStep_range.
Qed.

Lemma zeros_range k : Forall (fun v => 0 <= v < 2 ^ 30) (repeat 0 k).
Proof. induction k as [|k IH]; constructor; [lia|done]. Qed.

(** A state below 25 bits is only shifted. *)
Lemma polyStep_small x v : 0 <= x < 2 ^ 25 -> 0 <= v < 32 -> polyStep x v = x * 32 + v.
Proof.
  intros Hx Hv. rewrite polyStep_eq.
  assert (feedback x = 0) as ->.
  { unfold feedback, tap. by rewrite !(testbit_small x 25) by lia. }
  rewrite Z.lxor_0_r. change 0x1ffffff with (Z.ones 25). rewrite Z.land_ones, Z.mod_small by lia.
  rewrite Z.lxor_lor; [rewrite shiftl_lor; lia|].
  apply Z.bits_inj'. intros i Hi. rewrite Z.land_spec, Z.bits_0.
  destruct (Z.lt_ge_cases i 5); [by rewrite Z.shiftl_spec_low|].
  rewrite (testbit_small v 5) by lia. apply andb_false_r.
Qed.

Definition pack (cs : list Z) : Z := foldl (fun a c => a * 32 + c) 0 cs.

Lemma polymod_six c0 c1 c2 c3 c4 c5 :
  Forall (group 5) [c0; c1; c2; c3; c4; c5] ->
  foldl polyStep 0 [c0; c1; c2; c3; c4; c5] = pack [c0; c1; c2; c3; c4; c5].
Proof.
  unfold group. intros H. repeat (apply Forall_cons in H as [? H]). simpl in *.
  unfold pack. simpl. rewrite (polyStep_small 0 c0) by lia.
  rewrite (polyStep_small _ c1), (polyStep_small _ c2), (polyStep_small _ c3),
    (polyStep_small _ c4), (polyStep_small _ c5) by lia. lia.
Qed.

(** *** The checksum is the one suffix that verifies *)

Definition digits6 (m : Z) : list Z := map (fun i => Z.land (Z.shiftr m (5 * (5 - i))) 31) [0; 1; 2; 3; 4; 5].

Lemma digit_group m i : group 5 (Z.land (Z.shiftr m i) 31).
Proof. change 31 with (Z.ones (Z.of_nat 5)). apply land_ones_group. Qed.

Lemma digits6_group m : Forall (group 5) (digits6 m).
Proof. unfold digits6. repeat (constructor; [apply digit_group|]). constructor. Qed.

Lemma digit_val_eq m i : 0 <= i -> Z.land (Z.shiftr m i) 31 = m / 2 ^ i mod 32.
Proof.
  intros Hi. change 31 with (Z.ones 5). rewrite Z.land_ones, Z.shiftr_div_pow2 by lia. done.
Qed.

Lemma pack_digits6 m : 0 <= m < 2 ^ 30 -> pack (digits6 m) = m.
Proof.
  intros Hm. unfold pack, digits6. cbn [map foldl]. rewrite !digit_val_eq by lia.
  change (5 * (5 - 0)) with 25. change (5 * (5 - 1)) with 20. change (5 * (5 - 2)) with 15.
  change (5 * (5 - 3)) with 10. change (5 * (5 - 4)) with 5. change (5 * (5 - 5)) with 0.
  change (2 ^ 0) with 1. rewrite Z.div_1_r.
  assert (m / 2 ^ 25 = m / 32 / 32 / 32 / 32 / 32) as -> by (by rewrite !Z.div_div by lia).
  assert (m / 2 ^ 20 = m / 32 / 32 / 32 / 32) as -> by (by rewrite !Z.div_div by lia).
  assert (m / 2 ^ 15 = m / 32 / 32 / 32) as -> by (by rewrite !Z.div_div by lia).
  assert (m / 2 ^ 10 = m / 32 / 32) as -> by (by rewrite !Z.div_div by lia).
  change (2 ^ 5) with 32.
  pose proof (Z.div_mod m 32 ltac:(lia)). pose proof (Z.div_mod (m / 32) 32 ltac:(lia)).
  pose proof (Z.div_mod (m / 32 / 32) 32 ltac:(lia)).
  pose proof (Z.div_mod (m / 32 / 32 / 32) 32 ltac:(lia)).
  pose proof (Z.div_mod (m / 32 / 32 / 32 / 32) 32 ltac:(lia)).
  rewrite (Z.mod_small (m / 32 / 32 / 32 / 32 / 32)).
  - lia.
  - rewrite !Z.div_div by lia. simpl Z.mul.
    split; [apply Z.div_pos; lia|apply Z.div_lt_upper_bound; lia].
Qed.

Lemma pack_inj cs cs' :
  length cs = length cs' -> Forall (group 5) cs -> Forall (group 5) cs' -> pack cs = pack cs' -> cs = cs'.
Proof.
  unfold pack. revert cs'. induction cs as [|c cs IH] using rev_ind; intros cs' Hl Hc Hc' H.
  - by destruct cs'.
  - destruct cs' as [|c' cs' _] using rev_ind; [rewrite length_app in Hl; simpl in Hl; lia|].
    rewrite !length_app in Hl. simpl in Hl. rewrite !foldl_snoc in H.
    apply Forall_app in Hc as [Hc Hx], Hc' as [Hc' Hx'].
    apply Forall_cons in Hx as [Hx _], Hx' as [Hx' _]. unfold group in Hx, Hx'. simpl in Hx, Hx'.
    assert (c = c' /\ foldl (fun a c => a * 32 + c) 0 cs = foldl (fun a c => a * 32 + c) 0 cs')
      as [-> Hp] by lia.
    f_equal. apply IH; [lia|done|done|done].
Qed.

Lemma bech32mChecksum_digits hrp values :
  bech32mChecksum hrp values =
    digits6 (Z.lxor (foldl polyStep (polymod (hrpExpand hrp ++ values)) (repeat 0 6)) bech32mConst).
Proof. unfold bech32mChecksum, polymod. by rewrite !foldl_app. Qed.

Lemma bech32mChecksum_group hrp values : Forall (group 5) (bech32mChecksum hrp values).
Proof. rewrite bech32mChecksum_digits. apply digits6_group. Qed.

Definition byte_list (l : list Z) : Prop := Forall (fun v => 0 <= v < 256) l.

Lemma hrpExpand_bytes hrp : byte_list (hrpExpand hrp).
Proof.
  unfold byte_list, hrpExpand. apply Forall_app_2; [|apply Forall_cons; split; [lia|]];
    apply Forall_map, Forall_forall; intros c _; simpl.
  - apply uint8_wrap_range.
  - pose proof (digit_group c 0) as H. rewrite Z.shiftr_0_r in H. unfold group in H. simpl in H. lia.
Qed.

Lemma polymod_range l : byte_list l -> 0 <= polymod l < 2 ^ 30.
Proof.
  intros H. apply foldl_polyStep_range; [lia|]. eapply Forall_impl; [done|]. simpl. lia.
Qed.

Lemma group_byte l : Forall (group 5) l -> byte_list l.
Proof. intros H. eapply Forall_impl; [done|]. unfold group. simpl. lia. Qed.

Lemma verify_iff hrp values cs :
  Forall (group 5) values -> Forall (group 5) cs -> length cs = 6%nat ->
  bech32mVerify hrp (values ++ cs) = true <-> cs = bech32mChecksum hrp values.
Proof.
  intros Hv Hc Hl. unfold bech32mVerify. rewrite Z.eqb_eq, app_assoc.
  unfold polymod. rewrite foldl_app. fold (polymod (hrpExpand hrp ++ values)).
  set (s := polymod (hrpExpand hrp ++ values)).
  assert (0 <= s < 2 ^ 30) as Hs.
  { apply polymod_range, Forall_app_2; [apply hrpExpand_bytes|by apply group_byte]. }
  rewrite foldl_polyStep_split, Hl, bech32mChecksum_digits. fold s.
  set (z := foldl polyStep s (repeat 0 6)).
  assert (0 <= z < 2 ^ 30) as Hz by (apply foldl_polyStep_range; [done|apply zeros_range]).
  assert (0 <= Z.lxor z bech32mConst < 2 ^ 30) as Hm
    by (apply lxor_range; [lia|done|unfold bech32mConst; lia]).
  assert (foldl polyStep 0 cs = pack cs) as ->.
  { destruct cs as [|c0 [|c1 [|c2 [|c3 [|c4 [|c5 [|]]]]]]]; try done. by apply polymod_six. }
  split.
  - intros H. apply pack_inj; [by rewrite Hl|done|apply digits6_group|].
    rewrite pack_digits6 by done. rewrite <- H. xor_bits.
  - intros ->. rewrite pack_digits6 by done. xor_bits.
Qed.

(** ** A single wrong group never verifies *)

(** The five taps differ in their low five bits, so that a step loses nothing. *)
Lemma feedback_low x : 0 <= x < 2 ^ 30 -> Z.land (feedback x) 31 = 0 -> x < 2 ^ 25.
Proof.
  intros Hx H.
  assert (Z.testbit x 25 = false /\ Z.testbit x 26 = false /\ Z.testbit x 27 = false /\
    Z.testbit x 28 = false /\ Z.testbit x 29 = false) as (H0 & H1 & H2 & H3 & H4).
  { unfold feedback, tap in H. revert H.
    change (25 + 0) with 25; change (25 + 1) with 26; change (25 + 2) with 27;
      change (25 + 3) with 28; change (25 + 4) with 29.
    destruct (Z.testbit x 25), (Z.testbit x 26), (Z.testbit x 27), (Z.testbit x 28),
      (Z.testbit x 29); vm_compute; intros Hq; try discriminate Hq; by split_and!. }
  assert (x = x mod 2 ^ 25) as ->; [|apply Z.mod_pos_bound; lia].
  apply Z.bits_inj'. intros i Hi. destruct (Z.lt_ge_cases i 25).
  - by rewrite Z.mod_pow2_bits_low.
  - rewrite Z.mod_pow2_bits_high by lia.
    destruct (Z.lt_ge_cases i 30); [|by apply (testbit_small x 30); lia].
    assert (i = 25 \/ i = 26 \/ i = 27 \/ i = 28 \/ i = 29) as [->|[->|[->|[->| ->]]]] by lia; done.
Qed.

Lemma polyStep_zero x : 0 <= x < 2 ^ 30 -> polyStep x 0 = 0 -> x = 0.
Proof.
  intros Hx H. assert (x < 2 ^ 25) as Hlt.
  { apply feedback_low; [done|]. assert (Z.land (polyStep x 0) 31 = 0) as Hl by by rewrite H.
    rewrite polyStep_eq, Z.lxor_0_r, land_lxor in Hl.
    assert (Z.land (Z.shiftl (Z.land x 33554431) 5) 31 = 0) as E.
    { change 31 with (Z.ones 5). rewrite Z.land_ones, Z.shiftl_mul_pow2 by lia.
      by apply Z.mod_mul. }
    by rewrite E, Z.lxor_0_l in Hl. }
  rewrite polyStep_small in H by lia. lia.
Qed.

Lemma foldl_polyStep_zeros k x :
  0 <= x < 2 ^ 30 -> foldl polyStep x (repeat 0 k) = 0 -> x = 0.
Proof.
  revert x. induction k as [|k IH]; intros x Hx H; [done|]. simpl in H.
  apply IH in H; [by apply polyStep_zero|]. apply polyStep_range. lia.
Qed.

(** Two sequences that differ in one group have different remainders. *)
Lemma polymod_one_error a v w b :
  0 <= v < 2 ^ 30 -> 0 <= w < 2 ^ 30 -> polymod (a ++ v :: b) = polymod (a ++ w :: b) -> v = w.
Proof.
  intros Hv Hw H. unfold polymod in H. rewrite !foldl_app in H. simpl in H.
  set (s := foldl polyStep 1 a) in *.
  rewrite (foldl_polyStep_split (polyStep s v)), (foldl_polyStep_split (polyStep s w)) in H.
  assert (foldl polyStep (polyStep s v) (repeat 0 (length b)) =
    foldl polyStep (polyStep s w) (repeat 0 (length b))) as E.
  { apply (f_equal (Z.lxor (foldl polyStep 0 b))) in H.
    rewrite !(Z.lxor_comm (foldl polyStep 0 b)), !Z.lxor_assoc, Z.lxor_nilpotent, !Z.lxor_0_r in H.
    done. }
  assert (Z.lxor v w = 0) as Hx.
  { apply (foldl_polyStep_zeros (length b)); [by apply lxor_range|].
    assert (Z.lxor v w = Z.lxor (polyStep s v) (polyStep s w)) as ->.
    { rewrite !polyStep_eq. xor_bits. }
    pose proof (foldl_polyStep_lxor (polyStep s v) (polyStep s w) (repeat 0 (length b))
      (repeat 0 (length b)) eq_refl) as Hl.
    assert (zip_with Z.lxor (repeat 0 (length b)) (repeat 0 (length b)) = repeat 0 (length b)) as Hz
      by (clear; induction (length b) as [|n IH]; [done|]; simpl; by f_equal).
    by rewrite E, Z.lxor_nilpotent, Hz in Hl. }
  by apply Z.lxor_eq.
Qed.

(** ** Characters *)

Lemma IndexByte_charset c v : charsetRev c = Some v -> 0 <= v < 32 /\ charsetAt v = c.
Proof.
  destruct c as [b0 b1 b2 b3 b4 b5 b6 b7]. intros H.
  destruct b0, b1, b2, b3, b4, b5, b6, b7; vm_compute in H;
    try discriminate H; injection H as <-; (split; [lia|reflexivity]).
Qed.

Lemma charsetAt_rev v : 0 <= v < 32 -> charsetRev (charsetAt v) = Some v.
Proof.
  intros Hv.
  assert (Forall (fun v => charsetRev (charsetAt v) = Some v) (map Z.of_nat (seq 0 32))) as H
    by (apply (bool_decide_unpack _); vm_compute; done).
  rewrite Forall_forall in H. apply H, list_elem_of_In, in_map_iff.
  exists (Z.to_nat v). split; [lia|]. apply in_seq. lia.
Qed.

Lemma decodeChars_group s vs : decodeChars s = Some vs -> Forall (group 5) vs /\ encodeChars vs = s.
Proof.
  revert vs. induction s as [|c s IH]; intros vs H; simpl in H; [by injection H as <-|].
  destruct (charsetRev c) as [v|] eqn:E; [|done].
  destruct (decodeChars s) as [vs'|]; [|done]. injection H as <-.
  apply IndexByte_charset in E as [Hv Hc]. destruct (IH vs' eq_refl) as [Hg He].
  split; [constructor; [done|done]|]. simpl. by rewrite Hc, He.
Qed.

Lemma decode_encodeChars vs : Forall (group 5) vs -> decodeChars (encodeChars vs) = Some vs.
Proof.
  induction 1 as [|v vs Hv _ IH]; [done|]. simpl. rewrite charsetAt_rev, IH by done. done.
Qed.

Lemma encodeChars_length vs : String.length (encodeChars vs) = length vs.
Proof. induction vs as [|v vs IH]; [done|]. simpl. by rewrite IH. Qed.

(** Charset characters are lower case, and none is the separator's first. *)
Definition plain_char (c : ascii) : bool := ascii_byte c && Ascii.eqb (lowerChar c) c.

Lemma charset_plain v :
  0 <= v < 32 -> plain_char (charsetAt v) = true /\ Ascii.eqb (charsetAt v) "1" = false.
Proof.
  intros Hv. apply charsetAt_rev in Hv. unfold charsetRev in Hv. set (c := charsetAt v) in *.
  revert Hv. destruct c as [b0 b1 b2 b3 b4 b5 b6 b7].
  destruct b0, b1, b2, b3, b4, b5, b6, b7; vm_compute; intros H; try discriminate H; by split.
Qed.

Definition no_one (s : string) : bool := str_forall (fun c => negb (Ascii.eqb c "1")) s.

Lemma encodeChars_plain vs :
  Forall (group 5) vs -> str_forall plain_char (encodeChars vs) = true /\ no_one (encodeChars vs) = true.
Proof.
  induction 1 as [|v vs Hv _ [IH1 IH2]]; [done|]. destruct (charset_plain v Hv) as [H1 H2].
  unfold no_one in *. simpl. by rewrite H1, H2, IH1, IH2.
Qed.

Lemma lowerASCII_plain s : str_forall plain_char s = true -> lowerASCII s = s.
Proof.
  induction s as [|c s IH]; [done|]. simpl. intros [H1 H2]%andb_prop.
  apply andb_prop in H1 as [_ H1]. apply Ascii.eqb_eq in H1. by rewrite H1, IH.
Qed.

Lemma plain_ascii s : str_forall plain_char s = true -> str_forall ascii_byte s = true.
Proof.
  induction s as [|c s IH]; [done|]. simpl. intros [H1 H2]%andb_prop.
  apply andb_prop in H1 as [-> _]. by apply IH.
Qed.

(** ** The separator *)

Lemma LastIndex_no_one d : no_one d = true -> LastIndex d "10" = None.
Proof.
  induction d as [|c d IH]; [done|]. unfold no_one in *. cbn [str_forall LastIndex].
  intros [Hc Hd]%andb_prop. rewrite IH by done. assert (HasPrefix (String c d) "10" = false) as ->; [|done].
  apply HasPrefix_false. intros t E. rewrite !str_app_cons in E. injection E as -> _.
  by rewrite Ascii.eqb_refl in Hc.
Qed.

Lemma LastIndex_app hrp d :
  no_one d = true -> LastIndex (hrp +:+ "10" +:+ d) "10" = Some (String.length hrp).
Proof.
  intros Hd. induction hrp as [|c hrp IH].
  - rewrite str_app_nil_l, !str_app_cons, str_app_nil_l. cbn [LastIndex].
    rewrite LastIndex_no_one by done.
    assert (HasPrefix (String "0" d) "10" = false) as -> by done.
    assert (HasPrefix (String "1" (String "0" d)) "10" = true) as ->; [|done].
    apply HasPrefix_spec. by exists d.
  - rewrite str_app_cons. cbn [LastIndex]. by rewrite IH.
Qed.

Lemma LastIndex_spec s sep i :
  LastIndex s sep = Some i -> exists a b, s = a +:+ sep +:+ b /\ String.length a = i.
Proof.
  revert i. induction s as [|c s IH]; intros i H; cbn [LastIndex] in H.
  - case_bool_decide; [|done]. subst. injection H as <-. by exists "", "".
  - destruct (LastIndex s sep) as [j|] eqn:E.
    + injection H as <-. destruct (IH j eq_refl) as (a & b & -> & <-).
      exists (String c a), b. by rewrite str_app_cons.
    + destruct (HasPrefix (String c s) sep) eqn:Ep; [|done]. injection H as <-.
      apply HasPrefix_spec in Ep as [t ->]. by exists "", t.
Qed.

Section Roundtrip.
Variable unicodeLower : string -> string.

(** Decoding a string split at its separator. *)
Lemma Bech32mDecode_split s hrp d :
  ToLower unicodeLower s = hrp +:+ separator +:+ d -> hrp <> "" -> no_one d = true ->
  Bech32mDecode unicodeLower s =
    if slen d <? 7 then Err "data too short"
    else match decodeChars d with
         | None => Err "invalid character"
         | Some values =>
             if negb (bech32mVerify hrp values) then Err "invalid checksum"
             else match take (length values - 6) values with
                  | [] => Err "unreachable"
                  | version :: values =>
                      match convertBits values 5 8 false with
                      | Err e => Err ("converting bits: " +:+ e)
                      | Ok data => Ok (hrp, version, data)
                      end
                  end
         end.
Proof.
  intros Hs Hh Hd. unfold Bech32mDecode. rewrite Hs. unfold separator. rewrite LastIndex_app by done.
  assert ((String.length hrp <? 1)%nat = false) as -> by (destruct hrp; done).
  rewrite str_take_app. rewrite bool_decide_eq_false_2 by done.
  assert (str_drop (String.length hrp + 2) (hrp +:+ "10" +:+ d) = d) as ->; [|done].
  replace (String.length hrp + 2)%nat with (String.length (hrp +:+ "10"))
    by (by rewrite str_length_app).
  by rewrite <- str_app_assoc, str_drop_app.
Qed.

Lemma encode_groups hrp version data s :
  0 <= version -> Forall (group 8) data -> Bech32mEncode hrp version data = Ok s ->
  hrp <> "" /\ exists converted, convertBits data 8 5 true = Ok converted /\
    Forall (group 5) (version :: converted) /\
    s = hrp +:+ separator +:+ encodeChars ((version :: converted) ++ bech32mChecksum hrp (version :: converted)).
Proof.
  intros H0 Hd H. unfold Bech32mEncode in H. case_bool_decide as Hh; [done|].
  destruct (Z.ltb_spec 31 version) as [|Hv]; [done|]. split; [done|].
  destruct (convertBits_pad 8 5 data) as (res & k & Hc & Hg & _); [lia..|done|].
  rewrite Hc in H. injection H as <-. exists res. split_and!; [done| |done].
  constructor; [unfold group; simpl; lia|done].
Qed.

Lemma roundtrip_values hrp version data res :
  str_forall plain_char hrp = true -> hrp <> "" -> Forall (group 8) data ->
  convertBits data 8 5 true = Ok res -> Forall (group 5) (version :: res) ->
  Bech32mDecode unicodeLower
    (hrp +:+ separator +:+ encodeChars ((version :: res) ++ bech32mChecksum hrp (version :: res)))
    = Ok (hrp, version, data).
Proof.
  intros Hp Hh Hd Hc Hg.
  set (values := version :: res) in *. set (all := values ++ bech32mChecksum hrp values).
  assert (Forall (group 5) all) as Hall by (apply Forall_app_2; [done|apply bech32mChecksum_group]).
  destruct (encodeChars_plain all Hall) as [Hpl Hno].
  assert (str_forall plain_char (hrp +:+ separator +:+ encodeChars all) = true) as Hps
    by (rewrite !str_forall_app, Hp, Hpl; done).
  rewrite (Bech32mDecode_split _ hrp (encodeChars all)); [| |done|done].
  2:{ unfold ToLower. by rewrite (plain_ascii _ Hps), lowerASCII_plain. }
  assert (length (bech32mChecksum hrp values) = 6%nat) as Hcl by done.
  assert (length all = S (length res + 6)) as Hl by (unfold all; rewrite length_app, Hcl; simpl; lia).
  unfold slen. rewrite encodeChars_length, (proj2 (Z.ltb_ge _ _)) by lia.
  rewrite decode_encodeChars by done.
  pose proof (proj2 (verify_iff hrp values _ Hg (bech32mChecksum_group _ _) Hcl) eq_refl) as Hver.
  fold all in Hver. rewrite Hver. cbn [negb].
  replace (length all - 6)%nat with (length values) by (rewrite Hl; simpl; lia).
  unfold all. rewrite take_app_length. unfold values at 1.
  destruct (convertBits_pad 8 5 data) as (res' & k & Hc' & Hg' & Hk & Hb); [lia..|done|].
  rewrite Hc in Hc'. injection Hc' as <-.
  rewrite (proj2 (convertBits_nopad 5 8 res data ltac:(lia) ltac:(lia) ltac:(lia) Hg')); [done|].
  split; [done|]. exists k. split_and!; [lia|lia|done].
Qed.

(** Every encoded string decodes to the prefix, version and data it was
    made from, for a lower-case ASCII prefix, a version up to 31 and any bytes. *)
Lemma bech32_roundtrip hrp version data s :
  str_forall plain_char hrp = true -> 0 <= version -> Forall (group 8) data ->
  Bech32mEncode hrp version data = Ok s ->
  Bech32mDecode unicodeLower s = Ok (hrp, version, data).
Proof.
  intros Hp H0 Hd He. destruct (encode_groups hrp version data s H0 Hd He) as (Hh & res & Hc & Hg & ->).
  by apply roundtrip_values.
Qed.

(** What a successful decoding saw. *)
Lemma Bech32mDecode_inv s hrp version data :
  Bech32mDecode unicodeLower s = Ok (hrp, version, data) ->
  hrp <> "" /\ exists rest, Forall (group 5) (version :: rest) /\ convertBits rest 5 8 false = Ok data /\
    ToLower unicodeLower s = hrp +:+ separator +:+
      encodeChars ((version :: rest) ++ bech32mChecksum hrp (version :: rest)).
Proof.
  intros H. unfold Bech32mDecode in H.
  destruct (LastIndex (ToLower unicodeLower s) separator) as [i|] eqn:Ei; [|done].
  destruct (Nat.ltb_spec i 1) as [|Hi]; [done|].
  apply LastIndex_spec in Ei as (a & b & Es & Hl). rewrite Es in H.
  assert (str_take i (a +:+ separator +:+ b) = a) as Et by (by rewrite <- Hl, str_take_app).
  assert (str_drop (i + 2) (a +:+ separator +:+ b) = b) as Edr.
  { replace (i + 2)%nat with (String.length (a +:+ separator)) by (rewrite str_length_app; simpl; lia).
    by rewrite <- str_app_assoc, str_drop_app. }
  rewrite Et, Edr in H. case_bool_decide; [done|].
  destruct (Z.ltb_spec (slen b) 7) as [|Hlen]; [done|].
  destruct (decodeChars b) as [all|] eqn:Ed; [|done].
  destruct (decodeChars_group b all Ed) as [Hg Hb].
  assert (7 <= length all)%nat as Hall.
  { unfold slen in Hlen. rewrite <- Hb, encodeChars_length in Hlen. lia. }
  destruct (bech32mVerify a all) eqn:Ev; [|done]. cbn [negb] in H.
  set (values := take (length all - 6) all) in *. set (cs := drop (length all - 6) all).
  assert (all = values ++ cs) as Eall by (unfold values, cs; by rewrite take_drop).
  assert (length cs = 6%nat) as Hcs by (unfold cs; rewrite length_drop; lia).
  rewrite Eall in Hg. apply Forall_app in Hg as [Hgv Hgc].
  rewrite Eall in Ev. apply verify_iff in Ev; [|done..].
  destruct values as [|v rest] eqn:Evs; [done|].
  destruct (convertBits rest 5 8 false) as [d|] eqn:Ec; [|done].
  injection H as <- <- <-. split; [done|]. exists rest. split_and!; [done|done|].
  by rewrite Es, <- Hb, Eall, Ev.
Qed.

Lemma canonical_encode s hrp version data :
  Bech32mDecode unicodeLower s = Ok (hrp, version, data) ->
  Bech32mEncode hrp version data = Ok (ToLower unicodeLower s).
Proof.
  intros H. apply Bech32mDecode_inv in H as (Hh & rest & Hg & Hc & ->).
  apply Forall_cons in Hg as [Hv Hg]. unfold group in Hv. simpl in Hv.
  apply convertBits_nopad in Hc as (Hd & k & Hk & _ & Hb); [|lia..|done].
  destruct (convertBits_pad 8 5 data) as (res & k' & Hc & Hg' & Hk' & Hb'); [lia..|done|].
  assert (res = rest) as ->.
  { pose proof (f_equal length Hb) as L. pose proof (f_equal length Hb') as L'.
    rewrite !length_app, !bits_of_list_length, !repeat_length in L, L'.
    apply (bits_of_list_inj 5); [lia|done|done|]. rewrite Hb, Hb'. do 2 f_equal. lia. }
  unfold Bech32mEncode. rewrite bool_decide_eq_false_2 by done.
  rewrite (proj2 (Z.ltb_ge _ _)) by lia. by rewrite Hc.
Qed.

(** Decoding accepts canonical encodings only: a string that decodes
    is, up to letter case, the encoding of what it decodes to.  So no two
    strings that differ in more than case decode to the same key. *)
Theorem bech32_canonical s hrp version data :
  Bech32mDecode unicodeLower s = Ok (hrp, version, data) ->
  Bech32mEncode hrp version data = Ok (ToLower unicodeLower s).
Proof. apply canonical_encode. Qed.

Lemma encodeChars_inj vs ws :
  Forall (group 5) vs -> Forall (group 5) ws -> encodeChars vs = encodeChars ws -> vs = ws.
Proof.
  intros Hv Hw H. apply (f_equal decodeChars) in H. rewrite !decode_encodeChars in H by done.
  by injection H.
Qed.

Lemma decodeChars_app a b :
  decodeChars (a +:+ b) = decodeChars a ≫= fun va => app va <$> decodeChars b.
Proof.
  induction a as [|c a IH]; [rewrite str_app_nil_l; simpl; by destruct (decodeChars b)|]. rewrite str_app_cons. simpl.
  rewrite IH. destruct (charsetRev c); [|done]. destruct (decodeChars a); [|done].
  simpl. by destruct (decodeChars b).
Qed.

(** The decoded groups of a well-formed string verify. *)
Lemma decode_verifies s hrp d :
  ToLower unicodeLower s = hrp +:+ separator +:+ d -> no_one d = true -> hrp <> "" ->
  is_ok (Bech32mDecode unicodeLower s) = true ->
  exists vs, decodeChars d = Some vs /\ bech32mVerify hrp vs = true.
Proof.
  intros Hs Hd Hh H. rewrite (Bech32mDecode_split s hrp d) in H by done.
  case_match; [done|]. destruct (decodeChars d) as [vs|]; [|done]. exists vs. split; [done|].
  by destruct (bech32mVerify hrp vs).
Qed.

(** The checksum detects every single wrong character of the data part:
    when a string is accepted, replacing one character after the separator by
    any other lower-case ASCII character but the separator's "1" gives a string
    that is refused. *)
Theorem bech32_detects_one_error hrp a c c' b :
  hrp <> "" -> str_forall plain_char (hrp +:+ separator +:+ a +:+ String c b) = true ->
  no_one (a +:+ String c b) = true ->
  is_ok (Bech32mDecode unicodeLower (hrp +:+ separator +:+ a +:+ String c b)) = true ->
  plain_char c' = true -> c' <> "1"%char -> c' <> c ->
  is_ok (Bech32mDecode unicodeLower (hrp +:+ separator +:+ a +:+ String c' b)) = false.
Proof.
  intros Hh Hp Hno H Hp' Hc1 Hne. apply not_true_iff_false. intros H'. apply Hne. symmetry.
  assert (str_forall plain_char (hrp +:+ separator +:+ a +:+ String c' b) = true) as Hp2.
  { rewrite !str_forall_app in *. cbn [str_forall] in *. rewrite !andb_true_iff in *. tauto. }
  assert (no_one (a +:+ String c' b) = true) as Hno2.
  { unfold no_one in *. rewrite !str_forall_app in *. cbn [str_forall] in *.
    rewrite !andb_true_iff, !negb_true_iff, !Ascii.eqb_neq in *. tauto. }
  assert (forall x, str_forall plain_char x = true -> ToLower unicodeLower x = x) as Hlow.
  { intros x Hx. unfold ToLower. by rewrite plain_ascii, lowerASCII_plain. }
  destruct (decode_verifies _ _ _ (Hlow _ Hp) Hno Hh H) as (vs & Hvs & Hver).
  destruct (decode_verifies _ _ _ (Hlow _ Hp2) Hno2 Hh H') as (vs' & Hvs' & Hver').
  rewrite decodeChars_app in Hvs, Hvs'. destruct (decodeChars a) as [va|]; [|done].
  simpl in Hvs, Hvs'. destruct (charsetRev c) as [x|] eqn:Ex; [|done].
  destruct (charsetRev c') as [y|] eqn:Ey; [|done].
  destruct (decodeChars b) as [vb|]; [|done]. injection Hvs as <-. injection Hvs' as <-.
  destruct (IndexByte_charset c x Ex) as [Hx Ec], (IndexByte_charset c' y Ey) as [Hy Ec'].
  unfold bech32mVerify in Hver, Hver'. apply Z.eqb_eq in Hver, Hver'.
  rewrite app_assoc in Hver, Hver'.
  assert (x = y) as ->; [|by rewrite <- Ec, <- Ec'].
  apply (polymod_one_error (hrpExpand hrp ++ va) x y vb); [lia|lia|congruence].
Qed.

(** An address parses back to the public key it was made from, and
    nothing else parses to that key except the address in another case. *)
Theorem address_roundtrip key address :
  length key = 32%nat -> Forall (group 8) key ->
  ParseAddress unicodeLower (Address key) = Ok key /\
  (ParseAddress unicodeLower address = Ok key -> ToLower unicodeLower address = Address key).
Proof.
  intros Hl Hg. unfold Address.
  assert (exists s, Bech32mEncode HRP VersionEd25519 key = Ok s) as [s Hs].
  { unfold Bech32mEncode. destruct (convertBits_pad 8 5 key) as (res & k & -> & _); [lia..|done|].
    by eexists. }
  rewrite Hs. split.
  - unfold ParseAddress.
    assert (Bech32mDecode unicodeLower s = Ok (HRP, VersionEd25519, key)) as ->.
    { destruct (encode_groups HRP VersionEd25519 key s) as (Hh & res & Hc & Hgr & ->);
        [unfold VersionEd25519; lia|done|done|]. by apply roundtrip_values. }
    by rewrite bool_decide_eq_false_2, Hl by naive_solver.
  - unfold ParseAddress. destruct (Bech32mDecode unicodeLower address) as [[[h v] d]|] eqn:E; [|done].
    case_bool_decide as Hh; [done|]. destruct (Z.eqb_spec v VersionEd25519) as [->|]; [|done].
    simpl. case_match; [done|]. intros [= ->].
    assert (h = HRP) as -> by (destruct (decide (h = HRP)); [done|tauto]).
    apply canonical_encode in E. rewrite Hs in E. by injection E.
Qed.
End Roundtrip.

(** ** Concrete addresses *)

Definition demoKey : list Z :=
  [1; 2; 3; 4; 5; 6; 7; 8; 9; 10; 11; 12; 13; 14; 15; 16; 17; 18; 19; 20; 21; 22; 23; 24; 25; 26;
   27; 28; 29; 30; 31; 255].

Definition demoAddress : string := "sky10qqypqxpq9qcrsszg2pvxq6rs0zqg3yyc5z5tpwxqergd3c8g7rlls8hggxe".

Lemma demoKey_bytes : Forall (group 8) demoKey.
Proof. apply (bool_decide_unpack _). vm_compute. exact I. Qed.


Lemma demo_encode : Bech32mEncode HRP VersionEd25519 demoKey = Ok demoAddress.
Proof. vm_compute. reflexivity. Qed.


(** The address in upper case, as a QR code carries it. *)
Definition demoUpper : string := "SKY10QQYPQXPQ9QCRSSZG2PVXQ6RS0ZQG3YYC5Z5TPWXQERGD3C8G7RLLS8HGGXE".

Lemma demo_decode_upper : Bech32mDecode id demoUpper = Ok (HRP, VersionEd25519, demoKey).
Proof. vm_compute. reflexivity. Qed.

Lemma demo_lower_upper : ToLower id demoUpper = demoAddress.
Proof. vm_compute. reflexivity. Qed.

Lemma bech32_canonical_witness :
  Bech32mEncode HRP VersionEd25519 demoKey = Ok (ToLower id demoUpper).
Proof. exact (bech32_canonical id demoUpper HRP VersionEd25519 demoKey demo_decode_upper). Defined.

Lemma demo_decode_ok : is_ok (Bech32mDecode id (HRP +:+ separator +:+ "q" +:+
    String "q" "ypqxpq9qcrsszg2pvxq6rs0zqg3yyc5z5tpwxqergd3c8g7rlls8hggxe")) = true.
Proof. vm_compute. reflexivity. Qed.

Lemma bech32_detects_one_error_witness :
  is_ok (Bech32mDecode id (HRP +:+ separator +:+ "q" +:+
    String "p" "ypqxpq9qcrsszg2pvxq6rs0zqg3yyc5z5tpwxqergd3c8g7rlls8hggxe")) = false.
Proof.
  exact (bech32_detects_one_error id HRP "q" "q" "p"
    "ypqxpq9qcrsszg2pvxq6rs0zqg3yyc5z5tpwxqergd3c8g7rlls8hggxe" ltac:(discriminate) eq_refl eq_refl
    demo_decode_ok eq_refl ltac:(discriminate) ltac:(discriminate)).
Defined.

Lemma demo_key_length : length demoKey = 32%nat.
Proof. reflexivity. Qed.

Lemma demo_parse_upper : ParseAddress id demoUpper = Ok demoKey.
Proof. vm_compute. reflexivity. Qed.

Lemma address_roundtrip_witness :
  ParseAddress id (Address demoKey) = Ok demoKey /\ ToLower id demoUpper = Address demoKey.
Proof.
  exact (conj (proj1 (address_roundtrip id demoKey demoUpper demo_key_length demoKey_bytes))
    (proj2 (address_roundtrip id demoKey demoUpper demo_key_length demoKey_bytes) demo_parse_upper)).
Defined.
