(* ===== verification/Mailbox.v ===== *)
(** * The agents' mailbox (pkg/agent/mailbox: types.go, index.go, store.go, lifecycle.go, stats.go, backend.go)

    A durable item has a timeline of events and at most one claim; its state is
    derived from the last event and the claim.  The store keeps an index of all
    records over a backend, which is a class here: [E] is what a call of the
    backend meets (the clock, fresh identifiers, failures), and an operation
    takes one [E] per call.  The lifecycle sweep expires, dead-letters and
    removes records. *)

From Stdlib Require Import Ascii.
From stdpp Require Import base numbers list gmap strings.
From S2P Require Import Prelude GoStrings GoStrconv GoText Collections Bech32.

(** ** Items, events and claims (types.go) *)

Definition ScopePrivateNetwork : string := "private_network".
Definition ScopeSky10Network : string := "sky10_network".
Definition PrincipalKindLocalAgent : string := "local_agent".
Definition PrincipalKindCapabilityQueue : string := "capability_queue".

Definition ItemKindMessage : string := "message".
Definition ItemKindTaskRequest : string := "task_request".
Definition ItemKindApprovalRequest : string := "approval_request".
Definition ItemKindPaymentRequired : string := "payment_required".
Definition ItemKindPaymentProof : string := "payment_proof".
Definition ItemKindResult : string := "result".
Definition ItemKindReceipt : string := "receipt".

Definition EventTypeCreated : string := "created".
Definition EventTypeHandedOff : string := "handed_off".
Definition EventTypeDelivered : string := "delivered".
Definition EventTypeDeliveryFailed : string := "delivery_failed".
Definition EventTypeSeen : string := "seen".
Definition EventTypeClaimed : string := "claimed".
Definition EventTypeAssigned : string := "assigned".
Definition EventTypeLeaseExpired : string := "lease_expired".
Definition EventTypeApproved : string := "approved".
Definition EventTypeRejected : string := "rejected".
Definition EventTypeCompleted : string := "completed".
Definition EventTypeCancelled : string := "cancelled".
Definition EventTypeExpired : string := "expired".
Definition EventTypeDeadLettered : string := "dead_lettered".

Record Principal := mkPrincipal {
  pnID : string;
  pnKind : string;
  pnScope : string;
  pnDeviceHint : string;
  pnRouteHint : string
}.

#[export] Instance Principal_eq_dec : EqDecision Principal.
Proof. solve_decision. Defined.

Definition Principal_Validate (p : Principal) : result string unit :=
  if isBlank (pnID p) then Err "principal id is required" else Ok tt.

Definition ScopeOrDefault (p : Principal) : string :=
  let scope := TrimSpace (pnScope p) in if bool_decide (scope = "") then ScopePrivateNetwork else scope.

Definition RouteAddress (unicodeLower : string -> string) (p : Principal) : string :=
  if bool_decide (ScopeOrDefault p <> ScopeSky10Network) then ""
  else
    let hint := TrimSpace (pnRouteHint p) in
    if bool_decide (hint <> "") && is_ok (ParseAddress unicodeLower hint) then hint
    else
      let id := TrimSpace (pnID p) in
      if bool_decide (id = "") then ""
      else if is_ok (ParseAddress unicodeLower id) then id else "".

Record Item := mkItem {
  itID : string;
  itKind : string;
  itFrom : Principal;
  itTo : option Principal;
  itTargetSkill : string;
  itSessionID : string;
  itRequestID : string;
  itReplyTo : string;
  itIdempotencyKey : string;
  itPayloadRef : option PayloadRef;
  itPayloadInline : string;
  itPriority : string;
  itExpiresAt : Time;
  itCreatedAt : Time
}.

Definition noPrincipal : Principal := mkPrincipal "" "" "" "" "".
Definition noItem : Item := mkItem "" "" noPrincipal None "" "" "" "" "" None "" "" zeroTime zeroTime.

Definition ValidateForCreate (i : Item) : result string unit :=
  if isBlank (itKind i) then Err "item kind is required"
  else match Principal_Validate (itFrom i) with
  | Err e => Err ("item from: " +:+ e)
  | Ok _ =>
      match (match itTo i with Some p => Principal_Validate p | None => Ok tt end) with
      | Err e => Err ("item to: " +:+ e)
      | Ok _ =>
          if bool_decide (itTo i = None) && isBlank (itTargetSkill i)
          then Err "item recipient or target skill is required"
          else match (match itPayloadRef i with Some r => PayloadRef_Validate r | None => Ok tt end) with
          | Err e => Err ("item payload ref: " +:+ e)
          | Ok _ => Ok tt
          end
      end
  end.

Definition Scope (i : Item) : string :=
  match itTo i with Some p => ScopeOrDefault p | None => ScopeOrDefault (itFrom i) end.

Definition skillQueue (i : Item) : string :=
  let skill := TrimSpace (itTargetSkill i) in
  if bool_decide (skill <> "") then "skill:" +:+ skill else "".

Definition QueueName (i : Item) : string :=
  match itTo i with
  | Some p => if bool_decide (pnKind p = PrincipalKindCapabilityQueue) then TrimSpace (pnID p) else skillQueue i
  | None => skillQueue i
  end.

Definition RecipientID (i : Item) : string :=
  match itTo i with Some p => TrimSpace (pnID p) | None => "" end.

(** A nil [Meta] differs from an empty one in a lookup of the empty value. *)
Record Event := mkEvent {
  evItemID : string;
  evID : string;
  evType : string;
  evActor : Principal;
  evLeaseID : string;
  evError : string;
  evTimestamp : Time;
  evMeta : option (gmap string string)
}.

Definition Event_Validate (e : Event) : result string unit :=
  if isBlank (evItemID e) then Err "event item_id is required"
  else if isBlank (evType e) then Err "event type is required"
  else Ok tt.

Record QueueClaim := mkClaim {
  cQueue : string;
  cItemID : string;
  cHolder : string;
  cToken : string;
  cAcquiredAt : Time;
  cExpiresAt : Time
}.

Inductive State :=
| StateQueued | StateDelivered | StateClaimed | StateAssigned | StateApproved | StateCompleted
| StateRejected | StateCancelled | StateExpired | StateFailed | StateDeadLettered.

#[export] Instance State_eq_dec : EqDecision State.
Proof. solve_decision. Defined.

Definition stateTerminal (s : State) : bool :=
  match s with
  | StateAssigned | StateCompleted | StateRejected | StateCancelled | StateExpired | StateDeadLettered => true
  | _ => false
  end.

Definition stateFailed (s : State) : bool :=
  match s with StateFailed | StateCancelled | StateExpired | StateDeadLettered => true | _ => false end.

Definition statePending (s : State) : bool :=
  match s with StateQueued | StateClaimed | StateFailed => true | _ => false end.

Record MailRecord := mkRecord {
  rcItem : Item;
  rcEvents : list Event;
  rcClaim : option QueueClaim;
  rcState : State
}.

Definition LatestEvent (r : MailRecord) : option Event := last (rcEvents r).
Definition Terminal (r : MailRecord) : bool := stateTerminal (rcState r).
Definition Failed (r : MailRecord) : bool := stateFailed (rcState r).

(** ** Derived states (index.go) *)

Definition stateForEvent (eventType : string) : State :=
  if bool_decide (eventType = EventTypeDelivered) || bool_decide (eventType = EventTypeSeen) then StateDelivered
  else if bool_decide (eventType = EventTypeHandedOff) then StateQueued
  else if bool_decide (eventType = EventTypeClaimed) then StateClaimed
  else if bool_decide (eventType = EventTypeAssigned) then StateAssigned
  else if bool_decide (eventType = EventTypeLeaseExpired) then StateQueued
  else if bool_decide (eventType = EventTypeApproved) then StateApproved
  else if bool_decide (eventType = EventTypeCompleted) then StateCompleted
  else if bool_decide (eventType = EventTypeRejected) then StateRejected
  else if bool_decide (eventType = EventTypeCancelled) then StateCancelled
  else if bool_decide (eventType = EventTypeExpired) then StateExpired
  else if bool_decide (eventType = EventTypeDeadLettered) then StateDeadLettered
  else if bool_decide (eventType = EventTypeDeliveryFailed) then StateFailed
  else StateQueued.

Definition deriveState (events : list Event) (claim : option QueueClaim) : State :=
  let latest := match last events with Some e => stateForEvent (evType e) | None => StateQueued end in
  match claim with
  | Some _ => if negb (stateTerminal latest) && negb (bool_decide (latest = StateFailed)) then StateClaimed else latest
  | None => if bool_decide (latest = StateClaimed) then StateQueued else latest
  end.

(** ** The index (index.go) *)

Record recordState := mkRecordState {
  rsItem : Item;
  rsEvents : list Event;
  rsClaim : option QueueClaim
}.

Abbreviation recordIndex := (gmap string recordState).

Definition noRecordState : recordState := mkRecordState noItem [] None.

Definition upsertItem (item : Item) (idx : recordIndex) : recordIndex :=
  match idx !! itID item with
  | None => <[itID item := mkRecordState item [] None]> idx
  | Some st => <[itID item := mkRecordState item (rsEvents st) (rsClaim st)]> idx
  end.

Definition appendEventIdx (itemID : string) (ev : Event) (idx : recordIndex) : recordIndex :=
  let st := default noRecordState (idx !! itemID) in
  <[itemID := mkRecordState (rsItem st) (rsEvents st ++ [ev]) (rsClaim st)]> idx.

Definition setClaim (c : QueueClaim) (idx : recordIndex) : recordIndex :=
  let st := default noRecordState (idx !! cItemID c) in
  <[cItemID c := mkRecordState (rsItem st) (rsEvents st) (Some c)]> idx.

Definition clearClaim (itemID : string) (idx : recordIndex) : recordIndex :=
  match idx !! itemID with
  | None => idx
  | Some st => <[itemID := mkRecordState (rsItem st) (rsEvents st) None]> idx
  end.

Definition buildRecord (st : recordState) : MailRecord :=
  mkRecord (rsItem st) (rsEvents st) (rsClaim st) (deriveState (rsEvents st) (rsClaim st)).

Definition present (st : recordState) : bool := negb (bool_decide (itID (rsItem st) = "")).

Definition idxGet (idx : recordIndex) (itemID : string) : option MailRecord :=
  match idx !! itemID with
  | Some st => if present st then Some (buildRecord st) else None
  | None => None
  end.

Definition recordActivityAt (r : MailRecord) : Time :=
  match LatestEvent r with Some e => evTimestamp e | None => itCreatedAt (rcItem r) end.

Definition activity_lt (a b : MailRecord) : bool :=
  if Z.eqb (recordActivityAt a) (recordActivityAt b) then itID (rcItem a) <s? itID (rcItem b)
  else Z.ltb (recordActivityAt b) (recordActivityAt a).

(** The loop over the index and the sort. *)
Definition idxList (fn : MailRecord -> bool) (idx : recordIndex) : list MailRecord :=
  sortBy activity_lt
    (List.filter fn (map buildRecord (List.filter present (map_to_list idx).*2))).

Definition listInbox (principalID : string) : recordIndex -> list MailRecord :=
  idxList (fun r =>
    let recipient := RecipientID (rcItem r) in
    if bool_decide (recipient = "") then false
    else if bool_decide (principalID <> "") && bool_decide (recipient <> principalID) then false
    else negb (Terminal r) && negb (Failed r)).

Definition sentBy (principalID : string) (r : MailRecord) : bool :=
  negb (bool_decide (pnID (itFrom (rcItem r)) = "")) &&
  negb (bool_decide (principalID <> "") && bool_decide (pnID (itFrom (rcItem r)) <> principalID)).

Definition listOutbox (principalID : string) : recordIndex -> list MailRecord :=
  idxList (fun r => sentBy principalID r && negb (Terminal r)).

Definition listQueue (queue : string) : recordIndex -> list MailRecord :=
  idxList (fun r =>
    let name := QueueName (rcItem r) in
    if bool_decide (name = "") then false
    else if bool_decide (queue <> "") && bool_decide (name <> queue) then false
    else negb (Terminal r)).

Definition listSent (principalID : string) : recordIndex -> list MailRecord :=
  idxList (fun r => sentBy principalID r && (Terminal r && negb (Failed r))).

Definition listFailed (principalID : string) : recordIndex -> list MailRecord :=
  idxList (fun r =>
    if bool_decide (principalID = "") then Failed r
    else if bool_decide (pnID (itFrom (rcItem r)) = principalID) then Failed r
    else bool_decide (RecipientID (rcItem r) = principalID) && Failed r).

(** ** The backend (backend.go) *)

Record Snapshot := mkSnapshot {
  snItems : list Item;
  snEvents : gmap string (list Event);
  snClaims : list QueueClaim
}.

(** A backend stores the event it is given under an identifier and a time of its own. *)
Definition stored_as (ev stored : Event) : Prop :=
  evItemID stored = evItemID ev /\ evType stored = evType ev /\ evActor stored = evActor ev /\
  evLeaseID stored = evLeaseID ev /\ evError stored = evError ev /\ evMeta stored = evMeta ev.

Class MailboxBackend (B E : Type) := {
  bLoad : E -> B -> result string Snapshot;
  bCreateItem : E -> B -> Item -> B * result string unit;
  bAppendEvent : E -> B -> Event -> B * result string Event;
  bClaim : E -> B -> string -> string -> string -> Duration -> B * result string (QueueClaim * bool);
  bRenew : E -> B -> string -> string -> string -> string -> Duration -> B * result string (QueueClaim * bool);
  bRelease : E -> B -> string -> string -> string -> string -> B * result string bool;
  bDeleteItem : E -> B -> string -> B * result string unit;
  bContainsItem : B -> string -> bool;
  bAppendEvent_stored e b ev b' stored : bAppendEvent e b ev = (b', Ok stored) -> stored_as ev stored;
  bClaim_item e b queue itemID holder ttl b' c :
    bClaim e b queue itemID holder ttl = (b', Ok (c, true)) -> cItemID c = itemID
}.

Definition event_lt (a b : Event) : bool :=
  if Z.eqb (evTimestamp a) (evTimestamp b) then evID a <s? evID b else Z.ltb (evTimestamp a) (evTimestamp b).

Definition newRecordIndex (snap : Snapshot) : recordIndex :=
  let idx := foldl (fun idx item => upsertItem item idx) ∅ (snItems snap) in
  let idx := foldl (fun idx '(itemID, events) =>
    foldl (fun idx ev => appendEventIdx itemID ev idx) idx (sortBy event_lt events)) idx (map_to_list (snEvents snap)) in
  foldl (fun idx c => setClaim c idx) idx (snClaims snap).

(** ** Lifecycle policies (lifecycle.go) *)

Record RetryPolicy := mkRetry { MaxAttempts : Z; InitialBackoff : Duration; MaxBackoff : Duration }.

(** The loop of [Delay]: [n] doublings are left. *)
Fixpoint delayLoop (p : RetryPolicy) (n : nat) (delay : Duration) : Duration + Duration :=
  match n with
  | O => inr delay
  | S n =>
      let delay := int64_wrap (delay * 2) in
      if Z.ltb 0 (MaxBackoff p) && Z.leb (MaxBackoff p) delay then inl (MaxBackoff p) else delayLoop p n delay
  end.

Definition Delay (p : RetryPolicy) (attempt : Z) : Duration :=
  if Z.leb attempt 0 || Z.leb (InitialBackoff p) 0 then 0
  else match delayLoop p (Z.to_nat (attempt - 1)) (InitialBackoff p) with
  | inl d => d
  | inr delay => if Z.ltb 0 (MaxBackoff p) && Z.ltb (MaxBackoff p) delay then MaxBackoff p else delay
  end.

Record LifecyclePolicy := mkPolicy {
  DefaultTTL : Duration;
  Retry : RetryPolicy;
  DeliveredRetention : Duration;
  TerminalRetention : Duration;
  AckExplicit : bool
}.

Definition DefaultLifecyclePolicy (kind : string) : LifecyclePolicy :=
  if bool_decide (kind = ItemKindApprovalRequest) then
    mkPolicy (72 * hour) (mkRetry 8 minute hour) 0 (14 * 24 * hour) true
  else if bool_decide (kind = ItemKindPaymentRequired) || bool_decide (kind = ItemKindPaymentProof) then
    mkPolicy (30 * minute) (mkRetry 10 (15 * second) (10 * minute)) 0 (30 * 24 * hour) true
  else if bool_decide (kind = ItemKindResult) then
    mkPolicy (24 * hour) (mkRetry 16 (10 * second) (30 * minute)) 0 (14 * 24 * hour) true
  else if bool_decide (kind = ItemKindReceipt) then
    mkPolicy (7 * 24 * hour) (mkRetry 16 (10 * second) (30 * minute)) 0 (90 * 24 * hour) true
  else if bool_decide (kind = ItemKindTaskRequest) then
    mkPolicy (24 * hour) (mkRetry 12 (15 * second) (15 * minute)) 0 (14 * 24 * hour) true
  else if bool_decide (kind = ItemKindMessage) then
    mkPolicy (24 * hour) (mkRetry 8 (5 * second) (5 * minute)) hour (7 * 24 * hour) true
  else
    mkPolicy (24 * hour) (mkRetry 8 (10 * second) (10 * minute)) 0 (7 * 24 * hour) true.

Definition deliveryFailureCount (r : MailRecord) : Z :=
  Z.of_nat (length (List.filter (fun e => bool_decide (evType e = EventTypeDeliveryFailed)) (rcEvents r))).

Definition latestEventOfType (r : MailRecord) (eventType : string) : option Event :=
  last (List.filter (fun e => bool_decide (evType e = eventType)) (rcEvents r)).

Definition latestFailureError (r : MailRecord) : string :=
  match latestEventOfType r EventTypeDeliveryFailed with Some e => evError e | None => "" end.

Definition hasRecordEvent (r : MailRecord) (eventType metaKey metaValue : string) : bool :=
  existsb (fun e => bool_decide (evType e = eventType) &&
    (bool_decide (metaKey = "") ||
     match evMeta e with Some m => bool_decide (default "" (m !! metaKey) = metaValue) | None => false end))
    (rcEvents r).

Definition NextRetryAt (r : MailRecord) : option Time :=
  if negb (bool_decide (rcState r = StateFailed)) then None
  else
    let policy := DefaultLifecyclePolicy (itKind (rcItem r)) in
    let failures := deliveryFailureCount r in
    if Z.ltb 0 (MaxAttempts (Retry policy)) && Z.leb (MaxAttempts (Retry policy)) failures then None
    else match latestEventOfType r EventTypeDeliveryFailed with
    | None => None
    | Some lastFailure => Some (evTimestamp lastFailure + Delay (Retry policy) failures)
    end.

Definition lifecycleActor (scope : string) : Principal :=
  mkPrincipal "system:mailbox" PrincipalKindLocalAgent scope "" "".

Definition recordActivityTime (r : MailRecord) : Time :=
  match LatestEvent r with Some e => evTimestamp e | None => itCreatedAt (rcItem r) end.

Definition expiredAt (now : Time) (item : Item) : bool :=
  negb (Z.eqb (itExpiresAt item) zeroTime) && Z.leb (itExpiresAt item) now.

Definition shouldCompactDeliveredRecord (now : Time) (r : MailRecord) (policy : LifecyclePolicy) : bool :=
  if negb (bool_decide (rcState r = StateDelivered)) then false
  else if expiredAt now (rcItem r) then true
  else if Z.leb (DeliveredRetention policy) 0 then false
  else
    let activity := recordActivityTime r in
    if Z.eqb activity zeroTime then false else Z.leb (activity + DeliveredRetention policy) now.

Definition applyCreateDefaults (now : Time) (i : Item) : Item :=
  let policy := DefaultLifecyclePolicy (itKind i) in
  if Z.eqb (itExpiresAt i) zeroTime && Z.ltb 0 (DefaultTTL policy) then
    mkItem (itID i) (itKind i) (itFrom i) (itTo i) (itTargetSkill i) (itSessionID i) (itRequestID i) (itReplyTo i)
      (itIdempotencyKey i) (itPayloadRef i) (itPayloadInline i) (itPriority i) (now + DefaultTTL policy) (itCreatedAt i)
  else i.

(** ** The store (store.go) *)

Section Store.
Context {B E : Type} `{Backend : !MailboxBackend B E}.

Record Store := mkStore { sBackend : B; sIndex : recordIndex }.

Definition Reload (e : E) (s : Store) : Store * result string unit :=
  match bLoad e (sBackend s) with
  | Err x => (s, Err ("load mailbox snapshot: " +:+ x))
  | Ok snap => (mkStore (sBackend s) (newRecordIndex snap), Ok tt)
  end.

Definition NewStore (e : E) (b : B) : result string Store :=
  match Reload e (mkStore b ∅) with (_, Err x) => Err x | (s, Ok _) => Ok s end.

Definition storeGet (s : Store) (itemID : string) : option MailRecord := idxGet (sIndex s) itemID.

Definition notFound (itemID : string) : string := "mailbox item " +:+ itemID +:+ " not found".
Definition notClaimable (itemID : string) : string := "mailbox item " +:+ itemID +:+ " is not claimable".

(** [appendEvent]: the index is left alone. *)
Definition appendEvent (e : E) (s : Store) (ev : Event) : Store * result string Event :=
  match Event_Validate ev with
  | Err x => (s, Err x)
  | Ok _ => let '(b, r) := bAppendEvent e (sBackend s) ev in (mkStore b (sIndex s), r)
  end.

Definition AppendEvent (e : E) (s : Store) (ev : Event) : Store * result string MailRecord :=
  if bool_decide (evItemID ev = "") then (s, Err "event item_id is required")
  else match storeGet s (evItemID ev) with
  | None => (s, Err (notFound (evItemID ev)))
  | Some _ =>
      match appendEvent e s ev with
      | (s, Err x) => (s, Err x)
      | (s, Ok stored) =>
          let s := mkStore (sBackend s) (appendEventIdx (evItemID stored) stored (sIndex s)) in
          (s, Ok (default (mkRecord noItem [] None StateQueued) (idxGet (sIndex s) (evItemID stored))))
      end
  end.

(** The identifier and the time of a new item, where it has none. *)
Definition stampItem (newID : string) (now : Time) (i : Item) : Item :=
  mkItem (if bool_decide (itID i = "") then newID else itID i) (itKind i) (itFrom i) (itTo i) (itTargetSkill i)
    (itSessionID i) (itRequestID i) (itReplyTo i) (itIdempotencyKey i) (itPayloadRef i) (itPayloadInline i)
    (itPriority i) (itExpiresAt i) (if Z.eqb (itCreatedAt i) zeroTime then now else itCreatedAt i).

Definition createdEvent (i : Item) : Event :=
  mkEvent (itID i) "" EventTypeCreated (itFrom i) "" "" zeroTime None.

(** [now0] and [now1] are the readings of the clock for the creation time and
    the default expiry. *)
Definition Create (e : nat -> E) (newID : string) (now0 now1 : Time) (s : Store) (item : Item)
  : Store * result string MailRecord :=
  let item := applyCreateDefaults now1 (stampItem newID now0 item) in
  match ValidateForCreate item with
  | Err x => (s, Err x)
  | Ok _ =>
      match bCreateItem (e 0%nat) (sBackend s) item with
      | (b, Err x) => (mkStore b (sIndex s), Err x)
      | (b, Ok _) =>
          let s := mkStore b (upsertItem item (sIndex s)) in
          match appendEvent (e 1%nat) s (createdEvent item) with
          | (s, Err x) => ((Reload (e 2%nat) s).1, Err x)
          | (s, Ok _) =>
              match storeGet s (itID item) with
              | None => (s, Err ("mailbox item " +:+ itID item +:+ " not found after create"))
              | Some r => (s, Ok r)
              end
          end
      end
  end.

Definition claimedEvent (itemID queue : string) (actor : Principal) (token : string) : Event :=
  mkEvent itemID "" EventTypeClaimed actor token "" zeroTime (Some {[ "queue" := queue ]}).

Definition storeClaim (e : nat -> E) (s : Store) (itemID : string) (actor : Principal) (ttl : Duration)
  : Store * result string (MailRecord * bool) :=
  match storeGet s itemID with
  | None => (s, Err (notFound itemID))
  | Some r =>
      let queue := QueueName (rcItem r) in
      if bool_decide (queue = "") then (s, Err (notClaimable itemID))
      else match Principal_Validate actor with
      | Err x => (s, Err ("claim actor: " +:+ x))
      | Ok _ =>
          match bClaim (e 0%nat) (sBackend s) queue itemID (pnID actor) ttl with
          | (b, Err x) => (mkStore b (sIndex s), Err x)
          | (b, Ok (c, ok)) =>
              let s := mkStore b (sIndex s) in
              if negb ok then (s, Ok (default r (storeGet s itemID), false))
              else
                let s := mkStore b (setClaim c (sIndex s)) in
                match AppendEvent (e 1%nat) s (claimedEvent itemID queue actor (cToken c)) with
                | (s, Err x) => ((Reload (e 2%nat) s).1, Err x)
                | (s, Ok updated) => (s, Ok (updated, true))
                end
          end
      end
  end.

Definition storeRelease (e : E) (s : Store) (itemID holder token : string)
  : Store * result string (MailRecord * bool) :=
  match storeGet s itemID with
  | None => (s, Err (notFound itemID))
  | Some r =>
      let queue := QueueName (rcItem r) in
      if bool_decide (queue = "") then (s, Err (notClaimable itemID))
      else match bRelease e (sBackend s) queue itemID holder token with
      | (b, Err x) => (mkStore b (sIndex s), Err x)
      | (b, Ok released) =>
          let idx := if released then clearClaim itemID (sIndex s) else sIndex s in
          (mkStore b idx, Ok (default r (idxGet idx itemID), released))
      end
  end.

Definition storeRenew (e : E) (s : Store) (itemID holder token : string) (ttl : Duration)
  : Store * result string (MailRecord * bool) :=
  match storeGet s itemID with
  | None => (s, Err (notFound itemID))
  | Some r =>
      let queue := QueueName (rcItem r) in
      if bool_decide (queue = "") then (s, Err (notClaimable itemID))
      else match bRenew e (sBackend s) queue itemID holder token ttl with
      | (b, Err x) => (mkStore b (sIndex s), Err x)
      | (b, Ok (c, ok)) =>
          let idx := if ok then setClaim c (sIndex s) else sIndex s in
          (mkStore b idx, Ok (default r (idxGet idx itemID), ok))
      end
  end.

Definition listMatching (fn : MailRecord -> bool) (s : Store) : list MailRecord := idxList fn (sIndex s).
Definition findFirstMatching (fn : MailRecord -> bool) (s : Store) : option MailRecord := head (listMatching fn s).

Definition ListByRequestID (requestID : string) (s : Store) : list MailRecord :=
  listMatching (fun r => bool_decide (itRequestID (rcItem r) = requestID)) s.
Definition ListReplies (replyTo : string) (s : Store) : list MailRecord :=
  listMatching (fun r => bool_decide (itReplyTo (rcItem r) = replyTo)) s.

(** ** The sweep (lifecycle.go) *)

Record LifecycleSweepResult := mkSweepResult {
  swExpired : Z; swLeaseExpired : Z; swDeadLettered : Z; swCompacted : Z
}.

(** The variables of [sweepRecord]. *)
Record Sweeping := mkSweeping { wStore : Store; wRecord : MailRecord; wResult : LifecycleSweepResult; wChanged : bool }.

(** What a stage of the sweep leaves: an error, or whether to go on. *)
Abbreviation Stage := (Sweeping * result string bool)%type.

Definition andThen (st : Stage) (k : Sweeping -> Stage) : Stage :=
  match st with (w, Ok true) => k w | _ => st end.

(** [if refreshed, ok := s.Get(..); ok { record = refreshed }] *)
Definition refreshed (s : Store) (r : MailRecord) : MailRecord := default r (storeGet s (itID (rcItem r))).

Definition compactRecord (e : E) (s : Store) (r : MailRecord) : Store * result string unit :=
  match bDeleteItem e (sBackend s) (itID (rcItem r)) with
  | (b, Err x) => (mkStore b (sIndex s), Err x)
  | (b, Ok _) => (mkStore b (base.delete (itID (rcItem r)) (sIndex s)), Ok tt)
  end.

Definition leaseExpiredEvent (r : MailRecord) (c : QueueClaim) : Event :=
  mkEvent (itID (rcItem r)) "" EventTypeLeaseExpired (lifecycleActor (Scope (rcItem r))) (cToken c) "" zeroTime
    (Some {[ "lease_id" := cToken c; "queue" := QueueName (rcItem r) ]}).

Definition sweepLease (e : nat -> E) (now : Time) (w : Sweeping) : Stage :=
  let r := wRecord w in
  match rcClaim r with
  | None => (w, Ok true)
  | Some c =>
      if Z.ltb now (cExpiresAt c) then (w, Ok true)
      else
        let appended :=
          if hasRecordEvent r EventTypeLeaseExpired "lease_id" (cToken c) then (w, Ok true)
          else match AppendEvent (e 0%nat) (wStore w) (leaseExpiredEvent r c) with
          | (s, Err x) => (mkSweeping s r (wResult w) (wChanged w), Err x)
          | (s, Ok _) =>
              let n := wResult w in
              (mkSweeping s r (mkSweepResult (swExpired n) (swLeaseExpired n + 1) (swDeadLettered n) (swCompacted n)) true,
               Ok true)
          end in
        andThen appended (fun w =>
          match storeRelease (e 1%nat) (wStore w) (itID (rcItem r)) (cHolder c) (cToken c) with
          | (s, Err x) => (mkSweeping s r (wResult w) (wChanged w), Err x)
          | (s, Ok (_, released)) =>
              (mkSweeping s (refreshed s r) (wResult w) (wChanged w || released), Ok true)
          end)
  end.

(** The two places that remove the record. *)
Definition sweepAway (e : E) (w : Sweeping) : Stage :=
  match compactRecord e (wStore w) (wRecord w) with
  | (s, Err x) =>
      (mkSweeping s (wRecord w) (wResult w) (wChanged w),
       Err ("delete compacted mailbox item " +:+ itID (rcItem (wRecord w)) +:+ ": " +:+ x))
  | (s, Ok _) =>
      let n := wResult w in
      (mkSweeping s (wRecord w)
         (mkSweepResult (swExpired n) (swLeaseExpired n) (swDeadLettered n) (swCompacted n + 1)) true, Ok false)
  end.

Definition expiredEvent (r : MailRecord) : Event :=
  mkEvent (itID (rcItem r)) "" EventTypeExpired (lifecycleActor (Scope (rcItem r))) "" "" zeroTime None.

Definition sweepExpiry (e : nat -> E) (now : Time) (w : Sweeping) : Stage :=
  let r := wRecord w in
  if negb (Terminal r) && expiredAt now (rcItem r) then
    if hasRecordEvent r EventTypeExpired "" "" then
      (mkSweeping (wStore w) (refreshed (wStore w) r) (wResult w) (wChanged w), Ok true)
    else match AppendEvent (e 3%nat) (wStore w) (expiredEvent r) with
    | (s, Err x) => (mkSweeping s r (wResult w) (wChanged w), Err x)
    | (s, Ok _) =>
        let n := wResult w in
        (mkSweeping s (refreshed s r)
           (mkSweepResult (swExpired n + 1) (swLeaseExpired n) (swDeadLettered n) (swCompacted n)) true, Ok true)
    end
  else (w, Ok true).

Definition deadLetterReasonRetryBudget : string := "retry_budget_exhausted".

Definition exhausted (r : MailRecord) : bool :=
  let budget := MaxAttempts (Retry (DefaultLifecyclePolicy (itKind (rcItem r)))) in
  bool_decide (rcState r = StateFailed) && (Z.ltb 0 budget && Z.leb budget (deliveryFailureCount r)).

Definition deadLetteredEvent (r : MailRecord) : Event :=
  mkEvent (itID (rcItem r)) "" EventTypeDeadLettered (lifecycleActor (Scope (rcItem r))) "" (latestFailureError r) zeroTime
    (Some {[ "reason" := deadLetterReasonRetryBudget; "attempts" := Itoa (deliveryFailureCount r) ]}).

Definition sweepDeadLetter (e : nat -> E) (w : Sweeping) : Stage :=
  let r := wRecord w in
  if exhausted r then
    if hasRecordEvent r EventTypeDeadLettered "reason" deadLetterReasonRetryBudget then
      (mkSweeping (wStore w) (refreshed (wStore w) r) (wResult w) (wChanged w), Ok true)
    else match AppendEvent (e 4%nat) (wStore w) (deadLetteredEvent r) with
    | (s, Err x) => (mkSweeping s r (wResult w) (wChanged w), Err x)
    | (s, Ok _) =>
        let n := wResult w in
        (mkSweeping s (refreshed s r)
           (mkSweepResult (swExpired n) (swLeaseExpired n) (swDeadLettered n + 1) (swCompacted n)) true, Ok true)
    end
  else (w, Ok true).

Definition retained (now : Time) (policy : LifecyclePolicy) (r : MailRecord) : bool :=
  negb (Terminal r && (Z.ltb 0 (TerminalRetention policy) &&
    (negb (Z.eqb (recordActivityTime r) zeroTime) && Z.leb (recordActivityTime r + TerminalRetention policy) now))).

Definition sweepRecord (e : nat -> E) (now : Time) (s : Store) (r : MailRecord) (n : LifecycleSweepResult) : Stage :=
  andThen (sweepLease e now (mkSweeping s r n false)) (fun w =>
  let policy := DefaultLifecyclePolicy (itKind (rcItem (wRecord w))) in
  andThen (if shouldCompactDeliveredRecord now (wRecord w) policy then sweepAway (e 2%nat) w else (w, Ok true)) (fun w =>
  andThen (sweepExpiry e now w) (fun w =>
  andThen (sweepDeadLetter e w) (fun w =>
  if retained now policy (wRecord w) then (w, Ok true) else sweepAway (e 5%nat) w)))).

(** The loop stops at the first error. *)
Fixpoint sweepAll (e : string -> nat -> E) (now : Time) (records : list MailRecord) (s : Store) (n : LifecycleSweepResult)
  : Store * LifecycleSweepResult * result string unit :=
  match records with
  | [] => (s, n, Ok tt)
  | r :: records =>
      match sweepRecord (e (itID (rcItem r))) now s r n with
      | (w, Err x) => (wStore w, wResult w, Err x)
      | (w, Ok _) => sweepAll e now records (wStore w) (wResult w)
      end
  end.

Definition Sweep (e : string -> nat -> E) (now : Time) (s : Store) : Store * LifecycleSweepResult * result string unit :=
  sweepAll e now (listMatching (fun _ => true) s) s (mkSweepResult 0 0 0 0).

End Store.

(** ** Statistics (stats.go) *)

Record Stats := mkStats {
  stQueued : Z; stFailed : Z; stHandedOff : Z; stPendingPrivate : Z; stPendingSky10Network : Z;
  stLastHandoffAt : Time; stLastDeliveredAt : Time; stLastFailureAt : Time
}.

Definition laterOf (eventType : string) (r : MailRecord) (t : Time) : Time :=
  foldl (fun t e => if bool_decide (evType e = eventType) && Z.ltb t (evTimestamp e) then evTimestamp e else t) t (rcEvents r).

Definition countIf (b : bool) (n : Z) : Z := if b then n + 1 else n.

Definition statsOf (st : Stats) (r : MailRecord) : Stats :=
  let network := bool_decide (Scope (rcItem r) = ScopeSky10Network) in
  mkStats
    (countIf (bool_decide (rcState r = StateQueued)) (stQueued st))
    (countIf (bool_decide (rcState r = StateFailed)) (stFailed st))
    (countIf (match LatestEvent r with Some e => bool_decide (evType e = EventTypeHandedOff) | None => false end) (stHandedOff st))
    (countIf (statePending (rcState r) && negb network) (stPendingPrivate st))
    (countIf (statePending (rcState r) && network) (stPendingSky10Network st))
    (laterOf EventTypeHandedOff r (stLastHandoffAt st))
    (laterOf EventTypeDelivered r (stLastDeliveredAt st))
    (laterOf EventTypeDeliveryFailed r (stLastFailureAt st)).

Definition storeStats (idx : recordIndex) : Stats :=
  foldl statsOf (mkStats 0 0 0 0 0 zeroTime zeroTime zeroTime)
    (map buildRecord (List.filter present (map_to_list idx).*2)).

(** ** Backoff *)

Lemma delayLoop_spec p n d :
  0 < d < 2 ^ 62 -> 0 < MaxBackoff p < 2 ^ 62 ->
  match delayLoop p n d with
  | inl x => x = MaxBackoff p /\ MaxBackoff p <= d * 2 ^ Z.of_nat n
  | inr x => x = d * 2 ^ Z.of_nat n /\ (n = 0%nat \/ x < MaxBackoff p)
  end.
Proof.
  revert d. induction n as [|n IH]; intros d Hd Hm; [cbn; lia|]. cbn [delayLoop].
  rewrite int64_wrap_id by (unfold int64_range; lia).
  rewrite (proj2 (Z.ltb_lt 0 (MaxBackoff p))) by lia. cbn [andb].
  rewrite Nat2Z.inj_succ, Z.pow_succ_r by lia.
  assert (0 < 2 ^ Z.of_nat n) as Hpow by (apply Z.pow_pos_nonneg; lia).
  destruct (Z.leb_spec (MaxBackoff p) (d * 2)); [split; [done|nia]|].
  specialize (IH (d * 2) ltac:(lia) Hm). destruct (delayLoop p n (d * 2)) as [x|x]; [split; [tauto|nia]|].
  destruct IH as [-> IH]. split; [nia|right]. destruct IH as [->|?]; [simpl; lia|done].
Qed.

Lemma Delay_spec p attempt :
  0 < InitialBackoff p < 2 ^ 62 -> 0 < MaxBackoff p < 2 ^ 62 -> 1 <= attempt ->
  Delay p attempt = Z.min (MaxBackoff p) (InitialBackoff p * 2 ^ (attempt - 1)).
Proof.
  intros Hi Hm Ha. unfold Delay. rewrite (proj2 (Z.leb_gt attempt 0)), (proj2 (Z.leb_gt (InitialBackoff p) 0)) by lia.
  cbn [orb]. pose proof (delayLoop_spec p (Z.to_nat (attempt - 1)) (InitialBackoff p) Hi Hm) as H.
  rewrite Z2Nat.id in H by lia. destruct (delayLoop _ _ _) as [x|x]; [lia|].
  rewrite (proj2 (Z.ltb_lt 0 (MaxBackoff p))) by lia. cbn [andb]. destruct H as [-> H].
  destruct (Z.ltb_spec (MaxBackoff p) (InitialBackoff p * 2 ^ (attempt - 1))); lia.
Qed.

Lemma default_retry_bounds kind :
  let p := Retry (DefaultLifecyclePolicy kind) in
  0 < InitialBackoff p < 2 ^ 62 /\ InitialBackoff p <= MaxBackoff p < 2 ^ 62.
Proof. unfold DefaultLifecyclePolicy. repeat case_match; vm_compute; by repeat split. Qed.

(** ** The store as a map of records *)

(** Records are kept under the identifier of their item. *)
Definition idx_ok (idx : recordIndex) : Prop :=
  forall k st, idx !! k = Some st -> itID (rsItem st) = k \/ itID (rsItem st) = "".

Section Sweeps.
Context {B E : Type} `{Backend : !MailboxBackend B E}.
Implicit Types (s : Store (B := B)) (r : MailRecord) (ev : Event).

Lemma idxGet_Some idx k r : idxGet idx k = Some r ->
  exists st, idx !! k = Some st /\ present st = true /\ r = buildRecord st.
Proof. unfold idxGet. destruct (idx !! k) as [st|]; [|done]. destruct (present st) eqn:E1; [|done]. intros [= <-]. eauto. Qed.

Lemma idxGet_id idx k r : idx_ok idx -> idxGet idx k = Some r -> itID (rcItem r) = k.
Proof.
  intros Hok (st & Hst & Hp & ->)%idxGet_Some. destruct (Hok k st Hst) as [|He]; [done|].
  unfold present in Hp. rewrite He in Hp. done.
Qed.

(** The record after one more event. *)
Definition withEvent r ev : MailRecord :=
  mkRecord (rcItem r) (rcEvents r ++ [ev]) (rcClaim r) (deriveState (rcEvents r ++ [ev]) (rcClaim r)).

Definition withoutClaim r : MailRecord := mkRecord (rcItem r) (rcEvents r) None (deriveState (rcEvents r) None).

(** [s'] is [s] but for what it holds under [k]. *)
Definition touched (k : string) (r' : option MailRecord) s s' : Prop :=
  idx_ok (sIndex s') /\ storeGet s' k = r' /\ forall q, q <> k -> storeGet s' q = storeGet s q.

Lemma idx_insert k st idx :
  idx_ok idx -> itID (rsItem st) = k \/ itID (rsItem st) = "" -> idx_ok (<[k := st]> idx).
Proof. intros Hok Hst q st' [[<- <-]|[_ Hq]]%lookup_insert_Some; [done|by apply Hok]. Qed.

Lemma idxGet_insert k st idx q :
  idxGet (<[k := st]> idx) q = if decide (q = k) then (if present st then Some (buildRecord st) else None) else idxGet idx q.
Proof.
  unfold idxGet. destruct (decide (q = k)) as [->|Hq]; [by rewrite lookup_insert_eq|by rewrite lookup_insert_ne].
Qed.

Lemma AppendEvent_ok e s ev s' x r :
  idx_ok (sIndex s) -> storeGet s (evItemID ev) = Some r -> AppendEvent e s ev = (s', Ok x) ->
  exists stored, stored_as ev stored /\ x = withEvent r stored /\ touched (evItemID ev) (Some x) s s'.
Proof.
  intros Hok Hr. unfold AppendEvent. case_bool_decide; [done|]. rewrite Hr. unfold appendEvent.
  destruct (Event_Validate ev); [|done]. destruct (bAppendEvent e (sBackend s) ev) as [b [stored|]] eqn:Ea; [|done].
  apply bAppendEvent_stored in Ea. intros [= <- <-]. cbn [sIndex sBackend].
  assert (evItemID stored = evItemID ev) as -> by apply Ea.
  destruct (idxGet_Some _ _ _ Hr) as (st & Hst & Hp & ->). unfold appendEventIdx. rewrite Hst. simpl default.
  rewrite idxGet_insert, decide_True by done. cbn [present rsItem]. change (present _) with (present st). rewrite Hp.
  exists stored. split_and!; [done|done|]. split_and!; cbn [sIndex].
  - apply idx_insert; [done|]. by apply (Hok _ _ Hst).
  - unfold storeGet. cbn [sIndex]. rewrite idxGet_insert, decide_True by done.
    change (present _) with (present st). by rewrite Hp.
  - intros q Hq. unfold storeGet. cbn [sIndex]. by rewrite idxGet_insert, decide_False.
Qed.

Lemma storeRelease_ok e s k holder token s' x r :
  idx_ok (sIndex s) -> storeGet s k = Some r -> storeRelease e s k holder token = (s', Ok x) ->
  touched k (Some (if x.2 then withoutClaim r else r)) s s' /\ x.1 = if x.2 then withoutClaim r else r.
Proof.
  intros Hok Hr. unfold storeRelease. rewrite Hr. case_bool_decide; [done|].
  destruct (bRelease _ _ _ _ _ _) as [b [released|]]; [|done]. intros [= <- <-]. cbn [fst snd].
  destruct (idxGet_Some _ _ _ Hr) as (st & Hst & Hp & ->). destruct released; cbn [sIndex].
  - unfold clearClaim. rewrite Hst. unfold touched, storeGet. cbn [sIndex].
    assert (forall q, idxGet (<[k := mkRecordState (rsItem st) (rsEvents st) None]> (sIndex s)) q =
      if decide (q = k) then Some (withoutClaim (buildRecord st)) else idxGet (sIndex s) q) as Hg.
    { intros q. rewrite idxGet_insert. change (present (mkRecordState (rsItem st) _ _)) with (present st). by rewrite Hp. }
    rewrite !Hg, decide_True by done. split_and!; [|done| |done].
    + apply idx_insert; [done|]. by apply (Hok _ _ Hst).
    + intros q Hq. by rewrite Hg, decide_False.
  - unfold touched, storeGet in *. cbn [sIndex]. rewrite Hr. by split_and!.
Qed.

Lemma compactRecord_ok e s r s' :
  idx_ok (sIndex s) -> compactRecord e s r = (s', Ok tt) -> touched (itID (rcItem r)) None s s'.
Proof.
  intros Hok. unfold compactRecord. destruct (bDeleteItem _ _ _) as [b [[]|]]; [|done]. intros [= <-].
  unfold touched, storeGet, idxGet. cbn [sIndex]. split_and!.
  - intros q st [_ Hq]%lookup_delete_Some. by apply Hok.
  - by rewrite lookup_delete_eq.
  - intros q Hq. by rewrite lookup_delete_ne.
Qed.

Lemma touched_trans k x1 x2 s s1 s2 : touched k x1 s s1 -> touched k x2 s1 s2 -> touched k x2 s s2.
Proof. intros (_ & _ & H1) (Hok & H2 & H3). split_and!; [done|done|]. intros q Hq. by rewrite H3, H1. Qed.

(** ** One record of the sweep *)

(** The sweep of the record [k] is at [w], having started from [s]. *)
Definition going s (k : string) (w : Sweeping) : Prop :=
  itID (rcItem (wRecord w)) = k /\ touched k (Some (wRecord w)) s (wStore w).

Lemma going_get s k w : going s k w -> storeGet (wStore w) k = Some (wRecord w).
Proof. intros (_ & _ & H & _). done. Qed.

Lemma going_refreshed s k w : going s k w -> refreshed (wStore w) (wRecord w) = wRecord w.
Proof. intros (Hid & _ & H & _). unfold refreshed. by rewrite Hid, H. Qed.

Lemma going_append s k w e ev s' x n b :
  going s k w -> evItemID ev = k -> AppendEvent e (wStore w) ev = (s', Ok x) ->
  exists stored, stored_as ev stored /\ refreshed s' (wRecord w) = withEvent (wRecord w) stored /\
    going s k (mkSweeping s' (refreshed s' (wRecord w)) n b).
Proof.
  intros Hg Hev Ha. pose proof (going_get _ _ _ Hg) as Hget. destruct Hg as [Hid Ht].
  rewrite <- Hev in Hget. destruct (AppendEvent_ok _ _ _ _ _ _ (proj1 Ht) Hget Ha) as (stored & Hs & -> & Ht').
  rewrite Hev in Ht'. assert (refreshed s' (wRecord w) = withEvent (wRecord w) stored) as Hr.
  { unfold refreshed. rewrite Hid. destruct Ht' as (_ & -> & _). done. }
  exists stored. rewrite Hr. split_and!; [done|done|]. split; [done|]. cbn [wStore wRecord].
  by eapply touched_trans.
Qed.

(** The backend did not let go of the lease when it was asked to. *)
Definition refused r (c : QueueClaim) : Prop :=
  exists e b b', bRelease e b (QueueName (rcItem r)) (itID (rcItem r)) (cHolder c) (cToken c) = (b', Ok false).

(** The lease of the record, if it has one, runs, or its end is in the timeline and
    the backend refused to let go of it. *)
Definition lease_done (now : Time) r : Prop :=
  forall c, rcClaim r = Some c ->
    now < cExpiresAt c \/ (hasRecordEvent r EventTypeLeaseExpired "lease_id" (cToken c) = true /\ refused r c).

(** The timeline grows by an event at most. *)
Definition grows r r' : Prop := r' = r \/ exists stored, r' = withEvent r stored.

Lemma has_grows r r' ty mk mv : grows r r' -> hasRecordEvent r ty mk mv = true -> hasRecordEvent r' ty mk mv = true.
Proof.
  intros [->|[stored ->]] H; [done|]. unfold hasRecordEvent, withEvent in *. cbn [rcEvents]. by rewrite existsb_app, H.
Qed.

Lemma lease_done_grows now r r' : grows r r' -> lease_done now r -> lease_done now r'.
Proof.
  intros Hg Hd c Hc. assert (rcClaim r = Some c /\ rcItem r' = rcItem r) as [Hc' Hi] by (destruct Hg as [->|[stored ->]]; done).
  destruct (Hd c Hc') as [?|[H1 H2]]; [by left|right]. split; [by eapply has_grows|]. unfold refused. by rewrite Hi.
Qed.

Lemma has_withEvent r ev stored ty mk mv :
  stored_as ev stored -> evType ev = ty ->
  (mk = "" \/ exists m, evMeta ev = Some m /\ m !! mk = Some mv) -> hasRecordEvent (withEvent r stored) ty mk mv = true.
Proof.
  intros (_ & Hty & _ & _ & _ & Hm) Hev Hmeta. unfold hasRecordEvent, withEvent. cbn [rcEvents].
  rewrite existsb_app. apply orb_true_intro. right. cbn [existsb]. rewrite orb_false_r, Hty, Hev, bool_decide_true by done.
  cbn [andb]. destruct Hmeta as [->|(m & Em & Ek)]; [by rewrite bool_decide_true|].
  rewrite Hm, Em, Ek. simpl default. rewrite (bool_decide_true (mv = mv)) by done. by rewrite orb_true_r.
Qed.

Lemma storeRelease_refused e s r holder token s' x :
  storeGet s (itID (rcItem r)) = Some r -> storeRelease e s (itID (rcItem r)) holder token = (s', Ok (x, false)) ->
  exists b', bRelease e (sBackend s) (QueueName (rcItem r)) (itID (rcItem r)) holder token = (b', Ok false).
Proof.
  intros Hr. unfold storeRelease. rewrite Hr. case_bool_decide; [done|].
  destruct (bRelease _ _ _ _ _ _) as [b [released|]]; [|done]. intros [= _ _ ->]. by exists b.
Qed.

Lemma sweepLease_ok s k w e now w' b :
  going s k w -> sweepLease e now w = (w', Ok b) -> b = true /\ going s k w' /\ lease_done now (wRecord w').
Proof.
  intros Hg. unfold sweepLease. destruct (rcClaim (wRecord w)) as [c|] eqn:Ec; [|intros [= <- <-]; split_and!; try done; congruence].
  destruct (now <? cExpiresAt c) eqn:Enow.
  { intros [= <- <-]. split_and!; try done. intros c' Hc'. left. apply Z.ltb_lt in Enow. congruence. }
  assert (forall w1, going s k w1 -> rcItem (wRecord w1) = rcItem (wRecord w) -> rcClaim (wRecord w1) = Some c ->
    hasRecordEvent (wRecord w1) EventTypeLeaseExpired "lease_id" (cToken c) = true ->
    match storeRelease (e 1%nat) (wStore w1) (itID (rcItem (wRecord w))) (cHolder c) (cToken c) with
    | (s1, Err x) => (mkSweeping s1 (wRecord w) (wResult w1) (wChanged w1), Err x)
    | (s1, Ok (_, released)) =>
        (mkSweeping s1 (refreshed s1 (wRecord w)) (wResult w1) (wChanged w1 || released), Ok true)
    end = (w', Ok b) -> b = true /\ going s k w' /\ lease_done now (wRecord w')) as Hrel.
  { intros w1 Hg1 Hitem Hcl Hev. pose proof (going_get _ _ _ Hg1) as Hget. destruct Hg1 as [Hid Ht].
    rewrite Hitem in Hid. rewrite Hid.
    destruct (storeRelease _ _ _ _ _) as [s1 [[x released]|]] eqn:Er; [|done]. intros [= <- <-]. split; [done|].
    destruct (storeRelease_ok _ _ _ _ _ _ _ _ (proj1 Ht) Hget Er) as [Ht1 _]. simpl in Ht1.
    assert (refreshed s1 (wRecord w) = if released then withoutClaim (wRecord w1) else wRecord w1) as Hr.
    { unfold refreshed. rewrite Hid. destruct Ht1 as (_ & -> & _). done. }
    cbn [wRecord]. rewrite Hr. split; [split; cbn [wRecord wStore]; [destruct released; cbn; by rewrite Hitem|by eapply touched_trans]|].
    intros c' Hc'. destruct released; [done|]. right. assert (c' = c) as -> by congruence. split; [done|].
    assert (itID (rcItem (wRecord w1)) = k) as Hk by (by rewrite Hitem). rewrite <- Hk in Hget, Er.
    destruct (storeRelease_refused _ _ _ _ _ _ _ Hget Er) as [b' Hb']. by exists (e 1%nat), (sBackend (wStore w1)), b'. }
  destruct (hasRecordEvent _ _ _ _) eqn:Eh; [by apply Hrel|].
  destruct (AppendEvent _ _ _) as [s1 [x|]] eqn:Ea; [|done]. cbn [andThen].
  set (n := mkSweepResult _ _ _ _).
  destruct (going_append s k w _ (leaseExpiredEvent (wRecord w) c) s1 x n true Hg (proj1 Hg) Ea) as (stored & Hs & Hr & Hg1).
  intros E0. eapply (Hrel (mkSweeping s1 (refreshed s1 (wRecord w)) n true)); [done|by cbn [wRecord]; rewrite Hr..| |exact E0].
  cbn [wRecord]. rewrite Hr. eapply has_withEvent; [exact Hs|done|]. right. eexists. split; [done|]. by rewrite lookup_insert_eq.
Qed.

(** The sweep of a lease that has run out, when the backend lets go of it. *)
Lemma sweepLease_expired e now s r c n stored b1 b2 :
  idx_ok (sIndex s) -> storeGet s (itID (rcItem r)) = Some r -> rcClaim r = Some c -> cExpiresAt c <= now ->
  QueueName (rcItem r) <> "" -> isBlank (itID (rcItem r)) = false ->
  hasRecordEvent r EventTypeLeaseExpired "lease_id" (cToken c) = false ->
  bAppendEvent (e 0%nat) (sBackend s) (leaseExpiredEvent r c) = (b1, Ok stored) ->
  bRelease (e 1%nat) b1 (QueueName (rcItem r)) (itID (rcItem r)) (cHolder c) (cToken c) = (b2, Ok true) ->
  exists w stored', sweepLease e now (mkSweeping s r n false) = (w, Ok true) /\
    stored_as (leaseExpiredEvent r c) stored' /\ wRecord w = withoutClaim (withEvent r stored') /\
    touched (itID (rcItem r)) (Some (withoutClaim (withEvent r stored'))) s (wStore w).
Proof.
  intros Hok Hr Hclaim Hlease Hqueue Hid Hfresh Happend Hrelease.
  assert (itID (rcItem r) <> "") as Hne by (intros He; by rewrite He in Hid).
  destruct (AppendEvent (e 0%nat) s (leaseExpiredEvent r c)) as [s1 o1] eqn:Ea.
  assert (exists x, o1 = Ok x /\ sBackend s1 = b1) as (x & -> & Hb1).
  { revert Ea. unfold AppendEvent. cbn [evItemID leaseExpiredEvent]. rewrite bool_decide_false, Hr by done.
    unfold appendEvent, Event_Validate. cbn [evItemID evType leaseExpiredEvent]. rewrite Hid.
    change (isBlank EventTypeLeaseExpired) with false. cbn iota. rewrite Happend. intros [= <- <-]. by eexists. }
  destruct (AppendEvent_ok _ s (leaseExpiredEvent r c) s1 x r Hok Hr Ea) as (stored' & Hs & -> & Ht1).
  cbn [evItemID leaseExpiredEvent] in Ht1.
  destruct (storeRelease (e 1%nat) s1 (itID (rcItem r)) (cHolder c) (cToken c)) as [s2 o2] eqn:Er.
  assert (exists y, o2 = Ok (y, true)) as (y & ->).
  { revert Er. unfold storeRelease. destruct Ht1 as (_ & -> & _). cbn [rcItem withEvent].
    rewrite bool_decide_false, Hb1, Hrelease by done. intros [= <- <-]. by eexists. }
  destruct (storeRelease_ok _ s1 _ _ _ s2 _ _ (proj1 Ht1) (proj1 (proj2 Ht1)) Er) as [Ht2 _]. cbn [snd] in Ht2.
  unfold sweepLease. cbn [wRecord wStore wResult wChanged]. rewrite Hclaim, Hfresh, (proj2 (Z.ltb_ge _ _)), Ea by done.
  cbn [andThen wStore]. rewrite Er. eexists _, stored'. split_and!; [reflexivity|done| |]; cbn [wRecord wStore].
  - unfold refreshed. by destruct Ht2 as (_ & -> & _).
  - by eapply touched_trans.
Qed.

(** What a sweep at [now] has nothing more to do about. *)
Definition expiry_done (now : Time) r : Prop :=
  expiredAt now (rcItem r) = true -> Terminal r = true \/ hasRecordEvent r EventTypeExpired "" "" = true.

Definition retries_done r : Prop :=
  exhausted r = true -> hasRecordEvent r EventTypeDeadLettered "reason" deadLetterReasonRetryBudget = true.

Definition policyOf r : LifecyclePolicy := DefaultLifecyclePolicy (itKind (rcItem r)).

Record settled (now : Time) r : Prop := {
  st_lease : lease_done now r;
  st_delivered : shouldCompactDeliveredRecord now r (policyOf r) = false;
  st_expiry : expiry_done now r;
  st_retries : retries_done r;
  st_retained : retained now (policyOf r) r = true
}.

Lemma withEvent_state r stored :
  stateTerminal (stateForEvent (evType stored)) = true ->
  rcState (withEvent r stored) = stateForEvent (evType stored).
Proof.
  intros Hterm. unfold withEvent. cbn [rcState]. unfold deriveState. rewrite last_snoc, Hterm. cbn [negb andb].
  destruct (rcClaim r); [done|]. case_bool_decide as E1; [|done]. by rewrite E1 in Hterm.
Qed.

Lemma sweepExpiry_ok s k w e now w' b :
  going s k w -> shouldCompactDeliveredRecord now (wRecord w) (policyOf (wRecord w)) = false ->
  sweepExpiry e now w = (w', Ok b) ->
  b = true /\ going s k w' /\ rcItem (wRecord w') = rcItem (wRecord w) /\
  shouldCompactDeliveredRecord now (wRecord w') (policyOf (wRecord w)) = false /\ expiry_done now (wRecord w') /\
  grows (wRecord w) (wRecord w').
Proof.
  intros Hg Hd. unfold sweepExpiry. destruct (Terminal (wRecord w)) eqn:Ht; cbn [negb andb].
  { intros [= <- <-]. split_and!; try done; [intros _; by left|by left]. }
  destruct (expiredAt now _) eqn:Hx; [|intros [= <- <-]; split_and!; try done; [unfold expiry_done; congruence|by left]].
  destruct (hasRecordEvent _ _ _ _) eqn:Hh.
  { rewrite (going_refreshed s k) by done. intros [= <- <-]. split_and!; try done; [intros _; by right|by left]. }
  destruct (AppendEvent _ _ _) as [s1 [x|]] eqn:Ea; [|done]. intros [= <- <-]. cbn [wRecord].
  edestruct (going_append s k w (e 3%nat) (expiredEvent (wRecord w)) s1 x) as (stored & Hs & Hr & Hg1);
    [exact Hg|exact (proj1 Hg)|exact Ea|]. rewrite Hr in *. split_and!; [done|exact Hg1|done| | |right; by exists stored].
  - unfold shouldCompactDeliveredRecord. rewrite withEvent_state; destruct Hs as (_ & -> & _); done.
  - intros _. right. by apply (has_withEvent _ (expiredEvent (wRecord w))); [| |left].
Qed.

Lemma sweepDeadLetter_ok s k w e now w' b :
  going s k w -> shouldCompactDeliveredRecord now (wRecord w) (policyOf (wRecord w)) = false ->
  expiry_done now (wRecord w) -> sweepDeadLetter e w = (w', Ok b) ->
  b = true /\ going s k w' /\ rcItem (wRecord w') = rcItem (wRecord w) /\
  shouldCompactDeliveredRecord now (wRecord w') (policyOf (wRecord w)) = false /\
  expiry_done now (wRecord w') /\ retries_done (wRecord w') /\ grows (wRecord w) (wRecord w').
Proof.
  intros Hg Hd Hx. unfold sweepDeadLetter. destruct (exhausted (wRecord w)) eqn:He.
  2: { intros [= <- <-]. split_and!; try done; [unfold retries_done; congruence|by left]. }
  destruct (hasRecordEvent _ EventTypeDeadLettered _ _) eqn:Hh.
  { rewrite (going_refreshed s k) by done. intros [= <- <-]. split_and!; try done; [by intros _|by left]. }
  destruct (AppendEvent _ _ _) as [s1 [x|]] eqn:Ea; [|done]. intros [= <- <-]. cbn [wRecord].
  edestruct (going_append s k w (e 4%nat) (deadLetteredEvent (wRecord w)) s1 x) as (stored & Hs & Hr & Hg1);
    [exact Hg|exact (proj1 Hg)|exact Ea|]. rewrite Hr in *.
  assert (rcState (withEvent (wRecord w) stored) = StateDeadLettered) as Hst.
  { rewrite withEvent_state; destruct Hs as (_ & -> & _); done. }
  split_and!; [done|exact Hg1|done| | | |right; by exists stored].
  - unfold shouldCompactDeliveredRecord. by rewrite Hst.
  - intros _. left. unfold Terminal. by rewrite Hst.
  - unfold retries_done, exhausted. by rewrite Hst.
Qed.

Lemma sweepAway_ok s k w e w' b :
  going s k w -> sweepAway e w = (w', Ok b) -> b = false /\ touched k None s (wStore w').
Proof.
  intros [Hid Ht]. unfold sweepAway. destruct (compactRecord _ _ _) as [s1 [[]|]] eqn:Ec; [|done]. intros [= <- <-].
  split; [done|]. cbn [wStore]. apply compactRecord_ok in Ec; [|apply Ht]. rewrite Hid in Ec. by eapply touched_trans.
Qed.

(** The sweep of one record leaves it settled, or removes it, and touches no other. *)
Lemma sweepRecord_ok s r e now n w b :
  idx_ok (sIndex s) -> storeGet s (itID (rcItem r)) = Some r -> sweepRecord e now s r n = (w, Ok b) ->
  exists x, touched (itID (rcItem r)) x s (wStore w) /\ (forall r', x = Some r' -> settled now r').
Proof.
  intros Hok Hr. unfold sweepRecord. set (k := itID (rcItem r)).
  assert (going s k (mkSweeping s r n false)) as Hg by (by repeat split).
  destruct (sweepLease _ _ _) as [w1 [b1|]] eqn:E1; [|done].
  apply (sweepLease_ok s k) in E1 as (-> & Hg1 & Hl1); [|done]. cbn [andThen].
  destruct (shouldCompactDeliveredRecord _ _ _) eqn:Hd.
  { destruct (sweepAway _ w1) as [w2 [b2|]] eqn:E2; [|done]. apply (sweepAway_ok s k) in E2 as [-> Ht]; [|done].
    intros [= <- <-]. by exists None. }
  cbn [andThen]. destruct (sweepExpiry _ _ _) as [w2 [b2|]] eqn:E2; [|done].
  apply (sweepExpiry_ok s k) in E2 as (-> & Hg2 & Hi2 & Hd2 & Hx2 & Hgr2); [|done..]. cbn [andThen].
  assert (policyOf (wRecord w1) = policyOf (wRecord w2)) as Hp2 by (unfold policyOf; by rewrite Hi2). rewrite Hp2 in Hd2.
  destruct (sweepDeadLetter _ _) as [w3 [b3|]] eqn:E3; [|done].
  apply (sweepDeadLetter_ok s k _ _ now) in E3 as (-> & Hg3 & Hi3 & Hd3 & Hx3 & Hr3 & Hgr3); [|done..]. cbn [andThen].
  assert (policyOf (wRecord w2) = policyOf (wRecord w3)) as Hp3 by (unfold policyOf; by rewrite Hi3). rewrite Hp3 in Hd3.
  change (DefaultLifecyclePolicy _) with (policyOf (wRecord w1)). rewrite Hp2, Hp3.
  destruct (retained _ _ _) eqn:Hret.
  - intros [= <- <-]. exists (Some (wRecord w3)). split; [apply Hg3|]. intros ? [= <-]. split; try done. by eapply lease_done_grows, lease_done_grows.
  - intros E4. apply (sweepAway_ok s k) in E4 as [-> Ht]; [|done]. by exists None.
Qed.

Lemma sweepAll_ok e now records s n s' n' :
  idx_ok (sIndex s) -> NoDup (map (fun r => itID (rcItem r)) records) ->
  Forall (fun r => storeGet s (itID (rcItem r)) = Some r) records ->
  sweepAll e now records s n = (s', n', Ok tt) ->
  (forall q, q ∉ map (fun r => itID (rcItem r)) records -> storeGet s' q = storeGet s q) /\
  (forall r r', r ∈ records -> storeGet s' (itID (rcItem r)) = Some r' -> settled now r').
Proof.
  revert s n. induction records as [|r records IH]; intros s n Hok Hnd Hall.
  { intros [= <- <-]. split; [done|]. intros ? ? []%not_elem_of_nil. }
  cbn [sweepAll map] in *. apply NoDup_cons in Hnd as [Hnot Hnd]. apply Forall_cons in Hall as [Hr Hall].
  destruct (sweepRecord _ _ _ _ _) as [w [b|]] eqn:Es; [|done].
  apply sweepRecord_ok in Es as (x & (Hok1 & Hx & Hother) & Hset); [|done..]. intros Erest.
  apply IH in Erest as [H1 H2]; [|done|done|].
  - split.
    + intros q Hq. apply not_elem_of_cons in Hq as [Hne Hq]. by rewrite H1, Hother.
    + intros r1 r' [->|Hin]%elem_of_cons Hget; [|by eapply H2]. rewrite H1, Hx in Hget by done. by apply Hset.
  - rewrite Forall_forall in Hall |- *. intros r1 Hin. rewrite Hother; [by apply Hall|].
    intros E0. apply Hnot. rewrite <- E0. by apply (list_elem_of_fmap_2 (fun r => itID (rcItem r))).
Qed.

(** ** All records *)

Lemma elem_of_idxList fn idx r :
  r ∈ idxList fn idx <-> fn r = true /\ exists k st, idx !! k = Some st /\ present st = true /\ r = buildRecord st.
Proof.
  unfold idxList. rewrite sortBy_perm, !list_elem_of_In, filter_In, in_map_iff. split.
  - intros [(st & <- & Hst) Hfn]. apply filter_In in Hst as [Hst Hp]. apply list_elem_of_In, list_elem_of_fmap in Hst.
    destruct Hst as ([k st'] & -> & Hst). apply elem_of_map_to_list in Hst. eauto 6.
  - intros [Hfn (k & st & Hst & Hp & ->)]. split; [|done]. exists st. split; [done|]. apply filter_In. split; [|done].
    apply list_elem_of_In, list_elem_of_fmap. exists (k, st). by rewrite elem_of_map_to_list.
Qed.

Lemma idxGet_list idx k r : idx_ok idx -> idxGet idx k = Some r <-> r ∈ idxList (fun _ => true) idx /\ itID (rcItem r) = k.
Proof.
  intros Hok. rewrite elem_of_idxList. split.
  - intros Hr. split; [|by apply (idxGet_id idx)]. apply idxGet_Some in Hr. naive_solver.
  - intros [(_ & q & st & Hst & Hp & ->) <-]. unfold idxGet. cbn [rcItem buildRecord].
    destruct (Hok q st Hst) as [->|He]; [by rewrite Hst, Hp|]. unfold present in Hp. by rewrite He in Hp.
Qed.

Lemma NoDup_ids fn idx : idx_ok idx -> NoDup (map (fun r => itID (rcItem r)) (idxList fn idx)).
Proof.
  intros Hok. unfold idxList. rewrite (fmap_Permutation (fun r => itID (rcItem r)) _ _ (sortBy_perm activity_lt _)).
  assert (forall l : list (string * recordState), NoDup l.*1 -> (forall k st, (k, st) ∈ l -> idx !! k = Some st) ->
    NoDup (map (fun r => itID (rcItem r)) (List.filter fn (map buildRecord (List.filter present l.*2)))) /\
    forall x, x ∈ map (fun r => itID (rcItem r)) (List.filter fn (map buildRecord (List.filter present l.*2))) -> x ∈ l.*1) as H.
  { induction l as [|[k st] l IH]; intros Hnd Hl; [split; [constructor|done]|]. cbn [fmap list_fmap] in *.
    apply NoDup_cons in Hnd as [Hnot Hnd]. destruct (IH Hnd) as [IH1 IH2]; [intros q st' ?; apply Hl; by right|].
    cbn [List.filter snd fst]. destruct (present st) eqn:Hp; [|split; [done|intros x Hx; right; by apply IH2]].
    cbn [map List.filter]. destruct (fn (buildRecord st)); [|split; [done|intros x Hx; right; by apply IH2]].
    cbn [map rcItem buildRecord].
    assert (itID (rsItem st) = k) as ->.
    { destruct (Hok k st (Hl k st ltac:(left))) as [|He]; [done|]. unfold present in Hp. by rewrite He in Hp. }
    split; [apply NoDup_cons; split; [|done]; intros Hin; by apply Hnot, IH2|].
    intros x [->|Hx]%elem_of_cons; [left|right; by apply IH2]. }
  apply (H (map_to_list idx)); [apply NoDup_fst_map_to_list|]. intros k st. by apply elem_of_map_to_list.
Qed.

Lemma Sweep_ok e now s s' n :
  idx_ok (sIndex s) -> Sweep e now s = (s', n, Ok tt) -> forall k r, storeGet s' k = Some r -> settled now r.
Proof.
  intros Hok Hrun k r Hr. unfold Sweep in Hrun. apply sweepAll_ok in Hrun as [H1 H2]; [|done|by apply NoDup_ids|].
  - destruct (decide (k ∈ map (fun r => itID (rcItem r)) (listMatching (fun _ => true) s))) as [Hin|Hin].
    + apply list_elem_of_fmap in Hin as (r0 & -> & Hin). by eapply H2.
    + exfalso. rewrite H1 in Hr by done. apply Hin. apply (idxGet_list _ _ _ Hok) in Hr as [Hr <-].
      by apply (list_elem_of_fmap_2 (fun r => itID (rcItem r))).
  - apply Forall_forall. intros r0 Hin. by apply (idxGet_list _ _ _ Hok).
Qed.

(** ** Reachable stores *)

Lemma upsertItem_ok i idx : idx_ok idx -> idx_ok (upsertItem i idx).
Proof. intros Hok. unfold upsertItem. destruct (idx !! itID i) as [st|]; (apply idx_insert; [done|by left]). Qed.

Lemma appendEventIdx_ok k ev idx : idx_ok idx -> idx_ok (appendEventIdx k ev idx).
Proof.
  intros Hok. unfold appendEventIdx. apply idx_insert; [done|]. cbn [rsItem].
  destruct (idx !! k) as [st|] eqn:E1; [|by right]. by apply (Hok k).
Qed.

Lemma setClaim_ok c idx : idx_ok idx -> idx_ok (setClaim c idx).
Proof.
  intros Hok. unfold setClaim. apply idx_insert; [done|]. cbn [rsItem].
  destruct (idx !! cItemID c) as [st|] eqn:E1; [|by right]. by apply (Hok (cItemID c)).
Qed.

Lemma clearClaim_ok k idx : idx_ok idx -> idx_ok (clearClaim k idx).
Proof.
  intros Hok. unfold clearClaim. destruct (idx !! k) as [st|] eqn:E1; [|done]. apply idx_insert; [done|]. exact (Hok k st E1).
Qed.

Lemma delete_ok k (idx : recordIndex) : idx_ok idx -> idx_ok (base.delete k idx).
Proof. intros Hok q st [_ Hq]%lookup_delete_Some. by apply Hok. Qed.

Lemma newRecordIndex_ok snap : idx_ok (newRecordIndex snap).
Proof.
  unfold newRecordIndex. apply foldl_invariant; [|intros idx c _ ?; by apply setClaim_ok].
  apply foldl_invariant; [apply foldl_invariant; [|intros idx i _ ?; by apply upsertItem_ok]|].
  - intros k st Hk. by rewrite lookup_empty in Hk.
  - intros idx [k evs] _ Hok. apply foldl_invariant; [done|]. intros idx' ev _ ?. by apply appendEventIdx_ok.
Qed.

Lemma Reload_ok e s : idx_ok (sIndex s) -> idx_ok (sIndex (Reload e s).1).
Proof. intros Hok. unfold Reload. destruct (bLoad _ _); [apply newRecordIndex_ok|done]. Qed.

Lemma appendEvent_idx e s ev : sIndex (appendEvent e s ev).1 = sIndex s.
Proof. unfold appendEvent. destruct (Event_Validate ev); [|done]. by destruct (bAppendEvent _ _ _). Qed.

Lemma AppendEvent_idx e s ev : idx_ok (sIndex s) -> idx_ok (sIndex (AppendEvent e s ev).1).
Proof.
  intros Hok. unfold AppendEvent. case_bool_decide; [done|]. destruct (storeGet s _); [|done].
  pose proof (appendEvent_idx e s ev) as Hi. destruct (appendEvent e s ev) as [s1 [stored|]]; cbn [fst sIndex] in *.
  - rewrite Hi. by apply appendEventIdx_ok.
  - by rewrite Hi.
Qed.

Lemma Create_idx e newID now0 now1 s item : idx_ok (sIndex s) -> idx_ok (sIndex (Create e newID now0 now1 s item).1).
Proof.
  intros Hok. unfold Create. set (i := applyCreateDefaults _ _). destruct (ValidateForCreate i); [|done].
  destruct (bCreateItem _ _ _) as [b [|]]; [|done]. set (s1 := mkStore b _).
  pose proof (appendEvent_idx (e 1%nat) s1 (createdEvent i)) as Hi.
  assert (idx_ok (sIndex s1)) as Hok1 by by apply upsertItem_ok.
  destruct (appendEvent _ s1 _) as [s2 [stored|]]; cbn [fst] in *.
  - destruct (storeGet s2 _); cbn [fst]; by rewrite Hi.
  - apply Reload_ok. by rewrite Hi.
Qed.

Lemma storeClaim_idx e s k actor ttl : idx_ok (sIndex s) -> idx_ok (sIndex (storeClaim e s k actor ttl).1).
Proof.
  intros Hok. unfold storeClaim. destruct (storeGet s k); [|done]. case_bool_decide; [done|].
  destruct (Principal_Validate actor); [|done]. destruct (bClaim _ _ _ _ _ _) as [b [[c ok]|]]; [|done].
  destruct (negb ok); [done|]. set (s1 := mkStore b (setClaim _ _)).
  assert (idx_ok (sIndex s1)) as Hok1 by by apply setClaim_ok.
  pose proof (AppendEvent_idx (e 1%nat) s1 (claimedEvent k (QueueName (rcItem m)) actor (cToken c)) Hok1) as Ha.
  cbn [sIndex sBackend]. destruct (AppendEvent _ _ _) as [s2 [x|]]; [done|]. by apply Reload_ok.
Qed.

Lemma storeRelease_idx e s k holder token : idx_ok (sIndex s) -> idx_ok (sIndex (storeRelease e s k holder token).1).
Proof.
  intros Hok. unfold storeRelease. destruct (storeGet s k); [|done]. case_bool_decide; [done|].
  destruct (bRelease _ _ _ _ _ _) as [b [[]|]]; [|done..]. by apply clearClaim_ok.
Qed.

Lemma storeRenew_idx e s k holder token ttl : idx_ok (sIndex s) -> idx_ok (sIndex (storeRenew e s k holder token ttl).1).
Proof.
  intros Hok. unfold storeRenew. destruct (storeGet s k); [|done]. case_bool_decide; [done|].
  destruct (bRenew _ _ _ _ _ _ _) as [b [[c []]|]]; [|done..]. by apply setClaim_ok.
Qed.

(** Every stage of the sweep keeps what the two writes of the store keep. *)
Definition keeps (w : Sweeping (B := B)) (st : Sweeping (B := B) * result string bool) : Prop :=
  idx_ok (sIndex (wStore w)) -> idx_ok (sIndex (wStore st.1)).

Lemma keeps_andThen w st k : keeps w st -> (forall w', keeps w' (k w')) -> keeps w (andThen st k).
Proof. intros H1 H2 Hok. destruct st as [w' [[]|]]; cbn [andThen]; [apply H2|..]; by apply H1. Qed.

Lemma keeps_away w e : keeps w (sweepAway e w).
Proof.
  intros Hok. unfold sweepAway, compactRecord. destruct (bDeleteItem _ _ _) as [b []]; cbn; [|done]. by apply delete_ok.
Qed.

Lemma sweepRecord_idx e now s r n : idx_ok (sIndex s) -> idx_ok (sIndex (wStore (sweepRecord e now s r n).1)).
Proof.
  assert (forall w, keeps w (sweepLease e now w)) as H1.
  { intros w Hok. unfold sweepLease. destruct (rcClaim _) as [c|]; [|done]. destruct (now <? _); [done|].
    revert Hok. apply keeps_andThen.
    - destruct (hasRecordEvent _ _ _ _); [by intros ?|]. intros Hok.
      apply (AppendEvent_idx (e 0%nat) _ (leaseExpiredEvent (wRecord w) c)) in Hok. by destruct (AppendEvent _ _ _) as [s1 []].
    - intros w' Hok. apply (storeRelease_idx (e 1%nat) _ (itID (rcItem (wRecord w))) (cHolder c) (cToken c)) in Hok.
      by destruct (storeRelease _ _ _ _ _) as [s1 [[]|]]. }
  assert (forall w, keeps w (sweepExpiry e now w)) as H2.
  { intros w Hok. unfold sweepExpiry. destruct (_ && _); [|done]. destruct (hasRecordEvent _ _ _ _); [done|].
    apply (AppendEvent_idx (e 3%nat) _ (expiredEvent (wRecord w))) in Hok. by destruct (AppendEvent _ _ _) as [s1 []]. }
  assert (forall w, keeps w (sweepDeadLetter e w)) as H3.
  { intros w Hok. unfold sweepDeadLetter. destruct (exhausted _); [|done]. destruct (hasRecordEvent _ _ _ _); [done|].
    apply (AppendEvent_idx (e 4%nat) _ (deadLetteredEvent (wRecord w))) in Hok. by destruct (AppendEvent _ _ _) as [s1 []]. }
  intros Hok. assert (keeps (mkSweeping s r n false) (sweepRecord e now s r n)) as Hk; [|by apply Hk].
  unfold sweepRecord. apply keeps_andThen; [apply H1|]. intros w1. apply keeps_andThen.
  { destruct (shouldCompactDeliveredRecord _ _ _); [apply keeps_away|by intros ?]. }
  intros w2. apply keeps_andThen; [apply H2|]. intros w3. apply keeps_andThen; [apply H3|]. intros w4.
  destruct (retained _ _ _); [by intros ?|apply keeps_away].
Qed.

Lemma Sweep_idx e now s : idx_ok (sIndex s) -> idx_ok (sIndex (Sweep e now s).1.1).
Proof.
  unfold Sweep. generalize (listMatching (fun _ => true) s), (mkSweepResult 0 0 0 0). intros records.
  revert s. induction records as [|r records IH]; intros s n Hok; [done|]. cbn [sweepAll].
  apply (sweepRecord_idx (e (itID (rcItem r))) now s r n) in Hok.
  destruct (sweepRecord _ _ _ _ _) as [w []]; [by apply IH|done].
Qed.

(** The stores an agent's operations lead to. *)
Inductive store_reachable : Store -> Prop :=
| sr_new e b s : NewStore e b = Ok s -> store_reachable s
| sr_reload e s : store_reachable s -> store_reachable (Reload e s).1
| sr_create e newID now0 now1 s item : store_reachable s -> store_reachable (Create e newID now0 now1 s item).1
| sr_append e s ev : store_reachable s -> store_reachable (AppendEvent e s ev).1
| sr_claim e s k actor ttl : store_reachable s -> store_reachable (storeClaim e s k actor ttl).1
| sr_release e s k holder token : store_reachable s -> store_reachable (storeRelease e s k holder token).1
| sr_renew e s k holder token ttl : store_reachable s -> store_reachable (storeRenew e s k holder token ttl).1
| sr_sweep e now s : store_reachable s -> store_reachable (Sweep e now s).1.1.

Lemma store_reachable_ok s : store_reachable s -> idx_ok (sIndex s).
Proof.
  induction 1; eauto using Reload_ok, Create_idx, AppendEvent_idx, storeClaim_idx, storeRelease_idx, storeRenew_idx, Sweep_idx.
  unfold NewStore in *. destruct (Reload e (mkStore b ∅)) as [s1 [[]|]] eqn:E1; simplify_eq.
  change s with (s, Ok (E := string) tt).1. rewrite <- E1. apply Reload_ok. intros k st. cbn [sIndex]. by rewrite lookup_empty.
Qed.

End Sweeps.

(** ** Properties *)

Section Properties.
Context {B E : Type} `{Backend : !MailboxBackend B E}.
Implicit Types (s : Store (B := B)) (r : MailRecord).

(** C11 (invariant). After a sweep that runs to its end, in whatever state the store was and
    whatever the backend stored, every record left is settled: its lease, if it has
    one, has not run out, or the backend refused to let go of it and its end is in
    the timeline; delivered records past their retention and terminal ones past
    theirs are gone; an item past its expiry is terminal or has an expiry event in
    its timeline; and a failed record that used up its retries has the dead-letter
    event for that in its timeline.  The last two are events: a record that has the
    event and left the state again is not swept a second time. *)
Theorem mailbox_sweep_settles e now s s' n k r
  (Hreach : store_reachable s) (Hrun : Sweep e now s = (s', n, Ok tt)) (Hr : storeGet s' k = Some r) :
  settled now r.
Proof. eapply Sweep_ok; [by apply store_reachable_ok|exact Hrun|exact Hr]. Qed.

(** The delay before a retry is the first backoff doubled with every
    failure and capped by the policy's maximum, for every kind of item and every
    number of failures: the doubling never overflows 64 bits. *)
Theorem mailbox_retry_delay kind attempt (Hattempt : 1 <= attempt) :
  let p := Retry (DefaultLifecyclePolicy kind) in
  Delay p attempt = Z.min (MaxBackoff p) (InitialBackoff p * 2 ^ (attempt - 1)) /\
  InitialBackoff p <= Delay p attempt <= MaxBackoff p /\ Delay p attempt <= Delay p (attempt + 1).
Proof.
  destruct (default_retry_bounds kind) as [Hi Hm]. intros p. fold p in Hi, Hm.
  rewrite !Delay_spec by lia. replace (attempt + 1 - 1) with (Z.succ (attempt - 1)) by lia. rewrite Z.pow_succ_r by lia.
  assert (0 < 2 ^ (attempt - 1)) by (apply Z.pow_pos_nonneg; lia). split; [done|nia].
Qed.

(** The sweep ends the lease of a record whatever its state, and the end of a
    lease puts the record back in its queue: an item that was completed while its
    lease was still held is claimable again when the lease has run out. *)
Theorem mailbox_completed_requeued e now s r c n stored b1 b2
  (Hreach : store_reachable s) (Hr : storeGet s (itID (rcItem r)) = Some r) (Hclaim : rcClaim r = Some c)
  (Hlease : cExpiresAt c <= now) (Hdone : rcState r = StateCompleted)
  (Hqueue : QueueName (rcItem r) <> "") (Hid : isBlank (itID (rcItem r)) = false)
  (Hfresh : hasRecordEvent r EventTypeLeaseExpired "lease_id" (cToken c) = false)
  (Halive : expiredAt now (rcItem r) = false)
  (Happend : bAppendEvent (e 0%nat) (sBackend s) (leaseExpiredEvent r c) = (b1, Ok stored))
  (Hrelease : bRelease (e 1%nat) b1 (QueueName (rcItem r)) (itID (rcItem r)) (cHolder c) (cToken c) = (b2, Ok true)) :
  exists w r', sweepRecord e now s r n = (w, Ok true) /\ storeGet (wStore w) (itID (rcItem r)) = Some r' /\
    rcItem r' = rcItem r /\ Terminal r = true /\ rcState r' = StateQueued /\
    r' ∈ listQueue (QueueName (rcItem r)) (sIndex (wStore w)).
Proof.
  destruct (sweepLease_expired e now s r c n stored b1 b2 (store_reachable_ok s Hreach))
    as (w & stored' & El & Hs & Hw & Hok & Hg & _); [done..|].
  set (r' := withoutClaim (withEvent r stored')) in *.
  assert (rcState r' = StateQueued) as Hst.
  { unfold r', withoutClaim. cbn [rcState rcEvents withEvent]. unfold deriveState. rewrite last_snoc.
    destruct Hs as (_ & -> & _). done. }
  exists w, r'. split_and!; [|done|done|by unfold Terminal; rewrite Hdone|done|].
  - unfold sweepRecord. rewrite El. cbn [andThen].
    assert (shouldCompactDeliveredRecord now (wRecord w) (policyOf (wRecord w)) = false) as Hd.
    { unfold shouldCompactDeliveredRecord. by rewrite Hw, Hst. }
    change (DefaultLifecyclePolicy _) with (policyOf (wRecord w)). rewrite Hd. cbn [andThen].
    unfold sweepExpiry. rewrite Hw. change (rcItem r') with (rcItem r). rewrite Halive, andb_false_r. cbn [andThen].
    unfold sweepDeadLetter, exhausted. rewrite Hw, Hst.
    rewrite (bool_decide_false (StateQueued = StateFailed)) by done. cbn [andb andThen].
    unfold retained, Terminal. by rewrite Hw, Hst.
  - apply elem_of_idxList. apply idxGet_Some in Hg as (st & Hst' & Hp & Er').
    split; [|by exists (itID (rcItem r)), st]. cbv zeta beta. change (QueueName (rcItem r')) with (QueueName (rcItem r)).
    rewrite bool_decide_false by done. rewrite (bool_decide_false (QueueName (rcItem r) <> QueueName (rcItem r))) by congruence.
    rewrite andb_false_r. unfold Terminal. by rewrite Hst.
Qed.

End Properties.

(** ** A backend in memory, and concrete stores *)

Module Demo.

(** What has been stored; the environment of a call is the time it is made at. *)
Definition memLoad (now : Time) (b : Snapshot) : result string Snapshot := Ok b.

Definition memAppend (now : Time) (b : Snapshot) (ev : Event) : Snapshot * result string Event :=
  let n := match snEvents b !! evItemID ev with Some evs => length evs | None => 0%nat end in
  let stored := mkEvent (evItemID ev) (pad_dec 3 (Z.of_nat n)) (evType ev) (evActor ev) (evLeaseID ev) (evError ev) now (evMeta ev) in
  (mkSnapshot (snItems b) (<[evItemID ev := default [] (snEvents b !! evItemID ev) ++ [stored]]> (snEvents b)) (snClaims b), Ok stored).

Definition memClaim (now : Time) (b : Snapshot) (queue itemID holder : string) (ttl : Duration)
  : Snapshot * result string (QueueClaim * bool) :=
  let c := mkClaim queue itemID holder "token" now (now + ttl) in
  (mkSnapshot (snItems b) (snEvents b) (c :: snClaims b), Ok (c, true)).

Definition memRenew (now : Time) (b : Snapshot) (queue itemID holder token : string) (ttl : Duration)
  : Snapshot * result string (QueueClaim * bool) := (b, Ok (mkClaim queue itemID holder token now (now + ttl), true)).

Definition memRelease (now : Time) (b : Snapshot) (queue itemID holder token : string) : Snapshot * result string bool :=
  (mkSnapshot (snItems b) (snEvents b) [], Ok true).

Definition memCreate (now : Time) (b : Snapshot) (i : Item) : Snapshot * result string unit :=
  (mkSnapshot (i :: snItems b) (snEvents b) (snClaims b), Ok tt).

Definition memDelete (now : Time) (b : Snapshot) (itemID : string) : Snapshot * result string unit :=
  (mkSnapshot (List.filter (fun i => negb (bool_decide (itID i = itemID))) (snItems b)) (base.delete itemID (snEvents b)) (snClaims b), Ok tt).

#[export] Instance memBackend : MailboxBackend Snapshot Time.
Proof.
  refine {| bLoad := memLoad; bCreateItem := memCreate; bAppendEvent := memAppend; bClaim := memClaim; bRenew := memRenew;
            bRelease := memRelease; bDeleteItem := memDelete;
            bContainsItem := fun b itemID => existsb (fun i => bool_decide (itID i = itemID)) (snItems b) |}.
  - intros e b ev b' stored [= <- <-]. by repeat split.
  - by intros e b queue itemID holder ttl b' c [= <- <-].
Defined.

Definition worker : Principal := mkPrincipal "agent:worker" PrincipalKindLocalAgent "" "" "".
Definition queueTo : Principal := mkPrincipal "queue:work" PrincipalKindCapabilityQueue "" "" "".
Definition task : Item :=
  mkItem "" ItemKindTaskRequest (mkPrincipal "agent:boss" PrincipalKindLocalAgent "" "" "") (Some queueTo) "" "" "req" "" "key"
    None "{}" "" zeroTime zeroTime.

Definition noEvents : gmap string (list Event) := ∅.
Definition demoStart : Store (B := Snapshot) := mkStore (mkSnapshot [] noEvents []) (newRecordIndex (mkSnapshot [] noEvents [])).
Definition created : Store (B := Snapshot) := (Create (fun _ => 10 * second) "item-1" (10 * second) (10 * second) demoStart task).1.
Definition claimed : Store (B := Snapshot) := (storeClaim (fun _ => 20 * second) created "item-1" worker minute).1.
Definition completed : Store (B := Snapshot) :=
  (AppendEvent (30 * second) claimed (mkEvent "item-1" "" EventTypeCompleted worker "" "" zeroTime None)).1.

Lemma mailbox_demo_reach : store_reachable completed.
Proof. apply sr_append, sr_claim, sr_create, (sr_new 0 (mkSnapshot [] noEvents [])). vm_compute. reflexivity. Qed.

Definition noRecord : MailRecord := mkRecord noItem [] None StateQueued.
Definition completedRecord : MailRecord := default noRecord (storeGet completed "item-1").
Definition completedClaim : QueueClaim := default (mkClaim "" "" "" "" 0 0) (rcClaim completedRecord).
Definition requeueEvent : Event := leaseExpiredEvent completedRecord completedClaim.
Definition requeueAppend : Snapshot * result string Event := memAppend (2 * minute) (sBackend completed) requeueEvent.
Definition requeueStored : Event := match requeueAppend.2 with Ok ev => ev | Err _ => requeueEvent end.

Lemma mailbox_completed_requeued_witness :
  exists w r', sweepRecord (fun _ => 2 * minute) (2 * minute) completed completedRecord (mkSweepResult 0 0 0 0) = (w, Ok true) /\
    storeGet (wStore w) (itID (rcItem completedRecord)) = Some r' /\
    rcItem r' = rcItem completedRecord /\ Terminal completedRecord = true /\ rcState r' = StateQueued /\
    r' ∈ listQueue (QueueName (rcItem completedRecord)) (sIndex (wStore w)).
Proof.
  exact (mailbox_completed_requeued (fun _ => 2 * minute) (2 * minute) completed completedRecord completedClaim
    (mkSweepResult 0 0 0 0) requeueStored requeueAppend.1 (mkSnapshot (snItems requeueAppend.1) (snEvents requeueAppend.1) [])
    mailbox_demo_reach ltac:(vm_compute; reflexivity) ltac:(vm_compute; reflexivity) ltac:(vm_compute; discriminate)
    ltac:(vm_compute; reflexivity) ltac:(vm_compute; discriminate) ltac:(vm_compute; reflexivity)
    ltac:(vm_compute; reflexivity) ltac:(vm_compute; reflexivity) ltac:(vm_compute; reflexivity) eq_refl).
Defined.

Definition sweptAll : Store (B := Snapshot) * LifecycleSweepResult * result string unit :=
  Sweep (fun _ _ => 2 * minute) (2 * minute) completed.
Definition sweptRecord : MailRecord := default noRecord (storeGet sweptAll.1.1 "item-1").

Lemma mailbox_sweep_settles_witness : settled (2 * minute) sweptRecord.
Proof.
  exact (mailbox_sweep_settles (fun _ _ => 2 * minute) (2 * minute) completed sweptAll.1.1 sweptAll.1.2 "item-1" sweptRecord
    mailbox_demo_reach ltac:(vm_compute; reflexivity) ltac:(vm_compute; reflexivity)).
Defined.

Lemma mailbox_retry_delay_witness :
  Delay (Retry (DefaultLifecyclePolicy ItemKindMessage)) 7 = 300 * second /\
  (let p := Retry (DefaultLifecyclePolicy ItemKindMessage) in
   Delay p 7 = Z.min (MaxBackoff p) (InitialBackoff p * 2 ^ (7 - 1)) /\
   InitialBackoff p <= Delay p 7 <= MaxBackoff p /\ Delay p 7 <= Delay p (7 + 1)).
Proof. split; [vm_compute; reflexivity|exact (mailbox_retry_delay ItemKindMessage 7 ltac:(lia))]. Defined.

(** [Create] stores the created event but leaves it out of the index; a reload
    finds it. *)
Lemma create_event_not_indexed :
  length (rcEvents (default noRecord (storeGet created "item-1"))) = 0%nat /\
  length (rcEvents (default noRecord (storeGet (Reload (10 * second) created).1 "item-1"))) = 1%nat.
Proof. vm_compute. by split. Qed.

(** A completed item can be claimed, and is then claimed, not completed. *)
Lemma completed_is_claimable :
  let s := (storeRelease (40 * second) completed "item-1" "agent:worker" "token").1 in
  rcState (default noRecord (storeGet s "item-1")) = StateCompleted /\
  rcState (default noRecord (storeGet (storeClaim (fun _ => 50 * second) s "item-1" worker minute).1 "item-1")) = StateClaimed.
Proof. vm_compute. by split. Qed.

End Demo.
