(* ===== verification/MailboxWorkflow.v ===== *)
(** * Workflows over the mailbox (pkg/agent/mailbox/workflow.go)

    Tasks, approvals and the payment flow (quote, proof, result, receipt) are
    items with structured payloads.  An idempotency key names a request once;
    each step of the payment flow is checked against the one it answers.  The
    JSON of the payloads is a class. *)

From Stdlib Require Import Ascii.
From stdpp Require Import base numbers list gmap strings.
From S2P Require Import Prelude GoStrings GoStrconv Collections Mailbox.

(** ** Payloads *)

Record TaskRequestPayload := mkTask { tkMethod : string; tkParams : string; tkSummary : string }.
Record ApprovalRequestPayload := mkApproval { apAction : string; apSummary : string; apDetails : string }.

Record PaymentRequiredPayload := mkRequired {
  rqMethod : string; rqAmount : string; rqAsset : string; rqChain : string; rqAddress : string; rqNonce : string
}.

Record PaymentProofPayload := mkProof { pfSignedTx : string; pfChain : string; pfAmount : string; pfNonce : string }.

Record ReceiptPayload := mkReceipt {
  rpTxHash : string; rpCaller : string; rpProvider : string; rpMethod : string; rpAmount : string;
  rpChain : string; rpNonce : string; rpCallerRating : Z; rpProviderRating : Z;
  rpCallerSignature : string; rpProviderSignature : string
}.

Record ResultPayload := mkResult { rsData : string; rsReceipt : ReceiptPayload }.

(** The first of the named fields that is blank. *)
Fixpoint require (fields : list (string * string)) : result string unit :=
  match fields with
  | [] => Ok tt
  | (value, what) :: fields => if isBlank value then Err (what +:+ " is required") else require fields
  end.

Definition Task_Validate (p : TaskRequestPayload) : result string unit := require [(tkMethod p, "task method")].

Definition Approval_Validate (p : ApprovalRequestPayload) : result string unit :=
  require [(apAction p, "approval action"); (apSummary p, "approval summary")].

Definition Required_Validate (p : PaymentRequiredPayload) : result string unit :=
  require [(rqMethod p, "payment method"); (rqAmount p, "payment amount"); (rqAsset p, "payment asset");
           (rqChain p, "payment chain"); (rqAddress p, "payment address"); (rqNonce p, "payment nonce")].

Definition Proof_Validate (p : PaymentProofPayload) : result string unit :=
  require [(pfSignedTx p, "payment proof signed_tx"); (pfChain p, "payment proof chain");
           (pfAmount p, "payment proof amount"); (pfNonce p, "payment proof nonce")].

Definition Receipt_Validate (p : ReceiptPayload) : result string unit :=
  require [(rpCaller p, "receipt caller"); (rpProvider p, "receipt provider"); (rpMethod p, "receipt method");
           (rpAmount p, "receipt amount"); (rpChain p, "receipt chain"); (rpNonce p, "receipt nonce")].

Definition Result_Validate (p : ResultPayload) : result string unit :=
  match Receipt_Validate (rsReceipt p) with
  | Err e => Err ("result receipt: " +:+ e)
  | Ok _ => require [(rpProviderSignature (rsReceipt p), "result receipt provider signature")]
  end.

(** [json.Marshal] and [json.Unmarshal] of the payloads. *)
Class PayloadJSON := {
  marshalTask : TaskRequestPayload -> result string string;
  marshalApproval : ApprovalRequestPayload -> result string string;
  marshalRequired : PaymentRequiredPayload -> result string string;
  marshalProof : PaymentProofPayload -> result string string;
  marshalResult : ResultPayload -> result string string;
  marshalReceipt : ReceiptPayload -> result string string;
  unmarshalRequired : string -> result string PaymentRequiredPayload;
  unmarshalProof : string -> result string PaymentProofPayload;
  unmarshalResult : string -> result string ResultPayload
}.

(** ** Changed fields of an item *)

Definition withPayload (json : string) (i : Item) : Item :=
  mkItem (itID i) (itKind i) (itFrom i) (itTo i) (itTargetSkill i) (itSessionID i) (itRequestID i) (itReplyTo i)
    (itIdempotencyKey i) (itPayloadRef i) json (itPriority i) (itExpiresAt i) (itCreatedAt i).

Definition withKind (kind : string) (i : Item) : Item :=
  mkItem (itID i) kind (itFrom i) (itTo i) (itTargetSkill i) (itSessionID i) (itRequestID i) (itReplyTo i)
    (itIdempotencyKey i) (itPayloadRef i) (itPayloadInline i) (itPriority i) (itExpiresAt i) (itCreatedAt i).

Definition withRequestID (requestID : string) (i : Item) : Item :=
  mkItem (itID i) (itKind i) (itFrom i) (itTo i) (itTargetSkill i) (itSessionID i) requestID (itReplyTo i)
    (itIdempotencyKey i) (itPayloadRef i) (itPayloadInline i) (itPriority i) (itExpiresAt i) (itCreatedAt i).

Definition withTo (to : option Principal) (i : Item) : Item :=
  mkItem (itID i) (itKind i) (itFrom i) to (itTargetSkill i) (itSessionID i) (itRequestID i) (itReplyTo i)
    (itIdempotencyKey i) (itPayloadRef i) (itPayloadInline i) (itPriority i) (itExpiresAt i) (itCreatedAt i).

Definition workflowItemEquivalent (existing candidate : Item) : bool :=
  bool_decide (itKind existing = itKind candidate) &&
  bool_decide (itRequestID existing = itRequestID candidate) &&
  bool_decide (itReplyTo existing = itReplyTo candidate) &&
  bool_decide (itIdempotencyKey existing = itIdempotencyKey candidate) &&
  bool_decide (pnID (itFrom existing) = pnID (itFrom candidate)) &&
  match itTo existing, itTo candidate with
  | None, None => true
  | Some p, Some q => bool_decide (pnID p = pnID q)
  | _, _ => false
  end.

Definition guard (b : bool) (e : string) : result string unit := if b then Ok tt else Err e.

Section Workflow.
Context {B E : Type} `{Backend : !MailboxBackend B E} `{JSON : PayloadJSON}.
Implicit Types (s : Store (B := B)).

(** What an operation meets: the calls of the backend, a fresh identifier and
    the readings of the clock. *)
Record CreateEnv := mkCreateEnv { ceCalls : nat -> E; ceID : string; ceNow0 : Time; ceNow1 : Time }.

Definition sameRequest (item : Item) (r : MailRecord) : bool :=
  bool_decide (itKind (rcItem r) = itKind item) && bool_decide (itRequestID (rcItem r) = itRequestID item) &&
  bool_decide (itIdempotencyKey (rcItem r) = itIdempotencyKey item).

Definition findDuplicateWorkflowItem (item : Item) s : option MailRecord :=
  if isBlank (itIdempotencyKey item) then None else findFirstMatching (sameRequest item) s.

Definition createWorkflowItem (env : CreateEnv) s (item : Item) (payload : result string string)
  : Store * result string MailRecord :=
  match payload with
  | Err e => (s, Err ("marshal workflow payload: " +:+ e))
  | Ok json =>
      match Principal_Validate (itFrom item) with
      | Err e => (s, Err ("workflow sender: " +:+ e))
      | Ok _ =>
          let item := withPayload json item in
          match findDuplicateWorkflowItem item s with
          | Some existing =>
              if negb (workflowItemEquivalent (rcItem existing) item)
              then (s, Err ("idempotency key already used for a different item: " +:+ itIdempotencyKey item))
              else if negb (bool_decide (itPayloadInline (rcItem existing) = json))
              then (s, Err ("idempotency key already used with a different payload: " +:+ itIdempotencyKey item))
              else (s, Ok existing)
          | None => Create (ceCalls env) (ceID env) (ceNow0 env) (ceNow1 env) s item
          end
      end
  end.

(** The checks shared by the three kinds of request that start a flow. *)
Definition createRequest (what kind : string) (env : CreateEnv) s (item : Item) (valid : result string unit)
  (payload : result string string) : Store * result string MailRecord :=
  match valid with
  | Err e => (s, Err e)
  | Ok _ =>
      if isBlank (itRequestID item) then (s, Err (what +:+ " request_id is required"))
      else if isBlank (itIdempotencyKey item) then (s, Err (what +:+ " idempotency_key is required"))
      else createWorkflowItem env s (withKind kind item) payload
  end.

Definition CreateTaskRequest env s item (p : TaskRequestPayload) : Store * result string MailRecord :=
  createRequest "task" ItemKindTaskRequest env s item (Task_Validate p) (marshalTask p).
Definition CreateApprovalRequest env s item (p : ApprovalRequestPayload) : Store * result string MailRecord :=
  createRequest "approval" ItemKindApprovalRequest env s item (Approval_Validate p) (marshalApproval p).
Definition CreatePaymentRequired env s item (p : PaymentRequiredPayload) : Store * result string MailRecord :=
  createRequest "payment" ItemKindPaymentRequired env s item (Required_Validate p) (marshalRequired p).

(** ** Decisions and completion *)

(** The first event of either type decides. *)
Fixpoint decided (eventType conflicting : string) (evs : list Event) : option bool :=
  match evs with
  | [] => None
  | ev :: evs =>
      if bool_decide (evType ev = eventType) then Some true
      else if bool_decide (evType ev = conflicting) then Some false
      else decided eventType conflicting evs
  end.

Definition workflowEvent (itemID eventType key token : string) (actor : Principal) : Event :=
  mkEvent itemID "" eventType actor "" "" zeroTime (Some {[ key := token ]}).

Definition applyTerminalEvent (e : E) s (itemID : string) (actor : Principal) (token eventType conflicting : string)
  : Store * result string MailRecord :=
  if isBlank token then (s, Err "workflow token is required")
  else match storeGet s itemID with
  | None => (s, Err (notFound itemID))
  | Some r =>
      match decided eventType conflicting (rcEvents r) with
      | Some true => (s, Ok r)
      | Some false => (s, Err ("mailbox item " +:+ itemID +:+ " already has " +:+ conflicting))
      | None => AppendEvent e s (workflowEvent itemID eventType "decision_id" token actor)
      end
  end.

Definition CompleteTaskRequest (e : E) s itemID actor completionID : Store * result string MailRecord :=
  applyTerminalEvent e s itemID actor completionID EventTypeCompleted EventTypeCancelled.
Definition Approve (e : E) s itemID actor decisionID : Store * result string MailRecord :=
  applyTerminalEvent e s itemID actor decisionID EventTypeApproved EventTypeRejected.
Definition Reject (e : E) s itemID actor decisionID : Store * result string MailRecord :=
  applyTerminalEvent e s itemID actor decisionID EventTypeRejected EventTypeApproved.

Definition completedIn (evs : list Event) : bool := existsb (fun ev => bool_decide (evType ev = EventTypeCompleted)) evs.

Definition markCompletedOnce (e : E) s (itemID : string) (actor : Principal) (completionID : string)
  : Store * result string MailRecord :=
  match storeGet s itemID with
  | None => (s, Err (notFound itemID))
  | Some r =>
      if completedIn (rcEvents r) then (s, Ok r)
      else AppendEvent e s (workflowEvent itemID EventTypeCompleted "completion_id" completionID actor)
  end.

(** ** The payment flow *)

(** The record an item replies to, of the kind expected. *)
Definition loadParent (what kind : string) s (item : Item) : result string MailRecord :=
  let replyTo := TrimSpace (itReplyTo item) in
  if bool_decide (replyTo = "") then Err (what +:+ " reply_to is required")
  else match storeGet s replyTo with
  | None => Err (kind +:+ " " +:+ replyTo +:+ " not found")
  | Some parent =>
      if negb (bool_decide (itKind (rcItem parent) = kind))
      then Err ("reply_to " +:+ replyTo +:+ " is " +:+ itKind (rcItem parent) +:+ ", want " +:+ kind)
      else Ok parent
  end.

Definition loadPaymentRequiredParent s (item : Item) : result string (MailRecord * PaymentRequiredPayload) :=
  match loadParent "payment proof" ItemKindPaymentRequired s item with
  | Err e => Err e
  | Ok parent =>
      match unmarshalRequired (itPayloadInline (rcItem parent)) with
      | Err e => Err ("parse payment_required payload: " +:+ e)
      | Ok payload => Ok (parent, payload)
      end
  end.

Definition loadPaymentChainForResult s (item : Item)
  : result string (MailRecord * PaymentProofPayload * MailRecord * PaymentRequiredPayload) :=
  match loadParent "result" ItemKindPaymentProof s item with
  | Err e => Err e
  | Ok proofRecord =>
      match unmarshalProof (itPayloadInline (rcItem proofRecord)) with
      | Err e => Err ("parse payment_proof payload: " +:+ e)
      | Ok proofPayload =>
          match loadPaymentRequiredParent s (rcItem proofRecord) with
          | Err e => Err e
          | Ok (requiredRecord, requiredPayload) => Ok (proofRecord, proofPayload, requiredRecord, requiredPayload)
          end
      end
  end.

Definition loadPaymentChainForReceipt s (item : Item)
  : result string (MailRecord * ResultPayload * MailRecord * MailRecord * PaymentRequiredPayload) :=
  match loadParent "receipt" ItemKindResult s item with
  | Err e => Err e
  | Ok resultRecord =>
      match unmarshalResult (itPayloadInline (rcItem resultRecord)) with
      | Err e => Err ("parse result payload: " +:+ e)
      | Ok resultPayload =>
          match loadPaymentChainForResult s (rcItem resultRecord) with
          | Err e => Err e
          | Ok (proofRecord, _, requiredRecord, requiredPayload) =>
              Ok (resultRecord, resultPayload, proofRecord, requiredRecord, requiredPayload)
          end
      end
  end.

Definition validateReceiptAgainstRequired (receipt : ReceiptPayload) (requiredRecord : MailRecord)
  (required : PaymentRequiredPayload) : result string unit :=
  if negb (bool_decide (rpCaller receipt = RecipientID (rcItem requiredRecord))) then Err "receipt caller does not match required caller"
  else if negb (bool_decide (rpProvider receipt = pnID (itFrom (rcItem requiredRecord)))) then Err "receipt provider does not match required provider"
  else if negb (bool_decide (rpMethod receipt = rqMethod required)) then Err "receipt method does not match required"
  else if negb (bool_decide (rpAmount receipt = rqAmount required)) then Err "receipt amount does not match required"
  else if negb (bool_decide (rpChain receipt = rqChain required)) then Err "receipt chain does not match required"
  else if negb (bool_decide (rpNonce receipt = rqNonce required)) then Err "receipt nonce does not match required"
  else Ok tt.

Definition receiptMatchesDraft (draft final : ReceiptPayload) : bool :=
  bool_decide (rpTxHash draft = rpTxHash final) && bool_decide (rpCaller draft = rpCaller final) &&
  bool_decide (rpProvider draft = rpProvider final) && bool_decide (rpMethod draft = rpMethod final) &&
  bool_decide (rpAmount draft = rpAmount final) && bool_decide (rpChain draft = rpChain final) &&
  bool_decide (rpNonce draft = rpNonce final) && Z.eqb (rpProviderRating draft) (rpProviderRating final) &&
  bool_decide (rpProviderSignature draft = rpProviderSignature final).

(** The proof pays what the quote asks. *)
Definition proofMatches (proof : PaymentProofPayload) (required : PaymentRequiredPayload) : bool :=
  bool_decide (pfAmount proof = rqAmount required) && bool_decide (pfChain proof = rqChain required) &&
  bool_decide (pfNonce proof = rqNonce required).

(** The request a reply belongs to: its own, or the one it answers. *)
Definition inheritRequest (parent : MailRecord) (item : Item) : Item :=
  if bool_decide (itRequestID item = "") then withRequestID (itRequestID (rcItem parent)) item else item.

Definition defaultTo (to : option Principal) (item : Item) : Item :=
  match itTo item with None => withTo to item | Some _ => item end.

Definition toIs (id : string) (item : Item) : bool := match itTo item with Some p => bool_decide (pnID p = id) | None => false end.

(** [requiredRecord.Item.To != nil] and then the check. *)
Definition ifCaller (requiredRecord : MailRecord) (check : string -> bool) : bool :=
  match itTo (rcItem requiredRecord) with Some p => check (pnID p) | None => true end.

Definition firstError (checks : list (bool * string)) : result string unit :=
  foldr (fun '(ok, e) rest => if (ok : bool) then rest else Err e) (Ok tt) checks.

Definition CreatePaymentProof env s (item : Item) (payload : PaymentProofPayload) : Store * result string MailRecord :=
  match Proof_Validate payload with
  | Err e => (s, Err e)
  | Ok _ =>
      match loadPaymentRequiredParent s item with
      | Err e => (s, Err e)
      | Ok (parent, required) =>
          let item := inheritRequest parent item in
          let item' := defaultTo (Some (itFrom (rcItem parent))) item in
          match firstError [
            (bool_decide (itRequestID item = itRequestID (rcItem parent)), "payment proof request_id does not match");
            (negb (isBlank (itIdempotencyKey item)), "payment proof idempotency_key is required");
            (toIs (pnID (itFrom (rcItem parent))) item', "payment proof recipient does not match provider");
            (ifCaller parent (fun caller => bool_decide (pnID (itFrom item') = caller)), "payment proof sender does not match caller");
            (proofMatches payload required, "payment proof does not match required amount/chain/nonce")] with
          | Err e => (s, Err e)
          | Ok _ => createWorkflowItem env s (withKind ItemKindPaymentProof item') (marshalProof payload)
          end
      end
  end.

Definition CreateResult env s (item : Item) (payload : ResultPayload) : Store * result string MailRecord :=
  match Result_Validate payload with
  | Err e => (s, Err e)
  | Ok _ =>
      match loadPaymentChainForResult s item with
      | Err e => (s, Err e)
      | Ok (proofRecord, proofPayload, requiredRecord, required) =>
          let item := inheritRequest proofRecord item in
          let item' := match itTo (rcItem requiredRecord) with Some p => defaultTo (Some p) item | None => item end in
          match firstError [
            (bool_decide (itRequestID item = itRequestID (rcItem proofRecord)), "result request_id does not match");
            (negb (isBlank (itIdempotencyKey item)), "result idempotency_key is required");
            (bool_decide (pnID (itFrom item') = pnID (itFrom (rcItem requiredRecord))), "result sender does not match provider");
            (ifCaller requiredRecord (fun caller => toIs caller item'), "result recipient does not match caller");
            (is_ok (validateReceiptAgainstRequired (rsReceipt payload) requiredRecord required), "result receipt mismatch");
            (bool_decide (rpCallerSignature (rsReceipt payload) = ""), "result receipt must not include caller signature yet");
            (proofMatches proofPayload required, "payment proof does not match payment requirement")] with
          | Err e => (s, Err e)
          | Ok _ => createWorkflowItem env s (withKind ItemKindResult item') (marshalResult payload)
          end
      end
  end.

(** The four items of a flow are completed one after the other; the first error
    stops. *)
Fixpoint markAll (e : nat -> E) (n : nat) s (todo : list (string * Principal)) (completionID : string)
  (last : result string MailRecord) : Store * result string MailRecord :=
  match todo with
  | [] => (s, last)
  | (itemID, actor) :: todo =>
      match markCompletedOnce (e n) s itemID actor completionID with
      | (s, Err x) => (s, Err x)
      | (s, Ok r) => markAll e (S n) s todo completionID (Ok r)
      end
  end.

Definition CreateReceipt env (marks : nat -> E) s (item : Item) (payload : ReceiptPayload)
  : Store * result string MailRecord :=
  match Receipt_Validate payload with
  | Err e => (s, Err e)
  | Ok _ =>
      match loadPaymentChainForReceipt s item with
      | Err e => (s, Err e)
      | Ok (resultRecord, resultPayload, proofRecord, requiredRecord, required) =>
          let provider := itFrom (rcItem requiredRecord) in
          let item := inheritRequest resultRecord item in
          let item' := defaultTo (Some provider) item in
          match firstError [
            (bool_decide (itRequestID item = itRequestID (rcItem resultRecord)), "receipt request_id does not match");
            (negb (isBlank (itIdempotencyKey item)), "receipt idempotency_key is required");
            (ifCaller requiredRecord (fun caller => bool_decide (pnID (itFrom item') = caller)), "receipt sender does not match caller");
            (toIs (pnID provider) item', "receipt recipient does not match provider");
            (is_ok (validateReceiptAgainstRequired payload requiredRecord required), "receipt mismatch");
            (negb (bool_decide (rpProviderSignature payload = "")) && negb (bool_decide (rpCallerSignature payload = "")),
             "receipt must include both caller and provider signatures");
            (receiptMatchesDraft (rsReceipt resultPayload) payload, "receipt does not match the result receipt draft")] with
          | Err e => (s, Err e)
          | Ok _ =>
              match createWorkflowItem env s (withKind ItemKindReceipt item') (marshalReceipt payload) with
              | (s, Err e) => (s, Err e)
              | (s, Ok r) =>
                  markAll marks 0 s [(itID (rcItem proofRecord), provider); (itID (rcItem requiredRecord), provider);
                    (itID (rcItem resultRecord), itFrom item'); (itID (rcItem r), itFrom item')] (itIdempotencyKey item') (Ok r)
              end
          end
      end
  end.

End Workflow.

(** ** Creation *)

Section Facts.
Context {B E : Type} `{Backend : !MailboxBackend B E} `{JSON : PayloadJSON}.
Implicit Types (s : Store (B := B)) (r : MailRecord) (item : Item).

Definition finished (newID : string) (now0 now1 : Time) (item : Item) : Item :=
  applyCreateDefaults now1 (stampItem newID now0 item).

Lemma finished_fields newID now0 now1 item :
  let i := finished newID now0 now1 item in
  itKind i = itKind item /\ itFrom i = itFrom item /\ itTo i = itTo item /\ itRequestID i = itRequestID item /\
  itReplyTo i = itReplyTo item /\ itIdempotencyKey i = itIdempotencyKey item /\ itPayloadInline i = itPayloadInline item.
Proof. unfold finished, applyCreateDefaults. case_match; by repeat split. Qed.

Lemma Create_ok e newID now0 now1 s item s1 r :
  idx_ok (sIndex s) -> Create e newID now0 now1 s item = (s1, Ok r) ->
  rcItem r = finished newID now0 now1 item /\ touched (itID (rcItem r)) (Some r) s s1.
Proof.
  intros Hok. unfold Create. fold (finished newID now0 now1 item). set (i := finished _ _ _ _).
  destruct (ValidateForCreate i); [|done]. destruct (bCreateItem _ _ _) as [b [|]]; [|done]. cbn [sBackend sIndex].
  set (s0 := mkStore b _). pose proof (appendEvent_idx (e 1%nat) s0 (createdEvent i)) as Hidx.
  destruct (appendEvent _ s0 _) as [s2 [stored|]]; [|done]. cbn [fst] in Hidx.
  destruct (storeGet s2 (itID i)) as [r'|] eqn:Hg; [|done]. intros [= <- <-].
  assert (rcItem r' = i) as Hi.
  { unfold storeGet in Hg. rewrite Hidx in Hg. apply idxGet_Some in Hg as (st & Hst & _ & ->). cbn [s0 sIndex] in Hst.
    unfold upsertItem in Hst. destruct (sIndex s !! itID i); rewrite lookup_insert_eq in Hst; by injection Hst as <-. }
  rewrite Hi. split; [done|]. split_and!.
  - rewrite Hidx. by apply upsertItem_ok.
  - by rewrite Hg.
  - intros q Hq. unfold storeGet. rewrite Hidx. cbn [s0 sIndex]. unfold upsertItem.
    destruct (sIndex s !! itID i); rewrite idxGet_insert; by rewrite decide_False.
Qed.

Lemma findFirst_none fn s : findFirstMatching fn s = None -> forall r, r ∈ listMatching fn s -> False.
Proof. unfold findFirstMatching. destruct (listMatching fn s); [|done]. by intros _ r []%not_elem_of_nil. Qed.

Lemma findFirst_only fn s r :
  r ∈ listMatching fn s -> (forall r', r' ∈ listMatching fn s -> r' = r) -> findFirstMatching fn s = Some r.
Proof.
  intros Hin Honly. unfold findFirstMatching. destruct (listMatching fn s) as [|r' l]; [by apply not_elem_of_nil in Hin|].
  simpl. f_equal. apply Honly. left.
Qed.

Lemma elem_of_matching fn s r :
  idx_ok (sIndex s) -> r ∈ listMatching fn s <-> fn r = true /\ storeGet s (itID (rcItem r)) = Some r.
Proof.
  intros Hok. unfold listMatching, storeGet. rewrite (idxGet_list _ _ _ Hok), !elem_of_idxList. naive_solver.
Qed.

Lemma createWorkflowItem_same env s item payload s1 r env' :
  idx_ok (sIndex s) -> isBlank (itIdempotencyKey item) = false ->
  createWorkflowItem env s item payload = (s1, Ok r) ->
  createWorkflowItem env' s1 item payload = (s1, Ok r).
Proof.
  intros Hok Hkey Hrun. pose proof Hrun as Hrun0. unfold createWorkflowItem in Hrun |- *.
  destruct payload as [json|]; [|done]. destruct (Principal_Validate (itFrom item)); [|done].
  unfold findDuplicateWorkflowItem in Hrun |- *. change (itIdempotencyKey (withPayload json item)) with (itIdempotencyKey item) in *.
  rewrite Hkey in Hrun |- *. set (it := withPayload json item) in *.
  destruct (findFirstMatching (sameRequest it) s) as [existing|] eqn:Ef.
  - destruct (negb (workflowItemEquivalent _ _)) eqn:E1; [done|]. destruct (negb (bool_decide _)) eqn:E2; [done|].
    injection Hrun as <- <-. by rewrite Ef, E1, E2.
  - apply Create_ok in Hrun as [Hi Ht]; [|done].
    destruct (finished_fields (ceID env) (ceNow0 env) (ceNow1 env) it) as (Hk & Hfrom & Hto & Hreq & Hrep & Hidem & Hpay).
    rewrite <- Hi in Hk, Hfrom, Hto, Hreq, Hrep, Hidem, Hpay. destruct Ht as (Hok1 & Hget & Hother).
    assert (sameRequest it r = true) as Hsame.
    { unfold sameRequest. by rewrite Hk, Hreq, Hidem, !bool_decide_true by done. }
    rewrite (findFirst_only _ s1 r).
    + assert (workflowItemEquivalent (rcItem r) it = true) as ->.
      { unfold workflowItemEquivalent. rewrite Hk, Hreq, Hrep, Hidem, Hfrom, Hto, !bool_decide_true by done.
        destruct (itTo it); [by rewrite bool_decide_true|done]. }
      by rewrite bool_decide_true by done.
    + by apply elem_of_matching.
    + intros r' Hin. apply elem_of_matching in Hin as [Hsame' Hget']; [|done].
      destruct (decide (itID (rcItem r') = itID (rcItem r))) as [Hid|Hid]; [rewrite Hid, Hget in Hget'; by injection Hget'|].
      rewrite Hother in Hget' by done. exfalso. apply (findFirst_none _ _ Ef r'). by apply elem_of_matching.
Qed.

(** ** Completion *)

Definition isCompleted (k : string) s : Prop := exists r, storeGet s k = Some r /\ completedIn (rcEvents r) = true.

(** No record loses its item or its completion. *)
Definition keepsRecords s s1 : Prop :=
  forall q rq, storeGet s q = Some rq ->
  exists rq', storeGet s1 q = Some rq' /\ rcItem rq' = rcItem rq /\ (completedIn (rcEvents rq) = true -> completedIn (rcEvents rq') = true).

Lemma keepsRecords_trans s1 s2 s3 : keepsRecords s1 s2 -> keepsRecords s2 s3 -> keepsRecords s1 s3.
Proof. intros H1 H2 q rq (r2 & Hr2 & Hi2 & Hc2)%H1. destruct (H2 _ _ Hr2) as (r3 & ? & ? & ?). exists r3. split_and!; [done|congruence|auto]. Qed.

Lemma isCompleted_keeps k s s1 : keepsRecords s s1 -> isCompleted k s -> isCompleted k s1.
Proof. intros Hk (r & (r1 & ? & ? & ?)%Hk & Hc). exists r1. auto. Qed.

Lemma markCompletedOnce_ok e s k actor token s1 r :
  idx_ok (sIndex s) -> markCompletedOnce e s k actor token = (s1, Ok r) ->
  idx_ok (sIndex s1) /\ storeGet s1 k = Some r /\ completedIn (rcEvents r) = true /\ keepsRecords s s1.
Proof.
  intros Hok. unfold markCompletedOnce. destruct (storeGet s k) as [r0|] eqn:Hg; [|done].
  destruct (completedIn (rcEvents r0)) eqn:Hc; [intros [= <- <-]; split_and!; try done; intros q rq Hq; by exists rq|].
  intros Ha. destruct (AppendEvent_ok _ s (workflowEvent k EventTypeCompleted "completion_id" token actor) s1 r r0 Hok Hg Ha)
    as (stored & Hs & -> & Hok1 & Hget & Hother). cbn [evItemID workflowEvent] in *.
  assert (completedIn (rcEvents (withEvent r0 stored)) = true) as Hdone.
  { unfold completedIn, withEvent. cbn [rcEvents]. rewrite existsb_app. apply orb_true_intro. right.
    destruct Hs as (_ & Hty & _). cbn [existsb]. by rewrite Hty, bool_decide_true. }
  split_and!; [done..|]. intros q rq Hq. destruct (decide (q = k)) as [->|Hne].
  - rewrite Hg in Hq. injection Hq as <-. by exists (withEvent r0 stored).
  - exists rq. by rewrite Hother.
Qed.

Lemma markAll_keeps e n s todo token last s1 r :
  idx_ok (sIndex s) -> markAll e n s todo token last = (s1, Ok r) -> keepsRecords s s1.
Proof.
  revert n s last. induction todo as [|[k actor] todo IH]; intros n s last Hok.
  { intros [= <- _] q rq Hq. by exists rq. }
  cbn [markAll]. destruct (markCompletedOnce _ _ _ _ _) as [s2 [r2|]] eqn:Em; [|done].
  apply markCompletedOnce_ok in Em as (Hok2 & _ & _ & Hkeep); [|done]. intros ?%IH; [|done]. by eapply keepsRecords_trans.
Qed.

Lemma markAll_ok e n s todo token last s1 r :
  idx_ok (sIndex s) -> markAll e n s todo token last = (s1, Ok r) -> forall k, k ∈ todo.*1 -> isCompleted k s1.
Proof.
  revert n s last. induction todo as [|[k1 actor1] todo IH]; intros n s last Hok Hrun k Hin; [by apply not_elem_of_nil in Hin|].
  cbn [markAll] in Hrun. destruct (markCompletedOnce _ _ _ _ _) as [s2 [r2|]] eqn:Em; [|done].
  apply markCompletedOnce_ok in Em as (Hok2 & Hget & Hc & Hkeep); [|done].
  apply elem_of_cons in Hin as [->|Hin]; [|by eapply IH]. eapply isCompleted_keeps; [by eapply markAll_keeps|]. by exists r2.
Qed.

Lemma markAll_last e n s todo token last s1 r k actor :
  idx_ok (sIndex s) -> markAll e n s (todo ++ [(k, actor)]) token last = (s1, Ok r) -> storeGet s1 k = Some r.
Proof.
  revert n s last. induction todo as [|[k1 actor1] todo IH]; intros n s last Hok; cbn [markAll app];
    destruct (markCompletedOnce _ _ _ _ _) as [s2 [r2|]] eqn:Em; try done;
    apply markCompletedOnce_ok in Em as (Hok2 & Hget & _); try done; [by intros [= <- <-]|by apply IH].
Qed.

(** ** What a created receipt rests on *)

(** Membership in a list written out. *)
Ltac pick_elem := solve [repeat first [left|right]].

Lemma firstError_ok checks : firstError checks = Ok tt -> forall b e, (b, e) ∈ checks -> b = true.
Proof.
  induction checks as [|[[] e0] checks IH]; cbn [firstError foldr]; intros Hok b e Hin; [by apply not_elem_of_nil in Hin| |done].
  apply elem_of_cons in Hin as [[= -> ->]|Hin]; [done|by eapply IH].
Qed.

Lemma loadParent_ok what kind s item parent :
  loadParent what kind s item = Ok parent -> storeGet s (TrimSpace (itReplyTo item)) = Some parent /\ itKind (rcItem parent) = kind.
Proof.
  unfold loadParent. case_bool_decide; [done|]. destruct (storeGet _ _) as [p|]; [|done].
  destruct (bool_decide_reflect (itKind (rcItem p) = kind)); [|done]. by intros [= <-].
Qed.

(** The quote, the proof and the result a receipt is for. *)
Record chain s (item : Item) (required proof rslt : MailRecord) (quote : PaymentRequiredPayload) (draft : ResultPayload) : Prop := {
  ch_result : storeGet s (TrimSpace (itReplyTo item)) = Some rslt;
  ch_proof : storeGet s (TrimSpace (itReplyTo (rcItem rslt))) = Some proof;
  ch_required : storeGet s (TrimSpace (itReplyTo (rcItem proof))) = Some required;
  ch_kinds : itKind (rcItem rslt) = ItemKindResult /\ itKind (rcItem proof) = ItemKindPaymentProof /\
    itKind (rcItem required) = ItemKindPaymentRequired;
  ch_quote : unmarshalRequired (itPayloadInline (rcItem required)) = Ok quote;
  ch_draft : unmarshalResult (itPayloadInline (rcItem rslt)) = Ok draft
}.

Lemma loadPaymentChainForReceipt_ok s item rslt draft proof required quote :
  loadPaymentChainForReceipt s item = Ok (rslt, draft, proof, required, quote) -> chain s item required proof rslt quote draft.
Proof.
  unfold loadPaymentChainForReceipt, loadPaymentChainForResult, loadPaymentRequiredParent.
  destruct (loadParent _ _ _ item) as [r1|] eqn:E1; [|done]. apply loadParent_ok in E1 as [G1 K1].
  destruct (unmarshalResult _) as [d|] eqn:Ed; [|done].
  destruct (loadParent _ _ _ (rcItem r1)) as [r2|] eqn:E2; [|done]. apply loadParent_ok in E2 as [G2 K2].
  destruct (unmarshalProof _); [|done].
  destruct (loadParent _ _ _ (rcItem r2)) as [r3|] eqn:E3; [|done]. apply loadParent_ok in E3 as [G3 K3].
  destruct (unmarshalRequired _) as [q|] eqn:Eq; [|done]. intros [= <- <- <- <- <-]. by split.
Qed.

(** The receipt is the quote's: its parties, method, amount, chain and nonce. *)
Definition settles (payload : ReceiptPayload) (required : MailRecord) (quote : PaymentRequiredPayload) : Prop :=
  rpCaller payload = RecipientID (rcItem required) /\ rpProvider payload = pnID (itFrom (rcItem required)) /\
  rpMethod payload = rqMethod quote /\ rpAmount payload = rqAmount quote /\ rpChain payload = rqChain quote /\
  rpNonce payload = rqNonce quote.

Lemma validateReceipt_ok payload required quote :
  is_ok (validateReceiptAgainstRequired payload required quote) = true <-> settles payload required quote.
Proof.
  unfold validateReceiptAgainstRequired, settles.
  repeat (match goal with |- context [bool_decide ?P] => destruct (bool_decide_reflect P) end; cbn [negb]; [|naive_solver]).
  naive_solver.
Qed.

Lemma receiptMatchesDraft_signature draft payload :
  receiptMatchesDraft draft payload = true -> rpProviderSignature draft = rpProviderSignature payload /\ rpTxHash draft = rpTxHash payload.
Proof.
  unfold receiptMatchesDraft. intros H. repeat (apply andb_prop in H as [H ?]).
  split; by eapply bool_decide_eq_true_1.
Qed.

Lemma createWorkflowItem_ok env s item payload s1 r :
  idx_ok (sIndex s) -> createWorkflowItem env s item payload = (s1, Ok r) ->
  idx_ok (sIndex s1) /\ storeGet s1 (itID (rcItem r)) = Some r /\ itKind (rcItem r) = itKind item /\
  payload = Ok (itPayloadInline (rcItem r)).
Proof.
  intros Hok Hrun. unfold createWorkflowItem in Hrun. destruct payload as [json|]; [|done].
  destruct (Principal_Validate _); [|done].
  destruct (findDuplicateWorkflowItem _ s) as [existing|] eqn:Ef.
  - unfold findDuplicateWorkflowItem in Ef. destruct (isBlank _); [done|].
    destruct (negb (workflowItemEquivalent _ _)) eqn:E1; [done|]. destruct (bool_decide_reflect (itPayloadInline (rcItem existing) = json)) as [Hpay|]; [|done].
    injection Hrun as <- <-. unfold findFirstMatching in Ef. destruct (listMatching _ s) as [|r' l] eqn:El; [done|].
    injection Ef as ->. assert (existing ∈ listMatching (sameRequest (withPayload json item)) s) as Hin by (rewrite El; left).
    apply elem_of_matching in Hin as [Hsame Hget]; [|done]. split_and!; [done|done| |by rewrite Hpay].
    unfold sameRequest in Hsame. apply andb_prop in Hsame as [[H1 _]%andb_prop _]. by apply bool_decide_eq_true_1 in H1.
  - apply Create_ok in Hrun as [Hi (Hok1 & Hget & _)]; [|done].
    destruct (finished_fields (ceID env) (ceNow0 env) (ceNow1 env) (withPayload json item)) as (Hk & _ & _ & _ & _ & _ & Hpay).
    rewrite <- Hi in Hk, Hpay. split_and!; [done|done|done|by rewrite Hpay].
Qed.

(** The signatures a receipt carries. *)
Definition signed (payload : ReceiptPayload) (draft : ResultPayload) : Prop :=
  rpProviderSignature payload <> "" /\ rpCallerSignature payload <> "" /\
  rpProviderSignature payload = rpProviderSignature (rsReceipt draft) /\ rpTxHash payload = rpTxHash (rsReceipt draft).

(** C10 (safety). A receipt the mailbox accepts is the end of a whole payment
    flow: its parent is a result, the result's parent a proof of payment and
    the proof's parent a quote.  The receipt names the quote's caller, provider,
    method, amount, chain and nonce; it carries the caller's signature and the
    provider's signature and transaction of the draft in the result; and
    afterwards the quote, the proof, the result and the receipt returned are
    all completed. *)
Theorem mailbox_receipt_matches_quote env marks s item payload s1 r
  (Hreach : store_reachable s) (Hrun : CreateReceipt env marks s item payload = (s1, Ok r)) :
  exists required proof rslt quote draft,
    chain s item required proof rslt quote draft /\ settles payload required quote /\ signed payload draft /\
    marshalReceipt payload = Ok (itPayloadInline (rcItem r)) /\ itKind (rcItem r) = ItemKindReceipt /\
    isCompleted (itID (rcItem required)) s1 /\ isCompleted (itID (rcItem proof)) s1 /\ isCompleted (itID (rcItem rslt)) s1 /\
    storeGet s1 (itID (rcItem r)) = Some r /\ completedIn (rcEvents r) = true.
Proof.
  pose proof (store_reachable_ok s Hreach) as Hok. unfold CreateReceipt in Hrun. destruct (Receipt_Validate payload); [|done].
  destruct (loadPaymentChainForReceipt s item) as [[[[[rslt draft] proof] required] quote]|] eqn:Ec; [|done].
  apply loadPaymentChainForReceipt_ok in Ec. cbv zeta in Hrun.
  destruct (firstError _) as [[]|] eqn:Ef; [|done]. pose proof (firstError_ok _ Ef) as Hchecks. clear Ef.
  destruct (createWorkflowItem _ _ _ _) as [s0 [r0|]] eqn:Ew; [|done].
  apply createWorkflowItem_ok in Ew as (Hok0 & Hget0 & Hkind0 & Hpay0); [|done].
  assert (is_ok (validateReceiptAgainstRequired payload required quote) = true) as Hset%validateReceipt_ok
    by (eapply Hchecks; pick_elem).
  assert (negb (bool_decide (rpProviderSignature payload = "")) && negb (bool_decide (rpCallerSignature payload = "")) = true)
    as [H1%negb_true_iff%bool_decide_eq_false_1 H2%negb_true_iff%bool_decide_eq_false_1]%andb_prop by (eapply Hchecks; pick_elem).
  assert (receiptMatchesDraft (rsReceipt draft) payload = true) as [Hp Ht]%receiptMatchesDraft_signature by (eapply Hchecks; pick_elem).
  assert (forall k actor, (k, actor) ∈ _ -> isCompleted k s1) as Hdone
    by (intros k actor Hk; eapply markAll_ok; [exact Hok0|exact Hrun|by apply (list_elem_of_fmap_2 fst _ _ Hk)]).
  pose proof Hrun as Hlast. eapply (markAll_last _ _ _ [_; _; _]) in Hlast; [|exact Hok0].
  pose proof Hrun as Hkeep. apply markAll_keeps in Hkeep; [|exact Hok0]. destruct (Hkeep _ _ Hget0) as (r1 & Hr1 & Hi & _).
  rewrite Hlast in Hr1. injection Hr1 as <-.
  assert (isCompleted (itID (rcItem r0)) s1) as (r2 & Hr2 & Hc2) by (eapply Hdone; pick_elem).
  rewrite Hlast in Hr2. injection Hr2 as <-.
  exists required, proof, rslt, quote, draft. rewrite Hi. split_and!; try done; eapply Hdone; pick_elem.
Qed.

(** A request with an idempotency key is created once:
    repeating it, whatever the clock and the backend then say, changes nothing
    and returns the record of the first call. *)
Theorem mailbox_request_idempotent env env' s item payload s1 r
  (Hreach : store_reachable s) (Hkey : isBlank (itIdempotencyKey item) = false)
  (Hrun : createWorkflowItem env s item payload = (s1, Ok r)) :
  createWorkflowItem env' s1 item payload = (s1, Ok r).
Proof. eapply createWorkflowItem_same; [by apply store_reachable_ok|done|exact Hrun]. Qed.

Lemma decided_app eventType conflicting evs ev :
  decided eventType conflicting evs = None -> evType ev = eventType ->
  decided eventType conflicting (evs ++ [ev]) = Some true /\
  (eventType <> conflicting -> decided conflicting eventType (evs ++ [ev]) = Some false).
Proof.
  intros Hn <-. induction evs as [|ev0 evs IH]; simpl in *.
  { rewrite bool_decide_true by done. split; [done|]. intros Hne. by rewrite (bool_decide_false _ Hne). }
  destruct (bool_decide_reflect (evType ev0 = evType ev)), (bool_decide_reflect (evType ev0 = conflicting)); try done. auto.
Qed.

Lemma decided_true eventType conflicting evs :
  decided eventType conflicting evs = Some true -> eventType <> conflicting -> decided conflicting eventType evs = Some false.
Proof.
  induction evs as [|ev evs IH]; simpl; [done|]. intros Hd Hne.
  destruct (bool_decide_reflect (evType ev = eventType)) as [->|]; [by rewrite bool_decide_false|].
  destruct (bool_decide_reflect (evType ev = conflicting)); [done|auto].
Qed.

Lemma applyTerminalEvent_ok e s k actor token eventType conflicting s1 r :
  idx_ok (sIndex s) -> eventType <> conflicting ->
  applyTerminalEvent e s k actor token eventType conflicting = (s1, Ok r) ->
  storeGet s1 k = Some r /\ decided eventType conflicting (rcEvents r) = Some true /\
  decided conflicting eventType (rcEvents r) = Some false.
Proof.
  intros Hok Hne. unfold applyTerminalEvent. destruct (isBlank token); [done|]. destruct (storeGet s k) as [r0|] eqn:Hg; [|done].
  destruct (decided _ _ (rcEvents r0)) as [[|]|] eqn:Hd; [intros [= <- <-]; auto using decided_true|done|].
  intros Ha. destruct (AppendEvent_ok _ s (workflowEvent k eventType "decision_id" token actor) s1 r r0 Hok Hg Ha)
    as (stored & (_ & Hty & _) & -> & _ & Hget & _). cbn [evItemID evType workflowEvent] in *.
  destruct (decided_app eventType conflicting (rcEvents r0) stored Hd Hty) as [H1 H2]. auto.
Qed.

(** ** Workflows stay among the reachable stores *)

Lemma createWorkflowItem_reachable env s item payload :
  store_reachable s -> store_reachable (createWorkflowItem env s item payload).1.
Proof. intros Hs. unfold createWorkflowItem. repeat case_match; try done. by apply sr_create. Qed.

Lemma applyTerminalEvent_reachable e s k actor token eventType conflicting :
  store_reachable s -> store_reachable (applyTerminalEvent e s k actor token eventType conflicting).1.
Proof. intros Hs. unfold applyTerminalEvent. repeat case_match; try done. by apply sr_append. Qed.

Lemma markAll_reachable e n s todo token last : store_reachable s -> store_reachable (markAll e n s todo token last).1.
Proof.
  revert n s last. induction todo as [|[k actor] todo IH]; intros n s last Hs; [done|]. cbn [markAll].
  assert (store_reachable (markCompletedOnce (e n) s k actor token).1) as Hm
    by (unfold markCompletedOnce; repeat case_match; try done; by apply sr_append).
  destruct (markCompletedOnce _ _ _ _ _) as [s1 [r|]]; [by apply IH|done].
Qed.

Lemma createRequest_reachable what kind env s item valid payload :
  store_reachable s -> store_reachable (createRequest what kind env s item valid payload).1.
Proof. intros Hs. unfold createRequest. repeat case_match; try done. by apply createWorkflowItem_reachable. Qed.

Lemma CreatePaymentProof_reachable env s item payload :
  store_reachable s -> store_reachable (CreatePaymentProof env s item payload).1.
Proof.
  intros Hs. unfold CreatePaymentProof. destruct (Proof_Validate _); [|done].
  destruct (loadPaymentRequiredParent _ _) as [[parent required]|]; [|done]. cbv zeta. destruct (firstError _); [|done].
  by apply createWorkflowItem_reachable.
Qed.

Lemma CreateResult_reachable env s item payload : store_reachable s -> store_reachable (CreateResult env s item payload).1.
Proof.
  intros Hs. unfold CreateResult. destruct (Result_Validate _); [|done].
  destruct (loadPaymentChainForResult _ _) as [[[[] ?] ?]|]; [|done]. cbv zeta. destruct (firstError _); [|done].
  by apply createWorkflowItem_reachable.
Qed.

Lemma CreateReceipt_reachable env marks s item payload :
  store_reachable s -> store_reachable (CreateReceipt env marks s item payload).1.
Proof.
  intros Hs. unfold CreateReceipt. destruct (Receipt_Validate _); [|done].
  destruct (loadPaymentChainForReceipt _ _) as [[[[[? ?] ?] ?] ?]|]; [|done]. cbv zeta. destruct (firstError _); [|done].
  match goal with |- context [createWorkflowItem ?a ?b ?c ?d] => pose proof (createWorkflowItem_reachable a b c d Hs) end.
  destruct (createWorkflowItem _ _ _ _) as [s0 [r0|]]; [by apply markAll_reachable|done].
Qed.

(** An approval is decided once.  After [Approve] has succeeded,
    approving again, by whoever and under whichever decision identifier,
    changes nothing and returns the decided record, and rejecting is refused;
    and the same the other way round. *)
Theorem mailbox_decides_once e e' s k actor actor' token token' s1 r
  (Hreach : store_reachable s) (Htoken : isBlank token' = false) :
  (Approve e s k actor token = (s1, Ok r) ->
   Approve e' s1 k actor' token' = (s1, Ok r) /\
   Reject e' s1 k actor' token' = (s1, Err ("mailbox item " +:+ k +:+ " already has approved"))) /\
  (Reject e s k actor token = (s1, Ok r) ->
   Reject e' s1 k actor' token' = (s1, Ok r) /\
   Approve e' s1 k actor' token' = (s1, Err ("mailbox item " +:+ k +:+ " already has rejected"))).
Proof.
  split; intros (Hg & Hd & Hc)%applyTerminalEvent_ok; try done; try by apply store_reachable_ok.
  all: unfold Approve, Reject, applyTerminalEvent; by rewrite Htoken, Hg, Hd, Hc.
Qed.

End Facts.

(** ** A payment flow in memory *)

Module Demo.
Import Mailbox.Demo.

(** Fields joined by bars, the ratings left out. *)
Definition joinFields (fields : list string) : string := foldr (fun f acc => f +:+ "|" +:+ acc) "" fields.
Fixpoint splitFields (n : nat) (s : string) : list string :=
  match n with
  | O => []
  | S n => match CutByte s "|"%char with Some (f, rest) => f :: splitFields n rest | None => [] end
  end.

Definition receiptFields (p : ReceiptPayload) : list string :=
  [rpTxHash p; rpCaller p; rpProvider p; rpMethod p; rpAmount p; rpChain p; rpNonce p; rpCallerSignature p; rpProviderSignature p].

#[export] Instance barJSON : PayloadJSON := {
  marshalTask p := Ok (joinFields [tkMethod p; tkParams p; tkSummary p]);
  marshalApproval p := Ok (joinFields [apAction p; apSummary p; apDetails p]);
  marshalRequired p := Ok (joinFields [rqMethod p; rqAmount p; rqAsset p; rqChain p; rqAddress p; rqNonce p]);
  marshalProof p := Ok (joinFields [pfSignedTx p; pfChain p; pfAmount p; pfNonce p]);
  marshalResult p := Ok (joinFields (rsData p :: receiptFields (rsReceipt p)));
  marshalReceipt p := Ok (joinFields (receiptFields p));
  unmarshalRequired s := match splitFields 6 s with
    | [a; b; c; d; e; f] => Ok (mkRequired a b c d e f) | _ => Err "payment_required" end;
  unmarshalProof s := match splitFields 4 s with [a; b; c; d] => Ok (mkProof a b c d) | _ => Err "payment_proof" end;
  unmarshalResult s := match splitFields 10 s with
    | [a; b; c; d; e; f; g; h; i; j] => Ok (mkResult a (mkReceipt b c d e f g h 0 0 i j)) | _ => Err "result" end
}.

Definition caller : Principal := mkPrincipal "agent:caller" PrincipalKindLocalAgent "" "" "".
Definition provider : Principal := mkPrincipal "agent:provider" PrincipalKindLocalAgent "" "" "".
Definition mail (from : Principal) (to : option Principal) (request replyTo key : string) : Item :=
  mkItem "" "" from to "" "" request replyTo key None "" "" zeroTime zeroTime.
Definition at_ (n : Z) (id : string) : CreateEnv := mkCreateEnv (fun _ => n * second) id (n * second) (n * second).
Definition marks_at (n : Z) (_ : nat) : Time := n * second.

Definition quote : PaymentRequiredPayload := mkRequired "translate" "10" "USDC" "solana" "addr" "nonce".
Definition proof : PaymentProofPayload := mkProof "tx" "solana" "10" "nonce".
Definition receipt (callerSig : string) : ReceiptPayload :=
  mkReceipt "hash" "agent:caller" "agent:provider" "translate" "10" "solana" "nonce" 0 0 callerSig "sig-p".

Definition quoted : Store (B := Snapshot) :=
  (CreatePaymentRequired (at_ 10 "quote") demoStart (mail provider (Some caller) "req" "" "k1") quote).1.
Definition proved : Store (B := Snapshot) := (CreatePaymentProof (at_ 20 "proof") quoted (mail caller None "" "quote" "k2") proof).1.
Definition resulted : Store (B := Snapshot) :=
  (CreateResult (at_ 30 "result") proved (mail provider None "" "proof" "k3") (mkResult "bonjour" (receipt ""))).1.
Definition receiptMail : Item := mail caller None "" "result" "k4".
Definition receipted : Store (B := Snapshot) * result string MailRecord :=
  CreateReceipt (at_ 40 "receipt") (marks_at 41) resulted receiptMail (receipt "sig-c").
Definition receiptRecord : MailRecord := match receipted.2 with Ok r => r | Err _ => noRecord end.

Definition approvalMail : Item := withKind ItemKindApprovalRequest (mail caller (Some provider) "req" "" "k9").
Definition asked : Store (B := Snapshot) :=
  (CreateApprovalRequest (at_ 10 "approval") demoStart approvalMail (mkApproval "delete" "delete the drive" "")).1.
Definition approved : Store (B := Snapshot) * result string MailRecord := Approve (20 * second) asked "approval" provider "d1".
Definition approvedRecord : MailRecord := match approved.2 with Ok r => r | Err _ => noRecord end.
Definition created_once : Store (B := Snapshot) * result string MailRecord :=
  createWorkflowItem (at_ 10 "approval") demoStart approvalMail (Ok "payload").
Definition onceRecord : MailRecord := match created_once.2 with Ok r => r | Err _ => noRecord end.

Lemma start_reachable : store_reachable demoStart.
Proof. apply (sr_new 0 (mkSnapshot [] noEvents [])). vm_compute. reflexivity. Qed.

Lemma resulted_reachable : store_reachable resulted.
Proof. apply CreateResult_reachable, CreatePaymentProof_reachable, createRequest_reachable, start_reachable. Qed.

Lemma asked_reachable : store_reachable asked.
Proof. apply createRequest_reachable, start_reachable. Qed.

Lemma mailbox_receipt_matches_quote_witness :
  exists required proof rslt quote draft,
    chain resulted receiptMail required proof rslt quote draft /\ settles (receipt "sig-c") required quote /\
    signed (receipt "sig-c") draft /\
    marshalReceipt (receipt "sig-c") = Ok (itPayloadInline (rcItem receiptRecord)) /\ itKind (rcItem receiptRecord) = ItemKindReceipt /\
    isCompleted (itID (rcItem required)) receipted.1 /\ isCompleted (itID (rcItem proof)) receipted.1 /\
    isCompleted (itID (rcItem rslt)) receipted.1 /\
    storeGet receipted.1 (itID (rcItem receiptRecord)) = Some receiptRecord /\ completedIn (rcEvents receiptRecord) = true.
Proof.
  refine (mailbox_receipt_matches_quote (at_ 40 "receipt") (marks_at 41) resulted receiptMail (receipt "sig-c") receipted.1 receiptRecord
    resulted_reachable _).
  vm_compute. reflexivity.
Defined.

Lemma mailbox_request_idempotent_witness :
  createWorkflowItem (at_ 99 "other") created_once.1 approvalMail (Ok "payload") = (created_once.1, Ok onceRecord).
Proof.
  exact (mailbox_request_idempotent (at_ 10 "approval") (at_ 99 "other") demoStart approvalMail (Ok "payload") created_once.1 onceRecord
    start_reachable ltac:(vm_compute; reflexivity) ltac:(vm_compute; reflexivity)).
Defined.

Lemma mailbox_decides_once_witness :
  Approve (30 * second) approved.1 "approval" caller "d2" = (approved.1, Ok approvedRecord) /\
  Reject (30 * second) approved.1 "approval" caller "d2" = (approved.1, Err "mailbox item approval already has approved").
Proof.
  exact (proj1 (mailbox_decides_once (20 * second) (30 * second) asked "approval" provider caller "d1" "d2" approved.1 approvedRecord
    asked_reachable ltac:(vm_compute; reflexivity)) ltac:(vm_compute; reflexivity)).
Defined.

End Demo.
