(* ===== verification/Seal.v ===== *)
(** * Sealing, symmetric encryption and signatures (pkg/key/seal.go, sign.go)

    Byte slices are strings.  The primitives of Go's [crypto] packages are the
    class [CryptoLib], with the laws their documentation promises; the layout
    of a sealed message, the length checks and the derivation of keys are the
    program's own and are modelled here.  What [rand.Reader] yields is an
    argument. *)

From Stdlib Require Import Ascii.
From stdpp Require Import base numbers list gmap strings.
From S2P Require Import Prelude GoStrings Bech32.

(** [KeySize], [NonceSize] and [EphemeralPubSize], and the 16 bytes of a GCM tag. *)
Definition KeySize : Z := 32.
Definition NonceSize : Z := 12.
Definition EphemeralPubSize : Z := 32.
Definition gcmTagSize : Z := 16.

(** ** The primitives *)

Class CryptoLib := {
  (** AES-256-GCM without additional data: [gcm.Seal], [gcm.Open]. *)
  gcmSeal : string -> string -> string -> string;
  gcmOpen : string -> string -> string -> option string;
  (** [hkdf.New] with SHA3-256 and [KeySize] bytes read from it: secret, salt, info. *)
  hkdf32 : string -> string -> string -> string;
  (** X25519: the public key of a scalar, and [ECDH], which refuses some points. *)
  x25519Public : string -> string;
  x25519 : string -> string -> option string;
  sha512 : string -> string;
  (** [edwards25519.Point.SetBytes] and [BytesMontgomery]. *)
  montgomery : string -> option string;
  (** Ed25519: the public key of a seed, [ed25519.Sign] by a private key, [ed25519.Verify]. *)
  edPublic : string -> string;
  edSign : string -> string -> string;
  edVerify : string -> string -> string -> bool;
  gcm_open_seal key nonce m : slen key = KeySize -> slen nonce = NonceSize ->
    gcmOpen key nonce (gcmSeal key nonce m) = Some m;
  gcm_seal_length key nonce m : slen (gcmSeal key nonce m) = slen m + gcmTagSize;
  hkdf_length secret salt info : slen (hkdf32 secret salt info) = KeySize;
  x25519_public_length scalar : slen (x25519Public scalar) = EphemeralPubSize;
  x25519_comm a b : x25519 a (x25519Public b) = x25519 b (x25519Public a);
  ed_sign_length priv m : slen (edSign priv m) = 64;
  ed_public_length seed : slen (edPublic seed) = 32;
  ed_sign_verify seed m : slen seed = 32 -> edVerify (edPublic seed) m (edSign (seed +:+ edPublic seed) m) = true
}.

(** ** Keys *)

(** An Ed25519 private key is its seed followed by the public key. *)
Definition privateKey `{CryptoLib} (seed : string) : string := seed +:+ edPublic seed.

(** [priv.Seed()] *)
Definition Seed (priv : string) : string := str_take 32 priv.

Section Seal.
Context `{Lib : CryptoLib}.

(** The first 32 bytes of the digest with three bits cleared and one set. *)
Definition clamp (h : list Z) : list Z :=
  match h with
  | b0 :: rest =>
      match rev rest with
      | b31 :: mid => Z.land b0 248 :: rev mid ++ [Z.lor (Z.land b31 127) 64]
      | [] => h
      end
  | [] => h
  end.

Definition edPrivToX25519 (priv : string) : string :=
  string_of_bytes (clamp (take 32 (bytes_of (sha512 (Seed priv))))).

Definition edPubToX25519 (pub : string) : result string string :=
  match montgomery pub with
  | Some u => Ok u
  | None => Err "invalid Ed25519 public key"
  end.

Definition deriveKey (secret salt info : string) : string := hkdf32 secret salt info.
Definition DeriveKey (secret salt info : string) : string := deriveKey secret salt info.

(** [ephemeral] is the scalar that [GenerateKey] draws. *)
Definition Seal (ephemeral nonce message recipientPub : string) : result string string :=
  match edPubToX25519 recipientPub with
  | Err e => Err ("converting recipient key: " +:+ e)
  | Ok recipientX =>
      match x25519 ephemeral recipientX with
      | None => Err "computing shared secret"
      | Some shared =>
          let ephPub := x25519Public ephemeral in
          let encKey := deriveKey shared ephPub "sky10-seal" in
          Ok (ephPub +:+ nonce +:+ gcmSeal encKey nonce message)
      end
  end.

Definition Open (sealed recipientPriv : string) : result string string :=
  if slen sealed <? EphemeralPubSize + NonceSize + gcmTagSize then Err "sealed data too short"
  else
    let ephPub := str_take 32 sealed in
    let nonce := str_take 12 (str_drop 32 sealed) in
    let ciphertext := str_drop 44 sealed in
    match x25519 (edPrivToX25519 recipientPriv) ephPub with
    | None => Err "computing shared secret"
    | Some shared =>
        match gcmOpen (deriveKey shared ephPub "sky10-seal") nonce ciphertext with
        | None => Err "decrypting: message authentication failed"
        | Some plaintext => Ok plaintext
        end
    end.

Definition SealFor (unicodeLower : string -> string) (ephemeral nonce message address : string) : result string string :=
  match ParseAddress unicodeLower address with
  | Err e => Err e
  | Ok pub => Seal ephemeral nonce message (string_of_bytes pub)
  end.

Definition Encrypt (nonce plaintext key : string) : result string string :=
  if negb (slen key =? KeySize) then Err "invalid key size"
  else Ok (nonce +:+ gcmSeal key nonce plaintext).

Definition Decrypt (ciphertext key : string) : result string string :=
  if negb (slen key =? KeySize) then Err "invalid key size"
  else if slen ciphertext <? NonceSize then Err "ciphertext too short"
  else match gcmOpen key (str_take 12 ciphertext) (str_drop 12 ciphertext) with
  | Some plaintext => Ok plaintext
  | None => Err "cipher: message authentication failed"
  end.

Definition WrapKey (ephemeral nonce dataKey recipientPub : string) : result string string :=
  Seal ephemeral nonce dataKey recipientPub.
Definition UnwrapKey (wrapped recipientPriv : string) : result string string := Open wrapped recipientPriv.

(** [sign.go] *)
Definition Sign (message priv : string) : string := edSign priv message.
Definition Verify (message signature pub : string) : bool := edVerify pub message signature.

(** ** Round trips *)

(** The key pair of [seed] can take part in an exchange with [ephemeral]: the
    Montgomery form of its public key belongs to its scalar, and the exchange
    is accepted. *)
Record recipient (seed ephemeral : string) : Prop := {
  rc_seed : slen seed = 32;
  rc_point : montgomery (edPublic seed) = Some (x25519Public (edPrivToX25519 (privateKey seed)));
  rc_exchange : is_Some (x25519 ephemeral (x25519Public (edPrivToX25519 (privateKey seed))))
}.

Lemma slen_app s t : slen (s +:+ t) = slen s + slen t.
Proof. unfold slen. rewrite str_length_app. lia. Qed.

Lemma slen_nonneg s : 0 <= slen s.
Proof. unfold slen. lia. Qed.

Lemma cut_at n s t : slen s = Z.of_nat n -> str_take n (s +:+ t) = s /\ str_drop n (s +:+ t) = t.
Proof.
  unfold slen. intros H%Nat2Z.inj. rewrite <- H. split; [apply str_take_app|apply str_drop_app].
Qed.

Lemma str_drop_add n k s : str_drop (n + k) s = str_drop k (str_drop n s).
Proof. revert s. induction n as [|n IH]; intros [|c s]; simpl; try done; by destruct k. Qed.

Lemma Open_Seal ephemeral nonce message seed :
  slen nonce = NonceSize -> recipient seed ephemeral ->
  exists sealed, Seal ephemeral nonce message (edPublic seed) = Ok sealed /\ Open sealed (privateKey seed) = Ok message.
Proof.
  intros Hn [Hs Hp [shared Hx]]. unfold Seal, edPubToX25519. rewrite Hp, Hx. eexists. split; [done|].
  set (ephPub := x25519Public ephemeral). set (key := deriveKey _ _ _). unfold Open.
  rewrite !slen_app, gcm_seal_length, Hn. unfold ephPub. rewrite x25519_public_length. fold ephPub.
  pose proof (slen_nonneg message). replace (_ <? _) with false by (symmetry; apply Z.ltb_ge; lia).
  destruct (cut_at 32 ephPub (nonce +:+ gcmSeal key nonce message)) as [-> Hd]; [apply x25519_public_length|].
  change 44%nat with (32 + 12)%nat. rewrite str_drop_add, Hd.
  destruct (cut_at 12 nonce (gcmSeal key nonce message)) as [-> ->]; [done|].
  unfold ephPub at 1. rewrite x25519_comm, Hx. fold key. rewrite gcm_open_seal by (done || apply hkdf_length). done.
Qed.

Lemma Decrypt_Encrypt nonce plaintext key :
  slen nonce = NonceSize -> slen key = KeySize ->
  exists data, Encrypt nonce plaintext key = Ok data /\ Decrypt data key = Ok plaintext /\ slen data = slen plaintext + 28.
Proof.
  intros Hn Hk. unfold Encrypt, Decrypt. rewrite Hk. eexists. split; [done|].
  rewrite slen_app, gcm_seal_length, Hn. split; [|unfold NonceSize, gcmTagSize; lia].
  pose proof (slen_nonneg plaintext). simpl negb. cbv iota. replace (_ <? _) with false
    by (symmetry; apply Z.ltb_ge; unfold NonceSize, gcmTagSize; lia).
  destruct (cut_at 12 nonce (gcmSeal key nonce plaintext)) as [-> ->]; [done|]. by rewrite gcm_open_seal.
Qed.

(** A message sealed for a device opens to itself with the
    device's private key, whatever ephemeral key and nonce were drawn; what is
    too short to hold an ephemeral key, a nonce and a tag is refused; and
    symmetric encryption, which adds 28 bytes, decrypts to the plaintext. *)
Theorem seal_open_roundtrip ephemeral nonce message seed key short
  (Hnonce : slen nonce = NonceSize) (Hseed : recipient seed ephemeral) (Hkey : slen key = KeySize) (Hshort : slen short < 60) :
  (exists sealed, Seal ephemeral nonce message (edPublic seed) = Ok sealed /\ Open sealed (privateKey seed) = Ok message) /\
  Open short (privateKey seed) = Err "sealed data too short" /\
  (exists data, Encrypt nonce message key = Ok data /\ Decrypt data key = Ok message /\ slen data = slen message + 28).
Proof.
  split; [by apply Open_Seal|]. split; [|by apply Decrypt_Encrypt].
  unfold Open. by replace (_ <? _) with true by (symmetry; apply Z.ltb_lt; unfold EphemeralPubSize, NonceSize, gcmTagSize; lia).
Qed.

End Seal.

(** ** Toy primitives

    They obey the laws: the tag is the key's beginning, the exchange the
    exclusive or of the two scalars. *)

Module Demo.

Fixpoint zeros (n : nat) : string := match n with O => "" | S n => String "000"%char (zeros n) end.
Definition pad (n : nat) (s : string) : string := str_take n (s +:+ zeros n).
Definition xorBytes (s t : string) : string := string_of_bytes (zip_with Z.lxor (bytes_of s) (bytes_of t)).
Definition toyOpen (key _ c : string) : option string :=
  let n := (String.length c - 16)%nat in
  if bool_decide (str_drop n c = pad 16 key) then Some (str_take n c) else None.

Lemma pad_length n s : slen (pad n s) = Z.of_nat n.
Proof.
  unfold pad, slen. rewrite str_length_take; [done|]. rewrite str_length_app.
  assert (String.length (zeros n) = n) as -> by (induction n; simpl; congruence). lia.
Qed.

Lemma xorBytes_comm s t : xorBytes s t = xorBytes t s.
Proof.
  unfold xorBytes. f_equal. generalize (bytes_of s), (bytes_of t). intros l. induction l as [|a l IH]; intros [|b k]; simpl; try done.
  by rewrite Z.lxor_comm, IH.
Qed.

#[export] Instance toyLib : CryptoLib.
Proof.
  refine {|
    gcmSeal key nonce m := m +:+ pad 16 key;
    gcmOpen := toyOpen;
    hkdf32 secret salt info := pad 32 secret;
    x25519Public scalar := pad 32 scalar;
    x25519 a p := Some (xorBytes (pad 32 a) p);
    sha512 s := s;
    montgomery p := Some (pad 32 (string_of_bytes (clamp (take 32 (bytes_of p)))));
    edPublic seed := pad 32 seed;
    edSign priv m := pad 32 (str_drop 32 priv) +:+ pad 32 m;
    edVerify pub m sig := bool_decide (sig = pad 32 pub +:+ pad 32 m) |}.
  - intros key nonce m _ _. unfold toyOpen. rewrite str_length_app.
    assert (String.length (pad 16 key) = 16%nat) as -> by (pose proof (pad_length 16 key); unfold slen in *; lia).
    replace (String.length m + 16 - 16)%nat with (String.length m) by lia.
    by rewrite str_drop_app, str_take_app, bool_decide_true.
  - intros. unfold slen. rewrite str_length_app. pose proof (pad_length 16 key). unfold slen, gcmTagSize in *. lia.
  - intros. apply pad_length.
  - intros. apply pad_length.
  - intros. by rewrite xorBytes_comm.
  - intros. rewrite slen_app, !pad_length. done.
  - intros. apply pad_length.
  - intros seed m Hs. apply bool_decide_eq_true_2. do 2 f_equal. apply (cut_at 32). done.
Defined.

Definition seedA : string := "abcdefghijklmnopqrstuvwxyz012345".
Definition ephA : string := "ephemeral-scalar-of-32-bytes-xxx".

Lemma recipientA : recipient seedA ephA.
Proof. split; [done|vm_compute; reflexivity|by eexists]. Qed.

Lemma seal_open_roundtrip_witness :
  (exists sealed, Seal ephA "nonce-12byte" "hello" (edPublic seedA) = Ok sealed /\ Open sealed (privateKey seedA) = Ok "hello") /\
  Open "short" (privateKey seedA) = Err "sealed data too short" /\
  (exists data, Encrypt "nonce-12byte" "hello" ephA = Ok data /\ Decrypt data ephA = Ok "hello" /\ slen data = slen "hello" + 28).
Proof.
  exact (seal_open_roundtrip ephA "nonce-12byte" "hello" seedA ephA "short" eq_refl recipientA eq_refl ltac:(vm_compute; reflexivity)).
Defined.

End Demo.
