(* ===== verification/Identity.v ===== *)
(** * Identity, devices and their manifest (pkg/id: bundle.go, manifest.go, sort.go, store.go, sync.go)

    An identity key signs the manifest of the devices that belong to it.  A
    device keeps both keys and the manifest in files; with a storage backend
    the identity and the manifest are shared through objects.  Files and
    objects are maps from names to bytes; what the file system and the backend
    answer, the clock and fresh keys are arguments. *)

From Stdlib Require Import Ascii.
From stdpp Require Import base numbers list gmap strings.
From S2P Require Import Prelude GoStrings GoStrconv GoText Bech32 Seal.

(** ** Keys (key.go) *)

Record Key := mkKey { kPublic : string; kPrivate : option string }.

#[export] Instance Key_eq_dec : EqDecision Key.
Proof. solve_decision. Defined.

Definition IsPrivate (k : Key) : bool := match kPrivate k with Some _ => true | None => false end.
Definition FromPublicKey (pub : string) : Key := mkKey pub None.
Definition Key_Address (k : Key) : string := Address (bytes_of (kPublic k)).
Definition Key_ShortID (k : Key) : string := ShortID (bytes_of (kPublic k)).

(** [Generate], from the seed that is drawn. *)
Definition GenerateKey `{CryptoLib} (seed : string) : Key := mkKey (edPublic seed) (Some (privateKey seed)).

(** ** Manifests (manifest.go) *)

Definition DeviceRoleTrusted : string := "trusted".
Definition DeviceRoleSandbox : string := "sandbox".

Record DeviceEntry := mkDevice { dePublicKey : string; deName : string; deRole : string; deAddedAt : Time }.

Record DeviceManifest := mkManifest {
  dmIdentity : string; dmDevices : list DeviceEntry; dmUpdatedAt : Time; dmSignature : string
}.

(** The file of a key; an absent private key is empty. *)
Record keyFile := mkKeyFile { kfDescription : string; kfPublicKey : string; kfPrivateKey : string }.

(** [encoding/json] at the types of this package. *)
Class IdentityJSON := {
  marshalPayload : string -> list DeviceEntry -> Time -> result string string;
  marshalManifest : DeviceManifest -> result string string;
  unmarshalManifest : string -> result string DeviceManifest;
  marshalKeyFile : keyFile -> result string string;
  unmarshalKeyFile : string -> result string keyFile;
  (** Names are valid UTF-8, years have four digits. *)
  wire_manifest : DeviceManifest -> Prop;
  unmarshal_marshalManifest m data : wire_manifest m -> marshalManifest m = Ok data -> unmarshalManifest data = Ok m;
  unmarshal_marshalKeyFile f data : marshalKeyFile f = Ok data -> unmarshalKeyFile data = Ok f
}.

Definition NewManifest (identity : Key) (now : Time) : DeviceManifest := mkManifest (Key_Address identity) [] now "".

Definition CanonicalDeviceRole (unicodeLower : string -> string) (role : string) : string :=
  let r := ToLower unicodeLower (TrimSpace role) in
  if bool_decide (r = "") || bool_decide (r = DeviceRoleTrusted) then "" else r.

Definition NormalizeDeviceRole (unicodeLower : string -> string) (role : string) : string :=
  let canonical := CanonicalDeviceRole unicodeLower role in
  if bool_decide (canonical = "") then DeviceRoleTrusted else canonical.

Definition AddDeviceWithRole (unicodeLower : string -> string) (pub name role : string) (addedAt updatedAt : Time)
  (m : DeviceManifest) : DeviceManifest :=
  mkManifest (dmIdentity m) (dmDevices m ++ [mkDevice pub name (CanonicalDeviceRole unicodeLower role) addedAt]) updatedAt
    (dmSignature m).

Definition AddDevice (unicodeLower : string -> string) (pub name : string) (addedAt updatedAt : Time) (m : DeviceManifest)
  : DeviceManifest := AddDeviceWithRole unicodeLower pub name "" addedAt updatedAt m.

Definition RemoveDevice (pub : string) (updatedAt : Time) (m : DeviceManifest) : DeviceManifest :=
  mkManifest (dmIdentity m) (List.filter (fun d => negb (bool_decide (dePublicKey d = pub))) (dmDevices m)) updatedAt (dmSignature m).

Definition HasDevice (pub : string) (m : DeviceManifest) : bool :=
  existsb (fun d => bool_decide (dePublicKey d = pub)) (dmDevices m).

(** [bytes.Compare(a.PublicKey, b.PublicKey) < 0] *)
Definition device_lt (a b : DeviceEntry) : bool := str_ltb (dePublicKey a) (dePublicKey b).

(** [sortedDeviceEntries] (sort.go): the current device, then by name, then by key. *)
Definition sorted_lt (currentPub : string) (a b : DeviceEntry) : bool :=
  let current d := negb (bool_decide (currentPub = "")) && bool_decide (dePublicKey d = currentPub) in
  if negb (eqb (current a) (current b)) then current a
  else if negb (bool_decide (deName a = deName b)) then str_ltb (deName a) (deName b)
  else device_lt a b.

Definition sortedDeviceEntries (devices : list DeviceEntry) (currentPub : string) : list DeviceEntry :=
  sortBy (sorted_lt currentPub) devices.

(** ** Bundles (bundle.go) *)

Record Bundle := mkBundle { bIdentity : Key; bDevice : Key; bManifest : DeviceManifest }.

Definition Bundle_Address (b : Bundle) : string := Key_Address (bIdentity b).
Definition DeviceID (b : Bundle) : string := "D-" +:+ Key_ShortID (bDevice b).
Definition IsDeviceAuthorized (b : Bundle) (pub : string) : bool := HasDevice pub (bManifest b).

Section Manifest.
Context `{Lib : CryptoLib} `{JSON : IdentityJSON}.

Definition signPayload (m : DeviceManifest) : result string string :=
  marshalPayload (dmIdentity m) (sortBy device_lt (dmDevices m)) (dmUpdatedAt m).

(** [ed25519.Sign] panics on a private key of another length. *)
Definition ManifestSign (priv : option string) (m : DeviceManifest) : result string DeviceManifest :=
  match signPayload m with
  | Err e => Err ("computing sign payload: " +:+ e)
  | Ok payload =>
      match priv with
      | Some p => if slen p =? 64 then Ok (mkManifest (dmIdentity m) (dmDevices m) (dmUpdatedAt m) (Sign payload p))
                  else Err "panic: ed25519: bad private key length"
      | None => Err "panic: ed25519: bad private key length"
      end
  end.

Definition ManifestVerify (pub : string) (m : DeviceManifest) : bool :=
  if bool_decide (dmSignature m = "") then false
  else match signPayload m with
  | Err _ => false
  | Ok payload => Verify payload (dmSignature m) pub
  end.

(** [New] *)
Definition NewBundle (identity device : Key) (manifest : DeviceManifest) : result string Bundle :=
  if negb (IsPrivate identity) then Err "identity key must have private component"
  else if negb (IsPrivate device) then Err "device key must have private component"
  else if negb (ManifestVerify (kPublic identity) manifest) then Err "manifest signature invalid"
  else if negb (HasDevice (kPublic device) manifest) then Err "device key not in manifest"
  else Ok (mkBundle identity device manifest).

End Manifest.

(** ** The key directory (store.go, [Load] and [Save] of key.go) *)

Definition identityFile : string := "identity.json".
Definition deviceFile : string := "device.json".
Definition manifestFile : string := "manifest.json".
Definition legacyFile : string := "key.json".

Abbreviation Disk := (gmap string string).

(** [os.WriteFile] truncates the file it opened before it writes. *)
Inductive WriteOutcome := Written | NotOpened | Torn (rest : string).

(** What an operation meets: failing reads and writes by file name, a failing
    [MkdirAll], the host name, fresh seeds and the clock. *)
Record DiskEnv := mkDiskEnv {
  deRead : string -> option string; deWrite : string -> WriteOutcome; deMkdir : option string;
  deHostname : string; deSeed : nat -> string; deNow : nat -> Time; deLower : string -> string
}.

Definition ReadFile (env : DiskEnv) (d : Disk) (name : string) : result string string :=
  match deRead env name with
  | Some e => Err e
  | None => match d !! name with Some data => Ok data | None => Err "no such file or directory" end
  end.

Definition WriteFile (env : DiskEnv) (d : Disk) (name data : string) : Disk * result string unit :=
  match deWrite env name with
  | Written => (<[name := data]> d, Ok tt)
  | NotOpened => (d, Err "open failed")
  | Torn rest => (<[name := rest]> d, Err "write failed")
  end.

(** [os.IsNotExist] of [os.Stat]. *)
Definition missing (d : Disk) (name : string) : bool := negb (bool_decide (is_Some (d !! name))).

Section Store.
Context `{Lib : CryptoLib} `{JSON : IdentityJSON}.

Definition LoadKey (env : DiskEnv) (d : Disk) (name : string) : result string Key :=
  match ReadFile env d name with
  | Err e => Err ("reading key: " +:+ e)
  | Ok data =>
      match unmarshalKeyFile data with
      | Err e => Err ("parsing key: " +:+ e)
      | Ok f =>
          if negb (slen (kfPublicKey f) =? PublicKeySize) then Err "invalid public key length"
          else Ok (mkKey (kfPublicKey f) (if slen (kfPrivateKey f) =? 64 then Some (kfPrivateKey f) else None))
      end
  end.

Definition SaveWithDescription (env : DiskEnv) (d : Disk) (k : Key) (name description : string) : Disk * result string unit :=
  match marshalKeyFile (mkKeyFile description (kPublic k) (default "" (kPrivate k))) with
  | Err e => (d, Err ("marshaling key: " +:+ e))
  | Ok data => WriteFile env d name data
  end.

(** The three files one after the other; the first error stops. *)
Definition StoreSave (env : DiskEnv) (d : Disk) (b : Bundle) : Disk * result string unit :=
  match deMkdir env with
  | Some e => (d, Err ("creating keys directory: " +:+ e))
  | None =>
      match SaveWithDescription env d (bIdentity b) identityFile "sky10 identity key" with
      | (d, Err e) => (d, Err ("saving identity key: " +:+ e))
      | (d, Ok _) =>
          match SaveWithDescription env d (bDevice b) deviceFile "sky10 device key" with
          | (d, Err e) => (d, Err ("saving device key: " +:+ e))
          | (d, Ok _) =>
              match marshalManifest (bManifest b) with
              | Err e => (d, Err ("marshaling manifest: " +:+ e))
              | Ok data =>
                  match WriteFile env d manifestFile data with
                  | (d, Err e) => (d, Err ("writing manifest: " +:+ e))
                  | (d, Ok _) => (d, Ok tt)
                  end
              end
          end
      end
  end.

(** A signed manifest with one device, and the bundle of it, saved. *)
Definition saveNew (env : DiskEnv) (d : Disk) (identity device : Key) (name : string) : Disk * result string Bundle :=
  let m := AddDevice (deLower env) (kPublic device) name (deNow env 1) (deNow env 2) (NewManifest identity (deNow env 0)) in
  match ManifestSign (kPrivate identity) m with
  | Err e => (d, Err ("signing manifest: " +:+ e))
  | Ok m =>
      match NewBundle identity device m with
      | Err e => (d, Err e)
      | Ok b => match StoreSave env d b with (d, Err e) => (d, Err e) | (d, Ok _) => (d, Ok b) end
      end
  end.

(** [seed 0] is the identity's, [seed 1] the device's. *)
Definition StoreGenerate (env : DiskEnv) (d : Disk) (deviceName : string) : Disk * result string Bundle :=
  saveNew env d (GenerateKey (deSeed env 0)) (GenerateKey (deSeed env 1)) deviceName.

Definition hostname (env : DiskEnv) : string := if bool_decide (deHostname env = "") then "unknown" else deHostname env.

Definition Migrate (env : DiskEnv) (d : Disk) : Disk * result string Bundle :=
  match LoadKey env d legacyFile with
  | Err e => (d, Err ("loading legacy key: " +:+ e))
  | Ok identity => saveNew env d identity (GenerateKey (deSeed env 1)) (hostname env)
  end.

Definition NeedsMigration (d : Disk) : bool := negb (missing d legacyFile) && missing d identityFile.

Definition StoreLoad (env : DiskEnv) (d : Disk) : Disk * result string Bundle :=
  if missing d identityFile then
    if NeedsMigration d then Migrate env d else (d, Err "identity not initialized")
  else
    (d, match LoadKey env d identityFile with
        | Err e => Err ("loading identity key: " +:+ e)
        | Ok identity =>
            match LoadKey env d deviceFile with
            | Err e => Err ("loading device key: " +:+ e)
            | Ok device =>
                match ReadFile env d manifestFile with
                | Err e => Err ("reading manifest: " +:+ e)
                | Ok data =>
                    match unmarshalManifest data with
                    | Err e => Err ("parsing manifest: " +:+ e)
                    | Ok manifest => NewBundle identity device manifest
                    end
                end
            end
        end).

(** ** Sharing through a backend (sync.go) *)

Definition s3IdentityEnc : string := "identity/key.enc".
Definition s3IdentityPub : string := "identity/pub".
Definition s3ManifestKey : string := "identity/manifest.json".

Inductive GetError := NotFound | Failed (e : string).

(** The backend's failures by key and the nonce of an encryption. *)
Record BackendEnv := mkBackendEnv { beGet : string -> option GetError; bePut : string -> option string; beNonce : string }.

Definition beFetch (env : BackendEnv) (r : gmap string string) (key : string) : result GetError string :=
  match beGet env key with
  | Some e => Err e
  | None => match r !! key with Some data => Ok data | None => Err NotFound end
  end.

Definition beStore (env : BackendEnv) (r : gmap string string) (key data : string) : gmap string string * result string unit :=
  match bePut env key with Some e => (r, Err e) | None => (<[key := data]> r, Ok tt) end.

Definition deriveEncKey (address : string) : string := DeriveKey address "sky10-identity" "identity-encryption".

Definition uploadManifest (env : BackendEnv) (r : gmap string string) (m : DeviceManifest) : gmap string string * result string unit :=
  match marshalManifest m with
  | Err e => (r, Err ("marshaling manifest: " +:+ e))
  | Ok data => beStore env r s3ManifestKey data
  end.

Definition downloadManifest (env : BackendEnv) (r : gmap string string) (identity : Key) : option DeviceManifest :=
  match beFetch env r s3ManifestKey with
  | Err _ => None
  | Ok data =>
      match unmarshalManifest data with
      | Err _ => None
      | Ok m => if ManifestVerify (kPublic identity) m then Some m else None
      end
  end.

Definition uploadIdentity (env : BackendEnv) (r : gmap string string) (b : Bundle) : gmap string string * result string unit :=
  let addr := Bundle_Address b in
  match Encrypt (beNonce env) (default "" (kPrivate (bIdentity b))) (deriveEncKey addr) with
  | Err e => (r, Err ("encrypting identity key: " +:+ e))
  | Ok encrypted =>
      match beStore env r s3IdentityEnc encrypted with
      | (r, Err e) => (r, Err ("uploading identity key: " +:+ e))
      | (r, Ok _) =>
          match beStore env r s3IdentityPub addr with
          | (r, Err e) => (r, Err ("uploading identity address: " +:+ e))
          | (r, Ok _) => uploadManifest env r (bManifest b)
          end
      end
  end.

Definition downloadIdentity (unicodeLower : string -> string) (env : BackendEnv) (r : gmap string string) : result GetError Key :=
  match beFetch env r s3IdentityPub with
  | Err e => Err e
  | Ok addr =>
      match ParseAddress unicodeLower addr with
      | Err e => Err (Failed ("parsing identity address: " +:+ e))
      | Ok pub =>
          match beFetch env r s3IdentityEnc with
          | Err e => Err e
          | Ok encrypted =>
              match Decrypt encrypted (deriveEncKey addr) with
              | Err e => Err (Failed ("decrypting identity key: " +:+ e))
              | Ok priv => Ok (mkKey (string_of_bytes pub) (Some priv))
              end
          end
      end
  end.

Definition localIdentity (env : DiskEnv) (gen : DiskEnv) (d : Disk) (deviceName : string) : Disk * result string Bundle :=
  match StoreLoad env d with
  | (d, Ok b) => (d, Ok b)
  | (d, Err _) => StoreGenerate gen d deviceName
  end.

Definition adoptIdentity (env : DiskEnv) (net : BackendEnv) (d : Disk) (r : gmap string string) (identity : Key) (name : string)
  : Disk * gmap string string * result string Bundle :=
  let device := GenerateKey (deSeed env 1) in
  let m := default (NewManifest identity (deNow env 0)) (downloadManifest net r identity) in
  let m := AddDevice (deLower env) (kPublic device) name (deNow env 1) (deNow env 2) m in
  match ManifestSign (kPrivate identity) m with
  | Err e => (d, r, Err ("signing manifest: " +:+ e))
  | Ok m =>
      match NewBundle identity device m with
      | Err e => (d, r, Err e)
      | Ok b =>
          match StoreSave env d b with
          | (d, Err e) => (d, r, Err e)
          | (d, Ok _) =>
              match uploadManifest net r m with
              | (r, Err e) => (d, r, Err e)
              | (r, Ok _) => (d, r, Ok b)
              end
          end
      end
  end.

Definition syncManifest (env : DiskEnv) (net : BackendEnv) (d : Disk) (r : gmap string string) (b : Bundle)
  : Disk * gmap string string * result string Bundle :=
  let remote := downloadManifest net r (bIdentity b) in
  let listed := match remote with Some m => HasDevice (kPublic (bDevice b)) m | None => false end in
  if listed then (d, r, Ok b)
  else
    let m := default (NewManifest (bIdentity b) (deNow env 0)) remote in
    let m := if HasDevice (kPublic (bDevice b)) m then m
             else AddDevice (deLower env) (kPublic (bDevice b)) (hostname env) (deNow env 1) (deNow env 2) m in
    match ManifestSign (kPrivate (bIdentity b)) m with
    | Err e => (d, r, Err ("signing manifest: " +:+ e))
    | Ok m =>
        let b := mkBundle (bIdentity b) (bDevice b) m in
        match StoreSave env d b with
        | (d, Err e) => (d, r, Err e)
        | (d, Ok _) =>
            match uploadManifest net r m with
            | (r, Err e) => (d, r, Err e)
            | (r, Ok _) => (d, r, Ok b)
            end
        end
    end.

(** [SyncIdentity]; without a backend only the disk matters.  [load] is what the
    loading of the local bundle meets, [env] the rest. *)
Definition SyncIdentity (load env : DiskEnv) (net : BackendEnv) (d : Disk) (backend : option (gmap string string)) (deviceName : string)
  : Disk * option (gmap string string) * result string Bundle :=
  match backend with
  | None => let '(d, b) := localIdentity load env d deviceName in (d, None, b)
  | Some r =>
      match downloadIdentity (deLower env) net r with
      | Err (Failed e) => (d, Some r, Err ("fetching remote identity: " +:+ e))
      | Ok identity =>
          let '(d, local) := StoreLoad load d in
          let '(d, r, b) :=
            match local with
            | Ok b => if bool_decide (Bundle_Address b = Key_Address identity) then syncManifest env net d r b
                      else adoptIdentity env net d r identity deviceName
            | Err _ => adoptIdentity env net d r identity deviceName
            end in
          (d, Some r, b)
      | Err NotFound =>
          let '(d, local) := StoreLoad load d in
          let '(d, b) := match local with Ok b => (d, Ok b) | Err _ => StoreGenerate env d deviceName end in
          match b with
          | Err e => (d, Some r, Err e)
          | Ok b =>
              match uploadIdentity net r b with
              | (r, Err e) => (d, Some r, Err e)
              | (r, Ok _) => (d, Some r, Ok b)
              end
          end
      end
  end.

End Store.

(** ** Signed manifests *)

Section Facts.
Context `{Lib : CryptoLib} `{JSON : IdentityJSON}.

(** A key whose private half belongs to its public half. *)
Definition good_key (k : Key) : Prop := exists seed, slen seed = 32 /\ k = GenerateKey seed.

Lemma good_key_lengths k : good_key k -> slen (kPublic k) = 32 /\ exists p, kPrivate k = Some p /\ slen p = 64.
Proof.
  intros (seed & Hs & ->). split; [apply ed_public_length|]. eexists. split; [done|].
  unfold privateKey. rewrite slen_app, ed_public_length, Hs. done.
Qed.

Lemma GenerateKey_good seed : slen seed = 32 -> good_key (GenerateKey seed).
Proof. by exists seed. Qed.

Record valid_bundle (b : Bundle) : Prop := {
  vb_identity : IsPrivate (bIdentity b) = true;
  vb_device : IsPrivate (bDevice b) = true;
  vb_signed : ManifestVerify (kPublic (bIdentity b)) (bManifest b) = true;
  vb_listed : HasDevice (kPublic (bDevice b)) (bManifest b) = true
}.

Lemma NewBundle_ok identity device m b :
  NewBundle identity device m = Ok b <-> b = mkBundle identity device m /\ valid_bundle (mkBundle identity device m).
Proof.
  unfold NewBundle. destruct (IsPrivate identity) eqn:E1; simpl; [|by split; [|intros [_ []]; simpl in *; congruence]].
  destruct (IsPrivate device) eqn:E2; simpl; [|by split; [|intros [_ []]; simpl in *; congruence]].
  destruct (ManifestVerify _ m) eqn:E3; simpl; [|by split; [|intros [_ []]; simpl in *; congruence]].
  destruct (HasDevice _ m) eqn:E4; simpl; [|by split; [|intros [_ []]; simpl in *; congruence]].
  split; [intros [= <-]; by split|intros [-> _]; done].
Qed.

Lemma ManifestSign_fields priv m m' :
  ManifestSign priv m = Ok m' -> dmDevices m' = dmDevices m /\ dmIdentity m' = dmIdentity m /\ dmUpdatedAt m' = dmUpdatedAt m /\
  exists p payload, priv = Some p /\ slen p = 64 /\ signPayload m = Ok payload /\ dmSignature m' = Sign payload p.
Proof.
  unfold ManifestSign. destruct (signPayload m) as [payload|]; [|done]. destruct priv as [p|]; [|done].
  destruct (Z.eqb_spec (slen p) 64) as [Hp|]; [|done]. intros [= <-]. simpl. split_and!; try done. by exists p, payload.
Qed.

Lemma ManifestSign_verifies k m m' :
  good_key k -> ManifestSign (kPrivate k) m = Ok m' -> ManifestVerify (kPublic k) m' = true.
Proof.
  intros (seed & Hs & ->) Hsign. apply ManifestSign_fields in Hsign as (Hd & Hi & Hu & p & payload & [= <-] & _ & Hp & Hsig).
  unfold ManifestVerify. rewrite bool_decide_false.
  - assert (signPayload m' = Ok payload) as -> by (rewrite <- Hp; unfold signPayload; by rewrite Hd, Hi, Hu).
    rewrite Hsig. unfold Verify, Sign. simpl kPublic. by apply ed_sign_verify.
  - rewrite Hsig. intros He. pose proof (ed_sign_length (privateKey seed) payload) as Hl. unfold Sign in He. rewrite He in Hl. done.
Qed.

Lemma HasDevice_devices pub m m' : dmDevices m' = dmDevices m -> HasDevice pub m' = HasDevice pub m.
Proof. unfold HasDevice. by intros ->. Qed.

Lemma HasDevice_add lower pub name role t1 t2 m q :
  HasDevice q (AddDeviceWithRole lower pub name role t1 t2 m) = HasDevice q m || bool_decide (pub = q).
Proof. unfold HasDevice, AddDeviceWithRole. simpl. rewrite existsb_app. simpl. by rewrite orb_false_r. Qed.

(** ** Saved bundles load back *)

(** An environment in which reads succeed. *)
Definition readable (env : DiskEnv) : Prop := forall name, deRead env name = None.

Definition saved (d : Disk) (b : Bundle) : Prop :=
  (exists desc data, marshalKeyFile (mkKeyFile desc (kPublic (bIdentity b)) (default "" (kPrivate (bIdentity b)))) = Ok data /\
     d !! identityFile = Some data) /\
  (exists desc data, marshalKeyFile (mkKeyFile desc (kPublic (bDevice b)) (default "" (kPrivate (bDevice b)))) = Ok data /\
     d !! deviceFile = Some data) /\
  (exists data, marshalManifest (bManifest b) = Ok data /\ d !! manifestFile = Some data).

Lemma WriteFile_ok env d name data d' : WriteFile env d name data = (d', Ok tt) -> d' = <[name := data]> d.
Proof. unfold WriteFile. by destruct (deWrite env name); intros [= <-]. Qed.

Lemma StoreSave_ok env d b d' : StoreSave env d b = (d', Ok tt) -> saved d' b.
Proof.
  unfold StoreSave, SaveWithDescription. destruct (deMkdir env); [done|].
  destruct (marshalKeyFile _) as [data1|] eqn:E1; [|done]. destruct (WriteFile env d _ _) as [d1 [[]|]] eqn:W1; [|done].
  destruct (marshalKeyFile (mkKeyFile _ (kPublic (bDevice b)) _)) as [data2|] eqn:E2; [|done].
  destruct (WriteFile env d1 _ _) as [d2 [[]|]] eqn:W2; [|done].
  destruct (marshalManifest _) as [data3|] eqn:E3; [|done].
  destruct (WriteFile env d2 _ _) as [d3 [[]|]] eqn:W3; [|done]. intros [= <-].
  apply WriteFile_ok in W1 as ->. apply WriteFile_ok in W2 as ->. apply WriteFile_ok in W3 as ->.
  split_and!; [eexists _, data1|eexists _, data2|exists data3]; (split; [done|]);
    repeat first [apply lookup_insert_eq | rewrite lookup_insert_ne by done].
Qed.

Lemma LoadKey_saved env d name k desc data :
  readable env -> good_key k -> marshalKeyFile (mkKeyFile desc (kPublic k) (default "" (kPrivate k))) = Ok data ->
  d !! name = Some data -> LoadKey env d name = Ok k.
Proof.
  intros Hr (Hpub & p & Hp & Hl)%good_key_lengths Hm Hd. unfold LoadKey, ReadFile. rewrite Hr, Hd.
  rewrite (unmarshal_marshalKeyFile _ _ Hm). simpl. rewrite Hpub, Hp. simpl. rewrite Hl. simpl. destruct k. simpl in *. by subst.
Qed.

Lemma saved_loads env d b :
  readable env -> good_key (bIdentity b) -> good_key (bDevice b) -> valid_bundle b -> wire_manifest (bManifest b) ->
  saved d b -> StoreLoad env d = (d, Ok b).
Proof.
  intros Hr Hi Hdv Hv Hw ((? & ? & Hm1 & Hd1) & (? & ? & Hm2 & Hd2) & (data & Hm3 & Hd3)). unfold StoreLoad, missing.
  rewrite bool_decide_true by by eexists. simpl negb. cbv iota.
  rewrite (LoadKey_saved _ _ _ _ _ _ Hr Hi Hm1 Hd1), (LoadKey_saved _ _ _ _ _ _ Hr Hdv Hm2 Hd2).
  unfold ReadFile. rewrite Hr, Hd3, (unmarshal_marshalManifest _ _ Hw Hm3). f_equal. apply NewBundle_ok. by destruct b.
Qed.

Lemma saveNew_ok env d identity device name d' b :
  saveNew env d identity device name = (d', Ok b) ->
  bIdentity b = identity /\ bDevice b = device /\ valid_bundle b /\ saved d' b.
Proof.
  unfold saveNew. destruct (ManifestSign _ _) as [m|]; [|done]. destruct (NewBundle _ _ m) as [b0|] eqn:En; [|done].
  destruct (StoreSave env d b0) as [d1 [[]|]] eqn:Es; [|done]. intros [= <- <-].
  apply NewBundle_ok in En as [-> Hv]. apply StoreSave_ok in Es. by split_and!.
Qed.

Lemma ReadFile_ok env env' d name data : readable env' -> ReadFile env d name = Ok data -> ReadFile env' d name = Ok data.
Proof. intros Hr. unfold ReadFile. rewrite Hr. destruct (deRead env name); [done|]. by destruct (d !! name). Qed.

Lemma LoadKey_ok env env' d name k : readable env' -> LoadKey env d name = Ok k -> LoadKey env' d name = Ok k.
Proof.
  intros Hr. unfold LoadKey. destruct (ReadFile env d name) as [data|] eqn:E; [|done].
  by rewrite (ReadFile_ok env env' d name data Hr E).
Qed.

Lemma StoreLoad_valid env d d' b : StoreLoad env d = (d', Ok b) -> valid_bundle b.
Proof.
  unfold StoreLoad. destruct (missing d identityFile).
  - destruct (NeedsMigration d); [|done]. unfold Migrate. destruct (LoadKey _ _ _); [|done]. by intros (_ & _ & ? & _)%saveNew_ok.
  - intros [= <- Hb]. destruct (LoadKey _ _ identityFile); [|done]. destruct (LoadKey _ _ deviceFile); [|done].
    destruct (ReadFile _ _ _); [|done]. destruct (unmarshalManifest _); [|done]. by apply NewBundle_ok in Hb as [-> ?].
Qed.

Lemma StoreLoad_again env env' d d' b :
  StoreLoad env d = (d', Ok b) -> readable env' -> good_key (bIdentity b) -> good_key (bDevice b) -> wire_manifest (bManifest b) ->
  StoreLoad env' d' = (d', Ok b).
Proof.
  intros Hl Hr Hi Hd Hw. pose proof (StoreLoad_valid _ _ _ _ Hl) as Hv. unfold StoreLoad in Hl.
  destruct (missing d identityFile) eqn:Em.
  - destruct (NeedsMigration d); [|done]. unfold Migrate in Hl. destruct (LoadKey _ _ _); [|done].
    apply saveNew_ok in Hl as (_ & _ & _ & ?). by apply saved_loads.
  - injection Hl as <- Hb. unfold StoreLoad. rewrite Em. f_equal.
    destruct (LoadKey env d identityFile) eqn:E1; [|done]. rewrite (LoadKey_ok _ env' _ _ _ Hr E1).
    destruct (LoadKey env d deviceFile) eqn:E2; [|done]. rewrite (LoadKey_ok _ env' _ _ _ Hr E2).
    destruct (ReadFile env d manifestFile) eqn:E3; [|done]. by rewrite (ReadFile_ok _ env' _ _ _ Hr E3).
Qed.

(** ** Sharing an identity *)

(** A backend that answers. *)
Definition reachable_net (net : BackendEnv) : Prop := forall key, beGet net key = None.

Lemma downloadManifest_stored net r k m data :
  reachable_net net -> r !! s3ManifestKey = Some data -> marshalManifest m = Ok data -> wire_manifest m ->
  ManifestVerify (kPublic k) m = true -> downloadManifest net r k = Some m.
Proof.
  intros Hn Hr Hm Hw Hv. unfold downloadManifest, beFetch. by rewrite Hn, Hr, (unmarshal_marshalManifest _ _ Hw Hm), Hv.
Qed.

Lemma downloadManifest_again net net' r k m :
  reachable_net net' -> downloadManifest net r k = Some m -> downloadManifest net' r k = Some m /\ ManifestVerify (kPublic k) m = true.
Proof.
  intros Hn. unfold downloadManifest, beFetch. rewrite Hn. destruct (beGet net _); [done|].
  destruct (r !! s3ManifestKey); [|done]. destruct (unmarshalManifest _); [|done].
  destruct (ManifestVerify _ _) eqn:E; [|done]. by intros [= ->].
Qed.

Lemma uploadManifest_ok net r m r' :
  uploadManifest net r m = (r', Ok tt) -> exists data, marshalManifest m = Ok data /\ r' !! s3ManifestKey = Some data.
Proof.
  unfold uploadManifest, beStore. destruct (marshalManifest m) as [data|]; [|done]. destruct (bePut net _); [done|].
  intros [= <-]. exists data. split; [done|apply lookup_insert_eq].
Qed.

(** What a synchronised device has: a valid bundle of that identity, on disk,
    and a published manifest that lists this device and all that the manifest
    listed before. *)
Record joined (identity : Key) (before : option DeviceManifest) (d : Disk) (r : gmap string string) (b : Bundle) : Prop := {
  jn_address : Bundle_Address b = Key_Address identity;
  jn_valid : valid_bundle b;
  jn_disk : forall env, readable env -> wire_manifest (bManifest b) -> StoreLoad env d = (d, Ok b);
  jn_published : exists m, HasDevice (kPublic (bDevice b)) m = true /\
    (forall net, reachable_net net -> wire_manifest m -> downloadManifest net r (bIdentity b) = Some m) /\
    (forall m0 q, before = Some m0 -> HasDevice q m0 = true -> HasDevice q m = true)
}.

Lemma publish env net d r identity device m m0 d' r' :
  good_key identity -> good_key device ->
  ManifestSign (kPrivate identity) m0 = Ok m -> HasDevice (kPublic device) m0 = true ->
  StoreSave env d (mkBundle identity device m) = (d', Ok tt) -> uploadManifest net r m = (r', Ok tt) ->
  (forall m1 q, downloadManifest net r identity = Some m1 -> HasDevice q m1 = true -> HasDevice q m0 = true) ->
  joined identity (downloadManifest net r identity) d' r' (mkBundle identity device m).
Proof.
  intros Hi Hd Hs Hl Hsave Hup Hkeep. pose proof (ManifestSign_verifies _ _ _ Hi Hs) as Hv.
  pose proof (ManifestSign_fields _ _ _ Hs) as (Hdev & _).
  assert (valid_bundle (mkBundle identity device m)) as Hvb.
  { split; simpl; [| |done|by rewrite (HasDevice_devices _ _ _ Hdev)];
      [destruct Hi as (? & _ & ->)|destruct Hd as (? & _ & ->)]; done. }
  apply uploadManifest_ok in Hup as (data & Hm & Hr'). split; [done|done| |].
  - intros env' Hr Hw. apply saved_loads; try done. by eapply StoreSave_ok.
  - exists m. split; [apply Hvb|]. split.
    + intros net' Hn Hw. by eapply downloadManifest_stored.
    + intros m1 q H1 H2. rewrite (HasDevice_devices _ _ _ Hdev). by eapply Hkeep.
Qed.

Lemma adoptIdentity_joins env net d r identity name d' r' b :
  good_key identity -> slen (deSeed env 1) = 32 ->
  adoptIdentity env net d r identity name = (d', r', Ok b) -> joined identity (downloadManifest net r identity) d' r' b.
Proof.
  intros Hi Hseed. unfold adoptIdentity. destruct (ManifestSign _ _) as [m|] eqn:Es; [|done].
  destruct (NewBundle _ _ m) as [b0|] eqn:En; [|done]. destruct (StoreSave _ _ _) as [d1 [[]|]] eqn:Esv; [|done].
  destruct (uploadManifest _ _ _) as [r1 [[]|]] eqn:Eu; [|done]. intros [= <- <- <-].
  apply NewBundle_ok in En as [-> _]. eapply publish; [done|by apply GenerateKey_good|exact Es| |exact Esv|exact Eu|].
  - unfold AddDevice. rewrite HasDevice_add, bool_decide_true by done. apply orb_true_r.
  - intros m1 q -> Hq. unfold AddDevice. rewrite HasDevice_add. simpl. by rewrite Hq.
Qed.

Lemma syncManifest_joins load env net d0 d r b d' r' b' :
  StoreLoad load d0 = (d, Ok b) -> good_key (bIdentity b) -> good_key (bDevice b) ->
  syncManifest env net d r b = (d', r', Ok b') ->
  joined (bIdentity b) (downloadManifest net r (bIdentity b)) d' r' b' /\ bIdentity b' = bIdentity b.
Proof.
  intros Hload Hi Hd. unfold syncManifest.
  destruct (match downloadManifest net r (bIdentity b) with Some m => _ | None => _ end) eqn:El.
  - intros [= <- <- <-]. split; [|done]. destruct (downloadManifest net r (bIdentity b)) as [m|] eqn:Em; [|done].
    split; [done|by eapply StoreLoad_valid| |].
    + intros env' Hr Hw. by eapply StoreLoad_again.
    + exists m. split; [done|]. split; [|by intros m0 q [= ->]]. intros net' Hn _. by eapply (downloadManifest_again net net').
  - set (m0 := if HasDevice _ _ then _ else _). destruct (ManifestSign _ m0) as [m|] eqn:Es; [|done].
    destruct (StoreSave _ _ _) as [d1 [[]|]] eqn:Esv; [|done]. destruct (uploadManifest _ _ _) as [r1 [[]|]] eqn:Eu; [|done].
    intros [= <- <- <-]. split; [|done]. eapply publish; [done|done|exact Es| |exact Esv|exact Eu|]; subst m0.
    + destruct (HasDevice _ _) eqn:Eh; [done|]. unfold AddDevice. rewrite HasDevice_add, (bool_decide_true (_ = _)) by done.
      apply orb_true_r.
    + intros m1 q -> Hq. simpl. destruct (HasDevice (kPublic (bDevice b)) m1) eqn:Eh; [done|].
      unfold AddDevice. by rewrite HasDevice_add, Hq.
Qed.

Lemma adoptIdentity_identity env net d r identity name d' r' b :
  adoptIdentity env net d r identity name = (d', r', Ok b) -> bIdentity b = identity.
Proof.
  unfold adoptIdentity. intros H. case_in H.
  by match goal with Hn : NewBundle _ _ _ = Ok _ |- _ => apply NewBundle_ok in Hn as [-> _] end.
Qed.

(** The keys in the local files belong together. *)
Definition good_disk (load : DiskEnv) (d : Disk) : Prop :=
  forall d' b, StoreLoad load d = (d', Ok b) -> good_key (bIdentity b) /\ good_key (bDevice b).

(** C19 (functional). When the backend holds an identity, a synchronisation that
    succeeds leaves the device with that identity: its bundle is valid (both
    private keys present, the manifest signed by the identity, the device
    listed), it loads back from disk, and the published manifest verifies and
    lists the device beside all devices of the manifest that could be
    downloaded. *)
Theorem identity_sync_joins load env net d r name identity d' r' b
  (Hremote : downloadIdentity (deLower env) net r = Ok identity) (Hkey : good_key identity) (Hdisk : good_disk load d)
  (Hseed : slen (deSeed env 1) = 32)
  (Hrun : SyncIdentity load env net d (Some r) name = (d', Some r', Ok b)) :
  joined identity (downloadManifest net r (bIdentity b)) d' r' b.
Proof.
  unfold SyncIdentity in Hrun. rewrite Hremote in Hrun. destruct (StoreLoad load d) as [d1 [b0|]] eqn:El.
  - destruct (Hdisk _ _ El) as [Hi Hd]. destruct (bool_decide_reflect (Bundle_Address b0 = Key_Address identity)) as [Ha|].
    + destruct (syncManifest _ _ _ _ _) as [[d2 r2] res] eqn:Es. injection Hrun as -> -> ->.
      eapply syncManifest_joins in Es as [[H1 H2 H3 H4] ->]; [|done|done|done].
      split; [|done|done|exact H4]. rewrite H1. exact Ha.
    + destruct (adoptIdentity _ _ _ _ _ _) as [[d2 r2] res] eqn:Es. injection Hrun as -> -> ->.
      pose proof (adoptIdentity_identity _ _ _ _ _ _ _ _ _ Es) as ->. by eapply adoptIdentity_joins.
  - destruct (adoptIdentity _ _ _ _ _ _) as [[d2 r2] res] eqn:Es. injection Hrun as -> -> ->.
    pose proof (adoptIdentity_identity _ _ _ _ _ _ _ _ _ Es) as ->. by eapply adoptIdentity_joins.
Qed.

(** ** What a failing read costs *)

(** Without a backend, any bundle that does not load is replaced by
    a fresh one.  An identity key that is intact on disk is overwritten because
    the manifest beside it does not parse. *)
Theorem identity_replaced_on_load_error load env d deviceName e d' b
  (Hmanifest : d !! manifestFile = Some e) (Hbroken : is_ok (unmarshalManifest e) = false)
  (Hthere : missing d identityFile = false)
  (Hrun : localIdentity load env d deviceName = (d', Ok b)) :
  bIdentity b = GenerateKey (deSeed env 0) /\
  exists desc data, marshalKeyFile (mkKeyFile desc (edPublic (deSeed env 0)) (privateKey (deSeed env 0))) = Ok data /\
    d' !! identityFile = Some data.
Proof.
  unfold localIdentity in Hrun. assert (exists x, StoreLoad load d = (d, Err x)) as [x Hx].
  { unfold StoreLoad. rewrite Hthere. destruct (LoadKey load d identityFile); [|by eexists].
    destruct (LoadKey load d deviceFile); [|by eexists]. unfold ReadFile. destruct (deRead load manifestFile); [by eexists|].
    rewrite Hmanifest. destruct (unmarshalManifest e); [done|by eexists]. }
  rewrite Hx in Hrun.
  apply saveNew_ok in Hrun as (Hi & _ & _ & (desc & data & Hm & Hd) & _). rewrite Hi in Hm |- *. split; [done|].
  by exists desc, data.
Qed.

(** A manifest that cannot be read for the moment is taken for a
    missing one: a device that adopts the identity meanwhile publishes a
    manifest with itself alone, and every other device is no longer listed. *)
Theorem identity_read_error_drops_devices load env net d r name e identity d0 err d' r' b
  (Hremote : downloadIdentity (deLower env) net r = Ok identity) (Hfail : beGet net s3ManifestKey = Some (Failed e))
  (Hlocal : StoreLoad load d = (d0, Err err))
  (Hrun : SyncIdentity load env net d (Some r) name = (d', Some r', Ok b)) :
  exists m data, marshalManifest m = Ok data /\ r' !! s3ManifestKey = Some data /\
    forall q, HasDevice q m = bool_decide (kPublic (bDevice b) = q).
Proof.
  unfold SyncIdentity in Hrun. rewrite Hremote, Hlocal in Hrun. unfold adoptIdentity in Hrun.
  assert (downloadManifest net r identity = None) as Hnone by (unfold downloadManifest, beFetch; by rewrite Hfail).
  rewrite Hnone in Hrun. simpl default in Hrun.
  destruct (ManifestSign _ _) as [m|] eqn:Es; [|done]. destruct (NewBundle _ _ m) as [b0|] eqn:En; [|done].
  destruct (StoreSave _ _ _) as [d1 [[]|]]; [|done]. destruct (uploadManifest _ _ _) as [r1 [[]|]] eqn:Eu; [|done].
  injection Hrun as <- <- <-. apply NewBundle_ok in En as [-> _]. apply uploadManifest_ok in Eu as (data & Hm & Hr).
  exists m, data. split_and!; try done. intros q. apply ManifestSign_fields in Es as [Hd _].
  rewrite (HasDevice_devices _ _ _ Hd). unfold AddDevice. by rewrite HasDevice_add.
Qed.

End Facts.

(** ** A codec and two devices *)

Module Demo.
Import Seal.Demo.

(** Netstrings with the length in unary. *)
Fixpoint ones (n : nat) : string := match n with O => ":" | S n => String "1" (ones n) end.
Definition enc (s : string) : string := ones (String.length s) +:+ s.
Fixpoint dec (n : nat) (s : string) : option (string * string) :=
  match s with
  | String c s => if Ascii.eqb c "1" then dec (S n) s else read_full n s
  | EmptyString => None
  end.

Lemma dec_ones n s rest : dec n (ones (String.length s) +:+ rest) = read_full (n + String.length s) rest.
Proof.
  revert n. induction s as [|c s IH]; intros n; [by rewrite Nat.add_0_r|].
  change (dec (S n) (ones (String.length s) +:+ rest) = read_full (n + S (String.length s)) rest). rewrite IH. f_equal. lia.
Qed.

Lemma dec_enc s rest : dec 0 (enc s +:+ rest) = Some (s, rest).
Proof. unfold enc. rewrite str_app_assoc, dec_ones. apply read_full_app. Qed.

Definition encAll (l : list string) : string := foldr (fun s acc => enc s +:+ acc) "" l.
Fixpoint decAll (n : nat) (s : string) : list string :=
  match n with
  | O => []
  | S n => match dec 0 s with Some (x, s) => x :: decAll n s | None => [] end
  end.

Lemma decAll_encAll l : decAll (length l) (encAll l) = l.
Proof. induction l as [|s l IH]; [done|]. cbn [length decAll encAll foldr]. rewrite dec_enc. by f_equal. Qed.

Definition encDevice (d : DeviceEntry) : string := encAll [dePublicKey d; deName d; deRole d; Itoa (deAddedAt d)].
Definition parseTime (s : string) : Time := default 0 (ParseInt s).
Definition decDevice (s : string) : DeviceEntry :=
  match decAll 4 s with [p; n; r; t] => mkDevice p n r (parseTime t) | _ => mkDevice "" "" "" 0 end.

Definition encManifest (m : DeviceManifest) : string :=
  encAll (dmIdentity m :: Itoa (dmUpdatedAt m) :: dmSignature m :: map encDevice (dmDevices m)).
Definition decManifest (s : string) : result string DeviceManifest :=
  match decAll (String.length s) s with
  | i :: t :: sig :: ds => Ok (mkManifest i (map decDevice ds) (parseTime t) sig)
  | _ => Err "unexpected end of input"
  end.

#[export] Instance netJSON : IdentityJSON.
Proof.
  refine {|
    marshalPayload i ds t := Ok (encAll (i :: Itoa t :: map encDevice ds));
    marshalManifest m := Ok (encManifest m);
    unmarshalManifest := decManifest;
    marshalKeyFile f := Ok (encAll [kfDescription f; kfPublicKey f; kfPrivateKey f]);
    unmarshalKeyFile s := match decAll 3 s with [a; b; c] => Ok (mkKeyFile a b c) | _ => Err "unexpected end of input" end;
    wire_manifest m := decManifest (encManifest m) = Ok m |}.
  - by intros m data Hw [= <-].
  - intros [a b c] data Hm. cbv beta in Hm. cbn [kfDescription kfPublicKey kfPrivateKey] in Hm. assert (data = encAll [a; b; c]) as -> by congruence.
    pose proof (decAll_encAll [a; b; c]) as Hd. change (length [a; b; c]) with 3%nat in Hd. by rewrite Hd.
Defined.

Definition seedB : string := "BCDEFGHIJKLMNOPQRSTUVWXYZ-012345".
Definition seedC : string := "CDEFGHIJKLMNOPQRSTUVWXYZ-0123456".
Definition quietDisk (seed0 seed1 : string) : DiskEnv :=
  mkDiskEnv (fun _ => None) (fun _ => Written) None "laptop" (fun n => match n with O => seed0 | _ => seed1 end)
    (fun n => Z.of_nat n * second) (fun s => s).
Definition quietNet : BackendEnv := mkBackendEnv (fun _ => None) (fun _ => None) "nonce-12byte".
Definition flakyNet : BackendEnv :=
  mkBackendEnv (fun k => if bool_decide (k = s3ManifestKey) then Some (Failed "timeout") else None) (fun _ => None) "nonce-12byte".
Definition noFiles : Disk := ∅.
Definition noObjects : gmap string string := ∅.

(** The first device generates the identity and publishes it; the second
    adopts it. *)
Definition firstRun := SyncIdentity (quietDisk seedA seedB) (quietDisk seedA seedB) quietNet noFiles (Some noObjects) "desktop".
Definition published : gmap string string := default ∅ firstRun.1.2.
Definition env2 : DiskEnv := quietDisk seedC seedC.
Definition secondRun := SyncIdentity env2 env2 quietNet noFiles (Some published) "laptop".
Definition noKey : Key := mkKey "" None.
Definition noBundle : Bundle := mkBundle noKey noKey (mkManifest "" [] 0 "").
Definition bundleOf (r : result string Bundle) : Bundle := match r with Ok b => b | Err _ => noBundle end.

Lemma empty_disk_good load : good_disk load noFiles.
Proof. intros d' b H. unfold StoreLoad in H. simpl in H. done. Qed.

Lemma identity_sync_joins_witness :
  joined (GenerateKey seedA) (downloadManifest quietNet published (bIdentity (bundleOf secondRun.2)))
    secondRun.1.1 (default ∅ secondRun.1.2) (bundleOf secondRun.2).
Proof.
  refine (identity_sync_joins env2 env2 quietNet noFiles published "laptop" (GenerateKey seedA) secondRun.1.1 (default ∅ secondRun.1.2)
    (bundleOf secondRun.2) _ (GenerateKey_good seedA eq_refl) (empty_disk_good env2) eq_refl _); vm_compute; reflexivity.
Defined.

Definition tornDisk : Disk := <[manifestFile := "x"]> firstRun.1.1.
Definition localRun := localIdentity env2 env2 tornDisk "desktop".

Lemma identity_replaced_on_load_error_witness :
  bIdentity (bundleOf localRun.2) = GenerateKey seedC /\
  exists desc data, marshalKeyFile (mkKeyFile desc (edPublic seedC) (privateKey seedC)) = Ok data /\
    localRun.1 !! identityFile = Some data.
Proof.
  refine (identity_replaced_on_load_error env2 env2 tornDisk "desktop" "x" localRun.1 (bundleOf localRun.2) _ _ _ _);
    vm_compute; reflexivity.
Defined.

Definition flakyRun := SyncIdentity env2 env2 flakyNet noFiles (Some published) "laptop".

Lemma identity_read_error_drops_devices_witness :
  exists m data, marshalManifest m = Ok data /\ (default ∅ flakyRun.1.2 : gmap string string) !! s3ManifestKey = Some data /\
    forall q, HasDevice q m = bool_decide (kPublic (bDevice (bundleOf flakyRun.2)) = q).
Proof.
  refine (identity_read_error_drops_devices env2 env2 flakyNet noFiles published "laptop" "timeout" (GenerateKey seedA) noFiles
    "identity not initialized" flakyRun.1.1 (default ∅ flakyRun.1.2) (bundleOf flakyRun.2) _ _ _ _); vm_compute; reflexivity.
Defined.

End Demo.
