(* ===== verification/Join.v ===== *)
(** * Invites and joining (pkg/join: invite.go, handler.go, role.go)

    A device joins an identity by an invite code and one request to the
    inviter, who wraps the identity key for it and adds it to the signed
    manifest; the older flow leaves wrapped namespace keys in a storage
    backend.  JSON is a class; what is drawn at random, the clock and the
    callback that persists the bundle are arguments. *)

From Stdlib Require Import Ascii.
From stdpp Require Import base numbers list gmap strings.
From S2P Require Import Prelude GoStrings GoStrconv GoText Bech32 Seal Identity.

(** ** Roles (role.go) *)

Definition NormalizeJoinDeviceRole (unicodeLower : string -> string) (role : string) : result string string :=
  let r := ToLower unicodeLower (TrimSpace role) in
  if bool_decide (r = "") || bool_decide (r = DeviceRoleTrusted) then Ok ""
  else if bool_decide (r = DeviceRoleSandbox) then Ok DeviceRoleSandbox
  else Err ("unsupported device role " +:+ TrimSpace role).

(** ** The handler (handler.go) *)

Record NSKey := mkNSKey { nsNamespace : string; nsScope : string; nsKey : string }.

Record Request := mkRequest { rqInviteID : string; rqDevicePubKey : string; rqDeviceName : string; rqDeviceRole : string }.

Record WrappedNSKey := mkWrapped { wkNamespace : string; wkScope : string; wkWrapped : string }.

(** [IdentityKey] and [Manifest] before their JSON encoding. *)
Record Response := mkResponse {
  rsApproved : bool; rsIdentityKey : option string; rsManifest : option DeviceManifest; rsNSKeys : list WrappedNSKey; rsError : string
}.

(** What is drawn for the n-th wrapped key, and the clock. *)
Record JoinEnv := mkJoinEnv { jnEphemeral : nat -> string; jnNonce : nat -> string; jnNow : nat -> Time; jnLower : string -> string }.

Section Handler.
Context `{Lib : CryptoLib} `{JSON : IdentityJSON} {W : Type}.

(** [Handler]: [approve = nil] approves everything; [onBundleUpdated] acts on a
    state [W] of its own. *)
Record Handler := mkHandler {
  hApprove : option (Request -> bool);
  hNSKeyProv : option (list NSKey);
  hOnBundleUpdated : option (W -> Bundle -> W * result string unit)
}.

Definition denied (error : string) : Response := mkResponse false None None [] error.

(** The keys that cannot be wrapped are left out. *)
Fixpoint wrapAll (env : JoinEnv) (n : nat) (pub : string) (keys : list NSKey) : list WrappedNSKey :=
  match keys with
  | [] => []
  | k :: keys =>
      match WrapKey (jnEphemeral env n) (jnNonce env n) (nsKey k) pub with
      | Err _ => wrapAll env (S n) pub keys
      | Ok wrapped => mkWrapped (nsNamespace k) (nsScope k) wrapped :: wrapAll env (S n) pub keys
      end
  end.

(** [manifest.Sign] and its error, which is dropped. *)
Definition signOrKeep (priv : option string) (m : DeviceManifest) : DeviceManifest :=
  match ManifestSign priv m with Ok m' => m' | Err _ => m end.

Definition withManifest (b : Bundle) (m : DeviceManifest) : Bundle := mkBundle (bIdentity b) (bDevice b) m.

(** [HandleStream] from the request on; the bundle is shared with the rest of
    the daemon and changed in place. *)
Definition HandleRequest (env : JoinEnv) (h : Handler) (w : W) (b : Bundle) (req : Request) : W * Bundle * Response :=
  let approved := match hApprove h with None => true | Some approve => approve req end in
  if negb approved then (w, b, denied "")
  else match ParseAddress (jnLower env) (rqDevicePubKey req) with
  | Err _ => (w, b, denied "invalid device pubkey")
  | Ok pub =>
      let joiner := string_of_bytes pub in
      match NormalizeJoinDeviceRole (jnLower env) (rqDeviceRole req) with
      | Err e => (w, b, denied e)
      | Ok deviceRole =>
          match WrapKey (jnEphemeral env 0) (jnNonce env 0) (default "" (kPrivate (bIdentity b))) joiner with
          | Err _ => (w, b, denied "failed to wrap identity key")
          | Ok wrappedIdentity =>
              let changed := negb (HasDevice joiner (bManifest b)) in
              let b := if changed
                then withManifest b (signOrKeep (kPrivate (bIdentity b))
                  (AddDeviceWithRole (jnLower env) joiner (rqDeviceName req) deviceRole (jnNow env 0) (jnNow env 1) (bManifest b)))
                else b in
              let '(w, persisted) :=
                match hOnBundleUpdated h with
                | Some persist => if changed then persist w b else (w, Ok tt)
                | None => (w, Ok tt)
                end in
              match persisted with
              | Err _ => (w, b, mkResponse false (Some wrappedIdentity) None [] "failed to persist private-network membership")
              | Ok _ =>
                  let keys := match hNSKeyProv h with None => [] | Some keys => wrapAll env 1 (kPublic (bIdentity b)) keys end in
                  (w, b, mkResponse true (Some wrappedIdentity) (Some (bManifest b)) keys "")
              end
          end
      end
  end.

End Handler.
Arguments Handler W : clear implicits.

(** ** Facts about the handler *)

Section HandlerFacts.
Context `{Lib : CryptoLib} `{JSON : IdentityJSON} {W : Type}.
Implicit Types (h : Handler W) (w : W) (b : Bundle) (req : Request).

Definition withInvite (inviteID : string) (req : Request) : Request :=
  mkRequest inviteID (rqDevicePubKey req) (rqDeviceName req) (rqDeviceRole req).

(** The request of the device of [seed] is well formed. *)
Record asks (env : JoinEnv) (seed : string) (req : Request) (role : string) : Prop := {
  as_key : ParseAddress (jnLower env) (rqDevicePubKey req) = Ok (bytes_of (edPublic seed));
  as_role : NormalizeJoinDeviceRole (jnLower env) (rqDeviceRole req) = Ok role;
  as_recipient : recipient seed (jnEphemeral env 0);
  as_nonce : slen (jnNonce env 0) = NonceSize
}.

(** The bundle with the joiner listed. *)
Definition admitted (env : JoinEnv) b (seed : string) (req : Request) (role : string) : Bundle :=
  if negb (HasDevice (edPublic seed) (bManifest b))
  then withManifest b (signOrKeep (kPrivate (bIdentity b))
    (AddDeviceWithRole (jnLower env) (edPublic seed) (rqDeviceName req) role (jnNow env 0) (jnNow env 1) (bManifest b)))
  else b.

(** The handler on a well-formed request that is let through. *)
Lemma HandleRequest_asks env h w b req seed role :
  match hApprove h with None => true | Some approve => approve req end = true -> asks env seed req role ->
  exists wrapped,
    UnwrapKey wrapped (privateKey seed) = Ok (default "" (kPrivate (bIdentity b))) /\
    HandleRequest env h w b req =
      let b' := admitted env b seed req role in
      match hOnBundleUpdated h, HasDevice (edPublic seed) (bManifest b) with
      | Some persist, false =>
          let '(w, persisted) := persist w b' in
          (w, b', match persisted with
                  | Err _ => mkResponse false (Some wrapped) None [] "failed to persist private-network membership"
                  | Ok _ => mkResponse true (Some wrapped) (Some (bManifest b'))
                      (match hNSKeyProv h with None => [] | Some keys => wrapAll env 1 (kPublic (bIdentity b')) keys end) ""
                  end)
      | _, _ => (w, b', mkResponse true (Some wrapped) (Some (bManifest b'))
                  (match hNSKeyProv h with None => [] | Some keys => wrapAll env 1 (kPublic (bIdentity b')) keys end) "")
      end.
Proof.
  intros Ha [Hk Hr Hrc Hn].
  destruct (Open_Seal (jnEphemeral env 0) (jnNonce env 0) (default "" (kPrivate (bIdentity b))) seed Hn Hrc) as (wrapped & Hs & Ho).
  exists wrapped. split; [exact Ho|]. unfold HandleRequest, admitted, WrapKey. rewrite Ha, Hk, Hr, string_of_bytes_of, Hs.
  simpl negb. cbv iota. destruct (HasDevice (edPublic seed) (bManifest b)); simpl negb; cbv iota zeta.
  - by destruct (hOnBundleUpdated h).
  - destruct (hOnBundleUpdated h) as [persist|]; [|done]. by destruct (persist _ _) as [w' [|]].
Qed.

(** C17 (safety). The handler the daemon installs approves every request: the
    invite identifier is never looked at.  Whoever can send a well-formed
    request, with whatever identifier, is sent the private key of the identity
    wrapped for the key it named, even when the request is refused because the
    membership could not be persisted. *)
Theorem join_needs_no_invite env h w b req seed role idPriv inviteID
  (Happrove : hApprove h = None) (Hidentity : kPrivate (bIdentity b) = Some idPriv) (Hasks : asks env seed req role) :
  (exists wrapped, rsIdentityKey (HandleRequest env h w b req).2 = Some wrapped /\ UnwrapKey wrapped (privateKey seed) = Ok idPriv) /\
  HandleRequest env h w b (withInvite inviteID req) = HandleRequest env h w b req.
Proof.
  assert (match hApprove h with None => true | Some approve => approve req end = true) as Ha by by rewrite Happrove.
  split; [|unfold HandleRequest; by rewrite Happrove].
  destruct (HandleRequest_asks env h w b req seed role Ha Hasks) as (wrapped & Ho & ->). rewrite Hidentity in Ho.
  exists wrapped. split; [|exact Ho]. cbv zeta. destruct (hOnBundleUpdated h) as [persist|], (HasDevice (edPublic seed) (bManifest b)); try done.
  by destruct (persist _ _) as [? [|]].
Qed.

(** A membership that could not be persisted stays in the bundle:
    the joiner is refused, but it has been sent the identity key, and the next
    request is approved without any attempt to persist. *)
Theorem join_failed_persist_forgotten env env2 h w b req seed role persist w1 e
  (Hpersist : hOnBundleUpdated h = Some persist) (Happrove : hApprove h = None) (Hasks : asks env seed req role)
  (Hasks2 : asks env2 seed req role) (Hnew : HasDevice (edPublic seed) (bManifest b) = false)
  (Hfail : persist w (admitted env b seed req role) = (w1, Err e)) :
  let '(w1', b1, resp1) := HandleRequest env h w b req in
  let '(w2, b2, resp2) := HandleRequest env2 h w1' b1 req in
  rsApproved resp1 = false /\ is_Some (rsIdentityKey resp1) /\
  w1' = w1 /\ w2 = w1 /\ rsApproved resp2 = true /\ rsManifest resp2 = Some (bManifest b1) /\
  HasDevice (edPublic seed) (bManifest b1) = true.
Proof.
  assert (match hApprove h with None => true | Some approve => approve req end = true) as Ha by by rewrite Happrove.
  destruct (HandleRequest_asks env h w b req seed role Ha Hasks) as (wrapped & _ & ->).
  rewrite Hpersist, Hnew. cbv zeta. rewrite Hfail.
  assert (HasDevice (edPublic seed) (bManifest (admitted env b seed req role)) = true) as Hin.
  { unfold admitted. rewrite Hnew. simpl. unfold signOrKeep. destruct (ManifestSign _ _) as [m|] eqn:Es.
    - apply ManifestSign_fields in Es as [Hd _]. rewrite (HasDevice_devices _ _ _ Hd), HasDevice_add, bool_decide_true by done.
      apply orb_true_r.
    - rewrite HasDevice_add, bool_decide_true by done. apply orb_true_r. }
  set (b1 := admitted env b seed req role) in *. clearbody b1.
  assert (admitted env2 b1 seed req role = b1) as Hb1 by (unfold admitted; by rewrite Hin).
  destruct (HandleRequest_asks env2 h w1 b1 req seed role Ha Hasks2) as (wrapped2 & _ & ->).
  rewrite Hpersist, Hin, Hb1. simpl. by split_and!.
Qed.

(** An approved joiner is a member: the manifest sent with the
    approval is the bundle's, it verifies under the identity, and it lists the
    joiner beside exactly the devices listed before.  A request the callback
    refuses changes nothing and is sent nothing. *)
Theorem join_approved_member env h w b req w' b' resp
  (Hkey : good_key (bIdentity b)) (Hsigned : ManifestVerify (kPublic (bIdentity b)) (bManifest b) = true)
  (Hjson : forall i ds t, is_ok (marshalPayload i ds t) = true)
  (Hrun : HandleRequest env h w b req = (w', b', resp)) :
  (rsApproved resp = true -> exists pub,
     ParseAddress (jnLower env) (rqDevicePubKey req) = Ok pub /\ rsManifest resp = Some (bManifest b') /\
     bIdentity b' = bIdentity b /\ ManifestVerify (kPublic (bIdentity b)) (bManifest b') = true /\
     forall q, HasDevice q (bManifest b') = HasDevice q (bManifest b) || bool_decide (string_of_bytes pub = q)) /\
  (match hApprove h with None => true | Some approve => approve req end = false -> w' = w /\ b' = b /\ resp = denied "").
Proof.
  unfold HandleRequest in Hrun. destruct (match hApprove h with None => true | Some approve => approve req end); cbn [negb] in Hrun;
    [|injection Hrun as <- <- <-; split; [done|auto]].
  split; [|done]. intros Happ. destruct (ParseAddress _ _) as [pub|]; [|by simplify_eq].
  destruct (NormalizeJoinDeviceRole _ _) as [role|]; [|by simplify_eq].
  destruct (WrapKey _ _ _ _) as [wrapped|]; [|by simplify_eq]. exists pub. split; [done|]. cbv zeta in Hrun.
  set (m := AddDeviceWithRole _ _ _ _ _ _ _) in Hrun.
  assert (ManifestVerify (kPublic (bIdentity b)) (signOrKeep (kPrivate (bIdentity b)) m) = true /\
    forall q, HasDevice q (signOrKeep (kPrivate (bIdentity b)) m) = HasDevice q (bManifest b) || bool_decide (string_of_bytes pub = q)) as [Hv Hq].
  { unfold signOrKeep. destruct (ManifestSign _ m) as [m'|] eqn:Es.
    - split; [by eapply ManifestSign_verifies|]. intros q. apply ManifestSign_fields in Es as [Hd _].
      rewrite (HasDevice_devices _ _ _ Hd). apply HasDevice_add.
    - exfalso. unfold ManifestSign, signPayload in Es. pose proof (Hjson (dmIdentity m) (sortBy device_lt (dmDevices m)) (dmUpdatedAt m)) as Hj.
      destruct (marshalPayload _ _ _); [|done]. apply good_key_lengths in Hkey as (_ & p & Hp & Hl). rewrite Hp, Hl in Es. done. }
  destruct (HasDevice (string_of_bytes pub) (bManifest b)) eqn:Eh; cbn [negb] in Hrun.
  - assert (w' = w /\ b' = b /\ rsManifest resp = Some (bManifest b)) as (_ & -> & ->) by (destruct (hOnBundleUpdated h); by simplify_eq).
    split_and!; try done. intros q. destruct (bool_decide_reflect (string_of_bytes pub = q)) as [<-|]; [by rewrite Eh|by rewrite orb_false_r].
  - destruct (match hOnBundleUpdated h with Some _ => _ | None => _ end) as [w2 [|]]; simplify_eq/=. by split_and!.
Qed.

End HandlerFacts.

(** ** Invite codes (invite.go) *)

Record P2PInvite := mkP2PInvite {
  piAddress : string; piNostrRelays : list string; piInviteID : string; piPeerID : string; piMultiaddrs : list string; piIssuedAt : Time
}.

Record S3Invite := mkS3Invite {
  siEndpoint : string; siBucket : string; siRegion : string; siAccessKey : string; siSecretKey : string; siForcePathStyle : bool;
  siDevicePubKey : string; siInviteID : string
}.

Class InviteJSON := {
  marshalP2PInvite : P2PInvite -> result string string;
  unmarshalP2PInvite : string -> result string P2PInvite;
  marshalS3Invite : S3Invite -> result string string;
  unmarshalS3Invite : string -> result string S3Invite;
  (** [json.Unmarshal] of the field [pubkey] of an object. *)
  unmarshalPubKey : string -> result string string;
  (** Strings are valid UTF-8 and years have four digits; a pubkey has no
      character that JSON escapes. *)
  wire_p2p : P2PInvite -> Prop;
  wire_s3 : S3Invite -> Prop;
  plain_pubkey : string -> Prop;
  unmarshal_marshalP2PInvite i data : wire_p2p i -> marshalP2PInvite i = Ok data -> unmarshalP2PInvite data = Ok i;
  unmarshal_marshalS3Invite i data : wire_s3 i -> marshalS3Invite i = Ok data -> unmarshalS3Invite data = Ok i
}.

Definition p2pInvitePrefix : string := "sky10p2p_".
Definition s3InvitePrefix : string := "sky10invite_".

Definition IsP2PInvite (code : string) : bool := HasPrefix code p2pInvitePrefix.

Definition markerKey (inviteID what : string) : string := "invites/" +:+ inviteID +:+ "/" +:+ what.

(** A double quote, and a JSON object of string fields written by hand. *)
Definition dq : string := String (Ascii false true false false false true false false) "".
Definition field (name value : string) : string := dq +:+ name +:+ dq +:+ ":" +:+ dq +:+ value +:+ dq.

Definition shortPubkeyID (address : string) : string := "D-" +:+ ShortIDFromAddress address.

Definition extractNamespaceName (path : string) : string :=
  let name := match LastIndexByte path "/"%char with Some i => str_drop (S i) path | None => path end in
  match IndexByte name "."%char with
  | Some (S i) => str_take (S i) name
  | _ => name
  end.

Section Invites.
Context `{Lib : CryptoLib} `{JSON : InviteJSON}.

Definition CreateP2PInviteWithBootstrap (idBytes : string) (now : Time) (address : string) (relays : list string) (peerID : string)
  (multiaddrs : list string) : result string string :=
  match marshalP2PInvite (mkP2PInvite address relays (hexEncode idBytes) peerID multiaddrs now) with
  | Err e => Err e
  | Ok data => Ok (p2pInvitePrefix +:+ b64encode true false data)
  end.

Definition CreateP2PInvite (idBytes : string) (now : Time) (address : string) (relays : list string) : result string string :=
  CreateP2PInviteWithBootstrap idBytes now address relays "" [].

Definition DecodeP2PInvite (code : string) : result string P2PInvite :=
  if negb (HasPrefix code p2pInvitePrefix) then Err "invalid P2P invite code: missing prefix"
  else match b64decode true false (str_drop (String.length p2pInvitePrefix) code) with
  | None => Err "invalid P2P invite code: illegal base64 data"
  | Some data =>
      match unmarshalP2PInvite data with
      | Err e => Err ("invalid P2P invite code: " +:+ e)
      | Ok invite =>
          if bool_decide (piAddress invite = "") || bool_decide (piInviteID invite = "")
          then Err "invalid P2P invite code: missing fields"
          else Ok invite
      end
  end.

(** The configuration is the invite without its identifier. *)
Definition CreateS3Invite (net : BackendEnv) (r : gmap string string) (idBytes now : string) (cfg : S3Invite)
  : gmap string string * result string string :=
  let inviteID := hexEncode idBytes in
  let invite := mkS3Invite (siEndpoint cfg) (siBucket cfg) (siRegion cfg) (siAccessKey cfg) (siSecretKey cfg) (siForcePathStyle cfg)
    (siDevicePubKey cfg) inviteID in
  let marker := "{" +:+ field "status" "waiting" +:+ "," +:+ field "created" now +:+ "}" in
  match beStore net r (markerKey inviteID "waiting") marker with
  | (r, Err e) => (r, Err ("writing invite marker: " +:+ e))
  | (r, Ok _) =>
      match marshalS3Invite invite with
      | Err e => (r, Err e)
      | Ok data => (r, Ok (s3InvitePrefix +:+ b64encode true false data))
      end
  end.

Definition DecodeS3Invite (code : string) : result string S3Invite :=
  if negb (HasPrefix code s3InvitePrefix) then Err "invalid S3 invite code: missing prefix"
  else match b64decode true false (str_drop (String.length s3InvitePrefix) code) with
  | None => Err "invalid invite code: illegal base64 data"
  | Some data =>
      match unmarshalS3Invite data with
      | Err e => Err ("invalid invite code: " +:+ e)
      | Ok invite =>
          if bool_decide (siInviteID invite = "") || bool_decide (siBucket invite = "") || bool_decide (siEndpoint invite = "")
          then Err "invalid invite code: missing fields"
          else Ok invite
      end
  end.

(** ** The exchange through the backend *)

Definition submission (joinerPubKey now : string) : string :=
  "{" +:+ field "pubkey" joinerPubKey +:+ "," +:+ field "submitted" now +:+ "}".

Definition SubmitJoin (net : BackendEnv) (r : gmap string string) (inviteID joinerPubKey now : string)
  : gmap string string * result string unit :=
  beStore net r (markerKey inviteID "pubkey") (submission joinerPubKey now).

Definition CheckJoinRequest (net : BackendEnv) (r : gmap string string) (inviteID : string) : result string string :=
  match beFetch net r (markerKey inviteID "pubkey") with
  | Err NotFound => Ok ""
  | Err (Failed e) => Err e
  | Ok data => unmarshalPubKey data
  end.

(** [Head] fails as [Get] does. *)
Definition IsGranted (net : BackendEnv) (r : gmap string string) (inviteID : string) : result string bool :=
  match beFetch net r (markerKey inviteID "granted") with
  | Err NotFound => Ok false
  | Err (Failed e) => Err e
  | Ok _ => Ok true
  end.

Definition namespacesPrefix : string := "keys/namespaces/".
Definition joinerKeyPath (nsName joinerID : string) : string := namespacesPrefix +:+ nsName +:+ "." +:+ joinerID +:+ ".ns.enc".

(** One namespace key; whatever fails is passed over. *)
Definition grantKey (net : BackendEnv) (ephemeral nonce : string) (identityPriv joinerPub joinerID path : string) (r : gmap string string)
  : gmap string string :=
  match beFetch net r path with
  | Err _ => r
  | Ok wrapped =>
      match UnwrapKey wrapped identityPriv with
      | Err _ => r
      | Ok nsKey =>
          match WrapKey ephemeral nonce nsKey joinerPub with
          | Err _ => r
          | Ok joinerWrapped => (beStore net r (joinerKeyPath (extractNamespaceName path) joinerID) joinerWrapped).1
          end
      end
  end.

Fixpoint grantAll (net : BackendEnv) (env : JoinEnv) (n : nat) (identityPriv joinerPub joinerID : string) (paths : list string)
  (r : gmap string string) : gmap string string :=
  match paths with
  | [] => r
  | path :: paths =>
      grantAll net env (S n) identityPriv joinerPub joinerID paths
        (grantKey net (jnEphemeral env n) (jnNonce env n) identityPriv joinerPub joinerID path r)
  end.

Definition listObjects (r : gmap string string) (prefix : string) : list string :=
  sort_Strings (List.filter (fun k => HasPrefix k prefix) (keys_of r)).

Definition ApproveJoin (net : BackendEnv) (listErr : option string) (env : JoinEnv) (r : gmap string string) (identity : Key)
  (joinerAddress inviteID now : string) : gmap string string * result string unit :=
  match ParseAddress (jnLower env) joinerAddress with
  | Err e => (r, Err ("parsing joiner address: " +:+ e))
  | Ok pub =>
      match listErr with
      | Some e => (r, Err ("listing namespace keys: " +:+ e))
      | None =>
          let r := grantAll net env 0 (default "" (kPrivate identity)) (string_of_bytes pub) (shortPubkeyID joinerAddress)
            (listObjects r namespacesPrefix) r in
          match beStore net r (markerKey inviteID "granted")
            ("{" +:+ field "status" "granted" +:+ "," +:+ field "granted" now +:+ "}") with
          | (r, Err e) => (r, Err ("writing granted marker: " +:+ e))
          | (r, Ok _) => (r, Ok tt)
          end
      end
  end.

(** Failing deletions are passed over; [kept] are the keys that fail. *)
Definition CleanupInvite (kept : string -> bool) (r : gmap string string) (inviteID : string) : gmap string string :=
  foldr (fun k r => if kept k then r else delete k r) r (listObjects r ("invites/" +:+ inviteID +:+ "/")).

(** ** Codes decode to the invite they were made from *)

Lemma hexEncode_nonempty s : s <> "" -> hexEncode s <> "".
Proof. by destruct s. Qed.

Lemma cut_prefix p s : HasPrefix (p +:+ s) p = true /\ str_drop (String.length p) (p +:+ s) = s.
Proof. split; [apply HasPrefix_app|apply str_drop_app]. Qed.

(** A code made from an address and 16 random bytes decodes to
    the invite with exactly these fields, and each decoder refuses the other
    kind of code. *)
Theorem invite_roundtrip idBytes now address relays peerID multiaddrs code
  (Haddress : address <> "") (Hid : idBytes <> "")
  (Hwire : wire_p2p (mkP2PInvite address relays (hexEncode idBytes) peerID multiaddrs now))
  (Hcreate : CreateP2PInviteWithBootstrap idBytes now address relays peerID multiaddrs = Ok code) :
  DecodeP2PInvite code = Ok (mkP2PInvite address relays (hexEncode idBytes) peerID multiaddrs now) /\
  IsP2PInvite code = true /\ DecodeS3Invite code = Err "invalid S3 invite code: missing prefix".
Proof.
  unfold CreateP2PInviteWithBootstrap in Hcreate. destruct (marshalP2PInvite _) as [data|] eqn:Em; [|done]. injection Hcreate as <-.
  destruct (cut_prefix p2pInvitePrefix (b64encode true false data)) as [Hp Hc]. split_and!; [|exact Hp|done].
  unfold DecodeP2PInvite. rewrite Hp, Hc, b64_roundtrip, (unmarshal_marshalP2PInvite _ _ Hwire Em). simpl.
  by rewrite !bool_decide_false by (done || by apply hexEncode_nonempty).
Qed.

(** ** Granted keys *)

Lemma str_app_inj_r s s' u : s +:+ u = s' +:+ u -> s = s'.
Proof.
  intros H. assert (String.length s = String.length s') as Hl by (apply (f_equal String.length) in H; rewrite !str_length_app in H; lia).
  rewrite <- (str_take_app s u), H, Hl. apply str_take_app.
Qed.

Lemma joinerKeyPath_inj n n' joinerID : joinerKeyPath n joinerID = joinerKeyPath n' joinerID -> n = n'.
Proof. unfold joinerKeyPath. intros H%str_app_inj_l. by apply str_app_inj_r in H. Qed.

(** The backend answers and stores. *)
Definition working (net : BackendEnv) : Prop := (forall k, beGet net k = None) /\ (forall k, bePut net k = None).

Definition opens (r : gmap string string) (path priv nsKey : string) : Prop :=
  exists wrapped, r !! path = Some wrapped /\ UnwrapKey wrapped priv = Ok nsKey.

Lemma grantKey_other net eph nonce idPriv pub joinerID path r q :
  q <> joinerKeyPath (extractNamespaceName path) joinerID -> grantKey net eph nonce idPriv pub joinerID path r !! q = r !! q.
Proof.
  intros Hq. unfold grantKey, beStore. repeat case_match; try done. simpl. by rewrite lookup_insert_ne.
Qed.

Lemma grantKey_opens net eph nonce idPriv seed joinerID path r nsKey :
  working net -> recipient seed eph -> slen nonce = NonceSize -> opens r path idPriv nsKey ->
  opens (grantKey net eph nonce idPriv (edPublic seed) joinerID path r) (joinerKeyPath (extractNamespaceName path) joinerID)
    (privateKey seed) nsKey.
Proof.
  intros [Hg Hp] Hrc Hn (wrapped & Hr & Hu). unfold grantKey, beFetch, beStore. rewrite Hg, Hr, Hu, Hp.
  destruct (Open_Seal eph nonce nsKey seed Hn Hrc) as (sealed & Hs & Ho). unfold WrapKey. rewrite Hs.
  exists sealed. split; [apply lookup_insert_eq|exact Ho].
Qed.

Lemma grantKey_closed net eph nonce idPriv pub joinerID path r :
  (forall k, ~ opens r path idPriv k) -> grantKey net eph nonce idPriv pub joinerID path r = r.
Proof.
  intros Hno. unfold grantKey, beFetch. destruct (beGet net path); [done|]. destruct (r !! path) as [wrapped|] eqn:Er; [|done].
  destruct (UnwrapKey wrapped idPriv) as [k|] eqn:Eu; [|done]. destruct (Hno k). by exists wrapped.
Qed.

(** One namespace has one key among what the identity can open. *)
Definition one_key (r : gmap string string) (paths : list string) (priv : string) : Prop :=
  forall p p' k k', p ∈ paths -> p' ∈ paths -> extractNamespaceName p = extractNamespaceName p' ->
  opens r p priv k -> opens r p' priv k' -> k = k'.

Lemma opens_same r r' q priv k : r' !! q = r !! q -> opens r' q priv k <-> opens r q priv k.
Proof. unfold opens. by intros ->. Qed.

Lemma opens_dec r path priv : {k | opens r path priv k} + {forall k, ~ opens r path priv k}.
Proof.
  unfold opens. destruct (r !! path) as [w|]; [|right; by intros k (? & ? & _)].
  destruct (UnwrapKey w priv) as [k|] eqn:E; [left; exists k, w; done|right; intros k (? & [= <-] & Hk); congruence].
Qed.

Lemma grantAll_opens net env idPriv seed joinerID r0 paths n r done_ :
  working net -> (forall i, recipient seed (jnEphemeral env i) /\ slen (jnNonce env i) = NonceSize) ->
  (forall p q, p ∈ paths -> q ∈ done_ ++ paths -> p <> joinerKeyPath (extractNamespaceName q) joinerID) ->
  one_key r0 (done_ ++ paths) idPriv ->
  (forall p, p ∈ paths -> r !! p = r0 !! p) ->
  (forall p k, p ∈ done_ -> opens r0 p idPriv k -> opens r (joinerKeyPath (extractNamespaceName p) joinerID) (privateKey seed) k) ->
  forall p k, p ∈ done_ ++ paths -> opens r0 p idPriv k ->
  opens (grantAll net env n idPriv (edPublic seed) joinerID paths r) (joinerKeyPath (extractNamespaceName p) joinerID) (privateKey seed) k.
Proof.
  intros Hw Hrand. revert n r done_. induction paths as [|path paths IH]; intros n r done_ Hfresh Hone Hsame Hdone p k Hp Ho.
  { rewrite app_nil_r in Hp. by apply Hdone. }
  cbn [grantAll]. destruct (Hrand n) as [Hrc Hn].
  assert (done_ ++ path :: paths = (done_ ++ [path]) ++ paths) as Happ by by rewrite <- app_assoc.
  rewrite Happ in *. eapply (IH _ _ (done_ ++ [path])); [| |intros q Hq|intros q kq Hq Hoq|exact Hp|exact Ho].
  - intros p1 q1 H1 H2. apply Hfresh; [by right|done].
  - done.
  - rewrite grantKey_other; [apply Hsame; by right|]. apply Hfresh; [by right|set_solver].
  - assert (forall k, opens r path idPriv k <-> opens r0 path idPriv k) as Hpath by (intros; apply opens_same, Hsame; left).
    apply elem_of_app in Hq as [Hq| ->%list_elem_of_singleton]; [|apply grantKey_opens; [done..|by apply Hpath]].
    specialize (Hdone q kq Hq Hoq). destruct (opens_dec r path idPriv) as [[k' Hk']|Hno]; [|by rewrite grantKey_closed].
    destruct (decide (extractNamespaceName q = extractNamespaceName path)) as [He|Hne].
    + assert (kq = k') as -> by (eapply (Hone q path); [set_solver|set_solver|done|done|by apply Hpath]).
      rewrite He. by apply grantKey_opens.
    + apply (opens_same r); [|done]. apply grantKey_other. by intros ?%joinerKeyPath_inj.
Qed.

(** Approving a joiner over a backend that answers gives it every
    namespace key the identity can open: the object stored for the joiner opens
    with the joiner's private key to the same key, and the request is marked
    granted. *)
Theorem join_grant_opens net env r identity idPriv seed joinerAddress inviteID now r' path nsKey
  (Hw : working net) (Hpriv : kPrivate identity = Some idPriv)
  (Hjoiner : ParseAddress (jnLower env) joinerAddress = Ok (bytes_of (edPublic seed)))
  (Hrand : forall i, recipient seed (jnEphemeral env i) /\ slen (jnNonce env i) = NonceSize)
  (Hfirst : forall p q, p ∈ listObjects r namespacesPrefix -> q ∈ listObjects r namespacesPrefix ->
    p <> joinerKeyPath (extractNamespaceName q) (shortPubkeyID joinerAddress))
  (Hone : one_key r (listObjects r namespacesPrefix) idPriv)
  (Hpath : path ∈ listObjects r namespacesPrefix) (Hopens : opens r path idPriv nsKey)
  (Hrun : ApproveJoin net None env r identity joinerAddress inviteID now = (r', Ok tt)) :
  opens r' (joinerKeyPath (extractNamespaceName path) (shortPubkeyID joinerAddress)) (privateKey seed) nsKey /\
  IsGranted net r' inviteID = Ok true.
Proof.
  unfold ApproveJoin, beStore in Hrun. rewrite Hjoiner, Hpriv, string_of_bytes_of, (proj2 Hw) in Hrun. injection Hrun as <-. split.
  - eapply opens_same; [by rewrite lookup_insert_ne|].
    apply (grantAll_opens net env idPriv seed (shortPubkeyID joinerAddress) r _ 0 r []); try done. by intros ? ? ?%not_elem_of_nil.
  - unfold IsGranted, beFetch. by rewrite (proj1 Hw), lookup_insert_eq.
Qed.

End Invites.

(** ** A device joins *)

Module Demo.
Import Seal.Demo Identity.Demo.

#[export] Instance inviteJSON : InviteJSON.
Proof.
  refine {|
    marshalP2PInvite i := Ok (encAll (piAddress i :: piInviteID i :: piPeerID i :: Itoa (piIssuedAt i) ::
      Itoa (Z.of_nat (length (piNostrRelays i))) :: piNostrRelays i ++ piMultiaddrs i));
    unmarshalP2PInvite s := match decAll (String.length s) s with
      | a :: i :: p :: t :: n :: rest =>
          let n := Z.to_nat (parseTime n) in Ok (mkP2PInvite a (take n rest) i p (drop n rest) (parseTime t))
      | _ => Err "unexpected end of input" end;
    marshalS3Invite i := Ok (encAll [siEndpoint i; siBucket i; siRegion i; siAccessKey i; siSecretKey i; siDevicePubKey i; siInviteID i]);
    unmarshalS3Invite s := match decAll 7 s with
      | [e; b; r; a; k; d; i] => Ok (mkS3Invite e b r a k false d i) | _ => Err "unexpected end of input" end;
    unmarshalPubKey s := Ok s;
    wire_p2p i := (match decAll (String.length (encAll (piAddress i :: piInviteID i :: piPeerID i :: Itoa (piIssuedAt i) ::
      Itoa (Z.of_nat (length (piNostrRelays i))) :: piNostrRelays i ++ piMultiaddrs i))) (encAll (piAddress i :: piInviteID i :: piPeerID i :: Itoa (piIssuedAt i) ::
      Itoa (Z.of_nat (length (piNostrRelays i))) :: piNostrRelays i ++ piMultiaddrs i)) with
      | a :: i :: p :: t :: n :: rest =>
          let n := Z.to_nat (parseTime n) in Ok (mkP2PInvite a (take n rest) i p (drop n rest) (parseTime t))
      | _ => Err "unexpected end of input" end) = Ok i;
    wire_s3 i := siForcePathStyle i = false;
    plain_pubkey _ := True |}.
  - intros i data Hw Hm. cbv beta in Hm. injection Hm as <-. exact Hw.
  - intros [e b r a k f d i] data Hw Hm. simpl in Hw. subst f. cbv beta in Hm.
    cbn [siEndpoint siBucket siRegion siAccessKey siSecretKey siDevicePubKey siInviteID] in Hm.
    assert (data = encAll [e; b; r; a; k; d; i]) as -> by congruence.
    pose proof (decAll_encAll [e; b; r; a; k; d; i]) as Hd.
    change (length [e; b; r; a; k; d; i]) with 7%nat in Hd. by rewrite Hd.
Defined.

Definition joinEnv : JoinEnv := mkJoinEnv (fun _ => ephA) (fun _ => "nonce-12byte") (fun n => Z.of_nat n * minute) (fun s => s).
Definition joinerAddr : string := Address (bytes_of (edPublic seedC)).
Definition joinRequest : Request := mkRequest "never-issued" joinerAddr "phone" "".
Definition hostPriv : string := privateKey seedA.
Definition host : Bundle := bundleOf firstRun.2.

(** The state of the callback is the number of its calls; it always fails. *)
Definition failing (w : nat) (_ : Bundle) : nat * result string unit := (S w, Err "disk full").
Definition handler : Handler nat := mkHandler None None (Some failing).
Definition accepting : Handler nat := mkHandler None None None.

Lemma recipientC : recipient seedC ephA.
Proof. split; [done|vm_compute; reflexivity|by eexists]. Qed.

Lemma joiner_parses : ParseAddress (jnLower joinEnv) joinerAddr = Ok (bytes_of (edPublic seedC)).
Proof. vm_compute. reflexivity. Qed.

Lemma demo_asks : asks joinEnv seedC joinRequest "".
Proof. split; [exact joiner_parses|reflexivity|exact recipientC|reflexivity]. Qed.

Lemma join_needs_no_invite_witness :
  (exists wrapped, rsIdentityKey (HandleRequest joinEnv handler 0%nat host joinRequest).2 = Some wrapped /\
     UnwrapKey wrapped (privateKey seedC) = Ok hostPriv) /\
  HandleRequest joinEnv handler 0%nat host (withInvite "anything" joinRequest) = HandleRequest joinEnv handler 0%nat host joinRequest.
Proof.
  exact (join_needs_no_invite joinEnv handler 0%nat host joinRequest seedC "" hostPriv "anything" eq_refl
    ltac:(vm_compute; reflexivity) demo_asks).
Defined.

Lemma join_failed_persist_forgotten_witness :
  let '(w1', b1, resp1) := HandleRequest joinEnv handler 0%nat host joinRequest in
  let '(w2, b2, resp2) := HandleRequest joinEnv handler w1' b1 joinRequest in
  rsApproved resp1 = false /\ is_Some (rsIdentityKey resp1) /\
  w1' = 1%nat /\ w2 = 1%nat /\ rsApproved resp2 = true /\ rsManifest resp2 = Some (bManifest b1) /\
  HasDevice (edPublic seedC) (bManifest b1) = true.
Proof.
  exact (join_failed_persist_forgotten joinEnv joinEnv handler 0%nat host joinRequest seedC "" failing 1%nat "disk full" eq_refl eq_refl
    demo_asks demo_asks ltac:(vm_compute; reflexivity) eq_refl).
Defined.

Definition joinRun := HandleRequest joinEnv accepting 0%nat host joinRequest.

Lemma join_approved_member_witness :
  exists pub, ParseAddress (jnLower joinEnv) joinerAddr = Ok pub /\ rsManifest joinRun.2 = Some (bManifest joinRun.1.2) /\
    bIdentity joinRun.1.2 = bIdentity host /\ ManifestVerify (kPublic (bIdentity host)) (bManifest joinRun.1.2) = true /\
    forall q, HasDevice q (bManifest joinRun.1.2) = HasDevice q (bManifest host) || bool_decide (string_of_bytes pub = q).
Proof.
  refine (proj1 (join_approved_member joinEnv accepting 0%nat host joinRequest joinRun.1.1 joinRun.1.2 joinRun.2 _ _ (fun _ _ _ => eq_refl) _) _);
    [exists seedA; split; [reflexivity|]|..]; vm_compute; reflexivity.
Defined.

Definition demoCode : string :=
  match CreateP2PInvite "0123456789abcdef" minute joinerAddr ["wss://relay"] with Ok c => c | Err e => e end.

Lemma invite_roundtrip_witness :
  DecodeP2PInvite demoCode = Ok (mkP2PInvite joinerAddr ["wss://relay"] (hexEncode "0123456789abcdef") "" [] minute) /\
  IsP2PInvite demoCode = true /\ DecodeS3Invite demoCode = Err "invalid S3 invite code: missing prefix".
Proof.
  refine (invite_roundtrip "0123456789abcdef" minute joinerAddr ["wss://relay"] "" [] demoCode _ _ _ _);
    [discriminate|discriminate|vm_compute; reflexivity|vm_compute; reflexivity].
Defined.

Definition nsPath : string := "keys/namespaces/default.ns.enc".
Definition nsWrapped : string := match WrapKey ephA "nonce-12byte" "namespace-key" (edPublic seedA) with Ok w => w | Err e => e end.
Definition keyObjects : gmap string string := {[ nsPath := nsWrapped ]}.
Definition granting := ApproveJoin quietNet None joinEnv keyObjects (GenerateKey seedA) joinerAddr "invite" "now".

Lemma demo_paths p : p ∈ listObjects keyObjects namespacesPrefix -> p = nsPath.
Proof.
  assert (listObjects keyObjects namespacesPrefix = [nsPath]) as -> by (vm_compute; reflexivity).
  by intros ->%list_elem_of_singleton.
Qed.

Lemma joiner_fresh p q : p ∈ listObjects keyObjects namespacesPrefix -> q ∈ listObjects keyObjects namespacesPrefix ->
  p <> joinerKeyPath (extractNamespaceName q) (shortPubkeyID joinerAddr).
Proof. intros ->%demo_paths ->%demo_paths. vm_compute. discriminate. Qed.

Lemma demo_one_key : one_key keyObjects (listObjects keyObjects namespacesPrefix) hostPriv.
Proof. intros p p' k k' ->%demo_paths ->%demo_paths _ (? & H1 & H2) (? & H3 & H4). congruence. Qed.

Lemma demo_opens : opens keyObjects nsPath hostPriv "namespace-key".
Proof. exists nsWrapped. split; vm_compute; reflexivity. Qed.

Lemma join_grant_opens_witness :
  opens granting.1 (joinerKeyPath (extractNamespaceName nsPath) (shortPubkeyID joinerAddr)) (privateKey seedC) "namespace-key" /\
  IsGranted quietNet granting.1 "invite" = Ok true.
Proof.
  exact (join_grant_opens quietNet joinEnv keyObjects (GenerateKey seedA) hostPriv seedC joinerAddr "invite" "now" granting.1
    nsPath "namespace-key" (conj (fun _ => eq_refl) (fun _ => eq_refl)) eq_refl joiner_parses
    (fun _ => conj recipientC eq_refl) joiner_fresh demo_one_key
    ltac:(assert (listObjects keyObjects namespacesPrefix = [nsPath]) as -> by (vm_compute; reflexivity); left)
    demo_opens ltac:(vm_compute; reflexivity)).
Defined.

End Demo.
