(* ===== verification/Secrets.v ===== *)
(** * Secrets (pkg/secrets: types.go, crypto.go, store.go)

    A secret is a head, sealed for its recipients, that names the latest
    version; a version is sealed metadata and the chunks of a ciphertext.  All
    of it lives under keys of a key-value store ([KVStore] of Collections); the
    namespace key of that store is itself passed between devices through
    another store.  JSON and the checksum are a class; keys, nonces,
    identifiers and the clock are arguments. *)

From Stdlib Require Import Ascii.
From stdpp Require Import base numbers list gmap strings.
From S2P Require Import Prelude GoStrings GoStrconv GoText Bech32 Seal Identity Collections.

(** ** Scopes, policies and requesters (types.go) *)

Definition DefaultNamespace : string := "secrets".
Definition KindBlob : string := "blob".
Definition RequesterOwner : string := "owner".
Definition RequesterAgent : string := "agent".
Definition ScopeCurrent : string := "current".
Definition ScopeTrusted : string := "trusted".
Definition ScopeExplicit : string := "explicit".

Record AccessPolicy := mkPolicy { apAllowedAgents : list string; apRequireApproval : bool }.
Definition policy_IsZero (p : AccessPolicy) : bool := bool_decide (apAllowedAgents p = []) && negb (apRequireApproval p).

Record Requester := mkRequester { rqType : string; rqID : string }.

Record PutParams := mkPut {
  ppID : string; ppName : string; ppKind : string; ppContentType : string; ppScope : string; ppPayload : string;
  ppRecipients : list string; ppPolicy : AccessPolicy
}.

Record RewrapParams := mkRewrap { rwIDOrName : string; rwScope : string; rwRecipients : list string; rwPolicy : AccessPolicy }.

Record headPayload := mkHead {
  hdSecretID : string; hdName : string; hdKind : string; hdContentType : string; hdScope : string; hdLatestVersionID : string;
  hdSize : Z; hdSHA256 : string; hdCreatedAt : Time; hdUpdatedAt : Time; hdRecipients : list string; hdPolicy : AccessPolicy
}.

Record versionPayload := mkVersion {
  vrSecretID : string; vrVersionID : string; vrKind : string; vrContentType : string; vrSize : Z; vrSHA256 : string;
  vrChunkCount : Z; vrCreatedAt : Time
}.

Record SecretSummary := mkSummary {
  smID : string; smName : string; smKind : string; smContentType : string; smScope : string; smSize : Z; smSHA256 : string;
  smCreatedAt : Time; smUpdatedAt : Time; smRecipients : list string; smPolicy : AccessPolicy
}.

Record Secret := mkSecret { scSummary : SecretSummary; scVersionID : string; scPayload : string }.

Definition NormalizeSecretScope (unicodeLower : string -> string) (scope : string) : string :=
  let s := ToLower unicodeLower (TrimSpace scope) in
  if bool_decide (s = "") || bool_decide (s = ScopeCurrent) then ScopeCurrent
  else if bool_decide (s = ScopeTrusted) then ScopeTrusted
  else if bool_decide (s = ScopeExplicit) then ScopeExplicit
  else "".

Definition InferSecretScope (unicodeLower : string -> string) (scope : string) (recipients : list string) (current : string) : string :=
  let normalized := NormalizeSecretScope unicodeLower scope in
  if negb (bool_decide (normalized = "")) then normalized
  else match recipients with
  | [] => ScopeCurrent
  | [r] => if bool_decide (r = current) then ScopeCurrent else ScopeExplicit
  | _ => ScopeExplicit
  end.

Definition ErrNotFound : string := "secret not found".
Definition ErrAccessDenied : string := "secret access denied".
Definition ErrApprovalRequired : string := "secret access requires human approval".
Definition errNoWrappedKey : string := "wrapped key for current device not found".

Definition authorize (policy : AccessPolicy) (r : Requester) : result string unit :=
  if bool_decide (rqType r = "") || bool_decide (rqType r = RequesterOwner) then Ok tt
  else if bool_decide (rqType r = RequesterAgent) then
    if bool_decide (rqID r = "") then Err ErrAccessDenied
    else if apRequireApproval policy then Err ErrApprovalRequired
    else if existsb (fun a => bool_decide (a = rqID r)) (apAllowedAgents policy) then Ok tt
    else Err ErrAccessDenied
  else Err ErrAccessDenied.

(** ** Sealed values (crypto.go) *)

Record recipientRef := mkRecipient { rcDeviceID : string; rcName : string; rcRole : string; rcPublicKey : string }.
Record wrappedKey := mkWrappedKey { wkRecipientType : string; wkRecipientID : string; wkWrappedKey : string }.
Record sealedValue := mkSealed { svVersion : Z; svWrappedKeys : list wrappedKey; svCiphertext : string }.

Record namespaceBootstrapRecord := mkBootRecord {
  nbVersion : Z; nbNamespace : string; nbKey : string; nbSourceDeviceID : string; nbCreatedAt : Time
}.

(** [encoding/json] at the types of this package, and SHA-256 in hexadecimal. *)
Class SecretsJSON := {
  marshalSealed : sealedValue -> result string string;
  unmarshalSealed : string -> result string sealedValue;
  marshalHead : headPayload -> result string string;
  unmarshalHead : string -> result string headPayload;
  marshalVersion : versionPayload -> result string string;
  unmarshalVersion : string -> result string versionPayload;
  marshalBoot : namespaceBootstrapRecord -> result string string;
  unmarshalBoot : string -> result string namespaceBootstrapRecord;
  checksumHex : string -> string;
  (** Strings are valid UTF-8 and years have four digits. *)
  wire_string : string -> Prop;
  wire_head : headPayload -> Prop;
  wire_version : versionPayload -> Prop;
  wire_boot : namespaceBootstrapRecord -> Prop;
  unmarshal_marshalSealed v data : Forall (fun k => wire_string (wkRecipientID k)) (svWrappedKeys v) -> marshalSealed v = Ok data -> unmarshalSealed data = Ok v;
  unmarshal_marshalHead v data : wire_head v -> marshalHead v = Ok data -> unmarshalHead data = Ok v;
  unmarshal_marshalVersion v data : wire_version v -> marshalVersion v = Ok data -> unmarshalVersion data = Ok v;
  unmarshal_marshalBoot v data : wire_boot v -> marshalBoot v = Ok data -> unmarshalBoot data = Ok v;
  marshalBoot_nonempty v data : marshalBoot v = Ok data -> data <> ""
}.

(** The first [size] bytes, then the rest; no chunk is empty but the one of an
    empty slice. *)
Fixpoint chunkLoop (size : nat) (fuel : nat) (data : string) : list string :=
  match fuel with
  | O => []
  | S fuel =>
      if bool_decide (data = "") then []
      else let n := Nat.min size (String.length data) in str_take n data :: chunkLoop size fuel (str_drop n data)
  end.

Definition chunkBytes (data : string) (size : nat) : list string :=
  if bool_decide (data = "") then [""] else chunkLoop size (String.length data) data.

(** [kv.MaxValueSize] *)
Definition maxChunkSize : nat := 8192.

Lemma maxChunkSize_Z : Z.of_nat maxChunkSize = 8192.
Proof. vm_compute. reflexivity. Qed.

Section Sealed.
Context `{Lib : CryptoLib} `{JSON : SecretsJSON}.

(** What is drawn: the n-th wrap's ephemeral key and nonce, and the nonce of
    the encryption. *)
Record SealEnv := mkSealEnv { slEphemeral : nat -> string; slWrapNonce : nat -> string; slNonce : string }.

Fixpoint wrapRecipients (env : SealEnv) (n : nat) (dataKey : string) (recipients : list recipientRef) : result string (list wrappedKey) :=
  match recipients with
  | [] => Ok []
  | r :: recipients =>
      match WrapKey (slEphemeral env n) (slWrapNonce env n) dataKey (rcPublicKey r) with
      | Err e => Err ("wrapping data key for " +:+ rcDeviceID r +:+ ": " +:+ e)
      | Ok wrapped =>
          match wrapRecipients env (S n) dataKey recipients with
          | Err e => Err e
          | Ok rest => Ok (mkWrappedKey "device" (rcDeviceID r) wrapped :: rest)
          end
      end
  end.

Definition marshalSealedValue (env : SealEnv) (plain dataKey : string) (recipients : list recipientRef) : result string string :=
  match Encrypt (slNonce env) plain dataKey with
  | Err e => Err ("encrypting sealed value: " +:+ e)
  | Ok ciphertext =>
      match wrapRecipients env 0 dataKey recipients with
      | Err e => Err e
      | Ok wrappedKeys => marshalSealed (mkSealed 1 wrappedKeys ciphertext)
      end
  end.

(** The first wrapped key that opens. *)
Fixpoint unwrapDataKey (keys : list wrappedKey) (priv : string) : result string string :=
  match keys with
  | [] => Err errNoWrappedKey
  | k :: keys => match UnwrapKey (wkWrappedKey k) priv with Ok dataKey => Ok dataKey | Err _ => unwrapDataKey keys priv end
  end.

(** The plaintext and the data key. *)
Definition unsealValue (raw priv : string) : result string (string * string) :=
  match unmarshalSealed raw with
  | Err e => Err ("parsing sealed value: " +:+ e)
  | Ok value =>
      match unwrapDataKey (svWrappedKeys value) priv with
      | Err e => Err e
      | Ok dataKey =>
          match Decrypt (svCiphertext value) dataKey with
          | Err e => Err ("decrypting sealed value: " +:+ e)
          | Ok plain => Ok (plain, dataKey)
          end
      end
  end.

End Sealed.

(** ** Keys of the store *)

Definition internalPrefix : string := "_sys/secrets/".
Definition headPrefix : string := internalPrefix +:+ "heads/".
Definition legacyHeadPrefix : string := "heads/".
Definition versionPrefix : string := internalPrefix +:+ "versions/".
Definition legacyVersionPath : string := "versions/".

Definition namespaceBootstrapKVKey (namespace : string) : string := "_sys/namespaces/" +:+ namespace +:+ "/key".
Definition headKey (secretID : string) : string := headPrefix +:+ secretID.
Definition legacyHeadKey (secretID : string) : string := legacyHeadPrefix +:+ secretID.
Definition versionDir (prefix secretID versionID : string) : string := prefix +:+ secretID +:+ "/" +:+ versionID.
Definition versionMetaKey (secretID versionID : string) : string := versionDir versionPrefix secretID versionID +:+ "/meta".
Definition legacyVersionMetaKey (secretID versionID : string) : string := versionDir legacyVersionPath secretID versionID +:+ "/meta".
(** [fmt] verb [%06d] for a number that is not negative. *)
Definition pad06 (n : Z) : string := if n <? 1000000 then pad_dec 6 n else Itoa n.

Definition chunkKey (secretID versionID : string) (idx : Z) : string :=
  versionDir versionPrefix secretID versionID +:+ "/chunk/" +:+ pad06 idx.
Definition legacyChunkKey (secretID versionID : string) (idx : Z) : string :=
  versionDir legacyVersionPath secretID versionID +:+ "/chunk/" +:+ pad06 idx.

Definition secretIDFromHeadKey (key : string) : option string :=
  if HasPrefix key headPrefix then Some (TrimPrefix key headPrefix)
  else if HasPrefix key legacyHeadPrefix then Some (TrimPrefix key legacyHeadPrefix)
  else None.

Definition deviceIDFromPublicKey (pub : string) : string := "D-" +:+ ShortID (bytes_of pub).

(** ** The namespace key of the transport (store.go, ensureNamespaceBootstrap) *)

Section Boot.
Context `{Lib : CryptoLib} `{JSON : SecretsJSON} {B : Type} `{BootKV : !KVStore B}.

(** The cached key of the namespace on this device, and the store that carries
    the shared record. *)
Record Boot := mkBoot { btCache : option string; btKV : B }.

(** The namespace, the device, the identity's private key, the clock, and
    whether the cache can be written. *)
Record BootEnv := mkBootEnv { bnNamespace : string; bnDeviceID : string; bnIdentityPriv : option string; bnNow : Time; bnCacheWrites : bool }.

Definition CacheKeyLocally (env : BootEnv) (key : string) (b : Boot) : Boot :=
  if bnCacheWrites env then mkBoot (Some key) (btKV b) else b.

Definition deriveP2PNamespaceKey (env : BootEnv) : result string string :=
  match bnIdentityPriv env with
  | None => Err "missing identity key for namespace bootstrap"
  | Some priv =>
      if bool_decide (priv = "") then Err "missing identity key for namespace bootstrap"
      else Ok (DeriveKey (Seed priv) ("kv:" +:+ bnNamespace env) "sky10-kv-namespace-bootstrap")
  end.

Definition loadBootstrapKey (env : BootEnv) (kv : B) : result string (option string) :=
  match kvGet kv (namespaceBootstrapKVKey (bnNamespace env)) with
  | None => Ok None
  | Some raw =>
      if bool_decide (raw = "") then Ok None
      else match unmarshalBoot raw with
      | Err e => Err ("parsing secrets namespace bootstrap record: " +:+ e)
      | Ok record =>
          if negb (bool_decide (nbNamespace record = bnNamespace env)) then Err "unexpected bootstrap namespace"
          else match b64decode false true (nbKey record) with
          | None => Err "decoding secrets namespace bootstrap key"
          | Some key => if slen key =? KeySize then Ok (Some key) else Err "invalid secrets namespace bootstrap key size"
          end
      end
  end.

Definition storeBootstrapKey (env : BootEnv) (key : string) (b : Boot) : Boot * result string unit :=
  match marshalBoot (mkBootRecord 1 (bnNamespace env) (b64encode false true key) (bnDeviceID env) (bnNow env)) with
  | Err e => (b, Err ("marshaling secrets namespace bootstrap record: " +:+ e))
  | Ok data =>
      match kvSet (btKV b) (namespaceBootstrapKVKey (bnNamespace env)) data with
      | (kv, Err e) => (mkBoot (btCache b) kv, Err ("publishing secrets namespace bootstrap key: " +:+ e))
      | (kv, Ok _) => (mkBoot (btCache b) kv, Ok tt)
      end
  end.

Definition publishBootstrapKey (env : BootEnv) (key : string) (b : Boot) : Boot * result string unit :=
  match loadBootstrapKey env (btKV b) with
  | Err e => (b, Err e)
  | Ok (Some existing) =>
      if bool_decide (existing = key) then (b, Ok tt) else (b, Err "bootstrap record conflicts with local cached key")
  | Ok None => storeBootstrapKey env key b
  end.

Definition ensureNamespaceBootstrap (env : BootEnv) (b : Boot) : Boot * result string unit :=
  match loadBootstrapKey env (btKV b) with
  | Err e => (b, Err e)
  | Ok bootstrapKey =>
      let derived := deriveP2PNamespaceKey env in
      match btCache b, bootstrapKey with
      | Some localKey, Some bootstrapKey =>
          if bool_decide (localKey = bootstrapKey) then (b, Ok tt)
          else match derived with
          | Ok derivedKey =>
              if bool_decide (localKey = derivedKey) then storeBootstrapKey env localKey (CacheKeyLocally env localKey b)
              else if bool_decide (bootstrapKey = derivedKey) then (CacheKeyLocally env bootstrapKey b, Ok tt)
              else (b, Err "cached namespace key does not match bootstrap record")
          | Err _ => (b, Err "cached namespace key does not match bootstrap record")
          end
      | Some localKey, None => publishBootstrapKey env localKey b
      | None, Some bootstrapKey => (CacheKeyLocally env bootstrapKey b, Ok tt)
      | None, None =>
          match derived with
          | Err e => (b, Err e)
          | Ok derivedKey => publishBootstrapKey env derivedKey (CacheKeyLocally env derivedKey b)
          end
      end
  end.

End Boot.
Arguments Boot B : clear implicits.

(** ** The store *)

Section Store.
Context `{Lib : CryptoLib} `{JSON : SecretsJSON} {S : Type} `{KV : !KVStore S}.
Variable unicodeLower : string -> string.

(** What does not change while the daemon runs: the device's key pair, its
    identifier and the devices of the manifest. *)
Record SecretsConfig := mkConfig { cfDevicePub : string; cfDevicePriv : string; cfDeviceID : string; cfDevices : list DeviceEntry }.

Variable cfg : SecretsConfig.

(** One operation meets: what [ensureNamespaceBootstrap] answers, fresh keys and
    identifiers, the sealing of the version and of the head, the clock. *)
Record SecretsEnv := mkSecretsEnv {
  seBoot : result string unit; seDataKey : string; seRandomID : nat -> string; sePayloadNonce : string;
  seVersionSeal : SealEnv; seHeadSeal : SealEnv; seNow : nat -> Time
}.

(** *** Recipients *)

Definition manifestRecipient (e : DeviceEntry) : recipientRef :=
  mkRecipient (deviceIDFromPublicKey (dePublicKey e)) (deName e) (NormalizeDeviceRole unicodeLower (deRole e)) (dePublicKey e).

Definition manifestRecipientMap : gmap string recipientRef :=
  let out := foldl (fun out e => if slen (dePublicKey e) =? PublicKeySize
                                 then <[deviceIDFromPublicKey (dePublicKey e) := manifestRecipient e]> out else out)
    ∅ (cfDevices cfg) in
  match out !! cfDeviceID cfg with
  | Some _ => out
  | None => <[cfDeviceID cfg := mkRecipient (cfDeviceID cfg) "current" DeviceRoleTrusted (cfDevicePub cfg)]> out
  end.

Definition recipient_lt (a b : recipientRef) : bool := str_ltb (rcDeviceID a) (rcDeviceID b).

Fixpoint explicitLoop (ids : list string) (seen : list string) (acc : list recipientRef) : result string (list recipientRef) :=
  match ids with
  | [] => Ok acc
  | i :: ids =>
      let i := TrimSpace i in
      if bool_decide (i = "") || existsb (fun s => bool_decide (s = i)) seen then explicitLoop ids seen acc
      else match manifestRecipientMap !! i with
      | None => Err ("unknown recipient device: " +:+ i)
      | Some r => explicitLoop ids (i :: seen) (acc ++ [r])
      end
  end.

Definition resolveExplicitRecipients (ids : list string) : result string (list recipientRef) :=
  match explicitLoop ids [] [] with Err e => Err e | Ok rs => Ok (sortBy recipient_lt rs) end.

Definition resolveTrustedRecipients : result string (list recipientRef) :=
  let rs := sortBy recipient_lt
    (List.filter (fun r => bool_decide (rcRole r = DeviceRoleTrusted)) (map_to_list manifestRecipientMap).*2) in
  match rs with [] => Err "no trusted recipient devices available" | _ => Ok rs end.

Definition resolveRecipients (scope : string) (ids : list string) : result string (list recipientRef) :=
  if bool_decide (scope = ScopeCurrent) then resolveExplicitRecipients [cfDeviceID cfg]
  else if bool_decide (scope = ScopeTrusted) then resolveTrustedRecipients
  else if bool_decide (scope = ScopeExplicit) then resolveExplicitRecipients ids
  else Err ("unknown scope: " +:+ scope).

Definition recipientIDs (rs : list recipientRef) : list string := map rcDeviceID rs.

Definition sameRecipientIDSet (a b : list string) : bool := bool_decide (sort_Strings a = sort_Strings b).

(** *** Heads *)

Definition summaryFromHead (h : headPayload) : SecretSummary :=
  mkSummary (hdSecretID h) (hdName h) (hdKind h) (hdContentType h) (hdScope h) (hdSize h) (hdSHA256 h) (hdCreatedAt h)
    (hdUpdatedAt h) (hdRecipients h) (hdPolicy h).

Definition withScope (scope : string) (h : headPayload) : headPayload :=
  mkHead (hdSecretID h) (hdName h) (hdKind h) (hdContentType h) scope (hdLatestVersionID h) (hdSize h) (hdSHA256 h)
    (hdCreatedAt h) (hdUpdatedAt h) (hdRecipients h) (hdPolicy h).

(** A value that no wrapped key of opens is denied. *)
Definition denyUnwrapped (e : string) : string := if bool_decide (e = errNoWrappedKey) then ErrAccessDenied else e.

Definition decryptHead (raw : string) : result string headPayload :=
  match unsealValue raw (cfDevicePriv cfg) with
  | Err e => Err (denyUnwrapped e)
  | Ok (headJSON, _) =>
      match unmarshalHead headJSON with
      | Err e => Err ("parsing head metadata: " +:+ e)
      | Ok head => Ok (withScope (InferSecretScope unicodeLower (hdScope head) (hdRecipients head) (cfDeviceID cfg)) head)
      end
  end.

(** Legacy keys first, overridden by those of the same secret. *)
Definition listHeadKeys (s : S) : list string :=
  let add (m : gmap string string) key := match secretIDFromHeadKey key with Some i => <[i := key]> m | None => m end in
  sort_Strings (map_to_list (foldl add (foldl add ∅ (kvList s legacyHeadPrefix)) (kvList s headPrefix))).*2.

(** The heads in the order of their keys; the loops of [List], [findHeadByName]
    and [ReconcileTrustedScope] skip what is gone or denied. *)
Fixpoint findByName (name : string) (keys : list string) (s : S) : result string headPayload :=
  match keys with
  | [] => Err ErrNotFound
  | key :: keys =>
      match kvGet s key with
      | None => findByName name keys s
      | Some raw =>
          match decryptHead raw with
          | Err e => if bool_decide (e = ErrAccessDenied) then findByName name keys s else Err e
          | Ok head => if bool_decide (hdName head = name) then Ok head else findByName name keys s
          end
      end
  end.

Definition findHeadByName (name : string) (s : S) : result string headPayload := findByName name (listHeadKeys s) s.

Definition resolveHead (idOrName : string) (s : S) : result string headPayload :=
  if bool_decide (idOrName = "") then Err ErrNotFound
  else match kvGet s (headKey idOrName) with
  | Some raw => decryptHead raw
  | None =>
      match kvGet s (legacyHeadKey idOrName) with
      | Some raw => decryptHead raw
      | None => findHeadByName idOrName s
      end
  end.

Definition findExisting (idValue name : string) (s : S) : result string (option headPayload) :=
  let byName :=
    if bool_decide (name = "") then Ok None
    else match findHeadByName name s with
    | Err e => if bool_decide (e = ErrNotFound) then Ok None else Err e
    | Ok head => Ok (Some head)
    end in
  if bool_decide (idValue = "") then byName
  else match resolveHead idValue s with
  | Ok head => Ok (Some head)
  | Err e => if bool_decide (e = ErrNotFound) then byName else Err e
  end.

Definition summary_lt (a b : SecretSummary) : bool :=
  if negb (bool_decide (smName a = smName b)) then str_ltb (smName a) (smName b) else str_ltb (smID a) (smID b).

Fixpoint listHeads (keys : list string) (s : S) : result string (list SecretSummary) :=
  match keys with
  | [] => Ok []
  | key :: keys =>
      match kvGet s key with
      | None => listHeads keys s
      | Some raw =>
          match decryptHead raw with
          | Err e => if bool_decide (e = ErrAccessDenied) then listHeads keys s else Err e
          | Ok head => match listHeads keys s with Err e => Err e | Ok rest => Ok (summaryFromHead head :: rest) end
          end
      end
  end.

Definition secretsList (env : SecretsEnv) (s : S) : result string (list SecretSummary) :=
  match seBoot env with
  | Err e => Err e
  | Ok _ => match listHeads (listHeadKeys s) s with Err e => Err e | Ok l => Ok (sortBy summary_lt l) end
  end.

(** *** Put *)

(** The scope as given, in canonical form. *)
Definition givenScope (p : PutParams) : result string string :=
  let raw := TrimSpace (ppScope p) in
  if bool_decide (raw = "") then Ok (ppScope p)
  else let s := NormalizeSecretScope unicodeLower raw in
       if bool_decide (s = "") then Err ("unknown scope: " +:+ raw) else Ok s.

Definition orElse (a b : string) : string := if bool_decide (a = "") then b else a.

(** What an existing secret fills in. *)
Definition inheritHead (existing : headPayload) (p : PutParams) : PutParams :=
  let scope := orElse (ppScope p) (hdScope existing) in
  mkPut (orElse (ppID p) (hdSecretID existing)) (orElse (ppName p) (hdName existing)) (orElse (ppKind p) (hdKind existing))
    (orElse (ppContentType p) (hdContentType existing)) scope (ppPayload p)
    (if bool_decide (ppRecipients p = []) && bool_decide (scope = ScopeExplicit) then hdRecipients existing else ppRecipients p)
    (if policy_IsZero (ppPolicy p) then hdPolicy existing else ppPolicy p).

(** The scope and the recipients when no scope is known yet. *)
Definition defaultScope (p : PutParams) : string * list string :=
  if negb (bool_decide (ppScope p = "")) then (ppScope p, ppRecipients p)
  else match ppRecipients p with
  | [] => (ScopeCurrent, [])
  | [r] => if EqualFold (TrimSpace r) "all" then (ScopeTrusted, []) else (ScopeExplicit, [r])
  | rs => (ScopeExplicit, rs)
  end.

Definition withDefaults (p : PutParams) : PutParams :=
  let '(scope, recipients) := defaultScope p in
  mkPut (ppID p) (ppName p) (orElse (ppKind p) KindBlob) (orElse (ppContentType p) "application/octet-stream") scope (ppPayload p)
    recipients (ppPolicy p).

Definition checkScope (p : PutParams) : result string unit :=
  let none := bool_decide (ppRecipients p = []) in
  if (bool_decide (ppScope p = ScopeCurrent) || bool_decide (ppScope p = ScopeTrusted)) && negb none
  then Err ("scope " +:+ ppScope p +:+ " does not accept explicit recipient devices")
  else if bool_decide (ppScope p = ScopeExplicit) && none
  then Err ("scope " +:+ ScopeExplicit +:+ " requires at least one recipient device")
  else Ok tt.

(** From the parameters to the secret to write and its recipients. *)
Definition preparePut (p : PutParams) (s : S) : result string (option headPayload * PutParams * list recipientRef) :=
  if bool_decide (ppPayload p = "") then Err "payload is required"
  else match givenScope p with
  | Err e => Err e
  | Ok scope =>
      let p := mkPut (ppID p) (ppName p) (ppKind p) (ppContentType p) scope (ppPayload p) (ppRecipients p) (ppPolicy p) in
      match findExisting (ppID p) (ppName p) s with
      | Err e => Err e
      | Ok existing =>
          let p := match existing with Some h => inheritHead h p | None => p end in
          if bool_decide (ppName p = "") then Err "name is required"
          else
            let p := withDefaults p in
            match checkScope p with
            | Err e => Err e
            | Ok _ =>
                match resolveRecipients (ppScope p) (ppRecipients p) with
                | Err e => Err e
                | Ok recipients => Ok (existing, p, recipients)
                end
            end
      end
  end.

(** The chunks one after the other; the first error stops. *)
Fixpoint storeChunks (secretID versionID : string) (i : Z) (chunks : list string) (s : S) : S * result string unit :=
  match chunks with
  | [] => (s, Ok tt)
  | chunk :: chunks =>
      match kvSet s (chunkKey secretID versionID i) chunk with
      | (s, Err e) => (s, Err ("storing chunk " +:+ Itoa i +:+ ": " +:+ e))
      | (s, Ok _) => storeChunks secretID versionID (i + 1) chunks s
      end
  end.

(** The two values sealed for the recipients: the version's metadata, then the head. *)
Definition newVersion (env : SecretsEnv) (secretID versionID : string) (p : PutParams) (nchunks : Z) : versionPayload :=
  mkVersion secretID versionID (ppKind p) (ppContentType p) (slen (ppPayload p)) (checksumHex (ppPayload p)) nchunks (seNow env 1).

Definition newHead (env : SecretsEnv) (secretID versionID : string) (p : PutParams) (createdAt : Time) (rs : list recipientRef) : headPayload :=
  mkHead secretID (ppName p) (ppKind p) (ppContentType p) (ppScope p) versionID (slen (ppPayload p)) (checksumHex (ppPayload p))
    createdAt (seNow env 1) (recipientIDs rs) (ppPolicy p).

Definition storeSealed (env : SealEnv) (what key : string) (json : result string string) (dataKey : string) (rs : list recipientRef) (s : S)
  : S * result string unit :=
  match json with
  | Err e => (s, Err ("marshaling " +:+ what +:+ " metadata: " +:+ e))
  | Ok plain =>
      match marshalSealedValue env plain dataKey rs with
      | Err e => (s, Err e)
      | Ok value =>
          match kvSet s key value with
          | (s, Err e) => (s, Err ("storing " +:+ what +:+ " metadata: " +:+ e))
          | (s, Ok _) => (s, Ok tt)
          end
      end
  end.

Definition secretsPut (env : SecretsEnv) (s : S) (p : PutParams) : S * result string SecretSummary :=
  match seBoot env with
  | Err e => (s, Err e)
  | Ok _ =>
      match preparePut p s with
      | Err e => (s, Err e)
      | Ok (existing, p, rs) =>
          let secretID := match existing with
            | Some _ => ppID p
            | None => if bool_decide (ppID p = "") then seRandomID env 0 else ppID p
            end in
          let createdAt := match existing with Some h => hdCreatedAt h | None => seNow env 0 end in
          match Encrypt (sePayloadNonce env) (ppPayload p) (seDataKey env) with
          | Err e => (s, Err ("encrypting secret payload: " +:+ e))
          | Ok ciphertext =>
              let versionID := seRandomID env 1 in
              let chunks := chunkBytes ciphertext maxChunkSize in
              match storeChunks secretID versionID 0 chunks s with
              | (s, Err e) => (s, Err e)
              | (s, Ok _) =>
                  let version := newVersion env secretID versionID p (Z.of_nat (length chunks)) in
                  match storeSealed (seVersionSeal env) "version" (versionMetaKey secretID versionID) (marshalVersion version)
                    (seDataKey env) rs s with
                  | (s, Err e) => (s, Err e)
                  | (s, Ok _) =>
                      let head := newHead env secretID versionID p createdAt rs in
                      match storeSealed (seHeadSeal env) "head" (headKey secretID) (marshalHead head) (seDataKey env) rs s with
                      | (s, Err e) => (s, Err e)
                      | (s, Ok _) => (s, Ok (summaryFromHead head))
                      end
                  end
              end
          end
      end
  end.

(** *** Get *)

Definition resolveVersionMeta (secretID versionID : string) (s : S) : option string :=
  match kvGet s (versionMetaKey secretID versionID) with
  | Some raw => Some raw
  | None => kvGet s (legacyVersionMetaKey secretID versionID)
  end.

Definition resolveChunk (secretID versionID : string) (i : Z) (s : S) : option string :=
  match kvGet s (chunkKey secretID versionID i) with
  | Some raw => Some raw
  | None => kvGet s (legacyChunkKey secretID versionID i)
  end.

(** [n] chunks from the [i]-th. *)
Fixpoint readChunks (secretID versionID : string) (i : Z) (n : nat) (s : S) : result string string :=
  match n with
  | O => Ok ""
  | Datatypes.S n =>
      match resolveChunk secretID versionID i s with
      | None => Err ("secret chunk missing: " +:+ Itoa i)
      | Some chunk =>
          match readChunks secretID versionID (i + 1) n s with
          | Err e => Err e
          | Ok rest => Ok (chunk +:+ rest)
          end
      end
  end.

Definition readVersion (head : headPayload) (s : S) : result string Secret :=
  match resolveVersionMeta (hdSecretID head) (hdLatestVersionID head) s with
  | None => Err ErrNotFound
  | Some rawMeta =>
      match unsealValue rawMeta (cfDevicePriv cfg) with
      | Err e => Err (denyUnwrapped e)
      | Ok (metaJSON, dataKey) =>
          match unmarshalVersion metaJSON with
          | Err e => Err ("parsing version metadata: " +:+ e)
          | Ok version =>
              match readChunks (hdSecretID head) (vrVersionID version) 0 (Z.to_nat (vrChunkCount version)) s with
              | Err e => Err e
              | Ok ciphertext =>
                  match Decrypt ciphertext dataKey with
                  | Err e => Err ("decrypting payload: " +:+ e)
                  | Ok payload => Ok (mkSecret (summaryFromHead head) (vrVersionID version) payload)
                  end
              end
          end
      end
  end.

Definition secretsGet (boot : result string unit) (s : S) (idOrName : string) (requester : Requester) : result string Secret :=
  match boot with
  | Err e => Err e
  | Ok _ =>
      match resolveHead idOrName s with
      | Err e => Err e
      | Ok head =>
          match authorize (hdPolicy head) requester with
          | Err e => Err e
          | Ok _ => readVersion head s
          end
      end
  end.

(** *** Rewrap, Delete and the trusted scope *)

Definition rewrapParams (head : headPayload) (payload : string) (p : RewrapParams) : PutParams :=
  mkPut (hdSecretID head) (hdName head) (hdKind head) (hdContentType head) (orElse (rwScope p) (hdScope head)) payload
    (if bool_decide (rwRecipients p = []) && bool_decide (hdScope head = ScopeExplicit) then hdRecipients head else rwRecipients p)
    (if policy_IsZero (rwPolicy p) then hdPolicy head else rwPolicy p).

Definition Rewrap (env : SecretsEnv) (s : S) (p : RewrapParams) : S * result string SecretSummary :=
  match seBoot env with
  | Err e => (s, Err e)
  | Ok _ =>
      match resolveHead (rwIDOrName p) s with
      | Err e => (s, Err e)
      | Ok head =>
          match secretsGet (seBoot env) s (rwIDOrName p) (mkRequester RequesterOwner "") with
          | Err e => (s, Err e)
          | Ok secret => secretsPut env s (rewrapParams head (scPayload secret) p)
          end
      end
  end.

(** Empty keys and keys seen before are left out. *)
Fixpoint deleteAll (keys : list string) (seen : list string) (s : S) : S * result string unit :=
  match keys with
  | [] => (s, Ok tt)
  | key :: keys =>
      if bool_decide (key = "") || existsb (fun k => bool_decide (k = key)) seen then deleteAll keys seen s
      else match kvDelete s key with
      | (s, Err e) => (s, Err ("deleting secret key " +:+ key +:+ ": " +:+ e))
      | (s, Ok _) => deleteAll keys (key :: seen) s
      end
  end.

Definition secretKeys (secretID : string) (s : S) : list string :=
  [headKey secretID; legacyHeadKey secretID] ++ kvList s (versionPrefix +:+ secretID +:+ "/") ++
  kvList s (legacyVersionPath +:+ secretID +:+ "/").

Definition secretsDelete (boot : result string unit) (s : S) (idOrName : string) : S * result string unit :=
  match boot with
  | Err e => (s, Err e)
  | Ok _ =>
      if isBlank idOrName then (s, Err "id_or_name is required")
      else match resolveHead idOrName s with
      | Err e => (s, Err e)
      | Ok head => deleteAll (secretKeys (hdSecretID head) s) [] s
      end
  end.

(** One environment per secret that is rewrapped. *)
Fixpoint reconcileHeads (env : string -> SecretsEnv) (trustedIDs : list string) (keys : list string) (s : S) (rewrapped : Z)
  : S * Z * result string unit :=
  match keys with
  | [] => (s, rewrapped, Ok tt)
  | key :: keys =>
      match kvGet s key with
      | None => reconcileHeads env trustedIDs keys s rewrapped
      | Some raw =>
          match decryptHead raw with
          | Err e => if bool_decide (e = ErrAccessDenied) then reconcileHeads env trustedIDs keys s rewrapped else (s, rewrapped, Err e)
          | Ok head =>
              if negb (bool_decide (hdScope head = ScopeTrusted)) || sameRecipientIDSet (hdRecipients head) trustedIDs
              then reconcileHeads env trustedIDs keys s rewrapped
              else match Rewrap (env key) s (mkRewrap (hdSecretID head) ScopeTrusted [] (mkPolicy [] false)) with
              | (s, Err e) => (s, rewrapped, Err ("rewrapping trusted secret " +:+ hdSecretID head +:+ ": " +:+ e))
              | (s, Ok _) => reconcileHeads env trustedIDs keys s (rewrapped + 1)
              end
          end
      end
  end.

Definition ReconcileTrustedScope (env : string -> SecretsEnv) (boot : result string unit) (s : S) : S * Z * result string unit :=
  match boot with
  | Err e => (s, 0, Err e)
  | Ok _ =>
      match resolveTrustedRecipients with
      | Err e => (s, 0, Err e)
      | Ok trusted => reconcileHeads env (recipientIDs trusted) (listHeadKeys s) s 0
      end
  end.

End Store.

(** ** Chunks *)

Lemma chunkLoop_concat size fuel data :
  (0 < size)%nat -> (String.length data <= fuel)%nat ->
  foldr String.append "" (chunkLoop size fuel data) = data /\
  Forall (fun c => (0 < String.length c <= size)%nat) (chunkLoop size fuel data).
Proof.
  intros Hsize. revert data. induction fuel as [|fuel IH]; intros data Hl; [by destruct data; [|simpl in Hl; lia]|].
  cbn [chunkLoop]. case_bool_decide as He; [by subst|]. cbn [foldr].
  assert (0 < String.length data)%nat as Hpos by (destruct data; [done|simpl; lia]).
  destruct (IH (str_drop (Nat.min size (String.length data)) data)) as [H1 H2]; [rewrite str_length_drop; lia|].
  split; [rewrite H1; apply str_take_drop|]. constructor; [rewrite str_length_take by lia; lia|done].
Qed.

Lemma chunkLoop_count size fuel data :
  (0 < size)%nat -> (size * length (chunkLoop size fuel data) < String.length data + size)%nat.
Proof.
  intros Hsize. revert data. induction fuel as [|fuel IH]; intros data; [simpl; lia|]. cbn [chunkLoop].
  case_bool_decide as He; [simpl; lia|]. cbn [length]. specialize (IH (str_drop (Nat.min size (String.length data)) data)).
  assert (0 < String.length data)%nat as Hpos by (destruct data; [done|simpl; lia]).
  rewrite str_length_drop in IH. destruct (Nat.le_ge_cases size (String.length data)).
  - rewrite Nat.min_l in IH |- * by done. nia.
  - rewrite Nat.min_r in IH |- * by done. rewrite Nat.sub_diag in IH.
    assert (length (chunkLoop size fuel (str_drop (String.length data) data)) = 0)%nat as -> by nia. nia.
Qed.

(** Chunks are bounded, none of a non-empty slice is empty, and they are the slice. *)
Lemma chunkBytes_ok data size :
  (0 < size)%nat -> data <> "" ->
  foldr String.append "" (chunkBytes data size) = data /\
  Forall (fun c => (0 < String.length c <= size)%nat) (chunkBytes data size) /\
  (size * length (chunkBytes data size) < String.length data + size)%nat.
Proof.
  intros Hs Hd. unfold chunkBytes. rewrite bool_decide_false by done.
  destruct (chunkLoop_concat size (String.length data) data Hs ltac:(lia)). split_and!; [done|done|by apply chunkLoop_count].
Qed.

(** ** Keys of a version *)

Lemma chunkKey_inj i v a b : 0 <= a < 1000000 -> 0 <= b < 1000000 -> chunkKey i v a = chunkKey i v b -> a = b.
Proof.
  intros Ha Hb H. unfold chunkKey in H. apply str_app_inj_l, str_app_inj_l in H. unfold pad06 in H.
  rewrite !(proj2 (Z.ltb_lt _ _)) in H by lia.
  pose proof (parse_pad_dec 6 a 0 ltac:(simpl; lia)) as Pa. pose proof (parse_pad_dec 6 b 0 ltac:(simpl; lia)) as Pb.
  rewrite H, Pb in Pa. simplify_eq. lia.
Qed.

Lemma chunk_not_meta i v n : chunkKey i v n <> versionMetaKey i v.
Proof. unfold chunkKey, versionMetaKey. by intros H%str_app_inj_l. Qed.

Lemma chunk_not_head i v n j : chunkKey i v n <> headKey j.
Proof.
  unfold chunkKey, headKey, versionDir, versionPrefix, headPrefix. rewrite !str_app_assoc. by intros H%str_app_inj_l.
Qed.

Lemma meta_not_head i v j : versionMetaKey i v <> headKey j.
Proof.
  unfold versionMetaKey, headKey, versionDir, versionPrefix, headPrefix. rewrite !str_app_assoc. by intros H%str_app_inj_l.
Qed.

(** ** Sealing for recipients *)

Section SealedFacts.
Context `{Lib : CryptoLib} `{JSON : SecretsJSON}.

(** Well-formed randomness, and a device of [seed] for which no key wrapped for
    another recipient's public key opens. *)
Record good_seal (env : SealEnv) (seed dataKey : string) (rs : list recipientRef) : Prop := {
  gs_nonce : slen (slNonce env) = NonceSize;
  gs_wrap_nonce n : slen (slWrapNonce env n) = NonceSize;
  gs_recipient n : recipient seed (slEphemeral env n);
  gs_key : slen dataKey = KeySize;
  gs_foreign n r sealed : r ∈ rs -> rcPublicKey r <> edPublic seed ->
    WrapKey (slEphemeral env n) (slWrapNonce env n) dataKey (rcPublicKey r) = Ok sealed ->
    is_ok (UnwrapKey sealed (privateKey seed)) = false
}.

Lemma good_seal_tail env seed dataKey r rs : good_seal env seed dataKey (r :: rs) -> good_seal env seed dataKey rs.
Proof. intros []. split; try done. intros n r' sealed Hr. apply gs_foreign0. by right. Qed.

(** The data key comes out exactly for the recipients. *)
Lemma unwrapDataKey_ok env seed dataKey rs n keys :
  good_seal env seed dataKey rs -> wrapRecipients env n dataKey rs = Ok keys ->
  unwrapDataKey keys (privateKey seed) =
    if decide (edPublic seed ∈ map rcPublicKey rs) then Ok dataKey else Err errNoWrappedKey.
Proof.
  revert n keys. induction rs as [|r rs IH]; intros n keys Hg Hw; [by injection Hw as <-|].
  cbn [wrapRecipients] in Hw. destruct (WrapKey _ _ _ _) as [w|] eqn:Ew; [|done].
  destruct (wrapRecipients env (S n) dataKey rs) as [rest|] eqn:Er; [|done]. injection Hw as <-. cbn [unwrapDataKey wkWrappedKey].
  destruct (decide (rcPublicKey r = edPublic seed)) as [Hr|Hr].
  - destruct (Open_Seal (slEphemeral env n) (slWrapNonce env n) dataKey seed) as (sealed & Hs & Ho);
      [apply (gs_wrap_nonce _ _ _ _ Hg)|apply (gs_recipient _ _ _ _ Hg)|].
    unfold WrapKey in Ew. rewrite Hr, Hs in Ew. injection Ew as <-. unfold UnwrapKey.
    rewrite Ho, decide_True; [done|]. simpl. rewrite Hr. by left.
  - pose proof (gs_foreign _ _ _ _ Hg n r w (list_elem_of_here _ _) Hr Ew) as Hf.
    destruct (UnwrapKey w (privateKey seed)); [done|]. rewrite (IH _ _ (good_seal_tail _ _ _ _ _ Hg) Er).
    apply decide_ext. simpl. rewrite elem_of_cons. naive_solver.
Qed.

Lemma wrapRecipients_ids env n dataKey rs keys :
  wrapRecipients env n dataKey rs = Ok keys -> map wkRecipientID keys = recipientIDs rs.
Proof.
  revert n keys. induction rs as [|r rs IH]; intros n keys Hw; [by injection Hw as <-|].
  cbn [wrapRecipients] in Hw. destruct (WrapKey _ _ _ _) as [w|]; [|done].
  destruct (wrapRecipients env (S n) dataKey rs) as [rest|] eqn:Er; [|done]. injection Hw as <-.
  cbn [map wkRecipientID recipientIDs]. by rewrite (IH _ _ Er).
Qed.

(** A sealed value opens for the recipients and for nobody else. *)
Lemma unseal_marshal env seed plain dataKey rs value :
  good_seal env seed dataKey rs -> Forall wire_string (recipientIDs rs) -> marshalSealedValue env plain dataKey rs = Ok value ->
  unsealValue value (privateKey seed) =
    if decide (edPublic seed ∈ map rcPublicKey rs) then Ok (plain, dataKey) else Err errNoWrappedKey.
Proof.
  intros Hg Hw Hm. unfold marshalSealedValue in Hm.
  destruct (Decrypt_Encrypt (slNonce env) plain dataKey (gs_nonce _ _ _ _ Hg) (gs_key _ _ _ _ Hg)) as (c & He & Hd & _).
  rewrite He in Hm. destruct (wrapRecipients env 0 dataKey rs) as [keys|] eqn:Ek; [|done].
  rewrite <- (wrapRecipients_ids _ _ _ _ _ Ek), Forall_map in Hw.
  unfold unsealValue. rewrite (unmarshal_marshalSealed (mkSealed 1 keys c) _ Hw Hm).
  cbn [svWrappedKeys svCiphertext]. rewrite (unwrapDataKey_ok _ _ _ _ _ _ Hg Ek). destruct (decide _); [by rewrite Hd|done].
Qed.

End SealedFacts.

(** ** What Put writes and Get reads *)

Section StoreFacts.
Context `{Lib : CryptoLib} `{JSON : SecretsJSON} {S : Type} `{KV : !KVStore S}.
Variable unicodeLower : string -> string.
Variable cfg : SecretsConfig.
Implicit Types (s : S) (env : SecretsEnv) (p : PutParams).

Lemma kvSet_get s k v s' : kvSet s k v = (s', Ok tt) -> forall q, kvGet s' q = if decide (q = k) then Some v else kvGet s q.
Proof.
  intros H q. pose proof (kvSet_view s k v) as Hv. rewrite H in Hv. simpl in Hv. unfold kvGet. rewrite Hv.
  destruct (decide (q = k)) as [->|]; [apply lookup_insert_eq|by rewrite lookup_insert_ne].
Qed.

Lemma kvDelete_get s k s' : kvDelete s k = (s', Ok tt) -> forall q, kvGet s' q = if decide (q = k) then None else kvGet s q.
Proof.
  intros H q. pose proof (kvDelete_view s k) as Hv. rewrite H in Hv. simpl in Hv. unfold kvGet. rewrite Hv.
  destruct (decide (q = k)) as [->|]; [apply lookup_delete_eq|by rewrite lookup_delete_ne].
Qed.

Lemma storeChunks_ok i v n chunks s s' :
  0 <= n -> n + Z.of_nat (length chunks) <= 1000000 -> storeChunks i v n chunks s = (s', Ok tt) ->
  (forall j c, chunks !! j = Some c -> kvGet s' (chunkKey i v (n + Z.of_nat j)) = Some c) /\
  (forall q, (forall m, n <= m < 1000000 -> q <> chunkKey i v m) -> kvGet s' q = kvGet s q).
Proof.
  revert n s. induction chunks as [|c chunks IH]; intros n s Hn Hl; cbn [storeChunks].
  { intros [= <-]. split; [|done]. by intros j c0 Hj. }
  destruct (kvSet s _ c) as [s1 [[]|]] eqn:Es; [|done]. intros Hrun. simpl length in Hl.
  destruct (IH (n + 1) s1 ltac:(lia) ltac:(lia) Hrun) as [H1 H2]. pose proof (kvSet_get _ _ _ _ Es) as Hset. split.
  - intros [|j] c0 Hj; simpl in Hj.
    + injection Hj as <-. rewrite Z.add_0_r, H2, Hset, decide_True; [done|done|].
      intros m Hm Heq. apply chunkKey_inj in Heq; lia.
    + rewrite <- (H1 j c0 Hj). f_equal. f_equal. lia.
  - intros q Hq. rewrite H2, Hset, decide_False; [done|apply Hq; lia|]. intros m Hm. apply Hq. lia.
Qed.

Lemma readChunks_ok i v n chunks s :
  (forall j c, chunks !! j = Some c -> kvGet s (chunkKey i v (n + Z.of_nat j)) = Some c) ->
  readChunks i v n (length chunks) s = Ok (foldr String.append "" chunks).
Proof.
  revert n. induction chunks as [|c chunks IH]; intros n H; [done|]. cbn [length readChunks foldr]. unfold resolveChunk.
  pose proof (H 0%nat c eq_refl) as H0. rewrite Z.add_0_r in H0. rewrite H0, IH; [done|].
  intros j c0 Hj. rewrite <- (H (Datatypes.S j) c0 Hj). f_equal. f_equal. lia.
Qed.

Lemma storeSealed_ok senv what key json dataKey rs s s' :
  storeSealed senv what key json dataKey rs s = (s', Ok tt) ->
  exists plain value, json = Ok plain /\ marshalSealedValue senv plain dataKey rs = Ok value /\
    forall q, kvGet s' q = if decide (q = key) then Some value else kvGet s q.
Proof.
  unfold storeSealed. destruct json as [plain|]; [|done]. destruct (marshalSealedValue _ _ _ _) as [value|] eqn:Em; [|done].
  destruct (kvSet _ _ _) as [s1 [[]|]] eqn:Es; [|done]. intros [= <-]. exists plain, value. split_and!; [done|done|by apply kvSet_get].
Qed.

Lemma resolveRecipients_scope scope ids rs :
  resolveRecipients unicodeLower cfg scope ids = Ok rs -> scope = ScopeCurrent \/ scope = ScopeTrusted \/ scope = ScopeExplicit.
Proof. unfold resolveRecipients. repeat case_bool_decide; auto; done. Qed.

Lemma InferSecretScope_canonical scope ids current :
  scope = ScopeCurrent \/ scope = ScopeTrusted \/ scope = ScopeExplicit ->
  InferSecretScope unicodeLower scope ids current = scope.
Proof. by intros [->|[->| ->]]. Qed.

Lemma preparePut_ok p s existing p' rs :
  preparePut unicodeLower cfg p s = Ok (existing, p', rs) ->
  ppPayload p' = ppPayload p /\ ppPayload p <> "" /\ resolveRecipients unicodeLower cfg (ppScope p') (ppRecipients p') = Ok rs.
Proof.
  unfold preparePut. case_bool_decide as Hp; [done|]. destruct (givenScope _ _) as [scope|]; [|done].
  destruct (findExisting _ _ _ _ _) as [ex|]; [|done]. case_bool_decide; [done|].
  destruct (checkScope _) as [|]; [|done]. destruct (resolveRecipients _ _ _ _) as [rs0|] eqn:Er; [|done].
  intros [= <- <- <-]. split_and!; [|done|exact Er]. unfold withDefaults. destruct (defaultScope _). by destruct ex.
Qed.

(** The transport after a [Put] that succeeded. *)
Lemma secretsPut_ok env s p s' summary :
  slen (sePayloadNonce env) = NonceSize -> slen (seDataKey env) = KeySize ->
  slen (ppPayload p) < 8000000000 -> secretsPut unicodeLower cfg env s p = (s', Ok summary) ->
  exists existing p' rs secretID createdAt ciphertext rawMeta rawHead metaJSON headJSON,
    preparePut unicodeLower cfg p s = Ok (existing, p', rs) /\
    Decrypt ciphertext (seDataKey env) = Ok (ppPayload p) /\
    let v := seRandomID env 1 in
    let n := length (chunkBytes ciphertext maxChunkSize) in
    let head := newHead env secretID v p' createdAt rs in
    summary = summaryFromHead head /\ Z.of_nat n <= 1000000 /\
    readChunks secretID v 0 n s' = Ok ciphertext /\
    marshalVersion (newVersion env secretID v p' (Z.of_nat n)) = Ok metaJSON /\
    marshalSealedValue (seVersionSeal env) metaJSON (seDataKey env) rs = Ok rawMeta /\
    kvGet s' (versionMetaKey secretID v) = Some rawMeta /\
    marshalHead head = Ok headJSON /\
    marshalSealedValue (seHeadSeal env) headJSON (seDataKey env) rs = Ok rawHead /\
    kvGet s' (headKey secretID) = Some rawHead.
Proof.
  intros Hn Hk Hsize. unfold secretsPut. destruct (seBoot env); [|done].
  destruct (preparePut _ _ _ _) as [[[existing p'] rs]|] eqn:Ep; [|done]. pose proof (preparePut_ok _ _ _ _ _ Ep) as (Hpay & Hne & Hrs).
  set (secretID := match existing with Some _ => _ | None => _ end). set (createdAt := match existing with Some _ => _ | None => _ end).
  destruct (Decrypt_Encrypt (sePayloadNonce env) (ppPayload p') (seDataKey env) Hn Hk) as (c & He & Hd & Hlen). rewrite He.
  destruct (storeChunks _ _ _ _ s) as [s1 [[]|]] eqn:E1; [|done].
  destruct (storeSealed _ "version" _ _ _ _ s1) as [s2 [[]|]] eqn:E2; [|done].
  destruct (storeSealed _ "head" _ _ _ _ s2) as [s3 [[]|]] eqn:E3; [|done]. intros [= <- <-].
  assert (c <> "") as Hc by (intros ->; unfold slen in Hlen; simpl in Hlen; lia).
  pose proof maxChunkSize_Z as Hmax.
  destruct (chunkBytes_ok c maxChunkSize ltac:(lia) Hc) as (Hcat & _ & Hcount).
  assert (0 + Z.of_nat (length (chunkBytes c maxChunkSize)) <= 1000000) as Hfit.
  { rewrite Hpay in Hlen. clear -Hcount Hlen Hsize Hmax. unfold slen in *. generalize dependent maxChunkSize. intros. nia. }
  destruct (storeChunks_ok _ _ _ _ _ _ (Z.le_refl 0) Hfit E1) as [Hin Hout].
  apply storeSealed_ok in E2 as (metaJSON & rawMeta & Hmj & Hms & Hm). apply storeSealed_ok in E3 as (headJSON & rawHead & Hhj & Hhs & Hh).
  exists existing, p', rs, secretID, createdAt, c, rawMeta, rawHead, metaJSON, headJSON.
  split; [done|]. split; [by rewrite <- Hpay|]. cbv zeta. split_and!; try done.
  - rewrite (readChunks_ok _ _ _ (chunkBytes c maxChunkSize)); [by rewrite Hcat|].
    intros j ch Hj. rewrite Hh, decide_False by apply chunk_not_head. rewrite Hm, decide_False by apply chunk_not_meta. by apply (Hin j).
  - rewrite Hh, decide_False by apply meta_not_head. by rewrite Hm, decide_True.
  - by rewrite Hh, decide_True.
Qed.

(** The reader: a device of its own configuration, whose private key is that of
    [seed]. *)
Definition reader (cfg' : SecretsConfig) (seed : string) : Prop := cfDevicePriv cfg' = privateKey seed.

(** C16 (roundtrip). What a successful [Put] stored, [Get] returns on every
    recipient device: the payload byte for byte, whatever its size, with the
    summary the [Put] returned.  On a device that is not among the recipients
    [Get] is denied. *)
Theorem secrets_put_get cfg' seed env s p s' summary existing p' rs
  (Hreader : reader cfg' seed)
  (Hnonce : slen (sePayloadNonce env) = NonceSize) (Hsize : slen (ppPayload p) < 8000000000)
  (Hversion : good_seal (seVersionSeal env) seed (seDataKey env) rs) (Hhead : good_seal (seHeadSeal env) seed (seDataKey env) rs)
  (Hprep : preparePut unicodeLower cfg p s = Ok (existing, p', rs)) (Hids : Forall wire_string (recipientIDs rs))
  (Hversionwire : forall n, 0 <= n <= 1000000 -> wire_version (newVersion env (smID summary) (seRandomID env 1) p' n))
  (Hheadwire : wire_head (newHead env (smID summary) (seRandomID env 1) p' (smCreatedAt summary) rs))
  (Hid : smID summary <> "")
  (Hput : secretsPut unicodeLower cfg env s p = (s', Ok summary)) :
  secretsGet unicodeLower cfg' (Ok tt) s' (smID summary) (mkRequester RequesterOwner "") =
    if decide (edPublic seed ∈ map rcPublicKey rs) then Ok (mkSecret summary (seRandomID env 1) (ppPayload p)) else Err ErrAccessDenied.
Proof.
  apply secretsPut_ok in Hput as (ex & p2 & rs2 & i & t & c & rawMeta & rawHead & metaJSON & headJSON & Hp2 & Hd & -> & Hn & Hc & Hmj & Hms & Hm & Hhj & Hhs & Hh);
    [|done|apply (gs_key _ _ _ _ Hversion)|done].
  rewrite Hprep in Hp2. injection Hp2 as <- <- <-.
  pose proof (Hversionwire (Z.of_nat (length (chunkBytes c maxChunkSize))) (conj (Nat2Z.is_nonneg _) Hn)) as Hwv.
  pose proof (preparePut_ok _ _ _ _ _ Hprep) as (_ & _ & Hscope%resolveRecipients_scope).
  unfold secretsGet, resolveHead. cbn [smID summaryFromHead newHead hdSecretID] in Hid |- *. rewrite bool_decide_false by done.
  rewrite Hh. unfold decryptHead. rewrite Hreader, (unseal_marshal _ _ _ _ _ _ Hhead Hids Hhs).
  destruct (decide _) as [Hin|Hin]; [|done]. rewrite (unmarshal_marshalHead _ _ Hheadwire Hhj).
  cbn [hdScope hdRecipients newHead]. rewrite InferSecretScope_canonical by done. cbn. unfold readVersion, resolveVersionMeta.
  cbn [hdSecretID hdLatestVersionID withScope newHead]. rewrite Hm, Hreader, (unseal_marshal _ _ _ _ _ _ Hversion Hids Hms).
  rewrite decide_True by done. rewrite (unmarshal_marshalVersion _ _ Hwv Hmj). cbn [vrVersionID vrChunkCount newVersion].
  by rewrite Nat2Z.id, Hc, Hd.
Qed.

(** *** Rewrap *)

Lemma rewrap_checkScope head payload (p : RewrapParams) existing :
  rwScope p = ScopeCurrent \/ rwScope p = ScopeTrusted ->
  hdScope head = ScopeExplicit -> hdRecipients head <> [] ->
  let q := rewrapParams head payload p in
  checkScope (withDefaults (match existing with Some h => inheritHead h q | None => q end)) =
    Err ("scope " +:+ rwScope p +:+ " does not accept explicit recipient devices").
Proof.
  intros Hs He Hr. destruct p as [i scope ids pol]. cbn [rwScope] in *. unfold rewrapParams. cbn [rwScope rwRecipients rwPolicy].
  rewrite (bool_decide_true (hdScope head = ScopeExplicit)), andb_true_r by done.
  set (rs := if bool_decide (ids = []) then hdRecipients head else ids).
  assert (rs <> []) as Hne by (subst rs; by case_bool_decide).
  generalize dependent rs. intros rs Hne. destruct Hs as [-> | ->]; destruct rs as [|r rs]; try done; by destruct existing.
Qed.

Lemma preparePut_refuses q s existing e :
  ppPayload q <> "" -> givenScope unicodeLower q = Ok (ppScope q) -> findExisting unicodeLower cfg (ppID q) (ppName q) s = Ok existing ->
  ppName q <> "" -> checkScope (withDefaults (match existing with Some h => inheritHead h q | None => q end)) = Err e ->
  preparePut unicodeLower cfg q s = Err e.
Proof.
  intros Hp Hg Hf Hn Hc. unfold preparePut. rewrite (bool_decide_false (ppPayload q = "")) by done. rewrite Hg. destruct q.
  cbn [ppID ppName ppKind ppContentType ppScope ppPayload ppRecipients ppPolicy] in *. rewrite Hf. cbv zeta.
  rewrite bool_decide_false, Hc; [done|]. destruct existing; [|done]. cbn [inheritHead ppName]. unfold orElse. by rewrite bool_decide_false.
Qed.

(** A secret of the explicit scope cannot be rewrapped to the
    trusted or to the current scope: without recipients in the parameters
    [Rewrap] fills in the recipients of the head, with them it passes them on,
    and [Put] rejects any recipients in these scopes.  The payload was read,
    nothing is written. *)
Theorem secrets_rewrap_explicit_stuck env s (p : RewrapParams) head existing secret
  (Hboot : seBoot env = Ok tt) (Hhead : resolveHead unicodeLower cfg (rwIDOrName p) s = Ok head)
  (Hscope : hdScope head = ScopeExplicit) (Hrs : hdRecipients head <> [])
  (Hexisting : findExisting unicodeLower cfg (hdSecretID head) (hdName head) s = Ok existing)
  (Hget : secretsGet unicodeLower cfg (Ok tt) s (rwIDOrName p) (mkRequester RequesterOwner "") = Ok secret)
  (Hpayload : scPayload secret <> "") (Hname : hdName head <> "")
  (Hto : rwScope p = ScopeCurrent \/ rwScope p = ScopeTrusted) :
  Rewrap unicodeLower cfg env s p = (s, Err ("scope " +:+ rwScope p +:+ " does not accept explicit recipient devices")).
Proof.
  unfold Rewrap. rewrite Hboot, Hhead, Hget. unfold secretsPut. rewrite Hboot.
  enough (preparePut unicodeLower cfg (rewrapParams head (scPayload secret) p) s
    = Err ("scope " +:+ rwScope p +:+ " does not accept explicit recipient devices")) as -> by done.
  pose proof (rewrap_checkScope head (scPayload secret) p existing Hto Hscope Hrs) as Hcheck. cbv zeta in Hcheck.
  apply preparePut_refuses with existing; try done. clear -Hto.
  destruct p as [i scope ids pol]. cbn [rwScope] in Hto. by destruct Hto as [-> | ->].
Qed.

End StoreFacts.

(** *** Delete *)

Section DeleteFacts.
Context `{Lib : CryptoLib} `{JSON : SecretsJSON} {S : Type} `{KV : !KVStore S}.
Implicit Types (s : S) (q : string).

Lemma deleteAll_ok keys seen s s' :
  deleteAll keys seen s = (s', Ok tt) ->
  forall q, kvGet s' q = if decide (q ∈ keys /\ q <> "" /\ q ∉ seen) then None else kvGet s q.
Proof.
  revert seen s. induction keys as [|k keys IH]; intros seen s; cbn [deleteAll].
  { intros [= <-] q. rewrite decide_False; [done|]. intros (H & _). by apply not_elem_of_nil in H. }
  destruct (bool_decide (k = "") || _) eqn:Eb.
  - intros Hrun q. rewrite (IH _ _ Hrun). apply orb_true_iff in Eb. apply decide_ext. rewrite elem_of_cons.
    split; [tauto|]. intros ([->|Hq] & Hne & Hs); [|done]. destruct Eb as [Eb|Eb]; [by apply bool_decide_eq_true_1 in Eb|].
    apply existsb_exists in Eb as (x & Hx & ->%bool_decide_eq_true_1). by apply list_elem_of_In in Hx.
  - destruct (kvDelete s k) as [s1 [[]|]] eqn:Ed; [|done]. intros Hrun q. rewrite (IH _ _ Hrun), (kvDelete_get _ _ _ Ed).
    apply orb_false_iff in Eb as [Hk%bool_decide_eq_false_1 Hs].
    assert (k ∉ seen) as Hns.
    { intros Hin. apply not_true_iff_false in Hs. apply Hs, existsb_exists. exists k. split; [by apply list_elem_of_In|by apply bool_decide_eq_true_2]. }
    destruct (decide (q = k)) as [->|Hne].
    + rewrite (decide_True _ _ (conj (list_elem_of_here k keys) (conj Hk Hns))). by case_decide.
    + apply decide_ext. rewrite !elem_of_cons. naive_solver.
Qed.

(** The keys of a secret. *)
Definition secret_key (i q : string) : Prop :=
  q = headKey i \/ q = legacyHeadKey i \/
  HasPrefix q (versionPrefix +:+ i +:+ "/") = true \/ HasPrefix q (legacyVersionPath +:+ i +:+ "/") = true.

#[export] Instance secret_key_dec i q : Decision (secret_key i q).
Proof. unfold secret_key. apply _. Defined.

Lemma secret_key_nonempty i q : secret_key i q -> q <> "".
Proof.
  intros H ->. destruct H as [H|[H|[H|H]]]; [done|done| |]; vm_compute in H; done.
Qed.

Lemma elem_of_secretKeys i s q :
  q ∈ secretKeys i s -> secret_key i q.
Proof.
  unfold secretKeys, kvList, secret_key. rewrite !elem_of_app, !elem_of_sort_Strings, !list_elem_of_filter, !elem_of_cons, elem_of_nil.
  tauto.
Qed.

Lemma secretKeys_complete i s q :
  secret_key i q -> q ∉ secretKeys i s -> kvGet s q = None.
Proof.
  unfold secretKeys, kvList, secret_key. rewrite !elem_of_app, !elem_of_sort_Strings, !list_elem_of_filter, !elem_of_cons, elem_of_keys_of.
  intros H Hn. unfold kvGet. destruct (kvView s !! q) eqn:E; [|done]. exfalso. apply Hn.
  destruct H as [->|[->|[H|H]]]; [tauto|tauto|right; left|right; right]; (split; [done|by eexists]).
Qed.

Variable unicodeLower : string -> string.
Variable cfg : SecretsConfig.

(** A [Delete] that succeeds removes exactly the secret's head
    and everything below its version directories, in the current and in the
    legacy layout, and no other key; the identifier then no longer names a
    head directly. *)
Theorem secrets_delete_exact s idOrName s' head
  (Hhead : resolveHead unicodeLower cfg idOrName s = Ok head)
  (Hrun : secretsDelete unicodeLower cfg (Ok tt) s idOrName = (s', Ok tt)) :
  (forall q, kvGet s' q = if decide (secret_key (hdSecretID head) q) then None else kvGet s q) /\
  (hdSecretID head <> "" -> resolveHead unicodeLower cfg (hdSecretID head) s' = findHeadByName unicodeLower cfg (hdSecretID head) s').
Proof.
  unfold secretsDelete in Hrun. destruct (isBlank idOrName); [done|]. rewrite Hhead in Hrun.
  pose proof (deleteAll_ok _ _ _ _ Hrun) as Hall.
  assert (forall q, kvGet s' q = if decide (secret_key (hdSecretID head) q) then None else kvGet s q) as Hget.
  { intros q. rewrite Hall. destruct (decide (secret_key _ q)) as [Hq|Hq].
    - destruct (decide _) as [|Hn]; [done|]. apply (secretKeys_complete (hdSecretID head)); [done|]. intros Hin. apply Hn.
      split; [done|]. split; [by eapply secret_key_nonempty|apply not_elem_of_nil].
    - rewrite decide_False; [done|]. intros (Hin & _). by apply Hq, (elem_of_secretKeys _ s). }
  split; [exact Hget|]. intros Hne. unfold resolveHead. rewrite bool_decide_false by done.
  rewrite !Hget, !decide_True; [done| |]; unfold secret_key; tauto.
Qed.

End DeleteFacts.

(** ** The shared namespace key *)

Section BootFacts.
Context `{Lib : CryptoLib} `{JSON : SecretsJSON} {B : Type} `{BootKV : !KVStore B}.

Definition bootRecord (env : BootEnv) (key : string) : namespaceBootstrapRecord :=
  mkBootRecord 1 (bnNamespace env) (b64encode false true key) (bnDeviceID env) (bnNow env).

Lemma storeBootstrapKey_ok env key (b b' : Boot B) :
  slen key = KeySize -> wire_boot (bootRecord env key) -> storeBootstrapKey env key b = (b', Ok tt) ->
  btCache b' = btCache b /\ loadBootstrapKey env (btKV b') = Ok (Some key).
Proof.
  intros Hk Hw. unfold storeBootstrapKey. fold (bootRecord env key). destruct (marshalBoot _) as [data|] eqn:Em; [|done].
  pose proof (kvSet_get (btKV b) (namespaceBootstrapKVKey (bnNamespace env)) data) as Hset.
  destruct (kvSet _ _ _) as [kv [[]|]] eqn:Es; [|done]. intros [= <-]. split; [done|]. unfold loadBootstrapKey. cbn [btKV].
  rewrite (Hset kv eq_refl), decide_True by done. rewrite bool_decide_false by (by eapply marshalBoot_nonempty).
  rewrite (unmarshal_marshalBoot _ _ Hw Em). cbn [bootRecord nbNamespace nbKey]. rewrite (bool_decide_true (_ = _)) by done.
  by rewrite b64_roundtrip, (proj2 (Z.eqb_eq _ _) Hk).
Qed.

Lemma publishBootstrapKey_ok env key (b b' : Boot B) :
  slen key = KeySize -> wire_boot (bootRecord env key) -> publishBootstrapKey env key b = (b', Ok tt) ->
  btCache b' = btCache b /\ loadBootstrapKey env (btKV b') = Ok (Some key).
Proof.
  intros Hk Hw. unfold publishBootstrapKey. destruct (loadBootstrapKey env (btKV b)) as [[old|]|] eqn:El; [| |done].
  - case_bool_decide as He; [|done]. intros [= <-]. by subst old.
  - by apply storeBootstrapKey_ok.
Qed.

(** The derived key: the identity's seed, salted with the namespace. *)
Lemma deriveP2PNamespaceKey_size env key : deriveP2PNamespaceKey env = Ok key -> slen key = KeySize.
Proof.
  unfold deriveP2PNamespaceKey. destruct (bnIdentityPriv env) as [priv|]; [|done]. case_bool_decide; [done|].
  intros [= <-]. apply hkdf_length.
Qed.

(** After a bootstrap that succeeds, the key this device has
    cached for the secrets namespace is the key of the shared record, whatever
    was cached or published before; a second bootstrap changes nothing. *)
Theorem secrets_bootstrap_agrees env (b b' : Boot B)
  (Hcache : forall key, btCache b = Some key -> slen key = KeySize)
  (Hwrites : bnCacheWrites env = true) (Hwire : forall key, wire_boot (bootRecord env key))
  (Hrun : ensureNamespaceBootstrap env b = (b', Ok tt)) :
  (exists key, btCache b' = Some key /\ loadBootstrapKey env (btKV b') = Ok (Some key)) /\
  ensureNamespaceBootstrap env b' = (b', Ok tt).
Proof.
  assert (exists key, btCache b' = Some key /\ loadBootstrapKey env (btKV b') = Ok (Some key)) as (key & Hc & Hl).
  2: { split; [by exists key|]. unfold ensureNamespaceBootstrap. by rewrite Hc, Hl, bool_decide_true. }
  unfold ensureNamespaceBootstrap in Hrun. destruct (loadBootstrapKey env (btKV b)) as [shared|] eqn:El; [|done].
  pose proof (deriveP2PNamespaceKey_size env) as Hd. unfold CacheKeyLocally in Hrun. rewrite Hwrites in Hrun.
  destruct (btCache b) as [local|] eqn:Ec, shared as [shared|].
  - case_bool_decide as He; [injection Hrun as <-; exists local; by subst|].
    destruct (deriveP2PNamespaceKey env) as [derived|]; [|done]. case_bool_decide as Hld.
    + apply storeBootstrapKey_ok in Hrun as [Hc Hl]; [|by apply Hcache|done]. by exists local.
    + case_bool_decide; [|done]. injection Hrun as <-. by exists shared.
  - apply publishBootstrapKey_ok in Hrun as [Hc Hl]; [|by apply Hcache|done]. exists local. by rewrite Hc.
  - injection Hrun as <-. by exists shared.
  - destruct (deriveP2PNamespaceKey env) as [derived|]; [|done].
    apply publishBootstrapKey_ok in Hrun as [Hc Hl]; [|by apply Hd|done]. by exists derived.
Qed.

End BootFacts.

(** ** Two devices over a map *)

Module Demo.
Import Seal.Demo Identity.Demo.

Lemma decAll_enough l n : (length l <= n)%nat -> decAll n (encAll l) = l.
Proof.
  revert n. induction l as [|s l IH]; intros [|n] Hn; simpl in Hn; try done; [lia|].
  cbn [decAll encAll foldr]. rewrite dec_enc. f_equal. apply IH. lia.
Qed.

Lemma length_encAll l : (length l <= String.length (encAll l))%nat.
Proof.
  induction l as [|s l IH]; [done|]. change (encAll (s :: l)) with (enc s +:+ encAll l). cbn [length].
  rewrite str_length_app. unfold enc. rewrite str_length_app.
  assert (0 < String.length (ones (String.length s)))%nat by (destruct (String.length s); apply Nat.lt_0_succ).
  lia.
Qed.

Definition decFields (s : string) : list string := decAll (String.length s) s.

Lemma decFields_encAll l : decFields (encAll l) = l.
Proof. apply decAll_enough, length_encAll. Qed.

Definition keyFields (k : wrappedKey) : string := encAll [wkRecipientType k; wkRecipientID k; wkWrappedKey k].
Definition keyOf (s : string) : wrappedKey := match decFields s with [t; i; w] => mkWrappedKey t i w | _ => mkWrappedKey "" "" "" end.

Lemma keyOf_keyFields k : keyOf (keyFields k) = k.
Proof. destruct k. unfold keyOf, keyFields. by rewrite decFields_encAll. Qed.

Definition encBool (b : bool) : string := if b then "1" else "0".
Definition eof {A} : result string A := Err "unexpected end of input".

Definition encHead (h : headPayload) : string :=
  encAll [hdSecretID h; hdName h; hdKind h; hdContentType h; hdScope h; hdLatestVersionID h; Itoa (hdSize h); hdSHA256 h;
    Itoa (hdCreatedAt h); Itoa (hdUpdatedAt h); encAll (hdRecipients h); encAll (apAllowedAgents (hdPolicy h));
    encBool (apRequireApproval (hdPolicy h))].
Definition decHead (s : string) : result string headPayload :=
  match decFields s with
  | [i; n; k; ct; sc; v; sz; sha; c; u; rs; ags; ap] =>
      Ok (mkHead i n k ct sc v (parseTime sz) sha (parseTime c) (parseTime u) (decFields rs)
            (mkPolicy (decFields ags) (bool_decide (ap = "1"))))
  | _ => eof
  end.

Definition encVersion (v : versionPayload) : string :=
  encAll [vrSecretID v; vrVersionID v; vrKind v; vrContentType v; Itoa (vrSize v); vrSHA256 v; Itoa (vrChunkCount v); Itoa (vrCreatedAt v)].
Definition decVersion (s : string) : result string versionPayload :=
  match decFields s with
  | [i; v; k; ct; sz; sha; n; c] => Ok (mkVersion i v k ct (parseTime sz) sha (parseTime n) (parseTime c))
  | _ => eof
  end.

Definition encBoot (r : namespaceBootstrapRecord) : string :=
  encAll [Itoa (nbVersion r); nbNamespace r; nbKey r; nbSourceDeviceID r; Itoa (nbCreatedAt r)].
Definition decBoot (s : string) : result string namespaceBootstrapRecord :=
  match decFields s with [v; n; k; d; t] => Ok (mkBootRecord (parseTime v) n k d (parseTime t)) | _ => eof end.

(** Sealed values are of version 1. *)
#[export] Instance vaultJSON : SecretsJSON.
Proof.
  refine {|
    marshalSealed v := if bool_decide (svVersion v = 1) then Ok (encAll (svCiphertext v :: map keyFields (svWrappedKeys v)))
                       else Err "unsupported version";
    unmarshalSealed s := match decFields s with c :: ks => Ok (mkSealed 1 (map keyOf ks) c) | [] => eof end;
    marshalHead h := Ok (encHead h); unmarshalHead := decHead;
    marshalVersion v := Ok (encVersion v); unmarshalVersion := decVersion;
    marshalBoot r := Ok (encBoot r); unmarshalBoot := decBoot;
    checksumHex s := Itoa (slen s);
    wire_string _ := True;
    wire_head h := decHead (encHead h) = Ok h;
    wire_version v := decVersion (encVersion v) = Ok v;
    wire_boot r := decBoot (encBoot r) = Ok r |}.
  - intros [v ks c] data _ Hm. cbv beta in Hm. cbn [svVersion svWrappedKeys svCiphertext] in Hm.
    destruct (bool_decide_reflect (v = 1)) as [->|]; [|done].
    assert (data = encAll (c :: map keyFields ks)) as -> by congruence. rewrite decFields_encAll. do 2 f_equal.
    rewrite map_map. clear. induction ks as [|k ks IH]; [done|]. simpl. by rewrite keyOf_keyFields, IH.
  - by intros v data Hw [= <-].
  - by intros v data Hw [= <-].
  - by intros v data Hw [= <-].
  - intros v data [= <-]. unfold encBoot. cbn [encAll foldr]. unfold enc. rewrite !str_app_assoc.
    destruct (String.length (Itoa (nbVersion v))); done.
Defined.

(** The second device's key pair, as the first one's. *)
Definition pubA : string := edPublic seedA.
Definition pubB : string := edPublic seedB.
Definition entryA : DeviceEntry := mkDevice pubA "desktop" "trusted" 0.
Definition entryB : DeviceEntry := mkDevice pubB "laptop" "trusted" 0.
Definition idA : string := deviceIDFromPublicKey pubA.
Definition idB : string := deviceIDFromPublicKey pubB.
Definition lower (s : string) : string := s.
Definition cfgA : SecretsConfig := mkConfig pubA (privateKey seedA) idA [entryA; entryB].
Definition cfgB : SecretsConfig := mkConfig pubB (privateKey seedB) idB [entryA; entryB].
Definition sealA : SealEnv := mkSealEnv (fun _ => ephA) (fun _ => "nonce-12byte") "nonce-12byte".
Definition dataKeyA : string := "data-key-of-thirty-two-bytes-xyz".
Definition randomIDs (n : nat) : string := match n with O => "5ec1" | _ => "7e5" end.
Definition envA : SecretsEnv := mkSecretsEnv (Ok tt) dataKeyA randomIDs "nonce-12byte" sealA sealA (fun _ => 1000).
Definition noStore : gmap string string := ∅.
Definition putA (scope : string) : PutParams := mkPut "" "api-key" "" "" scope "hunter2" [] (mkPolicy [] false).

(** Trusted by default to both devices. *)
Definition putRun := secretsPut lower cfgA envA noStore (putA ScopeTrusted).
Definition noSummary : SecretSummary := mkSummary "" "" "" "" "" 0 "" 0 0 [] (mkPolicy [] false).
Definition summaryA : SecretSummary := match putRun.2 with Ok x => x | Err _ => noSummary end.

Lemma putRun_ok : putRun = (putRun.1, Ok summaryA).
Proof. vm_compute. reflexivity. Qed.

Lemma recipientB : recipient seedB ephA.
Proof. split; [done|vm_compute; reflexivity|by eexists]. Qed.

Definition rsA : list recipientRef :=
  match resolveRecipients lower cfgA ScopeTrusted [] with Ok rs => rs | Err _ => [] end.
Definition preparedA : PutParams := mkPut "" "api-key" KindBlob "application/octet-stream" ScopeTrusted "hunter2" [] (mkPolicy [] false).

Lemma rsA_keys : map rcPublicKey rsA = [pubA; pubB] \/ map rcPublicKey rsA = [pubB; pubA].
Proof. vm_compute. tauto. Qed.

Definition foreignB (r : recipientRef) : bool :=
  bool_decide (rcPublicKey r = pubB) ||
  match WrapKey ephA "nonce-12byte" dataKeyA (rcPublicKey r) with
  | Ok sealed => negb (is_ok (UnwrapKey sealed (privateKey seedB)))
  | Err _ => true
  end.

Lemma foreign_rsA : forallb foreignB rsA = true.
Proof. vm_compute. reflexivity. Qed.

Lemma good_sealA : good_seal sealA seedB dataKeyA rsA.
Proof.
  split; [done|done|intros n; apply recipientB|done|]. intros n r sealed Hr Hne Hw.
  pose proof (proj1 (forallb_forall _ _) foreign_rsA r (proj1 (list_elem_of_In _ _) Hr)) as Hf.
  unfold foreignB in Hf. rewrite bool_decide_false in Hf by done. cbn [slEphemeral slWrapNonce sealA] in Hw. rewrite Hw in Hf.
  by apply negb_true_iff in Hf.
Qed.

Lemma parseTime_Itoa n : int64_range n -> parseTime (Itoa n) = n.
Proof. intros H. unfold parseTime. by rewrite ParseInt_Itoa. Qed.

Lemma wire_version_ok v :
  int64_range (vrSize v) -> int64_range (vrChunkCount v) -> int64_range (vrCreatedAt v) -> wire_version v.
Proof.
  intros H1 H2 H3. change (decVersion (encVersion v) = Ok v). unfold decVersion, encVersion. rewrite decFields_encAll.
  rewrite !parseTime_Itoa by done. by destruct v.
Qed.

Lemma prepared_ok : preparePut lower cfgA (putA ScopeTrusted) noStore = Ok (None, preparedA, rsA).
Proof. vm_compute. reflexivity. Qed.

Lemma listed_B : edPublic seedB ∈ map rcPublicKey rsA.
Proof. apply (bool_decide_eq_true_1 (edPublic seedB ∈ map rcPublicKey rsA)). vm_compute. reflexivity. Qed.

Lemma versions_wire n : 0 <= n <= 1000000 -> wire_version (newVersion envA (smID summaryA) (seRandomID envA 1) preparedA n).
Proof. intros Hn. apply wire_version_ok; unfold int64_range; cbn [newVersion vrSize vrChunkCount vrCreatedAt]; [done|lia|done]. Qed.

Lemma head_wire : wire_head (newHead envA (smID summaryA) (seRandomID envA 1) preparedA (smCreatedAt summaryA) rsA).
Proof. vm_compute. reflexivity. Qed.

Lemma ids_wire : Forall wire_string (recipientIDs rsA).
Proof. apply Forall_true. done. Qed.

Lemma summary_id : smID summaryA <> "".
Proof. by vm_compute. Qed.

Lemma secrets_put_get_witness :
  secretsGet lower cfgB (Ok tt) putRun.1 (smID summaryA) (mkRequester RequesterOwner "") = Ok (mkSecret summaryA (seRandomID envA 1) "hunter2").
Proof.
  pose proof (secrets_put_get lower cfgA cfgB seedB envA noStore (putA ScopeTrusted) putRun.1 summaryA None preparedA rsA
    eq_refl eq_refl eq_refl good_sealA good_sealA prepared_ok ids_wire versions_wire head_wire summary_id putRun_ok) as H.
  destruct (decide (edPublic seedB ∈ map rcPublicKey rsA)) as [|Hn]; [exact H|destruct (Hn listed_B)].
Defined.

(** The same secret shared explicitly with both devices. *)
Definition putE : PutParams := mkPut "" "api-key" "" "" ScopeExplicit "hunter2" [idA; idB] (mkPolicy [] false).
Definition sharedRun := secretsPut lower cfgA envA noStore putE.
Definition sharedStore : gmap string string := sharedRun.1.
Definition noHead : headPayload := mkHead "" "" "" "" "" "" 0 "" 0 0 [] (mkPolicy [] false).
Definition sharedHead : headPayload := match resolveHead lower cfgA "api-key" sharedStore with Ok h => h | Err _ => noHead end.
Definition noSecret : Secret := mkSecret noSummary "" "".
Definition sharedSecret : Secret :=
  match secretsGet lower cfgA (Ok tt) sharedStore "api-key" (mkRequester RequesterOwner "") with Ok x => x | Err _ => noSecret end.
Definition toTrusted : RewrapParams := mkRewrap "api-key" ScopeTrusted [] (mkPolicy [] false).

Lemma shared_resolves : resolveHead lower cfgA "api-key" sharedStore = Ok sharedHead.
Proof. vm_compute. reflexivity. Qed.

Lemma shared_exists : findExisting lower cfgA (hdSecretID sharedHead) (hdName sharedHead) sharedStore = Ok (Some sharedHead).
Proof. vm_compute. reflexivity. Qed.

Lemma shared_get : secretsGet lower cfgA (Ok tt) sharedStore "api-key" (mkRequester RequesterOwner "") = Ok sharedSecret.
Proof. vm_compute. reflexivity. Qed.

Lemma shared_scope : hdScope sharedHead = ScopeExplicit.
Proof. vm_compute. reflexivity. Qed.

Lemma shared_recipients : hdRecipients sharedHead <> [].
Proof. by vm_compute. Qed.

Lemma shared_payload : scPayload sharedSecret <> "".
Proof. by vm_compute. Qed.

Lemma shared_name : hdName sharedHead <> "".
Proof. by vm_compute. Qed.

Lemma secrets_rewrap_explicit_stuck_witness :
  Rewrap lower cfgA envA sharedStore toTrusted =
    (sharedStore, Err ("scope " +:+ ScopeTrusted +:+ " does not accept explicit recipient devices")).
Proof.
  exact (secrets_rewrap_explicit_stuck lower cfgA envA sharedStore toTrusted sharedHead (Some sharedHead) sharedSecret
    eq_refl shared_resolves shared_scope shared_recipients shared_exists shared_get shared_payload shared_name (or_intror eq_refl)).
Defined.

Definition deleteRun := secretsDelete lower cfgA (Ok tt) sharedStore "api-key".

Lemma deleteRun_ok : deleteRun = (deleteRun.1, Ok tt).
Proof. vm_compute. reflexivity. Qed.

Lemma secrets_delete_exact_witness :
  (forall q, kvGet deleteRun.1 q = if decide (secret_key (hdSecretID sharedHead) q) then None else kvGet sharedStore q) /\
  (hdSecretID sharedHead <> "" ->
   resolveHead lower cfgA (hdSecretID sharedHead) deleteRun.1 = findHeadByName lower cfgA (hdSecretID sharedHead) deleteRun.1).
Proof. exact (secrets_delete_exact lower cfgA sharedStore "api-key" deleteRun.1 sharedHead shared_resolves deleteRun_ok). Defined.

Definition bootEnvA : BootEnv := mkBootEnv "secrets" idA (Some (privateKey seedA)) 1000 true.
Definition noBoot : Boot (gmap string string) := mkBoot None noStore.
Definition bootRun := ensureNamespaceBootstrap bootEnvA noBoot.

Lemma bootRun_ok : bootRun = (bootRun.1, Ok tt).
Proof. vm_compute. reflexivity. Qed.

Lemma boot_wire key : wire_boot (bootRecord bootEnvA key).
Proof.
  change (decBoot (encBoot (bootRecord bootEnvA key)) = Ok (bootRecord bootEnvA key)). unfold decBoot, encBoot.
  rewrite decFields_encAll. done.
Qed.

Lemma secrets_bootstrap_agrees_witness :
  (exists key, btCache bootRun.1 = Some key /\ loadBootstrapKey bootEnvA (btKV bootRun.1) = Ok (Some key)) /\
  ensureNamespaceBootstrap bootEnvA bootRun.1 = (bootRun.1, Ok tt).
Proof.
  refine (secrets_bootstrap_agrees bootEnvA noBoot bootRun.1 _ eq_refl boot_wire bootRun_ok). discriminate.
Defined.

End Demo.
