(* ===== verification/Messaging.v ===== *)
(** * Messaging: records and policies (pkg/messaging/types.go, policy, broker/policy.go)

    The normalized records of the messaging broker with their validation, the
    evaluation of a policy, policy documents and their review, and the policy
    that is effective for a connection and an exposure. *)

From stdpp Require Import base numbers list gmap strings.
From S2P Require Import Prelude GoStrings GoStrconv GoText.

(** ** Checks one after the other

    [e1 ;? e2] is the Go idiom [if err := e1; err != nil { return err }; e2]. *)

Declare Scope check_scope.
Delimit Scope check_scope with check.
Notation "e1 ;? e2" := (match e1 with Ok _ => e2 | Err err => Err err end)
  (at level 100, e2 at level 200, right associativity) : check_scope.
Open Scope check_scope.

Lemma check_ok {A} (e1 : result string unit) (e2 : result string A) x : (e1 ;? e2) = Ok x -> e1 = Ok tt /\ e2 = Ok x.
Proof. by destruct e1 as [[]|]. Qed.

Definition requireID (value field : string) : result string unit :=
  if isBlank value then Err (field +:+ " is required") else Ok tt.
Definition requireText (value field : string) : result string unit :=
  if isBlank value then Err (field +:+ " is required") else Ok tt.

(** The elements of a slice in order; the first error stops, with its index. *)
Fixpoint checkEach {A} (check : A -> result string unit) (field : string) (i : Z) (l : list A) : result string unit :=
  match l with
  | [] => Ok tt
  | x :: l =>
      match check x with
      | Err e => Err (field +:+ "[" +:+ Itoa i +:+ "]: " +:+ e)
      | Ok _ => checkEach check field (i + 1) l
      end
  end.

Definition wrapErr (what : string) (r : result string unit) : result string unit :=
  match r with Err e => Err (what +:+ ": " +:+ e) | Ok _ => Ok tt end.

(** ** Constants (types.go) *)

Definition AuthMethodNone : string := "none".
Definition ConnectionStatusUnknown : string := "unknown".
Definition ConnectionStatusConnected : string := "connected".
Definition ConnectionStatusDisabled : string := "disabled".
Definition IdentityKindBot : string := "bot".
Definition IdentityKindPage : string := "page".
Definition IdentityKindWebhook : string := "webhook".
Definition ParticipantKindBot : string := "bot".
Definition ParticipantKindPage : string := "page".
Definition ParticipantKindAccount : string := "account".
Definition ParticipantKindSystem : string := "system".
Definition MessageDirectionOutbound : string := "outbound".
Definition MessageStatusSent : string := "sent".
Definition MessageStatusFailed : string := "failed".
Definition DraftStatusPending : string := "pending".
Definition DraftStatusApprovalRequired : string := "approval_required".
Definition DraftStatusApproved : string := "approved".
Definition DraftStatusSending : string := "sending".
Definition DraftStatusSent : string := "sent".
Definition DraftStatusFailed : string := "failed".
Definition DraftStatusRejected : string := "rejected".
Definition ApprovalStatusPending : string := "pending".
Definition ApprovalStatusApproved : string := "approved".
Definition ApprovalStatusRejected : string := "rejected".
Definition ApprovalStatusExpired : string := "expired".
Definition ApprovalStatusCancelled : string := "cancelled".
Definition MessagePartKindText : string := "text".
Definition MessagePartKindMarkdown : string := "markdown".
Definition MessagePartKindHTML : string := "html".
Definition MessagePartKindFile : string := "file".
Definition MessagePartKindImage : string := "image".
Definition WorkflowStatusDrafted : string := "drafted".
Definition WorkflowStatusAwaitingApproval : string := "awaiting_approval".
Definition WorkflowStatusApproved : string := "approved".
Definition WorkflowStatusSending : string := "sending".
Definition WorkflowStatusSent : string := "sent".
Definition WorkflowStatusFailed : string := "failed".
Definition WorkflowStatusDismissed : string := "dismissed".
Definition EventTypeConnectionUpdated : string := "connection_updated".
Definition EventTypeIdentityDiscovered : string := "identity_discovered".
Definition EventTypeDraftUpdated : string := "draft_updated".
Definition EventTypeDraftSendRequested : string := "draft_send_requested".
Definition EventTypeDeliveryUpdated : string := "delivery_updated".
Definition EventTypeApprovalRequired : string := "approval_required".
Definition EventTypeApprovalResolved : string := "approval_resolved".

(** A [map[string]string]; [nil] and the empty map are not told apart. *)
Abbreviation Metadata := (gmap string string).

(** ** Records (types.go) *)

Record AuthInfo := mkAuth {
  auMethod : string; auCredentialRef : string; auExternalAccount : string; auTenantID : string; auExpiresAt : option Time;
  auScopes : list string
}.

Definition Configured (a : AuthInfo) : bool :=
  negb (isBlank (auMethod a)) || negb (isBlank (auCredentialRef a)) || negb (isBlank (auExternalAccount a))
  || negb (isBlank (auTenantID a)) || bool_decide (auExpiresAt a <> None) || (0 <? length (auScopes a))%nat.

Definition AuthInfo_Validate (a : AuthInfo) : result string unit :=
  if negb (Configured a) then Ok tt
  else if isBlank (auMethod a) then Err "auth method is required"
  else if bool_decide (auMethod a <> AuthMethodNone) && isBlank (auCredentialRef a) then Err "auth credential_ref is required"
  else checkEach (fun s => requireText s "scope") "auth scopes" 0 (auScopes a).

Record Connection := mkConnection {
  cnID : string; cnAdapterID : string; cnLabel : string; cnStatus : string; cnAuth : AuthInfo; cnDefaultPolicyID : string;
  cnMetadata : Metadata; cnConnectedAt : Time; cnUpdatedAt : Time
}.

Definition Connection_Validate (c : Connection) : result string unit :=
  requireID (cnID c) "connection id" ;?
  requireID (cnAdapterID c) "connection adapter_id" ;?
  requireText (cnLabel c) "connection label" ;?
  wrapErr "connection auth" (AuthInfo_Validate (cnAuth c)).

Record Identity := mkIdentity {
  idID : string; idConnectionID : string; idKind : string; idRemoteID : string; idAddress : string; idDisplayName : string;
  idCanReceive : bool; idCanSend : bool; idIsDefault : bool; idMetadata : Metadata
}.

Definition Identity_Validate (i : Identity) : result string unit :=
  requireID (idID i) "identity id" ;?
  requireID (idConnectionID i) "identity connection_id" ;?
  requireText (idKind i) "identity kind" ;?
  if isBlank (idRemoteID i) && isBlank (idAddress i) then Err "identity remote_id or address is required" else Ok tt.

Record Participant := mkParticipant {
  paID : string; paKind : string; paRemoteID : string; paAddress : string; paDisplayName : string; paIdentityID : string;
  paIsLocal : bool; paMetadata : Metadata
}.

Definition Participant_Validate (p : Participant) : result string unit :=
  requireText (paKind p) "participant kind" ;?
  if isBlank (paID p) && isBlank (paRemoteID p) && isBlank (paAddress p) && isBlank (paDisplayName p) && isBlank (paIdentityID p)
  then Err "participant identity is required" else Ok tt.

Record Conversation := mkConversation {
  cvID : string; cvConnectionID : string; cvLocalIdentityID : string; cvKind : string; cvRemoteID : string; cvTitle : string;
  cvParticipants : list Participant; cvParentID : string; cvMetadata : Metadata
}.

Definition Conversation_Validate (c : Conversation) : result string unit :=
  requireID (cvID c) "conversation id" ;?
  requireID (cvConnectionID c) "conversation connection_id" ;?
  requireID (cvLocalIdentityID c) "conversation local_identity_id" ;?
  requireText (cvKind c) "conversation kind" ;?
  checkEach Participant_Validate "conversation participants" 0 (cvParticipants c).

Record Container := mkContainer {
  ctID : string; ctConnectionID : string; ctKind : string; ctName : string; ctRemoteID : string; ctMetadata : Metadata
}.

Definition Container_Validate (c : Container) : result string unit :=
  requireID (ctID c) "container id" ;?
  requireID (ctConnectionID c) "container connection_id" ;?
  requireText (ctKind c) "container kind" ;?
  requireText (ctName c) "container name".

Record Placement := mkPlacement {
  plMessageID : string; plConnectionID : string; plContainerID : string; plRemoteID : string; plMetadata : Metadata
}.

Definition Placement_Validate (p : Placement) : result string unit :=
  requireID (plMessageID p) "placement message_id" ;?
  requireID (plConnectionID p) "placement connection_id" ;?
  requireID (plContainerID p) "placement container_id".

Record MessagePart := mkPart {
  mpKind : string; mpContentType : string; mpText : string; mpFileName : string; mpRef : string; mpSizeBytes : Z; mpMetadata : Metadata
}.

Definition isTextKind (kind : string) : bool :=
  bool_decide (kind = MessagePartKindText) || bool_decide (kind = MessagePartKindMarkdown) || bool_decide (kind = MessagePartKindHTML).
Definition isFileKind (kind : string) : bool :=
  bool_decide (kind = MessagePartKindFile) || bool_decide (kind = MessagePartKindImage).

Definition MessagePart_Validate (p : MessagePart) : result string unit :=
  (if isTextKind (mpKind p) then
     if isBlank (mpText p) then Err "message part text is required" else Ok tt
   else if isFileKind (mpKind p) then
     if isBlank (mpRef p) && isBlank (mpFileName p) then Err "message part ref or file_name is required" else Ok tt
   else Err "message part kind is required") ;?
  if mpSizeBytes p <? 0 then Err "message part size_bytes must be >= 0" else Ok tt.

Record Message := mkMessage {
  msID : string; msConnectionID : string; msConversationID : string; msLocalIdentityID : string; msRemoteID : string;
  msDirection : string; msSender : Participant; msParts : list MessagePart; msCreatedAt : Time; msEditedAt : option Time;
  msReplyToRemoteID : string; msStatus : string; msMetadata : Metadata
}.

Definition Message_Validate (m : Message) : result string unit :=
  requireID (msID m) "message id" ;?
  requireID (msConnectionID m) "message connection_id" ;?
  requireID (msConversationID m) "message conversation_id" ;?
  requireID (msLocalIdentityID m) "message local_identity_id" ;?
  requireText (msDirection m) "message direction" ;?
  wrapErr "message sender" (Participant_Validate (msSender m)) ;?
  (if bool_decide (msParts m = []) then Err "message parts are required" else Ok tt) ;?
  checkEach MessagePart_Validate "message parts" 0 (msParts m) ;?
  if time_IsZero (msCreatedAt m) then Err "message created_at is required" else Ok tt.

Record Draft := mkDraft {
  drID : string; drConnectionID : string; drConversationID : string; drLocalIdentityID : string; drApprovalID : string;
  drReplyToRemoteID : string; drParts : list MessagePart; drStatus : string; drMetadata : Metadata
}.

Definition Draft_Validate (d : Draft) : result string unit :=
  requireID (drID d) "draft id" ;?
  requireID (drConnectionID d) "draft connection_id" ;?
  requireID (drConversationID d) "draft conversation_id" ;?
  requireID (drLocalIdentityID d) "draft local_identity_id" ;?
  (if bool_decide (drParts d = []) then Err "draft parts are required" else Ok tt) ;?
  checkEach MessagePart_Validate "draft parts" 0 (drParts d) ;?
  requireText (drStatus d) "draft status".

Record Approval := mkApproval {
  apID : string; apConnectionID : string; apDraftID : string; apWorkflowID : string; apPolicyID : string; apExposureID : string;
  apMailboxItemID : string; apAction : string; apSummary : string; apReason : string; apStatus : string; apRequestedBy : string;
  apRequestedAt : Time; apResolvedBy : string; apResolvedAt : option Time; apMetadata : Metadata
}.

Definition Approval_Validate (a : Approval) : result string unit :=
  requireID (apID a) "approval id" ;?
  requireID (apConnectionID a) "approval connection_id" ;?
  requireID (apDraftID a) "approval draft_id" ;?
  requireID (apWorkflowID a) "approval workflow_id" ;?
  requireText (apAction a) "approval action" ;?
  requireText (apSummary a) "approval summary" ;?
  requireText (apStatus a) "approval status" ;?
  if time_IsZero (apRequestedAt a) then Err "approval requested_at is required" else Ok tt.

Record PolicyRules := mkRules {
  ruReadInbound : bool; ruCreateDrafts : bool; ruSendMessages : bool; ruRequireApproval : bool; ruReplyOnly : bool;
  ruAllowNewConversations : bool; ruAllowAttachments : bool; ruMarkRead : bool; ruManageMessages : bool;
  ruAllowedContainerIDs : list string; ruSearchIdentities : bool; ruSearchConversations : bool; ruSearchMessages : bool;
  ruAllowedIdentityIDs : list string
}.

Definition PolicyRules_Validate (r : PolicyRules) : result string unit :=
  checkEach (fun i => requireID i "identity id") "policy rules allowed_identity_ids" 0 (ruAllowedIdentityIDs r) ;?
  checkEach (fun i => requireID i "container id") "policy rules allowed_container_ids" 0 (ruAllowedContainerIDs r).

Record Policy := mkPolicy { poID : string; poName : string; poRules : PolicyRules; poMetadata : Metadata }.

Definition Policy_Validate (p : Policy) : result string unit :=
  requireID (poID p) "policy id" ;?
  requireText (poName p) "policy name" ;?
  PolicyRules_Validate (poRules p).

Record Exposure := mkExposure {
  exID : string; exConnectionID : string; exSubjectID : string; exSubjectKind : string; exPolicyID : string; exEnabled : bool;
  exMetadata : Metadata
}.

Definition Exposure_Validate (e : Exposure) : result string unit :=
  requireID (exID e) "exposure id" ;?
  requireID (exConnectionID e) "exposure connection_id" ;?
  requireText (exSubjectID e) "exposure subject_id" ;?
  requireText (exSubjectKind e) "exposure subject_kind".

Record Workflow := mkWorkflow {
  wfID : string; wfKind : string; wfStatus : string; wfSourceConnectionID : string; wfSourceIdentityID : string;
  wfSourceConversationID : string; wfSourceMessageID : string; wfOperatorConnectionID : string; wfOperatorMessageID : string;
  wfRuleID : string; wfPolicyID : string; wfExposureID : string; wfSender : Participant; wfSubject : string; wfSummary : string;
  wfDraftID : string; wfApprovalID : string; wfOutboundMessageID : string; wfSourceCreatedAt : option Time; wfBrokerReceivedAt : Time;
  wfRuleMatchedAt : option Time; wfDraftCreatedAt : option Time; wfOperatorNotifiedAt : option Time;
  wfOperatorRespondedAt : option Time; wfApprovedAt : option Time; wfSendRequestedAt : option Time; wfSourceSentAt : option Time;
  wfFulfilledAt : option Time; wfLastActivityAt : Time; wfNeedsAttention : bool; wfAttentionReason : string; wfError : string;
  wfMetadata : Metadata
}.

Definition Workflow_Validate (w : Workflow) : result string unit :=
  requireID (wfID w) "workflow id" ;?
  requireText (wfKind w) "workflow kind" ;?
  requireText (wfStatus w) "workflow status" ;?
  requireID (wfSourceConnectionID w) "workflow source_connection_id" ;?
  wrapErr "workflow sender" (Participant_Validate (wfSender w)) ;?
  (if time_IsZero (wfBrokerReceivedAt w) then Err "workflow broker_received_at is required" else Ok tt) ;?
  if time_IsZero (wfLastActivityAt w) then Err "workflow last_activity_at is required" else Ok tt.

Record ActivityEvent := mkActivity {
  aeID : string; aeWorkflowID : string; aeType : string; aeOccurredAt : Time; aeConnectionID : string; aeConversationID : string;
  aeMessageID : string; aeDraftID : string; aeExposureID : string; aeMetadata : Metadata; aeError : string
}.

Definition ActivityEvent_Validate (e : ActivityEvent) : result string unit :=
  requireID (aeID e) "activity event id" ;?
  requireID (aeWorkflowID e) "activity event workflow_id" ;?
  requireText (aeType e) "activity event type" ;?
  if time_IsZero (aeOccurredAt e) then Err "activity event occurred_at is required" else Ok tt.

Record Event := mkEvent {
  evID : string; evType : string; evConnectionID : string; evConversationID : string; evMessageID : string; evDraftID : string;
  evExposureID : string; evTimestamp : Time; evMetadata : Metadata
}.

Definition Event_Validate (e : Event) : result string unit :=
  requireID (evID e) "event id" ;?
  requireText (evType e) "event type" ;?
  requireID (evConnectionID e) "event connection_id" ;?
  if time_IsZero (evTimestamp e) then Err "event timestamp is required" else Ok tt.

(** ** Policies (policy/policy.go) *)

Inductive Outcome := OutcomeAllow | OutcomeRequireApproval | OutcomeDeny.

#[export] Instance Outcome_eq_dec : EqDecision Outcome.
Proof. solve_decision. Defined.

(** A Go string that names a scope: the three known ones, or another. *)
Inductive SearchScope := SearchScopeIdentities | SearchScopeConversations | SearchScopeMessages | SearchScopeOther (name : string).

Record Decision := mkDecision { dcOutcome : Outcome; dcPolicyID : string; dcReason : string }.

Definition Allowed (d : Decision) : bool :=
  bool_decide (dcOutcome d = OutcomeAllow) || bool_decide (dcOutcome d = OutcomeRequireApproval).
Definition RequiresApproval (d : Decision) : bool := bool_decide (dcOutcome d = OutcomeRequireApproval).

Definition allow (policyID : string) : Decision := mkDecision OutcomeAllow policyID "".
Definition requireApproval (policyID reason : string) : Decision := mkDecision OutcomeRequireApproval policyID reason.
Definition deny (policyID reason : string) : Decision := mkDecision OutcomeDeny policyID reason.

Record DraftInput := mkDraftInput { diIdentity : string; diHasAttachments : bool }.
Record SendInput := mkSendInput { siIdentity : string; siHasAttachments : bool; siNewConversation : bool }.
Record ManageInput := mkManageInput { miDestination : string; miAdd : list string; miRemove : list string }.

(** [Decision{}] is [None]. *)
Definition validateIdentity (policy : Policy) (requested : string) : option Decision :=
  if bool_decide (ruAllowedIdentityIDs (poRules policy) = []) || bool_decide (requested = "") then None
  else if existsb (fun a => bool_decide (a = requested)) (ruAllowedIdentityIDs (poRules policy)) then None
  else Some (deny (poID policy) ("policy does not allow identity " +:+ requested)).

Definition validateContainer (policy : Policy) (requested : string) : option Decision :=
  if bool_decide (ruAllowedContainerIDs (poRules policy) = []) || bool_decide (requested = "") then None
  else if existsb (fun a => bool_decide (a = requested)) (ruAllowedContainerIDs (poRules policy)) then None
  else Some (deny (poID policy) ("policy does not allow container " +:+ requested)).

Definition managedContainerIDs (input : ManageInput) : list string :=
  (if bool_decide (miDestination input = "") then [] else [miDestination input]) ++ miAdd input ++ miRemove input.

Definition ReadInbound (policy : Policy) : Decision :=
  if negb (ruReadInbound (poRules policy)) then deny (poID policy) "policy does not allow reading inbound messages"
  else allow (poID policy).

Definition CreateDraft (policy : Policy) (input : DraftInput) : Decision :=
  if negb (ruCreateDrafts (poRules policy)) then deny (poID policy) "policy does not allow draft creation"
  else match validateIdentity policy (diIdentity input) with
  | Some denied => denied
  | None =>
      if diHasAttachments input && negb (ruAllowAttachments (poRules policy))
      then deny (poID policy) "policy does not allow attachments"
      else allow (poID policy)
  end.

Definition SendMessage (policy : Policy) (input : SendInput) : Decision :=
  let rules := poRules policy in
  if negb (ruSendMessages rules) then deny (poID policy) "policy does not allow sending messages"
  else match validateIdentity policy (siIdentity input) with
  | Some denied => denied
  | None =>
      if siHasAttachments input && negb (ruAllowAttachments rules) then deny (poID policy) "policy does not allow attachments"
      else if siNewConversation input && ruReplyOnly rules
      then deny (poID policy) "policy only allows replies in existing conversations"
      else if siNewConversation input && negb (ruAllowNewConversations rules)
      then deny (poID policy) "policy does not allow starting new conversations"
      else if ruRequireApproval rules then requireApproval (poID policy) "policy requires approval before sending"
      else allow (poID policy)
  end.

Definition MarkRead (policy : Policy) : Decision :=
  if negb (ruMarkRead (poRules policy)) then deny (poID policy) "policy does not allow marking messages read" else allow (poID policy).

Fixpoint checkContainers (policy : Policy) (ids : list string) : Decision :=
  match ids with
  | [] => allow (poID policy)
  | i :: ids => match validateContainer policy i with Some denied => denied | None => checkContainers policy ids end
  end.

Definition ManageMessages (policy : Policy) (input : ManageInput) : Decision :=
  if negb (ruManageMessages (poRules policy)) then deny (poID policy) "policy does not allow message management"
  else checkContainers policy (managedContainerIDs input).

Definition Search (policy : Policy) (scope : SearchScope) : Decision :=
  let rules := poRules policy in
  match scope with
  | SearchScopeIdentities =>
      if negb (ruSearchIdentities rules) then deny (poID policy) "policy does not allow identity search" else allow (poID policy)
  | SearchScopeConversations =>
      if negb (ruSearchConversations rules) then deny (poID policy) "policy does not allow conversation search" else allow (poID policy)
  | SearchScopeMessages =>
      if negb (ruSearchMessages rules) then deny (poID policy) "policy does not allow message search" else allow (poID policy)
  | SearchScopeOther name => deny (poID policy) ("unsupported search scope " +:+ name)
  end.

(** ** Policy documents (policy/document.go) *)

Definition DocumentKind : string := "sky10.messaging.policy".
Definition DocumentVersion : string := "v1alpha1".
Definition actorTypeAI : string := "ai".
Definition actorTypeHuman : string := "human".
Definition actorTypeSystem : string := "system".

Record PolicySpec := mkSpec { psID : string; psName : string; psRules : PolicyRules; psMetadata : Metadata }.
Record Binding := mkBinding { biConnectionID : string; biExposureID : string }.
Record Actor := mkActor { acType : string; acName : string; acModel : string; acPromptRef : string; acCreatedAt : option Time }.
Record Review := mkReview { rvRequired : bool; rvApprovedBy : string; rvApprovedAt : option Time; rvNotes : string }.
Record Document := mkDocument {
  doKind : string; doVersion : string; doIntent : string; doPolicy : PolicySpec; doBindings : list Binding;
  doGeneratedBy : option Actor; doReview : Review; doMetadata : Metadata
}.

Definition IsAI (a : Actor) : bool := bool_decide (TrimSpace (acType a) = actorTypeAI).

Definition Actor_Validate (a : Actor) : result string unit :=
  let t := TrimSpace (acType a) in
  (if bool_decide (t = actorTypeAI) || bool_decide (t = actorTypeHuman) || bool_decide (t = actorTypeSystem) then Ok tt
   else Err "generated_by.type, want ai, human, or system") ;?
  requireText (acName a) "generated_by.name".

Definition Binding_Validate (b : Binding) : result string unit :=
  if bool_decide (biConnectionID b = "") && bool_decide (biExposureID b = "") then Err "connection_id or exposure_id is required" else Ok tt.

(** The file's rules have the shape of the broker's, so [MessagingRules] is the
    identity. *)
Definition Document_Validate (d : Document) : result string unit :=
  (if bool_decide (TrimSpace (doKind d) <> DocumentKind) then Err "policy document kind" else Ok tt) ;?
  (if bool_decide (TrimSpace (doVersion d) <> DocumentVersion) then Err "policy document version" else Ok tt) ;?
  requireText (doIntent d) "policy document intent" ;?
  requireID (psID (doPolicy d)) "policy id" ;?
  requireText (psName (doPolicy d)) "policy name" ;?
  PolicyRules_Validate (psRules (doPolicy d)) ;?
  (match doGeneratedBy d with
   | None => Ok tt
   | Some a =>
       Actor_Validate a ;?
       if IsAI a && negb (rvRequired (doReview d)) then Err "ai-generated policy documents must set review.required" else Ok tt
   end) ;?
  checkEach Binding_Validate "bindings" 0 (doBindings d).

(** Keys are trimmed and empty ones dropped; the order of the range is an
    argument. *)
Definition cloneMetadata (order : Metadata -> list (string * string)) (m : Metadata) : Metadata :=
  foldl (fun cloned '(k, v) => let k := TrimSpace k in if bool_decide (k = "") then cloned else <[k := v]> cloned) ∅ (order m).

Definition setIf (b : bool) (k v : string) (m : Metadata) : Metadata := if b then <[k := v]> m else m.

Definition policyMetadata (order : Metadata -> list (string * string)) (format : Time -> string) (d : Document) : Metadata :=
  let m := map_fold (fun k v m => <[k := v]> m) (cloneMetadata order (doMetadata d)) (cloneMetadata order (psMetadata (doPolicy d))) in
  let m := <["policy_intent" := doIntent d]> (<["policy_document_version" := doVersion d]> (<["policy_document_kind" := doKind d]> m)) in
  let m := match doGeneratedBy d with
    | None => m
    | Some a =>
        let m := <["policy_generated_by_name" := acName a]> (<["policy_generated_by_type" := acType a]> m) in
        let m := setIf (negb (isBlank (acModel a))) "policy_generated_by_model" (acModel a) m in
        setIf (negb (isBlank (acPromptRef a))) "policy_generated_by_prompt_ref" (acPromptRef a) m
    end in
  let m := setIf (rvRequired (doReview d)) "policy_review_required" "true" m in
  let m := setIf (negb (isBlank (rvApprovedBy (doReview d)))) "policy_review_approved_by" (rvApprovedBy (doReview d)) m in
  match rvApprovedAt (doReview d) with
  | Some t => setIf (negb (time_IsZero t)) "policy_review_approved_at" (format t) m
  | None => m
  end.

Definition CompilePolicy (order : Metadata -> list (string * string)) (format : Time -> string) (d : Document) : result string Policy :=
  Document_Validate d ;?
  let policy := mkPolicy (psID (doPolicy d)) (psName (doPolicy d)) (psRules (doPolicy d)) (policyMetadata order format d) in
  Policy_Validate policy ;?
  Ok policy.

Definition ReviewRequired (d : Document) : bool :=
  rvRequired (doReview d) || match doGeneratedBy d with Some a => IsAI a | None => false end.

Definition EnsureReviewedForApply (d : Document) : result string unit :=
  Document_Validate d ;?
  if negb (ReviewRequired d) then Ok tt
  else if isBlank (rvApprovedBy (doReview d)) || match rvApprovedAt (doReview d) with Some t => time_IsZero t | None => true end
  then Err "policy document requires human approval before apply" else Ok tt.

(** ** Facts about policies *)

(** The identity a message is sent as is among the allowed ones; none listed
    means that all are. *)
Definition identity_permitted (r : PolicyRules) (requested : string) : bool :=
  bool_decide (ruAllowedIdentityIDs r = []) || bool_decide (requested = "") || bool_decide (requested ∈ ruAllowedIdentityIDs r).

Definition send_permitted (r : PolicyRules) (i : SendInput) : bool :=
  ruSendMessages r && identity_permitted r (siIdentity i) && (negb (siHasAttachments i) || ruAllowAttachments r)
  && (negb (siNewConversation i) || negb (ruReplyOnly r) && ruAllowNewConversations r).

Lemma existsb_elem (l : list string) x : existsb (fun a => bool_decide (a = x)) l = bool_decide (x ∈ l).
Proof.
  apply eq_bool_prop_intro. rewrite bool_decide_spec. split.
  - intros (y & Hy & ->%bool_decide_eq_true_1)%Is_true_true%existsb_exists. by apply list_elem_of_In.
  - intros H. apply Is_true_true, existsb_exists. exists x. split; [by apply list_elem_of_In|by apply bool_decide_eq_true_2].
Qed.

Lemma validateIdentity_spec p i :
  validateIdentity p i = if identity_permitted (poRules p) i then None
                         else Some (deny (poID p) ("policy does not allow identity " +:+ i)).
Proof. unfold validateIdentity, identity_permitted. rewrite existsb_elem. by repeat case_bool_decide. Qed.

(** The decision about a message by the gates it passes: it goes out only where the
    policy sends, for a permitted identity, with attachments and into a new
    conversation only where these are allowed, and after an approval where one is
    required. *)
Lemma SendMessage_outcome p i :
  dcOutcome (SendMessage p i) =
    if send_permitted (poRules p) i then if ruRequireApproval (poRules p) then OutcomeRequireApproval else OutcomeAllow
    else OutcomeDeny.
Proof.
  unfold SendMessage, send_permitted. rewrite validateIdentity_spec.
  destruct (ruSendMessages _), (identity_permitted _ _), (siHasAttachments i), (ruAllowAttachments _), (siNewConversation i),
    (ruReplyOnly _), (ruAllowNewConversations _), (ruRequireApproval _); done.
Qed.

(** A document that a model wrote is not applied without a named
    human and a date. *)
Theorem policy_ai_needs_review d a
  (Hai : doGeneratedBy d = Some a) (Hmodel : IsAI a = true) (Hok : EnsureReviewedForApply d = Ok tt) :
  rvRequired (doReview d) = true /\ isBlank (rvApprovedBy (doReview d)) = false /\
  exists t, rvApprovedAt (doReview d) = Some t /\ time_IsZero t = false.
Proof.
  unfold EnsureReviewedForApply in Hok. apply check_ok in Hok as [Hv Hr]. unfold ReviewRequired in Hr. rewrite Hai, Hmodel, orb_true_r in Hr.
  simpl in Hr. destruct (isBlank _); [done|]. destruct (rvApprovedAt _) as [t|]; [|done]. simpl in Hr.
  destruct (time_IsZero t) eqn:Et; [done|]. split_and!; [|done|by exists t].
  unfold Document_Validate in Hv. rewrite Hai, Hmodel in Hv. repeat (apply check_ok in Hv as [? Hv]).
  match goal with H : (Actor_Validate a ;? _) = _ |- _ => apply check_ok in H as [_ H] end.
  by destruct (rvRequired _).
Qed.

(** ** A document *)

Module Demo.
Definition strictRules : PolicyRules :=
  mkRules true true true true true false false true true [] true true true ["identity-1"].
(** A document drafted by a model and approved by a human. *)
Definition reviewed : Document :=
  mkDocument DocumentKind DocumentVersion "answer support mail" (mkSpec "p1" "Support" strictRules ∅) [mkBinding "conn-1" ""]
    (Some (mkActor "ai" "assistant" "model-1" "" None)) (mkReview true "ana" (Some 100) "") ∅.
End Demo.

Lemma policy_ai_needs_review_witness :
  rvRequired (doReview Demo.reviewed) = true /\ isBlank (rvApprovedBy (doReview Demo.reviewed)) = false /\
  exists t, rvApprovedAt (doReview Demo.reviewed) = Some t /\ time_IsZero t = false.
Proof.
  apply (policy_ai_needs_review Demo.reviewed (mkActor "ai" "assistant" "model-1" "" None)); vm_compute; reflexivity.
Defined.
