(* ===== verification/MessagingStore.v ===== *)
(** * The messaging store (pkg/messaging/store: index.go, store.go, backend.go)

    The records of the broker in memory, each kind with secondary indexes by its
    parent, and the operations that validate a record, hand it to the backend
    and then index it.  Every secondary index is shown to agree with the primary
    map in every reachable state, and a reload to yield the index again. *)

From stdpp Require Import base numbers list gmap strings sorting.
From S2P Require Import Prelude GoStrings GoStrconv GoText Messaging.

(** ** Secondary indexes (index.go) *)

Abbreviation Index := (gmap string (list string)).

Definition appendUnique (items : list string) (value : string) : list string :=
  if existsb (fun x => bool_decide (x = value)) items then items else items ++ [value].

Definition idsOf (parent : string) (by_ : Index) : list string := default [] (by_ !! parent).

Definition addTo (parent ident : string) (by_ : Index) : Index := <[parent := appendUnique (idsOf parent by_) ident]> by_.

(** The functions [remove...From...]: an empty list is dropped from the map. *)
Definition removeFrom (parent ident : string) (by_ : Index) : Index :=
  match filter (fun x => x <> ident) (idsOf parent by_) with
  | [] => delete parent by_
  | filtered => <[parent := filtered]> by_
  end.

(** A record that was indexed below another parent leaves it. *)
Definition reindex (old : option string) (parent ident : string) (by_ : Index) : Index :=
  let by_ := match old with
    | Some p => if bool_decide (p = parent) then by_ else removeFrom p ident by_
    | None => by_
    end in
  addTo parent ident by_.

(** The index [by_] lists below every parent exactly the records of the map that
    have it as their parent. *)
Definition indexes {A} (parent : A -> string) (all : gmap string A) (by_ : Index) : Prop :=
  forall p, NoDup (idsOf p by_) /\
    forall k, k ∈ idsOf p by_ <-> exists x, all !! k = Some x /\ parent x = p.

Lemma elem_of_appendUnique l v k : k ∈ appendUnique l v <-> k ∈ l \/ k = v.
Proof.
  unfold appendUnique. rewrite existsb_elem. case_bool_decide as H; [set_solver|]. rewrite elem_of_app, list_elem_of_singleton. done.
Qed.

Lemma NoDup_appendUnique l v : NoDup l -> NoDup (appendUnique l v).
Proof.
  intros Hl. unfold appendUnique. rewrite existsb_elem. case_bool_decide as H; [done|].
  apply NoDup_app. split_and!; [done| |apply NoDup_singleton]. intros x Hx ->%list_elem_of_singleton. done.
Qed.

Lemma idsOf_addTo p parent ident by_ :
  idsOf p (addTo parent ident by_) = if decide (p = parent) then appendUnique (idsOf parent by_) ident else idsOf p by_.
Proof.
  unfold addTo, idsOf at 1. destruct (decide (p = parent)) as [->|]; [by rewrite lookup_insert_eq|by rewrite lookup_insert_ne].
Qed.

Lemma idsOf_removeFrom p parent ident by_ :
  idsOf p (removeFrom parent ident by_) =
    if decide (p = parent) then filter (fun x => x <> ident) (idsOf parent by_) else idsOf p by_.
Proof.
  unfold removeFrom. destruct (filter _ (idsOf parent by_)) eqn:E; unfold idsOf at 1; destruct (decide (p = parent)) as [->|].
  - by rewrite lookup_delete_eq.
  - by rewrite lookup_delete_ne.
  - by rewrite lookup_insert_eq.
  - by rewrite lookup_insert_ne.
Qed.

Lemma indexes_empty {A} (parent : A -> string) : indexes parent ∅ ∅.
Proof.
  intros p. unfold idsOf. rewrite lookup_empty. split; [constructor|]. intros k. split; [by intros ?%not_elem_of_nil|].
  intros (x & H & _). by rewrite lookup_empty in H.
Qed.

Lemma indexes_put {A} (parent : A -> string) all by_ k x :
  indexes parent all by_ -> indexes parent (<[k := x]> all) (reindex (parent <$> all !! k) (parent x) k by_).
Proof.
  intros H p. unfold reindex. set (by1 := match parent <$> all !! k with Some q => _ | None => _ end).
  assert (NoDup (idsOf p by1) /\ forall j, j ∈ idsOf p by1 <-> (j <> k \/ p = parent x /\ j ∈ idsOf p by_) /\ j ∈ idsOf p by_) as [Hnd H1].
  { destruct (H p) as [Hn Hp]. subst by1. destruct (all !! k) as [y|] eqn:Ey; simpl.
    - case_bool_decide as Hq.
      + split; [done|]. intros j. split; [|tauto]. intros Hj. split; [|done]. destruct (decide (j = k)) as [->|]; [|tauto].
        apply Hp in Hj as Hj'. destruct Hj' as (z & Hz & <-). right. split; [congruence|done].
      + rewrite idsOf_removeFrom. destruct (decide (p = parent y)) as [->|Hpy].
        * split; [by apply NoDup_filter|]. intros j. rewrite list_elem_of_filter. split; [tauto|]. intros [[?|[? _]] ?]; [done|congruence].
        * split; [done|]. intros j. split; [|tauto]. intros Hj. split; [|done]. left. intros ->.
          apply Hp in Hj as (z & Hz & Hzp). congruence.
    - split; [done|]. intros j. split; [|tauto]. intros Hj. split; [|done]. left. intros ->.
      apply Hp in Hj as (z & Hz & _). congruence. }
  rewrite idsOf_addTo. destruct (H p) as [_ Hp]. destruct (decide (p = parent x)) as [->|Hne].
  - split; [by apply NoDup_appendUnique|]. intros j. rewrite elem_of_appendUnique, H1, Hp. split.
    + intros [[_ (z & Hz & Hzp)]| ->]; [|exists x; by rewrite lookup_insert_eq].
      destruct (decide (j = k)) as [->|Hjk]; [exists x; by rewrite lookup_insert_eq|]. exists z. by rewrite lookup_insert_ne.
    + intros (z & Hz & Hzp). destruct (decide (j = k)) as [->|Hjk]; [by right|]. left. rewrite lookup_insert_ne in Hz by done.
      split; [by left|by exists z].
  - split; [done|]. intros j. rewrite H1, Hp. split.
    + intros [[Hjk|[? _]] (z & Hz & Hzp)]; [|done]. exists z. by rewrite lookup_insert_ne.
    + intros (z & Hz & Hzp). destruct (decide (j = k)) as [->|Hjk]; [rewrite lookup_insert_eq in Hz; congruence|].
      rewrite lookup_insert_ne in Hz by done. split; [by left|by exists z].
Qed.

Lemma indexes_delete {A} (parent : A -> string) all by_ k x :
  indexes parent all by_ -> all !! k = Some x -> indexes parent (delete k all) (removeFrom (parent x) k by_).
Proof.
  intros H Hx p. destruct (H p) as [Hn Hp]. rewrite idsOf_removeFrom.
  assert (forall j, (exists z, delete k all !! j = Some z /\ parent z = p) <-> j <> k /\ j ∈ idsOf p by_) as Hdel.
  { intros j. rewrite Hp. split.
    - intros (z & Hz & Hzp). apply lookup_delete_Some in Hz as [Hjk Hz]. split; [done|by exists z].
    - intros [Hjk (z & Hz & Hzp)]. exists z. by rewrite lookup_delete_ne. }
  destruct (decide (p = parent x)) as [->|Hne].
  - split; [by apply NoDup_filter|]. intros j. by rewrite Hdel, list_elem_of_filter.
  - split; [done|]. intros j. rewrite Hdel. split; [|tauto]. intros Hj. split; [|done]. intros ->.
    apply Hp in Hj as (z & Hz & Hzp). congruence.
Qed.

(** ** Families of records *)

(** A primary map with one secondary index. *)
Record Family (A : Type) := mkFamily { fmAll : gmap string A; fmBy : Index }.
Arguments mkFamily {A}.
Arguments fmAll {A}.
Arguments fmBy {A}.

Definition famEmpty {A} : Family A := mkFamily ∅ ∅.

Definition famPut {A} (ident parent : A -> string) (x : A) (f : Family A) : Family A :=
  mkFamily (<[ident x := x]> (fmAll f)) (reindex (parent <$> fmAll f !! ident x) (parent x) (ident x) (fmBy f)).

Definition famDelete {A} (parent : A -> string) (f : Family A) (k : string) : Family A :=
  match fmAll f !! k with
  | Some x => mkFamily (delete k (fmAll f)) (removeFrom (parent x) k (fmBy f))
  | None => f
  end.

(** The records of a connection, one after the other. *)
Definition famDeleteWhere {A} (parent : A -> string) (gone : A -> bool) (f : Family A) : Family A :=
  foldl (famDelete parent) f (filter (fun kx => gone kx.2 = true) (map_to_list (fmAll f))).*1.

Definition famList {A} (lt : A -> A -> bool) (parent : string) (f : Family A) : list A :=
  sortBy lt (omap (fun k => fmAll f !! k) (idsOf parent (fmBy f))).

(** Keys are the identifiers of their records, and the index agrees. *)
Record fam_ok {A} (ident parent : A -> string) (f : Family A) : Prop := {
  fo_ident k x : fmAll f !! k = Some x -> ident x = k;
  fo_index : indexes parent (fmAll f) (fmBy f)
}.

(** A listing through an index of identifiers is the sorted list of what it
    denotes. *)
Lemma omap_sorted {A} (ident : A -> string) lt (look : string -> option A) ids (l : list A) :
  tie_broken ident lt -> NoDup ids -> NoDup (map ident l) -> (forall k x, look k = Some x -> ident x = k) ->
  (forall x, x ∈ l <-> exists k, k ∈ ids /\ look k = Some x) -> sortBy lt (omap look ids) = sortBy lt l.
Proof.
  intros Hlt Hids Hl Hk Hin. symmetry. apply (sortBy_unique ident); [done|done|]. apply NoDup_Permutation.
  - by apply (NoDup_fmap_1 ident).
  - apply (NoDup_fmap_1 ident). assert (ident <$> omap look ids = filter (fun k => is_Some (look k)) ids) as ->; [|by apply NoDup_filter].
    clear -Hk. induction ids as [|k ks IH]; [done|]. csimpl. destruct (look k) as [x|] eqn:E.
    + rewrite filter_cons_True by by eexists. csimpl. by rewrite (Hk _ _ E), IH.
    + rewrite filter_cons_False; [done|]. rewrite E. by intros [? ?].
  - intros x. by rewrite Hin, list_elem_of_omap.
Qed.

Section FamilyFacts.
Context {A : Type}.
Variable ident parent : A -> string.
Implicit Types (f : Family A) (x : A).

Lemma famEmpty_ok : fam_ok ident parent famEmpty.
Proof. split; [|apply indexes_empty]. intros k x. change (fmAll famEmpty) with (∅ : gmap string A). by rewrite lookup_empty. Qed.

Lemma famPut_ok f x : fam_ok ident parent f -> fam_ok ident parent (famPut ident parent x f).
Proof.
  intros [Hi Hx]. split; [|by apply indexes_put]. intros k y. simpl. destruct (decide (k = ident x)) as [->|].
  - rewrite lookup_insert_eq. by intros [= ->].
  - rewrite lookup_insert_ne by done. apply Hi.
Qed.

Lemma famDelete_ok f k : fam_ok ident parent f -> fam_ok ident parent (famDelete parent f k).
Proof.
  intros [Hi Hx]. unfold famDelete. destruct (fmAll f !! k) as [x|] eqn:E; [|done].
  split; [|by apply indexes_delete]. intros j y. simpl. intros [_ Hy]%lookup_delete_Some. by apply Hi.
Qed.

Lemma famDelete_lookup f k j : fmAll (famDelete parent f k) !! j = if decide (j = k) then None else fmAll f !! j.
Proof.
  unfold famDelete. destruct (fmAll f !! k) as [x|] eqn:E; simpl; destruct (decide (j = k)) as [->|]; try done.
  - by rewrite lookup_delete_eq.
  - by rewrite lookup_delete_ne.
Qed.

Lemma famDelete_many ks f :
  fam_ok ident parent f ->
  fam_ok ident parent (foldl (famDelete parent) f ks) /\
  forall j, fmAll (foldl (famDelete parent) f ks) !! j = if decide (j ∈ ks) then None else fmAll f !! j.
Proof.
  revert f. induction ks as [|k ks IH]; intros f Hf; [split; [done|]; intros j; rewrite decide_False; [done|apply not_elem_of_nil]|].
  simpl. destruct (IH _ (famDelete_ok _ k Hf)) as [H1 H2]. split; [done|]. intros j. rewrite H2, famDelete_lookup.
  destruct (decide (j = k)) as [->|Hjk].
  - rewrite (decide_True (P := k ∈ k :: ks)) by left. by destruct (decide _).
  - apply decide_ext. rewrite elem_of_cons. tauto.
Qed.

Lemma famDeleteWhere_spec gone f :
  fam_ok ident parent f ->
  fam_ok ident parent (famDeleteWhere parent gone f) /\
  fmAll (famDeleteWhere parent gone f) = filter (fun kx => gone kx.2 = false) (fmAll f).
Proof.
  intros Hf. unfold famDeleteWhere. destruct (famDelete_many (filter (fun kx => gone kx.2 = true) (map_to_list (fmAll f))).*1 f Hf) as [H1 H2].
  split; [done|]. apply map_eq. intros j. rewrite H2.
  assert (j ∈ (filter (fun kx => gone kx.2 = true) (map_to_list (fmAll f))).*1 <-> exists x, fmAll f !! j = Some x /\ gone x = true) as Hin.
  { rewrite list_elem_of_fmap. split.
    - intros ([k x] & -> & Hx). apply list_elem_of_filter in Hx as [Hg Hx%elem_of_map_to_list]. by exists x.
    - intros (x & Hx & Hg). exists (j, x). split; [done|]. apply list_elem_of_filter. split; [done|by apply elem_of_map_to_list]. }
  destruct (decide _) as [Hj|Hj]; rewrite Hin in Hj.
  - destruct Hj as (x & Hx & Hg). symmetry. apply map_lookup_filter_None. right. intros y Hy. simpl. congruence.
  - destruct (fmAll f !! j) as [x|] eqn:E.
    + symmetry. apply map_lookup_filter_Some. split; [done|]. simpl. destruct (gone x) eqn:Eg; [|done]. destruct Hj. by exists x.
    + symmetry. apply map_lookup_filter_None. by left.
Qed.

(** What a listing shows: the records of that parent, sorted. *)
Definition members (p : string) (all : gmap string A) : list A :=
  filter (fun x => parent x = p) (map_to_list all).*2.

Lemma members_ident p all : (forall k x, all !! k = Some x -> ident x = k) -> NoDup (map ident (members p all)).
Proof.
  intros Hi. unfold members. assert (map ident (map_to_list all).*2 = (map_to_list all).*1) as Hm.
  { change (ident <$> (map_to_list all).*2 = (map_to_list all).*1). rewrite <- list_fmap_compose. apply list_fmap_ext.
    intros i [k x] Hkx. simpl. apply Hi, elem_of_map_to_list. by eapply list_elem_of_lookup_2. }
  pose proof (NoDup_fst_map_to_list all) as Hnd. rewrite <- Hm in Hnd. revert Hnd. generalize (map_to_list all).*2. intros l.
  induction l as [|x l IH]; [done|]. cbn [map]. intros [Hx Hl]%NoDup_cons. destruct (decide (parent x = p)).
  - rewrite filter_cons_True by done. cbn [map]. constructor; [|by apply IH]. intros Hin. apply Hx.
    apply list_elem_of_fmap in Hin as (y & -> & [_ Hy]%list_elem_of_filter). apply list_elem_of_fmap. by exists y.
  - rewrite filter_cons_False by done. by apply IH.
Qed.

(** A listing whose order breaks ties by the identifier is a function of the
    primary map alone. *)
Lemma famList_spec lt p f :
  fam_ok ident parent f -> tie_broken ident lt -> famList lt p f = sortBy lt (members p (fmAll f)).
Proof.
  intros [Hi Hx] Hlt. destruct (Hx p) as [Hnd Hp]. apply (omap_sorted ident); [done|done|by apply members_ident|done|].
  intros x. unfold members. rewrite list_elem_of_filter, list_elem_of_fmap. split.
  - intros [Hpx ([k y] & -> & Hy%elem_of_map_to_list)]. exists k. split; [|done]. apply Hp. by exists y.
  - intros (k & Hk & Hkx). apply Hp in Hk as (y & Hy & Hyp). rewrite Hkx in Hy. injection Hy as <-. split; [done|].
    exists (k, x). split; [done|by apply elem_of_map_to_list].
Qed.

End FamilyFacts.

(** ** The index (index.go)

    The maps [identities] and [identitiesByConnection] of the source are one
    family here, and so on; approvals and placements have a second index. *)

Record Checkpoint := mkCheckpoint { ckCursor : string; ckSequence : string; ckMetadata : Metadata; ckUpdatedAt : Time }.

Record recordIndex := mkIndex {
  ixConnections : gmap string Connection;
  ixIdentities : Family Identity;
  ixConversations : Family Conversation;
  ixContainers : Family Container;
  ixPlacements : gmap (string * string) Placement;
  ixPlacementsByMessage : Index;
  ixPlacementsByContainer : Index;
  ixMessages : Family Message;
  ixDrafts : Family Draft;
  ixApprovals : Family Approval;
  ixApprovalsByConnection : Index;
  ixPolicies : gmap string Policy;
  ixExposures : Family Exposure;
  ixWorkflows : gmap string Workflow;
  ixActivity : gmap string (list ActivityEvent);
  ixEvents : gmap string (list Event);
  ixCheckpoints : gmap string Checkpoint
}.

Definition emptyIndex : recordIndex := mkIndex ∅ famEmpty famEmpty famEmpty ∅ ∅ ∅ famEmpty famEmpty famEmpty ∅ ∅ famEmpty ∅ ∅ ∅ ∅.

(** Assignments to one field. *)
Definition setConnections (v : gmap string Connection) (i : recordIndex) : recordIndex :=
  mkIndex v (ixIdentities i) (ixConversations i) (ixContainers i) (ixPlacements i) (ixPlacementsByMessage i)
    (ixPlacementsByContainer i) (ixMessages i) (ixDrafts i) (ixApprovals i) (ixApprovalsByConnection i) (ixPolicies i)
    (ixExposures i) (ixWorkflows i) (ixActivity i) (ixEvents i) (ixCheckpoints i).
Definition setIdentities (v : Family Identity) (i : recordIndex) : recordIndex :=
  mkIndex (ixConnections i) v (ixConversations i) (ixContainers i) (ixPlacements i) (ixPlacementsByMessage i)
    (ixPlacementsByContainer i) (ixMessages i) (ixDrafts i) (ixApprovals i) (ixApprovalsByConnection i) (ixPolicies i)
    (ixExposures i) (ixWorkflows i) (ixActivity i) (ixEvents i) (ixCheckpoints i).
Definition setConversations (v : Family Conversation) (i : recordIndex) : recordIndex :=
  mkIndex (ixConnections i) (ixIdentities i) v (ixContainers i) (ixPlacements i) (ixPlacementsByMessage i)
    (ixPlacementsByContainer i) (ixMessages i) (ixDrafts i) (ixApprovals i) (ixApprovalsByConnection i) (ixPolicies i)
    (ixExposures i) (ixWorkflows i) (ixActivity i) (ixEvents i) (ixCheckpoints i).
Definition setContainers (v : Family Container) (i : recordIndex) : recordIndex :=
  mkIndex (ixConnections i) (ixIdentities i) (ixConversations i) v (ixPlacements i) (ixPlacementsByMessage i)
    (ixPlacementsByContainer i) (ixMessages i) (ixDrafts i) (ixApprovals i) (ixApprovalsByConnection i) (ixPolicies i)
    (ixExposures i) (ixWorkflows i) (ixActivity i) (ixEvents i) (ixCheckpoints i).
Definition setPlacements (v : gmap (string * string) Placement) (i : recordIndex) : recordIndex :=
  mkIndex (ixConnections i) (ixIdentities i) (ixConversations i) (ixContainers i) v (ixPlacementsByMessage i)
    (ixPlacementsByContainer i) (ixMessages i) (ixDrafts i) (ixApprovals i) (ixApprovalsByConnection i) (ixPolicies i)
    (ixExposures i) (ixWorkflows i) (ixActivity i) (ixEvents i) (ixCheckpoints i).
Definition setPlacementsByMessage (v : Index) (i : recordIndex) : recordIndex :=
  mkIndex (ixConnections i) (ixIdentities i) (ixConversations i) (ixContainers i) (ixPlacements i) v (ixPlacementsByContainer i)
    (ixMessages i) (ixDrafts i) (ixApprovals i) (ixApprovalsByConnection i) (ixPolicies i) (ixExposures i) (ixWorkflows i)
    (ixActivity i) (ixEvents i) (ixCheckpoints i).
Definition setPlacementsByContainer (v : Index) (i : recordIndex) : recordIndex :=
  mkIndex (ixConnections i) (ixIdentities i) (ixConversations i) (ixContainers i) (ixPlacements i) (ixPlacementsByMessage i) v
    (ixMessages i) (ixDrafts i) (ixApprovals i) (ixApprovalsByConnection i) (ixPolicies i) (ixExposures i) (ixWorkflows i)
    (ixActivity i) (ixEvents i) (ixCheckpoints i).
Definition setMessages (v : Family Message) (i : recordIndex) : recordIndex :=
  mkIndex (ixConnections i) (ixIdentities i) (ixConversations i) (ixContainers i) (ixPlacements i) (ixPlacementsByMessage i)
    (ixPlacementsByContainer i) v (ixDrafts i) (ixApprovals i) (ixApprovalsByConnection i) (ixPolicies i) (ixExposures i)
    (ixWorkflows i) (ixActivity i) (ixEvents i) (ixCheckpoints i).
Definition setDrafts (v : Family Draft) (i : recordIndex) : recordIndex :=
  mkIndex (ixConnections i) (ixIdentities i) (ixConversations i) (ixContainers i) (ixPlacements i) (ixPlacementsByMessage i)
    (ixPlacementsByContainer i) (ixMessages i) v (ixApprovals i) (ixApprovalsByConnection i) (ixPolicies i) (ixExposures i)
    (ixWorkflows i) (ixActivity i) (ixEvents i) (ixCheckpoints i).
Definition setApprovals (v : Family Approval) (i : recordIndex) : recordIndex :=
  mkIndex (ixConnections i) (ixIdentities i) (ixConversations i) (ixContainers i) (ixPlacements i) (ixPlacementsByMessage i)
    (ixPlacementsByContainer i) (ixMessages i) (ixDrafts i) v (ixApprovalsByConnection i) (ixPolicies i) (ixExposures i)
    (ixWorkflows i) (ixActivity i) (ixEvents i) (ixCheckpoints i).
Definition setApprovalsByConnection (v : Index) (i : recordIndex) : recordIndex :=
  mkIndex (ixConnections i) (ixIdentities i) (ixConversations i) (ixContainers i) (ixPlacements i) (ixPlacementsByMessage i)
    (ixPlacementsByContainer i) (ixMessages i) (ixDrafts i) (ixApprovals i) v (ixPolicies i) (ixExposures i) (ixWorkflows i)
    (ixActivity i) (ixEvents i) (ixCheckpoints i).
Definition setPolicies (v : gmap string Policy) (i : recordIndex) : recordIndex :=
  mkIndex (ixConnections i) (ixIdentities i) (ixConversations i) (ixContainers i) (ixPlacements i) (ixPlacementsByMessage i)
    (ixPlacementsByContainer i) (ixMessages i) (ixDrafts i) (ixApprovals i) (ixApprovalsByConnection i) v (ixExposures i)
    (ixWorkflows i) (ixActivity i) (ixEvents i) (ixCheckpoints i).
Definition setExposures (v : Family Exposure) (i : recordIndex) : recordIndex :=
  mkIndex (ixConnections i) (ixIdentities i) (ixConversations i) (ixContainers i) (ixPlacements i) (ixPlacementsByMessage i)
    (ixPlacementsByContainer i) (ixMessages i) (ixDrafts i) (ixApprovals i) (ixApprovalsByConnection i) (ixPolicies i) v
    (ixWorkflows i) (ixActivity i) (ixEvents i) (ixCheckpoints i).
Definition setWorkflows (v : gmap string Workflow) (i : recordIndex) : recordIndex :=
  mkIndex (ixConnections i) (ixIdentities i) (ixConversations i) (ixContainers i) (ixPlacements i) (ixPlacementsByMessage i)
    (ixPlacementsByContainer i) (ixMessages i) (ixDrafts i) (ixApprovals i) (ixApprovalsByConnection i) (ixPolicies i)
    (ixExposures i) v (ixActivity i) (ixEvents i) (ixCheckpoints i).
Definition setActivity (v : gmap string (list ActivityEvent)) (i : recordIndex) : recordIndex :=
  mkIndex (ixConnections i) (ixIdentities i) (ixConversations i) (ixContainers i) (ixPlacements i) (ixPlacementsByMessage i)
    (ixPlacementsByContainer i) (ixMessages i) (ixDrafts i) (ixApprovals i) (ixApprovalsByConnection i) (ixPolicies i)
    (ixExposures i) (ixWorkflows i) v (ixEvents i) (ixCheckpoints i).
Definition setEvents (v : gmap string (list Event)) (i : recordIndex) : recordIndex :=
  mkIndex (ixConnections i) (ixIdentities i) (ixConversations i) (ixContainers i) (ixPlacements i) (ixPlacementsByMessage i)
    (ixPlacementsByContainer i) (ixMessages i) (ixDrafts i) (ixApprovals i) (ixApprovalsByConnection i) (ixPolicies i)
    (ixExposures i) (ixWorkflows i) (ixActivity i) v (ixCheckpoints i).
Definition setCheckpoints (v : gmap string Checkpoint) (i : recordIndex) : recordIndex :=
  mkIndex (ixConnections i) (ixIdentities i) (ixConversations i) (ixContainers i) (ixPlacements i) (ixPlacementsByMessage i)
    (ixPlacementsByContainer i) (ixMessages i) (ixDrafts i) (ixApprovals i) (ixApprovalsByConnection i) (ixPolicies i)
    (ixExposures i) (ixWorkflows i) (ixActivity i) (ixEvents i) v.

(** *** Orders of the listings *)

Definition byID {A} (ident : A -> string) (x y : A) : bool := str_ltb (ident x) (ident y).
Definition byKey {A} (key : A -> string) (rest : A -> A -> bool) (x y : A) : bool :=
  if bool_decide (key x = key y) then rest x y else str_ltb (key x) (key y).
Definition byTime {A} (key : A -> Time) (rest : A -> A -> bool) (x y : A) : bool :=
  if bool_decide (key x = key y) then rest x y else key x <? key y.
Definition byTimeDesc {A} (key : A -> Time) (rest : A -> A -> bool) (x y : A) : bool :=
  if bool_decide (key x = key y) then rest x y else key y <? key x.
Definition byFlag {A} (key : A -> bool) (rest : A -> A -> bool) (x y : A) : bool :=
  if bool_decide (key x = key y) then rest x y else key x.

Definition identity_lt : Identity -> Identity -> bool := byFlag idIsDefault (byKey idDisplayName (byKey idAddress (byID idID))).
Definition conversation_lt : Conversation -> Conversation -> bool := byKey cvTitle (byID cvID).
Definition container_lt : Container -> Container -> bool := byKey ctKind (byKey ctName (byID ctID)).
Definition message_lt : Message -> Message -> bool := byTime msCreatedAt (byID msID).
Definition approval_lt : Approval -> Approval -> bool := byTime apRequestedAt (byID apID).
Definition approval_gt : Approval -> Approval -> bool := byTimeDesc apRequestedAt (byID apID).
Definition exposure_lt : Exposure -> Exposure -> bool := byKey exSubjectID (byID exID).
Definition policy_lt : Policy -> Policy -> bool := byKey poName (byID poID).
Definition connection_lt : Connection -> Connection -> bool := byKey cnLabel (byID cnID).
Definition workflow_lt : Workflow -> Workflow -> bool := byTimeDesc wfLastActivityAt (byID wfID).
Definition activity_lt : ActivityEvent -> ActivityEvent -> bool := byTime aeOccurredAt (byID aeID).
Definition event_lt : Event -> Event -> bool := byTime evTimestamp (byID evID).

(** The comparisons are lexicographic: weak orders that only tie at one identifier. *)
Section Orders.
Context {A : Type}.
Implicit Types rest : A -> A -> bool.

Definition by_ident (ident : A -> string) (lt : A -> A -> bool) : Prop :=
  weak_order lt /\ forall x y, lt x y = false -> lt y x = false -> ident x = ident y.

Lemma by_ident_tie ident lt : by_ident ident lt -> tie_broken ident lt.
Proof. intros [Hw Ht]. by apply weak_tie_broken. Qed.

Lemma byID_ident (ident : A -> string) : by_ident ident (byID ident).
Proof.
  unfold byID. split; [split; intros *; [apply str_ltb_asym|apply str_ltb_ntrans]|].
  intros x y Hxy Hyx. destruct (decide (ident x = ident y)); [done|]. by rewrite (str_ltb_total _ _ n Hxy) in Hyx.
Qed.

(** A comparison by a key first. *)
Lemma lex_ident {K} `{EqDecision K} (kltb : K -> K -> bool) (key : A -> K) ident rest :
  (forall a b, kltb a b = true -> kltb b a = false) ->
  (forall a b c, kltb a b = false -> kltb b c = false -> kltb a c = false) ->
  (forall a b, a <> b -> kltb a b = false -> kltb b a = true) ->
  by_ident ident rest ->
  by_ident ident (fun x y => if bool_decide (key x = key y) then rest x y else kltb (key x) (key y)).
Proof.
  intros Hka Hkn Hkt [[Ha Hn] Ht]. split; [split|]; intros x y.
  - repeat case_bool_decide; try congruence; [apply Ha|apply Hka].
  - intros z. destruct (decide (key x = key y)) as [E1|E1], (decide (key y = key z)) as [E2|E2].
    + rewrite !bool_decide_true by congruence. apply Hn.
    + rewrite (bool_decide_true _ E1), !bool_decide_false by congruence. by rewrite E1.
    + rewrite (bool_decide_true _ E2), !bool_decide_false by congruence. by rewrite E2.
    + rewrite (bool_decide_false _ E1), (bool_decide_false _ E2). intros H1 H2. case_bool_decide as E3; [|by eapply Hkn].
      apply Hkt in H2; [|done]. congruence.
  - repeat case_bool_decide; try congruence; [apply Ht|]. intros H1 H2. by rewrite (Hkt _ _ H H1) in H2.
Qed.

Lemma byKey_ident key ident rest : by_ident ident rest -> by_ident ident (byKey key rest).
Proof. apply lex_ident; [apply str_ltb_asym|apply str_ltb_ntrans|apply str_ltb_total]. Qed.
Lemma byTime_ident (key : A -> Time) ident rest : by_ident ident rest -> by_ident ident (byTime key rest).
Proof. apply (lex_ident Z.ltb); intros; lia. Qed.
Lemma byTimeDesc_ident (key : A -> Time) ident rest : by_ident ident rest -> by_ident ident (byTimeDesc key rest).
Proof. apply (lex_ident (fun a b => b <? a)); intros; lia. Qed.
Lemma byFlag_ident (key : A -> bool) ident rest : by_ident ident rest -> by_ident ident (byFlag key rest).
Proof.
  intros H. apply (lex_ident (fun a b => a && negb b) key) in H; [|by intros [] []|by intros [] [] []|by intros [] []].
  assert (forall x y, byFlag key rest x y = (if bool_decide (key x = key y) then rest x y else key x && negb (key y))) as E.
  { intros x y. unfold byFlag. case_bool_decide; [done|]. by destruct (key x), (key y). }
  destruct H as [[Ha Hn] Ht]. split; [split|]; intros *; rewrite ?E; eauto.
Qed.
End Orders.

Create HintDb order.
#[export] Hint Resolve by_ident_tie byID_ident byKey_ident byTime_ident byTimeDesc_ident byFlag_ident : order.

(** *** Puts *)

Definition putConnection (x : Connection) (i : recordIndex) : recordIndex := setConnections (<[cnID x := x]> (ixConnections i)) i.
Definition putIdentity (x : Identity) (i : recordIndex) : recordIndex :=
  setIdentities (famPut idID idConnectionID x (ixIdentities i)) i.
Definition putConversation (x : Conversation) (i : recordIndex) : recordIndex :=
  setConversations (famPut cvID cvConnectionID x (ixConversations i)) i.
Definition putContainer (x : Container) (i : recordIndex) : recordIndex :=
  setContainers (famPut ctID ctConnectionID x (ixContainers i)) i.
Definition putMessage (x : Message) (i : recordIndex) : recordIndex :=
  setMessages (famPut msID msConversationID x (ixMessages i)) i.
Definition putDraft (x : Draft) (i : recordIndex) : recordIndex := setDrafts (famPut drID drConversationID x (ixDrafts i)) i.
Definition putExposure (x : Exposure) (i : recordIndex) : recordIndex :=
  setExposures (famPut exID exConnectionID x (ixExposures i)) i.
Definition putPolicy (x : Policy) (i : recordIndex) : recordIndex := setPolicies (<[poID x := x]> (ixPolicies i)) i.
Definition putWorkflow (x : Workflow) (i : recordIndex) : recordIndex := setWorkflows (<[wfID x := x]> (ixWorkflows i)) i.
Definition putCheckpoint (connectionID : string) (x : Checkpoint) (i : recordIndex) : recordIndex :=
  setCheckpoints (<[connectionID := x]> (ixCheckpoints i)) i.

Definition putApproval (x : Approval) (i : recordIndex) : recordIndex :=
  let old := apConnectionID <$> fmAll (ixApprovals i) !! apID x in
  setApprovalsByConnection (reindex old (apConnectionID x) (apID x) (ixApprovalsByConnection i))
    (setApprovals (famPut apID apDraftID x (ixApprovals i)) i).

Definition putPlacement (x : Placement) (i : recordIndex) : recordIndex :=
  setPlacements (<[(plMessageID x, plContainerID x) := x]> (ixPlacements i))
    (setPlacementsByMessage (addTo (plMessageID x) (plContainerID x) (ixPlacementsByMessage i))
      (setPlacementsByContainer (addTo (plContainerID x) (plMessageID x) (ixPlacementsByContainer i)) i)).

Definition deletePlacement (messageID containerID : string) (i : recordIndex) : recordIndex :=
  match ixPlacements i !! (messageID, containerID) with
  | None => i
  | Some _ =>
      setPlacements (delete (messageID, containerID) (ixPlacements i))
        (setPlacementsByMessage (removeFrom messageID containerID (ixPlacementsByMessage i))
          (setPlacementsByContainer (removeFrom containerID messageID (ixPlacementsByContainer i)) i))
  end.

Definition appendActivityEvent (workflowID : string) (e : ActivityEvent) (i : recordIndex) : recordIndex :=
  setActivity (<[workflowID := sortBy activity_lt (default [] (ixActivity i !! workflowID) ++ [e])]> (ixActivity i)) i.
Definition appendEvent (connectionID : string) (e : Event) (i : recordIndex) : recordIndex :=
  setEvents (<[connectionID := sortBy event_lt (default [] (ixEvents i !! connectionID) ++ [e])]> (ixEvents i)) i.

(** Identities that are not kept are deleted from the map; the list of the
    connection is rebuilt from the new ones. *)
Definition replaceConnectionIdentities (connectionID : string) (identities : list Identity) (i : recordIndex) : recordIndex :=
  let keep := map idID identities in
  let f := ixIdentities i in
  let all := foldl (fun all k => if bool_decide (k ∈ keep) then all else delete k all) (fmAll f) (idsOf connectionID (fmBy f)) in
  foldl (fun i x => putIdentity x i) (setIdentities (mkFamily all (delete connectionID (fmBy f))) i) identities.

(** *** Deleting a connection *)

Definition goneApprovals (connectionID : string) (f : Family Approval) : list string :=
  (filter (fun kx => bool_decide (apConnectionID kx.2 = connectionID) = true) (map_to_list (fmAll f))).*1.

Definition deletePlacements (kps : list ((string * string) * Placement)) (i : recordIndex) : recordIndex :=
  foldl (fun i '((m, k), p) => deletePlacement m k i) i kps.

Definition deleteConnection (c : string) (i : recordIndex) : recordIndex :=
  let i := setConnections (delete c (ixConnections i)) i in
  let i := setIdentities (famDeleteWhere idConnectionID (fun x => bool_decide (idConnectionID x = c)) (ixIdentities i)) i in
  let i := deletePlacements (filter (fun kx => plConnectionID kx.2 = c) (map_to_list (ixPlacements i))) i in
  let i := setMessages (famDeleteWhere msConversationID (fun x => bool_decide (msConnectionID x = c)) (ixMessages i)) i in
  let i := setConversations (famDeleteWhere cvConnectionID (fun x => bool_decide (cvConnectionID x = c)) (ixConversations i)) i in
  let i := setContainers (famDeleteWhere ctConnectionID (fun x => bool_decide (ctConnectionID x = c)) (ixContainers i)) i in
  let gone := goneApprovals c (ixApprovals i) in
  let i := setApprovalsByConnection (foldl (fun b k => removeFrom c k b) (ixApprovalsByConnection i) gone)
    (setApprovals (famDeleteWhere apDraftID (fun x => bool_decide (apConnectionID x = c)) (ixApprovals i)) i) in
  let i := setDrafts (famDeleteWhere drConversationID (fun x => bool_decide (drConnectionID x = c)) (ixDrafts i)) i in
  let i := setExposures (famDeleteWhere exConnectionID (fun x => bool_decide (exConnectionID x = c)) (ixExposures i)) i in
  let i := setEvents (delete c (ixEvents i)) i in
  setCheckpoints (delete c (ixCheckpoints i)) i.

(** *** Listings *)

Definition listConnections (i : recordIndex) : list Connection := sortBy connection_lt (map_to_list (ixConnections i)).*2.
Definition listPolicies (i : recordIndex) : list Policy := sortBy policy_lt (map_to_list (ixPolicies i)).*2.
Definition listWorkflows (i : recordIndex) : list Workflow := sortBy workflow_lt (map_to_list (ixWorkflows i)).*2.
Definition listConnectionIdentities (c : string) (i : recordIndex) : list Identity := famList identity_lt c (ixIdentities i).
Definition listConnectionConversations (c : string) (i : recordIndex) : list Conversation := famList conversation_lt c (ixConversations i).
Definition listConnectionContainers (c : string) (i : recordIndex) : list Container := famList container_lt c (ixContainers i).
Definition listConversationMessages (c : string) (i : recordIndex) : list Message := famList message_lt c (ixMessages i).
Definition listConversationDrafts (c : string) (i : recordIndex) : list Draft := famList (byID drID) c (ixDrafts i).
Definition listDraftApprovals (d : string) (i : recordIndex) : list Approval := famList approval_lt d (ixApprovals i).
Definition listConnectionApprovals (c : string) (i : recordIndex) : list Approval :=
  famList approval_gt c (mkFamily (fmAll (ixApprovals i)) (ixApprovalsByConnection i)).
Definition listConnectionExposures (c : string) (i : recordIndex) : list Exposure := famList exposure_lt c (ixExposures i).
Definition listMessagePlacements (m : string) (i : recordIndex) : list Placement :=
  sortBy (byID plContainerID) (omap (fun c => ixPlacements i !! (m, c)) (idsOf m (ixPlacementsByMessage i))).
Definition listContainerPlacements (c : string) (i : recordIndex) : list Placement :=
  sortBy (byID plMessageID) (omap (fun m => ixPlacements i !! (m, c)) (idsOf c (ixPlacementsByContainer i))).
Definition listWorkflowActivity (w : string) (i : recordIndex) : list ActivityEvent := default [] (ixActivity i !! w).
Definition listConnectionEvents (c : string) (i : recordIndex) : list Event := default [] (ixEvents i !! c).
Definition hasWorkflowActivityEvent (w e : string) (i : recordIndex) : bool :=
  existsb (fun x => bool_decide (aeID x = e)) (default [] (ixActivity i !! w)).
Definition hasConnectionEvent (c e : string) (i : recordIndex) : bool :=
  existsb (fun x => bool_decide (evID x = e)) (default [] (ixEvents i !! c)).

Definition getConnection (k : string) (i : recordIndex) : option Connection := ixConnections i !! k.
Definition getIdentity (k : string) (i : recordIndex) : option Identity := fmAll (ixIdentities i) !! k.
Definition getConversation (k : string) (i : recordIndex) : option Conversation := fmAll (ixConversations i) !! k.
Definition getContainer (k : string) (i : recordIndex) : option Container := fmAll (ixContainers i) !! k.
Definition getPlacement (m c : string) (i : recordIndex) : option Placement := ixPlacements i !! (m, c).
Definition getMessage (k : string) (i : recordIndex) : option Message := fmAll (ixMessages i) !! k.
Definition getDraft (k : string) (i : recordIndex) : option Draft := fmAll (ixDrafts i) !! k.
Definition getApproval (k : string) (i : recordIndex) : option Approval := fmAll (ixApprovals i) !! k.
Definition getPolicy (k : string) (i : recordIndex) : option Policy := ixPolicies i !! k.
Definition getExposure (k : string) (i : recordIndex) : option Exposure := fmAll (ixExposures i) !! k.
Definition getWorkflow (k : string) (i : recordIndex) : option Workflow := ixWorkflows i !! k.
Definition getCheckpoint (k : string) (i : recordIndex) : option Checkpoint := ixCheckpoints i !! k.

(** *** Snapshots *)

Record Snapshot := mkSnapshot {
  snConnections : list Connection; snIdentities : list Identity; snConversations : list Conversation; snContainers : list Container;
  snPlacements : list Placement; snMessages : list Message; snDrafts : list Draft; snApprovals : list Approval;
  snPolicies : list Policy; snExposures : list Exposure; snWorkflows : list Workflow;
  snActivityEvents : gmap string (list ActivityEvent); snEvents : gmap string (list Event); snCheckpoints : gmap string Checkpoint
}.

Definition newRecordIndex (s : Snapshot) : recordIndex :=
  let i := foldl (fun i x => putConnection x i) emptyIndex (snConnections s) in
  let i := foldl (fun i x => putIdentity x i) i (snIdentities s) in
  let i := foldl (fun i x => putConversation x i) i (snConversations s) in
  let i := foldl (fun i x => putContainer x i) i (snContainers s) in
  let i := foldl (fun i x => putPlacement x i) i (snPlacements s) in
  let i := foldl (fun i x => putMessage x i) i (snMessages s) in
  let i := foldl (fun i x => putDraft x i) i (snDrafts s) in
  let i := foldl (fun i x => putApproval x i) i (snApprovals s) in
  let i := foldl (fun i x => putPolicy x i) i (snPolicies s) in
  let i := foldl (fun i x => putExposure x i) i (snExposures s) in
  let i := foldl (fun i x => putWorkflow x i) i (snWorkflows s) in
  let i := foldl (fun i '(w, es) => foldl (fun i e => appendActivityEvent w e i) i es) i (map_to_list (snActivityEvents s)) in
  let i := foldl (fun i '(c, es) => foldl (fun i e => appendEvent c e i) i es) i (map_to_list (snEvents s)) in
  foldl (fun i '(c, x) => putCheckpoint c x i) i (map_to_list (snCheckpoints s)).

Definition placement_lt : Placement -> Placement -> bool := byKey plMessageID (byID plContainerID).

Definition indexSnapshot (i : recordIndex) : Snapshot :=
  mkSnapshot (sortBy (byID cnID) (map_to_list (ixConnections i)).*2) (sortBy (byID idID) (map_to_list (fmAll (ixIdentities i))).*2)
    (sortBy (byID cvID) (map_to_list (fmAll (ixConversations i))).*2) (sortBy (byID ctID) (map_to_list (fmAll (ixContainers i))).*2)
    (sortBy placement_lt (map_to_list (ixPlacements i)).*2) (sortBy message_lt (map_to_list (fmAll (ixMessages i))).*2)
    (sortBy (byID drID) (map_to_list (fmAll (ixDrafts i))).*2) (sortBy approval_lt (map_to_list (fmAll (ixApprovals i))).*2)
    (sortBy (byID poID) (map_to_list (ixPolicies i)).*2) (sortBy (byID exID) (map_to_list (fmAll (ixExposures i))).*2)
    (sortBy (byID wfID) (map_to_list (ixWorkflows i)).*2) (ixActivity i) (ixEvents i) (ixCheckpoints i).

(** ** The invariant of the index *)

Definition keyed {A} (ident : A -> string) (m : gmap string A) : Prop := forall k x, m !! k = Some x -> ident x = k.

(** Placements are keyed by message and container and indexed by both. *)
Record placements_ok (pl : gmap (string * string) Placement) (byMessage byContainer : Index) : Prop := {
  po_key m c p : pl !! (m, c) = Some p -> plMessageID p = m /\ plContainerID p = c;
  po_message m : NoDup (idsOf m byMessage) /\ forall c, c ∈ idsOf m byMessage <-> is_Some (pl !! (m, c));
  po_container c : NoDup (idsOf c byContainer) /\ forall m, m ∈ idsOf c byContainer <-> is_Some (pl !! (m, c))
}.

(** Event lists are sorted, and there is none without an event. *)
Definition logs_ok {A} (lt : A -> A -> bool) (m : gmap string (list A)) : Prop :=
  forall k es, m !! k = Some es -> es <> [] /\ StronglySorted (fun x y => lt y x = false) es.

Record index_ok (i : recordIndex) : Prop := {
  io_connections : keyed cnID (ixConnections i);
  io_identities : fam_ok idID idConnectionID (ixIdentities i);
  io_conversations : fam_ok cvID cvConnectionID (ixConversations i);
  io_containers : fam_ok ctID ctConnectionID (ixContainers i);
  io_placements : placements_ok (ixPlacements i) (ixPlacementsByMessage i) (ixPlacementsByContainer i);
  io_messages : fam_ok msID msConversationID (ixMessages i);
  io_drafts : fam_ok drID drConversationID (ixDrafts i);
  io_approvals : fam_ok apID apDraftID (ixApprovals i);
  io_approvals_conn : indexes apConnectionID (fmAll (ixApprovals i)) (ixApprovalsByConnection i);
  io_policies : keyed poID (ixPolicies i);
  io_exposures : fam_ok exID exConnectionID (ixExposures i);
  io_workflows : keyed wfID (ixWorkflows i);
  io_activity : logs_ok activity_lt (ixActivity i);
  io_events : logs_ok event_lt (ixEvents i)
}.

Lemma keyed_put {A} (ident : A -> string) m x : keyed ident m -> keyed ident (<[ident x := x]> m).
Proof.
  intros H k y. destruct (decide (k = ident x)) as [->|]; [rewrite lookup_insert_eq; congruence|].
  rewrite lookup_insert_ne by done. apply H.
Qed.

Lemma keyed_delete {A} (ident : A -> string) m k : keyed ident m -> keyed ident (delete k m).
Proof. intros H j y [_ Hy]%lookup_delete_Some. by apply H. Qed.

Lemma keyed_empty {A} (ident : A -> string) : keyed ident ∅.
Proof. intros k x H. by rewrite lookup_empty in H. Qed.

Lemma logs_empty {A} (lt : A -> A -> bool) : logs_ok lt ∅.
Proof. intros k x H. by rewrite lookup_empty in H. Qed.

Lemma logs_append {A} (lt : A -> A -> bool) m k es e :
  weak_order lt -> logs_ok lt m -> logs_ok lt (<[k := sortBy lt (es ++ [e])]> m).
Proof.
  intros Hw Hm j fs. destruct (decide (j = k)) as [->|]; [|rewrite lookup_insert_ne by done; apply Hm].
  rewrite lookup_insert_eq. intros [= <-]. split; [|by apply sortBy_weak].
  intros Hn. pose proof (sortBy_perm lt (es ++ [e])) as Hp. rewrite Hn in Hp. apply Permutation_nil in Hp. by destruct es.
Qed.

Lemma logs_delete {A} (lt : A -> A -> bool) m k : logs_ok lt m -> logs_ok lt (delete k m).
Proof. intros H j y [_ Hy]%lookup_delete_Some. by apply (H j). Qed.

Lemma emptyIndex_ok : index_ok emptyIndex.
Proof.
  assert (placements_ok ∅ ∅ ∅) as Hp; [|split; try exact Hp; try exact (indexes_empty apConnectionID); try apply logs_empty; try apply famEmpty_ok;
    apply keyed_empty].
  split; [intros m c p H; by rewrite lookup_empty in H| |]; intros k; unfold idsOf; simpl; rewrite lookup_empty;
    (split; [constructor|]); intros j; change (default [] None) with ([] : list string);
    rewrite lookup_empty, elem_of_nil; (split; [done|by intros [? ?]]).
Qed.

(** The operations touch one family each. *)
Ltac index_field H := destruct H; split; simpl; try done; try (by apply famPut_ok); try (by apply keyed_put); try (by apply keyed_delete).

Lemma putConnection_ok x i : index_ok i -> index_ok (putConnection x i).
Proof. intros H. index_field H. Qed.
Lemma putIdentity_ok x i : index_ok i -> index_ok (putIdentity x i).
Proof. intros H. index_field H. Qed.
Lemma putConversation_ok x i : index_ok i -> index_ok (putConversation x i).
Proof. intros H. index_field H. Qed.
Lemma putContainer_ok x i : index_ok i -> index_ok (putContainer x i).
Proof. intros H. index_field H. Qed.
Lemma putMessage_ok x i : index_ok i -> index_ok (putMessage x i).
Proof. intros H. index_field H. Qed.
Lemma putDraft_ok x i : index_ok i -> index_ok (putDraft x i).
Proof. intros H. index_field H. Qed.
Lemma putExposure_ok x i : index_ok i -> index_ok (putExposure x i).
Proof. intros H. index_field H. Qed.
Lemma putPolicy_ok x i : index_ok i -> index_ok (putPolicy x i).
Proof. intros H. index_field H. Qed.
Lemma putWorkflow_ok x i : index_ok i -> index_ok (putWorkflow x i).
Proof. intros H. index_field H. Qed.
Lemma putCheckpoint_ok c x i : index_ok i -> index_ok (putCheckpoint c x i).
Proof. intros H. index_field H. Qed.
Lemma appendActivityEvent_ok w e i : index_ok i -> index_ok (appendActivityEvent w e i).
Proof. intros H. index_field H. apply logs_append; [|done]. eapply byTime_ident, byID_ident. Qed.
Lemma appendEvent_ok c e i : index_ok i -> index_ok (appendEvent c e i).
Proof. intros H. index_field H. apply logs_append; [|done]. eapply byTime_ident, byID_ident. Qed.
Lemma putApproval_ok x i : index_ok i -> index_ok (putApproval x i).
Proof. intros H. index_field H. by apply indexes_put. Qed.

Lemma putPlacement_ok x i : index_ok i -> index_ok (putPlacement x i).
Proof.
  intros H. index_field H. destruct io_placements0 as [Hk Hm Hc]. set (m0 := plMessageID x). set (c0 := plContainerID x). split.
  - intros m c p. destruct (decide ((m, c) = (m0, c0))) as [[= -> ->]|]; [rewrite lookup_insert_eq; by intros [= ->]|].
    rewrite lookup_insert_ne by done. apply Hk.
  - intros m. rewrite idsOf_addTo. destruct (Hm m) as [Hn He]. destruct (decide (m = m0)) as [->|Hne].
    + split; [by apply NoDup_appendUnique|]. intros c. rewrite elem_of_appendUnique, He.
      destruct (decide (c = c0)) as [->|]; [rewrite lookup_insert_eq; naive_solver|]. rewrite lookup_insert_ne by congruence. naive_solver.
    + split; [done|]. intros c. rewrite lookup_insert_ne by congruence. apply He.
  - intros c. rewrite idsOf_addTo. destruct (Hc c) as [Hn He]. destruct (decide (c = c0)) as [->|Hne].
    + split; [by apply NoDup_appendUnique|]. intros m. rewrite elem_of_appendUnique, He.
      destruct (decide (m = m0)) as [->|]; [rewrite lookup_insert_eq; naive_solver|]. rewrite lookup_insert_ne by congruence. naive_solver.
    + split; [done|]. intros m. rewrite lookup_insert_ne by congruence. apply He.
Qed.

Lemma deletePlacement_ok m0 c0 i : index_ok i -> index_ok (deletePlacement m0 c0 i).
Proof.
  intros H. unfold deletePlacement. destruct (ixPlacements i !! (m0, c0)) as [x|] eqn:E; [|done]. index_field H.
  destruct io_placements0 as [Hk Hm Hc]. split.
  - intros m c p [_ Hp]%lookup_delete_Some. by apply Hk.
  - intros m. rewrite idsOf_removeFrom. destruct (Hm m) as [Hn He]. destruct (decide (m = m0)) as [->|Hne].
    + split; [by apply NoDup_filter|]. intros c. rewrite list_elem_of_filter, He.
      destruct (decide (c = c0)) as [->|]; [rewrite lookup_delete_eq; split; [tauto|by intros [? ?]]|].
      rewrite lookup_delete_ne by congruence. naive_solver.
    + split; [done|]. intros c. rewrite lookup_delete_ne by congruence. apply He.
  - intros c. rewrite idsOf_removeFrom. destruct (Hc c) as [Hn He]. destruct (decide (c = c0)) as [->|Hne].
    + split; [by apply NoDup_filter|]. intros m. rewrite list_elem_of_filter, He.
      destruct (decide (m = m0)) as [->|]; [rewrite lookup_delete_eq; split; [tauto|by intros [? ?]]|].
      rewrite lookup_delete_ne by congruence. naive_solver.
    + split; [done|]. intros m. rewrite lookup_delete_ne by congruence. apply He.
Qed.

(** [f] lists below [c] everything but what waits in [pending]. *)
Definition pending_ok (c : string) (pending : list string) (f : Family Identity) : Prop :=
  keyed idID (fmAll f) /\
  forall p, NoDup (idsOf p (fmBy f)) /\
    forall k, k ∈ idsOf p (fmBy f) <-> (exists x, fmAll f !! k = Some x /\ idConnectionID x = p) /\ (p = c -> k ∉ pending).

Lemma pending_done c f : pending_ok c [] f -> fam_ok idID idConnectionID f.
Proof.
  intros [Hk H]. split; [done|]. intros p. destruct (H p) as [Hn He]. split; [done|]. intros k. rewrite He.
  split; [tauto|]. intros Hx. split; [done|]. intros _. apply not_elem_of_nil.
Qed.

Lemma pending_put c pending x f :
  idConnectionID x = c -> pending_ok c pending f ->
  pending_ok c (filter (fun k => k <> idID x) pending) (famPut idID idConnectionID x f).
Proof.
  intros Hc [Hk H]. split; [by apply keyed_put|]. intros p. cbn [famPut fmAll fmBy]. unfold reindex. rewrite idsOf_addTo.
  set (k0 := idID x) in *. set (by1 := match idConnectionID <$> fmAll f !! k0 with Some q => _ | None => _ end).
  assert (forall q, NoDup (idsOf q by1) /\ (forall k, k <> k0 -> k ∈ idsOf q by1 <-> k ∈ idsOf q (fmBy f)) /\
    (k0 ∈ idsOf q by1 -> q = c)) as H1.
  { intros q. destruct (H q) as [Hn He]. subst by1. destruct (fmAll f !! k0) as [y|] eqn:Ey; simpl.
    - case_bool_decide as Hq.
      + split_and!; [done|done|]. intros Hin. apply He in Hin as [(z & Hz & Hzq) _]. congruence.
      + rewrite idsOf_removeFrom. destruct (decide (q = idConnectionID y)) as [->|Hqy].
        * split_and!; [by apply NoDup_filter| |]; [intros k Hne; rewrite list_elem_of_filter; tauto|].
          by intros [? _]%list_elem_of_filter.
        * split_and!; [done|done|]. intros Hin. apply He in Hin as [(z & Hz & Hzq) _]. congruence.
    - split_and!; [done|done|]. intros Hin. apply He in Hin as [(z & Hz & _) _]. congruence. }
  assert (forall k q, k <> k0 -> k ∈ idsOf q (fmBy f) <->
    (exists y, <[k0 := x]> (fmAll f) !! k = Some y /\ idConnectionID y = q) /\ (q = c -> k ∉ filter (fun k => k <> k0) pending)) as H2.
  { intros k q Hne. destruct (H q) as [_ He]. rewrite He, lookup_insert_ne, list_elem_of_filter by done. tauto. }
  rewrite Hc. destruct (decide (p = c)) as [->|Hpc]; destruct (H1 p) as (Hn1 & He1 & Hk1) || destruct (H1 c) as (Hn1 & He1 & Hk1).
  - split; [by apply NoDup_appendUnique|]. intros k. rewrite elem_of_appendUnique.
    destruct (decide (k = k0)) as [->|Hne]; [|rewrite He1, H2 by done; tauto].
    split; [|tauto]. intros _. split; [exists x; by rewrite lookup_insert_eq|]. intros _ [? _]%list_elem_of_filter. done.
  - split; [done|]. intros k. destruct (decide (k = k0)) as [->|Hne]; [|by rewrite He1, H2].
    split; [tauto|]. intros [(y & Hy & Hyp) _]. rewrite lookup_insert_eq in Hy. congruence.
Qed.

Lemma pending_puts c xs pending f :
  Forall (fun x => idConnectionID x = c) xs -> pending_ok c pending f -> (forall k, k ∈ pending -> k ∈ map idID xs) ->
  fam_ok idID idConnectionID (foldl (fun f x => famPut idID idConnectionID x f) f xs).
Proof.
  intros Hxs. revert pending f. induction Hxs as [|x xs Hx Hxs IH]; intros pending f Hf Hin.
  - destruct pending as [|k l]; [by apply (pending_done c)|]. destruct (not_elem_of_nil k). apply Hin. by left.
  - simpl. eapply IH; [by apply pending_put|]. intros k [Hne Hk]%list_elem_of_filter. apply Hin in Hk.
    by apply elem_of_cons in Hk as [->|].
Qed.

Lemma foldl_putIdentity xs i :
  foldl (fun i x => putIdentity x i) i xs = setIdentities (foldl (fun f x => famPut idID idConnectionID x f) (ixIdentities i) xs) i.
Proof. revert i. induction xs as [|x xs IH]; intros i; [by destruct i|]. simpl. by rewrite IH. Qed.

(** Dropping the identities that are not kept. *)
Lemma drop_lookup {A} (keep ks : list string) (all : gmap string A) j :
  foldl (fun all k => if bool_decide (k ∈ keep) then all else delete k all) all ks !! j =
    if decide (j ∈ ks /\ j ∉ keep) then None else all !! j.
Proof.
  revert all. induction ks as [|k ks IH]; intros all; [rewrite decide_False; [done|]; by intros [?%not_elem_of_nil _]|].
  simpl. rewrite IH. destruct (decide (j ∈ ks /\ j ∉ keep)) as [[H1 H2]|Hn].
  - rewrite decide_True; [done|]. split; [by right|done].
  - destruct (decide (j = k)) as [->|Hjk].
    + case_bool_decide as Hk; [rewrite decide_False; [done|]; by intros [_ ?]|].
      rewrite decide_True, lookup_delete_eq; [done|]. split; [left|done].
    + assert ((if bool_decide (k ∈ keep) then all else delete k all) !! j = all !! j) as ->
        by (case_bool_decide; [done|by rewrite lookup_delete_ne]).
      rewrite decide_False; [done|]. rewrite elem_of_cons. tauto.
Qed.

Lemma replaceConnectionIdentities_ok c xs i :
  Forall (fun x => idConnectionID x = c) xs -> index_ok i -> index_ok (replaceConnectionIdentities c xs i).
Proof.
  intros Hxs H. unfold replaceConnectionIdentities. rewrite foldl_putIdentity. index_field H. clear -Hxs io_identities0.
  set (f := ixIdentities i) in *. destruct io_identities0 as [Hk Hi]. eapply (pending_puts c xs (map idID xs)); [done| |done].
  split; [intros k x; cbn [fmAll]; rewrite drop_lookup; destruct (decide _); [done|apply Hk]|].
  intros p. cbn [fmAll fmBy]. destruct (Hi p) as [Hn He]. unfold idsOf at 1 2. destruct (decide (p = c)) as [->|Hpc].
  - rewrite lookup_delete_eq. cbn [default]. split; [constructor|]. intros k. split; [by intros ?%not_elem_of_nil|].
    intros [(x & Hx & Hxc) Hin]. exfalso. rewrite drop_lookup in Hx. destruct (decide _) as [|Hd]; [done|]. apply Hd.
    split; [|by apply Hin]. apply He. by exists x.
  - rewrite lookup_delete_ne by done. fold (idsOf p (fmBy f)). split; [done|]. intros k. rewrite He. split.
    + intros (x & Hx & Hxp). split; [|done]. exists x. split; [|done]. rewrite drop_lookup, decide_False; [done|].
      intros [Hin _]. apply Hi in Hin as (y & Hy & Hyc). congruence.
    + intros [(x & Hx & Hxp) _]. rewrite drop_lookup in Hx. destruct (decide _); [done|]. by exists x.
Qed.

(** *** Deleting a connection *)

(** Removing records of one parent one by one removes them from its list. *)
Lemma famDelete_parent {A} (parent : A -> string) c ks f :
  NoDup ks -> (forall k, k ∈ ks -> exists x, fmAll f !! k = Some x /\ parent x = c) ->
  fmBy (foldl (famDelete parent) f ks) = foldl (fun b k => removeFrom c k b) (fmBy f) ks.
Proof.
  intros Hnd. revert f. induction Hnd as [|k ks Hk Hnd IH]; intros f Hin; [done|]. simpl.
  destruct (Hin k) as (x & Hx & Hxc); [by left|]. rewrite IH.
  - unfold famDelete. by rewrite Hx, Hxc.
  - intros j Hj. rewrite famDelete_lookup. destruct (decide (j = k)) as [->|]; [done|]. apply Hin. by right.
Qed.

Lemma approvals_purged c f by_ :
  fam_ok apID apDraftID f -> indexes apConnectionID (fmAll f) by_ ->
  indexes apConnectionID (fmAll (famDeleteWhere apDraftID (fun x => bool_decide (apConnectionID x = c)) f))
    (foldl (fun b k => removeFrom c k b) by_ (goneApprovals c f)).
Proof.
  intros Hf Hi. pose proof (famDeleteWhere_spec apID apDraftID (fun x => bool_decide (apConnectionID x = c)) f Hf) as [_ ->].
  set (g := mkFamily (fmAll f) by_). assert (fam_ok apID apConnectionID g) as Hg by (split; [apply Hf|done]).
  destruct (famDeleteWhere_spec apID apConnectionID (fun x => bool_decide (apConnectionID x = c)) g Hg) as [[_ H1] H2].
  unfold famDeleteWhere in H1, H2. rewrite H2 in H1. change (fmAll g) with (fmAll f) in H1.
  change by_ with (fmBy g). unfold goneApprovals. erewrite <- (famDelete_parent apConnectionID c); [exact H1| |].
  - eapply sublist_NoDup; [apply (NoDup_fst_map_to_list (fmAll f))|]. apply fmap_sublist, sublist_filter.
  - intros k ([k' x] & -> & [Hb Hx]%list_elem_of_filter)%list_elem_of_fmap. apply elem_of_map_to_list in Hx.
    exists x. split; [done|]. by apply bool_decide_eq_true in Hb.
Qed.

Lemma deletePlacements_spec kps i :
  index_ok i ->
  index_ok (deletePlacements kps i) /\
  (forall k, ixPlacements (deletePlacements kps i) !! k = if decide (k ∈ kps.*1) then None else ixPlacements i !! k) /\
  deletePlacements kps i = setPlacements (ixPlacements (deletePlacements kps i))
    (setPlacementsByMessage (ixPlacementsByMessage (deletePlacements kps i))
      (setPlacementsByContainer (ixPlacementsByContainer (deletePlacements kps i)) i)).
Proof.
  revert i. induction kps as [|[[m c] p] kps IH]; intros i Hi; [by destruct i|]. cbn [deletePlacements foldl].
  fold (deletePlacements kps (deletePlacement m c i)).
  destruct (IH _ (deletePlacement_ok m c i Hi)) as (H1 & H2 & H3). split_and!; [done| |].
  - intros k. rewrite H2. csimpl. assert (ixPlacements (deletePlacement m c i) !! k = if decide (k = (m, c)) then None else ixPlacements i !! k) as ->.
    { unfold deletePlacement. destruct (ixPlacements i !! (m, c)) eqn:E; simpl; destruct (decide (k = (m, c))) as [->|]; try done.
      - by rewrite lookup_delete_eq.
      - by rewrite lookup_delete_ne. }
    destruct (decide (k = (m, c))) as [->|Hne].
    + rewrite (decide_True (P := (m, c) ∈ (m, c) :: kps.*1)) by left. by destruct (decide _).
    + apply decide_ext. rewrite elem_of_cons. tauto.
  - etrans; [exact H3|]. unfold deletePlacement. by destruct (ixPlacements i !! (m, c)).
Qed.

(** The primary maps. *)
Record tables := mkTables {
  tbConnections : gmap string Connection; tbIdentities : gmap string Identity; tbConversations : gmap string Conversation;
  tbContainers : gmap string Container; tbPlacements : gmap (string * string) Placement; tbMessages : gmap string Message;
  tbDrafts : gmap string Draft; tbApprovals : gmap string Approval; tbPolicies : gmap string Policy;
  tbExposures : gmap string Exposure; tbWorkflows : gmap string Workflow; tbActivity : gmap string (list ActivityEvent);
  tbEvents : gmap string (list Event); tbCheckpoints : gmap string Checkpoint
}.

Definition tablesOf (i : recordIndex) : tables :=
  mkTables (ixConnections i) (fmAll (ixIdentities i)) (fmAll (ixConversations i)) (fmAll (ixContainers i)) (ixPlacements i)
    (fmAll (ixMessages i)) (fmAll (ixDrafts i)) (fmAll (ixApprovals i)) (ixPolicies i) (fmAll (ixExposures i)) (ixWorkflows i)
    (ixActivity i) (ixEvents i) (ixCheckpoints i).

(** What a connection's deletion leaves: policies, workflows and their activity,
    and whatever belongs to another connection. *)
Definition others {A} (conn : A -> string) (c : string) (m : gmap string A) : gmap string A :=
  filter (fun kx => bool_decide (conn kx.2 = c) = false) m.

Definition purge (c : string) (t : tables) : tables :=
  mkTables (delete c (tbConnections t)) (others idConnectionID c (tbIdentities t)) (others cvConnectionID c (tbConversations t))
    (others ctConnectionID c (tbContainers t)) (filter (fun kx => plConnectionID kx.2 <> c) (tbPlacements t))
    (others msConnectionID c (tbMessages t)) (others drConnectionID c (tbDrafts t)) (others apConnectionID c (tbApprovals t))
    (tbPolicies t) (others exConnectionID c (tbExposures t)) (tbWorkflows t) (tbActivity t)
    (delete c (tbEvents t)) (delete c (tbCheckpoints t)).

Lemma deletePlacements_all c i :
  index_ok i ->
  ixPlacements (deletePlacements (filter (fun kx => plConnectionID kx.2 = c) (map_to_list (ixPlacements i))) i) =
    filter (fun kx => plConnectionID kx.2 <> c) (ixPlacements i).
Proof.
  intros Hi. apply map_eq. intros k. set (kps := filter _ _). destruct (deletePlacements_spec kps i Hi) as (_ & -> & _).
  assert (k ∈ kps.*1 <-> exists p, ixPlacements i !! k = Some p /\ plConnectionID p = c) as Hk.
  { subst kps. rewrite list_elem_of_fmap. split.
    - intros ([k' p] & -> & [Hc Hp%elem_of_map_to_list]%list_elem_of_filter). by exists p.
    - intros (p & Hp & Hc). exists (k, p). split; [done|]. apply list_elem_of_filter. split; [done|by apply elem_of_map_to_list]. }
  symmetry. destruct (decide _) as [Hd|Hd]; rewrite Hk in Hd.
  - apply map_lookup_filter_None. right. intros p Hp. destruct Hd as (q & Hq & Hc). simpl. intros []. congruence.
  - destruct (ixPlacements i !! k) as [p|] eqn:E; [|by apply map_lookup_filter_None; left].
    apply map_lookup_filter_Some. split; [done|]. simpl. intros Hc. apply Hd. by exists p.
Qed.

Lemma deleteConnection_spec c i :
  index_ok i -> index_ok (deleteConnection c i) /\ tablesOf (deleteConnection c i) = purge c (tablesOf i).
Proof.
  intros Hi. unfold deleteConnection. set (i1 := setConnections (delete c (ixConnections i)) i). simpl.
  set (i2 := setIdentities _ i1).
  assert (index_ok i2) as H2.
  { index_field Hi. by apply famDeleteWhere_spec. }
  set (kps := filter (fun kx => plConnectionID kx.2 = c) _). destruct (deletePlacements_spec kps i2 H2) as (H3 & _ & E3).
  pose proof (deletePlacements_all c i2 H2) as Hp. change (ixPlacements i2) with (ixPlacements i) in Hp. fold kps in Hp.
  set (i3 := deletePlacements kps i2) in *.
  assert (ixConversations i3 = ixConversations i /\ ixContainers i3 = ixContainers i /\ ixMessages i3 = ixMessages i /\
    ixDrafts i3 = ixDrafts i /\ ixApprovals i3 = ixApprovals i /\ ixExposures i3 = ixExposures i /\ ixPolicies i3 = ixPolicies i /\
    ixWorkflows i3 = ixWorkflows i /\ ixActivity i3 = ixActivity i /\ ixEvents i3 = ixEvents i /\ ixCheckpoints i3 = ixCheckpoints i /\
    ixConnections i3 = delete c (ixConnections i) /\ ixIdentities i3 = ixIdentities i2) as (E & E0 & E1 & E2 & E4 & E5 & E6 & E7 & E8 & E9 & E10 & E11 & E12).
  { rewrite E3. done. }
  split.
  - index_field H3; try (by apply famDeleteWhere_spec); try by apply logs_delete. by apply approvals_purged.
  - unfold purge, tablesOf, others. simpl. rewrite E12, Hp, E11, E, E0, E1, E2, E4, E5, E6, E7, E8, E9, E10. destruct Hi.
    f_equal; by eapply famDeleteWhere_spec.
Qed.

(** *** Rebuilding the index *)

(** What a component of the index becomes when records are put one by one. *)
Lemma foldl_unmoved {A F} (T : recordIndex -> F) (put : A -> recordIndex -> recordIndex) xs i :
  (forall x i, T (put x i) = T i) -> T (foldl (fun i x => put x i) i xs) = T i.
Proof. intros H. revert i. induction xs as [|x xs IH]; intros i; [done|]. simpl. by rewrite IH, H. Qed.

Lemma foldl_step {A F} (T : recordIndex -> F) (put : A -> recordIndex -> recordIndex) (step : F -> A -> F) xs i :
  (forall x i, T (put x i) = step (T i) x) -> T (foldl (fun i x => put x i) i xs) = foldl step (T i) xs.
Proof. intros H. revert i. induction xs as [|x xs IH]; intros i; [done|]. simpl. by rewrite IH, H. Qed.

Lemma foldl_keep {A} (P : recordIndex -> Prop) (put : A -> recordIndex -> recordIndex) xs i :
  (forall x i, P i -> P (put x i)) -> P i -> P (foldl (fun i x => put x i) i xs).
Proof. intros H. revert i. induction xs as [|x xs IH]; intros i Hi; [done|]. apply IH. by apply H. Qed.

Lemma foldl_pairs {A} `{Countable K} (l : list (K * A)) (m0 : gmap K A) :
  foldl (fun m '(k, x) => <[k := x]> m) m0 l = (list_to_map (reverse l) : gmap K A) ∪ m0.
Proof.
  revert m0. induction l as [|[k x] l IH]; intros m0; [by simpl; rewrite map_empty_union|]. simpl. rewrite IH, reverse_cons, list_to_map_app.
  simpl. by rewrite insert_empty, <- (assoc_L (∪)), <- insert_union_singleton_l.
Qed.

Lemma foldl_insert_map {A} `{Countable K} (key : A -> K) (m : gmap K A) xs :
  (forall k x, m !! k = Some x -> key x = k) -> xs ≡ₚ (map_to_list m).*2 -> foldl (fun m x => <[key x := x]> m) ∅ xs = m.
Proof.
  intros Hk Hp.
  assert (forall m0 : gmap K A, foldl (fun m x => <[key x := x]> m) m0 xs = (list_to_map (reverse ((fun x => (key x, x)) <$> xs)) : gmap K A) ∪ m0) as ->.
  { clear Hp. intros m0. rewrite <- foldl_pairs. revert m0. induction xs as [|x xs IH]; intros m0; [done|]. apply IH. }
  rewrite map_union_empty, <- fmap_reverse. rewrite <- (list_to_map_to_list m). apply list_to_map_proper.
  - rewrite <- list_fmap_compose. simpl. assert ((key <$> reverse xs) ≡ₚ (map_to_list m).*1) as Hkeys.
    { rewrite reverse_Permutation, Hp, <- list_fmap_compose. apply reflexive_eq, list_fmap_ext. intros i [k x] Hkx. simpl.
      apply Hk, elem_of_map_to_list. by eapply list_elem_of_lookup_2. }
    change (NoDup (key <$> reverse xs)). rewrite Hkeys. apply NoDup_fst_map_to_list.
  - rewrite reverse_Permutation, Hp, <- list_fmap_compose. rewrite <- (list_fmap_id (map_to_list m)) at 2.
    apply reflexive_eq, list_fmap_ext. intros i [k x] Hkx. simpl. f_equal. apply Hk, elem_of_map_to_list. by eapply list_elem_of_lookup_2.
Qed.

Lemma map_rebuilt {A} `{Countable K} (key : A -> K) lt (m : gmap K A) :
  (forall k x, m !! k = Some x -> key x = k) -> foldl (fun m x => <[key x := x]> m) ∅ (sortBy lt (map_to_list m).*2) = m.
Proof. intros Hm. apply foldl_insert_map; [done|apply sortBy_perm]. Qed.

(** Logs read back, event by event. *)
Definition appendLog {A} (lt : A -> A -> bool) (k : string) (m : gmap string (list A)) (e : A) : gmap string (list A) :=
  <[k := sortBy lt (default [] (m !! k) ++ [e])]> m.

Lemma append_sorted {A} (lt : A -> A -> bool) k es acc m :
  StronglySorted (fun x y => lt y x = false) (acc ++ es) ->
  foldl (appendLog lt k) (<[k := acc]> m) es = <[k := acc ++ es]> m.
Proof.
  revert acc. induction es as [|e es IH]; intros acc Hs; [by rewrite app_nil_r|]. simpl. unfold appendLog at 2.
  rewrite lookup_insert_eq. simpl. rewrite (cons_middle e acc es) in Hs. rewrite sortBy_sorted_id.
  - rewrite insert_insert_eq, IH; [by rewrite <- app_assoc|]. by rewrite <- app_assoc.
  - rewrite app_assoc in Hs. by apply StronglySorted_app_1_l in Hs.
Qed.

Lemma logs_rebuilt {A} (lt : A -> A -> bool) (m : gmap string (list A)) :
  logs_ok lt m -> foldl (fun m '(k, es) => foldl (appendLog lt k) m es) ∅ (map_to_list m) = m.
Proof.
  intros Hm. rewrite <- (list_to_map_to_list m) at 2.
  assert (forall k es, (k, es) ∈ map_to_list m -> es <> [] /\ StronglySorted (fun x y => lt y x = false) es) as Hl.
  { intros k es Hk%elem_of_map_to_list. by apply (Hm k). }
  pose proof (NoDup_fst_map_to_list m) as Hnd. revert Hl Hnd. generalize (map_to_list m). intros l.
  assert (forall m0 : gmap string (list A), (forall k es, (k, es) ∈ l -> es <> [] /\ StronglySorted (fun x y => lt y x = false) es) -> NoDup l.*1 ->
    (forall k, k ∈ l.*1 -> m0 !! k = None) ->
    foldl (fun m '(k, es) => foldl (appendLog lt k) m es) m0 l = (list_to_map l : gmap string (list A)) ∪ m0) as E.
  { induction l as [|[k es] l IH]; intros m0 Hl Hnd Hno; [by simpl; rewrite map_empty_union|]. csimpl.
    apply NoDup_cons in Hnd as [Hk Hnd]. destruct (Hl k es) as [Hne Hs]; [left|].
    assert (foldl (appendLog lt k) m0 es = <[k := es]> m0) as ->.
    { destruct es as [|e es]; [done|]. simpl. unfold appendLog at 2. rewrite Hno by left. simpl.
      by apply (append_sorted lt k es [e]). }
    rewrite IH; [|intros j fs Hj; apply (Hl j fs); by right|done|].
    - cbn [list_to_map foldr]. rewrite <- insert_union_l. symmetry. apply insert_union_r. by apply not_elem_of_list_to_map_1.
    - intros j Hj. rewrite lookup_insert_ne by (by intros ->). apply Hno. by right. }
  intros Hl Hnd. rewrite E, map_union_empty; [done|done|done|]. intros k _. apply lookup_empty.
Qed.

Lemma pairs_rebuilt {A} `{Countable K} (m : gmap K A) : foldl (fun m '(k, x) => <[k := x]> m) ∅ (map_to_list m) = m.
Proof.
  rewrite foldl_pairs, map_union_empty. rewrite <- (list_to_map_to_list m) at 2. apply list_to_map_proper.
  - rewrite reverse_Permutation. apply NoDup_fst_map_to_list.
  - apply reverse_Permutation.
Qed.

Ltac each_put T := intros; repeat match goal with p : (_ * _)%type |- _ => destruct p end; first [done | by apply (foldl_unmoved T) | by apply (foldl_step T)].

(** The component [T] of a rebuilt index, built by the puts of [step] alone. *)
Ltac rebuilt T step :=
  unfold newRecordIndex; rewrite ?(foldl_unmoved T) by each_put T; rewrite (foldl_step T _ step) by each_put T;
  rewrite ?(foldl_unmoved T) by each_put T.

Lemma messagingIndex_ok s : index_ok (newRecordIndex s).
Proof.
  unfold newRecordIndex. repeat (apply (foldl_keep index_ok); [intros ? ?|]).
  all: try apply emptyIndex_ok.
  all: auto using putConnection_ok, putIdentity_ok, putConversation_ok, putContainer_ok, putPlacement_ok, putMessage_ok, putDraft_ok,
    putApproval_ok, putPolicy_ok, putExposure_ok, putWorkflow_ok.
  all: destruct x as [k y]; try apply putCheckpoint_ok.
  - intros Hi. apply (foldl_keep index_ok); [|done]. intros. by apply appendEvent_ok.
  - intros Hi. apply (foldl_keep index_ok); [|done]. intros. by apply appendActivityEvent_ok.
Qed.

Lemma newRecordIndex_tables i : index_ok i -> tablesOf (newRecordIndex (indexSnapshot i)) = tablesOf i.
Proof.
  intros Hi. unfold tablesOf. f_equal.
  - rebuilt ixConnections (fun (m : gmap string Connection) x => <[cnID x := x]> m). apply map_rebuilt, Hi.
  - rebuilt (fun i : recordIndex => fmAll (ixIdentities i)) (fun (m : gmap string Identity) x => <[idID x := x]> m). apply map_rebuilt, Hi.
  - rebuilt (fun i : recordIndex => fmAll (ixConversations i)) (fun (m : gmap string Conversation) x => <[cvID x := x]> m). apply map_rebuilt, Hi.
  - rebuilt (fun i : recordIndex => fmAll (ixContainers i)) (fun (m : gmap string Container) x => <[ctID x := x]> m). apply map_rebuilt, Hi.
  - rebuilt ixPlacements (fun (m : gmap (string * string) Placement) x => <[(plMessageID x, plContainerID x) := x]> m). apply (map_rebuilt (fun x => (plMessageID x, plContainerID x))).
    intros [m c] x Hx. by destruct (po_key _ _ _ (io_placements _ Hi) _ _ _ Hx) as [-> ->].
  - rebuilt (fun i : recordIndex => fmAll (ixMessages i)) (fun (m : gmap string Message) x => <[msID x := x]> m). apply map_rebuilt, Hi.
  - rebuilt (fun i : recordIndex => fmAll (ixDrafts i)) (fun (m : gmap string Draft) x => <[drID x := x]> m). apply map_rebuilt, Hi.
  - rebuilt (fun i : recordIndex => fmAll (ixApprovals i)) (fun (m : gmap string Approval) x => <[apID x := x]> m). apply map_rebuilt, Hi.
  - rebuilt ixPolicies (fun (m : gmap string Policy) x => <[poID x := x]> m). apply map_rebuilt, Hi.
  - rebuilt (fun i : recordIndex => fmAll (ixExposures i)) (fun (m : gmap string Exposure) x => <[exID x := x]> m). apply map_rebuilt, Hi.
  - rebuilt ixWorkflows (fun (m : gmap string Workflow) x => <[wfID x := x]> m). apply map_rebuilt, Hi.
  - rebuilt ixActivity (fun (m : gmap string (list ActivityEvent)) '((k, es) : string * list ActivityEvent) => foldl (appendLog activity_lt k) m es). apply logs_rebuilt, Hi.
  - rebuilt ixEvents (fun (m : gmap string (list Event)) '((k, es) : string * list Event) => foldl (appendLog event_lt k) m es). apply logs_rebuilt, Hi.
  - rebuilt ixCheckpoints (fun (m : gmap string Checkpoint) '((k, x) : string * Checkpoint) => <[k := x]> m). apply pairs_rebuilt.
Qed.

(** ** Histories of the index *)

Inductive index_op :=
| OpPutConnection (x : Connection) | OpDeleteConnection (c : string) | OpPutIdentity (x : Identity)
| OpReplaceIdentities (c : string) (xs : list Identity) | OpPutConversation (x : Conversation) | OpPutContainer (x : Container)
| OpPutPlacement (x : Placement) | OpDeletePlacement (m c : string) | OpPutMessage (x : Message) | OpPutDraft (x : Draft)
| OpPutApproval (x : Approval) | OpPutPolicy (x : Policy) | OpPutExposure (x : Exposure) | OpPutWorkflow (x : Workflow)
| OpAppendActivity (e : ActivityEvent) | OpAppendEvent (e : Event)
| OpPutCheckpoint (c : string) (x : Checkpoint).

Definition run_index (i : recordIndex) (op : index_op) : recordIndex :=
  match op with
  | OpPutConnection x => putConnection x i
  | OpDeleteConnection c => deleteConnection c i
  | OpPutIdentity x => putIdentity x i
  | OpReplaceIdentities c xs => replaceConnectionIdentities c xs i
  | OpPutConversation x => putConversation x i
  | OpPutContainer x => putContainer x i
  | OpPutPlacement x => putPlacement x i
  | OpDeletePlacement m c => deletePlacement m c i
  | OpPutMessage x => putMessage x i
  | OpPutDraft x => putDraft x i
  | OpPutApproval x => putApproval x i
  | OpPutPolicy x => putPolicy x i
  | OpPutExposure x => putExposure x i
  | OpPutWorkflow x => putWorkflow x i
  | OpAppendActivity e => appendActivityEvent (aeWorkflowID e) e i
  | OpAppendEvent e => appendEvent (evConnectionID e) e i
  | OpPutCheckpoint c x => putCheckpoint c x i
  end.

(** What the store checks before it replaces identities. *)
Definition op_scoped (op : index_op) : Prop :=
  match op with OpReplaceIdentities c xs => Forall (fun x => idConnectionID x = c) xs | _ => True end.

Lemma run_index_ok i op : op_scoped op -> index_ok i -> index_ok (run_index i op).
Proof.
  intros Hop Hi. destruct op; simpl;
    auto using putConnection_ok, putIdentity_ok, putConversation_ok, putContainer_ok, putPlacement_ok, putMessage_ok, putDraft_ok,
      putApproval_ok, putPolicy_ok, putExposure_ok, putWorkflow_ok, deletePlacement_ok, appendActivityEvent_ok, appendEvent_ok,
      putCheckpoint_ok, replaceConnectionIdentities_ok.
  by apply deleteConnection_spec.
Qed.

Lemma history_ok ops : Forall op_scoped ops -> index_ok (foldl run_index emptyIndex ops).
Proof.
  intros Hops. assert (forall i, index_ok i -> index_ok (foldl run_index i ops)) as H; [|apply H, emptyIndex_ok].
  induction Hops as [|op ops Hop Hops IH]; intros i Hi; [done|]. apply IH. by apply run_index_ok.
Qed.

(** Every listing, as a filter of the primary map in the listing's order. *)
Record lists_tables (i : recordIndex) (t : tables) : Prop := {
  lt_identities c : listConnectionIdentities c i = sortBy identity_lt (members idConnectionID c (tbIdentities t));
  lt_conversations c : listConnectionConversations c i = sortBy conversation_lt (members cvConnectionID c (tbConversations t));
  lt_containers c : listConnectionContainers c i = sortBy container_lt (members ctConnectionID c (tbContainers t));
  lt_messages c : listConversationMessages c i = sortBy message_lt (members msConversationID c (tbMessages t));
  lt_drafts c : listConversationDrafts c i = sortBy (byID drID) (members drConversationID c (tbDrafts t));
  lt_approvals d : listDraftApprovals d i = sortBy approval_lt (members apDraftID d (tbApprovals t));
  lt_connection_approvals c : listConnectionApprovals c i = sortBy approval_gt (members apConnectionID c (tbApprovals t));
  lt_exposures c : listConnectionExposures c i = sortBy exposure_lt (members exConnectionID c (tbExposures t));
  lt_message_placements m : listMessagePlacements m i =
    sortBy (byID plContainerID) (filter (fun p => plMessageID p = m) (map_to_list (tbPlacements t)).*2);
  lt_container_placements c : listContainerPlacements c i =
    sortBy (byID plMessageID) (filter (fun p => plContainerID p = c) (map_to_list (tbPlacements t)).*2)
}.

(** Placements of one message, or in one container: [sel] says which, [key]
    tells them apart and [at_] is where they are kept. *)
Lemma placements_keys (key sel : Placement -> string) (at_ : string -> string * string) m (l : list ((string * string) * Placement)) :
  NoDup l.*1 -> (forall k x, (k, x) ∈ l -> sel x = m -> k = at_ (key x)) -> NoDup (map key (filter (fun p => sel p = m) l.*2)).
Proof.
  induction l as [|[k x] l IH]; intros Hnd Hk; [constructor|]. csimpl. apply NoDup_cons in Hnd as [Hx Hnd].
  destruct (decide (sel x = m)) as [Hs|Hs].
  - rewrite filter_cons_True by done. csimpl. constructor; [|apply IH; [done|]; intros; apply Hk; [by right|done]].
    intros (y & Hxy & [Hsy ([k' y'] & -> & Hy)%list_elem_of_fmap]%list_elem_of_filter)%list_elem_of_fmap. simpl in *. apply Hx.
    apply list_elem_of_fmap. exists (k', y'). split; [|done]. simpl.
    rewrite (Hk k x) by (done || left). rewrite (Hk k' y') by (done || by right). by rewrite Hxy.
  - rewrite filter_cons_False by done. apply IH; [done|]. intros; apply Hk; [by right|done].
Qed.

Lemma placements_listed (pl : gmap (string * string) Placement) (key sel : Placement -> string) (at_ : string -> string * string) ids m :
  (forall k x, pl !! k = Some x -> sel x = m -> k = at_ (key x)) ->
  (forall j x, pl !! at_ j = Some x -> key x = j /\ sel x = m) ->
  NoDup ids -> (forall j, j ∈ ids <-> is_Some (pl !! at_ j)) ->
  sortBy (byID key) (omap (fun j => pl !! at_ j) ids) =
    sortBy (byID key) (filter (fun p => sel p = m) (map_to_list pl).*2).
Proof.
  intros Hsel Hkey Hnd Hids. apply (omap_sorted key); [auto with order|done| |by intros k x [? _]%Hkey|].
  - apply (placements_keys key sel at_); [apply NoDup_fst_map_to_list|]. intros k x Hx%elem_of_map_to_list. by apply Hsel.
  - intros x. rewrite list_elem_of_filter, list_elem_of_fmap. split.
    + intros [Hx ([k y] & -> & Hy%elem_of_map_to_list)]. simpl in *. exists (key y). rewrite (Hsel _ _ Hy Hx) in Hy.
      split; [apply Hids; by eexists|done].
    + intros (j & Hj & Hx). split; [by eapply Hkey|]. exists (at_ j, x). split; [done|by apply elem_of_map_to_list].
Qed.

Lemma lists_tables_ok i : index_ok i -> lists_tables i (tablesOf i).
Proof.
  intros Hi. pose proof (io_placements _ Hi) as [Hk Hm Hc]. destruct Hi. split; intros p.
  1-6, 8: eapply famList_spec; [done|unfold identity_lt, conversation_lt, container_lt, message_lt, approval_lt, exposure_lt;
    auto 10 with order].
  - apply (famList_spec apID apConnectionID approval_gt p (mkFamily (fmAll (ixApprovals i)) (ixApprovalsByConnection i))).
    + split; [apply io_approvals0|done].
    + unfold approval_gt. auto with order.
  - apply (placements_listed _ plContainerID plMessageID (fun c => (p, c))).
    + intros [m c] x Hx <-. by destruct (Hk _ _ _ Hx) as [-> ->].
    + intros c x Hx. by destruct (Hk _ _ _ Hx) as [-> ->].
    + apply Hm.
    + apply Hm.
  - apply (placements_listed _ plMessageID plContainerID (fun m => (m, p))).
    + intros [m c] x Hx <-. by destruct (Hk _ _ _ Hx) as [-> ->].
    + intros m x Hx. by destruct (Hk _ _ _ Hx) as [-> ->].
    + apply Hc.
    + apply Hc.
Qed.

(** C29 (equivalence). After any history of the index every listing is the
    primary map filtered by the parent, in the listing's order: no record is
    listed twice, below a parent it has left, or not at all. *)
Theorem msg_listings_exact ops (Hops : Forall op_scoped ops) :
  lists_tables (foldl run_index emptyIndex ops) (tablesOf (foldl run_index emptyIndex ops)).
Proof. by apply lists_tables_ok, history_ok. Qed.

(** The snapshot of an index rebuilds it: the same records, the
    same event logs in the same order, and the same listings. *)
Theorem msg_snapshot_rebuilds ops (Hops : Forall op_scoped ops) :
  let i := foldl run_index emptyIndex ops in
  let j := newRecordIndex (indexSnapshot i) in
  tablesOf j = tablesOf i /\ lists_tables j (tablesOf i).
Proof.
  intros i j. assert (tablesOf j = tablesOf i) as E by by apply newRecordIndex_tables, history_ok.
  split; [done|]. rewrite <- E. by apply lists_tables_ok, messagingIndex_ok.
Qed.

(** Deleting a connection removes it and all that belongs to
    it from the maps and from every listing; policies, workflows with their
    activity and the records of other connections stay. *)
Theorem msg_delete_connection_exact ops c (Hops : Forall op_scoped ops) :
  let i := foldl run_index emptyIndex ops in
  let j := deleteConnection c i in
  tablesOf j = purge c (tablesOf i) /\ lists_tables j (purge c (tablesOf i)).
Proof.
  intros i j. destruct (deleteConnection_spec c i (history_ok _ Hops)) as [Hj E]. split; [done|].
  rewrite <- E. by apply lists_tables_ok.
Qed.

(** ** Two connections *)

Module Demo.
Definition noAuth : AuthInfo := mkAuth "" "" "" "" None [].
Definition conn (c : string) : Connection := mkConnection c "imap" ("Mail " +:+ c) ConnectionStatusConnected noAuth "" ∅ 1 1.
Definition ident_ (i c : string) (default_ : bool) : Identity := mkIdentity i c "email" "" (i +:+ "@example.org") i true true default_ ∅.
Definition conv (v c : string) : Conversation := mkConversation v c "id-1" "thread" "" ("About " +:+ v) [] "" ∅.
Definition person : Participant := mkParticipant "" "contact" "" "bo@example.org" "Bo" "" false ∅.
Definition part : MessagePart := mkPart MessagePartKindText "" "hello" "" "" 0 ∅.
Definition msg (m v c : string) (at_ : Time) : Message := mkMessage m c v "id-1" "" "inbound" person [part] at_ None "" "received" ∅.
Definition draft_ (d v c : string) : Draft := mkDraft d c v "id-1" "" "" [part] DraftStatusPending ∅.
Definition approval (a d c : string) (at_ : Time) : Approval :=
  mkApproval a c d "w-1" "" "" "" "send_message" "hello" "" ApprovalStatusPending "agent" at_ "" None ∅.
Definition event (e c : string) (at_ : Time) : Event := mkEvent e EventTypeDraftUpdated c "" "" "" "" at_ ∅.

(** A message moves to another conversation, identities are replaced, events
    arrive out of order. *)
Definition ops : list index_op :=
  [OpPutConnection (conn "a"); OpPutConnection (conn "b"); OpPutIdentity (ident_ "id-1" "a" false); OpPutIdentity (ident_ "id-2" "b" true);
   OpPutConversation (conv "v1" "a"); OpPutConversation (conv "v2" "b"); OpPutMessage (msg "m2" "v1" "a" 20); OpPutMessage (msg "m1" "v1" "a" 10);
   OpPutMessage (msg "m3" "v1" "a" 30); OpPutMessage (msg "m3" "v2" "b" 30); OpPutPlacement (mkPlacement "m1" "a" "inbox" "" ∅);
   OpPutPlacement (mkPlacement "m2" "a" "inbox" "" ∅); OpPutDraft (draft_ "d1" "v1" "a"); OpPutApproval (approval "a1" "d1" "a" 5);
   OpReplaceIdentities "a" [ident_ "id-3" "a" true; ident_ "id-1" "a" false]; OpAppendEvent (event "e2" "a" 9); OpAppendEvent (event "e1" "a" 7)].

Definition index : recordIndex := foldl run_index emptyIndex ops.

Lemma ops_scoped : Forall op_scoped ops.
Proof. repeat constructor. Qed.

Lemma shown :
  map msID (listConversationMessages "v1" index) = ["m1"; "m2"] /\ map msID (listConversationMessages "v2" index) = ["m3"] /\
  map idID (listConnectionIdentities "a" index) = ["id-3"; "id-1"] /\ map plMessageID (listContainerPlacements "inbox" index) = ["m1"; "m2"] /\
  map evID (default [] (ixEvents index !! "a")) = ["e1"; "e2"].
Proof. vm_compute. done. Qed.
End Demo.

Lemma msg_listings_exact_witness : lists_tables Demo.index (tablesOf Demo.index).
Proof. exact (msg_listings_exact Demo.ops Demo.ops_scoped). Defined.

Lemma msg_snapshot_rebuilds_witness :
  tablesOf (newRecordIndex (indexSnapshot Demo.index)) = tablesOf Demo.index /\
  lists_tables (newRecordIndex (indexSnapshot Demo.index)) (tablesOf Demo.index).
Proof. exact (msg_snapshot_rebuilds Demo.ops Demo.ops_scoped). Defined.

Lemma msg_delete_connection_exact_witness :
  tablesOf (deleteConnection "a" Demo.index) = purge "a" (tablesOf Demo.index) /\
  lists_tables (deleteConnection "a" Demo.index) (purge "a" (tablesOf Demo.index)).
Proof. exact (msg_delete_connection_exact Demo.ops "a" Demo.ops_scoped). Defined.
