(* ===== verification/MessagingKV.v ===== *)
(** * Messaging records on a key-value store (pkg/messaging/store: store.go,
    backend.go, kv.go)

    A [Store] validates a record, hands it to its [MessagingBackend] and then
    puts it in the index; [KVBackend] is the backend on the interface of
    [Collections].  A family of records is a [Kind]: its collection below the
    root, its key and its validation.  [backs] relates the keys of a store to an
    index; every operation of the store keeps it, so a reload finds the index. *)

From Stdlib Require Import Ascii.
From stdpp Require Import base numbers list gmap strings sorting.
From S2P Require Import Prelude GoStrings GoStrconv GoText Collections Messaging MessagingStore.

(** ** Kinds of records *)

(** [json.Marshal] and [json.Unmarshal] at a record type; [wire] holds of the
    records that JSON keeps: valid UTF-8, UTC times, no empty slice or map that
    [omitempty] turns into [nil]. *)
Class RecordJSON (A : Type) := {
  marshal : A -> result string string;
  unmarshal : string -> result string A;
  wire : A -> Prop;
  unmarshal_marshal x : wire x -> exists raw, marshal x = Ok raw /\ unmarshal raw = Ok x
}.

Class MessagingJSON := {
  js_connection :: RecordJSON Connection;
  js_identity :: RecordJSON Identity;
  js_conversation :: RecordJSON Conversation;
  js_container :: RecordJSON Container;
  js_placement :: RecordJSON Placement;
  js_message :: RecordJSON Message;
  js_draft :: RecordJSON Draft;
  js_approval :: RecordJSON Approval;
  js_policy :: RecordJSON Policy;
  js_exposure :: RecordJSON Exposure;
  js_workflow :: RecordJSON Workflow;
  js_activity :: RecordJSON ActivityEvent;
  js_event :: RecordJSON Event;
  js_checkpoint :: RecordJSON Checkpoint
}.

(** [base64.RawURLEncoding]. *)
Definition encodeKeyPart (value : string) : string := b64encode true false value.

(** A collection below the root: the records are told apart by [kdIdent] and
    kept at [kdPath] of it. *)
Record Kind (A K : Type) := mkKind {
  kdName : string;
  kdLabel : string;
  kdIdent : A -> K;
  kdPath : K -> string;
  kdValidate : A -> result string unit
}.
Arguments mkKind {A K}.
Arguments kdName {A K}.
Arguments kdLabel {A K}.
Arguments kdIdent {A K}.
Arguments kdPath {A K}.
Arguments kdValidate {A K}.

Definition connectionKind : Kind Connection string := mkKind "connections" "connection" cnID encodeKeyPart Connection_Validate.
Definition identityKind : Kind Identity string := mkKind "identities" "identity" idID encodeKeyPart Identity_Validate.
Definition conversationKind : Kind Conversation string :=
  mkKind "conversations" "conversation" cvID encodeKeyPart Conversation_Validate.
Definition containerKind : Kind Container string := mkKind "containers" "container" ctID encodeKeyPart Container_Validate.
Definition placementKind : Kind Placement (string * string) :=
  mkKind "placements" "placement" (fun p => (plMessageID p, plContainerID p))
    (fun '(m, c) => encodeKeyPart m +:+ "/" +:+ encodeKeyPart c) Placement_Validate.
Definition messageKind : Kind Message string := mkKind "messages" "message" msID encodeKeyPart Message_Validate.
Definition draftKind : Kind Draft string := mkKind "drafts" "draft" drID encodeKeyPart Draft_Validate.
Definition approvalKind : Kind Approval string := mkKind "approvals" "approval" apID encodeKeyPart Approval_Validate.
Definition policyKind : Kind Policy string := mkKind "policies" "policy" poID encodeKeyPart Policy_Validate.
Definition exposureKind : Kind Exposure string := mkKind "exposures" "exposure" exID encodeKeyPart Exposure_Validate.
Definition workflowKind : Kind Workflow string := mkKind "workflows" "workflow" wfID encodeKeyPart Workflow_Validate.

(** ** The KV backend (kv.go) *)

Definition NewKVBackend_root (root : string) : string :=
  let root := TrimSuffix (TrimSpace root) "/" in
  if bool_decide (root = "") then "messaging" else root.

(** What an append to a log reads: the clock and a fresh UUID. *)
Record LogEnv := mkLogEnv { leNow : Time; leUUID : string }.

Section KVBackend.
Context {S : Type} `{KV : !KVStore S} `{JS : !MessagingJSON}.
Variable root : string.   (** of [NewKVBackend] *)
Implicit Types s : S.

Definition kindPrefix {A K} (k : Kind A K) : string := root +:+ "/" +:+ kdName k.
Definition kindKey {A K} (k : Kind A K) (ident : K) : string := kindPrefix k +:+ "/" +:+ kdPath k ident.
Definition activityLogPrefix (workflowID : string) : string := root +:+ "/activity/" +:+ encodeKeyPart workflowID.
Definition eventLogPrefix (connectionID : string) : string := root +:+ "/events/" +:+ encodeKeyPart connectionID.
Definition checkpointKey (connectionID : string) : string := root +:+ "/checkpoints/" +:+ encodeKeyPart connectionID.

Definition putJSON (key : string) (json : result string string) s : S * result string unit :=
  match json with
  | Err e => (s, Err e)
  | Ok body => kvSet s key body
  end.

(** The [Put...] of a kind. *)
Definition kvPut {A K} `{RecordJSON A} (k : Kind A K) (x : A) s : S * result string unit :=
  putJSON (kindKey k (kdIdent k x)) (marshal x) s.

(** The decoder that the [list...] of a kind passes on. *)
Definition decodeValid {A} `{RecordJSON A} (validate : A -> result string unit) (raw : string) : result string A :=
  match unmarshal raw with
  | Err e => Err e
  | Ok value => match validate value with Err e => Err e | Ok _ => Ok value end
  end.

Fixpoint collectKeys {A} (label : string) (decode : string -> result string A) s (keys : list string) : result string (list A) :=
  match keys with
  | [] => Ok []
  | key :: keys =>
      match kvGet s key with
      | None => collectKeys label decode s keys
      | Some raw =>
          match decode raw with
          | Err e => Err ("parse " +:+ label +:+ " " +:+ key +:+ ": " +:+ e)
          | Ok value =>
              match collectKeys label decode s keys with Err e => Err e | Ok values => Ok (value :: values) end
          end
      end
  end.

Definition listKVCollection {A} (prefix label : string) (decode : string -> result string A) s : result string (list A) :=
  collectKeys label decode s (kvList s (prefix +:+ "/")).

(** The [list...] of a kind. *)
Definition kvListKind {A K} `{RecordJSON A} (k : Kind A K) s : result string (list A) :=
  listKVCollection (kindPrefix k) (kdLabel k) (decodeValid (kdValidate k)) s.

(** [listActivityEvents] and [listEvents]. *)
Definition listLog {A} `{RecordJSON A} (validate : A -> result string unit) (what prefix : string) s : result string (list A) :=
  match logList (normalizeCollectionPrefix prefix) s with
  | Err e => Err e
  | Ok entries =>
      foldr (fun entry rest =>
        match decodeValid validate (aValue entry) with
        | Err e => Err ("parse " +:+ what +:+ " " +:+ aID entry +:+ ": " +:+ e)
        | Ok e => match rest with Err e => Err e | Ok es => Ok (e :: es) end
        end) (Ok []) entries
  end.

Definition listActivityEvents (workflowID : string) s : result string (list ActivityEvent) :=
  listLog ActivityEvent_Validate "activity event" (activityLogPrefix workflowID) s.
Definition listEvents (connectionID : string) s : result string (list Event) :=
  listLog Event_Validate "event" (eventLogPrefix connectionID) s.

(** [getCheckpoint]. *)
Definition readCheckpoint (connectionID : string) s : result string (option Checkpoint) :=
  match kvGet s (checkpointKey connectionID) with
  | None => Ok None
  | Some raw => match unmarshal raw with Err e => Err ("parse checkpoint: " +:+ e) | Ok c => Ok (Some c) end
  end.

(** The two loops of [Load] over workflows and connections. *)
Fixpoint loadActivity (workflows : list Workflow) s : result string (gmap string (list ActivityEvent)) :=
  match workflows with
  | [] => Ok ∅
  | w :: workflows =>
      match listActivityEvents (wfID w) s with
      | Err e => Err e
      | Ok events =>
          match loadActivity workflows s with
          | Err e => Err e
          | Ok m => Ok (if bool_decide (events = []) then m else <[wfID w := events]> m)
          end
      end
  end.

Fixpoint loadConnections (connections : list Connection) s
  : result string (gmap string (list Event) * gmap string Checkpoint) :=
  match connections with
  | [] => Ok (∅, ∅)
  | c :: connections =>
      match listEvents (cnID c) s, readCheckpoint (cnID c) s with
      | Err e, _ => Err e
      | Ok _, Err e => Err e
      | Ok events, Ok checkpoint =>
          match loadConnections connections s with
          | Err e => Err e
          | Ok (es, cs) =>
              Ok (if bool_decide (events = []) then es else <[cnID c := events]> es,
                  match checkpoint with Some x => <[cnID c := x]> cs | None => cs end)
          end
      end
  end.

Notation "'let?' x := e1 'in' e2" := (match e1 with Err err => Err err | Ok x => e2 end) (at level 200, x name).

Definition Load s : result string Snapshot :=
  let? connections := kvListKind connectionKind s in
  let? identities := kvListKind identityKind s in
  let? conversations := kvListKind conversationKind s in
  let? containers := kvListKind containerKind s in
  let? placements := kvListKind placementKind s in
  let? messages := kvListKind messageKind s in
  let? drafts := kvListKind draftKind s in
  let? approvals := kvListKind approvalKind s in
  let? policies := kvListKind policyKind s in
  let? exposures := kvListKind exposureKind s in
  let? workflows := kvListKind workflowKind s in
  let? activity := loadActivity workflows s in
  let? logs := loadConnections connections s in
  Ok (mkSnapshot connections identities conversations containers placements messages drafts approvals policies exposures workflows
    activity logs.1 logs.2).

Fixpoint deleteSeen (seen keys : list string) s : S * result string unit :=
  match keys with
  | [] => (s, Ok tt)
  | key :: keys =>
      if isBlank key || bool_decide (key ∈ seen) then deleteSeen seen keys s
      else match kvDelete s key with
           | (s, Err e) => (s, Err ("delete " +:+ key +:+ ": " +:+ e))
           | (s, Ok _) => deleteSeen (key :: seen) keys s
           end
  end.

Definition deleteKeys (keys : list string) s : S * result string unit := deleteSeen [] keys s.

(** The keys of the records of a connection. *)
Definition keysOf {A K} (k : Kind A K) (conn : A -> string) (c : string) (xs : list A) : list string :=
  map (fun x => kindKey k (kdIdent k x)) (filter (fun x => conn x = c) xs).

Definition connectionKeys (c : string) (n : Snapshot) s : list string :=
  [kindKey connectionKind c; checkpointKey c] ++ keysOf identityKind idConnectionID c (snIdentities n)
  ++ keysOf conversationKind cvConnectionID c (snConversations n) ++ keysOf containerKind ctConnectionID c (snContainers n)
  ++ keysOf placementKind plConnectionID c (snPlacements n) ++ keysOf messageKind msConnectionID c (snMessages n)
  ++ keysOf draftKind drConnectionID c (snDrafts n) ++ keysOf approvalKind apConnectionID c (snApprovals n)
  ++ keysOf exposureKind exConnectionID c (snExposures n) ++ kvList s (eventLogPrefix c +:+ "/").

Definition KV_DeleteConnection (c : string) s : S * result string unit :=
  if isBlank c then (s, Err "connection id is required")
  else match Load s with
  | Err e => (s, Err e)
  | Ok snapshot => deleteKeys (connectionKeys c snapshot s) s
  end.

Fixpoint putIdentities (c : string) (xs : list Identity) s : S * result string unit :=
  match xs with
  | [] => (s, Ok tt)
  | x :: xs =>
      if bool_decide (idConnectionID x <> c) then (s, Err ("identity " +:+ idID x +:+ " has connection_id " +:+ idConnectionID x))
      else match kvPut identityKind x s with
           | (s, Err e) => (s, Err e)
           | (s, Ok _) => putIdentities c xs s
           end
  end.

Fixpoint dropIdentities (c : string) (keep : list string) (existing : list Identity) s : S * result string unit :=
  match existing with
  | [] => (s, Ok tt)
  | x :: existing =>
      if bool_decide (idConnectionID x <> c) || bool_decide (idID x ∈ keep) then dropIdentities c keep existing s
      else match kvDelete s (kindKey identityKind (idID x)) with
           | (s, Err e) => (s, Err ("delete identity " +:+ idID x +:+ ": " +:+ e))
           | (s, Ok _) => dropIdentities c keep existing s
           end
  end.

Definition KV_ReplaceConnectionIdentities (c : string) (xs : list Identity) s : S * result string unit :=
  match kvListKind identityKind s with
  | Err e => (s, Err e)
  | Ok existing =>
      match putIdentities c xs s with
      | (s, Err e) => (s, Err e)
      | (s, Ok _) => dropIdentities c (map idID xs) existing s
      end
  end.

Definition KV_DeletePlacement (m c : string) s : S * result string unit := kvDelete s (kindKey placementKind (m, c)).

Definition appendTo (prefix what : string) (json : result string string) (env : LogEnv) s : S * result string unit :=
  match json with
  | Err e => (s, Err ("marshal " +:+ what +:+ ": " +:+ e))
  | Ok body =>
      match logAppend (normalizeCollectionPrefix prefix) (leNow env) (leUUID env) s body with
      | (s, Err e) => (s, Err ("append " +:+ what +:+ ": " +:+ e))
      | (s, Ok _) => (s, Ok tt)
      end
  end.

Definition KV_AppendActivityEvent (env : LogEnv) (e : ActivityEvent) s : S * result string unit :=
  appendTo (activityLogPrefix (aeWorkflowID e)) ("activity event " +:+ aeID e) (marshal e) env s.
Definition KV_AppendEvent (env : LogEnv) (e : Event) s : S * result string unit :=
  appendTo (eventLogPrefix (evConnectionID e)) ("event " +:+ evID e) (marshal e) env s.
Definition KV_PutCheckpoint (c : string) (x : Checkpoint) s : S * result string unit := putJSON (checkpointKey c) (marshal x) s.

End KVBackend.

(** ** The backend interface (backend.go) and its implementation *)

Class MessagingBackend (B : Type) := {
  bkLoad : B -> result string Snapshot;
  bkPutConnection : Connection -> B -> B * result string unit;
  bkDeleteConnection : string -> B -> B * result string unit;
  bkPutIdentity : Identity -> B -> B * result string unit;
  bkReplaceConnectionIdentities : string -> list Identity -> B -> B * result string unit;
  bkPutConversation : Conversation -> B -> B * result string unit;
  bkPutContainer : Container -> B -> B * result string unit;
  bkPutPlacement : Placement -> B -> B * result string unit;
  bkDeletePlacement : string -> string -> B -> B * result string unit;
  bkPutMessage : Message -> B -> B * result string unit;
  bkPutDraft : Draft -> B -> B * result string unit;
  bkPutApproval : Approval -> B -> B * result string unit;
  bkPutPolicy : Policy -> B -> B * result string unit;
  bkPutExposure : Exposure -> B -> B * result string unit;
  bkPutWorkflow : Workflow -> B -> B * result string unit;
  bkAppendActivityEvent : LogEnv -> ActivityEvent -> B -> B * result string unit;
  bkAppendEvent : LogEnv -> Event -> B -> B * result string unit;
  bkPutCheckpoint : string -> Checkpoint -> B -> B * result string unit
}.

Definition KVBackend {S} `{KV : !KVStore S} `{JS : !MessagingJSON} (root : string) : MessagingBackend S := {|
  bkLoad := Load root;
  bkPutConnection := kvPut root connectionKind;
  bkDeleteConnection := KV_DeleteConnection root;
  bkPutIdentity := kvPut root identityKind;
  bkReplaceConnectionIdentities := KV_ReplaceConnectionIdentities root;
  bkPutConversation := kvPut root conversationKind;
  bkPutContainer := kvPut root containerKind;
  bkPutPlacement := kvPut root placementKind;
  bkDeletePlacement := KV_DeletePlacement root;
  bkPutMessage := kvPut root messageKind;
  bkPutDraft := kvPut root draftKind;
  bkPutApproval := kvPut root approvalKind;
  bkPutPolicy := kvPut root policyKind;
  bkPutExposure := kvPut root exposureKind;
  bkPutWorkflow := kvPut root workflowKind;
  bkAppendActivityEvent := KV_AppendActivityEvent root;
  bkAppendEvent := KV_AppendEvent root;
  bkPutCheckpoint := KV_PutCheckpoint root
|}.

(** ** The store (store.go) *)

Definition emptySnapshot : Snapshot := mkSnapshot [] [] [] [] [] [] [] [] [] [] [] ∅ ∅ ∅.

Section Store.
Context {B : Type} `{BK : !MessagingBackend B}.

(** [stNotified] collects the events handed to the observers. *)
Record Store := mkStore { stBackend : B; stIndex : option recordIndex; stNotified : list Event }.
Implicit Types st : Store.

Definition Reload st : Store * result string unit :=
  match bkLoad (stBackend st) with
  | Err e => (st, Err ("load messaging snapshot: " +:+ e))
  | Ok snapshot => (mkStore (stBackend st) (Some (newRecordIndex snapshot)) (stNotified st), Ok tt)
  end.

Definition NewStore (b : B) : result string Store :=
  match Reload (mkStore b None []) with
  | (_, Err e) => Err e
  | (st, Ok _) => Ok st
  end.

(** [ensureIndexLocked]. *)
Definition ensureIndex st : recordIndex := default (newRecordIndex emptySnapshot) (stIndex st).

(** Validate, write to the backend, index. *)
Definition commit (valid : result string unit) (write : B -> B * result string unit) (op : index_op) st : Store * result string unit :=
  match valid with
  | Err e => (st, Err e)
  | Ok _ =>
      match write (stBackend st) with
      | (b, Err e) => (mkStore b (stIndex st) (stNotified st), Err e)
      | (b, Ok _) => (mkStore b (Some (run_index (ensureIndex st) op)) (stNotified st), Ok tt)
      end
  end.

Definition required (value what : string) : result string unit :=
  if bool_decide (value = "") then Err (what +:+ " is required") else Ok tt.

Fixpoint checkIdentities (c : string) (xs : list Identity) : result string unit :=
  match xs with
  | [] => Ok tt
  | x :: xs =>
      match Identity_Validate x with
      | Err e => Err ("identities: " +:+ e)
      | Ok _ =>
          if bool_decide (idConnectionID x <> c) then Err ("identities connection_id " +:+ idConnectionID x +:+ " does not match " +:+ c)
          else checkIdentities c xs
      end
  end.

Definition PutConnection x := commit (Connection_Validate x) (bkPutConnection x) (OpPutConnection x).
Definition DeleteConnection c := commit (required c "connection id") (bkDeleteConnection c) (OpDeleteConnection c).
Definition PutIdentity x := commit (Identity_Validate x) (bkPutIdentity x) (OpPutIdentity x).
Definition ReplaceConnectionIdentities c xs :=
  commit (match required c "connection id" with Err e => Err e | Ok _ => checkIdentities c xs end)
    (bkReplaceConnectionIdentities c xs) (OpReplaceIdentities c xs).
Definition PutConversation x := commit (Conversation_Validate x) (bkPutConversation x) (OpPutConversation x).
Definition PutContainer x := commit (Container_Validate x) (bkPutContainer x) (OpPutContainer x).
Definition PutPlacement x := commit (Placement_Validate x) (bkPutPlacement x) (OpPutPlacement x).
Definition DeletePlacement m c :=
  commit (match required m "message id" with Err e => Err e | Ok _ => required c "container id" end)
    (bkDeletePlacement m c) (OpDeletePlacement m c).
Definition PutMessage x := commit (Message_Validate x) (bkPutMessage x) (OpPutMessage x).
Definition PutDraft x := commit (Draft_Validate x) (bkPutDraft x) (OpPutDraft x).
Definition PutApproval x := commit (Approval_Validate x) (bkPutApproval x) (OpPutApproval x).
Definition PutPolicy x := commit (Policy_Validate x) (bkPutPolicy x) (OpPutPolicy x).
Definition PutExposure x := commit (Exposure_Validate x) (bkPutExposure x) (OpPutExposure x).
Definition PutWorkflow x := commit (Workflow_Validate x) (bkPutWorkflow x) (OpPutWorkflow x).
Definition PutCheckpoint c x := commit (required c "connection id") (bkPutCheckpoint c x) (OpPutCheckpoint c x).

(** An event whose identifier is in the log already is not appended again. *)
Definition AppendActivityEvent (env : LogEnv) (e : ActivityEvent) st : Store * result string unit :=
  if is_ok (ActivityEvent_Validate e) && match stIndex st with Some i => hasWorkflowActivityEvent (aeWorkflowID e) (aeID e) i | None => false end
  then (st, Ok tt)
  else commit (ActivityEvent_Validate e) (bkAppendActivityEvent env e) (OpAppendActivity e) st.

(** The two halves of [AppendEvent]: the look at the index, whose lock is given up
    before the write, and the write with the index and the observers. *)
Definition loggedEvent (e : Event) st : bool :=
  is_ok (Event_Validate e) && match stIndex st with Some i => hasConnectionEvent (evConnectionID e) (evID e) i | None => false end.

Definition recordEvent (env : LogEnv) (e : Event) st : Store * result string unit :=
  match commit (Event_Validate e) (bkAppendEvent env e) (OpAppendEvent e) st with
  | (st, Err e) => (st, Err e)
  | (st, Ok _) => (mkStore (stBackend st) (stIndex st) (stNotified st ++ [e]), Ok tt)
  end.

(** [AppendEvent] when no other request comes between its halves. *)
Definition AppendEvent (env : LogEnv) (e : Event) st : Store * result string unit :=
  if loggedEvent e st then (st, Ok tt) else recordEvent env e st.

(** [Snapshot]. *)
Definition SnapshotOf st : Snapshot := match stIndex st with None => emptySnapshot | Some i => indexSnapshot i end.

(** The reads; without an index they find nothing. *)
Definition store_get {A} (get : recordIndex -> option A) st : option A := match stIndex st with None => None | Some i => get i end.
Definition store_list {A} (list_ : recordIndex -> list A) st : list A := match stIndex st with None => [] | Some i => list_ i end.

Definition GetConnection c := store_get (getConnection c).
Definition ListConnections := store_list listConnections.
Definition GetIdentity i := store_get (getIdentity i).
Definition ListConnectionIdentities c := store_list (listConnectionIdentities c).
Definition GetConversation c := store_get (getConversation c).
Definition ListConnectionConversations c := store_list (listConnectionConversations c).
Definition GetContainer c := store_get (getContainer c).
Definition ListConnectionContainers c := store_list (listConnectionContainers c).
Definition GetPlacement m c := store_get (getPlacement m c).
Definition ListMessagePlacements m := store_list (listMessagePlacements m).
Definition ListContainerPlacements c := store_list (listContainerPlacements c).
Definition GetMessage m := store_get (getMessage m).
Definition ListConversationMessages c := store_list (listConversationMessages c).
Definition GetDraft d := store_get (getDraft d).
Definition GetApproval a := store_get (getApproval a).
Definition ListConversationDrafts c := store_list (listConversationDrafts c).
Definition ListDraftApprovals d := store_list (listDraftApprovals d).
Definition ListConnectionApprovals c := store_list (listConnectionApprovals c).
Definition GetPolicy p := store_get (getPolicy p).
Definition ListPolicies := store_list listPolicies.
Definition GetExposure e := store_get (getExposure e).
Definition ListConnectionExposures c := store_list (listConnectionExposures c).
Definition GetWorkflow w := store_get (getWorkflow w).
Definition ListWorkflows := store_list listWorkflows.
Definition ListWorkflowActivity w := store_list (listWorkflowActivity w).
Definition ListConnectionEvents c := store_list (listConnectionEvents c).
Definition GetCheckpoint c := store_get (getCheckpoint c).

(** One request. *)
Definition run_store (env : LogEnv) (op : index_op) : Store -> Store * result string unit :=
  match op with
  | OpPutConnection x => PutConnection x
  | OpDeleteConnection c => DeleteConnection c
  | OpPutIdentity x => PutIdentity x
  | OpReplaceIdentities c xs => ReplaceConnectionIdentities c xs
  | OpPutConversation x => PutConversation x
  | OpPutContainer x => PutContainer x
  | OpPutPlacement x => PutPlacement x
  | OpDeletePlacement m c => DeletePlacement m c
  | OpPutMessage x => PutMessage x
  | OpPutDraft x => PutDraft x
  | OpPutApproval x => PutApproval x
  | OpPutPolicy x => PutPolicy x
  | OpPutExposure x => PutExposure x
  | OpPutWorkflow x => PutWorkflow x
  | OpAppendActivity e => AppendActivityEvent env e
  | OpAppendEvent e => AppendEvent env e
  | OpPutCheckpoint c x => PutCheckpoint c x
  end.
End Store.
Arguments Store B : clear implicits.

(** ** Keys *)

Notation slashless := (str_forall (fun c => negb (Ascii.eqb c "/"))).

(** Characters of the URL alphabet. *)
Definition urlsafe (c : ascii) : bool := solid c && negb (Ascii.eqb c "/").

Lemma b64char_urlsafe i : 0 <= i < 64 -> urlsafe (b64char true i) = true.
Proof.
  intros Hi. assert (forallb (fun i => urlsafe (b64char true i)) (map Z.of_nat (seq 0 64)) = true) as H by (vm_compute; reflexivity).
  rewrite forallb_forall in H. apply (H i). apply in_map_iff. exists (Z.to_nat i). split; [lia|]. apply in_seq. lia.
Qed.

Lemma encodeKeyPart_urlsafe v : str_forall urlsafe (encodeKeyPart v) = true.
Proof.
  unfold encodeKeyPart. induction v as [|a|a b|a b c s IH] using string_ind3; [done| | |]; cbn [b64encode str_forall];
    pose proof (byte_of_range a); try pose proof (byte_of_range b); try pose proof (byte_of_range c);
    by rewrite !b64char_urlsafe by (Z.div_mod_to_equations; lia).
Qed.

Lemma encodeKeyPart_slashless v : slashless (encodeKeyPart v) = true.
Proof. eapply str_forall_impl; [|apply encodeKeyPart_urlsafe]. by intros c [_ ?]%andb_prop. Qed.

Lemma encodeKeyPart_solid v : str_forall solid (encodeKeyPart v) = true.
Proof. eapply str_forall_impl; [|apply encodeKeyPart_urlsafe]. by intros c [? _]%andb_prop. Qed.

#[export] Instance encodeKeyPart_inj : Inj (=) (=) encodeKeyPart.
Proof.
  intros v w E. assert (Some v = Some w) as [= ->]; [|done]. rewrite <- (b64_roundtrip true false v), <- (b64_roundtrip true false w).
  unfold encodeKeyPart in E. by rewrite E.
Qed.

Lemma encodeKeyPart_nonempty v : v <> "" -> encodeKeyPart v <> "".
Proof. intros Hv E. apply Hv. apply (inj encodeKeyPart). by rewrite E. Qed.

Lemma cut_inj a a' r r' :
  slashless a = true -> slashless a' = true -> a +:+ String "/" r = a' +:+ String "/" r' -> a = a' /\ r = r'.
Proof.
  intros Ha Ha' E. pose proof (CutByte_app a "/" r Ha) as H. rewrite E, CutByte_app in H by done. by injection H as -> ->.
Qed.

(** What every kind has: a collection name of one segment and distinct, visible
    paths. *)
Class KindOk {A K} (k : Kind A K) : Prop := {
  ko_name : slashless (kdName k) = true;
  ko_name_solid : str_forall solid (kdName k) = true;
  ko_path :: Inj (=) (=) (kdPath k);
  ko_path_solid i : str_forall solid (kdPath k i) = true
}.

Ltac kind_ok := split; [done|done|apply _|intros; apply encodeKeyPart_solid].
#[export] Instance connectionKind_ok : KindOk connectionKind. Proof. kind_ok. Qed.
#[export] Instance identityKind_ok : KindOk identityKind. Proof. kind_ok. Qed.
#[export] Instance conversationKind_ok : KindOk conversationKind. Proof. kind_ok. Qed.
#[export] Instance containerKind_ok : KindOk containerKind. Proof. kind_ok. Qed.
#[export] Instance messageKind_ok : KindOk messageKind. Proof. kind_ok. Qed.
#[export] Instance draftKind_ok : KindOk draftKind. Proof. kind_ok. Qed.
#[export] Instance approvalKind_ok : KindOk approvalKind. Proof. kind_ok. Qed.
#[export] Instance policyKind_ok : KindOk policyKind. Proof. kind_ok. Qed.
#[export] Instance exposureKind_ok : KindOk exposureKind. Proof. kind_ok. Qed.
#[export] Instance workflowKind_ok : KindOk workflowKind. Proof. kind_ok. Qed.
#[export] Instance placementKind_ok : KindOk placementKind.
Proof.
  split; [done|done| |].
  - intros [m c] [m' c'] E. simpl in E. rewrite !(str_app_cons "/"), !str_app_nil_l in E.
    apply cut_inj in E as [E1 E2]; [|apply encodeKeyPart_slashless..]. by apply (inj encodeKeyPart) in E1 as ->, E2 as ->.
  - intros [m c]. simpl. rewrite !str_forall_app, !encodeKeyPart_solid. done.
Qed.

Section Backs.
Context {S : Type} `{KV : !KVStore S} `{JS : !MessagingJSON}.
Variable root : string.
Implicit Types (s : S) (v : gmap string string).

(** The key of [rest] in the collection [name]. *)
Definition place (name rest : string) : string := root +:+ "/" +:+ name +:+ "/" +:+ rest.

Lemma kindKey_place {A K} (k : Kind A K) i : kindKey root k i = place (kdName k) (kdPath k i).
Proof. unfold kindKey, kindPrefix, place. by rewrite !str_app_assoc. Qed.

Lemma place_inj n n' r r' : slashless n = true -> slashless n' = true -> place n r = place n' r' -> n = n' /\ r = r'.
Proof.
  unfold place. intros Hn Hn' E. do 2 apply str_app_inj_l in E. rewrite !(str_app_cons "/"), !str_app_nil_l in E. by apply cut_inj in E.
Qed.

Lemma kindKey_inj {A K} (k : Kind A K) `{!KindOk k} i j : kindKey root k i = kindKey root k j -> i = j.
Proof.
  rewrite !kindKey_place. intros [_ E]%place_inj; [|apply ko_name..]. by apply (inj (kdPath k)) in E.
Qed.

(** A key that belongs to the collection of a kind. *)
Definition below {A K} (k : Kind A K) (key : string) : Prop := HasPrefix key (kindPrefix root k +:+ "/") = true.

Lemma below_place {A K} (k : Kind A K) `{!KindOk k} n r : slashless n = true -> below k (place n r) -> n = kdName k.
Proof.
  unfold below. rewrite HasPrefix_spec. intros Hn [t E]. unfold kindPrefix in E. rewrite !str_app_assoc in E.
  change (place n r = place (kdName k) t) in E. apply place_inj in E as [-> _]; [done|done|apply ko_name].
Qed.

Lemma below_kindKey {A K} (k : Kind A K) i : below k (kindKey root k i).
Proof. apply HasPrefix_spec. exists (kdPath k i). unfold kindKey. by rewrite str_app_assoc. Qed.

(** ** What a collection holds *)

Record rep {A K} `{Countable K} `{RecordJSON A} (k : Kind A K) v (m : gmap K A) : Prop := {
  rp_in i x : m !! i = Some x -> kdIdent k x = i /\
    exists raw, v !! kindKey root k i = Some raw /\ decodeValid (kdValidate k) raw = Ok x;
  rp_only key : below k key -> is_Some (v !! key) -> exists i, key = kindKey root k i /\ is_Some (m !! i)
}.

Section Rep.
Context {A K : Type} `{Countable K} `{RJ : !RecordJSON A} (k : Kind A K).
Implicit Types m : gmap K A.

Lemma rep_empty : rep k ∅ ∅.
Proof. split; [intros i x; by rewrite lookup_empty|]. intros key _. rewrite lookup_empty. by intros [? ?]. Qed.

(** Writes and deletions elsewhere. *)
Lemma rep_frame v v' m : rep k v m -> (forall key, below k key -> v' !! key = v !! key) -> rep k v' m.
Proof.
  intros [Hin Honly] Hv. split.
  - intros i x Hx. destruct (Hin _ _ Hx) as (Hi & r & Hr & Hd). split; [done|]. exists r. rewrite Hv by apply below_kindKey. done.
  - intros key Hb. rewrite Hv by done. by apply Honly.
Qed.

(** Some records are gone, and nothing has come. *)
Lemma rep_filter v v' m m' (gone : K -> A -> bool) :
  rep k v m ->
  (forall i x, m !! i = Some x -> v' !! kindKey root k i = if gone i x then None else v !! kindKey root k i) ->
  (forall key, below k key -> is_Some (v' !! key) -> is_Some (v !! key)) ->
  (forall i, m' !! i = match m !! i with Some x => if gone i x then None else Some x | None => None end) ->
  rep k v' m'.
Proof.
  intros [Hin Honly] Hv Hsub Hm. split.
  - intros i x. rewrite Hm. destruct (m !! i) as [y|] eqn:E; [|done]. destruct (gone i y) eqn:Eg; [done|]. intros [= ->].
    destruct (Hin _ _ E) as (Hi & r & Hr & Hd). split; [done|]. exists r. by rewrite (Hv _ _ E), Eg.
  - intros key Hb Hs. destruct (Honly key Hb) as (i & -> & [x Hx]); [by apply Hsub|]. exists i. split; [done|]. rewrite Hm, Hx.
    rewrite (Hv _ _ Hx) in Hs. destruct (gone i x); [by destruct Hs|done].
Qed.

(** Listing a collection yields its records. *)
Lemma collectKeys_spec label s m ks :
  rep k (kvView s) m -> (forall key, key ∈ ks -> exists i x, key = kindKey root k i /\ m !! i = Some x) ->
  exists xs, collectKeys label (decodeValid (kdValidate k)) s ks = Ok xs /\ Forall2 (fun key x => key = kindKey root k (kdIdent k x) /\ m !! kdIdent k x = Some x) ks xs.
Proof.
  intros Hr. induction ks as [|key ks IH]; intros Hks; [by exists []|]. cbn [collectKeys].
  destruct (Hks key) as (i & x & -> & Hx); [left|]. destruct (rp_in _ _ _ Hr _ _ Hx) as (Hi & raw & Hraw & Hd).
  unfold kvGet. rewrite Hraw, Hd. destruct IH as (xs & -> & Hxs); [intros; apply Hks; by right|].
  exists (x :: xs). split; [done|]. constructor; [by rewrite Hi|done].
Qed.

Context `{KO : !KindOk k}.

Lemma rep_put v m raw x :
  rep k v m -> decodeValid (kdValidate k) raw = Ok x ->
  rep k (<[kindKey root k (kdIdent k x) := raw]> v) (<[kdIdent k x := x]> m).
Proof using KO.
  intros [Hin Honly] Hd. split.
  - intros i y. destruct (decide (i = kdIdent k x)) as [->|Hne].
    + rewrite lookup_insert_eq. intros [= <-]. split; [done|]. exists raw. by rewrite lookup_insert_eq.
    + rewrite lookup_insert_ne by done. intros Hy. destruct (Hin _ _ Hy) as (Hi & r & Hr & Hdr). split; [done|].
      exists r. rewrite lookup_insert_ne; [done|]. intros E. by apply kindKey_inj in E.
  - intros key Hb. destruct (decide (key = kindKey root k (kdIdent k x))) as [->|Hne].
    + intros _. exists (kdIdent k x). by rewrite lookup_insert_eq.
    + rewrite lookup_insert_ne by done. intros Hs. destruct (Honly key Hb Hs) as (i & -> & Hi). exists i. split; [done|].
      rewrite lookup_insert_ne by congruence. done.
Qed.

Lemma rep_write v m n r raw : slashless n = true -> n <> kdName k -> rep k v m -> rep k (<[place n r := raw]> v) m.
Proof using KO. intros Hn Hne Hr. apply (rep_frame v); [done|]. intros key Hb. rewrite lookup_insert_ne; [done|]. intros <-. by apply below_place in Hb. Qed.

Lemma rep_list s m : rep k (kvView s) m -> exists xs, kvListKind root k s = Ok xs /\ xs ≡ₚ (map_to_list m).*2.
Proof using KO.
  intros Hr. unfold kvListKind, listKVCollection. set (ks := kvList s (kindPrefix root k +:+ "/")).
  assert (NoDup ks /\ forall key, key ∈ ks <-> below k key /\ is_Some (kvView s !! key)) as [Hnd Hks].
  { subst ks. unfold kvList. split.
    - rewrite sort_Strings_perm. apply NoDup_filter, NoDup_keys_of.
    - intros key. rewrite elem_of_sort_Strings, list_elem_of_filter, elem_of_keys_of. done. }
  destruct (collectKeys_spec (kdLabel k) s m ks Hr) as (xs & -> & Hxs).
  { intros key [Hb Hs]%Hks. destruct (rp_only _ _ _ Hr key Hb Hs) as (i & -> & [x Hx]). by exists i, x. }
  exists xs. split; [done|].
  assert (ks = (fun x => kindKey root k (kdIdent k x)) <$> xs) as E.
  { clear -Hxs. induction Hxs as [|key x ks xs [-> _] _ IH]; [done|]. csimpl. by rewrite <- IH. }
  apply NoDup_Permutation.
  - rewrite E in Hnd. by apply NoDup_fmap_1 in Hnd.
  - apply (NoDup_fmap_1 (kdIdent k)). rewrite <- list_fmap_compose.
    assert ((kdIdent k ∘ snd) <$> map_to_list m = (map_to_list m).*1) as ->; [|apply NoDup_fst_map_to_list].
    apply list_fmap_ext. intros j [i x] Hx. simpl. apply (rp_in _ _ _ Hr), elem_of_map_to_list. by eapply list_elem_of_lookup_2.
  - intros x. rewrite list_elem_of_fmap. split.
    + intros Hx. apply list_elem_of_lookup in Hx as [j Hj]. destruct (Forall2_lookup_r _ _ _ _ _ Hxs Hj) as (key & _ & _ & Hm).
      exists (kdIdent k x, x). split; [done|by apply elem_of_map_to_list].
    + intros ([i y] & -> & Hy%elem_of_map_to_list). simpl. destruct (rp_in _ _ _ Hr _ _ Hy) as (Hi & raw & Hraw & _).
      assert (kindKey root k i ∈ ks) as Hin by (apply Hks; split; [apply below_kindKey|by eexists]).
      rewrite E in Hin. apply list_elem_of_fmap in Hin as (z & Ez & Hz). apply (kindKey_inj k) in Ez. subst i.
      apply list_elem_of_lookup in Hz as [j Hj]. destruct (Forall2_lookup_r _ _ _ _ _ Hxs Hj) as (key & Hkey & _ & Hm).
      rewrite Ez, Hm in Hy. injection Hy as <-. by eapply list_elem_of_lookup_2.
Qed.
End Rep.

(** ** Logs *)

(** A key in the collection [name]. *)
Definition under (name key : string) : Prop := HasPrefix key (place name "") = true.

Lemma below_under {A K} (k : Kind A K) key : below k key <-> under (kdName k) key.
Proof. unfold below, under, kindPrefix, place. by rewrite str_app_nil_r, !str_app_assoc. Qed.

Lemma under_place n n' r : slashless n = true -> slashless n' = true -> under n' (place n r) -> n = n'.
Proof.
  unfold under. rewrite HasPrefix_spec. intros Hn Hn' [t E].
  assert (place n' "" +:+ t = place n' t) as E' by (unfold place; by rewrite str_app_nil_r, !str_app_assoc).
  rewrite E' in E. by apply place_inj in E as [-> _].
Qed.

(** Every key of a collection of logs is an entry, and every entry parses. *)
Definition log_ok {A} `{RecordJSON A} (name : string) (validate : A -> result string unit) v : Prop :=
  forall key raw, under name key -> v !! key = Some raw ->
    (exists w t u, key = place name (encodeKeyPart w +:+ "/" +:+ appendLogID t u) /\ nano_range t) /\
    exists e : A, decodeValid validate raw = Ok e.

Definition checkpoints_ok v : Prop :=
  forall key raw, under "checkpoints" key -> v !! key = Some raw -> exists c : Checkpoint, unmarshal raw = Ok c.

Definition root_ok : Prop := str_forall solid root = true /\ root <> "".

Lemma HasSuffix_urlsafe a e : e <> "" -> slashless e = true -> HasSuffix (a +:+ e) "/" = false.
Proof.
  intros Hne He. destruct (HasSuffix (a +:+ e) "/") eqn:E; [|done]. apply HasSuffix_spec in E as [t E]. exfalso.
  revert t E. induction a as [|c a IH]; intros t E.
  - rewrite str_app_nil_l in E. rewrite E, str_forall_app in He. simpl in He. by rewrite andb_false_r in He.
  - destruct t as [|d t]; rewrite !str_app_cons in E; [|by injection E as _ E; apply (IH t)]. 
    rewrite str_app_nil_l in E. injection E as _ E. apply (f_equal String.length) in E. rewrite str_length_app in E.
    simpl in E. destruct e; [done|]. simpl in E. lia.
Qed.

Lemma log_prefix_normal name w :
  root_ok -> str_forall solid name = true -> w <> "" ->
  normalizeCollectionPrefix (place name (encodeKeyPart w)) = place name (encodeKeyPart w).
Proof.
  intros [Hs Hr] Hn Hw. unfold normalizeCollectionPrefix. rewrite TrimSpace_solid.
  - unfold TrimSuffix, place. rewrite <- !str_app_assoc, HasSuffix_urlsafe; [done|by apply encodeKeyPart_nonempty|apply encodeKeyPart_slashless].
  - unfold place. rewrite !str_forall_app, Hs, Hn, encodeKeyPart_solid. done.
Qed.

Lemma logCollect_total pre s ks :
  (forall key, key ∈ ks -> exists t u raw, key = entryKey pre (appendLogID t u) /\ nano_range t /\ kvGet s key = Some raw) ->
  exists es, logCollect pre s ks = Ok es /\ forall e, e ∈ es -> exists key, key ∈ ks /\ kvGet s key = Some (aValue e).
Proof.
  induction ks as [|key ks IH]; intros Hks; [exists []; split; [done|]; by intros e ?%not_elem_of_nil|]. cbn [logCollect].
  destruct (Hks key) as (t & u & raw & -> & Ht & Hraw); [left|]. unfold entryKey at 1. rewrite CutPrefix_app.
  rewrite bool_decide_false by apply appendLogID_nonempty. simpl. unfold logGet. rewrite Hraw, parse_appendLogID by done.
  destruct IH as (es & -> & Hes); [intros; apply Hks; by right|]. exists (mkLogEntry (appendLogID t u) t raw :: es). split; [done|].
  intros e [->|He]%elem_of_cons; [eexists; split; [left|done]|]. destruct (Hes e He) as (key & Hk & Hv). exists key. split; [by right|done].
Qed.

Lemma listLog_total {A} `{RecordJSON A} name (validate : A -> result string unit) what s w :
  root_ok -> str_forall solid name = true -> slashless name = true -> w <> "" -> log_ok name validate (kvView s) ->
  exists es, listLog validate what (place name (encodeKeyPart w)) s = Ok es.
Proof.
  intros Hroot Hn Hsl Hw Hl. unfold listLog, logList. rewrite log_prefix_normal by done. set (pre := place name (encodeKeyPart w)).
  destruct (logCollect_total pre s (sort_Strings (kvList s (listPrefix pre)))) as (es & -> & Hes).
  - intros key. unfold kvList. rewrite !elem_of_sort_Strings, list_elem_of_filter, elem_of_keys_of. intros [Hp [raw Hraw]].
    destruct (Hl key raw) as [(w' & t & u & -> & Ht) _].
    + apply HasPrefix_spec in Hp as [id ->]. apply HasPrefix_spec. unfold pre, listPrefix, place. rewrite str_app_nil_r.
      eexists. by rewrite !str_app_assoc.
    + done.
    + exists t, u, raw. split_and!; [|done|done]. unfold pre, entryKey, listPrefix, place in *. rewrite !str_app_assoc in *.
      apply HasPrefix_spec in Hp as [id E]. rewrite !str_app_assoc in E. do 4 apply str_app_inj_l in E.
      rewrite !(str_app_cons "/"), !str_app_nil_l in E. apply cut_inj in E as [-> _]; [done|apply encodeKeyPart_slashless..].
  - assert (forall e, e ∈ es -> exists x : A, decodeValid validate (aValue e) = Ok x) as Hd.
    { intros e He. destruct (Hes e He) as (key & Hk & Hv). unfold kvList in Hk.
      rewrite !elem_of_sort_Strings, list_elem_of_filter, elem_of_keys_of in Hk. destruct Hk as [Hp _].
      destruct (Hl key (aValue e)) as [_ Hx]; [|done|done]. apply HasPrefix_spec in Hp as [id ->]. apply HasPrefix_spec.
      unfold pre, listPrefix, place. rewrite str_app_nil_r. eexists. by rewrite !str_app_assoc. }
    clear Hes. induction es as [|e es IH]; [by exists []|]. simpl. destruct (Hd e) as [x ->]; [left|].
    destruct IH as [xs ->]; [intros; apply Hd; by right|]. by exists (x :: xs).
Qed.

(** ** A store and the index of its records *)

Record backs v (i : recordIndex) : Prop := {
  bs_connections : rep connectionKind v (ixConnections i);
  bs_identities : rep identityKind v (fmAll (ixIdentities i));
  bs_conversations : rep conversationKind v (fmAll (ixConversations i));
  bs_containers : rep containerKind v (fmAll (ixContainers i));
  bs_placements : rep placementKind v (ixPlacements i);
  bs_messages : rep messageKind v (fmAll (ixMessages i));
  bs_drafts : rep draftKind v (fmAll (ixDrafts i));
  bs_approvals : rep approvalKind v (fmAll (ixApprovals i));
  bs_policies : rep policyKind v (ixPolicies i);
  bs_exposures : rep exposureKind v (fmAll (ixExposures i));
  bs_workflows : rep workflowKind v (ixWorkflows i);
  bs_activity : log_ok "activity" ActivityEvent_Validate v;
  bs_events : log_ok "events" Event_Validate v;
  bs_checkpoints : checkpoints_ok v
}.

(** The maps of the records, without the logs and the checkpoints: those are
    loaded for known connections and workflows only. *)
Definition recordsOf (i : recordIndex) : tables :=
  mkTables (ixConnections i) (fmAll (ixIdentities i)) (fmAll (ixConversations i)) (fmAll (ixContainers i)) (ixPlacements i)
    (fmAll (ixMessages i)) (fmAll (ixDrafts i)) (fmAll (ixApprovals i)) (ixPolicies i) (fmAll (ixExposures i)) (ixWorkflows i) ∅ ∅ ∅.

Definition snapshot_of (n : Snapshot) (i : recordIndex) : Prop :=
  snConnections n ≡ₚ (map_to_list (ixConnections i)).*2 /\ snIdentities n ≡ₚ (map_to_list (fmAll (ixIdentities i))).*2 /\
  snConversations n ≡ₚ (map_to_list (fmAll (ixConversations i))).*2 /\ snContainers n ≡ₚ (map_to_list (fmAll (ixContainers i))).*2 /\
  snPlacements n ≡ₚ (map_to_list (ixPlacements i)).*2 /\ snMessages n ≡ₚ (map_to_list (fmAll (ixMessages i))).*2 /\
  snDrafts n ≡ₚ (map_to_list (fmAll (ixDrafts i))).*2 /\ snApprovals n ≡ₚ (map_to_list (fmAll (ixApprovals i))).*2 /\
  snPolicies n ≡ₚ (map_to_list (ixPolicies i)).*2 /\ snExposures n ≡ₚ (map_to_list (fmAll (ixExposures i))).*2 /\
  snWorkflows n ≡ₚ (map_to_list (ixWorkflows i)).*2.

Lemma snapshot_records n i : index_ok i -> snapshot_of n i -> recordsOf (newRecordIndex n) = recordsOf i.
Proof.
  intros Hi (H1 & H2 & H3 & H4 & H5 & H6 & H7 & H8 & H9 & H10 & H11). unfold recordsOf. f_equal.
  - rebuilt ixConnections (fun (m : gmap string Connection) x => <[cnID x := x]> m). apply foldl_insert_map; [apply Hi|done].
  - rebuilt (fun i : recordIndex => fmAll (ixIdentities i)) (fun (m : gmap string Identity) x => <[idID x := x]> m). apply foldl_insert_map; [apply Hi|done].
  - rebuilt (fun i : recordIndex => fmAll (ixConversations i)) (fun (m : gmap string Conversation) x => <[cvID x := x]> m). apply foldl_insert_map; [apply Hi|done].
  - rebuilt (fun i : recordIndex => fmAll (ixContainers i)) (fun (m : gmap string Container) x => <[ctID x := x]> m). apply foldl_insert_map; [apply Hi|done].
  - rebuilt ixPlacements (fun (m : gmap (string * string) Placement) x => <[(plMessageID x, plContainerID x) := x]> m).
    apply (foldl_insert_map (fun x => (plMessageID x, plContainerID x))); [|done].
    intros [m c] x Hx. by destruct (po_key _ _ _ (io_placements _ Hi) _ _ _ Hx) as [-> ->].
  - rebuilt (fun i : recordIndex => fmAll (ixMessages i)) (fun (m : gmap string Message) x => <[msID x := x]> m). apply foldl_insert_map; [apply Hi|done].
  - rebuilt (fun i : recordIndex => fmAll (ixDrafts i)) (fun (m : gmap string Draft) x => <[drID x := x]> m). apply foldl_insert_map; [apply Hi|done].
  - rebuilt (fun i : recordIndex => fmAll (ixApprovals i)) (fun (m : gmap string Approval) x => <[apID x := x]> m). apply foldl_insert_map; [apply Hi|done].
  - rebuilt ixPolicies (fun (m : gmap string Policy) x => <[poID x := x]> m). apply foldl_insert_map; [apply Hi|done].
  - rebuilt (fun i : recordIndex => fmAll (ixExposures i)) (fun (m : gmap string Exposure) x => <[exID x := x]> m). apply foldl_insert_map; [apply Hi|done].
  - rebuilt ixWorkflows (fun (m : gmap string Workflow) x => <[wfID x := x]> m). apply foldl_insert_map; [apply Hi|done].
Qed.

Lemma requireID_nonempty value field : requireID value field = Ok tt -> value <> "".
Proof. unfold requireID. intros H ->. done. Qed.

(** Records that were read passed their validation. *)
Lemma rep_valid {A K} `{Countable K} `{RecordJSON A} (k : Kind A K) v (m : gmap K A) x :
  rep k v m -> x ∈ (map_to_list m).*2 -> kdValidate k x = Ok tt.
Proof.
  intros Hr ([i y] & -> & Hy%elem_of_map_to_list)%list_elem_of_fmap. simpl.
  destruct (rp_in _ _ _ Hr _ _ Hy) as (_ & raw & _ & Hd). unfold decodeValid in Hd. destruct (unmarshal raw) as [z|]; [|done].
  destruct (kdValidate k z) as [[]|] eqn:E; [|done]. by injection Hd as <-.
Qed.

Lemma loadActivity_total s ws :
  root_ok -> log_ok "activity" ActivityEvent_Validate (kvView s) -> (forall w, w ∈ ws -> wfID w <> "") ->
  exists m, loadActivity root ws s = Ok m.
Proof.
  intros Hr Hl. induction ws as [|w ws IH]; intros Hws; [by eexists|]. simpl.
  destruct (listLog_total "activity" ActivityEvent_Validate "activity event" s (wfID w) Hr) as [es Hes]; [done|done| |done|].
  { apply Hws. by left. }
  unfold listActivityEvents. change (activityLogPrefix root (wfID w)) with (place "activity" (encodeKeyPart (wfID w))). rewrite Hes.
  destruct IH as [m ->]; [intros; apply Hws; by right|]. by eexists.
Qed.

Lemma readCheckpoint_total s c : checkpoints_ok (kvView s) -> exists r, readCheckpoint root c s = Ok r.
Proof.
  intros Hc. unfold readCheckpoint. destruct (kvGet s (checkpointKey root c)) as [raw|] eqn:E; [|by eexists].
  destruct (Hc (checkpointKey root c) raw) as [x ->]; [|done|by eexists].
  apply HasPrefix_spec. exists (encodeKeyPart c). unfold checkpointKey, place. by rewrite str_app_nil_r, !str_app_assoc.
Qed.

Lemma loadConnections_total s cs :
  root_ok -> log_ok "events" Event_Validate (kvView s) -> checkpoints_ok (kvView s) -> (forall c, c ∈ cs -> cnID c <> "") ->
  exists m, loadConnections root cs s = Ok m.
Proof.
  intros Hr Hl Hc. induction cs as [|c cs IH]; intros Hcs; [by eexists|]. simpl.
  destruct (listLog_total "events" Event_Validate "event" s (cnID c) Hr) as [es Hes]; [done|done| |done|].
  { apply Hcs. by left. }
  unfold listEvents. change (eventLogPrefix root (cnID c)) with (place "events" (encodeKeyPart (cnID c))). rewrite Hes.
  destruct (readCheckpoint_total s (cnID c) Hc) as [r ->].
  destruct IH as [[es' cs'] ->]; [intros; apply Hcs; by right|]. by eexists.
Qed.

Lemma load_ok s i : root_ok -> backs (kvView s) i -> exists n, Load root s = Ok n /\ snapshot_of n i.
Proof.
  intros Hroot Hb. unfold Load.
  destruct (rep_list connectionKind s _ (bs_connections _ _ Hb)) as (x1 & -> & P1).
  destruct (rep_list identityKind s _ (bs_identities _ _ Hb)) as (x2 & -> & P2).
  destruct (rep_list conversationKind s _ (bs_conversations _ _ Hb)) as (x3 & -> & P3).
  destruct (rep_list containerKind s _ (bs_containers _ _ Hb)) as (x4 & -> & P4).
  destruct (rep_list placementKind s _ (bs_placements _ _ Hb)) as (x5 & -> & P5).
  destruct (rep_list messageKind s _ (bs_messages _ _ Hb)) as (x6 & -> & P6).
  destruct (rep_list draftKind s _ (bs_drafts _ _ Hb)) as (x7 & -> & P7).
  destruct (rep_list approvalKind s _ (bs_approvals _ _ Hb)) as (x8 & -> & P8).
  destruct (rep_list policyKind s _ (bs_policies _ _ Hb)) as (x9 & -> & P9).
  destruct (rep_list exposureKind s _ (bs_exposures _ _ Hb)) as (x10 & -> & P10).
  destruct (rep_list workflowKind s _ (bs_workflows _ _ Hb)) as (x11 & -> & P11).
  destruct (loadActivity_total s x11 Hroot (bs_activity _ _ Hb)) as [m ->].
  { intros w. rewrite P11. intros Hw. apply (rep_valid workflowKind _ _ _ (bs_workflows _ _ Hb)) in Hw. simpl in Hw.
    unfold Workflow_Validate in Hw. apply check_ok in Hw as [Hw _]. by eapply requireID_nonempty. }
  destruct (loadConnections_total s x1 Hroot (bs_events _ _ Hb) (bs_checkpoints _ _ Hb)) as [[es cs] ->].
  { intros c. rewrite P1. intros Hc. apply (rep_valid connectionKind _ _ _ (bs_connections _ _ Hb)) in Hc. simpl in Hc.
    unfold Connection_Validate in Hc. apply check_ok in Hc as [Hc _]. by eapply requireID_nonempty. }
  eexists. split; [done|]. unfold snapshot_of. simpl. split_and!; done.
Qed.

(** ** Operations keep the relation *)

Lemma decode_marshalled {A} `{RecordJSON A} (validate : A -> result string unit) raw x :
  unmarshal raw = Ok x -> validate x = Ok tt -> decodeValid validate raw = Ok x.
Proof. intros Hu Hv. unfold decodeValid. by rewrite Hu, Hv. Qed.

Lemma putJSON_view {A} `{RecordJSON A} key (x : A) s s' r :
  wire x -> putJSON key (marshal x) s = (s', r) ->
  exists raw, unmarshal raw = Ok x /\ kvView s' = if is_ok r then <[key := raw]> (kvView s) else kvView s.
Proof.
  intros Hw. destruct (unmarshal_marshal x Hw) as (raw & Hm & Hu). unfold putJSON. rewrite Hm. intros E.
  exists raw. split; [done|]. pose proof (kvSet_view s key raw) as Hv. by rewrite E in Hv.
Qed.

Lemma log_sub {A} `{RecordJSON A} name (validate : A -> result string unit) v v' :
  (forall key raw, v' !! key = Some raw -> under name key -> v !! key = Some raw) -> log_ok name validate v -> log_ok name validate v'.
Proof. intros Hs Hl key raw Hu Hv. apply (Hl key raw Hu). by apply Hs. Qed.

Lemma checkpoints_sub v v' :
  (forall key raw, v' !! key = Some raw -> under "checkpoints" key -> v !! key = Some raw) -> checkpoints_ok v -> checkpoints_ok v'.
Proof. intros Hs Hl key raw Hu Hv. apply (Hl key raw Hu). by apply Hs. Qed.

(** A write in another collection. *)
Lemma write_elsewhere n name r raw v :
  slashless n = true -> slashless name = true -> n <> name ->
  forall key raw', <[place n r := raw]> v !! key = Some raw' -> under name key -> v !! key = Some raw'.
Proof.
  intros Hn Hname Hne key raw' Hv Hu. rewrite lookup_insert_ne in Hv; [done|]. intros <-. by apply under_place in Hu.
Qed.

Ltac elsewhere :=
  let Hv := fresh in let Hu := fresh in intros ? ? Hv Hu; refine (write_elsewhere _ _ _ _ _ _ _ _ _ _ Hv Hu); done.

(** A record of one kind is written: its table changes, all else stays. *)
Ltac put_kind :=
  intros [] ?; split; simpl;
  first [ apply rep_put; solve [done | apply _]
        | rewrite kindKey_place; first [ apply rep_write; solve [done | apply _] | eapply log_sub; [elsewhere|done] | eapply checkpoints_sub; [elsewhere|done] ] ].

Lemma backs_connection v i raw x :
  backs v i -> decodeValid Connection_Validate raw = Ok x -> backs (<[kindKey root connectionKind (cnID x) := raw]> v) (putConnection x i).
Proof. put_kind. Qed.
Lemma backs_identity v i raw x :
  backs v i -> decodeValid Identity_Validate raw = Ok x -> backs (<[kindKey root identityKind (idID x) := raw]> v) (putIdentity x i).
Proof. put_kind. Qed.
Lemma backs_conversation v i raw x :
  backs v i -> decodeValid Conversation_Validate raw = Ok x ->
  backs (<[kindKey root conversationKind (cvID x) := raw]> v) (putConversation x i).
Proof. put_kind. Qed.
Lemma backs_container v i raw x :
  backs v i -> decodeValid Container_Validate raw = Ok x -> backs (<[kindKey root containerKind (ctID x) := raw]> v) (putContainer x i).
Proof. put_kind. Qed.
Lemma backs_placement v i raw x :
  backs v i -> decodeValid Placement_Validate raw = Ok x ->
  backs (<[kindKey root placementKind (kdIdent placementKind x) := raw]> v) (putPlacement x i).
Proof.
  intros [] ?. split; try (rewrite kindKey_place; first [apply rep_write; solve [done | apply _] | eapply log_sub; [elsewhere|done] | eapply checkpoints_sub; [elsewhere|done]]).
  apply rep_put; solve [done | apply _].
Qed.
Lemma backs_message v i raw x :
  backs v i -> decodeValid Message_Validate raw = Ok x -> backs (<[kindKey root messageKind (msID x) := raw]> v) (putMessage x i).
Proof. put_kind. Qed.
Lemma backs_draft v i raw x :
  backs v i -> decodeValid Draft_Validate raw = Ok x -> backs (<[kindKey root draftKind (drID x) := raw]> v) (putDraft x i).
Proof. put_kind. Qed.
Lemma backs_approval v i raw x :
  backs v i -> decodeValid Approval_Validate raw = Ok x -> backs (<[kindKey root approvalKind (apID x) := raw]> v) (putApproval x i).
Proof. put_kind. Qed.
Lemma backs_policy v i raw x :
  backs v i -> decodeValid Policy_Validate raw = Ok x -> backs (<[kindKey root policyKind (poID x) := raw]> v) (putPolicy x i).
Proof. put_kind. Qed.
Lemma backs_exposure v i raw x :
  backs v i -> decodeValid Exposure_Validate raw = Ok x -> backs (<[kindKey root exposureKind (exID x) := raw]> v) (putExposure x i).
Proof. put_kind. Qed.
Lemma backs_workflow v i raw x :
  backs v i -> decodeValid Workflow_Validate raw = Ok x -> backs (<[kindKey root workflowKind (wfID x) := raw]> v) (putWorkflow x i).
Proof. put_kind. Qed.

(** Only the records of the index matter. *)
Lemma backs_index v i j : recordsOf i = recordsOf j -> backs v i -> backs v j.
Proof.
  unfold recordsOf. intros E []. injection E as E1 E2 E3 E4 E5 E6 E7 E8 E9 E10 E11.
  split; rewrite <- ?E1, <- ?E2, <- ?E3, <- ?E4, <- ?E5, <- ?E6, <- ?E7, <- ?E8, <- ?E9, <- ?E10, <- ?E11; done.
Qed.

(** An entry comes to one of the logs, or a checkpoint. *)
Lemma log_append {A} `{RecordJSON A} name (validate : A -> result string unit) v w t u raw e :
  slashless name = true -> nano_range t -> decodeValid validate raw = Ok e -> log_ok name validate v ->
  log_ok name validate (<[place name (encodeKeyPart w +:+ "/" +:+ appendLogID t u) := raw]> v).
Proof.
  intros Hn Ht Hd Hl key raw' Hu. destruct (decide (key = place name (encodeKeyPart w +:+ "/" +:+ appendLogID t u))) as [->|Hne].
  - rewrite lookup_insert_eq. intros [= <-]. split; [by exists w, t, u|by exists e].
  - rewrite lookup_insert_ne by done. by apply Hl.
Qed.

Ltac keep_kind :=
  first [ apply rep_write; solve [done | apply _] | eapply log_sub; [elsewhere|done] | eapply checkpoints_sub; [elsewhere|done] ].

Lemma backs_activity v i w t u raw e :
  nano_range t -> decodeValid ActivityEvent_Validate raw = Ok e -> backs v i ->
  backs (<[place "activity" (encodeKeyPart w +:+ "/" +:+ appendLogID t u) := raw]> v) i.
Proof. intros Ht Hd []. split; first [keep_kind | by eapply log_append]. Qed.

Lemma backs_event v i w t u raw e :
  nano_range t -> decodeValid Event_Validate raw = Ok e -> backs v i ->
  backs (<[place "events" (encodeKeyPart w +:+ "/" +:+ appendLogID t u) := raw]> v) i.
Proof. intros Ht Hd []. split; first [keep_kind | by eapply log_append]. Qed.

Lemma backs_checkpoint v i c raw (x : Checkpoint) :
  unmarshal raw = Ok x -> backs v i -> backs (<[place "checkpoints" (encodeKeyPart c) := raw]> v) i.
Proof.
  intros Hu []. split; first [keep_kind|idtac]. intros key raw' Hk.
  destruct (decide (key = place "checkpoints" (encodeKeyPart c))) as [->|Hne].
  - rewrite lookup_insert_eq. intros [= <-]. by exists x.
  - rewrite lookup_insert_ne by done. by apply bs_checkpoints0.
Qed.

(** A deletion below one kind. *)
Lemma rep_remove {A K} `{Countable K} `{RecordJSON A} (k : Kind A K) `{!KindOk k} v m n r :
  slashless n = true -> n <> kdName k -> rep k v m -> rep k (delete (place n r) v) m.
Proof.
  intros Hn Hne Hr. apply (rep_frame k v); [done|]. intros key Hb. rewrite lookup_delete_ne; [done|].
  intros <-. by apply below_place in Hb.
Qed.

Lemma delete_sub (v : gmap string string) key0 : forall key raw, delete key0 v !! key = Some raw -> v !! key = Some raw.
Proof. by intros key raw [_ ?]%lookup_delete_Some. Qed.

Lemma backs_deletePlacement v i m c :
  backs v i -> backs (delete (kindKey root placementKind (m, c)) v) (deletePlacement m c i).
Proof.
  intros Hb. assert (backs (delete (kindKey root placementKind (m, c)) v) (setPlacements (delete (m, c) (ixPlacements i)) i)) as H.
  { destruct Hb. split; simpl.
    5: { apply (rep_filter placementKind v _ (ixPlacements i) _ (fun k _ => bool_decide (k = (m, c)))); [done| | |].
      - intros k x Hx. case_bool_decide as Hk; [subst k; by rewrite lookup_delete_eq|]. rewrite lookup_delete_ne; [done|].
        by intros E%(kindKey_inj placementKind).
      - intros key _ [raw Hr%delete_sub]. by eexists.
      - intros k. case_bool_decide as Hk; [subst k; rewrite lookup_delete_eq; by destruct (ixPlacements i !! _)|].
        rewrite lookup_delete_ne by done. by destruct (ixPlacements i !! k). }
    all: rewrite ?kindKey_place; first [apply rep_remove; solve [done | apply _] | eapply log_sub; [intros key raw Hv _; by eapply delete_sub|done]
      | eapply checkpoints_sub; [intros key raw Hv _; by eapply delete_sub|done]]. }
  unfold deletePlacement. destruct (ixPlacements i !! (m, c)) as [p|] eqn:E.
  - eapply backs_index; [|exact H]. done.
  - eapply backs_index; [|exact H]. unfold recordsOf. simpl. by rewrite delete_id.
Qed.

(** ** Deleting a connection *)

Lemma deleteSeen_spec seen keys s s' :
  deleteSeen seen keys s = (s', Ok tt) -> (forall key, key ∈ seen -> kvView s !! key = None) ->
  forall key, kvView s' !! key = if decide (key ∈ keys /\ isBlank key = false) then None else kvView s !! key.
Proof.
  revert seen s. induction keys as [|k0 keys IH]; intros seen s Hrun Hseen key.
  { injection Hrun as <-. rewrite decide_False; [done|]. by intros [?%not_elem_of_nil _]. }
  cbn [deleteSeen] in Hrun. destruct (isBlank k0 || bool_decide (k0 ∈ seen)) eqn:E.
  - rewrite (IH _ _ Hrun Hseen). destruct (decide (key = k0)) as [->|Hne].
    + destruct (isBlank k0) eqn:Eb; [by rewrite !decide_False by (by intros [_ ?])|]. simpl in E.
      apply bool_decide_eq_true_1 in E. rewrite (Hseen _ E). by repeat destruct (decide _).
    + apply decide_ext. rewrite elem_of_cons. tauto.
  - apply orb_false_iff in E as [Eb Es]. destruct (kvDelete s k0) as [s1 [[]|]] eqn:Ed; [|done].
    pose proof (kvDelete_view s k0) as Hv. rewrite Ed in Hv. simpl in Hv. rewrite (IH _ _ Hrun).
    + rewrite Hv. destruct (decide (key = k0)) as [->|Hne].
      * rewrite lookup_delete_eq, (decide_True (P := k0 ∈ k0 :: keys /\ _)) by (split; [left|done]). by destruct (decide _).
      * rewrite lookup_delete_ne by done. apply decide_ext. rewrite elem_of_cons. tauto.
    + intros j. rewrite Hv. destruct (decide (j = k0)) as [->|Hne]; [by rewrite lookup_delete_eq|].
      rewrite lookup_delete_ne by done. intros [?|?]%elem_of_cons; [done|]. by apply Hseen.
Qed.

Lemma kindKey_visible {A K} (k : Kind A K) `{!KindOk k} i : root_ok -> isBlank (kindKey root k i) = false.
Proof.
  intros [Hs Hr]. unfold isBlank. rewrite TrimSpace_solid.
  - apply bool_decide_eq_false_2. unfold kindKey, kindPrefix. destruct root; [done|]. by rewrite !str_app_cons.
  - rewrite kindKey_place. unfold place. rewrite !str_forall_app, Hs, ko_name_solid, ko_path_solid. done.
Qed.

(** The keys of one kind among those of a connection. *)
Lemma elem_of_keysOf {A K} `{Countable K} `{RecordJSON A} (k : Kind A K) `{!KindOk k} conn c xs v (m : gmap K A) i x :
  rep k v m -> xs ≡ₚ (map_to_list m).*2 -> m !! i = Some x -> kindKey root k i ∈ keysOf root k conn c xs <-> conn x = c.
Proof.
  intros Hr Hp Hx. unfold keysOf. rewrite list_elem_of_In, in_map_iff. split.
  - intros (y & Ey & Hy). apply (kindKey_inj k) in Ey. apply list_elem_of_In, list_elem_of_filter in Hy as [Hc Hy]. rewrite Hp in Hy.
    apply list_elem_of_fmap in Hy as ([j z] & -> & Hz%elem_of_map_to_list). simpl in *.
    destruct (rp_in _ _ _ Hr _ _ Hz) as [Hj _]. congruence.
  - intros Hc. exists x. destruct (rp_in _ _ _ Hr _ _ Hx) as [Hi _]. split; [by rewrite Hi|].
    apply list_elem_of_In, list_elem_of_filter. split; [done|]. rewrite Hp. apply list_elem_of_fmap. exists (i, x).
    split; [done|by apply elem_of_map_to_list].
Qed.

Lemma keysOf_name {A K B L} (k : Kind A K) `{!KindOk k} (k' : Kind B L) `{!KindOk k'} conn c xs i :
  kindKey root k i ∈ keysOf root k' conn c xs -> kdName k = kdName k'.
Proof.
  unfold keysOf. rewrite list_elem_of_In, in_map_iff. intros (y & Ey & _). rewrite !kindKey_place in Ey.
  apply place_inj in Ey as [? _]; [done|apply ko_name..].
Qed.

Lemma kindKey_name {A K B L} (k : Kind A K) `{!KindOk k} (k' : Kind B L) `{!KindOk k'} i j :
  kindKey root k i = kindKey root k' j -> kdName k = kdName k'.
Proof. rewrite !kindKey_place. intros [? _]%place_inj; [done|apply ko_name..]. Qed.

Lemma checkpointKey_name {A K} (k : Kind A K) `{!KindOk k} i c : kindKey root k i = checkpointKey root c -> kdName k = "checkpoints".
Proof.
  rewrite kindKey_place. change (checkpointKey root c) with (place "checkpoints" (encodeKeyPart c)).
  intros [? _]%place_inj; [done|apply ko_name|done].
Qed.

Lemma eventKeys_name {A K} (k : Kind A K) `{!KindOk k} i c s :
  kindKey root k i ∈ kvList s (eventLogPrefix root c +:+ "/") -> kdName k = "events".
Proof.
  unfold kvList. rewrite elem_of_sort_Strings, list_elem_of_filter. intros [Hp%HasPrefix_spec _]. destruct Hp as [t Ht].
  rewrite kindKey_place in Ht. unfold eventLogPrefix in Ht. rewrite !str_app_assoc in Ht.
  change (place (kdName k) (kdPath k i) = place "events" (encodeKeyPart c +:+ "/" +:+ t)) in Ht.
  apply place_inj in Ht as [? _]; [done|apply ko_name|done].
Qed.

(** Whether a record goes depends on its own kind's keys only. *)
Ltac own_keys :=
  unfold connectionKeys; rewrite !elem_of_app, !elem_of_cons, elem_of_nil;
  split; [|tauto];
  let H := fresh in intros H; repeat (match type of H with _ \/ _ => destruct H as [H|H] end); try assumption; exfalso;
  first [ contradiction | apply (keysOf_name _ _) in H | apply (kindKey_name _ _) in H | apply (checkpointKey_name _) in H
        | apply (eventKeys_name _) in H ]; done.

Lemma purge_kind {A K} `{Countable K} `{RecordJSON A} (k : Kind A K) `{!KindOk k} (gone : K -> A -> bool) v v' (m m' : gmap K A) (keys : list string) :
  root_ok -> rep k v m -> (forall key, v' !! key = if decide (key ∈ keys /\ isBlank key = false) then None else v !! key) ->
  (forall i x, m !! i = Some x -> kindKey root k i ∈ keys <-> gone i x = true) ->
  (forall i, m' !! i = match m !! i with Some x => if gone i x then None else Some x | None => None end) ->
  rep k v' m'.
Proof.
  intros Hroot Hr Hv Hkeys Hm. apply (rep_filter k v v' m m' gone); [done| | |done].
  - intros i x Hx. rewrite Hv. specialize (Hkeys i x Hx). destruct (gone i x).
    + rewrite decide_True; [done|]. split; [by apply Hkeys|by apply kindKey_visible].
    + rewrite decide_False; [done|]. intros [Hin _]. by apply Hkeys in Hin.
  - intros key _ [raw Hraw]. rewrite Hv in Hraw. destruct (decide _); [done|]. by eexists.
Qed.

Lemma others_lookup {A} (conn : A -> string) c (m : gmap string A) i :
  others conn c m !! i = match m !! i with Some x => if bool_decide (conn x = c) then None else Some x | None => None end.
Proof.
  unfold others. destruct (m !! i) as [x|] eqn:E.
  - destruct (bool_decide (conn x = c)) eqn:Eb.
    + apply map_lookup_filter_None. right. intros y Hy. simpl. rewrite E in Hy. injection Hy as <-. by rewrite Eb.
    + apply map_lookup_filter_Some. done.
  - apply map_lookup_filter_None. by left.
Qed.

Lemma backs_deleteConnection s i n c s' :
  root_ok -> index_ok i -> backs (kvView s) i -> snapshot_of n i -> deleteKeys (connectionKeys root c n s) s = (s', Ok tt) ->
  backs (kvView s') (deleteConnection c i).
Proof.
  intros Hroot Hi Hb (P1 & P2 & P3 & P4 & P5 & P6 & P7 & P8 & P9 & P10 & P11) Hrun.
  pose proof (deleteSeen_spec _ _ _ _ Hrun) as Hv. specialize (Hv ltac:(by intros ? ?%not_elem_of_nil)).
  destruct (deleteConnection_spec c i Hi) as [_ Ht].
  pose proof (f_equal tbConnections Ht) as T1. pose proof (f_equal tbIdentities Ht) as T2. pose proof (f_equal tbConversations Ht) as T3.
  pose proof (f_equal tbContainers Ht) as T4. pose proof (f_equal tbPlacements Ht) as T5. pose proof (f_equal tbMessages Ht) as T6.
  pose proof (f_equal tbDrafts Ht) as T7. pose proof (f_equal tbApprovals Ht) as T8. pose proof (f_equal tbPolicies Ht) as T9.
  pose proof (f_equal tbExposures Ht) as T10. pose proof (f_equal tbWorkflows Ht) as T11. clear Ht.
  cbn [tablesOf purge tbConnections tbIdentities tbConversations tbContainers tbPlacements tbMessages tbDrafts tbApprovals tbPolicies
    tbExposures tbWorkflows] in *.
  assert (forall key raw, kvView s' !! key = Some raw -> kvView s !! key = Some raw) as Hsub.
  { intros key raw. rewrite Hv. by destruct (decide _). }
  destruct Hb. split; rewrite ?T1, ?T2, ?T3, ?T4, ?T5, ?T6, ?T7, ?T8, ?T9, ?T10, ?T11.
  - eapply (purge_kind connectionKind (fun k _ => bool_decide (k = c))); [done|exact bs_connections0|exact Hv| |].
    + intros k x Hx. rewrite bool_decide_eq_true. unfold connectionKeys. rewrite !elem_of_app, !elem_of_cons, elem_of_nil. split.
      * intros H. repeat (match type of H with _ \/ _ => destruct H as [H|H] end); try by exfalso;
          first [apply (keysOf_name _ _) in H | apply (checkpointKey_name _) in H | apply (eventKeys_name _) in H | idtac].
        by apply (kindKey_inj connectionKind) in H.
      * intros ->. tauto.
    + intros k. case_bool_decide as Hk; [subst k; rewrite lookup_delete_eq; by destruct (ixConnections i !! c)|].
      rewrite lookup_delete_ne by done. by destruct (ixConnections i !! k).
  - eapply (purge_kind identityKind (fun _ x => bool_decide (idConnectionID x = c))); [done|exact bs_identities0|exact Hv| |apply others_lookup].
    intros k x Hx. rewrite bool_decide_eq_true, <- (elem_of_keysOf identityKind idConnectionID c _ _ _ k x bs_identities0 P2 Hx). own_keys.
  - eapply (purge_kind conversationKind (fun _ x => bool_decide (cvConnectionID x = c))); [done|exact bs_conversations0|exact Hv| |apply others_lookup].
    intros k x Hx. rewrite bool_decide_eq_true, <- (elem_of_keysOf conversationKind cvConnectionID c _ _ _ k x bs_conversations0 P3 Hx). own_keys.
  - eapply (purge_kind containerKind (fun _ x => bool_decide (ctConnectionID x = c))); [done|exact bs_containers0|exact Hv| |apply others_lookup].
    intros k x Hx. rewrite bool_decide_eq_true, <- (elem_of_keysOf containerKind ctConnectionID c _ _ _ k x bs_containers0 P4 Hx). own_keys.
  - eapply (purge_kind placementKind (fun _ x => bool_decide (plConnectionID x = c))); [done|exact bs_placements0|exact Hv| |].
    + intros k x Hx. rewrite bool_decide_eq_true, <- (elem_of_keysOf placementKind plConnectionID c _ _ _ k x bs_placements0 P5 Hx). own_keys.
    + intros k. destruct (ixPlacements i !! k) as [x|] eqn:E; [|by apply map_lookup_filter_None; left].
      case_bool_decide; [apply map_lookup_filter_None; right|by apply map_lookup_filter_Some]. intros y Hy Hne. simpl in Hne. congruence.
  - eapply (purge_kind messageKind (fun _ x => bool_decide (msConnectionID x = c))); [done|exact bs_messages0|exact Hv| |apply others_lookup].
    intros k x Hx. rewrite bool_decide_eq_true, <- (elem_of_keysOf messageKind msConnectionID c _ _ _ k x bs_messages0 P6 Hx). own_keys.
  - eapply (purge_kind draftKind (fun _ x => bool_decide (drConnectionID x = c))); [done|exact bs_drafts0|exact Hv| |apply others_lookup].
    intros k x Hx. rewrite bool_decide_eq_true, <- (elem_of_keysOf draftKind drConnectionID c _ _ _ k x bs_drafts0 P7 Hx). own_keys.
  - eapply (purge_kind approvalKind (fun _ x => bool_decide (apConnectionID x = c))); [done|exact bs_approvals0|exact Hv| |apply others_lookup].
    intros k x Hx. rewrite bool_decide_eq_true, <- (elem_of_keysOf approvalKind apConnectionID c _ _ _ k x bs_approvals0 P8 Hx). own_keys.
  - eapply (purge_kind policyKind (fun _ _ => false)); [done|exact bs_policies0|exact Hv| |by intros k; destruct (ixPolicies i !! k)].
    intros k x Hx. assert (false = true <-> False) as -> by done. own_keys.
  - eapply (purge_kind exposureKind (fun _ x => bool_decide (exConnectionID x = c))); [done|exact bs_exposures0|exact Hv| |apply others_lookup].
    intros k x Hx. rewrite bool_decide_eq_true, <- (elem_of_keysOf exposureKind exConnectionID c _ _ _ k x bs_exposures0 P10 Hx). own_keys.
  - eapply (purge_kind workflowKind (fun _ _ => false)); [done|exact bs_workflows0|exact Hv| |by intros k; destruct (ixWorkflows i !! k)].
    intros k x Hx. assert (false = true <-> False) as -> by done. own_keys.
  - by eapply log_sub; [intros key raw Hr _; by apply Hsub|].
  - by eapply log_sub; [intros key raw Hr _; by apply Hsub|].
  - by eapply checkpoints_sub; [intros key raw Hr _; by apply Hsub|].
Qed.

(** ** Replacing identities *)

Lemma puts_lookup (m m' : gmap string Identity) xs k :
  (k ∉ map idID xs -> m !! k = m' !! k) ->
  foldl (fun m x => <[idID x := x]> m) m xs !! k = foldl (fun m x => <[idID x := x]> m) m' xs !! k.
Proof.
  revert m m'. induction xs as [|x xs IH]; intros m m' Hk; [apply Hk, not_elem_of_nil|]. simpl. apply IH. intros Hin.
  destruct (decide (k = idID x)) as [->|Hne]; [by rewrite !lookup_insert_eq|]. rewrite !lookup_insert_ne by done.
  apply Hk. simpl. rewrite not_elem_of_cons. done.
Qed.

Lemma puts_other (m : gmap string Identity) xs k :
  k ∉ map idID xs -> foldl (fun m x => <[idID x := x]> m) m xs !! k = m !! k.
Proof.
  revert m. induction xs as [|x xs IH]; intros m Hk; [done|]. simpl in *. apply not_elem_of_cons in Hk as [Hne Hk].
  rewrite IH by done. by rewrite lookup_insert_ne.
Qed.

(** The identities of [c] that are not kept. *)
Definition dropped (c : string) (keep : list string) (m : gmap string Identity) (k : string) : bool :=
  match m !! k with Some y => bool_decide (idConnectionID y = c) && negb (bool_decide (k ∈ keep)) | None => false end.

Lemma replace_lookup c xs i k :
  index_ok i ->
  fmAll (ixIdentities (replaceConnectionIdentities c xs i)) !! k =
    match foldl (fun m x => <[idID x := x]> m) (fmAll (ixIdentities i)) xs !! k with
    | Some x => if dropped c (map idID xs) (fmAll (ixIdentities i)) k then None else Some x
    | None => None
    end.
Proof.
  intros Hi. unfold replaceConnectionIdentities.
  rewrite (foldl_step (fun i : recordIndex => fmAll (ixIdentities i)) (fun x i => putIdentity x i)
    (fun (m : gmap string Identity) x => <[idID x := x]> m)) by done.
  cbn [setIdentities ixIdentities fmAll]. set (m := fmAll (ixIdentities i)). set (all := foldl _ m _). unfold dropped.
  destruct (bool_decide_reflect (k ∈ map idID xs)) as [Hk|Hk].
  - rewrite (puts_lookup all m) by done.
    by destruct (m !! k), (foldl _ m xs !! k); simpl; rewrite ?andb_false_r.
  - rewrite !puts_other by done. subst all. rewrite drop_lookup. cbn [negb].
    destruct (fo_index _ _ _ (io_identities _ Hi) c) as [_ He]. specialize (He k). fold m in He. destruct (m !! k) as [y|] eqn:E.
    + rewrite andb_true_r. destruct (bool_decide_reflect (idConnectionID y = c)) as [Hc|Hc].
      * rewrite decide_True; [done|]. split; [|done]. apply He. by exists y.
      * rewrite decide_False; [done|]. intros [Hin _]. apply He in Hin as (z & Hz & Hzc). congruence.
    + by destruct (decide _).
Qed.

Lemma putIdentities_spec c xs s s' i :
  Forall (fun x => wire x /\ Identity_Validate x = Ok tt) xs -> backs (kvView s) i -> putIdentities root c xs s = (s', Ok tt) ->
  backs (kvView s') (foldl (fun i x => putIdentity x i) i xs).
Proof.
  intros Hxs. revert s i. induction Hxs as [|x xs [Hw Hval] Hxs IH]; intros s i Hb Hrun; [by injection Hrun as <-|].
  cbn [putIdentities] in Hrun. destruct (bool_decide _); [done|]. destruct (kvPut root identityKind x s) as [s1 [[]|]] eqn:E; [|done].
  simpl. eapply IH; [|done]. destruct (putJSON_view _ _ _ _ _ Hw E) as (raw & Hu & ->). apply backs_identity; [done|].
  by apply decode_marshalled.
Qed.

Definition droppedKeys (c : string) (keep : list string) (xs : list Identity) : list string :=
  map (fun x => kindKey root identityKind (idID x)) (filter (fun x => idConnectionID x = c /\ idID x ∉ keep) xs).

Lemma dropIdentities_spec c keep xs s s' :
  dropIdentities root c keep xs s = (s', Ok tt) ->
  forall key, kvView s' !! key = if decide (key ∈ droppedKeys c keep xs) then None else kvView s !! key.
Proof.
  unfold droppedKeys. revert s. induction xs as [|x xs IH]; intros s Hrun key.
  { injection Hrun as <-. rewrite decide_False; [done|]. apply not_elem_of_nil. }
  cbn [dropIdentities] in Hrun. destruct (decide (idConnectionID x = c /\ idID x ∉ keep)) as [Hd|Hd].
  - rewrite filter_cons_True by done. destruct Hd as [Hc Hk]. rewrite !bool_decide_false in Hrun by tauto. simpl in Hrun.
    destruct (kvDelete s _) as [s1 [[]|]] eqn:E; [|done]. pose proof (kvDelete_view s (kindKey root identityKind (idID x))) as Hv.
    rewrite E in Hv. simpl in Hv. rewrite (IH _ Hrun), Hv. cbn [map]. set (k0 := kindKey root identityKind (idID x)).
    destruct (decide (key = k0)) as [->|Hne].
    + rewrite lookup_delete_eq, (decide_True (P := k0 ∈ k0 :: _)) by left. by destruct (decide _).
    + rewrite lookup_delete_ne by done. apply decide_ext. rewrite elem_of_cons. tauto.
  - rewrite filter_cons_False by done. rewrite <- (IH s); [done|]. destruct (bool_decide_reflect (idConnectionID x <> c)); [done|].
    destruct (bool_decide_reflect (idID x ∈ keep)); [done|]. destruct Hd. split; [|done]. by apply dec_stable.
Qed.

Lemma backs_replace s s' c xs i :
  Forall (fun x => wire x /\ Identity_Validate x = Ok tt) xs -> index_ok i -> backs (kvView s) i ->
  KV_ReplaceConnectionIdentities root c xs s = (s', Ok tt) -> backs (kvView s') (replaceConnectionIdentities c xs i).
Proof.
  intros Hxs Hi Hb Hrun. unfold KV_ReplaceConnectionIdentities in Hrun.
  destruct (rep_list identityKind s _ (bs_identities _ _ Hb)) as (existing & El & P). rewrite El in Hrun.
  destruct (putIdentities root c xs s) as [s1 [[]|]] eqn:Ep; [|done].
  pose proof (putIdentities_spec _ _ _ _ _ Hxs Hb Ep) as H1. set (i1 := foldl (fun i x => putIdentity x i) i xs) in *.
  pose proof (dropIdentities_spec _ _ _ _ _ Hrun) as Hv. set (keep := map idID xs) in *. set (m := fmAll (ixIdentities i)) in *.
  assert (forall key raw, kvView s' !! key = Some raw -> kvView s1 !! key = Some raw) as Hsub.
  { intros key raw. rewrite Hv. by destruct (decide _). }
  assert (forall k, kindKey root identityKind k ∈ droppedKeys c keep existing <-> dropped c keep m k = true) as Hdrop.
  { intros k. unfold droppedKeys, dropped. rewrite list_elem_of_In, in_map_iff. split.
    - intros (x & Ex & Hx). apply (kindKey_inj identityKind) in Ex. apply list_elem_of_In, list_elem_of_filter in Hx as [[Hc Hk] Hx].
      rewrite P in Hx. apply list_elem_of_fmap in Hx as ([j y] & -> & Hy%elem_of_map_to_list). simpl in *.
      destruct (rp_in _ _ _ (bs_identities _ _ Hb) _ _ Hy) as [Hj _]. simpl in Hj. subst. rewrite Hy.
      by rewrite bool_decide_true, bool_decide_false.
    - destruct (m !! k) as [y|] eqn:E; [|done]. intros [Hc%bool_decide_eq_true Hk%negb_true_iff%bool_decide_eq_false]%andb_prop.
      exists y. destruct (rp_in _ _ _ (bs_identities _ _ Hb) _ _ E) as [Hj _]. simpl in Hj. subst k. split; [done|].
      apply list_elem_of_In, list_elem_of_filter. split; [done|]. rewrite P. apply list_elem_of_fmap. exists (idID y, y).
      split; [done|by apply elem_of_map_to_list]. }
  assert (rep identityKind (kvView s') (fmAll (ixIdentities (replaceConnectionIdentities c xs i)))) as Hid.
  { eapply (rep_filter identityKind (kvView s1) _ (fmAll (ixIdentities i1)) _ (fun k _ => dropped c keep m k)); [apply H1| | |].
    - intros k x _. rewrite Hv. specialize (Hdrop k). destruct (dropped c keep m k); [by rewrite decide_True by by apply Hdrop|].
      rewrite decide_False; [done|]. intros Hin. by apply Hdrop in Hin.
    - intros key _ [raw Hr%Hsub]. by eexists.
    - intros k. rewrite replace_lookup by done. unfold i1.
      by rewrite (foldl_step (fun i : recordIndex => fmAll (ixIdentities i)) (fun x i => putIdentity x i)
        (fun (m : gmap string Identity) x => <[idID x := x]> m)) by done. }
  assert (forall key, (forall k, key <> kindKey root identityKind k) -> kvView s' !! key = kvView s1 !! key) as Hframe.
  { intros key Hk. rewrite Hv. destruct (decide _) as [Hin|]; [|done]. exfalso. unfold droppedKeys in Hin.
    rewrite list_elem_of_In, in_map_iff in Hin. destruct Hin as (x & Ex & _). by apply (Hk (idID x)). }
  assert (forall f, recordsOf (setIdentities f i1) = recordsOf (setIdentities f i)) as Er.
  { intros f. unfold i1. by rewrite foldl_putIdentity. }
  set (f' := ixIdentities (replaceConnectionIdentities c xs i)) in *.
  apply (backs_index _ (setIdentities f' i1)).
  { rewrite Er. unfold f', replaceConnectionIdentities. by rewrite foldl_putIdentity. }
  assert (forall {A K} (k : Kind A K) `{!KindOk k}, kdName k <> "identities" -> forall key, below k key -> kvView s' !! key = kvView s1 !! key) as Hother.
  { intros A K k Hk Hne key Hbelow. apply Hframe. intros j ->. rewrite kindKey_place in Hbelow.
    apply (below_place k) in Hbelow; [|done]. done. }
  destruct H1. split; simpl; try exact Hid; try (eapply rep_frame; [eassumption|]; apply (Hother _ _ _ _); done).
  - by eapply log_sub; [intros key raw Hr _; by apply Hsub|].
  - by eapply log_sub; [intros key raw Hr _; by apply Hsub|].
  - by eapply checkpoints_sub; [intros key raw Hr _; by apply Hsub|].
Qed.

(** ** The store over the KV backend *)

#[local] Instance backend : MessagingBackend S := KVBackend root.
Implicit Types st : Store S.

(** Records that JSON keeps, at times a log can name. *)
Definition op_wire (env : LogEnv) (op : index_op) : Prop :=
  match op with
  | OpPutConnection x => wire x | OpPutIdentity x => wire x | OpReplaceIdentities _ xs => Forall wire xs
  | OpPutConversation x => wire x | OpPutContainer x => wire x | OpPutPlacement x => wire x | OpPutMessage x => wire x
  | OpPutDraft x => wire x | OpPutApproval x => wire x | OpPutPolicy x => wire x | OpPutExposure x => wire x
  | OpPutWorkflow x => wire x | OpPutCheckpoint _ x => wire x
  | OpAppendActivity e => wire e /\ nano_range (leNow env) | OpAppendEvent e => wire e /\ nano_range (leNow env)
  | OpDeleteConnection _ | OpDeletePlacement _ _ => True
  end.

(** The two requests that write several keys may stop halfway when they fail. *)
Definition settled (op : index_op) (r : result string unit) : Prop :=
  match op with OpDeleteConnection _ | OpReplaceIdentities _ _ => r = Ok tt | _ => True end.

(** What a run of the store keeps. *)
Definition store_ok st : Prop := exists i, stIndex st = Some i /\ index_ok i /\ backs (kvView (stBackend st)) i.

Lemma commit_ok valid write op st st' r :
  store_ok st -> commit valid write op st = (st', r) -> (valid = Ok tt -> op_scoped op) ->
  (forall i b r', valid = Ok tt -> index_ok i -> backs (kvView (stBackend st)) i -> write (stBackend st) = (b, r') ->
    (is_ok r' = false -> settled op r) -> backs (kvView b) (if is_ok r' then run_index i op else i)) ->
  settled op r -> store_ok st'.
Proof.
  intros (i & Hi & Hok & Hb) Hrun Hsc Hw Hset. unfold commit in Hrun. destruct valid as [[]|]; [|injection Hrun as <- <-; by exists i].
  destruct (write (stBackend st)) as [b [[]|e]] eqn:Ew; injection Hrun as <- <-.
  - exists (run_index i op). unfold ensureIndex. rewrite Hi. simpl. split_and!; [done| |].
    + apply run_index_ok; auto.
    + by apply (Hw i b (Ok tt)).
  - exists i. simpl. split_and!; [done|done|]. by apply (Hw i b (Err e)).
Qed.

Lemma kvPut_step {A K} `{Countable K} `{RecordJSON A} (k : Kind A K) x s s' r i j :
  wire x -> kdValidate k x = Ok tt -> backs (kvView s) i -> kvPut root k x s = (s', r) ->
  (forall raw, decodeValid (kdValidate k) raw = Ok x -> backs (<[kindKey root k (kdIdent k x) := raw]> (kvView s)) j) ->
  backs (kvView s') (if is_ok r then j else i).
Proof.
  intros Hw Hv Hb Hrun Hput. destruct (putJSON_view _ _ _ _ _ Hw Hrun) as (raw & Hu & ->).
  destruct (is_ok r); [|done]. apply Hput. by apply decode_marshalled.
Qed.

Lemma appendTo_step {A} `{RecordJSON A} prefix what (e : A) env s s' r :
  wire e -> appendTo prefix what (marshal e) env s = (s', r) ->
  exists raw, unmarshal raw = Ok e /\
    kvView s' = if is_ok r then <[entryKey (normalizeCollectionPrefix prefix) (appendLogID (leNow env) (leUUID env)) := raw]> (kvView s)
                else kvView s.
Proof.
  intros Hw. destruct (unmarshal_marshal e Hw) as (raw & Hm & Hu). unfold appendTo, logAppend. rewrite Hm. intros Hrun. exists raw.
  split; [done|]. set (key := entryKey _ _) in *. pose proof (kvSet_view s key raw) as Hv. destruct (kvSet s key raw) as [s1 [u|err]];
    injection Hrun as <- <-; done.
Qed.

Lemma checkIdentities_ok c xs :
  checkIdentities c xs = Ok tt -> Forall (fun x => idConnectionID x = c) xs /\ Forall (fun x => Identity_Validate x = Ok tt) xs.
Proof.
  induction xs as [|x xs IH]; [done|]. simpl. destruct (Identity_Validate x) as [[]|] eqn:E; [|done].
  case_bool_decide as Hc; [done|]. intros [H1 H2]%IH. split; constructor; try done.
Qed.

Lemma entry_place name w env :
  root_ok -> str_forall solid name = true -> w <> "" ->
  entryKey (normalizeCollectionPrefix (place name (encodeKeyPart w))) (appendLogID (leNow env) (leUUID env)) =
    place name (encodeKeyPart w +:+ "/" +:+ appendLogID (leNow env) (leUUID env)).
Proof. intros Hr Hn Hw. rewrite log_prefix_normal by done. unfold entryKey, listPrefix, place. by rewrite !str_app_assoc. Qed.

Lemma KV_append_activity env e s s' r i :
  root_ok -> wire e -> nano_range (leNow env) -> ActivityEvent_Validate e = Ok tt -> backs (kvView s) i ->
  KV_AppendActivityEvent root env e s = (s', r) -> backs (kvView s') i.
Proof.
  intros Hr Hw Hn Hv Hb Hrun. destruct (appendTo_step _ _ _ _ _ _ _ Hw Hrun) as (raw & Hu & ->). destruct (is_ok r); [|done].
  change (activityLogPrefix root (aeWorkflowID e)) with (place "activity" (encodeKeyPart (aeWorkflowID e))). rewrite entry_place; [|done..|].
  - apply (backs_activity _ _ _ _ _ _ e); [done| |done]. by apply decode_marshalled.
  - unfold ActivityEvent_Validate in Hv. apply check_ok in Hv as [_ Hv]. apply check_ok in Hv as [Hv _]. by eapply requireID_nonempty.
Qed.

Lemma KV_append_event env e s s' r i :
  root_ok -> wire e -> nano_range (leNow env) -> Event_Validate e = Ok tt -> backs (kvView s) i ->
  KV_AppendEvent root env e s = (s', r) -> backs (kvView s') i.
Proof.
  intros Hr Hw Hn Hv Hb Hrun. destruct (appendTo_step _ _ _ _ _ _ _ Hw Hrun) as (raw & Hu & ->). destruct (is_ok r); [|done].
  change (eventLogPrefix root (evConnectionID e)) with (place "events" (encodeKeyPart (evConnectionID e))). rewrite entry_place; [|done..|].
  - apply (backs_event _ _ _ _ _ _ e); [done| |done]. by apply decode_marshalled.
  - unfold Event_Validate in Hv. do 2 apply check_ok in Hv as [_ Hv]. apply check_ok in Hv as [Hv _]. by eapply requireID_nonempty.
Qed.

Ltac put_step k L :=
  match goal with Hrun : _ = (_, _), Hok : store_ok _, Hw : wire ?x |- _ =>
    eapply (commit_ok _ _ _ _ _ _ Hok Hrun); [done| |done];
    let i := fresh in let Hv := fresh in let Hb := fresh in let Hd := fresh in let raw := fresh in
    intros i ? ? Hv _ Hb Hd _; refine (kvPut_step k x _ _ _ i (run_index i _) Hw Hv Hb Hd _); intros raw ?; by apply L
  end.

Lemma delete_step s s' c r i :
  root_ok -> index_ok i -> backs (kvView s) i -> KV_DeleteConnection root c s = (s', r) -> r = Ok tt ->
  backs (kvView s') (deleteConnection c i).
Proof.
  intros Hroot Hi Hb Hrun ->. unfold KV_DeleteConnection in Hrun. destruct (isBlank c); [done|].
  destruct (load_ok s i Hroot Hb) as (n & Hn & Hsn). rewrite Hn in Hrun. by eapply backs_deleteConnection.
Qed.

Lemma append_step_ok op write valid st st' r :
  store_ok st -> commit valid write op st = (st', r) -> op_scoped op -> (forall i, recordsOf (run_index i op) = recordsOf i) ->
  (forall i b r', valid = Ok tt -> backs (kvView (stBackend st)) i -> write (stBackend st) = (b, r') -> backs (kvView b) i) ->
  settled op r -> store_ok st'.
Proof.
  intros Hok Hrun Hsc Hrec Hw Hset. eapply (commit_ok _ _ _ _ _ _ Hok Hrun); [done| |done]. intros i b r' Hv _ Hb Hd _.
  pose proof (Hw i b r' Hv Hb Hd) as H. destruct (is_ok r'); [|done]. eapply backs_index; [|exact H]. by rewrite Hrec.
Qed.

Lemma run_store_ok env op st st' r :
  root_ok -> store_ok st -> op_wire env op -> run_store env op st = (st', r) -> settled op r -> store_ok st'.
Proof.
  intros Hroot Hok Hw Hrun Hset. destruct op; simpl in Hrun, Hw.
  - put_step connectionKind backs_connection.
  - eapply (commit_ok _ _ _ _ _ _ Hok Hrun); [done| |done]. intros i b r' Hv Hi Hb Hd Hs. destruct r' as [[]|e].
    + by eapply delete_step.
    + exfalso. specialize (Hs eq_refl). simpl in Hs. unfold DeleteConnection, commit in Hrun. rewrite Hv, Hd in Hrun. by injection Hrun as _ <-.
  - put_step identityKind backs_identity.
  - pose proof (commit_ok _ _ _ _ _ _ Hok Hrun) as H. apply H; [| |done].
    + destruct (required c _); [|done]. intros [Hc _]%checkIdentities_ok. done.
    + intros i b r' Hv Hi Hb Hd Hs. destruct r' as [[]|e].
      * destruct (required c _); [|done]. apply checkIdentities_ok in Hv as [_ Hv]. eapply backs_replace; [|done..].
        apply Forall_and. done.
      * exfalso. specialize (Hs eq_refl). simpl in Hs. unfold ReplaceConnectionIdentities, commit in Hrun. rewrite Hv, Hd in Hrun. by injection Hrun as _ <-.
  - put_step conversationKind backs_conversation.
  - put_step containerKind backs_container.
  - put_step placementKind backs_placement.
  - eapply (commit_ok _ _ _ _ _ _ Hok Hrun); [done| |done]. intros i b r' _ _ Hb Hd _.
    change (kvDelete (stBackend st) (kindKey root placementKind (m, c)) = (b, r')) in Hd.
    pose proof (kvDelete_view (stBackend st) (kindKey root placementKind (m, c))) as Hv. rewrite Hd in Hv. simpl in Hv. rewrite Hv.
    destruct (is_ok r'); [by apply backs_deletePlacement|done].
  - put_step messageKind backs_message.
  - put_step draftKind backs_draft.
  - put_step approvalKind backs_approval.
  - put_step policyKind backs_policy.
  - put_step exposureKind backs_exposure.
  - put_step workflowKind backs_workflow.
  - destruct Hw as [Hw Hn]. unfold AppendActivityEvent in Hrun. destruct (is_ok _ && _); [by injection Hrun as <- _|].
    eapply (append_step_ok _ _ _ _ _ _ Hok Hrun); [done..| |done]. intros i b r' Hv Hb Hd. by eapply KV_append_activity.
  - destruct Hw as [Hw Hn]. unfold AppendEvent, loggedEvent, recordEvent in Hrun. destruct (is_ok _ && _); [by injection Hrun as <- _|].
    destruct (commit _ _ _ _) as [st1 r1] eqn:Ec. assert (store_ok st1) as H1.
    { eapply (append_step_ok _ _ _ _ _ _ Hok Ec); [done..| |done]. intros i b r' Hv Hb Hd. by eapply KV_append_event. }
    destruct r1; injection Hrun as <- _; done.
  - eapply (append_step_ok _ _ _ _ _ _ Hok Hrun); [done..| |done]. intros i b r' Hv Hb Hd.
    destruct (putJSON_view _ _ _ _ _ Hw Hd) as (raw & Hu & ->). destruct (is_ok r'); [|done].
    change (checkpointKey root c) with (place "checkpoints" (encodeKeyPart c)). by eapply backs_checkpoint.
Qed.

(** The stores that requests lead to, from an empty one. *)
Inductive reaches (b0 : S) : Store S -> Prop :=
| reaches_new st : kvView b0 = ∅ -> NewStore b0 = Ok st -> reaches b0 st
| reaches_run st env op st' r :
    reaches b0 st -> op_wire env op -> run_store env op st = (st', r) -> settled op r -> reaches b0 st'.

Lemma backs_empty : backs ∅ emptyIndex.
Proof. split; try apply rep_empty; intros key raw _; rewrite lookup_empty; done. Qed.

Lemma reaches_ok b0 st : root_ok -> reaches b0 st -> store_ok st.
Proof.
  intros Hroot Hr. induction Hr as [st Hb Hnew|st env op st' r _ IH Hw Hrun Hset]; [|by eapply run_store_ok].
  pose proof backs_empty as He. rewrite <- Hb in He. destruct (load_ok _ _ Hroot He) as (n & Hn & Hsn).
  unfold NewStore, Reload in Hnew. simpl in Hnew. rewrite Hn in Hnew. injection Hnew as <-.
  exists (newRecordIndex n). simpl. split_and!; [done|apply messagingIndex_ok|].
  eapply backs_index; [|exact He]. symmetry. apply snapshot_records; [apply emptyIndex_ok|done].
Qed.

(** C15 (refinement). A store over the KV backend can be reloaded at any time: the
    load succeeds, and the index it builds has the records, and gives the
    listings, of the index the store kept. *)
Theorem msg_store_reloads b0 st (Hroot : root_ok) (Hr : reaches b0 st) :
  exists st', Reload st = (st', Ok tt) /\
    recordsOf (ensureIndex st') = recordsOf (ensureIndex st) /\
    lists_tables (ensureIndex st) (recordsOf (ensureIndex st)) /\
    lists_tables (ensureIndex st') (recordsOf (ensureIndex st)).
Proof.
  destruct (reaches_ok b0 st Hroot Hr) as (i & Hi & Hok & Hb). destruct (load_ok _ _ Hroot Hb) as (n & Hn & Hsn).
  unfold Reload. simpl. rewrite Hn. eexists. split; [done|]. unfold ensureIndex. rewrite Hi. simpl.
  pose proof (snapshot_records n i Hok Hsn) as E. split_and!; [done| |rewrite <- E].
  - by destruct (lists_tables_ok i Hok).
  - by destruct (lists_tables_ok _ (messagingIndex_ok n)).
Qed.
End Backs.

Section Race.
Context {B : Type} `{BK : !MessagingBackend B}.

(** An event of one request is logged once, but two requests that look
    before either of them writes, as two webhooks with the same body may, both
    write: the log of the connection has the event twice and the observers get it
    twice.  A request that comes after the first finds it there. *)
Theorem msg_event_race_twice env1 env2 e st st1 st2 i
  (Hi : stIndex st = Some i) (Hnew : loggedEvent e st = false)
  (H1 : recordEvent env1 e st = (st1, Ok tt)) (H2 : recordEvent env2 e st1 = (st2, Ok tt)) :
  (exists j, stIndex st2 = Some j /\
    listConnectionEvents (evConnectionID e) j ≡ₚ listConnectionEvents (evConnectionID e) i ++ [e; e]) /\
  stNotified st2 = stNotified st ++ [e; e] /\
  AppendEvent env1 e st = (st1, Ok tt) /\ AppendEvent env2 e st1 = (st1, Ok tt).
Proof.
  assert (forall env s s' k, stIndex s = Some k -> recordEvent env e s = (s', Ok tt) -> is_ok (Event_Validate e) = true /\
    stIndex s' = Some (appendEvent (evConnectionID e) e k) /\ stNotified s' = stNotified s ++ [e]) as Hrec.
  { intros env s s' k Hk. unfold recordEvent, commit. destruct (Event_Validate e); [|done]. destruct (bkAppendEvent _ _ _) as [b [u|err]]; [|done].
    intros [= <-]. unfold ensureIndex. by rewrite Hk. }
  assert (forall k, listConnectionEvents (evConnectionID e) (appendEvent (evConnectionID e) e k) ≡ₚ listConnectionEvents (evConnectionID e) k ++ [e]) as Hlist.
  { intros k. unfold listConnectionEvents, appendEvent. cbn. rewrite lookup_insert_eq. simpl. apply sortBy_perm. }
  destruct (Hrec _ _ _ _ Hi H1) as (Hv & Hi1 & Hn1). destruct (Hrec _ _ _ _ Hi1 H2) as (_ & Hi2 & Hn2). split_and!.
  - eexists. split; [exact Hi2|]. rewrite !Hlist, <- app_assoc. done.
  - by rewrite Hn2, Hn1, <- app_assoc.
  - unfold AppendEvent. by rewrite Hnew.
  - unfold AppendEvent. assert (loggedEvent e st1 = true) as ->; [|done]. unfold loggedEvent. rewrite Hv, Hi1. simpl.
    unfold hasConnectionEvent. apply existsb_exists. exists e. split; [|by apply bool_decide_eq_true]. apply list_elem_of_In.
    change (e ∈ listConnectionEvents (evConnectionID e) (appendEvent (evConnectionID e) e i)). rewrite Hlist. set_solver.
Qed.
End Race.

(** ** A history of a store *)

Module Demo.
(** JSON of the records of one list, by name. *)
Definition listed {A} (name : A -> string) (l : list A) (raw : string) : option A :=
  head (filter (fun x => name x = raw) l).

Definition listJSON {A} (name : A -> string) (l : list A) : RecordJSON A.
Proof.
  refine {|
    marshal x := Ok (name x);
    unmarshal raw := match listed name l raw with Some x => Ok x | None => Err "unexpected end of JSON input" end;
    wire x := listed name l (name x) = Some x
  |}.
  intros x Hx. exists (name x). by rewrite Hx.
Defined.

Import MessagingStore.Demo.

#[export] Instance json : MessagingJSON := {|
  js_connection := listJSON cnID [conn "a"; conn "b"];
  js_identity := listJSON idID [ident_ "id-1" "a" false; ident_ "id-2" "b" true; ident_ "id-3" "a" true];
  js_conversation := listJSON cvID [conv "v1" "a"; conv "v2" "b"];
  js_container := listJSON ctID [];
  js_placement := listJSON (fun p => plMessageID p +:+ "/" +:+ plContainerID p)
    [mkPlacement "m1" "a" "inbox" "" ∅; mkPlacement "m2" "a" "inbox" "" ∅];
  js_message := listJSON (fun m => msID m +:+ "@" +:+ msConnectionID m)
    [msg "m2" "v1" "a" 20; msg "m1" "v1" "a" 10; msg "m3" "v1" "a" 30; msg "m3" "v2" "b" 30];
  js_draft := listJSON drID [draft_ "d1" "v1" "a"];
  js_approval := listJSON apID [approval "a1" "d1" "a" 5];
  js_policy := listJSON poID [];
  js_exposure := listJSON exID [];
  js_workflow := listJSON wfID [];
  js_activity := listJSON aeID [];
  js_event := listJSON evID [event "e1" "a" 7; event "e2" "a" 9];
  js_checkpoint := listJSON ckCursor []
|}.

#[local] Instance demoBackend : MessagingBackend (gmap string string) := KVBackend "messaging".

(** The history of the index, as requests, and the deletion of a connection. *)
Definition requests : list (LogEnv * index_op) :=
  imap (fun n op => (mkLogEnv (100 + Z.of_nat n) "u", op)) (ops ++ [OpDeletePlacement "m2" "inbox"; OpDeleteConnection "b"]).

Definition run_all (st : Store (gmap string string)) (rs : list (LogEnv * index_op)) : Store (gmap string string) :=
  foldl (fun st '(env, op) => (run_store env op st).1) st rs.

Definition oks (st : Store (gmap string string)) (rs : list (LogEnv * index_op)) : bool :=
  (foldl (fun '(st, ok) '(env, op) => let '(st, r) := run_store env op st in (st, ok && is_ok r)) (st, true) rs).2.

Definition start : Store (gmap string string) := mkStore ∅ (Some (newRecordIndex emptySnapshot)) [].
Definition final : Store (gmap string string) := run_all start requests.

Lemma run_all_reaches st rs :
  reaches "messaging" ∅ st -> Forall (fun er => op_wire er.1 er.2) rs -> oks st rs = true -> reaches "messaging" ∅ (run_all st rs).
Proof.
  intros Hst Hw. revert st Hst. induction Hw as [|[env op] rs Hop Hw IH]; intros st Hst Hok; [done|]. simpl in *.
  unfold oks in Hok. simpl in Hok. destruct (run_store env op st) as [st1 [[]|e]] eqn:E.
  - apply IH; [|done]. eapply reaches_run; [done|done|exact E|]. by destruct op.
  - exfalso. simpl in Hok. revert Hok. generalize st1. clear. induction rs as [|[env op] rs IH]; intros st; [done|]. simpl.
    destruct (run_store env op st) as [st1 r]. apply IH.
Qed.

Lemma requests_wire : Forall (fun er => op_wire er.1 er.2) requests.
Proof. repeat constructor; vm_compute; done. Qed.

Lemma requests_ok : oks start requests = true.
Proof. vm_compute. done. Qed.

Lemma final_reached : reaches "messaging" ∅ final.
Proof.
  apply run_all_reaches; [|exact requests_wire|exact requests_ok]. apply (reaches_new "messaging" ∅ start); [done|]. vm_compute. done.
Qed.

Lemma root_ok_messaging : root_ok "messaging".
Proof. done. Qed.

(** Two requests with the event ["e1"] of the connection ["a"], on a new store. *)
Definition twice : Event := event "e1" "a" 7.
Definition raced1 : Store (gmap string string) := (recordEvent (mkLogEnv 100 "u1") twice start).1.
Definition raced2 : Store (gmap string string) := (recordEvent (mkLogEnv 101 "u2") twice raced1).1.
End Demo.

Lemma msg_store_reloads_witness :
  let st := Demo.final in
  exists st', Reload (BK := KVBackend (JS := Demo.json) "messaging") st = (st', Ok tt) /\
    recordsOf (ensureIndex st') = recordsOf (ensureIndex st) /\
    lists_tables (ensureIndex st) (recordsOf (ensureIndex st)) /\
    lists_tables (ensureIndex st') (recordsOf (ensureIndex st)).
Proof. exact (msg_store_reloads "messaging" ∅ Demo.final Demo.root_ok_messaging Demo.final_reached). Defined.

Lemma msg_event_race_twice_witness :
  loggedEvent Demo.twice Demo.start = false /\ stNotified Demo.raced2 = [Demo.twice; Demo.twice] /\
  size (kvView (stBackend Demo.raced2)) = 2%nat.
Proof.
  split_and!; [vm_compute; reflexivity| |vm_compute; reflexivity].
  exact (proj1 (proj2 (msg_event_race_twice (BK := Demo.demoBackend) (mkLogEnv 100 "u1") (mkLogEnv 101 "u2") Demo.twice
    Demo.start Demo.raced1 Demo.raced2 _ eq_refl eq_refl eq_refl eq_refl))).
Defined.
