(* ===== verification/MessagingBroker.v ===== *)
(** * The messaging broker (pkg/messaging/broker: policy.go, outbound.go,
    manage.go, broker.go)

    Drafts, approvals and sends over a [Store] and an adapter process.  The
    operations run in a monad over a [World]: the store, a tick that orders the
    readings of the clock and of the identifier source, and the trace of the calls
    to the adapter and to the approval mailbox.  The adapter and the mailbox are an
    interface, [BrokerEnv]: they may answer anything.  A send is shown to need a
    permission, and an approval where the policy asks for one; the approval it
    finds may be older than the text it sends. *)

From Stdlib Require Import Ascii.
From stdpp Require Import base numbers list gmap strings sorting.
From S2P Require Import Prelude GoStrings GoStrconv GoText Messaging MessagingStore MessagingKV.

(** ** Assignments to single fields *)

Definition setWorkflowStatus (v : string) (w : Workflow) : Workflow := mkWorkflow (wfID w) (wfKind w) v (wfSourceConnectionID w)
  (wfSourceIdentityID w) (wfSourceConversationID w) (wfSourceMessageID w) (wfOperatorConnectionID w) (wfOperatorMessageID w)
  (wfRuleID w) (wfPolicyID w) (wfExposureID w) (wfSender w) (wfSubject w) (wfSummary w) (wfDraftID w) (wfApprovalID w)
  (wfOutboundMessageID w) (wfSourceCreatedAt w) (wfBrokerReceivedAt w) (wfRuleMatchedAt w) (wfDraftCreatedAt w)
  (wfOperatorNotifiedAt w) (wfOperatorRespondedAt w) (wfApprovedAt w) (wfSendRequestedAt w) (wfSourceSentAt w) (wfFulfilledAt w)
  (wfLastActivityAt w) (wfNeedsAttention w) (wfAttentionReason w) (wfError w) (wfMetadata w).
Definition setWorkflowPolicyID (v : string) (w : Workflow) : Workflow := mkWorkflow (wfID w) (wfKind w) (wfStatus w)
  (wfSourceConnectionID w) (wfSourceIdentityID w) (wfSourceConversationID w) (wfSourceMessageID w) (wfOperatorConnectionID w)
  (wfOperatorMessageID w) (wfRuleID w) v (wfExposureID w) (wfSender w) (wfSubject w) (wfSummary w) (wfDraftID w) (wfApprovalID
  w) (wfOutboundMessageID w) (wfSourceCreatedAt w) (wfBrokerReceivedAt w) (wfRuleMatchedAt w) (wfDraftCreatedAt w)
  (wfOperatorNotifiedAt w) (wfOperatorRespondedAt w) (wfApprovedAt w) (wfSendRequestedAt w) (wfSourceSentAt w) (wfFulfilledAt w)
  (wfLastActivityAt w) (wfNeedsAttention w) (wfAttentionReason w) (wfError w) (wfMetadata w).
Definition setWorkflowExposureID (v : string) (w : Workflow) : Workflow := mkWorkflow (wfID w) (wfKind w) (wfStatus w)
  (wfSourceConnectionID w) (wfSourceIdentityID w) (wfSourceConversationID w) (wfSourceMessageID w) (wfOperatorConnectionID w)
  (wfOperatorMessageID w) (wfRuleID w) (wfPolicyID w) v (wfSender w) (wfSubject w) (wfSummary w) (wfDraftID w) (wfApprovalID w)
  (wfOutboundMessageID w) (wfSourceCreatedAt w) (wfBrokerReceivedAt w) (wfRuleMatchedAt w) (wfDraftCreatedAt w)
  (wfOperatorNotifiedAt w) (wfOperatorRespondedAt w) (wfApprovedAt w) (wfSendRequestedAt w) (wfSourceSentAt w) (wfFulfilledAt w)
  (wfLastActivityAt w) (wfNeedsAttention w) (wfAttentionReason w) (wfError w) (wfMetadata w).
Definition setWorkflowDraftID (v : string) (w : Workflow) : Workflow := mkWorkflow (wfID w) (wfKind w) (wfStatus w)
  (wfSourceConnectionID w) (wfSourceIdentityID w) (wfSourceConversationID w) (wfSourceMessageID w) (wfOperatorConnectionID w)
  (wfOperatorMessageID w) (wfRuleID w) (wfPolicyID w) (wfExposureID w) (wfSender w) (wfSubject w) (wfSummary w) v (wfApprovalID
  w) (wfOutboundMessageID w) (wfSourceCreatedAt w) (wfBrokerReceivedAt w) (wfRuleMatchedAt w) (wfDraftCreatedAt w)
  (wfOperatorNotifiedAt w) (wfOperatorRespondedAt w) (wfApprovedAt w) (wfSendRequestedAt w) (wfSourceSentAt w) (wfFulfilledAt w)
  (wfLastActivityAt w) (wfNeedsAttention w) (wfAttentionReason w) (wfError w) (wfMetadata w).
Definition setWorkflowApprovalID (v : string) (w : Workflow) : Workflow := mkWorkflow (wfID w) (wfKind w) (wfStatus w)
  (wfSourceConnectionID w) (wfSourceIdentityID w) (wfSourceConversationID w) (wfSourceMessageID w) (wfOperatorConnectionID w)
  (wfOperatorMessageID w) (wfRuleID w) (wfPolicyID w) (wfExposureID w) (wfSender w) (wfSubject w) (wfSummary w) (wfDraftID w) v
  (wfOutboundMessageID w) (wfSourceCreatedAt w) (wfBrokerReceivedAt w) (wfRuleMatchedAt w) (wfDraftCreatedAt w)
  (wfOperatorNotifiedAt w) (wfOperatorRespondedAt w) (wfApprovedAt w) (wfSendRequestedAt w) (wfSourceSentAt w) (wfFulfilledAt w)
  (wfLastActivityAt w) (wfNeedsAttention w) (wfAttentionReason w) (wfError w) (wfMetadata w).
Definition setWorkflowOutboundMessageID (v : string) (w : Workflow) : Workflow := mkWorkflow (wfID w) (wfKind w) (wfStatus w)
  (wfSourceConnectionID w) (wfSourceIdentityID w) (wfSourceConversationID w) (wfSourceMessageID w) (wfOperatorConnectionID w)
  (wfOperatorMessageID w) (wfRuleID w) (wfPolicyID w) (wfExposureID w) (wfSender w) (wfSubject w) (wfSummary w) (wfDraftID w)
  (wfApprovalID w) v (wfSourceCreatedAt w) (wfBrokerReceivedAt w) (wfRuleMatchedAt w) (wfDraftCreatedAt w) (wfOperatorNotifiedAt
  w) (wfOperatorRespondedAt w) (wfApprovedAt w) (wfSendRequestedAt w) (wfSourceSentAt w) (wfFulfilledAt w) (wfLastActivityAt w)
  (wfNeedsAttention w) (wfAttentionReason w) (wfError w) (wfMetadata w).
Definition setWorkflowDraftCreatedAt (v : option Time) (w : Workflow) : Workflow := mkWorkflow (wfID w) (wfKind w) (wfStatus w)
  (wfSourceConnectionID w) (wfSourceIdentityID w) (wfSourceConversationID w) (wfSourceMessageID w) (wfOperatorConnectionID w)
  (wfOperatorMessageID w) (wfRuleID w) (wfPolicyID w) (wfExposureID w) (wfSender w) (wfSubject w) (wfSummary w) (wfDraftID w)
  (wfApprovalID w) (wfOutboundMessageID w) (wfSourceCreatedAt w) (wfBrokerReceivedAt w) (wfRuleMatchedAt w) v
  (wfOperatorNotifiedAt w) (wfOperatorRespondedAt w) (wfApprovedAt w) (wfSendRequestedAt w) (wfSourceSentAt w) (wfFulfilledAt w)
  (wfLastActivityAt w) (wfNeedsAttention w) (wfAttentionReason w) (wfError w) (wfMetadata w).
Definition setWorkflowOperatorNotifiedAt (v : option Time) (w : Workflow) : Workflow := mkWorkflow (wfID w) (wfKind w) (wfStatus
  w) (wfSourceConnectionID w) (wfSourceIdentityID w) (wfSourceConversationID w) (wfSourceMessageID w) (wfOperatorConnectionID w)
  (wfOperatorMessageID w) (wfRuleID w) (wfPolicyID w) (wfExposureID w) (wfSender w) (wfSubject w) (wfSummary w) (wfDraftID w)
  (wfApprovalID w) (wfOutboundMessageID w) (wfSourceCreatedAt w) (wfBrokerReceivedAt w) (wfRuleMatchedAt w) (wfDraftCreatedAt w)
  v (wfOperatorRespondedAt w) (wfApprovedAt w) (wfSendRequestedAt w) (wfSourceSentAt w) (wfFulfilledAt w) (wfLastActivityAt w)
  (wfNeedsAttention w) (wfAttentionReason w) (wfError w) (wfMetadata w).
Definition setWorkflowOperatorRespondedAt (v : option Time) (w : Workflow) : Workflow := mkWorkflow (wfID w) (wfKind w)
  (wfStatus w) (wfSourceConnectionID w) (wfSourceIdentityID w) (wfSourceConversationID w) (wfSourceMessageID w)
  (wfOperatorConnectionID w) (wfOperatorMessageID w) (wfRuleID w) (wfPolicyID w) (wfExposureID w) (wfSender w) (wfSubject w)
  (wfSummary w) (wfDraftID w) (wfApprovalID w) (wfOutboundMessageID w) (wfSourceCreatedAt w) (wfBrokerReceivedAt w)
  (wfRuleMatchedAt w) (wfDraftCreatedAt w) (wfOperatorNotifiedAt w) v (wfApprovedAt w) (wfSendRequestedAt w) (wfSourceSentAt w)
  (wfFulfilledAt w) (wfLastActivityAt w) (wfNeedsAttention w) (wfAttentionReason w) (wfError w) (wfMetadata w).
Definition setWorkflowApprovedAt (v : option Time) (w : Workflow) : Workflow := mkWorkflow (wfID w) (wfKind w) (wfStatus w)
  (wfSourceConnectionID w) (wfSourceIdentityID w) (wfSourceConversationID w) (wfSourceMessageID w) (wfOperatorConnectionID w)
  (wfOperatorMessageID w) (wfRuleID w) (wfPolicyID w) (wfExposureID w) (wfSender w) (wfSubject w) (wfSummary w) (wfDraftID w)
  (wfApprovalID w) (wfOutboundMessageID w) (wfSourceCreatedAt w) (wfBrokerReceivedAt w) (wfRuleMatchedAt w) (wfDraftCreatedAt w)
  (wfOperatorNotifiedAt w) (wfOperatorRespondedAt w) v (wfSendRequestedAt w) (wfSourceSentAt w) (wfFulfilledAt w)
  (wfLastActivityAt w) (wfNeedsAttention w) (wfAttentionReason w) (wfError w) (wfMetadata w).
Definition setWorkflowSendRequestedAt (v : option Time) (w : Workflow) : Workflow := mkWorkflow (wfID w) (wfKind w) (wfStatus w)
  (wfSourceConnectionID w) (wfSourceIdentityID w) (wfSourceConversationID w) (wfSourceMessageID w) (wfOperatorConnectionID w)
  (wfOperatorMessageID w) (wfRuleID w) (wfPolicyID w) (wfExposureID w) (wfSender w) (wfSubject w) (wfSummary w) (wfDraftID w)
  (wfApprovalID w) (wfOutboundMessageID w) (wfSourceCreatedAt w) (wfBrokerReceivedAt w) (wfRuleMatchedAt w) (wfDraftCreatedAt w)
  (wfOperatorNotifiedAt w) (wfOperatorRespondedAt w) (wfApprovedAt w) v (wfSourceSentAt w) (wfFulfilledAt w) (wfLastActivityAt
  w) (wfNeedsAttention w) (wfAttentionReason w) (wfError w) (wfMetadata w).
Definition setWorkflowSourceSentAt (v : option Time) (w : Workflow) : Workflow := mkWorkflow (wfID w) (wfKind w) (wfStatus w)
  (wfSourceConnectionID w) (wfSourceIdentityID w) (wfSourceConversationID w) (wfSourceMessageID w) (wfOperatorConnectionID w)
  (wfOperatorMessageID w) (wfRuleID w) (wfPolicyID w) (wfExposureID w) (wfSender w) (wfSubject w) (wfSummary w) (wfDraftID w)
  (wfApprovalID w) (wfOutboundMessageID w) (wfSourceCreatedAt w) (wfBrokerReceivedAt w) (wfRuleMatchedAt w) (wfDraftCreatedAt w)
  (wfOperatorNotifiedAt w) (wfOperatorRespondedAt w) (wfApprovedAt w) (wfSendRequestedAt w) v (wfFulfilledAt w)
  (wfLastActivityAt w) (wfNeedsAttention w) (wfAttentionReason w) (wfError w) (wfMetadata w).
Definition setWorkflowFulfilledAt (v : option Time) (w : Workflow) : Workflow := mkWorkflow (wfID w) (wfKind w) (wfStatus w)
  (wfSourceConnectionID w) (wfSourceIdentityID w) (wfSourceConversationID w) (wfSourceMessageID w) (wfOperatorConnectionID w)
  (wfOperatorMessageID w) (wfRuleID w) (wfPolicyID w) (wfExposureID w) (wfSender w) (wfSubject w) (wfSummary w) (wfDraftID w)
  (wfApprovalID w) (wfOutboundMessageID w) (wfSourceCreatedAt w) (wfBrokerReceivedAt w) (wfRuleMatchedAt w) (wfDraftCreatedAt w)
  (wfOperatorNotifiedAt w) (wfOperatorRespondedAt w) (wfApprovedAt w) (wfSendRequestedAt w) (wfSourceSentAt w) v
  (wfLastActivityAt w) (wfNeedsAttention w) (wfAttentionReason w) (wfError w) (wfMetadata w).
Definition setWorkflowLastActivityAt (v : Time) (w : Workflow) : Workflow := mkWorkflow (wfID w) (wfKind w) (wfStatus w)
  (wfSourceConnectionID w) (wfSourceIdentityID w) (wfSourceConversationID w) (wfSourceMessageID w) (wfOperatorConnectionID w)
  (wfOperatorMessageID w) (wfRuleID w) (wfPolicyID w) (wfExposureID w) (wfSender w) (wfSubject w) (wfSummary w) (wfDraftID w)
  (wfApprovalID w) (wfOutboundMessageID w) (wfSourceCreatedAt w) (wfBrokerReceivedAt w) (wfRuleMatchedAt w) (wfDraftCreatedAt w)
  (wfOperatorNotifiedAt w) (wfOperatorRespondedAt w) (wfApprovedAt w) (wfSendRequestedAt w) (wfSourceSentAt w) (wfFulfilledAt w)
  v (wfNeedsAttention w) (wfAttentionReason w) (wfError w) (wfMetadata w).
Definition setWorkflowNeedsAttention (v : bool) (w : Workflow) : Workflow := mkWorkflow (wfID w) (wfKind w) (wfStatus w)
  (wfSourceConnectionID w) (wfSourceIdentityID w) (wfSourceConversationID w) (wfSourceMessageID w) (wfOperatorConnectionID w)
  (wfOperatorMessageID w) (wfRuleID w) (wfPolicyID w) (wfExposureID w) (wfSender w) (wfSubject w) (wfSummary w) (wfDraftID w)
  (wfApprovalID w) (wfOutboundMessageID w) (wfSourceCreatedAt w) (wfBrokerReceivedAt w) (wfRuleMatchedAt w) (wfDraftCreatedAt w)
  (wfOperatorNotifiedAt w) (wfOperatorRespondedAt w) (wfApprovedAt w) (wfSendRequestedAt w) (wfSourceSentAt w) (wfFulfilledAt w)
  (wfLastActivityAt w) v (wfAttentionReason w) (wfError w) (wfMetadata w).
Definition setWorkflowAttentionReason (v : string) (w : Workflow) : Workflow := mkWorkflow (wfID w) (wfKind w) (wfStatus w)
  (wfSourceConnectionID w) (wfSourceIdentityID w) (wfSourceConversationID w) (wfSourceMessageID w) (wfOperatorConnectionID w)
  (wfOperatorMessageID w) (wfRuleID w) (wfPolicyID w) (wfExposureID w) (wfSender w) (wfSubject w) (wfSummary w) (wfDraftID w)
  (wfApprovalID w) (wfOutboundMessageID w) (wfSourceCreatedAt w) (wfBrokerReceivedAt w) (wfRuleMatchedAt w) (wfDraftCreatedAt w)
  (wfOperatorNotifiedAt w) (wfOperatorRespondedAt w) (wfApprovedAt w) (wfSendRequestedAt w) (wfSourceSentAt w) (wfFulfilledAt w)
  (wfLastActivityAt w) (wfNeedsAttention w) v (wfError w) (wfMetadata w).
Definition setWorkflowError (v : string) (w : Workflow) : Workflow := mkWorkflow (wfID w) (wfKind w) (wfStatus w)
  (wfSourceConnectionID w) (wfSourceIdentityID w) (wfSourceConversationID w) (wfSourceMessageID w) (wfOperatorConnectionID w)
  (wfOperatorMessageID w) (wfRuleID w) (wfPolicyID w) (wfExposureID w) (wfSender w) (wfSubject w) (wfSummary w) (wfDraftID w)
  (wfApprovalID w) (wfOutboundMessageID w) (wfSourceCreatedAt w) (wfBrokerReceivedAt w) (wfRuleMatchedAt w) (wfDraftCreatedAt w)
  (wfOperatorNotifiedAt w) (wfOperatorRespondedAt w) (wfApprovedAt w) (wfSendRequestedAt w) (wfSourceSentAt w) (wfFulfilledAt w)
  (wfLastActivityAt w) (wfNeedsAttention w) (wfAttentionReason w) v (wfMetadata w).
Definition setDraftStatus (v : string) (d : Draft) : Draft := mkDraft (drID d) (drConnectionID d) (drConversationID d)
  (drLocalIdentityID d) (drApprovalID d) (drReplyToRemoteID d) (drParts d) v (drMetadata d).
Definition setDraftApprovalID (v : string) (d : Draft) : Draft := mkDraft (drID d) (drConnectionID d) (drConversationID d)
  (drLocalIdentityID d) v (drReplyToRemoteID d) (drParts d) (drStatus d) (drMetadata d).
Definition setApprovalMailboxItemID (v : string) (a : Approval) : Approval := mkApproval (apID a) (apConnectionID a) (apDraftID
  a) (apWorkflowID a) (apPolicyID a) (apExposureID a) v (apAction a) (apSummary a) (apReason a) (apStatus a) (apRequestedBy a)
  (apRequestedAt a) (apResolvedBy a) (apResolvedAt a) (apMetadata a).
Definition setApprovalReason (v : string) (a : Approval) : Approval := mkApproval (apID a) (apConnectionID a) (apDraftID a)
  (apWorkflowID a) (apPolicyID a) (apExposureID a) (apMailboxItemID a) (apAction a) (apSummary a) v (apStatus a) (apRequestedBy
  a) (apRequestedAt a) (apResolvedBy a) (apResolvedAt a) (apMetadata a).
Definition setApprovalStatus (v : string) (a : Approval) : Approval := mkApproval (apID a) (apConnectionID a) (apDraftID a)
  (apWorkflowID a) (apPolicyID a) (apExposureID a) (apMailboxItemID a) (apAction a) (apSummary a) (apReason a) v (apRequestedBy
  a) (apRequestedAt a) (apResolvedBy a) (apResolvedAt a) (apMetadata a).
Definition setApprovalResolvedBy (v : string) (a : Approval) : Approval := mkApproval (apID a) (apConnectionID a) (apDraftID a)
  (apWorkflowID a) (apPolicyID a) (apExposureID a) (apMailboxItemID a) (apAction a) (apSummary a) (apReason a) (apStatus a)
  (apRequestedBy a) (apRequestedAt a) v (apResolvedAt a) (apMetadata a).
Definition setApprovalResolvedAt (v : option Time) (a : Approval) : Approval := mkApproval (apID a) (apConnectionID a)
  (apDraftID a) (apWorkflowID a) (apPolicyID a) (apExposureID a) (apMailboxItemID a) (apAction a) (apSummary a) (apReason a)
  (apStatus a) (apRequestedBy a) (apRequestedAt a) (apResolvedBy a) v (apMetadata a).

(** ** Helpers (outbound.go, policy.go) *)

Definition hasAttachmentParts (parts : list MessagePart) : bool := existsb (fun p => isFileKind (mpKind p)) parts.

Record Attachment := mkAttachment {
  atName : string; atContentType : string; atSizeBytes : Z; atBlobID : string; atLocalPath : string; atMetadata : Metadata
}.

Definition attachmentsFromParts (parts : list MessagePart) : list Attachment :=
  map (fun p => mkAttachment (mpFileName p) (mpContentType p) (mpSizeBytes p) (mpRef p) (mpRef p) (mpMetadata p))
    (filter (fun p => isFileKind (mpKind p) = true) parts).

(** [text[:160]] cuts bytes. *)
Fixpoint summarizeParts (parts : list MessagePart) : string :=
  match parts with
  | [] => "Draft reply"
  | p :: parts =>
      if isTextKind (mpKind p) then
        let text := TrimSpace (mpText p) in
        if bool_decide (text = "") then summarizeParts parts
        else if (160 <? String.length text)%nat then str_take 160 text else text
      else summarizeParts parts
  end.

Definition summarizeDraft (d : Draft) : string := summarizeParts (drParts d).

Definition draftApprovalSummary (w : Workflow) (d : Draft) : string :=
  let target := TrimSpace (paDisplayName (wfSender w)) in
  let target := if bool_decide (target = "") then TrimSpace (paAddress (wfSender w)) else target in
  let target := if bool_decide (target = "") then drConversationID d else target in
  "Approve sending draft to " +:+ target.

Definition participantFromIdentity (i : Identity) : Participant :=
  let kind := if bool_decide (idKind i = IdentityKindBot) || bool_decide (idKind i = IdentityKindWebhook) then ParticipantKindBot
              else if bool_decide (idKind i = IdentityKindPage) then ParticipantKindPage else ParticipantKindAccount in
  mkParticipant "" kind (idRemoteID i) (idAddress i) (idDisplayName i) (idID i) true ∅.

Record SendResult := mkSendResult { srMessage : Message; srStatus : string }.

Definition orIf (b : bool) (v w : string) : string := if b then v else w.

Definition normalizeOutboundMessage (r : SendResult) (d : Draft) (now : Time) : Message :=
  let m := srMessage r in
  mkMessage (orIf (isBlank (msID m)) (drID d +:+ "/sent") (msID m))
    (orIf (bool_decide (msConnectionID m = "")) (drConnectionID d) (msConnectionID m))
    (orIf (bool_decide (msConversationID m = "")) (drConversationID d) (msConversationID m))
    (orIf (bool_decide (msLocalIdentityID m = "")) (drLocalIdentityID d) (msLocalIdentityID m))
    (msRemoteID m)
    (orIf (isBlank (msDirection m)) MessageDirectionOutbound (msDirection m))
    (if is_ok (Participant_Validate (msSender m)) then msSender m
     else mkParticipant "" ParticipantKindBot "" "" "" (drLocalIdentityID d) true ∅)
    (if bool_decide (msParts m = []) then drParts d else msParts m)
    (if time_IsZero (msCreatedAt m) then now else msCreatedAt m)
    (msEditedAt m) (msReplyToRemoteID m)
    (if isBlank (msStatus m) then orIf (isBlank (srStatus r)) MessageStatusSent (srStatus r) else msStatus m)
    (msMetadata m).

(** ** The world of a broker *)

(** What goes to the adapter process and to the approval mailbox. *)
Inductive ExternalCall :=
| CallCreateDraft (d : Draft) | CallUpdateDraft (d : Draft) | CallSend (d : Draft) | CallReply (d : Draft) (to : string)
| MailRequest (a : Approval) | MailApprove (item approvalID : string) | MailReject (item approvalID : string).

(** A failed adapter call; [NotSupported] is the protocol's own code. *)
Inductive AdapterError := NotSupported | AdapterFailed (message : string).

Record Capabilities := mkCapabilities { cpCreateDrafts : bool; cpUpdateDrafts : bool }.

(** The clock, the identifiers and the processes around a broker; a tick orders
    their answers.  [be_ready] is the runtime's part of [prepareAdapterCall]: the
    paths, the managed process and its [Describe]. *)
Class BrokerEnv := {
  be_now : Z -> Time;
  be_newID : Z -> string;
  be_log : Z -> LogEnv;
  be_ready : Z -> string -> result string Capabilities;
  be_createDraft : Z -> Draft -> result AdapterError Draft;
  be_updateDraft : Z -> Draft -> result AdapterError Draft;
  be_send : Z -> Draft -> list Attachment -> result string SendResult;
  be_reply : Z -> Draft -> list Attachment -> string -> result string SendResult;
  be_mailbox : bool;                                             (** [approvalMailbox] is set *)
  be_operator : bool;                                            (** [approvalTo] is set *)
  be_mailRequest : Z -> Approval -> result string string;        (** the item's identifier *)
  be_mailResolve : Z -> bool -> string -> string -> result string unit
}.

Record World (B : Type) := mkWorld { wStore : Store B; wTick : Z; wCalls : list ExternalCall }.
Arguments mkWorld {B}.
Arguments wStore {B}.
Arguments wTick {B}.
Arguments wCalls {B}.

Definition M (B A : Type) : Type := World B -> World B * result string A.

Definition ret {B A} (x : A) : M B A := fun w => (w, Ok x).
Definition throw {B A} (e : string) : M B A := fun w => (w, Err e).
Definition bind {B A C} (m : M B A) (f : A -> M B C) : M B C :=
  fun w => match m w with (w, Ok x) => f x w | (w, Err e) => (w, Err e) end.

(** [if b { return ..., err }] *)
Definition reject {B} (b : bool) (e : string) : M B unit := if b then throw e else ret tt.

Declare Scope broker_scope.
Delimit Scope broker_scope with broker.
Notation "x <- m ;; k" := (bind m (fun x => k)) (at level 100, m at next level, right associativity) : broker_scope.
Notation "m ;; k" := (bind m (fun _ => k)) (at level 100, right associativity) : broker_scope.

Section Broker.
Context {B : Type} `{BK : !MessagingBackend B} `{BE : !BrokerEnv}.
#[local] Open Scope broker_scope.

(** An answer of the world. *)
Definition tick {A} (f : Z -> A) : M B A := fun w => (mkWorld (wStore w) (wTick w + 1) (wCalls w), Ok (f (wTick w))).
Definition record (c : ExternalCall) : M B unit := fun w => (mkWorld (wStore w) (wTick w) (wCalls w ++ [c]), Ok tt).
Definition answer {A} (r : result string A) : M B A := match r with Ok x => ret x | Err e => throw e end.
Definition look {A} (f : Store B -> A) : M B A := fun w => (w, Ok (f (wStore w))).
Definition found {A} (what : string) (f : Store B -> option A) : M B A :=
  o <- look f ;; match o with Some x => ret x | None => throw (what +:+ " not found") end.
Definition request (f : Store B -> Store B * result string unit) : M B unit :=
  fun w => let '(st, r) := f (wStore w) in (mkWorld st (wTick w) (wCalls w), r).
(** [_ = b.store...] *)
Definition ignore {A} (m : M B A) : M B unit := fun w => ((m w).1, Ok tt).

Definition now : M B Time := tick be_now.
Definition newID : M B string := tick be_newID.

(** ** Policy (policy.go) *)

Record EffectivePolicy := mkEffective { efConnection : Connection; efExposure : option Exposure; efPolicy : Policy }.

Definition resolveExposure (connectionID exposureID : string) (st : Store B) : result string (option Exposure) :=
  if bool_decide (exposureID = "") then Ok None
  else match GetExposure exposureID st with
  | None => Err ("messaging exposure " +:+ exposureID +:+ " not found")
  | Some e =>
      if negb (exEnabled e) then Err ("messaging exposure " +:+ exposureID +:+ " is disabled")
      else if bool_decide (exConnectionID e <> connectionID)
      then Err ("messaging exposure " +:+ exposureID +:+ " does not belong to connection " +:+ connectionID)
      else Ok (Some e)
  end.

Definition ResolvePolicy (connectionID exposureID : string) (st : Store B) : result string EffectivePolicy :=
  match GetConnection connectionID st with
  | None => Err ("messaging connection " +:+ connectionID +:+ " not found")
  | Some connection =>
      match resolveExposure connectionID exposureID st with
      | Err e => Err e
      | Ok exposure =>
          let policyID := match exposure with
            | Some e => if bool_decide (exPolicyID e <> "") then exPolicyID e else cnDefaultPolicyID connection
            | None => cnDefaultPolicyID connection
            end in
          if bool_decide (policyID = "") then Err ("no policy configured for connection " +:+ connectionID)
          else match GetPolicy policyID st with
               | None => Err ("messaging policy " +:+ policyID +:+ " not found")
               | Some policy => Ok (mkEffective connection exposure policy)
               end
      end
  end.

Definition evaluate (decide_ : Policy -> Decision) (connectionID exposureID : string) (st : Store B) : result string Decision :=
  match ResolvePolicy connectionID exposureID st with
  | Err e => Err e
  | Ok effective => Ok (decide_ (efPolicy effective))
  end.

Definition EvaluateReadInbound := evaluate ReadInbound.
Definition EvaluateCreateDraft (connectionID exposureID : string) (d : Draft) :=
  evaluate (fun p => Messaging.CreateDraft p (mkDraftInput (drLocalIdentityID d) (hasAttachmentParts (drParts d)))) connectionID exposureID.
Definition EvaluateSend (connectionID exposureID : string) (d : Draft) (newConversation : bool) :=
  evaluate (fun p => Messaging.SendMessage p (mkSendInput (drLocalIdentityID d) (hasAttachmentParts (drParts d)) newConversation))
    connectionID exposureID.
Definition EvaluateMarkRead := evaluate Messaging.MarkRead.
Definition EvaluateManageMessages (connectionID exposureID : string) (i : ManageInput) :=
  evaluate (fun p => Messaging.ManageMessages p i) connectionID exposureID.
Definition EvaluateSearch (connectionID exposureID : string) (s : SearchScope) := evaluate (fun p => Messaging.Search p s) connectionID exposureID.

(** ** Calls to the adapter (broker.go) *)

Definition prepareAdapterCall (connectionID : string) : M B Capabilities :=
  connection <- found ("messaging connection " +:+ connectionID) (GetConnection connectionID) ;;
  reject (bool_decide (cnStatus connection = ConnectionStatusDisabled)) ("messaging connection " +:+ connectionID +:+ " is disabled") ;;
  ready <- tick (fun t => be_ready t connectionID) ;;
  answer ready.

(** ** Drafts (outbound.go) *)

Definition workflowSenderForDraft (d : Draft) (st : Store B) : Participant :=
  let remote := match GetConversation (drConversationID d) st with
    | Some c => find (fun p => negb (paIsLocal p)) (cvParticipants c)
    | None => None
    end in
  match remote with
  | Some p => p
  | None =>
      match GetIdentity (drLocalIdentityID d) st with
      | Some i => participantFromIdentity i
      | None => mkParticipant "" ParticipantKindSystem "" "" "" (drLocalIdentityID d) true ∅
      end
  end.

Definition ensureDraftWorkflow (exposureID : string) (d : Draft) (policyID : string) : M B Workflow :=
  existing <- look (fun st => find (fun w => bool_decide (wfDraftID w = drID d)) (ListWorkflows st)) ;;
  match existing with
  | Some w => ret w
  | None =>
      now <- now ;;
      id <- newID ;;
      sender <- look (workflowSenderForDraft d) ;;
      let w := mkWorkflow id "draft_send" WorkflowStatusDrafted (drConnectionID d) (drLocalIdentityID d) (drConversationID d) "" "" ""
        "" policyID exposureID sender "" (summarizeDraft d) (drID d) "" "" None now None (Some now) None None None None None None now
        false "" "" ∅ in
      request (PutWorkflow w) ;;
      ret w
  end.

Definition latestDraftApproval (draftID : string) (st : Store B) : option Approval := last (ListDraftApprovals draftID st).

Definition appendWorkflowActivity (w : Workflow) (type : string) (d : Draft) (exposureID : string) (metadata : Metadata) (err : string)
  : M B unit :=
  id <- newID ;;
  at_ <- now ;;
  env <- tick be_log ;;
  request (AppendActivityEvent env
    (mkActivity id (wfID w) type at_ (drConnectionID d) (drConversationID d) "" (drID d) exposureID metadata err)).

Definition appendEvent_ (type conn conversation message draft exposure : string) (at_ : Time) (metadata : Metadata) : M B unit :=
  id <- newID ;;
  env <- tick be_log ;;
  request (AppendEvent env (mkEvent id type conn conversation message draft exposure at_ metadata)).

Definition cancelApproval (approvalID : string) : M B unit :=
  o <- look (GetApproval approvalID) ;;
  match o with
  | Some a =>
      if bool_decide (apStatus a <> ApprovalStatusPending) then ret tt
      else
        now <- now ;;
        request (PutApproval (setApprovalResolvedBy "system:messaging" (setApprovalResolvedAt (Some now)
          (setApprovalStatus ApprovalStatusCancelled a))))
  | None => ret tt
  end.

Definition requestedBy (exposureID : string) (st : Store B) : string :=
  if bool_decide (exposureID = "") then "broker"
  else match GetExposure exposureID st with Some e => exSubjectID e | None => "broker" end.

(** The adapter's own draft, where it keeps drafts; a call it does not support
    leaves the broker's. *)
Definition nativeDraft (update : bool) (c : Capabilities) (d : Draft) : M B Draft :=
  let take (r : result AdapterError Draft) : M B Draft :=
    match r with
    | Ok d' => ret d'
    | Err NotSupported => ret d
    | Err (AdapterFailed e) => throw e
    end in
  if update && cpUpdateDrafts c then record (CallUpdateDraft d) ;; r <- tick (fun t => be_updateDraft t d) ;; take r
  else if cpCreateDrafts c then record (CallCreateDraft d) ;; r <- tick (fun t => be_createDraft t d) ;; take r
  else ret d.

(** The draft as it is saved: pending, its approval dropped when [invalidate]
    finds one on the stored draft. *)
Definition supersede (invalidate : bool) (d : Draft) : M B Draft :=
  let stored := setDraftStatus DraftStatusPending d in
  if invalidate then
    existing <- look (GetDraft (drID d)) ;;
    match existing with
    | Some e =>
        if bool_decide (drApprovalID e <> "") then cancelApproval (drApprovalID e) ;; ret (setDraftApprovalID "" stored) else ret stored
    | None => ret stored
    end
  else ret stored.

Definition drafted (policyID exposureID draftID : string) (now : Time) (w : Workflow) : Workflow :=
  let w := setWorkflowLastActivityAt now (setWorkflowAttentionReason "" (setWorkflowNeedsAttention false (setWorkflowError ""
    (setWorkflowApprovalID "" (setWorkflowDraftID draftID (setWorkflowExposureID exposureID (setWorkflowPolicyID policyID
      (setWorkflowStatus WorkflowStatusDrafted w)))))))) in
  match wfDraftCreatedAt w with None => setWorkflowDraftCreatedAt (Some now) w | Some _ => w end.

Definition saveDraft (exposureID : string) (d : Draft) (invalidatePriorApproval : bool) : M B (Draft * Workflow) :=
  decision <- look (EvaluateCreateDraft (drConnectionID d) exposureID d) ;;
  decision <- answer decision ;;
  reject (negb (Allowed decision)) ("draft denied by policy: " +:+ dcReason decision) ;;
  capabilities <- prepareAdapterCall (drConnectionID d) ;;
  stored <- supersede invalidatePriorApproval d ;;
  stored <- nativeDraft invalidatePriorApproval capabilities stored ;;
  request (PutDraft stored) ;;
  effective <- look (ResolvePolicy (drConnectionID stored) exposureID) ;;
  effective <- answer effective ;;
  let policyID := poID (efPolicy effective) in
  w <- ensureDraftWorkflow exposureID stored policyID ;;
  now <- now ;;
  let w := drafted policyID exposureID (drID stored) now w in
  request (PutWorkflow w) ;;
  appendEvent_ EventTypeDraftUpdated (drConnectionID stored) "" "" (drID stored) exposureID now ∅ ;;
  appendWorkflowActivity w EventTypeDraftUpdated stored exposureID ∅ "" ;;
  ret (stored, w).

Definition CreateDraft (exposureID : string) (d : Draft) := saveDraft exposureID d false.
Definition UpdateDraft (exposureID : string) (d : Draft) := saveDraft exposureID d true.

(** ** Sending (outbound.go) *)

Definition requested (now : Time) (w : Workflow) : Workflow :=
  match wfSendRequestedAt w with None => setWorkflowSendRequestedAt (Some now) w | Some _ => w end.

Definition createMailboxApproval (a : Approval) : M B Approval :=
  if be_mailbox && be_operator then
    record (MailRequest a) ;; r <- tick (fun t => be_mailRequest t a) ;; item <- answer r ;; ret (setApprovalMailboxItemID item a)
  else ret a.

Definition createSendApproval (exposureID : string) (w : Workflow) (d : Draft) (decision : Decision) : M B (Approval * Draft * Workflow) :=
  now <- now ;;
  id <- newID ;;
  by_ <- look (requestedBy exposureID) ;;
  a <- createMailboxApproval (mkApproval id (drConnectionID d) (drID d) (wfID w) (dcPolicyID decision) exposureID "" "send_draft"
         (draftApprovalSummary w d) (dcReason decision) ApprovalStatusPending by_ now "" None ∅) ;;
  let d := setDraftApprovalID (apID a) (setDraftStatus DraftStatusApprovalRequired d) in
  request (PutApproval a) ;;
  request (PutDraft d) ;;
  let w := requested now (setWorkflowLastActivityAt now (setWorkflowApprovalID (apID a) (setWorkflowExposureID exposureID
    (setWorkflowPolicyID (dcPolicyID decision) (setWorkflowStatus WorkflowStatusAwaitingApproval w))))) in
  let w := if bool_decide (apMailboxItemID a <> "") then setWorkflowOperatorNotifiedAt (Some now) w else w in
  request (PutWorkflow w) ;;
  appendEvent_ EventTypeApprovalRequired (drConnectionID d) "" "" (drID d) exposureID now {["approval_id" := apID a]} ;;
  appendWorkflowActivity w EventTypeApprovalRequired d exposureID {["approval_id" := apID a]} "" ;;
  ret (a, d, w).

(** [SendMessage] or [ReplyMessage] of the adapter. *)
Definition deliver (d : Draft) : M B (result string SendResult) :=
  if negb (isBlank (drReplyToRemoteID d)) then
    record (CallReply d (drReplyToRemoteID d)) ;;
    tick (fun t => be_reply t d (attachmentsFromParts (drParts d)) (drReplyToRemoteID d))
  else record (CallSend d) ;; tick (fun t => be_send t d (attachmentsFromParts (drParts d))).

(** The branch of a failed delivery: what cannot be stored is let go. *)
Definition sendFailed (exposureID : string) (w : Workflow) (d : Draft) (err : string) : M B (Message * Draft * Workflow) :=
  failNow <- now ;;
  let d := setDraftStatus DraftStatusFailed d in
  let w := setWorkflowError err (setWorkflowAttentionReason "send_failed" (setWorkflowNeedsAttention true
    (setWorkflowLastActivityAt failNow (setWorkflowStatus WorkflowStatusFailed w)))) in
  ignore (request (PutDraft d)) ;;
  ignore (request (PutWorkflow w)) ;;
  ignore (appendWorkflowActivity w EventTypeDeliveryUpdated d exposureID {["status" := MessageStatusFailed]} err) ;;
  throw err.

Definition sent (m : Message) (w : Workflow) : Workflow :=
  setWorkflowError "" (setWorkflowAttentionReason "" (setWorkflowNeedsAttention false (setWorkflowFulfilledAt (Some (msCreatedAt m))
    (setWorkflowSourceSentAt (Some (msCreatedAt m)) (setWorkflowLastActivityAt (msCreatedAt m) (setWorkflowOutboundMessageID (msID m)
      (setWorkflowStatus WorkflowStatusSent w))))))).

Definition sendDraftNow (exposureID : string) (w : Workflow) (d : Draft) (newConversation : bool) : M B (Message * Draft * Workflow) :=
  prepareAdapterCall (drConnectionID d) ;;
  at_ <- now ;;
  let d := setDraftStatus DraftStatusSending d in
  request (PutDraft d) ;;
  let w := requested at_ (setWorkflowLastActivityAt at_ (setWorkflowStatus WorkflowStatusSending w)) in
  request (PutWorkflow w) ;;
  appendEvent_ EventTypeDraftSendRequested (drConnectionID d) "" "" (drID d) exposureID at_ ∅ ;;
  appendWorkflowActivity w EventTypeDraftSendRequested d exposureID ∅ "" ;;
  r <- deliver d ;;
  match r with
  | Err err => sendFailed exposureID w d err
  | Ok sendResult =>
      now <- now ;;
      let m := normalizeOutboundMessage sendResult d now in
      request (PutMessage m) ;;
      let d := setDraftStatus DraftStatusSent d in
      request (PutDraft d) ;;
      let w := sent m w in
      request (PutWorkflow w) ;;
      appendEvent_ EventTypeDeliveryUpdated (drConnectionID d) (drConversationID d) (msID m) (drID d) exposureID (msCreatedAt m)
        {["status" := msStatus m]} ;;
      appendWorkflowActivity w EventTypeDeliveryUpdated d exposureID {["status" := msStatus m]} "" ;;
      ret (m, d, w)
  end.

Record RequestSendDraftResult := mkSendDraft {
  rsDraft : Draft; rsWorkflow : Workflow; rsApproval : option Approval; rsMessage : option Message
}.

(** A draft that was sent and whose message is stored: nothing is done. *)
Definition alreadySent (d : Draft) (w : Workflow) (st : Store B) : option RequestSendDraftResult :=
  if bool_decide (drStatus d = DraftStatusSent) && bool_decide (wfOutboundMessageID w <> "") then
    match GetMessage (wfOutboundMessageID w) st with
    | Some m =>
        Some (mkSendDraft d w (if bool_decide (wfApprovalID w <> "") then GetApproval (wfApprovalID w) st else None) (Some m))
    | None => None
    end
  else None.

Definition sendDenied (exposureID : string) (w : Workflow) (d : Draft) (decision : Decision) : M B RequestSendDraftResult :=
  now <- now ;;
  let w := setWorkflowError (dcReason decision) (setWorkflowAttentionReason "policy_denied" (setWorkflowNeedsAttention true
    (setWorkflowLastActivityAt now (setWorkflowStatus WorkflowStatusFailed w)))) in
  request (PutWorkflow w) ;;
  appendWorkflowActivity w EventTypeApprovalResolved d exposureID
    (<["outcome" := "deny"]> {["reason" := dcReason decision]}) (dcReason decision) ;;
  throw ("send denied by policy: " +:+ dcReason decision).

Definition awaitApproval (w : Workflow) (d : Draft) (a : Approval) : M B RequestSendDraftResult :=
  let d := setDraftApprovalID (apID a) (setDraftStatus DraftStatusApprovalRequired d) in
  request (PutDraft d) ;;
  at_ <- now ;;
  let w := setWorkflowLastActivityAt at_ (setWorkflowApprovalID (apID a) (setWorkflowStatus WorkflowStatusAwaitingApproval w)) in
  w <- (match wfSendRequestedAt w with None => n <- now ;; ret (setWorkflowSendRequestedAt (Some n) w) | Some _ => ret w end) ;;
  request (PutWorkflow w) ;;
  ret (mkSendDraft d w (Some a) None).

Definition RequestSendDraft (exposureID draftID : string) (newConversation : bool) : M B RequestSendDraftResult :=
  d <- found ("messaging draft " +:+ draftID) (GetDraft draftID) ;;
  w <- ensureDraftWorkflow exposureID d "" ;;
  done_ <- look (alreadySent d w) ;;
  match done_ with
  | Some r => ret r
  | None =>
      decision <- look (EvaluateSend (drConnectionID d) exposureID d newConversation) ;;
      decision <- answer decision ;;
      latest <- look (latestDraftApproval (drID d)) ;;
      let send :=
        r <- sendDraftNow exposureID w d newConversation ;;
        let '(m, d, w) := r in ret (mkSendDraft d w None (Some m)) in
      let ask :=
        r <- createSendApproval exposureID w d decision ;;
        let '(a, d, w) := r in ret (mkSendDraft d w (Some a) None) in
      if bool_decide (dcOutcome decision = OutcomeDeny) then sendDenied exposureID w d decision
      else if RequiresApproval decision then
        match latest with
        | Some a =>
            if bool_decide (apStatus a = ApprovalStatusPending) then awaitApproval w d a
            else if bool_decide (apStatus a = ApprovalStatusApproved) then send
            else ask
        | None => ask
        end
      else send
  end.

(** ** Decisions (outbound.go) *)

Definition resolveMailboxApproval (a : Approval) (actorID : string) (approved : bool) : M B unit :=
  if be_mailbox && bool_decide (apMailboxItemID a <> "") then
    record (if approved then MailApprove (apMailboxItemID a) (apID a) else MailReject (apMailboxItemID a) (apID a)) ;;
    r <- tick (fun t => be_mailResolve t approved (apMailboxItemID a) actorID) ;;
    answer r
  else ret tt.

Definition decidedApproval (approved : bool) (actorID reason : string) (now : Time) (a : Approval) : Approval :=
  let a := setApprovalResolvedAt (Some now) (setApprovalResolvedBy (TrimSpace actorID) a) in
  if approved then setApprovalStatus ApprovalStatusApproved a
  else let a := setApprovalStatus ApprovalStatusRejected a in if isBlank reason then a else setApprovalReason reason a.

Definition decidedWorkflow (approved : bool) (now : Time) (w : Workflow) : Workflow :=
  let w := if approved then setWorkflowApprovedAt (Some now) (setWorkflowStatus WorkflowStatusApproved w)
           else setWorkflowStatus WorkflowStatusDismissed w in
  setWorkflowLastActivityAt now (setWorkflowError "" (setWorkflowAttentionReason "" (setWorkflowNeedsAttention false
    (setWorkflowOperatorRespondedAt (Some now) w)))).

Definition resolveApproval (approvalID actorID : string) (approved : bool) (reason : string) : M B (Approval * Draft * Workflow) :=
  a <- found ("messaging approval " +:+ approvalID) (GetApproval approvalID) ;;
  d <- found ("messaging draft " +:+ apDraftID a) (GetDraft (apDraftID a)) ;;
  w <- found ("messaging workflow " +:+ apWorkflowID a) (GetWorkflow (apWorkflowID a)) ;;
  if bool_decide (apStatus a = ApprovalStatusApproved) || bool_decide (apStatus a = ApprovalStatusRejected) then ret (a, d, w)
  else if bool_decide (apStatus a <> ApprovalStatusPending) then throw ("approval " +:+ approvalID +:+ " is " +:+ apStatus a)
  else
    now <- now ;;
    let a := decidedApproval approved actorID reason now a in
    let d := setDraftStatus (if approved then DraftStatusApproved else DraftStatusRejected) d in
    let w := decidedWorkflow approved now w in
    resolveMailboxApproval a actorID approved ;;
    request (PutApproval a) ;;
    request (PutDraft d) ;;
    request (PutWorkflow w) ;;
    let metadata := <["approval_id" := apID a]> {["outcome" := apStatus a]} in
    appendEvent_ EventTypeApprovalResolved (apConnectionID a) "" "" (apDraftID a) (apExposureID a) now metadata ;;
    appendWorkflowActivity w EventTypeApprovalResolved d (apExposureID a) metadata reason ;;
    ret (a, d, w).

Definition ApproveDraftSend (approvalID actorID : string) := resolveApproval approvalID actorID true "".
Definition RejectDraftSend (approvalID actorID reason : string) := resolveApproval approvalID actorID false reason.


(** ** What operations keep *)

(** [m] relates the worlds before and after it by [R], whether it succeeds or
    fails. *)
Definition keeps {A} (R : World B -> World B -> Prop) (m : M B A) : Prop := forall w w' r, m w = (w', r) -> R w w'.

(** A relation that the readings of the clock do not touch. *)
Class Frame (R : World B -> World B -> Prop) : Prop := {
  fr_pre :: PreOrder R;
  fr_tick w : R w (mkWorld (wStore w) (wTick w + 1) (wCalls w))
}.

Section Keeps.
Context (R : World B -> World B -> Prop) `{HR : !Frame R}.

Lemma keeps_bind {A C} (m : M B A) (f : A -> M B C) : keeps R m -> (forall x, keeps R (f x)) -> keeps R (bind m f).
Proof using HR.
  intros Hm Hf w w' r. unfold bind. destruct (m w) as [w1 [x|e]] eqn:E; intros H.
  - etrans; [by eapply Hm|by eapply Hf].
  - injection H as <- <-. by eapply Hm.
Qed.

Lemma keeps_ret {A} (x : A) : keeps R (ret x).
Proof using HR. intros w w' r [= <- <-]. done. Qed.
Lemma keeps_throw {A} e : keeps R (throw (A := A) e).
Proof using HR. intros w w' r [= <- <-]. done. Qed.
Lemma keeps_reject b e : keeps R (reject b e).
Proof using HR. destruct b; [apply keeps_throw|apply keeps_ret]. Qed.
Lemma keeps_answer {A} (x : result string A) : keeps R (answer x).
Proof using HR. destruct x; [apply keeps_ret|apply keeps_throw]. Qed.
Lemma keeps_look {A} (f : Store B -> A) : keeps R (look f).
Proof using HR. intros w w' r [= <- <-]. done. Qed.
Lemma keeps_found {A} what (f : Store B -> option A) : keeps R (found what f).
Proof using HR. apply keeps_bind; [apply keeps_look|]. intros [x|]; [apply keeps_ret|apply keeps_throw]. Qed.
Lemma keeps_tick {A} (f : Z -> A) : keeps R (tick f).
Proof using HR. intros w w' r [= <- <-]. apply fr_tick. Qed.
Lemma keeps_ignore {A} (m : M B A) : keeps R m -> keeps R (ignore m).
Proof using Type. intros H w w' r [= <- <-]. destruct (m w) as [w1 r1] eqn:E. by eapply H. Qed.
Lemma keeps_prepare c : keeps R (prepareAdapterCall c).
Proof using HR.
  apply keeps_bind; [apply keeps_found|]. intros x. apply keeps_bind; [apply keeps_reject|]. intros _.
  apply keeps_bind; [apply keeps_tick|]. intros y. apply keeps_answer.
Qed.
End Keeps.

(** No message goes out. *)
Definition outgoing (c : ExternalCall) : option Draft :=
  match c with CallSend d => Some d | CallReply d _ => Some d | _ => None end.

Definition quiet (w w' : World B) : Prop := exists cs, wCalls w' = wCalls w ++ cs /\ omap outgoing cs = [].

#[local] Instance quiet_frame : Frame quiet.
Proof.
  split; [split|].
  - intros w. exists []. by rewrite app_nil_r.
  - intros w1 w2 w3 (c1 & E1 & H1) (c2 & E2 & H2). exists (c1 ++ c2). rewrite E2, E1, <- app_assoc. split; [done|].
    by rewrite omap_app, H1, H2.
  - intros w. exists []. by rewrite app_nil_r.
Qed.

Lemma quiet_request f : keeps quiet (request f).
Proof. intros w w' r. unfold request. destruct (f (wStore w)). intros [= <- <-]. exists []. by rewrite app_nil_r. Qed.

Lemma quiet_record c : outgoing c = None -> keeps quiet (record c).
Proof. intros Hc w w' r [= <- <-]. exists [c]. simpl. by rewrite Hc. Qed.

(** The index changes in its workflows, drafts, messages and logs only: the
    approvals, and the records a policy is resolved from, stay. *)
Definition same_rules (i j : recordIndex) : Prop :=
  ixApprovals i = ixApprovals j /\ ixConnections i = ixConnections j /\ ixExposures i = ixExposures j /\ ixPolicies i = ixPolicies j.

Definition same_drafts (i j : recordIndex) : Prop := ixDrafts i = ixDrafts j.

#[local] Instance same_rules_pre : PreOrder same_rules.
Proof. split; [done|]. intros i j k (E1 & E2 & E3 & E4) (F1 & F2 & F3 & F4). unfold same_rules. split_and!; etrans; eassumption. Qed.
#[local] Instance same_drafts_pre : PreOrder same_drafts.
Proof. split; [done|]. intros i j k E F. unfold same_drafts in *. by rewrite E. Qed.

(** The index of a loaded store changes by [P] only. *)
Definition unchanged (P : recordIndex -> recordIndex -> Prop) (w w' : World B) : Prop :=
  forall i, stIndex (wStore w) = Some i -> exists j, stIndex (wStore w') = Some j /\ P i j.

Notation lawful := (unchanged same_rules).

Section Unchanged.
Context (P : recordIndex -> recordIndex -> Prop) `{HP : !PreOrder P}.

#[local] Instance unchanged_frame : Frame (unchanged P).
Proof using HP.
  split; [split|].
  - intros w i Hi. by exists i.
  - intros w1 w2 w3 H1 H2 i Hi. destruct (H1 i Hi) as (j & Hj & E). destruct (H2 j Hj) as (k & Hk & F). exists k. split; [done|]. by etrans.
  - intros w i Hi. by exists i.
Qed.

Lemma unchanged_commit valid write op :
  (forall i, P i (run_index i op)) -> keeps (unchanged P) (request (commit valid write op)).
Proof using HP.
  intros Hop w w' r. unfold request, commit. destruct valid as [u|]; [|intros [= <- <-] i Hi; by exists i].
  destruct (write _) as [b [u'|e]]; intros [= <- <-] i Hi; simpl.
  - exists (run_index i op). unfold ensureIndex. rewrite Hi. split; [done|apply Hop].
  - by exists i.
Qed.

Lemma unchanged_record c : keeps (unchanged P) (record c).
Proof using HP. intros w w' r [= <- <-] i Hi. by exists i. Qed.

Lemma unchanged_activity env e :
  (forall i, P i (run_index i (OpAppendActivity e))) -> keeps (unchanged P) (request (AppendActivityEvent env e)).
Proof using HP.
  intros Hop w w' r. unfold request, AppendActivityEvent. destruct (is_ok _ && _); [intros [= <- <-] i Hi; by exists i|].
  by apply (unchanged_commit _ _ (OpAppendActivity e)).
Qed.

Lemma unchanged_event env e :
  (forall i, P i (run_index i (OpAppendEvent e))) -> keeps (unchanged P) (request (AppendEvent env e)).
Proof using HP.
  intros Hop w w' r. unfold request, AppendEvent, loggedEvent, recordEvent. destruct (is_ok _ && _); [intros [= <- <-] i Hi; by exists i|].
  pose proof (unchanged_commit (Event_Validate e) (bkAppendEvent env e) (OpAppendEvent e) Hop w) as H. unfold request in H.
  destruct (commit _ _ _ _) as [st [u|err]]; intros [= <- <-] i Hi; by destruct (H _ _ eq_refl i Hi) as (j & Hj & Hs); exists j.
Qed.
End Unchanged.
#[local] Existing Instance unchanged_frame.

(** The operations of an operation, one by one; [side] shows what a write to the
    index keeps.  What is left is the operations with lemmas of their own. *)
Ltac keep_with side :=
  cbv zeta;
  repeat lazymatch goal with
    | |- keeps _ (bind _ _) => apply keeps_bind; [apply _| |intros ?]
    | |- keeps _ (ret _) => apply keeps_ret; apply _
    | |- keeps _ (throw _) => apply keeps_throw; apply _
    | |- keeps _ (reject _ _) => apply keeps_reject; apply _
    | |- keeps _ (answer _) => apply keeps_answer; apply _
    | |- keeps _ (look _) => apply keeps_look; apply _
    | |- keeps _ (found _ _) => apply keeps_found; apply _
    | |- keeps _ (tick _) => apply keeps_tick; apply _
    | |- keeps _ now => apply keeps_tick; apply _
    | |- keeps _ newID => apply keeps_tick; apply _
    | |- keeps _ (prepareAdapterCall _) => apply keeps_prepare; apply _
    | |- keeps _ (ignore _) => apply keeps_ignore
    | |- keeps quiet (request _) => apply quiet_request
    | |- keeps quiet (record _) => apply quiet_record; first [done | progress case_match; done]
    | |- keeps (unchanged _) (record _) => apply unchanged_record; apply _
    | |- keeps (unchanged _) (request (AppendEvent _ _)) => apply unchanged_event; [apply _|side]
    | |- keeps (unchanged _) (request (AppendActivityEvent _ _)) => apply unchanged_activity; [apply _|side]
    | |- keeps (unchanged _) (request _) => apply unchanged_commit; [apply _|side]
    | |- keeps _ (match _ with _ => _ end) => progress case_match
    end.
Ltac keep := keep_with ltac:(done).

Lemma quiet_ensure e d p : keeps quiet (ensureDraftWorkflow e d p).
Proof. unfold ensureDraftWorkflow. keep. Qed.
Lemma lawful_ensure e d p : keeps lawful (ensureDraftWorkflow e d p).
Proof. unfold ensureDraftWorkflow, now, newID. keep. Qed.
Lemma quiet_log w t d e m x : keeps quiet (appendWorkflowActivity w t d e m x).
Proof. unfold appendWorkflowActivity, now, newID. keep. Qed.
Lemma lawful_log w t d e m x : keeps lawful (appendWorkflowActivity w t d e m x).
Proof. unfold appendWorkflowActivity, now, newID. keep. Qed.
Lemma quiet_event t c v m d e a x : keeps quiet (appendEvent_ t c v m d e a x).
Proof. unfold appendEvent_, newID. keep. Qed.
Lemma lawful_event_ t c v m d e a x : keeps lawful (appendEvent_ t c v m d e a x).
Proof. unfold appendEvent_, newID. keep. Qed.
Lemma quiet_failed e w d x : keeps quiet (sendFailed e w d x).
Proof. unfold sendFailed, now. keep; apply quiet_log. Qed.
Lemma lawful_failed e w d x : keeps lawful (sendFailed e w d x).
Proof. unfold sendFailed, now. keep; apply lawful_log. Qed.
Lemma quiet_denied e w d x : keeps quiet (sendDenied e w d x).
Proof. unfold sendDenied, now. keep; apply quiet_log. Qed.
Lemma lawful_denied e w d x : keeps lawful (sendDenied e w d x).
Proof. unfold sendDenied, now. keep; apply lawful_log. Qed.
Lemma quiet_await w d a : keeps quiet (awaitApproval w d a).
Proof. unfold awaitApproval, now. keep. Qed.
Lemma quiet_ask e w d x : keeps quiet (createSendApproval e w d x).
Proof. unfold createSendApproval, createMailboxApproval, now, newID. keep; first [apply quiet_event | apply quiet_log]. Qed.

(** A delivery is one message. *)
Definition delivers (d : Draft) (w w' : World B) : Prop :=
  exists cs, wCalls w' = wCalls w ++ cs /\ (omap outgoing cs = [] \/ omap outgoing cs = [d]).

Lemma delivers_quiet_l d w1 w2 w3 : quiet w1 w2 -> delivers d w2 w3 -> delivers d w1 w3.
Proof.
  intros (c1 & E1 & H1) (c2 & E2 & H2). exists (c1 ++ c2). rewrite E2, E1, <- app_assoc. split; [done|]. by rewrite omap_app, H1.
Qed.

Lemma delivers_quiet_r d w1 w2 w3 : delivers d w1 w2 -> quiet w2 w3 -> delivers d w1 w3.
Proof.
  intros (c1 & E1 & H1) (c2 & E2 & H2). exists (c1 ++ c2). rewrite E2, E1, <- app_assoc. split; [done|].
  by rewrite omap_app, H2, app_nil_r.
Qed.

Lemma delivers_of_quiet d w w' : quiet w w' -> delivers d w w'.
Proof. intros (cs & E & H). exists cs. auto. Qed.

Lemma deliver_once d : keeps (delivers d) (deliver d).
Proof.
  intros w w' r. unfold deliver. destruct (negb _); unfold bind; simpl; intros [= <- _]; eexists; (split; [done|]); simpl; by right.
Qed.

Lemma delivers_bind_l {A C} d (m : M B A) (f : A -> M B C) :
  keeps quiet m -> (forall x, keeps (delivers d) (f x)) -> keeps (delivers d) (bind m f).
Proof.
  intros Hm Hf w w' r. unfold bind. destruct (m w) as [w1 [x|e]] eqn:E; intros H.
  - eapply delivers_quiet_l; [by eapply Hm|by eapply Hf].
  - injection H as <- <-. eapply delivers_of_quiet. by eapply Hm.
Qed.

Lemma delivers_bind_r {A C} d (m : M B A) (f : A -> M B C) :
  keeps (delivers d) m -> (forall x, keeps quiet (f x)) -> keeps (delivers d) (bind m f).
Proof.
  intros Hm Hf w w' r. unfold bind. destruct (m w) as [w1 [x|e]] eqn:E; intros H.
  - eapply delivers_quiet_r; [by eapply Hm|by eapply Hf].
  - injection H as <- <-. by eapply Hm.
Qed.

Lemma sendDraftNow_delivers e w d n : keeps (delivers (setDraftStatus DraftStatusSending d)) (sendDraftNow e w d n).
Proof.
  unfold sendDraftNow, now.
  do 6 (apply delivers_bind_l; [solve [keep; first [apply quiet_event | apply quiet_log]]|intros ?]).
  apply delivers_bind_r; [apply deliver_once|]. intros [r|err]; [|apply quiet_failed].
  keep; first [apply quiet_event | apply quiet_log].
Qed.

Lemma sendDraftNow_lawful e w d n : keeps lawful (sendDraftNow e w d n).
Proof. unfold sendDraftNow, deliver, now. keep; first [apply lawful_event_ | apply lawful_log | apply lawful_failed]. Qed.

(** ** Sends *)

Lemma evaluate_same decide_ c e st st' i j :
  stIndex st = Some i -> stIndex st' = Some j -> same_rules i j -> evaluate decide_ c e st = evaluate decide_ c e st'.
Proof.
  intros Hi Hj (_ & H1 & H2 & H3). unfold evaluate, ResolvePolicy, resolveExposure, GetConnection, GetExposure, GetPolicy, store_get,
    getConnection, getExposure, getPolicy. by rewrite Hi, Hj, H1, H2, H3.
Qed.

Lemma latest_same d st st' i j :
  stIndex st = Some i -> stIndex st' = Some j -> same_rules i j -> latestDraftApproval d st = latestDraftApproval d st'.
Proof.
  intros Hi Hj (H & _). unfold latestDraftApproval, ListDraftApprovals, store_list, listDraftApprovals. by rewrite Hi, Hj, H.
Qed.

(** [d] went out between the two worlds. *)
Definition went_out (d : Draft) (w w' : World B) : Prop :=
  exists cs, wCalls w' = wCalls w ++ cs /\ d ∈ omap outgoing cs.

Lemma quiet_not_out d w w' : quiet w w' -> ~ went_out d w w'.
Proof.
  intros (cs & E & H) (cs' & E' & Hd). rewrite E in E'. apply app_inv_head in E' as <-. rewrite H in Hd. by apply not_elem_of_nil in Hd.
Qed.

Lemma delivers_out d d' w w' : delivers d' w w' -> went_out d w w' -> d = d'.
Proof.
  intros (cs & E & H) (cs' & E' & Hd). rewrite E in E'. apply app_inv_head in E' as <-. destruct H as [H|H]; rewrite H in Hd.
  - by apply not_elem_of_nil in Hd.
  - by apply list_elem_of_singleton in Hd.
Qed.

Lemma bind_run {A C} (m : M B A) (f : A -> M B C) w w' r :
  bind m f w = (w', r) -> (exists w1 x, m w = (w1, Ok x) /\ f x w1 = (w', r)) \/ (exists e, m w = (w', Err e) /\ r = Err e).
Proof. unfold bind. destruct (m w) as [w1 [x|e]]; intros H; [left; by exists w1, x|right; injection H as <- <-; by exists e]. Qed.

Lemma found_run {A} what (f : Store B -> option A) w w' x : found what f w = (w', Ok x) -> w' = w /\ f (wStore w) = Some x.
Proof. unfold found, bind, look. destruct (f (wStore w)); intros [= <- ?]; by subst. Qed.

(** What a request does once the draft and its workflow are known. *)
Definition send_or_ask (exposureID : string) (n : bool) (d : Draft) (wf : Workflow) (decision : Decision) (latest : option Approval)
  : M B RequestSendDraftResult :=
  let send := r <- sendDraftNow exposureID wf d n ;; let '(m, d, w) := r in ret (mkSendDraft d w None (Some m)) in
  let ask := r <- createSendApproval exposureID wf d decision ;; let '(a, d, w) := r in ret (mkSendDraft d w (Some a) None) in
  if bool_decide (dcOutcome decision = OutcomeDeny) then sendDenied exposureID wf d decision
  else if RequiresApproval decision then
    match latest with
    | Some a =>
        if bool_decide (apStatus a = ApprovalStatusPending) then awaitApproval wf d a
        else if bool_decide (apStatus a = ApprovalStatusApproved) then send
        else ask
    | None => ask
    end
  else send.

(** A request that gets as far as the policy. *)
Lemma request_decided exposureID draftID n w w' r i :
  stIndex (wStore w) = Some i -> RequestSendDraft exposureID draftID n w = (w', r) ->
  quiet w w' /\ lawful w w' \/
  exists d wf decision w1 j, GetDraft draftID (wStore w) = Some d /\ ensureDraftWorkflow exposureID d "" w = (w1, Ok wf) /\
    stIndex (wStore w1) = Some j /\ same_rules i j /\ quiet w w1 /\
    EvaluateSend (drConnectionID d) exposureID d n (wStore w) = Ok decision /\
    send_or_ask exposureID n d wf decision (latestDraftApproval (drID d) (wStore w)) w1 = (w', r).
Proof.
  intros Hi Hrun. unfold RequestSendDraft in Hrun. apply bind_run in Hrun as [(w0 & d & Hd & Hrun)|(e & Hd & ->)].
  2: { left. split; [eapply (keeps_found quiet)|eapply (keeps_found (unchanged same_rules))]; exact Hd. }
  apply found_run in Hd as [-> Hd]. apply bind_run in Hrun as [(w1 & wf & Hwf & Hrun)|(e & Hwf & ->)].
  2: { left. split; [by eapply quiet_ensure|by eapply lawful_ensure]. }
  pose proof (quiet_ensure _ _ _ _ _ _ Hwf) as Hq. pose proof (lawful_ensure _ _ _ _ _ _ Hwf) as Hl. destruct (Hl i Hi) as (j & Hj & Hs).
  unfold bind at 1, look at 1 in Hrun. destruct (alreadySent d wf (wStore w1)) as [x|].
  { injection Hrun as <- <-. by left. }
  unfold bind at 1, look at 1 in Hrun. unfold EvaluateSend in Hrun.
  rewrite <- (evaluate_same _ (drConnectionID d) exposureID (wStore w) (wStore w1) i j Hi Hj Hs) in Hrun.
  destruct (evaluate _ (drConnectionID d) exposureID (wStore w)) as [decision|e] eqn:Ed; [|injection Hrun as <- <-; by left].
  unfold bind at 1, answer, ret at 1 in Hrun. unfold bind at 1, look at 1 in Hrun.
  rewrite <- (latest_same (drID d) (wStore w) (wStore w1) i j Hi Hj Hs) in Hrun.
  right. exists d, wf, decision, w1, j. split_and!; done.
Qed.

Lemma send_or_ask_out exposureID n d wf decision latest w w' r :
  send_or_ask exposureID n d wf decision latest w = (w', r) ->
  quiet w w' \/
  delivers (setDraftStatus DraftStatusSending d) w w' /\ Allowed decision = true /\
    (RequiresApproval decision = true -> exists a, latest = Some a /\ apStatus a = ApprovalStatusApproved).
Proof.
  unfold send_or_ask. destruct (bool_decide_reflect (dcOutcome decision = OutcomeDeny)) as [Hd|Hd].
  { intros H. left. by eapply quiet_denied. }
  assert (Allowed decision = true) as Ha by (unfold Allowed; destruct (dcOutcome decision); done).
  assert (keeps (delivers (setDraftStatus DraftStatusSending d))
    (r <- sendDraftNow exposureID wf d n ;; let '(m, d, w) := r in ret (mkSendDraft d w None (Some m)))) as Hsend.
  { apply delivers_bind_r; [apply sendDraftNow_delivers|]. intros [[m d'] w1]. apply keeps_ret. apply _. }
  assert (keeps quiet (r <- createSendApproval exposureID wf d decision ;;
    let '(a, d, w) := r in ret (mkSendDraft d w (Some a) None))) as Hask.
  { apply keeps_bind; [apply _|apply quiet_ask|]. intros [[a d'] w1]. apply keeps_ret. apply _. }
  destruct (RequiresApproval decision) eqn:Er; [|intros H; right; split_and!; [by eapply Hsend|done|done]].
  destruct latest as [a|]; [|intros H; left; by eapply Hask].
  case_bool_decide; [intros H'; left; by eapply quiet_await|]. case_bool_decide; [|intros H'; left; by eapply Hask].
  intros H'. right. split_and!; [by eapply Hsend|done|]. intros _. by exists a.
Qed.

(** C12 (safety). A message leaves the broker only for a stored draft whose send
    the effective policy permits; where the policy asks for an approval, the
    latest approval of the draft was approved before.  One request sends at most
    one message: the draft, marked as being sent. *)
Theorem broker_send_needs_approval exposureID draftID n w w' r i d
  (Hi : stIndex (wStore w) = Some i) (Hrun : RequestSendDraft exposureID draftID n w = (w', r)) (Hout : went_out d w w') :
  exists d0 decision,
    GetDraft draftID (wStore w) = Some d0 /\ d = setDraftStatus DraftStatusSending d0 /\
    EvaluateSend (drConnectionID d0) exposureID d0 n (wStore w) = Ok decision /\ Allowed decision = true /\
    (RequiresApproval decision = true ->
      exists a, latestDraftApproval (drID d0) (wStore w) = Some a /\ apStatus a = ApprovalStatusApproved) /\
    exists cs, wCalls w' = wCalls w ++ cs /\ omap outgoing cs = [d].
Proof.
  destruct (request_decided _ _ _ _ _ _ _ Hi Hrun) as [[Hq _]|(d0 & wf & decision & w1 & j & Hd & _ & _ & _ & Hq & Hdec & Hgo)].
  { by apply (quiet_not_out d) in Hq. }
  destruct (send_or_ask_out _ _ _ _ _ _ _ _ _ Hgo) as [Hq'|(Hdel & Ha & Hap)].
  { exfalso. eapply (quiet_not_out d); [|exact Hout]. etrans; eassumption. }
  pose proof (delivers_quiet_l _ _ _ _ Hq Hdel) as Hdel'. pose proof (delivers_out _ _ _ _ Hdel' Hout) as ->.
  exists d0, decision. split_and!; try done. destruct Hdel' as (cs & E & [H|H]); [|by exists cs].
  exfalso. eapply quiet_not_out; [|exact Hout]. by exists cs.
Qed.

(** ** Edits *)

Definition same_store (w w' : World B) : Prop := wStore w' = wStore w.

#[local] Instance same_store_frame : Frame same_store.
Proof. split; [split|]; unfold same_store; [done| |done]. intros w1 w2 w3 -> . done. Qed.

(** The approval of the stored draft, if any, was decided or withdrawn. *)
Definition no_pending_approval (draftID : string) (st : Store B) : Prop :=
  forall e a, GetDraft draftID st = Some e -> GetApproval (drApprovalID e) st = Some a -> apStatus a <> ApprovalStatusPending.

Lemma supersede_store invalidate d w w' r :
  invalidate = false \/ no_pending_approval (drID d) (wStore w) -> supersede invalidate d w = (w', r) -> same_store w w'.
Proof.
  intros Hn Hrun. unfold supersede in Hrun. destruct invalidate; [|by injection Hrun as <- _].
  destruct Hn as [|Hn]; [done|]. unfold bind at 1, look at 1 in Hrun. destruct (GetDraft (drID d) (wStore w)) as [e|] eqn:Ee; [|by injection Hrun as <- _].
  destruct (bool_decide _); [|by injection Hrun as <- _]. unfold cancelApproval, bind, look in Hrun.
  destruct (GetApproval (drApprovalID e) (wStore w)) as [a|] eqn:Ea; [|by injection Hrun as <- _].
  rewrite bool_decide_true in Hrun by (by eapply Hn). by injection Hrun as <- _.
Qed.

Lemma nativeDraft_store u c d : keeps same_store (nativeDraft u c d).
Proof. unfold nativeDraft. keep; by intros w w' r [= <- _]. Qed.

Lemma saved_draft d w w' i :
  stIndex (wStore w) = Some i -> request (PutDraft d) w = (w', Ok tt) ->
  exists j, stIndex (wStore w') = Some j /\ same_rules i j /\ fmAll (ixDrafts j) !! drID d = Some d.
Proof.
  intros Hi. unfold request, PutDraft, commit. destruct (Draft_Validate d); [|done]. destruct (bkPutDraft d _) as [b [u|e]]; [|done].
  intros [= <-]. simpl. unfold ensureIndex. rewrite Hi. simpl. exists (putDraft d i). split_and!; [done|done|]. apply lookup_insert_eq.
Qed.

(** The rest of [saveDraft], once the draft is stored. *)
Definition track (exposureID : string) (stored : Draft) : M B (Draft * Workflow) :=
  effective <- look (ResolvePolicy (drConnectionID stored) exposureID) ;;
  effective <- answer effective ;;
  let policyID := poID (efPolicy effective) in
  w <- ensureDraftWorkflow exposureID stored policyID ;;
  now <- now ;;
  let w := drafted policyID exposureID (drID stored) now w in
  request (PutWorkflow w) ;;
  appendEvent_ EventTypeDraftUpdated (drConnectionID stored) "" "" (drID stored) exposureID now ∅ ;;
  appendWorkflowActivity w EventTypeDraftUpdated stored exposureID ∅ "" ;;
  ret (stored, w).

Lemma track_unchanged (P : recordIndex -> recordIndex -> Prop) `{!PreOrder P} e d :
  (forall i x, P i (putWorkflow x i)) -> (forall i x, P i (run_index i (OpAppendEvent x))) ->
  (forall i x, P i (run_index i (OpAppendActivity x))) -> keeps (unchanged P) (track e d).
Proof.
  intros H1 H2 H3. unfold track, ensureDraftWorkflow, appendEvent_, appendWorkflowActivity, now, newID.
  keep; first [apply unchanged_commit; [apply _|intros; apply H1] | apply unchanged_event; [apply _|done] | apply unchanged_activity; [apply _|done]].
Qed.

Lemma ret_run {A} (x y : A) (w w' : World B) : ret x w = (w', Ok y) -> w' = w /\ y = x.
Proof. by intros [= <- <-]. Qed.

Lemma track_result e d w w' d' x : track e d w = (w', Ok (d', x)) -> d' = d.
Proof.
  unfold track. intros H. do 7 (apply bind_run in H as [(? & ? & _ & H)|(? & _ & ?)]; [|discriminate]). apply ret_run in H as [_ H].
  by apply (f_equal fst) in H.
Qed.

Lemma saveDraft_run exposureID d invalidate w w' d1 x i :
  stIndex (wStore w) = Some i -> invalidate = false \/ no_pending_approval (drID d) (wStore w) ->
  saveDraft exposureID d invalidate w = (w', Ok (d1, x)) ->
  exists j, stIndex (wStore w') = Some j /\ same_rules i j /\ fmAll (ixDrafts j) !! drID d1 = Some d1.
Proof.
  intros Hi Hn Hrun. unfold saveDraft in Hrun.
  apply bind_run in Hrun as [(w0 & r0 & H0 & Hrun)|(? & _ & ?)]; [|discriminate]. apply (keeps_look same_store) in H0.
  apply bind_run in Hrun as [(w0' & decision & H0' & Hrun)|(? & _ & ?)]; [|discriminate]. apply (keeps_answer same_store) in H0'.
  apply bind_run in Hrun as [(w1 & [] & H1 & Hrun)|(? & _ & ?)]; [|discriminate]. apply (keeps_reject same_store) in H1.
  apply bind_run in Hrun as [(w2 & c & H2 & Hrun)|(? & _ & ?)]; [|discriminate]. apply (keeps_prepare same_store) in H2.
  apply bind_run in Hrun as [(w3 & d2 & H3 & Hrun)|(? & _ & ?)]; [|discriminate].
  unfold same_store in *. apply supersede_store in H3; [|by rewrite H2, H1, H0', H0].
  apply bind_run in Hrun as [(w4 & d3 & H4 & Hrun)|(? & _ & ?)]; [|discriminate]. apply nativeDraft_store in H4. unfold same_store in *.
  apply bind_run in Hrun as [(w5 & [] & H5 & Hrun)|(? & _ & ?)]; [|discriminate].
  destruct (saved_draft d3 w4 w5 i) as (j & Hj & Hs & Hd); [by rewrite H4, H3, H2, H1, H0', H0|done|].
  change (track exposureID d3 w5 = (w', Ok (d1, x))) in Hrun. pose proof (track_result _ _ _ _ _ _ Hrun) as ->.
  destruct (track_unchanged same_rules exposureID d3 ltac:(done) ltac:(done) ltac:(done) _ _ _ Hrun j Hj) as (k & Hk & Hs').
  destruct (track_unchanged same_drafts exposureID d3 ltac:(done) ltac:(done) ltac:(done) _ _ _ Hrun j Hj) as (k' & Hk' & Hd').
  rewrite Hk in Hk'. injection Hk' as <-. exists k. split_and!; [done|by etrans|]. unfold same_drafts in Hd'. by rewrite <- Hd'.
Qed.

Lemma sent_under exposureID n d wf decision a :
  apStatus a = ApprovalStatusApproved -> keeps lawful (send_or_ask exposureID n d wf decision (Some a)).
Proof.
  intros Ha. unfold send_or_ask.
  assert (keeps lawful (r <- sendDraftNow exposureID wf d n ;; let '(m, d, w) := r in ret (mkSendDraft d w None (Some m)))) as Hsend.
  { apply keeps_bind; [apply _|apply sendDraftNow_lawful|]. intros [[m d'] w1]. apply keeps_ret. apply _. }
  destruct (bool_decide _); [apply lawful_denied|]. destruct (RequiresApproval decision); [|exact Hsend]. rewrite Ha.
  rewrite bool_decide_false by done. rewrite bool_decide_true by done. exact Hsend.
Qed.

(** C18 (safety). An update leaves an approval that was given before as it is: the
    edited draft is sent under it, and no new approval is asked for, although
    the comment on [UpdateDraft] promises the contrary. *)
Theorem broker_edit_reuses_approval exposureID d w w1 d1 wf i a n w2 r
  (Hi : stIndex (wStore w) = Some i)
  (Hup : UpdateDraft exposureID d w = (w1, Ok (d1, wf)))
  (Hdec : no_pending_approval (drID d) (wStore w))
  (Ha : latestDraftApproval (drID d1) (wStore w) = Some a) (Hok : apStatus a = ApprovalStatusApproved)
  (Hreq : RequestSendDraft exposureID (drID d1) n w1 = (w2, r)) :
  GetDraft (drID d1) (wStore w1) = Some d1 /\
  latestDraftApproval (drID d1) (wStore w1) = Some a /\ latestDraftApproval (drID d1) (wStore w2) = Some a /\
  forall d2, went_out d2 w1 w2 -> d2 = setDraftStatus DraftStatusSending d1.
Proof.
  destruct (saveDraft_run _ _ _ _ _ _ _ _ Hi (or_intror Hdec) Hup) as (j & Hj & Hs & Hd1).
  assert (GetDraft (drID d1) (wStore w1) = Some d1) as Hget by (unfold GetDraft, store_get, getDraft; by rewrite Hj).
  assert (latestDraftApproval (drID d1) (wStore w1) = Some a) as Hl1 by (rewrite <- Ha; symmetry; by eapply latest_same).
  split_and!; [done|done| |].
  - assert (lawful w1 w2) as Hl.
    { destruct (request_decided _ _ _ _ _ _ _ Hj Hreq) as [[_ H]|(d0 & wf' & decision & w3 & k & Hd & Hen & Hk & Hks & _ & _ & Hgo)]; [done|].
      rewrite Hget in Hd. injection Hd as <-. rewrite Hl1 in Hgo. apply (sent_under _ _ _ _ _ _ Hok) in Hgo.
      intros j' Hj'. rewrite Hj in Hj'. injection Hj' as <-. destruct (Hgo k Hk) as (l & Hl & Hls). exists l. split; [done|by etrans]. }
    destruct (Hl j Hj) as (k & Hk & Hks). rewrite <- Hl1. symmetry. by eapply latest_same.
  - intros d2 Hout.
    destruct (request_decided _ _ _ _ _ _ _ Hj Hreq) as [[H _]|(d0 & wf' & decision & w3 & k & Hd & _ & _ & _ & Hq & _ & Hgo)].
    { by apply (quiet_not_out d2) in H. }
    rewrite Hget in Hd. injection Hd as <-. destruct (send_or_ask_out _ _ _ _ _ _ _ _ _ Hgo) as [Hq'|(Hdel & _ & _)].
    + exfalso. eapply (quiet_not_out d2); [|exact Hout]. etrans; eassumption.
    + eapply delivers_out; [|exact Hout]. eapply delivers_quiet_l; eassumption.
Qed.

(** ** Decisions *)

Definition same_decided (i j : recordIndex) : Prop :=
  ixApprovals i = ixApprovals j /\ ixDrafts i = ixDrafts j /\ ixWorkflows i = ixWorkflows j.
#[local] Instance same_decided_pre : PreOrder same_decided.
Proof. split; [done|]. intros i j k (E1 & E2 & E3) (F1 & F2 & F3). unfold same_decided. split_and!; etrans; eassumption. Qed.

Lemma committed valid write op w w' i :
  stIndex (wStore w) = Some i -> request (commit valid write op) w = (w', Ok tt) -> stIndex (wStore w') = Some (run_index i op).
Proof.
  intros Hi. unfold request, commit. destruct valid; [|done]. destruct (write _) as [b [u'|e]]; [|done]. intros [= <-]. simpl.
  unfold ensureIndex. by rewrite Hi.
Qed.

Lemma resolveMailbox_store a actor ok : keeps same_store (resolveMailboxApproval a actor ok).
Proof. unfold resolveMailboxApproval. keep; by intros w w' r [= <- _]. Qed.

Lemma found_some {A} what (f : Store B -> option A) (w : World B) x : f (wStore w) = Some x -> found what f w = (w, Ok x).
Proof. intros H. unfold found, bind, look. by rewrite H. Qed.

(** A decided approval answers every later decision. *)
Lemma resolve_decided id actor ok reason w a d wf :
  GetApproval id (wStore w) = Some a -> GetDraft (apDraftID a) (wStore w) = Some d -> GetWorkflow (apWorkflowID a) (wStore w) = Some wf ->
  apStatus a = ApprovalStatusApproved \/ apStatus a = ApprovalStatusRejected ->
  resolveApproval id actor ok reason w = (w, Ok (a, d, wf)).
Proof.
  intros Ha Hd Hw Hs. unfold resolveApproval. unfold bind at 1. rewrite (found_some _ _ _ _ Ha).
  unfold bind at 1. rewrite (found_some _ _ _ _ Hd). unfold bind at 1. rewrite (found_some _ _ _ _ Hw).
  assert (bool_decide (apStatus a = ApprovalStatusApproved) || bool_decide (apStatus a = ApprovalStatusRejected) = true) as ->; [|done].
  destruct Hs as [-> | ->]; done.
Qed.

(** Once the three records are written, the rest of a decision logs it. *)
Definition logDecision (a : Approval) (d : Draft) (wf : Workflow) (at_ : Time) (reason : string) : M B (Approval * Draft * Workflow) :=
  let metadata := <["approval_id" := apID a]> {["outcome" := apStatus a]} in
  appendEvent_ EventTypeApprovalResolved (apConnectionID a) "" "" (apDraftID a) (apExposureID a) at_ metadata ;;
  appendWorkflowActivity wf EventTypeApprovalResolved d (apExposureID a) metadata reason ;;
  ret (a, d, wf).

Lemma logDecision_run a d wf at_ reason w w' a' d' wf' i :
  stIndex (wStore w) = Some i -> logDecision a d wf at_ reason w = (w', Ok (a', d', wf')) ->
  (a', d', wf') = (a, d, wf) /\ exists j, stIndex (wStore w') = Some j /\ same_decided i j.
Proof.
  intros Hi H. assert (keeps (unchanged same_decided) (logDecision a d wf at_ reason)) as Hk.
  { unfold logDecision, appendEvent_, appendWorkflowActivity, now, newID. keep. }
  split; [|by eapply Hk]. unfold logDecision in H.
  do 2 (apply bind_run in H as [(? & ? & _ & H)|(? & _ & ?)]; [|discriminate]). by apply ret_run in H as [_ H].
Qed.

(** The three records of a decision, found by their identifiers. *)
Definition decision_stored (a : Approval) (d : Draft) (wf : Workflow) (st : Store B) : Prop :=
  GetApproval (apID a) st = Some a /\ GetDraft (drID d) st = Some d /\ GetWorkflow (wfID wf) st = Some wf.

Lemma decision_written a d wf at_ reason w w' a' d' wf' i :
  stIndex (wStore w) = Some i ->
  (request (PutApproval a) ;; request (PutDraft d) ;; request (PutWorkflow wf) ;; logDecision a d wf at_ reason) w
    = (w', Ok (a', d', wf')) ->
  (a', d', wf') = (a, d, wf) /\ decision_stored a d wf (wStore w').
Proof.
  intros Hi H.
  apply bind_run in H as [(w1 & [] & H1 & H)|(? & _ & ?)]; [|discriminate]. apply (committed _ _ _ _ _ _ Hi) in H1.
  apply bind_run in H as [(w2 & [] & H2 & H)|(? & _ & ?)]; [|discriminate]. apply (committed _ _ _ _ _ _ H1) in H2.
  apply bind_run in H as [(w3 & [] & H3 & H)|(? & _ & ?)]; [|discriminate]. apply (committed _ _ _ _ _ _ H2) in H3.
  destruct (logDecision_run _ _ _ _ _ _ _ _ _ _ _ H3 H) as (-> & j & Hj & E1 & E2 & E3). split; [done|].
  unfold decision_stored, GetApproval, GetDraft, GetWorkflow, store_get, getApproval, getDraft, getWorkflow. rewrite Hj, <- E1, <- E2, <- E3.
  split_and!; apply lookup_insert_eq.
Qed.

Lemma decided_status ok actor reason at_ a :
  apStatus (decidedApproval ok actor reason at_ a) = (if ok then ApprovalStatusApproved else ApprovalStatusRejected).
Proof. unfold decidedApproval. destruct ok; [done|]. by destruct (isBlank reason). Qed.

Lemma decided_keys ok actor reason at_ a :
  let a' := decidedApproval ok actor reason at_ a in apID a' = apID a /\ apDraftID a' = apDraftID a /\ apWorkflowID a' = apWorkflowID a.
Proof. unfold decidedApproval. destruct ok; [done|]. by destruct (isBlank reason). Qed.

Lemma decided_wfID ok at_ wf : wfID (decidedWorkflow ok at_ wf) = wfID wf.
Proof. by destruct ok. Qed.

(** A decision either finds the approval decided, or it is the first. *)
Lemma resolve_cases id actor ok reason w w' a d wf i :
  stIndex (wStore w) = Some i -> index_ok i -> resolveApproval id actor ok reason w = (w', Ok (a, d, wf)) ->
  apID a = id /\ drID d = apDraftID a /\ wfID wf = apWorkflowID a /\
  (apStatus a = ApprovalStatusApproved \/ apStatus a = ApprovalStatusRejected) /\
  (apStatus <$> GetApproval id (wStore w) = Some ApprovalStatusPending ->
    apStatus a = if ok then ApprovalStatusApproved else ApprovalStatusRejected) /\
  decision_stored a d wf (wStore w').
Proof.
  intros Hi Hok H. unfold resolveApproval in H.
  apply bind_run in H as [(w0 & a0 & Ha & H)|(? & _ & ?)]; [|discriminate]. apply found_run in Ha as [-> Ha].
  apply bind_run in H as [(w0 & d0 & Hd & H)|(? & _ & ?)]; [|discriminate]. apply found_run in Hd as [-> Hd].
  apply bind_run in H as [(w0 & wf0 & Hw & H)|(? & _ & ?)]; [|discriminate]. apply found_run in Hw as [-> Hw].
  assert (apID a0 = id /\ drID d0 = apDraftID a0 /\ wfID wf0 = apWorkflowID a0) as (Ka & Kd & Kw).
  { unfold GetApproval, GetDraft, GetWorkflow, store_get in *. rewrite Hi in *. split_and!.
    - exact (fo_ident _ _ _ (io_approvals _ Hok) _ _ Ha).
    - exact (fo_ident _ _ _ (io_drafts _ Hok) _ _ Hd).
    - exact (io_workflows _ Hok _ _ Hw). }
  destruct (bool_decide (apStatus a0 = ApprovalStatusApproved) || bool_decide (apStatus a0 = ApprovalStatusRejected)) eqn:Eb.
  { apply ret_run in H as [-> H]. inversion H; subst. split_and!; [done|done|done| | |].
    - apply orb_true_iff in Eb as [Eb%bool_decide_eq_true|Eb%bool_decide_eq_true]; auto.
    - rewrite Ha. intros [= E]. by rewrite E in Eb.
    - unfold decision_stored. by rewrite Kd, Kw. }
  destruct (bool_decide (apStatus a0 <> ApprovalStatusPending)); [discriminate|].
  apply bind_run in H as [(w1 & at_ & H1 & H)|(? & _ & ?)]; [|discriminate]. apply (keeps_tick (unchanged eq)) in H1.
  destruct (H1 i Hi) as (j & Hj & _).
  apply bind_run in H as [(w2 & [] & H2 & H)|(? & _ & ?)]; [|discriminate]. apply resolveMailbox_store in H2. unfold same_store in H2.
  rewrite <- H2 in Hj. destruct (decision_written _ _ _ at_ reason _ _ _ _ _ _ Hj H) as (Heq & Hst). clear H. inversion Heq; subst.
  destruct (decided_keys ok actor reason at_ a0) as (-> & -> & ->). rewrite decided_wfID, decided_status. split_and!; [done|done|done| |done|exact Hst].
  destruct ok; auto.
Qed.

(** The first decision on an approval stands: whoever approves or
    rejects it afterwards is told the decision taken, and nothing is written and
    no mailbox item is touched. *)
Theorem broker_first_decision_stands id actor ok reason w w1 a d wf i
  (Hi : stIndex (wStore w) = Some i) (Hok : index_ok i)
  (Hrun : resolveApproval id actor ok reason w = (w1, Ok (a, d, wf))) :
  (apStatus a = ApprovalStatusApproved \/ apStatus a = ApprovalStatusRejected) /\
  (apStatus <$> GetApproval id (wStore w) = Some ApprovalStatusPending ->
    apStatus a = if ok then ApprovalStatusApproved else ApprovalStatusRejected) /\
  forall actor2 ok2 reason2, resolveApproval id actor2 ok2 reason2 w1 = (w1, Ok (a, d, wf)).
Proof.
  destruct (resolve_cases _ _ _ _ _ _ _ _ _ _ Hi Hok Hrun) as (Ka & Kd & Kw & Hs & Hp & Sa & Sd & Sw).
  split_and!; [done|done|]. intros. rewrite Ka in Sa. rewrite Kd in Sd. rewrite Kw in Sw. by apply resolve_decided.
Qed.

(** ** Well-formed stores *)

Definition stays_ok (i j : recordIndex) : Prop := index_ok i -> index_ok j.
#[local] Instance stays_ok_pre : PreOrder stays_ok.
Proof. split; [by intros i Hi|]. intros i j k H1 H2 Hi. by apply H2, H1. Qed.

Lemma run_stays op : op_scoped op -> forall i, stays_ok i (run_index i op).
Proof. intros Hs i Hi. by apply run_index_ok. Qed.

Ltac keep_ok := keep_with ltac:(by apply run_stays).

Lemma saveDraft_ok e d b : keeps (unchanged stays_ok) (saveDraft e d b).
Proof.
  unfold saveDraft, supersede, cancelApproval, nativeDraft, ensureDraftWorkflow, appendEvent_, appendWorkflowActivity, now, newID. keep_ok.
Qed.

Lemma createSendApproval_ok e w d x : keeps (unchanged stays_ok) (createSendApproval e w d x).
Proof. unfold createSendApproval, createMailboxApproval, appendEvent_, appendWorkflowActivity, now, newID. keep_ok. Qed.

Lemma sendDraftNow_ok e w d n : keeps (unchanged stays_ok) (sendDraftNow e w d n).
Proof. unfold sendDraftNow, deliver, sendFailed, appendEvent_, appendWorkflowActivity, now, newID. keep_ok. Qed.

Lemma RequestSendDraft_ok e d n : keeps (unchanged stays_ok) (RequestSendDraft e d n).
Proof.
  unfold RequestSendDraft, ensureDraftWorkflow, sendDenied, awaitApproval, appendWorkflowActivity, now, newID.
  keep_ok; first [apply createSendApproval_ok | apply sendDraftNow_ok].
Qed.

Lemma resolveApproval_ok id actor ok reason : keeps (unchanged stays_ok) (resolveApproval id actor ok reason).
Proof. unfold resolveApproval, resolveMailboxApproval, appendEvent_, appendWorkflowActivity, now, newID. keep_ok. Qed.

(** A request to the broker. *)
Inductive BrokerOp :=
| OpCreateDraft (exposureID : string) (d : Draft) | OpUpdateDraft (exposureID : string) (d : Draft)
| OpRequestSend (exposureID draftID : string) (newConversation : bool)
| OpApprove (approvalID actorID : string) | OpReject (approvalID actorID reason : string).

Definition run_broker (op : BrokerOp) (w : World B) : World B :=
  match op with
  | OpCreateDraft e d => (CreateDraft e d w).1
  | OpUpdateDraft e d => (UpdateDraft e d w).1
  | OpRequestSend e d n => (RequestSendDraft e d n w).1
  | OpApprove a by_ => (ApproveDraftSend a by_ w).1
  | OpReject a by_ why => (RejectDraftSend a by_ why w).1
  end.

Lemma run_broker_ok op w : unchanged stays_ok w (run_broker op w).
Proof.
  destruct op; unfold run_broker.
  - exact (saveDraft_ok _ _ _ _ _ _ (surjective_pairing _)).
  - exact (saveDraft_ok _ _ _ _ _ _ (surjective_pairing _)).
  - exact (RequestSendDraft_ok _ _ _ _ _ _ (surjective_pairing _)).
  - exact (resolveApproval_ok _ _ _ _ _ _ _ (surjective_pairing _)).
  - exact (resolveApproval_ok _ _ _ _ _ _ _ (surjective_pairing _)).
Qed.

(** Whatever is asked of the broker, in whatever order and whatever
    the adapter, the mailbox and the storage answer, the listings the store gives
    are those of its records: no request leaves an index that points to a missing
    record or misses one. *)
Theorem broker_listings_stay_exact ops w i
  (Hi : stIndex (wStore w) = Some i) (Hok : index_ok i) :
  exists j, stIndex (wStore (foldl (fun w op => run_broker op w) w ops)) = Some j /\ index_ok j /\ lists_tables j (tablesOf j).
Proof.
  revert w i Hi Hok. induction ops as [|op ops IH]; intros w i Hi Hok; simpl.
  - exists i. split_and!; [done|done|]. by apply lists_tables_ok.
  - destruct (run_broker_ok op w i Hi) as (j & Hj & Hs). by apply (IH _ j Hj), Hs.
Qed.
End Broker.

(** ** Demo

    A store in memory and an adapter that answers every call. *)
Module Demo.
Definition memory : MessagingBackend unit := {|
  bkLoad _ := Ok emptySnapshot;
  bkPutConnection _ b := (b, Ok tt); bkDeleteConnection _ b := (b, Ok tt); bkPutIdentity _ b := (b, Ok tt);
  bkReplaceConnectionIdentities _ _ b := (b, Ok tt); bkPutConversation _ b := (b, Ok tt); bkPutContainer _ b := (b, Ok tt);
  bkPutPlacement _ b := (b, Ok tt); bkDeletePlacement _ _ b := (b, Ok tt); bkPutMessage _ b := (b, Ok tt);
  bkPutDraft _ b := (b, Ok tt); bkPutApproval _ b := (b, Ok tt); bkPutPolicy _ b := (b, Ok tt); bkPutExposure _ b := (b, Ok tt);
  bkPutWorkflow _ b := (b, Ok tt); bkAppendActivityEvent _ _ b := (b, Ok tt); bkAppendEvent _ _ b := (b, Ok tt);
  bkPutCheckpoint _ _ b := (b, Ok tt)
|}.

Definition text_ (t : string) : list MessagePart := [mkPart MessagePartKindText "" t "" "" 0 ∅].

Definition env : BrokerEnv := {|
  be_now t := 100 + t;
  be_newID t := "id-" +:+ Itoa t;
  be_log t := mkLogEnv (100 + t) "u";
  be_ready _ _ := Ok (mkCapabilities false false);
  be_createDraft _ _ := Err NotSupported;
  be_updateDraft _ _ := Err NotSupported;
  be_send t d _ := Ok (mkSendResult (mkMessage "" "" "" "" "remote-7" "" (mkParticipant "" ParticipantKindBot "" "" "" "" true ∅) [] 0 None "" "" ∅) "");
  be_reply t d _ to := Err "connection reset";
  be_mailbox := true;
  be_operator := true;
  be_mailRequest _ a := Ok ("item-" +:+ apID a);
  be_mailResolve _ _ _ _ := Ok tt
|}.

(** Drafts and sends, each send with an approval. *)
Definition askFirst : Policy :=
  mkPolicy "p1" "Ask first" (mkRules true true true true false true true true true [] true true true []) ∅.
Definition account : Connection :=
  mkConnection "c1" "imap" "Mail" ConnectionStatusConnected MessagingStore.Demo.noAuth "p1" ∅ 1 1.
Definition index : recordIndex := foldl run_index emptyIndex [OpPutConnection account; OpPutPolicy askFirst].
Definition start : World unit := mkWorld (mkStore tt (Some index) []) 0 [].

Definition first_ : Draft := mkDraft "d1" "c1" "v1" "i1" "" "" (text_ "See you at noon") "" ∅.
Definition edited : Draft := mkDraft "d1" "c1" "v1" "i1" "" "" (text_ "Wire the money today") "" ∅.

#[local] Existing Instances memory env.

(** Drafted, asked for, approved, edited, asked for again. *)
Definition asked : World unit := (RequestSendDraft "" "d1" false (CreateDraft "" first_ start).1).1.
Definition approvalID : string := match ListDraftApprovals "d1" (wStore asked) with a :: _ => apID a | [] => "" end.
Definition approved : World unit := (ApproveDraftSend approvalID "ana" asked).1.
Definition changed : World unit := (UpdateDraft "" edited approved).1.
Definition sentAnyway : World unit := (RequestSendDraft "" "d1" false changed).1.

Definition ixOf (w : World unit) : recordIndex := default emptyIndex (stIndex (wStore w)).
Definition sending : Draft := setDraftStatus DraftStatusSending (setDraftStatus DraftStatusPending edited).

Lemma start_index : stIndex (wStore start) = Some index.
Proof. done. Qed.
Lemma index_ok_start : index_ok index.
Proof. apply history_ok. repeat constructor. Qed.
Lemma approved_index : stIndex (wStore approved) = Some (ixOf approved).
Proof. vm_compute. done. Qed.
Lemma changed_index : stIndex (wStore changed) = Some (ixOf changed).
Proof. vm_compute. done. Qed.

Lemma asked_index : exists i, stIndex (wStore asked) = Some i /\ index_ok i.
Proof.
  destruct (run_broker_ok (OpCreateDraft "" first_) start index start_index) as (i & Hi & Hs).
  destruct (run_broker_ok (OpRequestSend "" "d1" false) _ i Hi) as (j & Hj & Hs'). exists j. split; [exact Hj|].
  apply Hs', Hs, index_ok_start.
Qed.

Lemma decided : exists a d wf, resolveApproval approvalID "ana" true "" asked = (approved, Ok (a, d, wf)).
Proof. do 3 eexists. vm_compute. reflexivity. Qed.

Lemma updated : exists wf, UpdateDraft "" edited approved = (changed, Ok (setDraftStatus DraftStatusPending edited, wf)).
Proof. eexists. vm_compute. reflexivity. Qed.

Lemma none_pending draftID (st : Store unit) e :
  GetDraft draftID st = Some e ->
  bool_decide (apStatus <$> GetApproval (drApprovalID e) st = Some ApprovalStatusPending) = false -> no_pending_approval draftID st.
Proof.
  intros He Hp e' a He' Ha Hs. rewrite He in He'. injection He' as <-. rewrite Ha in Hp. apply bool_decide_eq_false in Hp. apply Hp. simpl. by rewrite Hs.
Qed.

Lemma nothing_pending : no_pending_approval "d1" (wStore approved).
Proof.
  assert (exists e, GetDraft "d1" (wStore approved) = Some e /\
    bool_decide (apStatus <$> GetApproval (drApprovalID e) (wStore approved) = Some ApprovalStatusPending) = false) as (e & He & Hp).
  { eexists. split; [vm_compute; reflexivity|vm_compute; done]. }
  exact (none_pending "d1" (wStore approved) e He Hp).
Qed.

Lemma one_approval : exists a, latestDraftApproval "d1" (wStore approved) = Some a /\ apStatus a = ApprovalStatusApproved.
Proof. eexists. split; vm_compute; reflexivity. Qed.

Lemma requested_again : exists r, RequestSendDraft "" "d1" false changed = (sentAnyway, Ok r).
Proof. eexists. vm_compute. reflexivity. Qed.

Lemma went : went_out sending changed sentAnyway.
Proof. eexists. split; [vm_compute; reflexivity|]. vm_compute. left. Qed.
End Demo.

Lemma broker_send_needs_approval_witness :
  went_out Demo.sending Demo.changed Demo.sentAnyway /\
  exists d0 decision, GetDraft "d1" (wStore Demo.changed) = Some d0 /\ Demo.sending = setDraftStatus DraftStatusSending d0 /\
    EvaluateSend (drConnectionID d0) "" d0 false (wStore Demo.changed) = Ok decision.
Proof.
  destruct Demo.requested_again as [r Hr]. split; [exact Demo.went|].
  destruct (broker_send_needs_approval (BK := Demo.memory) (BE := Demo.env) "" "d1" false Demo.changed Demo.sentAnyway
      (Ok r) (Demo.ixOf Demo.changed) Demo.sending Demo.changed_index Hr Demo.went)
    as (d0 & decision & H1 & H2 & H3 & _). exists d0, decision. exact (conj H1 (conj H2 H3)).
Defined.

(** The edited text goes out under the approval of the first one. *)
Lemma broker_edit_reuses_approval_witness :
  (exists a, latestDraftApproval "d1" (wStore Demo.sentAnyway) = Some a /\ apStatus a = ApprovalStatusApproved) /\
  drParts Demo.sending <> drParts Demo.first_ /\ went_out Demo.sending Demo.changed Demo.sentAnyway.
Proof.
  destruct Demo.updated as [wf Hup]. destruct Demo.one_approval as (a & Ha & Hok). destruct Demo.requested_again as [r Hr].
  destruct (broker_edit_reuses_approval (BK := Demo.memory) (BE := Demo.env) "" Demo.edited Demo.approved Demo.changed
    (setDraftStatus DraftStatusPending Demo.edited) wf (Demo.ixOf Demo.approved) a false Demo.sentAnyway (Ok r) Demo.approved_index Hup
    Demo.nothing_pending Ha Hok Hr) as (_ & _ & H & _).
  split; [exists a; exact (conj H Hok)|]. split; [discriminate|exact Demo.went].
Defined.

Lemma broker_first_decision_stands_witness :
  exists a d wf, apStatus a = ApprovalStatusApproved /\
    resolveApproval (BK := Demo.memory) (BE := Demo.env) Demo.approvalID "eve" false "no" Demo.approved = (Demo.approved, Ok (a, d, wf)).
Proof.
  destruct Demo.asked_index as (i & Hi & Hok). destruct Demo.decided as (a & d & wf & Hd).
  destruct (broker_first_decision_stands (BK := Demo.memory) (BE := Demo.env) Demo.approvalID "ana" true "" Demo.asked Demo.approved
    a d wf i Hi Hok Hd) as (_ & Hfirst & Hlater).
  exists a, d, wf. split; [|exact (Hlater "eve" false "no")]. apply Hfirst. vm_compute. reflexivity.
Defined.

Lemma broker_listings_stay_exact_witness :
  exists j, stIndex (wStore (foldl (fun w op => run_broker (BK := Demo.memory) (BE := Demo.env) op w) Demo.start
      [OpCreateDraft "" Demo.first_; OpRequestSend "" "d1" false; OpApprove Demo.approvalID "ana"])) = Some j /\
    index_ok j /\ lists_tables j (tablesOf j).
Proof. exact (broker_listings_stay_exact (BK := Demo.memory) (BE := Demo.env)
  [OpCreateDraft "" Demo.first_; OpRequestSend "" "d1" false; OpApprove Demo.approvalID "ana"] Demo.start Demo.index
  Demo.start_index Demo.index_ok_start). Defined.
