(* ===== verification/Mpp.v ===== *)
(** * Machine Payments Protocol headers (pkg/payments/mpp/protocol.go)

    Parsing of [WWW-Authenticate: Payment ...] challenges: several challenges in
    one value, quoted parameters with escapes, base64url requests.  JSON
    decoding is a class ([MppJSON]). *)

From Stdlib Require Import Ascii.
From stdpp Require Import base numbers list gmap strings.
From S2P Require Import Prelude GoStrings GoStrconv GoText.

Definition paymentScheme : string := "Payment".

Record Challenge := mkChallenge {
  cID : string;
  cRealm : string;
  cMethod : string;
  cIntent : string;
  cRequest : string;
  cExpires : string;
  cDescription : string;
  cDigest : string;
  cOpaque : string
}.

Record ChargeRequest := mkChargeRequest {
  crAmount : string;
  crCurrency : string;
  crRecipient : string;
  crDescription : string;
  crExternalID : string;
  crMethodDetails : string     (** raw JSON *)
}.

Record Split := mkSplit {
  spRecipient : string;
  spAmount : string;
  spATACreationRequired : option bool;
  spLabel : string;
  spMemo : string
}.

Record MethodDetails := mkMethodDetails {
  mdNetwork : string;
  mdDecimals : option Z;
  mdTokenProgram : string;
  mdFeePayer : option bool;
  mdFeePayerKey : string;
  mdRecentBlockhash : string;
  mdSplits : list Split
}.

Definition emptyDetails : MethodDetails := mkMethodDetails "" None "" None "" "" [].

Record ChallengeEcho := mkChallengeEcho {
  ceID : string;
  ceRealm : string;
  ceMethod : string;
  ceIntent : string;
  ceRequest : string;
  ceExpires : string;
  ceDigest : string;
  ceOpaque : string
}.

(** The payload is a [CredentialPayloadTransaction]: type and transaction. *)
Record Credential := mkCredential {
  crChallenge : ChallengeEcho;
  crSource : string;
  crPayload : string * string
}.

Record MppReceipt := mkMppReceipt {
  mrStatus : string;
  mrMethod : string;
  mrTimestamp : string;
  mrReference : string;
  mrChallengeID : string
}.

#[export] Instance Challenge_eq_dec : EqDecision Challenge.
Proof. solve_decision. Defined.

(** [json.Unmarshal], [json.Valid] and [json.Marshal] at the types used. *)
Class MppJSON := {
  jsonChargeRequest : string -> option ChargeRequest;
  jsonMethodDetails : string -> option MethodDetails;
  jsonMppReceipt : string -> option MppReceipt;
  jsonValid : string -> bool;
  jsonCredential : Credential -> string
}.

(** [strings.NewReplacer("+", "-", "/", "_").Replace] *)
Fixpoint urlReplace (s : string) : string :=
  match s with
  | EmptyString => ""
  | String c s' =>
      String (if Ascii.eqb c "+" then "-"%char else if Ascii.eqb c "/" then "_"%char else c) (urlReplace s')
  end.

Definition base64URLDecode (value : string) : option string :=
  b64decode true false (urlReplace (TrimRightByte "=" (TrimSpace value))).

Definition isHTTPWhitespace (b : ascii) : bool := Ascii.eqb b " " || (byte_of b =? 9).

(** [for prev > 0 && isHTTPWhitespace(bytes[prev-1]) { prev-- }] *)
Fixpoint skipBack (bytes : string) (prev : nat) : nat :=
  match prev with
  | O => O
  | S p => match String.get p bytes with
           | Some b => if isHTTPWhitespace b then skipBack bytes p else prev
           | None => prev
           end
  end.

Definition isPaymentSchemeStart (bytes : string) (index : nat) : bool :=
  let end_ := (index + String.length paymentScheme)%nat in
  if (String.length bytes <=? end_)%nat then false
  else if negb (EqualFold (str_take (String.length paymentScheme) (str_drop index bytes)) paymentScheme)
  then false
  else match String.get end_ bytes with
       | None => false
       | Some b =>
           if negb (isHTTPWhitespace b) then false
           else match skipBack bytes index with
                | O => true
                | S p => match String.get p bytes with Some b => Ascii.eqb b "," | None => false end
                end
       end.

(** The double quote (34) and the backslash (92). *)
Definition dquote : ascii := Ascii false true false false false true false false.
Definition backslash : ascii := Ascii false false true true true false true false.

(** The scan of [splitPaymentChallengeValues] from index [i], where [rest] is
    what is left of [bytes]. *)
Fixpoint scanStarts (bytes rest : string) (i : nat) (inQuote escaped : bool) : list nat :=
  match rest with
  | EmptyString => []
  | String b rest' =>
      if inQuote then
        if escaped then scanStarts bytes rest' (S i) true false
        else if Ascii.eqb b backslash then scanStarts bytes rest' (S i) true true
        else if Ascii.eqb b dquote then scanStarts bytes rest' (S i) false false
        else scanStarts bytes rest' (S i) true false
      else if Ascii.eqb b dquote then scanStarts bytes rest' (S i) true escaped
      else if isPaymentSchemeStart bytes i then i :: scanStarts bytes rest' (S i) false escaped
      else scanStarts bytes rest' (S i) false escaped
  end.

Fixpoint cutChunks (header : string) (starts : list nat) : list string :=
  match starts with
  | [] => []
  | start :: more =>
      let end_ := match more with next :: _ => next | [] => String.length header end in
      let chunk := TrimSpace (TrimRightByte "," (str_take (end_ - start) (str_drop start header))) in
      if bool_decide (chunk = "") then cutChunks header more else chunk :: cutChunks header more
  end.

Definition splitPaymentChallengeValues (header : string) : list string :=
  cutChunks header (scanStarts header header 0 false false).

(** ** Parameters *)

(** [for i < len(input) && p(input[i]) { i++ }]: what was passed, and the rest. *)
Fixpoint span (p : ascii -> bool) (input : string) : string * string :=
  match input with
  | EmptyString => ("", "")
  | String c rest => if p c then let '(a, b) := span p rest in (String c a, b) else ("", input)
  end.

Definition isSeparator (c : ascii) : bool := Ascii.eqb c "," || isHTTPWhitespace c.
Definition isKeyChar (c : ascii) : bool := negb (Ascii.eqb c "=") && negb (isSeparator c).

(** The quoted value after its opening quote. *)
Fixpoint readQuoted (input : string) : string * string :=
  match input with
  | EmptyString => ("", "")
  | String c rest =>
      if Ascii.eqb c backslash then
        match rest with
        | String d rest' => let '(v, r) := readQuoted rest' in (String d v, r)
        | EmptyString => (String c "", "")
        end
      else if Ascii.eqb c dquote then ("", rest)
      else let '(v, r) := readQuoted rest in (String c v, r)
  end.

(** The loop over the parameters; every turn reads at least the '=' sign, so
    fuel beyond the length is never used up ([parseAuthParams_fuel]). *)
Fixpoint parseParams (fuel : nat) (input : string) (params : gmap string string)
  : result string (gmap string string) :=
  match fuel with
  | O => Err "out of fuel"
  | S fuel' =>
      let input := (span isSeparator input).2 in
      if bool_decide (input = "") then Ok params
      else
        let '(key, rest) := span isKeyChar input in
        match rest with
        | String eq rest' =>
            if negb (Ascii.eqb eq "=") then Err "invalid auth parameter"
            else match rest' with
                 | EmptyString => Err "missing auth parameter value"
                 | String c rest'' =>
                     let '(value, rest) :=
                       if Ascii.eqb c dquote then readQuoted rest''
                       else span (fun c => negb (isSeparator c)) rest' in
                     if bool_decide (is_Some (params !! key)) then Err "duplicate auth parameter"
                     else parseParams fuel' rest (<[key := value]> params)
                 end
        | EmptyString => Err "invalid auth parameter"
        end
  end.

Definition parseAuthParams (input : string) : result string (gmap string string) :=
  parseParams (S (String.length input)) input ∅.

(** ** Challenges *)

Section Codec.
Context `{J : MppJSON} (unicodeLower : string -> string).

Definition DecodeChargeRequest (c : Challenge) : result string (ChargeRequest * MethodDetails) :=
  match base64URLDecode (cRequest c) with
  | None => Err "illegal base64 data"
  | Some raw =>
      match jsonChargeRequest raw with
      | None => Err "decode MPP charge request"
      | Some req =>
          if bool_decide (crMethodDetails req = "") then Ok (req, emptyDetails)
          else match jsonMethodDetails (crMethodDetails req) with
               | None => Err "decode MPP methodDetails"
               | Some details => Ok (req, details)
               end
      end
  end.

Definition echo (c : Challenge) : ChallengeEcho :=
  mkChallengeEcho (cID c) (cRealm c) (cMethod c) (cIntent c) (cRequest c) (cExpires c)
    (cDigest c) (cOpaque c).

Definition ParseWWWAuthenticate (header : string) : result string Challenge :=
  let rest := TrimSpace header in
  let n := String.length paymentScheme in
  if (String.length rest <? n)%nat || negb (EqualFold (str_take n rest) paymentScheme)
  then Err "MPP challenge missing Payment scheme"
  else if match String.get n rest with Some b => negb (isHTTPWhitespace b) | None => false end
  then Err "MPP challenge missing Payment scheme"
  else
    match parseAuthParams (TrimSpace (str_drop n rest)) with
    | Err e => Err e
    | Ok params =>
        let p k := default "" (params !! k) in
        let challenge := mkChallenge (p "id") (p "realm") (ToLower unicodeLower (p "method"))
          (ToLower unicodeLower (p "intent")) (p "request") (p "expires") (p "description")
          (p "digest") (p "opaque") in
        if bool_decide (cID challenge = "") || bool_decide (cRealm challenge = "")
           || bool_decide (cMethod challenge = "") || bool_decide (cIntent challenge = "")
           || bool_decide (cRequest challenge = "")
        then Err "MPP challenge missing required parameter"
        else match base64URLDecode (cRequest challenge) with
             | None => Err "decode MPP request"
             | Some raw => if negb (jsonValid raw) then Err "MPP request is not valid JSON"
                           else Ok challenge
             end
    end.

(** One chunk: a challenge is collected, an error remembered. *)
Definition parseChunk (acc : list Challenge * option string) (chunk : string)
  : list Challenge * option string :=
  match ParseWWWAuthenticate chunk with
  | Err e => (acc.1, Some e)
  | Ok c => (acc.1 ++ [c], acc.2)
  end.

(** [values] are the values of the [WWW-Authenticate] header. *)
Definition ParseChallenges (values : list string) : result string (list Challenge) :=
  let '(out, parseErr) :=
    foldl (fun acc value => foldl parseChunk acc (splitPaymentChallengeValues value)) ([], None) values in
  match out, parseErr with
  | [], Some e => Err e
  | _, _ => Ok out
  end.

Definition FormatAuthorization (c : Credential) : string :=
  paymentScheme +:+ " " +:+ b64encode true false (jsonCredential c).

(** [Ok None] is the nil receipt of an absent header. *)
Definition ParseReceipt (value : string) : result string (option MppReceipt) :=
  if isBlank value then Ok None
  else match base64URLDecode (TrimSpace value) with
       | None => Err "decode MPP receipt"
       | Some raw => match jsonMppReceipt raw with
                     | None => Err "decode MPP receipt JSON"
                     | Some r => Ok (Some r)
                     end
       end.

End Codec.

(** ** How a server writes challenges

    The header grammar (RFC 9110, auth-param with quoted-string): the reference
    the parser is compared with. *)

Fixpoint escape (v : string) : string :=
  match v with
  | EmptyString => ""
  | String c v' =>
      if Ascii.eqb c backslash || Ascii.eqb c dquote
      then String backslash (String c (escape v')) else String c (escape v')
  end.

Definition quoted (v : string) : string := String dquote (escape v +:+ String dquote "").

Definition formatParam (sep : string) (kv : string * string) : string :=
  sep +:+ kv.1 +:+ "=" +:+ quoted kv.2.

(** [sep k1="v1", k2="v2"...] *)
Fixpoint formatParams (sep : string) (kvs : list (string * string)) : string :=
  match kvs with
  | [] => ""
  | kv :: kvs => formatParam sep kv +:+ formatParams ", " kvs
  end.

Definition challengeParams (c : Challenge) : list (string * string) :=
  [("id", cID c); ("realm", cRealm c); ("method", cMethod c); ("intent", cIntent c);
   ("request", cRequest c)] ++
  filter (fun kv => kv.2 <> "") [("expires", cExpires c); ("description", cDescription c);
    ("digest", cDigest c); ("opaque", cOpaque c)].

Definition formatChallenge (c : Challenge) : string :=
  paymentScheme +:+ formatParams " " (challengeParams c).

(** Several challenges in one header value. *)
Fixpoint formatChallenges (cs : list Challenge) : string :=
  match cs with
  | [] => ""
  | [c] => formatChallenge c
  | c :: cs => formatChallenge c +:+ ", " +:+ formatChallenges cs
  end.

(** ** Reading parameters back *)

Lemma readQuoted_escape v t : readQuoted (escape v +:+ String dquote t) = (v, t).
Proof.
  induction v as [|c v IH]; [done|]. cbn [escape].
  destruct (Ascii.eqb_spec c backslash) as [->|Hb]; cbn [orb]; cbv iota.
  - rewrite !str_app_cons. cbn [readQuoted]. by rewrite IH.
  - destruct (Ascii.eqb_spec c dquote) as [->|Hd]; cbv iota; rewrite !str_app_cons; cbn [readQuoted].
    + by rewrite IH.
    + rewrite (proj2 (Ascii.eqb_neq _ _) Hb), (proj2 (Ascii.eqb_neq _ _) Hd). by rewrite IH.
Qed.

Lemma span_app p a b :
  str_forall p a = true -> match b with String c _ => p c = false | EmptyString => True end ->
  span p (a +:+ b) = (a, b).
Proof.
  intros Ha Hb. induction a as [|c a IH].
  - rewrite str_app_nil_l. destruct b as [|c b]; [done|]. cbn [span]. by rewrite Hb.
  - simpl in Ha. apply andb_prop in Ha as [Hc Ha]. rewrite str_app_cons. cbn [span].
    by rewrite Hc, IH.
Qed.

(** A parameter as the loop finds it, after any separators. *)
Lemma parseParams_step fuel sep k v t params :
  str_forall isSeparator sep = true -> k <> "" -> str_forall isKeyChar k = true ->
  params !! k = None ->
  parseParams (S fuel) (formatParam sep (k, v) +:+ t) params = parseParams fuel t (<[k := v]> params).
Proof.
  intros Hsep Hne Hk Hnone. unfold formatParam, quoted. cbn [fst snd].
  rewrite !str_app_assoc. cbn [parseParams]. rewrite span_app; [|done|].
  2:{ destruct k as [|c k]; [done|]. rewrite str_app_cons. simpl in Hk.
      apply andb_prop in Hk as [Hc _]. unfold isKeyChar in Hc. apply andb_prop in Hc as [_ Hc].
      by apply negb_true_iff. }
  cbn [snd]. rewrite bool_decide_eq_false_2 by (destruct k; [done|by rewrite str_app_cons]).
  rewrite span_app by done. rewrite str_app_cons, str_app_nil_l. cbn [Ascii.eqb].
  replace (negb (Ascii.eqb "=" "=")) with false by done.
  rewrite str_app_cons. replace (Ascii.eqb dquote dquote) with true by done.
  rewrite str_app_assoc, str_app_cons, str_app_nil_l, readQuoted_escape.
  rewrite bool_decide_eq_false_2; [done|]. rewrite Hnone. by intros [? [=]].
Qed.

(** Fuel beyond the length is never used up. *)
Lemma span_length p s a b : span p s = (a, b) -> String.length s = (String.length a + String.length b)%nat.
Proof.
  revert a b. induction s as [|c s IH]; intros a b H; cbn [span] in H; [by simplify_eq|].
  destruct (p c); [|by simplify_eq]. destruct (span p s) as [a' b'] eqn:E. simplify_eq.
  simpl. rewrite (IH a' b); [done|done].
Qed.

Lemma readQuoted_length n s v r :
  (String.length s <= n)%nat -> readQuoted s = (v, r) -> (String.length r <= String.length s)%nat.
Proof.
  revert s v r. induction n as [|n IH]; intros s v r Hn H.
  { destruct s; [by simplify_eq/=|simpl in Hn; lia]. }
  destruct s as [|c s]; cbn [readQuoted] in H; [by simplify_eq/=|]. simpl in Hn |- *.
  destruct (Ascii.eqb c backslash).
  - destruct s as [|d s]; [simplify_eq; simpl; lia|].
    destruct (readQuoted s) as [v' r'] eqn:E. simplify_eq. simpl in Hn |- *.
    apply IH in E; lia.
  - destruct (Ascii.eqb c dquote); [simplify_eq; lia|].
    destruct (readQuoted s) as [v' r'] eqn:E. simplify_eq. apply IH in E; lia.
Qed.

Lemma parseParams_fuel fuel input params :
  (String.length input < fuel)%nat -> parseParams fuel input params <> Err "out of fuel".
Proof.
  revert input params. induction fuel as [|fuel IH]; intros input params Hlt; [lia|].
  cbn [parseParams]. destruct (span isSeparator input) as [s i] eqn:E1. cbn [snd].
  apply span_length in E1. case_bool_decide; [done|].
  destruct (span isKeyChar i) as [key rest] eqn:E2. apply span_length in E2.
  destruct rest as [|e rest]; [done|]. destruct (negb (Ascii.eqb e "=")); [done|].
  destruct rest as [|c rest]; [done|]. simpl in E2.
  destruct (if Ascii.eqb c dquote then _ else _) as [value rest'] eqn:E3.
  case_bool_decide; [done|]. apply IH.
  destruct (Ascii.eqb c dquote).
  - eapply readQuoted_length in E3; [|reflexivity]. lia.
  - apply span_length in E3. simpl in E3. lia.
Qed.

Definition goodKey (k : string) : Prop := k <> "" /\ str_forall isKeyChar k = true.

Lemma parseParams_format kvs fuel sep tail params :
  (length kvs < fuel)%nat -> str_forall isSeparator sep = true -> str_forall isSeparator tail = true ->
  NoDup kvs.*1 -> Forall goodKey kvs.*1 -> (forall k, k ∈ kvs.*1 -> params !! k = None) ->
  parseParams fuel (formatParams sep kvs +:+ tail) params = Ok (list_to_map kvs ∪ params).
Proof.
  revert fuel sep params. induction kvs as [|[k v] kvs IH]; intros fuel sep params Hf Hsep Htail Hnd Hkeys Hnone.
  - destruct fuel as [|fuel]; [simpl in Hf; lia|]. cbn [formatParams]. rewrite str_app_nil_l.
    cbn [parseParams]. rewrite <- (str_app_nil_r tail), span_app by done. cbn [snd].
    rewrite bool_decide_eq_true_2 by done. simpl. by rewrite (left_id_L ∅ (∪)).
  - destruct fuel as [|fuel]; [simpl in Hf; lia|]. cbn [formatParams]. rewrite str_app_assoc.
    inversion Hnd as [|? ? Hnin Hnd']. inversion Hkeys as [|? ? [Hk1 Hk2] Hkeys']. subst.
    rewrite parseParams_step; [|done|done|done|apply Hnone; set_solver].
    rewrite IH; [|simpl in Hf; lia|done|done|done|done|].
    + f_equal. cbn [list_to_map foldr]. simpl. rewrite <- insert_union_l.
      rewrite insert_union_r; [done|]. by apply not_elem_of_list_to_map_1.
    + intros k' Hk'. rewrite lookup_insert_ne by set_solver. apply Hnone. set_solver.
Qed.

Lemma formatParams_length sep kvs : (length kvs <= String.length (formatParams sep kvs))%nat.
Proof.
  revert sep. induction kvs as [|[k v] kvs IH]; intros sep; [simpl; lia|].
  cbn [formatParams length]. unfold formatParam, quoted. cbn [fst snd].
  rewrite !str_length_app. cbn [String.length]. rewrite str_length_app. simpl. specialize (IH ", "). lia.
Qed.

Lemma parseAuthParams_format kvs sep tail :
  str_forall isSeparator sep = true -> str_forall isSeparator tail = true ->
  NoDup kvs.*1 -> Forall goodKey kvs.*1 ->
  parseAuthParams (formatParams sep kvs +:+ tail) = Ok (list_to_map kvs).
Proof.
  intros Hs Ht Hnd Hk. unfold parseAuthParams. rewrite parseParams_format; auto.
  - by rewrite (right_id_L ∅ (∪)).
  - rewrite str_length_app. pose proof (formatParams_length sep kvs). lia.
Qed.

(** ** Finding the challenges of a value *)

Lemma scan_quoted bytes v t i :
  exists j, j = (i + String.length (escape v) + 1)%nat /\
  scanStarts bytes (escape v +:+ String dquote t) i true false = scanStarts bytes t j false false.
Proof.
  revert i. induction v as [|c v IH]; intros i.
  - exists (S i). split; [simpl; lia|done].
  - cbn [escape]. destruct (Ascii.eqb c backslash || Ascii.eqb c dquote) eqn:E.
    + destruct (IH (S (S i))) as (j & Hj & Hs). exists j. split; [simpl; lia|].
      rewrite !str_app_cons. cbn [scanStarts]. replace (Ascii.eqb backslash backslash) with true by done.
      exact Hs.
    + apply orb_false_iff in E as [E1 E2]. destruct (IH (S i)) as (j & Hj & Hs). exists j.
      split; [simpl; lia|]. rewrite !str_app_cons. cbn [scanStarts]. by rewrite E1, E2.
Qed.

(** A text of ASCII characters that cannot begin the scheme: it differs from
    it within its own length. *)
Fixpoint clash (q : string) (scheme : list Z) : bool :=
  match q, scheme with
  | String c q', r :: scheme' =>
      ascii_byte c && (negb (Z.eqb (foldRune (byte_of c)) r) || clash q' scheme')
  | _, _ => false
  end.

Definition foldedScheme : list Z := map foldRune (runes_of paymentScheme).

Fixpoint plain (p : string) : bool :=
  match p with
  | EmptyString => true
  | String c p' => negb (Ascii.eqb c dquote) && clash p foldedScheme && plain p'
  end.

Lemma clash_fold q t scheme n :
  clash q scheme = true -> (length scheme <= n)%nat ->
  map foldRune (runes_of (str_take n (q +:+ t))) <> scheme.
Proof.
  intros H Hn. revert scheme n H Hn. induction q as [|c q IH]; intros scheme n H Hn; [done|].
  destruct scheme as [|r scheme]; [done|]. cbn [clash] in H. apply andb_prop in H as [Hc H].
  rewrite str_app_cons. destruct n as [|n]; [simpl in Hn; lia|]. cbn [str_take].
  unfold runes_of. cbn [bytes_of decode_runes]. unfold ascii_byte in Hc. rewrite Hc. cbn [map].
  intros E. injection E as E1 E2. apply orb_prop in H as [H|H].
  - apply negb_true_iff, Z.eqb_neq in H. done.
  - apply (IH scheme n H); [simpl in Hn; lia|exact E2].
Qed.

Lemma str_drop_pre pre s : str_drop (String.length pre) (pre +:+ s) = s.
Proof. apply str_drop_app. Qed.

Lemma not_scheme_start pre q t :
  clash q foldedScheme = true -> isPaymentSchemeStart (pre +:+ q +:+ t) (String.length pre) = false.
Proof.
  intros Hq. unfold isPaymentSchemeStart. destruct (_ <=? _)%nat; [done|].
  rewrite str_drop_app. unfold EqualFold. rewrite bool_decide_eq_false_2; [done|].
  apply clash_fold; [exact Hq|]. vm_compute. lia.
Qed.

Lemma scan_plain pre p t :
  plain p = true ->
  scanStarts (pre +:+ p +:+ t) (p +:+ t) (String.length pre) false false =
  scanStarts (pre +:+ p +:+ t) t (String.length (pre +:+ p)) false false.
Proof.
  revert pre. induction p as [|c p IH]; intros pre Hp.
  - by rewrite str_app_nil_l, str_app_nil_r.
  - pose proof Hp as Hp'. cbn [plain] in Hp'. apply andb_prop in Hp' as [Hp' Hrest].
    apply andb_prop in Hp' as [Hq Hclash]. apply negb_true_iff in Hq.
    rewrite (str_app_cons c p t). cbn [scanStarts]. rewrite Hq.
    rewrite <- (str_app_cons c p t), not_scheme_start by done.
    specialize (IH (pre +:+ String c "") Hrest).
    replace ((pre +:+ String c "") +:+ p +:+ t) with (pre +:+ String c p +:+ t) in IH
      by (rewrite !str_app_assoc, !str_app_cons; done).
    rewrite str_length_app in IH. simpl in IH. rewrite Nat.add_1_r in IH. rewrite IH.
    by rewrite !str_app_assoc, !str_app_cons, str_app_nil_l.
Qed.

(** Keys whose text cannot begin the scheme. *)
Definition plainKey (sep k : string) : bool := plain (sep +:+ k +:+ "=").

Lemma scan_param pre sep kv t :
  plainKey sep kv.1 = true ->
  scanStarts (pre +:+ formatParam sep kv +:+ t) (formatParam sep kv +:+ t) (String.length pre) false false =
  scanStarts (pre +:+ formatParam sep kv +:+ t) t (String.length (pre +:+ formatParam sep kv)) false false.
Proof.
  intros Hk. unfold formatParam, quoted.
  assert (forall r, (sep +:+ kv.1 +:+ "=" +:+ String dquote (escape kv.2 +:+ String dquote "")) +:+ r
    = (sep +:+ kv.1 +:+ "=") +:+ String dquote (escape kv.2 +:+ String dquote r)) as E.
  { intros r. by str_norm. }
  rewrite E, scan_plain by done. cbn [scanStarts]. replace (Ascii.eqb dquote dquote) with true by done.
  destruct (scan_quoted (pre +:+ (sep +:+ kv.1 +:+ "=") +:+ String dquote (escape kv.2 +:+ String dquote t))
    kv.2 t (S (String.length (pre +:+ sep +:+ kv.1 +:+ "=")))) as (j & Hj & ->).
  f_equal. rewrite Hj, !str_length_app. simpl. rewrite !str_length_app. simpl. lia.
Qed.

Lemma scan_params pre sep kvs t :
  (forall kv, kv ∈ kvs -> plainKey sep kv.1 = true /\ plainKey ", " kv.1 = true) ->
  scanStarts (pre +:+ formatParams sep kvs +:+ t) (formatParams sep kvs +:+ t) (String.length pre) false false =
  scanStarts (pre +:+ formatParams sep kvs +:+ t) t (String.length (pre +:+ formatParams sep kvs)) false false.
Proof.
  revert pre sep. induction kvs as [|kv kvs IH]; intros pre sep Hk.
  - cbn [formatParams]. by rewrite str_app_nil_l, str_app_nil_r.
  - cbn [formatParams]. rewrite !str_app_assoc.
    rewrite scan_param by (apply Hk; set_solver).
    specialize (IH (pre +:+ formatParam sep kv) ", "). rewrite !str_app_assoc in IH.
    rewrite IH; [done|]. intros kv' Hin. split; apply Hk; set_solver.
Qed.

Definition boundary (pre : string) : Prop := pre = "" \/ exists p, pre = p +:+ ", ".

Lemma get_app_r pre s i : String.get (String.length pre + i) (pre +:+ s) = String.get i s.
Proof. induction pre as [|c pre IH]; [done|]. rewrite str_app_cons. simpl. exact IH. Qed.

Lemma get_app_0 pre c s : String.get (String.length pre) (pre +:+ String c s) = Some c.
Proof. rewrite <- (Nat.add_0_r (String.length pre)). by rewrite get_app_r. Qed.

Lemma skipBack_boundary pre s :
  boundary pre ->
  match skipBack (pre +:+ s) (String.length pre) with
  | O => true
  | S p => match String.get p (pre +:+ s) with Some b => Ascii.eqb b "," | None => false end
  end = true.
Proof.
  intros [->|[p ->]]; [done|]. rewrite str_length_app. simpl String.length. rewrite Nat.add_comm.
  cbn [Nat.add skipBack].
  assert (String.get (S (String.length p)) ((p +:+ ", ") +:+ s) = Some " "%char) as ->.
  { rewrite str_app_assoc. rewrite <- Nat.add_1_r. rewrite get_app_r. done. }
  assert (String.get (String.length p) ((p +:+ ", ") +:+ s) = Some ","%char) as H.
  { rewrite str_app_assoc. apply get_app_0. }
  cbn [isHTTPWhitespace]. replace (isHTTPWhitespace " ") with true by done.
  rewrite H. replace (isHTTPWhitespace ",") with false by done. by rewrite H.
Qed.

Lemma scheme_start pre t :
  boundary pre -> isPaymentSchemeStart (pre +:+ paymentScheme +:+ String " " t) (String.length pre) = true.
Proof.
  intros Hb. unfold isPaymentSchemeStart.
  assert (str_take (String.length paymentScheme)
    (str_drop (String.length pre) (pre +:+ paymentScheme +:+ String " " t)) = paymentScheme) as ->
    by (by rewrite str_drop_app, str_take_app).
  rewrite (proj2 (Nat.leb_gt _ _))
    by (rewrite !str_length_app; cbn [String.length]; lia).
  replace (EqualFold paymentScheme paymentScheme) with true by done. cbn [negb].
  rewrite get_app_r, get_app_0. replace (isHTTPWhitespace " ") with true by done. cbn [negb].
  by apply skipBack_boundary.
Qed.

Lemma challengeParams_keys c :
  forall kv, kv ∈ challengeParams c ->
    plainKey " " kv.1 = true /\ plainKey ", " kv.1 = true /\ goodKey kv.1.
Proof.
  intros kv Hin. unfold challengeParams in Hin. apply elem_of_app in Hin as [Hin|Hin].
  2: apply list_elem_of_filter in Hin as [_ Hin].
  all: repeat (apply elem_of_cons in Hin as [->|Hin]; [by split_and!; vm_compute|]).
  all: by apply elem_of_nil in Hin.
Qed.

Lemma formatChallenge_space c : exists t, formatChallenge c = paymentScheme +:+ String " " t.
Proof.
  unfold formatChallenge, challengeParams. cbn [app formatParams]. unfold formatParam. cbn [fst].
  eexists. rewrite str_app_assoc. reflexivity.
Qed.

Lemma scan_start bytes c rest i :
  Ascii.eqb c dquote = false -> isPaymentSchemeStart bytes i = true ->
  scanStarts bytes (String c rest) i false false = i :: scanStarts bytes rest (S i) false false.
Proof. intros H1 H2. cbn [scanStarts]. by rewrite H1, H2. Qed.

Lemma length_snoc_char s c : String.length (s +:+ String c "") = S (String.length s).
Proof. rewrite str_length_app. cbn [String.length]. lia. Qed.

(** Past the scheme of a challenge no other start is found in it. *)
Lemma scan_challenge pre c t :
  boundary pre ->
  scanStarts (pre +:+ formatChallenge c +:+ t) (formatChallenge c +:+ t) (String.length pre) false false =
  String.length pre ::
  scanStarts (pre +:+ formatChallenge c +:+ t) t (String.length (pre +:+ formatChallenge c)) false false.
Proof.
  intros Hb. destruct (formatChallenge_space c) as [u Hu].
  assert (isPaymentSchemeStart (pre +:+ formatChallenge c +:+ t) (String.length pre) = true) as Hstart.
  { rewrite Hu, str_app_assoc, str_app_cons. by apply scheme_start. }
  pose proof (scan_params (pre +:+ paymentScheme) " " (challengeParams c) t) as Hp.
  pose proof (scan_plain (pre +:+ "P") "ayment" (formatParams " " (challengeParams c) +:+ t) eq_refl) as Hm.
  assert ((pre +:+ "P") +:+ "ayment" +:+ formatParams " " (challengeParams c) +:+ t
    = pre +:+ formatChallenge c +:+ t) as E1 by (unfold formatChallenge, paymentScheme; by str_norm).
  assert ((pre +:+ paymentScheme) +:+ formatParams " " (challengeParams c) +:+ t
    = pre +:+ formatChallenge c +:+ t) as E2 by (unfold formatChallenge, paymentScheme; by str_norm).
  rewrite E1 in Hm. rewrite E2 in Hp.
  assert (formatChallenge c +:+ t = String "P" ("ayment" +:+ formatParams " " (challengeParams c) +:+ t)) as E3
    by (unfold formatChallenge, paymentScheme; by str_norm).
  rewrite E3 at 2. rewrite scan_start by done. f_equal.
  rewrite length_snoc_char in Hm. rewrite Hm.
  replace ((pre +:+ "P") +:+ "ayment") with (pre +:+ paymentScheme) by (unfold paymentScheme; by str_norm).
  rewrite Hp.
  - unfold formatChallenge. by str_norm.
  - intros kv Hin. apply challengeParams_keys in Hin. tauto.
Qed.

Fixpoint startsOf (n : nat) (cs : list Challenge) : list nat :=
  match cs with
  | [] => []
  | c :: cs => n :: startsOf (n + String.length (formatChallenge c) + 2) cs
  end.

Lemma formatChallenges_cons c cs :
  formatChallenges (c :: cs)
  = formatChallenge c +:+ (match cs with [] => "" | _ => ", " end) +:+ formatChallenges cs.
Proof. destruct cs; [|done]. cbn [formatChallenges]. by rewrite !str_app_nil_r. Qed.

Lemma scan_challenges cs pre :
  boundary pre ->
  scanStarts (pre +:+ formatChallenges cs) (formatChallenges cs) (String.length pre) false false
  = startsOf (String.length pre) cs.
Proof.
  revert pre. induction cs as [|c cs IH]; intros pre Hb; [done|].
  rewrite formatChallenges_cons, scan_challenge by done. cbn [startsOf]. f_equal.
  destruct cs as [|c' cs]; [done|].
  pose proof (scan_plain (pre +:+ formatChallenge c) ", " (formatChallenges (c' :: cs)) eq_refl) as Hp.
  rewrite (str_app_assoc pre (formatChallenge c)) in Hp. rewrite Hp.
  specialize (IH ((pre +:+ formatChallenge c) +:+ ", ")).
  assert (((pre +:+ formatChallenge c) +:+ ", ") +:+ formatChallenges (c' :: cs)
    = pre +:+ formatChallenge c +:+ ", " +:+ formatChallenges (c' :: cs)) as E by (by rewrite !str_app_assoc).
  rewrite E in IH. rewrite IH by (right; by eexists). f_equal. rewrite !str_length_app. simpl. lia.
Qed.

Lemma formatParams_end sep kvs :
  kvs <> [] -> exists n, formatParams sep kvs = n +:+ String dquote "".
Proof.
  revert sep. induction kvs as [|kv kvs IH]; intros sep Hne; [done|]. cbn [formatParams].
  destruct kvs as [|kv' kvs].
  - exists (sep +:+ kv.1 +:+ "=" +:+ String dquote (escape kv.2)). cbn [formatParams].
    rewrite str_app_nil_r. unfold formatParam, quoted. by str_norm.
  - destruct (IH ", ") as [n Hn]; [done|]. rewrite Hn. exists (formatParam sep kv +:+ n).
    by rewrite str_app_assoc.
Qed.

Lemma formatChallenge_end c : exists n, formatChallenge c = n +:+ String dquote "".
Proof.
  destruct (formatParams_end " " (challengeParams c)) as [n Hn]; [done|].
  exists (paymentScheme +:+ n). unfold formatChallenge. by rewrite Hn, str_app_assoc.
Qed.

Lemma TrimRightByte_end c n d : d <> c -> TrimRightByte c (n +:+ String d "") = n +:+ String d "".
Proof.
  intros Hne. induction n as [|a n IH].
  - rewrite str_app_nil_l. cbn [TrimRightByte]. by rewrite (proj2 (Ascii.eqb_neq _ _) Hne).
  - rewrite str_app_cons. cbn [TrimRightByte]. rewrite IH.
    destruct n; [done|by rewrite str_app_cons].
Qed.

(** The chunks of a value, the comma after all but the last kept. *)
Fixpoint chunksOf (cs : list Challenge) : list string :=
  match cs with
  | [] => []
  | [c] => [formatChallenge c]
  | c :: cs => (formatChallenge c +:+ ",") :: chunksOf cs
  end.

Lemma chunk_text c tail r :
  tail = "" \/ tail = "," -> str_forall blank r = true ->
  TrimSpace ((formatChallenge c +:+ tail) +:+ r) = formatChallenge c +:+ tail.
Proof.
  intros Ht Hr. destruct (formatChallenge_space c) as [u Hu], (formatChallenge_end c) as [n Hn].
  rewrite <- (str_app_nil_l ((formatChallenge c +:+ tail) +:+ r)).
  assert (formatChallenge c +:+ tail = String "P" ("ayment" +:+ String " " u +:+ tail)) as E1
    by (rewrite Hu; unfold paymentScheme; by str_norm).
  destruct Ht as [->| ->].
  - eapply (TrimSpace_ends "" _ r _ _ dquote n); [done|done|exact E1| |done|done].
    by rewrite str_app_nil_r.
  - eapply (TrimSpace_ends "" _ r _ _ "," (formatChallenge c)); [done|done|exact E1|done|done|done].
Qed.

Lemma formatChallenge_nonempty c tail : formatChallenge c +:+ tail <> "".
Proof. destruct (formatChallenge_space c) as [u ->]. unfold paymentScheme. by rewrite str_app_assoc, str_app_cons. Qed.

Lemma cut_challenges cs pre :
  cutChunks (pre +:+ formatChallenges cs) (startsOf (String.length pre) cs) = chunksOf cs.
Proof.
  revert pre. induction cs as [|c cs IH]; intros pre; [done|]. cbn [startsOf cutChunks].
  destruct cs as [|c' cs].
  - cbn [startsOf formatChallenges chunksOf cutChunks]. rewrite str_drop_app, str_length_app.
    replace (String.length pre + String.length (formatChallenge c) - String.length pre)%nat
      with (String.length (formatChallenge c)) by lia.
    assert (str_take (String.length (formatChallenge c)) (formatChallenge c) = formatChallenge c) as ->
      by (pose proof (str_take_app (formatChallenge c) "") as H; by rewrite str_app_nil_r in H).
    destruct (formatChallenge_end c) as [n Hn].
    assert (TrimRightByte "," (formatChallenge c) = formatChallenge c) as ->
      by (rewrite Hn; by apply TrimRightByte_end).
    pose proof (chunk_text c "" "" (or_introl eq_refl) eq_refl) as Ht. rewrite !str_app_nil_r in Ht.
    rewrite Ht. rewrite bool_decide_eq_false_2; [done|].
    pose proof (formatChallenge_nonempty c "") as Hne. by rewrite str_app_nil_r in Hne.
  - rewrite formatChallenges_cons. cbn [startsOf].
    assert (str_take (String.length pre + String.length (formatChallenge c) + 2 - String.length pre)
      (str_drop (String.length pre) (pre +:+ formatChallenge c +:+ ", " +:+ formatChallenges (c' :: cs)))
      = (formatChallenge c +:+ ",") +:+ " ") as ->.
    { rewrite str_drop_app, <- str_app_assoc.
      replace (String.length pre + String.length (formatChallenge c) + 2 - String.length pre)%nat
        with (String.length (formatChallenge c +:+ ", ")) by (rewrite str_length_app; simpl; lia).
      rewrite str_take_app. by str_norm. }
    rewrite TrimRightByte_end by done.
    rewrite chunk_text by (auto; done). rewrite bool_decide_eq_false_2 by apply formatChallenge_nonempty.
    change (chunksOf (c :: c' :: cs)) with ((formatChallenge c +:+ ",") :: chunksOf (c' :: cs)). f_equal.
    specialize (IH ((pre +:+ formatChallenge c) +:+ ", ")).
    rewrite !str_length_app in IH. rewrite !str_app_assoc in IH. exact IH.
Qed.

Lemma split_challenges cs : splitPaymentChallengeValues (formatChallenges cs) = chunksOf cs.
Proof.
  unfold splitPaymentChallengeValues. pose proof (scan_challenges cs "" (or_introl eq_refl)) as Hs.
  pose proof (cut_challenges cs "") as Hc. rewrite str_app_nil_l in Hs, Hc. simpl String.length in *.
  by rewrite Hs.
Qed.

Section Roundtrip.
Context `{J : MppJSON} (unicodeLower : string -> string).

(** A challenge a server may send: the required fields are there, method and
    intent are in lower case, the request is base64url of valid JSON. *)
Record wireChallenge (c : Challenge) : Prop := {
  wc_id : cID c <> "";
  wc_realm : cRealm c <> "";
  wc_method : cMethod c <> "" /\ ToLower unicodeLower (cMethod c) = cMethod c;
  wc_intent : cIntent c <> "" /\ ToLower unicodeLower (cIntent c) = cIntent c;
  wc_request : cRequest c <> "";
  wc_json : exists raw, base64URLDecode (cRequest c) = Some raw /\ jsonValid raw = true
}.

Lemma challengeParams_nodup c : NoDup (challengeParams c).*1.
Proof.
  assert (sublist (challengeParams c).*1
    ["id"; "realm"; "method"; "intent"; "request"; "expires"; "description"; "digest"; "opaque"]) as Hs.
  { unfold challengeParams. rewrite fmap_app. cbn [fmap list_fmap fst].
    repeat apply sublist_skip. change ["expires"; "description"; "digest"; "opaque"] with
      ([("expires", cExpires c); ("description", cDescription c); ("digest", cDigest c);
        ("opaque", cOpaque c)].*1). apply fmap_sublist, sublist_filter. }
  eapply sublist_NoDup; [|exact Hs]. apply (bool_decide_unpack _). vm_compute. exact I.
Qed.

Lemma challengeParams_lookup c k v :
  (k, v) ∈ challengeParams c ->
  default "" ((list_to_map (challengeParams c) : gmap string string) !! k) = v.
Proof.
  intros Hin. rewrite (elem_of_list_to_map_1 _ k v); [done|apply challengeParams_nodup|done].
Qed.

Lemma challengeParams_missing c k :
  k ∉ (challengeParams c).*1 ->
  default "" ((list_to_map (challengeParams c) : gmap string string) !! k) = "".
Proof. intros Hn. by rewrite (not_elem_of_list_to_map_1 _ k). Qed.

(** An optional parameter reads back, present or not. *)
Lemma challengeParams_optional c k v :
  (k, v) ∈ [("expires", cExpires c); ("description", cDescription c); ("digest", cDigest c);
    ("opaque", cOpaque c)] ->
  default "" ((list_to_map (challengeParams c) : gmap string string) !! k) = v.
Proof.
  intros Hin. destruct (decide (v = "")) as [->|Hne].
  - apply challengeParams_missing. intros Hk. apply list_elem_of_fmap in Hk as ([k' v'] & -> & Hk).
    cbn [fst] in Hin. unfold challengeParams in Hk. apply elem_of_app in Hk as [Hk|Hk].
    + repeat (apply elem_of_cons in Hk as [Hk|Hk]; [injection Hk as -> ->; set_solver|]).
      by apply elem_of_nil in Hk.
    + apply list_elem_of_filter in Hk as [Hv Hk]. cbn [snd] in Hv.
      repeat (apply elem_of_cons in Hk as [Hk|Hk]; [injection Hk as -> ->; set_solver|]).
      by apply elem_of_nil in Hk.
  - apply challengeParams_lookup. unfold challengeParams. apply elem_of_app. right.
    apply list_elem_of_filter. done.
Qed.

Lemma parse_challenge c tail :
  tail = "" \/ tail = "," -> wireChallenge c ->
  ParseWWWAuthenticate unicodeLower (formatChallenge c +:+ tail) = Ok c.
Proof.
  intros Ht [W1 W2 [W3 W3'] [W4 W4'] W5 (raw & W6 & W7)]. unfold ParseWWWAuthenticate.
  pose proof (chunk_text c tail "" Ht eq_refl) as Htrim. rewrite str_app_nil_r in Htrim. rewrite Htrim.
  assert (formatChallenge c +:+ tail
    = paymentScheme +:+ " " +:+ formatParams "" (challengeParams c) +:+ tail) as E.
  { unfold formatChallenge. by rewrite str_app_assoc. }
  rewrite E. rewrite (proj2 (Nat.ltb_ge _ _)) by (rewrite str_length_app; lia).
  rewrite str_take_app. replace (EqualFold paymentScheme paymentScheme) with true by done.
  cbn [orb negb]. rewrite (str_app_cons " " ""), get_app_0.
  replace (isHTTPWhitespace " ") with true by done. cbn [negb].
  rewrite str_drop_app, str_app_nil_l.
  assert (TrimSpace (String " " (formatParams "" (challengeParams c) +:+ tail))
    = formatParams "" (challengeParams c) +:+ tail) as ->.
  { destruct (formatParams_end "" (challengeParams c)) as [n Hn]; [done|].
    pose proof (TrimSpace_ends " " (formatParams "" (challengeParams c) +:+ tail) "") as Hts.
    rewrite str_app_nil_r, str_app_cons, str_app_nil_l in Hts.
    destruct Ht as [->| ->].
    - eapply (Hts _ _ dquote n); [done|done|reflexivity|by rewrite str_app_nil_r|done|done].
    - eapply (Hts _ _ ","%char (formatParams "" (challengeParams c)));
        [done|done|reflexivity|reflexivity|done|done]. }
  rewrite parseAuthParams_format; [|done|by destruct Ht as [->| ->]|apply challengeParams_nodup|].
  2:{ apply Forall_fmap, Forall_forall. intros kv Hin. apply challengeParams_keys in Hin. apply Hin. }
  rewrite (challengeParams_optional c "expires" (cExpires c)) by set_solver.
  rewrite (challengeParams_optional c "description" (cDescription c)) by set_solver.
  rewrite (challengeParams_optional c "digest" (cDigest c)) by set_solver.
  rewrite (challengeParams_optional c "opaque" (cOpaque c)) by set_solver.
  rewrite (challengeParams_lookup c "id" (cID c)) by (unfold challengeParams; set_solver).
  rewrite (challengeParams_lookup c "realm" (cRealm c)) by (unfold challengeParams; set_solver).
  rewrite (challengeParams_lookup c "method" (cMethod c)) by (unfold challengeParams; set_solver).
  rewrite (challengeParams_lookup c "intent" (cIntent c)) by (unfold challengeParams; set_solver).
  rewrite (challengeParams_lookup c "request" (cRequest c)) by (unfold challengeParams; set_solver).
  rewrite W3', W4'. cbn [cID cRealm cMethod cIntent cRequest].
  rewrite !bool_decide_eq_false_2 by done. cbn [orb]. rewrite W6, W7. by destruct c.
Qed.

Lemma parse_chunks cs acc :
  Forall wireChallenge cs ->
  foldl (parseChunk unicodeLower) (acc, None) (chunksOf cs) = (acc ++ cs, None).
Proof.
  intros Hw. revert acc. induction Hw as [|c cs Hc Hw IH]; intros acc; [by rewrite app_nil_r|].
  destruct cs as [|c' cs].
  - cbn [chunksOf foldl]. unfold parseChunk.
    pose proof (parse_challenge c "" (or_introl eq_refl) Hc) as E. rewrite str_app_nil_r in E.
    by rewrite E.
  - change (chunksOf (c :: c' :: cs)) with ((formatChallenge c +:+ ",") :: chunksOf (c' :: cs)).
    cbn [foldl]. unfold parseChunk at 2. rewrite parse_challenge by auto. cbn [fst snd].
    rewrite IH. by rewrite <- (assoc_L (++)).
Qed.

(** The challenges a server puts in one [WWW-Authenticate]
    value, with any characters in their quoted parameters (commas, quotes,
    backslashes, even the text of another challenge), are read back exactly and
    in order. *)
Theorem mpp_challenges_roundtrip cs :
  Forall wireChallenge cs -> ParseChallenges unicodeLower [formatChallenges cs] = Ok cs.
Proof.
  intros Hw. unfold ParseChallenges. cbn [foldl]. rewrite split_challenges, parse_chunks by done.
  by destruct cs.
Qed.

End Roundtrip.

(** The JSON of the demonstration: every text is valid, none decodes. *)
Definition demoJSON : MppJSON :=
  {| jsonChargeRequest := fun _ => None; jsonMethodDetails := fun _ => None;
     jsonMppReceipt := fun _ => None; jsonValid := fun _ => true; jsonCredential := fun _ => "{}" |}.

Definition demo_challenge : Challenge :=
  mkChallenge "c1" "a\b, Payment id=x" "solana" "charge" "e30" "" "" "" "".

Lemma demo_challenge_wire : @wireChallenge demoJSON (fun s => s) demo_challenge.
Proof. split; try (by vm_compute). exists "{}". by vm_compute. Qed.

Lemma mpp_challenges_roundtrip_witness :
  @ParseChallenges demoJSON (fun s => s) [formatChallenges [demo_challenge; demo_challenge]]
  = Ok [demo_challenge; demo_challenge].
Proof.
  exact (@mpp_challenges_roundtrip demoJSON (fun s => s) [demo_challenge; demo_challenge]
    (Forall_cons_2 _ _ _ demo_challenge_wire (Forall_cons_2 _ _ _ demo_challenge_wire (Forall_nil_2 _)))).
Defined.
