(* ===== verification/X402Budget.v ===== *)
(** * Spending caps of the x402 payments (pkg/x402/budget.go)

    Amounts are micro-USDC integers ([big.Int], here [Z]) parsed from and
    printed to decimal strings.  A [Budget] keeps the caps of each agent, what
    it spent on the current day and the receipt log.  The calendar day of
    [Format("2006-01-02")] is the number of the UTC day, which determines it.
    The readings of the clock are arguments. *)

From Stdlib Require Import Ascii.
From stdpp Require Import base numbers list gmap strings.
From S2P Require Import Prelude GoStrings GoStrconv.

Definition usdcDecimals : nat := 6.

(** ** Amounts *)

Definition is_digit (c : ascii) : bool := in_range 48 57 (byte_of c).

Definition isAllDigits (s : string) : bool :=
  if bool_decide (s = "") then false else str_forall is_digit s.

(** [strings.Repeat("0", n)] *)
Fixpoint zeros (n : nat) : string :=
  match n with O => "" | S n' => String "0" (zeros n') end.

(** [SetString(s, 10)] on digits. *)
Definition digits_value (s : string) : option Z := parse_digits 0 s.

Definition parseUSDC (s : string) : result string Z :=
  let s := TrimSpace s in
  if bool_decide (s = "") then Err "empty amount"
  else
    let '(whole, frac) := match CutByte s "." with
      | Some (w, f) => (TrimSpace w, TrimSpace f)
      | None => (TrimSpace s, "")
      end in
    let whole := if bool_decide (whole = "") then "0" else whole in
    if negb (isAllDigits whole) then Err "invalid whole part"
    else if bool_decide (frac <> "") && negb (isAllDigits frac) then Err "invalid fractional part"
    else if (usdcDecimals <? String.length frac)%nat then Err "too many decimal places"
    else
      let frac := frac +:+ zeros (usdcDecimals - String.length frac) in
      match digits_value (trim_zeros (whole +:+ frac)) with
      | None => Err "parse amount"
      | Some v => Ok v
      end.

(** [v.String()] of a non-negative [big.Int]. *)
Definition bigString (v : Z) : string := trim_zeros (pad_dec (S (Z.to_nat (Z.log2 v))) v).

(** [for len(s) <= usdcDecimals { s = "0" + s }] *)
Definition padLeft (s : string) : string := zeros (S usdcDecimals - String.length s) +:+ s.

(** [strings.TrimRight(s, "0")] *)
Fixpoint trimRight0 (s : string) : string :=
  match s with
  | EmptyString => ""
  | String c s' =>
      match trimRight0 s' with
      | EmptyString => if Ascii.eqb c "0" then "" else String c ""
      | t => String c t
      end
  end.

(** [None] is the nil pointer. *)
Definition formatUSDC (v : option Z) : string :=
  match v with
  | None => "0"
  | Some v =>
      let s := padLeft (bigString v) in
      let whole := str_take (String.length s - usdcDecimals) s in
      let frac := trimRight0 (str_drop (String.length s - usdcDecimals) s) in
      if bool_decide (frac = "") then whole else whole +:+ "." +:+ frac
  end.

Definition CompareUSDC (a b : string) : result string Z :=
  match parseUSDC a, parseUSDC b with
  | Err e, _ => Err ("compare a: " +:+ e)
  | _, Err e => Err ("compare b: " +:+ e)
  | Ok av, Ok bv => Ok (if av <? bv then -1 else if bv <? av then 1 else 0)
  end.

(** ** The budget *)

Record BudgetConfig := mkBudgetConfig {
  PerCallMaxUSDC : string;
  DailyCapUSDC : string;
  PerService : gmap string string
}.

Record Receipt := mkReceipt {
  rTs : Time;
  rAgentID : string;
  rServiceID : string;
  rPath : string;
  rTx : string;
  rNetwork : string;
  rAmountUSDC : string;
  rMaxPriceUSDC : string
}.

Record parsedBudget := mkParsed {
  perCallMax : option Z;     (** pointers; [None] is nil *)
  dailyCap : option Z;
  perService : gmap string Z
}.

Record spendDay := mkSpendDay { sdDay : Z; sdTotal : Z; sdPer : gmap string Z }.

(** The store is the list of receipts on disk, [None] without a store. *)
Record Budget := mkBudget {
  agentConfig : gmap string parsedBudget;
  spentToday : gmap string spendDay;
  receipts : list Receipt;
  store : option (list Receipt)
}.

(** The calendar day in UTC. *)
Definition dayOf (t : Time) : Z := t / (24 * hour).

Definition NewBudget (store : option (list Receipt)) : Budget :=
  mkBudget ∅ ∅ (default [] store) store.

Inductive BudgetErr :=
| ErrInvalid (msg : string)
| ErrPriceQuoteTooHigh
| ErrBudgetExceeded (what : string).

#[export] Instance BudgetErr_eq_dec : EqDecision BudgetErr.
Proof. solve_decision. Defined.

(** One entry of the loop; an error returns from the function. *)
Definition parsePerServiceEntry (acc : result string (gmap string Z)) (entry : string * string)
  : result string (gmap string Z) :=
  let '(serviceID, capStr) := entry in
  match acc with
  | Err e => Err e
  | Ok out =>
      match parseUSDC capStr with
      | Err e => Err ("per_service[" +:+ serviceID +:+ "]: " +:+ e)
      | Ok v => Ok (<[serviceID := v]> out)
      end
  end.

Definition parsePerService (m : list (string * string)) : result string (gmap string Z) :=
  foldl parsePerServiceEntry (Ok ∅) m.

Definition parseBudget (cfg : BudgetConfig) : result string parsedBudget :=
  match parseUSDC (PerCallMaxUSDC cfg) with
  | Err e => Err ("per_call_max_usdc: " +:+ e)
  | Ok call =>
      match parseUSDC (DailyCapUSDC cfg) with
      | Err e => Err ("daily_cap_usdc: " +:+ e)
      | Ok day =>
          match parsePerService (map_to_list (PerService cfg)) with
          | Err e => Err e
          | Ok per => Ok (mkParsed (Some call) (Some day) per)
          end
      end
  end.

Definition SetAgentBudget (b : Budget) (agentID : string) (cfg : BudgetConfig)
  : Budget * result string unit :=
  match parseBudget cfg with
  | Err e => (b, Err e)
  | Ok parsed =>
      (mkBudget (<[agentID := parsed]> (agentConfig b)) (spentToday b) (receipts b) (store b), Ok tt)
  end.

(** [dayLocked]: the record of the day, zeroed when the day changed. *)
Definition dayLocked (now : Time) (b : Budget) (agentID : string) : Budget * spendDay :=
  let fresh := mkSpendDay (dayOf now) 0 ∅ in
  match spentToday b !! agentID with
  | Some d =>
      if Z.eqb (sdDay d) (dayOf now) then (b, d)
      else (mkBudget (agentConfig b) (<[agentID := fresh]> (spentToday b)) (receipts b) (store b), fresh)
  | None =>
      (mkBudget (agentConfig b) (<[agentID := fresh]> (spentToday b)) (receipts b) (store b), fresh)
  end.

(** [cap != nil && v.Cmp(cap) > 0] *)
Definition exceeds (v : Z) (cap : option Z) : bool :=
  match cap with Some c => c <? v | None => false end.

Definition Authorize (now : Time) (b : Budget) (agentID serviceID agentMaxPrice serverQuote : string)
  : Budget * result BudgetErr unit :=
  match parseUSDC agentMaxPrice with
  | Err e => (b, Err (ErrInvalid ("invalid max_price_usdc: " +:+ e)))
  | Ok max =>
      match parseUSDC serverQuote with
      | Err e => (b, Err (ErrInvalid ("invalid server quote: " +:+ e)))
      | Ok quote =>
          if max <? quote then (b, Err ErrPriceQuoteTooHigh)
          else match agentConfig b !! agentID with
               | None => (b, Err (ErrBudgetExceeded "no budget configured"))
               | Some cfg =>
                   if exceeds quote (perCallMax cfg) then (b, Err (ErrBudgetExceeded "per-call cap"))
                   else
                     let '(b, day) := dayLocked now b agentID in
                     if exceeds (sdTotal day + quote) (dailyCap cfg)
                     then (b, Err (ErrBudgetExceeded "daily cap"))
                     else if exceeds (default 0 (sdPer day !! serviceID) + quote)
                               (perService cfg !! serviceID)
                     then (b, Err (ErrBudgetExceeded "per-service daily cap"))
                     else (b, Ok tt)
               end
      end
  end.

(** [if receipt.Ts.IsZero() { receipt.Ts = b.clock().UTC() }] *)
Definition stamped (ts : Time) (r : Receipt) : Receipt :=
  if time_IsZero (rTs r)
  then mkReceipt ts (rAgentID r) (rServiceID r) (rPath r) (rTx r) (rNetwork r)
         (rAmountUSDC r) (rMaxPriceUSDC r)
  else r.

(** [nowDay] and [nowTs] are the two readings of the clock; [persisted] is
    false when the append to the store fails, which is ignored. *)
Definition Charge (nowDay nowTs : Time) (persisted : bool) (b : Budget) (r : Receipt)
  : Budget * result BudgetErr unit :=
  match parseUSDC (rAmountUSDC r) with
  | Err e => (b, Err (ErrInvalid ("invalid receipt amount: " +:+ e)))
  | Ok amount =>
      let '(b, day) := dayLocked nowDay b (rAgentID r) in
      let day := mkSpendDay (sdDay day) (sdTotal day + amount)
        (<[rServiceID r := default 0 (sdPer day !! rServiceID r) + amount]> (sdPer day)) in
      let r' := stamped nowTs r in
      (mkBudget (agentConfig b) (<[rAgentID r := day]> (spentToday b)) (receipts b ++ [r'])
         (if persisted then (fun l => l ++ [r']) <$> store b else store b), Ok tt)
  end.

Definition Receipts (b : Budget) (agentID : string) : list Receipt :=
  filter (fun r => rAgentID r = agentID) (receipts b).

Definition AllReceipts (b : Budget) : list Receipt := reverse (receipts b).

Record BudgetSnapshot := mkBudgetSnapshot {
  bsPerCallMaxUSDC : string;
  bsDailyCapUSDC : string;
  bsSpentTodayUSDC : string;
  bsPerService : list (string * string * string)   (** service, cap, spent *)
}.

Definition BudgetStatus (now : Time) (b : Budget) (agentID : string) : Budget * BudgetSnapshot :=
  match agentConfig b !! agentID with
  | None => (b, mkBudgetSnapshot "" "" "" [])
  | Some cfg =>
      let '(b, day) := dayLocked now b agentID in
      (b, mkBudgetSnapshot (formatUSDC (perCallMax cfg)) (formatUSDC (dailyCap cfg))
        (formatUSDC (Some (sdTotal day)))
        (map (fun '(serviceID, cap) =>
           (serviceID, formatUSDC (Some cap),
            formatUSDC (Some (default 0 (sdPer day !! serviceID)))))
           (map_to_list (perService cfg))))
  end.

(** The largest pointer, nil below everything. *)
Definition maxPtr (acc v : option Z) : option Z :=
  match v with
  | None => acc
  | Some x => match acc with
              | None => Some x
              | Some y => if y <? x then Some x else acc
              end
  end.

(** [AggregateStatus]: per-call cap, daily cap, spent today, agents. *)
Definition AggregateStatus (now : Time) (b : Budget) : string * string * string * Z :=
  let cfgs := map_to_list (agentConfig b) in
  let call := foldl (fun acc '(_, cfg) => maxPtr acc (perCallMax cfg)) None cfgs in
  let cap := foldl (fun acc '(_, cfg) => maxPtr acc (dailyCap cfg)) None cfgs in
  let spent := foldl (fun acc '(agentID, _) =>
    match spentToday b !! agentID with
    | Some d => if Z.eqb (sdDay d) (dayOf now) then Some (default 0 acc + sdTotal d) else acc
    | None => acc
    end) None cfgs in
  (formatUSDC call, formatUSDC cap, formatUSDC spent, Z.of_nat (size (agentConfig b))).

(** ** Printing and parsing *)

Lemma is_digit_char d : 0 <= d < 10 -> is_digit (digit_char d) = true.
Proof.
  intros Hd. unfold is_digit, digit_char, in_range. rewrite byte_of_char, uint8_wrap_id by lia.
  by rewrite !(proj2 (Z.leb_le _ _)) by lia.
Qed.

Lemma digit_solid c : is_digit c = true -> solid c = true.
Proof.
  unfold is_digit, solid, in_range. intros [?%Z.leb_le ?%Z.leb_le]%andb_prop.
  by rewrite !(proj2 (Z.leb_le _ _)) by lia.
Qed.

Lemma digit_not_dot c : is_digit c = true -> negb (Ascii.eqb c ".") = true.
Proof. intros H. apply negb_true_iff, Ascii.eqb_neq. by intros ->. Qed.

Lemma trim_zeros_forall P s :
  P "0"%char = true -> str_forall P s = true -> str_forall P (trim_zeros s) = true.
Proof.
  intros H0. induction s as [|c s IH]; [done|]. intros H. cbn [trim_zeros].
  destruct (Ascii.eqb_spec c "0") as [->|]; [|done]. simpl in H. apply andb_prop in H as [_ H].
  specialize (IH H). destruct (trim_zeros s); [simpl; by rewrite H0|done].
Qed.

Lemma bigString_spec v :
  0 <= v -> str_forall is_digit (bigString v) = true /\ digits_value (bigString v) = Some v
    /\ bigString v <> "".
Proof.
  intros Hv. unfold bigString, digits_value. split_and!.
  - apply trim_zeros_forall; [done|]. apply pad_dec_forall; [apply is_digit_char|done].
  - rewrite parse_trim_zeros, parse_pad_dec; [f_equal; lia| |done].
    split; [done|]. rewrite Nat2Z.inj_succ, Z2Nat.id by apply Z.log2_nonneg.
    destruct (Z.eq_dec v 0) as [->|]; [done|].
    pose proof (Z.log2_spec v ltac:(lia)) as [_ Hl]. pose proof (Z.log2_nonneg v).
    eapply Z.lt_le_trans; [exact Hl|]. apply Z.pow_le_mono_l. lia.
  - apply trim_zeros_nonempty. intros E. pose proof (pad_dec_length (S (Z.to_nat (Z.log2 v))) v) as Hl.
    by rewrite E in Hl.
Qed.

Lemma zeros_length n : String.length (zeros n) = n.
Proof. induction n; simpl; auto. Qed.

Lemma zeros_forall P n : P "0"%char = true -> str_forall P (zeros n) = true.
Proof. intros H. induction n; simpl; [done|]. by rewrite H. Qed.

Lemma zeros_value n s : digits_value (zeros n +:+ s) = digits_value s.
Proof.
  unfold digits_value. induction n as [|n IH]; [done|].
  change (zeros (S n)) with (String "0" (zeros n)). rewrite str_app_cons.
  cbn [parse_digits digit_val]. exact IH.
Qed.

Lemma zeros_app m n : zeros (m + n) = zeros m +:+ zeros n.
Proof. induction m as [|m IH]; [done|]. simpl. by rewrite str_app_cons, IH. Qed.

Lemma trimRight0_spec s : exists n, s = trimRight0 s +:+ zeros n.
Proof.
  induction s as [|c s [n IH]]; [by exists 0%nat|]. cbn [trimRight0].
  destruct (trimRight0 s) as [|d t] eqn:E.
  - rewrite str_app_nil_l in IH. destruct (Ascii.eqb_spec c "0") as [->|].
    + exists (S n). by rewrite str_app_nil_l, IH.
    + exists n. by rewrite str_app_cons, str_app_nil_l, IH.
  - exists n. by rewrite str_app_cons, <- IH.
Qed.

Lemma str_forall_app_l P a b : str_forall P (a +:+ b) = true -> str_forall P a = true.
Proof. rewrite str_forall_app. by intros [? _]%andb_prop. Qed.

Lemma isAllDigits_true s : s <> "" -> str_forall is_digit s = true -> isAllDigits s = true.
Proof. intros H1 H2. unfold isAllDigits. by rewrite bool_decide_eq_false_2. Qed.

(** What the parser reads from a whole and a fractional part. *)
Lemma parseUSDC_parts whole frac v :
  whole <> "" -> str_forall is_digit whole = true -> str_forall is_digit frac = true ->
  (String.length frac <= usdcDecimals)%nat ->
  digits_value (whole +:+ frac +:+ zeros (usdcDecimals - String.length frac)) = Some v ->
  parseUSDC (if bool_decide (frac = "") then whole else whole +:+ "." +:+ frac) = Ok v.
Proof.
  intros Hne Hw Hf Hl Hv. pose proof (str_forall_impl _ _ _ digit_solid Hw) as Hws.
  pose proof (str_forall_impl _ _ _ digit_solid Hf) as Hfs.
  pose proof (str_forall_impl _ _ _ digit_not_dot Hw) as Hwd.
  destruct (bool_decide_reflect (frac = "")) as [->|Hfe]; unfold parseUSDC.
  - rewrite (TrimSpace_solid whole) by done. rewrite bool_decide_eq_false_2 by done.
    rewrite CutByte_none, (TrimSpace_solid whole) by done. cbn beta iota.
    rewrite (bool_decide_eq_false_2 (whole = "")) by done.
    rewrite isAllDigits_true by done. unfold digits_value in *. cbn -[trim_zeros parse_digits String.append].
    rewrite parse_trim_zeros by done. cbn -[parse_digits String.append] in Hv. by rewrite Hv.
  - rewrite (TrimSpace_solid (whole +:+ "." +:+ frac)).
    2:{ rewrite !str_forall_app, Hws, Hfs. done. }
    rewrite bool_decide_eq_false_2 by (destruct whole; [done|by rewrite str_app_cons]).
    rewrite (str_app_cons "." "" frac), str_app_nil_l, CutByte_app by done.
    rewrite !TrimSpace_solid by done. cbn beta iota.
    rewrite (bool_decide_eq_false_2 (whole = "")) by done.
    rewrite !isAllDigits_true by done. simpl. rewrite andb_false_r.
    rewrite (proj2 (Nat.ltb_ge _ _)) by done. unfold digits_value in *.
    rewrite parse_trim_zeros by done. by rewrite Hv.
Qed.

(** Printing an amount and parsing it back is exact, for every
    non-negative number of micro-USDC. *)
Theorem x402_usdc_roundtrip v : 0 <= v -> parseUSDC (formatUSDC (Some v)) = Ok v.
Proof.
  intros Hv. destruct (bigString_spec v Hv) as (Hd & Hval & Hne). cbn [formatUSDC].
  set (s := padLeft (bigString v)).
  assert (str_forall is_digit s = true) as Hs
    by (unfold s, padLeft; by rewrite str_forall_app, zeros_forall, Hd).
  assert (digits_value s = Some v) as Hsv by (unfold s, padLeft; by rewrite zeros_value).
  assert (usdcDecimals < String.length s)%nat as Hl
    by (unfold s, padLeft; rewrite str_length_app, zeros_length; lia).
  set (k := (String.length s - usdcDecimals)%nat).
  assert (String.length (str_drop k s) = usdcDecimals) as Hfl by (rewrite str_length_drop; unfold k; lia).
  destruct (trimRight0_spec (str_drop k s)) as [n Hn].
  pose proof (f_equal String.length Hn) as Hln.
  rewrite str_length_app, zeros_length, Hfl in Hln.
  apply parseUSDC_parts.
  - intros E. apply (f_equal String.length) in E. rewrite str_length_take in E by (unfold k; lia).
    simpl in E. unfold k in E. lia.
  - by apply str_forall_take.
  - apply (str_forall_app_l _ _ (zeros n)). rewrite <- Hn. by apply str_forall_drop.
  - lia.
  - replace (usdcDecimals - String.length (trimRight0 (str_drop k s)))%nat with n by lia.
    by rewrite <- Hn, str_take_drop.
Qed.

Lemma x402_usdc_roundtrip_witness : parseUSDC (formatUSDC (Some 12050000)) = Ok 12050000.
Proof. exact (x402_usdc_roundtrip 12050000 ltac:(lia)). Defined.

(** ** The caps over a run of payments *)

(** One paid call as [StreamCall] makes it: [Authorize] against the manifest's
    price, then [Charge] with what the service reported. *)
Record Payment := mkPayment {
  pAuth : Time;        (** the clock read by [Authorize] *)
  pDay : Time;         (** the clocks read by [Charge] *)
  pTs : Time;
  pMax : string;
  pQuote : string;
  pPersisted : bool;
  pReceipt : Receipt
}.

Definition pay (b : Budget) (p : Payment) : Budget * result BudgetErr unit :=
  let r := pReceipt p in
  match Authorize (pAuth p) b (rAgentID r) (rServiceID r) (pMax p) (pQuote p) with
  | (b, Err e) => (b, Err e)
  | (b, Ok _) => Charge (pDay p) (pTs p) (pPersisted p) b r
  end.

Definition payAll (b : Budget) (ps : list Payment) : Budget := foldl (fun b p => (pay b p).1) b ps.

(** A daemon start: the log is loaded, then the agents are configured. *)
Definition boot (st : option (list Receipt)) (cfgs : list (string * BudgetConfig)) : Budget :=
  foldl (fun b '(agentID, cfg) => (SetAgentBudget b agentID cfg).1) (NewBudget st) cfgs.

Definition amountOf (r : Receipt) : Z :=
  match parseUSDC (rAmountUSDC r) with Ok v => v | Err _ => 0 end.

(** What the receipts of the log satisfying [P] add up to. *)
Definition spent (P : Receipt -> bool) (rs : list Receipt) : Z :=
  foldr (fun r acc => if P r then amountOf r + acc else acc) 0 rs.

Definition ofDay (agentID : string) (day : Z) (r : Receipt) : bool :=
  bool_decide (rAgentID r = agentID) && Z.eqb (dayOf (rTs r)) day.

Definition ofServiceDay (agentID serviceID : string) (day : Z) (r : Receipt) : bool :=
  ofDay agentID day r && bool_decide (rServiceID r = serviceID).

(** The stamp [Charge] puts on a receipt. *)
Definition stamp (p : Payment) : Time :=
  if time_IsZero (rTs (pReceipt p)) then pTs p else rTs (pReceipt p).

(** A payment within one day [day] whose service charges at most its quote. *)
Record regular (day : Z) (p : Payment) : Prop := {
  reg_auth : dayOf (pAuth p) = day;
  reg_day : dayOf (pDay p) = day;
  reg_stamp : dayOf (stamp p) = day;
  reg_amount : forall a q, parseUSDC (rAmountUSDC (pReceipt p)) = Ok a ->
    parseUSDC (pQuote p) = Ok q -> a <= q
}.

(** Payments one after the other, the days never going back. *)
Fixpoint schedule (day : Z) (ps : list Payment) : Prop :=
  match ps with
  | [] => True
  | p :: ps => day <= dayOf (pAuth p) /\ regular (dayOf (pAuth p)) p /\ schedule (dayOf (pAuth p)) ps
  end.

(** The counters of the day are what the receipts of the day add up to. *)
Definition counted (rs : list Receipt) (agentID : string) (od : option spendDay) (day : Z) : Prop :=
  match od with
  | None => forall r, r ∈ rs -> rAgentID r <> agentID
  | Some d =>
      sdDay d <= day /\
      (forall r, r ∈ rs -> rAgentID r = agentID -> dayOf (rTs r) <= sdDay d) /\
      spent (ofDay agentID (sdDay d)) rs = sdTotal d /\
      (forall s, spent (ofServiceDay agentID s (sdDay d)) rs = default 0 (sdPer d !! s))
  end.

Definition within (v : Z) (cap : option Z) : Prop := exceeds v cap = false.

(** No day of the agent exceeds a cap. *)
Definition caps_hold (rs : list Receipt) (agentID : string) (cfg : parsedBudget) : Prop :=
  (forall r, r ∈ rs -> rAgentID r = agentID -> within (amountOf r) (perCallMax cfg)) /\
  (forall day, within (spent (ofDay agentID day) rs) (dailyCap cfg)) /\
  (forall s day, within (spent (ofServiceDay agentID s day) rs) (perService cfg !! s)).

Record ledger_ok (day : Z) (b : Budget) : Prop := {
  led_counted : forall a, counted (receipts b) a (spentToday b !! a) day;
  led_caps : forall a cfg, agentConfig b !! a = Some cfg -> caps_hold (receipts b) a cfg
}.

Lemma parse_digits_nonneg s acc v : 0 <= acc -> parse_digits acc s = Some v -> 0 <= v.
Proof.
  revert acc. induction s as [|c s IH]; intros acc Ha H; cbn [parse_digits] in H; [congruence|].
  unfold digit_val in H. destruct (_ && _)%bool eqn:E; [|done].
  apply andb_prop in E as [E1%Z.leb_le E2%Z.leb_le]. eapply IH; [|exact H]. lia.
Qed.

Lemma parseUSDC_nonneg s v : parseUSDC s = Ok v -> 0 <= v.
Proof.
  unfold parseUSDC, digits_value. intros H. case_bool_decide; [done|].
  destruct (match CutByte _ _ with Some _ => _ | None => _ end) as [w f].
  repeat (case_match; try done); simplify_eq;
    (eapply (parse_digits_nonneg _ 0); [|eassumption]; lia).
Qed.

Lemma within_le u v cap : within v cap -> u <= v -> within u cap.
Proof. unfold within, exceeds. destruct cap; [|done]. rewrite !Z.ltb_ge. lia. Qed.

Lemma spent_snoc P rs r : spent P (rs ++ [r]) = spent P rs + (if P r then amountOf r else 0).
Proof. induction rs as [|x rs IH]; simpl; [destruct (P r); lia|]. rewrite IH. destruct (P x), (P r); lia. Qed.

Lemma spent_none P rs : (forall r, r ∈ rs -> P r = false) -> spent P rs = 0.
Proof.
  induction rs as [|x rs IH]; intros H; [done|]. simpl. rewrite (H x) by set_solver.
  apply IH. set_solver.
Qed.

Lemma ofDay_true a day r : ofDay a day r = true <-> rAgentID r = a /\ dayOf (rTs r) = day.
Proof. unfold ofDay. rewrite andb_true_iff, bool_decide_eq_true, Z.eqb_eq. done. Qed.

Lemma ofServiceDay_le a s day r : ofDay a day r = false -> ofServiceDay a s day r = false.
Proof. unfold ofServiceDay. by intros ->. Qed.

Lemma dayLocked_eq now b a :
  (dayLocked now b a).1 = mkBudget (agentConfig b) (<[a := (dayLocked now b a).2]> (spentToday b))
    (receipts b) (store b) /\ sdDay (dayLocked now b a).2 = dayOf now.
Proof.
  unfold dayLocked. destruct (spentToday b !! a) as [d|] eqn:E; [|done].
  destruct (Z.eqb_spec (sdDay d) (dayOf now)); [|done]. simpl. split; [|done].
  rewrite insert_id by done. by destruct b.
Qed.

(** Rolling to the day of the clock keeps the counters right. *)
Lemma counted_dayLocked now b a day :
  counted (receipts b) a (spentToday b !! a) day -> day <= dayOf now ->
  counted (receipts b) a (Some (dayLocked now b a).2) (dayOf now).
Proof.
  intros Hc Hle. unfold dayLocked. destruct (spentToday b !! a) as [d|] eqn:E; simpl in Hc.
  - destruct Hc as (Hd & Hall & Ht & Hs). destruct (Z.eqb_spec (sdDay d) (dayOf now)) as [Hn|Hn]; simpl.
    + split; [lia|done].
    + assert (forall r, r ∈ receipts b -> ofDay a (dayOf now) r = false) as Hnone.
      { intros r Hr. apply not_true_iff_false. rewrite ofDay_true. intros [Ha Hday].
        pose proof (Hall r Hr Ha). lia. }
      split_and!; [lia| |by apply spent_none|].
      * intros r Hr Ha. pose proof (Hall r Hr Ha). lia.
      * intros s. rewrite lookup_empty. apply spent_none. intros r Hr. by apply ofServiceDay_le, Hnone.
  - simpl. split_and!; [lia| | |].
    + intros r Hr Ha. by destruct (Hc r Hr).
    + apply spent_none. intros r Hr. apply not_true_iff_false. rewrite ofDay_true. intros [Ha _].
      by apply (Hc r Hr).
    + intros s. rewrite lookup_empty. apply spent_none. intros r Hr. apply ofServiceDay_le.
      apply not_true_iff_false. rewrite ofDay_true. intros [Ha _]. by apply (Hc r Hr).
Qed.

Lemma counted_later rs a od day day' : counted rs a od day -> day <= day' -> counted rs a od day'.
Proof. destruct od; [|done]. intros (? & ?) ?. split; [lia|done]. Qed.

Lemma ledger_later day day' b : ledger_ok day b -> day <= day' -> ledger_ok day' b.
Proof. intros [H1 H2] Hle. split; [|done]. intros a. by eapply counted_later. Qed.

Lemma ledger_dayLocked now b a :
  ledger_ok (dayOf now) b -> ledger_ok (dayOf now) (dayLocked now b a).1.
Proof.
  intros [Hc Hcaps]. destruct (dayLocked_eq now b a) as [E _]. split; rewrite E; simpl; [|done].
  intros a'. destruct (decide (a' = a)) as [->|Hne].
  - rewrite lookup_insert_eq. eapply counted_dayLocked; [apply Hc|lia].
  - by rewrite lookup_insert_ne.
Qed.

(** What an accepted call was checked against. *)
Lemma Authorize_inv now b a s max q b' :
  Authorize now b a s max q = (b', Ok tt) ->
  exists m v cfg, parseUSDC max = Ok m /\ parseUSDC q = Ok v /\ v <= m /\ agentConfig b !! a = Some cfg /\
    within v (perCallMax cfg) /\ b' = (dayLocked now b a).1 /\
    within (sdTotal (dayLocked now b a).2 + v) (dailyCap cfg) /\
    within (default 0 (sdPer (dayLocked now b a).2 !! s) + v) (perService cfg !! s).
Proof.
  unfold Authorize, within. intros H.
  destruct (parseUSDC max) as [m|] eqn:E1; [|done].
  destruct (parseUSDC q) as [v|] eqn:E2; [|done].
  destruct (m <? v) eqn:E3; [done|]. apply Z.ltb_ge in E3.
  destruct (agentConfig b !! a) as [cfg|] eqn:E4; [|done].
  destruct (exceeds v _) eqn:E5; [done|]. destruct (dayLocked now b a) as [b1 d] eqn:E6.
  destruct (exceeds (sdTotal d + v) _) eqn:E7; [done|].
  destruct (exceeds (default 0 _ + v) _) eqn:E8; [done|]. injection H as <-.
  exists m, v, cfg. done.
Qed.

Lemma Authorize_state now b a s max q :
  (Authorize now b a s max q).1 = b \/ (Authorize now b a s max q).1 = (dayLocked now b a).1.
Proof.
  unfold Authorize. destruct (parseUSDC max), (parseUSDC q); auto.
  destruct (_ <? _); auto. destruct (agentConfig b !! a) as [cfg|]; auto.
  destruct (exceeds _ _); auto. destruct (dayLocked now b a) as [b1 d].
  destruct (exceeds _ _); auto. destruct (exceeds _ _); auto.
Qed.

Lemma stamped_fields ts r :
  rAgentID (stamped ts r) = rAgentID r /\ rServiceID (stamped ts r) = rServiceID r
  /\ amountOf (stamped ts r) = amountOf r
  /\ rTs (stamped ts r) = (if time_IsZero (rTs r) then ts else rTs r).
Proof. unfold stamped. by destruct (time_IsZero (rTs r)). Qed.

(** The counters of one agent after a charge. *)
Definition bumped (d : spendDay) (r : Receipt) : spendDay :=
  mkSpendDay (sdDay d) (sdTotal d + amountOf r)
    (<[rServiceID r := default 0 (sdPer d !! rServiceID r) + amountOf r]> (sdPer d)).

Lemma Charge_eq nowDay ts persisted b r a :
  parseUSDC (rAmountUSDC r) = Ok a ->
  (Charge nowDay ts persisted b r).2 = Ok tt /\
  agentConfig (Charge nowDay ts persisted b r).1 = agentConfig b /\
  receipts (Charge nowDay ts persisted b r).1 = receipts b ++ [stamped ts r] /\
  spentToday (Charge nowDay ts persisted b r).1 =
    <[rAgentID r := bumped (dayLocked nowDay b (rAgentID r)).2 r]> (spentToday b).
Proof.
  intros Ha. unfold Charge, bumped, amountOf. rewrite Ha.
  destruct (dayLocked_eq nowDay b (rAgentID r)) as [E _].
  destruct (dayLocked nowDay b (rAgentID r)) as [b1 d]. simpl in E |- *. subst b1. simpl.
  by rewrite insert_insert_eq.
Qed.

Lemma counted_other rs a od day r :
  rAgentID r <> a -> counted rs a od day -> counted (rs ++ [r]) a od day.
Proof.
  intros Hne. assert (forall d, ofDay a d r = false) as Hno.
  { intros d. apply not_true_iff_false. rewrite ofDay_true. by intros [? _]. }
  destruct od as [d|]; simpl.
  - intros (H1 & H2 & H3 & H4). split_and!; [done| | |].
    + intros x [Hx|Hx%list_elem_of_singleton]%elem_of_app Ha; [by apply H2|by subst x].
    + rewrite spent_snoc, Hno. lia.
    + intros s. rewrite spent_snoc, ofServiceDay_le by apply Hno. rewrite <- H4. lia.
  - intros H x [Hx|Hx%list_elem_of_singleton]%elem_of_app; [by apply H|by subst x].
Qed.

Lemma counted_bumped rs d r :
  dayOf (rTs r) = sdDay d -> counted rs (rAgentID r) (Some d) (sdDay d) ->
  counted (rs ++ [r]) (rAgentID r) (Some (bumped d r)) (sdDay d).
Proof.
  intros Hday (H1 & H2 & H3 & H4). assert (ofDay (rAgentID r) (sdDay d) r = true) as Hyes
    by (by rewrite ofDay_true). simpl. split_and!; [done| | |].
  - intros x [Hx|Hx%list_elem_of_singleton]%elem_of_app Ha; [by apply H2|subst x; lia].
  - rewrite spent_snoc, Hyes. lia.
  - intros s. rewrite spent_snoc, H4. unfold ofServiceDay. rewrite Hyes. simpl.
    destruct (decide (rServiceID r = s)) as [<-|Hne].
    + by rewrite lookup_insert_eq, bool_decide_eq_true_2.
    + rewrite lookup_insert_ne, bool_decide_eq_false_2 by done. lia.
Qed.

(** A charge that fits what the counters left. *)
Lemma caps_hold_snoc rs r d cfg :
  counted rs (rAgentID r) (Some d) (sdDay d) -> dayOf (rTs r) = sdDay d ->
  within (amountOf r) (perCallMax cfg) ->
  within (sdTotal d + amountOf r) (dailyCap cfg) ->
  within (default 0 (sdPer d !! rServiceID r) + amountOf r) (perService cfg !! rServiceID r) ->
  caps_hold rs (rAgentID r) cfg -> caps_hold (rs ++ [r]) (rAgentID r) cfg.
Proof.
  intros (_ & _ & H3 & H4) Hday Hcall Htotal Hservice (C1 & C2 & C3). split_and!.
  - intros x [Hx|Hx%list_elem_of_singleton]%elem_of_app Ha; [by apply C1|by subst x].
  - intros day. rewrite spent_snoc. destruct (ofDay _ day r) eqn:E.
    + apply ofDay_true in E as [_ <-]. by rewrite Hday, H3.
    + rewrite Z.add_0_r. apply C2.
  - intros s day. rewrite spent_snoc. destruct (ofServiceDay _ s day r) eqn:E.
    + apply andb_prop in E as [[_ <-]%ofDay_true <-%bool_decide_eq_true]. by rewrite Hday, H4.
    + rewrite Z.add_0_r. apply C3.
Qed.

Lemma caps_hold_other rs a r cfg : rAgentID r <> a -> caps_hold rs a cfg -> caps_hold (rs ++ [r]) a cfg.
Proof.
  intros Hne (C1 & C2 & C3). assert (forall d, ofDay a d r = false) as Hno.
  { intros d. apply not_true_iff_false. rewrite ofDay_true. by intros [? _]. }
  split_and!.
  - intros x [Hx|Hx%list_elem_of_singleton]%elem_of_app Ha; [by apply C1|by subst x].
  - intros day. rewrite spent_snoc, Hno, Z.add_0_r. apply C2.
  - intros s day. rewrite spent_snoc, ofServiceDay_le, Z.add_0_r by apply Hno. apply C3.
Qed.

Lemma Authorize_config now b a s max q : agentConfig (Authorize now b a s max q).1 = agentConfig b.
Proof.
  destruct (Authorize_state now b a s max q) as [->| ->]; [done|].
  by rewrite (proj1 (dayLocked_eq now b a)).
Qed.

Lemma Charge_error nowDay ts persisted b r e :
  parseUSDC (rAmountUSDC r) = Err e -> (Charge nowDay ts persisted b r).1 = b.
Proof. unfold Charge. by intros ->. Qed.

Lemma pay_config b p : agentConfig (pay b p).1 = agentConfig b.
Proof.
  unfold pay. pose proof (Authorize_config (pAuth p) b (rAgentID (pReceipt p))
    (rServiceID (pReceipt p)) (pMax p) (pQuote p)) as H.
  destruct (Authorize _ _ _ _ _ _) as [b1 [[]|e]]; simpl in H; [|done]. rewrite <- H.
  destruct (parseUSDC (rAmountUSDC (pReceipt p))) as [a|e] eqn:E.
  - by destruct (Charge_eq (pDay p) (pTs p) (pPersisted p) b1 (pReceipt p) a E) as (_ & -> & _).
  - by rewrite (Charge_error _ _ _ _ _ e).
Qed.

(** A charge within the quote that was authorised on the same day. *)
Lemma ledger_charge day nowDay ts persisted b r a cfg :
  ledger_ok day b -> dayOf nowDay = day -> dayOf (rTs (stamped ts r)) = day ->
  parseUSDC (rAmountUSDC r) = Ok a -> agentConfig b !! rAgentID r = Some cfg ->
  within a (perCallMax cfg) ->
  within (sdTotal (dayLocked nowDay b (rAgentID r)).2 + a) (dailyCap cfg) ->
  within (default 0 (sdPer (dayLocked nowDay b (rAgentID r)).2 !! rServiceID r) + a)
    (perService cfg !! rServiceID r) ->
  ledger_ok day (Charge nowDay ts persisted b r).1.
Proof.
  intros [Hc Hcaps] Hday Hts Ha Hcfg H1 H2 H3.
  destruct (Charge_eq nowDay ts persisted b r a Ha) as (_ & Econf & Erec & Esp).
  destruct (dayLocked_eq nowDay b (rAgentID r)) as [_ Hd].
  pose proof (counted_dayLocked nowDay b (rAgentID r) day (Hc _) ltac:(lia)) as Hcd.
  set (d := (dayLocked nowDay b (rAgentID r)).2) in *.
  destruct (stamped_fields ts r) as (Fa & Fs & Fm & Ft).
  assert (amountOf r = a) as Hm by (unfold amountOf; by rewrite Ha).
  rewrite <- Hd in Hcd. rewrite <- Fa in Hcd.
  assert (dayOf (rTs (stamped ts r)) = sdDay d) as Hdd by lia.
  split; rewrite ?Econf, Erec, ?Esp.
  - intros a'. destruct (decide (rAgentID r = a')) as [<-|Hne].
    + rewrite lookup_insert_eq. pose proof (counted_bumped _ _ _ Hdd Hcd) as Hb.
      unfold bumped in *. rewrite Fa, Fs, Fm in Hb. by replace day with (sdDay d) by lia.
    + rewrite lookup_insert_ne by done. apply counted_other; [by rewrite Fa|apply Hc].
  - intros a' cfg' Hcfg'. destruct (decide (rAgentID r = a')) as [<-|Hne].
    + assert (cfg' = cfg) as -> by congruence. pose proof (Hcaps _ _ Hcfg) as Hold. rewrite <- Fa in Hold |- *.
      eapply caps_hold_snoc; eauto; rewrite ?Fs, Fm, Hm; auto.
    + apply caps_hold_other; [by rewrite Fa|by apply Hcaps].
Qed.

(** Reading the same day twice changes nothing. *)
Lemma dayLocked_same now now' b a :
  dayOf now' = dayOf now ->
  (dayLocked now' (dayLocked now b a).1 a).2 = (dayLocked now b a).2.
Proof.
  intros Hn. destruct (dayLocked_eq now b a) as [E Hd].
  remember (dayLocked now b a).2 as d eqn:Ed. rewrite E. unfold dayLocked at 1. simpl.
  rewrite lookup_insert_eq, Hd, Hn, Z.eqb_refl. done.
Qed.

Lemma pay_ledger b p :
  ledger_ok (dayOf (pAuth p)) b -> regular (dayOf (pAuth p)) p ->
  ledger_ok (dayOf (pAuth p)) (pay b p).1.
Proof.
  intros Hl [_ Rd Rs Ra]. unfold pay. destruct (Authorize _ _ _ _ _ _) as [b1 [[]|e]] eqn:E; simpl.
  - destruct (Authorize_inv _ _ _ _ _ _ _ E) as (m & v & cfg & _ & Ev & _ & Hcfg & H1 & -> & H2 & H3).
    set (r := pReceipt p) in *. pose proof (ledger_dayLocked _ _ (rAgentID r) Hl) as Hl1.
    destruct (parseUSDC (rAmountUSDC r)) as [a|e] eqn:Ea; [|by rewrite (Charge_error _ _ _ _ _ e)].
    pose proof (Ra a v eq_refl Ev) as Hle.
    eapply (ledger_charge _ _ _ _ _ _ a cfg); eauto.
    + destruct (stamped_fields (pTs p) r) as (_ & _ & _ & ->). exact Rs.
    + by rewrite (proj1 (dayLocked_eq _ _ _)).
    + eapply within_le; [exact H1|lia].
    + rewrite dayLocked_same by done. eapply within_le; [exact H2|lia].
    + rewrite dayLocked_same by done. eapply within_le; [exact H3|lia].
  - pose proof (Authorize_state (pAuth p) b (rAgentID (pReceipt p)) (rServiceID (pReceipt p))
      (pMax p) (pQuote p)) as Hst. rewrite E in Hst. simpl in Hst.
    destruct Hst as [->| ->]; [done|by apply ledger_dayLocked].
Qed.

Lemma payAll_ledger ps b day :
  ledger_ok day b -> schedule day ps ->
  (exists day', ledger_ok day' (payAll b ps)) /\ agentConfig (payAll b ps) = agentConfig b.
Proof.
  revert b day. induction ps as [|p ps IH]; intros b day Hl Hs; [by eauto|].
  destruct Hs as (Hle & Hr & Hs). simpl.
  destruct (IH (pay b p).1 (dayOf (pAuth p))) as [Hex Hc].
  - apply pay_ledger; [|done]. by eapply ledger_later.
  - done.
  - by rewrite Hc, pay_config.
Qed.

Definition caps_nonneg (cfg : parsedBudget) : Prop :=
  within 0 (perCallMax cfg) /\ within 0 (dailyCap cfg) /\ forall s, within 0 (perService cfg !! s).

Lemma parsePerService_nonneg m (out acc : gmap string Z) :
  (forall s, within 0 (acc !! s)) -> foldl parsePerServiceEntry (Ok acc) m = Ok out ->
  forall s, within 0 (out !! s).
Proof.
  revert acc. induction m as [|[k c] m IH]; intros acc Hacc H; simpl in H; [by simplify_eq|].
  destruct (parseUSDC c) as [v|e] eqn:E.
  - eapply IH; [|exact H]. intros s. destruct (decide (k = s)) as [->|].
    + rewrite lookup_insert_eq. apply Z.ltb_ge. by eapply parseUSDC_nonneg.
    + by rewrite lookup_insert_ne.
  - exfalso. set (e' := _ +:+ _) in H. clearbody e'. clear -H.
    induction m as [|[] m IH]; simpl in H; [done|auto].
Qed.

Lemma parseBudget_nonneg cfg p : parseBudget cfg = Ok p -> caps_nonneg p.
Proof.
  unfold parseBudget, parsePerService. intros H.
  destruct (parseUSDC (PerCallMaxUSDC cfg)) as [c|] eqn:E1; [|done].
  destruct (parseUSDC (DailyCapUSDC cfg)) as [d|] eqn:E2; [|done].
  destruct (foldl _ _ _) as [per|] eqn:E3; [|done]. injection H as <-.
  apply parseUSDC_nonneg in E1, E2. split_and!; [by apply Z.ltb_ge|by apply Z.ltb_ge|].
  eapply parsePerService_nonneg; [|exact E3]. intros s. by rewrite lookup_empty.
Qed.

Lemma boot_fields st cfgs :
  spentToday (boot st cfgs) = ∅ /\ receipts (boot st cfgs) = default [] st /\
  (forall a cfg, agentConfig (boot st cfgs) !! a = Some cfg -> caps_nonneg cfg).
Proof.
  unfold boot. set (P := fun b => spentToday b = ∅ /\ receipts b = default [] st /\
    forall a cfg, agentConfig b !! a = Some cfg -> caps_nonneg cfg).
  assert (P (NewBudget st)) as H0 by done.
  enough (forall b, P b -> P (foldl (fun b '(agentID, cfg) => (SetAgentBudget b agentID cfg).1) b cfgs))
    as Hall by exact (Hall _ H0). clear H0.
  induction cfgs as [|[a c] cfgs IH]; intros b Hb; [done|]. simpl. apply IH.
  unfold SetAgentBudget. destruct (parseBudget c) as [p|] eqn:E; [|done].
  destruct Hb as (H1 & H2 & H3). split_and!; [done|done|]. simpl. intros a' cfg Hcfg.
  destruct (decide (a = a')) as [->|].
  - rewrite lookup_insert_eq in Hcfg. simplify_eq. by eapply parseBudget_nonneg.
  - rewrite lookup_insert_ne in Hcfg by done. eauto.
Qed.

Lemma boot_ledger cfgs day : ledger_ok day (boot None cfgs).
Proof.
  destruct (boot_fields None cfgs) as (Hs & Hr & Hc). split; rewrite Hr.
  - intros a. rewrite Hs, lookup_empty. simpl. intros r Hin. by apply elem_of_nil in Hin.
  - intros a cfg Hcfg. destruct (Hc a cfg Hcfg) as (H1 & H2 & H3).
    split_and!; [intros r Hin; by apply elem_of_nil in Hin|done|done].
Qed.

(** C21 (safety). The caps of an agent hold on every day: from an empty log,
    after any sequence of calls (each authorised against the caps and charged
    on one day, for at most the price it was authorised for), no charge is
    above the per-call cap, the receipts of a day never add up to more than
    the daily cap, and those for one service never to more than its cap. *)
Theorem x402_caps_hold cfgs ps day agentID cfg :
  schedule day ps -> agentConfig (boot None cfgs) !! agentID = Some cfg ->
  caps_hold (receipts (payAll (boot None cfgs) ps)) agentID cfg.
Proof.
  intros Hs Hcfg. destruct (payAll_ledger ps _ day (boot_ledger cfgs day) Hs) as [[day' Hl] Hc].
  apply Hl. by rewrite Hc.
Qed.

Definition demo_cfgs : list (string * BudgetConfig) :=
  [("agent", mkBudgetConfig "0.05" "0.10" {["svc" := "0.10"]})].

Definition demo_parsed : parsedBudget :=
  mkParsed (Some 50000) (Some 100000) {["svc" := 100000]}.

Definition demo_payment (t : Time) (amount : string) : Payment :=
  mkPayment t t t "0.05" "0.05" true (mkReceipt t "agent" "svc" "/p" "tx" "base" amount "0.05").

Definition demo_payments : list Payment :=
  [demo_payment hour "0.04"; demo_payment (2 * hour) "0.03"; demo_payment (3 * hour) "0.03";
   demo_payment (30 * hour) "0.05"].

Lemma demo_regular t amount a :
  parseUSDC amount = Ok a -> a <= 50000 -> time_IsZero t = false ->
  regular (dayOf t) (demo_payment t amount).
Proof.
  intros Ha Hle Hz. split; try done.
  - unfold stamp. simpl. by rewrite Hz.
  - simpl. intros a' q Ha' Hq. assert (a' = a) as -> by congruence. assert (q = 50000) as ->; [|done].
    assert (parseUSDC "0.05" = Ok 50000) as E by (vm_compute; reflexivity). congruence.
Qed.

Lemma demo_schedule : schedule 0 demo_payments.
Proof.
  repeat split; try (by vm_compute).
  all: refine (reg_amount _ _ (demo_regular _ _ _ _ _ _)); by vm_compute.
Qed.

(** The third call is refused (the service's cap of the day), the fourth is on
    the next day. *)
Lemma x402_caps_hold_witness :
  length (receipts (payAll (boot None demo_cfgs) demo_payments)) = 3%nat /\
  exists cfg, caps_hold (receipts (payAll (boot None demo_cfgs) demo_payments)) "agent" cfg.
Proof.
  split; [vm_compute; reflexivity|].
  exact (ex_intro _ demo_parsed
    (x402_caps_hold demo_cfgs demo_payments 0 "agent" demo_parsed
      demo_schedule ltac:(vm_compute; reflexivity))).
Defined.

(** ** What the caps do not survive *)

(** A call whose quote is within every cap taken alone. *)
Record fits_alone (cfg : parsedBudget) (p : Payment) : Prop := {
  fit_max : exists m v, parseUSDC (pMax p) = Ok m /\ parseUSDC (pQuote p) = Ok v /\ v <= m /\
    within v (perCallMax cfg) /\ within v (dailyCap cfg) /\
    within v (perService cfg !! rServiceID (pReceipt p));
  fit_amount : exists a, parseUSDC (rAmountUSDC (pReceipt p)) = Ok a
}.

(** A restart forgets what was spent: whatever the stored receipts
    say the agent already paid today, a budget loaded from them accepts any
    call that fits the caps alone, and reports nothing spent before it. *)
Theorem x402_restart_forgets_spending st cfgs p cfg :
  agentConfig (boot st cfgs) !! rAgentID (pReceipt p) = Some cfg -> fits_alone cfg p ->
  receipts (boot st cfgs) = default [] st /\
  bsSpentTodayUSDC (BudgetStatus (pAuth p) (boot st cfgs) (rAgentID (pReceipt p))).2 = "0" /\
  (pay (boot st cfgs) p).2 = Ok tt.
Proof.
  intros Hcfg [(m & v & Em & Ev & Hle & H1 & H2 & H3) [a Ea]].
  destruct (boot_fields st cfgs) as (Hs & Hr & _).
  split_and!; [done| |].
  - unfold BudgetStatus, dayLocked. rewrite Hcfg, Hs, lookup_empty. vm_compute. reflexivity.
  - unfold pay, Authorize. rewrite Em, Ev, (proj2 (Z.ltb_ge _ _) Hle), Hcfg, H1.
    unfold dayLocked at 1. rewrite Hs, lookup_empty. simpl. rewrite H2.
    rewrite lookup_empty. simpl. rewrite H3. by apply (Charge_eq _ _ _ _ _ a).
Qed.

Definition demo_log : list Receipt := receipts (payAll (boot (Some []) demo_cfgs) demo_payments).

Lemma x402_restart_forgets_spending_witness :
  let p := demo_payment (30 * hour) "0.05" in
  spent (ofDay "agent" 1) (receipts (payAll (boot (Some demo_log) demo_cfgs) [p; p])) = 150000 /\
  (pay (boot (Some demo_log) demo_cfgs) p).2 = Ok tt.
Proof.
  split; [vm_compute; reflexivity|].
  refine (proj2 (proj2 (x402_restart_forgets_spending (Some demo_log) demo_cfgs
    (demo_payment (30 * hour) "0.05") demo_parsed _ _))).
  - vm_compute. reflexivity.
  - split; [|exists 50000; vm_compute; reflexivity].
    exists 50000, 50000. split_and!; try (vm_compute; reflexivity). by vm_compute.
Defined.

Lemma Authorize_again now b a s max q b' :
  Authorize now b a s max q = (b', Ok tt) -> Authorize now b' a s max q = (b', Ok tt).
Proof.
  intros H. destruct (Authorize_inv _ _ _ _ _ _ _ H) as (m & v & cfg & Em & Ev & Hle & Hcfg & H1 & -> & H2 & H3).
  pose proof (dayLocked_same now now b a eq_refl) as Hsame.
  destruct (dayLocked_eq now b a) as [E Hd].
  assert (dayLocked now (dayLocked now b a).1 a = (dayLocked now b a)) as Hidem.
  { rewrite E at 1. unfold dayLocked at 1. simpl. rewrite lookup_insert_eq, Hd, Z.eqb_refl.
    by rewrite <- E, <- surjective_pairing. }
  unfold Authorize. rewrite Em, Ev, (proj2 (Z.ltb_ge _ _) Hle).
  replace (agentConfig (dayLocked now b a).1) with (agentConfig b) by (by rewrite E).
  rewrite Hcfg, H1, Hidem. destruct (dayLocked now b a) as [b1 d]. simpl in *.
  by rewrite H2, H3.
Qed.

(** [n] calls in flight at once: each is authorised before any is charged. *)
Fixpoint authorizeN (n : nat) (now : Time) (b : Budget) (a s max q : string) : Budget * bool :=
  match n with
  | O => (b, true)
  | S n' => match Authorize now b a s max q with
            | (b, Ok _) => authorizeN n' now b a s max q
            | (b, Err _) => (b, false)
            end
  end.

(** [Authorize] reserves nothing: when one call is accepted, any
    number of the same calls in flight with it are accepted too, and once they
    are charged the agent has spent that many times the price, whatever its
    caps. *)
Theorem x402_authorize_reserves_nothing n now p b b1 a :
  let r := pReceipt p in
  Authorize now b (rAgentID r) (rServiceID r) (pMax p) (pQuote p) = (b1, Ok tt) ->
  dayOf (pDay p) = dayOf now -> parseUSDC (rAmountUSDC r) = Ok a ->
  authorizeN (S n) now b (rAgentID r) (rServiceID r) (pMax p) (pQuote p) = (b1, true) /\
  sdTotal (dayLocked now (Nat.iter n (fun b => (Charge (pDay p) (pTs p) (pPersisted p) b r).1) b1)
    (rAgentID r)).2 = sdTotal (dayLocked now b (rAgentID r)).2 + Z.of_nat n * a.
Proof.
  intros r HA Hday Ha. split.
  - pose proof (Authorize_again _ _ _ _ _ _ _ HA) as Hag. simpl. rewrite HA. clear HA.
    induction n as [|n IH]; [done|]. simpl. by rewrite Hag.
  - destruct (Authorize_inv _ _ _ _ _ _ _ HA) as (m & v & cfg & _ & _ & _ & _ & _ & -> & _).
    induction n as [|n IH]; [cbn [Nat.iter nat_rect]; rewrite dayLocked_same by done; lia|].
    rewrite Nat.iter_succ. set (b2 := Nat.iter n _ _) in *.
    destruct (Charge_eq (pDay p) (pTs p) (pPersisted p) b2 r a Ha) as (_ & _ & _ & Esp).
    unfold dayLocked at 1. rewrite Esp, lookup_insert_eq. unfold bumped at 1. simpl.
    rewrite (proj2 (dayLocked_eq _ _ _)), Hday, Z.eqb_refl. simpl. unfold amountOf. rewrite Ha.
    assert ((dayLocked (pDay p) b2 (rAgentID r)).2 = (dayLocked now b2 (rAgentID r)).2) as ->.
    { unfold dayLocked. rewrite Hday. destruct (spentToday b2 !! rAgentID r); [by case_match|done]. }
    rewrite IH. lia.
Qed.

Lemma x402_authorize_reserves_nothing_witness :
  let p := demo_payment hour "0.05" in let b := boot None demo_cfgs in
  let b1 := (Authorize hour b "agent" "svc" "0.05" "0.05").1 in
  sdTotal (dayLocked hour (Nat.iter 3 (fun b => (Charge hour hour true b (pReceipt p)).1) b1) "agent").2
    = 0 + 3 * 50000.
Proof.
  exact (proj2 (x402_authorize_reserves_nothing 3 hour (demo_payment hour "0.05") (boot None demo_cfgs)
    (Authorize hour (boot None demo_cfgs) "agent" "svc" "0.05" "0.05").1 50000
    ltac:(vm_compute; reflexivity) eq_refl ltac:(vm_compute; reflexivity))).
Defined.
