(* ===== verification/X402Protocol.v ===== *)
(** * The x402 wire protocol (pkg/x402/protocol.go, protocol_v1.go, protocol_v2.go)

    Challenges of both versions in one canonical form, the choice of the
    requirement to pay, the payment envelope and the receipts.  JSON encoding
    and decoding is a class ([X402JSON]) at the types the code uses it with. *)

From Stdlib Require Import Ascii.
From stdpp Require Import base numbers list gmap strings.
From S2P Require Import Prelude GoStrings GoStrconv GoText X402Budget.

Definition NetworkBase : string := "base".
Definition NetworkSolana : string := "solana".
Definition SchemeExact : string := "exact".
Definition X402ProtocolV1 : Z := 1.
Definition X402ProtocolV2 : Z := 2.

(** A value of [map[string]interface{}]: a string, or other JSON kept raw. *)
Inductive jsonValue :=
| JString (s : string)
| JOther (raw : string).

Record PaymentRequirements := mkRequirements {
  prScheme : string;
  prNetwork : string;
  prAmountMicros : string;
  prPayTo : string;
  prAsset : string;
  prMaxTimeoutSeconds : Z;
  prExtra : gmap string jsonValue;
  prRawWire : string
}.

Record Resource := mkResource { rsURL : string; rsDescription : string; rsMimeType : string }.

Record PaymentChallenge := mkPaymentChallenge {
  pcVersion : Z;
  pcAccepts : list PaymentRequirements;
  pcResource : option Resource;
  pcExtensions : gmap string string
}.

Record PaymentReceipt := mkPaymentReceipt {
  pyTx : string;
  pyNetwork : string;
  pyAmountUSDC : string;
  pySettledAt : Time
}.

Record EIP3009Authorization := mkAuthorization {
  auFrom : string;
  auTo : string;
  auValue : string;
  auValidAfter : string;
  auValidBefore : string;
  auNonce : string
}.

Record EIP712Domain := mkDomain {
  dmName : string;
  dmVersion : string;
  dmChainID : Z;
  dmVerifyingContract : string
}.

Record EIP712TypedData := mkTypedData {
  tdTypes : list (string * list (string * string));
  tdDomain : EIP712Domain;
  tdPrimaryType : string;
  tdMessage : list (string * string)
}.

(** ** Wire shapes *)

Record paymentRequirementsV1 := mkRequirementsV1 {
  v1Scheme : string;
  v1Network : string;
  v1MaxAmountRequired : string;
  v1PayTo : string;
  v1MaxTimeoutSeconds : Z;
  v1Asset : string;
  v1Extra : gmap string jsonValue
}.

Record paymentPayloadV1 := mkPayloadV1 {
  p1Version : Z;
  p1Scheme : string;
  p1Network : string;
  p1Payload : string
}.

Record paymentRequirementsV2 := mkRequirementsV2 {
  v2Scheme : string;
  v2Network : string;
  v2Amount : string;
  v2PayTo : string;
  v2MaxTimeoutSeconds : Z;
  v2Asset : string;
  v2Extra : gmap string jsonValue
}.

(** The envelope as it is marshalled. *)
Record payloadV2 := mkPayloadV2 {
  p2Version : Z;
  p2Scheme : string;
  p2Network : string;
  p2Accepted : string;
  p2Resource : option Resource;
  p2Payload : string
}.

Record looseReceipt := mkLooseReceipt {
  lrTransaction : string;
  lrTx : string;
  lrNetwork : string;
  lrAmountUSDC : string
}.

Class X402JSON := {
  jsonOuterV1 : string -> option (list string);
  jsonEntryV1 : string -> option paymentRequirementsV1;
  jsonOuterV2 : string -> option (list string * option Resource * gmap string string);
  jsonEntryV2 : string -> option paymentRequirementsV2;
  jsonLooseReceipt : string -> option looseReceipt;
  jsonPayloadV1 : paymentPayloadV1 -> option string;
  jsonRequirementsV2 : paymentRequirementsV2 -> option string;
  jsonPayloadV2 : payloadV2 -> option string
}.

(** ** Networks and schemes *)

Definition solanaMainnetClusterID : string := "5eykt4UsFv8P8NJdTREpY1vzqKqZKvdp".

Section Protocol.
Context (unicodeLower : string -> string).

Definition canonicalizeNetwork (network : string) : option string :=
  let raw := TrimSpace network in
  if bool_decide (raw = "") then None
  else
    let lower := ToLower unicodeLower raw in
    if HasPrefix lower "eip155:" then
      match ParseInt (TrimPrefix lower "eip155:") with
      | None => None
      | Some id => if Z.eqb id 8453 then Some NetworkBase else None
      end
    else if HasPrefix lower "solana:" then
      if bool_decide (str_drop (String.length "solana:") raw = solanaMainnetClusterID)
      then Some NetworkSolana else None
    else if bool_decide (lower = NetworkBase) then Some NetworkBase
    else if bool_decide (lower = NetworkSolana) then Some NetworkSolana
    else None.

Definition isSupportedScheme (scheme : string) : bool :=
  let scheme := TrimSpace scheme in
  if bool_decide (scheme = "") then true else EqualFold scheme SchemeExact.

Definition isSupportedNetwork (network : string) : bool :=
  bool_decide (is_Some (canonicalizeNetwork network)).

Definition chainIDForNetwork (network : string) : option Z :=
  match canonicalizeNetwork network with
  | None => None
  | Some canon => if bool_decide (canon = NetworkBase) then Some 8453 else None
  end.

Definition normalizeNetworkBare (network : string) : string :=
  default network (canonicalizeNetwork network).

(** ** Amounts *)

Definition parseIntegerBaseUnits (s : string) : result string Z :=
  let trimmed := TrimSpace s in
  if bool_decide (trimmed = "") then Err "empty amount"
  else if negb (isAllDigits trimmed) then Err "amount must be integer base units"
  else match digits_value trimmed with
       | None => Err "amount must be positive"
       | Some v => if v <=? 0 then Err "amount must be positive" else Ok v
       end.

(** [strings.Trim(amount, "0") == ""] *)
Definition allZeros (s : string) : bool := str_forall (fun c => Ascii.eqb c "0") s.

Definition parseV1Amount (amount : string) : result string string :=
  if ContainsByte "." amount then
    match parseUSDC amount with
    | Err e => Err e
    | Ok micros => if micros <=? 0 then Err "amount must be positive" else Ok (bigString micros)
    end
  else if negb (isAllDigits amount) then Err "amount must be integer base units or decimal USDC"
  else if allZeros amount then Err "amount must be positive"
  else Ok amount.

(** ** Choosing what to pay *)

(** What the loop makes of one requirement: its price when it is eligible. *)
Definition eligible (prefer : list string) (req : PaymentRequirements) : option Z :=
  if negb (isSupportedScheme (prScheme req)) then None
  else match canonicalizeNetwork (prNetwork req) with
       | None => None
       | Some canon =>
           if bool_decide (prefer <> []) && bool_decide (canon ∉ prefer) then None
           else match parseIntegerBaseUnits (prAmountMicros req) with
                | Err _ => None
                | Ok micros => Some micros
                end
       end.

Definition cheapestStep (prefer : list string) (best : option (PaymentRequirements * Z))
    (req : PaymentRequirements) : option (PaymentRequirements * Z) :=
  match eligible prefer req with
  | None => best
  | Some micros =>
      match best with
      | None => Some (req, micros)
      | Some (_, bestMicros) => if micros <? bestMicros then Some (req, micros) else best
      end
  end.

Definition PreferAndCheapest (c : PaymentChallenge) (prefer : list string)
  : result string PaymentRequirements :=
  match foldl (cheapestStep prefer) None (pcAccepts c) with
  | None => Err "x402: no compatible payment requirements offered"
  | Some (best, _) => Ok best
  end.

Definition SelectRequirements (c : PaymentChallenge) : result string PaymentRequirements :=
  PreferAndCheapest c [].

(** ** Challenges *)

Definition toCanonicalV1 (r : paymentRequirementsV1) : result string PaymentRequirements :=
  if isBlank (v1Scheme r) then Err "requirement missing scheme"
  else if isBlank (v1Network r) then Err "requirement missing network"
  else if isBlank (v1PayTo r) then Err "requirement missing payTo"
  else
    let amount := TrimSpace (v1MaxAmountRequired r) in
    if bool_decide (amount = "") then Err "requirement missing maxAmountRequired"
    else match parseV1Amount amount with
         | Err e => Err ("v1 maxAmountRequired: " +:+ e)
         | Ok micros =>
             Ok (mkRequirements (v1Scheme r) (v1Network r) micros (v1PayTo r) (v1Asset r)
                   (v1MaxTimeoutSeconds r) (v1Extra r) "")
         end.

Definition toCanonicalV2 (r : paymentRequirementsV2) : result string PaymentRequirements :=
  if isBlank (v2Network r) then Err "requirement missing network"
  else if isBlank (v2PayTo r) then Err "requirement missing payTo"
  else if isBlank (v2Amount r) then Err "requirement missing amount"
  else if negb (isAllDigits (TrimSpace (v2Amount r))) then Err "v2 amount must be integer base units"
  else Ok (mkRequirements (v2Scheme r) (v2Network r) (TrimSpace (v2Amount r)) (v2PayTo r)
             (v2Asset r) (v2MaxTimeoutSeconds r) (v2Extra r) "").

Definition withRawWire (req : PaymentRequirements) (raw : string) : PaymentRequirements :=
  mkRequirements (prScheme req) (prNetwork req) (prAmountMicros req) (prPayTo req) (prAsset req)
    (prMaxTimeoutSeconds req) (prExtra req) raw.

(** The loop over the raw [accepts] entries; the first error returns. *)
Fixpoint canonicalEntries {W} (decode : string -> option W)
    (toCanonical : W -> result string PaymentRequirements) (entries : list string)
  : result string (list PaymentRequirements) :=
  match entries with
  | [] => Ok []
  | entry :: entries =>
      match decode entry with
      | None => Err "decode requirement"
      | Some r =>
          match toCanonical r with
          | Err e => Err e
          | Ok canon =>
              match canonicalEntries decode toCanonical entries with
              | Err e => Err e
              | Ok out => Ok (withRawWire canon entry :: out)
              end
          end
      end
  end.

Definition decodePaymentB64 (value : string) : result string string :=
  match b64decode false true value with
  | Some raw => Ok raw
  | None =>
      match b64decode false false value with
      | Some raw => Ok raw
      | None =>
          match b64decode true true value with
          | Some raw => Ok raw
          | None =>
              match b64decode true false value with
              | Some raw => Ok raw
              | None => Err "not valid base64"
              end
          end
      end
  end.

Context `{J : X402JSON}.

Definition parseChallengeV1Body (raw : string) : result string PaymentChallenge :=
  match jsonOuterV1 raw with
  | None => Err "decode challenge"
  | Some accepts =>
      if bool_decide (accepts = []) then Err "challenge offered no payment options"
      else match canonicalEntries jsonEntryV1 toCanonicalV1 accepts with
           | Err e => Err e
           | Ok reqs => Ok (mkPaymentChallenge X402ProtocolV1 reqs None ∅)
           end
  end.

Definition parseChallengeV2Header (value : string) : result string PaymentChallenge :=
  match decodePaymentB64 value with
  | Err e => Err ("decode v2 challenge header: " +:+ e)
  | Ok raw =>
      match jsonOuterV2 raw with
      | None => Err "decode v2 challenge JSON"
      | Some (accepts, resource, extensions) =>
          if bool_decide (accepts = []) then Err "challenge offered no payment options"
          else match canonicalEntries jsonEntryV2 toCanonicalV2 accepts with
               | Err e => Err e
               | Ok reqs => Ok (mkPaymentChallenge X402ProtocolV2 reqs resource extensions)
               end
      end
  end.

(** ** Envelopes *)

Definition encodePaymentV1 (req : PaymentRequirements) (inner : string) : result string string :=
  match jsonPayloadV1 (mkPayloadV1 X402ProtocolV1 (prScheme req) (prNetwork req) inner) with
  | None => Err "encode v1 payload"
  | Some raw => Ok (b64encode false true raw)
  end.

Definition encodePaymentV2 (req : PaymentRequirements) (inner : string) (resource : option Resource)
  : result string string :=
  let accepted :=
    if bool_decide (prRawWire req <> "") then Some (prRawWire req)
    else jsonRequirementsV2 (mkRequirementsV2 (prScheme req) (prNetwork req) (prAmountMicros req)
           (prPayTo req) (prMaxTimeoutSeconds req) (prAsset req) (prExtra req)) in
  match accepted with
  | None => Err "encode v2 accepted"
  | Some accepted =>
      let scheme := TrimSpace (prScheme req) in
      let scheme := if bool_decide (scheme = "") then SchemeExact else scheme in
      let network := normalizeNetworkBare (prNetwork req) in
      match jsonPayloadV2 (mkPayloadV2 X402ProtocolV2 scheme network accepted resource inner) with
      | None => Err "encode v2 payload"
      | Some raw => Ok (b64encode false true raw)
      end
  end.

(** ** The authorization to sign *)

Definition extraString (req : PaymentRequirements) (key fallback : string) : string :=
  match prExtra req !! key with
  | Some (JString s) => if bool_decide (s = "") then fallback else s
  | _ => fallback
  end.

Definition BuildTransferWithAuthorizationTypedData (req : PaymentRequirements)
    (fromAddress valueMicros nonceHex : string) (now : Time)
  : result string (EIP712TypedData * EIP3009Authorization) :=
  match chainIDForNetwork (prNetwork req) with
  | None => Err "unsupported network"
  | Some chainID =>
      let domainName := extraString req "name" "USD Coin" in
      let domainVersion := extraString req "version" "2" in
      let timeout := if prMaxTimeoutSeconds req <=? 0 then 60 else prMaxTimeoutSeconds req in
      let validBefore := unix_seconds (now + int64_wrap (timeout * second)) in
      let auth := mkAuthorization fromAddress (prPayTo req) valueMicros "0" (Itoa validBefore) nonceHex in
      Ok (mkTypedData
            [("EIP712Domain", [("name", "string"); ("version", "string"); ("chainId", "uint256");
                ("verifyingContract", "address")]);
             ("TransferWithAuthorization", [("from", "address"); ("to", "address"); ("value", "uint256");
                ("validAfter", "uint256"); ("validBefore", "uint256"); ("nonce", "bytes32")])]
            (mkDomain domainName domainVersion chainID (prAsset req))
            "TransferWithAuthorization"
            [("from", auFrom auth); ("to", auTo auth); ("value", auValue auth);
             ("validAfter", auValidAfter auth); ("validBefore", auValidBefore auth);
             ("nonce", auNonce auth)], auth)
  end.

(** ** Receipts *)

Definition isHexDigit (c : ascii) : bool :=
  let b := byte_of c in in_range 48 57 b || in_range 97 102 b || in_range 65 70 b.

Definition isHex (s : string) : bool :=
  if bool_decide (s = "") then false else str_forall isHexDigit s.

Definition base58Alphabet : string := "123456789ABCDEFGHJKLMNPQRSTUVWXYZabcdefghijkmnopqrstuvwxyz".

Definition isBase58 (s : string) : bool :=
  if bool_decide (s = "") then false else str_forall (fun c => ContainsByte c base58Alphabet) s.

(** [tryDecode] *)
Definition tryDecode (b : string) : option looseReceipt :=
  match jsonLooseReceipt b with
  | None => None
  | Some l => if bool_decide (lrTx l <> "") || bool_decide (lrTransaction l <> "") then Some l else None
  end.

Definition parseReceiptJSON (value : string) : option PaymentReceipt :=
  let found :=
    match tryDecode value with
    | Some l => Some l
    | None => match decodePaymentB64 value with
              | Err _ => None
              | Ok raw => tryDecode raw
              end
    end in
  match found with
  | None => None
  | Some l =>
      let tx := if bool_decide (lrTransaction l = "") then lrTx l else lrTransaction l in
      Some (mkPaymentReceipt tx (lrNetwork l) (lrAmountUSDC l) zeroTime)
  end.

Definition parseReceiptBareTx (value : string) : option PaymentReceipt :=
  let hex := str_drop 2 value in
  if (HasPrefix value "0x" || HasPrefix value "0X") && (String.length hex =? 64)%nat && isHex hex
  then Some (mkPaymentReceipt value NetworkBase "" zeroTime)
  else if (86 <=? String.length value)%nat && (String.length value <=? 88)%nat && isBase58 value
  then Some (mkPaymentReceipt value NetworkSolana "" zeroTime)
  else None.

Definition parseReceipt (value : string) : result string PaymentReceipt :=
  let value := TrimSpace value in
  if bool_decide (value = "") then Err "empty receipt header"
  else match parseReceiptJSON value with
       | Some r => Ok r
       | None => match parseReceiptBareTx value with
                 | Some r => Ok r
                 | None => Err "receipt parse: unrecognized format"
                 end
       end.

End Protocol.

(** ** The cheapest requirement *)

Section Cheapest.
Context (unicodeLower : string -> string) (prefer : list string).

Notation price := (eligible unicodeLower prefer).

(** [r], of price [m], is the first of the cheapest eligible requirements. *)
Definition first_cheapest (l : list PaymentRequirements) (r : PaymentRequirements) (m : Z) : Prop :=
  exists pre post, l = pre ++ r :: post /\ price r = Some m /\
    (forall r' m', r' ∈ pre -> price r' = Some m' -> m < m') /\
    (forall r' m', r' ∈ post -> price r' = Some m' -> m <= m').

Lemma cheapest_fold l :
  match foldl (cheapestStep unicodeLower prefer) None l with
  | None => forall r, r ∈ l -> price r = None
  | Some (r, m) => first_cheapest l r m
  end.
Proof.
  induction l as [|x l IH] using rev_ind; [intros r H; by apply elem_of_nil in H|].
  rewrite foldl_snoc. unfold cheapestStep at 1. destruct (price x) as [px|] eqn:Ex.
  - destruct (foldl _ None l) as [[r m]|].
    + destruct IH as (pre & post & -> & Hr & Hpre & Hpost). destruct (Z.ltb_spec px m) as [Hlt|Hge].
      * exists (pre ++ r :: post), []. split_and!; [done|done| |intros ? ? H; by apply elem_of_nil in H].
        intros r' m' Hin Hp. apply elem_of_app in Hin as [Hin|Hin]; [pose proof (Hpre _ _ Hin Hp); lia|].
        apply elem_of_cons in Hin as [->|Hin]; [rewrite Hr in Hp; injection Hp as <-; lia|].
        pose proof (Hpost _ _ Hin Hp). lia.
      * exists pre, (post ++ [x]). split_and!; [by rewrite <- (assoc_L (++))|done|done|].
        intros r' m' Hin Hp. apply elem_of_app in Hin as [Hin|Hin%list_elem_of_singleton]; [by eapply Hpost|].
        subst r'. rewrite Ex in Hp. by injection Hp as <-.
    + exists l, []. split_and!; [done|done| |intros ? ? H; by apply elem_of_nil in H].
      intros r' m' Hin Hp. by rewrite (IH r' Hin) in Hp.
  - destruct (foldl _ None l) as [[r m]|].
    + destruct IH as (pre & post & -> & Hr & Hpre & Hpost).
      exists pre, (post ++ [x]). split_and!; [by rewrite <- (assoc_L (++))|done|done|].
      intros r' m' Hin Hp. apply elem_of_app in Hin as [Hin|Hin%list_elem_of_singleton]; [by eapply Hpost|].
      subst r'. by rewrite Ex in Hp.
    + intros r Hin. apply elem_of_app in Hin as [Hin|Hin%list_elem_of_singleton]; [by apply IH|by subst r].
Qed.

End Cheapest.

(** [PreferAndCheapest] returns the first of the cheapest
    requirements of a supported scheme on a supported, preferred network with a
    valid price, and an error exactly when there is none. *)
Theorem x402_cheapest_requirement unicodeLower c prefer :
  (forall r, PreferAndCheapest unicodeLower c prefer = Ok r <->
    exists m, first_cheapest unicodeLower prefer (pcAccepts c) r m) /\
  ((exists e, PreferAndCheapest unicodeLower c prefer = Err e) <->
    forall r, r ∈ pcAccepts c -> eligible unicodeLower prefer r = None).
Proof.
  unfold PreferAndCheapest. pose proof (cheapest_fold unicodeLower prefer (pcAccepts c)) as H.
  destruct (foldl _ _ _) as [[b m]|].
  - split.
    + intros r. split; [intros [=<-]; by exists m|]. intros [m' H'].
      destruct H as (pre & post & E & Hb & Hpre & Hpost), H' as (pre' & post' & E' & Hr & Hpre' & Hpost').
      f_equal. rewrite E in E'. apply app_eq_inv in E' as [(k & E1 & E2)|(k & E1 & E2)].
      * destruct k as [|x k]; [by simplify_eq/=|]. injection E2 as <- E3.
        pose proof (Hpre r m' ltac:(set_solver) Hr). pose proof (Hpost' b m ltac:(set_solver) Hb). lia.
      * destruct k as [|x k]; [by simplify_eq/=|]. injection E2 as <- E3.
        pose proof (Hpre' b m ltac:(set_solver) Hb). pose proof (Hpost r m' ltac:(set_solver) Hr). lia.
    + split; [by intros [e He]|]. intros Hall. destruct H as (pre & post & E & Hb & _).
      rewrite (Hall b) in Hb by (rewrite E; set_solver). done.
  - split; [|split; [intros _; exact H|by eexists]].
    intros r. split; [done|]. intros (m & pre & post & E & Hr & _).
    rewrite (H r) in Hr by (rewrite E; set_solver). done.
Qed.

(** ** Amounts *)

Lemma parse_digits_total s acc :
  0 <= acc -> str_forall is_digit s = true ->
  exists v, parse_digits acc s = Some v /\ acc <= v /\ (0 < acc \/ allZeros s = false -> 0 < v).
Proof.
  revert acc. induction s as [|c s IH]; intros acc Ha Hs.
  - exists acc. split_and!; [done|lia|]. intros [?|[=]]. done.
  - simpl in Hs. apply andb_prop in Hs as [Hc Hs]. cbn [parse_digits]. unfold digit_val.
    unfold is_digit, in_range in Hc. apply andb_prop in Hc as [H1%Z.leb_le H2%Z.leb_le]. cbv zeta.
    rewrite !(proj2 (Z.leb_le _ _)) by lia. cbn [andb].
    destruct (IH (acc * 10 + (byte_of c - 48))) as (v & Hv & Hle & Hpos); [lia|done|].
    exists v. split_and!; [done|lia|]. intros H. apply Hpos. destruct H as [H|H]; [left; lia|].
    unfold allZeros in H. cbn [str_forall] in H. destruct (Ascii.eqb_spec c "0") as [->|Hne]; [by right|].
    left. assert (byte_of c <> 48); [|lia]. intros E. apply Hne.
    rewrite <- (char_of_byte_of c), E. done.
Qed.

Lemma isAllDigits_inv s : isAllDigits s = true -> s <> "" /\ str_forall is_digit s = true.
Proof. unfold isAllDigits. case_bool_decide; [done|]. done. Qed.

Lemma parseIntegerBaseUnits_digits s v :
  isAllDigits s = true -> digits_value s = Some v -> 0 < v -> parseIntegerBaseUnits s = Ok v.
Proof.
  intros Hd Hv Hpos. pose proof (isAllDigits_inv s Hd) as [Hne Hs]. unfold parseIntegerBaseUnits.
  rewrite TrimSpace_solid by (by eapply str_forall_impl; [apply digit_solid|]).
  rewrite bool_decide_eq_false_2, Hd, Hv by done. simpl. by rewrite (proj2 (Z.leb_gt _ _)).
Qed.

(** An amount of a version 1 challenge becomes the number of
    micro-USDC it means: decimal USDC when it has a point, base units when it
    has none; the result is positive and is the price the choice compares. *)
Theorem x402_v1_amount_exact amount micros :
  parseV1Amount amount = Ok micros ->
  exists v, 0 < v /\ parseIntegerBaseUnits micros = Ok v /\
    (if ContainsByte "." amount then parseUSDC amount = Ok v else digits_value amount = Some v).
Proof.
  unfold parseV1Amount. destruct (ContainsByte "." amount).
  - destruct (parseUSDC amount) as [v|e]; [|done]. destruct (Z.leb_spec v 0) as [|Hpos]; [done|].
    intros [=<-]. exists v. split_and!; [done| |done].
    destruct (bigString_spec v) as (Hd & Hv & Hne); [lia|].
    apply parseIntegerBaseUnits_digits; [by apply isAllDigits_true|done|done].
  - destruct (isAllDigits amount) eqn:Hd; [|done]. destruct (allZeros amount) eqn:Hz; [done|].
    intros [=<-]. destruct (isAllDigits_inv _ Hd) as [Hne Hs].
    destruct (parse_digits_total amount 0) as (v & Hv & _ & Hpos); [lia|done|].
    exists v. split_and!; [by apply Hpos; right| |done].
    apply parseIntegerBaseUnits_digits; [done|done|by apply Hpos; right].
Qed.

Lemma x402_v1_amount_exact_witness :
  exists v, 0 < v /\ parseIntegerBaseUnits "5000" = Ok v /\ parseUSDC "0.005" = Ok v.
Proof. exact (x402_v1_amount_exact "0.005" "5000" ltac:(vm_compute; reflexivity)). Defined.

#[global] Arguments parseIntegerBaseUnits : simpl never.
#[global] Arguments PreferAndCheapest : simpl never.
