(* ===== verification/X402Registry.v ===== *)
(** * The x402 service registry (pkg/x402/registry.go, pin.go, policy.go, registry_store.go)

    The catalogue of manifests, the approvals of agents with their pins, the
    user-level enables, and the snapshot they are persisted to and loaded from.
    [url.Parse], SHA-256 over JSON and the Unicode case table are a class
    ([PinEnv]); the iteration order of the pins map is an argument. *)

From stdpp Require Import base numbers list gmap strings.
From S2P Require Import Prelude GoStrings GoStrconv GoText.

Definition TierPrimitive : string := "primitive".
Definition TierConvenience : string := "convenience".

Record ServiceEndpoint := mkServiceEndpoint {
  seURL : string;
  seMethod : string;
  seDescription : string;
  sePriceUSDC : string;
  seNetwork : string
}.

Record ServiceManifest := mkManifest {
  smID : string;
  smDisplayName : string;
  smCategory : string;
  smDescription : string;
  smEndpoint : string;
  smServiceURL : string;
  smEndpoints : list ServiceEndpoint;
  smNetworks : list string;
  smProtocols : list string;
  smMaxPriceUSDC : string;
  smUpdatedAt : Time;
  smSIWXDomain : string
}.

Record Pin := mkPin {
  pinServiceID : string;
  pinEndpointHost : string;
  pinManifestHash : string;
  pinMaxPriceUSDC : string
}.

Record Approval := mkApproval {
  apAgentID : string;
  apServiceID : string;
  apApprovedAt : Time;
  apMaxPriceUSDC : string;
  apTier : string
}.

Record PolicyEntry := mkPolicyEntry {
  peServiceID : string;
  peTier : string;
  peDefaultOn : bool;
  peHint : string
}.

Record UserEnableRecord := mkUserEnable {
  ueServiceID : string;
  ueEnabledAt : Time;
  ueMaxPriceUSDC : string;
  uePin : Pin
}.

Record RegistrySnapshot := mkRegistrySnapshot {
  snManifests : list ServiceManifest;
  snPolicy : list PolicyEntry;
  snApprovals : list Approval;
  snPins : list Pin;
  snUserEnabled : list UserEnableRecord
}.

(** [store] is what was last saved, [None] without a store. *)
Record Registry := mkRegistry {
  manifests : gmap string ServiceManifest;
  policy : gmap string PolicyEntry;
  approvals : gmap (string * string) Approval;
  pins : gmap (string * string) Pin;
  userEnabled : gmap string UserEnableRecord;
  rstore : option RegistrySnapshot
}.

Record ListApprovedListing := mkListing {
  laID : string;
  laDisplayName : string;
  laDescription : string;
  laCategory : string;
  laEndpoint : string;
  laServiceURL : string;
  laEndpoints : list ServiceEndpoint;
  laNetworks : list string;
  laTier : string;
  laPriceUSDC : string;
  laHint : string
}.

Inductive RegistryErr :=
| ErrServiceUnknown
| ErrServiceNotApproved
| ErrPinMismatch (what : string)
| ErrRegistry (msg : string).

#[export] Instance RegistryErr_eq_dec : EqDecision RegistryErr.
Proof. solve_decision. Defined.

(** [host] is [url.Parse(s).Host], [None] on a parse error; [digest] is
    "sha256:" and the hex of the hash of the JSON encoding. *)
Class PinEnv := {
  parseHost : string -> option string;
  digest : ServiceManifest -> string;
  unicodeLower : string -> string
}.

Definition values {K A} `{Countable K} (m : gmap K A) : list A := (map_to_list m).*2.

(** ** Pins *)

Section Pins.
Context `{E : PinEnv}.

Definition manifestHost (m : ServiceManifest) : result RegistryErr string :=
  match parseHost (TrimSpace (smEndpoint m)) with
  | None => Err (ErrRegistry "parsing endpoint")
  | Some host => if bool_decide (host = "") then Err (ErrRegistry "endpoint has no host")
                 else Ok (ToLower unicodeLower host)
  end.

(** The fields that [canonicalManifestJSON] keeps. *)
Definition canonicalManifest (m : ServiceManifest) : ServiceManifest :=
  mkManifest (smID m) (smDisplayName m) (smCategory m) (smDescription m) (smEndpoint m) ""
    [] (smNetworks m) [] (smMaxPriceUSDC m) zeroTime (smSIWXDomain m).

Definition manifestHash (m : ServiceManifest) : string := digest (canonicalManifest m).

Definition PinFromManifest (m : ServiceManifest) : result RegistryErr Pin :=
  match manifestHost m with
  | Err e => Err e
  | Ok host => Ok (mkPin (smID m) host (manifestHash m) (smMaxPriceUSDC m))
  end.

Definition Verify (p : Pin) (m : ServiceManifest) : result RegistryErr unit :=
  if bool_decide (smID m <> pinServiceID p) then Err (ErrPinMismatch "service_id")
  else match manifestHost m with
       | Err e => Err e
       | Ok host =>
           if bool_decide (host <> pinEndpointHost p) then Err (ErrPinMismatch "endpoint host")
           else if bool_decide (manifestHash m <> pinManifestHash p)
           then Err (ErrPinMismatch "manifest hash diverged")
           else Ok tt
       end.

(** ** Persistence *)

Definition agentApprovalAgentForPin (p : Pin) (snap : RegistrySnapshot) : string :=
  match list_find (fun a => apServiceID a = pinServiceID p) (snApprovals snap) with
  | Some (_, a) => apAgentID a
  | None => ""
  end.

Definition emptyRegistry (store : option RegistrySnapshot) : Registry :=
  mkRegistry ∅ ∅ ∅ ∅ ∅ store.

Definition NewRegistry (store : option RegistrySnapshot) : Registry :=
  match store with
  | None => emptyRegistry None
  | Some snap =>
      mkRegistry
        (foldl (fun acc m => <[smID m := m]> acc) ∅ (snManifests snap))
        (foldl (fun acc p => <[peServiceID p := p]> acc) ∅ (snPolicy snap))
        (foldl (fun acc a => <[(apAgentID a, apServiceID a) := a]> acc) ∅ (snApprovals snap))
        (foldl (fun acc p => <[(agentApprovalAgentForPin p snap, pinServiceID p) := p]> acc) ∅ (snPins snap))
        (foldl (fun acc u => <[ueServiceID u := u]> acc) ∅ (snUserEnabled snap))
        (Some snap)
  end.

Definition approval_lt (a b : Approval) : bool :=
  if bool_decide (apAgentID a <> apAgentID b) then apAgentID a <s? apAgentID b
  else apServiceID a <s? apServiceID b.

(** The snapshot [persistLocked] saves.  Pins of one service compare equal, so
    their order is that of the map iteration and of an unstable sort: [order]
    permutes them. *)
Definition snapshotOf (order : list Pin -> list Pin) (r : Registry) : RegistrySnapshot :=
  mkRegistrySnapshot
    (sortBy (fun a b => smID a <s? smID b) (values (manifests r)))
    (sortBy (fun a b => peServiceID a <s? peServiceID b) (values (policy r)))
    (sortBy approval_lt (values (approvals r)))
    (sortBy (fun a b => pinServiceID a <s? pinServiceID b) (order (values (pins r))))
    (sortBy (fun a b => ueServiceID a <s? ueServiceID b) (values (userEnabled r))).

(** [saved] is false when the store fails. *)
Definition persistLocked (order : list Pin -> list Pin) (saved : bool) (r : Registry)
  : Registry * result RegistryErr unit :=
  match rstore r with
  | None => (r, Ok tt)
  | Some _ =>
      if saved then
        (mkRegistry (manifests r) (policy r) (approvals r) (pins r) (userEnabled r)
           (Some (snapshotOf order r)), Ok tt)
      else (r, Err (ErrRegistry "save"))
  end.

(** ** Operations *)

Section Operations.
Context (order : list Pin -> list Pin) (saved : bool).

Definition AddManifest (r : Registry) (m : ServiceManifest) : Registry * result RegistryErr unit :=
  if bool_decide (smID m = "") then (r, Err (ErrRegistry "manifest missing id"))
  else persistLocked order saved
         (mkRegistry (<[smID m := m]> (manifests r)) (policy r) (approvals r) (pins r) (userEnabled r) (rstore r)).

Definition SetPolicy (r : Registry) (p : PolicyEntry) : Registry * result RegistryErr unit :=
  if bool_decide (peServiceID p = "") then (r, Err (ErrRegistry "policy entry missing service_id"))
  else persistLocked order saved
         (mkRegistry (manifests r) (<[peServiceID p := p]> (policy r)) (approvals r) (pins r) (userEnabled r) (rstore r)).

Definition Approve (now : Time) (r : Registry) (agentID serviceID maxPriceUSDC : string)
  : Registry * result RegistryErr unit :=
  match manifests r !! serviceID with
  | None => (r, Err ErrServiceUnknown)
  | Some m =>
      match PinFromManifest m with
      | Err e => (r, Err e)
      | Ok pin =>
          let tier := match policy r !! serviceID with Some p => peTier p | None => TierConvenience end in
          let key := (agentID, serviceID) in
          persistLocked order saved
            (mkRegistry (manifests r) (policy r)
               (<[key := mkApproval agentID serviceID now maxPriceUSDC tier]> (approvals r))
               (<[key := pin]> (pins r)) (userEnabled r) (rstore r))
      end
  end.

Definition Revoke (r : Registry) (agentID serviceID : string) : Registry * result RegistryErr unit :=
  let key := (agentID, serviceID) in
  persistLocked order saved
    (mkRegistry (manifests r) (policy r) (delete key (approvals r)) (delete key (pins r))
       (userEnabled r) (rstore r)).

Definition SetUserEnabled (now : Time) (r : Registry) (serviceID maxPriceUSDC : string)
  : Registry * result RegistryErr unit :=
  match manifests r !! serviceID with
  | None => (r, Err ErrServiceUnknown)
  | Some m =>
      match PinFromManifest m with
      | Err e => (r, Err e)
      | Ok pin =>
          let maxPriceUSDC := if bool_decide (maxPriceUSDC = "") then smMaxPriceUSDC m else maxPriceUSDC in
          persistLocked order saved
            (mkRegistry (manifests r) (policy r) (approvals r) (pins r)
               (<[serviceID := mkUserEnable serviceID now maxPriceUSDC pin]> (userEnabled r)) (rstore r))
      end
  end.

Definition SetUserDisabled (r : Registry) (serviceID : string) : Registry * result RegistryErr unit :=
  persistLocked order saved
    (mkRegistry (manifests r) (policy r) (approvals r) (pins r) (delete serviceID (userEnabled r)) (rstore r)).

End Operations.

(** ** Reading *)

Definition Policy_ (r : Registry) (serviceID : string) : option PolicyEntry := policy r !! serviceID.

Definition Manifest (r : Registry) (serviceID : string) : result RegistryErr ServiceManifest :=
  match manifests r !! serviceID with Some m => Ok m | None => Err ErrServiceUnknown end.

Definition AllManifests (r : Registry) : list ServiceManifest :=
  sortBy (fun a b => smID a <s? smID b) (values (manifests r)).

Definition UserEnabled (r : Registry) (serviceID : string) : option UserEnableRecord :=
  userEnabled r !! serviceID.

Definition Approval_ (r : Registry) (agentID serviceID : string) : result RegistryErr Approval :=
  match approvals r !! (agentID, serviceID) with Some a => Ok a | None => Err ErrServiceNotApproved end.

Definition Pin_ (r : Registry) (agentID serviceID : string) : result RegistryErr Pin :=
  match pins r !! (agentID, serviceID) with Some p => Ok p | None => Err ErrServiceNotApproved end.

Definition listingEndpoints (m : ServiceManifest) : list ServiceEndpoint :=
  if bool_decide (smEndpoints m <> []) then smEndpoints m
  else if isBlank (smEndpoint m) then []
  else [mkServiceEndpoint (smEndpoint m) "" "" (smMaxPriceUSDC m)
          (match smNetworks m with n :: _ => n | [] => "" end)].

Definition listingLocked (r : Registry) (m : ServiceManifest) (defaultTier : string) : ListApprovedListing :=
  let '(tier, hint) := match policy r !! smID m with
                       | Some p => (peTier p, peHint p)
                       | None => (defaultTier, "")
                       end in
  mkListing (smID m) (smDisplayName m) (smDescription m) (smCategory m) (smEndpoint m)
    (smServiceURL m) (listingEndpoints m) (smNetworks m) tier (smMaxPriceUSDC m) hint.

(** The two loops: what was seen and the listings so far. *)
Definition listApproval (r : Registry) (agentID : string)
    (acc : gset string * list ListApprovedListing) (entry : (string * string) * Approval)
  : gset string * list ListApprovedListing :=
  let '(key, ap) := entry in
  if bool_decide (key.1 <> agentID) then acc
  else match manifests r !! key.2 with
       | None => acc
       | Some m => ({[key.2]} ∪ acc.1, acc.2 ++ [listingLocked r m (apTier ap)])
       end.

Definition listUserEnabled (r : Registry) (seen : gset string) (out : list ListApprovedListing)
    (entry : string * UserEnableRecord) : list ListApprovedListing :=
  let '(serviceID, _) := entry in
  if bool_decide (serviceID ∈ seen) then out
  else match manifests r !! serviceID with
       | None => out
       | Some m => out ++ [listingLocked r m TierConvenience]
       end.

Definition ListApproved (r : Registry) (agentID : string) : list ListApprovedListing :=
  let '(seen, out) := foldl (listApproval r agentID) (∅, []) (map_to_list (approvals r)) in
  let out := foldl (listUserEnabled r seen) out (map_to_list (userEnabled r)) in
  sortBy (fun a b => laID a <s? laID b) out.

(** [Backend.resolveAuthorization] (backend.go). *)
Definition resolveAuthorization (r : Registry) (agentID serviceID : string) : result RegistryErr Pin :=
  match Approval_ r agentID serviceID with
  | Ok _ => Pin_ r agentID serviceID
  | Err _ =>
      match UserEnabled r serviceID with
      | Some user => Ok (uePin user)
      | None => Err ErrServiceNotApproved
      end
  end.

End Pins.

(** ** Sorting keeps the elements *)

(** ** Rebuilding a map from its values *)

Section Rebuild.
Context {K A : Type} `{Countable K} (key : A -> K).

Lemma foldl_insert_lookup (l : list A) (acc : gmap K A) k :
  NoDup (key <$> l) ->
  foldl (fun acc x => <[key x := x]> acc) acc l !! k
  = match list_find (fun x => key x = k) l with Some (_, x) => Some x | None => acc !! k end.
Proof.
  revert acc. induction l as [|x l IH]; intros acc Hnd; [done|]. cbn [foldl].
  inversion Hnd as [|? ? Hnin Hnd']; subst. rewrite IH by done. cbn [list_find].
  destruct (decide (key x = k)) as [<-|Hne].
  - destruct (list_find _ l) as [[i y]|] eqn:E; [|by rewrite lookup_insert_eq].
    apply list_find_Some in E as (Hi & Hy & _). destruct Hnin. rewrite <- Hy.
    apply list_elem_of_fmap_2, list_elem_of_lookup. by exists i.
  - destruct (list_find _ l) as [[i y]|]; simpl; [done|]. by rewrite lookup_insert_ne.
Qed.

Lemma rebuild (m : gmap K A) (l : list A) :
  (forall k x, m !! k = Some x -> key x = k) -> l ≡ₚ values m ->
  foldl (fun acc x => <[key x := x]> acc) ∅ l = m.
Proof.
  intros Hkey Hl. assert (key <$> l ≡ₚ (map_to_list m).*1) as Hkeys.
  { rewrite Hl. unfold values. rewrite <- list_fmap_compose. apply Permutation_refl'.
    apply list_fmap_ext. intros i [k x] Hi. simpl. apply Hkey.
    apply elem_of_map_to_list, list_elem_of_lookup. by exists i. }
  assert (forall x, x ∈ l <-> m !! key x = Some x) as Hin.
  { intros x. rewrite Hl. unfold values. rewrite list_elem_of_fmap. split.
    - intros ([k y] & -> & Hy). apply elem_of_map_to_list in Hy. simpl. by rewrite (Hkey k y Hy).
    - intros Hx. exists (key x, x). split; [done|]. by apply elem_of_map_to_list. }
  apply map_eq. intros k. rewrite foldl_insert_lookup.
  2:{ rewrite Hkeys. apply NoDup_fst_map_to_list. }
  rewrite lookup_empty. destruct (list_find _ l) as [[i x]|] eqn:E.
  - apply list_find_Some in E as (Hi & <- & _). symmetry. apply Hin, list_elem_of_lookup. by exists i.
  - apply list_find_None in E. destruct (m !! k) as [x|] eqn:Ex; [|done].
    rewrite Forall_forall in E. destruct (E x); [|by apply Hkey]. apply Hin. by rewrite (Hkey k x Ex).
Qed.

End Rebuild.

(** ** The state of a running registry *)

Section Run.
Context `{E : PinEnv} (order : list Pin -> list Pin).

(** Records sit under their own keys, and a pin under every approval. *)
Record registry_ok (r : Registry) : Prop := {
  ok_manifests : forall k m, manifests r !! k = Some m -> smID m = k;
  ok_policy : forall k p, policy r !! k = Some p -> peServiceID p = k;
  ok_approvals : forall k a, approvals r !! k = Some a -> (apAgentID a, apServiceID a) = k;
  ok_pins : forall k p, pins r !! k = Some p -> pinServiceID p = k.2;
  ok_user : forall k u, userEnabled r !! k = Some u -> ueServiceID u = k;
  ok_pinned : forall k, is_Some (pins r !! k) <-> is_Some (approvals r !! k)
}.

Inductive registry_op :=
| OpAddManifest (m : ServiceManifest)
| OpSetPolicy (p : PolicyEntry)
| OpApprove (now : Time) (agentID serviceID maxPriceUSDC : string)
| OpRevoke (agentID serviceID : string)
| OpSetUserEnabled (now : Time) (serviceID maxPriceUSDC : string)
| OpSetUserDisabled (serviceID : string).

(** One operation, its save failing or not. *)
Definition apply_op (r : Registry) (op : registry_op * bool) : Registry :=
  (match op.1 with
   | OpAddManifest m => AddManifest order op.2 r m
   | OpSetPolicy p => SetPolicy order op.2 r p
   | OpApprove now a s max => Approve order op.2 now r a s max
   | OpRevoke a s => Revoke order op.2 r a s
   | OpSetUserEnabled now s max => SetUserEnabled order op.2 now r s max
   | OpSetUserDisabled s => SetUserDisabled order op.2 r s
   end).1.

Definition run_ops (st : option RegistrySnapshot) (ops : list (registry_op * bool)) : Registry :=
  foldl apply_op (emptyRegistry st) ops.

Lemma persist_fields saved r :
  let r' := (persistLocked order saved r).1 in
  manifests r' = manifests r /\ policy r' = policy r /\ approvals r' = approvals r /\
  pins r' = pins r /\ userEnabled r' = userEnabled r.
Proof. unfold persistLocked. destruct (rstore r), saved; done. Qed.

Lemma registry_ok_ext r r' :
  manifests r' = manifests r -> policy r' = policy r -> approvals r' = approvals r ->
  pins r' = pins r -> userEnabled r' = userEnabled r -> registry_ok r -> registry_ok r'.
Proof.
  intros E1 E2 E3 E4 E5 [H1 H2 H3 H4 H5 H6]. split; rewrite ?E1, ?E2, ?E3, ?E4, ?E5; auto.
Qed.

Lemma persist_ok saved r : registry_ok r -> registry_ok (persistLocked order saved r).1.
Proof.
  destruct (persist_fields saved r) as (? & ? & ? & ? & ?). by apply registry_ok_ext.
Qed.

Lemma insert_keyed {K A} `{Countable K} (m : gmap K A) (P : K -> A -> Prop) k x :
  P k x -> (forall k x, m !! k = Some x -> P k x) ->
  forall k' x', <[k := x]> m !! k' = Some x' -> P k' x'.
Proof.
  intros Hx Hm k' x'. destruct (decide (k = k')) as [<-|Hne].
  - rewrite lookup_insert_eq. by intros [=<-].
  - rewrite lookup_insert_ne by done. apply Hm.
Qed.

Lemma delete_keyed {K A} `{Countable K} (m : gmap K A) (P : K -> A -> Prop) k :
  (forall k x, m !! k = Some x -> P k x) -> forall k' x', delete k m !! k' = Some x' -> P k' x'.
Proof. intros Hm k' x' [_ Hx]%lookup_delete_Some. by apply Hm. Qed.

Lemma PinFromManifest_service m p : PinFromManifest m = Ok p -> pinServiceID p = smID m.
Proof. unfold PinFromManifest. destruct (manifestHost m); [|done]. by intros [=<-]. Qed.

Lemma apply_op_ok r op : registry_ok r -> registry_ok (apply_op r op).
Proof.
  intros Hok. pose proof Hok as [H1 H2 H3 H4 H5 H6]. unfold apply_op.
  destruct op as [[m|p|now a s max|a s|now s max|s] saved]; cbn [fst snd].
  - unfold AddManifest. case_bool_decide; [done|]. apply persist_ok. split; try done.
    by apply (insert_keyed _ (fun k m => smID m = k)).
  - unfold SetPolicy. case_bool_decide; [done|]. apply persist_ok. split; try done.
    by apply (insert_keyed _ (fun k p => peServiceID p = k)).
  - unfold Approve. destruct (manifests r !! s) as [m|] eqn:Em; [|done].
    destruct (PinFromManifest m) as [pin|] eqn:Ep; [|done]. apply persist_ok. split; try done; simpl.
    + by apply (insert_keyed _ (fun k a => (apAgentID a, apServiceID a) = k)).
    + apply (insert_keyed _ (fun k p => pinServiceID p = k.2)); [|done].
      apply PinFromManifest_service in Ep. rewrite Ep. by apply H1.
    + intros k. rewrite !lookup_insert_is_Some'. by rewrite H6.
  - unfold Revoke. apply persist_ok. split; try done; simpl.
    + by apply (delete_keyed _ (fun k a => (apAgentID a, apServiceID a) = k)).
    + by apply (delete_keyed _ (fun k p => pinServiceID p = k.2)).
    + intros k. rewrite !lookup_delete_is_Some. by rewrite H6.
  - unfold SetUserEnabled. destruct (manifests r !! s) as [m|]; [|done].
    destruct (PinFromManifest m) as [pin|]; [|done]. apply persist_ok. split; try done; simpl.
    by apply (insert_keyed _ (fun k u => ueServiceID u = k)).
  - unfold SetUserDisabled. apply persist_ok. split; try done; simpl.
    by apply (delete_keyed _ (fun k u => ueServiceID u = k)).
Qed.

Lemma run_ops_ok st ops : registry_ok (run_ops st ops).
Proof.
  unfold run_ops. apply foldl_invariant; [|intros r op _; apply apply_op_ok].
  split; simpl; try (intros ? ?; by rewrite lookup_empty). intros k. rewrite !lookup_empty. done.
Qed.

End Run.

(** ** A restart *)

Lemma foldl_insert_keys {K A B} `{Countable K} (key : B -> K) (val : B -> A) (l : list B) (acc : gmap K A) k :
  is_Some (foldl (fun acc x => <[key x := val x]> acc) acc l !! k) ->
  is_Some (acc !! k) \/ exists x, x ∈ l /\ key x = k.
Proof.
  revert acc. induction l as [|x l IH]; intros acc Hs; [by left|]. cbn [foldl] in Hs.
  apply IH in Hs as [Hs|(y & Hy & <-)]; [|right; exists y; set_solver].
  apply lookup_insert_is_Some in Hs as [<-|[_ Hs]]; [right; exists x; set_solver|by left].
Qed.


Section Reload.
Context `{E : PinEnv} (order : list Pin -> list Pin).
Hypothesis order_perm : forall l, order l ≡ₚ l.

Lemma reload_catalogue r :
  registry_ok r ->
  let r' := NewRegistry (Some (snapshotOf order r)) in
  manifests r' = manifests r /\ policy r' = policy r /\ approvals r' = approvals r /\
  userEnabled r' = userEnabled r.
Proof using Type.
  intros [H1 H2 H3 H4 H5 H6]. cbn. split_and!.
  - apply (rebuild smID); [done|apply sortBy_perm].
  - apply (rebuild peServiceID); [done|apply sortBy_perm].
  - apply (rebuild (fun a => (apAgentID a, apServiceID a))); [done|apply sortBy_perm].
  - apply (rebuild ueServiceID); [done|apply sortBy_perm].
Qed.

Lemma elem_of_snapshot_approvals r a :
  registry_ok r ->
  (a ∈ snApprovals (snapshotOf order r) <-> approvals r !! (apAgentID a, apServiceID a) = Some a).
Proof using Type.
  intros [_ _ H3 _ _ _]. cbn. rewrite sortBy_perm. unfold values. rewrite list_elem_of_fmap. split.
  - intros ([k y] & -> & Hy). apply elem_of_map_to_list in Hy. simpl. by rewrite (H3 k y Hy).
  - intros Ha. eexists (_, a). split; [done|]. by apply elem_of_map_to_list.
Qed.

(** The agent a pin goes to is one that approved its service. *)
Lemma pin_agent_approved r p a :
  registry_ok r -> approvals r !! (a, pinServiceID p) <> None ->
  is_Some (approvals r !! (agentApprovalAgentForPin p (snapshotOf order r), pinServiceID p)).
Proof using Type.
  intros Hok Ha. unfold agentApprovalAgentForPin.
  destruct (list_find _ _) as [[i x]|] eqn:El.
  - apply list_find_Some in El as (Hi & Hs & _).
    assert (x ∈ snApprovals (snapshotOf order r)) as Hx by (apply list_elem_of_lookup; by exists i).
    apply elem_of_snapshot_approvals in Hx; [|done]. rewrite <- Hs. by eexists.
  - apply list_find_None in El. rewrite Forall_forall in El.
    destruct (approvals r !! (a, pinServiceID p)) as [x|] eqn:Ex; [|done].
    pose proof (ok_approvals r Hok _ _ Ex) as Hk.
    destruct (El x); [|by injection Hk]. apply elem_of_snapshot_approvals; [done|]. by rewrite Hk.
Qed.

Lemma reload_pins r :
  registry_ok r ->
  (forall a a' s, is_Some (approvals r !! (a, s)) -> is_Some (approvals r !! (a', s)) -> a = a') ->
  pins (NewRegistry (Some (snapshotOf order r))) = pins r.
Proof using order_perm.
  intros Hok Huniq. cbn [NewRegistry pins]. set (snap := snapshotOf order r).
  apply (rebuild (fun p => (agentApprovalAgentForPin p snap, pinServiceID p))).
  - intros [a s] p Hp. pose proof (ok_pins r Hok _ _ Hp) as Hs. simpl in Hs. subst s. f_equal.
    assert (is_Some (approvals r !! (a, pinServiceID p))) as Ha
      by (apply (ok_pinned r Hok); by eexists).
    apply (Huniq _ _ (pinServiceID p)); [|done]. eapply pin_agent_approved; [done|].
    destruct Ha as [x Hx]. by rewrite Hx.
  - unfold snap. cbn [snPins snapshotOf]. rewrite sortBy_perm. apply order_perm.
Qed.

(** After a reload the pins of a service all belong to one agent. *)
Lemma reload_one_pin snap a a' s :
  is_Some (pins (NewRegistry (Some snap)) !! (a, s)) ->
  is_Some (pins (NewRegistry (Some snap)) !! (a', s)) -> a = a'.
Proof using Type.
  cbn [NewRegistry pins]. intros H1 H2.
  apply (foldl_insert_keys (fun p => (agentApprovalAgentForPin p snap, pinServiceID p)) (fun p => p)) in H1, H2.
  destruct H1 as [[? H1]|(p & _ & [= <- Hs])]; [by rewrite lookup_empty in H1|].
  destruct H2 as [[? H2]|(p' & _ & [= <- Hs'])]; [by rewrite lookup_empty in H2|].
  unfold agentApprovalAgentForPin. by rewrite Hs, Hs'.
Qed.

(** Restarting from the saved snapshot gives back the catalogue,
    the policy, the approvals and the user-level enables of any registry the
    operations reach; and its pins too, when no service is approved by two
    agents. *)
Theorem x402_registry_reload st ops :
  let r := run_ops order st ops in
  let r' := NewRegistry (Some (snapshotOf order r)) in
  (manifests r' = manifests r /\ policy r' = policy r /\ approvals r' = approvals r /\
   userEnabled r' = userEnabled r) /\
  ((forall a a' s, is_Some (approvals r !! (a, s)) -> is_Some (approvals r !! (a', s)) -> a = a') ->
   pins r' = pins r).
Proof using order_perm.
  intros r r'. pose proof (run_ops_ok order st ops) as Hok.
  split; [by apply reload_catalogue|by apply reload_pins].
Qed.

(** When two agents approved the same service, a restart takes the
    pin of at least one of them: its approval is still there, but its calls are
    refused as not approved, even where the user enabled the service. *)
Theorem x402_registry_reload_drops_pin st ops a a' s :
  let r := run_ops order st ops in
  let r' := NewRegistry (Some (snapshotOf order r)) in
  is_Some (approvals r !! (a, s)) -> is_Some (approvals r !! (a', s)) -> a <> a' ->
  (is_ok (resolveAuthorization r a s) = true /\ is_ok (resolveAuthorization r a' s) = true) /\
  (resolveAuthorization r' a s = Err ErrServiceNotApproved \/
   resolveAuthorization r' a' s = Err ErrServiceNotApproved).
Proof using Type.
  intros r r' Ha Ha' Hne. pose proof (run_ops_ok order st ops) as Hok. fold r in Hok.
  destruct (reload_catalogue r Hok) as (_ & _ & Happ & _). fold r' in Happ.
  pose proof (proj2 (ok_pinned r Hok _) Ha) as [p Hp].
  pose proof (proj2 (ok_pinned r Hok _) Ha') as [p' Hp'].
  destruct Ha as [x Hx], Ha' as [x' Hx']. unfold resolveAuthorization, Approval_, Pin_.
  rewrite Happ, Hx, Hx', Hp, Hp'. split; [done|].
  destruct (pins r' !! (a, s)) as [q|] eqn:Eq; [|by left].
  destruct (pins r' !! (a', s)) as [q'|] eqn:Eq'; [|by right].
  destruct Hne. by apply (reload_one_pin (snapshotOf order r) a a' s); [exists q|exists q'].
Qed.

End Reload.

Definition demoPinEnv : PinEnv :=
  {| parseHost := fun s => Some s; digest := fun m => smEndpoint m +:+ smMaxPriceUSDC m;
     unicodeLower := fun s => s |}.

Definition demo_manifest : ServiceManifest :=
  mkManifest "svc" "Service" "" "" "https://svc.example" "" [] ["base"] [] "0.05" zeroTime "".

Definition demo_ops : list (registry_op * bool) :=
  [(OpAddManifest demo_manifest, true); (OpApprove 0 "alice" "svc" "0.05", true);
   (OpApprove 0 "bob" "svc" "0.05", true); (OpSetUserEnabled 0 "svc" "", true)].

Lemma x402_registry_reload_drops_pin_witness :
  let r := @run_ops demoPinEnv (fun l => l) (Some (snapshotOf (fun l => l) (emptyRegistry None))) demo_ops in
  let r' := NewRegistry (Some (snapshotOf (fun l => l) r)) in
  resolveAuthorization r' "alice" "svc" = Err ErrServiceNotApproved \/
  resolveAuthorization r' "bob" "svc" = Err ErrServiceNotApproved.
Proof.
  exact (proj2 (@x402_registry_reload_drops_pin demoPinEnv (fun l => l)
    (Some (snapshotOf (fun l => l) (emptyRegistry None))) demo_ops "alice" "bob" "svc"
    (mk_is_Some _ (mkApproval "alice" "svc" 0 "0.05" TierConvenience) ltac:(vm_compute; reflexivity))
    (mk_is_Some _ (mkApproval "bob" "svc" 0 "0.05" TierConvenience) ltac:(vm_compute; reflexivity))
    ltac:(done))).
Defined.

Lemma x402_registry_reload_witness :
  let r := @run_ops demoPinEnv (fun l => l) (Some (snapshotOf (fun l => l) (emptyRegistry None))) demo_ops in
  approvals (NewRegistry (Some (snapshotOf (fun l => l) r))) = approvals r.
Proof.
  exact (proj1 (proj2 (proj2 (proj1 (@x402_registry_reload demoPinEnv (fun l => l)
    (fun l => Permutation_refl l) (Some (snapshotOf (fun l => l) (emptyRegistry None))) demo_ops))))).
Defined.

(** ** What a pin protects *)

(** A pin accepts a live manifest exactly when it agrees with the
    approved one in every field but the display ones (service URL, endpoint
    list, protocols, update time), for a hash without collision between the
    two. *)
Theorem x402_pin_accepts_unchanged `{E : PinEnv} m m' p :
  PinFromManifest m = Ok p ->
  (digest (canonicalManifest m') = digest (canonicalManifest m) ->
   canonicalManifest m' = canonicalManifest m) ->
  (Verify p m' = Ok tt <-> canonicalManifest m' = canonicalManifest m).
Proof.
  unfold PinFromManifest, Verify. destruct (manifestHost m) as [host|] eqn:Eh; [|done].
  intros [=<-] Hinj. cbn [pinServiceID pinEndpointHost pinManifestHash]. split.
  - case_bool_decide; [done|]. destruct (manifestHost m') as [host'|]; [|done].
    case_bool_decide; [done|]. case_bool_decide as Hd; [done|]. intros _. exact (Hinj Hd).
  - intros Hc. pose proof (f_equal smID Hc) as Hid. pose proof (f_equal smEndpoint Hc) as Hep.
    simpl in Hid, Hep. rewrite bool_decide_eq_false_2 by tauto.
    assert (manifestHost m' = Ok host) as -> by (rewrite <- Eh; unfold manifestHost; by rewrite Hep).
    rewrite bool_decide_eq_false_2 by tauto. unfold manifestHash. rewrite Hc.
    by rewrite bool_decide_eq_false_2 by tauto.
Qed.

Definition with_price (m : ServiceManifest) (price : string) : ServiceManifest :=
  mkManifest (smID m) (smDisplayName m) (smCategory m) (smDescription m) (smEndpoint m) (smServiceURL m)
    (smEndpoints m) (smNetworks m) (smProtocols m) price (smUpdatedAt m) (smSIWXDomain m).

Lemma x402_pin_accepts_unchanged_witness :
  @Verify demoPinEnv (mkPin "svc" "https://svc.example" "https://svc.example0.05" "0.05")
    (with_price demo_manifest "0.06") = Ok tt <->
  canonicalManifest (with_price demo_manifest "0.06") = canonicalManifest demo_manifest.
Proof.
  exact (@x402_pin_accepts_unchanged demoPinEnv demo_manifest (with_price demo_manifest "0.06")
    (mkPin "svc" "https://svc.example" "https://svc.example0.05" "0.05")
    ltac:(vm_compute; reflexivity) ltac:(intros H; vm_compute in H; discriminate H)).
Defined.

(** ** The services an agent sees *)

Section Listing.
Context (r : Registry) (agentID : string).
Hypothesis Hok : registry_ok r.

Definition known (s : string) : Prop := is_Some (manifests r !! s).

Lemma listing_id m tier : laID (listingLocked r m tier) = smID m.
Proof using Type. unfold listingLocked. by destruct (policy r !! smID m). Qed.

Lemma listApproval_step (seen : gset string) out key ap :
  listApproval r agentID (seen, out) (key, ap) =
  if bool_decide (key.1 = agentID /\ known key.2)
  then ({[key.2]} ∪ seen, out ++ [listingLocked r (default (mkManifest "" "" "" "" "" "" [] [] [] "" 0 "")
    (manifests r !! key.2)) (apTier ap)])
  else (seen, out).
Proof using Type.
  unfold listApproval, known. destruct (decide (key.1 = agentID)) as [He|Hne].
  - rewrite (bool_decide_eq_false_2 (key.1 <> agentID)) by tauto.
    destruct (manifests r !! key.2) as [m|] eqn:Em.
    + by rewrite bool_decide_eq_true_2 by eauto.
    + rewrite bool_decide_eq_false_2; [done|]. intros [_ [? [=]]].
  - rewrite bool_decide_eq_true_2 by done. by rewrite bool_decide_eq_false_2 by tauto.
Qed.

(** What the first loop collects from its entries. *)
Lemma listApproval_spec (l : list ((string * string) * Approval)) :
  NoDup l.*1 ->
  let '(seen, out) := foldl (listApproval r agentID) (∅, []) l in
  (forall s, s ∈ seen <-> (agentID, s) ∈ l.*1 /\ known s) /\
  (forall s, s ∈ laID <$> out <-> s ∈ seen) /\ NoDup (laID <$> out).
Proof using Hok.
  induction l as [|[key ap] l IH] using rev_ind; intros Hnd.
  { simpl. split_and!; [set_solver|set_solver|constructor]. }
  rewrite fmap_app in Hnd |- *. cbn [fmap list_fmap fst] in Hnd |- *. apply NoDup_app in Hnd as (Hnd & Hdis & _).
  rewrite foldl_snoc. specialize (IH Hnd). destruct (foldl _ _ l) as [seen out].
  destruct IH as (I1 & I2 & I3). rewrite listApproval_step. case_bool_decide as Hk.
  - destruct Hk as [Hagent [m Hm]]. destruct key as [a s]. cbn [fst snd] in *. subst a. rewrite Hm. cbn [default from_option id].
    assert (s ∉ seen) as Hnew.
    { intros Hin. apply I1 in Hin as [Hin _]. apply (Hdis _ Hin). set_solver. }
    rewrite fmap_app. cbn [fmap list_fmap]. rewrite listing_id, (ok_manifests r Hok _ _ Hm). split_and!.
    + intros s'. rewrite elem_of_union, elem_of_singleton, I1, elem_of_app, list_elem_of_singleton.
      split; [intros [-> |[? ?]]; [split; [by right|by exists m]|tauto]|].
      intros [[?|[=->]] ?]; tauto.
    + intros s'. rewrite elem_of_app, list_elem_of_singleton, I2, elem_of_union, elem_of_singleton. tauto.
    + apply NoDup_app. split_and!; [done| |apply NoDup_singleton].
      intros x Hx Hx'. apply list_elem_of_singleton in Hx' as ->. by apply Hnew, I2.
  - split_and!; [|done|done]. intros s'. rewrite I1, elem_of_app, list_elem_of_singleton.
    split; [tauto|]. intros [[?| <-] ?]; [done|]. destruct Hk. done.
Qed.

Lemma listUserEnabled_spec (l : list (string * UserEnableRecord)) seen out :
  NoDup l.*1 -> (forall s, s ∈ laID <$> out <-> s ∈ seen) -> NoDup (laID <$> out) ->
  let out' := foldl (listUserEnabled r seen) out l in
  (forall s, s ∈ laID <$> out' <-> s ∈ seen \/ (s ∈ l.*1 /\ known s)) /\ NoDup (laID <$> out').
Proof using Hok.
  intros Hnd Hseen Hout. induction l as [|[s u] l IH] using rev_ind; [simpl; split; [set_solver|done]|].
  rewrite fmap_app in Hnd |- *. cbn [fmap list_fmap fst] in Hnd |- *. apply NoDup_app in Hnd as (Hnd & Hdis & _).
  destruct (IH Hnd) as [I1 I2]. clear IH. cbv zeta. rewrite foldl_snoc.
  set (o := foldl (listUserEnabled r seen) out l) in *. unfold listUserEnabled. case_bool_decide as Hs.
  - split; [|done]. intros s'. rewrite I1, elem_of_app, list_elem_of_singleton.
    split; [tauto|]. intros [?|[[?| ->] ?]]; tauto.
  - destruct (manifests r !! s) as [m|] eqn:Em.
    + rewrite fmap_app. cbn [fmap list_fmap]. rewrite listing_id, (ok_manifests r Hok _ _ Em). split.
      * intros s'. rewrite elem_of_app, list_elem_of_singleton, I1, elem_of_app, list_elem_of_singleton.
        split; [intros [?| ->]; [tauto|]; right; split; [by right|by exists m]|].
        intros [?|[[?| ->] ?]]; tauto.
      * apply NoDup_app. split_and!; [done| |apply NoDup_singleton].
        intros x Hx Hx'. apply list_elem_of_singleton in Hx' as ->. apply I1 in Hx as [Hx|[Hx _]]; [done|].
        apply (Hdis _ Hx). set_solver.
    + split; [|done]. intros s'. rewrite I1, elem_of_app, list_elem_of_singleton.
      split; [tauto|]. intros [?|[[?| ->] Hk]]; [tauto|tauto|]. destruct Hk as [? Hk]. by rewrite Em in Hk.
Qed.

Lemma resolve_ok s :
  is_ok (resolveAuthorization r agentID s) = true <->
  is_Some (approvals r !! (agentID, s)) \/ is_Some (userEnabled r !! s).
Proof using Hok.
  unfold resolveAuthorization, Approval_, Pin_, UserEnabled.
  pose proof (ok_pinned r Hok (agentID, s)) as Hp. destruct (approvals r !! (agentID, s)) as [a|].
  - destruct (proj2 Hp (ex_intro _ a eq_refl)) as [p ->]. split; [left; by exists a|done].
  - destruct (userEnabled r !! s) as [u|]; simpl; split; try done; [right; by exists u|].
    by intros [[? [=]]|[? [=]]].
Qed.

Lemma ListApproved_spec :
  (forall s, s ∈ laID <$> ListApproved r agentID <->
    known s /\ is_ok (resolveAuthorization r agentID s) = true) /\
  NoDup (laID <$> ListApproved r agentID).
Proof using Hok.
  unfold ListApproved. pose proof (listApproval_spec (map_to_list (approvals r)) (NoDup_fst_map_to_list _)) as H1.
  destruct (foldl (listApproval r agentID) _ _) as [seen out]. destruct H1 as (I1 & I2 & I3).
  destruct (listUserEnabled_spec (map_to_list (userEnabled r)) seen out (NoDup_fst_map_to_list _) I2 I3) as [J1 J2].
  set (out' := foldl (listUserEnabled r seen) out _) in *. clearbody out'.
  assert (laID <$> sortBy (fun a b => laID a <s? laID b) out' ≡ₚ laID <$> out') as Hp
    by (by rewrite sortBy_perm).
  split; [|by rewrite Hp]. intros s. rewrite Hp, J1, I1, resolve_ok.
  assert (forall {K A} `{Countable K} (m : gmap K A) k, k ∈ (map_to_list m).*1 <-> is_Some (m !! k)) as Hkeys.
  { intros K A ? ? m k. rewrite list_elem_of_fmap. split.
    - intros ([k' x] & -> & Hx). apply elem_of_map_to_list in Hx. by exists x.
    - intros [x Hx]. exists (k, x). split; [done|]. by apply elem_of_map_to_list. }
  rewrite !Hkeys. tauto.
Qed.

End Listing.

(** In every registry the operations reach, an agent is listed
    each service exactly once, and exactly the services of the catalogue whose
    calls would be authorised for it. *)
Theorem x402_listed_is_callable `{E : PinEnv} order st ops agentID :
  let r := run_ops order st ops in
  (forall s, s ∈ laID <$> ListApproved r agentID <->
    is_Some (manifests r !! s) /\ is_ok (resolveAuthorization r agentID s) = true) /\
  NoDup (laID <$> ListApproved r agentID).
Proof. intros r. apply ListApproved_spec, run_ops_ok. Qed.
