(* ===== verification/X402Backend.v ===== *)
(** * Paid calls (pkg/x402/transport.go, backend.go)

    The HTTP round trips of [Transport.Stream] with the 402 challenge, the
    signature and the paid retry, for x402 and for MPP; [Backend.StreamCall]
    around them, with the registry, the pin, the budget and the receipt.

    The HTTP client, the wallet signers, the Sign-In-With-X header and
    [time.Parse] are a class ([World]); what they answer may depend on
    everything that happened before, which is the list of [Event]s. *)

From Stdlib Require Import Ascii.
From stdpp Require Import base numbers list gmap strings.
From S2P Require Import Prelude GoStrings GoStrconv GoText.
From S2P Require Mpp.
From S2P Require Import X402Budget X402Protocol X402Registry.

(** ** HTTP *)

Definition Header : Type := gmap string (list string).

Definition StatusPaymentRequired : Z := 402.

Record Request := mkRequest {
  rqMethod : string;
  rqURL : string;
  rqHeaders : gmap string string;
  rqBody : string
}.

Record Response := mkResponse { rpStatus : Z; rpHeader : Header; rpBody : string }.

(** Header names as [http.Header.Get] and [Set] see them. *)
Definition HeaderPayment : string := "X-Payment".
Definition HeaderPaymentSignatureV2 : string := "Payment-Signature".
Definition HeaderPaymentVenice : string := "X-402-Payment".
Definition HeaderPaymentResponse : string := "X-Payment-Response".
Definition HeaderPaymentRequiredV2 : string := "Payment-Required".
Definition HeaderPaymentResponseV2 : string := "Payment-Response".
Definition HeaderWWWAuthenticate : string := "Www-Authenticate".
Definition HeaderAuthorization : string := "Authorization".
Definition HeaderPaymentReceipt : string := "Payment-Receipt".
Definition HeaderSIWX : string := "X-Sign-In-With-X".

Definition header_Values (h : Header) (key : string) : list string := default [] (h !! key).

Definition header_Get (h : Header) (key : string) : string :=
  match header_Values h key with v :: _ => v | [] => "" end.

Inductive Event :=
| EvRequest (q : Request)
| EvSign (req : PaymentRequirements)
| EvSignMPP (c : Mpp.Challenge)
| EvSignIn (domain url : string).

(** [canonicalKey] is [textproto.CanonicalMIMEHeaderKey], [validRequest] what
    [http.NewRequest] accepts as method and URL. *)
Class World := {
  httpDo : list Event -> Request -> result string Response;
  signX402 : list Event -> PaymentRequirements -> result string string;
  signMPP : list Event -> Mpp.Challenge -> result string string;
  signIn : list Event -> string -> string -> result string string;
  canonicalKey : string -> string;
  validRequest : string -> string -> bool;
  unicodeUpper : string -> string;
  parseTime : string -> option Time
}.

Inductive CallErr :=
| ErrArgument (msg : string)
| ErrRegistry_ (e : RegistryErr)
| ErrBudget (e : BudgetErr)
| ErrSignerNotConfigured
| ErrPaymentNotAccepted
| ErrTransport (msg : string).

(** Whether the signers are set; an HTTP client always is. *)
Record Transport := mkTransport { tSigner : bool; tMPPSigner : bool }.

Record CallRequest := mkCallRequest {
  cqMethod : string;
  cqURL : string;
  cqHeaders : gmap string string;
  cqBody : string;
  cqPreferNetworks : list string
}.

Record StreamResponse := mkStreamResponse {
  srStatus : Z;
  srHeaders : gmap string string;
  srBody : string;
  srReceipt : option PaymentReceipt
}.

Section Backend.
Context `{P : PinEnv} `{J : X402JSON} `{MJ : Mpp.MppJSON} `{W : World}.

(** ** The transport *)

(** Headers of the caller that canonicalise to one name overwrite each other,
    here in the order of [map_to_list]. *)
Definition doWithHeaders (tr : list Event) (req : CallRequest) (extraHeaders : list (string * string))
  : list Event * result CallErr Response :=
  let method := ToUpper unicodeUpper (TrimSpace (cqMethod req)) in
  let method := if bool_decide (method = "") then "GET" else method in
  if negb (validRequest method (cqURL req)) then (tr, Err (ErrTransport "build request"))
  else
    let headers := foldl (fun h '(k, v) => <[canonicalKey k := v]> h) ∅ (map_to_list (cqHeaders req)) in
    let headers := foldl (fun h '(k, v) => <[k := v]> h) headers extraHeaders in
    let q := mkRequest method (cqURL req) headers (cqBody req) in
    (tr ++ [EvRequest q],
     match httpDo tr q with Ok resp => Ok resp | Err e => Err (ErrTransport e) end).

Definition do_ (tr : list Event) (req : CallRequest) (paymentHeader : string)
  : list Event * result CallErr Response :=
  doWithHeaders tr req
    (if bool_decide (paymentHeader = "") then []
     else [(HeaderPayment, paymentHeader); (HeaderPaymentSignatureV2, paymentHeader);
           (HeaderPaymentVenice, paymentHeader)]).

Definition readReceiptHeader (h : Header) : string :=
  let v := header_Get h HeaderPaymentResponseV2 in
  if bool_decide (v <> "") then v else header_Get h HeaderPaymentResponse.

(** [strings.Join(v, ", ")] *)
Fixpoint join_comma (v : list string) : string :=
  match v with
  | [] => ""
  | [s] => s
  | s :: v => s +:+ ", " +:+ join_comma v
  end.

Definition extractStringHeaders (h : Header) : gmap string string := join_comma <$> h.

Definition streamCallResponse (resp : Response) : StreamResponse :=
  let rec := readReceiptHeader (rpHeader resp) in
  mkStreamResponse (rpStatus resp) (extractStringHeaders (rpHeader resp)) (rpBody resp)
    (if bool_decide (rec <> "")
     then match parseReceipt rec with Ok parsed => Some parsed | Err _ => None end
     else None).

Definition fillReceiptAmount (receipt : PaymentReceipt) (amountMicros : string) : PaymentReceipt :=
  if negb (isBlank (pyAmountUSDC receipt)) then receipt
  else match parseIntegerBaseUnits amountMicros with
       | Err _ => receipt
       | Ok micros => mkPaymentReceipt (pyTx receipt) (pyNetwork receipt) (formatUSDC (Some micros))
                        (pySettledAt receipt)
       end.

Definition readChallenge (resp : Response) : result string (Z * PaymentChallenge) :=
  let hdr := TrimSpace (header_Get (rpHeader resp) HeaderPaymentRequiredV2) in
  if bool_decide (hdr <> "") then
    match parseChallengeV2Header hdr with Ok c => Ok (X402ProtocolV2, c) | Err e => Err e end
  else
    match parseChallengeV1Body (rpBody resp) with Ok c => Ok (X402ProtocolV1, c) | Err e => Err e end.

Definition encodePayment (version : Z) (req : PaymentRequirements) (inner : string)
    (resource : option Resource) : result string string :=
  if Z.eqb version X402ProtocolV1 then encodePaymentV1 req inner
  else if Z.eqb version X402ProtocolV2 then encodePaymentV2 unicodeLower req inner resource
  else Err "unsupported x402 version".

Definition mppChallengeNetwork (c : Mpp.Challenge) : option string :=
  match Mpp.DecodeChargeRequest c with
  | Err _ => None
  | Ok (_, details) =>
      let raw := TrimSpace (Mpp.mdNetwork details) in
      if bool_decide (raw = "") then Some NetworkSolana
      else
        let lower := ToLower unicodeLower raw in
        if bool_decide (lower ∈ ["mainnet"; "mainnet-beta"; "solana"; "solana-mainnet"])
        then Some NetworkSolana
        else if HasPrefix lower "solana:"
                && bool_decide (str_drop (String.length "solana:") raw = solanaMainnetClusterID)
        then Some NetworkSolana
        else None
  end.

Definition selectMPPChallenge (challenges : list Mpp.Challenge) (prefer : list string)
  : option Mpp.Challenge :=
  if bool_decide (prefer <> []) && bool_decide (NetworkSolana ∉ prefer) then None
  else snd <$> list_find (fun c =>
    EqualFold (Mpp.cMethod c) "solana" && EqualFold (Mpp.cIntent c) "charge"
    && bool_decide (mppChallengeNetwork c = Some NetworkSolana)) challenges.

Definition mppReceiptToPaymentReceipt (r : Mpp.MppReceipt) : PaymentReceipt :=
  mkPaymentReceipt (Mpp.mrReference r) NetworkSolana ""
    (default zeroTime (parseTime (Mpp.mrTimestamp r))).

Definition withReceipt (out : StreamResponse) (r : option PaymentReceipt) : StreamResponse :=
  mkStreamResponse (srStatus out) (srHeaders out) (srBody out) r.

Definition streamMPP (t : Transport) (tr : list Event) (req : CallRequest) (challenges : list Mpp.Challenge)
  : list Event * result CallErr StreamResponse :=
  if negb (tMPPSigner t) then (tr, Err ErrSignerNotConfigured)
  else match selectMPPChallenge challenges (cqPreferNetworks req) with
       | None => (tr, Err (ErrTransport "x402: no compatible payment requirements offered"))
       | Some challenge =>
           let chargeAmount := match Mpp.DecodeChargeRequest challenge with
                               | Ok (charge, _) => Mpp.crAmount charge
                               | Err _ => ""
                               end in
           let tr1 := tr ++ [EvSignMPP challenge] in
           match signMPP tr challenge with
           | Err e => (tr1, Err (ErrTransport ("sign MPP payment: " +:+ e)))
           | Ok auth =>
               match doWithHeaders tr1 req [(HeaderAuthorization, auth)] with
               | (tr2, Err e) => (tr2, Err e)
               | (tr2, Ok retry) =>
                   if Z.eqb (rpStatus retry) StatusPaymentRequired then (tr2, Err ErrPaymentNotAccepted)
                   else
                     let out := streamCallResponse retry in
                     match Mpp.ParseReceipt (header_Get (rpHeader retry) HeaderPaymentReceipt) with
                     | Ok (Some r) =>
                         (tr2, Ok (withReceipt out
                            (Some (fillReceiptAmount (mppReceiptToPaymentReceipt r) chargeAmount))))
                     | _ => (tr2, Ok out)
                     end
               end
           end
       end.

(** The x402 part of [Stream], from the unpaid 402 response. *)
Definition streamX402 (tr : list Event) (req : CallRequest) (resp : Response)
  : list Event * result CallErr StreamResponse :=
  match readChallenge resp with
  | Err e => (tr, Err (ErrTransport ("parse 402 challenge: " +:+ e)))
  | Ok (version, challenge) =>
      match PreferAndCheapest unicodeLower challenge (cqPreferNetworks req) with
      | Err e => (tr, Err (ErrTransport e))
      | Ok requirement =>
          let tr1 := tr ++ [EvSign requirement] in
          match signX402 tr requirement with
          | Err e => (tr1, Err (ErrTransport ("sign payment: " +:+ e)))
          | Ok inner =>
              match encodePayment version requirement inner (pcResource challenge) with
              | Err e => (tr1, Err (ErrTransport ("encode payment header: " +:+ e)))
              | Ok encoded =>
                  match do_ tr1 req encoded with
                  | (tr2, Err e) => (tr2, Err e)
                  | (tr2, Ok retry) =>
                      if Z.eqb (rpStatus retry) StatusPaymentRequired then (tr2, Err ErrPaymentNotAccepted)
                      else
                        let out := streamCallResponse retry in
                        (tr2, Ok (withReceipt out
                           ((fun r => fillReceiptAmount r (prAmountMicros requirement)) <$> srReceipt out)))
                  end
              end
          end
      end
  end.

Definition Stream (t : Transport) (tr : list Event) (req : CallRequest)
  : list Event * result CallErr StreamResponse :=
  if negb (tSigner t) then (tr, Err ErrSignerNotConfigured)
  else match do_ tr req "" with
       | (tr1, Err e) => (tr1, Err e)
       | (tr1, Ok resp) =>
           if negb (Z.eqb (rpStatus resp) StatusPaymentRequired)
           then (tr1, Ok (streamCallResponse resp))
           else if isBlank (header_Get (rpHeader resp) HeaderPaymentRequiredV2) then
             match Mpp.ParseChallenges unicodeLower (header_Values (rpHeader resp) HeaderWWWAuthenticate) with
             | Err e => (tr1, Err (ErrTransport ("parse MPP challenge: " +:+ e)))
             | Ok [] => streamX402 tr1 req resp
             | Ok challenges => streamMPP t tr1 req challenges
             end
           else streamX402 tr1 req resp
       end.

(** ** The backend *)

Record CallParams := mkCallParams {
  caAgentID : string;
  caServiceID : string;
  caPath : string;
  caMethod : string;
  caHeaders : gmap string string;
  caBody : string;
  caMaxPriceUSDC : string;
  caPaymentNonce : string
}.

Record CallResult := mkCallResult {
  csStatus : Z;
  csHeaders : gmap string string;
  csBody : string;
  csReceipt : option Receipt
}.

(** The readings of the clock during a call, and whether the receipt store
    took the receipt. *)
Record CallClock := mkCallClock {
  ckAuth : Time;
  ckReceipt : Time;
  ckDay : Time;
  ckStamp : Time;
  ckPersisted : bool
}.

Definition mergeHeaders (base overlay : gmap string string) : gmap string string := overlay ∪ base.

Definition joinEndpointPath (endpoint path : string) : result string string :=
  let endpoint := TrimRightByte "/" (TrimSpace endpoint) in
  let path := TrimSpace path in
  if bool_decide (endpoint = "") then Err "manifest endpoint empty"
  else if bool_decide (path = "") then Ok endpoint
  else if HasPrefix path "http://" || HasPrefix path "https://" then Err "path must be relative"
  else Ok (endpoint +:+ (if HasPrefix path "/" then path else "/" +:+ path)).

(** The checks of [StreamCall] before anything is sent. *)
Definition admit_call (ck : CallClock) (r : Registry) (b : Budget) (params : CallParams)
  : Budget * result CallErr ServiceManifest :=
  if isBlank (caAgentID params) then (b, Err (ErrArgument "agentID required"))
  else if isBlank (caServiceID params) then (b, Err (ErrArgument "serviceID required"))
  else if isBlank (caPath params) then (b, Err (ErrArgument "path required"))
  else if isBlank (caMaxPriceUSDC params) then (b, Err (ErrArgument "max_price_usdc required"))
  else match Manifest r (caServiceID params) with
       | Err e => (b, Err (ErrRegistry_ e))
       | Ok manifest =>
           match resolveAuthorization r (caAgentID params) (caServiceID params) with
           | Err e => (b, Err (ErrRegistry_ e))
           | Ok pin =>
               match Verify pin manifest with
               | Err e => (b, Err (ErrRegistry_ e))
               | Ok _ =>
                   match Authorize (ckAuth ck) b (caAgentID params) (caServiceID params)
                           (caMaxPriceUSDC params) (smMaxPriceUSDC manifest) with
                   | (b, Err e) => (b, Err (ErrBudget e))
                   | (b, Ok _) => (b, Ok manifest)
                   end
               end
           end
       end.

(** The headers of the request; [siwx] tells whether a Sign-In-With-X signer is
    wired. *)
Definition call_headers (siwx : bool) (tr : list Event) (manifest : ServiceManifest) (target : string)
    (params : CallParams) : list Event * result CallErr (gmap string string) :=
  if bool_decide (smSIWXDomain manifest = "") then (tr, Ok (caHeaders params))
  else if negb siwx then (tr, Err (ErrTransport "service requires SIWX but no SIWX signer is wired"))
  else
    let tr1 := tr ++ [EvSignIn (smSIWXDomain manifest) target] in
    match signIn tr (smSIWXDomain manifest) target with
    | Err e => (tr1, Err (ErrTransport ("siwx header: " +:+ e)))
    | Ok header => (tr1, Ok (mergeHeaders (caHeaders params) {[HeaderSIWX := header]}))
    end.

Definition call_receipt (ck : CallClock) (manifest : ServiceManifest) (params : CallParams)
    (receipt : PaymentReceipt) : Receipt :=
  mkReceipt (ckReceipt ck) (caAgentID params) (caServiceID params) (caPath params) (pyTx receipt)
    (pyNetwork receipt)
    (if isBlank (pyAmountUSDC receipt) then smMaxPriceUSDC manifest else pyAmountUSDC receipt)
    (caMaxPriceUSDC params).

Definition StreamCall (t : Transport) (siwx : bool) (ck : CallClock) (r : Registry)
    (tr : list Event) (b : Budget) (params : CallParams)
  : list Event * Budget * result CallErr CallResult :=
  match admit_call ck r b params with
  | (b, Err e) => (tr, b, Err e)
  | (b, Ok manifest) =>
      match joinEndpointPath (smEndpoint manifest) (caPath params) with
      | Err e => (tr, b, Err (ErrArgument e))
      | Ok target =>
          match call_headers siwx tr manifest target params with
          | (tr, Err e) => (tr, b, Err e)
          | (tr, Ok headers) =>
              match Stream t tr (mkCallRequest (caMethod params) target headers (caBody params)
                                   (smNetworks manifest)) with
              | (tr, Err e) => (tr, b, Err e)
              | (tr, Ok resp) =>
                  let out := mkCallResult (srStatus resp) (srHeaders resp) (srBody resp) in
                  match srReceipt resp with
                  | None => (tr, b, Ok (out None))
                  | Some receipt =>
                      let rec := call_receipt ck manifest params receipt in
                      match Charge (ckDay ck) (ckStamp ck) (ckPersisted ck) b rec with
                      | (b, Err e) => (tr, b, Err (ErrBudget e))
                      | (b, Ok _) => (tr, b, Ok (out (Some rec)))
                      end
                  end
              end
          end
      end
  end.

(** [Call] reads the whole body; the read may fail ([readable] false). *)
Definition Call (readable : bool) (t : Transport) (siwx : bool) (ck : CallClock) (r : Registry)
    (tr : list Event) (b : Budget) (params : CallParams)
  : list Event * Budget * result CallErr CallResult :=
  match StreamCall t siwx ck r tr b params with
  | (tr, b, Err e) => (tr, b, Err e)
  | (tr, b, Ok res) => if readable then (tr, b, Ok res) else (tr, b, Err (ErrTransport "read response"))
  end.

Definition ListServices (r : Registry) (agentID : string) : result CallErr (list ListApprovedListing) :=
  if isBlank agentID then Err (ErrArgument "agentID required") else Ok (ListApproved r agentID).

Definition BackendBudgetStatus (now : Time) (b : Budget) (agentID : string)
  : Budget * result CallErr BudgetSnapshot :=
  if isBlank agentID then (b, Err (ErrArgument "agentID required"))
  else let '(b, s) := BudgetStatus now b agentID in (b, Ok s).

End Backend.

(** The nonce that is to make retries idempotent is read nowhere: a call replayed
    with its nonce is admitted, signed and charged like a new one. *)
Lemma x402_nonce_ignored `{P : PinEnv} `{J : X402JSON} `{MJ : Mpp.MppJSON} `{W : World} readable t siwx ck r tr b params nonce :
  Call readable t siwx ck r tr b params =
  Call readable t siwx ck r tr b (mkCallParams (caAgentID params) (caServiceID params) (caPath params) (caMethod params) (caHeaders params)
    (caBody params) (caMaxPriceUSDC params) nonce).
Proof. reflexivity. Qed.

(** ** What a call may send and sign *)

Definition is_payment (ev : Event) : bool :=
  match ev with EvSign _ | EvSignMPP _ => true | _ => false end.

Section Safety.
Context `{P : PinEnv} `{J : X402JSON} `{MJ : Mpp.MppJSON} `{W : World}.

(** The events of one [Stream] after the history [tr]: nothing, one request, or
    a request answered 402, one payment signature, and at most the retry. *)
Definition stream_events (tr evs : list Event) : Prop :=
  evs = [] \/ (exists q, evs = [EvRequest q]) \/
  exists q resp ev rest, evs = EvRequest q :: ev :: rest /\
    httpDo tr q = Ok resp /\ rpStatus resp = StatusPaymentRequired /\ is_payment ev = true /\
    (rest = [] \/ exists q', rest = [EvRequest q']).

Lemma doWithHeaders_trace tr req extra tr' res :
  doWithHeaders tr req extra = (tr', res) ->
  (tr' = tr /\ is_ok res = false) \/
  exists q, tr' = tr ++ [EvRequest q] /\ (forall resp, res = Ok resp -> httpDo tr q = Ok resp).
Proof.
  unfold doWithHeaders. destruct (negb _); intros [= <- <-]; [by left|]. right. eexists.
  split; [done|]. intros resp. destruct (httpDo _ _); [by intros [=->]|done].
Qed.

(** What follows the unpaid response. *)
Definition after_402 (evs : list Event) : Prop :=
  evs = [] \/ exists ev rest, evs = ev :: rest /\ is_payment ev = true /\
    (rest = [] \/ exists q', rest = [EvRequest q']).

Lemma retry_trace tr1 req extra ev tr2 res :
  is_payment ev = true -> doWithHeaders (tr1 ++ [ev]) req extra = (tr2, res) ->
  exists evs, tr2 = tr1 ++ evs /\ after_402 evs.
Proof.
  intros Hev [[-> _]|(q & -> & _)]%doWithHeaders_trace.
  - exists [ev]. split; [done|]. right. exists ev, []. auto.
  - exists [ev; EvRequest q]. split; [by rewrite <- (assoc_L (++))|]. right.
    exists ev, [EvRequest q]. eauto.
Qed.

Lemma signed_only tr1 ev : is_payment ev = true -> exists evs, tr1 ++ [ev] = tr1 ++ evs /\ after_402 evs.
Proof. intros Hev. exists [ev]. split; [done|]. right. exists ev, []. auto. Qed.

Lemma no_events tr1 : exists evs, tr1 = tr1 ++ evs /\ after_402 evs.
Proof. exists []. rewrite app_nil_r. split; [done|by left]. Qed.

Lemma streamX402_trace tr1 req resp tr' res :
  streamX402 tr1 req resp = (tr', res) -> exists evs, tr' = tr1 ++ evs /\ after_402 evs.
Proof.
  unfold streamX402. intros H. destruct (readChallenge resp) as [[version challenge]|e].
  2:{ injection H as <- _. apply no_events. }
  destruct (PreferAndCheapest _ _ _) as [requirement|e]; [|injection H as <- _; apply no_events].
  destruct (signX402 _ _) as [inner|e]; [|injection H as <- _; by apply signed_only].
  destruct (encodePayment _ _ _ _) as [encoded|e]; [|injection H as <- _; by apply signed_only].
  destruct (do_ _ _ _) as [tr2 r] eqn:Ed. unfold do_ in Ed. eapply (retry_trace tr1) in Ed; [|done].
  assert (tr' = tr2) as ->; [|exact Ed].
  destruct r as [retry|e]; [|by injection H]. destruct (Z.eqb _ _); by injection H.
Qed.

Lemma streamMPP_trace t tr1 req cs tr' res :
  streamMPP t tr1 req cs = (tr', res) -> exists evs, tr' = tr1 ++ evs /\ after_402 evs.
Proof.
  unfold streamMPP. intros H. destruct (negb _); [injection H as <- _; apply no_events|].
  destruct (selectMPPChallenge _ _) as [c|]; [|injection H as <- _; apply no_events].
  destruct (signMPP _ _) as [auth|e]; [|injection H as <- _; by apply signed_only].
  destruct (doWithHeaders _ _ _) as [tr2 r] eqn:Ed. eapply (retry_trace tr1) in Ed; [|done].
  assert (tr' = tr2) as ->; [|exact Ed].
  destruct r as [retry|e]; [|by injection H]. destruct (Z.eqb _ _); [by injection H|].
  destruct (Mpp.ParseReceipt _) as [[?|]|]; by injection H.
Qed.

Lemma Stream_trace t tr req tr' res :
  Stream t tr req = (tr', res) -> exists evs, tr' = tr ++ evs /\ stream_events tr evs.
Proof.
  unfold Stream. intros H. destruct (negb (tSigner t)).
  { injection H as <- _. exists []. rewrite app_nil_r. split; [done|by left]. }
  destruct (do_ tr req "") as [tr1 r1] eqn:Ed. unfold do_ in Ed.
  apply doWithHeaders_trace in Ed as [[-> Hr]|(q & -> & Hq)].
  { destruct r1; [done|]. injection H as <- _. exists []. rewrite app_nil_r. split; [done|by left]. }
  assert (forall evs, after_402 evs -> (exists resp, r1 = Ok resp /\ rpStatus resp = StatusPaymentRequired) ->
    exists evs', (tr ++ [EvRequest q]) ++ evs = tr ++ evs' /\ stream_events tr evs') as Hfin.
  { intros evs Ha (resp & -> & Hs). exists (EvRequest q :: evs). split; [by rewrite <- (assoc_L (++))|].
    destruct Ha as [->|(ev & rest & -> & Hev & Hrest)]; [right; left; by exists q|].
    right. right. exists q, resp, ev, rest. by rewrite (Hq resp). }
  assert (exists evs', tr ++ [EvRequest q] = tr ++ evs' /\ stream_events tr evs') as Hone
    by (eexists; split; [done|right; left; by exists q]).
  destruct r1 as [resp|e]; [|by injection H as <- _].
  destruct (Z.eqb_spec (rpStatus resp) StatusPaymentRequired) as [Hs|]; [|by injection H as <- _].
  cbn [negb] in H.
  assert (exists evs, tr' = (tr ++ [EvRequest q]) ++ evs /\ after_402 evs) as (evs & -> & Ha).
  { destruct (isBlank _); [|by eapply streamX402_trace].
    destruct (Mpp.ParseChallenges _ _) as [[|c cs]|e]; [by eapply streamX402_trace|by eapply streamMPP_trace|].
    injection H as <- _. apply no_events. }
  apply Hfin; [done|]. by exists resp.
Qed.

(** What [admit_call] checked when it lets a call through. *)
Lemma admit_call_inv ck r b params b' manifest :
  admit_call ck r b params = (b', Ok manifest) ->
  Manifest r (caServiceID params) = Ok manifest /\
  (exists pin, resolveAuthorization r (caAgentID params) (caServiceID params) = Ok pin /\
    Verify pin manifest = Ok tt) /\
  Authorize (ckAuth ck) b (caAgentID params) (caServiceID params) (caMaxPriceUSDC params)
    (smMaxPriceUSDC manifest) = (b', Ok tt).
Proof.
  unfold admit_call. intros H. do 4 (destruct (isBlank _); [done|]).
  destruct (Manifest _ _) as [m|]; [|done]. destruct (resolveAuthorization _ _ _) as [pin|]; [|done].
  destruct (Verify pin m) as [[]|] eqn:Ev; [|done].
  destruct (Authorize _ _ _ _ _ _) as [b1 [[]|]] eqn:Ea; [|done]. injection H as <- <-. eauto.
Qed.

Lemma call_headers_trace siwx tr manifest target params tr' res :
  call_headers siwx tr manifest target params = (tr', res) ->
  exists pre, tr' = tr ++ pre /\ (pre = [] \/ pre = [EvSignIn (smSIWXDomain manifest) target]).
Proof.
  unfold call_headers. intros H. case_bool_decide; [injection H as <- _; exists []; by rewrite app_nil_r; auto|].
  destruct (negb siwx); [injection H as <- _; exists []; by rewrite app_nil_r; auto|].
  destruct (signIn _ _ _); injection H as <- _; eauto.
Qed.

(** C20 (safety). A call that sends or signs anything was admitted first: its
    service is in the catalogue, the agent or the user allowed it, the pin
    accepts the live manifest and the budget authorised the manifest's price.
    It signs at most one payment, only after the service answered 402 to the
    unpaid request, and sends at most one request after it. *)
Theorem x402_call_is_admitted t siwx ck r tr b params :
  let '(tr', b', res) := StreamCall t siwx ck r tr b params in
  tr' = tr \/
  exists manifest pin b1 pre evs,
    Manifest r (caServiceID params) = Ok manifest /\
    resolveAuthorization r (caAgentID params) (caServiceID params) = Ok pin /\
    Verify pin manifest = Ok tt /\
    Authorize (ckAuth ck) b (caAgentID params) (caServiceID params) (caMaxPriceUSDC params)
      (smMaxPriceUSDC manifest) = (b1, Ok tt) /\
    tr' = tr ++ pre ++ evs /\ existsb is_payment pre = false /\ stream_events (tr ++ pre) evs.
Proof.
  unfold StreamCall. destruct (admit_call ck r b params) as [b1 [manifest|e]] eqn:Ea; [|by left].
  apply admit_call_inv in Ea as (Hm & (pin & Hr & Hv) & Hauth).
  destruct (joinEndpointPath _ _) as [target|e]; [|by left].
  destruct (call_headers siwx tr manifest target params) as [tr1 hr] eqn:Eh.
  apply call_headers_trace in Eh as (pre & -> & Hpre).
  assert (existsb is_payment pre = false) as Hnp by (by destruct Hpre as [->| ->]).
  assert (forall evs, stream_events (tr ++ pre) evs -> exists manifest pin b1 pre' evs',
    Manifest r (caServiceID params) = Ok manifest /\
    resolveAuthorization r (caAgentID params) (caServiceID params) = Ok pin /\
    Verify pin manifest = Ok tt /\
    Authorize (ckAuth ck) b (caAgentID params) (caServiceID params) (caMaxPriceUSDC params)
      (smMaxPriceUSDC manifest) = (b1, Ok tt) /\
    (tr ++ pre) ++ evs = tr ++ pre' ++ evs' /\ existsb is_payment pre' = false /\
    stream_events (tr ++ pre') evs') as Hfin.
  { intros evs Hevs. exists manifest, pin, b1, pre, evs. split_and!; try done. by rewrite <- (assoc_L (++)). }
  destruct hr as [headers|e].
  2:{ right. rewrite <- (app_nil_r (tr ++ pre)). apply Hfin. by left. }
  destruct (Stream _ _ _) as [tr2 sr] eqn:Es. apply Stream_trace in Es as (evs & -> & Hevs).
  specialize (Hfin evs Hevs). destruct sr as [resp|e]; [|by right].
  destruct (srReceipt resp); [|by right]. destruct (Charge _ _ _ _ _) as [b2 [?|?]]; by right.
Qed.

Lemma Authorize_receipts now b a s max q : receipts (Authorize now b a s max q).1 = receipts b.
Proof.
  destruct (Authorize_state now b a s max q) as [->| ->]; [done|].
  by rewrite (proj1 (dayLocked_eq now b a)).
Qed.

Lemma admit_call_receipts ck r b params : receipts (admit_call ck r b params).1 = receipts b.
Proof.
  unfold admit_call. do 4 (destruct (isBlank _); [done|]).
  destruct (Manifest _ _) as [m|]; [|done]. destruct (resolveAuthorization _ _ _) as [pin|]; [|done].
  destruct (Verify pin m); [|done].
  pose proof (Authorize_receipts (ckAuth ck) b (caAgentID params) (caServiceID params)
    (caMaxPriceUSDC params) (smMaxPriceUSDC m)) as Hr.
  destruct (Authorize _ _ _ _ _ _) as [b1 [?|?]]; exact Hr.
Qed.

(** The receipt log grows by exactly the receipt a call
    returns, stamped; a call that fails or returns no receipt adds nothing. *)
Theorem x402_call_logs_its_receipt t siwx ck r tr b params :
  let '(tr', b', res) := StreamCall t siwx ck r tr b params in
  receipts b' = receipts b ++
    match res with
    | Ok (mkCallResult _ _ _ (Some rec)) => [stamped (ckStamp ck) rec]
    | _ => []
    end.
Proof.
  unfold StreamCall. pose proof (admit_call_receipts ck r b params) as Hr.
  destruct (admit_call ck r b params) as [b1 [manifest|e]]; simpl in Hr; rewrite <- Hr.
  2: by rewrite app_nil_r.
  destruct (joinEndpointPath _ _) as [target|e]; [|by rewrite app_nil_r].
  destruct (call_headers siwx tr manifest target params) as [tr1 [headers|e]]; [|by rewrite app_nil_r].
  destruct (Stream _ _ _) as [tr2 [resp|e]]; [|by rewrite app_nil_r].
  destruct (srReceipt resp) as [receipt|]; [|by rewrite app_nil_r].
  set (rec := call_receipt ck manifest params receipt).
  destruct (parseUSDC (rAmountUSDC rec)) as [a|e] eqn:Ea.
  - destruct (Charge_eq (ckDay ck) (ckStamp ck) (ckPersisted ck) b1 rec a Ea) as (H1 & _ & H2 & _).
    destruct (Charge _ _ _ _ _) as [b2 res]. simpl in H1, H2. subst res. exact H2.
  - unfold Charge. rewrite Ea. by rewrite app_nil_r.
Qed.

End Safety.

(** ** Prices and receipts the budget does not see *)

Section Unchecked.
Context `{P : PinEnv} `{J : X402JSON} `{MJ : Mpp.MppJSON} `{W : World}.

(** A call that is admitted to a service without Sign-In-With-X, whose first
    answer is an x402 challenge asking for [requirement]. *)
Record challenged (t : Transport) (ck : CallClock) (r : Registry) (tr : list Event) (b b1 : Budget)
    (params : CallParams) (manifest : ServiceManifest) (req : CallRequest) (q : Request)
    (resp : Response) (version : Z) (challenge : PaymentChallenge) (requirement : PaymentRequirements)
  : Prop := {
  ch_signer : tSigner t = true;
  ch_admitted : admit_call ck r b params = (b1, Ok manifest);
  ch_siwx : smSIWXDomain manifest = "";
  ch_target : joinEndpointPath (smEndpoint manifest) (caPath params) = Ok (cqURL req);
  ch_request : req = mkCallRequest (caMethod params) (cqURL req) (caHeaders params) (caBody params)
                       (smNetworks manifest);
  ch_sent : do_ tr req "" = (tr ++ [EvRequest q], Ok resp);
  ch_status : rpStatus resp = StatusPaymentRequired;
  ch_x402 : isBlank (header_Get (rpHeader resp) HeaderPaymentRequiredV2) = false \/
    Mpp.ParseChallenges unicodeLower (header_Values (rpHeader resp) HeaderWWWAuthenticate) = Ok [];
  ch_challenge : readChallenge resp = Ok (version, challenge);
  ch_requirement : PreferAndCheapest unicodeLower challenge (smNetworks manifest) = Ok requirement
}.

Lemma challenged_stream t ck r tr b b1 params manifest req q resp version challenge requirement siwx :
  challenged t ck r tr b b1 params manifest req q resp version challenge requirement ->
  StreamCall t siwx ck r tr b params =
  match streamX402 (tr ++ [EvRequest q]) req resp with
  | (tr, Err e) => (tr, b1, Err e)
  | (tr, Ok resp) =>
      let out := mkCallResult (srStatus resp) (srHeaders resp) (srBody resp) in
      match srReceipt resp with
      | None => (tr, b1, Ok (out None))
      | Some receipt =>
          let rec := call_receipt ck manifest params receipt in
          match Charge (ckDay ck) (ckStamp ck) (ckPersisted ck) b1 rec with
          | (b, Err e) => (tr, b, Err (ErrBudget e))
          | (b, Ok _) => (tr, b, Ok (out (Some rec)))
          end
      end
  end.
Proof.
  intros [H1 H2 H3 H4 H5 H6 H7 H8 H9 H10]. unfold StreamCall. rewrite H2, H4.
  unfold call_headers. rewrite bool_decide_eq_true_2 by done. rewrite <- H5.
  assert (Stream t tr req = streamX402 (tr ++ [EvRequest q]) req resp) as ->; [|done].
  unfold Stream. rewrite H1. cbn [negb]. rewrite H6, H7. cbn [Z.eqb negb].
  replace (Z.eqb StatusPaymentRequired StatusPaymentRequired) with true by done. cbn [negb].
  destruct H8 as [->| ->]; [done|]. by destruct (isBlank _).
Qed.

(** The live price is not compared with anything: whatever the
    challenge asks for its cheapest requirement, far above the caller's maximum
    and the caps, the transport signs it.  Only the price of the manifest was
    authorised. *)
Theorem x402_live_quote_unchecked t ck r tr b b1 params manifest req q resp version challenge
    requirement siwx price maximum :
  challenged t ck r tr b b1 params manifest req q resp version challenge requirement ->
  parseIntegerBaseUnits (prAmountMicros requirement) = Ok price ->
  parseUSDC (caMaxPriceUSDC params) = Ok maximum -> maximum < price ->
  exists rest, (StreamCall t siwx ck r tr b params).1.1
    = tr ++ [EvRequest q] ++ [EvSign requirement] ++ rest.
Proof.
  intros Hch _ _ _. rewrite (challenged_stream _ _ _ _ _ _ _ _ _ _ _ _ _ _ siwx Hch).
  destruct Hch as [H1 H2 H3 H4 H5 H6 H7 H8 H9 H10]. unfold streamX402. rewrite H9.
  assert (cqPreferNetworks req = smNetworks manifest) as -> by (by rewrite H5). rewrite H10.
  destruct (signX402 _ _) as [inner|e]; [|by exists []; rewrite <- !(assoc_L (++))].
  destruct (encodePayment _ _ _ _) as [encoded|e]; [|by exists []; rewrite <- !(assoc_L (++))].
  destruct (do_ ((tr ++ [EvRequest q]) ++ [EvSign requirement]) req encoded) as [tr2 rr] eqn:Ed. unfold do_ in Ed.
  apply doWithHeaders_trace in Ed.
  assert (exists rest, tr2 = (tr ++ [EvRequest q]) ++ [EvSign requirement] ++ rest) as [rest ->].
  { destruct Ed as [[-> _]|(q' & -> & _)]; [exists []|exists [EvRequest q']]; by rewrite <- !(assoc_L (++)). }
  exists rest. rewrite <- !(assoc_L (++)). destruct rr as [retry|e]; [|done].
  destruct (Z.eqb _ _); [done|]. cbn [srReceipt withReceipt].
  destruct (srReceipt _); [|done]. cbv zeta. by repeat case_match.
Qed.

(** A payment without a receipt costs the agent nothing: when the
    service takes the signed payment and answers without a receipt header, the
    call succeeds, and the budget is as the authorisation left it. *)
Theorem x402_unreceipted_payment_uncharged t ck r tr b b1 params manifest req q resp version challenge
    requirement siwx inner encoded retry tr2 :
  challenged t ck r tr b b1 params manifest req q resp version challenge requirement ->
  signX402 (tr ++ [EvRequest q]) requirement = Ok inner ->
  encodePayment version requirement inner (pcResource challenge) = Ok encoded ->
  do_ (tr ++ [EvRequest q] ++ [EvSign requirement]) req encoded = (tr2, Ok retry) ->
  rpStatus retry <> StatusPaymentRequired -> readReceiptHeader (rpHeader retry) = "" ->
  StreamCall t siwx ck r tr b params
  = (tr2, b1, Ok (mkCallResult (rpStatus retry) (extractStringHeaders (rpHeader retry)) (rpBody retry) None))
  /\ receipts b1 = receipts b.
Proof.
  intros Hch Hs He Hd Hst Hrec. rewrite (challenged_stream _ _ _ _ _ _ _ _ _ _ _ _ _ _ siwx Hch).
  destruct Hch as [H1 H2 H3 H4 H5 H6 H7 H8 H9 H10]. split.
  - unfold streamX402. rewrite H9.
    assert (cqPreferNetworks req = smNetworks manifest) as -> by (by rewrite H5).
    rewrite H10, Hs, He. rewrite (assoc_L (++)) in Hd. rewrite Hd.
    rewrite (proj2 (Z.eqb_neq _ _) Hst). unfold streamCallResponse. rewrite Hrec.
    by rewrite bool_decide_eq_false_2 by auto.
  - pose proof (admit_call_receipts ck r b params) as Hr. by rewrite H2 in Hr.
Qed.

End Unchecked.

(** ** A service that asks for 10 USDC after quoting 0.05 *)

Module Demo.

Definition requirement1 : paymentRequirementsV1 :=
  mkRequirementsV1 "exact" "base" "10000000" "0xpayee" 60 "0xusdc" ∅.

Definition json : X402JSON :=
  {| jsonOuterV1 := fun _ => Some ["entry"]; jsonEntryV1 := fun _ => Some requirement1;
     jsonOuterV2 := fun _ => None; jsonEntryV2 := fun _ => None; jsonLooseReceipt := fun _ => None;
     jsonPayloadV1 := fun p => Some (p1Payload p); jsonRequirementsV2 := fun _ => None;
     jsonPayloadV2 := fun _ => None |}.

Definition paid (q : Request) : bool := bool_decide (is_Some (rqHeaders q !! HeaderPayment)).

Definition world : World :=
  {| httpDo := fun _ q => Ok (if paid q then mkResponse 200 ∅ "content" else mkResponse 402 ∅ "{}");
     signX402 := fun _ _ => Ok "signed"; signMPP := fun _ _ => Err "none"; signIn := fun _ _ _ => Err "none";
     canonicalKey := fun k => k; validRequest := fun _ _ => true; unicodeUpper := fun s => s;
     parseTime := fun _ => None |}.

Definition registry : Registry :=
  @run_ops demoPinEnv (fun l => l) None demo_ops.

Definition params : CallParams := mkCallParams "agent" "svc" "/p" "GET" ∅ "" "0.05" "n1".
Definition clock : CallClock := mkCallClock hour hour hour hour true.
Definition budget0 : Budget := boot None demo_cfgs.
Definition budget1 : Budget := (Authorize hour budget0 "agent" "svc" "0.05" "0.05").1.
Definition request : CallRequest := mkCallRequest "GET" "https://svc.example/p" ∅ "" ["base"].
Definition sent : Request := mkRequest "GET" "https://svc.example/p" ∅ "".
Definition required : PaymentRequirements :=
  mkRequirements "exact" "base" "10000000" "0xpayee" "0xusdc" 60 ∅ "entry".
Definition challenge : PaymentChallenge := mkPaymentChallenge 1 [required] None ∅.

Lemma is_challenged :
  @challenged demoPinEnv json Mpp.demoJSON world (mkTransport true false) clock registry [] budget0
    budget1 params demo_manifest request sent (mkResponse 402 ∅ "{}") 1 challenge required.
Proof.
  split; try (vm_compute; reflexivity). right. vm_compute. reflexivity.
Qed.

End Demo.

Lemma x402_live_quote_unchecked_witness :
  exists rest, (@StreamCall demoPinEnv Demo.json Mpp.demoJSON Demo.world (mkTransport true false) false
    Demo.clock Demo.registry [] Demo.budget0 Demo.params).1.1
    = [] ++ [EvRequest Demo.sent] ++ [EvSign Demo.required] ++ rest.
Proof.
  exact (@x402_live_quote_unchecked demoPinEnv Demo.json Mpp.demoJSON Demo.world (mkTransport true false)
    Demo.clock Demo.registry [] Demo.budget0 Demo.budget1 Demo.params demo_manifest Demo.request Demo.sent
    (mkResponse 402 ∅ "{}") 1 Demo.challenge Demo.required false 10000000 50000 Demo.is_challenged
    ltac:(vm_compute; reflexivity) ltac:(vm_compute; reflexivity) ltac:(lia)).
Defined.

Definition demo_encoded : string := b64encode false true "signed".

Definition demo_paid : list Event :=
  (@do_ Demo.world ([] ++ [EvRequest Demo.sent] ++ [EvSign Demo.required]) Demo.request demo_encoded).1.

Lemma x402_unreceipted_payment_uncharged_witness :
  @StreamCall demoPinEnv Demo.json Mpp.demoJSON Demo.world (mkTransport true false) false
    Demo.clock Demo.registry [] Demo.budget0 Demo.params
  = (demo_paid, Demo.budget1, Ok (mkCallResult 200 (extractStringHeaders ∅) "content" None))
  /\ receipts Demo.budget1 = receipts Demo.budget0.
Proof.
  exact (@x402_unreceipted_payment_uncharged demoPinEnv Demo.json Mpp.demoJSON Demo.world
    (mkTransport true false) Demo.clock Demo.registry [] Demo.budget0 Demo.budget1 Demo.params demo_manifest
    Demo.request Demo.sent (mkResponse 402 ∅ "{}") 1 Demo.challenge Demo.required false "signed" demo_encoded
    (mkResponse 200 ∅ "content") demo_paid Demo.is_challenged
    ltac:(vm_compute; reflexivity) ltac:(vm_compute; reflexivity) ltac:(vm_compute; reflexivity)
    ltac:(done) ltac:(vm_compute; reflexivity)).
Defined.
