(* ===== verification/Bridge.v ===== *)
(** * The sandbox bridge's endpoints (pkg/sandbox/bridge: registry.go, envelope.go,
    replay.go, quota.go, audit.go, endpoint.go, endpoint_conn.go)

    An endpoint takes envelopes from the websockets of sandboxed agents.  Each
    one passes the registry of types, the size limit, the replay store and the
    token buckets before a handler sees it.  The replay store is shown to answer
    like an unbounded history, a dispatch to call a handler only behind all the
    gates, and a bucket to hold exactly its burst.  Token counts are IEEE 754
    doubles ([GoFloat]). *)

From Stdlib Require Import Ascii.
From stdpp Require Import base numbers list gmap strings sorting.
From S2P Require Import Prelude GoStrings GoStrconv GoFloat.

#[local] Open Scope Z_scope.

(** The NUL byte between the parts of a key. *)
Definition NUL : string := String "000"%char "".

(** ** The replay store (replay.go) *)

Inductive ReplayError := ErrReplay | ErrTimestampOutOfRange.

Definition ReplayError_Error (e : ReplayError) : string :=
  match e with
  | ErrReplay => "bridge: envelope replayed within window"
  | ErrTimestampOutOfRange => "bridge: envelope timestamp out of range"
  end.

Record ReplayStore := mkReplay { rsSeen : gmap string Time; rsSkew : Duration; rsMaxAge : Duration }.

Definition NewReplayStore (skew maxNonceWindow : Duration) : ReplayStore := mkReplay ∅ skew maxNonceWindow.

Definition replayKey (agentID envelopeType nonce : string) : string := agentID +:+ NUL +:+ envelopeType +:+ NUL +:+ nonce.

Definition skewed (skew : Duration) (now callerTs : Time) : bool :=
  (0 <? skew) && let delta := time_Sub now callerTs in (skew <? delta) || (delta <? - skew).

Definition sweepLocked (now : Time) (r : ReplayStore) : ReplayStore :=
  if rsMaxAge r <=? 0 then r
  else mkReplay (filter (fun '(_, t) => (t <? now - rsMaxAge r) = false) (rsSeen r)) (rsSkew r) (rsMaxAge r).

(** [Check]: [now] is its reading of the clock. *)
Definition replayCheck (now : Time) (agentID envelopeType nonce : string) (callerTs : Time) (window : Duration) (r : ReplayStore)
  : ReplayStore * result ReplayError unit :=
  if skewed (rsSkew r) now callerTs then (r, Err ErrTimestampOutOfRange)
  else
    let key := replayKey agentID envelopeType nonce in
    let replayed := match rsSeen r !! key with Some seenAt => time_Sub now seenAt <? window | None => false end in
    if replayed then (r, Err ErrReplay)
    else (sweepLocked now (mkReplay (<[key := now]> (rsSeen r)) (rsSkew r) (rsMaxAge r)), Ok tt).

(** ** Rate limits (quota.go) *)

Record RateLimit := mkRateLimit { rlPerAgent : Z; rlBurst : Z; rlWindow : Duration }.

Record tokenBucket := mkBucket { tbTokens : float64; tbCapacity : float64; tbRefillRate : float64; tbLast : Time }.

Definition QuotaStore := gmap string tokenBucket.

Definition quotaKey (agentID envelopeType : string) : string := agentID +:+ NUL +:+ envelopeType.

Definition newBucket (limit : RateLimit) (now : Time) : tokenBucket :=
  mkBucket (f64_of_int (rlBurst limit)) (f64_of_int (rlBurst limit))
    (f64_div (f64_of_int (rlPerAgent limit)) (duration_Seconds (rlWindow limit))) now.

Definition refill (now : Time) (b : tokenBucket) : tokenBucket :=
  let elapsed := duration_Seconds (time_Sub now (tbLast b)) in
  if f64_lt (f64_of_int 0) elapsed then
    let tokens := f64_add (tbTokens b) (f64_mul elapsed (tbRefillRate b)) in
    mkBucket (if f64_lt (tbCapacity b) tokens then tbCapacity b else tokens) (tbCapacity b) (tbRefillRate b) now
  else b.

Definition quotaCheck (now : Time) (agentID envelopeType : string) (limit : RateLimit) (q : QuotaStore) : QuotaStore * bool :=
  let key := quotaKey agentID envelopeType in
  let b := match q !! key with None => newBucket limit now | Some b => refill now b end in
  if f64_lt (tbTokens b) (f64_of_int 1) then (<[key := b]> q, false)
  else (<[key := mkBucket (f64_sub (tbTokens b) (f64_of_int 1)) (tbCapacity b) (tbRefillRate b) (tbLast b)]> q, true).

(** ** Types, envelopes and audit lines (registry.go, envelope.go, audit.go) *)

Inductive Direction := DirectionRequestResponse | DirectionPush | DirectionSubscribe.
#[export] Instance Direction_eq_dec : EqDecision Direction.
Proof. solve_decision. Defined.
Inductive AuditLevel := AuditNone | AuditHeaders | AuditFull.

Record Envelope := mkEnvelope {
  enType : string; enAgentID : string; enDeviceID : string; enRequestID : string; enTimestamp : Time; enNonce : string;
  enPayload : string
}.

(** A handler answers an envelope; a tick orders its answers. *)
Definition EnvelopeHandler : Type := Z -> Envelope -> result string (option string).

Record wireEnvelope := mkWire { wiType : string; wiRequestID : string; wiNonce : string; wiTimestamp : string; wiPayload : string }.

Record envelopeError := mkEnvelopeError { eeCode : string; eeMessage : string }.
Record responseEnvelope := mkResponse {
  reType : string; reRequestID : string; reTs : string; rePayload : string; reError : option envelopeError
}.

Definition ErrCodeTypeUnregistered : string := "type_unregistered".
Definition ErrCodePayloadTooLarge : string := "payload_too_large".
Definition ErrCodeRateLimited : string := "rate_limited".
Definition ErrCodeReplay : string := "replay".
Definition ErrCodeParseError : string := "parse_error".
Definition ErrCodeHandlerError : string := "handler_error".

(** [tsDirection] is [None] for the zero value, [tsHandler] for a nil handler. *)
Record TypeSpec := mkTypeSpec {
  tsName : string; tsDirection : option Direction; tsMaxPayloadSize : Z; tsRateLimit : RateLimit; tsNonceWindow : Duration;
  tsAuditLevel : AuditLevel; tsHandler : option EnvelopeHandler
}.

(** The panic of [validate]. *)
Definition TypeSpec_validate (s : TypeSpec) : result string unit :=
  if bool_decide (tsName s = "") then Err "TypeSpec.Name is required"
  else if negb (bool_decide (is_Some (tsDirection s))) then Err "missing Direction"
  else if tsMaxPayloadSize s <=? 0 then Err "missing MaxPayloadSize"
  else if rlPerAgent (tsRateLimit s) <=? 0 then Err "missing RateLimit.PerAgent"
  else if rlBurst (tsRateLimit s) <=? 0 then Err "missing RateLimit.Burst"
  else if rlWindow (tsRateLimit s) <=? 0 then Err "missing RateLimit.Window"
  else if tsNonceWindow s <=? 0 then Err "missing NonceWindow"
  else match tsHandler s with None => Err "missing Handler" | Some _ => Ok tt end.

Record AuditLine := mkAudit {
  alTs : Time; alEndpoint : string; alAgentID : string; alDeviceID : string; alType : string; alRequestID : string; alNonce : string;
  alPayloadHash : string; alDecision : string; alDetail : string
}.

(** ** An endpoint (endpoint.go) *)

Record Endpoint := mkEndpoint {
  epName : string; epTypes : gmap string TypeSpec; epReplay : ReplayStore; epQuota : QuotaStore; epStarted : bool
}.

(** [NewEndpoint] without options that replace its stores. *)
Definition NewEndpoint (name : string) : Endpoint := mkEndpoint name ∅ (NewReplayStore (2 * minute) (10 * minute)) ∅ false.

Definition Register (spec : TypeSpec) (e : Endpoint) : result string Endpoint :=
  if epStarted e then Err "cannot Register after Endpoint has started serving"
  else match TypeSpec_validate spec with
  | Err p => Err p
  | Ok _ =>
      match epTypes e !! tsName spec with
      | Some _ => Err "duplicate TypeSpec"
      | None => Ok (mkEndpoint (epName e) (<[tsName spec := spec]> (epTypes e)) (epReplay e) (epQuota e) false)
      end
  end.

Definition Endpoint_Handler (e : Endpoint) : Endpoint := mkEndpoint (epName e) (epTypes e) (epReplay e) (epQuota e) true.

Definition readLimit (e : Endpoint) : Z :=
  map_fold (fun _ spec maxPayload => if maxPayload <? tsMaxPayloadSize spec then tsMaxPayloadSize spec else maxPayload) 0 (epTypes e)
  + 4 * 1024.

Definition setReplay (r : ReplayStore) (e : Endpoint) : Endpoint := mkEndpoint (epName e) (epTypes e) r (epQuota e) (epStarted e).
Definition setQuota (q : QuotaStore) (e : Endpoint) : Endpoint := mkEndpoint (epName e) (epTypes e) (epReplay e) q (epStarted e).

(** What an identity resolver fails with: [ErrUnauthenticated] or another error. *)
Inductive ResolverError := Unauthenticated | ResolverFailed.

Inductive Accepted := HTTPError (status : Z) | Serving (agentID deviceID : string).

(** [serveHTTP], up to the upgrade of the connection. *)
Definition serveHTTP (resolved : result ResolverError (string * string)) : Accepted :=
  match resolved with
  | Err Unauthenticated => HTTPError 401
  | Err ResolverFailed => HTTPError 403
  | Ok (agentID, deviceID) => if bool_decide (agentID = "") then HTTPError 401 else Serving agentID deviceID
  end.

(** ** Dispatch (endpoint_conn.go) *)

(** SHA-256 in hexadecimal, and the texts of times. *)
Class BridgeLib := {
  sha256hex : string -> string;
  parseRFC3339 : string -> option Time;
  formatRFC3339 : Time -> string
}.

Section Dispatch.
Context `{BL : !BridgeLib}.

Definition payloadHash (payload : string) : string := if bool_decide (payload = "") then "" else "sha256:" +:+ sha256hex payload.

(** The readings of the clock by [dispatchOne], the replay store and the quota
    store, and the tick of the handler's call. *)
Record DispatchEnv := mkDispatchEnv { deNow : Time; deReplayNow : Time; deQuotaNow : Time; deTick : Z }.

(** What a dispatch does to the outside: the handler's call, the audit line and
    the response written. *)
Record Dispatched := mkDispatched {
  dpHandled : option Envelope; dpAudit : option AuditLine; dpResponse : option responseEnvelope
}.

Definition respondError (wire : wireEnvelope) (now : Time) (code message : string) : responseEnvelope :=
  mkResponse (wiType wire) (wiRequestID wire) (formatRFC3339 now) "" (Some (mkEnvelopeError code message)).

Definition auditLine (endpoint : string) (now : Time) (spec : TypeSpec) (wire : wireEnvelope) (agentID deviceID decision detail : string)
  : option AuditLine :=
  match tsAuditLevel spec with
  | AuditNone => None
  | level =>
      Some (mkAudit now endpoint agentID deviceID (wiType wire) (wiRequestID wire) (wiNonce wire)
        (match level with AuditFull => payloadHash (wiPayload wire) | _ => "" end) decision detail)
  end.

Definition recordAccepted endpoint now spec wire agentID deviceID := auditLine endpoint now spec wire agentID deviceID "accepted" "".
Definition recordRejection := auditLine.

Definition dispatchOne (env : DispatchEnv) (wire : wireEnvelope) (agentID deviceID : string) (e : Endpoint) : Endpoint * Dispatched :=
  let now := deNow env in
  match epTypes e !! wiType wire with
  | None =>
      (e, mkDispatched None
        (Some (mkAudit now (epName e) agentID deviceID (wiType wire) (wiRequestID wire) (wiNonce wire) "" ErrCodeTypeUnregistered ""))
        (Some (respondError wire now ErrCodeTypeUnregistered "")))
  | Some spec =>
      let refuse e code detail message :=
        (e, mkDispatched None (recordRejection (epName e) now spec wire agentID deviceID code detail) (Some (respondError wire now code message))) in
      if tsMaxPayloadSize spec <? Z.of_nat (String.length (wiPayload wire)) then refuse e ErrCodePayloadTooLarge "" ""
      else
        match (if bool_decide (wiTimestamp wire = "") then Some now else parseRFC3339 (wiTimestamp wire)) with
        | None => refuse e ErrCodeParseError "invalid ts" "invalid ts"
        | Some callerTs =>
            let '(r, checked) := replayCheck (deReplayNow env) agentID (wiType wire) (wiNonce wire) callerTs (tsNonceWindow spec) (epReplay e) in
            let e := setReplay r e in
            match checked with
            | Err err => refuse e ErrCodeReplay (ReplayError_Error err) ""
            | Ok _ =>
                let '(q, available) := quotaCheck (deQuotaNow env) agentID (wiType wire) (tsRateLimit spec) (epQuota e) in
                let e := setQuota q e in
                if negb available then refuse e ErrCodeRateLimited "" ""
                else
                  let envelope := mkEnvelope (wiType wire) agentID deviceID (wiRequestID wire) now (wiNonce wire) (wiPayload wire) in
                  match tsHandler spec with
                  | None => refuse e ErrCodeHandlerError "" ""   (** [Register] takes no nil handler *)
                  | Some handler =>
                      match handler (deTick env) envelope with
                      | Err err =>
                          (e, mkDispatched (Some envelope) (recordRejection (epName e) now spec wire agentID deviceID ErrCodeHandlerError err)
                                (Some (respondError wire now ErrCodeHandlerError err)))
                      | Ok payload =>
                          (e, mkDispatched (Some envelope) (recordAccepted (epName e) now spec wire agentID deviceID)
                                (if bool_decide (tsDirection spec = Some DirectionPush) then None
                                 else Some (mkResponse (wiType wire) (wiRequestID wire) (formatRFC3339 now) (default "null" payload) None)))
                      end
                  end
            end
        end
  end.

(** One envelope of some connection; the connection's identity was established
    when it was accepted. *)
Record Arrival := mkArrival { arEnv : DispatchEnv; arWire : wireEnvelope; arAgentID : string; arDeviceID : string }.

Definition dispatch (e : Endpoint) (a : Arrival) : Endpoint * Dispatched := dispatchOne (arEnv a) (arWire a) (arAgentID a) (arDeviceID a) e.

(** The envelopes of all the connections, in the order of their dispatch. *)
Fixpoint serve (e : Endpoint) (l : list Arrival) : Endpoint * list Dispatched :=
  match l with
  | [] => (e, [])
  | a :: l => let '(e, d) := dispatch e a in let '(e, ds) := serve e l in (e, d :: ds)
  end.
End Dispatch.

(** ** The replay store is the history of what it accepted *)

(** An envelope let through. *)
Record Accept := mkAccept { acAgent : string; acType : string; acNonce : string; acAt : Time }.

Definition sameEnvelope (agentID envelopeType nonce : string) (a : Accept) : bool :=
  bool_decide (acAgent a = agentID) && bool_decide (acType a = envelopeType) && bool_decide (acNonce a = nonce).

(** The store without bound: the whole history, latest first. *)
Definition historyCheck (skew : Duration) (now : Time) (agentID envelopeType nonce : string) (callerTs : Time) (window : Duration)
  (history : list Accept) : list Accept * result ReplayError unit :=
  if skewed skew now callerTs then (history, Err ErrTimestampOutOfRange)
  else if existsb (fun a => sameEnvelope agentID envelopeType nonce a && (time_Sub now (acAt a) <? window)) history
  then (history, Err ErrReplay)
  else (mkAccept agentID envelopeType nonce now :: history, Ok tt).

Definition noNUL (s : string) : Prop := str_forall (fun c => negb (Ascii.eqb c "000"%char)) s = true.

Lemma NUL_split s s' t t' : noNUL s -> noNUL s' -> s +:+ NUL +:+ t = s' +:+ NUL +:+ t' -> s = s' /\ t = t'.
Proof.
  unfold noNUL. revert s'. induction s as [|c s IH]; intros [|c' s']; rewrite ?str_app_nil_l, ?str_app_cons; simpl.
  - unfold NUL. rewrite !str_app_cons, !str_app_nil_l. intros _ _ [= ->]. done.
  - unfold NUL at 1. rewrite str_app_cons. intros _ H [= <- _]. simpl in H. done.
  - unfold NUL at 2. rewrite str_app_cons. intros H _ [= -> _]. simpl in H. done.
  - intros [_ H]%andb_true_iff [_ H']%andb_true_iff [= -> E]. destruct (IH s' H H' E) as [-> ->]. done.
Qed.

Lemma replayKey_inj a t n a' t' n' :
  noNUL a -> noNUL a' -> noNUL t -> noNUL t' -> replayKey a t n = replayKey a' t' n' -> a = a' /\ t = t' /\ n = n'.
Proof. intros Ha Ha' Ht Ht' (-> & E)%NUL_split; [|done|done]. by apply NUL_split in E as [-> ->]. Qed.

(** What the store and the history agree on: a key holds the time of its latest
    acceptance, unless that is older than the sweep keeps; [last] is the latest
    reading of the clock. *)
Definition latest (a t n : string) (history : list Accept) : option Time := acAt <$> head (filter (fun x => sameEnvelope a t n x = true) history).

Record agrees (last : Time) (r : ReplayStore) (history : list Accept) : Prop := {
  ag_clean : Forall (fun x => noNUL (acAgent x) /\ noNUL (acType x)) history;
  ag_sorted : StronglySorted (fun x y => acAt y <= acAt x) history;
  ag_past : Forall (fun x => acAt x <= last) history;
  ag_seen a t n : noNUL a -> noNUL t ->
    rsSeen r !! replayKey a t n = latest a t n history \/
    rsSeen r !! replayKey a t n = None /\ 0 < rsMaxAge r /\ exists at_, latest a t n history = Some at_ /\ at_ + rsMaxAge r < last
}.

Lemma latest_window a t n now window history :
  StronglySorted (fun x y => acAt y <= acAt x) history ->
  existsb (fun x => sameEnvelope a t n x && (time_Sub now (acAt x) <? window)) history =
  match latest a t n history with Some at_ => time_Sub now at_ <? window | None => false end.
Proof.
  unfold latest. induction 1 as [|x history Hs IH Hx]; [done|]. simpl. rewrite IH. clear IH. rewrite filter_cons.
  destruct (sameEnvelope a t n x) eqn:E; [|done]. simpl. destruct (time_Sub now (acAt x) <? window) eqn:Ew; [done|]. simpl.
  destruct (head (filter _ history)) as [y|] eqn:Ey; [|done]. simpl. apply Z.ltb_ge in Ew. apply Z.ltb_ge.
  apply head_Some in Ey as [l Ey]. assert (y ∈ history) as Hy.
  { assert (y ∈ filter (fun x => sameEnvelope a t n x = true) history) as Hf by (rewrite Ey; left).
    by apply list_elem_of_filter in Hf as [_ Hf]. }
  rewrite Forall_forall in Hx. specialize (Hx y Hy). unfold time_Sub in *. lia.
Qed.

Lemma latest_cons a t n a' t' n' now history :
  latest a t n (mkAccept a' t' n' now :: history) =
  if bool_decide (a' = a /\ t' = t /\ n' = n) then Some now else latest a t n history.
Proof.
  unfold latest. rewrite filter_cons. destruct (bool_decide_reflect (a' = a /\ t' = t /\ n' = n)) as [(-> & -> & ->)|Hn].
  - rewrite decide_True; [done|]. unfold sameEnvelope. simpl. by rewrite !bool_decide_eq_true_2.
  - rewrite decide_False; [done|]. unfold sameEnvelope. simpl.
    intros [[H1%bool_decide_eq_true H2%bool_decide_eq_true]%andb_true_iff H3%bool_decide_eq_true]%andb_true_iff. by apply Hn.
Qed.

Lemma latest_past a t n history last : Forall (fun x => acAt x <= last) history -> forall at_, latest a t n history = Some at_ -> at_ <= last.
Proof.
  intros Hp at_. unfold latest. destruct (head _) as [y|] eqn:Ey; [|done]. intros [= <-]. apply head_Some in Ey as [l Ey].
  rewrite Forall_forall in Hp. apply Hp. assert (y ∈ filter (fun x => sameEnvelope a t n x = true) history) as Hf by (rewrite Ey; left).
  by apply list_elem_of_filter in Hf as [_ Hf].
Qed.

Lemma agrees_later last last' r history : last <= last' -> agrees last r history -> agrees last' r history.
Proof.
  intros Hl [H1 H2 H3 H4]. split; [done|done| |].
  - eapply Forall_impl; [exact H3|]. simpl. lia.
  - intros a t n Ha Ht. destruct (H4 a t n Ha Ht) as [H|(H & Hm & at_ & Hat & Hold)]; [by left|right]. split_and!; [done|done|]. exists at_. split; [done|lia].
Qed.

(** The store after an acceptance. *)
Lemma agrees_accept last r history a t n :
  noNUL a -> noNUL t -> agrees last r history ->
  agrees last (sweepLocked last (mkReplay (<[replayKey a t n := last]> (rsSeen r)) (rsSkew r) (rsMaxAge r)))
    (mkAccept a t n last :: history).
Proof.
  intros Ha Ht [H1 H2 H3 H4]. split; [by constructor|by constructor|by constructor|].
  intros a' t' n' Ha' Ht'. rewrite latest_cons.
  assert ((<[replayKey a t n := last]> (rsSeen r) !! replayKey a' t' n' =
    if bool_decide (a = a' /\ t = t' /\ n = n') then Some last else rsSeen r !! replayKey a' t' n')) as Hins.
  { case_bool_decide as Hk; [destruct Hk as (-> & -> & ->); by rewrite lookup_insert_eq|].
    rewrite lookup_insert_ne; [done|]. intros E. by apply replayKey_inj in E. }
  pose proof (latest_past a' t' n' history last H3) as Hpast.
  unfold sweepLocked. simpl. destruct (Z.leb_spec (rsMaxAge r) 0) as [Hm|Hm]; simpl.
  - left. rewrite Hins. case_bool_decide; [done|]. destruct (H4 a' t' n' Ha' Ht') as [->|(_ & Hm' & _)]; [done|lia].
  - rewrite map_lookup_filter, Hins. case_bool_decide as Hk; simpl.
    + left. rewrite option_guard_True; [done|]. apply Z.ltb_ge. lia.
    + destruct (H4 a' t' n' Ha' Ht') as [-> | (-> & _ & at_ & Hat & Hold)]; [|right; split_and!; [done|done|by exists at_]].
      destruct (latest a' t' n' history) as [at_|] eqn:El; [|by left]. simpl. destruct (Z.ltb_spec at_ (last - rsMaxAge r)).
      * right. rewrite option_guard_False by done. split_and!; [done|done|]. exists at_. split; [done|lia].
      * left. by rewrite option_guard_True.
Qed.

Record Attempt := mkAttempt { atNow : Time; atAgent : string; atType : string; atNonce : string; atTs : Time; atWindow : Duration }.

(** A [Duration] whose window the sweep does not cut short. *)
Definition kept (maxAge window : Duration) : Prop := window < 2 ^ 63 /\ (0 < maxAge -> window <= maxAge).

Lemma check_agrees last r history x :
  agrees last r history -> last <= atNow x -> noNUL (atAgent x) -> noNUL (atType x) -> kept (rsMaxAge r) (atWindow x) ->
  let '(r', ans) := replayCheck (atNow x) (atAgent x) (atType x) (atNonce x) (atTs x) (atWindow x) r in
  let '(history', ans') := historyCheck (rsSkew r) (atNow x) (atAgent x) (atType x) (atNonce x) (atTs x) (atWindow x) history in
  ans = ans' /\ agrees (atNow x) r' history' /\ rsSkew r' = rsSkew r /\ rsMaxAge r' = rsMaxAge r.
Proof.
  intros Hag Hl Ha Ht [Hw63 Hw]. unfold replayCheck, historyCheck. destruct (skewed _ _ _); [split_and!; [done|by eapply agrees_later|done|done]|].
  pose proof (agrees_later _ (atNow x) _ _ Hl Hag) as Hag'. rewrite (latest_window _ _ _ _ _ _ (ag_sorted _ _ _ Hag)).
  assert ((match rsSeen r !! replayKey (atAgent x) (atType x) (atNonce x) with Some seenAt => time_Sub (atNow x) seenAt <? atWindow x | None => false end)
    = match latest (atAgent x) (atType x) (atNonce x) history with Some at_ => time_Sub (atNow x) at_ <? atWindow x | None => false end) as ->.
  { destruct (ag_seen _ _ _ Hag _ _ (atNonce x) Ha Ht) as [->|(-> & Hm & at_ & -> & Hold)]; [done|]. symmetry. apply Z.ltb_ge.
    specialize (Hw Hm). unfold time_Sub. lia. }
  destruct (match latest _ _ _ _ with Some _ => _ | None => _ end); [by split_and!|].
  split_and!; [done|by apply agrees_accept| |]; unfold sweepLocked; simpl; by destruct (rsMaxAge r <=? 0).
Qed.

Definition check_step (r : ReplayStore) (x : Attempt) :=
  replayCheck (atNow x) (atAgent x) (atType x) (atNonce x) (atTs x) (atWindow x) r.
Definition history_step (skew : Duration) (history : list Accept) (x : Attempt) :=
  historyCheck skew (atNow x) (atAgent x) (atType x) (atNonce x) (atTs x) (atWindow x) history.

(** The answers to a sequence of attempts. *)
Fixpoint answers {S X A} (step : S -> X -> S * A) (s : S) (l : list X) : list A :=
  match l with [] => [] | x :: l => let '(s, a) := step s x in a :: answers step s l end.

(** The clock does not go back. *)
Definition clocked (l : list Attempt) : Prop := StronglySorted (fun x y => atNow x <= atNow y) l.

(** C23 (equivalence). The replay store forgets what is older than its largest
    window, and answers like one that remembers everything: an envelope is refused
    as a replay exactly when the same agent got the same type with the same nonce
    through within the window, as long as no window is larger than the store was
    told. *)
Theorem bridge_replay_is_history skew maxAge l
  (Hl : clocked l) (Hk : Forall (fun x => noNUL (atAgent x) /\ noNUL (atType x) /\ kept maxAge (atWindow x)) l) :
  answers check_step (NewReplayStore skew maxAge) l = answers (history_step skew) [] l.
Proof.
  set (r := NewReplayStore skew maxAge). assert (exists last, agrees last r [] /\ Forall (fun x => last <= atNow x) l) as (last & Hag & Hlast).
  { exists (match l with x :: _ => atNow x | [] => 0 end). split.
    - split; [constructor|constructor|constructor|]. intros a t n _ _. by left.
    - destruct Hl as [|x l Hs Hx]; constructor; [lia|done]. }
  assert (rsSkew r = skew /\ rsMaxAge r = maxAge) as [Hsk Hma] by done. clearbody r. revert r last Hag Hlast Hsk Hma. generalize (@nil Accept).
  induction Hl as [|x l Hs IH Hx]; intros history r last Hag Hlast Hsk Hma; [done|]. simpl.
  apply Forall_cons in Hk as [(Ha & Ht & Hw) Hk]. apply Forall_cons in Hlast as [Hlast _]. rewrite <- Hma in Hw.
  pose proof (check_agrees last r history x Hag Hlast Ha Ht Hw) as H. unfold check_step, history_step at 1. rewrite Hsk in H.
  destruct (replayCheck _ _ _ _ _ _ _) as [r' ans]. destruct (historyCheck _ _ _ _ _ _ _ _) as [history' ans'].
  destruct H as (-> & Hag' & Hsk' & Hma'). f_equal. rewrite Hma in Hma'. by apply (IH Hk history' r' (atNow x)).
Qed.

(** ** Envelopes that reach a handler *)

Section Served.
Context `{BL : !BridgeLib}.

(** The envelope as the handler sees it: identity and time are the host's. *)
Definition stamped (a : Arrival) : Envelope :=
  mkEnvelope (wiType (arWire a)) (arAgentID a) (arDeviceID a) (wiRequestID (arWire a)) (deNow (arEnv a)) (wiNonce (arWire a))
    (wiPayload (arWire a)).

(** The time the sender claims; without one, the host's. *)
Definition claimed (a : Arrival) : option Time :=
  if bool_decide (wiTimestamp (arWire a) = "") then Some (deNow (arEnv a)) else parseRFC3339 (wiTimestamp (arWire a)).

(** What has to hold for a handler to see an envelope; [r] and [q] are the stores
    after the checks. *)
Record admitted (spec : TypeSpec) (callerTs : Time) (e : Endpoint) (a : Arrival) (r : ReplayStore) (q : QuotaStore) : Prop := {
  ad_registered : epTypes e !! wiType (arWire a) = Some spec;
  ad_size : Z.of_nat (String.length (wiPayload (arWire a))) <= tsMaxPayloadSize spec;
  ad_parsed : claimed a = Some callerTs;
  ad_fresh : replayCheck (deReplayNow (arEnv a)) (arAgentID a) (wiType (arWire a)) (wiNonce (arWire a)) callerTs (tsNonceWindow spec) (epReplay e)
    = (r, Ok tt);
  ad_quota : quotaCheck (deQuotaNow (arEnv a)) (arAgentID a) (wiType (arWire a)) (tsRateLimit spec) (epQuota e) = (q, true)
}.

Definition refused (a : Arrival) (d : Dispatched) : Prop :=
  exists code message, dpResponse d = Some (respondError (arWire a) (deNow (arEnv a)) code message).

(** The outcomes of a dispatch. *)
Lemma dispatch_cases e a e' d :
  dispatch e a = (e', d) ->
  epTypes e' = epTypes e /\
  ((dpHandled d = None /\ refused a d /\
     (epReplay e' = epReplay e \/ exists spec callerTs, epTypes e !! wiType (arWire a) = Some spec /\ claimed a = Some callerTs /\
        epReplay e' = (replayCheck (deReplayNow (arEnv a)) (arAgentID a) (wiType (arWire a)) (wiNonce (arWire a)) callerTs (tsNonceWindow spec) (epReplay e)).1)) \/
   (exists spec callerTs, admitted spec callerTs e a (epReplay e') (epQuota e') /\ dpHandled d = Some (stamped a) /\
     (refused a d \/ (dpResponse d = None <-> tsDirection spec = Some DirectionPush)))).
Proof.
  unfold dispatch, dispatchOne. destruct (epTypes e !! wiType (arWire a)) as [spec|] eqn:Es.
  2: { intros [= <- <-]. split; [done|left]. split_and!; [done|by eexists _, _|by left]. }
  destruct (Z.ltb_spec (tsMaxPayloadSize spec) (Z.of_nat (String.length (wiPayload (arWire a))))) as [|Hsize].
  { intros [= <- <-]. split; [done|left]. split_and!; [done|by eexists _, _|by left]. }
  fold (claimed a). destruct (claimed a) as [callerTs|] eqn:Ec.
  2: { intros [= <- <-]. split; [done|left]. split_and!; [done|by eexists _, _|by left]. }
  destruct (replayCheck _ _ _ _ _ _ _) as [r [[]|err]] eqn:Er.
  2: { intros [= <- <-]. split; [done|left]. split_and!; [done|by eexists _, _|right]. exists spec, callerTs. by rewrite Er. }
  destruct (quotaCheck _ _ _ _ _) as [q [|]] eqn:Eq; simpl.
  2: { intros [= <- <-]. split; [done|left]. split_and!; [done|by eexists _, _|right]. exists spec, callerTs. by rewrite Er. }
  destruct (tsHandler spec) as [handler|].
  2: { intros [= <- <-]. split; [done|left]. split_and!; [done|by eexists _, _|right]. exists spec, callerTs. by rewrite Er. }
  fold (stamped a). destruct (handler (deTick (arEnv a)) (stamped a)) as [payload|err]; intros [= <- <-]; (split; [done|right]);
    exists spec, callerTs; (split; [by split|split; [done|]]).
  - right. case_bool_decide; split; done.
  - left. by eexists _, _.
Qed.

(** C35 (safety). A handler runs only behind every gate: its type is registered, the
    payload is within the type's limit, the claimed time is within the skew, the
    nonce is fresh and a token was there; and what it sees carries the identity of
    the connection and the time of the host.  Whatever reaches no handler is
    answered with an error. *)
Theorem bridge_dispatch_gated e a e' d (Hd : dispatch e a = (e', d)) :
  epTypes e' = epTypes e /\
  match dpHandled d with
  | Some en =>
      en = stamped a /\ exists spec callerTs, admitted spec callerTs e a (epReplay e') (epQuota e') /\
        skewed (rsSkew (epReplay e)) (deReplayNow (arEnv a)) callerTs = false
  | None => refused a d
  end.
Proof.
  destruct (dispatch_cases _ _ _ _ Hd) as (Ht & [(-> & Hr & _)|(spec & callerTs & Had & -> & _)]); (split; [done|]); [done|].
  split; [done|]. exists spec, callerTs. split; [done|]. destruct Had as [_ _ _ Hf _]. unfold replayCheck in Hf.
  by destruct (skewed _ _ _).
Qed.

(** *** Replays *)

Record served (e : Endpoint) (last : Time) (history : list Accept) (types : gmap string TypeSpec) (skew maxAge : Duration) : Prop := {
  se_agrees : agrees last (epReplay e) history;
  se_types : epTypes e = types;
  se_skew : rsSkew (epReplay e) = skew;
  se_maxAge : rsMaxAge (epReplay e) = maxAge
}.

Section Replays.
Variables (types : gmap string TypeSpec) (skew maxAge : Duration).
Hypothesis Hkept : map_Forall (fun name spec => noNUL name /\ kept maxAge (tsNonceWindow spec)) types.

Definition asAccept (a : Arrival) : Accept := mkAccept (arAgentID a) (wiType (arWire a)) (wiNonce (arWire a)) (deReplayNow (arEnv a)).

Lemma dispatch_served e last history a e' d :
  served e last history types skew maxAge -> last <= deReplayNow (arEnv a) -> noNUL (arAgentID a) -> dispatch e a = (e', d) ->
  exists history', served e' (deReplayNow (arEnv a)) history' types skew maxAge /\ (forall x, x ∈ history -> x ∈ history') /\
    (forall en, dpHandled d = Some en -> asAccept a ∈ history' /\
      exists spec callerTs, types !! wiType (arWire a) = Some spec /\ claimed a = Some callerTs /\
        skewed skew (deReplayNow (arEnv a)) callerTs = false /\
        forall x, x ∈ history -> sameEnvelope (arAgentID a) (wiType (arWire a)) (wiNonce (arWire a)) x = true ->
          tsNonceWindow spec <= time_Sub (deReplayNow (arEnv a)) (acAt x)).
Proof using Hkept.
  intros [Hag Hty Hsk Hma] Hl Ha Hd. destruct (dispatch_cases _ _ _ _ Hd) as (Ht & Hcases).
  assert (forall spec callerTs, types !! wiType (arWire a) = Some spec ->
    epReplay e' = (replayCheck (deReplayNow (arEnv a)) (arAgentID a) (wiType (arWire a)) (wiNonce (arWire a)) callerTs (tsNonceWindow spec) (epReplay e)).1 ->
    let '(history', ans) := historyCheck skew (deReplayNow (arEnv a)) (arAgentID a) (wiType (arWire a)) (wiNonce (arWire a)) callerTs (tsNonceWindow spec) history in
    (replayCheck (deReplayNow (arEnv a)) (arAgentID a) (wiType (arWire a)) (wiNonce (arWire a)) callerTs (tsNonceWindow spec) (epReplay e)).2 = ans /\
    served e' (deReplayNow (arEnv a)) history' types skew maxAge) as Hcheck.
  { intros spec callerTs Hspec He'. destruct (Hkept _ _ Hspec) as [Hn Hw]. rewrite <- Hma in Hw.
    pose proof (check_agrees last (epReplay e) history
      (mkAttempt (deReplayNow (arEnv a)) (arAgentID a) (wiType (arWire a)) (wiNonce (arWire a)) callerTs (tsNonceWindow spec)) Hag Hl Ha Hn Hw) as H.
    simpl in H. rewrite Hsk in H. destruct (replayCheck _ _ _ _ _ _ _) as [r ans]. simpl in *. destruct (historyCheck _ _ _ _ _ _ _ _) as [h ans'].
    destruct H as (-> & Hag' & Hs & Hm). split; [done|]. subst r. split; [done|by rewrite Ht|done|by rewrite Hm]. }
  destruct Hcases as [(Hn & _ & [Hr|(spec & callerTs & Hspec & _ & Hr)])|(spec & callerTs & [Hspec Hsz Hp Hf Hq] & Hh & _)].
  - exists history. split_and!; [|done|by rewrite Hn]. split; [rewrite Hr; by eapply agrees_later|by rewrite Ht|by rewrite Hr|by rewrite Hr].
  - rewrite Hty in Hspec. specialize (Hcheck spec callerTs Hspec Hr). destruct (historyCheck _ _ _ _ _ _ _ _) as [h ans] eqn:Eh.
    destruct Hcheck as [_ Hs]. exists h. split_and!; [done| |by rewrite Hn]. unfold historyCheck in Eh. intros x Hx.
    destruct (skewed _ _ _); [by injection Eh as <- _|]. destruct (existsb _ _); injection Eh as <- _; [done|by right].
  - rewrite Hty in Hspec. specialize (Hcheck spec callerTs Hspec). rewrite Hf in Hcheck. specialize (Hcheck eq_refl). simpl in Hcheck.
    unfold historyCheck in Hcheck. destruct (skewed _ _ _) eqn:Ek; [by destruct Hcheck|]. destruct (existsb _ _) eqn:Ex; [by destruct Hcheck|].
    destruct Hcheck as [_ Hs]. eexists. split_and!; [exact Hs|intros x Hx; by right|]. intros en _. split; [left|].
    exists spec, callerTs. split_and!; [done|done|done|]. intros x Hx He. apply Z.nlt_ge. intros Hw. apply Z.ltb_lt in Hw.
    assert (existsb (fun a0 => sameEnvelope (arAgentID a) (wiType (arWire a)) (wiNonce (arWire a)) a0 &&
      (time_Sub (deReplayNow (arEnv a)) (acAt a0) <? tsNonceWindow spec)) history = true) as Hc; [|by rewrite Hc in Ex].
    apply existsb_exists. exists x. split; [by apply list_elem_of_In|]. by rewrite He, Hw.
Qed.

Definition replayClocked (last : Time) (l : list Arrival) : Prop :=
  StronglySorted (fun x y => deReplayNow (arEnv x) <= deReplayNow (arEnv y)) l /\ Forall (fun x => last <= deReplayNow (arEnv x)) l.

(** An accepted envelope, and a later one with its key that is handled. *)
Lemma handled_later x e last history l j b d :
  served e last history types skew maxAge -> replayClocked last l -> Forall (fun a => noNUL (arAgentID a)) l -> x ∈ history ->
  l !! j = Some b -> (serve e l).2 !! j = Some d -> is_Some (dpHandled d) -> sameEnvelope (arAgentID b) (wiType (arWire b)) (wiNonce (arWire b)) x = true ->
  exists spec callerTs, types !! wiType (arWire b) = Some spec /\ claimed b = Some callerTs /\
    skewed skew (deReplayNow (arEnv b)) callerTs = false /\ tsNonceWindow spec <= time_Sub (deReplayNow (arEnv b)) (acAt x).
Proof using Hkept.
  revert e last history j. induction l as [|a l IH]; intros e last history j Hs [Hc Hl] Hn Hx; [done|]. simpl.
  apply StronglySorted_inv in Hc as [Hc Hca]. apply Forall_cons in Hl as [Hla _]. apply Forall_cons in Hn as [Hna Hn].
  destruct (dispatch e a) as [e1 d1] eqn:Ed. destruct (dispatch_served _ _ _ _ _ _ Hs Hla Hna Ed) as (h & Hs1 & Hsub & Hacc).
  destruct (serve e1 l) as [e2 ds] eqn:Es. destruct j as [|j]; simpl.
  - intros [= <-] [= <-] [en Hen] He. destruct (Hacc en Hen) as (_ & spec & ts & H1 & H2 & H3 & H4). exists spec, ts. split_and!; auto.
  - intros Hb Hd. apply (IH e1 (deReplayNow (arEnv a)) h j); [done|done|done|by apply Hsub|done|by rewrite Es].
Qed.

Lemma handled_twice e last l i j a b d1 d2 history :
  served e last history types skew maxAge -> replayClocked last l -> Forall (fun a => noNUL (arAgentID a)) l ->
  (i < j)%nat -> l !! i = Some a -> l !! j = Some b -> (serve e l).2 !! i = Some d1 -> (serve e l).2 !! j = Some d2 ->
  is_Some (dpHandled d1) -> is_Some (dpHandled d2) -> sameEnvelope (arAgentID b) (wiType (arWire b)) (wiNonce (arWire b)) (asAccept a) = true ->
  exists spec ts1 ts2, types !! wiType (arWire b) = Some spec /\
    claimed a = Some ts1 /\ skewed skew (deReplayNow (arEnv a)) ts1 = false /\
    claimed b = Some ts2 /\ skewed skew (deReplayNow (arEnv b)) ts2 = false /\
    tsNonceWindow spec <= time_Sub (deReplayNow (arEnv b)) (deReplayNow (arEnv a)).
Proof using Hkept.
  revert e last history i j. induction l as [|x l IH]; intros e last history i j Hs [Hc Hl] Hn Hij; [done|]. simpl.
  apply StronglySorted_inv in Hc as [Hc Hca]. apply Forall_cons in Hl as [Hla _]. apply Forall_cons in Hn as [Hna Hn].
  destruct (dispatch e x) as [e1 d] eqn:Ed. destruct (dispatch_served _ _ _ _ _ _ Hs Hla Hna Ed) as (h & Hs1 & Hsub & Hacc).
  destruct (serve e1 l) as [e2 ds] eqn:Es. destruct j as [|j]; [lia|]. destruct i as [|i]; simpl.
  - intros [= <-] Hb [= <-] Hd2 [en Hen] Hh He. destruct (Hacc en Hen) as (Hin & spec & ts & H1 & H2 & H3 & _).
    destruct (handled_later (asAccept x) e1 (deReplayNow (arEnv x)) h l j b d2 Hs1) as (spec' & ts' & H1' & H2' & H3' & H4');
      [done|done|done|done|by rewrite Es|done|done|]. exists spec', ts, ts'. by split_and!.
  - intros Ha Hb Hd1 Hd2. apply (IH e1 (deReplayNow (arEnv x)) h i j); [done|done|done|lia|done|done|by rewrite Es|by rewrite Es].
Qed.
End Replays.

(** Endpoints as [NewEndpoint] and [Register] make them: nothing was seen. *)
Definition unused (e : Endpoint) : Prop := rsSeen (epReplay e) = ∅.

Definition spec_fits (maxAge : Duration) (e : Endpoint) : Prop :=
  map_Forall (fun name spec => noNUL name /\ kept maxAge (tsNonceWindow spec)) (epTypes e).

Lemma unused_served e l :
  unused e -> StronglySorted (fun x y => deReplayNow (arEnv x) <= deReplayNow (arEnv y)) l ->
  exists last, served e last [] (epTypes e) (rsSkew (epReplay e)) (rsMaxAge (epReplay e)) /\ replayClocked last l.
Proof.
  intros Hu Hc. exists (match l with a :: _ => deReplayNow (arEnv a) | [] => 0 end). split.
  - split; [|done|done|done]. split; [constructor|constructor|constructor|]. intros a t n _ _. left. by rewrite Hu, lookup_empty.
  - split; [done|]. destruct l as [|a l]; [constructor|]. apply StronglySorted_inv in Hc as [_ Hc]. constructor; [lia|done].
Qed.

(** Two arrivals that carry the same key of the replay store. *)
Definition same_key (a b : Arrival) : Prop :=
  arAgentID a = arAgentID b /\ wiType (arWire a) = wiType (arWire b) /\ wiNonce (arWire a) = wiNonce (arWire b).

Lemma same_key_accept a b : same_key a b -> sameEnvelope (arAgentID b) (wiType (arWire b)) (wiNonce (arWire b)) (asAccept a) = true.
Proof. intros (E1 & E2 & E3). unfold sameEnvelope, asAccept. simpl. by rewrite E1, E2, E3, !bool_decide_eq_true_2. Qed.

(** C22 (safety). An envelope is handled at most once within its window: of two
    envelopes of one agent with the same type and nonce, on whatever connections,
    the second reaches a handler only when the window has passed.  A captured
    envelope that states its time is never handled again, if the window exceeds
    twice the skew allowed. *)
Theorem bridge_handled_once e l i j a b d1 d2
  (Hu : unused e) (Hfit : spec_fits (rsMaxAge (epReplay e)) e)
  (Hc : StronglySorted (fun x y => deReplayNow (arEnv x) <= deReplayNow (arEnv y)) l)
  (Hn : Forall (fun a => noNUL (arAgentID a)) l)
  (Hij : (i < j)%nat) (Ha : l !! i = Some a) (Hb : l !! j = Some b)
  (Hd1 : (serve e l).2 !! i = Some d1) (Hd2 : (serve e l).2 !! j = Some d2)
  (H1 : is_Some (dpHandled d1)) (H2 : is_Some (dpHandled d2)) (Hk : same_key a b) :
  exists spec, epTypes e !! wiType (arWire b) = Some spec /\
    tsNonceWindow spec <= time_Sub (deReplayNow (arEnv b)) (deReplayNow (arEnv a)) /\
    (wiTimestamp (arWire a) = wiTimestamp (arWire b) -> wiTimestamp (arWire b) <> "" ->
      0 < rsSkew (epReplay e) -> tsNonceWindow spec <= 2 * rsSkew (epReplay e)).
Proof.
  destruct (unused_served e l Hu Hc) as (last & Hs & Hc').
  destruct (handled_twice _ _ _ Hfit e last l i j a b d1 d2 [] Hs Hc' Hn Hij Ha Hb Hd1 Hd2 H1 H2 (same_key_accept a b Hk))
    as (spec & ts1 & ts2 & Hspec & Hc1 & Hs1 & Hc2 & Hs2 & Hw).
  exists spec. split_and!; [done|done|]. intros Et Ene Hsk. unfold claimed in *. rewrite Et in Hc1. rewrite bool_decide_false in Hc1, Hc2 by done.
  rewrite Hc1 in Hc2. injection Hc2 as <-. destruct (Hfit _ _ Hspec) as [_ [H63 _]].
  unfold skewed in Hs1, Hs2. replace (0 <? rsSkew (epReplay e)) with true in Hs1, Hs2 by (symmetry; by apply Z.ltb_lt). simpl in Hs1, Hs2.
  apply orb_false_iff in Hs1 as [A1%Z.ltb_ge A2%Z.ltb_ge]. apply orb_false_iff in Hs2 as [B1%Z.ltb_ge B2%Z.ltb_ge]. unfold time_Sub in *. lia.
Qed.
End Served.

(** A window beyond what the store was told is cut short: once another envelope
    was accepted more than [maxAge] later, the key is gone. *)
Lemma bridge_short_memory r a t n a2 t2 n2 t1 at2 at3 callerTs window :
  0 < rsMaxAge r -> rsSeen r !! replayKey a t n = Some t1 -> replayKey a2 t2 n2 <> replayKey a t n -> rsMaxAge r < at2 - t1 ->
  skewed (rsSkew r) at3 callerTs = false ->
  exists r', replayCheck at3 a t n callerTs window
    (sweepLocked at2 (mkReplay (<[replayKey a2 t2 n2 := at2]> (rsSeen r)) (rsSkew r) (rsMaxAge r))) = (r', Ok tt).
Proof.
  intros Hm Hseen Hne Hold Hsk. unfold sweepLocked. simpl. destruct (Z.leb_spec (rsMaxAge r) 0); [lia|]. unfold replayCheck. simpl. rewrite Hsk.
  rewrite map_lookup_filter, lookup_insert_ne, Hseen by done. simpl. rewrite option_guard_False; [by eexists|].
  apply not_false_iff_true. apply Z.ltb_lt. lia.
Qed.

(** ** Bursts *)

Lemma refill_now t b : tbLast b = t -> refill t b = b.
Proof. intros <-. unfold refill. by rewrite no_time. Qed.

(** Checks of one key at one instant. *)
Fixpoint burst (now : Time) (agentID envelopeType : string) (limit : RateLimit) (n : nat) (q : QuotaStore) : QuotaStore * list bool :=
  match n with
  | O => (q, [])
  | S n => let '(q, ok) := quotaCheck now agentID envelopeType limit q in let '(q, oks) := burst now agentID envelopeType limit n q in (q, ok :: oks)
  end.

Lemma burst_from now a t limit cap rate n q k :
  0 <= k < 2 ^ 53 -> q !! quotaKey a t = Some (mkBucket (f64_of_int k) cap rate now) ->
  (burst now a t limit n q).2 = replicate (Nat.min n (Z.to_nat k)) true ++ replicate (n - Z.to_nat k) false.
Proof.
  revert q k. induction n as [|n IH]; intros q k Hk Hq; [done|]. cbn [burst]. unfold quotaCheck. rewrite Hq, refill_now by done.
  cbn [tbTokens tbCapacity tbRefillRate tbLast].
  destruct (Z.eq_dec k 0) as [->|Hk0].
  - rewrite no_token. cbv beta iota zeta. specialize (IH (<[quotaKey a t := mkBucket (f64_of_int 0) cap rate now]> q) 0 ltac:(lia) (lookup_insert_eq _ _ _)).
    destruct (burst now a t limit n _) as [q' oks]. cbn [snd] in *. rewrite IH. simpl. by rewrite Nat.min_0_r, Nat.sub_0_r.
  - rewrite has_token by lia. rewrite take_one by lia. cbv beta iota zeta. specialize (IH (<[quotaKey a t := mkBucket (f64_of_int (k - 1)) cap rate now]> q) (k - 1) ltac:(lia) (lookup_insert_eq _ _ _)).
    destruct (burst now a t limit n _) as [q' oks]. cbn [snd] in *. rewrite IH. replace (Z.to_nat k) with (S (Z.to_nat (k - 1))) by lia. done.
Qed.

(** A new bucket holds exactly its burst: of any number of calls at one
    instant the first [Burst] pass and the others are refused. *)
Theorem bridge_burst_exact now a t limit n q
  (Hb : 0 < rlBurst limit < 2 ^ 53) (Hq : q !! quotaKey a t = None) :
  (burst now a t limit n q).2 = replicate (Nat.min n (Z.to_nat (rlBurst limit))) true ++ replicate (n - Z.to_nat (rlBurst limit)) false.
Proof.
  destruct n as [|n]; [done|]. cbn [burst]. unfold quotaCheck. rewrite Hq. unfold newBucket.
  set (rate := f64_div (f64_of_int (rlPerAgent limit)) (duration_Seconds (rlWindow limit))).
  cbn [tbTokens tbCapacity tbRefillRate tbLast]. rewrite has_token by lia. rewrite take_one by lia. cbv beta iota zeta.
  pose proof (burst_from now a t limit (f64_of_int (rlBurst limit)) rate n
    (<[quotaKey a t := mkBucket (f64_of_int (rlBurst limit - 1)) (f64_of_int (rlBurst limit)) rate now]> q)
    (rlBurst limit - 1) ltac:(lia) (lookup_insert_eq _ _ _)) as IH.
  destruct (burst now a t limit n _) as [q' oks]. cbn [snd] in *. rewrite IH. replace (Z.to_nat (rlBurst limit)) with (S (Z.to_nat (rlBurst limit - 1))) by lia. done.
Qed.

(** ** Demo *)
Module Demo.
Definition lib : BridgeLib := {| sha256hex s := s; parseRFC3339 := ParseInt; formatRFC3339 := Itoa |}.

(** A type with a window of five minutes and two calls at once. *)
Definition call : TypeSpec :=
  mkTypeSpec "x402.service_call" (Some DirectionRequestResponse) 64 (mkRateLimit 60 2 minute) (5 * minute) AuditFull
    (Some (fun _ en => Ok (Some (enAgentID en)))).

Definition endpoint : Endpoint := match Register call (NewEndpoint "metered-services") with Ok e => Endpoint_Handler e | Err _ => NewEndpoint "" end.

Definition at_ (t : Time) : DispatchEnv := mkDispatchEnv t t t 0.
Definition wire (nonce : string) : wireEnvelope := mkWire "x402.service_call" "r1" nonce "" "payload".

(** Handled, refused as a replay, handled again after the window. *)
Definition arrivals : list Arrival :=
  [mkArrival (at_ 0) (wire "n1") "agent" "device"; mkArrival (at_ minute) (wire "n1") "agent" "device";
   mkArrival (at_ (5 * minute)) (wire "n1") "agent" "device"].

Definition dispatched (j : nat) : Dispatched := default (mkDispatched None None None) ((serve (BL := lib) endpoint arrivals).2 !! j).

Lemma dispatched_at j : (j < 3)%nat -> (serve (BL := lib) endpoint arrivals).2 !! j = Some (dispatched j).
Proof. intros Hj. unfold dispatched. destruct j as [|[|[|j]]]; [vm_compute; reflexivity..|lia]. Qed.

Lemma outcomes :
  is_Some (dpHandled (dispatched 0)) /\
  match dpResponse (dispatched 1) with Some r => reError r | None => None end = Some (mkEnvelopeError ErrCodeReplay "") /\
  is_Some (dpHandled (dispatched 2)).
Proof. split_and!; vm_compute; by try eexists. Qed.

Lemma fits : spec_fits (rsMaxAge (epReplay endpoint)) endpoint.
Proof.
  unfold spec_fits. replace (epTypes endpoint) with ({["x402.service_call" := call]} : gmap string TypeSpec) by (vm_compute; reflexivity).
  apply map_Forall_singleton. split; [reflexivity|]. split; [vm_compute; reflexivity|]. intros _. vm_compute. discriminate.
Qed.

Lemma in_order : StronglySorted (fun x y => deReplayNow (arEnv x) <= deReplayNow (arEnv y)) arrivals.
Proof. repeat constructor; vm_compute; discriminate. Qed.

Lemma clean : Forall (fun a => noNUL (arAgentID a)) arrivals.
Proof. repeat constructor. Qed.

Definition attempts : list Attempt :=
  [mkAttempt 0 "a" "t" "n1" 0 (5 * minute); mkAttempt minute "a" "t" "n1" 0 (5 * minute);
   mkAttempt (5 * minute) "a" "t" "n1" (5 * minute) (5 * minute); mkAttempt (5 * minute) "a" "t" "n2" 0 (5 * minute)].

Lemma attempts_clocked : clocked attempts.
Proof. repeat constructor; vm_compute; discriminate. Qed.

Lemma attempts_kept : Forall (fun x => noNUL (atAgent x) /\ noNUL (atType x) /\ kept (10 * minute) (atWindow x)) attempts.
Proof. repeat constructor; vm_compute; discriminate. Qed.

Lemma attempts_answers :
  answers check_step (NewReplayStore (2 * minute) (10 * minute)) attempts = [Ok tt; Err ErrReplay; Ok tt; Err ErrTimestampOutOfRange].
Proof. vm_compute. reflexivity. Qed.
End Demo.

Lemma bridge_replay_is_history_witness :
  answers check_step (NewReplayStore (2 * minute) (10 * minute)) Demo.attempts = answers (history_step (2 * minute)) [] Demo.attempts.
Proof. exact (bridge_replay_is_history (2 * minute) (10 * minute) Demo.attempts Demo.attempts_clocked Demo.attempts_kept). Defined.

Lemma bridge_dispatch_gated_witness :
  let a := mkArrival (Demo.at_ 0) (Demo.wire "n1") "agent" "device" in
  let d := (dispatch (BL := Demo.lib) Demo.endpoint a).2 in
  match dpHandled d with Some en => en = stamped a /\ enAgentID en = "agent" | None => refused (BL := Demo.lib) a d end.
Proof.
  intros a d.
  destruct (bridge_dispatch_gated (BL := Demo.lib) Demo.endpoint a (dispatch (BL := Demo.lib) Demo.endpoint a).1 d (surjective_pairing _)) as [_ H].
  destruct (dpHandled d) as [en|]; [|exact H]. destruct H as [-> _]. split; reflexivity.
Defined.

Lemma bridge_handled_once_witness :
  exists spec, epTypes Demo.endpoint !! "x402.service_call" = Some spec /\ tsNonceWindow spec <= time_Sub (5 * minute) 0.
Proof.
  destruct Demo.outcomes as (H0 & _ & H2).
  destruct (bridge_handled_once (BL := Demo.lib) Demo.endpoint Demo.arrivals 0 2 _ _ _ _ eq_refl Demo.fits Demo.in_order Demo.clean
    (le_S _ _ (le_n 1)) eq_refl eq_refl (Demo.dispatched_at 0 ltac:(lia)) (Demo.dispatched_at 2 ltac:(lia)) H0 H2 (conj eq_refl (conj eq_refl eq_refl)))
    as (spec & Hs & Hw & _).
  exists spec. exact (conj Hs Hw).
Defined.

Lemma bridge_burst_exact_witness :
  (burst 0 "agent" "t" (mkRateLimit 60 2 minute) 3 ∅).2 = [true; true; false].
Proof. apply (bridge_burst_exact 0 "agent" "t" (mkRateLimit 60 2 minute) 3 ∅); [split; reflexivity|reflexivity]. Defined.
