(* ===== verification/BridgeConn.v ===== *)
(** * Bridge connections (pkg/sandbox/bridge: frame.go, conn.go)

    Requests and responses over one websocket: frames with their checks, the
    answers of a handler, and the calls that wait for responses.  The goroutines
    around a connection -- the read loop, the callers, [Close] -- are events of a
    state machine; a channel is a buffer with the capacity the code gives it, and
    an event that would block is not enabled. *)

From Stdlib Require Import Ascii.
From stdpp Require Import base numbers list gmap strings.
From S2P Require Import Prelude GoStrings GoStrconv.

(** ** Frames (frame.go) *)

Definition KindRequest : string := "request".
Definition KindResponse : string := "response".
Definition KindStream : string := "stream".

Record BError := mkBError { beCode : string; beMessage : string }.

Record Frame := mkFrame { frKind : string; frID : string; frType : string; frPayload : string; frError : option BError }.

Definition BError_Error (e : BError) : string :=
  if isBlank (beMessage e) then beCode e else if isBlank (beCode e) then beMessage e else beCode e +:+ ": " +:+ beMessage e.

Definition bridgeError (code message : string) : BError := mkBError (TrimSpace code) (TrimSpace message).

(** An error of a handler: one that is or wraps a bridge error, or another one. *)
Inductive HandlerErr := BridgeErr (e : BError) | PlainErr (message : string).

Definition errorFrame (id typ : string) (err : option HandlerErr) : Frame :=
  mkFrame KindResponse id typ ""
    (Some (match err with
           | None => bridgeError "error" "unknown bridge error"
           | Some (BridgeErr e) => e
           | Some (PlainErr message) => bridgeError "handler_error" message
           end)).

Definition validateOutboundRequest (typ : string) : result string unit :=
  if isBlank typ then Err "bridge: request type is required" else Ok tt.

Definition validateInboundFrame (f : Frame) : result string unit :=
  let kind := TrimSpace (frKind f) in
  if bool_decide (kind = KindRequest) then
    if isBlank (frID f) then Err "bridge: request id is required"
    else if isBlank (frType f) then Err "bridge: request type is required"
    else Ok tt
  else if bool_decide (kind = KindResponse) || bool_decide (kind = KindStream) then
    if isBlank (frID f) then Err "bridge: response id is required" else Ok tt
  else Err "bridge: unsupported frame kind".

(** ** The answering side (conn.go) *)

Record Request := mkRequest { rqID : string; rqType : string; rqPayload : string }.

(** A handler sends chunks and returns a payload or an error. *)
Definition StreamHandler : Type := Request -> list string * result HandlerErr string.

(** The frames [handle] writes for a request. *)
Definition handle (handler : option StreamHandler) (f : Frame) : list Frame :=
  match handler with
  | None => [errorFrame (frID f) (frType f) (Some (BridgeErr (bridgeError "not_handled" "bridge request handler is not configured")))]
  | Some h =>
      let '(chunks, r) := h (mkRequest (frID f) (frType f) (frPayload f)) in
      map (fun p => mkFrame KindStream (frID f) (frType f) p None) chunks ++
      [match r with
       | Err e => errorFrame (frID f) (frType f) (Some e)
       | Ok p => mkFrame KindResponse (frID f) (frType f) p None
       end]
  end.

(** ** The calling side (conn.go) *)

(** [Call] makes a channel of capacity 1, [Stream] one of capacity 8. *)
Inductive CallKind := Unary | Streaming.
Definition capacity (k : CallKind) : nat := match k with Unary => 1 | Streaming => 8 end.

(** [responseResult]. *)
Inductive Msg := MFrame (f : Frame) | MErr (err : string).

Inductive Outcome :=
| Answered (f : Frame)          (** the payload of a response *)
| Refused (e : BError)          (** the error of a frame *)
| Failed (err : string).        (** the connection, the context, the callback, an unexpected frame *)

(** Where the goroutine of a call is: writing its request, waiting in the
    [select], about to remove itself from the pending calls, or gone. *)
Inductive CallerState := Writing | Waiting | Leaving (o : Outcome) | Returned (o : Outcome).

Record CallRec := mkCall { caKind : CallKind; caBuffer : list Msg; caState : CallerState; caChunks : list string }.

(** The read loop: reading, blocked in [ch <-] of [deliver], or ended. *)
Inductive RunState := Reading | Delivering (f : Frame) | Stopped (err : string).

Record Conn := mkConn {
  coPending : gset string;                           (** the keys of [pending] *)
  coCalls : gmap string CallRec;                     (** every call made, by its request's identifier *)
  coClosed : bool;
  coRun : RunState;
  coFailing : option (list string * string);         (** what [failPending] has still to tell *)
  coRequests : list Frame                            (** the requests given to the handler *)
}.

Definition NewConn : Conn := mkConn ∅ ∅ false Reading None [].

Definition setCall (id : string) (c : CallRec) (s : Conn) : Conn :=
  mkConn (coPending s) (<[id := c]> (coCalls s)) (coClosed s) (coRun s) (coFailing s) (coRequests s).
Definition setPending (p : gset string) (s : Conn) : Conn := mkConn p (coCalls s) (coClosed s) (coRun s) (coFailing s) (coRequests s).
Definition setRun (r : RunState) (s : Conn) : Conn := mkConn (coPending s) (coCalls s) (coClosed s) r (coFailing s) (coRequests s).
Definition setFailing (x : option (list string * string)) (s : Conn) : Conn :=
  mkConn (coPending s) (coCalls s) (coClosed s) (coRun s) x (coRequests s).
Definition setState (st : CallerState) (c : CallRec) : CallRec := mkCall (caKind c) (caBuffer c) st (caChunks c).
Definition setBuffer (b : list Msg) (c : CallRec) : CallRec := mkCall (caKind c) b (caState c) (caChunks c).

Definition removePending (id : string) (s : Conn) : Conn := setPending (coPending s ∖ {[id]}) s.

(** The first half of [failPending], under its lock. *)
Definition failPending (err : string) (s : Conn) : Conn :=
  if coClosed s then s
  else mkConn ∅ (coCalls s) true (coRun s) (Some (elements (coPending s), err)) (coRequests s).

(** [ch <- m], where there is room. *)
Definition push (id : string) (m : Msg) (s : Conn) : option Conn :=
  match coCalls s !! id with
  | Some c => if (length (caBuffer c) <? capacity (caKind c))%nat then Some (setCall id (setBuffer (caBuffer c ++ [m]) c) s) else None
  | None => None
  end.

(** The frame read, once it passed its check. *)
Definition dispatchFrame (f : Frame) (s : Conn) : Conn :=
  if bool_decide (frKind f = KindResponse) then
    if bool_decide (frID f ∈ coPending s) then setRun (Delivering f) (removePending (frID f) s) else s
  else if bool_decide (frKind f = KindStream) then
    if bool_decide (frID f ∈ coPending s) then setRun (Delivering f) s else s
  else if bool_decide (frKind f = KindRequest) then
    mkConn (coPending s) (coCalls s) (coClosed s) (coRun s) (coFailing s) (coRequests s ++ [f])
  else s.

Definition readFrame (r : result string Frame) (s : Conn) : Conn :=
  match r with
  | Err e => setRun (Stopped e) (failPending e s)
  | Ok f =>
      match validateInboundFrame f with
      | Err e => setRun (Stopped e) (failPending e s)
      | Ok _ => dispatchFrame f s
      end
  end.

(** What [Call] does with a message. *)
Definition callReceives (m : Msg) : CallerState :=
  match m with
  | MErr e => Returned (Failed e)
  | MFrame f =>
      if bool_decide (frKind f = KindStream) then Leaving (Failed "bridge: unexpected stream frame")
      else match frError f with Some e => Returned (Refused e) | None => Returned (Answered f) end
  end.

(** What [Stream] does with one; [chunkOk] is the answer of [onChunk]. *)
Definition streamReceives (chunkOk : bool) (m : Msg) : CallerState * list string :=
  match m with
  | MErr e => (Returned (Failed e), [])
  | MFrame f =>
      match frError f with
      | Some e => (Leaving (Refused e), [])
      | None =>
          if bool_decide (frKind f = KindStream) then
            if chunkOk then (Waiting, [frPayload f]) else (Leaving (Failed "chunk"), [frPayload f])
          else if bool_decide (frKind f = KindResponse) then (Returned (Answered f), [])
          else (Leaving (Failed "bridge: unexpected frame kind"), [])
      end
  end.

Definition receive (chunkOk : bool) (m : Msg) (rest : list Msg) (c : CallRec) : CallRec :=
  match caKind c with
  | Unary => mkCall Unary rest (callReceives m) (caChunks c)
  | Streaming => let '(st, chunks) := streamReceives chunkOk m in mkCall Streaming rest st (caChunks c ++ chunks)
  end.

(** One step of one of the goroutines. *)
Inductive Event :=
| EvRegister (id : string) (k : CallKind)        (** [addPending] of a new call *)
| EvWritten (id : string) (ok : bool)            (** its request is written, or not *)
| EvRead (r : result string Frame)               (** the read loop reads *)
| EvPush                                         (** its delivery goes through *)
| EvReceive (id : string) (chunkOk : bool)       (** a call takes a message *)
| EvCancel (id : string)                         (** its context ends *)
| EvLeave (id : string)                          (** [removePending] and return *)
| EvClose                                        (** [Close] *)
| EvTell.                                        (** [failPending] tells one more call *)

(** The state after an event; [None] where it is not enabled. *)
Definition step (s : Conn) (ev : Event) : option Conn :=
  match ev with
  | EvRegister id k =>
      match coCalls s !! id with
      | Some _ => None                              (** identifiers are UUIDs *)
      | None =>
          if coClosed s then Some (setCall id (mkCall k [] (Returned (Failed "bridge: connection closed")) []) s)
          else Some (setPending (coPending s ∪ {[id]}) (setCall id (mkCall k [] Writing []) s))
      end
  | EvWritten id ok =>
      match coCalls s !! id with
      | Some c => match caState c with
          | Writing => Some (setCall id (setState (if ok then Waiting else Leaving (Failed "write")) c) s)
          | _ => None
          end
      | None => None
      end
  | EvRead r => match coRun s with Reading => Some (readFrame r s) | _ => None end
  | EvPush => match coRun s with Delivering f => setRun Reading <$> push (frID f) (MFrame f) s | _ => None end
  | EvReceive id chunkOk =>
      match coCalls s !! id with
      | Some c => match caState c, caBuffer c with
          | Waiting, m :: rest => Some (setCall id (receive chunkOk m rest c) s)
          | _, _ => None
          end
      | None => None
      end
  | EvCancel id =>
      match coCalls s !! id with
      | Some c => match caState c with
          | Waiting => Some (setCall id (setState (Leaving (Failed "context canceled")) c) s)
          | _ => None
          end
      | None => None
      end
  | EvLeave id =>
      match coCalls s !! id with
      | Some c => match caState c with
          | Leaving o => Some (removePending id (setCall id (setState (Returned o) c) s))
          | _ => None
          end
      | None => None
      end
  | EvClose => Some (failPending "bridge: connection closed" s)
  | EvTell =>
      match coFailing s with
      | Some (id :: ids, err) => setFailing (Some (ids, err)) <$> push id (MErr err) s
      | _ => None
      end
  end.

Fixpoint run (s : Conn) (l : list Event) : option Conn :=
  match l with [] => Some s | ev :: l => match step s ev with Some s' => run s' l | None => None end end.

Definition reachable (s : Conn) : Prop := exists l, run NewConn l = Some s.

(** ** Answers *)

(** A request is answered by its chunks in order and then exactly
    one response, all under the identifier and type of the request, whatever the
    handler does. *)
Theorem bridge_one_response handler f :
  exists chunks last, handle handler f = map (fun p => mkFrame KindStream (frID f) (frType f) p None) chunks ++ [last] /\
    frKind last = KindResponse /\ frID last = frID f /\ frType last = frType f /\
    (frError last = None <-> exists h p, handler = Some h /\ h (mkRequest (frID f) (frType f) (frPayload f)) = (chunks, Ok p) /\ frPayload last = p).
Proof.
  unfold handle. destruct handler as [h|].
  2: { eexists [], _. split_and!; [done|done|done|done|]. split; [done|]. intros (h & p & Hh & _). discriminate Hh. }
  destruct (h _) as [chunks [p|e]] eqn:Eh; eexists chunks, _; (split; [done|]); split_and!; try done; split; try done.
  - intros _. by exists h, p.
  - intros (h' & p & [= <-] & E & _). by rewrite Eh in E.
Qed.

(** ** What every reachable connection satisfies *)

Definition outcome_ok (id : string) (o : Outcome) : Prop := match o with Answered f => frID f = id /\ frError f = None | _ => True end.
Definition state_ok (id : string) (st : CallerState) : Prop :=
  match st with Leaving o | Returned o => outcome_ok id o | _ => True end.
Definition msg_ok (id : string) (m : Msg) : Prop := match m with MFrame f => frID f = id | MErr _ => True end.

Record call_ok (id : string) (c : CallRec) : Prop := {
  ca_room : (length (caBuffer c) <= capacity (caKind c))%nat;
  ca_own : Forall (msg_ok id) (caBuffer c);
  ca_outcome : state_ok id (caState c)
}.

Record conn_ok (s : Conn) : Prop := {
  co_calls : map_Forall call_ok (coCalls s);
  co_pending id : id ∈ coPending s -> is_Some (coCalls s !! id);
  co_run f : coRun s = Delivering f -> is_Some (coCalls s !! frID f)
}.

Lemma setCall_ok id c s : conn_ok s -> call_ok id c -> conn_ok (setCall id c s).
Proof.
  intros [H1 H2 H3] Hc. split; simpl.
  - by apply map_Forall_insert_2.
  - intros j Hj. destruct (decide (j = id)) as [->|]; [by rewrite lookup_insert_eq|rewrite lookup_insert_ne by done; by apply H2].
  - intros f Hf. destruct (decide (frID f = id)) as [<-|]; [by rewrite lookup_insert_eq|rewrite lookup_insert_ne by done; by apply H3].
Qed.

Lemma push_ok id m s s' : conn_ok s -> msg_ok id m -> push id m s = Some s' -> conn_ok s'.
Proof.
  intros Hs Hm. unfold push. destruct (coCalls s !! id) as [c|] eqn:Ec; [|done].
  destruct (Nat.ltb_spec (length (caBuffer c)) (capacity (caKind c))); [|done]. intros [= <-]. destruct (co_calls _ Hs _ _ Ec) as [A1 A2 A3].
  apply setCall_ok; [done|]. split; simpl; [rewrite length_app; simpl; lia|apply Forall_app; split; [done|by constructor]|done].
Qed.

Lemma failPending_ok e s : conn_ok s -> conn_ok (failPending e s).
Proof. intros [H1 H2 H3]. unfold failPending. destruct (coClosed s); split; simpl; done. Qed.

Lemma setRun_stop e s : conn_ok s -> conn_ok (setRun (Stopped e) s).
Proof. intros [H1 H2 H3]. by split. Qed.

Lemma dispatchFrame_ok f s : conn_ok s -> conn_ok (dispatchFrame f s).
Proof.
  intros [H1 H2 H3]. unfold dispatchFrame. repeat case_bool_decide; try done; split; simpl; try done; try set_solver.
  all: intros f' [= <-]; by apply H2.
Qed.

Lemma receive_ok id ok m rest c :
  call_ok id c -> caBuffer c = m :: rest -> call_ok id (receive ok m rest c).
Proof.
  intros [A1 A2 A3] Hb. rewrite Hb in A1, A2. apply Forall_cons in A2 as [Am A2]. simpl in A1. unfold receive. destruct (caKind c).
  - split; simpl in *; [lia|done|]. destruct m as [f|e]; simpl; [|done]. case_bool_decide; [done|]. by destruct (frError f) eqn:Ee.
  - destruct (streamReceives ok m) as [st chunks] eqn:Es. split; simpl in *; [lia|done|]. destruct m as [f|e]; simpl in Es; [|by injection Es as <- _].
    destruct (frError f) eqn:Ee; [by injection Es as <- _|]. repeat case_match; by injection Es as <- _.
Qed.

Lemma step_ok s ev s' : conn_ok s -> step s ev = Some s' -> conn_ok s'.
Proof.
  intros Hs. destruct ev as [id k|id ok|r| |id ok|id|id| |]; simpl.
  - destruct (coCalls s !! id) eqn:Ec; [done|]. destruct (coClosed s); intros [= <-].
    + apply setCall_ok; [done|]. split; simpl; [lia|done|done].
    + pose proof (setCall_ok id (mkCall k [] Writing []) s Hs) as [H1 H2 H3]; [split; simpl; [lia|done|done]|]. split; [done| |done].
      simpl. intros j [Hj|Hj%elem_of_singleton]%elem_of_union; [by apply H2|]. rewrite Hj. by rewrite lookup_insert_eq.
  - destruct (coCalls s !! id) as [c|] eqn:Ec; [|done]. destruct (caState c) eqn:Es; try done. intros [= <-].
    destruct (co_calls _ Hs _ _ Ec) as [A1 A2 A3]. apply setCall_ok; [done|]. split; [done|done|by destruct ok].
  - destruct (coRun s) eqn:Er; try done. intros [= <-]. unfold readFrame. destruct r as [f|e]; [|by apply setRun_stop, failPending_ok].
    destruct (validateInboundFrame f); [by apply dispatchFrame_ok|by apply setRun_stop, failPending_ok].
  - destruct (coRun s) as [|f|] eqn:Er; try done. destruct (push (frID f) (MFrame f) s) as [s1|] eqn:Ep; [|done]. intros [= <-].
    apply push_ok in Ep as [H1 H2 H3]; [by split|done|done].
  - destruct (coCalls s !! id) as [c|] eqn:Ec; [|done]. destruct (caState c) eqn:Es; try done. destruct (caBuffer c) eqn:Eb; [done|]. intros [= <-].
    apply setCall_ok; [done|]. apply receive_ok; [by apply (co_calls _ Hs)|done].
  - destruct (coCalls s !! id) as [c|] eqn:Ec; [|done]. destruct (caState c) eqn:Es; try done. intros [= <-].
    destruct (co_calls _ Hs _ _ Ec) as [A1 A2 A3]. by apply setCall_ok.
  - destruct (coCalls s !! id) as [c|] eqn:Ec; [|done]. destruct (caState c) as [| |o|o] eqn:Es; try done. intros [= <-].
    destruct (co_calls _ Hs _ _ Ec) as [A1 A2 A3]. rewrite Es in A3.
    destruct (setCall_ok id (setState (Returned o) c) s Hs) as [H1 H2 H3]; [by split|]. split; [done| |done]. intros j [Hj _]%elem_of_difference. by apply H2.
  - intros [= <-]. by apply failPending_ok.
  - destruct (coFailing s) as [[[|id ids] err]|]; try done. destruct (push id (MErr err) s) as [s1|] eqn:Ep; [|done]. intros [= <-].
    apply push_ok in Ep as [H1 H2 H3]; [by split|done|done].
Qed.

Lemma run_ok s l s' : conn_ok s -> run s l = Some s' -> conn_ok s'.
Proof.
  revert s. induction l as [|ev l IH]; intros s Hs; simpl; [by intros [= <-]|].
  destruct (step s ev) as [s1|] eqn:E; [|done]. apply IH. by eapply step_ok.
Qed.

Lemma reachable_ok s : reachable s -> conn_ok s.
Proof. intros [l Hl]. eapply run_ok; [|exact Hl]. split; [done| |done]. intros id. set_solver. Qed.

(** Calls are not mixed up: whatever the peer sends and however the
    goroutines interleave, a call returns the payload of a response to its own
    request, and no channel holds more than its capacity. *)
Theorem bridge_answers_own_call s id c f (Hs : reachable s) (Hc : coCalls s !! id = Some c) (Ho : caState c = Returned (Answered f)) :
  frID f = id /\ frError f = None /\ (length (caBuffer c) <= capacity (caKind c))%nat.
Proof. destruct (co_calls _ (reachable_ok s Hs) _ _ Hc) as [H1 _ H3]. rewrite Ho in H3. destruct H3. by split_and!. Qed.

(** ** The read loop *)

(** The call has left its [select] for good. *)
Definition gone (c : CallRec) : Prop := match caState c with Leaving _ | Returned _ => True | _ => False end.

(** The loop delivers to a channel that is full and that nobody will empty. *)
Definition abandoned (f : Frame) (s : Conn) : Prop :=
  exists c, coCalls s !! frID f = Some c /\ gone c /\ (capacity (caKind c) <= length (caBuffer c))%nat.

Lemma push_other id m s s' j c :
  push id m s = Some s' -> coCalls s !! j = Some c -> (capacity (caKind c) <= length (caBuffer c))%nat ->
  coCalls s' !! j = Some c /\ coRun s' = coRun s.
Proof.
  unfold push. destruct (coCalls s !! id) as [c'|] eqn:Ec; [|done]. destruct (Nat.ltb_spec (length (caBuffer c')) (capacity (caKind c'))); [|done].
  intros [= <-] Hj Hfull. simpl. split; [|done]. destruct (decide (j = id)) as [->|]; [|by rewrite lookup_insert_ne].
  rewrite Ec in Hj. injection Hj as ->. lia.
Qed.

Lemma failPending_same e s : coCalls (failPending e s) = coCalls s /\ coRun (failPending e s) = coRun s.
Proof. unfold failPending. by destruct (coClosed s). Qed.

(** No event moves the loop out of an abandoned delivery. *)
Lemma abandoned_step f s ev s' : coRun s = Delivering f -> abandoned f s -> step s ev = Some s' -> coRun s' = Delivering f /\ abandoned f s'.
Proof.
  intros Hrun (c & Hc & Hg & Hfull).
  assert (forall id c0 s1, coCalls s1 = coCalls s -> coRun s1 = coRun s -> id <> frID f -> coRun (setCall id c0 s1) = Delivering f /\ abandoned f (setCall id c0 s1)) as Hother.
  { intros id c0 s1 E1 E2 Hid. split; [by simpl; rewrite E2|]. exists c. simpl. rewrite lookup_insert_ne, E1 by done. done. }
  destruct ev as [id k|id ok|r| |id ok|id|id| |]; simpl.
  - destruct (coCalls s !! id) eqn:Ec; [done|]. assert (id <> frID f) as Hid by (intros ->; by rewrite Hc in Ec).
    destruct (coClosed s); intros [= <-]; [by apply Hother|]. exact (Hother id _ s eq_refl eq_refl Hid).
  - destruct (coCalls s !! id) as [c'|] eqn:Ec; [|done]. destruct (caState c') eqn:Es; try done. intros [= <-]. apply Hother; [done|done|].
    intros ->. rewrite Hc in Ec. injection Ec as ->. unfold gone in Hg. by rewrite Es in Hg.
  - by rewrite Hrun.
  - rewrite Hrun. unfold push. rewrite Hc. destruct (Nat.ltb_spec (length (caBuffer c)) (capacity (caKind c))); [lia|done].
  - destruct (coCalls s !! id) as [c'|] eqn:Ec; [|done]. destruct (caState c') eqn:Es; try done. destruct (caBuffer c') eqn:Eb; [done|]. intros [= <-].
    apply Hother; [done|done|]. intros ->. rewrite Hc in Ec. injection Ec as ->. unfold gone in Hg. by rewrite Es in Hg.
  - destruct (coCalls s !! id) as [c'|] eqn:Ec; [|done]. destruct (caState c') eqn:Es; try done. intros [= <-]. apply Hother; [done|done|].
    intros ->. rewrite Hc in Ec. injection Ec as ->. unfold gone in Hg. by rewrite Es in Hg.
  - destruct (coCalls s !! id) as [c'|] eqn:Ec; [|done]. destruct (caState c') as [| |o|o] eqn:Es; try done. intros [= <-]. simpl. split; [done|].
    destruct (decide (id = frID f)) as [->|Hid]; [|by destruct (Hother id (setState (Returned o) c') s eq_refl eq_refl Hid)].
    rewrite Hc in Ec. injection Ec as ->. exists (setState (Returned o) c'). simpl. by rewrite lookup_insert_eq.
  - intros [= <-]. destruct (failPending_same "bridge: connection closed" s) as [E1 E2]. rewrite E2. split; [done|]. exists c. by rewrite E1.
  - destruct (coFailing s) as [[[|id ids] err]|]; try done. destruct (push id (MErr err) s) as [s1|] eqn:Ep; [|done]. intros [= <-].
    destruct (push_other _ _ _ _ _ _ Ep Hc Hfull) as [E1 E2]. simpl. rewrite E2. split; [done|]. by exists c.
Qed.

Lemma abandoned_run f s l s' : coRun s = Delivering f -> abandoned f s -> run s l = Some s' -> coRun s' = Delivering f.
Proof.
  revert s. induction l as [|ev l IH]; intros s Hr Ha; simpl; [by intros [= <-]|].
  destruct (step s ev) as [s1|] eqn:E; [|done]. destruct (abandoned_step f s ev s1 Hr Ha E) as [Hr1 Ha1]. by apply IH.
Qed.

(** A delivery with room goes through. *)
Lemma push_room f s c :
  coRun s = Delivering f -> coCalls s !! frID f = Some c -> (length (caBuffer c) < capacity (caKind c))%nat ->
  exists s', step s EvPush = Some s' /\ coRun s' = Reading.
Proof.
  intros Hr Hc Hroom. simpl. rewrite Hr. unfold push. rewrite Hc. destruct (Nat.ltb_spec (length (caBuffer c)) (capacity (caKind c))); [|lia].
  by eexists.
Qed.

Lemma waiting_resumes f s c :
  conn_ok s -> coRun s = Delivering f -> coCalls s !! frID f = Some c -> caState c = Waiting ->
  exists l s', run s l = Some s' /\ coRun s' = Reading.
Proof.
  intros Hs Hr Hc Hw. destruct (co_calls _ Hs _ _ Hc) as [Hroom _ _].
  destruct (Nat.lt_ge_cases (length (caBuffer c)) (capacity (caKind c))) as [Hlt|Hge].
  { destruct (push_room f s c Hr Hc Hlt) as (s' & E & E'). exists [EvPush], s'. simpl in *. by rewrite E. }
  destruct (caBuffer c) as [|m rest] eqn:Eb; [simpl in Hge; by destruct (caKind c); simpl in *; lia|].
  set (c1 := receive true m rest c). set (s1 := setCall (frID f) c1 s).
  assert (step s (EvReceive (frID f) true) = Some s1) as E1 by (simpl; by rewrite Hc, Hw, Eb).
  destruct (push_room f s1 c1) as (s' & E & E'); [done|apply lookup_insert_eq| |].
  { unfold c1, receive. simpl in Hroom, Hge. destruct (caKind c); simpl in *; [lia|]. destruct (streamReceives true m). simpl. lia. }
  exists [EvReceive (frID f) true; EvPush], s'. cbn [run]. rewrite E1, E. done.
Qed.

(** A read loop that delivers a frame reads on, unless the call it
    delivers to has gone and left its channel full: then it never reads again,
    whatever happens, the closing of the connection included.  [Stream] leaves its
    channel that way when its context ends, or its callback fails, while the peer
    is ahead by more than the eight frames the channel holds. *)
Theorem bridge_read_loop_blocks s f (Hs : reachable s) (Hr : coRun s = Delivering f) :
  (abandoned f s -> forall l s', run s l = Some s' -> coRun s' = Delivering f) /\
  (~ abandoned f s -> exists l s', run s l = Some s' /\ coRun s' = Reading).
Proof.
  split; [intros Ha l s'; by apply abandoned_run|]. intros Hna. pose proof (reachable_ok s Hs) as Hok.
  destruct (co_run _ Hok _ Hr) as [c Hc]. destruct (caState c) as [| |o|o] eqn:Es.
  - set (s1 := setCall (frID f) (setState Waiting c) s). assert (step s (EvWritten (frID f) true) = Some s1) as E1 by (simpl; by rewrite Hc, Es).
    destruct (waiting_resumes f s1 (setState Waiting c)) as (l & s' & E & E'); [by eapply step_ok|done|apply lookup_insert_eq|done|].
    exists (EvWritten (frID f) true :: l), s'. cbn [run]. by rewrite E1.
  - by eapply waiting_resumes.
  - destruct (Nat.lt_ge_cases (length (caBuffer c)) (capacity (caKind c))) as [Hlt|Hge].
    + destruct (push_room f s c Hr Hc Hlt) as (s' & E & E'). exists [EvPush], s'. cbn [run]. by rewrite E.
    + exfalso. apply Hna. exists c. unfold gone. by rewrite Es.
  - destruct (Nat.lt_ge_cases (length (caBuffer c)) (capacity (caKind c))) as [Hlt|Hge].
    + destruct (push_room f s c Hr Hc Hlt) as (s' & E & E'). exists [EvPush], s'. cbn [run]. by rewrite E.
    + exfalso. apply Hna. exists c. unfold gone. by rewrite Es.
Qed.

(** A kind with blanks around it passes the check and is then dropped: [Run]
    compares the kind as it came. *)
Lemma bridge_padded_kind_dropped f s :
  is_ok (validateInboundFrame f) = true -> TrimSpace (frKind f) <> frKind f -> readFrame (Ok f) s = s.
Proof.
  intros Hv Hk. unfold readFrame. destruct (validateInboundFrame f); [|done]. unfold dispatchFrame.
  rewrite !bool_decide_false; [done| | |]; intros E; apply Hk; by rewrite E.
Qed.

(** ** Demo *)
Module Demo.
Definition chunk : Frame := mkFrame KindStream "r1" "log.tail" "line" None.
Definition response : Frame := mkFrame KindResponse "r2" "status" "fine" None.

(** A unary call and its answer. *)
Definition exchange : list Event := [EvRegister "r2" Unary; EvWritten "r2" true; EvRead (Ok response); EvPush; EvReceive "r2" true].
Definition answered : Conn := default NewConn (run NewConn exchange).

Lemma answered_reachable : reachable answered.
Proof. exists exchange. vm_compute. reflexivity. Qed.

(** A stream is cancelled while the peer is nine frames ahead. *)
Definition ahead : list Event := concat (replicate 8 [EvRead (Ok chunk); EvPush]) ++ [EvRead (Ok chunk); EvCancel "r1"; EvLeave "r1"].
Definition wedged : Conn := default NewConn (run NewConn ([EvRegister "r1" Streaming; EvWritten "r1" true] ++ ahead)).

Lemma wedged_reachable : reachable wedged.
Proof. exists ([EvRegister "r1" Streaming; EvWritten "r1" true] ++ ahead). vm_compute. reflexivity. Qed.

Lemma wedged_run : coRun wedged = Delivering chunk.
Proof. vm_compute. reflexivity. Qed.

Lemma wedged_abandoned : abandoned chunk wedged.
Proof. eexists. split; [vm_compute; reflexivity|]. split; vm_compute; [done|lia]. Qed.
End Demo.

Lemma bridge_answers_own_call_witness :
  exists c, coCalls Demo.answered !! "r2" = Some c /\ frID Demo.response = "r2" /\ (length (caBuffer c) <= 1)%nat.
Proof.
  eexists. split; [vm_compute; reflexivity|].
  destruct (bridge_answers_own_call Demo.answered "r2" (mkCall Unary [] (Returned (Answered Demo.response)) []) Demo.response
    Demo.answered_reachable eq_refl eq_refl) as (H & _ & _).
  split; [exact H|]. simpl. apply le_0_n.
Defined.

(** Closing the connection does not end the read loop. *)
Lemma bridge_read_loop_blocks_witness :
  abandoned Demo.chunk Demo.wedged /\
  forall l s', run Demo.wedged (EvClose :: l) = Some s' -> coRun s' = Delivering Demo.chunk.
Proof.
  split; [exact Demo.wedged_abandoned|]. intros l s'. exact (proj1 (bridge_read_loop_blocks Demo.wedged Demo.chunk Demo.wedged_reachable Demo.wedged_run) Demo.wedged_abandoned (EvClose :: l) s').
Defined.
