(* ===== verification/FsOps.v ===== *)
(** * The operations log of the file sync: entries, clocks and replay (pkg/fs/opslog/opslog.go)

    The data of the log and [buildSnapshot], which materialises a file tree
    from a base and a list of entries: one definition per case of its loop, on
    a state that holds the snapshot and the clock maps of the source.  The
    snapshot is compared with a last-writer-wins register per path. *)

From Stdlib Require Import Ascii.
From stdpp Require Import base numbers list gmap strings.
From S2P Require Import Prelude GoStrings.

(** [OtherType] is a type this version does not know; the switch ignores it. *)
Inductive EntryType :=
| Put | Delete | DeleteDir | DeleteRoot | CreateDir | Symlink
| OtherType (s : string).

#[export] Instance EntryType_eq_dec : EqDecision EntryType.
Proof. solve_decision. Defined.

(** [Chunks] is a slice: [None] is nil. *)
Record Entry := mkEntry {
  eType : EntryType;
  ePath : string;
  eChunks : option (list string);
  eSize : Z;
  eChecksum : string;
  ePrevChecksum : string;
  eLinkTarget : string;
  eNamespace : string;
  eDevice : string;
  eTimestamp : Z;
  eSeq : Z;
  eClient : string
}.

Record FileInfo := mkFileInfo {
  fiChunks : option (list string);
  fiSize : Z;
  fiModified : Time;
  fiChecksum : string;
  fiPrevChecksum : string;
  fiNamespace : string;
  fiDevice : string;
  fiSeq : Z;
  fiLinkTarget : string
}.

Record clockTuple := mkClock { ctTs : Z; ctDevice : string; ctSeq : Z }.

Definition beats (c other : clockTuple) : bool :=
  if negb (Z.eqb (ctTs c) (ctTs other)) then ctTs other <? ctTs c
  else if bool_decide (ctDevice c <> ctDevice other) then ctDevice other <s? ctDevice c
  else ctSeq other <? ctSeq c.

(** The exported [Clock] has the same fields, and [Clock.Beats] is the same
    comparison. *)
Abbreviation Clock := clockTuple.
Definition Beats (c other : Clock) : bool := beats c other.

Definition ClockTuple (fi : FileInfo) : Clock :=
  mkClock (unix_seconds (fiModified fi)) (fiDevice fi) (fiSeq fi).

(** [a != "" && b != "" && a == b] *)
Definition same_checksum (a b : string) : bool :=
  bool_decide (a <> "") && bool_decide (b <> "") && bool_decide (a = b).

Record DirInfo := mkDirInfo {
  diNamespace : string;
  diDevice : string;
  diSeq : Z;
  diModified : Time
}.

Record TombstoneInfo := mkTombstone {
  tiNamespace : string;
  tiDevice : string;
  tiSeq : Z;
  tiModified : Time;
  tiPrevChecksum : string
}.

#[export] Instance clockTuple_eq_dec : EqDecision clockTuple.
Proof. solve_decision. Defined.
#[export] Instance FileInfo_eq_dec : EqDecision FileInfo.
Proof. solve_decision. Defined.
#[export] Instance DirInfo_eq_dec : EqDecision DirInfo.
Proof. solve_decision. Defined.
#[export] Instance TombstoneInfo_eq_dec : EqDecision TombstoneInfo.
Proof. solve_decision. Defined.
#[export] Instance Entry_eq_dec : EqDecision Entry.
Proof. solve_decision. Defined.

Definition entryDescendsFile (e : Entry) (fi : FileInfo) : bool :=
  same_checksum (ePrevChecksum e) (fiChecksum fi).
Definition fileDescendsEntry (fi : FileInfo) (e : Entry) : bool :=
  same_checksum (fiPrevChecksum fi) (eChecksum e).
Definition tombstoneDescendsEntry (t : TombstoneInfo) (e : Entry) : bool :=
  same_checksum (tiPrevChecksum t) (eChecksum e).

Record Snapshot := mkSnapshot {
  files : gmap string FileInfo;
  dirs : gmap string DirInfo;
  deleted : gmap string TombstoneInfo;
  deletedDirs : gmap string TombstoneInfo;
  deletedRoot : option TombstoneInfo;
  created : Time;
  updated : Time
}.

(** ** Reading a snapshot *)

Definition Lookup (s : Snapshot) (path : string) : option FileInfo := files s !! path.
Definition Paths (s : Snapshot) : list string := sort_Strings (keys_of (files s)).
Definition Len (s : Snapshot) : Z := Z.of_nat (size (files s)).
Definition Files (s : Snapshot) : gmap string FileInfo := files s.
Definition Dirs (s : Snapshot) : gmap string DirInfo := dirs s.
Definition DeletedFiles (s : Snapshot) : gmap string bool := (fun _ => true) <$> deleted s.
Definition Tombstones (s : Snapshot) : gmap string TombstoneInfo := deleted s.
Definition DeletedDirs (s : Snapshot) : gmap string bool := (fun _ => true) <$> deletedDirs s.
Definition DirTombstones (s : Snapshot) : gmap string TombstoneInfo := deletedDirs s.
(** [None] is the nil snapshot. *)
Definition RootTombstone (s : option Snapshot) : option TombstoneInfo := s ≫= deletedRoot.
Definition RootDeleted (s : option Snapshot) : bool := bool_decide (is_Some (RootTombstone s)).

(** ** Replay *)

Definition entryClock (e : Entry) : clockTuple := mkClock (eTimestamp e) (eDevice e) (eSeq e).
Definition dirClock (d : DirInfo) : clockTuple :=
  mkClock (unix_seconds (diModified d)) (diDevice d) (diSeq d).

Definition tombstoneInfoFromEntry (e : Entry) : TombstoneInfo :=
  mkTombstone (eNamespace e) (eDevice e) (eSeq e) (time_Unix (eTimestamp e)) (ePrevChecksum e).

Definition tombstoneClock (t : TombstoneInfo) : clockTuple :=
  mkClock (unix_seconds (tiModified t)) (tiDevice t) (tiSeq t).

Definition fileInfoFromEntry (e : Entry) : FileInfo :=
  mkFileInfo (eChunks e) (eSize e) (time_Unix (eTimestamp e)) (eChecksum e) (ePrevChecksum e)
    (eNamespace e) (eDevice e) (eSeq e) (eLinkTarget e).

Definition dirInfoFromEntry (e : Entry) : DirInfo :=
  mkDirInfo (eNamespace e) (eDevice e) (eSeq e) (time_Unix (eTimestamp e)).

(** [prev, ok := m[k]; ok && !ec.beats(prev)] *)
Definition blocked (ec : clockTuple) (prev : option clockTuple) : bool :=
  match prev with Some c => negb (beats ec c) | None => false end.

(** The walk up the path; every turn shortens [dir], so fuel beyond its length
    is never used up ([covered_spec]). *)
Fixpoint covered (fuel : nat) (dir : string) (ec : clockTuple) (tombstones : gmap string clockTuple) : bool :=
  match fuel with
  | O => false
  | S fuel' =>
      match LastIndexByte dir "/" with
      | None => false
      | Some i =>
          let dir := str_take i dir in
          if blocked ec (tombstones !! dir) then true else covered fuel' dir ec tombstones
      end
  end.

Definition coveredByDirTombstone (path : string) (ec : clockTuple) (tombstones : gmap string clockTuple) : bool :=
  covered (S (String.length path)) path ec tombstones.

(** The variables of [buildSnapshot]. *)
Record Replay := mkReplay {
  rFiles : gmap string FileInfo;
  rDirs : gmap string DirInfo;
  rDeleted : gmap string TombstoneInfo;
  rDeletedDirs : gmap string TombstoneInfo;
  rDeletedRoot : option TombstoneInfo;
  clocks : gmap string clockTuple;
  dirTombstones : gmap string clockTuple;
  rootTombstone : option clockTuple;
  dirClocks : gmap string clockTuple
}.

Definition emptyReplay : Replay := mkReplay ∅ ∅ ∅ ∅ None ∅ ∅ None ∅.

(** [if prev, ok := dirClocks[k]; !ok || tombClock.beats(prev)] *)
Definition raise (k : string) (c : clockTuple) (m : gmap string clockTuple) : gmap string clockTuple :=
  match m !! k with
  | Some prev => if beats c prev then <[k := c]> m else m
  | None => <[k := c]> m
  end.

(** The clocks of a base snapshot.  A path is in [files] or in [deleted], not
    in both, so the order of the two loops over [clocks] does not matter; where
    it does, the tombstones come second. *)
Definition baseReplay (base : Snapshot) : Replay :=
  mkReplay (files base) (dirs base) (deleted base) (deletedDirs base) (deletedRoot base)
    ((tombstoneClock <$> deleted base) ∪ (ClockTuple <$> files base))
    (tombstoneClock <$> deletedDirs base)
    (tombstoneClock <$> deletedRoot base)
    (range_fold (fun m '(k, v) => raise k (tombstoneClock v) m) (dirClock <$> dirs base) (deletedDirs base)).

(** The test of the file branch of [Put]; true rejects the entry. *)
Definition putRejected (st : Replay) (e : Entry) : bool :=
  let ec := entryClock e in
  match rFiles st !! ePath e with
  | Some local =>
      if fileDescendsEntry local e then true
      else if negb (entryDescendsFile e local) then blocked ec (clocks st !! ePath e)
      else false
  | None =>
      match rDeleted st !! ePath e with
      | Some tomb =>
          if tombstoneDescendsEntry tomb e && bool_decide (tiDevice tomb <> "")
             && bool_decide (eDevice e <> tiDevice tomb) then true
          else blocked ec (clocks st !! ePath e)
      | None => blocked ec (clocks st !! ePath e)
      end
  end.

Definition applyPut (st : Replay) (e : Entry) : Replay :=
  let ec := entryClock e in
  if putRejected st e then st
  else if coveredByDirTombstone (ePath e) ec (dirTombstones st) then st
  else mkReplay (<[ePath e := fileInfoFromEntry e]> (rFiles st)) (rDirs st)
         (delete (ePath e) (rDeleted st)) (rDeletedDirs st) (rDeletedRoot st)
         (<[ePath e := ec]> (clocks st)) (dirTombstones st) (rootTombstone st) (dirClocks st).

Definition deleteRejected (st : Replay) (e : Entry) : bool :=
  let ec := entryClock e in
  match rFiles st !! ePath e with
  | Some local =>
      if negb (entryDescendsFile e local) then blocked ec (clocks st !! ePath e) else false
  | None => blocked ec (clocks st !! ePath e)
  end.

Definition applyDelete (st : Replay) (e : Entry) : Replay :=
  if deleteRejected st e then st
  else mkReplay (delete (ePath e) (rFiles st)) (rDirs st)
         (<[ePath e := tombstoneInfoFromEntry e]> (rDeleted st)) (rDeletedDirs st) (rDeletedRoot st)
         (<[ePath e := entryClock e]> (clocks st)) (dirTombstones st) (rootTombstone st) (dirClocks st).

Definition applyCreateDir (st : Replay) (e : Entry) : Replay :=
  let ec := entryClock e in
  if blocked ec (dirClocks st !! ePath e) then st
  else if blocked ec (dirTombstones st !! ePath e) then st
  else if coveredByDirTombstone (ePath e) ec (dirTombstones st) then st
  else mkReplay (rFiles st) (<[ePath e := dirInfoFromEntry e]> (rDirs st)) (rDeleted st)
         (delete (ePath e) (rDeletedDirs st)) (rDeletedRoot st) (clocks st) (dirTombstones st)
         (rootTombstone st) (<[ePath e := ec]> (dirClocks st)).

(** What a [DeleteDir] removes: the paths under the directory whose clock it
    beats. *)
Definition removes (prefix : string) (ec : clockTuple) (cs : gmap string clockTuple) (path : string) : bool :=
  HasPrefix path prefix && negb (blocked ec (cs !! path)).

(** The loops delete from the map they range over; each path is decided by
    itself, so the order does not matter. *)
Definition applyDeleteDir (st : Replay) (e : Entry) : Replay :=
  let ec := entryClock e in
  let tomb := tombstoneInfoFromEntry e in
  let wins := negb (blocked ec (dirTombstones st !! ePath e)) in
  let prefix := ePath e +:+ "/" in
  let gone := filter (fun kv => removes prefix ec (clocks st) kv.1 = true) (rFiles st) in
  let own := negb (blocked ec (dirClocks st !! ePath e)) in
  let dirs1 := if own then delete (ePath e) (rDirs st) else rDirs st in
  let dirClocks1 := if own then <[ePath e := ec]> (dirClocks st) else dirClocks st in
  let goneDirs := filter (fun kv => removes prefix ec dirClocks1 kv.1 = true) dirs1 in
  mkReplay (rFiles st ∖ gone) (dirs1 ∖ goneDirs)
    (((fun _ => tomb) <$> gone) ∪ rDeleted st)
    (if wins then <[ePath e := tomb]> (rDeletedDirs st) else rDeletedDirs st)
    (rDeletedRoot st)
    (((fun _ => ec) <$> gone) ∪ clocks st)
    (if wins then <[ePath e := ec]> (dirTombstones st) else dirTombstones st)
    (rootTombstone st)
    (((fun _ => ec) <$> goneDirs) ∪ dirClocks1).

Definition applyDeleteRoot (e : Entry) : Replay :=
  mkReplay ∅ ∅ ∅ ∅ (Some (tombstoneInfoFromEntry e)) ∅ ∅ (Some (entryClock e)) ∅.

(** One turn of the loop; every case begins with the test of the root
    tombstone. *)
Definition applyEntry (st : Replay) (e : Entry) : Replay :=
  let root := blocked (entryClock e) (rootTombstone st) in
  match eType e with
  | Put | Symlink => if root then st else applyPut st e
  | Delete => if root then st else applyDelete st e
  | CreateDir => if root then st else applyCreateDir st e
  | DeleteDir => if root then st else applyDeleteDir st e
  | DeleteRoot => if root then st else applyDeleteRoot e
  | OtherType _ => st
  end.

Definition startReplay (base : option Snapshot) : Replay :=
  match base with Some b => baseReplay b | None => emptyReplay end.

Definition replay (base : option Snapshot) (entries : list Entry) : Replay :=
  foldl applyEntry (startReplay base) entries.

(** [now0] and [now1] are the readings of the clock at the start and the end. *)
Definition buildSnapshot (now0 now1 : Time) (base : option Snapshot) (entries : list Entry) : Snapshot :=
  let st := replay base entries in
  mkSnapshot (rFiles st) (rDirs st) (rDeleted st) (rDeletedDirs st) (rDeletedRoot st)
    (match base with Some b => created b | None => now0 end) now1.

(** ** Order of entries *)

(** The comparison of [sortEntries]. *)
Definition entry_lt (a b : Entry) : bool := beats (entryClock b) (entryClock a).

(** ** Clocks are strictly and totally ordered *)

(** [beats] as a proposition. *)
Lemma clock_beats_spec c d :
  beats c d = true <->
  ctTs d < ctTs c \/ (ctTs c = ctTs d /\
    ((ctDevice d <s? ctDevice c) = true \/ (ctDevice c = ctDevice d /\ ctSeq d < ctSeq c))).
Proof.
  unfold beats. destruct (Z.eqb_spec (ctTs c) (ctTs d)) as [Et|Et]; cbn [negb].
  - destruct (decide (ctDevice c = ctDevice d)) as [Ed|Ed].
    + rewrite bool_decide_eq_false_2 by tauto. rewrite Z.ltb_lt, Ed, str_ltb_irrefl. lia || intuition (try lia; done).
    + rewrite bool_decide_eq_true_2 by done. intuition (try lia; done).
  - rewrite Z.ltb_lt. intuition lia.
Qed.

Lemma clock_beats_irrefl c : beats c c = false.
Proof.
  apply not_true_iff_false. rewrite clock_beats_spec, str_ltb_irrefl. intuition (try lia; done).
Qed.

Lemma clock_beats_trans c d e : beats c d = true -> beats d e = true -> beats c e = true.
Proof.
  rewrite !clock_beats_spec. intros [H1|(H1 & [H1'|[H1' H1'']])] [H2|(H2 & [H2'|[H2' H2'']])];
    try (left; lia); right; (split; [lia|]).
  - left. by eapply str_ltb_trans.
  - left. by rewrite <- H2'.
  - left. by rewrite H1'.
  - right. split; [congruence|lia].
Qed.

Lemma clock_beats_asym c d : beats c d = true -> beats d c = false.
Proof.
  intros H. apply not_true_iff_false. intros H'. pose proof (clock_beats_trans _ _ _ H H') as Ht.
  by rewrite clock_beats_irrefl in Ht.
Qed.

Lemma clock_beats_total c d : c <> d -> beats c d = false -> beats d c = true.
Proof.
  intros Hne H. apply not_true_iff_false in H. rewrite clock_beats_spec in H |- *.
  destruct c as [t1 d1 s1], d as [t2 d2 s2]. cbn [ctTs ctDevice ctSeq] in *.
  destruct (Z.lt_trichotomy t1 t2) as [Ht|[Ht|Ht]]; [by left| |tauto]. subst t2.
  right. split; [done|]. destruct (decide (d1 = d2)) as [->|Hd].
  - right. split; [done|]. destruct (Z.lt_trichotomy s1 s2) as [Hs|[Hs|Hs]]; [done|congruence|tauto].
  - left. apply str_ltb_total; [done|]. apply not_true_iff_false. tauto.
Qed.

(** "Not beaten": the reflexive order. *)
Definition clock_le (c d : clockTuple) : Prop := beats c d = false.

Lemma clock_le_trans c d e : clock_le c d -> clock_le d e -> clock_le c e.
Proof.
  unfold clock_le. intros H1 H2. apply not_true_iff_false. intros H.
  destruct (decide (c = d)) as [->|Hne]; [congruence|].
  apply clock_beats_total in H1; [|done]. pose proof (clock_beats_trans _ _ _ H1 H). congruence.
Qed.

Lemma clock_le_beats c d e : clock_le c d -> beats e d = true -> beats e c = true.
Proof.
  intros H1 H2. destruct (decide (c = d)) as [->|Hne]; [done|].
  apply (clock_beats_trans e d c); [done|]. by apply clock_beats_total.
Qed.

Lemma clock_le_beats_l c d e : clock_le c d -> beats c e = true -> beats d e = true.
Proof.
  intros H1 H2. destruct (decide (c = d)) as [->|Hne]; [done|].
  apply (clock_beats_trans d c e); [|done]. by apply clock_beats_total.
Qed.

Lemma beats_le c d : beats c d = true -> clock_le d c.
Proof. apply clock_beats_asym. Qed.

Lemma blocked_some ec c : blocked ec (Some c) = false <-> beats ec c = true.
Proof. simpl. by rewrite negb_false_iff. Qed.

#[export] Hint Resolve beats_le clock_le_trans : fsops.

(** ** The walk over the directories of a path *)

(** [d] is a directory above [path]. *)
Definition under (d path : string) : Prop := exists rest, path = d +:+ "/" +:+ rest.

Lemma under_prefix d path : HasPrefix path (d +:+ "/") = true <-> under d path.
Proof.
  rewrite HasPrefix_spec. unfold under. split; intros [t ->]; exists t; by rewrite str_app_assoc.
Qed.

Lemma slash_app a b d r :
  str_forall (fun c => negb (Ascii.eqb c "/")) b = true ->
  a +:+ "/" +:+ b = d +:+ "/" +:+ r -> d = a \/ under d a.
Proof.
  intros Hb. revert d. induction a as [|c a IH]; intros d E.
  - destruct d as [|c' d]; [by left|].
    change (String "/" b = String c' (d +:+ "/" +:+ r)) in E. injection E as <- ->.
    rewrite !str_forall_app in Hb. apply andb_prop in Hb as [_ Hb]. done.
  - destruct d as [|c' d].
    + right. change (String c (a +:+ "/" +:+ b) = String "/" r) in E.
      injection E as -> _. by exists a.
    + rewrite !str_app_cons in E. injection E as -> E.
      destruct (IH d E) as [->|[r' ->]]; [by left|]. right. exists r'. by rewrite str_app_cons.
Qed.

Lemma under_last a b d :
  str_forall (fun c => negb (Ascii.eqb c "/")) b = true ->
  under d (a +:+ "/" +:+ b) <-> d = a \/ under d a.
Proof.
  intros Hb. split; [intros [r E]; by eapply slash_app|].
  intros [->|[r ->]]; [by exists b|]. exists (r +:+ "/" +:+ b). by rewrite !str_app_assoc.
Qed.

Lemma covered_spec fuel path ec ts :
  (String.length path < fuel)%nat ->
  covered fuel path ec ts = true <-> exists d, under d path /\ blocked ec (ts !! d) = true.
Proof.
  revert path. induction fuel as [|fuel IH]; intros path Hf; [lia|]. cbn [covered].
  destruct (LastIndexByte path "/") as [i|] eqn:El.
  - apply LastIndexByte_Some in El as (a & b & -> & Hi & Hb). rewrite <- Hi, str_take_app.
    change (String "/" b) with ("/" +:+ b) in *.
    setoid_rewrite (under_last a b _ Hb). destruct (blocked ec (ts !! a)) eqn:Ea.
    + split; [intros _|done]. exists a. auto.
    + rewrite IH by (rewrite !str_length_app in Hf; simpl in Hf; lia). split.
      * intros (d & Hd & Hbl). exists d. auto.
      * intros (d & [->|Hd] & Hbl); [congruence|]. by exists d.
  - split; [done|]. intros (d & [r ->] & _). apply LastIndexByte_None in El.
    rewrite !str_forall_app in El. apply andb_prop in El as [_ El]. done.
Qed.

Lemma coveredByDirTombstone_spec path ec ts :
  coveredByDirTombstone path ec ts = true <-> exists d, under d path /\ blocked ec (ts !! d) = true.
Proof. apply covered_spec. lia. Qed.

Lemma coveredByDirTombstone_false path ec ts :
  coveredByDirTombstone path ec ts = false ->
  forall d t, under d path -> ts !! d = Some t -> beats ec t = true.
Proof.
  intros Hc d t Hd Ht. apply not_true_iff_false in Hc. rewrite coveredByDirTombstone_spec in Hc.
  destruct (beats ec t) eqn:Eb; [done|]. destruct Hc. exists d. split; [done|]. rewrite Ht. simpl. by rewrite Eb.
Qed.

(** ** The invariant of replay *)

Record replay_ok (st : Replay) : Prop := {
  (** a path is live or deleted, not both *)
  ok_disjoint : forall p f t, rFiles st !! p = Some f -> rDeleted st !! p = Some t -> False;
  (** the clocks are those of the records *)
  ok_file_clock : forall p f, rFiles st !! p = Some f -> clocks st !! p = Some (ClockTuple f);
  ok_del_clock : forall p t, rDeleted st !! p = Some t -> clocks st !! p = Some (tombstoneClock t);
  ok_clock : forall p c, clocks st !! p = Some c -> is_Some (rFiles st !! p) \/ is_Some (rDeleted st !! p);
  ok_dir_clock : forall p d, rDirs st !! p = Some d -> dirClocks st !! p = Some (dirClock d);
  ok_deldir : forall p t, rDeletedDirs st !! p = Some t -> dirTombstones st !! p = Some (tombstoneClock t);
  ok_root : rootTombstone st = tombstoneClock <$> rDeletedRoot st;
  (** nothing live is older than a deletion of a directory above it *)
  ok_file_under : forall p f d t, rFiles st !! p = Some f -> under d p ->
    dirTombstones st !! d = Some t -> clock_le t (ClockTuple f);
  ok_dir_under : forall p i d t, rDirs st !! p = Some i -> (d = p \/ under d p) ->
    dirTombstones st !! d = Some t -> clock_le t (dirClock i);
  (** nor than the deletion of the whole drive *)
  ok_file_root : forall p f r, rFiles st !! p = Some f -> rootTombstone st = Some r ->
    beats (ClockTuple f) r = true;
  ok_dir_root : forall p d r, rDirs st !! p = Some d -> rootTombstone st = Some r ->
    beats (dirClock d) r = true
}.

Lemma ClockTuple_entry e : ClockTuple (fileInfoFromEntry e) = entryClock e.
Proof. unfold ClockTuple, fileInfoFromEntry. simpl. by rewrite unix_seconds_time_Unix. Qed.

Lemma dirClock_entry e : dirClock (dirInfoFromEntry e) = entryClock e.
Proof. unfold dirClock, dirInfoFromEntry. simpl. by rewrite unix_seconds_time_Unix. Qed.

Lemma tombstoneClock_entry e : tombstoneClock (tombstoneInfoFromEntry e) = entryClock e.
Proof. unfold tombstoneClock, tombstoneInfoFromEntry. simpl. by rewrite unix_seconds_time_Unix. Qed.

Lemma empty_ok : replay_ok emptyReplay.
Proof. split; simpl; intros *; rewrite ?lookup_empty; done. Qed.

Ltac keyed p q :=
  destruct (decide (p = q)) as [<-|?];
  [rewrite ?lookup_insert_eq, ?lookup_delete_eq in *|rewrite ?lookup_insert_ne, ?lookup_delete_ne in * by done].

Lemma applyPut_ok st e :
  replay_ok st -> blocked (entryClock e) (rootTombstone st) = false -> replay_ok (applyPut st e).
Proof.
  intros Hok Hroot. unfold applyPut. destruct (putRejected st e); [done|].
  destruct (coveredByDirTombstone _ _ _) eqn:Hc; [done|].
  pose proof (coveredByDirTombstone_false _ _ _ Hc) as Hcov. clear Hc.
  destruct Hok as [H1 H2 H3 H4 H5 H6 H7 H8 H9 H10 H11]. split; simpl; try done.
  - intros p f t Hf Ht. keyed (ePath e) p; [done|]. by eapply H1.
  - intros p f Hf. keyed (ePath e) p; [|by apply H2]. injection Hf as <-. by rewrite ClockTuple_entry.
  - intros p t Ht. keyed (ePath e) p; [done|]. by apply H3.
  - intros p c Hcl. keyed (ePath e) p; [by left; eexists|]. by eapply H4.
  - intros p f d t Hf Hd Ht. keyed (ePath e) p; [|by eapply H8]. injection Hf as <-.
    rewrite ClockTuple_entry. apply beats_le. by eapply Hcov.
  - intros p f r Hf Hr. keyed (ePath e) p; [|by eapply H10]. injection Hf as <-.
    rewrite ClockTuple_entry. rewrite Hr in Hroot. by apply blocked_some.
Qed.

Lemma applyDelete_ok st e : replay_ok st -> replay_ok (applyDelete st e).
Proof.
  intros Hok. unfold applyDelete. destruct (deleteRejected st e); [done|].
  destruct Hok as [H1 H2 H3 H4 H5 H6 H7 H8 H9 H10 H11]. split; simpl; try done.
  - intros p f t Hf Ht. keyed (ePath e) p; [done|]. by eapply H1.
  - intros p f Hf. keyed (ePath e) p; [done|]. by apply H2.
  - intros p t Ht. keyed (ePath e) p; [|by apply H3]. injection Ht as <-. by rewrite tombstoneClock_entry.
  - intros p c Hcl. keyed (ePath e) p; [by right; eexists|]. by eapply H4.
  - intros p f d t Hf Hd Ht. keyed (ePath e) p; [done|]. by eapply H8.
  - intros p f r Hf Hr. keyed (ePath e) p; [done|]. by eapply H10.
Qed.

Lemma applyCreateDir_ok st e :
  replay_ok st -> blocked (entryClock e) (rootTombstone st) = false -> replay_ok (applyCreateDir st e).
Proof.
  intros Hok Hroot. unfold applyCreateDir. destruct (blocked _ (dirClocks st !! _)) eqn:Hb1; [done|].
  destruct (blocked _ (dirTombstones st !! _)) eqn:Hb2; [done|].
  destruct (coveredByDirTombstone _ _ _) eqn:Hc; [done|].
  pose proof (coveredByDirTombstone_false _ _ _ Hc) as Hcov. clear Hc.
  destruct Hok as [H1 H2 H3 H4 H5 H6 H7 H8 H9 H10 H11]. split; simpl; try done.
  - intros p d Hd. keyed (ePath e) p; [|by apply H5]. injection Hd as <-. by rewrite dirClock_entry.
  - intros p t Ht. apply lookup_delete_Some in Ht as [_ Ht]. by apply H6.
  - intros p i d t Hi Hd Ht. keyed (ePath e) p; [|by eapply H9]. injection Hi as <-. rewrite dirClock_entry.
    apply beats_le. destruct Hd as [->|Hd]; [|by eapply Hcov]. rewrite Ht in Hb2. by apply blocked_some.
  - intros p d r Hd Hr. keyed (ePath e) p; [|by eapply H11]. injection Hd as <-. rewrite dirClock_entry.
    rewrite Hr in Hroot. by apply blocked_some.
Qed.

Lemma removes_true prefix ec cs p :
  removes prefix ec cs p = true <-> HasPrefix p prefix = true /\ blocked ec (cs !! p) = false.
Proof. unfold removes. by rewrite andb_true_iff, negb_true_iff. Qed.

(** The maps of [applyDeleteDir] at one key. *)
Lemma lookup_minus_filter {A} (P : string -> bool) (m : gmap string A) k :
  (m ∖ filter (fun kv => P kv.1 = true) m) !! k = if P k then None else m !! k.
Proof.
  rewrite lookup_difference. destruct (P k) eqn:HP.
  - destruct (m !! k) as [a|] eqn:Hm.
    + rewrite (proj2 (map_lookup_filter_Some _ m k a)) by done. done.
    + by rewrite map_lookup_filter_None_2 by auto.
  - rewrite map_lookup_filter_None_2; [done|]. right. intros a _. simpl. by rewrite HP.
Qed.

Lemma lookup_const_filter {A B} (P : string -> bool) (b : B) (m : gmap string A) (n : gmap string B) k :
  (((fun _ => b) <$> filter (fun kv => P kv.1 = true) m) ∪ n) !! k
  = match m !! k with Some _ => if P k then Some b else n !! k | None => n !! k end.
Proof.
  destruct (m !! k) as [a|] eqn:Hm; [destruct (P k) eqn:HP|].
  - apply lookup_union_Some_l. rewrite lookup_fmap, (proj2 (map_lookup_filter_Some _ m k a)) by done. done.
  - apply lookup_union_r. rewrite lookup_fmap, map_lookup_filter_None_2; [done|]. right. intros ? _. simpl. by rewrite HP.
  - apply lookup_union_r. rewrite lookup_fmap, map_lookup_filter_None_2 by auto. done.
Qed.

Section DeleteDir.
  Context (st : Replay) (e : Entry).
  Notation ec := (entryClock e).
  Notation prefix := (ePath e +:+ "/").
  Notation st' := (applyDeleteDir st e).

Definition own : bool := negb (blocked ec (dirClocks st !! ePath e)).
Definition dirs1 := if own then delete (ePath e) (rDirs st) else rDirs st.
Definition dirClocks1 := if own then <[ePath e := ec]> (dirClocks st) else dirClocks st.

Lemma deleteDir_files p :
    rFiles st' !! p = if removes prefix ec (clocks st) p then None else rFiles st !! p.
  Proof. exact (lookup_minus_filter (removes prefix ec (clocks st)) (rFiles st) p). Qed.

Lemma deleteDir_deleted p :
    rDeleted st' !! p = match rFiles st !! p with
      | Some _ => if removes prefix ec (clocks st) p then Some (tombstoneInfoFromEntry e) else rDeleted st !! p
      | None => rDeleted st !! p end.
  Proof. exact (lookup_const_filter (removes prefix ec (clocks st)) _ (rFiles st) (rDeleted st) p). Qed.

Lemma deleteDir_clocks p :
    clocks st' !! p = match rFiles st !! p with
      | Some _ => if removes prefix ec (clocks st) p then Some ec else clocks st !! p
      | None => clocks st !! p end.
  Proof. exact (lookup_const_filter (removes prefix ec (clocks st)) _ (rFiles st) (clocks st) p). Qed.

Lemma deleteDir_dirs p :
    rDirs st' !! p = if removes prefix ec dirClocks1 p then None else dirs1 !! p.
  Proof. exact (lookup_minus_filter (removes prefix ec dirClocks1) dirs1 p). Qed.

Lemma deleteDir_dirClocks p :
    dirClocks st' !! p = match dirs1 !! p with
      | Some _ => if removes prefix ec dirClocks1 p then Some ec else dirClocks1 !! p
      | None => dirClocks1 !! p end.
  Proof. exact (lookup_const_filter (removes prefix ec dirClocks1) _ dirs1 dirClocks1 p). Qed.

Lemma dirs1_Some p i : dirs1 !! p = Some i ->
    rDirs st !! p = Some i /\ dirClocks1 !! p = dirClocks st !! p /\ (p = ePath e -> own = false).
  Proof.
    unfold dirs1, dirClocks1. destruct own eqn:Ho; [|done]. intros Hp.
    apply lookup_delete_Some in Hp as [Hne Hp]. by rewrite lookup_insert_ne by done.
  Qed.

  (** The tombstone of the directory is the higher of the two. *)
Lemma deleteDir_tombstones d t :
    dirTombstones st' !! d = Some t ->
    dirTombstones st !! d = Some t \/ (d = ePath e /\ t = ec).
  Proof.
    simpl. destruct (negb _); [|by left]. keyed (ePath e) d; [|by left]. intros [= <-]. by right.
  Qed.
End DeleteDir.

Lemma under_not_removed prefix ec cs p c :
  HasPrefix p prefix = true -> removes prefix ec cs p = false -> cs !! p = Some c -> clock_le ec c.
Proof.
  intros Hp Hr Hc. unfold removes in Hr. rewrite Hp, Hc in Hr. simpl in Hr.
  unfold clock_le. by destruct (beats ec c).
Qed.

Lemma applyDeleteDir_ok st e : replay_ok st -> replay_ok (applyDeleteDir st e).
Proof.
  intros [H1 H2 H3 H4 H5 H6 H7 H8 H9 H10 H11]. split.
  - intros p f t. rewrite deleteDir_files, deleteDir_deleted. destruct (removes _ _ _ _); [done|].
    intros Hf. rewrite Hf. eauto.
  - intros p f. rewrite deleteDir_files, deleteDir_clocks. destruct (removes _ _ _ _); [done|].
    intros Hf. rewrite Hf. eauto.
  - intros p t. rewrite deleteDir_deleted, deleteDir_clocks. destruct (rFiles st !! p); [|eauto].
    destruct (removes _ _ _ _); [|eauto]. intros [= <-]. by rewrite tombstoneClock_entry.
  - intros p c. rewrite deleteDir_files, deleteDir_deleted, deleteDir_clocks.
    destruct (rFiles st !! p) as [f|] eqn:Hf.
    + destruct (removes _ _ _ _); eauto.
    + intros Hc. destruct (H4 p c Hc) as [[? ?]|?]; [congruence|by right].
  - intros p d. rewrite deleteDir_dirs, deleteDir_dirClocks. destruct (removes _ _ _ _); [done|].
    intros Hd. rewrite Hd. destruct (dirs1_Some _ _ _ _ Hd) as (Hd' & -> & _). by apply H5.
  - intros p t. simpl. destruct (negb _); [|apply H6]. intros Ht. keyed (ePath e) p; [|by apply H6].
    injection Ht as <-. by rewrite tombstoneClock_entry.
  - exact H7.
  - intros p f d t Hf Hd Ht. rewrite deleteDir_files in Hf. destruct (removes _ _ _ _) eqn:Hr; [done|].
    apply deleteDir_tombstones in Ht as [Ht|[-> ->]]; [by eapply H8|].
    by eapply under_not_removed; [by apply under_prefix|exact Hr|apply H2].
  - intros p i d t Hi Hd Ht. rewrite deleteDir_dirs in Hi. destruct (removes _ _ _ _) eqn:Hr; [done|].
    destruct (dirs1_Some _ _ _ _ Hi) as (Hi' & Hc & Hown).
    apply deleteDir_tombstones in Ht as [Ht|[-> ->]]; [by eapply H9|]. destruct Hd as [<-|Hd].
    + specialize (Hown eq_refl). unfold own in Hown. rewrite (H5 _ _ Hi') in Hown. simpl in Hown.
      unfold clock_le. by destruct (beats _ _).
    + eapply under_not_removed; [by apply under_prefix|exact Hr|]. rewrite Hc. by apply H5.
  - intros p f r Hf Hr. rewrite deleteDir_files in Hf. destruct (removes _ _ _ _); [done|]. by eapply H10.
  - intros p d r Hd Hr. rewrite deleteDir_dirs in Hd. destruct (removes _ _ _ _); [done|].
    apply dirs1_Some in Hd as (Hd & _ & _). by eapply H11.
Qed.

Lemma applyDeleteRoot_ok e : replay_ok (applyDeleteRoot e).
Proof.
  split; simpl; intros *; rewrite ?lookup_empty; try done. by rewrite tombstoneClock_entry.
Qed.

Lemma applyEntry_ok st e : replay_ok st -> replay_ok (applyEntry st e).
Proof.
  intros Hok. unfold applyEntry. destruct (blocked (entryClock e) (rootTombstone st)) eqn:Hb; destruct (eType e); try done.
  - by apply applyPut_ok.
  - by apply applyDelete_ok.
  - by apply applyDeleteDir_ok.
  - apply applyDeleteRoot_ok.
  - by apply applyCreateDir_ok.
  - by apply applyPut_ok.
Qed.

(** ** Well-formed snapshots *)

(** What a reader of a snapshot may rely on. *)
Record snapshot_ok (s : Snapshot) : Prop := {
  snap_disjoint : forall p f t, files s !! p = Some f -> deleted s !! p = Some t -> False;
  snap_file_under : forall p f d t, files s !! p = Some f -> under d p ->
    deletedDirs s !! d = Some t -> clock_le (tombstoneClock t) (ClockTuple f);
  snap_dir_under : forall p i d t, dirs s !! p = Some i -> (d = p \/ under d p) ->
    deletedDirs s !! d = Some t -> clock_le (tombstoneClock t) (dirClock i);
  snap_file_root : forall p f r, files s !! p = Some f -> deletedRoot s = Some r ->
    beats (ClockTuple f) (tombstoneClock r) = true;
  snap_dir_root : forall p d r, dirs s !! p = Some d -> deletedRoot s = Some r ->
    beats (dirClock d) (tombstoneClock r) = true
}.

Lemma raise_lookup k c m p :
  raise k c m !! p =
  (if decide (k = p) then
     match m !! p with Some prev => if beats c prev then Some c else Some prev | None => Some c end
   else m !! p).
Proof.
  unfold raise. destruct (decide (k = p)) as [<-|Hne].
  - destruct (m !! k) eqn:E; [destruct (beats _ _)|]; by rewrite ?lookup_insert_eq.
  - destruct (m !! k); [destruct (beats _ _)|]; by rewrite ?lookup_insert_ne.
Qed.

(** The directory clocks of a base: the higher of a directory's two clocks. *)
Definition max_clock (a b : option clockTuple) : option clockTuple :=
  match a, b with
  | Some x, Some y => if beats y x then Some y else Some x
  | Some x, None => Some x
  | None, _ => b
  end.

Lemma base_dirClocks (b : Snapshot) p :
  dirClocks (baseReplay b) !! p
  = max_clock (dirClock <$> dirs b !! p) (tombstoneClock <$> deletedDirs b !! p).
Proof.
  simpl. unfold range_fold.
  assert (forall (l : list (string * TombstoneInfo)) m, NoDup l.*1 ->
    foldl (fun m '(k, v) => raise k (tombstoneClock v) m) m l !! p
    = max_clock (m !! p) (tombstoneClock <$> (list_to_map l : gmap string _) !! p)) as Hfold.
  { induction l as [|[k v] l IH]; intros m Hnd; simpl.
    - rewrite lookup_empty. simpl. by destruct (m !! p).
    - apply NoDup_cons in Hnd as [Hk Hnd]. rewrite IH by done. rewrite raise_lookup.
      destruct (decide (k = p)) as [->|Hne].
      + rewrite lookup_insert_eq, not_elem_of_list_to_map_1 by done. simpl.
        destruct (m !! p) as [c0|]; simpl; [by destruct (beats (tombstoneClock v) c0)|done].
      + by rewrite lookup_insert_ne. }
  rewrite Hfold by apply NoDup_fst_map_to_list. by rewrite list_to_map_to_list, lookup_fmap.
Qed.

Lemma baseReplay_ok b : snapshot_ok b -> replay_ok (baseReplay b).
Proof.
  intros [H1 H2 H3 H4 H5]. split.
  - exact H1.
  - intros p f Hf. simpl in Hf. destruct (deleted b !! p) as [t|] eqn:Ht; [exfalso; eauto|].
    simpl. rewrite lookup_union_r by (rewrite lookup_fmap, Ht; reflexivity). by rewrite lookup_fmap, Hf.
  - intros p t Ht. simpl in *. apply lookup_union_Some_l. by rewrite lookup_fmap, Ht.
  - intros p c Hc. simpl in Hc. apply lookup_union_Some_raw in Hc as [Hc|[_ Hc]]; rewrite lookup_fmap in Hc.
    + right. simpl. destruct (deleted b !! p); [by eexists|done].
    + left. simpl. destruct (files b !! p); [by eexists|done].
  - intros p d Hd. simpl in Hd. rewrite base_dirClocks, Hd. simpl. destruct (deletedDirs b !! p) as [t|] eqn:Ht; [|done].
    simpl. pose proof (H3 p d p t Hd (or_introl eq_refl) Ht) as Hle. unfold clock_le in Hle. by rewrite Hle.
  - intros p t Ht. simpl in *. by rewrite lookup_fmap, Ht.
  - done.
  - intros p f d t Hf Hd Ht. simpl in *. rewrite lookup_fmap in Ht. destruct (deletedDirs b !! d) as [t'|] eqn:Ht'; [|done].
    injection Ht as <-. by eapply H2.
  - intros p i d t Hi Hd Ht. simpl in *. rewrite lookup_fmap in Ht. destruct (deletedDirs b !! d) as [t'|] eqn:Ht'; [|done].
    injection Ht as <-. by eapply H3.
  - intros p f r Hf Hr. simpl in *. destruct (deletedRoot b) as [t'|] eqn:Ht'; [|done]. injection Hr as <-. by eapply H4.
  - intros p f r Hf Hr. simpl in *. destruct (deletedRoot b) as [t'|] eqn:Ht'; [|done]. injection Hr as <-. by eapply H5.
Qed.

Definition base_ok (base : option Snapshot) : Prop :=
  match base with Some b => snapshot_ok b | None => True end.

Lemma replay_is_ok base es : base_ok base -> replay_ok (replay base es).
Proof.
  intros Hb. unfold replay. apply foldl_invariant.
  - destruct base as [b|]; [by apply baseReplay_ok|apply empty_ok].
  - intros st e _ Hst. by apply applyEntry_ok.
Qed.

Lemma replay_snapshot_ok now0 now1 base es :
  replay_ok (replay base es) -> snapshot_ok (buildSnapshot now0 now1 base es).
Proof.
  intros [H1 H2 H3 H4 H5 H6 H7 H8 H9 H10 H11]. split; simpl.
  - exact H1.
  - intros p f d t Hf Hd Ht. eapply H8; eauto.
  - intros p i d t Hi Hd Ht. eapply H9; eauto.
  - intros p f r Hf Hr. eapply H10; [done|]. by rewrite H7, Hr.
  - intros p f r Hf Hr. eapply H11; [done|]. by rewrite H7, Hr.
Qed.

(** ** The file tree as a last-writer-wins map *)

(** The entries that decide the path [p]: its own puts and deletes, and the
    deletions of the directories above it. *)
Definition affects (p : string) (e : Entry) : bool :=
  match eType e with
  | Put | Symlink | Delete => bool_decide (ePath e = p)
  | DeleteDir => HasPrefix p (ePath e +:+ "/")
  | _ => false
  end.

(** The one with the highest clock. *)
Definition later (p : string) (w : option Entry) (e : Entry) : option Entry :=
  if affects p e then
    match w with
    | Some w0 => if beats (entryClock e) (entryClock w0) then Some e else w
    | None => Some e
    end
  else w.

Definition winner (p : string) (es : list Entry) : option Entry := foldl (later p) None es.

(** The file the winner leaves at the path. *)
Definition file_of (w : option Entry) : option FileInfo :=
  match w with
  | Some e => match eType e with Put | Symlink => Some (fileInfoFromEntry e) | _ => None end
  | None => None
  end.

(** A version of a path: its clock, its content and the content it says it
    replaces ([PrevChecksum]); a deletion has no content. *)
Record Edit := mkEdit { edClock : clockTuple; edSum : string; edPrev : string }.

Definition entryEdit (e : Entry) : Edit :=
  mkEdit (entryClock e) (match eType e with Put | Symlink => eChecksum e | _ => "" end) (ePrevChecksum e).
Definition fileEdit (f : FileInfo) : Edit := mkEdit (ClockTuple f) (fiChecksum f) (fiPrevChecksum f).
Definition tombEdit (t : TombstoneInfo) : Edit := mkEdit (tombstoneClock t) "" (tiPrevChecksum t).

(** Whoever replaces a content is newer than the versions with this content. *)
Definition heeds (x y : Edit) : Prop :=
  same_checksum (edPrev x) (edSum y) = true -> x = y \/ beats (edClock x) (edClock y) = true.

#[export] Instance Edit_eq_dec : EqDecision Edit.
Proof. solve_decision. Defined.
#[export] Instance heeds_dec x y : Decision (heeds x y).
Proof. unfold heeds. apply _. Defined.

(** The edits of a path in a log follow its clocks. *)
Definition in_order (p : string) (es : list Entry) : Prop :=
  forall x y, x ∈ es -> y ∈ es -> affects p x = true -> affects p y = true -> heeds (entryEdit x) (entryEdit y).

Definition keeps_root (es : list Entry) : Prop := Forall (fun e => eType e <> DeleteRoot) es.

Lemma winner_snoc p es e : winner p (es ++ [e]) = later p (winner p es) e.
Proof. apply foldl_snoc. Qed.

Lemma winner_spec p es :
  match winner p es with
  | Some w => w ∈ es /\ affects p w = true /\
      forall e, e ∈ es -> affects p e = true -> clock_le (entryClock e) (entryClock w)
  | None => forall e, e ∈ es -> affects p e = false
  end.
Proof.
  induction es as [|e es IH] using rev_ind; [intros e He; by apply elem_of_nil in He|].
  rewrite winner_snoc. unfold later. destruct (affects p e) eqn:Ha.
  - destruct (winner p es) as [w|].
    + destruct IH as (Hw & Haw & Hmax). destruct (beats _ _) eqn:Hb.
      * split; [set_solver|]. split; [done|]. intros e' [He'| ->%list_elem_of_singleton]%elem_of_app Ha'.
        -- eapply clock_le_trans; [by apply Hmax|]. by apply beats_le.
        -- apply clock_beats_irrefl.
      * split; [set_solver|]. split; [done|]. intros e' [He'| ->%list_elem_of_singleton]%elem_of_app Ha'; auto.
    + split; [set_solver|]. split; [done|]. intros e' [He'| ->%list_elem_of_singleton]%elem_of_app Ha'.
      * by rewrite IH in Ha'.
      * apply clock_beats_irrefl.
  - destruct (winner p es) as [w|].
    + destruct IH as (Hw & Haw & Hmax). split; [set_solver|]. split; [done|].
      intros e' [He'| ->%list_elem_of_singleton]%elem_of_app Ha'; [auto|congruence].
    + intros e' [He'| ->%list_elem_of_singleton]%elem_of_app; auto.
Qed.

Lemma same_checksum_spec a b : same_checksum a b = true <-> a <> "" /\ b <> "" /\ a = b.
Proof. unfold same_checksum. rewrite !andb_true_iff, !bool_decide_eq_true. tauto. Qed.

Lemma same_checksum_empty_r a : same_checksum a "" = false.
Proof. apply not_true_iff_false. rewrite same_checksum_spec. tauto. Qed.

Lemma same_checksum_empty b : same_checksum "" b = false.
Proof. apply not_true_iff_false. rewrite same_checksum_spec. tauto. Qed.

(** Among edits that follow their clocks only the clock decides. *)
Lemma putRejected_clock st e :
  eType e = Put \/ eType e = Symlink ->
  (forall f, rFiles st !! ePath e = Some f -> clocks st !! ePath e = Some (ClockTuple f) /\
     heeds (fileEdit f) (entryEdit e) /\ heeds (entryEdit e) (fileEdit f)) ->
  (forall t, rDeleted st !! ePath e = Some t -> clocks st !! ePath e = Some (tombstoneClock t) /\
     heeds (tombEdit t) (entryEdit e)) ->
  putRejected st e = blocked (entryClock e) (clocks st !! ePath e).
Proof.
  intros Hty Hf Ht. assert (edSum (entryEdit e) = eChecksum e) as Hsum by (by destruct Hty as [E|E]; simpl; rewrite E).
  unfold putRejected. destruct (rFiles st !! ePath e) as [f|].
  - destruct (Hf f eq_refl) as (-> & H1 & H2). unfold heeds in H1, H2. rewrite Hsum in H1. simpl in H1, H2.
    unfold fileDescendsEntry, entryDescendsFile. simpl. destruct (same_checksum (fiPrevChecksum f) _) eqn:E1.
    + symmetry. apply negb_true_iff. destruct (H1 eq_refl) as [Eq|Hb]; [|by apply clock_beats_asym].
      apply (f_equal edClock) in Eq. change (ClockTuple f = entryClock e) in Eq. rewrite Eq. apply clock_beats_irrefl.
    + destruct (same_checksum (ePrevChecksum e) _) eqn:E2; [|done]. simpl. symmetry. apply negb_false_iff.
      destruct (H2 eq_refl) as [Eq|Hb]; [|done]. pose proof (f_equal edSum Eq) as Es. pose proof (f_equal edPrev Eq) as Ep.
      rewrite Hsum in Es. simpl in Es, Ep. congruence.
  - destruct (rDeleted st !! ePath e) as [t|]; [|done]. destruct (Ht t eq_refl) as (-> & H1). unfold heeds in H1.
    rewrite Hsum in H1. simpl in H1. unfold tombstoneDescendsEntry. destruct (same_checksum _ _) eqn:E1; [|done].
    assert (blocked (entryClock e) (Some (tombstoneClock t)) = true) as ->; [|by destruct (_ && _)].
    simpl. apply negb_true_iff. destruct (H1 eq_refl) as [Eq|Hb]; [|by apply clock_beats_asym].
    apply (f_equal edClock) in Eq. change (tombstoneClock t = entryClock e) in Eq. rewrite Eq. apply clock_beats_irrefl.
Qed.

Lemma deleteRejected_clock st e :
  eType e = Delete ->
  (forall f, rFiles st !! ePath e = Some f -> clocks st !! ePath e = Some (ClockTuple f) /\ heeds (entryEdit e) (fileEdit f)) ->
  deleteRejected st e = blocked (entryClock e) (clocks st !! ePath e).
Proof.
  intros Hty Hf. unfold deleteRejected, entryDescendsFile. destruct (rFiles st !! ePath e) as [f|]; [|done].
  destruct (Hf f eq_refl) as (-> & H1). unfold heeds in H1. simpl in H1. destruct (same_checksum _ _) eqn:E1; [|done].
  simpl. symmetry. apply negb_false_iff. destruct (H1 eq_refl) as [Eq|Hb]; [|done].
  pose proof (f_equal edSum Eq) as Es. simpl in Es. rewrite Hty in Es. apply same_checksum_spec in E1. naive_solver.
Qed.

Lemma entryEdit_file e : eType e = Put \/ eType e = Symlink -> fileEdit (fileInfoFromEntry e) = entryEdit e.
Proof. intros Hty. unfold fileEdit, entryEdit. rewrite ClockTuple_entry. by destruct Hty as [-> | ->]. Qed.

Lemma entryEdit_tomb e : eType e = Delete \/ eType e = DeleteDir -> tombEdit (tombstoneInfoFromEntry e) = entryEdit e.
Proof. intros Hty. unfold tombEdit, entryEdit. rewrite tombstoneClock_entry. by destruct Hty as [-> | ->]. Qed.

Lemma affects_own p e : (eType e = Put \/ eType e = Symlink \/ eType e = Delete) ->
  affects p e = bool_decide (ePath e = p).
Proof. unfold affects. by intros [->|[->| ->]]. Qed.

Section AtPath.
Context (p : string).

(** Replay keeps the winner of the path. *)
Record lww_inv (st : Replay) (es : list Entry) : Prop := {
  lww_root : rootTombstone st = None;
  lww_tomb : forall d t, dirTombstones st !! d = Some t ->
    exists e, e ∈ es /\ eType e = DeleteDir /\ ePath e = d /\ entryClock e = t;
  lww_covered : forall e, e ∈ es -> eType e = DeleteDir ->
    exists t, dirTombstones st !! ePath e = Some t /\ clock_le (entryClock e) t;
  lww_clock : forall c, clocks st !! p = Some c ->
    exists e, e ∈ es /\ affects p e = true /\ entryClock e = c;
  lww_own : forall w, winner p es = Some w -> eType w <> DeleteDir -> clocks st !! p = Some (entryClock w);
  lww_file : rFiles st !! p = file_of (winner p es);
  lww_deleted : forall t, rDeleted st !! p = Some t ->
    exists e, e ∈ es /\ affects p e = true /\ tombEdit t = entryEdit e
}.

Lemma winner_clock st es w : lww_inv st es -> winner p es = Some w ->
  forall c, clocks st !! p = Some c -> clock_le c (entryClock w).
Proof.
  intros Hinv Hw c Hc. destruct (lww_clock _ _ Hinv c Hc) as (e & He & Ha & <-).
  pose proof (winner_spec p es) as Hs. rewrite Hw in Hs. by apply Hs.
Qed.

Lemma winner_none_clock st es : lww_inv st es -> winner p es = None -> clocks st !! p = None.
Proof.
  intros Hinv Hw. destruct (clocks st !! p) as [c|] eqn:Hc; [|done].
  destruct (lww_clock _ _ Hinv c Hc) as (e & He & Ha & _).
  pose proof (winner_spec p es) as Hs. rewrite Hw in Hs. by rewrite Hs in Ha.
Qed.

(** An entry above the winner is not blocked by the clock of its path. *)
Lemma newest_unblocked st es ec :
  lww_inv st es -> (forall w, winner p es = Some w -> beats ec (entryClock w) = true) ->
  blocked ec (clocks st !! p) = false.
Proof.
  intros Hinv Hnew. destruct (clocks st !! p) as [c|] eqn:Hc; [|done].
  destruct (winner p es) as [w|] eqn:Hw.
  - apply blocked_some. eapply clock_le_beats; [by eapply winner_clock|]. by apply Hnew.
  - rewrite (winner_none_clock _ _ Hinv Hw) in Hc. done.
Qed.

Lemma newest_uncovered st es ec :
  lww_inv st es -> (forall w, winner p es = Some w -> beats ec (entryClock w) = true) ->
  coveredByDirTombstone p ec (dirTombstones st) = false.
Proof.
  intros Hinv Hnew. apply not_true_iff_false. rewrite coveredByDirTombstone_spec.
  intros (d & Hd & Hb). destruct (dirTombstones st !! d) as [t|] eqn:Ht; [|done].
  destruct (lww_tomb _ _ Hinv d t Ht) as (e & He & Hty & <- & <-).
  assert (affects p e = true) as Ha by (unfold affects; rewrite Hty; by apply under_prefix).
  pose proof (winner_spec p es) as Hs. destruct (winner p es) as [w|].
  - destruct Hs as (_ & _ & Hmax). apply Hmax in Ha; [|done].
    rewrite (proj2 (blocked_some _ _)) in Hb; [done|]. eapply clock_le_beats; [done|]. by apply Hnew.
  - by rewrite Hs in Ha.
Qed.

(** [e] is not about the path or loses there. *)
Definition beaten (es : list Entry) (e : Entry) : Prop :=
  affects p e = true -> exists w, winner p es = Some w /\ beats (entryClock w) (entryClock e) = true.

Lemma beaten_winner es e : beaten es e -> winner p (es ++ [e]) = winner p es.
Proof.
  intros Hb. rewrite winner_snoc. unfold later. destruct (affects p e) eqn:Ha; [|done].
  destruct (Hb Ha) as (w & -> & Hw). by rewrite (clock_beats_asym _ _ Hw).
Qed.

Lemma newest_winner es e :
  affects p e = true -> (forall w, winner p es = Some w -> beats (entryClock e) (entryClock w) = true) ->
  winner p (es ++ [e]) = Some e.
Proof.
  intros Ha Hn. rewrite winner_snoc. unfold later. rewrite Ha.
  destruct (winner p es) as [w|]; [|done]. by rewrite (Hn w eq_refl).
Qed.

(** Only these parts of the state matter, and they need not change for an
    entry that is not about the path or loses there. *)
Lemma lww_stay st st' es e :
  lww_inv st es -> eType e <> DeleteDir -> beaten es e ->
  rootTombstone st' = rootTombstone st -> dirTombstones st' = dirTombstones st ->
  clocks st' !! p = clocks st !! p -> rFiles st' !! p = rFiles st !! p -> rDeleted st' !! p = rDeleted st !! p ->
  lww_inv st' (es ++ [e]).
Proof.
  intros [H1 H2 H3 H4 H5 H6 H7] Hty Hb E1 E2 E3 E4 E5. split; rewrite ?E1, ?E2, ?E3, ?E4, ?E5, ?beaten_winner by done; try done.
  - intros d t Ht. destruct (H2 d t Ht) as (e' & ? & ?). exists e'. split; [set_solver|done].
  - intros e' [He'| ->%list_elem_of_singleton]%elem_of_app Ht; [by apply H3|done].
  - intros c Hc. destruct (H4 c Hc) as (e' & ? & ?). exists e'. split; [set_solver|done].
  - intros t Ht. destruct (H7 t Ht) as (e' & ? & ?). exists e'. split; [set_solver|done].
Qed.

(** [e] writes the record of the path and wins there. *)
Lemma lww_write st st' es e :
  lww_inv st es -> (eType e = Put \/ eType e = Symlink \/ eType e = Delete) -> ePath e = p ->
  (forall w, winner p es = Some w -> beats (entryClock e) (entryClock w) = true) ->
  rootTombstone st' = rootTombstone st -> dirTombstones st' = dirTombstones st ->
  clocks st' !! p = Some (entryClock e) -> rFiles st' !! p = file_of (Some e) ->
  (forall t, rDeleted st' !! p = Some t -> tombEdit t = entryEdit e) ->
  lww_inv st' (es ++ [e]).
Proof.
  intros [H1 H2 H3 H4 H5 H6 H7] Hty Hp Hnew E1 E2 E3 E4 Hdel.
  assert (affects p e = true) as Ha by (by rewrite affects_own, bool_decide_eq_true_2).
  assert (winner p (es ++ [e]) = Some e) as Hwin by (by apply newest_winner).
  split; rewrite ?E1, ?E2, ?E3, ?E4, ?Hwin; try done.
  - intros d t Ht. destruct (H2 d t Ht) as (e' & ? & ?). exists e'. split; [set_solver|done].
  - intros e' [He'| ->%list_elem_of_singleton]%elem_of_app Ht; [by apply H3|]. rewrite Ht in Hty. naive_solver.
  - intros c [= <-]. exists e. split; [set_solver|done].
  - by intros w [= <-].
  - intros t Ht. exists e. split; [set_solver|]. split; [done|by apply Hdel].
Qed.

Section Step.
  Context (st : Replay) (es : list Entry) (e : Entry).
  Hypothesis Hinv : lww_inv st es.
  Hypothesis Hok : replay_ok st.
  Hypothesis Horder : in_order p (es ++ [e]).
  Hypothesis Hfresh : forall e', e' ∈ es -> entryClock e' <> entryClock e.
  Notation ec := (entryClock e).

  (** The new entry is above the winner of the path or below it. *)
Lemma new_or_beaten :
    (forall w, winner p es = Some w -> beats ec (entryClock w) = true) \/
    (exists w, winner p es = Some w /\ beats (entryClock w) ec = true).
  Proof using Hfresh.
    pose proof (winner_spec p es) as Hs. destruct (winner p es) as [w|]; [|by left].
    destruct Hs as (Hw & _). destruct (beats ec (entryClock w)) eqn:Hb; [left; by intros ? [= <-]|].
    right. exists w. split; [done|]. apply clock_beats_total; [|done]. intros E. by apply (Hfresh w Hw).
  Qed.

  (** What is recorded for the path follows the clocks with the new entry. *)
Lemma file_heeds f : affects p e = true -> rFiles st !! p = Some f ->
    clocks st !! p = Some (ClockTuple f) /\ heeds (fileEdit f) (entryEdit e) /\ heeds (entryEdit e) (fileEdit f).
  Proof using All.
    intros Ha Hf. split; [by apply (ok_file_clock _ Hok)|]. rewrite (lww_file _ _ Hinv) in Hf.
    pose proof (winner_spec p es) as Hs. unfold file_of in Hf. destruct (winner p es) as [w|]; [|done].
    destruct Hs as (Hin & Haw & _). assert (eType w = Put \/ eType w = Symlink) as Hty by (destruct (eType w); tauto || done).
    assert (f = fileInfoFromEntry w) as -> by (destruct Hty as [E|E]; rewrite E in Hf; congruence).
    rewrite entryEdit_file by done. split; (apply Horder; [set_solver..|done|done]).
  Qed.

Lemma tomb_heeds t : affects p e = true -> rDeleted st !! p = Some t ->
    clocks st !! p = Some (tombstoneClock t) /\ heeds (tombEdit t) (entryEdit e).
  Proof using All.
    intros Ha Ht. split; [by apply (ok_del_clock _ Hok)|]. destruct (lww_deleted _ _ Hinv t Ht) as (e' & Hin & Ha' & ->).
    apply Horder; [set_solver..|done|done].
  Qed.

Lemma step_put : (eType e = Put \/ eType e = Symlink) -> lww_inv (applyPut st e) (es ++ [e]).
  Proof using All.
    intros Hty. assert (eType e = Put \/ eType e = Symlink \/ eType e = Delete) as Hty' by tauto.
    assert (eType e <> DeleteDir) as Hnd by (destruct Hty as [->| ->]; done).
    pose proof (affects_own p e Hty') as Ha. unfold applyPut. destruct (decide (ePath e = p)) as [Hp|Hne].
    2:{ rewrite bool_decide_eq_false_2 in Ha by done.
        destruct (putRejected _ _); [|destruct (coveredByDirTombstone _ _ _)]; (eapply lww_stay; try done; [by unfold beaten; rewrite Ha|..]);
          simpl; by rewrite ?lookup_insert_ne, ?lookup_delete_ne by done. }
    rewrite bool_decide_eq_true_2 in Ha by done.
    rewrite putRejected_clock by (rewrite ?Hp; eauto using file_heeds, tomb_heeds). rewrite Hp.
    destruct new_or_beaten as [Hnew|(w & Hw & Hb)].
    - rewrite (newest_unblocked _ es), (newest_uncovered _ es) by done.
      eapply lww_write; try done; simpl; rewrite ?lookup_insert_eq, ?lookup_delete_eq; try done. by destruct Hty as [->| ->].
    - assert (lww_inv st (es ++ [e])) as Hstay by (eapply lww_stay; try done; by exists w).
      destruct (decide (eType w = DeleteDir)) as [Hdd|Hnw].
      + destruct (blocked _ _); [done|].
        assert (coveredByDirTombstone p ec (dirTombstones st) = true) as ->; [|done].
        pose proof (winner_spec p es) as Hs. rewrite Hw in Hs. destruct Hs as (Hin & Haw & _).
        unfold affects in Haw. rewrite Hdd in Haw. apply coveredByDirTombstone_spec.
        destruct (lww_covered _ _ Hinv w Hin Hdd) as (t & Ht & Hle). exists (ePath w).
        split; [by apply under_prefix|]. rewrite Ht. simpl.
        by rewrite (clock_beats_asym _ _ (clock_le_beats_l _ _ _ Hle Hb)).
      + rewrite (lww_own _ _ Hinv _ Hw Hnw). simpl. by rewrite (clock_beats_asym _ _ Hb).
  Qed.

Lemma step_delete : eType e = Delete -> lww_inv (applyDelete st e) (es ++ [e]).
  Proof using All.
    intros Hty. assert (eType e = Put \/ eType e = Symlink \/ eType e = Delete) as Hty' by tauto.
    assert (eType e <> DeleteDir) as Hnd by (by rewrite Hty).
    pose proof (affects_own p e Hty') as Ha. unfold applyDelete. destruct (decide (ePath e = p)) as [Hp|Hne].
    2:{ rewrite bool_decide_eq_false_2 in Ha by done.
        destruct (deleteRejected _ _); (eapply lww_stay; try done; [by unfold beaten; rewrite Ha|..]);
          simpl; by rewrite ?lookup_insert_ne, ?lookup_delete_ne by done. }
    rewrite bool_decide_eq_true_2 in Ha by done.
    rewrite deleteRejected_clock by (rewrite ?Hp; try done; intros f Hf; by destruct (file_heeds f Ha Hf) as (? & _ & ?)). rewrite Hp.
    assert (forall t, <[p:=tombstoneInfoFromEntry e]> (rDeleted st) !! p = Some t -> tombEdit t = entryEdit e) as Htomb.
    { intros t. rewrite lookup_insert_eq. intros [= <-]. apply entryEdit_tomb. by left. }
    destruct new_or_beaten as [Hnew|(w & Hw & Hb)].
    - rewrite (newest_unblocked _ es) by done. eapply lww_write; try done; simpl; rewrite ?lookup_insert_eq, ?lookup_delete_eq; try done.
      by rewrite Hty.
    - assert (lww_inv st (es ++ [e])) as Hstay by (eapply lww_stay; try done; by exists w).
      destruct (blocked ec (clocks st !! p)) eqn:Hbl; [done|].
      assert (eType w = DeleteDir) as Hdd.
      { destruct (decide (eType w = DeleteDir)) as [|Hne]; [done|].
        rewrite (lww_own _ _ Hinv _ Hw Hne) in Hbl. simpl in Hbl. by rewrite (clock_beats_asym _ _ Hb) in Hbl. }
      assert (winner p (es ++ [e]) = Some w) as Hw' by (rewrite beaten_winner; [done|by exists w]).
      destruct Hstay as [H1 H2 H3 H4 H5 H6 H7]. split; simpl; try done.
      + intros c. rewrite lookup_insert_eq. intros [= <-]. exists e. split; [set_solver|done].
      + intros w' E' Hne'. congruence.
      + rewrite lookup_delete_eq, Hw'. simpl. by rewrite Hdd.
      + intros t Ht. exists e. split; [set_solver|]. split; [done|by apply Htomb].
  Qed.

Lemma step_other : affects p e = false -> eType e <> DeleteDir -> lww_inv st (es ++ [e]).
  Proof using Hinv.
    intros Ha Hty. eapply lww_stay; try done. unfold beaten. by rewrite Ha.
  Qed.

Lemma step_create_dir : eType e = CreateDir -> lww_inv (applyCreateDir st e) (es ++ [e]).
  Proof using Hinv.
    intros Hty. assert (affects p e = false) as Ha by (unfold affects; by rewrite Hty).
    assert (eType e <> DeleteDir) as Hnd by (by rewrite Hty). pose proof (step_other Ha Hnd) as Hstay.
    unfold applyCreateDir. destruct (blocked _ _); [done|]. destruct (blocked _ _); [done|].
    destruct (coveredByDirTombstone _ _ _); [done|]. eapply lww_stay; try done. unfold beaten. by rewrite Ha.
  Qed.

  (** The clock of a live file is its winner's. *)
Lemma removes_iff f : rFiles st !! p = Some f -> HasPrefix p (ePath e +:+ "/") = true ->
    removes (ePath e +:+ "/") ec (clocks st) p = true <->
    (forall w, winner p es = Some w -> beats ec (entryClock w) = true).
  Proof using Hinv.
    intros Hf Hp. rewrite (lww_file _ _ Hinv) in Hf. unfold file_of in Hf.
    destruct (winner p es) as [w|] eqn:Hw; [|done].
    assert (eType w <> DeleteDir) as Hnd by (by destruct (eType w)).
    rewrite removes_true, (lww_own _ _ Hinv _ Hw Hnd), blocked_some. naive_solver.
  Qed.

  (** The clock recorded for a deleted directory is that of its newest deletion. *)
Lemma deleteDir_newest e' : eType e = DeleteDir -> e' ∈ es ++ [e] -> eType e' = DeleteDir ->
    exists t, dirTombstones (applyDeleteDir st e) !! ePath e' = Some t /\ clock_le (entryClock e') t.
  Proof using Hinv.
    intros Hty He' Ht'. simpl. destruct (dirTombstones st !! ePath e) as [c|] eqn:Hc; simpl.
    - rewrite negb_involutive. apply elem_of_app in He' as [He'| ->%list_elem_of_singleton].
      + destruct (lww_covered _ _ Hinv e' He' Ht') as (t & Ht & Hle).
        destruct (beats ec c) eqn:Hb; [|by exists t].
        destruct (decide (ePath e = ePath e')) as [Ee|Ee]; [|rewrite lookup_insert_ne by done; by exists t].
        rewrite <- Ee in Ht |- *. rewrite lookup_insert_eq. exists ec. split; [done|].
        eapply clock_le_trans; [exact Hle|]. apply beats_le. congruence.
      + destruct (beats ec c) eqn:Hb; [|by exists c]. rewrite lookup_insert_eq. exists ec.
        split; [done|apply clock_beats_irrefl].
    - apply elem_of_app in He' as [He'| ->%list_elem_of_singleton].
      + destruct (lww_covered _ _ Hinv e' He' Ht') as (t & Ht & Hle).
        rewrite lookup_insert_ne by congruence. by exists t.
      + rewrite lookup_insert_eq. exists ec. split; [done|apply clock_beats_irrefl].
  Qed.

Lemma deleteDir_file : eType e = DeleteDir -> rFiles (applyDeleteDir st e) !! p = file_of (winner p (es ++ [e])).
  Proof using Hinv.
    intros Hty. assert (affects p e = HasPrefix p (ePath e +:+ "/")) as Haff by (unfold affects; by rewrite Hty).
    rewrite deleteDir_files, winner_snoc. unfold later. rewrite Haff.
    destruct (HasPrefix p (ePath e +:+ "/")) eqn:Hp; [|unfold removes; rewrite Hp; apply (lww_file _ _ Hinv)].
    pose proof (lww_file _ _ Hinv) as Hw. destruct (rFiles st !! p) as [f|] eqn:Hf.
    - pose proof (removes_iff f Hf Hp) as Hr. destruct (winner p es) as [w|]; [|done]. destruct (beats ec (entryClock w)) eqn:Hb.
      + rewrite (proj2 Hr) by (by intros ? [= <-]). simpl. by rewrite Hty.
      + destruct (removes _ _ _ _); [|done]. rewrite (proj1 Hr eq_refl w eq_refl) in Hb. done.
    - destruct (removes _ _ _ _); (destruct (winner p es) as [w|]; [destruct (beats _ _)|]; simpl; rewrite ?Hty; done).
  Qed.

Lemma step_delete_dir : eType e = DeleteDir -> lww_inv (applyDeleteDir st e) (es ++ [e]).
  Proof using All.
    intros Hty. assert (affects p e = HasPrefix p (ePath e +:+ "/")) as Haff by (unfold affects; by rewrite Hty).
    split; [apply Hinv|..].
    - intros d t Ht. apply deleteDir_tombstones in Ht as [Ht|[-> ->]].
      + destruct (lww_tomb _ _ Hinv d t Ht) as (e' & ? & ?). exists e'. split; [set_solver|done].
      + exists e. split; [set_solver|done].
    - intros e' He' Ht'. by apply deleteDir_newest.
    - intros c. rewrite deleteDir_clocks. intros Hc.
      assert (clocks st !! p = Some c \/ (affects p e = true /\ ec = c)) as [Hc'|[Ha <-]].
      { destruct (rFiles st !! p); [|by left]. destruct (removes _ _ _ _) eqn:Hr; [|by left].
        apply removes_true in Hr as [Hr _]. right. rewrite Haff. by injection Hc as <-. }
      + destruct (lww_clock _ _ Hinv c Hc') as (e' & ? & ?). exists e'. split; [set_solver|done].
      + exists e. split; [set_solver|done].
    - intros w Hw Hnd. rewrite deleteDir_clocks. pose proof Hw as Hold. rewrite winner_snoc in Hold. unfold later in Hold.
      assert (winner p es = Some w) as Hwe.
      { destruct (affects p e); [|done]. destruct (winner p es) as [w0|]; [destruct (beats _ _)|]; congruence. }
      rewrite (lww_own _ _ Hinv w Hwe Hnd). destruct (rFiles st !! p) as [f|] eqn:Hf; [|done].
      destruct (removes _ _ _ _) eqn:Hr; [|done]. pose proof Hr as Hr'. apply removes_true in Hr' as [Hp _].
      pose proof (proj1 (removes_iff f Hf Hp) Hr w Hwe) as Hb. exfalso.
      rewrite Haff, Hp, Hwe, Hb in Hold. congruence.
    - by apply deleteDir_file.
    - intros t. rewrite deleteDir_deleted.
      assert (rDeleted st !! p = Some t -> exists e', e' ∈ es ++ [e] /\ affects p e' = true /\ tombEdit t = entryEdit e') as Hkeep.
      { intros Ht. destruct (lww_deleted _ _ Hinv t Ht) as (e' & ? & ?). exists e'. split; [set_solver|done]. }
      destruct (rFiles st !! p); [|done]. destruct (removes _ _ _ _) eqn:Hr; [|done]. intros [= <-]. exists e. split; [set_solver|].
      apply removes_true in Hr as [Hr _]. split; [by rewrite Haff|]. apply entryEdit_tomb. by right.
  Qed.

Lemma step_entry : eType e <> DeleteRoot -> lww_inv (applyEntry st e) (es ++ [e]).
  Proof using All.
    intros Hnr. unfold applyEntry. rewrite (lww_root _ _ Hinv). simpl.
    destruct (eType e) eqn:Hty; try done.
    - apply step_put. by left.
    - by apply step_delete.
    - by apply step_delete_dir.
    - by apply step_create_dir.
    - apply step_put. by right.
    - apply step_other; [|by rewrite Hty]. unfold affects. by rewrite Hty.
  Qed.
End Step.

Lemma in_order_prefix es es' : in_order p (es ++ es') -> in_order p es.
Proof. intros H x y Hx Hy. apply H; set_solver. Qed.

Lemma replay_lww es :
  keeps_root es -> in_order p es -> NoDup (entryClock <$> es) -> lww_inv (replay None es) es.
Proof.
  induction es as [|e es IH] using rev_ind; intros Hr Ho Hnd.
  - split; try done; intros *; simpl; rewrite ?lookup_empty; try done. by intros ?%elem_of_nil.
  - apply Forall_app in Hr as [Hr He]. rewrite Forall_singleton in He.
    rewrite fmap_app in Hnd. apply NoDup_app in Hnd as (Hnd & Hdis & _).
    unfold replay. rewrite foldl_snoc. apply step_entry; [|by apply (replay_is_ok None)|done| |done].
    + apply IH; [done|by eapply in_order_prefix|done].
    + intros e' He' E. apply (Hdis (entryClock e')); [by apply list_elem_of_fmap_2|]. rewrite E. simpl. set_solver.
Qed.

End AtPath.

Lemma winner_perm es es' p : es ≡ₚ es' -> NoDup (entryClock <$> es) -> winner p es = winner p es'.
Proof.
  intros Hp Hnd. pose proof (winner_spec p es) as H. pose proof (winner_spec p es') as H'.
  destruct (winner p es) as [w|], (winner p es') as [w'|]; [|exfalso| exfalso|done].
  - destruct H as (Hw & Ha & Hm), H' as (Hw' & Ha' & Hm'). f_equal.
    rewrite <- Hp in Hw'. pose proof Hw as Hw2. rewrite Hp in Hw2.
    destruct (decide (entryClock w = entryClock w')) as [E|Hne].
    + apply list_elem_of_lookup in Hw as [i Hi], Hw' as [j Hj].
      assert (i = j) as ->; [|congruence].
      apply (NoDup_lookup _ i j (entryClock w) Hnd); rewrite list_lookup_fmap, ?Hi, ?Hj; simpl; congruence.
    + specialize (Hm w' Hw' Ha'). specialize (Hm' w Hw2 Ha). apply clock_beats_total in Hm; [|congruence].
      unfold clock_le in Hm'. congruence.
  - destruct H as (Hw & Ha & _). rewrite Hp in Hw. by rewrite H' in Ha.
  - destruct H' as (Hw & Ha & _). rewrite <- Hp in Hw. by rewrite H in Ha.
Qed.

(** ** Replay on top of a snapshot *)

(** The same tree; only the two times may differ. *)
Definition same_tree (s s' : Snapshot) : Prop :=
  files s = files s' /\ dirs s = dirs s' /\ deleted s = deleted s' /\
  deletedDirs s = deletedDirs s' /\ deletedRoot s = deletedRoot s'.

Definition createsDir (e : Entry) : bool := bool_decide (eType e = CreateDir).

(** The variables that a snapshot does not store, when no directory has been
    created: they are those of its tombstones. *)
Record plain_dirs (st : Replay) : Prop := {
  plain_no_dirs : rDirs st = ∅;
  plain_tombstones : dirTombstones st = tombstoneClock <$> rDeletedDirs st;
  plain_clocks : dirClocks st = dirTombstones st
}.

Lemma plain_step st e : plain_dirs st -> createsDir e = false -> plain_dirs (applyEntry st e).
Proof.
  intros [H1 H2 H3] Hc. apply bool_decide_eq_false in Hc. unfold applyEntry.
  destruct (blocked _ (rootTombstone st)); [by destruct (eType e)|]. destruct (eType e); try done.
  - unfold applyPut. destruct (putRejected _ _); [done|]. by destruct (coveredByDirTombstone _ _ _).
  - unfold applyDelete. by destruct (deleteRejected _ _).
  - assert (forall (b : bool) k, (if b then delete k ∅ else ∅) = (∅ : gmap string DirInfo)) as Hdel
      by (intros [] k; [apply delete_empty|done]).
    split; simpl; rewrite ?H1, ?Hdel, ?map_filter_empty, ?H3.
    + apply map_difference_empty_l || (apply map_eq; intros k; by rewrite lookup_difference, !lookup_empty).
    + rewrite H2. destruct (negb _); [|done]. by rewrite fmap_insert, tombstoneClock_entry.
    + by rewrite fmap_empty, (left_id_L ∅ (∪)).
  - unfold applyPut. destruct (putRejected _ _); [done|]. by destruct (coveredByDirTombstone _ _ _).
Qed.

(** The snapshot then holds all that replay needs. *)
Lemma plain_rebase st now0 now1 :
  replay_ok st -> plain_dirs st ->
  baseReplay (mkSnapshot (rFiles st) (rDirs st) (rDeleted st) (rDeletedDirs st) (rDeletedRoot st) now0 now1) = st.
Proof.
  intros Hok [H1 H2 H3]. pose proof (ok_root _ Hok) as Hr.
  assert ((tombstoneClock <$> rDeleted st) ∪ (ClockTuple <$> rFiles st) = clocks st) as Hc.
  { apply map_eq. intros p. rewrite lookup_union, !lookup_fmap. symmetry.
    destruct (rDeleted st !! p) as [t|] eqn:Ht.
    - rewrite (ok_del_clock _ Hok _ _ Ht). simpl. by destruct (rFiles st !! p).
    - destruct (rFiles st !! p) as [f|] eqn:Hf.
      + by apply (ok_file_clock _ Hok).
      + destruct (clocks st !! p) as [c|] eqn:Hcl; [|done].
        destruct (ok_clock _ Hok _ _ Hcl) as [[? ?]|[? ?]]; congruence. }
  set (snap := mkSnapshot _ _ _ _ _ _ _).
  assert (dirClocks (baseReplay snap) = dirClocks st) as Hd.
  { apply map_eq. intros p. rewrite base_dirClocks. subst snap. cbn [dirs deletedDirs].
    by rewrite H1, lookup_empty, H3, H2, lookup_fmap. }
  unfold baseReplay in *. cbn [dirClocks] in Hd. rewrite Hd. subst snap.
  cbn [files dirs deleted deletedDirs deletedRoot]. rewrite Hc, <- H2, <- Hr. by destruct st.
Qed.

Lemma replay_plain es : Forall (fun e => createsDir e = false) es -> plain_dirs (replay None es).
Proof.
  intros Hf. unfold replay. apply foldl_invariant.
  - split; simpl; by rewrite ?fmap_empty.
  - intros st e He Hst. apply plain_step; [done|]. rewrite Forall_forall in Hf. by apply Hf.
Qed.

Lemma same_tree_replay now0 now1 now2 now3 b b' es es' :
  replay b es = replay b' es' ->
  same_tree (buildSnapshot now0 now1 b es) (buildSnapshot now2 now3 b' es').
Proof. intros E. unfold same_tree, buildSnapshot. simpl. by rewrite E. Qed.

(** ** Properties *)

(** C34 (type). Every snapshot that replay builds, on top of nothing or of a
    snapshot that is itself well formed, is well formed: no path is both
    a file and a tombstone, and no file or directory is older than a recorded
    deletion of a directory above it or of the whole drive. *)
Theorem fs_snapshot_invariant (now0 now1 : Time) (base : option Snapshot) (es : list Entry)
  (Hbase : base_ok base) : snapshot_ok (buildSnapshot now0 now1 base es).
Proof. by apply replay_snapshot_ok, replay_is_ok. Qed.

(** C2 (refinement). Replay keeps a last-writer-wins map: at a path whose edits
    follow their clocks the file is that of the put with the highest clock among
    the puts and deletes of the path and the deletions of the directories above
    it, and there is none when the highest is a deletion.  The edits follow their
    clocks when an entry that names the content it replaces ([PrevChecksum]), as
    every edit and deletion made over a file does, is newer than the entries of
    the path that have this content.  So it is where the clocks of edits respect
    causality and no content comes back after it was replaced, which
    [fs_revert_lost] is about.  No entry deletes the whole
    drive ([fs_delete_root_order]), and no two entries have the same clock. *)
Theorem fs_files_are_lww (now0 now1 : Time) (es : list Entry) (p : string)
  (Hroot : keeps_root es) (Horder : in_order p es) (Hclocks : NoDup (entryClock <$> es)) :
  Lookup (buildSnapshot now0 now1 None es) p = file_of (winner p es).
Proof. unfold Lookup. simpl. by apply lww_file, replay_lww. Qed.

(** Two devices that replay the same entries of such a log,
    each in its own order, have the same files. *)
Theorem fs_files_converge (now0 now1 now0' now1' : Time) (es es' : list Entry)
  (Hroot : keeps_root es) (Horder : forall p, in_order p es) (Hclocks : NoDup (entryClock <$> es)) (Hperm : es ≡ₚ es') :
  files (buildSnapshot now0 now1 None es) = files (buildSnapshot now0' now1' None es').
Proof.
  apply map_eq. intros p. simpl. rewrite (lww_file p _ es (replay_lww p _ Hroot (Horder p) Hclocks)).
  assert (keeps_root es') as Hroot' by (unfold keeps_root; by rewrite <- Hperm).
  assert (in_order p es') as Horder' by (intros x y Hx Hy; apply Horder; by rewrite Hperm).
  assert (NoDup (entryClock <$> es')) as Hclocks' by (by rewrite <- Hperm).
  by rewrite (lww_file p _ es' (replay_lww p _ Hroot' Horder' Hclocks')), (winner_perm es es').
Qed.

(** C37 (safety). A content that comes back is lost: a put of the content that the current file
    replaced changes nothing, however new it is and though it names the current
    file as the one it replaces; it is taken for an older version of it. *)
Theorem fs_revert_lost (now0 now1 now2 now3 : Time) (base : option Snapshot) (es : list Entry) (e : Entry) (f : FileInfo)
  (Hput : eType e = Put \/ eType e = Symlink) (Hfile : Lookup (buildSnapshot now0 now1 base es) (ePath e) = Some f)
  (Hsum : eChecksum e <> "") (Hback : fiPrevChecksum f = eChecksum e) :
  same_tree (buildSnapshot now2 now3 base (es ++ [e])) (buildSnapshot now0 now1 base es).
Proof.
  apply same_tree_replay. unfold replay. rewrite foldl_snoc. fold (replay base es). unfold Lookup in Hfile. simpl in Hfile.
  assert (putRejected (replay base es) e = true) as Hr.
  { unfold putRejected, fileDescendsEntry. rewrite Hfile, Hback. by rewrite (proj2 (same_checksum_spec _ _)). }
  unfold applyEntry, applyPut. rewrite Hr. destruct Hput as [-> | ->]; by destruct (blocked _ _).
Qed.

(** Replaying new entries on top of a cached snapshot gives the
    tree of a full replay, as long as the log so far creates no directory. *)
Theorem fs_incremental_replay (now0 now1 now2 now3 now4 now5 : Time) (es more : list Entry)
  (Hplain : Forall (fun e => createsDir e = false) es) :
  same_tree (buildSnapshot now2 now3 (Some (buildSnapshot now0 now1 None es)) more)
            (buildSnapshot now4 now5 None (es ++ more)).
Proof.
  apply same_tree_replay. unfold replay. rewrite foldl_app. f_equal.
  apply plain_rebase; [by apply (replay_is_ok None)|by apply replay_plain].
Qed.

(** A deletion of the drive does not compare itself with the files:
    a put with a higher clock survives it when the deletion is replayed first,
    and is lost when the deletion is replayed second. *)
Theorem fs_delete_root_order (now0 now1 now2 now3 : Time) (put root : Entry)
  (Hput : eType put = Put) (Hroot : eType root = DeleteRoot)
  (Hnewer : beats (entryClock put) (entryClock root) = true) :
  Lookup (buildSnapshot now0 now1 None [root; put]) (ePath put) = Some (fileInfoFromEntry put) /\
  Lookup (buildSnapshot now2 now3 None [put; root]) (ePath put) = None.
Proof.
  unfold Lookup, buildSnapshot, replay. cbn [foldl files startReplay]. split.
  - assert (applyEntry emptyReplay root = applyDeleteRoot root) as -> by (unfold applyEntry; by rewrite Hroot).
    unfold applyEntry. rewrite Hput. cbn [rootTombstone applyDeleteRoot blocked]. rewrite Hnewer. cbn [negb].
    unfold applyPut, putRejected. cbn [applyDeleteRoot rFiles rDeleted clocks dirTombstones].
    rewrite !lookup_empty. cbn [blocked]. destruct (coveredByDirTombstone _ _ _) eqn:Hc.
    + apply coveredByDirTombstone_spec in Hc as (d & _ & Hb). by rewrite lookup_empty in Hb.
    + cbn [rFiles]. by rewrite lookup_insert_eq.
  - unfold applyEntry at 1. rewrite Hroot.
    assert (rootTombstone (applyEntry emptyReplay put) = None) as ->.
    { unfold applyEntry. rewrite Hput. cbn [rootTombstone emptyReplay blocked]. unfold applyPut.
      destruct (putRejected _ _); [done|]. by destruct (coveredByDirTombstone _ _ _). }
    cbn [blocked]. simpl. by rewrite lookup_empty.
Qed.

(** ** Concrete logs *)

Definition demoEntry (ty : EntryType) (path device : string) (ts : Z) (sum prev : string) : Entry :=
  mkEntry ty path (Some [sum]) 1 sum prev "" "Test" device ts 1 "".

(** Three edits of one file, the second naming the first as its ancestor: which
    one stands depends on the order of replay. *)
Lemma fs_causal_edits_order :
  let a := demoEntry Put "f" "dev-a" 10 "A" "" in
  let b := demoEntry Put "f" "dev-b" 5 "B" "A" in
  let c := demoEntry Put "f" "dev-c" 7 "C" "" in
  fiChecksum <$> Lookup (buildSnapshot 0 0 None [a; b; c]) "f" = Some "C" /\
  fiChecksum <$> Lookup (buildSnapshot 0 0 None [a; c; b]) "f" = Some "B".
Proof. by vm_compute. Qed.

(** A directory deleted and created again: a stale put below it is rejected by
    a full replay, and accepted on top of the snapshot, which no longer holds
    the tombstone. *)
Lemma fs_cache_forgets_tombstone :
  let log := [demoEntry DeleteDir "d" "dev-a" 10 "" ""; demoEntry CreateDir "d" "dev-a" 20 "" ""] in
  let stale := demoEntry Put "d/x" "dev-b" 5 "X" "" in
  Lookup (buildSnapshot 0 0 None (log ++ [stale])) "d/x" = None /\
  fiChecksum <$> Lookup (buildSnapshot 0 0 (Some (buildSnapshot 0 0 None log)) [stale]) "d/x" = Some "X".
Proof. by vm_compute. Qed.

(** The same two directory entries in the other order leave the directory both
    created and deleted. *)
Lemma fs_dir_entries_order :
  let del := demoEntry DeleteDir "d" "dev-a" 10 "" "" in
  let crt := demoEntry CreateDir "d" "dev-a" 20 "" "" in
  let s := buildSnapshot 0 0 None [del; crt] in
  let s' := buildSnapshot 0 0 None [crt; del] in
  (is_Some (Dirs s !! "d") /\ DeletedDirs s !! "d" = None) /\
  (is_Some (Dirs s' !! "d") /\ DeletedDirs s' !! "d" = Some true).
Proof. cbv zeta. split; (split; [eexists|]); vm_compute; reflexivity. Qed.

Definition demoLog : list Entry :=
  [demoEntry Put "a/x" "dev-a" 10 "X" ""; demoEntry Put "a/y" "dev-b" 11 "Y" ""; demoEntry Put "a/x" "dev-d" 11 "W" "X";
   demoEntry DeleteDir "a" "dev-c" 12 "" ""; demoEntry Put "a/x" "dev-b" 13 "Z" "W"; demoEntry Delete "a/y" "dev-a" 14 "" "Y";
   demoEntry Delete "b" "dev-a" 9 "" ""].

Lemma demoLog_root : keeps_root demoLog.
Proof. unfold keeps_root. repeat constructor; done. Defined.

Lemma demoLog_order p : in_order p demoLog.
Proof.
  assert (Forall (fun x => Forall (fun y => ePath x = ePath y -> heeds (entryEdit x) (entryEdit y)) demoLog) demoLog) as H
    by (apply (bool_decide_unpack _); vm_compute; exact I).
  assert (Forall (fun x => eType x = DeleteDir -> ePrevChecksum x = "") demoLog) as Hd by (repeat constructor; done).
  rewrite Forall_forall in H, Hd. intros x y Hx Hy Hax Hay. specialize (H x Hx). rewrite Forall_forall in H.
  destruct (decide (eType x = DeleteDir)) as [Hxd|Hxd]; [intros Hs; simpl in Hs; by rewrite (Hd x Hx Hxd), same_checksum_empty in Hs|].
  destruct (decide (eType y = DeleteDir)) as [Hyd|Hyd]; [intros Hs; unfold entryEdit in Hs; simpl in Hs; by rewrite Hyd, same_checksum_empty_r in Hs|].
  apply (H y Hy). unfold affects in Hax, Hay. destruct (eType x), (eType y); try done; apply bool_decide_eq_true in Hax, Hay; congruence.
Defined.

Lemma demoLog_clocks : NoDup (entryClock <$> demoLog).
Proof. apply (bool_decide_unpack _). vm_compute. done. Defined.

Lemma fs_snapshot_invariant_witness :
  snapshot_ok (buildSnapshot 0 0 (Some (buildSnapshot 0 0 None demoLog)) demoLog).
Proof.
  exact (fs_snapshot_invariant 0 0 (Some (buildSnapshot 0 0 None demoLog)) demoLog
    (fs_snapshot_invariant 0 0 None demoLog I)).
Defined.

Lemma fs_files_are_lww_witness :
  Lookup (buildSnapshot 0 0 None demoLog) "a/y" = None /\
  file_of (winner "a/x" demoLog) = Some (fileInfoFromEntry (demoEntry Put "a/x" "dev-b" 13 "Z" "W")).
Proof.
  split; [exact (fs_files_are_lww 0 0 demoLog "a/y" demoLog_root (demoLog_order "a/y") demoLog_clocks)|vm_compute; reflexivity].
Defined.

Lemma fs_files_converge_witness :
  files (buildSnapshot 0 0 None demoLog) = files (buildSnapshot 1 1 None (reverse demoLog)).
Proof.
  exact (fs_files_converge 0 0 1 1 demoLog (reverse demoLog) demoLog_root demoLog_order demoLog_clocks
    (symmetry (reverse_Permutation demoLog))).
Defined.

(** One device writes [X], then [Y], then [X] again. *)
Definition revertLog : list Entry := [demoEntry Put "f" "dev-a" 10 "X" ""; demoEntry Put "f" "dev-a" 11 "Y" "X"].
Definition revertEntry : Entry := demoEntry Put "f" "dev-a" 12 "X" "Y".

Lemma fs_revert_lost_witness :
  Lookup (buildSnapshot 0 0 None revertLog) "f" = Some (fileInfoFromEntry (demoEntry Put "f" "dev-a" 11 "Y" "X")) /\
  winner "f" (revertLog ++ [revertEntry]) = Some revertEntry /\
  same_tree (buildSnapshot 0 0 None (revertLog ++ [revertEntry])) (buildSnapshot 0 0 None revertLog).
Proof.
  split; [vm_compute; reflexivity|]. split; [vm_compute; reflexivity|].
  exact (fs_revert_lost 0 0 0 0 None revertLog revertEntry (fileInfoFromEntry (demoEntry Put "f" "dev-a" 11 "Y" "X"))
    (or_introl eq_refl) eq_refl ltac:(discriminate) eq_refl).
Defined.

Lemma demoLog_plain : Forall (fun e => createsDir e = false) demoLog.
Proof. repeat constructor. Defined.

Lemma fs_incremental_replay_witness :
  same_tree (buildSnapshot 0 0 (Some (buildSnapshot 0 0 None demoLog)) [demoEntry Put "c" "dev-a" 20 "C" ""])
            (buildSnapshot 0 0 None (demoLog ++ [demoEntry Put "c" "dev-a" 20 "C" ""])).
Proof. exact (fs_incremental_replay 0 0 0 0 0 0 demoLog _ demoLog_plain). Defined.

Lemma fs_delete_root_order_witness :
  Lookup (buildSnapshot 0 0 None [demoEntry DeleteRoot "" "dev-a" 10 "" ""; demoEntry Put "f" "dev-b" 11 "F" ""]) "f"
    = Some (fileInfoFromEntry (demoEntry Put "f" "dev-b" 11 "F" "")) /\
  Lookup (buildSnapshot 0 0 None [demoEntry Put "f" "dev-b" 11 "F" ""; demoEntry DeleteRoot "" "dev-a" 10 "" ""]) "f"
    = None.
Proof.
  exact (fs_delete_root_order 0 0 0 0 (demoEntry Put "f" "dev-b" 11 "F" "") (demoEntry DeleteRoot "" "dev-a" 10 "" "")
    eq_refl eq_refl eq_refl).
Defined.
