(* ===== verification/FsLocalLog.v ===== *)
(** * The local operations log of the file sync (pkg/fs/opslog/local.go)

    A [LocalOpsLog] is a JSONL file, a cached snapshot and two counters.  The
    mutex of the source makes each operation one atomic step of [log_step];
    the operations take the outcome of the system calls and the readings of
    the clock as arguments. *)

From Stdlib Require Import Ascii.
From stdpp Require Import base numbers list gmap strings.
From S2P Require Import Prelude GoStrings JsonLines FsOps.

Record LocalOpsLog := mkLog {
  opsFile : option string;  (** the bytes at [path] *)
  deviceID : string;
  cache : option Snapshot;
  lastRemote : Z;
  opsSeq : Z
}.

Definition NewLocalOpsLog (file : option string) (dev : string) : LocalOpsLog := mkLog file dev None 0 0.

Definition LastRemoteOp (l : LocalOpsLog) : Z := 0.
Definition DeviceID (l : LocalOpsLog) : string := deviceID l.
Definition InvalidateCache (l : LocalOpsLog) : LocalOpsLog :=
  mkLog (opsFile l) (deviceID l) None (lastRemote l) (opsSeq l).

(** A map in the order of its sorted keys. *)
Definition sorted_items {A} (m : gmap string A) : list (string * A) :=
  omap (fun k => (fun a => (k, a)) <$> m !! k) (sort_Strings (keys_of m)).

(** ** The synthetic entries of [Compact] *)

(** The chunkless files that are no symlinks are left out. *)
Definition keptFile (fi : FileInfo) : bool :=
  negb (bool_decide (default [] (fiChunks fi) = []) && bool_decide (fiLinkTarget fi = "")).

Definition compactFile (kv : string * FileInfo) : Entry :=
  let '(path, fi) := kv in
  mkEntry (if bool_decide (fiLinkTarget fi <> "") then Symlink else Put) path (fiChunks fi) (fiSize fi)
    (fiChecksum fi) (fiPrevChecksum fi) (fiLinkTarget fi) (fiNamespace fi) (fiDevice fi)
    (unix_seconds (fiModified fi)) (fiSeq fi) "".

Definition compactDir (kv : string * DirInfo) : Entry :=
  let '(path, di) := kv in
  mkEntry CreateDir path None 0 "" "" "" (diNamespace di) (diDevice di)
    (unix_seconds (diModified di)) (diSeq di) "".

Definition compactTombstone (ty : EntryType) (kv : string * TombstoneInfo) : Entry :=
  let '(path, tomb) := kv in
  mkEntry ty path None 0 "" (tiPrevChecksum tomb) "" (tiNamespace tomb) (tiDevice tomb)
    (unix_seconds (tiModified tomb)) (tiSeq tomb) "".

Definition compactRoot (r : option TombstoneInfo) : list Entry :=
  match r with Some tomb => [compactTombstone DeleteRoot ("", tomb)] | None => [] end.

(** The lines [Compact] writes, in the order it writes them. *)
Definition compactEntries (c : Snapshot) : list Entry :=
  map compactFile (filter (fun kv => keptFile kv.2 = true) (sorted_items (files c)))
  ++ map compactDir (sorted_items (dirs c))
  ++ map (compactTombstone Delete) (sorted_items (deleted c))
  ++ map (compactTombstone DeleteDir) (sorted_items (deletedDirs c))
  ++ compactRoot (deletedRoot c).

Section Log.
Context `{Codec : LineCodec Entry}.

Definition appendToFile (io : WriteIO) (l : LocalOpsLog) (e : Entry) : LocalOpsLog * result LogErr unit :=
  let '(f, r) := append_file io (opsFile l) e in
  (mkLog f (deviceID l) (cache l) (lastRemote l) (opsSeq l), r).

Definition readAllLocked (rd : bool) (l : LocalOpsLog) : result LogErr (list Entry) :=
  read_lines rd (opsFile l).

(** The loop of [rebuildLocked] over the entries. *)
Definition highest (dev : string) (es : list Entry) (sq : Z) : Z * Z :=
  foldl (fun '(maxRemote, sq) e =>
    (if bool_decide (eDevice e <> dev) && Z.ltb maxRemote (eTimestamp e) then eTimestamp e else maxRemote,
     if bool_decide (eDevice e = dev) && Z.ltb sq (eSeq e) then eSeq e else sq)) (0, sq) es.

Definition rebuildLocked (rd : bool) (n0 n1 : Time) (l : LocalOpsLog) : LocalOpsLog * result LogErr Snapshot :=
  match readAllLocked rd l with
  | Err e => (l, Err e)
  | Ok es =>
      let c := buildSnapshot n0 n1 None es in
      let '(maxRemote, sq) := highest (deviceID l) es (opsSeq l) in
      (mkLog (opsFile l) (deviceID l) (Some c)
         (if Z.ltb (lastRemote l) maxRemote then maxRemote else lastRemote l) sq, Ok c)
  end.

(** [Snapshot()] *)
Definition getSnapshot (rd : bool) (n0 n1 : Time) (l : LocalOpsLog) : LocalOpsLog * result LogErr Snapshot :=
  match cache l with
  | Some c => (l, Ok c)
  | None => rebuildLocked rd n0 n1 l
  end.

Definition logLookup (rd : bool) (n0 n1 : Time) (path : string) (l : LocalOpsLog) : LocalOpsLog * option FileInfo :=
  match getSnapshot rd n0 n1 l with
  | (l, Ok c) => (l, Lookup c path)
  | (l, Err _) => (l, None)
  end.

(** The warm cache moves on by one entry. *)
Definition refreshCache (n0 n1 : Time) (e : Entry) (l : LocalOpsLog) : LocalOpsLog :=
  mkLog (opsFile l) (deviceID l) ((fun c => buildSnapshot n0 n1 (Some c) [e]) <$> cache l)
    (lastRemote l) (opsSeq l).

Definition Append (io : WriteIO) (n0 n1 : Time) (e : Entry) (l : LocalOpsLog) : LocalOpsLog * result LogErr unit :=
  match appendToFile io l e with
  | (l, Err x) => (l, Err x)
  | (l, Ok _) =>
      let remote := if bool_decide (eDevice e <> deviceID l) && Z.ltb (lastRemote l) (eTimestamp e)
                    then eTimestamp e else lastRemote l in
      (refreshCache n0 n1 e (mkLog (opsFile l) (deviceID l) (cache l) remote (opsSeq l)), Ok tt)
  end.

(** The entry of [AppendLocal], stamped. *)
Definition localEntry (now : Time) (e : Entry) (dev : string) (sq : Z) : Entry :=
  mkEntry (eType e) (ePath e) (eChunks e) (eSize e) (eChecksum e) (ePrevChecksum e) (eLinkTarget e)
    (eNamespace e) dev (if Z.eqb (eTimestamp e) 0 then unix_seconds now else eTimestamp e) sq (eClient e).

Definition AppendLocal (io : WriteIO) (n0 n1 now : Time) (e : Entry) (l : LocalOpsLog)
  : LocalOpsLog * result LogErr unit :=
  let l := mkLog (opsFile l) (deviceID l) (cache l) (lastRemote l) (int64_wrap (opsSeq l + 1)) in
  let e := localEntry now e (deviceID l) (opsSeq l) in
  match appendToFile io l e with
  | (l, Err x) => (l, Err x)
  | (l, Ok _) => (refreshCache n0 n1 e l, Ok tt)
  end.

(** The new content goes to a temporary file; only the rename touches [path]. *)
Definition Compact (rd : bool) (io : CompactIO) (n0 n1 : Time) (l : LocalOpsLog) : LocalOpsLog * result LogErr unit :=
  match getSnapshot rd n0 n1 l with
  | (l, Err x) => (l, Err x)
  | (l, Ok c) =>
      match io with
      | CICreateFails => (l, Err ErrCreate)
      | CIWriteFails => (l, Err ErrWrite)
      | CIRenameFails => (l, Err ErrRename)
      | CIOk =>
          (mkLog (Some (jsonl (compactEntries c))) (deviceID l) None (lastRemote l) (opsSeq l), Ok tt)
      end
  end.

End Log.

(** ** Sorted enumerations *)

Lemma sorted_items_perm {A} (m : gmap string A) : sorted_items m ≡ₚ map_to_list m.
Proof.
  unfold sorted_items. rewrite sort_Strings_perm. unfold keys_of.
  assert (omap (fun k => (fun a => (k, a)) <$> m !! k) (map_to_list m).*1 = map_to_list m) as ->; [|done].
  assert (forall l : list (string * A), (forall kv, kv ∈ l -> m !! kv.1 = Some kv.2) ->
    omap (fun k => (fun a => (k, a)) <$> m !! k) l.*1 = l) as H.
  { induction l as [|[k a] l IH]; intros Hl; [done|]. simpl. 
    pose proof (Hl (k, a) ltac:(set_solver)) as Hk. simpl in Hk. rewrite Hk. simpl.
    f_equal. apply IH. set_solver. }
  apply H. intros [k a]. apply elem_of_map_to_list.
Qed.

Lemma sorted_items_spec {A} (m : gmap string A) k a : (k, a) ∈ sorted_items m <-> m !! k = Some a.
Proof. rewrite sorted_items_perm. apply elem_of_map_to_list. Qed.

Lemma sorted_items_NoDup {A} (m : gmap string A) : NoDup (sorted_items m).*1.
Proof. rewrite sorted_items_perm. apply NoDup_fst_map_to_list. Qed.

Lemma sorted_items_filter {A} (P : A -> bool) (m : gmap string A) :
  filter (fun kv => P kv.2 = true) (sorted_items m) ≡ₚ map_to_list (filter (fun kv => P kv.2 = true) m).
Proof.
  apply NoDup_Permutation.
  - apply NoDup_filter. rewrite sorted_items_perm. apply NoDup_map_to_list.
  - apply NoDup_map_to_list.
  - intros [k a]. rewrite list_elem_of_filter, sorted_items_spec, elem_of_map_to_list, map_lookup_filter_Some.
    simpl. tauto.
Qed.

(** A fold that inserts one record per entry builds the map it enumerates. *)
Lemma foldl_build {A S E} (mk : gmap string A -> S) (f : S -> E -> S) (g : string * A -> E)
    (M : gmap string A) (l : list (string * A)) :
  (forall m p a, M !! p = Some a -> m !! p = None -> m ⊆ M -> f (mk m) (g (p, a)) = mk (<[p := a]> m)) ->
  l ≡ₚ map_to_list M ->
  foldl f (mk ∅) (map g l) = mk M.
Proof.
  intros Hstep Hl.
  assert (forall l m, NoDup l.*1 -> (forall p a, (p, a) ∈ l -> M !! p = Some a /\ m !! p = None) -> m ⊆ M ->
    foldl f (mk m) (map g l) = mk (list_to_map l ∪ m)) as H.
  { clear l Hl. induction l as [|[p a] l IH]; intros m Hnd Hin Hm; simpl; [by rewrite (left_id_L ∅ (∪))|].
    apply NoDup_cons in Hnd as [Hp Hnd]. destruct (Hin p a) as [HM Hmp]; [set_solver|].
    rewrite Hstep by done. rewrite IH; [|done| |].
    - f_equal. rewrite <- insert_union_l, insert_union_r; [done|]. by apply not_elem_of_list_to_map_1.
    - intros q b Hq. destruct (Hin q b) as [? ?]; [set_solver|]. split; [done|].
      rewrite lookup_insert_ne; [done|]. intros <-. apply Hp. apply list_elem_of_fmap. by exists (p, b).
    - by apply insert_subseteq_l. }
  rewrite H.
  - f_equal. rewrite (right_id_L ∅ (∪)). rewrite (list_to_map_proper l (map_to_list M)); [apply list_to_map_to_list| |done].
    rewrite Hl. apply NoDup_fst_map_to_list.
  - rewrite Hl. apply NoDup_fst_map_to_list.
  - intros p a. rewrite Hl, elem_of_map_to_list, lookup_empty. done.
  - apply map_empty_subseteq.
Qed.

(** ** Whole seconds: what replay stores survives the trip through an entry *)

Definition whole (t : Time) : Prop := time_Unix (unix_seconds t) = t.

Record whole_seconds (fs : gmap string FileInfo) (ds : gmap string DirInfo)
    (xs ts : gmap string TombstoneInfo) : Prop := {
  whole_files : map_Forall (fun _ f => whole (fiModified f)) fs;
  whole_dirs : map_Forall (fun _ d => whole (diModified d)) ds;
  whole_deleted : map_Forall (fun _ t => whole (tiModified t)) xs;
  whole_deletedDirs : map_Forall (fun _ t => whole (tiModified t)) ts
}.

Definition replay_whole (st : Replay) : Prop :=
  whole_seconds (rFiles st) (rDirs st) (rDeleted st) (rDeletedDirs st).
Definition snapshot_whole (c : Snapshot) : Prop :=
  whole_seconds (files c) (dirs c) (deleted c) (deletedDirs c).

Lemma whole_Unix s : whole (time_Unix s).
Proof. unfold whole. by rewrite unix_seconds_time_Unix. Qed.

Lemma map_Forall_difference {A} (P : string -> A -> Prop) (m : gmap string A) (n : gmap string A) :
  map_Forall P m -> map_Forall P (m ∖ n).
Proof. intros H k a Hk. apply lookup_difference_Some in Hk as [Hk _]. by apply H. Qed.

Lemma map_Forall_const_union {A B} (P : string -> A -> Prop) (m : gmap string B) (n : gmap string A) a :
  (forall k, P k a) -> map_Forall P n -> map_Forall P (((fun _ => a) <$> m) ∪ n).
Proof.
  intros Ha Hn k b Hk. apply lookup_union_Some_raw in Hk as [Hk|[_ Hk]]; [|by apply Hn].
  rewrite lookup_fmap in Hk. destruct (m !! k); simplify_eq/=. apply Ha.
Qed.

Ltac whole_maps :=
  try done; first [apply map_Forall_insert_2; [apply whole_Unix|done] | by apply map_Forall_delete].

Lemma applyEntry_whole st e : replay_whole st -> replay_whole (applyEntry st e).
Proof.
  intros Hw. pose proof Hw as [H1 H2 H3 H4]. unfold applyEntry.
  destruct (blocked _ (rootTombstone st)); [by destruct (eType e)|]. destruct (eType e); try done.
  - unfold applyPut. destruct (putRejected _ _); [done|]. destruct (coveredByDirTombstone _ _ _); [done|].
    split; simpl; whole_maps.
  - unfold applyDelete. destruct (deleteRejected _ _); [done|]. split; simpl; whole_maps.
  - split; simpl.
    + by apply map_Forall_difference.
    + apply map_Forall_difference. destruct (negb _); whole_maps.
    + apply map_Forall_const_union; [intros _; apply whole_Unix|done].
    + destruct (negb _); [|done]. apply map_Forall_insert_2; [apply whole_Unix|done].
  - unfold applyCreateDir. do 2 (destruct (blocked _ _); [done|]). destruct (coveredByDirTombstone _ _ _); [done|].
    split; simpl; whole_maps.
  - unfold applyPut. destruct (putRejected _ _); [done|]. destruct (coveredByDirTombstone _ _ _); [done|].
    split; simpl; whole_maps.
Qed.

Lemma build_whole now0 now1 base es :
  (forall b, base = Some b -> snapshot_whole b) -> snapshot_whole (buildSnapshot now0 now1 base es).
Proof.
  intros Hb. unfold snapshot_whole, buildSnapshot. simpl. change (replay_whole (replay base es)).
  unfold replay. apply foldl_invariant.
  - destruct base as [b|]; [by apply Hb|]. split; simpl; apply map_Forall_empty.
  - intros st e _. apply applyEntry_whole.
Qed.

(** ** Replaying a compacted log *)

Lemma compactFile_info p fi : whole (fiModified fi) ->
  fileInfoFromEntry (compactFile (p, fi)) = fi /\ entryClock (compactFile (p, fi)) = ClockTuple fi.
Proof. intros Hw. unfold fileInfoFromEntry, compactFile. simpl. rewrite Hw. by destruct fi. Qed.

Lemma compactDir_info p di : whole (diModified di) ->
  dirInfoFromEntry (compactDir (p, di)) = di /\ entryClock (compactDir (p, di)) = dirClock di.
Proof. intros Hw. unfold dirInfoFromEntry, compactDir. simpl. rewrite Hw. by destruct di. Qed.

Lemma compactTombstone_info ty p t : whole (tiModified t) ->
  tombstoneInfoFromEntry (compactTombstone ty (p, t)) = t /\
  entryClock (compactTombstone ty (p, t)) = tombstoneClock t.
Proof. intros Hw. unfold tombstoneInfoFromEntry, compactTombstone. simpl. rewrite Hw. by destruct t. Qed.

(** The states after the four groups of lines. *)
Definition afterFiles (fs : gmap string FileInfo) : Replay :=
  mkReplay fs ∅ ∅ ∅ None (ClockTuple <$> fs) ∅ None ∅.
Definition afterDirs fs (ds : gmap string DirInfo) : Replay :=
  mkReplay fs ds ∅ ∅ None (ClockTuple <$> fs) ∅ None (dirClock <$> ds).
Definition afterDeleted fs ds (xs : gmap string TombstoneInfo) : Replay :=
  mkReplay fs ds xs ∅ None ((tombstoneClock <$> xs) ∪ (ClockTuple <$> fs)) ∅ None (dirClock <$> ds).
Definition afterDeletedDirs fs ds xs (ts : gmap string TombstoneInfo) : Replay :=
  mkReplay fs ds xs ts None ((tombstoneClock <$> xs) ∪ (ClockTuple <$> fs)) (tombstoneClock <$> ts) None
    ((dirClock <$> ds) ∪ (tombstoneClock <$> ts)).

Lemma covered_none p ec : coveredByDirTombstone p ec ∅ = false.
Proof.
  apply not_true_iff_false. rewrite coveredByDirTombstone_spec. intros (d & _ & Hb). by rewrite lookup_empty in Hb.
Qed.

Lemma step_file m p fi : whole (fiModified fi) -> m !! p = None ->
  applyEntry (afterFiles m) (compactFile (p, fi)) = afterFiles (<[p := fi]> m).
Proof.
  intros Hw Hp. destruct (compactFile_info p fi Hw) as [Hi Hc].
  assert (eType (compactFile (p, fi)) = Put \/ eType (compactFile (p, fi)) = Symlink) as Hty
    by (simpl; destruct (bool_decide _); auto).
  assert (applyEntry (afterFiles m) (compactFile (p, fi)) = applyPut (afterFiles m) (compactFile (p, fi))) as ->
    by (unfold applyEntry; by destruct Hty as [->| ->]).
  unfold applyPut, putRejected. rewrite Hc, Hi. cbn [ePath compactFile rFiles rDeleted clocks dirTombstones afterFiles].
  rewrite Hp, lookup_fmap, Hp, lookup_empty, covered_none. cbn [fmap option_fmap option_map blocked].
  unfold afterFiles. cbn [rDirs rDeletedDirs rDeletedRoot rootTombstone dirClocks].
  by rewrite fmap_insert, delete_empty.
Qed.

Lemma step_dir fs m p di : whole (diModified di) -> m !! p = None ->
  applyEntry (afterDirs fs m) (compactDir (p, di)) = afterDirs fs (<[p := di]> m).
Proof.
  intros Hw Hp. destruct (compactDir_info p di Hw) as [Hi Hc].
  change (applyCreateDir (afterDirs fs m) (compactDir (p, di)) = afterDirs fs (<[p := di]> m)).
  unfold applyCreateDir. rewrite Hc, Hi. cbn [ePath compactDir dirClocks dirTombstones afterDirs].
  rewrite lookup_fmap, Hp, lookup_empty, covered_none. cbn [fmap option_fmap option_map blocked].
  unfold afterDirs. cbn [rFiles rDirs rDeleted rDeletedDirs rDeletedRoot rootTombstone clocks].
  by rewrite fmap_insert, delete_empty.
Qed.

Lemma step_deleted fs ds m p t : whole (tiModified t) -> m !! p = None -> fs !! p = None ->
  applyEntry (afterDeleted fs ds m) (compactTombstone Delete (p, t)) = afterDeleted fs ds (<[p := t]> m).
Proof.
  intros Hw Hp Hf. destruct (compactTombstone_info Delete p t Hw) as [Hi Hc].
  change (applyDelete (afterDeleted fs ds m) (compactTombstone Delete (p, t)) = afterDeleted fs ds (<[p := t]> m)).
  unfold applyDelete, deleteRejected. rewrite Hc, Hi.
  cbn [ePath compactTombstone rFiles clocks afterDeleted].
  rewrite Hf, lookup_union_r, lookup_fmap, Hf by (by rewrite lookup_fmap, Hp).
  cbn [fmap option_fmap option_map blocked].
  unfold afterDeleted. cbn [rDirs rDeleted rDeletedDirs rDeletedRoot rootTombstone dirTombstones dirClocks].
  by rewrite fmap_insert, delete_id, insert_union_l.
Qed.

Lemma filter_none {A} (P : string -> bool) (m : gmap string A) :
  (forall k a, m !! k = Some a -> P k = false) -> filter (fun kv => P kv.1 = true) m = ∅.
Proof.
  intros H. apply map_empty. intros k. apply map_lookup_filter_None_2. right. intros a Hk. simpl.
  by rewrite (H k a Hk).
Qed.

Lemma beaten_not_removed prefix ec cs p c :
  cs !! p = Some c -> (HasPrefix p prefix = true -> clock_le ec c) -> removes prefix ec cs p = false.
Proof.
  intros Hc Hle. unfold removes. destruct (HasPrefix p prefix); [|done]. rewrite Hc. simpl.
  specialize (Hle eq_refl). unfold clock_le in Hle. by rewrite Hle.
Qed.

Lemma step_deleted_dir fs ds xs m p t :
  whole (tiModified t) -> m !! p = None ->
  (forall q f, fs !! q = Some f -> xs !! q = None) ->
  (forall q f, fs !! q = Some f -> under p q -> clock_le (tombstoneClock t) (ClockTuple f)) ->
  (forall q d, ds !! q = Some d -> p = q \/ under p q -> clock_le (tombstoneClock t) (dirClock d)) ->
  applyEntry (afterDeletedDirs fs ds xs m) (compactTombstone DeleteDir (p, t))
  = afterDeletedDirs fs ds xs (<[p := t]> m).
Proof.
  intros Hw Hp Hdis Hfs Hds. destruct (compactTombstone_info DeleteDir p t Hw) as [Hi Hc].
  change (applyDeleteDir (afterDeletedDirs fs ds xs m) (compactTombstone DeleteDir (p, t))
    = afterDeletedDirs fs ds xs (<[p := t]> m)).
  unfold applyDeleteDir. rewrite Hc, Hi.
  cbn [ePath compactTombstone rFiles rDirs rDeleted rDeletedDirs rDeletedRoot clocks dirTombstones dirClocks
       rootTombstone afterDeletedDirs].
  rewrite lookup_fmap, Hp. cbn [fmap option_fmap option_map blocked negb].
  rewrite (filter_none (removes _ _ _) fs), fmap_empty.
  2:{ intros q f Hq. eapply beaten_not_removed.
      - rewrite lookup_union_r, lookup_fmap, Hq; [reflexivity|]. by rewrite lookup_fmap, (Hdis q f Hq).
      - intros Hpre. eapply Hfs; [done|]. by apply under_prefix. }
  set (dc := (dirClock <$> ds) ∪ (tombstoneClock <$> m)).
  assert (forall q d, ds !! q = Some d -> dc !! q = Some (dirClock d)) as Hdc.
  { intros q d Hq. apply lookup_union_Some_l. by rewrite lookup_fmap, Hq. }
  assert ((if negb (blocked (tombstoneClock t) (dc !! p)) then delete p ds else ds) = ds) as ->.
  { destruct (ds !! p) as [d|] eqn:Hd; [|destruct (negb _); [by apply delete_id|done]].
    rewrite (Hdc p d Hd). simpl. pose proof (Hds p d Hd (or_introl eq_refl)) as Hle. unfold clock_le in Hle.
    by rewrite Hle. }
  set (dc1 := if negb (blocked (tombstoneClock t) (dc !! p)) then <[p:=tombstoneClock t]> dc else dc).
  assert (dc1 = (dirClock <$> ds) ∪ (tombstoneClock <$> <[p := t]> m)) as Hdc1.
  { subst dc1. destruct (ds !! p) as [d|] eqn:Hd.
    - rewrite (Hdc p d Hd). simpl. pose proof (Hds p d Hd (or_introl eq_refl)) as Hle. unfold clock_le in Hle.
      rewrite Hle. simpl. apply map_eq. intros q. unfold dc. rewrite !lookup_union. destruct (decide (p = q)) as [<-|Hne].
      + rewrite !lookup_fmap, Hd. simpl. by destruct (m !! p), (<[p:=t]> m !! p).
      + by rewrite !lookup_fmap, lookup_insert_ne.
    - assert (dc !! p = None) as ->.
      { unfold dc. rewrite lookup_union, !lookup_fmap, Hd, Hp. done. }
      simpl. unfold dc. rewrite insert_union_r by (by rewrite lookup_fmap, Hd). by rewrite fmap_insert. }
  rewrite Hdc1. rewrite (filter_none (removes _ _ _) ds), fmap_empty.
  2:{ intros q d Hq. eapply beaten_not_removed.
      - apply lookup_union_Some_l. by rewrite lookup_fmap, Hq.
      - intros Hpre. eapply Hds; [done|]. right. by apply under_prefix. }
  unfold afterDeletedDirs. rewrite !fmap_empty, !(left_id_L ∅ (∪)), !map_difference_empty, fmap_insert. done.
Qed.

Definition keptFiles (c : Snapshot) : gmap string FileInfo := filter (fun kv => keptFile kv.2 = true) (files c).

(** The lines before the one of the root tombstone. *)
Definition treeEntries (c : Snapshot) : list Entry :=
  map compactFile (filter (fun kv => keptFile kv.2 = true) (sorted_items (files c)))
  ++ map compactDir (sorted_items (dirs c))
  ++ map (compactTombstone Delete) (sorted_items (deleted c))
  ++ map (compactTombstone DeleteDir) (sorted_items (deletedDirs c)).

Lemma compactEntries_tree c : compactEntries c = treeEntries c ++ compactRoot (deletedRoot c).
Proof. unfold compactEntries, treeEntries. by rewrite !app_assoc. Qed.

Lemma replay_treeEntries c :
  snapshot_ok c -> snapshot_whole c ->
  replay None (treeEntries c) = afterDeletedDirs (keptFiles c) (dirs c) (deleted c) (deletedDirs c).
Proof.
  intros [H1 H2 H3 _ _] [W1 W2 W3 W4]. unfold replay, treeEntries. rewrite !foldl_app.
  assert (forall q f, keptFiles c !! q = Some f -> files c !! q = Some f) as Hk.
  { intros q f Hq. by apply map_lookup_filter_Some in Hq as [? _]. }
  assert (startReplay None = afterFiles ∅) as -> by (unfold afterFiles; by rewrite fmap_empty).
  rewrite (foldl_build afterFiles applyEntry compactFile (keptFiles c)); [| |by apply sorted_items_filter].
  2:{ intros m p fi Hp Hm _. apply step_file; [|done]. by eapply W1, Hk. }
  assert (afterFiles (keptFiles c) = afterDirs (keptFiles c) ∅) as -> by (unfold afterDirs; by rewrite fmap_empty).
  rewrite (foldl_build (afterDirs (keptFiles c)) applyEntry compactDir (dirs c)); [| |by apply sorted_items_perm].
  2:{ intros m p di Hp Hm _. apply step_dir; [|done]. by eapply W2. }
  assert (afterDirs (keptFiles c) (dirs c) = afterDeleted (keptFiles c) (dirs c) ∅) as ->
    by (unfold afterDeleted; by rewrite fmap_empty, (left_id_L ∅ (∪))).
  rewrite (foldl_build (afterDeleted (keptFiles c) (dirs c)) applyEntry (compactTombstone Delete) (deleted c));
    [| |by apply sorted_items_perm].
  2:{ intros m p t Hp Hm _. apply step_deleted; [by eapply W3|done|].
      destruct (keptFiles c !! p) as [f|] eqn:Hf; [|done]. exfalso. by eapply H1; [apply Hk|]. }
  assert (afterDeleted (keptFiles c) (dirs c) (deleted c) = afterDeletedDirs (keptFiles c) (dirs c) (deleted c) ∅) as ->
    by (unfold afterDeletedDirs; by rewrite fmap_empty, (right_id_L ∅ (∪))).
  rewrite (foldl_build (afterDeletedDirs (keptFiles c) (dirs c) (deleted c)) applyEntry
    (compactTombstone DeleteDir) (deletedDirs c)); [done| |by apply sorted_items_perm].
  intros m p t Hp Hm _. apply step_deleted_dir; [by eapply W4|done| | |].
  - intros q f Hq. destruct (deleted c !! q) as [t'|] eqn:Ht; [|done]. exfalso. by eapply H1; [apply Hk|].
  - intros q f Hq Hu. eapply H2; [by apply Hk|done..].
  - intros q d Hq Hu. by eapply H3.
Qed.

(** ** Reachable logs *)

Section Reachable.
Context `{Codec : LineCodec Entry}.
Implicit Types (l : LocalOpsLog) (e : Entry).

(** One atomic step.  Writes either succeed or fail to open the file. *)
Inductive log_step : LocalOpsLog -> LocalOpsLog -> Prop :=
| step_Append l io n0 n1 e :
    (forall n, io <> WShort n) -> good_line e -> log_step l (Append io n0 n1 e l).1
| step_AppendLocal l io n0 n1 now e :
    (forall n, io <> WShort n) ->
    good_line (localEntry now e (deviceID l) (int64_wrap (opsSeq l + 1))) ->
    log_step l (AppendLocal io n0 n1 now e l).1
| step_Snapshot l rd n0 n1 : log_step l (getSnapshot rd n0 n1 l).1
| step_Compact l rd io n0 n1 :
    (forall l1 c, getSnapshot rd n0 n1 l = (l1, Ok c) -> Forall good_line (compactEntries c)) ->
    log_step l (Compact rd io n0 n1 l).1
| step_InvalidateCache l : log_step l (InvalidateCache l)
| step_restart l : log_step l (NewLocalOpsLog (opsFile l) (deviceID l)).

Inductive log_reachable (dev : string) : LocalOpsLog -> Prop :=
| reach_new : log_reachable dev (NewLocalOpsLog None dev)
| reach_step l l' : log_reachable dev l -> log_step l l' -> log_reachable dev l'.

(** The log creates no directory. *)
Definition plain_file (f : option string) : Prop := Forall (fun e => createsDir e = false) (file_entries f).

Record log_ok l : Prop := {
  ok_file : well_formed (opsFile l);
  ok_cache : forall c, cache l = Some c -> snapshot_ok c /\ snapshot_whole c;
  ok_replay : forall c, cache l = Some c -> plain_file (opsFile l) ->
    same_tree c (buildSnapshot 0 0 None (file_entries (opsFile l)))
}.

Lemma build_none_ok n0 n1 es : snapshot_ok (buildSnapshot n0 n1 None es) /\ snapshot_whole (buildSnapshot n0 n1 None es).
Proof. split; [by apply replay_snapshot_ok, (replay_is_ok None)|by apply build_whole]. Qed.

Lemma getSnapshot_ok rd n0 n1 l l' r :
  log_ok l -> getSnapshot rd n0 n1 l = (l', r) ->
  log_ok l' /\ opsFile l' = opsFile l /\ deviceID l' = deviceID l /\
  match r with Ok c => cache l' = Some c | Err x => l' = l /\ rd = false end.
Proof.
  intros Hl H. unfold getSnapshot in H. destruct (cache l) as [c|] eqn:Ec; [by simplify_eq|].
  unfold rebuildLocked, readAllLocked in H.
  destruct (read_well_formed rd (opsFile l) (ok_file l Hl)) as [Er|[Er ->]]; rewrite Er in H; simplify_eq/=; [|done].
  destruct (highest _ _ _) as [mr sq]. simplify_eq/=. split; [|done]. split; simpl.
  - apply Hl.
  - intros c [= <-]. apply build_none_ok.
  - intros c [= <-] _. by apply same_tree_replay.
Qed.

Lemma base_same_tree c c' : same_tree c c' -> baseReplay c = baseReplay c'.
Proof. intros (E1 & E2 & E3 & E4 & E5). unfold baseReplay. by rewrite E1, E2, E3, E4, E5. Qed.

(** Both appends: the file grows by the line, the cache moves on by the entry. *)
Lemma append_ok io l e l1 n0 n1 remote sq :
  log_ok l -> good_line e -> appendToFile io l e = (l1, Ok tt) ->
  log_ok (refreshCache n0 n1 e (mkLog (opsFile l1) (deviceID l1) (cache l1) remote sq)).
Proof.
  intros Hl He H. unfold appendToFile in H. destruct io; [|done|done]. cbn [append_file] in H. injection H as <-.
  fold (append_line (opsFile l) e). pose proof (ok_file l Hl) as [Hend _].
  remember (append_line (opsFile l) e) as f' eqn:Ef. split; simpl.
  - subst f'. apply well_formed_append; [apply Hl|done].
  - intros c Hc. destruct (cache l) as [c0|] eqn:E0; [|done]. injection Hc as <-.
    destruct (ok_cache l Hl c0 E0) as [Hok Hw]. split; [by apply replay_snapshot_ok, (replay_is_ok (Some c0))|].
    apply build_whole. by intros ? [= <-].
  - intros c Hc Hp. destruct (cache l) as [c0|] eqn:E0; [|done]. injection Hc as <-.
    unfold plain_file in Hp. subst f'. rewrite file_append in Hp |- * by (done || apply He). apply Forall_app in Hp as [Hp _].
    pose proof (ok_replay l Hl c0 E0 Hp) as Hsame. apply same_tree_replay. unfold replay.
    rewrite foldl_app. f_equal. cbn [startReplay]. rewrite (base_same_tree _ _ Hsame).
    apply plain_rebase; [by apply (replay_is_ok None)|by apply replay_plain].
Qed.

Lemma append_failed io l e l1 x remote sq :
  log_ok l -> (forall n, io <> WShort n) -> appendToFile io l e = (l1, Err x) ->
  log_ok (mkLog (opsFile l1) (deviceID l1) (cache l1) remote sq).
Proof.
  intros [H1 H2 H3] Hio H. unfold appendToFile in H. destruct io; [done| |by destruct (Hio n)].
  cbn [append_file] in H. injection H as <- _. by split.
Qed.

Lemma appendToFile_shape io l e l1 r : appendToFile io l e = (l1, r) ->
  l1 = mkLog (opsFile l1) (deviceID l) (cache l) (lastRemote l) (opsSeq l).
Proof. unfold appendToFile. destruct (append_file _ _ _). by intros [= <- _]. Qed.

Lemma log_step_ok l l' : log_ok l -> log_step l l' -> log_ok l'.
Proof.
  intros Hl Hs. destruct Hs as [l io n0 n1 e Hio He|l io n0 n1 now e Hio He|l rd n0 n1|l rd io n0 n1 Hg|l|l].
  - unfold Append. destruct (appendToFile io l e) as [l1 [[]|x]] eqn:Ha.
    + by eapply append_ok.
    + simpl. pose proof (append_failed _ _ _ _ _ (lastRemote l1) (opsSeq l1) Hl Hio Ha) as H. by destruct l1.
  - unfold AppendLocal. cbn [deviceID opsSeq].
    set (lb := mkLog (opsFile l) (deviceID l) (cache l) (lastRemote l) (int64_wrap (opsSeq l + 1))).
    assert (log_ok lb) as Hb by (destruct Hl; by split).
    destruct (appendToFile io lb _) as [l1 [[]|x]] eqn:Ha.
    + pose proof (append_ok io lb _ l1 n0 n1 (lastRemote l1) (opsSeq l1) Hb He Ha) as H. by destruct l1.
    + simpl. pose proof (append_failed _ _ _ _ _ (lastRemote l1) (opsSeq l1) Hb Hio Ha) as H. by destruct l1.
  - destruct (getSnapshot rd n0 n1 l) as [l' r] eqn:E. by destruct (getSnapshot_ok _ _ _ _ _ _ Hl E).
  - unfold Compact. destruct (getSnapshot rd n0 n1 l) as [l' r] eqn:E.
    destruct (getSnapshot_ok _ _ _ _ _ _ Hl E) as (Hl' & _). destruct r as [c|x]; [|done].
    destruct io; [|done..]. split; simpl; [|done..]. apply well_formed_jsonl. by eapply Hg.
  - destruct Hl as [H _ _]. by split.
  - destruct Hl as [H _ _]. by split.
Qed.

Lemma log_reachable_ok dev l : log_reachable dev l -> log_ok l.
Proof.
  induction 1 as [|l l' _ Hl Hs]; [|by eapply log_step_ok]. split; [apply well_formed_none|done..].
Qed.

(** Reading back a compacted file. *)
Lemma getSnapshot_jsonl rd n0 n1 l es :
  opsFile l = Some (jsonl es) -> cache l = None -> Forall good_line es -> rd = true ->
  exists l2, getSnapshot rd n0 n1 l = (l2, Ok (buildSnapshot n0 n1 None es)).
Proof.
  intros Hf Hc Hg ->. unfold getSnapshot, rebuildLocked, readAllLocked. rewrite Hc, Hf, read_jsonl by done.
  destruct (highest _ _ _). by eexists.
Qed.

Lemma replay_compactEntries c :
  snapshot_ok c -> snapshot_whole c ->
  replay None (compactEntries c) =
    match deletedRoot c with
    | None => afterDeletedDirs (keptFiles c) (dirs c) (deleted c) (deletedDirs c)
    | Some r => applyDeleteRoot (compactTombstone DeleteRoot ("", r))
    end.
Proof.
  intros Hok Hw. rewrite compactEntries_tree. unfold replay. rewrite foldl_app.
  change (foldl applyEntry (startReplay None) (treeEntries c)) with (replay None (treeEntries c)).
  rewrite replay_treeEntries by done. by destruct (deletedRoot c).
Qed.

(** ** Properties *)

(** C25 (invariant). In every state a local log can reach through appends, cache
    rebuilds, compactions, invalidations and restarts, the file is a sequence of
    complete lines, the cached snapshot is well formed, and, while the file
    creates no directory, the cached tree is that of a replay of the file. *)
Theorem fs_log_cache_is_replay dev l c
  (Hreach : log_reachable dev l) (Hcache : cache l = Some c) :
  well_formed (opsFile l) /\ snapshot_ok c /\
  (plain_file (opsFile l) -> same_tree c (buildSnapshot 0 0 None (file_entries (opsFile l)))).
Proof.
  pose proof (log_reachable_ok dev l Hreach) as [H1 H2 H3].
  split; [done|]. split; [by apply H2|by apply H3].
Qed.

(** Compaction of a log without a root tombstone loses only the
    files that have no content yet: reading the rewritten file back gives the
    same directories, tombstones and directory tombstones, and the same files
    less the chunkless ones that are no symlinks. A compaction that fails
    leaves the file as it was. *)
Theorem fs_compact_preserves dev l l1 c n0 n1 m0 m1 io l' r
  (Hreach : log_reachable dev l) (Hsnap : getSnapshot true n0 n1 l = (l1, Ok c))
  (Hgood : Forall good_line (compactEntries c)) (Hroot : deletedRoot c = None)
  (Hrun : Compact true io n0 n1 l = (l', r)) :
  (io <> CIOk -> opsFile l' = opsFile l /\ is_ok r = false) /\
  (io = CIOk -> r = Ok tt /\ exists l2 c', getSnapshot true m0 m1 l' = (l2, Ok c') /\
    files c' = keptFiles c /\ dirs c' = dirs c /\ deleted c' = deleted c /\
    deletedDirs c' = deletedDirs c /\ deletedRoot c' = None).
Proof.
  destruct (getSnapshot_ok _ _ _ _ _ _ (log_reachable_ok _ _ Hreach) Hsnap) as (Hl1 & Hf & _ & Hc).
  destruct (ok_cache l1 Hl1 c Hc) as [Hok Hw]. unfold Compact in Hrun. rewrite Hsnap in Hrun.
  split; intros Hio; destruct io; try done; injection Hrun as <- <-; try (split; [exact Hf|done]).
  split; [done|].
  edestruct (getSnapshot_jsonl true m0 m1) as [l2 Hl2]; [| |exact Hgood|done|eexists _, _; split; [exact Hl2|]];
    [done|done|].
  unfold buildSnapshot. rewrite replay_compactEntries, Hroot by done. by split_and!.
Qed.

(** A compaction after a deletion of the drive empties it: the root
    tombstone is written as the last line, and a replay of the rewritten file
    ends with it, whatever was created since. *)
Theorem fs_compact_after_delete_root dev l l1 c n0 n1 m0 m1 l' t
  (Hreach : log_reachable dev l) (Hsnap : getSnapshot true n0 n1 l = (l1, Ok c))
  (Hgood : Forall good_line (compactEntries c)) (Hroot : deletedRoot c = Some t)
  (Hrun : Compact true CIOk n0 n1 l = (l', Ok tt)) :
  exists l2 c', getSnapshot true m0 m1 l' = (l2, Ok c') /\
    files c' = ∅ /\ dirs c' = ∅ /\ deleted c' = ∅ /\ deletedDirs c' = ∅.
Proof.
  destruct (getSnapshot_ok _ _ _ _ _ _ (log_reachable_ok _ _ Hreach) Hsnap) as (Hl1 & _ & _ & Hc).
  destruct (ok_cache l1 Hl1 c Hc) as [Hok Hw]. unfold Compact in Hrun. rewrite Hsnap in Hrun.
  injection Hrun as <-.
  edestruct (getSnapshot_jsonl true m0 m1) as [l2 Hl2]; [| |exact Hgood|done|eexists _, _; split; [exact Hl2|]];
    [done|done|].
  unfold buildSnapshot. rewrite replay_compactEntries, Hroot by done. by split_and!.
Qed.

End Reachable.

(** ** A concrete codec and concrete logs *)

Definition type_code (t : EntryType) : positive * positive :=
  match t with
  | Put => (1, 1) | Delete => (2, 1) | DeleteDir => (3, 1) | DeleteRoot => (4, 1)
  | CreateDir => (5, 1) | Symlink => (6, 1) | OtherType s => (7, encode s)
  end%positive.

Definition type_decode (p : positive * positive) : option EntryType :=
  match p.1 with
  | 1 => Some Put | 2 => Some Delete | 3 => Some DeleteDir | 4 => Some DeleteRoot
  | 5 => Some CreateDir | 6 => Some Symlink | _ => OtherType <$> decode p.2
  end%positive.

Lemma type_decode_code t : type_decode (type_code t) = Some t.
Proof.
  destruct t; try done. change (OtherType <$> decode (encode s) = Some (OtherType s)).
  by rewrite decode_encode.
Qed.

Definition entry_code (e : Entry) : list positive :=
  [encode (type_code (eType e)); encode (ePath e); encode (eChunks e); encode (eSize e); encode (eChecksum e);
   encode (ePrevChecksum e); encode (eLinkTarget e); encode (eNamespace e); encode (eDevice e);
   encode (eTimestamp e); encode (eSeq e); encode (eClient e)].

Definition entry_decode (ps : list positive) : option Entry :=
  match ps with
  | [a; b; c; d; e; f; g; h; i; j; k; l] =>
      a ← decode a; a ← type_decode a; b ← decode b; c ← decode c; d ← decode d; e ← decode e;
      f ← decode f; g ← decode g; h ← decode h; i ← decode i; j ← decode j; k ← decode k; l ← decode l;
      Some (mkEntry a b c d e f g h i j k l)
  | _ => None
  end.

Lemma fs_entry_decode_code e : entry_decode (entry_code e) = Some e.
Proof.
  unfold entry_code, entry_decode. rewrite !decode_encode. simpl. rewrite type_decode_code. by destruct e.
Qed.

Definition demoCodec : LineCodec Entry := bits_codec entry_code entry_decode fs_entry_decode_code.

Section Demo.
#[local] Existing Instance demoCodec.

Definition put (path : string) (ts : Z) : Entry := demoEntry Put path "" ts "S" "".
Definition del (path : string) (ts : Z) : Entry := demoEntry Delete path "" ts "" "".

Definition demoL0 : LocalOpsLog := NewLocalOpsLog None "D-a".
Definition demoL1 : LocalOpsLog := (AppendLocal WOk 0 0 0 (put "a/x" 10) demoL0).1.
Definition demoL2 : LocalOpsLog := (getSnapshot true 0 0 demoL1).1.
Definition demoL3 : LocalOpsLog := (AppendLocal WOk 0 0 0 (put "b" 11) demoL2).1.
Definition demoC3 : Snapshot := default (buildSnapshot 0 0 None []) (cache demoL3).

Lemma demo_good e : (slen (marshal e) <? maxTokenSize) = true -> good_line e.
Proof. intros H. split; [exact I|by apply Z.ltb_lt]. Qed.

Lemma demo_reach : log_reachable "D-a" demoL3.
Proof.
  eapply reach_step; [|by apply (step_AppendLocal demoL2 WOk 0 0 0 (put "b" 11)); [|apply demo_good]].
  eapply reach_step; [|by apply (step_Snapshot demoL1 true 0 0)].
  eapply reach_step; [apply reach_new|by apply (step_AppendLocal demoL0 WOk 0 0 0 (put "a/x" 10)); [|apply demo_good]].
Qed.

Lemma fs_demo_warm : cache demoL3 = Some demoC3.
Proof. vm_compute. reflexivity. Qed.

Lemma demo_snapshot : getSnapshot true 0 0 demoL3 = (demoL3, Ok demoC3).
Proof. vm_compute. reflexivity. Qed.

Lemma demo_goods es : forallb (fun e => slen (marshal e) <? maxTokenSize) es = true -> Forall good_line es.
Proof.
  rewrite forallb_forall, Forall_forall. intros H e He. apply demo_good. by apply H, list_elem_of_In.
Qed.

Lemma fs_log_cache_is_replay_witness :
  cache demoL3 = Some demoC3 /\ well_formed (opsFile demoL3).
Proof. exact (conj fs_demo_warm (proj1 (fs_log_cache_is_replay "D-a" demoL3 demoC3 demo_reach fs_demo_warm))). Defined.

Lemma fs_demo_compact : Compact true CIOk 0 0 demoL3 = ((Compact true CIOk 0 0 demoL3).1, Ok tt).
Proof. vm_compute. reflexivity. Qed.

Lemma fs_demo_compact_good : Forall good_line (compactEntries demoC3).
Proof. apply demo_goods. vm_compute. reflexivity. Qed.

Lemma fs_compact_preserves_witness :
  exists l2 c', getSnapshot true 0 0 (Compact true CIOk 0 0 demoL3).1 = (l2, Ok c') /\
    files c' = keptFiles demoC3 /\ dirs c' = dirs demoC3 /\ deleted c' = deleted demoC3 /\
    deletedDirs c' = deletedDirs demoC3 /\ deletedRoot c' = None.
Proof.
  exact (proj2 (proj2 (fs_compact_preserves "D-a" demoL3 demoL3 demoC3 0 0 0 0 CIOk _ _ demo_reach
    demo_snapshot fs_demo_compact_good ltac:(vm_compute; reflexivity) fs_demo_compact) eq_refl)).
Defined.

(** A drive deleted at 12 and used again at 13. *)
Definition demoL4 : LocalOpsLog := (AppendLocal WOk 0 0 0 (demoEntry DeleteRoot "" "" 12 "" "") demoL3).1.
Definition demoL5 : LocalOpsLog := (AppendLocal WOk 0 0 0 (put "new" 13) demoL4).1.
Definition demoC5 : Snapshot := default (buildSnapshot 0 0 None []) (cache demoL5).
Definition demoRoot : TombstoneInfo := mkTombstone "Test" "D-a" 3 (time_Unix 12) "".

Lemma demo_reach5 : log_reachable "D-a" demoL5.
Proof.
  eapply reach_step; [|by apply (step_AppendLocal demoL4 WOk 0 0 0 (put "new" 13)); [|apply demo_good]].
  eapply reach_step; [exact demo_reach|].
  by apply (step_AppendLocal demoL3 WOk 0 0 0 (demoEntry DeleteRoot "" "" 12 "" "")); [|apply demo_good].
Qed.

Lemma demo_compact_good5 : Forall good_line (compactEntries demoC5).
Proof. apply demo_goods. vm_compute. reflexivity. Qed.

Lemma demo_snapshot5 : getSnapshot true 0 0 demoL5 = (demoL5, Ok demoC5).
Proof. vm_compute. reflexivity. Qed.

Lemma demo_compact5 : Compact true CIOk 0 0 demoL5 = ((Compact true CIOk 0 0 demoL5).1, Ok tt).
Proof. vm_compute. reflexivity. Qed.

Lemma demo_new_file : is_Some (Lookup demoC5 "new").
Proof. eexists. vm_compute. reflexivity. Qed.

(** The file was there before the compaction. *)
Lemma fs_compact_after_delete_root_witness :
  is_Some (Lookup demoC5 "new") /\
  exists l2 c', getSnapshot true 0 0 (Compact true CIOk 0 0 demoL5).1 = (l2, Ok c') /\
    files c' = ∅ /\ dirs c' = ∅ /\ deleted c' = ∅ /\ deletedDirs c' = ∅.
Proof.
  exact (conj demo_new_file (fs_compact_after_delete_root "D-a" demoL5 demoL5 demoC5 0 0 0 0 _ demoRoot demo_reach5
    demo_snapshot5 demo_compact_good5 ltac:(vm_compute; reflexivity) demo_compact5)).
Defined.

(** The counter of a restarted log starts again until the file is read: an
    entry appended before the first [Snapshot] reuses a clock, and a deletion
    within the same second is lost. *)
Lemma fs_restart_reuses_seq :
  let l1 := (AppendLocal WOk 0 0 0 (put "f" 10) demoL0).1 in
  let l2 := NewLocalOpsLog (opsFile l1) (deviceID l1) in
  let '(l3, r) := AppendLocal WOk 0 0 0 (del "f" 10) l2 in
  r = Ok tt /\ opsSeq l3 = 1 /\ fiSeq <$> (logLookup true 0 0 "f" l3).2 = Some 1.
Proof. vm_compute. split_and!; reflexivity. Qed.

End Demo.
