(* ===== verification/FsOutbox.v ===== *)
(** * The outbox of the file sync (pkg/fs/synclog.go, outbox_worker.go)

    Local changes wait in a persistent queue, a [SyncLog], until the worker has
    uploaded the content and recorded the change in the local operations log.
    One turn of [drain] is a function of the queue, the log and an environment
    that holds the outcomes of the file system, of the store and of the clock. *)

From stdpp Require Import base numbers list gmap strings.
From S2P Require Import Prelude GoStrings JsonLines FsOps FsLocalLog.

(** ** The queue (synclog.go) *)

(** The lines the scanner delivers before one that overflows its buffer. *)
Fixpoint lines_before_long (ls : list string) : list string :=
  match ls with
  | [] => []
  | l :: ls => if maxTokenSize <=? slen l then [] else l :: lines_before_long ls
  end.

(** Rewriting truncates the file first; later write errors are ignored.
    [RWShort n] is a disk that takes [n] bytes. *)
Inductive RewriteIO := RWOk | RWCreateFails | RWShort (n : nat).

Section SyncLog.
Context `{Codec : LineCodec T}.

Definition syncAppend (io : WriteIO) (f : option string) (e : T) : option string * result LogErr unit :=
  append_file io f e.

Definition ReadAll (rd : bool) (f : option string) : result LogErr (list T) := read_lines rd f.

Definition writeAllUnlocked (io : RewriteIO) (f : option string) (entries : list T)
  : option string * result LogErr unit :=
  match io with
  | RWCreateFails => (f, Err ErrCreate)
  | RWOk => (Some (jsonl entries), Ok tt)
  | RWShort n => (Some (str_take n (jsonl entries)), Ok tt)
  end.

Definition Remove (rd : bool) (io : RewriteIO) (f : option string) (matchFn : T -> bool)
  : option string * result LogErr unit :=
  match ReadAll rd f with
  | Err x => (f, Err x)
  | Ok entries => writeAllUnlocked io f (filter (fun e => matchFn e = false) entries)
  end.

(** The error of [ReadAll] is dropped; the entries read before it are counted. *)
Definition logLen (rd : bool) (f : option string) : Z :=
  match f with
  | None => 0
  | Some f =>
      if negb rd then 0
      else Z.of_nat (length (omap (readable_line (A := T)) (lines_before_long (scan_lines f))))
  end.

(** [os.Remove] fails when there is no file. *)
Definition Clear (f : option string) : option string * result LogErr unit :=
  match f with Some _ => (None, Ok tt) | None => (None, Err ErrOpen) end.

End SyncLog.

(** ** The worker (outbox_worker.go) *)

Inductive OpType := OpPut | OpDelete | OpDeleteDir | OpCreateDir | OpSymlink | OpOther (s : string).

Record OutboxEntry := mkOutboxEntry {
  oOp : OpType;
  oPath : string;
  oChecksum : string;
  oLinkTarget : string;
  oNamespace : string;
  oLocalPath : string;
  oTimestamp : Z
}.

Definition NewOutboxPut (now : Time) (path checksum namespace localPath : string) : OutboxEntry :=
  mkOutboxEntry OpPut path checksum "" namespace localPath (unix_seconds now).
Definition NewOutboxDelete (now : Time) (path checksum namespace : string) : OutboxEntry :=
  mkOutboxEntry OpDelete path checksum "" namespace "" (unix_seconds now).

Inductive outboxProcessResult := outboxProcessApplied | outboxProcessRetry | outboxProcessSuperseded.

Definition outboxResultFromBool (ok : bool) : outboxProcessResult :=
  if ok then outboxProcessApplied else outboxProcessRetry.

(** The outcome of [stableFileChecksum] and of [os.Open] on the local file. *)
Inductive CheckIO := CkMissing | CkFails | Ck (checksum : string) (stable : bool).
Inductive OpenIO := OpOk | OpMissing | OpFails.

Record PutResult := mkPutResult { prChunks : option (list string); prSize : Z; prChecksum : string }.

(** [envPut] is [None] when the upload fails, and [Some r] with the result the
    store then reports; [envRead] and the four readings of the clock serve the
    snapshot of the local log. *)
Record Env := mkEnv {
  envCheck : CheckIO;
  envOpen : OpenIO;
  envPut : option (option PutResult);
  envNow : Time;
  envQueueRead : bool;
  envQueueIO : WriteIO;
  envRewriteIO : RewriteIO;
  envLogRead : bool;
  envLogIO : WriteIO;
  envN0 : Time;
  envN1 : Time
}.

Record Worker := mkWorker { wOutbox : option string; wLog : LocalOpsLog }.

Section Worker.
Context `{QCodec : LineCodec OutboxEntry} `{LCodec : LineCodec Entry}.

(** [w.localLog.AppendLocal]; the caller decides what an error means. *)
Definition record (env : Env) (e : Entry) (w : Worker) : Worker * bool :=
  let '(l, r) := AppendLocal (envLogIO env) (envN0 env) (envN1 env) (envNow env) e (wLog w) in
  (mkWorker (wOutbox w) l, is_ok r).

(** The checksum of the path in the local log, or the empty string. *)
Definition lookupChecksum (env : Env) (path : string) (w : Worker) : Worker * string :=
  let '(l, fi) := logLookup (envLogRead env) (envN0 env) (envN1 env) path (wLog w) in
  (mkWorker (wOutbox w) l, from_option fiChecksum "" fi).

(** An entry with the fields the worker sets; the log stamps the rest. *)
Definition newEntry (ty : EntryType) (q : OutboxEntry) (chunks : option (list string)) (size : Z)
  (checksum prev link : string) (ts : Z) : Entry :=
  mkEntry ty (oPath q) chunks size checksum prev link (oNamespace q) "" ts 0 "".

Definition recordDeleteForMissingFile (env : Env) (q : OutboxEntry) (w : Worker) : Worker * outboxProcessResult :=
  let '(w, _) := record env (newEntry Delete q None 0 "" (oChecksum q) "" 0) w in
  (w, outboxProcessApplied).

Definition refreshPutEntry (env : Env) (q : OutboxEntry) (checksum : string) (w : Worker) : Worker * bool :=
  let refreshed := mkOutboxEntry (oOp q) (oPath q) checksum (oLinkTarget q) (oNamespace q) (oLocalPath q)
                     (unix_seconds (envNow env)) in
  let '(f, r) := syncAppend (envQueueIO env) (wOutbox w) refreshed in
  (mkWorker f (wLog w), is_ok r).

Definition uploadFile (env : Env) (q : OutboxEntry) (w : Worker) : Worker * outboxProcessResult :=
  match envCheck env with
  | CkFails => (w, outboxProcessRetry)
  | CkMissing => recordDeleteForMissingFile env q w
  | Ck currentChecksum stable =>
      if negb stable then (w, outboxProcessRetry)
      else if bool_decide (oChecksum q <> "") && bool_decide (currentChecksum <> oChecksum q) then
        let '(w, ok) := refreshPutEntry env q currentChecksum w in
        (w, if ok then outboxProcessSuperseded else outboxProcessRetry)
      else match envOpen env with
      | OpFails => (w, outboxProcessRetry)
      | OpMissing => recordDeleteForMissingFile env q w
      | OpOk =>
          let '(w, prevChecksum) := lookupChecksum env (oPath q) w in
          match envPut env with
          | None => (w, outboxProcessRetry)
          | Some None => (w, outboxProcessRetry)
          | Some (Some res) =>
              if bool_decide (oChecksum q <> "") && bool_decide (prChecksum res <> oChecksum q)
              then (w, outboxProcessRetry)
              else
                let '(w, _) := record env (newEntry Put q (prChunks res) (prSize res) (prChecksum res)
                                             prevChecksum "" (oTimestamp q)) w in
                (w, outboxProcessApplied)
          end
      end
  end.

Definition writeCreateDirOp (env : Env) (q : OutboxEntry) (w : Worker) : Worker * bool :=
  record env (newEntry CreateDir q None 0 "" "" "" (oTimestamp q)) w.

Definition writeDeleteDirOp (env : Env) (q : OutboxEntry) (w : Worker) : Worker * bool :=
  record env (newEntry DeleteDir q None 0 "" "" "" (oTimestamp q)) w.

Definition writeSymlinkOp (env : Env) (q : OutboxEntry) (w : Worker) : Worker * bool :=
  let '(w, prevChecksum) := lookupChecksum env (oPath q) w in
  record env (newEntry Symlink q None 0 (oChecksum q) prevChecksum (oLinkTarget q) (oTimestamp q)) w.

Definition writeDeleteOp (env : Env) (q : OutboxEntry) (w : Worker) : Worker * bool :=
  let '(w, prevChecksum) :=
    if bool_decide (oChecksum q = "") then lookupChecksum env (oPath q) w else (w, oChecksum q) in
  record env (newEntry Delete q None 0 "" prevChecksum "" (oTimestamp q)) w.

(** The switch of [drain]; an unknown op leaves [result] at its zero value. *)
Definition processEntry (env : Env) (q : OutboxEntry) (w : Worker) : Worker * outboxProcessResult :=
  let fromBool '(w, ok) := (w, outboxResultFromBool ok) in
  match oOp q with
  | OpPut => uploadFile env q w
  | OpDelete => fromBool (writeDeleteOp env q w)
  | OpDeleteDir => fromBool (writeDeleteDirOp env q w)
  | OpCreateDir => fromBool (writeCreateDirOp env q w)
  | OpSymlink => fromBool (writeSymlinkOp env q w)
  | OpOther _ => (w, outboxProcessApplied)
  end.

(** Which entries leave the queue with [q]. *)
Definition sameEntry (q e : OutboxEntry) : bool :=
  bool_decide (oPath e = oPath q) && bool_decide (oTimestamp e = oTimestamp q).

(** What one turn of the loop of [drain] ended with. *)
Inductive turn := Stopped | Emptied | Processed (q : OutboxEntry) (r : outboxProcessResult).

Definition drainTurn (env : Env) (w : Worker) : Worker * turn :=
  match ReadAll (envQueueRead env) (wOutbox w) with
  | Err _ => (w, Stopped)
  | Ok [] => (w, Emptied)
  | Ok (q :: _) =>
      let '(w, r) := processEntry env q w in
      match r with
      | outboxProcessRetry => (w, Processed q r)
      | _ => (mkWorker (Remove (envQueueRead env) (envRewriteIO env) (wOutbox w) (sameEntry q)).1 (wLog w),
              Processed q r)
      end
  end.

(** The loop, one environment per turn; it ends when the queue is empty, when
    it cannot be read, or with the context. *)
Fixpoint drain (envs : list Env) (w : Worker) : Worker * list turn :=
  match envs with
  | [] => (w, [])
  | env :: envs =>
      let '(w, t) := drainTurn env w in
      match t with
      | Stopped | Emptied => (w, [t])
      | Processed _ _ => let '(w, ts) := drain envs w in (w, t :: ts)
      end
  end.

End Worker.

(** ** One turn *)

Section Facts.
Context `{QCodec : LineCodec OutboxEntry} `{LCodec : LineCodec Entry}.
Implicit Types (w : Worker) (q e : OutboxEntry) (env : Env).

Definition queue w : list OutboxEntry := file_entries (wOutbox w).

Record queue_ok w : Prop := {
  q_lines : well_formed (wOutbox w);
  q_good : Forall good_line (queue w)
}.

Definition key_of q : string * Z := (oPath q, oTimestamp q).

Lemma sameEntry_key q e : sameEntry q e = true <-> key_of e = key_of q.
Proof.
  unfold sameEntry, key_of. rewrite andb_true_iff, !bool_decide_eq_true. split; [by intros [-> ->]|by intros [= -> ->]].
Qed.

(** The queue without the entries that match [q]. *)
Definition others q es : list OutboxEntry := filter (fun e => sameEntry q e = false) es.

Lemma Remove_ok w q :
  queue_ok w -> queue_ok (mkWorker (Remove true RWOk (wOutbox w) (sameEntry q)).1 (wLog w)) /\
  file_entries (Remove true RWOk (wOutbox w) (sameEntry q)).1 = others q (queue w).
Proof.
  intros [Hf Hg]. unfold Remove, ReadAll.
  destruct (read_well_formed (A := OutboxEntry) true (wOutbox w) Hf) as [->|[_ ?]]; [|done]. cbn [writeAllUnlocked fst].
  fold (queue w). fold (others q (queue w)).
  assert (Forall good_line (others q (queue w))) as Hg'.
  { rewrite Forall_forall in Hg |- *. intros x Hx. apply Hg. unfold others in Hx. by apply list_elem_of_filter in Hx as [_ ?]. }
  assert (file_entries (Some (jsonl (others q (queue w)))) = others q (queue w)) as E.
  { apply file_entries_jsonl. eapply Forall_impl; [done|]. by intros x [? _]. }
  split; [|done]. split; [by apply well_formed_jsonl|]. unfold queue at 1. cbn [wOutbox]. by rewrite E.
Qed.

(** [drainTurn] at the head of a readable queue. *)
Lemma drainTurn_head env w q rest :
  queue_ok w -> envQueueRead env = true -> queue w = q :: rest ->
  drainTurn env w =
    let '(w, r) := processEntry env q w in
    match r with
    | outboxProcessRetry => (w, Processed q r)
    | _ => (mkWorker (Remove true (envRewriteIO env) (wOutbox w) (sameEntry q)).1 (wLog w), Processed q r)
    end.
Proof.
  intros Hw Hr Hq. unfold drainTurn, ReadAll. rewrite Hr.
  destruct (read_well_formed (A := OutboxEntry) true (wOutbox w) (q_lines w Hw)) as [->|[_ ?]]; [|done].
  fold (queue w). by rewrite Hq.
Qed.

Lemma logLookup_file rd n0 n1 path l l' fi :
  logLookup rd n0 n1 path l = (l', fi) -> opsFile l' = opsFile l /\ deviceID l' = deviceID l.
Proof.
  unfold logLookup, getSnapshot, rebuildLocked. destruct (cache l); [by intros [= <- _]|].
  destruct (readAllLocked rd l); [destruct (highest _ _ _)|]; by intros [= <- _].
Qed.

Lemma lookupChecksum_file env path w w' s :
  lookupChecksum env path w = (w', s) ->
  wOutbox w' = wOutbox w /\ opsFile (wLog w') = opsFile (wLog w) /\ deviceID (wLog w') = deviceID (wLog w).
Proof.
  unfold lookupChecksum. destruct (logLookup _ _ _ _ _) as [l fi] eqn:E. intros [= <- _]. simpl.
  split; [done|]. by eapply logLookup_file.
Qed.

(** What the log records for a queue entry. *)
Definition opEntryType (op : OpType) : EntryType :=
  match op with
  | OpPut => Put | OpDelete => Delete | OpDeleteDir => DeleteDir | OpCreateDir => CreateDir
  | OpSymlink => Symlink | OpOther s => OtherType s
  end.

Record recorded (dev : string) q (r : Entry) : Prop := {
  rec_path : ePath r = oPath q;
  rec_type : eType r = opEntryType (oOp q);
  rec_time : eTimestamp r = oTimestamp q;
  rec_device : eDevice r = dev;
  rec_namespace : eNamespace r = oNamespace q;
  rec_checksum : oOp q = OpPut \/ oOp q = OpSymlink -> eChecksum r = oChecksum q;
  rec_link : oOp q = OpSymlink -> eLinkTarget r = oLinkTarget q
}.

Lemma record_ok env (e : Entry) w w' (ok : bool) :
  envLogIO env = WOk -> record env e w = (w', ok) ->
  ok = true /\ wOutbox w' = wOutbox w /\ deviceID (wLog w') = deviceID (wLog w) /\
  exists sq, opsFile (wLog w')
    = append_line (opsFile (wLog w)) (localEntry (envNow env) e (deviceID (wLog w)) sq).
Proof.
  intros Hio. unfold record, AppendLocal, appendToFile. rewrite Hio. cbn [append_file].
  intros [= <- <-]. cbn [wOutbox wLog refreshCache opsFile deviceID]. split_and!; try done. by eexists.
Qed.

(** A record of the same file system call, whatever was looked up before. *)
Lemma record_after env w w1 q ty chunks size checksum prev link w' ok :
  record env (newEntry ty q chunks size checksum prev link (oTimestamp q)) w1 = (w', ok) ->
  envLogIO env = WOk -> oTimestamp q <> 0 ->
  wOutbox w1 = wOutbox w /\ opsFile (wLog w1) = opsFile (wLog w) /\ deviceID (wLog w1) = deviceID (wLog w) ->
  ty = opEntryType (oOp q) ->
  (oOp q = OpPut \/ oOp q = OpSymlink -> checksum = oChecksum q) -> (oOp q = OpSymlink -> link = oLinkTarget q) ->
  ok = true /\ wOutbox w' = wOutbox w /\ deviceID (wLog w') = deviceID (wLog w) /\
  exists r, opsFile (wLog w') = append_line (opsFile (wLog w)) r /\ recorded (deviceID (wLog w)) q r.
Proof.
  intros H Hio Hts (E1 & E2 & E3) Hty Hck Hln. destruct (record_ok _ _ _ _ _ Hio H) as (-> & Ho & Hd & sq & Hf).
  rewrite E1 in Ho. rewrite E3 in Hd. rewrite E2, E3 in Hf. split_and!; try done. eexists. split; [exact Hf|].
  split; simpl; try done. by rewrite (proj2 (Z.eqb_neq _ _) Hts).
Qed.

(** The environment of an undisturbed turn for [q]. *)
Record smooth env q : Prop := {
  s_read : envQueueRead env = true;
  s_rewrite : envRewriteIO env = RWOk;
  s_log : envLogIO env = WOk;
  s_op : forall s, oOp q <> OpOther s;
  s_time : oTimestamp q <> 0;
  s_put : oOp q = OpPut -> envCheck env = Ck (oChecksum q) true /\ envOpen env = OpOk /\
    exists res, envPut env = Some (Some res) /\ prChecksum res = oChecksum q
}.

Lemma processEntry_smooth env q w w' r :
  smooth env q -> processEntry env q w = (w', r) ->
  r = outboxProcessApplied /\ wOutbox w' = wOutbox w /\ deviceID (wLog w') = deviceID (wLog w) /\
  exists rec, opsFile (wLog w') = append_line (opsFile (wLog w)) rec /\ recorded (deviceID (wLog w)) q rec.
Proof.
  intros [_ _ Hlog Hop Hts Hput] H. unfold processEntry in H. destruct (oOp q) eqn:Eop.
  - destruct Hput as (Hc & Ho & res & Hp & Hck); [done|]. unfold uploadFile in H. rewrite Hc, Ho, Hp in H.
    cbn [negb] in H. rewrite andb_comm, bool_decide_eq_false_2 in H by tauto. cbn [andb] in H.
    destruct (lookupChecksum env (oPath q) w) as [w1 prev] eqn:El. rewrite Hck in H.
    rewrite andb_comm, bool_decide_eq_false_2 in H by tauto. cbn [andb] in H.
    destruct (record _ _ _) as [w2 ok] eqn:Er. injection H as <- <-.
    apply lookupChecksum_file in El. destruct (record_after _ w _ _ _ _ _ _ _ _ _ _ Er Hlog Hts El ltac:(by rewrite Eop)
      ltac:(done) ltac:(rewrite Eop; naive_solver)) as (_ & ? & ? & ?); done.
  - unfold writeDeleteOp in H.
    destruct (if bool_decide (oChecksum q = "") then _ else _) as [w1 prev] eqn:El.
    destruct (record _ _ _) as [w2 ok] eqn:Er. injection H as <- <-.
    assert (wOutbox w1 = wOutbox w /\ opsFile (wLog w1) = opsFile (wLog w) /\ deviceID (wLog w1) = deviceID (wLog w)) as E.
    { destruct (bool_decide _); [by eapply lookupChecksum_file|]. by injection El as <- _. }
    destruct (record_after _ w _ _ _ _ _ _ _ _ _ _ Er Hlog Hts E ltac:(by rewrite Eop)
      ltac:(rewrite Eop; naive_solver) ltac:(rewrite Eop; naive_solver)) as (-> & ? & ? & ?); done.
  - destruct (writeDeleteDirOp env q w) as [w2 ok] eqn:Er. injection H as <- <-.
    destruct (record_after _ w _ _ _ _ _ _ _ _ _ _ Er Hlog Hts (conj eq_refl (conj eq_refl eq_refl)) ltac:(by rewrite Eop)
      ltac:(rewrite Eop; naive_solver) ltac:(rewrite Eop; naive_solver)) as (-> & ? & ? & ?); done.
  - destruct (writeCreateDirOp env q w) as [w2 ok] eqn:Er. injection H as <- <-.
    destruct (record_after _ w _ _ _ _ _ _ _ _ _ _ Er Hlog Hts (conj eq_refl (conj eq_refl eq_refl)) ltac:(by rewrite Eop)
      ltac:(rewrite Eop; naive_solver) ltac:(rewrite Eop; naive_solver)) as (-> & ? & ? & ?); done.
  - unfold writeSymlinkOp in H. destruct (lookupChecksum env (oPath q) w) as [w1 prev] eqn:El.
    destruct (record _ _ _) as [w2 ok] eqn:Er. injection H as <- <-. apply lookupChecksum_file in El.
    destruct (record_after _ w _ _ _ _ _ _ _ _ _ _ Er Hlog Hts El ltac:(by rewrite Eop)
      ltac:(done) ltac:(done)) as (-> & ? & ? & ?); done.
  - by destruct (Hop s).
Qed.

Lemma drainTurn_smooth env w q rest :
  queue_ok w -> queue w = q :: rest -> smooth env q ->
  exists w' rec, drainTurn env w = (w', Processed q outboxProcessApplied) /\
    queue_ok w' /\ queue w' = others q (q :: rest) /\ deviceID (wLog w') = deviceID (wLog w) /\
    opsFile (wLog w') = append_line (opsFile (wLog w)) rec /\ recorded (deviceID (wLog w)) q rec.
Proof.
  intros Hw Hq Hs. rewrite (drainTurn_head env w q rest Hw (s_read _ _ Hs) Hq).
  destruct (processEntry env q w) as [w1 r] eqn:Ep.
  destruct (processEntry_smooth _ _ _ _ _ Hs Ep) as (-> & Ho & Hd & rec & Hf & Hrec).
  rewrite (s_rewrite _ _ Hs). assert (queue_ok w1) as Hw1.
  { destruct Hw as [H1 H2]. split; [by rewrite Ho|]. unfold queue in *. by rewrite Ho. }
  destruct (Remove_ok w1 q Hw1) as [Hok Hrest]. eexists _, rec. split; [done|].
  split_and!; try done. unfold queue. cbn [wOutbox]. rewrite Hrest. unfold queue. rewrite Ho.
  unfold queue in Hq. by rewrite Hq.
Qed.

Lemma others_head q rest : NoDup (key_of <$> (q :: rest)) -> others q (q :: rest) = rest.
Proof.
  intros Hnd. simpl in Hnd. apply NoDup_cons in Hnd as [Hq _]. unfold others. rewrite filter_cons.
  assert (sameEntry q q = true) as Hqq by (by apply sameEntry_key). rewrite decide_False by (by rewrite Hqq).
  assert (forall l : list OutboxEntry, (forall e, e ∈ l -> key_of e <> key_of q) -> filter (fun e => sameEntry q e = false) l = l) as H.
  { induction l as [|e l IH]; intros Hl; [done|]. rewrite filter_cons, decide_True.
    - f_equal. apply IH. intros e' He'. apply Hl. by apply list_elem_of_further.
    - apply not_true_iff_false. rewrite sameEntry_key. apply Hl. apply list_elem_of_here. }
  apply H. intros e He E. apply Hq. rewrite <- E. by apply list_elem_of_fmap_2.
Qed.

Lemma drain_smooth w es envs last :
  queue_ok w -> queue w = es -> NoDup (key_of <$> es) -> Forall2 smooth envs es -> envQueueRead last = true ->
  exists w' ts recs, drain (envs ++ [last]) w = (w', ts) /\ queue w' = [] /\
    opsFile (wLog w') = foldl append_line (opsFile (wLog w)) recs /\
    Forall2 (recorded (deviceID (wLog w))) es recs /\ length ts = S (length es).
Proof.
  intros Hw Hq Hnd Hs Hlast. revert w Hw Hq. induction Hs as [|env q envs es Hq1 Hs IH]; intros w Hw Hq.
  - exists w, [Emptied], []. split; [|done]. cbn [app drain]. unfold drainTurn, ReadAll. rewrite Hlast.
    destruct (read_well_formed (A := OutboxEntry) true (wOutbox w) (q_lines w Hw)) as [->|[_ ?]]; [|done].
    fold (queue w). by rewrite Hq.
  - destruct (drainTurn_smooth env w q es Hw Hq Hq1) as (w1 & rec & Ht & Hw1 & Hq' & Hd & Hf & Hrec).
    rewrite others_head in Hq' by done. pose proof Hnd as Hnd'. simpl in Hnd'. apply NoDup_cons in Hnd' as [_ Hnd'].
    destruct (IH Hnd' w1 Hw1 Hq') as (w2 & ts & recs & Hdr & He & Hfs & Hrecs & Hlen).
    exists w2, (Processed q outboxProcessApplied :: ts), (rec :: recs).
    cbn [app drain]. rewrite Ht, Hdr. split_and!; try done.
    + simpl. by rewrite <- Hf.
    + constructor; [done|]. by rewrite <- Hd.
    + simpl. by rewrite Hlen.
Qed.

(** ** Properties *)

(** C30 (termination). Draining an undisturbed queue ends: when no two entries
    share path and second, as many turns as there are entries leave it empty,
    the next turn sees it empty and stops, and the log has grown by one line
    per entry, in the order of the queue, each with the path, the kind, the
    time and the content of its entry. *)
Theorem fs_outbox_drains w es envs last
  (Hw : queue_ok w) (Hq : queue w = es) (Hkeys : NoDup (key_of <$> es))
  (Hsmooth : Forall2 smooth envs es) (Hlast : envQueueRead last = true) :
  exists w' ts recs, drain (envs ++ [last]) w = (w', ts) /\ queue w' = [] /\
    opsFile (wLog w') = foldl append_line (opsFile (wLog w)) recs /\
    Forall2 (recorded (deviceID (wLog w))) es recs /\ length ts = S (length es).
Proof. by apply drain_smooth. Qed.

(** A turn that does not retry removes every entry of the same path
    and second, not only the one it has processed: a later entry that shares
    them leaves the queue although the log has one line only, for the first. *)
Theorem fs_outbox_same_second env w q rest e
  (Hw : queue_ok w) (Hq : queue w = q :: rest) (Hs : smooth env q)
  (He : e ∈ rest) (Hkey : key_of e = key_of q) :
  exists w' rec, drainTurn env w = (w', Processed q outboxProcessApplied) /\ e ∉ queue w' /\
    opsFile (wLog w') = append_line (opsFile (wLog w)) rec /\ recorded (deviceID (wLog w)) q rec.
Proof.
  destruct (drainTurn_smooth env w q rest Hw Hq Hs) as (w' & rec & Ht & _ & Hq' & _ & Hf & Hrec).
  exists w', rec. split_and!; try done. rewrite Hq'. unfold others. rewrite list_elem_of_filter.
  intros [Hsame _]. apply sameEntry_key in Hkey. congruence.
Qed.

(** A file that changes again within the second it was queued in is forgotten:
    the refreshed entry goes with the stale one. *)
Lemma refresh_same_second env w q rest c :
  queue_ok w -> queue w = q :: rest -> oOp q = OpPut -> envQueueRead env = true -> envQueueIO env = WOk ->
  envRewriteIO env = RWOk -> envCheck env = Ck c true -> oChecksum q <> "" -> c <> oChecksum q ->
  unix_seconds (envNow env) = oTimestamp q ->
  good_line (mkOutboxEntry OpPut (oPath q) c (oLinkTarget q) (oNamespace q) (oLocalPath q) (oTimestamp q)) ->
  exists w', drainTurn env w = (w', Processed q outboxProcessSuperseded) /\ wLog w' = wLog w /\
    forall e, e ∈ queue w' -> key_of e <> key_of q.
Proof.
  intros Hw Hq Hop Hr Hio Hrw Hck Hne Hc Hnow Hg. rewrite (drainTurn_head env w q rest Hw Hr Hq).
  unfold processEntry, uploadFile. rewrite Hop, Hck. cbn [negb].
  rewrite !bool_decide_eq_true_2 by done. cbn [andb]. unfold refreshPutEntry, syncAppend.
  rewrite Hio, append_file_ok, Hop, Hnow, Hrw. cbn [is_ok wOutbox wLog].
  set (r := mkOutboxEntry _ _ _ _ _ _ _) in *. set (w1 := mkWorker (append_line (wOutbox w) r) (wLog w)).
  destruct Hw as [Hf Hgs]. assert (queue w1 = queue w ++ [r]) as Hq1 by (apply file_append; [apply Hf|apply Hg]).
  assert (queue_ok w1) as Hw1.
  { split; [by apply well_formed_append|]. rewrite Hq1. apply Forall_app_2; [done|by constructor]. }
  destruct (Remove_ok w1 q Hw1) as [_ Hrest]. eexists. split; [done|]. split; [done|].
  intros e He E. unfold queue in He. cbn [wOutbox] in He. change (append_line (wOutbox w) r) with (wOutbox w1) in He.
  rewrite Hrest in He. unfold others in He. apply list_elem_of_filter in He as [Hsame _].
  apply sameEntry_key in E. congruence.
Qed.

(** An upload whose record cannot be written leaves the queue all the same. *)
Lemma upload_unrecorded env w q rest res :
  queue_ok w -> queue w = q :: rest -> oOp q = OpPut -> envQueueRead env = true -> envRewriteIO env = RWOk ->
  envCheck env = Ck (oChecksum q) true -> envOpen env = OpOk -> envPut env = Some (Some res) ->
  prChecksum res = oChecksum q -> envLogIO env = WOpenFails ->
  exists w', drainTurn env w = (w', Processed q outboxProcessApplied) /\ opsFile (wLog w') = opsFile (wLog w) /\
    q ∉ queue w'.
Proof.
  intros Hw Hq Hop Hr Hrw Hck Ho Hp Hres Hlog. rewrite (drainTurn_head env w q rest Hw Hr Hq).
  unfold processEntry, uploadFile. rewrite Hop, Hck, Ho, Hp, Hres, Hrw. cbn [negb].
  rewrite (andb_comm (bool_decide (oChecksum q <> ""))), bool_decide_eq_false_2 by tauto. cbn [andb].
  destruct (lookupChecksum env (oPath q) w) as [w1 prev] eqn:El.
  destruct (lookupChecksum_file _ _ _ _ _ El) as (E1 & E2 & _).
  unfold record, AppendLocal, appendToFile. rewrite Hlog. cbn [append_file]. cbn [wOutbox wLog opsFile].
  assert (queue_ok w1) as Hw1 by (destruct Hw; split; unfold queue in *; by rewrite E1).
  destruct (Remove_ok w1 q Hw1) as [_ Hrest]. eexists. split; [done|]. split; [done|].
  unfold queue. cbn [wOutbox]. rewrite Hrest. unfold others. rewrite list_elem_of_filter. intros [Hsame _].
  assert (sameEntry q q = true) by (by apply sameEntry_key). congruence.
Qed.

End Facts.

(** ** Concrete queues *)

Definition op_code (t : OpType) : positive * positive :=
  match t with
  | OpPut => (1, 1) | OpDelete => (2, 1) | OpDeleteDir => (3, 1) | OpCreateDir => (4, 1)
  | OpSymlink => (5, 1) | OpOther s => (6, encode s)
  end%positive.

Definition op_decode (p : positive * positive) : option OpType :=
  match p.1 with
  | 1 => Some OpPut | 2 => Some OpDelete | 3 => Some OpDeleteDir | 4 => Some OpCreateDir
  | 5 => Some OpSymlink | _ => OpOther <$> decode p.2
  end%positive.

Lemma op_decode_code t : op_decode (op_code t) = Some t.
Proof.
  destruct t; try done. change (OpOther <$> decode (encode s) = Some (OpOther s)). by rewrite decode_encode.
Qed.

Definition outbox_code (q : OutboxEntry) : list positive :=
  [encode (op_code (oOp q)); encode (oPath q); encode (oChecksum q); encode (oLinkTarget q);
   encode (oNamespace q); encode (oLocalPath q); encode (oTimestamp q)].

Definition outbox_decode (ps : list positive) : option OutboxEntry :=
  match ps with
  | [a; b; c; d; e; f; g] =>
      a ← decode a; a ← op_decode a; b ← decode b; c ← decode c; d ← decode d; e ← decode e;
      f ← decode f; g ← decode g; Some (mkOutboxEntry a b c d e f g)
  | _ => None
  end.

Lemma outbox_decode_code q : outbox_decode (outbox_code q) = Some q.
Proof.
  unfold outbox_code, outbox_decode. rewrite !decode_encode. simpl. rewrite op_decode_code. by destruct q.
Qed.

Definition demoQueueCodec : LineCodec OutboxEntry := bits_codec outbox_code outbox_decode outbox_decode_code.

Section Demo.
#[local] Existing Instance demoQueueCodec.
#[local] Existing Instance demoCodec.

Definition demoPut : OutboxEntry := NewOutboxPut (time_Unix 10) "f" "S" "Test" "/d/f".
Definition demoDelete : OutboxEntry := NewOutboxDelete (time_Unix 10) "f" "S" "Test".
Definition demoDir : OutboxEntry := mkOutboxEntry OpCreateDir "g" "" "" "Test" "" 11.

Definition demoEnv (sum : string) : Env :=
  mkEnv (Ck sum true) OpOk (Some (Some (mkPutResult (Some ["c1"]) 3 sum))) (time_Unix 20) true WOk RWOk true WOk 0 0.

Definition demoWorker (es : list OutboxEntry) : Worker := mkWorker (Some (jsonl es)) (NewLocalOpsLog None "D-a").

Lemma demo_queue es :
  forallb (fun e => slen (marshal e) <? maxTokenSize) es = true ->
  queue_ok (demoWorker es) /\ queue (demoWorker es) = es.
Proof.
  rewrite forallb_forall. intros H.
  assert (Forall good_line es) as Hg.
  { rewrite Forall_forall. intros e He. split; [exact I|]. apply Z.ltb_lt, H. by apply list_elem_of_In. }
  assert (queue (demoWorker es) = es) as E.
  { apply file_entries_jsonl. eapply Forall_impl; [done|]. by intros e [? _]. }
  split; [|done]. split; [by apply well_formed_jsonl|by rewrite E].
Qed.

Lemma demo_smooth q : (exists s, oOp q = OpPut /\ oChecksum q = s \/ oOp q = OpDelete \/ oOp q = OpCreateDir) ->
  oTimestamp q <> 0 -> smooth (demoEnv (oChecksum q)) q.
Proof.
  intros (s & Hop) Ht. split; try done.
  - intros s' E. destruct Hop as [[H _]|[H|H]]; congruence.
  - intros _. split; [done|]. split; [done|]. by eexists.
Qed.

Lemma demo_ok1 : queue_ok (demoWorker [demoPut; demoDir]) /\ queue (demoWorker [demoPut; demoDir]) = [demoPut; demoDir].
Proof. apply demo_queue. vm_compute. reflexivity. Qed.

Lemma demo_smooths : Forall2 smooth [demoEnv "S"; demoEnv ""] [demoPut; demoDir].
Proof.
  constructor; [apply (demo_smooth demoPut); [eexists; by left|done]|].
  constructor; [apply (demo_smooth demoDir); [exists ""; by right; right|done]|constructor].
Qed.

Lemma demo_keys : NoDup (key_of <$> [demoPut; demoDir]).
Proof.
  change (NoDup [("f", 10); ("g", 11)]). repeat constructor; rewrite ?list_elem_of_singleton; [done|].
  apply not_elem_of_nil.
Qed.

Lemma fs_outbox_drains_witness :
  exists w' ts recs, drain [demoEnv "S"; demoEnv ""; demoEnv ""] (demoWorker [demoPut; demoDir]) = (w', ts) /\
    queue w' = [] /\ opsFile (wLog w') = foldl append_line None recs /\
    Forall2 (recorded "D-a") [demoPut; demoDir] recs /\ length ts = 3%nat.
Proof.
  exact (fs_outbox_drains (demoWorker [demoPut; demoDir]) [demoPut; demoDir] [demoEnv "S"; demoEnv ""] (demoEnv "")
    (proj1 demo_ok1) (proj2 demo_ok1) demo_keys demo_smooths eq_refl).
Defined.

Lemma demo_ok2 : queue_ok (demoWorker [demoPut; demoDelete]) /\
  queue (demoWorker [demoPut; demoDelete]) = [demoPut; demoDelete].
Proof. apply demo_queue. vm_compute. reflexivity. Qed.

Lemma demo_smooth2 : smooth (demoEnv "S") demoPut.
Proof. apply (demo_smooth demoPut); [eexists; by left|done]. Qed.

(** A file created and deleted within one second: the deletion is dropped. *)
Lemma fs_outbox_same_second_witness :
  exists w' rec, drainTurn (demoEnv "S") (demoWorker [demoPut; demoDelete])
      = (w', Processed demoPut outboxProcessApplied) /\
    demoDelete ∉ queue w' /\ opsFile (wLog w') = append_line None rec /\ recorded "D-a" demoPut rec.
Proof.
  exact (fs_outbox_same_second (demoEnv "S") (demoWorker [demoPut; demoDelete]) demoPut [demoDelete] demoDelete
    (proj1 demo_ok2) (proj2 demo_ok2) demo_smooth2 (list_elem_of_here _ _) eq_refl).
Defined.

End Demo.
