(* ===== verification/GoPath.v ===== *)
(** * Slash-separated paths: the functions of strings and path/filepath the sources use

    [strings.Split] and [strings.Join] at a byte, and the lexical functions
    [filepath.Clean], [Join] and [Rel] as they are on Unix. *)

From Stdlib Require Import Ascii.
From stdpp Require Import base numbers list strings.
From S2P Require Import Prelude GoStrings.

(** ** [strings.Split(s, string(c))] and [strings.Join(l, string(c))] *)

Fixpoint SplitByte (c : ascii) (s : string) : list string :=
  match s with
  | EmptyString => [""]
  | String a s' =>
      if Ascii.eqb a c then "" :: SplitByte c s'
      else match SplitByte c s' with
           | [] => [String a ""]
           | x :: xs => String a x :: xs
           end
  end.

Fixpoint JoinByte (c : ascii) (l : list string) : string :=
  match l with
  | [] => ""
  | [x] => x
  | x :: xs => x +:+ String c (JoinByte c xs)
  end.

(** No occurrence of the separator. *)
Definition free_of (c : ascii) (s : string) : Prop := str_forall (fun a => negb (Ascii.eqb a c)) s = true.

Lemma SplitByte_cons c s : exists x xs, SplitByte c s = x :: xs.
Proof.
  destruct s as [|a s]; simpl; [by exists "", []|]. destruct (Ascii.eqb a c); [by eexists _, _|].
  destruct (SplitByte c s); by eexists _, _.
Qed.

Lemma JoinByte_cons c x y ys : JoinByte c (x :: y :: ys) = x +:+ String c (JoinByte c (y :: ys)).
Proof. done. Qed.

Lemma JoinByte_Split c s : JoinByte c (SplitByte c s) = s.
Proof.
  induction s as [|a s IH]; [done|]. cbn [SplitByte]. destruct (SplitByte_cons c s) as (x & xs & E).
  destruct (Ascii.eqb_spec a c) as [->|Hne].
  - rewrite E in IH |- *. rewrite JoinByte_cons, IH. done.
  - rewrite E in IH |- *. destruct xs as [|y ys].
    + simpl in *. by rewrite IH.
    + rewrite JoinByte_cons in IH |- *. by rewrite str_app_cons, IH.
Qed.

Lemma SplitByte_free c s : Forall (free_of c) (SplitByte c s).
Proof.
  induction s as [|a s IH]; simpl; [by repeat constructor|].
  destruct (Ascii.eqb a c) eqn:E; [by constructor|].
  destruct (SplitByte c s) as [|x xs]; [constructor; [|done]; unfold free_of; simpl; by rewrite E|].
  apply Forall_cons in IH as [Hx Hxs]. constructor; [|done]. unfold free_of in *. simpl. by rewrite E.
Qed.

Lemma SplitByte_app c s t : free_of c s -> SplitByte c (s +:+ String c t) = s :: SplitByte c t.
Proof.
  induction s as [|a s IH]; intros H.
  - rewrite str_app_nil_l. cbn [SplitByte]. by rewrite Ascii.eqb_refl.
  - unfold free_of in H. simpl in H. apply andb_prop in H as [Ha H]. apply negb_true_iff in Ha.
    rewrite str_app_cons. cbn [SplitByte]. by rewrite Ha, IH.
Qed.

Lemma SplitByte_one c s : free_of c s -> SplitByte c s = [s].
Proof.
  induction s as [|a s IH]; intros H; [done|]. unfold free_of in H. simpl in H. apply andb_prop in H as [Ha H].
  apply negb_true_iff in Ha. cbn [SplitByte]. by rewrite Ha, IH.
Qed.

Lemma SplitByte_Join c l : l <> [] -> Forall (free_of c) l -> SplitByte c (JoinByte c l) = l.
Proof.
  intros Hne H. induction H as [|x xs Hx Hxs IH]; [done|]. destruct xs as [|y ys].
  - by apply SplitByte_one.
  - rewrite JoinByte_cons, SplitByte_app by done. by rewrite IH.
Qed.

(** The pieces of a concatenation. *)
Lemma SplitByte_concat c s t : SplitByte c (s +:+ String c t) = SplitByte c s ++ SplitByte c t.
Proof.
  induction s as [|a s IH].
  - rewrite str_app_nil_l. cbn [SplitByte]. by rewrite Ascii.eqb_refl.
  - rewrite str_app_cons. cbn [SplitByte]. rewrite IH. destruct (Ascii.eqb a c); [done|].
    destruct (SplitByte_cons c s) as (x & xs & ->). done.
Qed.

(** ** [filepath.Clean] *)

Definition slash : ascii := "/".
Definition rooted (s : string) : bool := HasPrefix s "/".

(** One element of the path against the elements kept so far, last first. *)
Definition clean_step (root : bool) (st : list string) (seg : string) : list string :=
  if bool_decide (seg = "") || bool_decide (seg = ".") then st
  else if bool_decide (seg = "..") then
    match st with
    | [] => if root then [] else [".."]
    | x :: st' => if bool_decide (x = "..") then ".." :: st else st'
    end
  else seg :: st.

Definition clean_segs (s : string) : list string :=
  rev (foldl (clean_step (rooted s)) [] (SplitByte slash s)).

Definition of_segs (root : bool) (segs : list string) : string :=
  if root then String slash (JoinByte slash segs)
  else match segs with [] => "." | _ => JoinByte slash segs end.

Definition Clean (s : string) : string := of_segs (rooted s) (clean_segs s).

(** [filepath.Join(a, b)]: the empty elements before the first other one are
    dropped. *)
Definition Join2 (a b : string) : string :=
  if bool_decide (a = "") then (if bool_decide (b = "") then "" else Clean b)
  else Clean (a +:+ String slash b).

(** [filepath.Rel] on the elements: the common ones go, the rest of the base is
    climbed. *)
Fixpoint strip_common (base targ : list string) : list string * list string :=
  match base, targ with
  | b :: base', t :: targ' => if bool_decide (b = t) then strip_common base' targ' else (base, targ)
  | _, _ => (base, targ)
  end.

(** [None] is the error "can't make relative". *)
Definition Rel (base targ : string) : option string :=
  if bool_decide (Clean base = Clean targ) then Some "."
  else if negb (Bool.eqb (rooted base) (rooted targ)) then None
  else
    let '(b, t) := strip_common (clean_segs base) (clean_segs targ) in
    match b with
    | ".." :: _ => None
    | _ => Some (JoinByte slash (repeat ".." (length b) ++ t))
    end.

(** ** Clean paths *)

(** [strings.Contains]. *)
Fixpoint Contains (s sub : string) : bool :=
  HasPrefix s sub || match s with EmptyString => false | String _ s' => Contains s' sub end.

(** [filepath.Base]: the last element, trailing slashes aside. *)
Definition Base (s : string) : string :=
  if bool_decide (s = "") then "."
  else match List.filter (fun seg => negb (bool_decide (seg = ""))) (SplitByte slash s) with
  | [] => "/"
  | segs => List.last segs ""
  end.

Definition proper (seg : string) : Prop := seg <> "" /\ seg <> "." /\ seg <> ".." /\ free_of slash seg.

Definition reduced (root : bool) (segs : list string) : Prop :=
  exists n ps, segs = repeat ".." n ++ ps /\ Forall proper ps /\ (root = true -> n = 0%nat).

Lemma clean_step_proper root st seg : proper seg -> clean_step root st seg = seg :: st.
Proof.
  intros (H1 & H2 & H3 & _). unfold clean_step. by rewrite !bool_decide_eq_false_2.
Qed.

Lemma clean_fold_proper root segs st : Forall proper segs -> foldl (clean_step root) st segs = rev segs ++ st.
Proof.
  intros H. revert st. induction H as [|x xs Hx _ IH]; intros st; [done|].
  cbn [foldl]. rewrite clean_step_proper, IH by done. simpl. by rewrite <- app_assoc.
Qed.

Lemma clean_step_reduced root segs seg :
  reduced root (rev segs) -> free_of slash seg -> reduced root (rev (clean_step root segs seg)).
Proof.
  intros (n & ps & E & Hps & Hn) Hseg. unfold clean_step.
  destruct (bool_decide_reflect (seg = "")) as [|H1]; [by exists n, ps|].
  destruct (bool_decide_reflect (seg = ".")) as [|H2]; [by exists n, ps|]. cbn [orb].
  destruct (bool_decide_reflect (seg = "..")) as [->|H3].
  - destruct segs as [|x segs].
    + destruct root; [by exists n, ps|]. by exists 1%nat, [].
    + simpl in E. destruct (decide (ps = [])) as [->|Hne].
      * destruct n as [|n]; [by destruct (rev segs)|]. rewrite app_nil_r in E. cbn [repeat] in E.
        rewrite repeat_cons in E. apply app_inj_tail in E as [E ->]. rewrite bool_decide_eq_true_2 by done.
        exists (S (S n)), []. split_and!; [|done|].
        -- cbn [rev]. rewrite E, app_nil_r. cbn [repeat].
           by rewrite (repeat_cons n), app_comm_cons, (repeat_cons n).
        -- intros Hr. by rewrite Hr in Hn; specialize (Hn eq_refl).
      * destruct (exists_last Hne) as (ps' & y & ->). rewrite app_assoc in E. apply app_inj_tail in E as [E ->].
        apply Forall_app in Hps as [Hps Hy]. apply Forall_singleton in Hy as (_ & _ & Hy & _).
        rewrite bool_decide_eq_false_2 by done. exists n, ps'. by rewrite E.
  - exists n, (ps ++ [seg]). split_and!; [simpl; rewrite E; by rewrite app_assoc| |done].
    apply Forall_app_2; [done|by constructor].
Qed.

Lemma clean_segs_reduced s : reduced (rooted s) (clean_segs s).
Proof.
  unfold clean_segs. pose proof (SplitByte_free slash s) as Hf.
  assert (forall segs st, reduced (rooted s) (rev st) -> Forall (free_of slash) segs ->
    reduced (rooted s) (rev (foldl (clean_step (rooted s)) st segs))) as H.
  { induction segs as [|x xs IH]; intros st Hst Hx; [done|]. apply Forall_cons in Hx as [Hx Hxs].
    cbn [foldl]. apply IH; [|done]. by apply clean_step_reduced. }
  apply H; [|done]. by exists 0%nat, [].
Qed.

Lemma clean_fold_reduced root segs : reduced root segs -> foldl (clean_step root) [] segs = rev segs.
Proof.
  intros (n & ps & -> & Hps & Hn). rewrite foldl_app.
  assert (forall k, root = false -> foldl (clean_step root) (repeat ".." k) (repeat ".." n) = repeat ".." (n + k)) as H.
  { intros k ->. revert k. induction n as [|n IH]; intros k; [done|]. cbn [repeat foldl].
    assert (clean_step false (repeat ".." k) ".." = repeat ".." (S k)) as -> by (by destruct k).
    rewrite IH; [by rewrite Nat.add_succ_r|]. intros. lia. }
  assert (foldl (clean_step root) [] (repeat ".." n) = repeat ".." n) as ->.
  { destruct root; [by rewrite Hn|]. pose proof (H 0%nat eq_refl) as H0. by rewrite Nat.add_0_r in H0. }
  rewrite clean_fold_proper by done. rewrite rev_app_distr. f_equal. clear. induction n as [|n IH]; [done|].
  cbn [repeat rev]. by rewrite <- IH, <- repeat_cons.
Qed.

Lemma dotdot_free : free_of slash "..".
Proof. done. Qed.

Lemma reduced_free root segs : reduced root segs -> Forall (free_of slash) segs.
Proof.
  intros (n & ps & -> & Hps & _). apply Forall_app_2.
  - apply Forall_forall. intros x Hx. apply list_elem_of_In, repeat_spec in Hx as ->. done.
  - eapply Forall_impl; [done|]. by intros x (_ & _ & _ & ?).
Qed.

Lemma reduced_head root x xs : reduced root (x :: xs) -> x <> "" /\ free_of slash x.
Proof.
  intros (n & ps & E & Hps & _). destruct n as [|n].
  - simpl in E. subst. apply Forall_cons in Hps as [(? & _ & _ & ?) _]. done.
  - injection E as -> _. done.
Qed.

Lemma rooted_slash s : rooted (String slash s) = true.
Proof. exact (HasPrefix_app "/" s). Qed.

Lemma not_rooted x t : x <> "" -> free_of slash x -> rooted (x +:+ t) = false.
Proof.
  intros Hne Hf. destruct x as [|a x]; [done|]. unfold free_of in Hf. simpl in Hf. apply andb_prop in Hf as [Ha _].
  apply negb_true_iff in Ha. rewrite str_app_cons. unfold rooted, HasPrefix. cbn [String.prefix].
  destruct (ascii_dec "/" a) as [<-|]; [|done]. by rewrite Ascii.eqb_refl in Ha.
Qed.

Lemma rooted_of_segs root segs : reduced root segs -> rooted (of_segs root segs) = root.
Proof.
  intros Hr. destruct root; [apply rooted_slash|]. destruct segs as [|x xs]; [done|].
  destruct (reduced_head _ _ _ Hr) as [Hne Hf]. simpl. destruct xs as [|y ys].
  - rewrite <- (str_app_nil_r x). by apply not_rooted.
  - by apply not_rooted.
Qed.

Lemma clean_segs_of_segs root segs : reduced root segs -> clean_segs (of_segs root segs) = segs.
Proof.
  intros Hr. unfold clean_segs. rewrite rooted_of_segs by done. destruct (decide (segs = [])) as [->|Hne].
  { by destruct root. }
  assert (foldl (clean_step root) [] (SplitByte slash (of_segs root segs)) = rev segs) as ->; [|by rewrite rev_involutive].
  destruct root.
  - cbn [of_segs SplitByte]. rewrite Ascii.eqb_refl. cbn [foldl].
    rewrite SplitByte_Join by (done || by eapply reduced_free). by apply clean_fold_reduced.
  - destruct segs as [|x xs]; [done|]. unfold of_segs.
    rewrite SplitByte_Join by (done || by eapply reduced_free). by apply clean_fold_reduced.
Qed.

(** Cleaning twice changes nothing. *)
Lemma clean_segs_Clean s : clean_segs (Clean s) = clean_segs s.
Proof. apply clean_segs_of_segs, clean_segs_reduced. Qed.

Lemma rooted_Clean s : rooted (Clean s) = rooted s.
Proof. apply rooted_of_segs, clean_segs_reduced. Qed.

Lemma Clean_idem s : Clean (Clean s) = Clean s.
Proof. unfold Clean at 1. by rewrite rooted_Clean, clean_segs_Clean. Qed.

(** Elements without dots below a directory. *)
Lemma clean_segs_below root segs :
  root <> "" -> segs <> [] -> Forall proper segs ->
  clean_segs (root +:+ String slash (JoinByte slash segs)) = clean_segs root ++ segs.
Proof.
  intros Hr Hne Hp. unfold clean_segs.
  assert (rooted (root +:+ String slash (JoinByte slash segs)) = rooted root) as ->.
  { destruct root as [|a r]; [done|]. rewrite str_app_cons. unfold rooted, HasPrefix. cbn [String.prefix].
    destruct (ascii_dec "/" a); [|done]. by destruct r, (JoinByte slash segs). }
  rewrite SplitByte_concat, foldl_app, SplitByte_Join, clean_fold_proper by
    (done || (eapply Forall_impl; [exact Hp|]; by intros x (_ & _ & _ & ?))).
  by rewrite rev_app_distr, rev_involutive.
Qed.

Lemma strip_common_app l t : strip_common l (l ++ t) = ([], t).
Proof. induction l as [|x l IH]; simpl; [by destruct t|]. by rewrite bool_decide_eq_true_2. Qed.
