(* ===== verification/MessagingInbound.v ===== *)
(** * Connections and what comes in through them (pkg/messaging/broker/broker.go,
      pkg/messaging/runtime/manager.go)

    A connection is created, connected, disabled and deleted together with the
    supervised process of its adapter; polls and webhooks bring events, which are
    stored, filled in from the adapter and followed by the checkpoint.  The
    operations run in the monad of [MessagingBroker]; the adapter may answer
    anything. *)

From Stdlib Require Import Ascii.
From stdpp Require Import base numbers list gmap strings sorting.
From S2P Require Import Prelude GoStrings GoStrconv GoText GoPath Messaging MessagingStore MessagingKV MessagingBroker.

#[local] Open Scope Z_scope.

(** ** Paths *)

Definition encodePathSegment (value : string) : string := b64encode true false value.

(** On Unix, where the separator is a slash. *)
Definition safePathSegment (value : string) : string :=
  let value := TrimSpace value in
  if bool_decide (value = "") || bool_decide (value = ".") || bool_decide (value = "..") || ContainsByte "/" value then encodePathSegment value
  else if ContainsByte "\" value then encodePathSegment value
  else value.

Record RuntimePaths := mkPaths {
  rpRootDir : string; rpStateDir : string; rpCacheDir : string; rpRuntimeDir : string; rpSecretsDir : string;
  rpCheckpointsDir : string; rpLogDir : string; rpBlobDir : string; rpStagingDir : string
}.

(** [filepath.Join] of several elements. *)
Definition JoinAll (root : string) (segs : list string) : string := Clean (root +:+ "/" +:+ JoinByte slash segs).

Definition runtimePathsForConnection (rootDir : string) (c : Connection) : RuntimePaths :=
  let adapterSegment := safePathSegment (cnAdapterID c) in
  let connectionSegment := encodePathSegment (cnID c) in
  let connectionRoot := JoinAll rootDir ["adapters"; adapterSegment; connectionSegment] in
  mkPaths connectionRoot (JoinAll connectionRoot ["state"]) (JoinAll connectionRoot ["cache"]) (JoinAll connectionRoot ["runtime"])
    (JoinAll connectionRoot ["runtime"; "secrets"]) (JoinAll connectionRoot ["checkpoints"]) (JoinAll connectionRoot ["logs"])
    (JoinAll rootDir ["blobs"; connectionSegment]) (JoinAll rootDir ["staging"; connectionSegment]).

(** [removeRuntimePaths]: the directories removed, each once. *)
Fixpoint removedDirs (seen dirs : list string) : list string :=
  match dirs with
  | [] => []
  | d :: rest => if isBlank d || bool_decide (d ∈ seen) then removedDirs seen rest else d :: removedDirs (d :: seen) rest
  end.

(** ** Identifiers of events *)

Definition NUL : string := String "000" "".
Definition hashPart (value : string) : string := value +:+ NUL.

(** [utf8.Valid] *)
Fixpoint utf8Valid (bs : list Z) : bool :=
  match bs with
  | [] => true
  | b0 :: t0 =>
      if b0 <? 0x80 then utf8Valid t0
      else match t0 with
      | b1 :: t1 =>
          if valid2 b0 b1 then utf8Valid t1
          else match t1 with
          | b2 :: t2 =>
              if valid3 b0 b1 b2 then utf8Valid t2
              else match t2 with b3 :: t3 => valid4 b0 b1 b2 b3 && utf8Valid t3 | [] => false end
          | [] => false
          end
      | [] => false
      end
  end.

(** ** Webhooks *)

Definition defaultInlineWebhookBodyLimit : Z := 32 * 1024.
Abbreviation Headers := (gmap string (list string)).

Record WebhookRequest := mkWebhook {
  whRequestID : string; whMethod : string; whURL : string; whHeaders : Headers; whQuery : Headers; whBody : string;
  whRemoteAddr : string; whReceivedAt : Time
}.

Record BlobRef := mkBlob { brID : string; brLocalPath : string; brSizeBytes : Z; brSHA256 : string }.

(** What the adapter is given. *)
Record NormalRequest := mkNormal {
  nrRequestID : string; nrConnectionID : string; nrMethod : string; nrURL : string; nrHeaders : Headers; nrQuery : Headers;
  nrBody : string; nrBodyBlob : option BlobRef; nrRemoteAddr : string; nrReceivedAt : Time
}.

(** ** What the adapters answer *)

Record ConnectAnswer := mkAnswer {
  caStatus : string; caAuth : AuthInfo; caMetadata : option Metadata; caIdentities : option (list Identity)
}.

Record WebhookAnswer := mkHookAnswer {
  haEvents : list Event; haCheckpoint : option Checkpoint; haStatusCode : Z; haHeaders : Metadata; haBody : string
}.

Class InboundEnv := {
  in_root : string;
  in_credential : Z -> Connection -> result string unit;
  in_connect : Z -> Connection -> result string ConnectAnswer;
  in_refresh : Z -> Connection -> result string ConnectAnswer;
  in_poll : Z -> string -> option Checkpoint -> Z -> result string (list Event * option Checkpoint);
  in_webhook : Z -> NormalRequest -> result string WebhookAnswer;
  in_conversations : Z -> string -> string -> result AdapterError (list Conversation * string);
  in_message : Z -> string -> string -> string -> result AdapterError (Message * list Placement);
  in_stage : Z -> string -> string -> result string unit;
  in_remove : Z -> list string -> result string unit;
  sha256hex : string -> string;
  formatTime : Time -> string
}.

Section Inbound.
Context {B : Type} `{BK : !MessagingBackend B} `{BE : !BrokerEnv} `{IE : !InboundEnv}.
#[local] Open Scope broker_scope.

Definition stableEventID (connectionID : string) (e : Event) : string :=
  let fixed := hashPart connectionID +:+ hashPart (evType e) +:+ hashPart (evConnectionID e) +:+ hashPart (evConversationID e)
    +:+ hashPart (evMessageID e) +:+ hashPart (evDraftID e) +:+ hashPart (evExposureID e) in
  let stamp := if time_IsZero (evTimestamp e) then "" else hashPart (formatTime (evTimestamp e)) in
  let pairs := foldr (fun kv s => hashPart kv.1 +:+ hashPart kv.2 +:+ s) "" (sortBy (fun a b => str_ltb a.1 b.1) (map_to_list (evMetadata e))) in
  "evt/" +:+ str_take 24 (sha256hex (fixed +:+ stamp +:+ pairs)).

(** The event as it is stored. *)
Definition completeEvent (connectionID : string) (at_ : Time) (e : Event) : Event :=
  mkEvent (if isBlank (evID e) then stableEventID connectionID e else evID e) (evType e)
    (if isBlank (evConnectionID e) then connectionID else evConnectionID e)
    (evConversationID e) (evMessageID e) (evDraftID e) (evExposureID e)
    (if time_IsZero (evTimestamp e) then at_ else evTimestamp e) (evMetadata e).

(** The pages of an adapter's conversations, until the one that is asked for; it is
    the adapter that ends them.  [None]: the pages go on after [fuel] of them. *)
Definition stillListing : string := "still listing conversations".

Fixpoint storeConversations (wanted : string) (cs : list Conversation) : M B (option Conversation) :=
  match cs with
  | [] => ret None
  | c :: rest =>
      request (PutConversation c) ;;
      if bool_decide (cvID c = wanted) then ret (Some c) else storeConversations wanted rest
  end.

Fixpoint listPages (fuel : nat) (connectionID wanted cursor : string) : M B (option Conversation) :=
  match fuel with
  | O => throw stillListing
  | S fuel =>
      page <- tick (fun t => in_conversations t connectionID cursor) ;;
      match page with
      | Err NotSupported => ret None
      | Err (AdapterFailed e) => throw e
      | Ok (cs, next) =>
          found <- storeConversations wanted cs ;;
          match found with
          | Some c => ret (Some c)
          | None => if isBlank next then ret None else listPages fuel connectionID wanted next
          end
      end
  end.

Definition ensureConversation (fuel : nat) (connectionID wanted : string) : M B (option Conversation) :=
  existing <- look (GetConversation wanted) ;;
  match existing with
  | Some c => ret (Some c)
  | None => listPages fuel connectionID wanted ""
  end.

Fixpoint storePlacements (connectionID messageID : string) (ps : list Placement) : M B unit :=
  match ps with
  | [] => ret tt
  | p :: rest =>
      request (PutPlacement (mkPlacement (orIf (bool_decide (plMessageID p = "")) messageID (plMessageID p))
        (orIf (bool_decide (plConnectionID p = "")) connectionID (plConnectionID p)) (plContainerID p) (plRemoteID p) (plMetadata p))) ;;
      storePlacements connectionID messageID rest
  end.

Definition syncMessage (connectionID conversationID messageID : string) : M B (option Message) :=
  answer_ <- tick (fun t => in_message t connectionID conversationID messageID) ;;
  match answer_ with
  | Err NotSupported => ret None
  | Err (AdapterFailed e) => throw e
  | Ok (m, placements) =>
      request (PutMessage m) ;;
      storePlacements connectionID (msID m) placements ;;
      ret (Some m)
  end.

Definition hydrateEvent (fuel : nat) (connectionID : string) (e : Event) : M B (option Conversation * option Message) :=
  conversation <- (if bool_decide (evConversationID e = "") then ret None else ensureConversation fuel connectionID (evConversationID e)) ;;
  message <- (if bool_decide (evMessageID e = "") then ret None else syncMessage connectionID (evConversationID e) (evMessageID e)) ;;
  ret (conversation, message).

Definition appendIfMissing {A} (ident : A -> string) (items : list A) (value : option A) : list A :=
  match value with
  | None => items
  | Some v => if bool_decide (ident v = "") || existsb (fun x => bool_decide (ident x = ident v)) items then items else items ++ [v]
  end.

Record Inbound := mkInbound { inEvents : list Event; inConversations : list Conversation; inMessages : list Message; inCheckpoint : option Checkpoint }.

Definition storeEvent (fuel : nat) (connectionID : string) (raw : Event) (acc : Inbound) : M B Inbound :=
  at_ <- (if time_IsZero (evTimestamp raw) then now else ret (evTimestamp raw)) ;;
  let e := completeEvent connectionID at_ raw in
  env <- tick be_log ;;
  request (AppendEvent env e) ;;
  filled <- hydrateEvent fuel connectionID e ;;
  ret (mkInbound (inEvents acc ++ [e]) (appendIfMissing cvID (inConversations acc) filled.1) (appendIfMissing msID (inMessages acc) filled.2) None).

Fixpoint storeEvents (fuel : nat) (connectionID : string) (raws : list Event) (acc : Inbound) : M B Inbound :=
  match raws with
  | [] => ret acc
  | raw :: rest => acc <- storeEvent fuel connectionID raw acc ;; storeEvents fuel connectionID rest acc
  end.

Definition storeCheckpoint (connectionID : string) (checkpoint : option Checkpoint) : M B (option Checkpoint) :=
  match checkpoint with
  | None => ret None
  | Some c =>
      at_ <- (if time_IsZero (ckUpdatedAt c) then now else ret (ckUpdatedAt c)) ;;
      let c := mkCheckpoint (ckCursor c) (ckSequence c) (ckMetadata c) at_ in
      request (PutCheckpoint connectionID c) ;;
      ret (Some c)
  end.

Definition persistInboundResult (fuel : nat) (connectionID : string) (raws : list Event) (checkpoint : option Checkpoint) : M B Inbound :=
  stored <- storeEvents fuel connectionID raws (mkInbound [] [] [] None) ;;
  c <- storeCheckpoint connectionID checkpoint ;;
  ret (mkInbound (inEvents stored) (inConversations stored) (inMessages stored) c).

(** ** Polls and webhooks *)

Definition PollConnection (fuel : nat) (connectionID : string) (limit : Z) : M B Inbound :=
  _ <- prepareAdapterCall connectionID ;;
  checkpoint <- look (GetCheckpoint connectionID) ;;
  polled <- tick (fun t => in_poll t connectionID checkpoint limit) ;;
  result <- answer polled ;;
  persistInboundResult fuel connectionID result.1 result.2.

Definition stageWebhookBody (paths : RuntimePaths) (requestID body : string) : M B BlobRef :=
  let localPath := JoinAll (rpStagingDir paths) ["webhooks"; encodePathSegment requestID +:+ ".bin"] in
  written <- tick (fun t => in_stage t localPath body) ;;
  _ <- answer written ;;
  ret (mkBlob ("webhook:" +:+ requestID) localPath (slen body) (sha256hex body)).

Definition normalizeWebhookRequest (paths : RuntimePaths) (connectionID : string) (r : WebhookRequest) : M B NormalRequest :=
  receivedAt <- (if time_IsZero (whReceivedAt r) then now else ret (whReceivedAt r)) ;;
  requestID <- (if bool_decide (TrimSpace (whRequestID r) = "") then newID else ret (TrimSpace (whRequestID r))) ;;
  let normal body blob := mkNormal requestID connectionID (whMethod r) (whURL r) (whHeaders r) (whQuery r) body blob (whRemoteAddr r) receivedAt in
  if bool_decide (whBody r = "") then ret (normal "" None)
  else if utf8Valid (bytes_of (whBody r)) && (slen (whBody r) <=? defaultInlineWebhookBodyLimit) then ret (normal (whBody r) None)
  else blob <- stageWebhookBody paths requestID (whBody r) ;; ret (normal "" (Some blob)).

Record WebhookResult := mkWebhookResult { wrInbound : Inbound; wrStatusCode : Z; wrHeaders : Metadata; wrBody : string }.

Definition HandleWebhookConnection (fuel : nat) (connectionID : string) (r : WebhookRequest) : M B WebhookResult :=
  connection <- found ("messaging connection " +:+ connectionID) (GetConnection connectionID) ;;
  _ <- prepareAdapterCall connectionID ;;
  let paths := runtimePathsForConnection in_root connection in
  normalized <- normalizeWebhookRequest paths connectionID r ;;
  answered <- tick (fun t => in_webhook t normalized) ;;
  result <- answer answered ;;
  stored <- persistInboundResult fuel connectionID (haEvents result) (haCheckpoint result) ;;
  ret (mkWebhookResult stored (if haStatusCode result =? 0 then 200 else haStatusCode result) (haHeaders result) (haBody result)).

End Inbound.

(** ** Connections and their processes *)

(** [restartBackoff] of the supervisor. *)
Fixpoint doubledBelow (n : nat) (backoff max : Duration) : Duration :=
  match n with
  | O => if max <? backoff then max else backoff
  | S n => if max ÷ 2 <=? backoff then max else doubledBelow n (backoff * 2) max
  end.
Definition restartBackoff (base max : Duration) (failures : Z) : Duration :=
  if failures <=? 0 then 0 else doubledBelow (Z.to_nat (failures - 1)) base max.

(** A broker with its manager: the keys of the supervised adapters. *)
Record Super (B : Type) := mkSuper { suWorld : World B; suManaged : gset string }.
Arguments mkSuper {B}.
Arguments suWorld {B}.
Arguments suManaged {B}.

Definition S_ (B A : Type) : Type := Super B -> Super B * result string A.
Definition sret {B A} (x : A) : S_ B A := fun s => (s, Ok x).
Definition sthrow {B A} (e : string) : S_ B A := fun s => (s, Err e).
Definition sbind {B A C} (m : S_ B A) (f : A -> S_ B C) : S_ B C := fun s => match m s with (s, Ok x) => f x s | (s, Err e) => (s, Err e) end.
Definition lift {B A} (m : M B A) : S_ B A := fun s => let '(w, r) := m (suWorld s) in (mkSuper w (suManaged s), r).

Declare Scope super_scope.
Delimit Scope super_scope with super.
Notation "x <- m ;; k" := (sbind m (fun x => k)) (at level 100, m at next level, right associativity) : super_scope.
Notation "m ;; k" := (sbind m (fun _ => k)) (at level 100, right associativity) : super_scope.

Section Connections.
Context {B : Type} `{BK : !MessagingBackend B} `{BE : !BrokerEnv} `{IE : !InboundEnv}.
#[local] Open Scope super_scope.

Definition managerGet (key : string) : S_ B bool := fun s => (s, Ok (bool_decide (key ∈ suManaged s))).
Definition managerAdd (key : string) : S_ B unit := fun s =>
  if bool_decide (key = "") then (s, Err "managed adapter key is required")
  else if bool_decide (key ∈ suManaged s) then (s, Err ("managed adapter " +:+ key +:+ " already exists"))
  else (mkSuper (suWorld s) ({[key]} ∪ suManaged s), Ok tt).
Definition managerRemove (key : string) : S_ B unit := fun s =>
  if bool_decide (key ∈ suManaged s) then (mkSuper (suWorld s) (suManaged s ∖ {[key]}), Ok tt)
  else (s, Err ("managed adapter " +:+ key +:+ " not found")).

Definition removeManagedAdapterIfPresent (key : string) : S_ B unit :=
  present <- managerGet key ;; if present then managerRemove key else sret tt.

(** [_ = b.removeManagedAdapterIfPresent(...)] *)
Definition signore {A} (m : S_ B A) : S_ B unit := fun s => ((m s).1, Ok tt).

Definition setStatus (status : string) (at_ : Time) (c : Connection) : Connection :=
  mkConnection (cnID c) (cnAdapterID c) (cnLabel c) status (cnAuth c) (cnDefaultPolicyID c) (cnMetadata c) (cnConnectedAt c) at_.

(** [createManagedConnection]; [process]: [Validate] of the process. *)
Definition createManagedConnection (connection : Connection) (process : result string unit) (replace : bool) : S_ B Connection :=
  lift (answer (Connection_Validate connection)) ;;
  existing <- lift (look (GetConnection (cnID connection))) ;;
  if match existing with Some _ => negb replace | None => false end
  then sthrow ("messaging connection " +:+ cnID connection +:+ " already exists")
  else
    lift (answer process) ;;
    let status := if isBlank (cnStatus connection) then ConnectionStatusUnknown else cnStatus connection in
    at_ <- lift (if time_IsZero (cnUpdatedAt connection) then now else ret (cnUpdatedAt connection)) ;;
    let connection := setStatus status at_ connection in
    present <- managerGet (cnID connection) ;;
    (if present then if negb replace then sthrow ("managed adapter " +:+ cnID connection +:+ " already exists") else managerRemove (cnID connection) else sret tt) ;;
    (if bool_decide (cnStatus connection <> ConnectionStatusDisabled) then managerAdd (cnID connection) else sret tt) ;;
    fun s =>
      match lift (request (PutConnection connection)) s with
      | (s, Ok _) => (s, Ok connection)
      | (s, Err e) => ((signore (removeManagedAdapterIfPresent (cnID connection)) s).1, Err e)
      end.

Definition RegisterConnection (c : Connection) (process : result string unit) := createManagedConnection c process false.
Definition CreateConnection (c : Connection) (process : result string unit) := createManagedConnection c process false.
Definition UpsertConnection (c : Connection) (process : result string unit) := createManagedConnection c process true.

(** The manager's part of [prepareAdapterCall]. *)
Definition prepareConnection (connectionID : string) : S_ B Connection :=
  connection <- lift (found ("messaging connection " +:+ connectionID) (GetConnection connectionID)) ;;
  (if bool_decide (cnStatus connection = ConnectionStatusDisabled) then sthrow ("messaging connection " +:+ connectionID +:+ " is disabled") else sret tt) ;;
  present <- managerGet connectionID ;;
  if negb present then sthrow ("managed adapter " +:+ connectionID +:+ " not found")
  else ready <- lift (tick (fun t => be_ready t connectionID)) ;; _ <- lift (answer ready) ;; sret connection.

Definition connected (now : Time) (r : ConnectAnswer) (c : Connection) : Connection :=
  let status := if isBlank (caStatus r) then cnStatus c else caStatus r in
  mkConnection (cnID c) (cnAdapterID c) (cnLabel c) status (if Configured (caAuth r) then caAuth r else cnAuth c) (cnDefaultPolicyID c)
    (default (cnMetadata c) (caMetadata r))
    (if bool_decide (status = ConnectionStatusConnected) && time_IsZero (cnConnectedAt c) then now else cnConnectedAt c) now.

Definition statusEvent (c : Connection) (now : Time) (metadata : Metadata) (type : string) : M B unit :=
  (id <- newID ;; env <- tick be_log ;; request (AppendEvent env (mkEvent id type (cnID c) "" "" "" "" now metadata)))%broker.

Fixpoint identityEvents (c : Connection) (now : Time) (ids : list Identity) : M B unit :=
  match ids with
  | [] => ret tt
  | i :: rest => (statusEvent c now {["identity_id" := idID i]} EventTypeIdentityDiscovered ;; identityEvents c now rest)%broker
  end.

Definition persistConnectionResult (connection : Connection) (r : ConnectAnswer) (replaceIdentities : bool) : M B Connection :=
  (at_ <- now ;;
   let c := connected at_ r connection in
   let ids := default [] (caIdentities r) in
   request (PutConnection c) ;;
   (if replaceIdentities then request (ReplaceConnectionIdentities (cnID c) ids) else ret tt) ;;
   statusEvent c at_ {["status" := cnStatus c]} EventTypeConnectionUpdated ;;
   (if replaceIdentities then identityEvents c at_ ids else ret tt) ;;
   ret c)%broker.

(** A refresh up to the adapter's answer, and what follows it; between the two other
    operations run. *)
Definition beginRefresh (connectionID : string) : S_ B (Connection * ConnectAnswer) :=
  connection <- prepareConnection connectionID ;;
  credential <- lift (tick (fun t => in_credential t connection)) ;;
  _ <- lift (answer credential) ;;
  refreshed <- lift (tick (fun t => in_refresh t connection)) ;;
  result <- lift (answer refreshed) ;;
  sret (connection, result).

Definition finishRefresh (begun : Connection * ConnectAnswer) : S_ B Connection :=
  lift (persistConnectionResult begun.1 begun.2 (bool_decide (caIdentities begun.2 <> None))).

Definition RefreshConnection (connectionID : string) : S_ B Connection := begun <- beginRefresh connectionID ;; finishRefresh begun.

Definition ConnectConnection (connectionID : string) : S_ B Connection :=
  connection <- prepareConnection connectionID ;;
  credential <- lift (tick (fun t => in_credential t connection)) ;;
  _ <- lift (answer credential) ;;
  connected_ <- lift (tick (fun t => in_connect t connection)) ;;
  result <- lift (answer connected_) ;;
  lift (persistConnectionResult connection result true).

Definition DisableConnection (connectionID : string) : S_ B Connection :=
  connection <- lift (found ("messaging connection " +:+ connectionID) (GetConnection connectionID)) ;;
  removeManagedAdapterIfPresent connectionID ;;
  at_ <- lift now ;;
  let c := setStatus ConnectionStatusDisabled at_ connection in
  lift (request (PutConnection c)) ;;
  lift (statusEvent c at_ {["status" := cnStatus c]} EventTypeConnectionUpdated) ;;
  removed <- lift (tick (fun t => in_remove t (removedDirs [] [rpSecretsDir (runtimePathsForConnection in_root connection)]))) ;;
  _ <- lift (answer removed) ;;
  sret c.

Definition DeleteConnection_ (connectionID : string) : S_ B unit :=
  connection <- lift (found ("messaging connection " +:+ connectionID) (GetConnection connectionID)) ;;
  removeManagedAdapterIfPresent connectionID ;;
  lift (request (DeleteConnection connectionID)) ;;
  let paths := runtimePathsForConnection in_root connection in
  removed <- lift (tick (fun t => in_remove t (removedDirs [] [rpRootDir paths; rpBlobDir paths; rpStagingDir paths]))) ;;
  lift (answer removed).

End Connections.

(** ** Events are stored before the checkpoint, and once *)

(** No event twice in the log of a connection. *)
Definition events_once (i : recordIndex) : Prop := forall c, NoDup (map evID (listConnectionEvents c i)).

(** The logs of events only grow, and the checkpoints stay. *)
Record logs_grow (i j : recordIndex) : Prop := {
  lg_checkpoints : ixCheckpoints j = ixCheckpoints i;
  lg_has c e : hasConnectionEvent c e i = true -> hasConnectionEvent c e j = true;
  lg_once : events_once i -> events_once j
}.

#[local] Instance logs_grow_pre : PreOrder logs_grow.
Proof. split; [by split|]. intros i j k [H1 H2 H3] [H4 H5 H6]. split; [by rewrite H4|auto|auto]. Qed.

Lemma same_logs i j : ixCheckpoints j = ixCheckpoints i -> ixEvents j = ixEvents i -> logs_grow i j.
Proof. intros H1 H2. split; [done| |]; unfold hasConnectionEvent, events_once, listConnectionEvents; by rewrite H2. Qed.

Lemma has_event_spec c e i : hasConnectionEvent c e i = true <-> e ∈ map evID (listConnectionEvents c i).
Proof.
  unfold hasConnectionEvent, listConnectionEvents. rewrite existsb_exists, list_elem_of_fmap. split.
  - intros (x & Hx & E%bool_decide_eq_true). exists x. by rewrite list_elem_of_In.
  - intros (x & -> & Hx). exists x. rewrite <- list_elem_of_In, bool_decide_eq_true_2; done.
Qed.

Lemma append_ids c x i :
  map evID (listConnectionEvents c (appendEvent c x i)) ≡ₚ map evID (listConnectionEvents c i) ++ [evID x].
Proof.
  unfold appendEvent, listConnectionEvents. cbn [ixEvents setEvents]. rewrite lookup_insert_eq. cbn [default].
  etrans; [apply Permutation_map, sortBy_perm|]. by rewrite map_app.
Qed.

Lemma append_other c x i d : d <> c -> listConnectionEvents d (appendEvent c x i) = listConnectionEvents d i.
Proof. intros Hne. unfold appendEvent, listConnectionEvents. cbn [ixEvents setEvents]. by rewrite lookup_insert_ne. Qed.

Lemma append_has c x i c' e : hasConnectionEvent c' e (appendEvent c x i) = true <-> (c' = c /\ e = evID x) \/ hasConnectionEvent c' e i = true.
Proof.
  rewrite !has_event_spec. destruct (decide (c' = c)) as [->|Hne]; [|rewrite append_other by done; tauto].
  rewrite append_ids, elem_of_app, list_elem_of_singleton. tauto.
Qed.

Lemma append_once c x i : hasConnectionEvent c (evID x) i = false -> events_once i -> events_once (appendEvent c x i).
Proof.
  intros Hn Hi d. destruct (decide (d = c)) as [->|Hne]; [|rewrite append_other by done; apply Hi].
  rewrite append_ids. apply NoDup_app. split_and!; [apply Hi| |apply NoDup_singleton].
  intros k Hk Hx. apply list_elem_of_singleton in Hx as ->. apply not_true_iff_false in Hn. apply Hn, has_event_spec. exact Hk.
Qed.

Section Facts.
Context {B : Type} `{BK : !MessagingBackend B} `{BE : !BrokerEnv} `{IE : !InboundEnv}.

Ltac grow_with put := cbv zeta; repeat lazymatch goal with
  | |- keeps _ (bind _ _) => apply keeps_bind; [apply _| |intros ?]
  | |- keeps _ (ret _) => apply keeps_ret; apply _
  | |- keeps _ (throw _) => apply keeps_throw; apply _
  | |- keeps _ (answer _) => apply keeps_answer; apply _
  | |- keeps _ (look _) => apply keeps_look; apply _
  | |- keeps _ (found _ _) => apply keeps_found; apply _
  | |- keeps _ (reject _ _) => apply keeps_reject; apply _
  | |- keeps _ (ignore _) => apply keeps_ignore
  | |- keeps (unchanged _) (record _) => apply unchanged_record; apply _
  | |- keeps _ (prepareAdapterCall _) => apply keeps_prepare; apply _
  | |- keeps _ (tick _) => apply keeps_tick; apply _
  | |- keeps _ now => apply keeps_tick; apply _
  | |- keeps _ newID => apply keeps_tick; apply _
  | |- keeps _ (request _) => put
  | |- keeps _ (if _ then _ else _) => progress case_match
  | |- keeps _ (match _ with _ => _ end) => progress case_match
  end.

(** What filling in an event writes. *)
Definition fills (op : index_op) : Prop := match op with OpPutConversation _ | OpPutMessage _ | OpPutPlacement _ => True | _ => False end.

Section Fill.
Context (P : recordIndex -> recordIndex -> Prop) `{HP : !PreOrder P} (Hput : forall op, fills op -> forall i, P i (run_index i op)).
#[local] Instance fill_frame : Frame (unchanged (B := B) P) := unchanged_frame P.

Lemma fill_keeps valid write op : fills op -> keeps (unchanged (B := B) P) (request (commit valid write op)).
Proof using HP Hput. intros Hop. apply unchanged_commit; [apply _|]. by apply Hput. Qed.

Ltac fill := grow_with ltac:(by apply fill_keeps).

Lemma conversations_keep wanted cs : keeps (unchanged P) (storeConversations wanted cs).
Proof using HP Hput. induction cs as [|c cs IH]; cbn [storeConversations]; fill. exact IH. Qed.

Lemma pages_keep fuel c wanted cursor : keeps (unchanged P) (listPages fuel c wanted cursor).
Proof using HP Hput. revert cursor. induction fuel as [|fuel IH]; intros cursor; cbn [listPages]; fill; [apply conversations_keep|apply IH]. Qed.

Lemma placements_keep c m ps : keeps (unchanged P) (storePlacements c m ps).
Proof using HP Hput. induction ps as [|p ps IH]; cbn [storePlacements]; fill. exact IH. Qed.

Lemma hydrate_keeps fuel c e : keeps (unchanged P) (hydrateEvent fuel c e).
Proof using HP Hput. unfold hydrateEvent, ensureConversation, syncMessage. fill; [apply pages_keep|apply placements_keep]. Qed.
End Fill.

Abbreviation growing := (unchanged (B := B) logs_grow).
#[local] Instance growing_frame : Frame growing := unchanged_frame logs_grow.

Lemma append_grows env e : keeps growing (request (AppendEvent env e)).
Proof.
  intros w w' r. unfold request, AppendEvent, loggedEvent, recordEvent. destruct (is_ok _ && _) eqn:Eh; [intros [= <- <-] i Hi; by exists i|].
  unfold commit. destruct (Event_Validate e) as [u|err] eqn:Ev; [|intros [= <- <-] i Hi; by exists i].
  destruct (bkAppendEvent env e _) as [b [u'|err]]; intros [= <- <-] i Hi; cbn [wStore stIndex]; [|by exists i].
  exists (appendEvent (evConnectionID e) e i). unfold ensureIndex. rewrite Hi in *. split; [done|]. cbn in Eh. split; [done| |].
  - intros c k Hk. apply append_has. by right.
  - by apply append_once.
Qed.

Ltac grow := grow_with ltac:(apply append_grows).

Lemma hydrate_grows fuel c e : keeps growing (hydrateEvent fuel c e).
Proof. apply hydrate_keeps; [apply _|]. intros [] Hop i; try done; by apply same_logs. Qed.

Lemma storeEvent_grows fuel c raw acc : keeps growing (storeEvent fuel c raw acc).
Proof. unfold storeEvent. grow. apply hydrate_grows. Qed.

Lemma storeEvents_grow fuel c raws acc : keeps growing (storeEvents fuel c raws acc).
Proof. revert acc. induction raws as [|raw raws IH]; intros acc; cbn [storeEvents]; grow; [apply storeEvent_grows|apply IH]. Qed.

(** The event is in the log of its connection. *)
Definition logged (c : string) (i : recordIndex) (raw : Event) : Prop :=
  let e := completeEvent c 0 raw in hasConnectionEvent (evConnectionID e) (evID e) i = true.

Lemma logged_grow c i j raw : logs_grow i j -> logged c i raw -> logged c j raw.
Proof. intros Hg. apply (lg_has _ _ Hg). Qed.

Lemma complete_keys c at_ raw : evConnectionID (completeEvent c at_ raw) = evConnectionID (completeEvent c 0 raw) /\ evID (completeEvent c at_ raw) = evID (completeEvent c 0 raw).
Proof. done. Qed.

Lemma append_logged c at_ raw env w w' i :
  stIndex (wStore w) = Some i -> request (AppendEvent env (completeEvent c at_ raw)) w = (w', Ok tt) ->
  exists j, stIndex (wStore w') = Some j /\ logged c j raw.
Proof.
  intros Hi H. destruct (append_grows _ _ _ _ _ H i Hi) as (j & Hj & _). exists j. split; [done|].
  unfold logged. destruct (complete_keys c at_ raw) as [<- <-].
  unfold request, AppendEvent, loggedEvent, recordEvent in H. rewrite Hi in H. destruct (is_ok _ && _) eqn:Eh.
  { injection H as <-. cbn [wStore] in Hj. rewrite Hi in Hj. injection Hj as <-. by apply andb_true_iff in Eh as [_ ?]. }
  clear Eh. unfold commit in H. destruct (Event_Validate _); [|done]. destruct (bkAppendEvent _ _ _) as [b [u|err]]; [|done].
  injection H as <-. cbn [wStore stIndex] in Hj. injection Hj as <-. apply append_has. by left.
Qed.

Lemma storeEvent_logged fuel c raw acc w w' acc' i :
  stIndex (wStore w) = Some i -> storeEvent fuel c raw acc w = (w', Ok acc') ->
  exists j, stIndex (wStore w') = Some j /\ logs_grow i j /\ logged c j raw.
Proof.
  intros Hi H. destruct (storeEvent_grows _ _ _ _ _ _ _ H i Hi) as (j & Hj & Hg). exists j. split_and!; [done|done|].
  unfold storeEvent in H. apply bind_run in H as [(w1 & at_ & H1 & H)|(? & _ & ?)]; [|done].
  assert (keeps growing (if time_IsZero (evTimestamp raw) then now else ret (evTimestamp raw))) as Hn by grow.
  destruct (Hn _ _ _ H1 i Hi) as (i1 & Hi1 & _). unfold bind at 1, tick in H.
  apply bind_run in H as [(w2 & [] & H2 & H)|(? & _ & ?)]; [|done].
  destruct (append_logged _ _ _ _ (mkWorld (wStore w1) (wTick w1 + 1) (wCalls w1)) _ i1 Hi1 H2) as (i2 & Hi2 & Hl).
  apply bind_run in H as [(w3 & filled & H3 & H)|(? & _ & ?)]; [|done]. apply ret_run in H as [-> _].
  destruct (hydrate_grows _ _ _ _ _ _ H3 i2 Hi2) as (i3 & Hi3 & Hg3). rewrite Hj in Hi3. injection Hi3 as <-. by eapply logged_grow.
Qed.

Lemma storeEvents_logged fuel c raws acc w w' acc' i :
  stIndex (wStore w) = Some i -> storeEvents fuel c raws acc w = (w', Ok acc') ->
  exists j, stIndex (wStore w') = Some j /\ logs_grow i j /\ Forall (logged c j) raws.
Proof.
  revert acc w i. induction raws as [|raw raws IH]; intros acc w i Hi H; cbn [storeEvents] in H.
  - apply ret_run in H as [-> _]. exists i. split_and!; [done|done|constructor].
  - apply bind_run in H as [(w1 & acc1 & H1 & H)|(? & _ & ?)]; [|done].
    destruct (storeEvent_logged _ _ _ _ _ _ _ _ Hi H1) as (j & Hj & Hg & Hl). destruct (IH _ _ _ Hj H) as (k & Hk & Hg' & Hls).
    exists k. split_and!; [done|by etrans|]. constructor; [by eapply logged_grow|done].
Qed.

(** The index after a checkpoint: the logs stay. *)
Lemma checkpoint_run c ck w w' r i :
  stIndex (wStore w) = Some i -> storeCheckpoint c ck w = (w', r) ->
  exists j, stIndex (wStore w') = Some j /\ ixEvents j = ixEvents i /\
    (ixCheckpoints j = ixCheckpoints i \/ exists x, ck <> None /\ ixCheckpoints j = <[c := x]> (ixCheckpoints i)).
Proof.
  intros Hi H. unfold storeCheckpoint in H. destruct ck as [k|]; [|injection H as <- _; exists i; auto].
  set (P := fun i j : recordIndex => ixEvents j = ixEvents i /\
    (ixCheckpoints j = ixCheckpoints i \/ exists x, ixCheckpoints j = <[c := x]> (ixCheckpoints i))).
  assert (PreOrder P) as HP.
  { split; [intros x; split; auto|]. intros x y z [E1 C1] [E2 C2]. split; [by rewrite E2|].
    destruct C1 as [C1|[x1 C1]], C2 as [C2|[x2 C2]]; rewrite C2, C1; [auto|eauto..|]. right. exists x2. apply insert_insert_eq. }
  assert (keeps (unchanged P) (at_ <- (if time_IsZero (ckUpdatedAt k) then now else ret (ckUpdatedAt k)) ;;
    request (PutCheckpoint c (mkCheckpoint (ckCursor k) (ckSequence k) (ckMetadata k) at_)) ;;
    ret (Some (mkCheckpoint (ckCursor k) (ckSequence k) (ckMetadata k) at_)))%broker) as Hk.
  { pose proof (unchanged_frame (B := B) P). apply keeps_bind; [apply _|case_match; [apply keeps_tick|apply keeps_ret]; apply _|intros at_].
    apply keeps_bind; [apply _| |intros _; apply keeps_ret; apply _]. apply unchanged_commit; [apply _|]. intros x. split; [done|]. right. by eexists. }
  destruct (Hk _ _ _ H i Hi) as (j & Hj & He & Hc). exists j. split_and!; [done|done|]. destruct Hc as [Hc|[x Hc]]; [auto|right; exists x; done].
Qed.

Lemma persist_run fuel c raws ck w w' r i :
  stIndex (wStore w) = Some i -> persistInboundResult fuel c raws ck w = (w', r) ->
  exists i1 j, stIndex (wStore w') = Some j /\ logs_grow i i1 /\ ixEvents j = ixEvents i1 /\
    (ixCheckpoints j = ixCheckpoints i \/ Forall (logged c j) raws /\ exists x, ck <> None /\ ixCheckpoints j = <[c := x]> (ixCheckpoints i)) /\
    (is_ok r = true -> Forall (logged c j) raws).
Proof.
  intros Hi H. unfold persistInboundResult in H. apply bind_run in H as [(w1 & acc & H1 & H)|(e & H1 & ->)].
  2: { destruct (storeEvents_grow _ _ _ _ _ _ _ H1 i Hi) as (j & Hj & Hg). exists j, j. split_and!; [done|done|done| |done].
       left. apply (lg_checkpoints _ _ Hg). }
  destruct (storeEvents_logged _ _ _ _ _ _ _ _ Hi H1) as (i1 & Hi1 & Hg & Hl).
  assert (exists r', storeCheckpoint c ck w1 = (w', r')) as [r' Hck].
  { apply bind_run in H as [(w2 & x & H2 & H)|(e & H2 & _)]; [|by exists (Err e)]. exists (Ok x). by injection H as <- _. }
  destruct (checkpoint_run _ _ _ _ _ _ Hi1 Hck) as (j & Hj & He & Hc). exists i1, j.
  assert (Forall (logged c j) raws) as Hlj.
  { eapply Forall_impl; [exact Hl|]. intros raw. unfold logged, hasConnectionEvent. by rewrite He. }
  split_and!; [done|done|done| |done]. rewrite <- (lg_checkpoints _ _ Hg). destruct Hc as [Hc|Hc]; [auto|right; done].
Qed.

(** C13 (safety). The checkpoint of a connection moves only after every event of the
    batch is in the log of its connection; wherever storing a batch stops, the next
    poll starts from a checkpoint that lost nothing, and no other connection's
    checkpoint moves. *)
Theorem inbound_checkpoint_follows_events fuel c raws ck w w' r i
  (Hi : stIndex (wStore w) = Some i) (Hrun : persistInboundResult fuel c raws ck w = (w', r)) :
  exists j, stIndex (wStore w') = Some j /\
    (ixCheckpoints j <> ixCheckpoints i -> Forall (logged c j) raws) /\
    (forall d, d <> c -> ixCheckpoints j !! d = ixCheckpoints i !! d) /\
    (forall d e, hasConnectionEvent d e i = true -> hasConnectionEvent d e j = true).
Proof.
  destruct (persist_run _ _ _ _ _ _ _ _ Hi Hrun) as (i1 & j & Hj & Hg & He & Hc & _). exists j. split_and!; [done| | |].
  - destruct Hc as [Hc|[Hl _]]; [by rewrite Hc|done].
  - intros d Hd. destruct Hc as [->|(_ & x & _ & ->)]; [done|by rewrite lookup_insert_ne].
  - intros d e. unfold hasConnectionEvent at 2. rewrite He. apply (lg_has _ _ Hg).
Qed.

(** Events that are all in their logs are not stored again. *)
Lemma append_again c at_ raw env w w' r i :
  stIndex (wStore w) = Some i -> logged c i raw -> request (AppendEvent env (completeEvent c at_ raw)) w = (w', r) -> wStore w' = wStore w.
Proof.
  intros Hi Hl. unfold logged in Hl. destruct (complete_keys c at_ raw) as [E1 E2]. rewrite <- E1, <- E2 in Hl.
  unfold request, AppendEvent, loggedEvent, recordEvent, commit. rewrite Hi, Hl, andb_true_r. destruct (Event_Validate (completeEvent c at_ raw)) eqn:Ev; cbn; by intros [= <- <-].
Qed.

Definition same_events (i j : recordIndex) : Prop := ixEvents j = ixEvents i /\ ixCheckpoints j = ixCheckpoints i.
#[local] Instance same_events_pre : PreOrder same_events.
Proof. split; [by split|]. intros i j k [E1 E2] [F1 F2]. split; [by rewrite F1|by rewrite F2]. Qed.
Abbreviation same_logs_only := (unchanged (B := B) same_events).
#[local] Instance same_logs_only_frame : Frame same_logs_only := unchanged_frame same_events.

Lemma storeEvent_again fuel c raw acc w w' r i :
  stIndex (wStore w) = Some i -> logged c i raw -> storeEvent fuel c raw acc w = (w', r) ->
  exists j, stIndex (wStore w') = Some j /\ same_events i j.
Proof.
  intros Hi Hl H. unfold storeEvent in H.
  assert (keeps same_logs_only (if time_IsZero (evTimestamp raw) then now else ret (evTimestamp raw))) as Hn by grow.
  apply bind_run in H as [(w1 & at_ & H1 & H)|(e & H1 & ->)]; [|by apply (Hn _ _ _ H1)].
  destruct (Hn _ _ _ H1 i Hi) as (i1 & Hi1 & Hs1). unfold bind at 1, tick in H.
  assert (logged c i1 raw) as Hl1 by (destruct Hs1 as [E _]; unfold logged, hasConnectionEvent in *; by rewrite E).
  apply bind_run in H as [(w2 & u & H2 & H)|(e & H2 & ->)];
    apply (append_again c at_ raw _ (mkWorld (wStore w1) (wTick w1 + 1) (wCalls w1)) _ _ i1 Hi1 Hl1) in H2; cbn [wStore] in H2; rewrite <- H2 in Hi1.
  2: { by exists i1. }
  assert (keeps same_logs_only (filled <- hydrateEvent fuel c (completeEvent c at_ raw) ;;
    ret (mkInbound (inEvents acc ++ [completeEvent c at_ raw]) (appendIfMissing cvID (inConversations acc) filled.1) (appendIfMissing msID (inMessages acc) filled.2) None))%broker) as Hh.
  { grow. apply hydrate_keeps; [apply _|]. intros [] Hop i0; by try done. }
  destruct (Hh _ _ _ H i1 Hi1) as (j & Hj & Hs). exists j. split; [done|by etrans].
Qed.

Lemma storeEvents_again fuel c raws acc w w' r i :
  stIndex (wStore w) = Some i -> Forall (logged c i) raws -> storeEvents fuel c raws acc w = (w', r) ->
  exists j, stIndex (wStore w') = Some j /\ same_events i j.
Proof.
  revert acc w i. induction raws as [|raw raws IH]; intros acc w i Hi Hl H; cbn [storeEvents] in H.
  - injection H as <- _. by exists i.
  - inversion Hl as [|? ? Hr Hls]; subst. apply bind_run in H as [(w1 & acc1 & H1 & H)|(e & H1 & ->)]; [|by eapply storeEvent_again].
    destruct (storeEvent_again _ _ _ _ _ _ _ _ Hi Hr H1) as (j & Hj & Hs).
    assert (Forall (logged c j) raws) as Hlj.
    { eapply Forall_impl; [exact Hls|]. intros x Hx. unfold logged, hasConnectionEvent in *. destruct Hs as [E _]. by rewrite E. }
    destruct (IH _ _ _ Hj Hlj H) as (k & Hk & Hs'). exists k. split; [done|by etrans].
Qed.

(** C32 (equivalence). A batch that was stored and comes a second time, with no other request in
    between, leaves every log as it was, whether or not its checkpoint is kept this
    time: an event without an identifier gets the same one again, though the clock
    has moved. *)
Theorem inbound_replay_adds_nothing fuel fuel' c raws ck ck' w w1 w2 x r i
  (Hi : stIndex (wStore w) = Some i)
  (Hfirst : persistInboundResult fuel c raws ck w = (w1, Ok x)) (Hagain : persistInboundResult fuel' c raws ck' w1 = (w2, r)) :
  exists j k, stIndex (wStore w1) = Some j /\ stIndex (wStore w2) = Some k /\ ixEvents k = ixEvents j.
Proof.
  destruct (persist_run _ _ _ _ _ _ _ _ Hi Hfirst) as (_ & j & Hj & _ & _ & _ & Hl). specialize (Hl eq_refl).
  exists j. unfold persistInboundResult in Hagain. apply bind_run in Hagain as [(w3 & acc & H1 & H)|(e & H1 & ->)];
    destruct (storeEvents_again _ _ _ _ _ _ _ _ Hj Hl H1) as (k & Hk & E & _); [|by exists k].
  assert (exists r', storeCheckpoint c ck' w3 = (w2, r')) as [r' Hck].
  { apply bind_run in H as [(w4 & y & H2 & H)|(e & H2 & _)]; [|by exists (Err e)]. exists (Ok y). by injection H as <- _. }
  destruct (checkpoint_run _ _ _ _ _ _ Hk Hck) as (l & Hl' & E' & _). exists l. split_and!; [done|done|by rewrite E'].
Qed.

(** ** Every operation of a broker *)

(** What an operation keeps of the store; the set of managed processes is free. *)
Definition skeeps {A} (R : World B -> World B -> Prop) (m : S_ B A) : Prop := forall s s' r, m s = (s', r) -> R (suWorld s) (suWorld s').

Section SuperKeeps.
Context (R : World B -> World B -> Prop) `{HR : !Frame R}.

Lemma skeeps_bind {A C} (m : S_ B A) (f : A -> S_ B C) : skeeps R m -> (forall x, skeeps R (f x)) -> skeeps R (sbind m f).
Proof using HR.
  intros Hm Hf s s' r. unfold sbind. destruct (m s) as [s1 [x|e]] eqn:E; intros H; [etrans; [by eapply Hm|by eapply Hf]|].
  injection H as <- <-. by eapply Hm.
Qed.
Lemma skeeps_lift {A} (m : M B A) : keeps R m -> skeeps R (lift m).
Proof using Type. intros Hm s s' r. unfold lift. destruct (m (suWorld s)) as [w x] eqn:E. intros [= <- <-]. by eapply Hm. Qed.
Lemma skeeps_still {A} (f : Super B -> gset string) (r : Super B -> result string A) :
  skeeps R (fun s => (mkSuper (suWorld s) (f s), r s)).
Proof using HR. intros s s' x [= <- <-]. done. Qed.
Lemma skeeps_ret {A} (x : A) : skeeps R (sret x).
Proof using HR. intros s s' r [= <- <-]. done. Qed.
Lemma skeeps_throw {A} e : skeeps R (sthrow (A := A) e).
Proof using HR. intros s s' r [= <- <-]. done. Qed.
Lemma skeeps_get k : skeeps R (managerGet k).
Proof using HR. intros s s' r [= <- <-]. done. Qed.
Lemma skeeps_add k : skeeps R (managerAdd k).
Proof using HR. intros s s' r. unfold managerAdd. repeat case_match; by intros [= <- <-]. Qed.
Lemma skeeps_remove k : skeeps R (managerRemove k).
Proof using HR. intros s s' r. unfold managerRemove. case_match; by intros [= <- <-]. Qed.
Lemma skeeps_removeIf k : skeeps R (removeManagedAdapterIfPresent k).
Proof using HR. apply skeeps_bind; [apply skeeps_get|]. intros []; [apply skeeps_remove|apply skeeps_ret]. Qed.
End SuperKeeps.

Ltac skeep put := cbv zeta; repeat lazymatch goal with
  | |- skeeps _ (sbind _ _) => apply skeeps_bind; [apply _| |intros ?]
  | |- skeeps _ (sret _) => apply skeeps_ret; apply _
  | |- skeeps _ (sthrow _) => apply skeeps_throw; apply _
  | |- skeeps _ (managerGet _) => apply skeeps_get; apply _
  | |- skeeps _ (managerAdd _) => apply skeeps_add; apply _
  | |- skeeps _ (managerRemove _) => apply skeeps_remove; apply _
  | |- skeeps _ (removeManagedAdapterIfPresent _) => apply skeeps_removeIf; apply _
  | |- skeeps _ (lift _) => apply skeeps_lift; grow_with put
  | |- skeeps _ (if _ then _ else _) => progress case_match
  | |- skeeps _ (match _ with _ => _ end) => progress case_match
  end.

(** A request to a broker. *)
Inductive SuperOp :=
| SuBroker (op : BrokerOp) | SuPoll (fuel : nat) (connectionID : string) (limit : Z)
| SuWebhook (fuel : nat) (connectionID : string) (r : WebhookRequest)
| SuCreate (c : Connection) (process : result string unit) | SuUpsert (c : Connection) (process : result string unit)
| SuConnect (connectionID : string) | SuRefresh (connectionID : string)
| SuDisable (connectionID : string) | SuDelete (connectionID : string).

Definition run_super (op : SuperOp) (s : Super B) : Super B :=
  match op with
  | SuBroker op => mkSuper (run_broker op (suWorld s)) (suManaged s)
  | SuPoll fuel c limit => (lift (PollConnection fuel c limit) s).1
  | SuWebhook fuel c r => (lift (HandleWebhookConnection fuel c r) s).1
  | SuCreate c process => (CreateConnection c process s).1
  | SuUpsert c process => (UpsertConnection c process s).1
  | SuConnect c => (ConnectConnection c s).1
  | SuRefresh c => (RefreshConnection c s).1
  | SuDisable c => (DisableConnection c s).1
  | SuDelete c => (DeleteConnection_ c s).1
  end.

Definition stays_once (i j : recordIndex) : Prop := events_once i -> events_once j.
#[local] Instance stays_once_pre : PreOrder stays_once.
Proof. split; [by intros i H|]. intros i j k H1 H2 H. by apply H2, H1. Qed.
Abbreviation no_repeat := (unchanged (B := B) stays_once).
#[local] Instance once_frame : Frame no_repeat := unchanged_frame stays_once.

Lemma same_once i j : ixEvents j = ixEvents i -> stays_once i j.
Proof. intros E H c. unfold listConnectionEvents. rewrite E. apply H. Qed.

Lemma put_identity_events i xs : ixEvents (foldl (fun i x => putIdentity x i) i xs) = ixEvents i.
Proof. revert i. induction xs as [|x xs IH]; intros i; [done|]. cbn [foldl]. by rewrite IH. Qed.

Lemma delete_placements_events i kps : ixEvents (deletePlacements kps i) = ixEvents i.
Proof.
  unfold deletePlacements. revert i. induction kps as [|[[m k] p] kps IH]; intros i; [done|]. cbn [foldl]. rewrite IH.
  unfold deletePlacement. by case_match.
Qed.

Lemma run_once op i : match op with OpAppendEvent _ => False | _ => True end -> stays_once i (run_index i op).
Proof.
  intros Hop. destruct op; try (by apply same_once); try done; cbn [run_index].
  - intros H d. unfold listConnectionEvents. assert (ixEvents (deleteConnection c i) = delete c (ixEvents i)) as ->.
    { unfold deleteConnection. cbv zeta. cbn. by rewrite delete_placements_events. }
    destruct (decide (d = c)) as [->|Hne]; [rewrite lookup_delete_eq; constructor|rewrite lookup_delete_ne by done; apply H].
  - apply same_once. unfold replaceConnectionIdentities. by rewrite put_identity_events.
  - apply same_once. unfold deletePlacement. by case_match.
Qed.

Lemma once_commit valid write op :
  match op with OpAppendEvent _ => False | _ => True end -> keeps no_repeat (request (commit valid write op)).
Proof. intros Hop. apply unchanged_commit; [apply _|]. intros i. by apply run_once. Qed.
Lemma once_append env e : keeps no_repeat (request (AppendEvent env e)).
Proof. intros w w' r H i Hi. destruct (append_grows env e w w' r H i Hi) as (j & Hj & Hg). exists j. split; [done|]. unfold stays_once. apply (lg_once _ _ Hg). Qed.
Lemma once_activity env e : keeps no_repeat (request (AppendActivityEvent env e)).
Proof. apply unchanged_activity; [apply _|]. intros i. by apply run_once. Qed.

Ltac put_once := first [apply once_append | apply once_activity | by apply once_commit].
Ltac grow_once := grow_with put_once.

Lemma hydrate_once fuel c e : keeps no_repeat (hydrateEvent fuel c e).
Proof. apply hydrate_keeps; [apply _|]. intros [] Hop i; try done; by apply run_once. Qed.

Lemma persist_once fuel c raws ck : keeps no_repeat (persistInboundResult fuel c raws ck).
Proof.
  unfold persistInboundResult, storeCheckpoint. grow_once. generalize (mkInbound [] [] [] None) as acc.
  induction raws as [|raw raws IH]; intros acc; cbn [storeEvents]; unfold storeEvent; grow_once; [apply hydrate_once|apply IH].
Qed.

Lemma inbound_once fuel c limit r : keeps no_repeat (PollConnection fuel c limit) /\ keeps no_repeat (HandleWebhookConnection fuel c r).
Proof.
  split; unfold PollConnection, HandleWebhookConnection, normalizeWebhookRequest, stageWebhookBody; grow_once; apply persist_once.
Qed.

Lemma broker_once op w : no_repeat w (run_broker op w).
Proof.
  destruct op; unfold run_broker, CreateDraft, UpdateDraft, ApproveDraftSend, RejectDraftSend;
    match goal with |- no_repeat w (?m w).1 => cut (keeps no_repeat m); [intros H; exact (H _ _ _ (surjective_pairing _))|] end;
    unfold saveDraft, supersede, cancelApproval, nativeDraft, RequestSendDraft, createSendApproval, createMailboxApproval, sendDraftNow, deliver, sendFailed,
      sendDenied, awaitApproval, ensureDraftWorkflow, resolveApproval, resolveMailboxApproval, appendEvent_, appendWorkflowActivity; grow_once.
Qed.

Lemma identities_once c at_ ids : keeps no_repeat (identityEvents c at_ ids).
Proof. induction ids as [|x ids IH]; cbn [identityEvents]; unfold statusEvent; grow_once. exact IH. Qed.

Lemma persistConnection_once c r b : keeps no_repeat (persistConnectionResult c r b).
Proof. unfold persistConnectionResult, statusEvent. grow_once; apply identities_once. Qed.

(** The record is written last; where that fails, the process goes too. *)
Lemma record_once (m : M B unit) k (c : Connection) : keeps no_repeat m -> skeeps no_repeat (fun s =>
  match lift m s with (s, Ok _) => (s, Ok c) | (s, Err e) => ((signore (removeManagedAdapterIfPresent k) s).1, Err e) end).
Proof.
  intros Hm s s' r. destruct (lift m s) as [s1 x] eqn:E. assert (no_repeat (suWorld s) (suWorld s1)) as H by exact (skeeps_lift _ _ Hm _ _ _ E).
  destruct x as [u|e]; intros [= <- <-]; [exact H|]. etrans; [exact H|]. unfold signore.
  destruct (removeManagedAdapterIfPresent k s1) as [s2 y] eqn:E2. exact (skeeps_removeIf no_repeat _ _ _ _ E2).
Qed.

Lemma create_once c process replace : skeeps no_repeat (createManagedConnection c process replace).
Proof. unfold createManagedConnection. skeep put_once; apply record_once; grow_once. Qed.

Lemma connection_once c :
  skeeps no_repeat (ConnectConnection c) /\ skeeps no_repeat (RefreshConnection c) /\ skeeps no_repeat (DisableConnection c) /\ skeeps no_repeat (DeleteConnection_ c).
Proof.
  unfold ConnectConnection, RefreshConnection, beginRefresh, finishRefresh, DisableConnection, DeleteConnection_, prepareConnection, statusEvent.
  split_and!; skeep put_once; apply persistConnection_once.
Qed.

Lemma run_super_once op s : no_repeat (suWorld s) (suWorld (run_super op s)).
Proof.
  destruct op; unfold run_super, CreateConnection, UpsertConnection; [apply broker_once|..];
    match goal with |- no_repeat _ (suWorld (?m s).1) => cut (skeeps no_repeat m); [intros H; exact (H _ _ _ (surjective_pairing _))|] end;
    first [apply create_once | apply connection_once | apply skeeps_lift; refine (proj1 (inbound_once _ _ _ _)) | apply skeeps_lift; refine (proj2 (inbound_once _ _ _ _))].
  all: try exact 0. all: exact (mkWebhook "" "" "" ∅ ∅ "" "" 0).
Qed.

(** As long as one request comes after another, no event is twice in
    the log of a connection, whatever the requests about drafts, polls, webhooks and
    connections are and whatever the adapters report.  Two requests at the same time
    can log one twice ([msg_event_race_twice]). *)
Theorem inbound_events_once ops s i
  (Hi : stIndex (wStore (suWorld s)) = Some i) (Honce : events_once i) :
  exists j, stIndex (wStore (suWorld (foldl (fun s op => run_super op s) s ops))) = Some j /\ events_once j.
Proof.
  revert s i Hi Honce. induction ops as [|op ops IH]; intros s i Hi Honce; cbn [foldl]; [by exists i|].
  destruct (run_super_once op s i Hi) as (j & Hj & Hs). by apply (IH _ j Hj), Hs.
Qed.

(** ** Listings that end, and one that does not *)

(** The pages of the adapter go down a rank. *)
Definition pages_descend (c : string) (rank : string -> nat) : Prop :=
  forall t cursor cs next, in_conversations t c cursor = Ok (cs, next) -> isBlank next = false -> (rank next < rank cursor)%nat.

(** The search for a conversation ends where the adapter's cursors
    go down: past the rank of the first cursor, more pages change nothing. *)
Theorem inbound_listing_ends c rank wanted cursor n m w
  (Hdown : pages_descend c rank) (Hn : (rank cursor < n)%nat) (Hm : (rank cursor < m)%nat) :
  listPages n c wanted cursor w = listPages m c wanted cursor w.
Proof.
  revert m cursor w Hn Hm. induction n as [|n IH]; intros [|m] cursor w Hn Hm; [lia..|]. cbn [listPages].
  unfold bind at 1 3, tick. cbv beta iota. destruct (in_conversations (wTick w) c cursor) as [[cs next]|[]] eqn:E; [|done..].
  unfold bind. destruct (storeConversations _ _ _) as [w' [[x|]|e]]; [done| |done].
  destruct (isBlank next) eqn:Eb; [done|]. pose proof (Hdown _ _ _ _ E Eb). apply IH; lia.
Qed.

(** An adapter that answers every page with one more cursor and no
    conversation keeps the broker listing for ever: no number of pages is enough. *)
Theorem inbound_listing_endless c wanted cursor n w
  (Hmore : forall t cursor, exists next, in_conversations t c cursor = Ok ([], next) /\ isBlank next = false) :
  exists w', listPages n c wanted cursor w = (w', Err stillListing).
Proof.
  revert cursor w. induction n as [|n IH]; intros cursor w; cbn [listPages]; [by exists w|].
  destruct (Hmore (wTick w) cursor) as (next & E & Eb). unfold bind, tick. rewrite E. cbn. rewrite Eb. apply IH.
Qed.

(** ** Connections *)

(** The delay before a restart doubles from the base and is cut at the
    maximum: it is never longer, and the doubling never leaves the integers. *)
Theorem messaging_restart_backoff base max failures
  (Hbase : 0 < base) (Hmax : 0 <= max) (Heven : Z.Even max) :
  restartBackoff base max failures = if failures <=? 0 then 0 else Z.min max (base * 2 ^ (failures - 1)).
Proof.
  unfold restartBackoff. destruct (Z.leb_spec failures 0) as [|Hf]; [done|].
  assert (forall n b, 0 < b -> doubledBelow n b max = Z.min max (b * 2 ^ Z.of_nat n)) as H.
  { destruct Heven as [h ->]. induction n as [|n IH]; intros b Hb; cbn [doubledBelow].
    - rewrite Z.mul_1_r. destruct (Z.ltb_spec (2 * h) b); lia.
    - rewrite Z.mul_comm, Z.quot_mul by lia. rewrite Nat2Z.inj_succ, Z.pow_succ_r by lia.
      destruct (Z.leb_spec h b); [|rewrite (Z.mul_comm h 2), IH by lia; f_equal; ring]. pose proof (Z.pow_pos_nonneg 2 (Z.of_nat n)). nia. }
  rewrite H by done. by rewrite Z2Nat.id by lia.
Qed.

Lemma sbind_run {A C} (m : S_ B A) (f : A -> S_ B C) s s' r :
  sbind m f s = (s', r) -> (exists s1 x, m s = (s1, Ok x) /\ f x s1 = (s', r)) \/ (exists e, m s = (s', Err e) /\ r = Err e).
Proof. unfold sbind. destruct (m s) as [s1 [x|e]]; intros H; [left; by exists s1, x|right; injection H as <- <-; by exists e]. Qed.

Lemma sbind_assoc {A C D} (m : S_ B A) (f : A -> S_ B C) (g : C -> S_ B D) s : sbind (sbind m f) g s = sbind m (fun x => sbind (f x) g) s.
Proof. unfold sbind. by destruct (m s) as [s1 [x|e]]. Qed.

Lemma lift_run {A} (m : M B A) s s' r : lift m s = (s', r) -> m (suWorld s) = (suWorld s', r) /\ suManaged s' = suManaged s.
Proof. unfold lift. destruct (m (suWorld s)). by intros [= <- <-]. Qed.

Lemma removeIf_run k (s s' : Super B) u : removeManagedAdapterIfPresent k s = (s', u) -> u = Ok tt /\ s' = mkSuper (suWorld s) (suManaged s ∖ {[k]}).
Proof.
  unfold removeManagedAdapterIfPresent, sbind, managerGet. destruct (bool_decide_reflect (k ∈ suManaged s)) as [Hk|Hk].
  - unfold managerRemove. rewrite bool_decide_eq_true_2 by done. by intros [= <- <-].
  - intros [= <- <-]. split; [done|]. destruct s as [w ks]. cbn [suWorld suManaged] in *. f_equal. set_solver.
Qed.

(** The steps of a run that went well, one by one. *)
Ltac step H := apply sbind_run in H as [(?s & ?x & ?H1 & H)|(? & _ & ?)]; [|discriminate].

(** What an operation keeps of the records of connections. *)
Definition same_connections (i j : recordIndex) : Prop := ixConnections j = ixConnections i.
#[local] Instance same_connections_pre : PreOrder same_connections.
Proof. split; [done|]. intros i j k E F. unfold same_connections in *. by rewrite F. Qed.
Abbreviation steady := (unchanged (B := B) same_connections).
#[local] Instance steady_frame : Frame steady := unchanged_frame same_connections.

Lemma statusEvent_steady c at_ md t : keeps steady (statusEvent c at_ md t).
Proof. unfold statusEvent. grow_with ltac:(apply unchanged_event; [apply _|done]). Qed.

Lemma identityEvents_steady c at_ ids : keeps steady (identityEvents c at_ ids).
Proof. induction ids as [|x ids IH]; cbn [identityEvents]; grow_with fail; [apply statusEvent_steady|exact IH]. Qed.

Lemma put_identities_steady i xs : ixConnections (foldl (fun i x => putIdentity x i) i xs) = ixConnections i.
Proof. revert i. induction xs as [|x xs IH]; intros i; [done|]. cbn [foldl]. by rewrite IH. Qed.

(** The connection as it is stored after an answer of the adapter. *)
Lemma persistConnection_run c a b w w' d i :
  stIndex (wStore w) = Some i -> persistConnectionResult c a b w = (w', Ok d) ->
  (exists at_, d = connected at_ a c) /\ GetConnection (cnID c) (wStore w') = Some d.
Proof.
  intros Hi H. unfold persistConnectionResult in H. unfold bind at 1, now, tick in H. cbv beta zeta iota in H.
  set (d0 := connected _ a c) in *. set (w0 := mkWorld _ _ _) in *. assert (stIndex (wStore w0) = Some i) as Hi0 by done.
  apply bind_run in H as [(w1 & [] & H1 & H)|(? & _ & ?)]; [|done]. apply (committed _ _ _ _ _ _ Hi0) in H1.
  set (rest := bind _ _) in H.
  assert (keeps steady rest) as Hr.
  { unfold rest. grow_with ltac:(apply unchanged_commit; [apply _|]); first [apply statusEvent_steady | apply identityEvents_steady | idtac].
    intros j. unfold run_index, same_connections, replaceConnectionIdentities. by rewrite put_identities_steady. }
  assert (d = d0) as ->.
  { unfold rest in H. do 3 (apply bind_run in H as [(? & ? & _ & H)|(? & _ & ?)]; [|done]). by apply ret_run in H as [_ ->]. }
  split; [by eexists|]. destruct (Hr _ _ _ H _ H1) as (j & Hj & E). unfold GetConnection, store_get, getConnection. rewrite Hj, E. apply lookup_insert_eq.
Qed.

Lemma lift_found {A} what (f : Store B -> option A) (s s' : Super B) x : lift (found what f) s = (s', Ok x) -> s' = s /\ f (wStore (suWorld s)) = Some x.
Proof. intros H. apply lift_run in H as [H E]. apply found_run in H as [H Hf]. split; [destruct s, s'; cbn in *; by subst|done]. Qed.

Lemma lift_keeps {A} (P : recordIndex -> recordIndex -> Prop) (m : M B A) (s s' : Super B) x i :
  keeps (unchanged P) m -> stIndex (wStore (suWorld s)) = Some i -> lift m s = (s', x) ->
  exists j, stIndex (wStore (suWorld s')) = Some j /\ P i j /\ suManaged s' = suManaged s.
Proof. intros Hm Hi H. apply lift_run in H as [H E]. destruct (Hm _ _ _ H i Hi) as (j & Hj & HP). by exists j. Qed.

Lemma lift_committed valid write op (s s' : Super B) i :
  stIndex (wStore (suWorld s)) = Some i -> lift (request (commit valid write op)) s = (s', Ok tt) ->
  stIndex (wStore (suWorld s')) = Some (run_index i op) /\ suManaged s' = suManaged s.
Proof. intros Hi H. apply lift_run in H as [H E]. split; [by eapply committed|done]. Qed.

Lemma lift_tick {A} (f : Z -> A) (s s' : Super B) x i :
  stIndex (wStore (suWorld s)) = Some i -> lift (tick f) s = (s', x) -> stIndex (wStore (suWorld s')) = Some i /\ suManaged s' = suManaged s.
Proof. intros Hi [= <- _]. done. Qed.

Lemma lift_answer {A} (a : result string A) (s s' : Super B) x : lift (answer a) s = (s', Ok x) -> s' = s.
Proof. intros H. apply lift_run in H as [H E]. destruct a; [|done]. injection H as H _. destruct s, s'; cbn in *; by subst. Qed.

(** A connection that was disabled. *)
Lemma disable_run c (s s' : Super B) d i :
  stIndex (wStore (suWorld s)) = Some i -> index_ok i -> DisableConnection c s = (s', Ok d) ->
  exists j, stIndex (wStore (suWorld s')) = Some j /\ cnStatus d = ConnectionStatusDisabled /\ ixConnections j = <[c := d]> (ixConnections i) /\
    suManaged s' = suManaged s ∖ {[c]}.
Proof.
  intros Hi Hok H. unfold DisableConnection in H.
  step H. apply lift_found in H1 as [-> Hc]. assert (cnID x = c) as Hid.
  { unfold GetConnection, store_get in Hc. rewrite Hi in Hc. exact (io_connections _ Hok _ _ Hc). }
  step H. apply removeIf_run in H1 as [_ ->].
  step H. apply (lift_tick be_now (mkSuper (suWorld s) (suManaged s ∖ {[c]})) _ _ _ Hi) in H1 as [Hj E1]. cbn [suManaged] in E1.
  step H. destruct x2. apply (lift_committed _ _ _ _ _ _ Hj) in H1 as [Hj2 E2].
  step H. apply (lift_keeps same_connections _ _ _ _ _ (statusEvent_steady _ _ _ _) Hj2) in H1 as (j3 & Hj3 & C3 & E3).
  step H. apply (lift_tick _ _ _ _ _ Hj3) in H1 as [Hj4 E4].
  step H. apply lift_answer in H1 as ->.
  injection H as <- <-. exists j3. split_and!; [done|done| |by rewrite E4, E3, E2, E1].
  rewrite C3. unfold run_index, putConnection. cbn. by rewrite Hid.
Qed.

(** A disabled connection has no process and takes no call: the
    record says so, and neither a poll nor a webhook reaches the adapter. *)
Theorem connection_disabled_is_silent c (s s' : Super B) d i
  (Hi : stIndex (wStore (suWorld s)) = Some i) (Hok : index_ok i) (Hrun : DisableConnection c s = (s', Ok d)) :
  cnStatus d = ConnectionStatusDisabled /\ GetConnection c (wStore (suWorld s')) = Some d /\ c ∉ suManaged s' /\
  (forall k, k <> c -> GetConnection k (wStore (suWorld s')) = GetConnection k (wStore (suWorld s))) /\
  forall fuel limit r,
    PollConnection fuel c limit (suWorld s') = (suWorld s', Err ("messaging connection " +:+ c +:+ " is disabled")) /\
    HandleWebhookConnection fuel c r (suWorld s') = (suWorld s', Err ("messaging connection " +:+ c +:+ " is disabled")).
Proof.
  destruct (disable_run _ _ _ _ _ Hi Hok Hrun) as (j & Hj & Hs & Hc & Hm).
  assert (GetConnection c (wStore (suWorld s')) = Some d) as Hget.
  { unfold GetConnection, store_get, getConnection. rewrite Hj, Hc. apply lookup_insert_eq. }
  split_and!; [done|done|rewrite Hm; set_solver| |].
  - intros k Hk. unfold GetConnection, store_get, getConnection. by rewrite Hj, Hi, Hc, lookup_insert_ne.
  - intros fuel limit r. unfold PollConnection, HandleWebhookConnection, prepareAdapterCall, bind.
    rewrite !(found_some _ _ _ _ Hget). unfold reject. by rewrite bool_decide_eq_true_2.
Qed.

Lemma begin_run c (s s' : Super B) begun i :
  stIndex (wStore (suWorld s)) = Some i -> beginRefresh c s = (s', Ok begun) ->
  stIndex (wStore (suWorld s')) = Some i /\ ixConnections i !! c = Some begun.1 /\ cnStatus begun.1 <> ConnectionStatusDisabled.
Proof.
  intros Hi H. unfold beginRefresh, prepareConnection in H. step H. step H1. apply lift_found in H0 as [-> Hc].
  unfold GetConnection, store_get, getConnection in Hc. rewrite Hi in Hc.
  destruct (bool_decide_reflect (cnStatus x0 = ConnectionStatusDisabled)) as [|Hst]; [by step H1|]. step H1. injection H0 as <- <-.
  step H1. injection H0 as <- <-. destruct (bool_decide _); [|done]. cbn [negb] in H1.
  step H1. apply (lift_tick _ _ _ _ _ Hi) in H0 as [Hj _]. step H1. apply lift_answer in H0 as ->. injection H1 as <- <-.
  step H. apply (lift_tick _ _ _ _ _ Hj) in H1 as [Hj2 _]. step H. apply lift_answer in H1 as ->.
  step H. apply (lift_tick _ _ _ _ _ Hj2) in H1 as [Hj3 _]. step H. apply lift_answer in H1 as ->.
  by injection H as <- <-.
Qed.

(** A connection disabled while its refresh waits for the adapter is
    enabled again by the answer: the refresh writes the record it read before.  Its
    process is gone, so every call fails until the connection is created anew. *)
Theorem connection_refresh_revives c (s s1 s2 s3 : Super B) begun d e i
  (Hi : stIndex (wStore (suWorld s)) = Some i) (Hok : index_ok i)
  (Hbegin : beginRefresh c s = (s1, Ok begun)) (Hdisable : DisableConnection c s1 = (s2, Ok d)) (Hfinish : finishRefresh begun s2 = (s3, Ok e))
  (Hanswer : caStatus begun.2 <> ConnectionStatusDisabled) :
  cnStatus d = ConnectionStatusDisabled /\ GetConnection c (wStore (suWorld s3)) = Some e /\ cnStatus e <> ConnectionStatusDisabled /\
  c ∉ suManaged s3 /\ prepareConnection c s3 = (s3, Err ("managed adapter " +:+ c +:+ " not found")).
Proof.
  destruct (begin_run _ _ _ _ _ Hi Hbegin) as (Hi1 & Hc & Hst). pose proof (io_connections _ Hok _ _ Hc) as Hid.
  destruct (disable_run _ _ _ _ _ Hi1 Hok Hdisable) as (j & Hj & Hd & _ & Hm).
  unfold finishRefresh in Hfinish. apply lift_run in Hfinish as [Hf Hm']. destruct (persistConnection_run _ _ _ _ _ _ _ Hj Hf) as [[at_ ->] Hget].
  rewrite Hid in Hget. assert (cnStatus (connected at_ begun.2 begun.1) <> ConnectionStatusDisabled) as Hne.
  { unfold connected. cbn. by destruct (isBlank (caStatus begun.2)). }
  assert (c ∉ suManaged s3) as Hnot by (rewrite Hm', Hm; set_solver). split_and!; [done..|].
  unfold prepareConnection, sbind, lift. rewrite (found_some _ _ _ _ Hget). rewrite bool_decide_eq_false_2 by done. cbn. rewrite bool_decide_eq_false_2 by done.
  by destruct s3.
Qed.

(** The managed processes around a creation. *)
Lemma sbind_look {A C} (f : Store B -> A) (g : A -> S_ B C) s : sbind (lift (look f)) g s = g (f (wStore (suWorld s))) s.
Proof. unfold sbind, lift, look. by destruct s. Qed.

Lemma replace_run k replace (s s' : Super B) r :
  (present <- managerGet k ;;
   if present then if negb replace then sthrow ("managed adapter " +:+ k +:+ " already exists") else managerRemove k else sret tt)%super s = (s', r) ->
  suWorld s' = suWorld s /\
  match r with Ok _ => suManaged s' = suManaged s ∖ {[k]} /\ (replace = false -> suManaged s' = suManaged s) | Err _ => suManaged s' = suManaged s end.
Proof.
  unfold sbind, managerGet. destruct (bool_decide_reflect (k ∈ suManaged s)) as [Hk|Hk]; [destruct replace|]; cbn [negb].
  - unfold managerRemove. rewrite bool_decide_eq_true_2 by done. by intros [= <- <-].
  - by intros [= <- <-].
  - intros [= <- <-]. split_and!; [done|set_solver|done].
Qed.

Lemma add_run (b : bool) k (s s' : Super B) r : k ∉ suManaged s -> (if b then managerAdd k else sret tt) s = (s', r) ->
  suWorld s' = suWorld s /\ match r with Ok _ => suManaged s' = (if b then {[k]} ∪ suManaged s else suManaged s) | Err _ => suManaged s' = suManaged s end.
Proof.
  intros Hk. destruct b; [|by intros [= <- <-]]. unfold managerAdd. rewrite (bool_decide_eq_false_2 (k ∈ suManaged s)) by done.
  case_bool_decide; by intros [= <- <-].
Qed.

Lemma commit_failed valid write op (s s' : Super B) e :
  lift (request (commit valid write op)) s = (s', Err e) -> stIndex (wStore (suWorld s')) = stIndex (wStore (suWorld s)) /\ suManaged s' = suManaged s.
Proof.
  intros H. apply lift_run in H as [H E]. split; [|done]. unfold request, commit in H. destruct valid; [|by injection H as <- _].
  destruct (write _) as [b [u|e']]; [done|]. by injection H as <- _.
Qed.

Lemma create_run c process replace (s s' : Super B) r i :
  stIndex (wStore (suWorld s)) = Some i -> createManagedConnection c process replace s = (s', r) ->
  match r with
  | Ok d => stIndex (wStore (suWorld s')) = Some (run_index i (OpPutConnection d)) /\ cnID d = cnID c /\
      suManaged s' = (if bool_decide (cnStatus d <> ConnectionStatusDisabled) then {[cnID c]} ∪ suManaged s else suManaged s ∖ {[cnID c]})
  | Err _ => stIndex (wStore (suWorld s')) = Some i /\
      (suManaged s' = suManaged s \/ replace = true /\ suManaged s' = suManaged s ∖ {[cnID c]})
  end.
Proof.
  intros Hi H. unfold createManagedConnection in H.
  apply sbind_run in H as [(s1 & u & H1 & H)|(e & H1 & ->)].
  2: { destruct (Connection_Validate c); [done|]. injection H1 as <- _. auto. }
  apply lift_answer in H1 as ->. rewrite sbind_look in H.
  destruct (match _ with Some _ => _ | None => _ end); [injection H as <- <-; auto|].
  apply sbind_run in H as [(s1 & u1 & H1 & H)|(e & H1 & ->)].
  2: { destruct process; [done|]. injection H1 as <- _. auto. }
  apply lift_answer in H1 as ->.
  apply sbind_run in H as [(s1 & at_ & H1 & H)|(e & H1 & ->)]; [|by destruct (time_IsZero _)].
  assert (stIndex (wStore (suWorld s1)) = Some i /\ suManaged s1 = suManaged s) as [Hi1 Hm1].
  { destruct (time_IsZero _); injection H1 as <- _; done. } clear H1.
  rewrite <- sbind_assoc in H. apply sbind_run in H as [(s2 & u2 & H2 & H)|(e & H2 & ->)]; apply replace_run in H2 as [Hw2 Hm2].
  2: { rewrite Hw2, Hm2, Hm1. auto. }
  destruct Hm2 as [Hm2 Hn2]. rewrite <- Hw2 in Hi1.
  assert (suManaged s2 = suManaged s \/ replace = true /\ suManaged s2 = suManaged s ∖ {[cnID c]}) as Hc.
  { destruct replace; [right; by rewrite Hm2, Hm1|left; by rewrite Hn2]. }
  apply sbind_run in H as [(s3 & u3 & H3 & H)|(e & H3 & ->)]; (apply add_run in H3 as [Hw3 Hm3]; [|cbn; rewrite Hm2; set_solver]).
  2: { rewrite Hw3, Hm3. auto. }
  rewrite <- Hw3 in Hi1. destruct (lift (request _) s3) as [s4 [u4|e]] eqn:E4; injection H as <- <-.
  - destruct u4. apply (lift_committed _ _ _ _ _ _ Hi1) in E4 as [Hi4 Hm4]. split_and!; [done|done|]. rewrite Hm4, Hm3, Hm2, Hm1. cbn.
    change (cnID (setStatus _ _ c)) with (cnID c). destruct (bool_decide _); [|done].
    apply leibniz_equiv. intros k. destruct (decide (k = cnID c)); set_solver.
  - apply commit_failed in E4 as [Hi4 Hm4]. unfold signore. destruct (removeManagedAdapterIfPresent (cnID c) s4) as [s5 y] eqn:E5.
    apply removeIf_run in E5 as [_ ->]. cbn. rewrite Hi4, Hi1. split; [done|]. rewrite Hm4, Hm3. cbn.
    assert ((if bool_decide (cnStatus (setStatus (if isBlank (cnStatus c) then ConnectionStatusUnknown else cnStatus c) at_ c) <> ConnectionStatusDisabled)
      then {[cnID c]} ∪ suManaged s2 else suManaged s2) ∖ {[cnID c]} = suManaged s2) as Hs by (case_bool_decide; rewrite Hm2; set_solver).
    cbn in Hs. by rewrite Hs.
Qed.

(** A connection that is created or replaced is stored under its
    identifier and supervised exactly when it is not disabled; the other
    connections and their processes stay. *)
Theorem connection_created c process replace (s s' : Super B) d i
  (Hi : stIndex (wStore (suWorld s)) = Some i) (Hrun : createManagedConnection c process replace s = (s', Ok d)) :
  GetConnection (cnID c) (wStore (suWorld s')) = Some d /\
  (cnID c ∈ suManaged s' <-> cnStatus d <> ConnectionStatusDisabled) /\
  forall k, k <> cnID c ->
    GetConnection k (wStore (suWorld s')) = GetConnection k (wStore (suWorld s)) /\ (k ∈ suManaged s' <-> k ∈ suManaged s).
Proof.
  apply (create_run _ _ _ _ _ _ _ Hi) in Hrun as (Hj & Hid & ->). unfold GetConnection, store_get, getConnection. rewrite Hj, Hi. cbn.
  rewrite Hid. split_and!; [apply lookup_insert_eq|case_bool_decide; set_solver|].
  intros k Hk. split; [by rewrite lookup_insert_ne|]. case_bool_decide; set_solver.
Qed.

(** C36 (error). A creation that fails leaves the records and the processes as they
    were.  An upsert that fails leaves the records, but the process of the connection
    may be gone: the old one is removed before the new record is written. *)
Theorem connection_failed_upsert c process replace (s s' : Super B) e i
  (Hi : stIndex (wStore (suWorld s)) = Some i) (Hrun : createManagedConnection c process replace s = (s', Err e)) :
  (forall k, GetConnection k (wStore (suWorld s')) = GetConnection k (wStore (suWorld s))) /\
  (forall k, k <> cnID c -> (k ∈ suManaged s' <-> k ∈ suManaged s)) /\
  (replace = false -> suManaged s' = suManaged s) /\ suManaged s' ⊆ suManaged s.
Proof.
  apply (create_run _ _ _ _ _ _ _ Hi) in Hrun as (Hj & [->|[-> ->]]); unfold GetConnection, store_get; rewrite Hj, Hi; split_and!; try done; set_solver.
Qed.

(** ** Messages that come in *)

Definition same_messages (i j : recordIndex) : Prop := ixMessages j = ixMessages i.
#[local] Instance same_messages_pre : PreOrder same_messages.
Proof. split; [done|]. intros i j k E F. unfold same_messages in *. by rewrite F. Qed.

Lemma placements_still c m ps : keeps (unchanged same_messages) (storePlacements c m ps).
Proof.
  pose proof (unchanged_frame (B := B) same_messages). induction ps as [|p ps IH]; cbn [storePlacements]; [apply keeps_ret; apply _|].
  apply keeps_bind; [apply _|by apply unchanged_commit; [apply _|]|intros _; exact IH].
Qed.

(** A message an adapter answers replaces whatever message has its
    identifier: neither the connection nor the conversation of the stored message,
    nor those of the answer, are compared with the event's. *)
Theorem inbound_message_replaces c conversationID messageID w w' m i
  (Hi : stIndex (wStore w) = Some i) (Hrun : syncMessage c conversationID messageID w = (w', Ok (Some m))) :
  (exists t ps, in_message t c conversationID messageID = Ok (m, ps)) /\ GetMessage (msID m) (wStore w') = Some m.
Proof.
  unfold syncMessage in Hrun. unfold bind at 1, tick in Hrun. destruct (in_message _ c conversationID messageID) as [[m0 ps]|[]] eqn:E; [|done..].
  apply bind_run in Hrun as [(w1 & [] & H1 & Hrun)|(? & _ & ?)]; [|done].
  apply (committed _ _ _ (mkWorld (wStore w) (wTick w + 1) (wCalls w)) _ _ Hi) in H1.
  apply bind_run in Hrun as [(w2 & u & H2 & Hrun)|(? & _ & ?)]; [|done]. apply ret_run in Hrun as [-> [= ->]]. split; [by exists (wTick w), ps|].
  destruct (placements_still _ _ _ _ _ _ H2 _ H1) as (j & Hj & Hm). unfold GetMessage, store_get, getMessage. rewrite Hj, Hm. apply lookup_insert_eq.
Qed.
End Facts.

(** ** Where the files of a connection are *)

(** Characters that make no path element of their own. *)
Definition plain (c : ascii) : bool := negb (Ascii.eqb c ".") && negb (Ascii.eqb c "/").

Lemma b64char_plain i : 0 <= i < 64 -> plain (b64char true i) = true.
Proof.
  intros Hi. assert (forallb (fun i => plain (b64char true i)) (map Z.of_nat (seq 0 64)) = true) as H by (vm_compute; reflexivity).
  rewrite forallb_forall in H. apply (H i). apply in_map_iff. exists (Z.to_nat i). split; [lia|]. apply in_seq. lia.
Qed.

Lemma encoded_plain v : str_forall plain (encodePathSegment v) = true.
Proof.
  unfold encodePathSegment. induction v as [|a|a b|a b c s IH] using string_ind3; [done| | |]; cbn [b64encode str_forall];
    pose proof (byte_of_range a); try pose proof (byte_of_range b); try pose proof (byte_of_range c);
    by rewrite !b64char_plain by (Z.div_mod_to_equations; lia).
Qed.

Lemma encoded_proper v : v <> "" -> proper (encodePathSegment v).
Proof.
  intros Hv. pose proof (encoded_plain v) as Hp. unfold proper. split_and!.
  - unfold encodePathSegment. by destruct v as [|a [|b [|c s]]].
  - intros E. by rewrite E in Hp.
  - intros E. by rewrite E in Hp.
  - unfold free_of. eapply str_forall_impl; [|exact Hp]. by intros c [_ ?]%andb_prop.
Qed.

Lemma contains_free c s : ContainsByte c s = false -> free_of c s.
Proof. unfold ContainsByte. by intros H%negb_false_iff. Qed.

Lemma safe_proper v : isBlank v = false -> proper (safePathSegment v).
Proof.
  intros Hb. assert (TrimSpace v <> "") as Hne by (intros E; unfold isBlank in Hb; by rewrite E in Hb).
  unfold safePathSegment. destruct (_ || _) eqn:E; [by apply encoded_proper|]. apply orb_false_iff in E as [[[_ E2]%orb_false_iff E3]%orb_false_iff E4].
  destruct (ContainsByte "\" (TrimSpace v)); [by apply encoded_proper|]. apply bool_decide_eq_false in E2, E3. split_and!; [done..|by apply contains_free].
Qed.

Lemma join_below root segs : root <> "" -> segs <> [] -> Forall proper segs -> clean_segs (JoinAll root segs) = clean_segs root ++ segs.
Proof. intros. unfold JoinAll. rewrite clean_segs_Clean. by apply clean_segs_below. Qed.

Lemma join_nonempty root segs : root <> "" -> segs <> [] -> Forall proper segs -> JoinAll root segs <> "".
Proof.
  intros Hr Hs Hp E. pose proof (join_below _ _ Hr Hs Hp) as H. rewrite E in H. destruct (clean_segs root), segs; done.
Qed.

(** [p] is [d] or below it. *)
Definition within (d p : string) : Prop := exists rest, clean_segs p = clean_segs d ++ rest.

(** The directories of a connection, and those its deletion removes. *)
Definition directories (p : RuntimePaths) : list string :=
  [rpRootDir p; rpStateDir p; rpCacheDir p; rpRuntimeDir p; rpSecretsDir p; rpCheckpointsDir p; rpLogDir p; rpBlobDir p; rpStagingDir p].
Definition deleted (p : RuntimePaths) : list string := [rpRootDir p; rpBlobDir p; rpStagingDir p].

Ltac segs := repeat first [assumption | apply List.Forall_nil | apply List.Forall_cons | by split_and!].

(** The elements of the directory of a connection. *)
Definition ownSegs (c : Connection) : list string := ["adapters"; safePathSegment (cnAdapterID c); encodePathSegment (cnID c)].

Lemma directories_segs root c d :
  root <> "" -> cnID c <> "" -> isBlank (cnAdapterID c) = false -> d ∈ directories (runtimePathsForConnection root c) ->
  exists rest, clean_segs d = clean_segs root ++ rest /\
    (rest = ["blobs"; encodePathSegment (cnID c)] \/ rest = ["staging"; encodePathSegment (cnID c)] \/ exists t, rest = ownSegs c ++ t).
Proof.
  intros Hr Hc Ha Hd. pose proof (encoded_proper _ Hc) as Hp. pose proof (safe_proper _ Ha) as Hs.
  assert (Forall proper (ownSegs c)) as Hown by (unfold ownSegs; segs). assert (ownSegs c <> []) as Hnil by done.
  pose proof (join_below root _ Hr Hnil Hown) as Hroot. pose proof (join_nonempty root _ Hr Hnil Hown) as Hne.
  assert (forall t, t <> [] -> Forall proper t -> exists rest, clean_segs (JoinAll (JoinAll root (ownSegs c)) t) = clean_segs root ++ rest /\
    (rest = ["blobs"; encodePathSegment (cnID c)] \/ rest = ["staging"; encodePathSegment (cnID c)] \/ exists t', rest = ownSegs c ++ t')) as Hsub.
  { intros t Ht Hpt. exists (ownSegs c ++ t). rewrite join_below, Hroot by done. split; [by rewrite app_assoc|eauto]. }
  unfold directories in Hd. cbn [runtimePathsForConnection rpRootDir rpStateDir rpCacheDir rpRuntimeDir rpSecretsDir rpCheckpointsDir rpLogDir rpBlobDir rpStagingDir] in Hd.
  fold (ownSegs c) in Hd. rewrite !elem_of_cons in Hd.
  destruct Hd as [->|[->|[->|[->|[->|[->|[->|[->|[->|Hd]]]]]]]]]; [|apply Hsub; [done|segs]..| | |].
  - exists (ownSegs c). split; [exact Hroot|]. right. right. exists []. by rewrite app_nil_r.
  - exists ["blobs"; encodePathSegment (cnID c)]. split; [apply join_below; [done|done|segs]|auto].
  - exists ["staging"; encodePathSegment (cnID c)]. split; [apply join_below; [done|done|segs]|auto].
  - by apply not_elem_of_nil in Hd.
Qed.

(** Every directory of a connection is under the broker's root, whatever
    its identifiers hold, and deleting a connection removes no directory of another:
    the directories removed for one identifier contain none of another's. *)
Theorem connection_directories_apart root c1 c2 d p
  (Hroot : root <> "") (H1 : cnID c1 <> "") (H2 : cnID c2 <> "") (Ha1 : isBlank (cnAdapterID c1) = false) (Ha2 : isBlank (cnAdapterID c2) = false)
  (Hne : cnID c1 <> cnID c2) (Hd : d ∈ deleted (runtimePathsForConnection root c1)) (Hp : p ∈ directories (runtimePathsForConnection root c2)) :
  within root p /\ ~ within d p.
Proof.
  destruct (directories_segs _ _ _ Hroot H2 Ha2 Hp) as (rest & Ep & Hrest). split; [by exists rest|]. intros [t Et].
  assert (d ∈ directories (runtimePathsForConnection root c1)) as Hd' by (revert Hd; unfold deleted, directories; rewrite !elem_of_cons; tauto).
  destruct (directories_segs _ _ _ Hroot H1 Ha1 Hd') as (rest1 & Ed & Hrest1). rewrite Ep, Ed, <- app_assoc in Et. apply app_inv_head in Et.
  assert (encodePathSegment (cnID c1) <> encodePathSegment (cnID c2)) as He by (intros E; apply Hne; exact (encodeKeyPart_inj _ _ E)).
  destruct Hrest as [->|[->|[u ->]]], Hrest1 as [->|[->|[v ->]]]; injection Et; intros; congruence.
Qed.

(** ** Demo

    A mail connection over a store in memory: an adapter that pages its
    conversations, answers any message, and reports itself connected. *)
Module Demo.
Import MessagingBroker.Demo.

Definition mail (id conversation connection : string) : Message :=
  mkMessage id connection conversation "i1" ("remote-" +:+ id) "inbound"
    (mkParticipant "" ParticipantKindAccount "r" "bo@x" "Bo" "" false ∅) (text_ "hello") 50 None "" "received" ∅.
Definition talk (id connection : string) : Conversation :=
  mkConversation id connection "i1" "direct" ("remote-" +:+ id) "Bo" [] "" ∅.
Definition batch : list Event := [mkEvent "" "message_received" "" "v1" "m1" "" "" 0 ∅; mkEvent "e7" "message_received" "" "" "m1" "" "" 70 ∅].
Definition mark : option Checkpoint := Some (mkCheckpoint "cursor-2" "" ∅ 0).

(** The conversations come in pages of one, for ever or not. *)
Definition adapter (pages : Z -> string -> string -> result AdapterError (list Conversation * string)) : InboundEnv := {|
  in_root := "/srv/messaging";
  in_credential _ _ := Ok tt;
  in_connect _ c := Ok (mkAnswer ConnectionStatusConnected (cnAuth c) None None);
  in_refresh _ c := Ok (mkAnswer ConnectionStatusConnected (cnAuth c) None None);
  in_poll _ c _ _ := Ok (batch, mark);
  in_webhook _ _ := Err "no webhooks";
  in_conversations := pages;
  in_message _ c v m := Ok (mail m (if bool_decide (v = "") then "v1" else v) c, []);
  in_stage _ _ _ := Ok tt;
  in_remove _ _ := Ok tt;
  sha256hex s := s;
  formatTime t := Itoa t
|}.
Definition two_pages (_ : Z) (c cursor : string) : result AdapterError (list Conversation * string) :=
  if bool_decide (cursor = "") then Ok ([talk "v9" c], "page-2") else Ok ([talk "v1" c], "").
Definition no_end (_ : Z) (c cursor : string) : result AdapterError (list Conversation * string) := Ok ([], "again").

(** A store whose connections cannot be written. *)
Definition broken : MessagingBackend unit := {|
  bkLoad _ := Ok emptySnapshot;
  bkPutConnection _ b := (b, Err "disk full"); bkDeleteConnection _ b := (b, Ok tt); bkPutIdentity _ b := (b, Ok tt);
  bkReplaceConnectionIdentities _ _ b := (b, Ok tt); bkPutConversation _ b := (b, Ok tt); bkPutContainer _ b := (b, Ok tt);
  bkPutPlacement _ b := (b, Ok tt); bkDeletePlacement _ _ b := (b, Ok tt); bkPutMessage _ b := (b, Ok tt);
  bkPutDraft _ b := (b, Ok tt); bkPutApproval _ b := (b, Ok tt); bkPutPolicy _ b := (b, Ok tt); bkPutExposure _ b := (b, Ok tt);
  bkPutWorkflow _ b := (b, Ok tt); bkAppendActivityEvent _ _ b := (b, Ok tt); bkAppendEvent _ _ b := (b, Ok tt);
  bkPutCheckpoint _ _ b := (b, Ok tt)
|}.

(** Identifiers that try to leave their directory. *)
Definition hostile : Connection := mkConnection "../c1" "im/ap" "" "" MessagingStore.Demo.noAuth "" ∅ 0 0.
Definition running : Super unit := mkSuper start {["c1"]}.

#[local] Existing Instances memory env.
Definition stored : World unit := (persistInboundResult (IE := adapter two_pages) 5 "c1" batch mark start).1.
Lemma stored_run : exists x, persistInboundResult (IE := adapter two_pages) 5 "c1" batch mark start = (stored, Ok x).
Proof. eexists. vm_compute. reflexivity. Qed.
Lemma stored_moved : match stIndex (wStore stored) with Some j => match ixCheckpoints j !! "c1" with Some _ => true | None => false end | None => false end = true.
Proof. vm_compute. reflexivity. Qed.
Lemma once_start : events_once index.
Proof. intros c. unfold listConnectionEvents, index. cbn. rewrite lookup_empty. constructor. Qed.

Lemma refresh_run : exists s1 begun, beginRefresh (IE := adapter two_pages) "c1" running = (s1, Ok begun) /\ caStatus begun.2 <> ConnectionStatusDisabled /\
  exists s2 d, DisableConnection (IE := adapter two_pages) "c1" s1 = (s2, Ok d) /\ exists s3 e, finishRefresh begun s2 = (s3, Ok e).
Proof. do 2 eexists. split; [vm_compute; reflexivity|]. split; [discriminate|]. do 2 eexists. split; [vm_compute; reflexivity|]. do 2 eexists. vm_compute. reflexivity. Qed.
Lemma disable_ok : exists s' d, DisableConnection (IE := adapter two_pages) "c1" running = (s', Ok d).
Proof. do 2 eexists. vm_compute. reflexivity. Qed.
End Demo.
#[local] Existing Instances MessagingBroker.Demo.memory MessagingBroker.Demo.env.

Lemma inbound_checkpoint_follows_events_witness :
  exists j, stIndex (wStore Demo.stored) = Some j /\ Forall (logged (IE := Demo.adapter Demo.two_pages) "c1" j) Demo.batch.
Proof.
  destruct Demo.stored_run as [x Hx].
  destruct (inbound_checkpoint_follows_events (IE := Demo.adapter Demo.two_pages) 5 "c1" Demo.batch Demo.mark _ _ _ _ MessagingBroker.Demo.start_index Hx)
    as (j & Hj & Hev & _). exists j. split; [exact Hj|]. apply Hev. intros E. pose proof Demo.stored_moved as Hm. rewrite Hj, E in Hm. vm_compute in Hm. discriminate.
Defined.

Lemma inbound_replay_adds_nothing_witness :
  exists j k, stIndex (wStore Demo.stored) = Some j /\
    stIndex (wStore (persistInboundResult (IE := Demo.adapter Demo.two_pages) 9 "c1" Demo.batch None Demo.stored).1) = Some k /\ ixEvents k = ixEvents j.
Proof.
  destruct Demo.stored_run as [x Hx].
  exact (inbound_replay_adds_nothing (IE := Demo.adapter Demo.two_pages) 5 9 "c1" Demo.batch Demo.mark None _ _ _ x _ _
    MessagingBroker.Demo.start_index Hx (surjective_pairing _)).
Defined.

Lemma inbound_events_once_witness :
  exists j, stIndex (wStore (suWorld (foldl (fun s op => run_super (IE := Demo.adapter Demo.two_pages) op s) Demo.running
    [SuPoll 5 "c1" 10; SuRefresh "c1"; SuPoll 5 "c1" 10; SuDisable "c1"; SuDelete "c1"]))) = Some j /\ events_once j.
Proof. exact (inbound_events_once (IE := Demo.adapter Demo.two_pages) _ Demo.running _ MessagingBroker.Demo.start_index Demo.once_start). Defined.

Lemma inbound_listing_ends_witness :
  (1 < 2)%nat /\ listPages (IE := Demo.adapter Demo.two_pages) 2 "c1" "v1" "" MessagingBroker.Demo.start = listPages (IE := Demo.adapter Demo.two_pages) 7 "c1" "v1" "" MessagingBroker.Demo.start.
Proof.
  split; [lia|]. apply (inbound_listing_ends (IE := Demo.adapter Demo.two_pages) "c1" (fun s => if bool_decide (s = "") then 1%nat else 0%nat)); [|vm_compute; lia..].
  intros t cursor cs next. cbn. unfold Demo.two_pages. case_bool_decide; intros [= <- <-]; [intros _; vm_compute; lia|done].
Defined.

Lemma inbound_listing_endless_witness :
  exists w', listPages (IE := Demo.adapter Demo.no_end) 1000 "c1" "v1" "" MessagingBroker.Demo.start = (w', Err stillListing).
Proof. apply (inbound_listing_endless (IE := Demo.adapter Demo.no_end)). intros t cursor. exists "again". done. Defined.

Lemma messaging_restart_backoff_witness : 0 < 10 /\ restartBackoff 10 80 4 = 80 /\ restartBackoff 10 80 3 = 40.
Proof. split; [lia|]. split; rewrite (messaging_restart_backoff 10 80); first [reflexivity | lia | by exists 40]. Defined.

Lemma connection_disabled_is_silent_witness :
  exists s' d, DisableConnection (IE := Demo.adapter Demo.two_pages) "c1" Demo.running = (s', Ok d) /\ cnStatus d = ConnectionStatusDisabled.
Proof.
  destruct Demo.disable_ok as (s' & d & H). exists s', d. split; [exact H|].
  exact (proj1 (connection_disabled_is_silent (IE := Demo.adapter Demo.two_pages) "c1" Demo.running _ _ _ MessagingBroker.Demo.start_index MessagingBroker.Demo.index_ok_start H)).
Defined.

Lemma connection_refresh_revives_witness :
  exists (s3 : Super unit) e, GetConnection "c1" (wStore (suWorld s3)) = Some e /\ cnStatus e <> ConnectionStatusDisabled /\ "c1" ∉ suManaged s3.
Proof.
  destruct Demo.refresh_run as (s1 & begun & H1 & Hne & s2 & d & H2 & s3 & e & H3). exists s3, e.
  destruct (connection_refresh_revives (IE := Demo.adapter Demo.two_pages) "c1" Demo.running _ _ _ _ _ _ _ MessagingBroker.Demo.start_index
    MessagingBroker.Demo.index_ok_start H1 H2 H3 Hne) as (_ & Hg & Hs & Hm & _). exact (conj Hg (conj Hs Hm)).
Defined.

Lemma connection_created_witness :
  exists s' d, UpsertConnection MessagingBroker.Demo.account (Ok tt) Demo.running = (s', Ok d) /\ "c1" ∈ suManaged s'.
Proof.
  destruct (UpsertConnection MessagingBroker.Demo.account (Ok tt) Demo.running) as [s' r] eqn:E.
  assert (exists d, r = Ok d /\ cnStatus d <> ConnectionStatusDisabled) as (d & -> & Hd) by (vm_compute in E; injection E as _ <-; eexists; split; [reflexivity|discriminate]).
  exists s', d. split; [done|]. unfold UpsertConnection in E. 
  destruct (connection_created MessagingBroker.Demo.account (Ok tt) true Demo.running _ _ _ MessagingBroker.Demo.start_index E) as (_ & Hm & _). exact (proj2 Hm Hd).
Defined.

(** The process goes, the record stays. *)
Lemma connection_failed_upsert_witness :
  exists s' e, UpsertConnection (BK := Demo.broken) MessagingBroker.Demo.account (Ok tt) Demo.running = (s', Err e) /\
    GetConnection "c1" (wStore (suWorld s')) = Some MessagingBroker.Demo.account /\ "c1" ∉ suManaged s'.
Proof.
  destruct (UpsertConnection (BK := Demo.broken) MessagingBroker.Demo.account (Ok tt) Demo.running) as [s' r] eqn:E.
  assert (exists e, r = Err e /\ bool_decide ("c1" ∈ suManaged s') = false) as (e & -> & Hm) by (vm_compute in E; injection E as <- <-; eexists; split; vm_compute; reflexivity).
  exists s', e. split; [done|]. unfold UpsertConnection in E. destruct (connection_failed_upsert (BK := Demo.broken) MessagingBroker.Demo.account (Ok tt) true Demo.running _ _ _ MessagingBroker.Demo.start_index E) as [Hk _].
  split; [rewrite Hk; vm_compute; reflexivity|by apply bool_decide_eq_false in Hm].
Defined.

Lemma inbound_message_replaces_witness :
  exists w' m, syncMessage (IE := Demo.adapter Demo.two_pages) "c1" "v1" "m1" MessagingBroker.Demo.start = (w', Ok (Some m)) /\ GetMessage (msID m) (wStore w') = Some m.
Proof.
  destruct (syncMessage (IE := Demo.adapter Demo.two_pages) "c1" "v1" "m1" MessagingBroker.Demo.start) as [w' r] eqn:E.
  assert (r = Ok (Some (Demo.mail "m1" "v1" "c1"))) as -> by (vm_compute in E; injection E as _ <-; reflexivity).
  eexists w', _. split; [reflexivity|]. exact (proj2 (inbound_message_replaces (IE := Demo.adapter Demo.two_pages) _ _ _ _ _ _ _ MessagingBroker.Demo.start_index E)).
Defined.

Lemma connection_directories_apart_witness :
  within "/srv/messaging" (rpSecretsDir (runtimePathsForConnection "/srv/messaging" Demo.hostile)) /\
  ~ within (rpBlobDir (runtimePathsForConnection "/srv/messaging" MessagingBroker.Demo.account)) (rpSecretsDir (runtimePathsForConnection "/srv/messaging" Demo.hostile)).
Proof.
  apply (connection_directories_apart "/srv/messaging" MessagingBroker.Demo.account Demo.hostile); try done; unfold deleted, directories; rewrite !elem_of_cons; tauto.
Defined.
