(* ===== verification/FsPoll.v ===== *)
(** * Snapshot exchange and the snapshot poller (pkg/fs/opslog/snapshot_json.go, snapshot_poller.go, baseline.go, conflict.go)

    A device publishes its snapshot as JSON; the others diff it against the
    copy they saw last, the baseline, and append the differences to their local
    log, where replay resolves them.  The JSON values are records here; what
    [encoding/json] and the encryption do to them is the argument [fetched] of
    [syncDevice].  The order of a loop over a Go map is an argument. *)

From Stdlib Require Import Ascii.
From stdpp Require Import base numbers list gmap strings.
From S2P Require Import Prelude GoStrings GoStrconv GoPath JsonLines FsOps FsLocalLog.

(** ** The JSON values (snapshot_json.go) *)

Record snapshotJSON := mkSnapshotJSON {
  jVersion : Z;
  jCreated : Time;
  jUpdated : Time;
  jTree : gmap string FileInfo;
  jDirs : gmap string DirInfo;
  jDeletedRoot : option TombstoneInfo
}.

Record peerSnapshotJSON := mkPeerJSON {
  pVersion : Z;
  pCreated : Time;
  pUpdated : Time;
  pTree : gmap string FileInfo;
  pDirs : gmap string DirInfo;
  pDeleted : gmap string TombstoneInfo;
  pDeletedDirs : gmap string TombstoneInfo;
  pDeletedRoot : option TombstoneInfo
}.

(** A put whose upload is still pending: no chunks at all, and a size. *)
Definition pendingUpload (fi : FileInfo) : bool :=
  bool_decide (fiChunks fi = None) && bool_decide (fiLinkTarget fi = "") && Z.ltb 0 (fiSize fi).

Definition exportedFiles (fs : gmap string FileInfo) : gmap string FileInfo :=
  filter (fun kv => pendingUpload kv.2 = false) fs.

Definition MarshalSnapshot (now : Time) (snap : option Snapshot) : snapshotJSON :=
  match snap with
  | None => mkSnapshotJSON 1 zeroTime zeroTime ∅ ∅ None
  | Some s => mkSnapshotJSON 1 (created s) now (exportedFiles (files s)) (dirs s) (deletedRoot s)
  end.

Definition MarshalPeerSnapshot (now : Time) (snap : option Snapshot) : peerSnapshotJSON :=
  match snap with
  | None => mkPeerJSON 2 zeroTime zeroTime ∅ ∅ ∅ ∅ None
  | Some s => mkPeerJSON 2 (created s) now (exportedFiles (files s)) (dirs s) (deleted s) (deletedDirs s) (deletedRoot s)
  end.

Definition UnmarshalSnapshot (m : snapshotJSON) : Snapshot :=
  mkSnapshot (jTree m) (jDirs m) ∅ ∅ (jDeletedRoot m) (jCreated m) (jUpdated m).

Definition UnmarshalPeerSnapshot (m : peerSnapshotJSON) : Snapshot :=
  mkSnapshot (pTree m) (pDirs m) (pDeleted m) (pDeletedDirs m) (pDeletedRoot m) (pCreated m) (pUpdated m).

(** ** Conflict copies (conflict.go) *)

Definition conflictCopyMarker : string := ".conflict-".

(** [filepath.Ext]: from the last dot of the last element. *)
Definition Ext (path : string) : string :=
  match LastIndexByte path "." with
  | None => ""
  | Some i =>
      let ext := str_drop i path in
      match LastIndexByte ext "/" with None => ext | Some _ => "" end
  end.

Definition conflictCopyPath (path device : string) (ts : Z) : string :=
  let ext := Ext path in
  TrimSuffix path ext +:+ conflictCopyMarker +:+ device +:+ "-" +:+ Itoa ts +:+ ext.

Definition isConflictCopyPath (path : string) : bool := Contains (Base path) conflictCopyMarker.

Definition snapshotConflictPaths (snap : option Snapshot) : list string :=
  match snap with
  | None => []
  | Some s => sort_Strings (List.filter isConflictCopyPath (keys_of (files s)))
  end.

(** ** Device lists and baselines (baseline.go) *)

Definition parseDeviceList (keys : list string) : list string :=
  omap (fun k =>
    let name := TrimPrefix k "devices/" in
    if HasSuffix name ".json" then Some (TrimSuffix name ".json") else None) keys.

(** The baselines by device; the store writes what [MarshalSnapshot] keeps. *)
Abbreviation Baselines := (gmap string Snapshot).

Definition baselineSave (io : bool) (now : Time) (id : string) (snap : Snapshot) (b : Baselines) : Baselines :=
  if io then <[id := UnmarshalSnapshot (MarshalSnapshot now (Some snap))]> b else b.

(** [None] when the baseline is missing or cannot be read. *)
Definition baselineLoad (io : bool) (id : string) (b : Baselines) : option Snapshot :=
  if io then b !! id else None.

(** ** Merging a remote snapshot (snapshot_poller.go) *)

(** The outcome of every append, by entry, and the readings of the clock. *)
Record PollEnv := mkPollEnv {
  pIO : Entry -> WriteIO;
  pRead : bool;
  pNow : Time;
  pN0 : Time;
  pN1 : Time
}.

(** The enumerations of the four loops over maps. *)
Record Orders := mkOrders {
  ordRemote : list (string * FileInfo);
  ordBase : list (string * FileInfo);
  ordDirs : list (string * DirInfo);
  ordBaseDirs : list (string * DirInfo)
}.

Definition enumerates (o : Orders) (remote : Snapshot) (baseline : option Snapshot) : Prop :=
  ordRemote o ≡ₚ map_to_list (files remote) /\
  ordBase o ≡ₚ map_to_list (from_option files ∅ baseline) /\
  ordDirs o ≡ₚ map_to_list (dirs remote) /\
  ordBaseDirs o ≡ₚ map_to_list (from_option dirs ∅ baseline).

(** The root tombstone of the remote is newer than the one of the baseline. *)
Definition rootIsNewer (r : TombstoneInfo) (base : option TombstoneInfo) : bool :=
  match base with
  | None => true
  | Some b =>
      Z.ltb (tiModified b) (tiModified r) ||
      (Z.eqb (tiModified r) (tiModified b) &&
        ((tiDevice b <s? tiDevice r)%go ||
         (bool_decide (tiDevice r = tiDevice b) && Z.ltb (tiSeq b) (tiSeq r))))
  end.

Definition tombstoneEntry (ty : EntryType) (path : string) (t : TombstoneInfo) : Entry :=
  mkEntry ty path None 0 "" (tiPrevChecksum t) "" (tiNamespace t) (tiDevice t) (unix_seconds (tiModified t)) (tiSeq t) "".

(** A changed remote file, as a put; a remote that names no ancestor gets the
    checksum of the baseline as one. *)
Definition remotePut (path : string) (remotefi : FileInfo) (basefi : option FileInfo) : Entry :=
  let prevChecksum :=
    match basefi with
    | Some b => if bool_decide (fiPrevChecksum remotefi = "") then fiChecksum b else fiPrevChecksum remotefi
    | None => fiPrevChecksum remotefi
    end in
  mkEntry Put path (fiChunks remotefi) (fiSize remotefi) (fiChecksum remotefi) prevChecksum
    (fiLinkTarget remotefi) (fiNamespace remotefi) (fiDevice remotefi)
    (unix_seconds (fiModified remotefi)) (fiSeq remotefi) "".

(** The deletion of a file the remote no longer has. *)
Definition remoteDelete (now : Time) (path : string) (basefi : FileInfo) : Entry :=
  let base := unix_seconds (fiModified basefi) in
  let deleteTS := if Z.leb (unix_seconds now) base then int64_wrap (base + 1) else unix_seconds now in
  mkEntry Delete path None 0 "" (fiChecksum basefi) "" (fiNamespace basefi) (fiDevice basefi) deleteTS
    (int64_wrap (fiSeq basefi + 1)) "".

Definition remoteCreateDir (path : string) (di : DirInfo) : Entry :=
  mkEntry CreateDir path None 0 "" "" "" (diNamespace di) (diDevice di) (unix_seconds (diModified di)) (diSeq di) "".

Definition remoteDeleteDir (now : Time) (path : string) (di : DirInfo) : Entry :=
  mkEntry DeleteDir path None 0 "" "" "" (diNamespace di) (diDevice di) (unix_seconds now) 0 "".

(** Both sides changed the file since the baseline, to different contents. *)
Definition isConflict (localfi remotefi basefi : FileInfo) : bool :=
  bool_decide (fiChecksum localfi <> fiChecksum basefi) && bool_decide (fiChecksum remotefi <> fiChecksum basefi)
  && bool_decide (fiChecksum localfi <> fiChecksum remotefi).

Definition loserOf (localfi remotefi : FileInfo) : FileInfo :=
  if Beats (ClockTuple remotefi) (ClockTuple localfi) then localfi else remotefi.

Definition conflictEntry (path : string) (loser : FileInfo) : Entry :=
  mkEntry Put (conflictCopyPath path (fiDevice loser) (unix_seconds (fiModified loser))) (fiChunks loser)
    (fiSize loser) (fiChecksum loser) "" "" (fiNamespace loser) "" 0 0 "".

(** The remote file is in the baseline as it is. *)
Definition unchanged (base : gmap string FileInfo) (path : string) (remotefi : FileInfo) : bool :=
  match base !! path with Some b => bool_decide (fiChecksum b = fiChecksum remotefi) | None => false end.

Section Poll.
Context `{Codec : LineCodec Entry}.

(** [merged++] when the append succeeds; the error is only logged. *)
Definition mergeEntry (env : PollEnv) (e : Entry) (st : LocalOpsLog * Z) : LocalOpsLog * Z :=
  let '(l, merged) := st in
  match Append (pIO env e) (pN0 env) (pN1 env) e l with
  | (l, Ok _) => (l, merged + 1)
  | (l, Err _) => (l, merged)
  end.

Definition createConflictCopy (env : PollEnv) (path : string) (localfi remotefi : FileInfo) (l : LocalOpsLog) : LocalOpsLog :=
  let e := conflictEntry path (loserOf localfi remotefi) in
  (AppendLocal (pIO env e) (pN0 env) (pN1 env) (pNow env) e l).1.

(** One turn of the first loop. *)
Definition mergeFile (env : PollEnv) (base : gmap string FileInfo) (localSnap : Snapshot)
    (st : LocalOpsLog * Z) (kv : string * FileInfo) : LocalOpsLog * Z :=
  let '(path, remotefi) := kv in
  let '(l, merged) := st in
  let basefi := base !! path in
  if unchanged base path remotefi then (l, merged)
  else
    let l :=
      match Lookup localSnap path, basefi with
      | Some localfi, Some b =>
          if isConflict localfi remotefi b then createConflictCopy env path localfi remotefi l else l
      | _, _ => l
      end in
    mergeEntry env (remotePut path remotefi basefi) (l, merged).

Definition mergeDeleted (env : PollEnv) (remote : gmap string FileInfo) (st : LocalOpsLog * Z)
    (kv : string * FileInfo) : LocalOpsLog * Z :=
  let '(path, basefi) := kv in
  match remote !! path with
  | Some _ => st
  | None => mergeEntry env (remoteDelete (pNow env) path basefi) st
  end.

(** The directory loops count the entry whether or not it was written. *)
Definition mergeDir (env : PollEnv) (e : Entry) (st : LocalOpsLog * Z) : LocalOpsLog * Z :=
  ((Append (pIO env e) (pN0 env) (pN1 env) e st.1).1, st.2 + 1).

Definition mergeCreatedDir (env : PollEnv) (base : gmap string DirInfo) (st : LocalOpsLog * Z)
    (kv : string * DirInfo) : LocalOpsLog * Z :=
  match base !! kv.1 with Some _ => st | None => mergeDir env (remoteCreateDir kv.1 kv.2) st end.

Definition mergeDeletedDir (env : PollEnv) (remote : gmap string DirInfo) (st : LocalOpsLog * Z)
    (kv : string * DirInfo) : LocalOpsLog * Z :=
  match remote !! kv.1 with Some _ => st | None => mergeDir env (remoteDeleteDir (pNow env) kv.1 kv.2) st end.


(** [None]: the local log cannot be read and there is a change to look at; the
    source then dereferences a nil snapshot. *)
Definition diffAndMerge (env : PollEnv) (o : Orders) (remote : Snapshot) (baseline : option Snapshot)
    (l : LocalOpsLog) : option (LocalOpsLog * Z) :=
  let baseFiles := from_option files ∅ baseline in
  let baseDirs := from_option dirs ∅ baseline in
  let st :=
    match deletedRoot remote with
    | Some r => if rootIsNewer r (baseline ≫= deletedRoot) then mergeEntry env (tombstoneEntry DeleteRoot "" r) (l, 0)
                else (l, 0)
    | None => (l, 0)
    end in
  let '(l, snap) := getSnapshot (pRead env) (pN0 env) (pN1 env) st.1 in
  st ← match snap with
       | Ok localSnap => Some (foldl (mergeFile env baseFiles localSnap) (l, st.2) (ordRemote o))
       | Err _ => if forallb (fun kv => unchanged baseFiles kv.1 kv.2) (ordRemote o) then Some (l, st.2) else None
       end;
  let hasRoot := bool_decide (is_Some (deletedRoot remote)) in
  let st := if bool_decide (is_Some baseline) && negb hasRoot
            then foldl (mergeDeleted env (files remote)) st (ordBase o) else st in
  let st := foldl (mergeCreatedDir env baseDirs) st (ordDirs o) in
  Some (if bool_decide (is_Some baseline) && negb hasRoot
        then foldl (mergeDeletedDir env (dirs remote)) st (ordBaseDirs o) else st).

(** [fetched] is the snapshot downloaded, decrypted and parsed: [Ok None] when
    the device has published none. *)
Definition syncDevice (env : PollEnv) (o : Orders) (loads saves : bool) (remoteID : string)
    (fetched : result unit (option Snapshot)) (b : Baselines) (l : LocalOpsLog)
  : option (LocalOpsLog * Baselines * result unit Z) :=
  match fetched with
  | Err e => Some (l, b, Err e)
  | Ok None => Some (l, b, Ok 0)
  | Ok (Some remote) =>
      '(l, merged) ← diffAndMerge env o remote (baselineLoad loads remoteID b) l;
      Some (l, baselineSave saves (pNow env) remoteID remote b, Ok merged)
  end.

End Poll.

(** ** Reading back what was published *)

Lemma exportedFiles_lookup fs p f :
  exportedFiles fs !! p = Some f <-> fs !! p = Some f /\ pendingUpload f = false.
Proof. unfold exportedFiles. by rewrite map_lookup_filter_Some. Qed.

Lemma exportedFiles_idem fs : exportedFiles (exportedFiles fs) = exportedFiles fs.
Proof. apply map_eq. intros p. apply option_eq. intros f. rewrite !exportedFiles_lookup. tauto. Qed.

(** A peer reads the whole state back, less the uploads still pending; a
    published snapshot holds no tombstones but the one of the drive. *)
Lemma peer_snapshot_roundtrip now s :
  same_tree (UnmarshalPeerSnapshot (MarshalPeerSnapshot now (Some s)))
    (mkSnapshot (exportedFiles (files s)) (dirs s) (deleted s) (deletedDirs s) (deletedRoot s) (created s) now).
Proof. by split_and!. Qed.

Definition published (now : Time) (s : Snapshot) : Snapshot := UnmarshalSnapshot (MarshalSnapshot now (Some s)).

Lemma published_files now s : files (published now s) = exportedFiles (files s).
Proof. done. Qed.

Lemma rootIsNewer_irrefl r : rootIsNewer r (Some r) = false.
Proof.
  unfold rootIsNewer. rewrite Z.ltb_irrefl, Z.eqb_refl, str_ltb_irrefl, Z.ltb_irrefl, andb_false_r. done.
Qed.

(** ** Polling an unchanged snapshot *)

Section Facts.
Context `{Codec : LineCodec Entry}.
Implicit Types (l : LocalOpsLog) (env : PollEnv) (o : Orders).

Lemma foldl_same {A S} (f : S -> A -> S) (xs : list A) (st : S) :
  (forall x, x ∈ xs -> f st x = st) -> foldl f st xs = st.
Proof.
  induction xs as [|x xs IH]; intros H; [done|]. simpl. rewrite H by apply list_elem_of_here. apply IH.
  intros y Hy. apply H. by apply list_elem_of_further.
Qed.

Lemma getSnapshot_file rd n0 n1 l l' r :
  getSnapshot rd n0 n1 l = (l', r) -> opsFile l' = opsFile l /\ deviceID l' = deviceID l.
Proof.
  unfold getSnapshot, rebuildLocked. destruct (cache l); [by intros [= <- _]|].
  destruct (readAllLocked rd l); [destruct (highest _ _ _)|]; by intros [= <- _].
Qed.

(** Nothing is appended when the baseline has the files, the directories and
    the root tombstone of the remote. *)
Lemma diffAndMerge_same env o remote base l :
  files base = files remote -> dirs base = dirs remote -> deletedRoot base = deletedRoot remote ->
  enumerates o remote (Some base) ->
  exists l', diffAndMerge env o remote (Some base) l = Some (l', 0) /\ opsFile l' = opsFile l.
Proof.
  intros Hf Hd Hr (Ho1 & Ho2 & Ho3 & Ho4). simpl in Ho2, Ho4. unfold diffAndMerge.
  assert ((match deletedRoot remote with
    | Some r => if rootIsNewer r (Some base ≫= deletedRoot)
                then mergeEntry env (tombstoneEntry DeleteRoot "" r) (l, 0) else (l, 0)
    | None => (l, 0) end) = (l, 0)) as ->.
  { simpl. rewrite Hr. destruct (deletedRoot remote) as [r|]; [|done]. by rewrite rootIsNewer_irrefl. }
  destruct (getSnapshot _ _ _ _) as [l' snap] eqn:Eg. apply getSnapshot_file in Eg as [Eg _]. simpl in Eg.
  cbn [snd from_option]. rewrite Hf, Hd.
  assert (forall kv, kv ∈ ordRemote o -> unchanged (files remote) kv.1 kv.2 = true) as Hun.
  { intros [p f] Hin. rewrite Ho1 in Hin. apply elem_of_map_to_list in Hin. unfold unchanged. simpl.
    rewrite Hin. by apply bool_decide_eq_true_2. }
  assert (match snap with
    | Ok localSnap => Some (foldl (mergeFile env (files remote) localSnap) (l', 0) (ordRemote o))
    | Err _ => if forallb (fun kv => unchanged (files remote) kv.1 kv.2) (ordRemote o) then Some (l', 0) else None
    end = Some (l', 0)) as ->.
  { destruct snap as [c|x].
    - f_equal. apply foldl_same. intros [p f] Hin. unfold mergeFile. pose proof (Hun _ Hin) as Hu. simpl in Hu.
      by rewrite Hu.
    - assert (forallb (fun kv => unchanged (files remote) kv.1 kv.2) (ordRemote o) = true) as ->; [|done].
      apply forallb_forall. intros kv Hin. apply Hun. by apply list_elem_of_In. }
  cbn [mbind option_bind].
  assert (forall st, foldl (mergeDeleted env (files remote)) st (ordBase o) = st) as E1.
  { intros st. apply foldl_same. intros [p f] Hin. rewrite Ho2, Hf in Hin. apply elem_of_map_to_list in Hin.
    unfold mergeDeleted. by rewrite Hin. }
  assert (forall st, foldl (mergeCreatedDir env (dirs remote)) st (ordDirs o) = st) as E2.
  { intros st. apply foldl_same. intros [p f] Hin. rewrite Ho3 in Hin. apply elem_of_map_to_list in Hin.
    unfold mergeCreatedDir. simpl. by rewrite Hin. }
  assert (forall st, foldl (mergeDeletedDir env (dirs remote)) st (ordBaseDirs o) = st) as E3.
  { intros st. apply foldl_same. intros [p f] Hin. rewrite Ho4, Hd in Hin. apply elem_of_map_to_list in Hin.
    unfold mergeDeletedDir. simpl. by rewrite Hin. }
  rewrite E1, E2, E3. exists l'. split; [|done]. by destruct (_ && _).
Qed.

(** ** Merging on a warm log *)

Definition with_cache l (c : Snapshot) : LocalOpsLog := mkLog (opsFile l) (deviceID l) (Some c) (lastRemote l) (opsSeq l).

(** A successful append grows the file and moves the cache on. *)
Lemma Append_warm n0 n1 e l c l' r :
  cache l = Some c -> Append WOk n0 n1 e l = (l', r) ->
  r = Ok tt /\ opsFile l' = append_line (opsFile l) e /\ deviceID l' = deviceID l /\
  cache l' = Some (buildSnapshot n0 n1 (Some c) [e]).
Proof.
  intros Hc H. unfold Append, appendToFile in H. cbn [append_file] in H. injection H as <- <-.
  unfold refreshCache. cbn [opsFile deviceID cache]. rewrite Hc. by split_and!.
Qed.

(** A remote deletion is stamped with the time of the poll, so it
    beats an edit made here before the poll, whatever the remote knew of it:
    the edited file goes, and only the deletion is recorded, no conflict copy. *)
Theorem fs_poll_delete_beats_edit env l c remote path basefi localfi merged l' merged'
  (Hcache : cache l = Some c) (Hok : snapshot_ok c) (Hlocal : Lookup c path = Some localfi)
  (Hedited : fiChecksum localfi <> fiChecksum basefi) (Hremote : remote !! path = None)
  (Hio : forall e, pIO env e = WOk) (Hold : unix_seconds (fiModified localfi) < unix_seconds (pNow env))
  (Hbase : unix_seconds (fiModified basefi) < unix_seconds (pNow env))
  (Hrun : mergeDeleted env remote (l, merged) (path, basefi) = (l', merged')) :
  opsFile l' = append_line (opsFile l) (remoteDelete (pNow env) path basefi) /\
  exists c', cache l' = Some c' /\ Lookup c' path = None /\ is_Some (deleted c' !! path) /\
    forall q, q <> path -> Lookup c' q = Lookup c q.
Proof.
  unfold mergeDeleted in Hrun. rewrite Hremote in Hrun. unfold mergeEntry in Hrun.
  set (e := remoteDelete (pNow env) path basefi) in *. rewrite Hio in Hrun.
  destruct (Append WOk (pN0 env) (pN1 env) e l) as [l1 r] eqn:Ea.
  destruct (Append_warm _ _ _ _ _ _ _ Hcache Ea) as (-> & Hf & _ & Hc'). injection Hrun as <- _.
  split; [done|]. eexists. split; [done|].
  assert (entryClock e = mkClock (unix_seconds (pNow env)) (fiDevice basefi) (int64_wrap (fiSeq basefi + 1))) as Hec.
  { unfold entryClock, e, remoteDelete. simpl. by rewrite (proj2 (Z.leb_gt _ _)) by lia. }
  assert (beats (entryClock e) (ClockTuple localfi) = true) as Hbeat.
  { rewrite Hec. apply clock_beats_spec. left. simpl. lia. }
  pose proof (baseReplay_ok c Hok) as Hr. unfold Lookup in *.
  assert (replay (Some c) [e] = applyDelete (baseReplay c) e) as E.
  { unfold replay. cbn [foldl startReplay]. unfold applyEntry. cbn [eType e remoteDelete].
    assert (blocked (entryClock e) (rootTombstone (baseReplay c)) = false) as ->; [|done].
    destruct (rootTombstone (baseReplay c)) as [t|] eqn:Ert; [|done]. apply blocked_some.
    eapply clock_beats_trans; [exact Hbeat|]. by apply (ok_file_root _ Hr path localfi t). }
  assert (deleteRejected (baseReplay c) e = false) as Hrej.
  { unfold deleteRejected. change (ePath e) with path. change (rFiles (baseReplay c)) with (files c).
    rewrite Hlocal. destruct (negb _); [|done].
    transitivity (blocked (entryClock e) (Some (ClockTuple localfi))); [f_equal|by apply blocked_some].
    by apply (ok_file_clock _ Hr). }
  unfold buildSnapshot. rewrite E. unfold applyDelete. rewrite Hrej. change (ePath e) with path.
  cbn [files deleted rFiles rDeleted baseReplay]. split_and!.
  - by rewrite lookup_delete_eq.
  - by rewrite lookup_insert_eq.
  - intros q Hq. by rewrite lookup_delete_ne.
Qed.

(** ** Exchange of snapshots between drives without deletions *)

Record additive (c : Snapshot) : Prop := {
  add_deleted : deleted c = ∅;
  add_deletedDirs : deletedDirs c = ∅;
  add_root : deletedRoot c = None;
  add_whole : forall p f, files c !! p = Some f -> whole (fiModified f)
}.

(** The file with the higher clock. *)
Definition file_join (a b : option FileInfo) : option FileInfo :=
  match a, b with
  | Some x, Some y => if beats (ClockTuple y) (ClockTuple x) then Some y else Some x
  | Some x, None => Some x
  | None, _ => b
  end.

Lemma remotePut_info p fi : whole (fiModified fi) ->
  fileInfoFromEntry (remotePut p fi None) = fi /\ entryClock (remotePut p fi None) = ClockTuple fi.
Proof. intros Hw. unfold fileInfoFromEntry, remotePut. simpl. rewrite Hw. by destruct fi. Qed.

(** One of the two replaces the other only when it is newer. *)
Definition heed_each_other (f g : FileInfo) : Prop :=
  heeds (fileEdit f) (fileEdit g) /\ heeds (fileEdit g) (fileEdit f).

Lemma remotePut_edit p fi : whole (fiModified fi) -> entryEdit (remotePut p fi None) = fileEdit fi.
Proof. intros Hw. rewrite <- entryEdit_file by by left. by rewrite (proj1 (remotePut_info p fi Hw)). Qed.

Lemma additive_put n0 n1 c p fi :
  additive c -> snapshot_ok c -> (forall f, files c !! p = Some f -> heed_each_other f fi) -> whole (fiModified fi) ->
  let c' := buildSnapshot n0 n1 (Some c) [remotePut p fi None] in
  additive c' /\ snapshot_ok c' /\
  forall q, files c' !! q = if decide (p = q) then file_join (files c !! q) (Some fi) else files c !! q.
Proof.
  intros Ha Hok Hheeds Hw c'. destruct (remotePut_info p fi Hw) as [Hi Hc].
  split; [|split; [by apply replay_snapshot_ok, (replay_is_ok (Some c))|]];
    subst c'; unfold buildSnapshot, replay; cbn [foldl startReplay];
    destruct Ha as [H1 H2 H3 H5]; pose proof (baseReplay_ok c Hok) as Hr.
  all: unfold applyEntry; cbn [eType remotePut].
  all: assert (rootTombstone (baseReplay c) = None) as -> by (simpl; by rewrite H3).
  all: cbn [blocked]; unfold applyPut.
  all: assert (coveredByDirTombstone (ePath (remotePut p fi None)) (entryClock (remotePut p fi None))
    (dirTombstones (baseReplay c)) = false) as ->
    by (simpl; rewrite H2, fmap_empty; apply covered_none).
  all: assert (putRejected (baseReplay c) (remotePut p fi None)
    = blocked (ClockTuple fi) (clocks (baseReplay c) !! p)) as Hrej.
  1,3: rewrite <- Hc; apply (putRejected_clock (baseReplay c) (remotePut p fi None)); [by left|intros f Hf|intros t Ht];
    change (ePath (remotePut p fi None)) with p in *.
  1,3: rewrite remotePut_edit by done; split; [by apply (ok_file_clock _ Hr)|by apply Hheeds].
  1,2: simpl in Ht; rewrite H1, lookup_empty in Ht; done.
  all: rewrite Hrej; change (ePath (remotePut p fi None)) with p; rewrite Hi, Hc.
  - destruct (blocked _ _).
    + split; simpl; try done; by rewrite ?H1.
    + split; simpl; try done; rewrite ?H1, ?delete_empty; try done.
      * intros q f Hf. keyed p q; [by injection Hf as <-|by eapply H5].
  - intros q. assert (clocks (baseReplay c) !! p = ClockTuple <$> files c !! p) as ->.
    { destruct (files c !! p) as [f|] eqn:Hf; [by apply (ok_file_clock _ Hr)|].
      simpl. rewrite H1, fmap_empty, (left_id_L ∅ (∪)), lookup_fmap, Hf. done. }
    destruct (files c !! p) as [f|] eqn:Hf; simpl.
    + destruct (beats (ClockTuple fi) (ClockTuple f)) eqn:Hb; simpl.
      * destruct (decide (p = q)) as [<-|Hne]; [rewrite lookup_insert_eq, Hf; simpl; by rewrite Hb|by rewrite lookup_insert_ne].
      * destruct (decide (p = q)) as [<-|Hne]; [rewrite Hf; simpl; by rewrite Hb|done].
    + destruct (decide (p = q)) as [<-|Hne]; [by rewrite lookup_insert_eq, Hf|by rewrite lookup_insert_ne].
Qed.

(** One merged entry on a warm log. *)
Lemma mergeEntry_warm env e l c n :
  cache l = Some c -> (forall x, pIO env x = WOk) ->
  exists l', mergeEntry env e (l, n) = (l', n + 1) /\
    cache l' = Some (buildSnapshot (pN0 env) (pN1 env) (Some c) [e]).
Proof.
  intros Hc Hio. unfold mergeEntry. rewrite Hio.
  destruct (Append WOk (pN0 env) (pN1 env) e l) as [l' r] eqn:Ea.
  destruct (Append_warm _ _ _ _ _ _ _ Hc Ea) as (-> & _ & _ & Hc'). by exists l'.
Qed.

Definition mergeable (c : Snapshot) (xs : list (string * FileInfo)) : Prop :=
  Forall (fun kv => (forall f, files c !! kv.1 = Some f -> heed_each_other f kv.2) /\ whole (fiModified kv.2)) xs.

Lemma merge_all env c0 xs l n c :
  cache l = Some c -> (forall x, pIO env x = WOk) -> additive c -> snapshot_ok c ->
  NoDup xs.*1 -> mergeable c xs ->
  exists l' c', foldl (mergeFile env ∅ c0) (l, n) xs = (l', n + Z.of_nat (length xs)) /\
    cache l' = Some c' /\ additive c' /\ snapshot_ok c' /\
    forall q, files c' !! q = file_join (files c !! q) ((list_to_map xs : gmap string FileInfo) !! q).
Proof.
  intros Hc Hio Ha Hok Hnd Hm. revert l n c Hc Ha Hok Hm. induction xs as [|[p f] xs IH]; intros l n c Hc Ha Hok Hm.
  - exists l, c. simpl. rewrite Z.add_0_r. split_and!; try done. intros q. rewrite lookup_empty.
    by destruct (files c !! q).
  - simpl in Hnd. apply NoDup_cons in Hnd as [Hp Hnd]. apply Forall_cons in Hm as [[Hheeds Hw] Hm]. simpl in Hheeds, Hw.
    cbn [foldl]. unfold mergeFile at 2. unfold unchanged. rewrite lookup_empty.
    assert (match Lookup c0 p with Some _ => l | None => l end = l) as -> by (by destruct (Lookup c0 p)).
    destruct (mergeEntry_warm env (remotePut p f None) l c n Hc Hio) as (l1 & -> & Hc1).
    destruct (additive_put (pN0 env) (pN1 env) c p f Ha Hok Hheeds Hw) as (Ha1 & Hok1 & Hf1).
    assert (mergeable (buildSnapshot (pN0 env) (pN1 env) (Some c) [remotePut p f None]) xs) as Hm1.
    { unfold mergeable in *. rewrite Forall_forall in Hm |- *. intros [q g] Hin. destruct (Hm _ Hin) as [H Hg]. split; [|done].
      intros x. rewrite Hf1, decide_False; [apply H|]. intros E. apply Hp. rewrite E. exact (list_elem_of_fmap_2 fst xs (q, g) Hin). }
    destruct (IH Hnd l1 (n + 1) _ Hc1 Ha1 Hok1 Hm1) as (l' & c' & -> & Hc' & Ha' & Hok' & Hf').
    exists l', c'. split; [f_equal; simpl; lia|]. split_and!; try done. intros q. rewrite Hf', Hf1. simpl.
    destruct (decide (p = q)) as [<-|Hne].
    + rewrite lookup_insert_eq, not_elem_of_list_to_map_1 by done. simpl.
      destruct (files c !! p) as [x|]; simpl; [by destruct (beats _ _)|done].
    + by rewrite lookup_insert_ne.
Qed.

Lemma createDir_files n0 n1 c p di : files (buildSnapshot n0 n1 (Some c) [remoteCreateDir p di]) = files c.
Proof.
  unfold buildSnapshot, replay. cbn [files foldl startReplay]. unfold applyEntry. cbn [eType remoteCreateDir].
  destruct (blocked _ _); [done|]. unfold applyCreateDir. do 2 (destruct (blocked _ _); [done|]).
  by destruct (coveredByDirTombstone _ _ _).
Qed.

Lemma merge_dirs env base xs l n c :
  cache l = Some c -> (forall x, pIO env x = WOk) ->
  exists l' n' c', foldl (mergeCreatedDir env base) (l, n) xs = (l', n') /\ cache l' = Some c' /\ files c' = files c.
Proof.
  intros Hc Hio. revert l n c Hc. induction xs as [|[p di] xs IH]; intros l n c Hc; [by exists l, n, c|].
  cbn [foldl]. unfold mergeCreatedDir at 2. cbn [fst snd]. destruct (base !! p); [by apply IH|].
  unfold mergeDir. cbn [fst snd]. rewrite Hio.
  destruct (Append WOk (pN0 env) (pN1 env) (remoteCreateDir p di) l) as [l1 r] eqn:Ea.
  destruct (Append_warm _ _ _ _ _ _ _ Hc Ea) as (_ & _ & _ & Hc1).
  destruct (IH l1 (n + 1) _ Hc1) as (l' & n' & c' & Hfold & Hc' & Hf'). exists l', n', c'.
  split_and!; try done. by rewrite Hf', createDir_files.
Qed.

(** What a device may merge from a drive it sees for the first time. *)
Record fresh_peer (c : Snapshot) : Prop := {
  peer_additive : additive c;
  peer_ok : snapshot_ok c;
  peer_uploaded : exportedFiles (files c) = files c
}.

Lemma first_poll env o saves id now l c d :
  cache l = Some c -> additive c -> snapshot_ok c -> fresh_peer d -> (forall x, pIO env x = WOk) ->
  (forall p f g, files c !! p = Some f -> files d !! p = Some g -> heed_each_other f g) ->
  enumerates o (published now d) None ->
  exists l' b n c', syncDevice env o true saves id (Ok (Some (published now d))) ∅ l = Some (l', b, Ok n) /\
    cache l' = Some c' /\ forall q, files c' !! q = file_join (files c !! q) (files d !! q).
Proof.
  intros Hc Ha Hok [Hda _ Hdu] Hio Hheeds (Ho1 & Ho2 & Ho3 & _). rewrite published_files, Hdu in Ho1.
  unfold syncDevice, baselineLoad. rewrite lookup_empty. unfold diffAndMerge.
  assert (deletedRoot (published now d) = None) as Hroot by apply (add_root _ Hda). rewrite Hroot.
  unfold getSnapshot. cbn [fst snd]. rewrite Hc. cbn [from_option mbind option_bind].
  assert (mergeable c (ordRemote o)) as Hm.
  { unfold mergeable. rewrite Ho1, Forall_forall. intros [p f] Hin. apply elem_of_map_to_list in Hin. simpl.
    split; [intros x Hx; by eapply Hheeds|by eapply (add_whole _ Hda)]. }
  assert (NoDup (ordRemote o).*1) as Hnd by (rewrite Ho1; apply NoDup_fst_map_to_list).
  destruct (merge_all env c (ordRemote o) l 0 c Hc Hio Ha Hok Hnd Hm) as (l1 & c1 & -> & Hc1 & _ & _ & Hf1).
  assert (bool_decide (is_Some (@None Snapshot)) = false) as -> by (apply bool_decide_eq_false_2; by intros [? ?]).
  cbn [andb].
  destruct (merge_dirs env ∅ (ordDirs o) l1 (0 + Z.of_nat (length (ordRemote o))) c1 Hc1 Hio)
    as (l2 & n2 & c2 & -> & Hc2 & Hf2).
  eexists l2, _, n2, c2. split; [reflexivity|]. split; [done|]. intros q. rewrite Hf2, Hf1.
  f_equal. apply option_eq. intros f.
  rewrite <- (elem_of_list_to_map (M := gmap string) _ q f Hnd), Ho1. by rewrite elem_of_map_to_list.
Qed.

(** C7 (equivalence). Two drives that have deleted nothing and poll each other's
    published snapshot for the first time end with the same files: at every path
    the file with the higher clock of the two.  All uploads are done, the appends
    succeed, two different files of a path have different clocks, and where one
    names the content of the other as what it replaces ([PrevChecksum]) it is the
    newer one.  The other way round, when an older edit replaces the content that
    the newer one went back to, the two do not agree ([fs_poll_revert_splits]). *)
Theorem fs_exchange_converges envA envB oA oB sA sB idA idB nowA nowB l m c d
  (HcA : cache l = Some c) (HcB : cache m = Some d) (HpA : fresh_peer c) (HpB : fresh_peer d)
  (HioA : forall x, pIO envA x = WOk) (HioB : forall x, pIO envB x = WOk)
  (HoA : enumerates oA (published nowB d) None) (HoB : enumerates oB (published nowA c) None)
  (Hclocks : forall p f g, files c !! p = Some f -> files d !! p = Some g -> ClockTuple f = ClockTuple g -> f = g)
  (Hheeds : forall p f g, files c !! p = Some f -> files d !! p = Some g -> heed_each_other f g) :
  exists l' bA nA c' m' bB nB d',
    syncDevice envA oA true sA idB (Ok (Some (published nowB d))) ∅ l = Some (l', bA, Ok nA) /\
    syncDevice envB oB true sB idA (Ok (Some (published nowA c))) ∅ m = Some (m', bB, Ok nB) /\
    cache l' = Some c' /\ cache m' = Some d' /\ files c' = files d' /\
    forall q, files c' !! q = file_join (files c !! q) (files d !! q).
Proof.
  destruct (first_poll envA oA sA idB nowB l c d HcA) as (l' & bA & nA & c' & E1 & Hc' & Hf1); try done; try apply HpA.
  destruct (first_poll envB oB sB idA nowA m d c HcB) as (m' & bB & nB & d' & E2 & Hd' & Hf2); try done; try apply HpB.
  { intros p f g Hf Hg. destruct (Hheeds p g f Hg Hf) as [? ?]. by split. }
  exists l', bA, nA, c', m', bB, nB, d'. split_and!; try done. apply map_eq. intros q. rewrite Hf1, Hf2.
  destruct (files c !! q) as [f|] eqn:Hf, (files d !! q) as [g|] eqn:Hg; try done. simpl.
  destruct (decide (ClockTuple f = ClockTuple g)) as [E|Hne].
  - rewrite (Hclocks q f g Hf Hg E). done.
  - destruct (beats (ClockTuple g) (ClockTuple f)) eqn:Hb.
    + by rewrite (clock_beats_asym _ _ Hb).
    + by rewrite (clock_beats_total _ _ (not_eq_sym Hne) Hb).
Qed.

(** Once a snapshot has been polled and its baseline saved, polling
    the same snapshot again appends nothing, in whatever state the log is by
    then and whichever appends of the first poll had failed. *)
Theorem fs_poll_settles env1 env2 o1 o2 loads saves id remote b l l1 b1 n lnow
  (Hup : exportedFiles (files remote) = files remote)
  (Hfirst : syncDevice env1 o1 loads true id (Ok (Some remote)) b l = Some (l1, b1, Ok n))
  (Horders : enumerates o2 remote (b1 !! id)) :
  exists l2 b2, syncDevice env2 o2 true saves id (Ok (Some remote)) b1 lnow = Some (l2, b2, Ok 0) /\
    opsFile l2 = opsFile lnow.
Proof.
  unfold syncDevice in Hfirst. destruct (diffAndMerge env1 o1 remote _ l) as [[l' merged]|]; [|done].
  injection Hfirst as <- <- <-. unfold baselineSave in Horders |- *. rewrite lookup_insert_eq in Horders.
  unfold syncDevice, baselineLoad. rewrite lookup_insert_eq.
  destruct (diffAndMerge_same env2 o2 remote (published (pNow env1) remote) lnow) as (l2 & E & Hf);
    [by rewrite published_files|done|done|exact Horders|].
  match goal with |- context [diffAndMerge env2 o2 remote ?b lnow] =>
    change b with (Some (published (pNow env1) remote)) end.
  rewrite E. by eexists _, _.
Qed.

End Facts.

(** ** Concrete polls *)

Section Demo.
#[local] Existing Instance demoCodec.

Definition demoFile (dev : string) (ts : Z) (sum : string) : FileInfo :=
  mkFileInfo (Some [sum]) 1 (time_Unix ts) sum "" "Test" dev 1 "".

Definition demoSnap (fs : gmap string FileInfo) : Snapshot := mkSnapshot fs ∅ ∅ ∅ None 0 0.
Definition demoLog (dev : string) (c : Snapshot) : LocalOpsLog := mkLog None dev (Some c) 0 0.
Definition demoEnv (io : WriteIO) (now : Z) : PollEnv := mkPollEnv (fun _ => io) true (time_Unix now) 0 0.
Definition ordersOf (remote : Snapshot) (base : option Snapshot) : Orders :=
  mkOrders (map_to_list (files remote)) (map_to_list (from_option files ∅ base)) (map_to_list (dirs remote))
    (map_to_list (from_option dirs ∅ base)).

Lemma ordersOf_ok remote base : enumerates (ordersOf remote base) remote base.
Proof. by split_and!. Qed.

Definition filesA : gmap string FileInfo := {["f" := demoFile "A" 10 "a"]}.
(** [B] has edited the file of [A]. *)
Definition editOf (f : FileInfo) (dev : string) (ts : Z) (sum : string) : FileInfo :=
  mkFileInfo (Some [sum]) 1 (time_Unix ts) sum (fiChecksum f) "Test" dev 1 "".
Definition filesB : gmap string FileInfo := <["g" := demoFile "B" 5 "x"]> {["f" := editOf (demoFile "A" 10 "a") "B" 11 "b"]}.

Lemma demo_fresh fs :
  map_Forall (fun _ f => whole (fiModified f) /\ pendingUpload f = false) fs ->
  fresh_peer (demoSnap fs).
Proof.
  intros H. split.
  - split; try done; intros p f Hf; by apply (H p f).
  - split; simpl; intros *; rewrite ?lookup_empty; done.
  - apply map_eq. intros p. apply option_eq. intros f. rewrite exportedFiles_lookup. simpl. split; [tauto|].
    intros Hf. split; [done|]. by apply (H p f).
Qed.

Lemma demo_freshA : fresh_peer (demoSnap filesA).
Proof. apply demo_fresh. unfold filesA. intros p f Hf. apply lookup_singleton_Some in Hf as [_ <-]. by vm_compute. Qed.

Lemma demo_freshB : fresh_peer (demoSnap filesB).
Proof.
  apply demo_fresh. apply map_Forall_insert_2; [by vm_compute|]. intros p f Hf.
  apply lookup_singleton_Some in Hf as [_ <-]. by vm_compute.
Qed.

Lemma demo_clocks p f g :
  files (demoSnap filesA) !! p = Some f -> files (demoSnap filesB) !! p = Some g -> ClockTuple f = ClockTuple g -> f = g.
Proof. simpl. unfold filesA. intros Hf. apply lookup_singleton_Some in Hf as [<- <-]. simpl. intros [= <-]. done. Qed.

Lemma demo_heeds p f g : files (demoSnap filesA) !! p = Some f -> files (demoSnap filesB) !! p = Some g -> heed_each_other f g.
Proof.
  simpl. unfold filesA. intros Hf. apply lookup_singleton_Some in Hf as [<- <-]. intros [= <-].
  split; apply (bool_decide_unpack _); vm_compute; exact I.
Defined.

Lemma fs_exchange_converges_witness :
  exists l' bA nA c' m' bB nB d',
    syncDevice (demoEnv WOk 20) (ordersOf (published 0 (demoSnap filesB)) None) true true "B"
      (Ok (Some (published 0 (demoSnap filesB)))) ∅ (demoLog "A" (demoSnap filesA)) = Some (l', bA, Ok nA) /\
    syncDevice (demoEnv WOk 20) (ordersOf (published 0 (demoSnap filesA)) None) true true "A"
      (Ok (Some (published 0 (demoSnap filesA)))) ∅ (demoLog "B" (demoSnap filesB)) = Some (m', bB, Ok nB) /\
    cache l' = Some c' /\ cache m' = Some d' /\ files c' = files d' /\
    forall q, files c' !! q = file_join (filesA !! q) (filesB !! q).
Proof.
  exact (fs_exchange_converges (demoEnv WOk 20) (demoEnv WOk 20) _ _ true true "A" "B" 0 0
    (demoLog "A" (demoSnap filesA)) (demoLog "B" (demoSnap filesB)) (demoSnap filesA) (demoSnap filesB) eq_refl eq_refl
    demo_freshA demo_freshB (fun _ => eq_refl) (fun _ => eq_refl) (ordersOf_ok _ None) (ordersOf_ok _ None) demo_clocks demo_heeds).
Defined.

(** [A] went from ["x"] to ["y"], and [B] later from ["y"] back to ["x"]: each turns
    the file of the other down, here and at every later poll of the same
    snapshots. *)
Lemma fs_poll_revert_splits :
  let a := demoSnap {["f" := editOf (demoFile "A" 1 "x") "A" 10 "y"]} in
  let b := demoSnap {["f" := editOf (demoFile "A" 10 "y") "B" 20 "x"]} in
  let polls c d := match syncDevice (demoEnv WOk 30) (ordersOf (published 0 d) None) true true "peer" (Ok (Some (published 0 d))) ∅ (demoLog "dev" c) with
    | Some (l, _, Ok _) => cache l ≫= (fun c => fiChecksum <$> Lookup c "f") | _ => None end in
  polls a b = Some "y" /\ polls b a = Some "x".
Proof. vm_compute. split; reflexivity. Qed.

(** The local file ["f"], edited here at 10 since the baseline of 5, and deleted by the remote. *)
Lemma fs_poll_delete_beats_edit_witness :
  exists l' merged', mergeDeleted (demoEnv WOk 20) ∅ (demoLog "A" (demoSnap filesA), 0) ("f", demoFile "B" 5 "old")
      = (l', merged') /\
    exists c', cache l' = Some c' /\ Lookup c' "f" = None /\ is_Some (deleted c' !! "f") /\
      forall q, q <> "f" -> Lookup c' q = Lookup (demoSnap filesA) q.
Proof.
  eexists _, _. split; [reflexivity|].
  exact (proj2 (fs_poll_delete_beats_edit (demoEnv WOk 20) (demoLog "A" (demoSnap filesA)) (demoSnap filesA) ∅ "f"
    (demoFile "B" 5 "old") (demoFile "A" 10 "a") 0 _ _ eq_refl (peer_ok _ demo_freshA) ltac:(vm_compute; reflexivity)
    ltac:(discriminate) (lookup_empty _) (fun _ => eq_refl) ltac:(vm_compute; reflexivity) ltac:(vm_compute; reflexivity)
    eq_refl)).
Defined.

(** The first poll runs with a disk that takes no write: both files are lost
    for good. *)
Definition demoFailed : LocalOpsLog * Baselines * result unit Z :=
  default (demoLog "A" (demoSnap ∅), ∅, Err tt)
    (syncDevice (demoEnv WOpenFails 20) (ordersOf (demoSnap filesB) None) true true "B" (Ok (Some (demoSnap filesB))) ∅
      (demoLog "A" (demoSnap ∅))).

Lemma demo_failed :
  syncDevice (demoEnv WOpenFails 20) (ordersOf (demoSnap filesB) None) true true "B" (Ok (Some (demoSnap filesB))) ∅
    (demoLog "A" (demoSnap ∅)) = Some (demoLog "A" (demoSnap ∅), demoFailed.1.2, Ok 0).
Proof. vm_compute. reflexivity. Qed.

Lemma fs_poll_settles_witness :
  exists l2 b2, syncDevice (demoEnv WOk 30) (ordersOf (demoSnap filesB) (demoFailed.1.2 !! "B")) true true "B"
      (Ok (Some (demoSnap filesB))) demoFailed.1.2 (demoLog "A" (demoSnap ∅)) = Some (l2, b2, Ok 0) /\
    opsFile l2 = None.
Proof.
  exact (fs_poll_settles (demoEnv WOpenFails 20) (demoEnv WOk 30) (ordersOf (demoSnap filesB) None) _ true true "B"
    (demoSnap filesB) ∅ (demoLog "A" (demoSnap ∅)) (demoLog "A" (demoSnap ∅)) demoFailed.1.2 0 (demoLog "A" (demoSnap ∅))
    (peer_uploaded _ demo_freshB) demo_failed (ordersOf_ok _ _)).
Defined.

Lemma conflict_copy_path_example :
  conflictCopyPath "docs/notes.md" "dev123" 1711700000 = "docs/notes.conflict-dev123-1711700000.md".
Proof. vm_compute. reflexivity. Qed.

End Demo.
