(* ===== verification/FsPath.v ===== *)
(** * Logical paths (pkg/fs/path.go, path_policy.go)

    Files are known by logical paths, slash-separated and relative; this file
    models their validation, the two maps between logical paths and paths below
    a root on a Unix file system, and the detection of paths that a Windows file
    system cannot hold.  The texts of the errors ([fmt.Errorf]) and the Unicode
    tables of [strings.ToLower] and [ToUpper] are arguments. *)

From Stdlib Require Import Ascii.
From stdpp Require Import base numbers list sorting gmap strings.
From S2P Require Import Prelude GoStrings GoText GoPath FsOps.

Inductive PathErr :=
| ErrRequired | ErrNotCanonical (raw : string) | ErrIsRoot | ErrAbsolute (raw : string)
| ErrDrivePrefix (raw : string) | ErrEmptySegment (raw : string) | ErrInvalidSegment (raw part : string)
| ErrRelative
| ErrWinEmpty | ErrWinTrailing (seg : string) | ErrWinColon (seg : string) | ErrWinControl (seg : string)
| ErrWinForbidden (seg : string) (r : Z) | ErrWinReserved (seg base : string).

#[export] Instance PathErr_eq_dec : EqDecision PathErr.
Proof. solve_decision. Defined.

(** ** Validation (path.go) *)

Definition backslash : ascii := Ascii false false true true true false true false.

Fixpoint ReplaceBackslash (s : string) : string :=
  match s with
  | EmptyString => EmptyString
  | String c s' => String (if Ascii.eqb c backslash then slash else c) (ReplaceBackslash s')
  end.

Definition isASCIIAlpha (b : ascii) : bool := in_range 97 122 (byte_of b) || in_range 65 90 (byte_of b).

(** [len(path) >= 2 && path[1] == ':' && isASCIIAlpha(path[0])] *)
Definition drivePrefix (path : string) : bool :=
  match path with
  | String a (String b _) => Ascii.eqb b ":" && isASCIIAlpha a
  | _ => false
  end.

Fixpoint checkSegments (raw : string) (parts : list string) : result PathErr unit :=
  match parts with
  | [] => Ok tt
  | part :: parts =>
      if bool_decide (part = "") then Err (ErrEmptySegment raw)
      else if bool_decide (part = ".") || bool_decide (part = "..") then Err (ErrInvalidSegment raw part)
      else checkSegments raw parts
  end.

Definition normalizeLogicalPath (raw : string) (convertBackslashes : bool) : result PathErr string :=
  if bool_decide (raw = "") then Err ErrRequired
  else
    path ← (if convertBackslashes then Ok (ReplaceBackslash raw)
            else if ContainsByte backslash raw then Err (ErrNotCanonical raw) else Ok raw);
    if bool_decide (path = ".") then Err ErrIsRoot
    else if HasPrefix path "/" then Err (ErrAbsolute raw)
    else if drivePrefix path then Err (ErrDrivePrefix raw)
    else
      let parts := SplitByte slash path in
      checkSegments raw parts ;;
      Ok (JoinByte slash parts).

Definition NormalizeLogicalPath (raw : string) : result PathErr string := normalizeLogicalPath raw true.
Definition canonicalLogicalPath (raw : string) : result PathErr string := normalizeLogicalPath raw false.

(** On Unix [filepath.ToSlash] and [FromSlash] are the identity, and the
    Windows check of [LogicalPathToLocal] does not run. *)
Definition LocalPathToLogical (root localp : string) : result PathErr string :=
  match Rel root localp with
  | None => Err ErrRelative
  | Some rel => canonicalLogicalPath rel
  end.

Definition LogicalPathToLocal (root logical : string) : result PathErr string :=
  canonical ← canonicalLogicalPath logical; Ok (Join2 root canonical).

(** ** Names a Windows file system refuses *)

Definition windowsReservedNames : list string :=
  ["CON"; "PRN"; "AUX"; "NUL"; "COM1"; "COM2"; "COM3"; "COM4"; "COM5"; "COM6"; "COM7"; "COM8"; "COM9";
   "LPT1"; "LPT2"; "LPT3"; "LPT4"; "LPT5"; "LPT6"; "LPT7"; "LPT8"; "LPT9"].

(** The runes of the loop: control characters and less-than, greater-than, the
    double quote, bar, question mark and star. *)
Fixpoint checkRunes (seg : string) (rs : list Z) : result PathErr unit :=
  match rs with
  | [] => Ok tt
  | r :: rs =>
      if r <? 32 then Err (ErrWinControl seg)
      else if bool_decide (r ∈ [60; 62; 34; 124; 63; 42]) then Err (ErrWinForbidden seg r)
      else checkRunes seg rs
  end.

(** [strings.TrimRight(s, " .")] *)
Fixpoint trimDotSpace (s : string) : string :=
  match s with
  | EmptyString => ""
  | String a s' =>
      match trimDotSpace s' with
      | EmptyString => if Ascii.eqb a " " || Ascii.eqb a "." then "" else String a ""
      | t => String a t
      end
  end.

Inductive pathPolicyIssueKind := WindowsInvalid | CaseCollision | WindowsSymlinkUnsupported.

#[export] Instance pathPolicyIssueKind_eq_dec : EqDecision pathPolicyIssueKind.
Proof. solve_decision. Defined.

Definition kindText (k : pathPolicyIssueKind) : string :=
  match k with
  | WindowsInvalid => "windows_invalid_path"
  | CaseCollision => "windows_case_collision"
  | WindowsSymlinkUnsupported => "windows_symlink_unsupported"
  end.

Record pathPolicyIssue := mkIssue {
  issKind : pathPolicyIssueKind;
  issPaths : list string;
  issReason : string
}.

Definition pathPolicyIssueReasonCollision : string := "paths collide on Windows case-insensitive filesystem".

(** The order of [sortPathPolicyIssues]; the separator is the NUL byte. *)
Definition issue_ltb (a b : pathPolicyIssue) : bool :=
  let left := JoinByte zero (issPaths a) in
  let right := JoinByte zero (issPaths b) in
  if bool_decide (issKind a <> issKind b) then (kindText (issKind a) <s? kindText (issKind b))%go
  else if bool_decide (left <> right) then (left <s? right)%go
  else (issReason a <s? issReason b)%go.

Definition issue_le (a b : pathPolicyIssue) : Prop := issue_ltb b a = false.

#[export] Instance issue_le_dec a b : Decision (issue_le a b) := decide (issue_ltb b a = false).

Definition sortPathPolicyIssues (issues : list pathPolicyIssue) : list pathPolicyIssue :=
  merge_sort issue_le issues.

Section Windows.
Context (unicodeLower unicodeUpper : string -> string) (errText : PathErr -> string).

Definition validateWindowsPathSegment (segment : string) : result PathErr unit :=
  if bool_decide (segment = "") then Err ErrWinEmpty
  else if HasSuffix segment "." || HasSuffix segment " " then Err (ErrWinTrailing segment)
  else if ContainsByte ":" segment then Err (ErrWinColon segment)
  else
    checkRunes segment (runes_of segment) ;;
    let trimmed := trimDotSpace segment in
    let base := match IndexByte trimmed "." with Some i => str_take i trimmed | None => trimmed end in
    if bool_decide (ToUpper unicodeUpper base ∈ windowsReservedNames) then Err (ErrWinReserved segment base)
    else Ok tt.

Fixpoint validateSegments (segs : list string) : result PathErr unit :=
  match segs with
  | [] => Ok tt
  | seg :: segs => validateWindowsPathSegment seg ;; validateSegments segs
  end.

Definition ValidateWindowsLogicalPath (logical : string) : result PathErr unit :=
  canonical ← NormalizeLogicalPath logical; validateSegments (SplitByte slash canonical).

Definition windowsCaseFoldKey (path : string) : string := ToLower unicodeLower path.

(** ** Issues of a set of paths (path_policy.go) *)

Record Scan := mkScan {
  scUnique : gset string;
  scGroups : gmap string (list string);
  scIssues : list pathPolicyIssue
}.

Definition scanPath (st : Scan) (path : string) : Scan :=
  if bool_decide (path ∈ scUnique st) then st
  else
    let unique := {[path]} ∪ scUnique st in
    match canonicalLogicalPath path with
    | Err e => mkScan unique (scGroups st) (scIssues st ++ [mkIssue WindowsInvalid [path] (errText e)])
    | Ok canonical =>
        match ValidateWindowsLogicalPath canonical with
        | Err e => mkScan unique (scGroups st) (scIssues st ++ [mkIssue WindowsInvalid [canonical] (errText e)])
        | Ok _ =>
            let key := windowsCaseFoldKey canonical in
            mkScan unique (<[key := default [] (scGroups st !! key) ++ [canonical]]> (scGroups st)) (scIssues st)
        end
    end.

Definition collision (kg : string * list string) : option pathPolicyIssue :=
  if Nat.leb (length kg.2) 1 then None
  else Some (mkIssue CaseCollision (sort_Strings kg.2) pathPolicyIssueReasonCollision).

(** The groups are ranged over in any order; the issues are sorted. *)
Definition detectWindowsPathIssues (paths : list string) : list pathPolicyIssue :=
  let st := foldl scanPath (mkScan ∅ ∅ []) paths in
  sortPathPolicyIssues (scIssues st ++ omap collision (map_to_list (scGroups st))).

Definition snapshotLogicalPaths (snap : option Snapshot) : list string :=
  match snap with Some s => keys_of (files s) ++ keys_of (dirs s) | None => [] end.

Definition detectWindowsSnapshotPathIssues (snap : option Snapshot) : list pathPolicyIssue :=
  detectWindowsPathIssues (snapshotLogicalPaths snap).

(** [supported] and [reason] are the answer of the platform about symlinks. *)
Definition snapshotSymlinkPaths (snap : option Snapshot) : list string :=
  match snap with
  | Some s => sort_Strings (keys_of (filter (fun kv => fiLinkTarget kv.2 <> "") (files s)))
  | None => []
  end.

Definition unsupportedWindowsSymlinkIssueForCapability (snap : option Snapshot) (supported : bool) (reason : string)
  : option pathPolicyIssue :=
  let paths := snapshotSymlinkPaths snap in
  if bool_decide (paths = []) then None
  else if supported then None
  else Some (mkIssue WindowsSymlinkUnsupported paths
    (if bool_decide (reason = "") then "Windows symbolic links are unavailable on this machine" else reason)).

Definition activeSnapshotPathIssues (enabled supported : bool) (reason : string) (snap : option Snapshot)
  : list pathPolicyIssue :=
  if negb enabled then []
  else
    let issues := detectWindowsSnapshotPathIssues snap in
    match unsupportedWindowsSymlinkIssueForCapability snap supported reason with
    | Some issue => sortPathPolicyIssues (issues ++ [issue])
    | None => issues
    end.

End Windows.

Definition pathIssueBlocksPath (path : string) (issues : list pathPolicyIssue) : bool :=
  existsb (fun issue => existsb (fun issuePath =>
    bool_decide (path = issuePath) || HasPrefix path (issuePath +:+ "/")) (issPaths issue)) issues.

(** ** Canonical paths *)

Lemma checkSegments_ok raw parts :
  Forall (free_of slash) parts -> checkSegments raw parts = Ok tt <-> Forall proper parts.
Proof.
  induction 1 as [|x xs Hx _ IH]; [done|]. simpl. rewrite Forall_cons. unfold proper at 1.
  destruct (bool_decide_reflect (x = "")); [naive_solver|].
  destruct (bool_decide_reflect (x = ".")); [naive_solver|].
  destruct (bool_decide_reflect (x = "..")); [naive_solver|]. cbn [orb]. rewrite IH. naive_solver.
Qed.

Definition canonical (p : string) : Prop :=
  Forall proper (SplitByte slash p) /\ ContainsByte backslash p = false /\ drivePrefix p = false.

(** What the tests before the segments reject has an improper segment, or a
    drive prefix. *)
Lemma normalize_tail raw path :
  (if bool_decide (path = ".") then Err ErrIsRoot
   else if HasPrefix path "/" then Err (ErrAbsolute raw)
   else if drivePrefix path then Err (ErrDrivePrefix raw)
   else checkSegments raw (SplitByte slash path) ;; Ok (JoinByte slash (SplitByte slash path))) = Ok path
  <-> Forall proper (SplitByte slash path) /\ drivePrefix path = false.
Proof.
  rewrite JoinByte_Split. pose proof (SplitByte_free slash path) as Hf.
  destruct (bool_decide_reflect (path = ".")) as [->|H1].
  { split; [done|]. intros [H _]. change (Forall proper ["."]) in H. apply Forall_singleton in H as (_ & H & _). done. }
  destruct (HasPrefix path "/") eqn:H2.
  { split; [done|]. intros [H _]. apply HasPrefix_spec in H2 as [t ->].
    assert (SplitByte slash ("/" +:+ t) = "" :: SplitByte slash t) as E by (apply (SplitByte_app slash "" t); done).
    rewrite E in H. apply Forall_cons in H as [(H & _) _]. done. }
  destruct (drivePrefix path); [naive_solver|]. rewrite <- (checkSegments_ok raw) by done.
  destruct (checkSegments raw (SplitByte slash path)) as [[]|e]; naive_solver.
Qed.

Lemma normalize_same raw path q :
  (if bool_decide (path = ".") then Err ErrIsRoot
   else if HasPrefix path "/" then Err (ErrAbsolute raw)
   else if drivePrefix path then Err (ErrDrivePrefix raw)
   else checkSegments raw (SplitByte slash path) ;; Ok (JoinByte slash (SplitByte slash path))) = Ok q -> q = path.
Proof.
  rewrite JoinByte_Split. destruct (bool_decide _); [done|]. destruct (HasPrefix _ _); [done|].
  destruct (drivePrefix _); [done|]. destruct (checkSegments _ _); [|done]. by intros [= ->].
Qed.

Lemma canonicalLogicalPath_spec raw p : canonicalLogicalPath raw = Ok p <-> p = raw /\ canonical raw.
Proof.
  unfold canonicalLogicalPath, normalizeLogicalPath, canonical.
  destruct (bool_decide_reflect (raw = "")) as [->|Hne].
  { split; [done|]. intros (_ & H & _). change (Forall proper [""]) in H. apply Forall_singleton in H as (H & _). done. }
  destruct (ContainsByte backslash raw) eqn:Hb; [naive_solver|]. cbn [mbind result_bind].
  split.
  - intros H. pose proof (normalize_same _ _ _ H) as ->. apply normalize_tail in H. naive_solver.
  - intros (-> & H & _ & Hd). by apply normalize_tail.
Qed.

Lemma ReplaceBackslash_none s : ContainsByte backslash (ReplaceBackslash s) = false.
Proof.
  unfold ContainsByte. apply negb_false_iff. induction s as [|c s IH]; [done|]. simpl. rewrite IH, andb_true_r.
  destruct (Ascii.eqb c backslash) eqn:E; [done|by rewrite E].
Qed.

(** Normalisation yields canonical paths, which it leaves alone. *)
Lemma NormalizeLogicalPath_canonical raw p : NormalizeLogicalPath raw = Ok p -> canonical p.
Proof.
  unfold NormalizeLogicalPath, normalizeLogicalPath. destruct (bool_decide (raw = "")); [done|].
  cbn [mbind result_bind]. intros H. pose proof (normalize_same _ _ _ H) as ->. apply normalize_tail in H as [H Hd].
  split; [done|]. split; [apply ReplaceBackslash_none|done].
Qed.

Lemma ReplaceBackslash_id s : ContainsByte backslash s = false -> ReplaceBackslash s = s.
Proof.
  unfold ContainsByte. rewrite negb_false_iff. induction s as [|c s IH]; [done|]. simpl.
  intros [H1%negb_true_iff H2]%andb_prop. by rewrite H1, IH.
Qed.

Lemma canonical_nonempty p : canonical p -> p <> "".
Proof. intros (H & _) ->. change (Forall proper [""]) in H. apply Forall_singleton in H as (H & _). done. Qed.

Lemma NormalizeLogicalPath_id p : canonical p -> NormalizeLogicalPath p = Ok p.
Proof.
  intros Hp. pose proof (canonical_nonempty p Hp) as Hne. destruct Hp as (H & Hb & Hd).
  unfold NormalizeLogicalPath, normalizeLogicalPath. rewrite bool_decide_eq_false_2 by done.
  cbn [mbind result_bind]. rewrite ReplaceBackslash_id by done. by apply normalize_tail.
Qed.

(** ** Below a root *)

Lemma local_segs root p : root <> "" -> canonical p ->
  clean_segs (Join2 root p) = clean_segs root ++ SplitByte slash p /\ rooted (Join2 root p) = rooted root.
Proof.
  intros Hr (Hp & _). unfold Join2. rewrite bool_decide_eq_false_2 by done.
  rewrite clean_segs_Clean, rooted_Clean. split.
  - rewrite <- (JoinByte_Split slash p) at 1. apply clean_segs_below; [done| |done].
    destruct (SplitByte_cons slash p) as (x & xs & ->). done.
  - destruct root as [|a r]; [done|]. rewrite str_app_cons. unfold rooted, HasPrefix. cbn [String.prefix].
    destruct (ascii_dec "/" a); [|done]. by destruct r, p.
Qed.

(** C39 (roundtrip). A logical path that maps below a root stays there: the local
    path is the root extended by the segments of the logical path, none of which
    is empty or a dot segment, and mapping it back gives the logical path. *)
Theorem fs_path_roundtrip (root logical localp : string)
  (Hroot : root <> "") (Hrun : LogicalPathToLocal root logical = Ok localp) :
  rooted localp = rooted root /\
  clean_segs localp = clean_segs root ++ SplitByte slash logical /\ Forall proper (SplitByte slash logical) /\
  LocalPathToLogical root localp = Ok logical.
Proof.
  unfold LogicalPathToLocal in Hrun. destruct (canonicalLogicalPath logical) as [c|] eqn:Ec; [|done].
  injection Hrun as <-. apply canonicalLogicalPath_spec in Ec as [-> Hc].
  destruct (local_segs root logical Hroot Hc) as [Hs Hrd]. split_and!; [done|done|apply Hc|].
  unfold LocalPathToLogical, Rel. rewrite bool_decide_eq_false_2.
  - rewrite Hrd, Hs. rewrite eqb_reflx. cbn [negb]. rewrite strip_common_app. cbn [length repeat app].
    rewrite JoinByte_Split. by apply canonicalLogicalPath_spec.
  - intros E. apply (f_equal clean_segs) in E. rewrite !clean_segs_Clean, Hs in E.
    apply (f_equal length) in E. rewrite length_app in E. destruct (SplitByte_cons slash logical) as (x & xs & Ex).
    rewrite Ex in E. simpl in E. lia.
Qed.

(** ** Issues *)

Lemma omap_nil {A B} (f : A -> option B) l : omap f l = [] <-> forall x, x ∈ l -> f x = None.
Proof.
  induction l as [|x l IH]; [set_solver|]. simpl. destruct (f x) eqn:E; simpl.
  - split; [done|]. intros H. rewrite H in E by apply list_elem_of_here. done.
  - rewrite IH. set_solver.
Qed.

Lemma short_list (l : list string) : NoDup l -> (length l <= 1)%nat <-> forall p q, p ∈ l -> q ∈ l -> p = q.
Proof.
  intros Hnd. destruct l as [|x [|y l]]; simpl.
  - split; [set_solver|lia].
  - split; [set_solver|lia].
  - apply NoDup_cons in Hnd as [Hx _]. split; [lia|]. intros H.
    rewrite (H x y) in Hx by set_solver. set_solver.
Qed.

Section Issues.
Context (unicodeLower unicodeUpper : string -> string) (errText : PathErr -> string).
Notation key := (windowsCaseFoldKey unicodeLower).
Notation valid := (ValidateWindowsLogicalPath unicodeUpper).
Notation scan := (scanPath unicodeLower unicodeUpper errText).

Definition acceptable (p : string) : Prop := canonicalLogicalPath p = Ok p /\ valid p = Ok tt.

Record scan_inv (seen : list string) (st : Scan) : Prop := {
  scan_unique : forall p, p ∈ scUnique st <-> p ∈ seen;
  scan_issues : scIssues st = [] <-> forall p, p ∈ seen -> acceptable p;
  scan_groups : forall k, NoDup (default [] (scGroups st !! k)) /\
    forall p, p ∈ default [] (scGroups st !! k) <-> p ∈ seen /\ acceptable p /\ key p = k
}.

Lemma scan_step seen st p : scan_inv seen st -> scan_inv (seen ++ [p]) (scan st p).
Proof.
  intros [H1 H2 H3]. unfold scanPath. destruct (bool_decide_reflect (p ∈ scUnique st)) as [Hin|Hnin].
  { apply H1 in Hin. split.
    - intros q. rewrite H1. set_solver.
    - rewrite H2. set_solver.
    - intros k. destruct (H3 k) as [Hnd Hg]. split; [done|]. intros q. rewrite Hg. set_solver. }
  rewrite H1 in Hnin.
  assert (forall q, q ∈ {[p]} ∪ scUnique st <-> q ∈ seen ++ [p]) as H1' by (intros q; rewrite elem_of_union, H1; set_solver).
  assert (forall iss e, ~ acceptable p -> scan_inv (seen ++ [p]) (mkScan ({[p]} ∪ scUnique st) (scGroups st) (iss ++ [e]))) as Hbad.
  { intros iss e Hna. split; simpl; [done| |].
    - split; [by destruct iss|]. intros H. destruct Hna. apply H. set_solver.
    - intros k. destruct (H3 k) as [Hnd Hg]. split; [done|]. intros q. rewrite Hg. set_solver. }
  destruct (canonicalLogicalPath p) as [c|e] eqn:Ec; [|apply Hbad; intros [? _]; congruence].
  pose proof Ec as Ec'. apply canonicalLogicalPath_spec in Ec' as [-> _].
  destruct (valid p) as [[]|e] eqn:Ev; [|apply Hbad; intros [_ ?]; congruence].
  assert (acceptable p) as Hp by done. split; simpl; [done| |].
  - rewrite H2. set_solver.
  - intros k. destruct (decide (key p = k)) as [<-|Hne].
    + rewrite lookup_insert_eq. simpl. destruct (H3 (key p)) as [Hnd Hg]. split.
      * apply NoDup_app. split_and!; [done| |apply NoDup_singleton]. intros q Hq ->%list_elem_of_singleton.
        by apply Hg in Hq as [? _].
      * intros q. rewrite elem_of_app, list_elem_of_singleton, Hg. set_solver.
    + rewrite lookup_insert_ne by done. destruct (H3 k) as [Hnd Hg]. split; [done|]. intros q. rewrite Hg. set_solver.
Qed.

Lemma scan_all paths : scan_inv paths (foldl scan (mkScan ∅ ∅ []) paths).
Proof.
  induction paths as [|p paths IH] using rev_ind.
  - split; simpl; [set_solver|set_solver|]. intros k. rewrite lookup_empty. simpl. split; [constructor|]. set_solver.
  - rewrite foldl_snoc. by apply scan_step.
Qed.

(** The Windows policy finds nothing to object to exactly when every
    path of the snapshot is canonical and has only names Windows accepts, and no
    two different paths fall together on a file system that ignores case. *)
Theorem fs_windows_paths_safe (paths : list string) :
  detectWindowsPathIssues unicodeLower unicodeUpper errText paths = [] <->
  (forall p, p ∈ paths -> canonicalLogicalPath p = Ok p /\ valid p = Ok tt) /\
  (forall p q, p ∈ paths -> q ∈ paths -> key p = key q -> p = q).
Proof.
  unfold detectWindowsPathIssues. pose proof (scan_all paths) as [_ H2 H3].
  set (st := foldl scan (mkScan ∅ ∅ []) paths) in *.
  assert (forall l, sortPathPolicyIssues l = [] <-> l = []) as ->.
  { intros l. unfold sortPathPolicyIssues. pose proof (merge_sort_Permutation issue_le l) as Hp.
    split; [|by intros ->].
    intros E. rewrite E in Hp. by apply Permutation.Permutation_nil in Hp. }
  rewrite app_nil, H2, omap_nil. split; intros [Hgood Hgroup]; (split; [done|]).
  - intros p q Hp Hq Hk. destruct (H3 (key p)) as [Hnd Hg].
    assert (length (default [] (scGroups st !! key p)) <= 1)%nat as Hlen.
    { destruct (scGroups st !! key p) as [g|] eqn:Eg; simpl; [|lia].
      specialize (Hgroup (key p, g) (proj2 (elem_of_map_to_list _ _ _) Eg)). unfold collision in Hgroup. simpl in Hgroup.
      destruct (Nat.leb_spec (length g) 1); [lia|done]. }
    apply (proj1 (short_list _ Hnd) Hlen); apply Hg; auto.
  - intros [k g] Hin%elem_of_map_to_list. unfold collision. simpl. destruct (H3 k) as [Hnd Hg]. rewrite Hin in Hnd, Hg.
    simpl in *. destruct (Nat.leb_spec (length g) 1) as [|Hlen]; [done|]. exfalso.
    assert (length g <= 1)%nat; [|lia]. apply short_list; [done|]. intros p q Hp Hq.
    apply Hg in Hp as (? & ? & <-), Hq as (? & ? & ?). by apply Hgroup.
Qed.

End Issues.

Lemma fs_path_roundtrip_witness :
  LogicalPathToLocal "/home/u/drive/" "docs/a.txt" = Ok "/home/u/drive/docs/a.txt" /\
  LocalPathToLogical "/home/u/drive/" "/home/u/drive/docs/a.txt" = Ok "docs/a.txt".
Proof.
  split; [vm_compute; reflexivity|].
  exact (proj2 (proj2 (proj2 (fs_path_roundtrip "/home/u/drive/" "docs/a.txt" "/home/u/drive/docs/a.txt"
    ltac:(discriminate) ltac:(vm_compute; reflexivity))))).
Defined.

Lemma path_examples :
  canonicalLogicalPath "../etc" = Err (ErrInvalidSegment "../etc" "..") /\
  canonicalLogicalPath "a//b" = Err (ErrEmptySegment "a//b") /\
  canonicalLogicalPath "/a" = Err (ErrAbsolute "/a") /\
  canonicalLogicalPath "C:x" = Err (ErrDrivePrefix "C:x") /\
  ValidateWindowsLogicalPath id "docs/con.txt" = Err (ErrWinReserved "con.txt" "con") /\
  length (detectWindowsPathIssues id id (fun _ => "") ["a/x"; "A/x"; "b"]) = 1%nat.
Proof. vm_compute. split_and!; reflexivity. Qed.
