(* ===== verification/FsReconcile.v ===== *)
(** * The reconciler of the file sync (pkg/fs/reconciler.go)

    One pass brings the local directory in line with the snapshot of the log.
    The directory is a map from logical paths to files and links together with
    its set of subdirectories; the hash (SHA3-256), the store that fetches
    chunks, the outcomes of the file system calls and the patterns to ignore are
    arguments.  A pass that its context cancels half way is not modelled. *)

From Stdlib Require Import Ascii.
From stdpp Require Import base numbers list gmap strings.
From S2P Require Import Prelude GoStrings GoPath JsonLines FsOps FsLocalLog FsOutbox FsPoll FsPath.

Inductive Node := File (content : string) | Link (target : string).

Record Disk := mkDisk { nodes : gmap string Node; subdirs : gset string }.

(** The SHA3-256 of the empty string, as the source spells it. *)
Definition emptyHash : string := "a7ffc6f8bf1ed76651c14756a061d662f580ff4de43b49fa82d80a4b80f8434a".

Record Counts := mkCounts {
  cDownloaded : Z; cDeleted : Z; cFailed : Z; cSkipped : Z; cPending : Z; cActive : bool
}.

(** What the pass learns from the outbox; nothing when it cannot be read. *)
Record PendingOps := mkPending {
  pendingWrites : gset string;
  pendingDeletes : gset string;
  pendingDeleteDirs : list string
}.

Definition pendingOf (outbox : result LogErr (list OutboxEntry)) : PendingOps :=
  match outbox with
  | Err _ => mkPending ∅ ∅ []
  | Ok es =>
      foldl (fun p e =>
        match oOp e with
        | OpPut | OpSymlink | OpCreateDir =>
            mkPending ({[oPath e]} ∪ pendingWrites p) (pendingDeletes p) (pendingDeleteDirs p)
        | OpDelete => mkPending (pendingWrites p) ({[oPath e]} ∪ pendingDeletes p) (pendingDeleteDirs p)
        | OpDeleteDir => mkPending (pendingWrites p) (pendingDeletes p) (pendingDeleteDirs p ++ [oPath e +:+ "/"])
        | OpOther _ => p
        end) (mkPending ∅ ∅ []) es
  end.

Definition underPendingDeleteDir (path : string) (prefixes : list string) : bool :=
  existsb (fun p => HasPrefix path p) prefixes.

Definition checksumMatch (contentHash : string) (fi : FileInfo) : bool :=
  bool_decide (fiChecksum fi = contentHash) ||
  match default [] (fiChunks fi) with [c] => bool_decide (c = contentHash) | _ => false end.

(** What the first loop decides for a file of the snapshot. *)
Inductive Decision_ := Skip | AwaitUpload | InSync | WantLink | WantFile.

(** ** Live directories *)

(** The walk up from [dir]: it marks the directories above until one is marked
    already.  Fuel beyond the length of the path is never used up. *)
Fixpoint markAbove (fuel : nat) (dir : string) (live : gset string) : gset string :=
  match fuel with
  | O => live
  | S fuel' =>
      match LastIndexByte dir "/" with
      | None => live
      | Some i =>
          let dir := str_take i dir in
          if bool_decide (dir ∈ live) then live else markAbove fuel' dir ({[dir]} ∪ live)
      end
  end.

Definition markParents (dir : string) (live : gset string) : gset string :=
  markAbove (S (String.length dir)) dir live.

Definition liveDirs (snapshotFiles : gmap string FileInfo) (snapshotDirs : gmap string DirInfo) : gset string :=
  let live := foldl (fun live p => markParents p live) ∅ (keys_of snapshotFiles) in
  foldl (fun live dir => markParents dir ({[dir]} ∪ live)) live (keys_of snapshotDirs).

Section Pass.
Context (hash : string -> string) (ignore : string -> bool).
(** [fetch] yields the content of a list of chunks; [follow] what a link leads to. *)
Context (fetch : list string -> option string) (follow : string -> option string).
(** Whether the system call on the path succeeds. *)
Context (symlinkOk publishOk removeOk : string -> bool).

Definition nodeChecksum (n : Node) : string := match n with File c => hash c | Link t => hash t end.

(** [ScanDirectory] leaves out what is ignored, itself or by a directory above
    it, and the conflict copies. *)
Definition scanned (d : Disk) (path : string) : bool :=
  negb (ignore path) && negb (isConflictCopyPath path) &&
  forallb (fun e => negb (ignore e && HasPrefix path (e +:+ "/"))) (elements (subdirs d)).

Definition ScanDirectory (d : Disk) : gmap string string :=
  nodeChecksum <$> filter (fun kv => scanned d kv.1 = true) (nodes d).

Definition scannedLink (d : Disk) (path : string) : string :=
  match nodes d !! path with Some (Link t) => if scanned d path then t else "" | _ => "" end.

(** [os.Stat] and [fileChecksum] read through a link. *)
Definition contentAt (d : Disk) (path : string) : option string :=
  match nodes d !! path with Some (File c) => Some c | Some (Link t) => follow t | None => None end.

(** [os.MkdirAll] of the directory that holds [path]. *)
Definition makeParents (path : string) (d : Disk) : Disk := mkDisk (nodes d) (markParents path (subdirs d)).

Definition setNode (path : string) (n : Node) (d : Disk) : Disk := mkDisk (<[path := n]> (nodes d)) (subdirs d).

Definition decideFile (issues : list pathPolicyIssue) (p : PendingOps) (localFiles : gmap string string)
    (path : string) (fi : FileInfo) : Decision_ :=
  if pathIssueBlocksPath path issues then Skip
  else if bool_decide (path ∈ pendingWrites p) then Skip
  else if bool_decide (path ∈ pendingDeletes p) then Skip
  else if underPendingDeleteDir path (pendingDeleteDirs p) then Skip
  else if bool_decide (default [] (fiChunks fi) = []) && bool_decide (fiLinkTarget fi = "") && Z.ltb 0 (fiSize fi)
  then AwaitUpload
  else
    let inSync := match localFiles !! path with Some sum => checksumMatch sum fi | None => false end in
    if inSync then InSync
    else if bool_decide (fiLinkTarget fi <> "") then WantLink else WantFile.

(** The disk after the call and whether it reports success. *)
Definition createSymlink (path target localTarget : string) (d : Disk) : Disk * bool :=
  if bool_decide (localTarget = target) then (d, false)
  else if negb (is_ok (canonicalLogicalPath path)) then (d, false)
  else
    let d := makeParents path d in
    if symlinkOk path then (setNode path (Link target) d, true)
    else (mkDisk (delete path (nodes d)) (subdirs d), false).

Definition downloadFile (path : string) (fi : FileInfo) (d : Disk) : Disk * bool :=
  if negb (is_ok (canonicalLogicalPath path)) then (d, false)
  else if bool_decide (fiChecksum fi = emptyHash) &&
          match contentAt d path with Some c => Z.ltb 0 (slen c) | None => false end then (d, false)
  else if match contentAt d path with Some c => checksumMatch (hash c) fi | None => false end then (d, false)
  else if bool_decide (default [] (fiChunks fi) = []) && Z.eqb (fiSize fi) 0 then
    (** [os.WriteFile] writes through a link, which stays *)
    let d := makeParents path d in
    if publishOk path then
      (match nodes d !! path with Some (Link _) => d | _ => setNode path (File "") d end, true)
    else (d, false)
  else if bool_decide (default [] (fiChunks fi) = []) then (d, false)
  else match fetch (default [] (fiChunks fi)) with
  | None => (d, false)
  | Some content =>
      let d := makeParents path d in
      if publishOk path then (setNode path (File content) d, true) else (d, false)
  end.

(** [os.Remove]; an error is ignored. *)
Definition deleteFile (path : string) (d : Disk) : Disk :=
  if is_ok (canonicalLogicalPath path) && removeOk path then mkDisk (delete path (nodes d)) (subdirs d) else d.

(** The three loops over files. *)
Definition bringIn (issues : list pathPolicyIssue) (p : PendingOps) (snap : Snapshot) (d0 : Disk)
    (st : Disk * Counts) (kv : string * FileInfo) : Disk * Counts :=
  let '(path, fi) := kv in
  let '(d, c) := st in
  let done '(d', ok) :=
    if (ok : bool) then (d', mkCounts (cDownloaded c + 1) (cDeleted c) (cFailed c) (cSkipped c) (cPending c) true)
    else (d', mkCounts (cDownloaded c) (cDeleted c) (cFailed c + 1) (cSkipped c) (cPending c) (cActive c)) in
  match decideFile issues p (ScanDirectory d0) path fi with
  | Skip => (d, mkCounts (cDownloaded c) (cDeleted c) (cFailed c) (cSkipped c + 1) (cPending c) (cActive c))
  | AwaitUpload => (d, mkCounts (cDownloaded c) (cDeleted c) (cFailed c) (cSkipped c) (cPending c + 1) (cActive c))
  | InSync => (d, c)
  | WantLink => done (createSymlink path (fiLinkTarget fi) (scannedLink d0 path) d)
  | WantFile => done (downloadFile path fi d)
  end.

Definition takeOut (issues : list pathPolicyIssue) (p : PendingOps) (snap : Snapshot)
    (st : Disk * Counts) (path : string) : Disk * Counts :=
  let '(d, c) := st in
  if pathIssueBlocksPath path issues then st
  else if bool_decide (path ∈ pendingWrites p) then st
  else
    let inSnapshot := bool_decide (is_Some (files snap !! path)) in
    if bool_decide (is_Some (deleted snap !! path)) || (RootDeleted (Some snap) && negb inSnapshot) then
      (deleteFile path d, mkCounts (cDownloaded c) (cDeleted c + 1) (cFailed c) (cSkipped c) (cPending c) true)
    else st.

(** ** Directories *)

(** [os.MkdirAll] creates the directories above as well; over a link that leads
    nowhere it fails and counts as created all the same. *)
Definition createDirectory (issues : list pathPolicyIssue) (current : option Snapshot)
    (st : Disk * bool) (dir : string) : Disk * bool :=
  let '(d, created) := st in
  if pathIssueBlocksPath dir issues then (d, created)
  else if match current with Some s => bool_decide (dirs s !! dir = None) | None => false end then (d, created)
  else if negb (is_ok (canonicalLogicalPath dir)) then (d, created)
  else if bool_decide (dir ∈ subdirs d) || bool_decide (is_Some (contentAt d dir)) then (d, created)
  else if bool_decide (is_Some (nodes d !! dir)) then (d, true)
  else (mkDisk (nodes d) (markParents dir ({[dir]} ∪ subdirs d)), true).

Definition createDirectories (issues : list pathPolicyIssue) (snap : Snapshot) (current : option Snapshot) (d : Disk)
  : Disk * bool :=
  foldl (createDirectory issues current) (d, false) (keys_of (dirs snap)).

(** An ignored directory hides what is below it. *)
Definition walked (d : Disk) (dir : string) : bool :=
  negb (ignore dir) &&
  forallb (fun e => negb (ignore e && HasPrefix dir (e +:+ "/"))) (elements (subdirs d)).

Definition staleDirs (snap : Snapshot) (d : Disk) : list string :=
  filter (fun dir => walked d dir = true /\ dir ∉ liveDirs (files snap) (dirs snap)) (elements (subdirs d)).

(** [os.RemoveAll]: the directory and everything below it. *)
Definition removeAll (dir : string) (d : Disk) : Disk :=
  mkDisk (filter (fun kv => HasPrefix kv.1 (dir +:+ "/") = false) (nodes d))
    (filter (fun e => e <> dir /\ HasPrefix e (dir +:+ "/") = false) (subdirs d)).

Definition removeDirectory (issues : list pathPolicyIssue) (st : Disk * bool) (dir : string) : Disk * bool :=
  let '(d, removed) := st in
  if pathIssueBlocksPath dir issues then (d, removed)
  else if negb (is_ok (canonicalLogicalPath dir)) then (d, removed)
  else if removeOk dir then (removeAll dir d, true) else (d, removed).

(** The deepest go first; the order does not matter to the result. *)
Definition reconcileDirectories (issues : list pathPolicyIssue) (snap : Snapshot) (d : Disk) : Disk * bool :=
  foldl (removeDirectory issues) (d, false) (staleDirs snap d).

(** ** The pass *)

Definition reconcile (issues : list pathPolicyIssue) (outbox : result LogErr (list OutboxEntry))
    (snap : Snapshot) (current : option Snapshot) (d0 : Disk) : Disk * Counts :=
  let p := pendingOf outbox in
  let st := foldl (bringIn issues p snap d0) (d0, mkCounts 0 0 0 0 0 false) (sorted_items (files snap)) in
  let '(d, c) := foldl (takeOut issues p snap) st (keys_of (ScanDirectory d0)) in
  let '(d, created) := createDirectories issues snap current d in
  let '(d, removed) := reconcileDirectories issues snap d in
  (d, mkCounts (cDownloaded c) (cDeleted c) (cFailed c) (cSkipped c) (cPending c) (cActive c || created || removed)).

(** A failed download asks for another pass two seconds later. *)
Definition schedulesRetry (c : Counts) : bool := Z.ltb 0 (cFailed c).

End Pass.

(** ** The live directories are the directories above something live *)

Lemma under_length d p : under d p -> (String.length d < String.length p)%nat.
Proof. intros [r ->]. rewrite !str_length_app. simpl. lia. Qed.

Lemma under_trans a b c : under a b -> under b c -> under a c.
Proof. intros [r ->] [s ->]. exists (r +:+ "/" +:+ s). by rewrite !str_app_assoc. Qed.

(** With every set goes the set of the directories above. *)
Definition closed_above (live : gset string) : Prop := forall e d, e ∈ live -> under d e -> d ∈ live.

Lemma markAbove_spec fuel dir live :
  (String.length dir < fuel)%nat ->
  (forall e d, e ∈ live -> (String.length e < String.length dir)%nat -> under d e -> d ∈ live) ->
  forall x, x ∈ markAbove fuel dir live <-> x ∈ live \/ under x dir.
Proof.
  revert dir live. induction fuel as [|fuel IH]; intros dir live Hf Hlive x; [lia|]. cbn [markAbove].
  destruct (LastIndexByte dir "/") as [i|] eqn:El.
  - apply LastIndexByte_Some in El as (a & b & -> & Hi & Hb). rewrite <- Hi, str_take_app.
    change (String "/" b) with ("/" +:+ b) in *. rewrite (under_last a b x Hb).
    assert (String.length a < String.length (a +:+ "/" +:+ b))%nat as Hlen by (rewrite !str_length_app; simpl; lia).
    destruct (bool_decide_reflect (a ∈ live)) as [Ha|Ha].
    + split; [by left|]. intros [?|[->|Hx]]; [done|done|]. by eapply Hlive.
    + rewrite IH; [rewrite elem_of_union, elem_of_singleton; tauto|lia|].
      intros e d [->%elem_of_singleton|He]%elem_of_union Hle Hd; [lia|].
      apply elem_of_union_r. eapply Hlive; [done|lia|done].
  - split; [by left|]. intros [?|[r ->]]; [done|]. apply LastIndexByte_None in El.
    rewrite !str_forall_app in El. apply andb_prop in El as [_ El]. done.
Qed.

Lemma markParents_spec dir live extra :
  closed_above live -> (extra = ∅ \/ extra = {[dir]}) ->
  closed_above (markParents dir (extra ∪ live)) /\
  forall x, x ∈ markParents dir (extra ∪ live) <-> x ∈ extra \/ x ∈ live \/ under x dir.
Proof.
  intros Hc Hex. assert (forall x, x ∈ markParents dir (extra ∪ live) <-> x ∈ extra \/ x ∈ live \/ under x dir) as H.
  { intros x. unfold markParents. rewrite markAbove_spec; [rewrite elem_of_union; tauto|lia|].
    intros e d [He|He]%elem_of_union Hle Hd; [|apply elem_of_union_r; by eapply Hc].
    destruct Hex as [->| ->]; [set_solver|]. apply elem_of_singleton in He as ->. lia. }
  split; [|done]. intros e d. rewrite !H. intros [He|[He|He]] Hd.
  - destruct Hex as [->| ->]; [set_solver|]. apply elem_of_singleton in He as ->. tauto.
  - right. left. by eapply Hc.
  - right. right. by eapply under_trans.
Qed.

Lemma mark_all (add : string -> gset string) (l : list string) (live : gset string) :
  (forall p, add p = ∅ \/ add p = {[p]}) -> closed_above live ->
  closed_above (foldl (fun live p => markParents p (add p ∪ live)) live l) /\
  forall x, x ∈ foldl (fun live p => markParents p (add p ∪ live)) live l
    <-> x ∈ live \/ exists p, p ∈ l /\ (x ∈ add p \/ under x p).
Proof.
  intros Hadd. revert live. induction l as [|p l IH]; intros live Hc.
  - split; [done|]. intros x. simpl. set_solver.
  - cbn [foldl]. destruct (markParents_spec p live (add p) Hc (Hadd p)) as [Hc' Hx].
    destruct (IH _ Hc') as [Hc'' Hx'']. split; [done|]. intros x. rewrite Hx'', Hx. clear. set_solver.
Qed.

Lemma foldl_ext_same {A S} (f g : S -> A -> S) l st : (forall st x, f st x = g st x) -> foldl f st l = foldl g st l.
Proof. intros H. revert st. induction l as [|x l IH]; intros st; [done|]. cbn [foldl]. by rewrite H, IH. Qed.

(** The marking of live directories, which stops at the first one
    it has seen, marks exactly the directories above a file of the snapshot, its
    explicit directories and the directories above those. *)
Lemma live_dirs_spec (fs : gmap string FileInfo) (ds : gmap string DirInfo) (d : string) :
  d ∈ liveDirs fs ds <->
  (exists p, is_Some (fs !! p) /\ under d p) \/ (exists p, is_Some (ds !! p) /\ (d = p \/ under d p)).
Proof.
  unfold liveDirs.
  rewrite (foldl_ext_same (fun live p => markParents p live) (fun live p => markParents p (∅ ∪ live)))
    by (intros; by rewrite (left_id_L ∅ (∪))).
  destruct (mark_all (fun _ => ∅) (keys_of fs) ∅) as [Hc Hx]; [by left|intros ? ? []%not_elem_of_empty|].
  destruct (mark_all (fun p => {[p]}) (keys_of ds) _ ltac:(by right) Hc) as [_ Hx2].
  rewrite Hx2, Hx. clear. setoid_rewrite elem_of_keys_of. setoid_rewrite elem_of_singleton. set_solver.
Qed.


(** ** What a pass does to the files *)

Lemma markAbove_grows fuel dir live : live ⊆ markAbove fuel dir live.
Proof.
  revert dir live. induction fuel as [|fuel IH]; intros dir live; [done|]. cbn [markAbove].
  destruct (LastIndexByte dir "/"); [|done]. case_bool_decide; [done|].
  etransitivity; [|apply IH]. apply union_subseteq_r.
Qed.

(** Only the node at [path] may differ, and directories are only added. *)
Definition touches (path : string) (d d' : Disk) : Prop :=
  (forall q, q <> path -> nodes d' !! q = nodes d !! q) /\ subdirs d ⊆ subdirs d'.

Lemma touches_refl path d : touches path d d.
Proof. done. Qed.

Lemma touches_parents path d nd :
  (forall q, q <> path -> nd !! q = nodes d !! q) -> touches path d (mkDisk nd (subdirs (makeParents path d))).
Proof. intros H. split; [done|]. apply markAbove_grows. Qed.

#[local] Hint Resolve touches_refl : core.

Section Settle.
Context (hash : string -> string) (ignore : string -> bool).
Context (fetch : list string -> option string) (follow : string -> option string).
Context (symlinkOk publishOk removeOk : string -> bool).
Context (issues : list pathPolicyIssue) (p : PendingOps) (snap : Snapshot) (d0 : Disk).

#[local] Abbreviation bring := (bringIn hash ignore fetch follow symlinkOk publishOk issues p snap d0).
#[local] Abbreviation take := (takeOut removeOk issues p snap).
#[local] Abbreviation scan := (ScanDirectory hash ignore).

(** The pass is to see to the file: it is not skipped and not awaiting its upload. *)
Definition wanted (path : string) (fi : FileInfo) : Prop :=
  match decideFile issues p ∅ path fi with WantLink | WantFile => True | _ => False end.

(** The node at the path is the one the snapshot describes. *)
Definition synced (d : Disk) (path : string) (fi : FileInfo) : Prop :=
  exists n, nodes d !! path = Some n /\ checksumMatch (nodeChecksum hash n) fi = true.

(** The entries of the snapshot describe what the store holds; where the
    snapshot has an empty file the disk has no link. *)
Record faithful : Prop := {
  f_link : forall path fi, files snap !! path = Some fi -> fiLinkTarget fi <> "" ->
    checksumMatch (hash (fiLinkTarget fi)) fi = true;
  f_empty : forall path fi, files snap !! path = Some fi -> fiLinkTarget fi = "" -> default [] (fiChunks fi) = [] -> fiSize fi = 0 ->
    checksumMatch (hash "") fi = true /\ forall t, nodes d0 !! path <> Some (Link t);
  f_fetch : forall path fi content, files snap !! path = Some fi ->
    fetch (default [] (fiChunks fi)) = Some content -> checksumMatch (hash content) fi = true;
  f_alive : forall path, is_Some (files snap !! path) -> deleted snap !! path = None
}.

Lemma createSymlink_spec path target localTarget d d' ok :
  createSymlink symlinkOk path target localTarget d = (d', ok) ->
  touches path d d' /\ (ok = true -> nodes d' !! path = Some (Link target)).
Proof.
  unfold createSymlink. case_bool_decide; [by intros [= <- <-]|].
  destruct (is_ok _); [|by intros [= <- <-]]. destruct (symlinkOk path); intros [= <- <-]; simpl.
  - split; [|intros _; apply lookup_insert_eq].
    apply touches_parents. intros q Hq. simpl. by rewrite lookup_insert_ne.
  - split; [|done]. apply touches_parents. intros q Hq. simpl. by rewrite lookup_delete_ne.
Qed.

Lemma downloadFile_spec path fi d d' ok :
  downloadFile hash fetch follow publishOk path fi d = (d', ok) ->
  touches path d d' /\
  (ok = true ->
   (default [] (fiChunks fi) = [] /\ fiSize fi = 0 /\
    (nodes d' !! path = Some (File "") \/ exists t, nodes d !! path = Some (Link t))) \/
   exists content, fetch (default [] (fiChunks fi)) = Some content /\ nodes d' !! path = Some (File content)).
Proof.
  unfold downloadFile. destruct (is_ok _); [|by intros [= <- <-]]. simpl.
  destruct (_ && _); [by intros [= <- <-]|].
  destruct (match contentAt _ d path with Some c => _ | None => _ end); [by intros [= <- <-]|].
  case_bool_decide as Hc; simpl.
  - destruct (Z.eqb_spec (fiSize fi) 0) as [Hs|Hs]; [|by intros [= <- <-]].
    destruct (publishOk path); [|intros [= <- <-]; split; [by apply touches_parents|done]].
    destruct (nodes d !! path) as [[c|t]|] eqn:En; intros [= <- <-].
    + split; [apply touches_parents; intros q Hq; simpl; by rewrite lookup_insert_ne|].
      intros _. left. split_and!; [done..|left]. apply lookup_insert_eq.
    + split; [by apply touches_parents|]. eauto 6.
    + split; [apply touches_parents; intros q Hq; simpl; by rewrite lookup_insert_ne|].
      intros _. left. split_and!; [done..|left]. apply lookup_insert_eq.
  - destruct (fetch _) as [content|] eqn:Ef; [|by intros [= <- <-]].
    destruct (publishOk path); intros [= <- <-]; [|split; [by apply touches_parents|done]].
    split; [apply touches_parents; intros q Hq; simpl; by rewrite lookup_insert_ne|].
    intros _. right. exists content. split; [done|]. apply lookup_insert_eq.
Qed.

Lemma decideFile_scanned local path fi :
  decideFile issues p local path fi =
  match decideFile issues p ∅ path fi with
  | (WantLink | WantFile) as dec =>
      match local !! path with Some sum => if checksumMatch sum fi then InSync else dec | None => dec end
  | dec => dec
  end.
Proof.
  unfold decideFile. rewrite lookup_empty. repeat case_match; congruence.
Qed.

Lemma scan_lookup d path sum :
  scan d !! path = Some sum ->
  scanned ignore d path = true /\ exists n, nodes d !! path = Some n /\ sum = nodeChecksum hash n.
Proof.
  unfold ScanDirectory. rewrite lookup_fmap_Some. intros (n & <- & Hn).
  apply map_lookup_filter_Some in Hn as [Hn Hs]. eauto.
Qed.

Lemma wanted_link path fi : decideFile issues p ∅ path fi = WantLink -> fiLinkTarget fi <> "".
Proof. unfold decideFile. rewrite lookup_empty. repeat case_match; try done. intros _. by eapply bool_decide_eq_true_1. Qed.

Lemma wanted_file path fi : decideFile issues p ∅ path fi = WantFile -> fiLinkTarget fi = "".
Proof.
  unfold decideFile. rewrite lookup_empty. repeat case_match; try done. intros _.
  destruct (decide (fiLinkTarget fi = "")); [done|]. by rewrite bool_decide_true in *.
Qed.

(** One turn of the loop over the snapshot. *)
Lemma bringIn_touches d c path fi d' c' :
  bring (d, c) (path, fi) = (d', c') -> touches path d d' /\ cFailed c <= cFailed c'.
Proof.
  unfold bringIn. destruct (decideFile _ _ _ _ _).
  1-3: by intros [= <- <-]; simpl; (split; [done|lia]).
  - destruct (createSymlink _ _ _ _ _) as [d1 ok] eqn:Ec. apply createSymlink_spec in Ec as [Ht _].
    destruct ok; intros [= <- <-]; simpl; (split; [done|lia]).
  - destruct (downloadFile _ _ _ _ _ _ _) as [d1 ok] eqn:Ec. apply downloadFile_spec in Ec as [Ht _].
    destruct ok; intros [= <- <-]; simpl; (split; [done|lia]).
Qed.

Lemma bringIn_loop l d c d' c' :
  foldl bring (d, c) l = (d', c') ->
  (forall q, q ∉ l.*1 -> nodes d' !! q = nodes d !! q) /\ subdirs d ⊆ subdirs d' /\ cFailed c <= cFailed c'.
Proof.
  revert d c. induction l as [|[path fi] l IH]; intros d c; [by intros [= <- <-]|]. cbn [foldl].
  destruct (bring (d, c) (path, fi)) as [d1 c1] eqn:Eb. apply bringIn_touches in Eb as [[Ht Hs] Hc].
  intros (Hq & Hs' & Hc')%IH. split_and!; [|by etransitivity|lia].
  intros q [Hne Hnq]%not_elem_of_cons. by rewrite Hq, Ht.
Qed.

(** The turn of one file, in the middle of the loop. *)
Lemma bringIn_turn d' c' path fi :
  files snap !! path = Some fi ->
  foldl bring (d0, mkCounts 0 0 0 0 0 false) (sorted_items (files snap)) = (d', c') ->
  exists d c d1 c1, nodes d !! path = nodes d0 !! path /\ 0 <= cFailed c /\
    bring (d, c) (path, fi) = (d1, c1) /\ nodes d' !! path = nodes d1 !! path /\ cFailed c1 <= cFailed c'.
Proof.
  intros Hp E. pose proof (sorted_items_NoDup (files snap)) as Hnd.
  apply sorted_items_spec in Hp. apply list_elem_of_split in Hp as (l1 & l2 & El).
  rewrite El in *. rewrite fmap_app, fmap_cons in Hnd. simpl in Hnd.
  apply NoDup_app in Hnd as (_ & H1 & [H2 _]%NoDup_cons).
  rewrite foldl_app in E. destruct (foldl bring _ l1) as [d c] eqn:Eb1. cbn [foldl] in E.
  destruct (bring (d, c) (path, fi)) as [d1 c1] eqn:Eb.
  apply bringIn_loop in Eb1 as (Hq1 & _ & Hc1), E as (Hq2 & _ & Hc2). simpl in Hc1.
  exists d, c, d1, c1. split_and!; [|done..|by apply Hq2|done].
  apply Hq1. intros Hin. apply (H1 path); [done|left].
Qed.

Lemma bringIn_spec d c path fi d' c' :
  faithful -> files snap !! path = Some fi -> nodes d !! path = nodes d0 !! path ->
  bring (d, c) (path, fi) = (d', c') -> cFailed c' = cFailed c -> wanted path fi -> synced d' path fi.
Proof.
  intros Hf Hp Hsame. unfold bringIn, wanted. rewrite decideFile_scanned.
  destruct (decideFile issues p ∅ path fi) eqn:Ed; [done..| |].
  all: destruct (scan d0 !! path) as [sum|] eqn:Es;
    [destruct (checksumMatch sum fi) eqn:Em|].
  1,4: apply scan_lookup in Es as (_ & n & Hn & ->); intros [= <- <-] _ _; exists n; by rewrite Hsame.
  1,2: destruct (createSymlink _ _ _ _ _) as [d1 ok] eqn:Ec; apply createSymlink_spec in Ec as [_ Hok];
    destruct ok; intros [= <- <-]; simpl; intros ? _; [|lia]; eexists; (split; [by apply Hok|]);
    apply (f_link Hf path); [done|by eapply wanted_link].
  all: destruct (downloadFile _ _ _ _ _ _ _) as [d1 ok] eqn:Ec; apply downloadFile_spec in Ec as [_ Hok];
    destruct ok; intros [= <- <-]; simpl; intros ? _; [|lia];
    destruct (Hok eq_refl) as [(Hc & Hs & [Hn|[t Hn]])|(content & Hfe & Hn)];
    [ eexists; split; [done|]; apply (f_empty Hf path fi); eauto using wanted_file
    | exfalso; apply (f_empty Hf path fi Hp (wanted_file _ _ Ed) Hc Hs) with t; congruence
    | eexists; split; [done|]; by apply (f_fetch Hf path) ].
Qed.

Lemma takeOut_all l d c d' c' :
  foldl take (d, c) l = (d', c') ->
  (forall q, nodes d' !! q = nodes d !! q \/ nodes d' !! q = None) /\
  (forall q, is_Some (files snap !! q) -> deleted snap !! q = None -> nodes d' !! q = nodes d !! q) /\
  subdirs d' = subdirs d /\ cFailed c' = cFailed c /\ cDownloaded c' = cDownloaded c.
Proof.
  revert d c. induction l as [|path l IH]; intros d c; [intros [= <- <-]; by eauto 10|]. cbn [foldl].
  destruct (take (d, c) path) as [d1 c1] eqn:E. intros (IH1 & IH2 & IH3 & IH4 & IH5)%IH.
  assert ((forall q, nodes d1 !! q = nodes d !! q \/ nodes d1 !! q = None) /\
    (forall q, is_Some (files snap !! q) -> deleted snap !! q = None -> nodes d1 !! q = nodes d !! q) /\
    subdirs d1 = subdirs d /\ cFailed c1 = cFailed c /\ cDownloaded c1 = cDownloaded c) as (H1 & H2 & H3 & H4 & H5).
  { revert E. unfold takeOut. destruct (pathIssueBlocksPath _ _); [intros [= <- <-]; by eauto 10|].
    case_bool_decide; [intros [= <- <-]; by eauto 10|].
    destruct (_ || _) eqn:Hd; intros [= <- <-]; [|by eauto 10].
    unfold deleteFile. destruct (is_ok _ && _); simpl; [|by eauto 10]. split_and!; [| |done..].
    - intros q. destruct (decide (q = path)) as [->|Hq]; [right; apply lookup_delete_eq|left; by apply lookup_delete_ne].
    - intros q Hq Hn. apply lookup_delete_ne. intros <-.
      apply orb_prop in Hd as [Hd%bool_decide_eq_true|Hd%andb_prop]; [rewrite Hn in Hd; by destruct Hd|].
      destruct Hd as [_ Hd]. by rewrite bool_decide_true in Hd. }
  split_and!; [|intros q Hq Hn; by rewrite IH2, H2|congruence..].
  intros q. destruct (IH1 q) as [->|?]; [apply H1|by right].
Qed.

Lemma createDirectories_spec current d d' b :
  createDirectories follow issues snap current d = (d', b) -> nodes d' = nodes d /\ subdirs d ⊆ subdirs d'.
Proof.
  unfold createDirectories. generalize (keys_of (dirs snap)), false. intros l.
  revert d. induction l as [|dir l IH]; intros d b0; [by intros [= <- <-]|].
  cbn [foldl]. unfold createDirectory at 2. destruct (pathIssueBlocksPath _ _); [apply IH|].
  destruct (match current with Some s => _ | None => _ end); [apply IH|].
  destruct (negb _); [apply IH|]. destruct (_ || _); [apply IH|]. destruct (bool_decide _); [apply IH|].
  intros [-> Hs]%IH. split; [done|].
  etransitivity; [|exact Hs].
  etransitivity; [apply union_subseteq_r|apply markAbove_grows].
Qed.

Lemma reconcileDirectories_spec d d' b :
  reconcileDirectories ignore removeOk issues snap d = (d', b) ->
  (forall q, nodes d' !! q = nodes d !! q \/ nodes d' !! q = None) /\
  (forall q, is_Some (files snap !! q) -> nodes d' !! q = nodes d !! q) /\
  (forall q dir, dir ∈ staleDirs ignore snap d -> under dir q -> pathIssueBlocksPath dir issues <> true ->
     is_ok (canonicalLogicalPath dir) = true -> removeOk dir = true -> nodes d' !! q = None).
Proof.
  unfold reconcileDirectories.
  assert (forall dir, dir ∈ staleDirs ignore snap d -> dir ∉ liveDirs (files snap) (dirs snap)) as Hst.
  { intros dir. unfold staleDirs. rewrite list_elem_of_filter. naive_solver. }
  revert Hst. generalize (staleDirs ignore snap d), false. intros l b0.
  revert b0 d. induction l as [|dir l IH]; intros b0 d Hst.
  { intros [= <- <-]. split_and!; eauto. by intros ? ? ?%not_elem_of_nil. }
  cbn [foldl]. specialize (fun b0 d => IH b0 d (fun dir H => Hst dir (list_elem_of_further _ _ _ H))).
  unfold removeDirectory at 2. intros E.
  destruct (pathIssueBlocksPath dir issues) eqn:Hb; [|destruct (is_ok (canonicalLogicalPath dir)) eqn:Hc;
    [destruct (removeOk dir) eqn:Hr|]]; simpl in E; apply IH in E as (H1 & H2 & H3); (split_and!; [try done..|]).
  all: try (intros q dir' [->|Hin]%elem_of_cons Hu Hb' Hc' Hr'; [congruence|by eapply H3]).
  - intros q. destruct (H1 q) as [->|?]; [|by right]. simpl.
    destruct (nodes d !! q) as [n|] eqn:En; [|rewrite map_lookup_filter_None; eauto].
    destruct (HasPrefix q (dir +:+ "/")) eqn:Ep; [right; apply map_lookup_filter_None; right; simpl; congruence|].
    left. apply map_lookup_filter_Some. split; [done|]. simpl. congruence.
  - intros q Hq. rewrite H2 by done. simpl. destruct (nodes d !! q) as [n|] eqn:En.
    + apply map_lookup_filter_Some. split; [done|]. simpl. apply not_true_is_false.
      intros Hu%under_prefix. apply (Hst dir ltac:(left)). rewrite live_dirs_spec. left. eauto.
    + apply map_lookup_filter_None. by left.
  - intros q dir' [->|Hin]%elem_of_cons Hu Hb' Hc' Hr'; [|by eapply H3].
    destruct (H1 q) as [->|?]; [|done]. simpl. apply map_lookup_filter_None. right. simpl.
    apply under_prefix in Hu. congruence.
Qed.

(** After the loop over the snapshot, the pass touches no file of the snapshot
    and counts no further download or failure. *)
Lemma pass_keeps (st : Disk * Counts) keys current d1 c1 d2 b2 d' b' :
  (forall path, is_Some (files snap !! path) -> deleted snap !! path = None) ->
  foldl take st keys = (d1, c1) ->
  createDirectories follow issues snap current d1 = (d2, b2) ->
  reconcileDirectories ignore removeOk issues snap d2 = (d', b') ->
  (forall q, is_Some (files snap !! q) -> nodes d' !! q = nodes st.1 !! q) /\
  cFailed c1 = cFailed st.2 /\ cDownloaded c1 = cDownloaded st.2.
Proof.
  intros Hal. destruct st as [d c]. intros (_ & Ht & _ & Hf & Hd)%takeOut_all (Hc & _)%createDirectories_spec
    (_ & Hr & _)%reconcileDirectories_spec.
  split_and!; [|done..]. intros q Hq. rewrite Hr, Hc by done. apply Ht; eauto.
Qed.

(** A loop over a snapshot whose files are all in place does nothing. *)
Lemma bringIn_idle l c :
  (forall path fi, (path, fi) ∈ l -> wanted path fi -> scanned ignore d0 path = true /\ synced d0 path fi) ->
  (foldl bring (d0, c) l).1 = d0 /\ cFailed (foldl bring (d0, c) l).2 = cFailed c /\
  cDownloaded (foldl bring (d0, c) l).2 = cDownloaded c.
Proof.
  revert c. induction l as [|[path fi] l IH]; intros c Hl; [done|]. cbn [foldl].
  assert (exists c', bring (d0, c) (path, fi) = (d0, c') /\ cFailed c' = cFailed c /\ cDownloaded c' = cDownloaded c)
    as (c' & -> & <- & <-); [|apply IH; intros ? ? ?; apply Hl; by right].
  specialize (Hl path fi ltac:(left)). unfold wanted in Hl. unfold bringIn. rewrite decideFile_scanned.
  destruct (decideFile issues p ∅ path fi); [by eauto..| |].
  all: destruct (Hl I) as (Hs & n & Hn & Hm);
    assert (scan d0 !! path = Some (nodeChecksum hash n)) as ->; [|rewrite Hm; by eauto];
    unfold ScanDirectory; rewrite lookup_fmap; by rewrite (proj2 (map_lookup_filter_Some _ _ _ _) (conj Hn Hs)).
Qed.
End Settle.


(** C5 (functional). A pass that counts no failure, whatever the disk held before and
    whatever the file system did, leaves every file of the snapshot that no
    outbox entry, path issue or pending upload holds back on disk with the content
    of the snapshot; and when all of them are scanned, the next pass finds nothing
    to download, fails nothing and keeps them. *)
Theorem fs_reconcile_settles hash ignore fetch follow sl pb rm sl' pb' rm' issues outbox snap current current' d0 d c d' c' :
  faithful hash fetch snap d0 ->
  reconcile hash ignore fetch follow sl pb rm issues outbox snap current d0 = (d, c) ->
  cFailed c = 0 ->
  (forall path fi, files snap !! path = Some fi -> wanted issues (pendingOf outbox) path fi ->
     scanned ignore d path = true) ->
  reconcile hash ignore fetch follow sl' pb' rm' issues outbox snap current' d = (d', c') ->
  (forall path fi, files snap !! path = Some fi -> wanted issues (pendingOf outbox) path fi ->
     synced hash d path fi /\ synced hash d' path fi) /\
  cDownloaded c' = 0 /\ cFailed c' = 0 /\ schedulesRetry c' = false.
Proof.
  intros Hf. unfold reconcile at 1. intros E H0 Hscan.
  destruct (foldl (bringIn _ _ _ _ _ _ _ _ _ _) _ _) as [d1 c1] eqn:Eb.
  destruct (foldl (takeOut _ _ _ _) _ _) as [d2 c2] eqn:Et.
  destruct (createDirectories _ _ _ _ _) as [d3 b3] eqn:Ec.
  destruct (reconcileDirectories _ _ _ _ _) as [d4 b4] eqn:Er. injection E as <- <-. simpl in H0.
  eapply pass_keeps in Er as (Hkeep & Hfail & _); [|apply (f_alive _ _ _ _ Hf)|exact Et|exact Ec].
  simpl in *.
  assert (forall path fi, files snap !! path = Some fi -> wanted issues (pendingOf outbox) path fi ->
     synced hash d4 path fi) as Hs.
  { intros path fi Hp Hw.
    eapply bringIn_turn in Eb as (d & c & d1' & c1' & Hn0 & Hc & Ebt & Hn1 & Hc1); [|exact Hp].
    assert (cFailed c1' = cFailed c) as Hz by (apply bringIn_touches in Ebt as [_ ?]; lia).
    eapply bringIn_spec in Ebt as (n & Hn & Hm); [|done..].
    exists n. rewrite Hkeep, Hn1; eauto. }
  clear Eb Et Ec Hkeep. unfold reconcile.
  destruct (bringIn_idle hash ignore fetch follow sl' pb' issues (pendingOf outbox) snap d4 (sorted_items (files snap))
    (mkCounts 0 0 0 0 0 false)) as (H1 & H2 & H3); [intros path fi ?%sorted_items_spec ?; by split; eauto|].
  destruct (foldl (bringIn _ _ _ _ _ _ _ _ _ _) _ _) as [d5 c5] eqn:Eb. simpl in H1, H2, H3. subst d5.
  destruct (foldl (takeOut _ _ _ _) _ _) as [d6 c6] eqn:Et.
  destruct (createDirectories _ _ _ _ _) as [d7 b7] eqn:Ec.
  destruct (reconcileDirectories _ _ _ _ _) as [d8 b8] eqn:Er. intros [= <- <-].
  eapply pass_keeps in Er as (Hkeep & Hfail' & Hdl); [|apply (f_alive _ _ _ _ Hf)|exact Et|exact Ec].
  unfold schedulesRetry. simpl in *. rewrite Hfail', Hdl, H2, H3. split_and!; [|done..].
  intros path fi Hp Hw. destruct (Hs path fi Hp Hw) as (n & Hn & Hm).
  split; exists n; [done|]. rewrite Hkeep; eauto.
Qed.

(** A conflict copy of the snapshot (or an ignored file) that is on disk as the
    snapshot has it is never scanned, so every pass asks for it again, finds it
    in place, counts the download as failed and schedules another pass. *)
Theorem fs_conflict_copy_retries hash ignore fetch follow sl pb rm issues outbox snap current d0 path fi content d c :
  scanned ignore d0 path = false ->
  files snap !! path = Some fi -> deleted snap !! path = None -> fiLinkTarget fi = "" ->
  wanted issues (pendingOf outbox) path fi ->
  nodes d0 !! path = Some (File content) -> checksumMatch (hash content) fi = true ->
  reconcile hash ignore fetch follow sl pb rm issues outbox snap current d0 = (d, c) ->
  nodes d !! path = Some (File content) /\ schedulesRetry c = true.
Proof.
  intros Hsc Hp Hal Hl Hw Hn Hm. unfold reconcile.
  destruct (foldl (bringIn _ _ _ _ _ _ _ _ _ _) _ _) as [d1 c1] eqn:Eb.
  destruct (foldl (takeOut _ _ _ _) _ _) as [d2 c2] eqn:Et.
  destruct (createDirectories _ _ _ _ _) as [d3 b3] eqn:Ec.
  destruct (reconcileDirectories _ _ _ _ _) as [d4 b4] eqn:Er. intros [= <- <-].
  eapply bringIn_turn in Eb as (d & c & d1' & c1' & Hn0 & Hc & Ebt & Hn1 & Hc1); [|exact Hp].
  apply takeOut_all in Et as (_ & Ht & _ & Hf & _). apply createDirectories_spec in Ec as (Hcd & _).
  apply reconcileDirectories_spec in Er as (_ & Hr & _). rewrite Hr, Hcd, Ht, Hn1 by eauto.
  unfold bringIn in Ebt. rewrite decideFile_scanned in Ebt. unfold wanted in Hw.
  assert (ScanDirectory hash ignore d0 !! path = None) as Hnone.
  { unfold ScanDirectory. rewrite lookup_fmap, fmap_None. apply map_lookup_filter_None. right. simpl. congruence. }
  rewrite Hnone in Ebt. destruct (decideFile issues _ ∅ path fi) eqn:Ed; try done.
  { by apply wanted_link in Ed. }
  unfold downloadFile, contentAt in Ebt. rewrite Hn0, Hn, Hm in Ebt.
  assert (d1' = d /\ cFailed c1' = cFailed c + 1) as [-> Hfail].
  { destruct (is_ok _); simpl in Ebt; [|by injection Ebt as <- <-].
    destruct (_ && _) in Ebt; by injection Ebt as <- <-. }
  split; [congruence|]. unfold schedulesRetry. simpl. lia.
Qed.

(** A directory that holds nothing of the snapshot goes with everything in
    it, whatever the outbox says of the files in it: one that is queued for
    upload and not yet in the log is deleted. *)
Theorem fs_reconcile_removes_queued hash ignore fetch follow sl pb rm issues outbox snap current d0 dir path d c :
  under dir path -> dir ∈ subdirs d0 ->
  (forall p, is_Some (files snap !! p) -> ~ under dir p) ->
  (forall p, is_Some (dirs snap !! p) -> dir <> p /\ ~ under dir p) ->
  (forall e, e = dir \/ under e dir -> ignore e = false) ->
  pathIssueBlocksPath dir issues = false -> is_ok (canonicalLogicalPath dir) = true -> rm dir = true ->
  reconcile hash ignore fetch follow sl pb rm issues outbox snap current d0 = (d, c) ->
  nodes d !! path = None.
Proof.
  intros Hu Hin Hfs Hds Hig Hb Hc Hr. unfold reconcile.
  destruct (foldl (bringIn _ _ _ _ _ _ _ _ _ _) _ _) as [d1 c1] eqn:Eb.
  destruct (foldl (takeOut _ _ _ _) _ _) as [d2 c2] eqn:Et.
  destruct (createDirectories _ _ _ _ _) as [d3 b3] eqn:Ec.
  destruct (reconcileDirectories _ _ _ _ _) as [d4 b4] eqn:Er. intros [= <- <-].
  apply bringIn_loop in Eb as (_ & Hs1 & _). apply takeOut_all in Et as (_ & _ & Hs2 & _).
  apply createDirectories_spec in Ec as (_ & Hs3). apply reconcileDirectories_spec in Er as (_ & _ & Hrm).
  apply (Hrm path dir); [|done|congruence|done..]. unfold staleDirs. apply list_elem_of_filter. split_and!.
  - unfold walked. rewrite Hig by auto. simpl. apply forallb_forall. intros e _.
    destruct (HasPrefix dir (e +:+ "/")) eqn:Ep; [|by rewrite andb_false_r].
    rewrite Hig; [done|right]. by apply under_prefix.
  - rewrite live_dirs_spec. intros [(p & Hp & Hup)|(p & Hp & Hup)].
    + by eapply Hfs.
    + destruct (Hds p Hp) as [??]. naive_solver.
  - apply elem_of_elements. apply Hs3. rewrite Hs2. by apply Hs1.
Qed.

(** ** Concrete passes *)

Module Demo.

Definition demoHash (s : string) : string := "h:" +:+ s.
Definition demoFetch (chunks : list string) : option string :=
  match chunks with [c] => if bool_decide (c = "c1") then Some "hello" else None | _ => None end.
Definition noLink (t : string) : option string := None.
Definition fine (path : string) : bool := true.
Definition noIgnore (path : string) : bool := false.

Definition hello : FileInfo := mkFileInfo (Some ["c1"]) 5 zeroTime "h:hello" "" "default" "dev-b" 1 "".
Definition link : FileInfo := mkFileInfo None 0 zeroTime "h:a.txt" "" "default" "dev-b" 2 "a.txt".
Definition demoFiles : gmap string FileInfo := {[ "docs/a.txt" := hello; "docs/b" := link ]}.
Definition demoDeleted : gmap string TombstoneInfo := ∅.
Definition demoSnap : Snapshot := mkSnapshot demoFiles ∅ demoDeleted ∅ None zeroTime zeroTime.
Definition emptyDisk : Disk := mkDisk ∅ ∅.

Definition firstPass : Disk * Counts :=
  reconcile demoHash noIgnore demoFetch noLink fine fine fine [] (Ok []) demoSnap None emptyDisk.
Definition secondPass : Disk * Counts :=
  reconcile demoHash noIgnore demoFetch noLink fine fine fine [] (Ok []) demoSnap None firstPass.1.

Lemma demo_lookup path fi :
  demoFiles !! path = Some fi -> (path = "docs/a.txt" /\ fi = hello) \/ (path = "docs/b" /\ fi = link).
Proof.
  unfold demoFiles. intros [[<- <-]|[_ [<- <-]%lookup_singleton_Some]]%lookup_insert_Some; auto.
Qed.

Lemma demo_faithful : faithful demoHash demoFetch demoSnap emptyDisk.
Proof.
  split; simpl.
  - intros path fi [[-> ->]|[-> ->]]%demo_lookup Hl; [|vm_compute; reflexivity]. by destruct Hl.
  - by intros path fi [[-> ->]|[-> ->]]%demo_lookup.
  - intros path fi content [[-> ->]|[-> ->]]%demo_lookup; [|done]. by intros [= <-].
  - done.
Qed.

Lemma fs_reconcile_settles_witness :
  (forall path fi, files demoSnap !! path = Some fi -> wanted [] (pendingOf (Ok [])) path fi ->
     synced demoHash firstPass.1 path fi /\ synced demoHash secondPass.1 path fi) /\
  cDownloaded secondPass.2 = 0 /\ cFailed secondPass.2 = 0 /\ schedulesRetry secondPass.2 = false.
Proof.
  exact (fs_reconcile_settles demoHash noIgnore demoFetch noLink fine fine fine fine fine fine [] (Ok []) demoSnap
    None None emptyDisk firstPass.1 firstPass.2 secondPass.1 secondPass.2 demo_faithful
    (surjective_pairing firstPass) ltac:(vm_compute; reflexivity)
    ltac:(intros path fi [[-> ->]|[-> ->]]%demo_lookup _; vm_compute; reflexivity)
    (surjective_pairing secondPass)).
Defined.

(** A conflict copy in place. *)
Definition copyPath : string := "docs/a.conflict-dev-b-1711700000.txt".
Definition copySnap : Snapshot :=
  mkSnapshot ({[ copyPath := hello ]} : gmap string FileInfo) ∅ demoDeleted ∅ None zeroTime zeroTime.
Definition copyDisk : Disk :=
  mkDisk ({[ copyPath := File "hello" ]} : gmap string Node) ({[ "docs" ]} : gset string).
Definition copyPass : Disk * Counts :=
  reconcile demoHash noIgnore demoFetch noLink fine fine fine [] (Ok []) copySnap None copyDisk.

Lemma fs_conflict_copy_retries_witness :
  nodes copyPass.1 !! copyPath = Some (File "hello") /\ schedulesRetry copyPass.2 = true.
Proof.
  exact (fs_conflict_copy_retries demoHash noIgnore demoFetch noLink fine fine fine [] (Ok []) copySnap None copyDisk
    copyPath hello "hello" copyPass.1 copyPass.2 ltac:(vm_compute; reflexivity) ltac:(vm_compute; reflexivity)
    ltac:(vm_compute; reflexivity) ltac:(vm_compute; reflexivity) ltac:(vm_compute; exact I)
    ltac:(vm_compute; reflexivity) ltac:(vm_compute; reflexivity) (surjective_pairing copyPass)).
Defined.

(** A file queued for upload in a directory the log does not know. *)
Definition queued : OutboxEntry := mkOutboxEntry OpPut "new/report.txt" "h:draft" "" "default" "/home/u/new/report.txt" 1.
Definition newDisk : Disk :=
  mkDisk ({[ "new/report.txt" := File "draft" ]} : gmap string Node) ({[ "new" ]} : gset string).
Definition noFiles : gmap string FileInfo := ∅.
Definition noDirs : gmap string DirInfo := ∅.
Definition newSnap : Snapshot := mkSnapshot noFiles noDirs demoDeleted ∅ None zeroTime zeroTime.
Definition newPass : Disk * Counts :=
  reconcile demoHash noIgnore demoFetch noLink fine fine fine [] (Ok [queued]) newSnap None newDisk.

Lemma fs_reconcile_removes_queued_witness :
  bool_decide ("new/report.txt" ∈ pendingWrites (pendingOf (Ok [queued]))) = true /\
  nodes newPass.1 !! "new/report.txt" = None.
Proof.
  split; [vm_compute; reflexivity|].
  exact (fs_reconcile_removes_queued demoHash noIgnore demoFetch noLink fine fine fine [] (Ok [queued]) newSnap None
    newDisk "new" "new/report.txt" newPass.1 newPass.2
    (ex_intro _ "report.txt" eq_refl) (proj2 (elem_of_singleton "new" "new") eq_refl)
    (fun p H => match is_Some_None (match H with ex_intro _ x e => ex_intro _ x (eq_trans (eq_sym (lookup_empty p)) e) end) with end)
    (fun p H => match is_Some_None (match H with ex_intro _ x e => ex_intro _ x (eq_trans (eq_sym (lookup_empty p)) e) end) with end)
    (fun e _ => eq_refl) eq_refl ltac:(vm_compute; reflexivity) eq_refl (surjective_pairing newPass)).
Defined.

End Demo.
