(* ===== verification/FsChunks.v ===== *)
(** * The chunk store of the file sync: blobs, packs and sources (pkg/fs: chunk.go, compress.go, schema.go, keys.go, object_cache.go, chunk_source_planner.go, pull_planner.go, pack.go, skyfs.go)

    A file is cut into chunks, each named by the hash of its content; a chunk is
    compressed, encrypted under a key derived from the namespace key and its
    name, and kept in a local cache, in the backend and in pack files.  A read
    tries the sources of every chunk in the order of their health and checks
    what it got against the name.  The cutting (FastCDC), zstd and the hashes
    are library code: the class [ChunkLib]. *)

From Stdlib Require Import Ascii.
From stdpp Require Import base numbers list gmap strings sorting.
From S2P Require Import Prelude GoStrings GoStrconv GoText GoPath Seal.

#[local] Open Scope Z_scope.

(** A failed call, or a run-time panic, which no caller handles. *)
Inductive Failure := Failed (e : string) | Panicked.

#[export] Instance Failure_eq_dec : EqDecision Failure.
Proof. solve_decision. Defined.

(** ** Hashes and names (chunk.go, s3paths.go) *)

Definition MinChunkSize : Z := 256 * 2 ^ 10.
Definition AvgChunkSize : Z := 2 ^ 20.
Definition MaxChunkSize : Z := 4 * 2 ^ 20.

(** The libraries: SHA3-256, zstd, and FastCDC, which cuts a byte string into
    consecutive pieces. *)
Class ChunkLib := {
  sha3_256 : string -> string;
  zstdEncode : string -> string;
  zstdDecode : string -> option string;
  cdcSplit : string -> list string;
  hmacSHA256 : string -> string -> string;
  sha3_length d : slen (sha3_256 d) = 32;
  zstd_decode_encode d : zstdDecode (zstdEncode d) = Some d;
  cdc_concat d : foldr (fun c acc => c +:+ acc) "" (cdcSplit d) = d;
  cdc_nonempty d : Forall (fun c => c <> "") (cdcSplit d);
  cdc_bounded d : Forall (fun c => slen c <= MaxChunkSize) (cdcSplit d)
}.

(** [s[:12]], with which errors abbreviate a hash. *)
Definition failHash (hash e : string) : Failure := if slen hash <? 12 then Panicked else Failed e.

(** The directories [h[:2]] and [h[2:4]] of a name. *)
Definition shards (hash : string) : option (string * string) :=
  if slen hash <? 4 then None else Some (str_take 2 hash, str_take 2 (str_drop 2 hash)).

(** [Chunk.BlobKey] and [namespacedBlobKey]; [None] is a slice out of range. *)
Definition BlobKey (hash : string) : option string :=
  '(a, b) ← shards hash; Some ("blobs/" +:+ a +:+ "/" +:+ b +:+ "/" +:+ hash +:+ ".enc").
Definition namespacedBlobKey (nsID hash : string) : option string :=
  '(a, b) ← shards hash; Some ("fs/" +:+ nsID +:+ "/blobs/" +:+ a +:+ "/" +:+ b +:+ "/" +:+ hash +:+ ".enc").

(** ** Compression (compress.go) *)

Definition compressNone : ascii := "000".
Definition compressZstd : ascii := "001".

(** The bytes of [data] at [i, i+1, ...] are [magic]. *)
Definition bytes_at (i : nat) (magic : list Z) (data : string) : bool :=
  bool_decide (take (length magic) (drop i (bytes_of data)) = magic).

Definition isIncompressible (data : string) : bool :=
  if slen data <? 4 then false
  else bytes_at 0 [0xFF; 0xD8; 0xFF] data
       || bytes_at 0 [0x89; 0x50; 0x4E; 0x47] data
       || bytes_at 0 [0x50; 0x4B; 0x03; 0x04] data
       || bytes_at 0 [0x47; 0x49; 0x46] data
       || bytes_at 0 [0x1F; 0x8B] data
       || (negb (slen data <? 8) && bytes_at 4 [0x66; 0x74; 0x79; 0x70] data)
       || (negb (slen data <? 12) && bytes_at 0 [0x52; 0x49; 0x46; 0x46] data && bytes_at 8 [0x57; 0x45; 0x42; 0x50] data)
       || bytes_at 0 [0x28; 0xB5; 0x2F; 0xFD] data.

(** ** Blob headers (schema.go) *)

Definition SchemaVersion : string := "1.1.0".

(** [strconv.Atoi] with its error dropped: 0 for what is no number, the nearest
    [int64] for what is out of range ([ParseUint] stops where it overflows). *)
Fixpoint atoi_digits (acc : Z) (s : string) : option Z :=
  match s with
  | EmptyString => Some acc
  | String c s =>
      d ← digit_val c;
      if (2 ^ 64 - 1) / 10 + 1 <=? acc then Some (2 ^ 64 - 1)
      else if 2 ^ 64 <=? acc * 10 + d then Some (2 ^ 64 - 1)
      else atoi_digits (acc * 10 + d) s
  end.

Definition atoi (s : string) : Z :=
  let '(neg, digits) :=
    match s with
    | String c s' =>
        if Ascii.eqb c "-" then (true, s') else if Ascii.eqb c "+" then (false, s') else (false, s)
    | EmptyString => (false, s)
    end in
  match digits with
  | EmptyString => 0
  | _ =>
      match atoi_digits 0 digits with
      | None => 0
      | Some n => if neg then Z.max (- 2 ^ 63) (- n) else Z.min (2 ^ 63 - 1) n
      end
  end.

Example atoi_cases : map atoi ["1"; "x"; "+7"; "-"; "300"; "99999999999999999999x"] = [1; 0; 7; 0; 300; 2 ^ 63 - 1].
Proof. vm_compute. reflexivity. Qed.

(** [strings.SplitN(v, ".", 2)[0]]. *)
Definition semverMajor (v : string) : Z :=
  atoi (match CutByte v "." with Some (a, _) => a | None => v end).

Definition BlobHeaderSize : Z := 6.
Record BlobHeader := mkBlobHeader { bhMajor : Z; bhMinor : Z; bhPatch : Z }.

(** The parts of [strings.SplitN(v, ".", 3)] as bytes. *)
Definition headerOf (version : string) : BlobHeader :=
  let '(major, rest) := match CutByte version "." with Some (a, r) => (atoi a, Some r) | None => (atoi version, None) end in
  let '(minor, rest) := match rest with
    | None => (0, None)
    | Some r => match CutByte r "." with Some (a, r) => (atoi a, Some r) | None => (atoi r, None) end
    end in
  mkBlobHeader (uint8_wrap major) (uint8_wrap minor) (uint8_wrap (match rest with Some r => atoi r | None => 0 end)).

Definition CurrentBlobHeader : BlobHeader := headerOf SchemaVersion.

Definition PrependBlobHeader (encrypted : string) : string :=
  let h := CurrentBlobHeader in
  "SKY" +:+ string_of_bytes [bhMajor h; bhMinor h; bhPatch h] +:+ encrypted.

Definition StripBlobHeader (data : string) : result Failure (string * BlobHeader) :=
  if bool_decide (data = "") then Err (Failed "empty blob")
  else if negb (slen data <? BlobHeaderSize) && HasPrefix data "SKY" then
    match drop 3 (bytes_of data) with
    | a :: b :: c :: _ => Ok (str_drop 6 data, mkBlobHeader a b c)
    | _ => Err Panicked
    end
  else Ok (data, mkBlobHeader 0 0 0).

Record Schema := mkSchema { scVersion : string; scHashAlgorithm : string; scKDF : string; scCipher : string; scKeyWrap : string }.
Definition CurrentSchema : Schema :=
  mkSchema SchemaVersion "sha3-256" "hkdf-sha3-256" "aes-256-gcm" "ephemeral-ecdh-x25519-hkdf-sha3-256-aes-256-gcm".

Inductive SchemaErr := ErrNoSchema | ErrReadSchema | ErrTooNew | ErrTooOld.

(** [ValidateSchema] on the schema read: [None] is a bucket without one. *)
Definition ValidateSchema (schema : result unit (option Schema)) : result SchemaErr unit :=
  match schema with
  | Err _ => Err ErrReadSchema
  | Ok None => Err ErrNoSchema
  | Ok (Some s) =>
      if semverMajor SchemaVersion <? semverMajor (scVersion s) then Err ErrTooNew
      else if semverMajor (scVersion s) <? semverMajor SchemaVersion then Err ErrTooOld
      else Ok tt
  end.

(** ** Namespaces (keys.go, nsid.go) *)

(** [strings.ReplaceAll(path, "\", "/")] *)
Fixpoint slashes (s : string) : string :=
  match s with EmptyString => "" | String c s => String (if Ascii.eqb c "\" then "/"%char else c) (slashes s) end.

Definition NamespaceFromPath (path : string) : string :=
  let path := TrimPrefix (slashes path) "/" in
  match IndexByte path "/" with
  | Some (S _ as i) => str_take i path
  | _ => "default"
  end.

Definition DeriveFileKey `{CryptoLib} (nsKey contentHash : string) : result string string :=
  if negb (slen nsKey =? KeySize) then Err "invalid namespace key size"
  else Ok (DeriveKey nsKey contentHash "sky10-file-key").

Section Blobs.
Context `{CL : CryptoLib} `{KL : ChunkLib}.

Definition ContentHash (data : string) : string := hexEncode (sha3_256 data).

Definition deriveNSID (nsKey nsName : string) : string := hexEncode (str_take 16 (hmacSHA256 nsKey nsName)).

Definition CompressChunk (data : string) : string :=
  if bool_decide (data = "") then String compressNone ""
  else if isIncompressible data then String compressNone data
  else
    let compressed := zstdEncode data in
    if slen data <=? slen compressed then String compressNone data else String compressZstd compressed.

Definition DecompressChunk (data : string) : result string string :=
  match data with
  | EmptyString => Ok ""
  | String c rest =>
      if Ascii.eqb c compressNone then Ok rest
      else if Ascii.eqb c compressZstd then match zstdDecode rest with Some d => Ok d | None => Err "zstd" end
      else Ok data
  end.

(** What [Put] stores for a chunk, and what a read makes of stored bytes. *)
Definition encodeChunkBlob (nonce hash nsKey data : string) : result Failure string :=
  match DeriveFileKey nsKey hash with
  | Err e => Err (Failed e)
  | Ok fileKey =>
      match Encrypt nonce (CompressChunk data) fileKey with
      | Err e => Err (failHash hash "encrypting chunk")
      | Ok encrypted => Ok (PrependBlobHeader encrypted)
      end
  end.

Definition decodeChunkBlob (chunkHash nsKey raw : string) : result Failure string :=
  match StripBlobHeader raw with
  | Err e => Err e
  | Ok (encrypted, _) =>
      match DeriveFileKey nsKey chunkHash with
      | Err e => Err (Failed e)
      | Ok fileKey =>
          match Decrypt encrypted fileKey with
          | Err e => Err (Failed "decrypting chunk")
          | Ok compressed =>
              match DecompressChunk compressed with
              | Err e => Err (Failed "decompressing chunk")
              | Ok plaintext => if bool_decide (ContentHash plaintext <> chunkHash) then Err (Failed "hash mismatch") else Ok plaintext
              end
          end
      end
  end.

(** *** Round trips *)

Lemma decompress_compress data : DecompressChunk (CompressChunk data) = Ok data.
Proof.
  unfold CompressChunk. case_bool_decide as Hd; [by subst|]. destruct (isIncompressible data); [done|].
  destruct (slen data <=? slen (zstdEncode data)); [done|]. simpl. by rewrite zstd_decode_encode.
Qed.

Lemma strip_prepend encrypted : StripBlobHeader (PrependBlobHeader encrypted) = Ok (encrypted, CurrentBlobHeader).
Proof.
  unfold PrependBlobHeader, StripBlobHeader. change (string_of_bytes _) with (String "001" (String "001" (String "000" ""))).
  rewrite bool_decide_eq_false_2 by done. replace (slen _ <? BlobHeaderSize) with false; [done|].
  symmetry. apply Z.ltb_ge. rewrite !slen_app. pose proof (slen_nonneg encrypted). change (slen "SKY") with 3. change (slen (String _ _)) with 3.
  unfold BlobHeaderSize. lia.
Qed.

Lemma decode_encode nonce nsKey data :
  slen nonce = NonceSize -> slen nsKey = KeySize ->
  exists blob, encodeChunkBlob nonce (ContentHash data) nsKey data = Ok blob /\ decodeChunkBlob (ContentHash data) nsKey blob = Ok data.
Proof.
  intros Hn Hk. unfold encodeChunkBlob, DeriveFileKey. rewrite Hk. change (negb (KeySize =? KeySize)) with false. cbv iota.
  destruct (Decrypt_Encrypt nonce (CompressChunk data) (DeriveKey nsKey (ContentHash data) "sky10-file-key") Hn (hkdf_length _ _ _))
    as (c & -> & Hd & _). eexists. split; [done|]. unfold decodeChunkBlob. rewrite strip_prepend. unfold DeriveFileKey. rewrite Hk. change (negb (KeySize =? KeySize)) with false. cbv iota.
  rewrite Hd, decompress_compress. by rewrite bool_decide_eq_false_2 by (intros Hx; by apply Hx).
Qed.

(** Whatever bytes are decoded, the plaintext has the name that was asked for. *)
Lemma decode_authentic hash nsKey raw data : decodeChunkBlob hash nsKey raw = Ok data -> ContentHash data = hash.
Proof.
  unfold decodeChunkBlob. destruct (StripBlobHeader raw) as [[enc h]|]; [|done]. destruct (DeriveFileKey nsKey hash); [|done].
  destruct (Decrypt enc _); [|done]. destruct (DecompressChunk _) as [plaintext|]; [|done]. case_bool_decide as H; [done|]. intros [= <-]. destruct (decide (ContentHash plaintext = hash)); [done|by destruct H].
Qed.

End Blobs.

(** ** Which source to try first (chunk_source_planner.go) *)

Inductive chunkSourceKind := chunkSourceLocal | chunkSourcePeer | chunkSourceS3Pack | chunkSourceS3Blob.

#[export] Instance chunkSourceKind_eq_dec : EqDecision chunkSourceKind.
Proof. solve_decision. Defined.

Record chunkSourceHealthState := mkHealth {
  hsConsecutiveFailures : Z; hsDegradedUntil : Time; hsLastSuccessAt : Time; hsLastErrorAt : Time; hsLastError : string
}.

(** The state of a key that is not in the map. *)
Definition zeroHealth : chunkSourceHealthState := mkHealth 0 zeroTime zeroTime zeroTime "".

Abbreviation Health := (gmap string chunkSourceHealthState).

Definition defaultChunkSourceRetryBase : Duration := 5 * second.
Definition defaultChunkSourceRetryMax : Duration := minute.

(** [None]: the health of the source is not kept. *)
Definition chunkSourceHealthKey (kind : chunkSourceKind) : option string :=
  match kind with chunkSourcePeer => Some "peer" | chunkSourceS3Pack | chunkSourceS3Blob => Some "s3" | chunkSourceLocal => None end.

Definition baseChunkSourcePriority (kind : chunkSourceKind) : Z :=
  match kind with chunkSourceLocal => 0 | chunkSourcePeer => 10 | chunkSourceS3Pack | chunkSourceS3Blob => 20 end.

Definition healthOf (hs : Health) (key : string) : chunkSourceHealthState := default zeroHealth (hs !! key).

Definition sourceScore (hs : Health) (now : Time) (kind : chunkSourceKind) : Z :=
  let score := baseChunkSourcePriority kind in
  match chunkSourceHealthKey kind with
  | None => score
  | Some key =>
      let state := healthOf hs key in
      let score := if negb (time_IsZero (hsDegradedUntil state)) && (now <? hsDegradedUntil state) then score + 100 else score in
      score + Z.min (hsConsecutiveFailures state) 10
  end.

(** The turns of the loop: [backoff] doubles until it would pass the maximum. *)
Fixpoint doubled (n : nat) (backoff maxBackoff : Duration) : Duration :=
  match n with
  | O => if maxBackoff <? backoff then maxBackoff else backoff
  | S n => if maxBackoff / 2 <=? backoff then maxBackoff else doubled n (backoff * 2) maxBackoff
  end.

Definition backoffForFailures (failures : Z) : Duration :=
  if failures <=? 0 then 0 else doubled (Z.to_nat (failures - 1)) defaultChunkSourceRetryBase defaultChunkSourceRetryMax.

Definition recordSuccess (now : Time) (kind : chunkSourceKind) (hs : Health) : Health :=
  match chunkSourceHealthKey kind with
  | None => hs
  | Some key => <[key := mkHealth 0 zeroTime now zeroTime ""]> hs
  end.

(** An error of a source; [reCtx] if it is the context's. *)
Record ReadErr := mkReadErr { reText : string; reCtx : bool }.

Definition recordFailure (now : Time) (kind : chunkSourceKind) (e : ReadErr) (hs : Health) : Health :=
  match chunkSourceHealthKey kind with
  | None => hs
  | Some key =>
      if reCtx e then hs
      else
        let state := healthOf hs key in
        let failures := hsConsecutiveFailures state + 1 in
        <[key := mkHealth failures (now + backoffForFailures failures) (hsLastSuccessAt state) now (reText e)]> hs
  end.

Record chunkSourcePlan := mkSource { cpKind : chunkSourceKind; cpCacheOnSuccess : bool }.

Definition prioritize (hs : Health) (now : Time) (sources : list chunkSourcePlan) : list chunkSourcePlan :=
  sortBy (fun a b => sourceScore hs now (cpKind a) <? sourceScore hs now (cpKind b)) sources.

(** ** Places in packs (pack.go) *)

Record PackLocation := mkLocation { plPack : string; plOffset : Z; plLength : Z }.
Abbreviation PackIndex := (gmap string PackLocation).

(** The objects of a backend. *)
Abbreviation Objects := (gmap string string).

(** A range of an object. *)
Definition slice (offset length : Z) (s : string) : string := str_take (Z.to_nat length) (str_drop (Z.to_nat offset) s).

Lemma slice_append s b : slice (slen s) (slen b) (s +:+ b) = b.
Proof. unfold slice, slen. rewrite !Nat2Z.id, str_drop_app. pose proof (str_take_app b "") as H. by rewrite str_app_nil_r in H. Qed.

Lemma drop_app_short n s t : (n <= String.length s)%nat -> str_drop n (s +:+ t) = str_drop n s +:+ t.
Proof. revert s. induction n as [|n IH]; intros [|c s] H; simpl in H; try done; try lia. apply (IH s). lia. Qed.

Lemma take_app_short n s t : (n <= String.length s)%nat -> str_take n (s +:+ t) = str_take n s.
Proof. revert s. induction n as [|n IH]; intros [|c s] H; simpl in H; try done; try lia. rewrite str_app_cons. simpl. f_equal. apply IH. lia. Qed.

Lemma slice_app_short o n s t : 0 <= o -> 0 <= n -> o + n <= slen s -> slice o n (s +:+ t) = slice o n s.
Proof.
  unfold slice, slen. intros Ho Hn H. rewrite drop_app_short by lia. apply take_app_short. rewrite str_length_drop. lia.
Qed.

Definition ReadPackedChunk (objs : Objects) (loc : PackLocation) : result ReadErr string :=
  match objs !! plPack loc with
  | Some s => Ok (slice (plOffset loc) (plLength loc) s)
  | None => Err (mkReadErr "not found" false)
  end.

(** ** Reading a chunk (skyfs.go, pull_planner.go) *)

(** The local cache: the file of a blob under the directory of objects. *)
Definition localBlobPath (objectsDir nsID hash : string) : string :=
  let prefix := if slen hash <? 2 then "xx" else str_take 2 hash in
  Clean (objectsDir +:+ "/" +:+ nsID +:+ "/blobs/" +:+ prefix +:+ "/" +:+ hash +:+ ".blob").

(** What a read depends on: whether there are a backend and peers, what they
    and the file system answer, the drive's namespace and the pack index. *)
Record FetchEnv := mkFetchEnv {
  feObjectsDir : string;
  feStoreNSID : string;
  feNow : Time;
  fePeers : option (string -> string -> result ReadErr string);      (** [GetChunk] *)
  feGet : option (string -> result ReadErr string);                  (** [Get] of the backend, read to the end *)
  feGetRange : PackLocation -> result ReadErr string;
  fePackIndex : PackIndex;
  feReadOk : string -> bool;
  feWriteOk : string -> bool
}.

(** The health of the sources and the files of the cache. *)
Record FetchState := mkFetchState { fsHealth : Health; fsBlobs : gmap string string }.

Definition blobKeyFor (storeNSID hash : string) : option string :=
  if bool_decide (storeNSID <> "") then namespacedBlobKey storeNSID hash else BlobKey hash.

Definition planChunkSources (env : FetchEnv) (hs : Health) (chunkHash : string) : list chunkSourcePlan :=
  let sources := [mkSource chunkSourceLocal false] in
  let sources := match fePeers env with Some _ => sources ++ [mkSource chunkSourcePeer true] | None => sources end in
  let sources := match feGet env with
    | Some _ => sources ++ [mkSource (match fePackIndex env !! chunkHash with Some _ => chunkSourceS3Pack | None => chunkSourceS3Blob end) true]
    | None => sources
    end in
  prioritize hs (feNow env) sources.

Record plannedChunkSource := mkPlannedSource { psPlan : chunkSourcePlan; psReuse : bool }.
Record plannedChunk := mkPlanned { pcHash : string; pcSources : list plannedChunkSource }.

Definition planChunk (env : FetchEnv) (hs : Health) (reuse : bool) (hash : string) : plannedChunk :=
  mkPlanned hash ((if reuse then [mkPlannedSource (mkSource chunkSourceLocal false) true] else [])
                  ++ map (fun p => mkPlannedSource p false) (planChunkSources env hs hash)).

(** [chunkHash[:12]] in the text of an error of a remote source. *)
Definition remoteErr (hash : string) (r : result ReadErr string) : result Failure (result ReadErr string) :=
  match r with
  | Ok d => Ok (Ok d)
  | Err e => if slen hash <? 12 then Err Panicked else Ok (Err e)
  end.

Definition readRawChunkSource (env : FetchEnv) (blobs : gmap string string) (nsID hash : string) (source : chunkSourcePlan)
  : result Failure (result ReadErr string) :=
  match cpKind source with
  | chunkSourceLocal =>
      let path := localBlobPath (feObjectsDir env) nsID hash in
      Ok (match (if feReadOk env path then blobs !! path else None) with Some b => Ok b | None => Err (mkReadErr "open" false) end)
  | chunkSourcePeer =>
      match fePeers env with
      | None => Ok (Err (mkReadErr "peer chunk fetcher not configured" false))
      | Some get => remoteErr hash (get nsID hash)
      end
  | chunkSourceS3Pack =>
      match feGet env, fePackIndex env !! hash with
      | None, _ => Ok (Err (mkReadErr "storage backend not configured" false))
      | _, None => Ok (Err (mkReadErr "packed chunk metadata not found" false))
      | Some _, Some loc => remoteErr hash (feGetRange env loc)
      end
  | chunkSourceS3Blob =>
      match feGet env with
      | None => Ok (Err (mkReadErr "storage backend not configured" false))
      | Some get =>
          match blobKeyFor (feStoreNSID env) hash with
          | None => Err Panicked
          | Some key => remoteErr hash (get key)
          end
      end
  end.

(** [LookupChunk] of the file that is about to be replaced; the bytes at the
    recorded place are read again and checked. *)
Abbreviation Reuse := (string -> result string (option string)).

Section Fetch.
Context `{CL : CryptoLib} `{KL : ChunkLib}.

Definition LookupChunk (matches : gmap string (Z * Z)) (readAt : Z -> Z -> result string string) : Reuse :=
  fun chunkHash =>
    match matches !! chunkHash with
    | None => Ok None
    | Some (offset, length) =>
        match readAt offset length with
        | Err e => Err e
        | Ok buf =>
            if negb (slen buf =? length) then Err "unexpected EOF"
            else if bool_decide (ContentHash buf <> chunkHash) then Ok None
            else Ok (Some buf)
        end
    end.

(** The places of the wanted chunks in the file that is about to be replaced: the
    pieces from [offset] on, until every wanted chunk has been seen. *)
Fixpoint matchChunks (wanted : gset string) (offset : Z) (pieces : list string) (matches : gmap string (Z * Z)) : gmap string (Z * Z) :=
  match pieces with
  | [] => matches
  | "" :: _ => matches
  | c :: rest =>
      let hash := ContentHash c in
      if bool_decide (hash ∈ wanted) then
        let matches := match matches !! hash with Some _ => matches | None => <[hash := (offset, slen c)]> matches end in
        if bool_decide (size matches = size wanted) then matches else matchChunks wanted (offset + slen c) rest matches
      else matchChunks wanted (offset + slen c) rest matches
  end.

(** [newLocalFileChunkReuse]: [file] is the regular file at the path, if there is
    one that can be read. *)
Definition newLocalFileChunkReuse (path : string) (wanted : list string) (file : option string) : option (gmap string (Z * Z)) :=
  if bool_decide (path = "") || bool_decide (wanted = []) then None
  else match file with
  | None => None
  | Some data =>
      let wantedSet : gset string := list_to_set (filter (fun h => h <> "") wanted) in
      if bool_decide (wantedSet = ∅) then None
      else
        let matches := matchChunks wantedSet 0 (cdcSplit data) ∅ in
        if bool_decide (matches = ∅) then None else Some matches
  end.

Fixpoint trySources (env : FetchEnv) (nsID nsKey : string) (reuse : option Reuse) (hash : string) (sources : list plannedChunkSource)
    (st : FetchState) : FetchState * result Failure (string * chunkSourceKind) :=
  match sources with
  | [] => (st, Err (failHash hash "no source"))
  | s :: rest =>
      let kind := cpKind (psPlan s) in
      if psReuse s then
        match reuse with
        | None => trySources env nsID nsKey reuse hash rest st
        | Some lookup =>
            match lookup hash with
            | Err e => (st, Err (failHash hash "local reuse chunk"))
            | Ok None => trySources env nsID nsKey reuse hash rest st
            | Ok (Some plaintext) => (st, Ok (plaintext, kind))
            end
        end
      else
        match readRawChunkSource env (fsBlobs st) nsID hash (psPlan s) with
        | Err f => (st, Err f)
        | Ok (Err e) => trySources env nsID nsKey reuse hash rest (mkFetchState (recordFailure (feNow env) kind e (fsHealth st)) (fsBlobs st))
        | Ok (Ok raw) =>
            match decodeChunkBlob hash nsKey raw with
            | Err Panicked => (st, Err Panicked)
            | Err (Failed e) =>
                trySources env nsID nsKey reuse hash rest
                  (mkFetchState (recordFailure (feNow env) kind (mkReadErr e false) (fsHealth st)) (fsBlobs st))
            | Ok plaintext =>
                let hs := recordSuccess (feNow env) kind (fsHealth st) in
                if cpCacheOnSuccess (psPlan s) then
                  let path := localBlobPath (feObjectsDir env) nsID hash in
                  if feWriteOk env path then (mkFetchState hs (<[path := raw]> (fsBlobs st)), Ok (plaintext, kind))
                  else (mkFetchState hs (fsBlobs st), Err (failHash hash "caching chunk"))
                else (mkFetchState hs (fsBlobs st), Ok (plaintext, kind))
            end
        end
  end.

Definition fetchPlannedChunk (env : FetchEnv) (nsID nsKey : string) (reuse : option Reuse) (c : plannedChunk) (st : FetchState)
  : FetchState * result Failure (string * chunkSourceKind) :=
  trySources env nsID nsKey reuse (pcHash c) (pcSources c) st.

End Fetch.

(** ** What a read yields *)

Section Reads.
Context `{CL : CryptoLib} `{KL : ChunkLib}.

Definition reuse_authentic (reuse : option Reuse) : Prop :=
  match reuse with Some lookup => forall hash x, lookup hash = Ok (Some x) -> ContentHash x = hash | None => True end.

Lemma LookupChunk_authentic matches readAt : reuse_authentic (Some (LookupChunk matches readAt)).
Proof.
  intros hash x. unfold LookupChunk. destruct (matches !! hash) as [[o n]|]; [|done]. destruct (readAt o n) as [buf|]; [|done].
  destruct (negb _); [done|]. case_bool_decide as H; [done|]. intros [= <-]. destruct (decide (ContentHash buf = hash)); [done|by destruct H].
Qed.

(** Whatever the sources hold, a chunk that is returned has the name it was asked
    for under. *)
Lemma trySources_authentic env nsID nsKey reuse hash sources st st' x k :
  reuse_authentic reuse -> trySources env nsID nsKey reuse hash sources st = (st', Ok (x, k)) -> ContentHash x = hash.
Proof.
  intros Hr. revert st. induction sources as [|s rest IH]; intros st; simpl; [done|]. destruct (psReuse s).
  - destruct reuse as [lookup|]; [|by apply IH]. destruct (lookup hash) as [[y|]|] eqn:El; [|by apply IH|done]. intros [= _ <- _]. by apply Hr.
  - destruct (readRawChunkSource _ _ _ _ _) as [[raw|e]|f]; [|by apply IH|done].
    destruct (decodeChunkBlob hash nsKey raw) as [y|[e|]] eqn:Ed; [|by apply IH|done]. apply decode_authentic in Ed.
    destruct (cpCacheOnSuccess _); [destruct (feWriteOk _ _)|]; intros [= _ <- _] || done; done.
Qed.

(** The recorded places hold what they are recorded for. *)
Definition places_ok (data : string) (m : gmap string (Z * Z)) : Prop :=
  forall hash o n, m !! hash = Some (o, n) -> slen (slice o n data) = n /\ ContentHash (slice o n data) = hash.

Lemma matchChunks_ok wanted pre pieces m data :
  data = pre +:+ foldr (fun c acc => c +:+ acc) "" pieces -> places_ok data m -> places_ok data (matchChunks wanted (slen pre) pieces m).
Proof.
  revert pre m. induction pieces as [|c pieces IH]; intros pre m Hd Hm; [done|]. cbn [matchChunks foldr] in *. destruct c as [|a c]; [done|].
  set (x := String a c) in *. assert (data = (pre +:+ x) +:+ foldr (fun c acc => c +:+ acc) "" pieces) as Hd' by (by rewrite str_app_assoc).
  assert (slen pre + slen x = slen (pre +:+ x)) as Hl by (by rewrite slen_app).
  assert (slice (slen pre) (slen x) data = x) as Hx.
  { rewrite Hd'. pose proof (slen_nonneg pre). pose proof (slen_nonneg x). rewrite slice_app_short by lia. apply slice_append. }
  assert (places_ok data (<[ContentHash x := (slen pre, slen x)]> m)) as Hi.
  { intros h o n. destruct (decide (ContentHash x = h)) as [<-|]; [rewrite lookup_insert_eq; intros [= <- <-]; by rewrite Hx|rewrite lookup_insert_ne by done; apply Hm]. }
  rewrite Hl. case_bool_decide; [|by apply IH]. destruct (m !! ContentHash x); case_bool_decide; try done; by apply IH.
Qed.

(** While the file stays as it is, every chunk found in it is given back, and no
    lookup fails. *)
Lemma reuse_found path wanted data m hash :
  newLocalFileChunkReuse path wanted (Some data) = Some m ->
  exists r, LookupChunk m (fun o n => Ok (slice o n data)) hash = Ok r /\ (is_Some (m !! hash) -> is_Some r).
Proof.
  intros H. assert (places_ok data m) as Hm.
  { unfold newLocalFileChunkReuse in H. destruct (_ || _); [done|]. repeat case_bool_decide; [done|done|]. injection H as <-.
    apply (matchChunks_ok _ "" (cdcSplit data)); [by rewrite cdc_concat|]. intros h o n. by rewrite lookup_empty. }
  unfold LookupChunk. destruct (m !! hash) as [[o n]|] eqn:E; [|exists None; split; [done|by intros [? ?]]].
  destruct (Hm _ _ _ E) as [H1 H2]. rewrite H1, Z.eqb_refl, bool_decide_eq_false_2 by (intros Hx; by apply Hx). simpl. eexists. split; [done|]. by eexists.
Qed.

Lemma strip_no_panic raw : StripBlobHeader raw <> Err Panicked.
Proof.
  unfold StripBlobHeader. case_bool_decide; [done|]. destruct (slen raw <? BlobHeaderSize) eqn:El; [done|]. simpl. destruct (HasPrefix raw "SKY"); [|done].
  apply Z.ltb_ge in El. unfold slen, BlobHeaderSize in El. do 6 (destruct raw as [|? raw]; [simpl in El; lia|]). done.
Qed.

Lemma decode_no_panic hash nsKey raw : decodeChunkBlob hash nsKey raw <> Err Panicked.
Proof.
  unfold decodeChunkBlob. pose proof (strip_no_panic raw). destruct (StripBlobHeader raw) as [[? ?]|[|]]; [|done|done].
  destruct (DeriveFileKey _ _); [|done]. destruct (Decrypt _ _); [|done]. destruct (DecompressChunk _); [|done]. by case_bool_decide.
Qed.

Lemma raw_no_panic env blobs nsID hash source : 12 <= slen hash -> readRawChunkSource env blobs nsID hash source <> Err Panicked.
Proof.
  intros Hl. assert (forall r, remoteErr hash r <> Err Panicked) as Hr.
  { intros [|]; [done|]. unfold remoteErr. by replace (slen hash <? 12) with false by (symmetry; apply Z.ltb_ge; lia). }
  assert (exists k, blobKeyFor (feStoreNSID env) hash = Some k) as [key Hk].
  { unfold blobKeyFor, namespacedBlobKey, BlobKey, shards. replace (slen hash <? 4) with false by (symmetry; apply Z.ltb_ge; lia).
    case_bool_decide; by eexists. }
  unfold readRawChunkSource. destruct (cpKind source); [done|destruct (fePeers env); [apply Hr|done]| |].
  - destruct (feGet env); [|done]. destruct (fePackIndex env !! hash); [apply Hr|done].
  - destruct (feGet env); [|done]. rewrite Hk. apply Hr.
Qed.

(** One of the sources has the chunk. *)
Definition source_has (env : FetchEnv) (nsID nsKey hash : string) (s : plannedChunkSource) : Prop :=
  psReuse s = false /\ forall blobs, exists raw x,
    readRawChunkSource env blobs nsID hash (psPlan s) = Ok (Ok raw) /\ decodeChunkBlob hash nsKey raw = Ok x.

Definition reuse_answers (reuse : option Reuse) : Prop :=
  match reuse with Some lookup => forall hash, is_ok (lookup hash) = true | None => True end.

Lemma trySources_finds env nsID nsKey reuse hash sources st :
  12 <= slen hash -> reuse_answers reuse -> (forall path, feWriteOk env path = true) -> Exists (source_has env nsID nsKey hash) sources ->
  exists st' x k, trySources env nsID nsKey reuse hash sources st = (st', Ok (x, k)).
Proof.
  intros Hl Hr Hw. revert st. induction sources as [|s rest IH]; intros st Hex; [by apply Exists_nil in Hex|]. apply Exists_cons in Hex.
  cbn [trySources]. destruct (psReuse s) eqn:Ers.
  - destruct Hex as [[Hf _]|Hex]; [congruence|]. destruct reuse as [lookup|]; [|by apply IH]. specialize (Hr hash).
    destruct (lookup hash) as [[y|]|]; [by eexists _, _, _|by apply IH|done].
  - assert (forall raw y, decodeChunkBlob hash nsKey raw = Ok y -> exists st' x k,
      (let hs := recordSuccess (feNow env) (cpKind (psPlan s)) (fsHealth st) in
       if cpCacheOnSuccess (psPlan s) then
         let path := localBlobPath (feObjectsDir env) nsID hash in
         if feWriteOk env path then (mkFetchState hs (<[path := raw]> (fsBlobs st)), Ok (y, cpKind (psPlan s)))
         else (mkFetchState hs (fsBlobs st), Err (failHash hash "caching chunk"))
       else (mkFetchState hs (fsBlobs st), Ok (y, cpKind (psPlan s)))) = (st', Ok (x, k))) as Hdone.
    { intros raw y _. simpl. destruct (cpCacheOnSuccess _); [rewrite Hw|]; by eexists _, _, _. }
    pose proof (raw_no_panic env (fsBlobs st) nsID hash (psPlan s) Hl) as Hnp.
    destruct (readRawChunkSource env (fsBlobs st) nsID hash (psPlan s)) as [[raw|e]|f] eqn:Eraw.
    + pose proof (decode_no_panic hash nsKey raw). destruct (decodeChunkBlob hash nsKey raw) as [y|[e|]] eqn:Ed; [by eapply Hdone| |done].
      destruct Hex as [[_ Hh]|Hex]; [|by apply IH]. destruct (Hh (fsBlobs st)) as (raw' & x & E & E'). congruence.
    + destruct Hex as [[_ Hh]|Hex]; [|by apply IH]. destruct (Hh (fsBlobs st)) as (raw' & x & E & E'). congruence.
    + destruct f; [|done]. exfalso. clear -Eraw. unfold readRawChunkSource, remoteErr in Eraw. repeat case_match; congruence.
Qed.

(** A name shorter than twelve bytes: the texts of the errors slice it, so a read
    that does not succeed is a panic. *)
Lemma short_name_panics env nsID nsKey hash sources st :
  slen hash < 12 -> match (trySources env nsID nsKey None hash sources st).2 with Err (Failed _) => False | _ => True end.
Proof.
  intros Hl. assert (forall e, failHash hash e = Panicked) as Hf.
  { intros e. unfold failHash. by rewrite (proj2 (Z.ltb_lt _ _) Hl). }
  revert st. induction sources as [|s rest IH]; intros st; simpl; [by rewrite Hf|]. destruct (psReuse s); [apply IH|].
  destruct (readRawChunkSource env (fsBlobs st) nsID hash (psPlan s)) as [[raw|e]|[e|]] eqn:Er; [|apply IH| |done].
  - destruct (decodeChunkBlob hash nsKey raw) as [x|[|]]; [|apply IH|done]. destruct (cpCacheOnSuccess _); [destruct (feWriteOk _ _)|]; simpl; rewrite ?Hf; done.
  - unfold readRawChunkSource, remoteErr in Er. repeat case_match; congruence.
Qed.

End Reads.

(** ** The order of the sources *)

Lemma score_weak hs now : weak_order (fun a b => sourceScore hs now (cpKind a) <? sourceScore hs now (cpKind b)).
Proof. split; intros *; rewrite ?Z.ltb_lt, ?Z.ltb_ge; lia. Qed.

Lemma prioritize_perm hs now l : prioritize hs now l ≡ₚ l.
Proof. apply sortBy_perm. Qed.

Lemma prioritize_sorted hs now l : StronglySorted (fun a b => sourceScore hs now (cpKind a) <= sourceScore hs now (cpKind b)) (prioritize hs now l).
Proof.
  pose proof (sortBy_weak _ l (score_weak hs now)) as H. unfold prioritize. induction H; constructor; [done|].
  eapply Forall_impl; [done|]. simpl. intros b Hb. by apply Z.ltb_ge in Hb.
Qed.

(** The failures of a source are counted from zero. *)
Definition health_ok (hs : Health) : Prop := forall key s, hs !! key = Some s -> 0 <= hsConsecutiveFailures s.

Lemma recordSuccess_ok now kind hs : health_ok hs -> health_ok (recordSuccess now kind hs).
Proof.
  intros H key s. unfold recordSuccess. destruct (chunkSourceHealthKey kind) as [k|]; [|apply H].
  destruct (decide (k = key)) as [->|]; [rewrite lookup_insert_eq; by intros [= <-]|rewrite lookup_insert_ne by done; apply H].
Qed.

Lemma healthOf_ok hs key : health_ok hs -> 0 <= hsConsecutiveFailures (healthOf hs key).
Proof. intros H. unfold healthOf. destruct (hs !! key) as [s|] eqn:E; simpl; [by eapply H|lia]. Qed.

Lemma recordFailure_ok now kind e hs : health_ok hs -> health_ok (recordFailure now kind e hs).
Proof.
  intros H key s. unfold recordFailure. destruct (chunkSourceHealthKey kind) as [k|]; [|apply H]. destruct (reCtx e); [apply H|].
  pose proof (healthOf_ok hs k H). destruct (decide (k = key)) as [->|]; [rewrite lookup_insert_eq; intros [= <-]; simpl; lia|rewrite lookup_insert_ne by done; apply H].
Qed.

(** The back-off in a closed form. *)
Lemma doubled_closed n b : 0 < b -> b <= minute -> doubled n b minute = Z.min minute (b * 2 ^ Z.of_nat n).
Proof.
  revert b. induction n as [|n IH]; intros b Hb Hm; cbn [doubled].
  - destruct (minute <? b) eqn:E; [apply Z.ltb_lt in E|apply Z.ltb_ge in E]; lia.
  - rewrite Nat2Z.inj_succ, Z.pow_succ_r by lia. pose proof (Z.pow_pos_nonneg 2 (Z.of_nat n) ltac:(lia) ltac:(lia)) as Hp.
    assert (minute = 60000000000) as Em by reflexivity. destruct (minute / 2 <=? b) eqn:E.
    + apply Z.leb_le in E. rewrite Em in *. change (60000000000 / 2) with 30000000000 in E. nia.
    + apply Z.leb_gt in E. rewrite Em in E. change (60000000000 / 2) with 30000000000 in E. rewrite IH by (rewrite ?Em; lia). f_equal. ring.
Qed.

(** A source that failed is put back by five seconds after its first
    failure, twice as long after every further one, and never by more than a
    minute. *)
Theorem fs_source_backoff (failures : Z) (Hf : 1 <= failures) :
  backoffForFailures failures = Z.min defaultChunkSourceRetryMax (defaultChunkSourceRetryBase * 2 ^ (failures - 1)) /\
  0 < backoffForFailures failures <= defaultChunkSourceRetryMax.
Proof.
  unfold backoffForFailures. replace (failures <=? 0) with false by (symmetry; apply Z.leb_gt; lia).
  rewrite doubled_closed by (unfold defaultChunkSourceRetryBase, minute, second; lia). rewrite Z2Nat.id by lia. split; [done|].
  pose proof (Z.pow_pos_nonneg 2 (failures - 1) ltac:(lia) ltac:(lia)). unfold defaultChunkSourceRetryMax, defaultChunkSourceRetryBase, minute, second in *. lia.
Qed.

Section Safety.
Context `{CL : CryptoLib} `{KL : ChunkLib}.

(** The sources of a chunk: the cache always, the others where they are
    configured. *)
Definition configured (env : FetchEnv) (hash : string) (k : chunkSourceKind) : bool :=
  match k with
  | chunkSourceLocal => true
  | chunkSourcePeer => bool_decide (is_Some (fePeers env))
  | chunkSourceS3Pack => bool_decide (is_Some (feGet env)) && bool_decide (is_Some (fePackIndex env !! hash))
  | chunkSourceS3Blob => bool_decide (is_Some (feGet env)) && bool_decide (fePackIndex env !! hash = None)
  end.

(** Every configured source of a chunk is tried, once, the cache
    first and the others by their score: a peer before the backend, unless it
    failed and the backend did not. *)
Theorem fs_sources_ordered (env : FetchEnv) (hs : Health) (hash : string) (Hhs : health_ok hs) :
  (exists rest, planChunkSources env hs hash = mkSource chunkSourceLocal false :: rest) /\
  (forall k, k ∈ map cpKind (planChunkSources env hs hash) <-> configured env hash k = true) /\
  NoDup (map cpKind (planChunkSources env hs hash)) /\
  StronglySorted (fun a b => sourceScore hs (feNow env) (cpKind a) <= sourceScore hs (feNow env) (cpKind b)) (planChunkSources env hs hash).
Proof.
  assert (forall k, k <> chunkSourceLocal -> 0 < sourceScore hs (feNow env) k) as Hpos.
  { intros k Hk. pose proof (healthOf_ok hs "peer" Hhs). pose proof (healthOf_ok hs "s3" Hhs).
    destruct k; [done|..]; unfold sourceScore; cbn [chunkSourceHealthKey baseChunkSourcePriority]; destruct (_ && _); lia. }
  unfold planChunkSources. set (l := match feGet env with Some _ => _ | None => _ end).
  pose proof (prioritize_sorted hs (feNow env) l) as Hs. pose proof (prioritize_perm hs (feNow env) l) as Hp.
  assert (NoDup (map cpKind l) /\ (forall k, k ∈ map cpKind l <-> configured env hash k = true)) as [Hnd Hin].
  { unfold l, configured. destruct (feGet env), (fePeers env), (fePackIndex env !! hash); cbn; (split; [repeat (constructor; [by rewrite ?elem_of_cons, ?elem_of_nil; naive_solver|]); constructor|]);
      intros []; rewrite ?elem_of_cons, ?elem_of_nil; naive_solver. }
  assert (mkSource chunkSourceLocal false ∈ prioritize hs (feNow env) l) as Hl.
  { rewrite Hp. unfold l. destruct (feGet env), (fePeers env); cbn; left. }
  split_and!; [| |by rewrite (fmap_Permutation cpKind _ _ Hp)|done].
  - destruct (prioritize hs (feNow env) l) as [|a rest] eqn:E; [by apply elem_of_nil in Hl|]. exists rest. f_equal.
    apply elem_of_cons in Hl as [->|Hl]; [done|]. inversion Hs as [|?? _ Hall]; subst. rewrite Forall_forall in Hall. specialize (Hall _ Hl). simpl in Hall.
    destruct (decide (cpKind a = chunkSourceLocal)) as [Ha|Ha]; [|specialize (Hpos _ Ha); unfold sourceScore at 2 in Hall; simpl in Hall; lia].
    exfalso. assert (NoDup (map cpKind (a :: rest))) as Hn by (by rewrite (fmap_Permutation cpKind _ _ Hp)).
    simpl in Hn. apply NoDup_cons in Hn as [Hn _]. apply Hn. rewrite Ha. by apply (list_elem_of_fmap_2 cpKind _ (mkSource chunkSourceLocal false)).
  - intros k. rewrite <- Hin. by rewrite (fmap_Permutation cpKind _ _ Hp).
Qed.

(** C14 (safety). A read never returns bytes other than what the name says, whatever
    the backend, the packs, the peers, the cache and the old file hold: the hash of
    what it returns is the name. *)
Theorem fs_chunk_authentic env nsID nsKey reuse hs hash st st' x k
  (Hreuse : reuse_authentic reuse)
  (Hrun : fetchPlannedChunk env nsID nsKey reuse (planChunk env hs (bool_decide (is_Some reuse)) hash) st = (st', Ok (x, k))) :
  ContentHash x = hash.
Proof. by eapply (trySources_authentic env nsID nsKey reuse hash). Qed.

End Safety.

(** ** The hypotheses of the theorems can hold *)

Module Demo.
Import Seal.Demo.

(** Hashes that keep what they hash, a codec that does nothing, pieces of one
    byte. *)
Fixpoint bytewise (s : string) : list string := match s with EmptyString => [] | String c s => String c "" :: bytewise s end.

#[export] Instance toyChunks : ChunkLib.
Proof.
  refine {|
    sha3_256 d := pad 32 d;
    zstdEncode d := d;
    zstdDecode d := Some d;
    cdcSplit := bytewise;
    hmacSHA256 key m := pad 32 (m +:+ key) |}.
  - intros d. apply pad_length.
  - done.
  - intros d. induction d as [|c d IH]; [done|]. cbn [bytewise foldr]. by rewrite IH.
  - intros d. induction d; by constructor.
  - intros d. induction d; by constructor.
Defined.

Definition nsKey : string := "0123456789abcdef0123456789abcdef".
Definition hello : string := ContentHash "hello".
Definition blob : string := match encodeChunkBlob "nonce-12byte" hello nsKey "hello" with Ok b => b | Err _ => "" end.

(** The cache has something else, the peer is down, the backend has the chunk. *)
Definition path : string := localBlobPath "/objs" "ns" hello.
Definition env : FetchEnv := mkFetchEnv "/objs" "ns" 1000
  (Some (fun _ _ => Err (mkReadErr "refused" false)))
  (Some (fun key => if bool_decide (namespacedBlobKey "ns" hello = Some key) then Ok blob else Err (mkReadErr "not found" false)))
  (fun _ => Err (mkReadErr "not found" false)) ∅ (fun _ => true) (fun _ => true).
Definition st0 : FetchState := mkFetchState ∅ {[ path := "garbage" ]}.
Definition fetched : FetchState * result Failure (string * chunkSourceKind) :=
  fetchPlannedChunk env "ns" nsKey None (planChunk env ∅ (bool_decide (is_Some (@None Reuse))) hello) st0.

Example fetched_ok : fetched.2 = Ok ("hello", chunkSourceS3Blob).
Proof. vm_compute. reflexivity. Qed.

(** The blob replaced what was in the cache, and the peer is put back. *)
Example fetched_state : fsBlobs fetched.1 !! path = Some blob /\ sourceScore (fsHealth fetched.1) 1000 chunkSourcePeer = 111.
Proof. split; vm_compute; reflexivity. Qed.

Lemma fs_source_backoff_witness : (1 <= 3 /\ backoffForFailures 3 = 20 * second) /\ backoffForFailures 9 = minute.
Proof. split; [split; [lia|apply (fs_source_backoff 3); lia]|apply (fs_source_backoff 9); lia]. Defined.

Lemma demo_health_ok : health_ok ∅.
Proof. intros key s. by rewrite lookup_empty. Qed.

Lemma fs_sources_ordered_witness :
  map cpKind (planChunkSources env (fsHealth fetched.1) hello) = [chunkSourceLocal; chunkSourceS3Blob; chunkSourcePeer] /\
  NoDup (map cpKind (planChunkSources env ∅ hello)).
Proof. split; [vm_compute; reflexivity|apply (fs_sources_ordered env ∅ hello demo_health_ok)]. Defined.

Lemma fetched_eq : fetched = (fetched.1, Ok ("hello", chunkSourceS3Blob)).
Proof. rewrite <- fetched_ok. by destruct fetched. Qed.

Lemma fs_chunk_authentic_witness : fetched.2 = Ok ("hello", chunkSourceS3Blob) /\ ContentHash "hello" = hello.
Proof. split; [apply fetched_ok|exact (fs_chunk_authentic env "ns" nsKey None ∅ hello st0 fetched.1 "hello" chunkSourceS3Blob I fetched_eq)]. Defined.

(** A name of five bytes from a snapshot of another device. *)
Example short_name : (fetchPlannedChunk env "ns" nsKey None (planChunk env ∅ false "abcde") st0).2 = Err Panicked.
Proof. vm_compute. reflexivity. Qed.

End Demo.
