(* ===== verification/FsStore.v ===== *)
(** * Storing files: namespace keys, packs and [Put] (pkg/fs: skyfs.go, pack.go, nsid.go)

    The store of a device and what it writes to: the objects of the backend, the
    local cache of blobs, the files with the keys and identifiers of namespaces.
    Every operation is a state transformer with errors; which calls of the
    backend and of the file system succeed, and what the random generator
    yields, are arguments. *)

From Stdlib Require Import Ascii.
From stdpp Require Import base numbers list gmap strings.
From S2P Require Import Prelude GoStrings GoStrconv GoText GoPath Bech32 Seal FsPath FsChunks.
From S2P Require Join.

#[local] Open Scope Z_scope.

(** ** Packs (pack.go) *)

Definition PackTargetSize : Z := 16 * 2 ^ 20.
Definition PackChunkThreshold : Z := 4 * 2 ^ 20.
Definition packIndexKey : string := "pack-index.enc".

Record pendingEntry := mkPending { peHash : string; peOffset : Z; peLength : Z }.
Record PackWriter := mkPackWriter { pwBuf : string; pwEntries : list pendingEntry; pwSeq : Z }.

Definition NewPackWriter : PackWriter := mkPackWriter "" [] 0.

(** [%04d] of a number that is not negative. *)
Definition pad4 (n : Z) : string := if n <? 10000 then pad_dec 4 n else Itoa n.
Definition packName (seq : Z) : string := "packs/pack_" +:+ pad4 seq +:+ ".enc".

Definition indexPending (name : string) (idx : PackIndex) (e : pendingEntry) : PackIndex :=
  <[peHash e := mkLocation name (peOffset e) (peLength e)]> idx.

(** [putOk] says which writes succeed. *)
Definition packFlush (putOk : string -> bool) (pw : PackWriter) (idx : PackIndex) (objs : Objects)
  : PackWriter * PackIndex * Objects * result Failure unit :=
  if slen (pwBuf pw) =? 0 then (pw, idx, objs, Ok tt)
  else
    let seq := pwSeq pw + 1 in
    let name := packName seq in
    if negb (putOk name) then (mkPackWriter (pwBuf pw) (pwEntries pw) seq, idx, objs, Err (Failed "writing pack"))
    else (mkPackWriter "" [] seq, foldl (indexPending name) idx (pwEntries pw), <[name := pwBuf pw]> objs, Ok tt).

Definition packAdd (putOk : string -> bool) (chunkHash encryptedData : string) (pw : PackWriter) (idx : PackIndex) (objs : Objects)
  : PackWriter * PackIndex * Objects * result Failure bool :=
  if PackChunkThreshold <? slen encryptedData then (pw, idx, objs, Ok false)
  else
    let pw := mkPackWriter (pwBuf pw +:+ encryptedData)
      (pwEntries pw ++ [mkPending chunkHash (slen (pwBuf pw)) (slen encryptedData)]) (pwSeq pw) in
    if PackTargetSize <=? slen (pwBuf pw) then
      match packFlush putOk pw idx objs with
      | (pw, idx, objs, Err e) => (pw, idx, objs, Err e)
      | (pw, idx, objs, Ok _) => (pw, idx, objs, Ok true)
      end
    else (pw, idx, objs, Ok true).

(** ** The state *)

Record PutResult := mkPutResult { prChunks : list string; prChecksum : string; prSize : Z }.

(** The key pair and the address of the device. *)
Record Ident := mkIdent { idAddress : string; idPublic : string; idPrivate : string }.

Record Store := mkStore {
  stNamespace : string;
  stNSID : string;
  stKeys : gmap string string;               (** namespace keys in memory *)
  stPacking : bool;
  stPackIndex : PackIndex;
  stPackWriter : PackWriter;
  stLastPut : option PutResult
}.

(** The backend's objects, the key files and identifier files by name, and the
    blobs of the cache by path. *)
Record World := mkWorld { wObjs : Objects; wKeyFiles : gmap string string; wNSIDs : gmap string string; wBlobs : gmap string string }.

Record Sys := mkSys { sysStore : Store; sysWorld : World }.

(** Whether there is a backend; which of its calls and which file operations
    succeed, by key and by path; the device registry ([None]: it cannot be
    listed); and the draws: a fresh key, the ephemeral scalar and the nonce of a
    wrapping, the nonces of the chunks of one [Put] and of the other blobs. *)
Record Env := mkEnv {
  enIdent : Ident;
  enBackend : bool;
  enHeadOk : string -> bool;
  enGetOk : string -> bool;
  enPutOk : string -> bool;
  enReadOk : string -> bool;
  enWriteOk : string -> bool;
  enObjectsDir : string;
  enDevices : option (list string);
  enLower : string -> string;
  enNewKey : string;
  enWrap : string -> string * string;
  enNonce : nat -> string;
  enOther : string -> string
}.

Definition setObjs (o : Objects) (w : World) : World := mkWorld o (wKeyFiles w) (wNSIDs w) (wBlobs w).
Definition setKeyFiles (k : gmap string string) (w : World) : World := mkWorld (wObjs w) k (wNSIDs w) (wBlobs w).
Definition setNSIDs (n : gmap string string) (w : World) : World := mkWorld (wObjs w) (wKeyFiles w) n (wBlobs w).
Definition setBlobs (b : gmap string string) (w : World) : World := mkWorld (wObjs w) (wKeyFiles w) (wNSIDs w) b.
Definition setKeys (k : gmap string string) (s : Store) : Store :=
  mkStore (stNamespace s) (stNSID s) k (stPacking s) (stPackIndex s) (stPackWriter s) (stLastPut s).
Definition setPacks (idx : PackIndex) (pw : PackWriter) (s : Store) : Store :=
  mkStore (stNamespace s) (stNSID s) (stKeys s) (stPacking s) idx pw (stLastPut s).
Definition setLastPut (p : PutResult) (s : Store) : Store :=
  mkStore (stNamespace s) (stNSID s) (stKeys s) (stPacking s) (stPackIndex s) (stPackWriter s) (Some p).

(** [New]: a store without backend is given a nil one. *)
Definition NewStore : Store := mkStore "" "" ∅ false ∅ NewPackWriter None.

(** *** State and errors *)

Definition M (A : Type) : Type := Sys -> Sys * result Failure A.
Definition ret {A} (x : A) : M A := fun s => (s, Ok x).
Definition fail {A} (e : Failure) : M A := fun s => (s, Err e).
Definition bind {A B} (m : M A) (f : A -> M B) : M B :=
  fun s => match m s with (s, Ok x) => f x s | (s, Err e) => (s, Err e) end.
Definition gets {A} (f : Sys -> A) : M A := fun s => (s, Ok (f s)).
Definition onWorld (f : World -> World) : M unit := fun s => (mkSys (sysStore s) (f (sysWorld s)), Ok tt).
Definition onStore (f : Store -> Store) : M unit := fun s => (mkSys (f (sysStore s)) (sysWorld s), Ok tt).
Definition lift {A} (r : result Failure A) : M A := match r with Ok x => ret x | Err e => fail e end.
(** An error that the caller drops. *)
Definition ignore {A} (m : M A) : M unit := fun s => ((m s).1, match (m s).2 with Err Panicked => Err Panicked | _ => Ok tt end).

Declare Scope store_scope.
Delimit Scope store_scope with store.
Notation "x <- m ;; k" := (bind m (fun x => k)) (at level 60, m at level 50, right associativity) : store_scope.
Notation "m ;;; k" := (bind m (fun _ => k)) (at level 60, right associativity) : store_scope.
#[local] Open Scope store_scope.

(** *** The backend *)

Definition backendPut (env : Env) (key data e : string) : M unit :=
  if enPutOk env key then onWorld (fun w => setObjs (<[key := data]> (wObjs w)) w) else fail (Failed e).

(** [Ok None]: [ErrNotFound]. *)
Definition backendGet (env : Env) (key e : string) : M (option string) :=
  if enGetOk env key then gets (fun s => wObjs (sysWorld s) !! key) else fail (Failed e).

(** ** Namespace keys (skyfs.go) *)

Definition nsKeyName (namespace : string) : string := "fs:" +:+ namespace.
Definition nsKeyPath (name : string) : string := "keys/namespaces/" +:+ name +:+ ".ns.enc".
Definition deviceKeyPath (name address : string) : string := "keys/namespaces/" +:+ name +:+ "." +:+ Join.shortPubkeyID address +:+ ".ns.enc".

Section Store.
Context `{CL : CryptoLib} `{KL : ChunkLib}.

Definition cacheNamespaceKey (env : Env) (namespace key : string) : M unit :=
  onWorld (fun w => if enWriteOk env (nsKeyName namespace) then setKeyFiles (<[nsKeyName namespace := key]> (wKeyFiles w)) w else w).

(** A cached key of another size is an error like a missing one. *)
Definition loadCachedNamespaceKey (env : Env) (namespace : string) : M (option string) :=
  gets (fun s => if enReadOk env (nsKeyName namespace) then
                   match wKeyFiles (sysWorld s) !! nsKeyName namespace with
                   | Some k => if slen k =? 32 then Some k else None
                   | None => None
                   end
                 else None).

Definition rememberKey (namespace key : string) : M unit := onStore (fun st => setKeys (<[namespace := key]> (stKeys st)) st).

Definition wrap (env : Env) (key pub : string) : result string string :=
  let '(ephemeral, nonce) := enWrap env pub in WrapKey ephemeral nonce key pub.

(** Every failure is skipped. *)
Fixpoint wrapEach (env : Env) (name nsKey : string) (devices : list string) : M unit :=
  match devices with
  | [] => ret tt
  | d :: rest =>
      (if bool_decide (d = idAddress (enIdent env)) then ret tt
       else match ParseAddress (enLower env) d with
       | Err _ => ret tt
       | Ok pub =>
           match wrap env nsKey (string_of_bytes pub) with
           | Err _ => ret tt
           | Ok wrapped => ignore (backendPut env (deviceKeyPath name d) wrapped "")
           end
       end) ;;;
      wrapEach env name nsKey rest
  end.

Definition wrapKeyForAllDevices (env : Env) (name nsKey : string) : M unit :=
  match enDevices env with None => ret tt | Some l => wrapEach env name nsKey l end.

(** The keys in the backend, the one for this device first; [inl key] is the
    first that opens, [inr keyExists] says whether there was one. *)
Fixpoint findKey (env : Env) (paths : list string) (keyExists : bool) : M (string + bool) :=
  match paths with
  | [] => ret (inr keyExists)
  | p :: rest =>
      r <- backendGet env p "loading namespace key" ;;
      match r with
      | None => findKey env rest keyExists
      | Some wrapped =>
          match UnwrapKey wrapped (idPrivate (enIdent env)) with
          | Ok key => ret (inl key)
          | Err _ => findKey env rest true
          end
      end
  end.

Definition createNamespaceKey (env : Env) (namespace : string) : M string :=
  let nsKey := enNewKey env in
  match wrap env nsKey (idPublic (enIdent env)) with
  | Err _ => fail (Failed "wrapping namespace key")
  | Ok wrapped =>
      backendPut env (nsKeyPath (nsKeyName namespace)) wrapped "storing namespace key" ;;;
      wrapKeyForAllDevices env (nsKeyName namespace) nsKey ;;;
      rememberKey namespace nsKey ;;;
      cacheNamespaceKey env namespace nsKey ;;;
      ret nsKey
  end.

(** The key of the cache goes back to the backend. *)
Definition reuploadKey (env : Env) (namespace key : string) : M unit :=
  match wrap env key (idPublic (enIdent env)) with
  | Err _ => ret tt
  | Ok wrapped =>
      ignore (backendPut env (nsKeyPath (nsKeyName namespace)) wrapped "") ;;;
      wrapKeyForAllDevices env (nsKeyName namespace) key
  end.

(** The first part of [getOrCreateNamespaceKey]: [None] if a key is to be created. *)
Definition knownNamespaceKey (env : Env) (namespace : string) : M (option string) :=
  known <- gets (fun s => stKeys (sysStore s) !! namespace) ;;
  match known with
  | Some key => ret (Some key)
  | None =>
      cached <- loadCachedNamespaceKey env namespace ;;
      if negb (enBackend env) then
        match cached with
        | Some key => rememberKey namespace key ;;; ret (Some key)
        | None => ret None
        end
      else
        found <- findKey env [deviceKeyPath (nsKeyName namespace) (idAddress (enIdent env)); nsKeyPath (nsKeyName namespace)] false ;;
        match found, cached with
        | inl key, _ => rememberKey namespace key ;;; cacheNamespaceKey env namespace key ;;; ret (Some key)
        | inr true, Some key => rememberKey namespace key ;;; ret (Some key)
        | inr true, None => fail (Failed "access denied")
        | inr false, Some key => reuploadKey env namespace key ;;; rememberKey namespace key ;;; ret (Some key)
        | inr false, None => ret None
        end
  end.

Definition newNamespaceKey (env : Env) (namespace : string) : M string :=
  if enBackend env then createNamespaceKey env namespace
  else rememberKey namespace (enNewKey env) ;;; cacheNamespaceKey env namespace (enNewKey env) ;;; ret (enNewKey env).

Definition getOrCreateNamespaceKey (env : Env) (namespace : string) : M string :=
  known <- knownNamespaceKey env namespace ;;
  match known with Some key => ret key | None => newNamespaceKey env namespace end.

(** ** Namespace identifiers (nsid.go) *)

Definition metaKeyPath (name : string) : string := "keys/namespaces/" +:+ name +:+ ".meta.enc".

(** The JSON of [nsidMeta]. *)
Context (metaJSON : string -> string -> string).

(** The file for discovery is written when it is certainly missing. *)
Definition resolveNSID (env : Env) (nsName nsKey : string) : M string :=
  let nsID := deriveNSID nsKey nsName in
  if negb (enBackend env) then ret nsID
  else
    let metaKey := metaKeyPath (nsKeyName nsName) in
    missing <- gets (fun s => enHeadOk env metaKey && bool_decide (wObjs (sysWorld s) !! metaKey = None)) ;;
    (if missing then
       match Encrypt (enOther env metaKey) (metaJSON nsID nsName) nsKey with
       | Err _ => ret tt
       | Ok encrypted => ignore (backendPut env metaKey encrypted "")
       end
     else ret tt) ;;;
    ret nsID.

Definition resolveNamespaceState (env : Env) (namespace : string) : M (string * string) :=
  nsKey <- getOrCreateNamespaceKey env namespace ;;
  store <- gets sysStore ;;
  if bool_decide (stNSID store <> "") && (bool_decide (stNamespace store = "") || bool_decide (stNamespace store = namespace)) then
    ret (stNSID store, nsKey)
  else
    cached <- gets (fun s => if enReadOk env (nsKeyName namespace) then default "" (wNSIDs (sysWorld s) !! nsKeyName namespace) else "") ;;
    if bool_decide (cached <> "") then ret (cached, nsKey)
    else
      nsID <- resolveNSID env namespace nsKey ;;
      onWorld (fun w => if enWriteOk env (nsKeyName namespace) then setNSIDs (<[nsKeyName namespace := nsID]> (wNSIDs w)) w else w) ;;;
      ret (nsID, nsKey).

(** ** [Put] (skyfs.go) *)

Definition namespaceFor (s : Store) (path : string) : string :=
  if bool_decide (stNamespace s <> "") then stNamespace s else NamespaceFromPath path.

(** The pieces the chunker cuts from a reader, and the error that ends them. *)
Record Reader := mkReader { rdPieces : list string; rdErr : option string }.

(** A reader of [data] that does not fail. *)
Definition reads (data : string) : Reader := mkReader (cdcSplit data) None.

Definition packChunk (env : Env) (hash blob : string) : M bool := fun s =>
  let st := sysStore s in
  match packAdd (enPutOk env) hash blob (stPackWriter st) (stPackIndex st) (wObjs (sysWorld s)) with
  | (pw, idx, objs, r) => (mkSys (setPacks idx pw st) (setObjs objs (sysWorld s)), r)
  end.

Definition uploadBlob (env : Env) (key hash blob : string) : M unit :=
  packing <- gets (fun s => stPacking (sysStore s)) ;;
  if packing then
    packed <- packChunk env hash blob ;;
    if packed then ret tt else backendPut env key blob "uploading chunk"
  else backendPut env key blob "uploading chunk".

Definition writeLocalBlob (env : Env) (path blob : string) : M unit :=
  if enWriteOk env path then onWorld (fun w => setBlobs (<[path := blob]> (wBlobs w)) w) else fail (Failed "caching chunk").

(** One turn of the loop of [Put]. *)
Definition putChunk (env : Env) (nsID nsKey : string) (i : nat) (data : string) : M unit :=
  let hash := ContentHash data in
  _ <- lift (match DeriveFileKey nsKey hash with Ok k => Ok k | Err e => Err (Failed e) end) ;;
  let path := localBlobPath (enObjectsDir env) nsID hash in
  cacheExists <- gets (fun s => enReadOk env path && bool_decide (is_Some (wBlobs (sysWorld s) !! path))) ;;
  storeNSID <- gets (fun s => stNSID (sysStore s)) ;;
  if negb (enBackend env) then
    if cacheExists then ret tt
    else
      blob <- lift (encodeChunkBlob (enNonce env i) hash nsKey data) ;;
      writeLocalBlob env path blob
  else
    match blobKeyFor storeNSID hash with
    | None => fail Panicked
    | Some key =>
        if negb (enHeadOk env key) then fail (failHash hash "checking chunk")
        else
          remoteExists <- gets (fun s => bool_decide (is_Some (wObjs (sysWorld s) !! key))) ;;
          if remoteExists && cacheExists then ret tt
          else
            blob <- lift (encodeChunkBlob (enNonce env i) hash nsKey data) ;;
            (if cacheExists then ret tt else writeLocalBlob env path blob) ;;;
            (if remoteExists then ret tt else uploadBlob env key hash blob)
    end.

(** The hashes and the size of what was put. *)
Fixpoint putPieces (env : Env) (nsID nsKey : string) (i : nat) (pieces : list string) : M (list string * Z) :=
  match pieces with
  | [] => ret ([], 0)
  | "" :: _ => ret ([], 0)
  | d :: rest =>
      putChunk env nsID nsKey i d ;;;
      r <- putPieces env nsID nsKey (S i) rest ;;
      ret (ContentHash d :: r.1, slen d + r.2)
  end.

Definition Put (env : Env) (path : string) (r : Reader) : M unit :=
  match NormalizeLogicalPath path with
  | Err _ => fail (Failed "invalid path")
  | Ok path =>
      store <- gets sysStore ;;
      ns <- resolveNamespaceState env (namespaceFor store path) ;;
      put <- putPieces env ns.1 ns.2 0 (rdPieces r) ;;
      match rdErr r with
      | Some e => fail (Failed "chunking")
      | None => onStore (setLastPut (mkPutResult put.1 (ContentHash (foldr (fun c acc => c +:+ acc) "" (rdPieces r))) put.2))
      end
  end.

(** ** Sessions with packs (skyfs.go, pack.go) *)

(** The JSON of a pack index. *)
Context (packJSON : PackIndex -> string) (packParse : string -> option PackIndex).

Definition LoadPackIndex (env : Env) (encKey : string) : M PackIndex :=
  r <- backendGet env packIndexKey "downloading pack index" ;;
  match r with
  | None => ret ∅
  | Some encrypted =>
      match Decrypt encrypted encKey with
      | Err _ => fail (Failed "decrypting pack index")
      | Ok data => match packParse data with None => fail (Failed "parsing pack index") | Some idx => ret idx end
      end
  end.

Definition SavePackIndex (env : Env) (idx : PackIndex) (encKey : string) : M unit :=
  match Encrypt (enOther env packIndexKey) (packJSON idx) encKey with
  | Err _ => fail (Failed "encrypting pack index")
  | Ok encrypted => backendPut env packIndexKey encrypted "saving pack index"
  end.

Definition opsKey (env : Env) : M string := getOrCreateNamespaceKey env "default".

Definition LoadPackState (env : Env) : M unit :=
  encKey <- opsKey env ;;
  idx <- LoadPackIndex env encKey ;;
  onStore (setPacks idx NewPackWriter).

Definition EnablePacking (env : Env) : M unit :=
  LoadPackState env ;;;
  onStore (fun s => mkStore (stNamespace s) (stNSID s) (stKeys s) true (stPackIndex s) (stPackWriter s) (stLastPut s)).

Definition flushPacks (env : Env) : M unit := fun s =>
  let st := sysStore s in
  match packFlush (enPutOk env) (stPackWriter st) (stPackIndex st) (wObjs (sysWorld s)) with
  | (pw, idx, objs, r) => (mkSys (setPacks idx pw st) (setObjs objs (sysWorld s)), r)
  end.

Definition Close (env : Env) : M unit :=
  flushPacks env ;;;
  idx <- gets (fun s => stPackIndex (sysStore s)) ;;
  if bool_decide (idx = ∅) then ret tt
  else encKey <- opsKey env ;; SavePackIndex env idx encKey.

End Store.

(** ** What operations keep *)

(** Whatever [m] returns, the states are related. *)
Definition keeps (R : Sys -> Sys -> Prop) {A} (m : M A) : Prop := forall s, R s (m s).1.

Lemma st_keeps_ret (R : Sys -> Sys -> Prop) `{!PreOrder R} {A} (x : A) : keeps R (ret x).
Proof. intros s. simpl. reflexivity. Qed.

Lemma st_keeps_fail (R : Sys -> Sys -> Prop) `{!PreOrder R} {A} e : keeps R (fail (A := A) e).
Proof. intros s. simpl. reflexivity. Qed.

Lemma st_keeps_gets (R : Sys -> Sys -> Prop) `{!PreOrder R} {A} (f : Sys -> A) : keeps R (gets f).
Proof. intros s. simpl. reflexivity. Qed.

Lemma st_keeps_lift (R : Sys -> Sys -> Prop) `{!PreOrder R} {A} (r : result Failure A) : keeps R (lift r).
Proof. intros s. by destruct r. Qed.

Lemma st_keeps_bind (R : Sys -> Sys -> Prop) `{!PreOrder R} {A B} (m : M A) (f : A -> M B) : keeps R m -> (forall x, keeps R (f x)) -> keeps R (bind m f).
Proof.
  intros Hm Hf s. unfold bind. specialize (Hm s). destruct (m s) as [s' [x|e]]; [|done]. simpl in Hm. etrans; [exact Hm|apply Hf].
Qed.

(** The continuation may use what [gets] read. *)
Lemma keeps_gets_bind (R : Sys -> Sys -> Prop) `{!PreOrder R} {A B} (g : Sys -> A) (f : A -> M B) : (forall s, R s (f (g s) s).1) -> keeps R (bind (gets g) f).
Proof. intros H s. apply H. Qed.

Lemma st_keeps_ignore (R : Sys -> Sys -> Prop) `{!PreOrder R} {A} (m : M A) : keeps R m -> keeps R (ignore m).
Proof. intros H s. apply H. Qed.

Lemma st_keeps_if (R : Sys -> Sys -> Prop) `{!PreOrder R} {A} (b : bool) (m n : M A) : keeps R m -> keeps R n -> keeps R (if b then m else n).
Proof. by destruct b. Qed.

#[export] Hint Resolve st_keeps_ret st_keeps_fail st_keeps_gets st_keeps_lift st_keeps_ignore st_keeps_if : keeps.

(** Walks through a computation; what writes is left to [leaf]. *)
Ltac keep_leaves leaf :=
  repeat lazymatch goal with
  | |- keeps _ (bind _ _) => apply st_keeps_bind; [apply _| |intros ?]
  | |- keeps _ (ret _) => apply st_keeps_ret; apply _
  | |- keeps _ (fail _) => apply st_keeps_fail; apply _
  | |- keeps _ (gets _) => apply st_keeps_gets; apply _
  | |- keeps _ (lift _) => apply st_keeps_lift; apply _
  | |- keeps _ (ignore _) => apply st_keeps_ignore
  | |- keeps _ (if _ then _ else _) => apply st_keeps_if
  | |- keeps _ (match ?x with _ => _ end) => destruct x
  | |- PreOrder _ => apply _
  | |- keeps _ _ => leaf
  end.

Lemma bind_ok {A B} (m : M A) (f : A -> M B) s s' y :
  bind m f s = (s', Ok y) -> exists s1 x, m s = (s1, Ok x) /\ f x s1 = (s', Ok y).
Proof. unfold bind. destruct (m s) as [s1 [x|e]]; [by exists s1, x|done]. Qed.

(** *** Which key a namespace gets *)

Section Keys.
Context `{CL : CryptoLib}.

Definition same_store (s s' : Sys) : Prop := sysStore s' = sysStore s.

#[export] Instance same_store_pre : PreOrder same_store.
Proof. split; [by intros s|]. unfold same_store. intros s1 s2 s3 H1 H2. congruence. Qed.

Lemma wrapEach_store env name key l : keeps same_store (wrapEach env name key l).
Proof.
  induction l as [|d l IH]; cbn [wrapEach]; keep_leaves ltac:(first [exact IH|intros ?; unfold backendPut; repeat case_match; reflexivity]).
Qed.

Lemma newNamespaceKey_ok env ns s s' k :
  newNamespaceKey env ns s = (s', Ok k) -> k = enNewKey env /\ stKeys (sysStore s') !! ns = Some k.
Proof.
  assert (forall s2, sysStore (cacheNamespaceKey env ns (enNewKey env) s2).1 = sysStore s2) as Hc by done.
  unfold newNamespaceKey. destruct (enBackend env).
  - unfold createNamespaceKey. destruct (wrap _ _ _); [|done]. intros H. do 2 (apply bind_ok in H as (? & ? & _ & H)).
    apply bind_ok in H as (s2 & ? & H2 & H). injection H2 as <- _. apply bind_ok in H as (s3 & ? & H3 & H). injection H3 as <- _.
    injection H as <- <-. simpl. by rewrite lookup_insert_eq.
  - intros H. apply bind_ok in H as (s2 & ? & H2 & H). injection H2 as <- _. apply bind_ok in H as (s3 & ? & H3 & H). injection H3 as <- _.
    injection H as <- <-. simpl. by rewrite lookup_insert_eq.
Qed.

Lemma remembered ns k {A} (x : A) s s' y : (rememberKey ns k ;;; ret x) s = (s', Ok y) -> stKeys (sysStore s') !! ns = Some k /\ y = x.
Proof. intros [= <- <-]. simpl. by rewrite lookup_insert_eq. Qed.

Lemma knownNamespaceKey_ok env ns s s' k :
  knownNamespaceKey env ns s = (s', Ok (Some k)) -> stKeys (sysStore s') !! ns = Some k.
Proof.
  unfold knownNamespaceKey. unfold bind at 1. cbn [gets]. destruct (stKeys (sysStore s) !! ns) as [key|] eqn:E; [by intros [= <- <-]|].
  intros H. apply bind_ok in H as (s1 & cached & _ & H). destruct (negb _).
  - destruct cached; [|done]. by apply remembered in H as [? [= ->]].
  - apply bind_ok in H as (s2 & found & _ & H). destruct found as [key|[]].
    + apply bind_ok in H as (s3 & ? & H3 & H). injection H3 as <- _. injection H as <- <-. simpl. by rewrite lookup_insert_eq.
    + destruct cached; [|done]. by apply remembered in H as [? [= ->]].
    + destruct cached; [|done]. apply bind_ok in H as (s3 & ? & _ & H). by apply remembered in H as [? [= ->]].
Qed.

Lemma getOrCreate_remembered env ns s k : stKeys (sysStore s) !! ns = Some k -> getOrCreateNamespaceKey env ns s = (s, Ok k).
Proof. intros H. unfold getOrCreateNamespaceKey, knownNamespaceKey, bind, gets. by rewrite H. Qed.

(** The key of a namespace, once a call has returned it, is what every
    later call in the process returns.  But two calls that look for the key before
    either has made one make one each: both are returned and used, and only the
    second is kept.  The comment of the code says that goroutines that race here
    all compute the same key. *)
Theorem fs_namespace_key_race ns :
  (forall env env' s s' k, getOrCreateNamespaceKey env ns s = (s', Ok k) -> getOrCreateNamespaceKey env' ns s' = (s', Ok k)) /\
  (forall env1 env2 s s1 s2 s3 s4 k1 k2,
     knownNamespaceKey env1 ns s = (s1, Ok None) -> knownNamespaceKey env2 ns s1 = (s2, Ok None) ->
     newNamespaceKey env1 ns s2 = (s3, Ok k1) -> newNamespaceKey env2 ns s3 = (s4, Ok k2) ->
     k1 = enNewKey env1 /\ k2 = enNewKey env2 /\ getOrCreateNamespaceKey env1 ns s4 = (s4, Ok k2)).
Proof.
  split.
  - intros env env' s s' k H. apply getOrCreate_remembered. apply bind_ok in H as (s1 & [key|] & H1 & H).
    + injection H as <- <-. by eapply knownNamespaceKey_ok.
    + by apply newNamespaceKey_ok in H as [_ ?].
  - intros env1 env2 s s1 s2 s3 s4 k1 k2 _ _ H3 H4. apply newNamespaceKey_ok in H3 as [-> _]. apply newNamespaceKey_ok in H4 as [-> H4].
    split_and!; [done|done|]. by apply getOrCreate_remembered.
Qed.

End Keys.

(** *** The keys of blobs *)

Definition first_char (P : ascii -> Prop) (s : string) : Prop := match s with EmptyString => False | String c _ => P c end.
Definition blob_head (key : string) : Prop := first_char (fun c => c = "f"%char \/ c = "b"%char) key.

Lemma blobKeyFor_head nsid hash key : blobKeyFor nsid hash = Some key -> blob_head key.
Proof.
  unfold blobKeyFor, namespacedBlobKey, BlobKey. destruct (shards hash) as [[a b]|]; case_bool_decide; intros [= <-]; unfold blob_head; simpl; tauto.
Qed.

Lemma shards_some hash a b : shards hash = Some (a, b) -> String.length a = 2%nat /\ String.length b = 2%nat.
Proof.
  unfold shards, slen. destruct (_ <? 4) eqn:E; [done|]. apply Z.ltb_ge in E.
  do 4 (destruct hash as [|? hash]; [simpl in E; lia|]). by intros [= <- <-].
Qed.

Lemma app_same_length a b t u : String.length a = String.length b -> a +:+ t = b +:+ u -> a = b /\ t = u.
Proof.
  revert b. induction a as [|c a IH]; intros [|d b] Hl; simpl in Hl; try lia.
  - rewrite !str_app_nil_l. done.
  - rewrite !str_app_cons. intros [= -> E]. destruct (IH b ltac:(lia) E) as [-> ->]. done.
Qed.

Lemma app_inj_r a b t : a +:+ t = b +:+ t -> a = b.
Proof.
  intros E. apply (app_same_length a b t t); [|done]. apply (f_equal String.length) in E. rewrite !str_length_app in E. lia.
Qed.

Lemma blobKeyFor_inj nsid h1 h2 key : blobKeyFor nsid h1 = Some key -> blobKeyFor nsid h2 = Some key -> h1 = h2.
Proof.
  unfold blobKeyFor, namespacedBlobKey, BlobKey. destruct (shards h1) as [[a1 b1]|] eqn:E1; [|by case_bool_decide].
  destruct (shards h2) as [[a2 b2]|] eqn:E2; [|by case_bool_decide]. apply shards_some in E1 as [Ha1 Hb1]. apply shards_some in E2 as [Ha2 Hb2].
  assert (forall p, p +:+ (a1 +:+ ("/" +:+ (b1 +:+ ("/" +:+ (h1 +:+ ".enc"))))) = p +:+ (a2 +:+ ("/" +:+ (b2 +:+ ("/" +:+ (h2 +:+ ".enc"))))) -> h1 = h2) as H.
  { intros p E. apply str_app_inj_l in E. apply app_same_length in E as [_ E]; [|lia]. apply str_app_inj_l in E. apply app_same_length in E as [_ E]; [|lia].
    apply str_app_inj_l in E. by apply app_inj_r in E. }
  cbn [mbind option_bind]. case_bool_decide; intros K1 K2; (assert (Some_inj : forall x y : string, Some x = Some y -> x = y) by (by intros ?? [=])).
  - apply (H ("fs/" +:+ nsid +:+ "/blobs/")). rewrite !str_app_assoc. apply Some_inj. by rewrite K1, <- K2.
  - apply (H "blobs/"). apply Some_inj. by rewrite K1, <- K2.
Qed.

Section Blobs.
Context `{CL : CryptoLib} `{KL : ChunkLib}.
Context (metaJSON : string -> string -> string).

(** The chunk's name is taken by a blob that does not open under the key: one that
    was sealed under another key, or is damaged. *)
Definition taken (nsid nsKey : string) (objs : Objects) (hash : string) : Prop :=
  exists key b, blobKeyFor nsid hash = Some key /\ objs !! key = Some b /\ forall d, decodeChunkBlob hash nsKey b <> Ok d.

(** No blob is replaced or removed. *)
Definition keeps_blobs (s s' : Sys) : Prop :=
  forall key b, blob_head key -> wObjs (sysWorld s) !! key = Some b -> wObjs (sysWorld s') !! key = Some b.

(** Blobs are only added, and the added ones open. *)
Definition adds_blobs (nsid nsKey : string) (s s' : Sys) : Prop :=
  forall key, blob_head key ->
    match wObjs (sysWorld s) !! key with
    | Some b => wObjs (sysWorld s') !! key = Some b
    | None => forall hash b, blobKeyFor nsid hash = Some key -> wObjs (sysWorld s') !! key = Some b -> exists d, decodeChunkBlob hash nsKey b = Ok d
    end.

#[export] Instance adds_blobs_pre nsid nsKey : PreOrder (adds_blobs nsid nsKey).
Proof.
  split.
  - intros s key _. destruct (wObjs (sysWorld s) !! key) eqn:E; [done|]. congruence.
  - intros s1 s2 s3 H1 H2 key Hk. specialize (H1 key Hk). specialize (H2 key Hk). destruct (wObjs (sysWorld s1) !! key) as [b|]; [by rewrite H1 in H2|].
    intros hash b Hh Hb. destruct (wObjs (sysWorld s2) !! key) as [b2|] eqn:E; [|by eapply H2]. rewrite H2 in Hb. injection Hb as ->. by eapply H1.
Qed.

Lemma adds_blobs_keeps nsid nsKey s s' : adds_blobs nsid nsKey s s' -> keeps_blobs s s'.
Proof. intros H key b Hk Hb. specialize (H key Hk). by rewrite Hb in H. Qed.

(** Writes that leave the blobs alone. *)
Lemma adds_same_objs nsid nsKey s s' : wObjs (sysWorld s') = wObjs (sysWorld s) -> adds_blobs nsid nsKey s s'.
Proof. intros E key _. rewrite E. destruct (wObjs (sysWorld s) !! key) eqn:E'; [done|]. congruence. Qed.

Lemma adds_other_key nsid nsKey env key data e : ~ blob_head key -> keeps (adds_blobs nsid nsKey) (backendPut env key data e).
Proof.
  intros Hk s. unfold backendPut. destruct (enPutOk env key); [|simpl; reflexivity]. intros k Hb. simpl.
  rewrite lookup_insert_ne by (by intros ->). destruct (wObjs (sysWorld s) !! k) eqn:E; [done|]. congruence.
Qed.

Lemma adds_onStore nsid nsKey f : keeps (adds_blobs nsid nsKey) (onStore f).
Proof. intros s. by apply adds_same_objs. Qed.

Lemma keys_not_blob rest : ~ blob_head ("keys/namespaces/" +:+ rest).
Proof. intros [H|H]; discriminate. Qed.

Lemma keeps_backendGet nsid nsKey env key e : keeps (adds_blobs nsid nsKey) (backendGet env key e).
Proof. intros s. unfold backendGet. destruct (enGetOk env key); simpl; reflexivity. Qed.

Ltac adds_leaf :=
  first [apply keeps_backendGet | apply adds_onStore | apply adds_other_key, keys_not_blob
        | (intros ?; apply adds_same_objs; simpl; by repeat case_match)].

Lemma wrapEach_adds nsid nsKey env name key l : keeps (adds_blobs nsid nsKey) (wrapEach env name key l).
Proof.
  induction l as [|d l IH]; cbn [wrapEach]; [keep_leaves idtac|].
  keep_leaves ltac:(first [exact IH|adds_leaf]).
Qed.

Lemma findKey_adds nsid nsKey env paths b : keeps (adds_blobs nsid nsKey) (findKey env paths b).
Proof.
  revert b. induction paths as [|p l IH]; intros b; cbn [findKey]; [keep_leaves idtac|]. keep_leaves ltac:(first [apply IH|adds_leaf]).
Qed.

Lemma getOrCreate_adds nsid nsKey env ns : keeps (adds_blobs nsid nsKey) (getOrCreateNamespaceKey env ns).
Proof.
  unfold getOrCreateNamespaceKey, knownNamespaceKey, newNamespaceKey, createNamespaceKey, reuploadKey, wrapKeyForAllDevices, loadCachedNamespaceKey, rememberKey, cacheNamespaceKey.
  keep_leaves ltac:(first [apply wrapEach_adds|apply findKey_adds|adds_leaf]).
Qed.

Lemma resolve_adds nsid nsKey env ns : keeps (adds_blobs nsid nsKey) (resolveNamespaceState metaJSON env ns).
Proof.
  unfold resolveNamespaceState, resolveNSID. keep_leaves ltac:(first [apply getOrCreate_adds|adds_leaf]).
Qed.

(** *** What [Put] leaves *)

Definition setting (s : Sys) : string * bool * string := (stNSID (sysStore s), stPacking (sysStore s), stNamespace (sysStore s)).

Record drawing (env : Env) : Prop := {
  dr_backend : enBackend env = true;
  dr_nonce i : slen (enNonce env i) = NonceSize
}.

(** One chunk: its blob is there afterwards, the one that was there before or a
    new one. *)
Lemma putChunk_ok env nsID nsKey i d s s' :
  drawing env -> slen nsKey = KeySize -> stPacking (sysStore s) = false -> putChunk env nsID nsKey i d s = (s', Ok tt) ->
  sysStore s' = sysStore s /\ adds_blobs (stNSID (sysStore s)) nsKey s s' /\
  exists key, blobKeyFor (stNSID (sysStore s)) (ContentHash d) = Some key /\ is_Some (wObjs (sysWorld s') !! key).
Proof.
  intros [Hb Hn] Hk Hp. unfold putChunk. set (hash := ContentHash d).
  destruct (decode_encode (enNonce env i) nsKey d (Hn i) Hk) as (blob & Henc & Hdec). fold hash in Henc, Hdec.
  intros H. apply bind_ok in H as (s1 & k & H1 & H). destruct (DeriveFileKey nsKey hash); [|done]. injection H1 as <- _.
  unfold gets, bind at 1 2 in H. rewrite Hb in H. cbn [negb] in H. destruct (blobKeyFor (stNSID (sysStore s)) hash) as [key|] eqn:Ekey; [|done].
  destruct (enHeadOk env key); [|done]. cbn [negb] in H. unfold bind at 1 in H.
  set (cacheExists := _ && bool_decide (is_Some (wBlobs (sysWorld s) !! _))) in H.
  case_bool_decide as Hr; cbn [andb] in H.
  - assert (forall s2, sysStore s2 = sysStore s -> wObjs (sysWorld s2) = wObjs (sysWorld s) -> sysStore s2 = sysStore s /\
      adds_blobs (stNSID (sysStore s)) nsKey s s2 /\ exists key0, Some key = Some key0 /\ is_Some (wObjs (sysWorld s2) !! key0)) as Hsame.
    { intros s2 E1 E2. split_and!; [done|by apply adds_same_objs|]. exists key. by rewrite E2. }
    destruct cacheExists; [injection H as <-; by apply Hsame|]. apply bind_ok in H as (s2 & b & H2 & H). rewrite Henc in H2. injection H2 as <- <-.
    apply bind_ok in H as (s3 & u & H3 & H). injection H as <-. unfold writeLocalBlob in H3. destruct (enWriteOk env _); [|done]. injection H3 as <- _. by apply Hsame.
  - assert (wObjs (sysWorld s) !! key = None) as Hnone by (destruct (wObjs (sysWorld s) !! key); [by destruct Hr|done]).
    apply bind_ok in H as (s2 & b & H2 & H). rewrite Henc in H2. injection H2 as <- <-. apply bind_ok in H as (s3 & u & H3 & H).
    assert (sysStore s3 = sysStore s /\ wObjs (sysWorld s3) = wObjs (sysWorld s)) as [E1 E2].
    { destruct cacheExists; [by injection H3 as <- _|]. unfold writeLocalBlob in H3. destruct (enWriteOk env _); [|done]. by injection H3 as <- _. }
    unfold uploadBlob in H. apply bind_ok in H as (s4 & pk & H4 & H). injection H4 as <- <-. rewrite E1, Hp in H. unfold backendPut in H.
    destruct (enPutOk env key); [|done]. injection H as <-. cbn [sysStore sysWorld wObjs setObjs]. split_and!; [done| |exists key; rewrite lookup_insert_eq; by split].
    intros k2 Hk2. simpl. rewrite E2. destruct (decide (key = k2)) as [<-|Hne].
    + rewrite Hnone. intros h b Hh Hb2. rewrite lookup_insert_eq in Hb2. injection Hb2 as <-. rewrite (blobKeyFor_inj _ _ _ _ Hh Ekey). by exists d.
    + rewrite lookup_insert_ne by done. destruct (wObjs (sysWorld s) !! k2) eqn:E; [done|]. congruence.
Qed.

Lemma putPieces_ok env nsID nsKey i l s s' hashes size :
  drawing env -> slen nsKey = KeySize -> stPacking (sysStore s) = false -> Forall (fun d => d <> "") l ->
  putPieces env nsID nsKey i l s = (s', Ok (hashes, size)) ->
  sysStore s' = sysStore s /\ adds_blobs (stNSID (sysStore s)) nsKey s s' /\ hashes = map ContentHash l /\ size = slen (foldr (fun c acc => c +:+ acc) "" l) /\
  Forall (fun h => exists key, blobKeyFor (stNSID (sysStore s)) h = Some key /\ is_Some (wObjs (sysWorld s') !! key)) hashes.
Proof.
  intros Hd Hk. revert i s hashes size. induction l as [|d l IH]; intros i s hashes size Hp Hne H.
  - injection H as <- <- <-. split_and!; [done|reflexivity|done|done|constructor].
  - apply Forall_cons in Hne as [Hd0 Hne]. cbn [putPieces] in H. destruct d as [|c d]; [done|]. set (x := String c d) in *.
    apply bind_ok in H as (s1 & u & H1 & H). destruct u. destruct (putChunk_ok _ _ _ _ _ _ _ Hd Hk Hp H1) as (E1 & A1 & key & Ek & Hkey).
    apply bind_ok in H as (s2 & [hs z] & H2 & H). injection H as <- <- <-.
    rewrite <- E1 in Hp. destruct (IH _ _ _ _ Hp Hne H2) as (E2 & A2 & -> & -> & Hall). rewrite E1 in *. split_and!; [done|by etrans|done| |].
    + cbn [foldr snd]. by rewrite slen_app.
    + cbn [fst map]. constructor; [|done]. exists key. split; [done|]. specialize (A2 key (blobKeyFor_head _ _ _ Ek)). destruct Hkey as [b Hb]. rewrite Hb in A2. by exists b.
Qed.

(** *** The settings stay *)

Definition same_setting (s s' : Sys) : Prop := setting s' = setting s.

#[export] Instance same_setting_pre : PreOrder same_setting.
Proof. split; [by intros s|]. unfold same_setting. intros s1 s2 s3 H1 H2. congruence. Qed.

Ltac setting_leaf :=
  first [(intros ?; unfold backendGet, backendPut, writeLocalBlob; repeat case_match; reflexivity) | (intros ?; reflexivity)].

Lemma wrapEach_setting env name key l : keeps same_setting (wrapEach env name key l).
Proof. induction l as [|d l IH]; cbn [wrapEach]; keep_leaves ltac:(first [exact IH|setting_leaf]). Qed.

Lemma findKey_setting env paths b : keeps same_setting (findKey env paths b).
Proof. revert b. induction paths as [|p l IH]; intros b; cbn [findKey]; keep_leaves ltac:(first [apply IH|setting_leaf]). Qed.

Lemma getOrCreate_setting env ns : keeps same_setting (getOrCreateNamespaceKey env ns).
Proof.
  unfold getOrCreateNamespaceKey, knownNamespaceKey, newNamespaceKey, createNamespaceKey, reuploadKey, wrapKeyForAllDevices, loadCachedNamespaceKey, rememberKey, cacheNamespaceKey.
  keep_leaves ltac:(first [apply wrapEach_setting|apply findKey_setting|setting_leaf]).
Qed.

Lemma resolve_setting env ns : keeps same_setting (resolveNamespaceState metaJSON env ns).
Proof. unfold resolveNamespaceState, resolveNSID. keep_leaves ltac:(first [apply getOrCreate_setting|setting_leaf]). Qed.

(** *** What a [Put] leaves, whether or not it succeeds *)

Definition adds_at (nsid nsKey : string) (s s' : Sys) : Prop :=
  stNSID (sysStore s) = nsid -> stNSID (sysStore s') = nsid /\ adds_blobs nsid nsKey s s'.

#[export] Instance adds_at_pre nsid nsKey : PreOrder (adds_at nsid nsKey).
Proof.
  split; [intros s; split; [done|reflexivity]|]. intros s1 s2 s3 H1 H2 E. destruct (H1 E) as [E1 A1]. destruct (H2 E1) as [E2 A2]. split; [done|by etrans].
Qed.

Lemma adds_at_of nsid nsKey {A} (m : M A) : keeps same_setting m -> keeps (adds_blobs nsid nsKey) m -> keeps (adds_at nsid nsKey) m.
Proof. intros H1 H2 s E. split; [|apply H2]. specialize (H1 s). unfold same_setting, setting in H1. congruence. Qed.

Lemma packName_not_blob seq : ~ blob_head (packName seq).
Proof. intros [H|H]; discriminate. Qed.

Lemma packFlush_objs putOk pw idx objs key : blob_head key -> (packFlush putOk pw idx objs).1.2 !! key = objs !! key.
Proof.
  intros Hk. unfold packFlush. destruct (_ =? 0); [done|]. destruct (negb _); [done|]. cbn [fst snd]. rewrite lookup_insert_ne; [done|].
  intros E. apply (packName_not_blob (pwSeq pw + 1)). by rewrite E.
Qed.

Lemma packAdd_objs putOk hash data pw idx objs key : blob_head key -> (packAdd putOk hash data pw idx objs).1.2 !! key = objs !! key.
Proof.
  intros Hk. unfold packAdd. destruct (_ <? _); [done|]. destruct (_ <=? _); [|done].
  pose proof (packFlush_objs putOk (mkPackWriter (pwBuf pw +:+ data) (pwEntries pw ++ [mkPending hash (slen (pwBuf pw)) (slen data)]) (pwSeq pw)) idx objs key Hk) as H.
  by destruct (packFlush _ _ _ _) as [[[? ?] ?] []].
Qed.

Lemma packChunk_adds nsid nsKey env hash blob : keeps (adds_at nsid nsKey) (packChunk env hash blob).
Proof.
  intros s E. unfold packChunk.
  pose proof (fun key => packAdd_objs (enPutOk env) hash blob (stPackWriter (sysStore s)) (stPackIndex (sysStore s)) (wObjs (sysWorld s)) key) as H.
  destruct (packAdd _ _ _ _ _ _) as [[[pw idx] objs] r]. simpl in *. split; [done|]. intros key Hk. simpl. rewrite (H key Hk).
  destruct (wObjs (sysWorld s) !! key) eqn:E'; [done|]. congruence.
Qed.

Lemma DeriveFileKey_ok nsKey hash : slen nsKey = KeySize -> exists k, DeriveFileKey nsKey hash = Ok k.
Proof. intros E. unfold DeriveFileKey. rewrite E. by eexists. Qed.

Lemma uploadBlob_adds env nsid nsKey key hash blob d s :
  blobKeyFor nsid hash = Some key -> decodeChunkBlob hash nsKey blob = Ok d -> wObjs (sysWorld s) !! key = None ->
  adds_at nsid nsKey s (uploadBlob env key hash blob s).1.
Proof.
  intros Hkey Hd Hnone. assert (forall s2, adds_at nsid nsKey s s2 -> wObjs (sysWorld s2) !! key = None -> adds_at nsid nsKey s (backendPut env key blob "uploading chunk" s2).1) as Hput.
  { intros s2 H E2. unfold backendPut. destruct (enPutOk env key); [|done]. intros E. destruct (H E) as [H1 H2]. split; [done|]. intros k Hk. specialize (H2 k Hk).
    simpl. destruct (decide (key = k)) as [<-|Hne]; [|by rewrite lookup_insert_ne]. rewrite Hnone. intros h b Hh Hb2. rewrite lookup_insert_eq in Hb2.
    injection Hb2 as <-. rewrite (blobKeyFor_inj _ _ _ _ Hh Hkey). by exists d. }
  unfold uploadBlob, bind, gets. destruct (stPacking (sysStore s)); [|apply Hput; [reflexivity|done]].
  pose proof (packChunk_adds nsid nsKey env hash blob s) as Hp.
  assert (wObjs (sysWorld (packChunk env hash blob s).1) !! key = None) as Hn2.
  { unfold packChunk. pose proof (packAdd_objs (enPutOk env) hash blob (stPackWriter (sysStore s)) (stPackIndex (sysStore s)) (wObjs (sysWorld s)) key (blobKeyFor_head _ _ _ Hkey)) as H.
    destruct (packAdd _ _ _ _ _ _) as [[[? ?] ?] ?]. simpl in *. by rewrite H. }
  destruct (packChunk env hash blob s) as [s2 [[]|e]]; [done|by apply Hput|done].
Qed.

Lemma putChunk_adds env nsID nsid nsKey i d : drawing env -> slen nsKey = KeySize -> keeps (adds_at nsid nsKey) (putChunk env nsID nsKey i d).
Proof.
  intros [Hb Hn] Hk s. unfold putChunk. set (hash := ContentHash d). destruct (DeriveFileKey_ok nsKey hash Hk) as [fk ->].
  destruct (decode_encode (enNonce env i) nsKey d (Hn i) Hk) as (blob & Henc & Hdec). fold hash in Henc, Hdec. rewrite Henc, Hb.
  unfold bind, gets, lift, ret, writeLocalBlob, onWorld. cbn [negb]. intros E. destruct (blobKeyFor (stNSID (sysStore s)) hash) as [key|] eqn:Ekey; [|split; [done|simpl; reflexivity]].
  destruct (enHeadOk env key); [|split; [done|simpl; reflexivity]]. cbn [negb]. set (path := localBlobPath _ _ _).
  destruct (bool_decide (is_Some (wObjs (sysWorld s) !! key))) eqn:Hr; cbn [andb].
  - destruct (enReadOk env path && _); cbn; [split; [done|reflexivity]|]. destruct (enWriteOk env path); cbn; (split; [done|by apply adds_same_objs]).
  - apply bool_decide_eq_false in Hr. assert (wObjs (sysWorld s) !! key = None) as Hnone by (destruct (wObjs (sysWorld s) !! key); [by destruct Hr|done]).
    rewrite E in Ekey. destruct (enReadOk env path && _); cbn; [by eapply (uploadBlob_adds _ _ _ _ _ _ _ s)|].
    destruct (enWriteOk env path); cbn; [|split; [done|by apply adds_same_objs]]. set (s1 := mkSys _ _). destruct (uploadBlob_adds env nsid nsKey key hash blob d s1 Ekey Hdec Hnone E) as [E1 A1]. split; [done|]. exact A1.
Qed.

Lemma putPieces_adds env nsID nsid nsKey i l : drawing env -> slen nsKey = KeySize -> keeps (adds_at nsid nsKey) (putPieces env nsID nsKey i l).
Proof.
  intros Hd Hk. revert i. induction l as [|[|c d] l IH]; intros i; cbn [putPieces]; keep_leaves ltac:(first [by apply putChunk_adds|apply IH]).
Qed.

(** A key of a namespace that cannot be used for encryption makes every chunk fail. *)
Lemma putPieces_bad_key env nsID nsid nsKey nsKey' i l : slen nsKey <> KeySize -> keeps (adds_at nsid nsKey') (putPieces env nsID nsKey i l).
Proof.
  intros Hk. destruct l as [|[|c d] l]; cbn [putPieces]; [keep_leaves idtac|keep_leaves idtac|]. intros s. unfold bind at 1, putChunk, DeriveFileKey.
  rewrite (proj2 (Z.eqb_neq _ _) Hk). simpl. reflexivity.
Qed.

(** A [Put] in a namespace only adds blobs that open under the namespace's key,
    whether or not it succeeds. *)
Lemma Put_adds env path r s nsid nsKey :
  drawing env -> slen nsKey = KeySize ->
  (forall p s1 x, NormalizeLogicalPath path = Ok p -> resolveNamespaceState metaJSON env (namespaceFor (sysStore s) p) s = (s1, Ok x) -> x.2 = nsKey) ->
  adds_at nsid nsKey s (Put metaJSON env path r s).1.
Proof.
  intros Hd Hk Hns. unfold Put. destruct (NormalizeLogicalPath path) as [p|]; [|simpl; reflexivity]. unfold bind at 1. cbn [gets].
  pose proof (adds_at_of nsid nsKey _ (resolve_setting env (namespaceFor (sysStore s) p)) (resolve_adds nsid nsKey env (namespaceFor (sysStore s) p)) s) as Hr.
  specialize (Hns p). unfold bind at 1. destruct (resolveNamespaceState _ _ _ _) as [s1 [x|e]]; [|done]. specialize (Hns s1 x eq_refl eq_refl) as ->.
  simpl in Hr. etrans; [exact Hr|]. generalize s1. clear -Hd Hk. intros s1. revert s1.
  apply st_keeps_bind; [apply _|by apply putPieces_adds|]. intros put. destruct (rdErr r); keep_leaves idtac. intros s. split; [done|]. by apply adds_same_objs.
Qed.

(** No [Put], of whatever device and in whatever namespace, replaces or removes a
    blob. *)
Lemma Put_keeps env path r s : drawing env -> keeps_blobs s (Put metaJSON env path r s).1.
Proof.
  intros Hd. destruct (NormalizeLogicalPath path) as [p|] eqn:Ep; [|unfold Put; rewrite Ep; by intros key b _ Hb].
  destruct (resolveNamespaceState metaJSON env (namespaceFor (sysStore s) p) s) as [s1 [[nsID k]|e]] eqn:Er.
  - destruct (decide (slen k = KeySize)) as [Hk|Hk].
    + apply (adds_blobs_keeps (stNSID (sysStore s)) k). apply Put_adds; [done|done| |done].
      intros p' s2 x Hp Hx. assert (p' = p) as -> by congruence. rewrite Er in Hx. by injection Hx as _ <-.
    + unfold Put. rewrite Ep. unfold bind at 1. cbn [gets]. unfold bind at 1. rewrite Er. cbn [fst snd].
      pose proof (resolve_adds "" "" env (namespaceFor (sysStore s) p) s) as Hr. rewrite Er in Hr. apply adds_blobs_keeps in Hr.
      assert (forall nsid, keeps (adds_at nsid "") (bind (putPieces env nsID k 0 (rdPieces r)) (fun put =>
        match rdErr r with Some _ => fail (Failed "chunking")
        | None => onStore (setLastPut (mkPutResult put.1 (ContentHash (foldr (fun c acc => c +:+ acc) "" (rdPieces r))) put.2)) end))) as Hrest.
      { intros nsid. apply st_keeps_bind; [apply _|by apply putPieces_bad_key|]. intros put. destruct (rdErr r); keep_leaves idtac. intros s3. split; [done|]. by apply adds_same_objs. }
      intros key b Hkey Hb. eapply adds_blobs_keeps; [apply (Hrest (stNSID (sysStore s1)) s1 eq_refl)|done|]. by apply Hr.
  - unfold Put. rewrite Ep. unfold bind at 1. cbn [gets]. unfold bind at 1. rewrite Er. cbn [fst].
    pose proof (resolve_adds "" "" env (namespaceFor (sysStore s) p) s) as Hr. rewrite Er in Hr. by apply adds_blobs_keeps in Hr.
Qed.

End Blobs.

Section Served.
Context `{CL : CryptoLib} `{KL : ChunkLib}.

(** A reader whose backend holds the objects, without packs; it may have peers and
    any cache. *)
Record serves (fe : FetchEnv) (nsid : string) (objs : Objects) : Prop := {
  sv_nsid : feStoreNSID fe = nsid;
  sv_get : exists get, feGet fe = Some get /\ forall key b, objs !! key = Some b -> get key = Ok b;
  sv_packs : fePackIndex fe = ∅;
  sv_cache path : feWriteOk fe path = true
}.

(** Another content with the hash of a piece of [data]. *)
Definition collision (data : string) : Prop := exists c x, c ∈ cdcSplit data /\ x <> c /\ ContentHash x = ContentHash c.

Lemma same_hashes data xs :
  Forall2 (fun h x => ContentHash x = h) (map ContentHash (cdcSplit data)) xs -> foldr (fun c acc => c +:+ acc) "" xs = data \/ collision data.
Proof.
  intros H. destruct (decide (xs = cdcSplit data)) as [->|Hne]; [left; apply cdc_concat|right]. unfold collision.
  revert xs H Hne. generalize (cdcSplit data) as l. induction l as [|c l IH]; intros xs H Hne; inversion H as [|? x ? xs' Hx Hxs]; subst; [done|].
  destruct (decide (x = c)) as [->|Hc].
  - destruct (IH xs' Hxs) as (d & y & Hd & Hy & E); [congruence|]. exists d, y. split; [by right|done].
  - exists c, x. split; [left|done].
Qed.

Lemma hash_length d : slen (ContentHash d) = 64.
Proof. unfold ContentHash. by rewrite hexEncode_length, sha3_length. Qed.

Lemma blob_found fe fnsID nsid nsKey hs hash objs key b d :
  serves fe nsid objs -> 12 <= slen hash -> blobKeyFor nsid hash = Some key -> objs !! key = Some b -> decodeChunkBlob hash nsKey b = Ok d ->
  forall st, exists st' x k, fetchPlannedChunk fe fnsID nsKey None (planChunk fe hs false hash) st = (st', Ok (x, k)).
Proof.
  intros [H1 (get & H2 & H3) H4 H5] Hl Hk Hb Hd st. unfold fetchPlannedChunk. apply trySources_finds; [done|done|done|].
  cbn [planChunk pcHash pcSources app]. apply Exists_exists. exists (mkPlannedSource (mkSource chunkSourceS3Blob true) false). split.
  - apply (list_elem_of_fmap_2 (fun p => mkPlannedSource p false) _ (mkSource chunkSourceS3Blob true)). unfold planChunkSources. rewrite prioritize_perm, H2, H4, lookup_empty. destruct (fePeers fe); cbn; rewrite ?elem_of_cons; tauto.
  - split; [done|]. intros blobs. exists b, d. split; [|done]. unfold readRawChunkSource. cbn [psPlan cpKind]. rewrite H2, H1, Hk, (H3 _ _ Hb). done.
Qed.
(** A source that has no blob of the chunk that opens. *)
Definition source_lacks (fe : FetchEnv) (fnsID nsKey hash : string) (blobs : gmap string string) (src : plannedChunkSource) : Prop :=
  psReuse src = false /\ forall raw d, readRawChunkSource fe blobs fnsID hash (psPlan src) = Ok (Ok raw) -> decodeChunkBlob hash nsKey raw <> Ok d.

Lemma trySources_lacks fe fnsID nsKey hash sources st :
  Forall (source_lacks fe fnsID nsKey hash (fsBlobs st)) sources ->
  exists st' e, trySources fe fnsID nsKey None hash sources st = (st', Err e).
Proof.
  revert st. induction sources as [|src rest IH]; intros st H; [by do 2 eexists|]. apply Forall_cons in H as [[Hr Hl] H]. cbn [trySources]. rewrite Hr.
  destruct (readRawChunkSource _ _ _ _ _) as [[raw|e]|f]; [|by apply IH|by do 2 eexists].
  specialize (Hl raw). destruct (decodeChunkBlob hash nsKey raw) as [d|[e|]]; [by specialize (Hl d eq_refl)|by apply IH|by do 2 eexists].
Qed.

Lemma blob_lacking fe fnsID nsid nsKey hs hash objs st :
  serves fe nsid objs -> taken nsid nsKey objs hash -> fePeers fe = None -> fsBlobs st !! localBlobPath (feObjectsDir fe) fnsID hash = None ->
  exists st' e, fetchPlannedChunk fe fnsID nsKey None (planChunk fe hs false hash) st = (st', Err e).
Proof.
  intros [H1 (get & H2 & H3) H4 H5] (key & b & Hk & Hb & Hd) Hpeers Hcache. unfold fetchPlannedChunk. apply trySources_lacks.
  cbn [planChunk pcHash pcSources app]. apply Forall_forall. intros src (plan & -> & Hin)%list_elem_of_fmap.
  split; [done|]. intros raw d. unfold planChunkSources in Hin. rewrite prioritize_perm, H2, H4, lookup_empty, Hpeers in Hin. cbn in Hin.
  apply list_elem_of_In in Hin. cbn in Hin. destruct Hin as [<-|[<-|[]]]; unfold readRawChunkSource; cbn [psPlan cpKind].
  - rewrite Hcache. by destruct (feReadOk fe _).
  - rewrite H2, H1, Hk, (H3 _ _ Hb). intros [= <-]. apply Hd.
Qed.

Lemma decode_dec hash nsKey b : (exists d, decodeChunkBlob hash nsKey b = Ok d) \/ forall d, decodeChunkBlob hash nsKey b <> Ok d.
Proof. destruct (decodeChunkBlob hash nsKey b) as [d|]; [left; by exists d|by right]. Qed.

End Served.

Section PutGet.
Context `{CL : CryptoLib} `{KL : ChunkLib}.
Context (metaJSON : string -> string -> string).

(** C8 (roundtrip). What [Put] stored can be read, unless the name was taken: for
    every chunk of the file either the backend had, before the [Put], a blob of
    that name that does not open under the namespace's key, or, whatever is put
    later, every device with the key and access to the backend gets the chunk,
    whatever its cache holds, its peers answer and its planner thinks of them; and
    the contents read are the file, unless two different contents have the same
    hash.  A chunk whose name was taken is not uploaded, though [Put] succeeds: a
    device that has neither it nor a peer with it cannot read it
    ([fs_put_unreadable] is an example).  Chunks are not packed, as nothing in the
    program turns packing on, and the reader can write its cache. *)
Theorem fs_put_get env path p data s s1 nsID nsKey s'
  (Hpath : NormalizeLogicalPath path = Ok p)
  (Hns : resolveNamespaceState metaJSON env (namespaceFor (sysStore s) p) s = (s1, Ok (nsID, nsKey)))
  (Hput : Put metaJSON env path (reads data) s = (s', Ok tt))
  (Henv : drawing env) (Hkey : slen nsKey = KeySize) (Hpack : stPacking (sysStore s) = false) :
  let nsid := stNSID (sysStore s) in
  exists put, stLastPut (sysStore s') = Some put /\
    prSize put = slen data /\ prChecksum put = ContentHash data /\ prChunks put = map ContentHash (cdcSplit data) /\
    (forall hash, hash ∈ prChunks put -> taken nsid nsKey (wObjs (sysWorld s)) hash \/
       forall s2 fe fnsID hs st, keeps_blobs s' s2 -> serves fe nsid (wObjs (sysWorld s2)) ->
         exists st' x k, fetchPlannedChunk fe fnsID nsKey None (planChunk fe hs false hash) st = (st', Ok (x, k))) /\
    (forall hash, taken nsid nsKey (wObjs (sysWorld s)) hash ->
       forall s2 fe fnsID hs st, keeps_blobs s' s2 -> serves fe nsid (wObjs (sysWorld s2)) -> fePeers fe = None ->
         fsBlobs st !! localBlobPath (feObjectsDir fe) fnsID hash = None ->
         exists st' e, fetchPlannedChunk fe fnsID nsKey None (planChunk fe hs false hash) st = (st', Err e)) /\
    (forall xs, Forall2 (fun h x => ContentHash x = h) (prChunks put) xs -> foldr (fun c acc => c +:+ acc) "" xs = data \/ collision data).
Proof.
  intros nsid. pose proof (resolve_setting metaJSON env (namespaceFor (sysStore s) p) s) as Hset. pose proof (resolve_adds metaJSON (stNSID (sysStore s)) nsKey env (namespaceFor (sysStore s) p) s) as Hadds.
  rewrite Hns in Hset, Hadds. simpl in Hset, Hadds. unfold same_setting, setting in Hset. injection Hset as Eid Epk _.
  unfold Put in Hput. rewrite Hpath in Hput. apply bind_ok in Hput as (s0 & st & H0 & Hput). injection H0 as <- <-.
  apply bind_ok in Hput as (sx & x & Hx & Hput). rewrite Hns in Hx. injection Hx as <- <-.
  apply bind_ok in Hput as (s3 & [hashes size] & H3 & Hput). cbn [fst snd rdErr rdPieces reads] in *. rewrite <- Epk in Hpack.
  destruct (putPieces_ok _ _ _ _ _ _ _ _ _ Henv Hkey Hpack (cdc_nonempty data) H3) as (E3 & A3 & -> & -> & Hall). rewrite Eid in A3, Hall.
  injection Hput as <-. eexists. cbn [sysStore sysWorld setLastPut stLastPut prSize prChecksum prChunks]. split; [done|]. rewrite cdc_concat.
  assert (adds_blobs nsid nsKey s s3) as A by (by etrans).
  split_and!; [done|done|done| | |apply same_hashes].
  - intros hash Hin. rewrite Forall_forall in Hall. destruct (Hall _ Hin) as (key & Ek & b & Hb).
    assert (taken nsid nsKey (wObjs (sysWorld s)) hash \/ exists d, decodeChunkBlob hash nsKey b = Ok d) as [|[d Hd]]; [|by left|right].
    { specialize (A key (blobKeyFor_head _ _ _ Ek)). destruct (wObjs (sysWorld s) !! key) as [b0|] eqn:E0; [|right; by eapply A].
      assert (b0 = b) as -> by congruence. destruct (decode_dec hash nsKey b) as [?|?]; [by right|left; by exists key, b]. }
    intros s2 fe fnsID hs st Hs2 Hserves. eapply blob_found; [done| |exact Ek|by apply Hs2; [eapply blobKeyFor_head|]|exact Hd].
    apply list_elem_of_fmap in Hin as (c & -> & _). rewrite hash_length. lia.
  - intros hash (key & b & Ek & Hb & Hd) s2 fe fnsID hs st Hs2 Hserves Hpeers Hcache. eapply blob_lacking; [done| |done|done].
    exists key, b. split; [done|]. split; [|done]. apply Hs2; [by eapply blobKeyFor_head|].
    exact (adds_blobs_keeps _ _ _ _ A key b (blobKeyFor_head _ _ _ Ek) Hb).
Qed.

End PutGet.

(** ** The hypotheses of the theorem can hold *)

Module Demo.
Import Seal.Demo FsChunks.Demo.

Definition me : Ident := mkIdent "sky10me" (edPublic seedA) (privateKey seedA).
Definition always (_ : string) : bool := true.
Definition env : Env := mkEnv me true always always always always always "/objs" None (fun s => s) nsKey
  (fun _ => (ephA, "nonce-12byte")) (fun _ => "nonce-12byte") (fun _ => "nonce-12byte").
Definition meta (id name : string) : string := id +:+ name.

(** A first [Put] into an empty backend, in the namespace [docs]. *)
Definition sys0 : Sys := mkSys NewStore (mkWorld ∅ ∅ ∅ ∅).
Definition resolved : Sys * result Failure (string * string) := resolveNamespaceState meta env (namespaceFor NewStore "docs/a.txt") sys0.
Definition stored : Sys * result Failure unit := Put meta env "docs/a.txt" (reads "hello") sys0.

Lemma resolved_eq : resolved = (resolved.1, Ok (deriveNSID nsKey "docs", nsKey)).
Proof. assert (resolved.2 = Ok (deriveNSID nsKey "docs", nsKey)) as <- by (vm_compute; reflexivity). by destruct resolved. Qed.

Lemma stored_eq : stored = (stored.1, Ok tt).
Proof. assert (stored.2 = Ok tt) as <- by (vm_compute; reflexivity). by destruct stored. Qed.

Lemma demo_drawing : drawing env.
Proof. by split. Qed.

Lemma demo_free hash : ~ taken "" nsKey ∅ hash.
Proof. intros (key & b & _ & H & _). by rewrite lookup_empty in H. Qed.

(** A reader with that backend, a wrong cache and no peers. *)
Definition reader : FetchEnv := mkFetchEnv "/objs" "" 1000 None
  (Some (fun key => match wObjs (sysWorld stored.1) !! key with Some b => Ok b | None => Err (mkReadErr "not found" false) end))
  (fun _ => Err (mkReadErr "not found" false)) ∅ always always.

Lemma demo_serves : serves reader "" (wObjs (sysWorld stored.1)).
Proof. split; [done|eexists; split; [done|]|done|done]. intros key b H. cbv beta. by rewrite H. Qed.

Lemma fs_put_get_witness :
  stored.2 = Ok tt /\
  (exists put, stLastPut (sysStore stored.1) = Some put /\ prSize put = 5 /\
     forall h, h ∈ prChunks put -> exists st' x k, fetchPlannedChunk reader "" nsKey None (planChunk reader ∅ false h) st0 = (st', Ok (x, k))).
Proof.
  split; [by rewrite stored_eq|].
  destruct (fs_put_get meta env "docs/a.txt" "docs/a.txt" "hello" sys0 resolved.1 (deriveNSID nsKey "docs") nsKey stored.1
    ltac:(vm_compute; reflexivity) resolved_eq stored_eq demo_drawing eq_refl eq_refl) as (put & Hput & Hsize & _ & _ & Hget & _).
  exists put. split; [exact Hput|]. split; [exact Hsize|]. intros h Hh. destruct (Hget h Hh) as [Ht|Hr]; [by apply demo_free in Ht|].
  by apply (Hr stored.1 reader "" ∅ st0 ltac:(intros ? ? _ H; exact H) demo_serves).
Defined.

(** A chunk of the first file put in a second namespace of a store without a namespace of
    its own, whose blobs share the names of the first: the [Put] succeeds, and a
    device that reads it from the backend with the right key finds a blob it
    cannot open. *)
Definition env2 : Env := mkEnv me true always always always always always "/objs" None (fun s => s) "other-key-of-thirty-two-bytes-xx"
  (fun _ => (ephA, "nonce-12byte")) (fun _ => "nonce-12byte") (fun _ => "nonce-12byte").
Definition stored2 : Sys * result Failure unit := Put meta env2 "photos/b.txt" (reads "h") stored.1.
Definition reader2 : FetchEnv := mkFetchEnv "/objs" "" 1000 None
  (Some (fun key => match wObjs (sysWorld stored2.1) !! key with Some b => Ok b | None => Err (mkReadErr "not found" false) end))
  (fun _ => Err (mkReadErr "not found" false)) ∅ always always.

Lemma fs_put_unreadable :
  stored2.2 = Ok tt /\ (prChunks <$> stLastPut (sysStore stored2.1)) = Some [ContentHash "h"] /\
  (getOrCreateNamespaceKey env2 "photos" stored2.1).2 = Ok "other-key-of-thirty-two-bytes-xx" /\
  (fetchPlannedChunk reader2 "" "other-key-of-thirty-two-bytes-xx" None (planChunk reader2 ∅ false (ContentHash "h")) (mkFetchState ∅ ∅)).2
    = Err (failHash (ContentHash "h") "no source").
Proof. vm_compute. split_and!; reflexivity. Qed.

(** Two goroutines of a fresh store, with a draw each. *)
Definition draws (key : string) : Env := mkEnv me true always always always always always "/objs" None (fun s => s) key
  (fun _ => (ephA, "nonce-12byte")) (fun _ => "nonce-12byte") (fun _ => "nonce-12byte").
Definition key1 : string := "first-key-of-thirty-two-bytes-xx".
Definition key2 : string := "other-key-of-thirty-two-bytes-xx".
Definition raced1 : Sys := (newNamespaceKey (draws key1) "docs" sys0).1.
Definition raced2 : Sys := (newNamespaceKey (draws key2) "docs" raced1).1.

Lemma looked_up : knownNamespaceKey (draws key1) "docs" sys0 = (sys0, Ok None) /\ knownNamespaceKey (draws key2) "docs" sys0 = (sys0, Ok None).
Proof. split; vm_compute; reflexivity. Qed.
Lemma raced1_eq : newNamespaceKey (draws key1) "docs" sys0 = (raced1, Ok key1).
Proof. vm_compute. reflexivity. Qed.
Lemma raced2_eq : newNamespaceKey (draws key2) "docs" raced1 = (raced2, Ok key2).
Proof. vm_compute. reflexivity. Qed.

(** A chunk that the first goroutine stores does not open under the key that is
    kept, in memory and in the backend. *)
Lemma fs_namespace_key_race_witness :
  (key1 <> key2 /\ getOrCreateNamespaceKey (draws key1) "docs" raced2 = (raced2, Ok key2)) /\
  (getOrCreateNamespaceKey env "docs" (mkSys NewStore (setKeyFiles ∅ (sysWorld raced2)))).2 = Ok key2 /\
  (exists b, encodeChunkBlob "nonce-12byte" hello key1 "hello" = Ok b /\ decodeChunkBlob hello key1 b = Ok "hello" /\
     decodeChunkBlob hello key2 b = Err (Failed "decrypting chunk")).
Proof.
  split; [split; [done|]|split; [vm_compute; reflexivity|eexists; split; [vm_compute; reflexivity|split; vm_compute; reflexivity]]].
  exact (proj2 (proj2 (proj2 (fs_namespace_key_race "docs") (draws key1) (draws key2) sys0 sys0 sys0 raced1 raced2 key1 key2
    (proj1 looked_up) (proj2 looked_up) raced1_eq raced2_eq))).
Defined.

End Demo.
