(* ===== verification/FsPacks.v ===== *)
(** * Sessions of packs (pkg/fs/pack.go)

    Chunks added to a writer, flushed into pack files and found again through the
    index: what is packed in a session reads back, and what an earlier session
    packed does not survive the next one. *)

From Stdlib Require Import Ascii.
From stdpp Require Import base numbers list gmap strings.
From S2P Require Import Prelude GoStrings GoStrconv GoText Seal FsChunks FsStore.

#[local] Open Scope Z_scope.

(** ** Names of packs *)

Lemma parse_pad4 n : 0 <= n < 10 ^ 20 -> parse_digits 0 (pad4 n) = Some n.
Proof.
  intros Hn. unfold pad4. destruct (Z.ltb_spec n 10000).
  - by rewrite parse_pad_dec by (simpl; lia).
  - unfold Itoa. rewrite (proj2 (Z.ltb_ge _ _)) by lia. by rewrite parse_trim_zeros, parse_pad_dec by (simpl; lia).
Qed.

Lemma packName_inj m n : 0 <= m < 10 ^ 20 -> 0 <= n < 10 ^ 20 -> packName m = packName n -> m = n.
Proof.
  intros Hm Hn E. unfold packName in E. apply str_app_inj_l in E. apply app_inj_r in E.
  assert (Some m = Some n) as H by (rewrite <- (parse_pad4 m), <- (parse_pad4 n), E by done; done). by injection H.
Qed.

(** ** Operations of a session *)

Record PackState := mkPackState { psWriter : PackWriter; psIndex : PackIndex; psObjects : Objects }.

Inductive PackOp := PkAdd (hash blob : string) | PkFlush.

(** One call, while the backend accepts the writes of [putOk]. *)
Definition packOp (st : PackState) (op : (string -> bool) * PackOp) : PackState :=
  match op.2 with
  | PkAdd hash blob =>
      match packAdd op.1 hash blob (psWriter st) (psIndex st) (psObjects st) with (pw, idx, objs, _) => mkPackState pw idx objs end
  | PkFlush => match packFlush op.1 (psWriter st) (psIndex st) (psObjects st) with (pw, idx, objs, _) => mkPackState pw idx objs end
  end.

Definition packRun (ops : list ((string -> bool) * PackOp)) (st : PackState) : PackState := foldl packOp st ops.

(** The blob that was packed last under a hash. *)
Definition notePacked (m : gmap string string) (op : (string -> bool) * PackOp) : gmap string string :=
  match op.2 with
  | PkAdd hash blob => if PackChunkThreshold <? slen blob then m else <[hash := blob]> m
  | PkFlush => m
  end.
Definition packedBy (ops : list ((string -> bool) * PackOp)) : gmap string string := foldl notePacked ∅ ops.

Definition blob_given (op : (string -> bool) * PackOp) : Prop := match op.2 with PkAdd _ blob => blob <> "" | PkFlush => True end.

(** *** What a flush would make of a state *)

Definition nextName (st : PackState) : string := packName (pwSeq (psWriter st) + 1).
Definition flushedIndex (st : PackState) : PackIndex := foldl (indexPending (nextName st)) (psIndex st) (pwEntries (psWriter st)).

Definition indexed (name : string) (es : list pendingEntry) (hash : string) (old : option PackLocation) : option PackLocation :=
  foldl (fun acc e => if bool_decide (peHash e = hash) then Some (mkLocation name (peOffset e) (peLength e)) else acc) old es.

Lemma foldl_indexPending name idx es hash : foldl (indexPending name) idx es !! hash = indexed name es hash (idx !! hash).
Proof.
  revert idx. unfold indexed. induction es as [|e es IH]; intros idx; [done|]. cbn [foldl]. rewrite IH. f_equal. unfold indexPending.
  case_bool_decide as H; [by rewrite <- H, lookup_insert_eq|by rewrite lookup_insert_ne].
Qed.

Lemma indexed_app name es e hash old :
  indexed name (es ++ [e]) hash old = if bool_decide (peHash e = hash) then Some (mkLocation name (peOffset e) (peLength e)) else indexed name es hash old.
Proof. unfold indexed. by rewrite foldl_app. Qed.

(** A location is the old one or one of the pending ones, whatever the name of
    the pack will be. *)
Lemma indexed_cases es hash old :
  (forall name, indexed name es hash old = old) \/
  (exists e, e ∈ es /\ forall name, indexed name es hash old = Some (mkLocation name (peOffset e) (peLength e))).
Proof.
  revert old. induction es as [|e es IH] using rev_ind; intros old; [by left|]. destruct (decide (peHash e = hash)) as [H|H].
  - right. exists e. split; [apply elem_of_app; right; left|]. intros name. by rewrite indexed_app, bool_decide_true.
  - destruct (IH old) as [Ho|(e' & Hin & He)].
    + left. intros name. by rewrite indexed_app, bool_decide_false.
    + right. exists e'. split; [apply elem_of_app; by left|]. intros name. by rewrite indexed_app, bool_decide_false.
Qed.

(** Every chunk packed so far would be found after a flush; the pending entries
    lie in the buffer; no chunk of the session is in a pack still to be named. *)
Record session_ok (packed : gmap string string) (n : Z) (st : PackState) : Prop := {
  so_seq : 0 <= pwSeq (psWriter st) <= n;
  so_entries : Forall (fun e => 0 <= peOffset e /\ 0 < peLength e /\ peOffset e + peLength e <= slen (pwBuf (psWriter st))) (pwEntries (psWriter st));
  so_found hash blob : packed !! hash = Some blob ->
    (exists e, e ∈ pwEntries (psWriter st) /\ slice (peOffset e) (peLength e) (pwBuf (psWriter st)) = blob /\
       forall name, indexed name (pwEntries (psWriter st)) hash (psIndex st !! hash) = Some (mkLocation name (peOffset e) (peLength e))) \/
    (exists loc j, (forall name, indexed name (pwEntries (psWriter st)) hash (psIndex st !! hash) = Some loc) /\ plPack loc = packName j /\
       0 <= j <= pwSeq (psWriter st) /\ ReadPackedChunk (psObjects st) loc = Ok blob)
}.

Lemma session_start idx objs : session_ok ∅ 0 (mkPackState NewPackWriter idx objs).
Proof. split; [simpl; lia|constructor|]. intros hash blob. by rewrite lookup_empty. Qed.

Lemma read_other objs name buf loc : plPack loc <> name -> ReadPackedChunk (<[name := buf]> objs) loc = ReadPackedChunk objs loc.
Proof. intros H. unfold ReadPackedChunk. by rewrite lookup_insert_ne. Qed.

Lemma session_weaken packed n m st : n <= m -> session_ok packed n st -> session_ok packed m st.
Proof. intros H [H1 H2 H3]. split; [lia|done|done]. Qed.

(** A flush keeps the promise, whether or not the backend takes the pack. *)
Lemma session_flush packed n putOk st :
  n < 10 ^ 19 -> session_ok packed n st -> session_ok packed (n + 1) (packOp st (putOk, PkFlush)).
Proof.
  intros Hn H. pose proof H as [Hseq Hent Hfound]. unfold packOp, packFlush. cbn [fst snd]. destruct (slen (pwBuf (psWriter st)) =? 0) eqn:Eb.
  - destruct st. apply (session_weaken _ n); [lia|exact H].
  - destruct (negb (putOk _)); split; cbn [psWriter psIndex psObjects pwSeq pwBuf pwEntries]; [lia|done| |lia|constructor|].
    + intros hash blob Hh. destruct (Hfound hash blob Hh) as [?|(loc & j & H1 & H2 & H3 & H4)]; [by left|right]. exists loc, j. split_and!; try done; lia.
    + intros hash blob Hh. right. destruct (Hfound hash blob Hh) as [(e & He & Hb & Hi)|(loc & j & H1 & H2 & H3 & H4)].
      * exists (mkLocation (packName (pwSeq (psWriter st) + 1)) (peOffset e) (peLength e)), (pwSeq (psWriter st) + 1).
        split_and!; [|done|lia|lia|]; [intros name; unfold indexed; cbn [foldl]; by rewrite foldl_indexPending|].
        unfold ReadPackedChunk. cbn [plPack plOffset plLength]. by rewrite lookup_insert_eq, Hb.
      * exists loc, j. split_and!; [intros name; unfold indexed; cbn [foldl]; by rewrite foldl_indexPending|done|lia|lia|].
        rewrite read_other; [done|]. rewrite H2. intros E. apply packName_inj in E; lia.
Qed.

Lemma session_append packed n st hash blob :
  blob <> "" -> session_ok packed n st ->
  session_ok (<[hash := blob]> packed) n
    (mkPackState (mkPackWriter (pwBuf (psWriter st) +:+ blob) (pwEntries (psWriter st) ++ [mkPending hash (slen (pwBuf (psWriter st))) (slen blob)]) (pwSeq (psWriter st)))
       (psIndex st) (psObjects st)).
Proof.
  intros Hne [Hseq Hent Hfound]. assert (0 < slen blob) as Hl by (destruct blob; [done|unfold slen; simpl; lia]). pose proof (slen_nonneg (pwBuf (psWriter st))).
  split; cbn [psWriter psIndex psObjects pwSeq pwBuf pwEntries]; [done| |].
  - apply Forall_app. split; [|constructor; [cbn [peOffset peLength]; rewrite slen_app; lia|constructor]]. eapply Forall_impl; [exact Hent|]. intros e He. cbv beta in *. rewrite slen_app. lia.
  - intros h b Hb. destruct (decide (hash = h)) as [<-|Hh].
    + rewrite lookup_insert_eq in Hb. injection Hb as <-. left. exists (mkPending hash (slen (pwBuf (psWriter st))) (slen blob)).
      split_and!; [apply elem_of_app; right; left|apply slice_append|]. intros name. by rewrite indexed_app, bool_decide_true.
    + rewrite lookup_insert_ne in Hb by done. destruct (Hfound h b Hb) as [(e & He & Hs & Hi)|(loc & j & H1 & H2 & H3 & H4)].
      * left. exists e. rewrite Forall_forall in Hent. specialize (Hent e He). split_and!; [apply elem_of_app; by left|rewrite slice_app_short by lia; exact Hs|].
        intros name. by rewrite indexed_app, bool_decide_false.
      * right. exists loc, j. split_and!; [|done|lia|lia|done]. intros name. by rewrite indexed_app, bool_decide_false.
Qed.

Lemma session_op packed n st op :
  n < 10 ^ 19 -> blob_given op -> session_ok packed n st -> session_ok (notePacked packed op) (n + 1) (packOp st op).
Proof.
  destruct op as [putOk [hash blob|]]; intros Hn Hg H; [|by apply session_flush]. unfold packOp, notePacked, packAdd, blob_given in *. cbn [fst snd] in *.
  destruct (PackChunkThreshold <? slen blob); [destruct st; apply (session_weaken _ n); [lia|exact H]|].
  pose proof (session_append packed n st hash blob Hg H) as Ha. destruct (_ <=? _); [|apply (session_weaken _ n); [lia|exact Ha]].
  pose proof (session_flush _ n putOk _ Hn Ha) as Hf. unfold packOp in Hf. cbn [fst snd psWriter psIndex psObjects] in Hf.
  by destruct (packFlush _ _ _ _) as [[[? ?] ?] []].
Qed.

Lemma session_run ops packed n st :
  n + Z.of_nat (length ops) < 10 ^ 19 -> Forall blob_given ops -> session_ok packed n st ->
  session_ok (foldl notePacked packed ops) (n + Z.of_nat (length ops)) (packRun ops st).
Proof.
  revert packed n st. induction ops as [|op ops IH]; intros packed n st Hn Hg H; [simpl; by rewrite Z.add_0_r|].
  inversion Hg as [|?? Hop Hops]; subst. cbn [length] in *. rewrite Nat2Z.inj_succ in *. replace (n + Z.succ _) with (n + 1 + Z.of_nat (length ops)) by lia.
  unfold packRun. cbn [foldl]. apply IH; [lia|done|]. by apply session_op; [lia| |].
Qed.

Lemma flush_empties packed n st putOk pw idx objs :
  session_ok packed n st -> packFlush putOk (psWriter st) (psIndex st) (psObjects st) = (pw, idx, objs, Ok tt) -> pwEntries pw = [].
Proof.
  intros [_ Hent _]. unfold packFlush. destruct (slen _ =? 0) eqn:Eb; [|destruct (negb _); [done|by intros [= <- _ _]]].
  intros [= <- _ _]. apply Z.eqb_eq in Eb. destruct (pwEntries (psWriter st)) as [|e' es]; [done|].
  inversion Hent as [|?? [? [? ?]] _]; subst. lia.
Qed.

(** A session of packs: chunks are added and flushed in any order
    while writes of packs may fail; once a flush succeeds, every chunk that was
    added and is not too large for a pack is read back through the index, whatever
    the index and the backend held when the session began. *)
Theorem fs_packs_read_back idx objs ops putOk pw' idx' objs' hash blob
  (Hops : Forall blob_given ops) (Hlen : Z.of_nat (length ops) < 10 ^ 18)
  (Hflush : let st := packRun ops (mkPackState NewPackWriter idx objs) in
            packFlush putOk (psWriter st) (psIndex st) (psObjects st) = (pw', idx', objs', Ok tt))
  (Hin : packedBy ops !! hash = Some blob) :
  exists loc, idx' !! hash = Some loc /\ ReadPackedChunk objs' loc = Ok blob.
Proof.
  simpl in Hflush. pose proof (session_run ops ∅ 0 _ ltac:(lia) Hops (session_start idx objs)) as H. set (st := packRun ops _) in *.
  pose proof (flush_empties _ _ _ _ _ _ _ H Hflush) as E. apply (session_flush _ _ putOk) in H; [|lia]. unfold packOp in H. cbn [fst snd] in H.
  rewrite Hflush in H. destruct H as [_ _ Hf]. cbn [psWriter psIndex psObjects] in Hf. rewrite E in Hf.
  destruct (Hf hash blob Hin) as [(e & He & _)|(loc & j & Hi & _ & _ & Hr)]; [by apply elem_of_nil in He|]. exists loc. split; [apply (Hi "")|done].
Qed.

(** ** A second session *)

Section Sessions.
Context `{CL : CryptoLib}.
Context (packParse : string -> option PackIndex).

Lemma EnablePacking_fresh env s s' : EnablePacking packParse env s = (s', Ok tt) -> stPackWriter (sysStore s') = NewPackWriter /\ stPacking (sysStore s') = true.
Proof.
  unfold EnablePacking, LoadPackState. intros H. apply bind_ok in H as (s1 & u & H1 & H2). apply bind_ok in H1 as (s2 & k & _ & H1).
  apply bind_ok in H1 as (s3 & idx & _ & H1). injection H1 as <- _. by injection H2 as <-.
Qed.

(** Packs are numbered from one again in every session: the first pack
    a session writes replaces [packs/pack_0001.enc] of the session before, while
    the index still sends every chunk that was in it there.  Such a chunk then
    reads as bytes of the new pack. *)
Theorem fs_packs_overwritten env s s1 s2 s3 hash loc other blob
  (Hopen : EnablePacking packParse env s = (s1, Ok tt))
  (Hloc : stPackIndex (sysStore s1) !! hash = Some loc) (Hfirst : plPack loc = packName 1)
  (Hother : other <> hash) (Hblob : blob <> "")
  (Hadd : packChunk env other blob s1 = (s2, Ok true))
  (Hflush : flushPacks env s2 = (s3, Ok tt)) :
  stPackIndex (sysStore s3) !! hash = Some loc /\
  ReadPackedChunk (wObjs (sysWorld s3)) loc = Ok (slice (plOffset loc) (plLength loc) blob).
Proof.
  destruct (EnablePacking_fresh _ _ _ Hopen) as [Hw _]. assert (slen blob =? 0 = false) as Hb by (destruct blob; [done|apply Z.eqb_neq; unfold slen; simpl; lia]).
  unfold packChunk, packAdd in Hadd. rewrite Hw in Hadd. destruct (PackChunkThreshold <? slen blob); [done|]. cbn [NewPackWriter pwBuf pwEntries pwSeq app] in Hadd.
  rewrite str_app_nil_l in Hadd. unfold flushPacks, packFlush in Hflush. unfold packFlush in Hadd. destruct (PackTargetSize <=? slen blob).
  - cbn [pwBuf pwSeq pwEntries] in Hadd. rewrite Hb in Hadd. destruct (negb _); [done|]. injection Hadd as <-.
    cbn in Hflush. injection Hflush as <-. cbn. rewrite lookup_insert_ne by done. split; [done|]. unfold ReadPackedChunk. rewrite Hfirst. cbn. by rewrite lookup_insert_eq.
  - injection Hadd as <-. cbn [setPacks sysStore sysWorld stPackWriter stPackIndex pwBuf pwSeq pwEntries] in Hflush. rewrite Hb in Hflush. destruct (negb _); [done|].
    injection Hflush as <-. cbn. rewrite lookup_insert_ne by done. split; [done|]. unfold ReadPackedChunk. rewrite Hfirst. cbn. by rewrite lookup_insert_eq.
Qed.

End Sessions.

(** ** The hypotheses of the theorems can hold *)

Module Demo.
Import Seal.Demo FsChunks.Demo FsStore.Demo.

(** The index as lines of four fields. *)
Definition newline : ascii := "010".
Definition field (x rest : string) : string := x +:+ String newline rest.
Definition packJSON (idx : PackIndex) : string :=
  foldr (fun e acc => field e.1 (field (plPack e.2) (field (Itoa (plOffset e.2)) (field (Itoa (plLength e.2)) acc)))) "" (map_to_list idx).
Definition cutField (s : string) : option (string * string) := CutByte s newline.
Fixpoint parseLines (fuel : nat) (s : string) : option PackIndex :=
  match fuel, s with
  | _, EmptyString => Some ∅
  | O, _ => None
  | S fuel, _ =>
      '(h, s) ← cutField s; '(p, s) ← cutField s; '(o, s) ← cutField s; '(n, s) ← cutField s;
      o ← ParseInt o; n ← ParseInt n; idx ← parseLines fuel s; Some (<[h := mkLocation p o n]> idx)
  end.
Definition packParse (s : string) : option PackIndex := parseLines (String.length s) s.

(** Two sessions that store one file each. *)
Definition session (path data : string) (s : Sys) : Sys :=
  let s := (EnablePacking packParse env (mkSys NewStore (sysWorld s))).1 in
  let s := (Put meta env path (reads data) s).1 in
  (Close packJSON env s).1.
Definition after1 : Sys := session "docs/a.txt" "aaa" sys0.
Definition opened2 : Sys := (EnablePacking packParse env (mkSys NewStore (sysWorld after1))).1.
Definition put2 : Sys := (packChunk env (ContentHash "bcd") "other bytes" opened2).1.

Definition nameA : string := ContentHash "a".
Definition locA : PackLocation := default (mkLocation "" 0 0) (stPackIndex (sysStore opened2) !! nameA).

(** Read by a device with an empty cache. *)
Definition readBy (s : Sys) : result Failure (string * chunkSourceKind) :=
  let w := sysWorld s in
  let get k := match wObjs w !! k with Some b => Ok b | None => Err (mkReadErr "not found" false) end in
  (fetchPlannedChunk (mkFetchEnv "/objs" "" 0 None (Some get) (ReadPackedChunk (wObjs w)) (stPackIndex (sysStore opened2)) always always)
    "" nsKey None (planChunk (mkFetchEnv "/objs" "" 0 None (Some get) (ReadPackedChunk (wObjs w)) (stPackIndex (sysStore opened2)) always always) ∅ false nameA)
    (mkFetchState ∅ ∅)).2.

(** After the first session the chunk reads back; after the second it does not. *)
Example lost : readBy after1 = Ok ("a", chunkSourceS3Pack) /\ readBy (session "docs/b.txt" "bcd" after1) = Err (Failed "no source").
Proof. split; vm_compute; reflexivity. Qed.

Lemma locA_eq : stPackIndex (sysStore opened2) !! nameA = Some locA /\ plPack locA = packName 1.
Proof. split; vm_compute; reflexivity. Qed.

Lemma opened2_eq : EnablePacking packParse env (mkSys NewStore (sysWorld after1)) = (opened2, Ok tt).
Proof. vm_compute. reflexivity. Qed.
Lemma put2_eq : packChunk env (ContentHash "bcd") "other bytes" opened2 = (put2, Ok true).
Proof. vm_compute. reflexivity. Qed.
Lemma flush2_eq : flushPacks env put2 = ((flushPacks env put2).1, Ok tt).
Proof. vm_compute. reflexivity. Qed.

Lemma other_name : ContentHash "bcd" <> nameA.
Proof. vm_compute. discriminate. Qed.

Lemma fs_packs_overwritten_witness :
  plPack locA = packName 1 /\ stPackIndex (sysStore (flushPacks env put2).1) !! nameA = Some locA /\
  ReadPackedChunk (wObjs (sysWorld (flushPacks env put2).1)) locA = Ok (slice (plOffset locA) (plLength locA) "other bytes").
Proof.
  split; [apply locA_eq|].
  exact (fs_packs_overwritten packParse env _ opened2 put2 _ nameA locA (ContentHash "bcd") "other bytes" opened2_eq
    (proj1 locA_eq) (proj2 locA_eq) other_name ltac:(done) put2_eq flush2_eq).
Defined.

(** Three chunks, one of them twice, while the first write of a pack fails. *)
Definition ops : list ((string -> bool) * PackOp) :=
  [(always, PkAdd "h1" "one"); (fun _ => false, PkFlush); (always, PkAdd "h2" "two"); (always, PkFlush); (always, PkAdd "h1" "ONE")].
Definition packed : PackState := packRun ops (mkPackState NewPackWriter ∅ ∅).
Definition final : PackState := packOp packed (always, PkFlush).

Lemma final_eq : packFlush always (psWriter packed) (psIndex packed) (psObjects packed) = (psWriter final, psIndex final, psObjects final, Ok tt).
Proof. vm_compute. reflexivity. Qed.

Lemma fs_packs_read_back_witness :
  (exists loc, psIndex final !! "h1" = Some loc /\ ReadPackedChunk (psObjects final) loc = Ok "ONE") /\
  (exists loc, psIndex final !! "h2" = Some loc /\ ReadPackedChunk (psObjects final) loc = Ok "two").
Proof.
  assert (Forall blob_given ops) as Hg by (repeat constructor; done).
  split; [apply (fs_packs_read_back ∅ ∅ ops always _ _ _ "h1" "ONE" Hg ltac:(done) final_eq)|apply (fs_packs_read_back ∅ ∅ ops always _ _ _ "h2" "two" Hg ltac:(done) final_eq)];
    vm_compute; reflexivity.
Defined.

End Demo.
