(* ===== verification/FsDownload.v ===== *)
(** * Downloading a file chunk by chunk (pkg/fs/skyfs.go: downloadChunks)

    A producer starts a goroutine per chunk, in order, as permits of a semaphore
    allow; each fetches its chunk into a slot; the caller consumes the slots in
    order, gives back a permit per slot and writes.  The goroutines are a step
    relation. *)

From Stdlib Require Import Ascii.
From stdpp Require Import base numbers list gmap strings fin_sets fin_maps relations.
From S2P Require Import Prelude GoStrings Seal FsChunks FsStore.

#[local] Open Scope nat_scope.

(** ** The state *)

(** What a slot holds: the chunk, the error of its fetch, or the error of the
    cancelled context, which the producer puts there itself. *)
Inductive Slot := SlotData (data : string) | SlotErr (e : string) | SlotCancelled.

#[export] Instance Slot_eq_dec : EqDecision Slot.
Proof. solve_decision. Defined.

(** The caller: at the [select] of a turn, at [<-sem] with what the slot held, or
    returned, with [None] for success. *)
Inductive Consumer := Waiting (i : nat) | Holding (i : nat) (r : Slot) | Returned (e : option string).

Record Download := mkDownload {
  dnNext : nat;                      (** the chunk the producer is at *)
  dnProducing : bool;                (** its goroutine has not ended *)
  dnSem : nat;                       (** permits in the channel [sem] *)
  dnFetching : gset nat;             (** goroutines that fetch *)
  dnSlots : gmap nat Slot;           (** slots with a result *)
  dnConsumer : Consumer;
  dnWritten : list string;
  dnCancelled : bool                 (** [ctx.Done()] is closed *)
}.

Definition start : Download := mkDownload 0 true 0 ∅ ∅ (Waiting 0) [] false.

(** [ahead]. *)
Definition prefetch (chunkPrefetch : Z) (n : nat) : nat :=
  let ahead := if (chunkPrefetch <=? 0)%Z then 1 else Z.to_nat chunkPrefetch in
  if n <? ahead then n else ahead.

(** The errors with which the producer fills the slots from [i] on. *)
Definition fillCancelled (i n : nat) (slots : gmap nat Slot) : gmap nat Slot :=
  foldr (fun j acc => <[j := SlotCancelled]> acc) slots (seq i (n - i)).

Section Steps.

(** The number of chunks, the size of the semaphore, what a fetch of a chunk can
    yield and which writes the writer takes.  A panic of a fetch ends the process;
    the runs are those without one. *)
Context (n ahead : nat) (fetched : nat -> Slot -> Prop) (writeOk : nat -> string -> bool).

Inductive work : Download -> Download -> Prop :=
| StepAcquire i sem fs slots c w x :
    i < n -> sem < ahead ->
    work (mkDownload i true sem fs slots c w x) (mkDownload (S i) true (S sem) ({[i]} ∪ fs) slots c w x)
| StepProduced sem fs slots c w x :
    work (mkDownload n true sem fs slots c w x) (mkDownload n false sem fs slots c w x)
| StepGiveUp i sem fs slots c w :
    i < n -> work (mkDownload i true sem fs slots c w true) (mkDownload i false sem fs (fillCancelled i n slots) c w true)
| StepFetched i p sem fs slots c w x j r :
    j ∈ fs -> fetched j r -> work (mkDownload i p sem fs slots c w x) (mkDownload i p sem (fs ∖ {[j]}) (<[j := r]> slots) c w x)
| StepTake i p sem fs slots w x j r :
    j < n -> slots !! j = Some r ->
    work (mkDownload i p sem fs slots (Waiting j) w x) (mkDownload i p sem fs (delete j slots) (Holding j r) w x)
| StepDone i p sem fs slots w j :
    j < n -> work (mkDownload i p sem fs slots (Waiting j) w true) (mkDownload i p sem fs slots (Returned (Some "context canceled")) w true)
| StepWrite i p sem fs slots w x j data :
    j < n -> writeOk j data = true ->
    work (mkDownload i p (S sem) fs slots (Holding j (SlotData data)) w x) (mkDownload i p sem fs slots (Waiting (S j)) (w ++ [data]) x)
| StepWriteErr i p sem fs slots w x j data :
    writeOk j data = false ->
    work (mkDownload i p (S sem) fs slots (Holding j (SlotData data)) w x) (mkDownload i p sem fs slots (Returned (Some "writing chunk")) w true)
| StepErr i p sem fs slots w x j e :
    work (mkDownload i p (S sem) fs slots (Holding j (SlotErr e)) w x) (mkDownload i p sem fs slots (Returned (Some e)) w true)
| StepCancelled i p sem fs slots w x j :
    work (mkDownload i p (S sem) fs slots (Holding j SlotCancelled) w x) (mkDownload i p sem fs slots (Returned (Some "context canceled")) w true)
| StepEnd i p sem fs slots w x :
    work (mkDownload i p sem fs slots (Waiting n) w x) (mkDownload i p sem fs slots (Returned None) w true).

(** The caller's context may be cancelled at any time. *)
Inductive step : Download -> Download -> Prop :=
| StepWork s s' : work s s' -> step s s'
| StepCancel i p sem fs slots c w :
    step (mkDownload i p sem fs slots c w false) (mkDownload i p sem fs slots c w true).

Definition run : Download -> Download -> Prop := rtc step.

(** ** Every run ends *)

Definition consumerLeft (c : Consumer) : nat :=
  match c with Waiting i => 2 * (n - i) + 2 | Holding i _ => 2 * (n - i) + 1 | Returned _ => 0 end.
Definition left (s : Download) : nat :=
  5 * (n - dnNext s) + (if dnProducing s then 5 * n + 1 else 0) + 3 * size (dnFetching s) + size (dnSlots s) + consumerLeft (dnConsumer s)
  + (if dnCancelled s then 0 else 1).

Lemma size_fill i slots : size (fillCancelled i n slots) <= (n - i) + size slots.
Proof.
  unfold fillCancelled. generalize (n - i) as k. intros k. revert i. induction k as [|k IH]; intros i; [simpl; lia|]. cbn [seq foldr].
  rewrite map_size_insert. specialize (IH (S i)). destruct (_ !! i); simpl; lia.
Qed.

Lemma size_insert_le (m : gmap nat Slot) j r : size (<[j := r]> m) <= S (size m).
Proof. rewrite map_size_insert. destruct (m !! j); simpl; lia. Qed.

Lemma step_left s s' : step s s' -> left s' < left s.
Proof.
  intros [s1 s2 H|i p sem fs slots c w]; [|unfold left; cbn; lia].
  destruct H as [i sem fs slots c w x Hi _|sem fs slots c w x|i sem fs slots c w Hi|i p sem fs slots c w x j r Hj _|i p sem fs slots w x j r Hj Hr
    |i p sem fs slots w j Hj|i p sem fs slots w x j d Hj _|i p sem fs slots w x j d _|i p sem fs slots w x j e|i p sem fs slots w x j|i p sem fs slots w x];
    unfold left; cbn [dnNext dnProducing dnSem dnFetching dnSlots dnConsumer dnWritten dnCancelled consumerLeft]; try (destruct x; lia); try lia.
  - assert (size ({[i]} ∪ fs) <= S (size fs)) by (rewrite size_union_alt, size_singleton; pose proof (subseteq_size (fs ∖ {[i]}) fs ltac:(set_solver)); lia). lia.
  - pose proof (size_fill i slots). lia.
  - pose proof (size_insert_le slots j r). rewrite size_difference by set_solver. rewrite size_singleton.
    assert (size fs <> 0) by (intros E; apply size_empty_inv in E; set_solver). lia.
  - rewrite map_size_delete_Some by (by eexists). assert (size slots <> 0) by (intros E; apply map_size_empty_inv in E; subst; by rewrite lookup_empty in Hr). lia.
Qed.

Lemma left_start : left start = 12 * n + 4.
Proof. unfold left, start. cbn [dnNext dnProducing dnSem dnFetching dnSlots dnConsumer dnWritten dnCancelled consumerLeft]. rewrite size_empty, map_size_empty. lia. Qed.

(** ** The invariant *)

(** The chunks below [rel] are consumed; a permit is held for each chunk between
    [rel] and the producer's; those are being fetched, in their slot or held. *)
Record wf (rel : nat) (s : Download) : Prop := {
  wf_sem : dnSem s + rel = dnNext s;
  wf_bound : dnSem s <= ahead;
  wf_next : dnNext s <= n;
  wf_fetching j : j ∈ dnFetching s -> rel <= j < dnNext s /\ dnSlots s !! j = None;
  wf_slots j r : dnSlots s !! j = Some r -> rel <= j /\ (r = SlotCancelled /\ dnProducing s = false \/ j < dnNext s /\ fetched j r);
  wf_consumer : match dnConsumer s with
    | Waiting i => i = rel /\ forall j, rel <= j < dnNext s -> j ∈ dnFetching s \/ is_Some (dnSlots s !! j)
    | Holding i r => i = rel /\ i < n /\ dnSlots s !! i = None /\ i ∉ dnFetching s /\ (r = SlotCancelled /\ dnProducing s = false \/ i < dnNext s /\ fetched i r)
                     /\ forall j, rel < j < dnNext s -> j ∈ dnFetching s \/ is_Some (dnSlots s !! j)
    | Returned e => e = None -> rel = n
    end;
  wf_producing : dnProducing s = false -> dnNext s < n -> dnCancelled s = true;
  wf_written : length (dnWritten s) = rel \/ exists e, dnConsumer s = Returned (Some e);
  wf_data j d : dnWritten s !! j = Some d -> fetched j (SlotData d) /\ writeOk j d = true
}.

Lemma wf_start : wf 0 start.
Proof. split; cbn; try done; try lia; try set_solver. split; [done|lia]. Qed.

Lemma fill_lookup i slots j : fillCancelled i n slots !! j = if decide (i <= j < n) then Some SlotCancelled else slots !! j.
Proof.
  unfold fillCancelled. remember (n - i) as k eqn:Ek. revert i Ek. induction k as [|k IH]; intros i Ek; cbn [seq foldr]; [by rewrite decide_False by lia|].
  destruct (decide (i = j)) as [<-|Hj]; [rewrite lookup_insert_eq, decide_True by lia; done|]. rewrite lookup_insert_ne, IH by lia.
  destruct (decide (S i <= j < n)); [rewrite decide_True by lia; done|rewrite decide_False by lia; done].
Qed.

(** The caller returns with an error once it has given back the permit of the chunk
    it holds. *)
Lemma wf_return rel i p sem fs slots w x j r e :
  wf rel (mkDownload i p (S sem) fs slots (Holding j r) w x) -> wf (S rel) (mkDownload i p sem fs slots (Returned (Some e)) w true).
Proof.
  intros [H1 H2 H3 H4 H5 H6 H7 H8 H9]. cbn in *. destruct H6 as (-> & ? & Hs & Hf & Hk & H6). split; cbn; try done; try lia.
  - intros k Hk2. specialize (H4 k Hk2) as [? ?]. split; [|done]. assert (k <> rel) by (by intros ->). lia.
  - intros k r' E. destruct (H5 _ _ E) as [? ?]. split; [|done]. assert (k <> rel) by (intros ->; congruence). lia.
  - right. by eexists.
Qed.

Lemma wf_step rel s s' : wf rel s -> step s s' -> exists rel', wf rel' s'.
Proof.
  intros Hwf H0. destruct H0 as [s1 s2 H|i p sem fs slots c w]; [|exists rel; destruct Hwf; split; cbn in *; done]. pose proof Hwf as [H1 H2 H3 H4 H5 H6 H7 H8 H9].
  destruct H as [i sem fs slots c w x Hi Hsem|sem fs slots c w x|i sem fs slots c w Hi|i p sem fs slots c w x j r Hj Hr|i p sem fs slots w x j r Hj Hr
    |i p sem fs slots w j Hj|i p sem fs slots w x j d Hj Hw|i p sem fs slots w x j d Hw|i p sem fs slots w x j e|i p sem fs slots w x j|i p sem fs slots w x];
    cbn [dnNext dnProducing dnSem dnFetching dnSlots dnConsumer dnWritten dnCancelled] in *.
  - exists rel. assert (slots !! i = None) as Hn.
    { destruct (slots !! i) as [r|] eqn:E; [|done]. destruct (H5 _ _ E) as [_ [[_ ?]|[? _]]]; [done|lia]. }
    split; cbn; try done; try lia.
    + intros j Hj. apply elem_of_union in Hj as [->%elem_of_singleton|Hj]; [split; [lia|done]|]. specialize (H4 j Hj). split; [lia|apply H4].
    + intros j r E. destruct (H5 _ _ E) as [? [[_ ?]|[? ?]]]; [done|]. split; [done|]. right. split; [lia|done].
    + destruct c as [k|k r|e]; [|..|done].
      * destruct H6 as [-> H6]. split; [done|]. intros j Hj. destruct (decide (j = i)) as [->|]; [left; set_solver|]. destruct (H6 j ltac:(lia)); [left; set_solver|by right].
      * destruct H6 as (-> & ? & ? & ? & [[_ ?]|[Hk ?]] & H6); [done|]. split_and!; [done|done|done|rewrite elem_of_union, elem_of_singleton; intros [->|]; [lia|done]|right; split; [lia|done]|].
        intros j Hj. destruct (decide (j = i)) as [->|]; [left; set_solver|]. destruct (H6 j ltac:(lia)); [left; set_solver|by right].
  - exists rel. split; cbn; try done; try lia.
    + intros j r E. destruct (H5 _ _ E) as [? [[_ ?]|[? ?]]]; [done|]. split; [done|by right].
    + destruct c as [k|k r|e]; [done| |done]. destruct H6 as (-> & ? & ? & ? & [[_ ?]|Hk] & H6); [done|]. split_and!; try done. by right.
  - exists rel. split; cbn; try done; try lia.
    + intros j Hj. specialize (H4 j Hj) as [? ?]. split; [lia|]. by rewrite fill_lookup, decide_False by lia.
    + intros j r. rewrite fill_lookup. destruct (decide (i <= j < n)); [intros [= <-]; split; [lia|by left]|]. intros E. destruct (H5 _ _ E) as [? [[_ ?]|[? ?]]]; [done|]. split; [done|by right].
    + destruct c as [k|k r|e]; [|..|done].
      * destruct H6 as [-> H6]. split; [done|]. intros j Hj. rewrite fill_lookup, decide_False by lia. by apply H6.
      * destruct H6 as (-> & ? & ? & ? & [[_ ?]|[Hk ?]] & H6); [done|]. rewrite fill_lookup, decide_False by lia. split_and!; [done|done|done|done|by right|].
        intros j Hj. rewrite fill_lookup, decide_False by lia. by apply H6.
  - exists rel. specialize (H4 j Hj) as Hj4. split; cbn; try done; try lia.
    + intros k Hk. apply elem_of_difference in Hk as [Hk Hne]. specialize (H4 k Hk). rewrite lookup_insert_ne by set_solver. done.
    + intros k r'. destruct (decide (j = k)) as [<-|]; [rewrite lookup_insert_eq; intros [= <-]; split; [lia|right; split; [lia|done]]|rewrite lookup_insert_ne by done; apply H5].
    + assert (forall k, k ∈ fs \/ is_Some (slots !! k) -> k ∈ fs ∖ {[j]} \/ is_Some (<[j:=r]> slots !! k)) as Hin.
      { intros k Hk. destruct (decide (j = k)) as [<-|]; [right; rewrite lookup_insert_eq; by eexists|]. rewrite lookup_insert_ne by done. set_solver. }
      destruct c as [k|k r'|e]; [|..|done].
      * destruct H6 as [-> H6]. split; [done|]. intros k Hk. apply Hin, H6, Hk.
      * destruct H6 as (-> & ? & ? & ? & ? & H6). split_and!; [done|done|rewrite lookup_insert_ne; [done|by intros ->]|set_solver|done|]. intros k Hk. apply Hin, H6, Hk.
  - exists rel. destruct H6 as [-> H6]. split; cbn; try done; try lia.
    + intros k Hk. specialize (H4 k Hk) as [? ?]. split; [done|]. by rewrite lookup_delete_None; right.
    + intros k r'. rewrite lookup_delete_Some. intros [_ E]. by apply H5.
    + split_and!; [done|done|apply lookup_delete_eq|intros Hf; specialize (H4 _ Hf) as [_ ?]; congruence| |].
      * destruct (H5 _ _ Hr) as [_ ?]. done.
      * intros k Hk. rewrite lookup_delete_ne by lia. apply H6. lia.
    + left. destruct H8 as [?|[? ?]]; done.
  - exists rel. destruct H6 as [-> _]. split; cbn; try done; try lia. right. by eexists.
  - exists (S rel). destruct H6 as (-> & ? & Hs & Hf & Hk & H6). split; cbn; try done; try lia.
    + intros k Hk2. specialize (H4 k Hk2) as [? ?]. split; [|done]. assert (k <> rel) by (by intros ->). lia.
    + intros k r' E. destruct (H5 _ _ E) as [? ?]. split; [|done]. assert (k <> rel) by (intros ->; congruence). lia.
    + left. rewrite length_app. destruct H8 as [?|[? ?]]; [simpl; lia|done].
    + intros k d' E. destruct H8 as [Hl|[? ?]]; [|done]. apply lookup_app_Some in E as [E|[Hle E]]; [by apply H9|]. destruct (k - length w) eqn:Ek; [|done]. injection E as <-.
      assert (k = rel) as -> by lia. destruct Hk as [[? _]|[_ ?]]; [done|]. done.
  - eexists. by eapply wf_return.
  - eexists. by eapply wf_return.
  - eexists. by eapply wf_return.
  - exists rel. destruct H6 as [-> H6]. split; cbn; try done; try lia. left. destruct H8 as [?|[? ?]]; done.
Qed.

Lemma wf_run s : run start s -> exists rel, wf rel s.
Proof.
  assert (exists rel, wf rel start) as H by (exists 0; apply wf_start). intros Hr. unfold run in Hr. induction Hr as [|s1 s2 s3 Hs _ IH]; [done|].
  apply IH. destruct H as [rel H]. by eapply wf_step.
Qed.

Lemma run_left k s s' : nsteps step k s s' -> left s' + k <= left s.
Proof. intros H. induction H as [|k s1 s2 s3 Hs _ IH]; [lia|]. apply step_left in Hs. lia. Qed.

(** The results that hold a chunk or the error of its fetch. *)
Definition buffered (s : Download) : gmap nat Slot := filter (fun kv => kv.2 <> SlotCancelled) (dnSlots s).

(** However the goroutines are scheduled, the chunks that are being
    fetched and those fetched and not yet written are never more than the permits
    of the semaphore. *)
Theorem fs_download_bounded s (Hrun : run start s) : size (dnFetching s) + size (buffered s) <= ahead.
Proof.
  destruct (wf_run s Hrun) as [rel [H1 H2 H3 H4 H5 _ _ _ _]]. assert (dom (buffered s) ⊆ dom (dnSlots s)) as Hsub by apply dom_filter_subseteq.
  rewrite <- (size_dom (D := gset nat) (buffered s)), <- size_union.
  - assert (dnFetching s ∪ dom (buffered s) ⊆ set_seq rel (dnSem s)) as H.
    { intros j. rewrite elem_of_set_seq. rewrite elem_of_union. intros [Hj|Hj]; [specialize (H4 j Hj); lia|].
      apply elem_of_dom in Hj as [r Hr]. unfold buffered in Hr. apply map_lookup_filter_Some in Hr as [Hr Hne]. destruct (H5 _ _ Hr) as [? [[? _]|[? _]]]; [done|lia]. }
    apply subseteq_size in H. rewrite size_set_seq in H. lia.
  - intros j Hj Hd. apply Hsub, elem_of_dom in Hd as [r Hr]. destruct (H4 j Hj) as [_ ?]. congruence.
Qed.

Lemma returned_written s : run start s -> dnConsumer s = Returned None ->
  length (dnWritten s) = n /\ forall j d, dnWritten s !! j = Some d -> fetched j (SlotData d).
Proof.
  intros Hrun Hret. destruct (wf_run s Hrun) as [rel [_ _ _ _ _ H6 _ H8 H9]]. rewrite Hret in H6, H8. split; [|intros j d Hd; by apply H9].
  rewrite (H6 eq_refl) in H8. destruct H8 as [?|[? ?]]; [done|]. done.
Qed.

(** Nothing is left to do but to cancel. *)
Definition final (s : Download) : Prop := forall s', ~ work s s'.

(** C31 (liveness). Every run is finite, with at most [12 n + 4] steps; and where
    nothing can happen any more the caller has returned, unless its context was
    cancelled and it waits for a permit that the producer never took for the slot
    it filled.  Without a cancellation the download returns. *)
Theorem fs_download_returns (Hahead : 0 < ahead) (Hfetch : forall j, j < n -> exists r, fetched j r) :
  (forall k s, nsteps step k start s -> k <= 12 * n + 4) /\
  (forall s, run start s -> final s ->
     (exists e, dnConsumer s = Returned e) \/
     (dnCancelled s = true /\ dnSem s = 0 /\ dnConsumer s = Holding (dnNext s) SlotCancelled)).
Proof.
  split.
  - intros k s H. apply run_left in H. rewrite left_start in H. lia.
  - intros s Hrun Hfinal. destruct (wf_run s Hrun) as [rel [H1 H2 H3 H4 H5 H6 H7 _ _]]. destruct s as [i p sem fs slots c w x]. cbn in *.
    assert (forall j, j ∈ fs -> False) as Hfs.
    { intros j Hj. destruct (H4 j Hj) as [? _]. destruct (Hfetch j ltac:(lia)) as [r Hr]. by eapply Hfinal, StepFetched. }
    destruct c as [j|j r|e]; [|right|left; by eexists].
    + exfalso. destruct H6 as [-> H6]. destruct (decide (rel = n)) as [->|]; [by eapply Hfinal, StepEnd|].
      destruct (decide (rel < i)).
      * destruct (H6 rel ltac:(lia)) as [Hf|[r Hr]]; [by eapply Hfs|]. eapply Hfinal, (StepTake _ _ _ _ _ _ _ _ r); [lia|done].
      * assert (i = rel) as -> by lia. assert (sem = 0) as -> by lia. destruct p; [eapply Hfinal, StepAcquire; lia|].
        rewrite H7 in * by lia || done. eapply Hfinal, StepDone. lia.
    + destruct H6 as (-> & Hn & _ & _ & Hr & _). destruct sem as [|sem].
      * assert (i = rel) as -> by lia. destruct Hr as [[-> ->]|[? _]]; [|lia]. split_and!; [by apply H7|done|done].
      * exfalso. destruct r as [d|e|]; [destruct (writeOk rel d) eqn:Ew|..].
        -- by eapply Hfinal, StepWrite.
        -- by eapply Hfinal, StepWriteErr.
        -- by eapply Hfinal, StepErr.
        -- by eapply Hfinal, StepCancelled.
Qed.

(** *** A cancelled download that never returns *)

Context (d : nat -> string).

(** The producer has started [k] chunks and they have been fetched. *)
Lemma reach_fetched k :
  k <= ahead -> ahead < n -> (forall j, j < ahead -> fetched j (SlotData (d j))) ->
  exists slots, run start (mkDownload k true k ∅ slots (Waiting 0) [] false) /\ forall j, slots !! j = if decide (j < k) then Some (SlotData (d j)) else None.
Proof.
  intros Hk Hn Hf. induction k as [|k IH]; [exists ∅; split; [apply rtc_refl|intros j; by rewrite lookup_empty, decide_False by lia]|].
  destruct (IH ltac:(lia)) as (slots & Hr & Hs). exists (<[k := SlotData (d k)]> slots). split.
  - unfold run in *; etrans; [exact Hr|]. eapply rtc_l; [apply StepWork, StepAcquire; lia|]. eapply rtc_l; [apply StepWork, (StepFetched _ _ _ _ _ _ _ _ k (SlotData (d k))); [set_solver|apply Hf; lia]|].
    replace (({[k]} ∪ ∅) ∖ {[k]} : gset nat) with (∅ : gset nat) by set_solver. apply rtc_refl.
  - intros j. destruct (decide (k = j)) as [<-|]; [by rewrite lookup_insert_eq, decide_True by lia|]. rewrite lookup_insert_ne, Hs by done.
    destruct (decide (j < k)); [by rewrite decide_True by lia|by rewrite decide_False by lia].
Qed.

(** The caller takes and writes the first [k] chunks. *)
Lemma reach_consumed k p slots :
  k <= ahead -> ahead < n -> (forall j, j < ahead -> slots !! j = Some (SlotData (d j)) /\ writeOk j (d j) = true) ->
  exists slots' w, run (mkDownload ahead p ahead ∅ slots (Waiting 0) [] true) (mkDownload ahead p (ahead - k) ∅ slots' (Waiting k) w true) /\
    forall j, k <= j -> slots' !! j = slots !! j.
Proof.
  intros Hk Hn Hs. induction k as [|k IH]; [exists slots, []; rewrite Nat.sub_0_r; split; [apply rtc_refl|done]|].
  destruct (IH ltac:(lia)) as (slots' & w & Hr & Hsame). destruct (Hs k ltac:(lia)) as [E Hw]. exists (delete k slots'), (w ++ [d k]). split.
  - unfold run in *; etrans; [exact Hr|]. eapply rtc_l; [apply StepWork, (StepTake _ _ _ _ _ _ _ _ (SlotData (d k))); [lia|rewrite Hsame by lia; exact E]|].
    replace (ahead - k) with (S (ahead - S k)) by lia. eapply rtc_l; [apply StepWork, StepWrite; [lia|done]|]. apply rtc_refl.
  - intros j Hj. rewrite lookup_delete_ne by lia. apply Hsame. lia.
Qed.

(** A download of more chunks than permits can hang when it is
    cancelled: the producer, which waits for a permit, fills the remaining slots so
    that the caller does not block; the caller, which may choose a slot rather than
    [ctx.Done()], then waits for a permit of that slot, and nobody gives one. *)
Theorem fs_download_hangs (Hn : ahead < n) (Hfetch : forall j, j < ahead -> fetched j (SlotData (d j)) /\ writeOk j (d j) = true) :
  exists s, run start s /\ final s /\ dnCancelled s = true /\ dnConsumer s = Holding ahead SlotCancelled.
Proof.
  destruct (reach_fetched ahead (le_n _) Hn (fun j Hj => proj1 (Hfetch j Hj))) as (slots & Hr & Hs).
  destruct (reach_consumed ahead false (fillCancelled ahead n slots) (le_n _) Hn) as (slots2 & w & Hr2 & Hs2).
  { intros j Hj. rewrite fill_lookup, decide_False, Hs, decide_True by lia. split; [done|by apply Hfetch]. }
  exists (mkDownload ahead false 0 ∅ (delete ahead slots2) (Holding ahead SlotCancelled) w true). split_and!; [|intros s' H; inversion H; subst; try lia; set_solver|done|done].
  unfold run in *; etrans; [exact Hr|]. eapply rtc_l; [apply StepCancel|]. eapply rtc_l; [apply StepWork, StepGiveUp, Hn|].
  unfold run in *; etrans; [exact Hr2|]. rewrite Nat.sub_diag. eapply rtc_l; [apply StepWork, (StepTake _ _ _ _ _ _ _ _ SlotCancelled); [lia|]|apply rtc_refl].
  by rewrite Hs2, fill_lookup, decide_True by lia.
Qed.

End Steps.

(** ** The chunks of a file *)

Section File.
Context `{CL : CryptoLib} `{KL : ChunkLib}.

(** What the goroutine of chunk [j] puts in its slot: the planner, the cache, the
    peers and the backend are as they are when it fetches. *)
Definition fetchOf (nsID nsKey : string) (reuse : option Reuse) (hashes : list string) (j : nat) (r : Slot) : Prop :=
  exists env hs st hash, hashes !! j = Some hash /\
    match (fetchPlannedChunk env nsID nsKey reuse (planChunk env hs (bool_decide (is_Some reuse)) hash) st).2 with
    | Ok (x, _) => r = SlotData x
    | Err (Failed e) => r = SlotErr e
    | Err Panicked => False
    end.

Lemma fetchOf_name nsID nsKey reuse hashes j x hash :
  reuse_authentic reuse -> fetchOf nsID nsKey reuse hashes j (SlotData x) -> hashes !! j = Some hash -> ContentHash x = hash.
Proof.
  intros Hr (env & hs & st & h & Hh & H) E. assert (h = hash) as -> by congruence. destruct (fetchPlannedChunk _ _ _ _ _ _) as [s [[y k]|[e|]]] eqn:Ef; simpl in H; [|done|done].
  injection H as ->. by eapply trySources_authentic.
Qed.

(** The path without goroutines, for a file of at most one chunk. *)
Definition downloadOne (env : FetchEnv) (nsID nsKey : string) (reuse : option Reuse) (writeOk : string -> bool) (chunks : list plannedChunk)
    (st : FetchState) : FetchState * result Failure (list string) :=
  match chunks with
  | [] => (st, Ok [])
  | c :: _ =>
      match fetchPlannedChunk env nsID nsKey reuse c st with
      | (st, Err e) => (st, Err e)
      | (st, Ok (plain, _)) => if writeOk plain then (st, Ok [plain]) else (st, Err (Failed "writing chunk"))
      end
  end.

(** C9 (functional). A download that succeeds has written the pieces of the plan,
    in order, however their fetches overtook each other and whatever the sources
    returned; when the plan is that of a stored file, what is written is the file,
    unless two contents have the same hash. *)
Theorem fs_download_is_file nsID nsKey reuse hashes ahead writeOk s
  (Hreuse : reuse_authentic reuse)
  (Hrun : run (length hashes) ahead (fetchOf nsID nsKey reuse hashes) writeOk start s) (Hret : dnConsumer s = Returned None) :
  Forall2 (fun h x => ContentHash x = h) hashes (dnWritten s) /\
  (forall data, hashes = map ContentHash (cdcSplit data) ->
     foldr (fun c acc => c +:+ acc) "" (dnWritten s) = data \/ collision data).
Proof.
  destruct (returned_written _ _ _ _ s Hrun Hret) as [Hl Hw]. assert (Forall2 (fun h x => ContentHash x = h) hashes (dnWritten s)) as H.
  { apply Forall2_same_length_lookup_2; [done|]. intros j h x Hh Hx. by eapply fetchOf_name; [|apply Hw|]. }
  split; [done|]. intros data ->. by apply same_hashes.
Qed.

(** The path for one chunk writes what its name says as well. *)
Lemma downloadOne_authentic env nsID nsKey reuse writeOk hs hash st st' w :
  reuse_authentic reuse -> downloadOne env nsID nsKey reuse writeOk [planChunk env hs (bool_decide (is_Some reuse)) hash] st = (st', Ok w) ->
  exists x, w = [x] /\ ContentHash x = hash.
Proof.
  intros Hr. unfold downloadOne. destruct (fetchPlannedChunk _ _ _ _ _ _) as [s [[x k]|e]] eqn:Ef; [|done]. destruct (writeOk x); [|done].
  intros [= <- <-]. exists x. split; [done|]. by eapply trySources_authentic.
Qed.

End File.

(** ** The hypotheses of the theorems can hold *)

Module Demo.
Import Seal.Demo FsChunks.Demo.

(** Two chunks, one permit. *)
Definition hi : string := "hi".
Definition piece (j : nat) : string := match j with O => "h" | _ => "i" end.
Definition hashes : list string := [ContentHash "h"; ContentHash "i"].
Definition blobOf (x : string) : string := match encodeChunkBlob "nonce-12byte" (ContentHash x) nsKey x with Ok b => b | Err _ => "" end.
Definition backend : FetchEnv := mkFetchEnv "/objs" "" 1000 None
  (Some (fun key => if bool_decide (BlobKey (ContentHash "h") = Some key) then Ok (blobOf "h") else Ok (blobOf "i")))
  (fun _ => Err (mkReadErr "not found" false)) ∅ (fun _ => true) (fun _ => true).
Abbreviation fetched := (fetchOf "ns" nsKey None hashes).
Abbreviation anyWrite := (fun (_ : nat) (_ : string) => true).

Lemma fetches j : j < 2 -> fetched j (SlotData (piece j)).
Proof.
  intros Hj. exists backend, ∅, (mkFetchState ∅ ∅), (ContentHash (piece j)).
  destruct j as [|[|j]]; [..|lia]; (split; [reflexivity|]); vm_compute; reflexivity.
Qed.

(** A whole run, with the goroutines in turns. *)
Lemma demo_run : exists s, run 2 1 fetched anyWrite start s /\ dnConsumer s = Returned None /\ dnWritten s = ["h"; "i"].
Proof.
  eexists. split.
  - eapply rtc_l; [apply StepWork, StepAcquire; lia|]. eapply rtc_l; [apply StepWork, (StepFetched _ _ _ _ _ _ _ _ _ _ _ _ 0); [set_solver|apply (fetches 0); lia]|].
    eapply rtc_l; [apply StepWork, (StepTake _ _ _ _ _ _ _ _ _ _ _ 0); [lia|apply lookup_insert_eq]|]. eapply rtc_l; [apply StepWork, StepWrite; [lia|done]|].
    eapply rtc_l; [apply StepWork, StepAcquire; lia|]. eapply rtc_l; [apply StepWork, (StepFetched _ _ _ _ _ _ _ _ _ _ _ _ 1); [set_solver|apply (fetches 1); lia]|].
    eapply rtc_l; [apply StepWork, (StepTake _ _ _ _ _ _ _ _ _ _ _ 1); [lia|apply lookup_insert_eq]|]. eapply rtc_l; [apply StepWork, StepWrite; [lia|done]|].
    eapply rtc_l; [apply StepWork, StepEnd|]. apply rtc_refl.
  - by split.
Qed.

Lemma fs_download_is_file_witness :
  exists s, run 2 1 fetched anyWrite start s /\ dnConsumer s = Returned None /\
    (foldr (fun c acc => c +:+ acc) "" (dnWritten s) = "hi" \/ collision "hi").
Proof.
  destruct demo_run as (s & Hr & He & _). exists s. split; [exact Hr|]. split; [exact He|].
  exact (proj2 (fs_download_is_file "ns" nsKey None hashes 1 anyWrite s I Hr He) "hi" eq_refl).
Defined.

Lemma fs_download_bounded_witness :
  exists s, run 2 1 fetched anyWrite start s /\ dnConsumer s = Returned None /\ size (dnFetching s) + size (buffered s) <= 1.
Proof.
  destruct demo_run as (s & Hr & He & _). exists s. split; [exact Hr|]. split; [exact He|]. exact (fs_download_bounded 2 1 fetched anyWrite s Hr).
Defined.

Lemma fs_download_returns_witness :
  (0 < 1 /\ fetched 0 (SlotData "h")) /\ (forall k s, nsteps (step 2 1 fetched anyWrite) k start s -> k <= 28).
Proof.
  split; [split; [lia|apply (fetches 0); lia]|].
  apply (fs_download_returns 2 1 fetched anyWrite ltac:(lia) (fun j Hj => ex_intro _ _ (fetches j Hj))).
Defined.

Lemma fs_download_hangs_witness :
  1 < 2 /\ exists s, run 2 1 fetched anyWrite start s /\ final 2 1 fetched anyWrite s /\ dnCancelled s = true /\ dnConsumer s = Holding 1 SlotCancelled.
Proof.
  split; [lia|]. apply (fs_download_hangs 2 1 fetched anyWrite piece ltac:(lia)). intros j Hj. split; [apply fetches; lia|done].
Defined.

End Demo.
