(* ===== verification/FsPeer.v ===== *)
(** * Snapshots between peers (pkg/fs/p2p.go: merging and summaries)

    Two devices that are connected exchange whole snapshots of a drive with their
    tombstones.  [mergePeerSnapshot] turns what is newer in the remote snapshot
    into entries of the local log.  What a device knows of a path are the clocks of
    its file, of its tombstone and of the tombstones of the directories above it;
    a merge joins what both know. *)

From Stdlib Require Import Ascii.
From stdpp Require Import base numbers list gmap strings countable pretty.
From S2P Require Import Prelude GoStrings JsonLines FsOps FsLocalLog FsPoll.

#[local] Open Scope Z_scope.

(** ** Clocks *)

(** [lwwClock] has the fields and the [beats] of the clock of the log. *)
Abbreviation lwwClock := clockTuple.

Definition clockFromFileInfo (fi : FileInfo) : lwwClock := mkClock (unix_seconds (fiModified fi)) (fiDevice fi) (fiSeq fi).
Definition clockFromDirInfo (di : DirInfo) : lwwClock := mkClock (unix_seconds (diModified di)) (diDevice di) (diSeq di).
Definition clockFromTombstone (t : TombstoneInfo) : lwwClock := mkClock (unix_seconds (tiModified t)) (tiDevice t) (tiSeq t).

Definition fileDescendsFile (candidate current : FileInfo) : bool := same_checksum (fiPrevChecksum candidate) (fiChecksum current).
Definition tombstoneDescendsFile (tomb : TombstoneInfo) (current : FileInfo) : bool := same_checksum (tiPrevChecksum tomb) (fiChecksum current).

(** ** What of the remote snapshot is applied *)

(** The nearest directory above the path with a tombstone. *)
Fixpoint coveringFrom (fuel : nat) (dir : string) (tombs : gmap string TombstoneInfo) : option TombstoneInfo :=
  match fuel with
  | O => None
  | S fuel =>
      match LastIndexByte dir "/" with
      | None => None
      | Some i =>
          let dir := str_take i dir in
          match tombs !! dir with Some tomb => Some tomb | None => coveringFrom fuel dir tombs end
      end
  end.

Definition coveringDirTombstone (path : string) (tombs : gmap string TombstoneInfo) : option TombstoneInfo :=
  coveringFrom (S (String.length path)) path tombs.

(** [ok && !remoteClock.beats(clock)] of a record that may be there. *)
Definition notBeaten {A} (c : lwwClock) (clock : A -> lwwClock) (local : option A) : bool :=
  match local with Some x => negb (beats c (clock x)) | None => false end.

Definition shouldApplyRemoteRootTombstone (remote : TombstoneInfo) (localRoot : option TombstoneInfo) : bool :=
  match localRoot with None => true | Some r => beats (clockFromTombstone remote) (clockFromTombstone r) end.

Definition shouldApplyRemoteFile (path : string) (remote : FileInfo) (local : Snapshot) (localRoot : option TombstoneInfo) : bool :=
  let c := clockFromFileInfo remote in
  negb (notBeaten c clockFromTombstone localRoot)
  && match files local !! path with
     | Some lf => negb (fileDescendsFile lf remote) && (fileDescendsFile remote lf || beats c (clockFromFileInfo lf))
     | None => true
     end
  && negb (notBeaten c clockFromTombstone (deleted local !! path))
  && negb (notBeaten c clockFromTombstone (coveringDirTombstone path (deletedDirs local))).

Definition shouldApplyRemoteTombstone (path : string) (remote : TombstoneInfo) (local : Snapshot) (localRoot : option TombstoneInfo) : bool :=
  let c := clockFromTombstone remote in
  negb (notBeaten c clockFromTombstone localRoot)
  && match files local !! path with Some lf => tombstoneDescendsFile remote lf || beats c (clockFromFileInfo lf) | None => true end
  && negb (notBeaten c clockFromTombstone (deleted local !! path))
  && negb (notBeaten c clockFromTombstone (coveringDirTombstone path (deletedDirs local))).

Definition shouldApplyRemoteDir (path : string) (remote : DirInfo) (local : Snapshot) (localRoot : option TombstoneInfo) : bool :=
  let c := clockFromDirInfo remote in
  negb (notBeaten c clockFromTombstone localRoot)
  && negb (notBeaten c clockFromDirInfo (dirs local !! path))
  && negb (notBeaten c clockFromTombstone (deletedDirs local !! path))
  && negb (notBeaten c clockFromTombstone (coveringDirTombstone path (deletedDirs local))).

Definition shouldApplyRemoteDirTombstone (path : string) (remote : TombstoneInfo) (local : Snapshot) (localRoot : option TombstoneInfo) : bool :=
  let c := clockFromTombstone remote in
  negb (notBeaten c clockFromTombstone localRoot)
  && negb (notBeaten c clockFromDirInfo (dirs local !! path))
  && negb (notBeaten c clockFromTombstone (deletedDirs local !! path))
  && negb (notBeaten c clockFromTombstone (coveringDirTombstone path (deletedDirs local))).

(** The entries; an empty slice of chunks becomes nil. *)
Definition peerPut (path : string) (fi : FileInfo) : Entry :=
  mkEntry (if bool_decide (fiLinkTarget fi <> "") then Symlink else Put) path
    (match fiChunks fi with Some [] => None | c => c end) (fiSize fi) (fiChecksum fi) (fiPrevChecksum fi) (fiLinkTarget fi)
    (fiNamespace fi) (fiDevice fi) (unix_seconds (fiModified fi)) (fiSeq fi) "".
Definition peerCreateDir (path : string) (di : DirInfo) : Entry :=
  mkEntry CreateDir path None 0 "" "" "" (diNamespace di) (diDevice di) (unix_seconds (diModified di)) (diSeq di) "".
Definition peerDelete (path : string) (t : TombstoneInfo) : Entry :=
  mkEntry Delete path None 0 "" (tiPrevChecksum t) "" (tiNamespace t) (tiDevice t) (unix_seconds (tiModified t)) (tiSeq t) "".
Definition peerDeleteDir (path : string) (t : TombstoneInfo) : Entry :=
  mkEntry DeleteDir path None 0 "" "" "" (tiNamespace t) (tiDevice t) (unix_seconds (tiModified t)) (tiSeq t) "".
Definition peerDeleteRoot (t : TombstoneInfo) : Entry :=
  mkEntry DeleteRoot "" None 0 "" (tiPrevChecksum t) "" (tiNamespace t) (tiDevice t) (unix_seconds (tiModified t)) (tiSeq t) "".

(** The records of one map that pass the test, in the order of the paths. *)
Definition applied {A} (should : string -> A -> bool) (entry : string -> A -> Entry) (m : gmap string A) : list Entry :=
  omap (fun kv => if should kv.1 kv.2 then Some (entry kv.1 kv.2) else None) (sorted_items m).

(** What a merge appends.  Every test but the one of the root reads the snapshot
    taken before the first append. *)
Definition peerEntries (local remote : Snapshot) : list Entry :=
  let '(root, localRoot) :=
    match deletedRoot remote with
    | Some r => if shouldApplyRemoteRootTombstone r (deletedRoot local) then ([peerDeleteRoot r], Some r) else ([], deletedRoot local)
    | None => ([], deletedRoot local)
    end in
  root
  ++ applied (fun p t => shouldApplyRemoteDirTombstone p t local localRoot) peerDeleteDir (deletedDirs remote)
  ++ applied (fun p t => shouldApplyRemoteTombstone p t local localRoot) peerDelete (deleted remote)
  ++ applied (fun p d => shouldApplyRemoteDir p d local localRoot) peerCreateDir (dirs remote)
  ++ applied (fun p f => shouldApplyRemoteFile p f local localRoot) peerPut (files remote).

Section Merge.
Context `{Codec : LineCodec Entry}.

(** The appends up to the first that fails, and how many succeeded. *)
Fixpoint appendEach (env : PollEnv) (es : list Entry) (l : LocalOpsLog) (merged : Z) : LocalOpsLog * Z * result LogErr unit :=
  match es with
  | [] => (l, merged, Ok tt)
  | e :: es =>
      match Append (pIO env e) (pN0 env) (pN1 env) e l with
      | (l, Err x) => (l, merged, Err x)
      | (l, Ok _) => appendEach env es l (merged + 1)
      end
  end.

Definition mergePeerSnapshot (env : PollEnv) (remote : Snapshot) (l : LocalOpsLog) : LocalOpsLog * Z * result LogErr unit :=
  match getSnapshot (pRead env) (pN0 env) (pN1 env) l with
  | (l, Err x) => (l, 0, Err x)
  | (l, Ok local) => appendEach env (peerEntries local remote) l 0
  end.

End Merge.

(** ** What a snapshot knows of a path *)

Inductive mark (c : Snapshot) (p : string) : lwwClock -> Prop :=
| mark_file f : files c !! p = Some f -> mark c p (ClockTuple f)
| mark_tomb t : deleted c !! p = Some t -> mark c p (tombstoneClock t)
| mark_dir d t : under d p -> deletedDirs c !! d = Some t -> mark c p (tombstoneClock t).

(** A clock that is not newer than a recorded one. *)
Definition knows (c : Snapshot) (p : string) (k : lwwClock) : Prop := exists k', mark c p k' /\ clock_le k k'.

(** The deletions recorded for a path. *)
Inductive gone (c : Snapshot) (p : string) : lwwClock -> Prop :=
| gone_tomb t : deleted c !! p = Some t -> gone c p (tombstoneClock t)
| gone_dir d t : under d p -> deletedDirs c !! d = Some t -> gone c p (tombstoneClock t).

(** A snapshot of a drive that was never deleted as a whole. *)
Record peer_ok (c : Snapshot) : Prop := {
  po_ok : snapshot_ok c;
  po_root : deletedRoot c = None
}.

(** The version of a path that a snapshot records. *)
Inductive edit_of (c : Snapshot) (p : string) : Edit -> Prop :=
| edit_file f : files c !! p = Some f -> edit_of c p (fileEdit f)
| edit_tomb t : deleted c !! p = Some t -> edit_of c p (tombEdit t).

(** A version without content that replaces none it names. *)
Definition inert (x : Edit) : Prop := edSum x = "" /\ edPrev x = "".

Definition heeding (P : Edit -> Prop) : Prop := forall x y, P x -> P y -> heeds x y.

(** The clocks of a directory that is recorded, and of one that is deleted. *)
Definition dir_at (c : Snapshot) (d : string) (k : lwwClock) : Prop := exists i, dirs c !! d = Some i /\ dirClock i = k.
Definition dir_gone (c : Snapshot) (d : string) (k : lwwClock) : Prop := exists t, deletedDirs c !! d = Some t /\ tombstoneClock t = k.

(** One entry on top of a snapshot, as [Append] moves the cache on. *)
Definition onTop (n0 n1 : Time) (c : Snapshot) (e : Entry) : Snapshot := buildSnapshot n0 n1 (Some c) [e].

Lemma mark_gone c p k : gone c p k -> mark c p k.
Proof. intros [t H|d t Hu H]; [by apply mark_tomb|by eapply mark_dir]. Qed.

Lemma base_clock c p k :
  snapshot_ok c -> clocks (baseReplay c) !! p = Some k -> mark c p k.
Proof.
  intros Hok. simpl. rewrite lookup_union, !lookup_fmap. destruct (deleted c !! p) as [t|] eqn:Et.
  - simpl. destruct (files c !! p); simpl; intros [= <-]; by apply mark_tomb.
  - destruct (files c !! p) as [f|] eqn:Ef; simpl; [|done]. intros [= <-]. by apply mark_file.
Qed.

Lemma blocked_knows c p k : snapshot_ok c -> blocked k (clocks (baseReplay c) !! p) = true -> knows c p k.
Proof.
  intros Hok. destruct (clocks (baseReplay c) !! p) as [k'|] eqn:E; [|done]. simpl. rewrite negb_true_iff. intros H.
  exists k'. split; [by apply base_clock|done].
Qed.

Lemma covered_knows c p k : coveredByDirTombstone p k (dirTombstones (baseReplay c)) = true -> knows c p k.
Proof.
  intros (d & Hu & Hb)%coveredByDirTombstone_spec. simpl in Hb. rewrite lookup_fmap in Hb. destruct (deletedDirs c !! d) as [t|] eqn:E; [|done].
  simpl in Hb. rewrite negb_true_iff in Hb. exists (tombstoneClock t). split; [by eapply mark_dir|done].
Qed.

Lemma mark_same c c' p k :
  files c' !! p = files c !! p -> deleted c' !! p = deleted c !! p -> (forall d, under d p -> deletedDirs c' !! d = deletedDirs c !! d) ->
  mark c p k -> mark c' p k.
Proof.
  intros E1 E2 E3 [f H|t H|d t Hu H]; [apply mark_file; congruence|apply mark_tomb; congruence|apply (mark_dir _ _ d); [done|by rewrite E3]].
Qed.

Lemma knows_same c c' p k :
  files c' !! p = files c !! p -> deleted c' !! p = deleted c !! p -> (forall d, under d p -> deletedDirs c' !! d = deletedDirs c !! d) ->
  knows c' p k <-> knows c p k.
Proof.
  intros E1 E2 E3. split; intros (k' & H & Hle); exists k'; (split; [|done]); [|by apply (mark_same c)].
  apply (mark_same c'); [by rewrite E1|by rewrite E2| |done]. intros d Hu. by rewrite E3.
Qed.

Lemma knows_le c p k k' : knows c p k -> clock_le k' k -> knows c p k'.
Proof. intros (m & Hm & Hle) H. exists m. split; [done|]. by eapply clock_le_trans. Qed.

Lemma knows_mark c p k : mark c p k -> knows c p k.
Proof. intros H. exists k. split; [done|apply clock_beats_irrefl]. Qed.

(** What an entry adds to a snapshot. *)
Record step_to (c : Snapshot) (e : Entry) (c' : Snapshot) : Prop := {
  st_ok : peer_ok c';
  st_knows p k : knows c' p k <-> knows c p k \/ (affects p e = true /\ clock_le k (entryClock e));
  st_files p f : files c' !! p = Some f ->
    files c !! p = Some f \/ (f = fileInfoFromEntry e /\ ePath e = p /\ (eType e = Put \/ eType e = Symlink));
  st_gone p k : gone c' p k -> gone c p k \/ (affects p e = true /\ k = entryClock e /\ (eType e = Delete \/ eType e = DeleteDir));
  st_dirs d k : dir_gone c' d k -> dir_gone c d k \/ (eType e = DeleteDir /\ ePath e = d /\ k = entryClock e);
  st_dirRecs d k : dir_at c' d k -> dir_at c d k \/ (eType e = CreateDir /\ ePath e = d /\ k = entryClock e);
  st_edits p x : edit_of c' p x -> edit_of c p x \/ (affects p e = true /\ x = entryEdit e)
}.

(** The files, the tombstones and the directories' tombstones are as before, and
    what the entry is about was known. *)
Lemma step_same c e c' :
  peer_ok c' -> files c' = files c -> deleted c' = deleted c -> deletedDirs c' = deletedDirs c ->
  (forall p, affects p e = true -> knows c p (entryClock e)) ->
  (forall d k, dir_at c' d k -> dir_at c d k \/ (eType e = CreateDir /\ ePath e = d /\ k = entryClock e)) -> step_to c e c'.
Proof.
  intros Hok E1 E2 E3 Hk Hdir. split; [done|..|exact Hdir|].
  - intros p k. rewrite (knows_same c c') by (intros; congruence). split; [tauto|]. intros [?|[Ha Hle]]; [done|]. eapply knows_le; [by apply Hk|done].
  - intros p f. rewrite E1. tauto.
  - intros p k [t H|d t Hu H]; left; [apply gone_tomb; congruence|apply (gone_dir _ _ d); [done|congruence]].
  - intros d k. unfold dir_gone. rewrite E3. tauto.
  - intros p x [f H|t H]; left; [apply edit_file; congruence|apply edit_tomb; congruence].
Qed.

Lemma onTop_ok n0 n1 c e :
  snapshot_ok c -> snapshot_ok (onTop n0 n1 c e).
Proof. intros H. apply replay_snapshot_ok, (replay_is_ok (Some c)). exact H. Qed.

(** What the snapshot records where the entry applies follows the clocks with it. *)
Definition heeded (c : Snapshot) (e : Entry) : Prop :=
  forall p x, affects p e = true -> edit_of c p x -> heeds x (entryEdit e) /\ heeds (entryEdit e) x.

Lemma putRejected_base c e :
  peer_ok c -> eType e = Put \/ eType e = Symlink -> heeded c e ->
  putRejected (baseReplay c) e = blocked (entryClock e) (clocks (baseReplay c) !! ePath e).
Proof.
  intros [Hok _] Hty Hh. pose proof (baseReplay_ok c Hok) as Hr.
  assert (affects (ePath e) e = true) as Ha by (rewrite affects_own by tauto; by apply bool_decide_eq_true).
  apply putRejected_clock; [done|intros f Hf|intros t Ht].
  - split; [by apply (ok_file_clock _ Hr)|]. by apply (Hh _ _ Ha), edit_file.
  - split; [by apply (ok_del_clock _ Hr)|]. by apply (Hh _ _ Ha), edit_tomb.
Qed.

Lemma deleteRejected_base c e :
  peer_ok c -> eType e = Delete -> heeded c e ->
  deleteRejected (baseReplay c) e = blocked (entryClock e) (clocks (baseReplay c) !! ePath e).
Proof.
  intros [Hok _] Hty Hh. pose proof (baseReplay_ok c Hok) as Hr.
  assert (affects (ePath e) e = true) as Ha by (rewrite affects_own by tauto; by apply bool_decide_eq_true).
  apply deleteRejected_clock; [done|]. intros f Hf. split; [by apply (ok_file_clock _ Hr)|]. by apply (Hh _ _ Ha), edit_file.
Qed.

Lemma unblocked_beats c e p k :
  blocked (entryClock e) (clocks (baseReplay c) !! p) = false -> snapshot_ok c ->
  (forall f, files c !! p = Some f -> k = ClockTuple f -> beats (entryClock e) k = true) /\
  (forall t, deleted c !! p = Some t -> k = tombstoneClock t -> beats (entryClock e) k = true).
Proof.
  intros Hb Hok. pose proof (baseReplay_ok c Hok) as Hr. split; intros x Hx ->.
  - pose proof (ok_file_clock _ Hr p x Hx) as E. rewrite E in Hb. by apply blocked_some.
  - pose proof (ok_del_clock _ Hr p x Hx) as E. rewrite E in Hb. by apply blocked_some.
Qed.

(** A put or a deletion that replaces what was recorded at its path. *)
Lemma step_write c e c' :
  peer_ok c -> peer_ok c' -> (forall p, affects p e = bool_decide (ePath e = p)) ->
  blocked (entryClock e) (clocks (baseReplay c) !! ePath e) = false ->
  (forall p, p <> ePath e -> files c' !! p = files c !! p /\ deleted c' !! p = deleted c !! p) -> deletedDirs c' = deletedDirs c -> dirs c' = dirs c ->
  (files c' !! ePath e = Some (fileInfoFromEntry e) /\ deleted c' !! ePath e = None /\ (eType e = Put \/ eType e = Symlink) \/
   files c' !! ePath e = None /\ deleted c' !! ePath e = Some (tombstoneInfoFromEntry e) /\ eType e = Delete) ->
  step_to c e c'.
Proof.
  intros Hok Hok' Ha Hb Hother Hd Hdir Hnew. assert (mark c' (ePath e) (entryClock e)) as Hm.
  { destruct Hnew as [(H & _)|(_ & H & _)]; [rewrite <- (ClockTuple_entry e); by apply mark_file|rewrite <- (tombstoneClock_entry e); by apply mark_tomb]. }
  split; [done|..].
  - intros p k. rewrite Ha. case_bool_decide as Hp; [subst p|].
    + split.
      * intros (k' & [f H|t H|d t Hu H] & Hle).
        -- right. split; [done|]. destruct Hnew as [(E & _)|(E & _)]; [|congruence]. assert (f = fileInfoFromEntry e) as -> by congruence. by rewrite ClockTuple_entry in Hle.
        -- right. split; [done|]. destruct Hnew as [(_ & E & _)|(_ & E & _)]; [congruence|]. assert (t = tombstoneInfoFromEntry e) as -> by congruence. by rewrite tombstoneClock_entry in Hle.
        -- left. exists (tombstoneClock t). split; [|done]. apply (mark_dir _ _ d); [done|congruence].
      * intros [(k' & H & Hle)|[_ Hle]]; [|by exists (entryClock e)]. destruct (unblocked_beats c e (ePath e) k' Hb (po_ok _ Hok)) as [U1 U2].
        assert (beats (entryClock e) k' = true -> knows c' (ePath e) k) as Hdone.
        { intros Hbt. exists (entryClock e). split; [done|]. eapply clock_le_trans; [done|by apply beats_le]. }
        destruct H as [f H|t H|d t Hu H]; [by eapply Hdone, U1|by eapply Hdone, U2|]. exists (tombstoneClock t). split; [|done]. apply (mark_dir _ _ d); [done|congruence].
    + destruct (Hother p ltac:(congruence)) as [E1 E2]. rewrite (knows_same c c') by (intros; congruence). naive_solver.
  - intros p f Hf. destruct (decide (p = ePath e)) as [->|Hp]; [|left; by rewrite <- (proj1 (Hother p Hp))].
    right. destruct Hnew as [(E & _ & Hty)|(E & _)]; [|congruence]. split; [congruence|by split].
  - intros p k [t H|d t Hu H]; [|left; apply (gone_dir _ _ d); [done|congruence]]. destruct (decide (p = ePath e)) as [->|Hp].
    + right. destruct Hnew as [(_ & E & _)|(_ & E & Hty)]; [congruence|]. assert (t = tombstoneInfoFromEntry e) as -> by congruence.
      rewrite Ha, bool_decide_eq_true_2 by done. split; [done|]. split; [apply tombstoneClock_entry|by left].
    + left. apply gone_tomb. by rewrite <- (proj2 (Hother p Hp)).
  - intros d k. unfold dir_gone. rewrite Hd. tauto.
  - intros d k. unfold dir_at. rewrite Hdir. tauto.
  - intros p x Hx. destruct (decide (p = ePath e)) as [->|Hp].
    + right. rewrite Ha, bool_decide_eq_true_2 by done. split; [done|]. destruct Hnew as [(E1 & E2 & Hty)|(E1 & E2 & Hty)], Hx as [f H|t H]; try congruence.
      * assert (f = fileInfoFromEntry e) as -> by congruence. by apply entryEdit_file.
      * assert (t = tombstoneInfoFromEntry e) as -> by congruence. apply entryEdit_tomb. by left.
    + left. destruct (Hother p Hp) as [E1 E2]. destruct Hx as [f H|t H]; [apply edit_file; congruence|apply edit_tomb; congruence].
Qed.

Definition afterEntry (n0 n1 : Time) (c : Snapshot) (st : Replay) : Snapshot :=
  mkSnapshot (rFiles st) (rDirs st) (rDeleted st) (rDeletedDirs st) (rDeletedRoot st) (created c) n1.

Lemma afterEntry_base_ok n0 n1 c : peer_ok c -> snapshot_ok (afterEntry n0 n1 c (baseReplay c)) -> peer_ok (afterEntry n0 n1 c (baseReplay c)).
Proof. intros [_ H2] Hok. by split. Qed.

Lemma affects_at e p : (eType e = Put \/ eType e = Symlink \/ eType e = Delete) -> affects p e = bool_decide (ePath e = p).
Proof. unfold affects. by intros [->|[->| ->]]. Qed.

Lemma onTop_put n0 n1 c e :
  peer_ok c -> heeded c e -> (eType e = Put \/ eType e = Symlink) -> snapshot_ok (afterEntry n0 n1 c (applyPut (baseReplay c) e)) ->
  step_to c e (afterEntry n0 n1 c (applyPut (baseReplay c) e)).
Proof.
  intros Hok Hp Hty Hs. pose proof (po_ok _ Hok) as Hc. pose proof (affects_at e) as Ha. unfold applyPut in *. rewrite putRejected_base in * by done.
  destruct (blocked _ _) eqn:Hb; [|destruct (coveredByDirTombstone _ _ _) eqn:Hcov].
  - apply step_same; try done; [by apply afterEntry_base_ok| |by left]. intros p. rewrite Ha by tauto. intros <-%bool_decide_eq_true. by apply blocked_knows.
  - apply step_same; try done; [by apply afterEntry_base_ok| |by left]. intros p. rewrite Ha by tauto. intros <-%bool_decide_eq_true. by apply covered_knows.
  - assert (peer_ok (afterEntry n0 n1 c (mkReplay (<[ePath e := fileInfoFromEntry e]> (rFiles (baseReplay c))) (rDirs (baseReplay c)) (delete (ePath e) (rDeleted (baseReplay c)))
      (rDeletedDirs (baseReplay c)) (rDeletedRoot (baseReplay c)) (<[ePath e := entryClock e]> (clocks (baseReplay c))) (dirTombstones (baseReplay c))
      (rootTombstone (baseReplay c)) (dirClocks (baseReplay c))))) as Hok'.
    { destruct Hok as [_ H2]. by split. }
    apply step_write; try done.
    + intros p. apply Ha. tauto.
    + intros p Hne. cbn. by rewrite lookup_insert_ne, lookup_delete_ne by done.
    + left. cbn. by rewrite lookup_insert_eq, lookup_delete_eq.
Qed.

Lemma onTop_delete n0 n1 c e :
  peer_ok c -> heeded c e -> eType e = Delete -> snapshot_ok (afterEntry n0 n1 c (applyDelete (baseReplay c) e)) ->
  step_to c e (afterEntry n0 n1 c (applyDelete (baseReplay c) e)).
Proof.
  intros Hok Hp Hty Hs. pose proof (po_ok _ Hok) as Hc. pose proof (affects_at e) as Ha. unfold applyDelete in *. rewrite deleteRejected_base in * by done.
  destruct (blocked _ _) eqn:Hb.
  - apply step_same; try done; [by apply afterEntry_base_ok| |by left]. intros p. rewrite Ha by tauto. intros <-%bool_decide_eq_true. by apply blocked_knows.
  - apply step_write; try done.
    + destruct Hok as [_ H2]. by split.
    + intros p. apply Ha. tauto.
    + intros p Hne. cbn. by rewrite lookup_insert_ne, lookup_delete_ne by done.
    + right. cbn. by rewrite lookup_insert_eq, lookup_delete_eq.
Qed.

Lemma onTop_createDir n0 n1 c e :
  peer_ok c -> eType e = CreateDir -> (forall k, dir_gone c (ePath e) k -> beats k (entryClock e) = true) ->
  snapshot_ok (afterEntry n0 n1 c (applyCreateDir (baseReplay c) e)) -> step_to c e (afterEntry n0 n1 c (applyCreateDir (baseReplay c) e)).
Proof.
  intros Hok Hty Hold Hs. set (c' := afterEntry n0 n1 c (applyCreateDir (baseReplay c) e)) in *.
  assert (deletedDirs c' = deletedDirs c /\ files c' = files c /\ deleted c' = deleted c /\ deletedRoot c' = deletedRoot c /\
    (dirs c' = dirs c \/ dirs c' = <[ePath e := dirInfoFromEntry e]> (dirs c))) as (E1 & E2 & E3 & E4 & E5).
  { subst c'. unfold applyCreateDir. destruct (blocked _ (dirClocks _ !! _)); [by split_and!; try left|].
    destruct (blocked _ (dirTombstones _ !! _)) eqn:Hb; [by split_and!; try left|]. destruct (coveredByDirTombstone _ _ _); [by split_and!; try left|].
    cbn. split_and!; try done; [|by right]. apply delete_id. destruct (deletedDirs c !! ePath e) as [t|] eqn:Et; [|done]. exfalso.
    cbn in Hb. rewrite lookup_fmap, Et in Hb. apply blocked_some in Hb.
    specialize (Hold (tombstoneClock t) (ex_intro _ t (conj Et eq_refl))). 
    pose proof (clock_beats_asym _ _ Hb). congruence. }
  apply step_same; try done.
  - destruct Hok as [_ H2]. split; [done|congruence].
  - intros p. unfold affects. by rewrite Hty.
  - intros d k (i & Hi & <-). destruct E5 as [E5|E5]; rewrite E5 in Hi; [left; by exists i|].
    apply lookup_insert_Some in Hi as [[<- <-]|[_ Hi]]; [right|left; by exists i]. by rewrite dirClock_entry.
Qed.

Lemma onTop_deleteDir n0 n1 c e :
  peer_ok c -> eType e = DeleteDir -> snapshot_ok (afterEntry n0 n1 c (applyDeleteDir (baseReplay c) e)) ->
  step_to c e (afterEntry n0 n1 c (applyDeleteDir (baseReplay c) e)).
Proof.
  intros Hok Hty Hs. pose proof (po_ok _ Hok) as Hc. set (st := baseReplay c) in *. set (c' := afterEntry n0 n1 c (applyDeleteDir st e)) in *.
  pose proof (deleteDir_files st e) as Ff. pose proof (deleteDir_deleted st e) as Fd. change (rFiles (applyDeleteDir st e)) with (files c') in Ff.
  change (rDeleted (applyDeleteDir st e)) with (deleted c') in Fd. change (rFiles st) with (files c) in *. change (rDeleted st) with (deleted c) in *.
  set (wins := negb (blocked (entryClock e) (dirTombstones st !! ePath e))).
  assert (deletedDirs c' = if wins then <[ePath e := tombstoneInfoFromEntry e]> (deletedDirs c) else deletedDirs c) as Fdd by done.
  assert (forall p, affects p e = HasPrefix p (ePath e +:+ "/")) as Ha by (intros p; unfold affects; by rewrite Hty).
  (* The clock of the entry is recorded for the directory, as it is or by a newer one. *)
  assert (exists t, deletedDirs c' !! ePath e = Some t /\ clock_le (entryClock e) (tombstoneClock t) /\ (t = tombstoneInfoFromEntry e \/ deletedDirs c !! ePath e = Some t)) as (tN & EtN & Hle & HtN).
  { rewrite Fdd. unfold wins. destruct (blocked _ _) eqn:Hb; cbn [negb].
    - change (dirTombstones st) with (tombstoneClock <$> deletedDirs c) in Hb. rewrite lookup_fmap in Hb. destruct (deletedDirs c !! ePath e) as [t|] eqn:Et; [|done].
      exists t. split; [done|]. split; [|by right]. simpl in Hb. by apply negb_true_iff in Hb.
    - rewrite lookup_insert_eq. eexists. split; [done|]. rewrite tombstoneClock_entry. split; [apply clock_beats_irrefl|by left]. }
  assert (forall d, d <> ePath e -> deletedDirs c' !! d = deletedDirs c !! d) as Hdd by (intros d Hd; rewrite Fdd; destruct wins; [by rewrite lookup_insert_ne|done]).
  assert (forall p, affects p e = true -> knows c' p (entryClock e)) as Hknow.
  { intros p. rewrite Ha, under_prefix. intros Hu. exists (tombstoneClock tN). split; [by eapply mark_dir|done]. }
  assert (forall p k, gone c' p k -> gone c p k \/ affects p e = true /\ k = entryClock e) as Hgone.
  { intros p k [t Ht|d t Hu Ht].
    - rewrite Fd in Ht. destruct (files c !! p) as [f|]; [destruct (removes _ _ _ _) eqn:Er|]; [|left; by apply gone_tomb..].
      injection Ht as <-. right. unfold removes in Er. apply andb_prop in Er as [Er _]. by rewrite Ha, tombstoneClock_entry.
    - destruct (decide (d = ePath e)) as [->|Hd]; [|left; rewrite Hdd in Ht by done; by eapply gone_dir]. assert (t = tN) as -> by congruence.
      destruct HtN as [->|E]; [|left; by eapply gone_dir]. right. rewrite Ha, under_prefix. split; [done|apply tombstoneClock_entry]. }
  assert (forall p k, mark c' p k -> mark c p k \/ affects p e = true /\ k = entryClock e) as Hback.
  { intros p k [f Hf|t Ht|d t Hu Ht].
    - rewrite Ff in Hf. destruct (removes _ _ _ _); [done|]. left. by apply mark_file.
    - destruct (Hgone p _ (gone_tomb c' p t Ht)) as [?|?]; [left; by apply mark_gone|by right].
    - destruct (Hgone p _ (gone_dir c' p d t Hu Ht)) as [?|?]; [left; by apply mark_gone|by right]. }
  split.
  - destruct Hok as [_ H2]. by split.
  - intros p k. split.
    + intros (k' & H & Hk'). destruct (Hback p k' H) as [?|[Haff ->]]; [left; by exists k'|by right].
    + intros [(k' & H & Hk')|[Haff Hk']]; [|by eapply knows_le; [apply Hknow|]]. destruct H as [f Hf|t Ht|d t Hu Ht].
      * destruct (removes (ePath e +:+ "/") (entryClock e) (clocks st) p) eqn:Er.
        -- unfold removes in Er. apply andb_prop in Er as [Er Hb]. apply negb_true_iff in Hb. destruct (unblocked_beats c e p (ClockTuple f) Hb Hc) as [U _].
           eapply knows_le; [apply Hknow; by rewrite Ha|]. eapply clock_le_trans; [done|]. by eapply beats_le, U.
        -- exists (ClockTuple f). split; [|done]. apply mark_file. by rewrite Ff, Er.
      * exists (tombstoneClock t). split; [|done]. apply mark_tomb. rewrite Fd. destruct (files c !! p) as [f|] eqn:Ef; [|done]. exfalso. by eapply (snap_disjoint _ Hc).
      * destruct (decide (d = ePath e)) as [->|Hd]; [|exists (tombstoneClock t); split; [|done]; apply (mark_dir _ _ d); [done|by rewrite Hdd]].
        exists (tombstoneClock tN). split; [by eapply mark_dir|]. eapply clock_le_trans; [done|]. rewrite Fdd in EtN. unfold wins in EtN. destruct (blocked _ _) eqn:Hb; cbn [negb] in EtN.
        -- assert (tN = t) as -> by congruence. apply clock_beats_irrefl.
        -- rewrite lookup_insert_eq in EtN. injection EtN as <-. rewrite tombstoneClock_entry. change (dirTombstones st) with (tombstoneClock <$> deletedDirs c) in Hb.
           rewrite lookup_fmap, Ht in Hb. simpl in Hb. apply negb_false_iff in Hb. by apply beats_le.
  - intros p f. rewrite Ff. destruct (removes _ _ _ _); [done|by left].
  - intros p k Hg. destruct (Hgone p k Hg) as [?|[? ->]]; [by left|]. right. split_and!; [done|done|by right].
  - intros d k (t & Ht & <-). destruct (decide (d = ePath e)) as [->|Hd]; [|left; exists t; by rewrite <- Hdd].
    assert (t = tN) as -> by congruence. destruct HtN as [->|E]; [right; by rewrite tombstoneClock_entry|left; by exists tN].
  - intros d k (i & Hi & <-). left. change (dirs c') with (rDirs (applyDeleteDir st e)) in Hi. rewrite deleteDir_dirs in Hi. destruct (removes _ _ _ _); [done|].
    apply dirs1_Some in Hi as [Hi _]. by exists i.
  - intros p x [f Hf|t Ht].
    + rewrite Ff in Hf. destruct (removes _ _ _ _); [done|]. left. by apply edit_file.
    + rewrite Fd in Ht. destruct (files c !! p) as [f|]; [destruct (removes _ _ _ _) eqn:Er|]; [|left; by apply edit_tomb..].
      injection Ht as <-. right. unfold removes in Er. apply andb_prop in Er as [Er _]. split; [by rewrite Ha|]. apply entryEdit_tomb. by right.
Qed.

Lemma onTop_step n0 n1 c e :
  peer_ok c -> eType e <> DeleteRoot -> heeded c e ->
  (eType e = CreateDir -> forall k, dir_gone c (ePath e) k -> beats k (entryClock e) = true) -> step_to c e (onTop n0 n1 c e).
Proof.
  intros Hok Hroot Hp Hdir. pose proof (onTop_ok n0 n1 c e (po_ok _ Hok)) as Hs.
  assert (onTop n0 n1 c e = afterEntry n0 n1 c (applyEntry (baseReplay c) e)) as E by done. rewrite E in *. unfold applyEntry in *.
  assert (rootTombstone (baseReplay c) = None) as Hr by (simpl; by rewrite (po_root _ Hok)). rewrite Hr in *. cbn [blocked] in *.
  destruct (eType e) eqn:Hty; try done.
  - apply onTop_put; try done. by left.
  - by apply onTop_delete.
  - by apply onTop_deleteDir.
  - apply onTop_createDir; try done. by apply Hdir.
  - apply onTop_put; try done. by right.
  - apply step_same; try done; [by apply afterEntry_base_ok| |by left]. intros p. unfold affects. by rewrite Hty.
Qed.

(** ** What a list of entries adds *)

Record grown (c : Snapshot) (es : list Entry) (c' : Snapshot) : Prop := {
  gr_ok : peer_ok c';
  gr_knows p k : knows c' p k <-> knows c p k \/ exists e, e ∈ es /\ affects p e = true /\ clock_le k (entryClock e);
  gr_files p f : files c' !! p = Some f ->
    files c !! p = Some f \/ exists e, e ∈ es /\ f = fileInfoFromEntry e /\ ePath e = p /\ (eType e = Put \/ eType e = Symlink);
  gr_gone p k : gone c' p k ->
    gone c p k \/ exists e, e ∈ es /\ affects p e = true /\ k = entryClock e /\ (eType e = Delete \/ eType e = DeleteDir);
  gr_dirs d k : dir_gone c' d k -> dir_gone c d k \/ exists e, e ∈ es /\ eType e = DeleteDir /\ ePath e = d /\ k = entryClock e;
  gr_dirRecs d k : dir_at c' d k -> dir_at c d k \/ exists e, e ∈ es /\ eType e = CreateDir /\ ePath e = d /\ k = entryClock e;
  gr_edits p x : edit_of c' p x -> edit_of c p x \/ exists e, e ∈ es /\ affects p e = true /\ x = entryEdit e
}.

(** A directory that one entry creates and another, or the snapshot, deletes was
    created before. *)
Definition dirs_settled (c : Snapshot) (es : list Entry) : Prop :=
  forall e, e ∈ es -> eType e = CreateDir ->
    (forall k, dir_gone c (ePath e) k -> beats k (entryClock e) = true) /\
    forall e', e' ∈ es -> eType e' = DeleteDir -> ePath e' = ePath e -> beats (entryClock e') (entryClock e) = true.

(** The versions of a path that the snapshot and the entries record follow the
    clocks. *)
Definition edits_settled (c : Snapshot) (es : list Entry) : Prop :=
  forall p, heeding (fun x => edit_of c p x \/ exists e, e ∈ es /\ affects p e = true /\ x = entryEdit e).

Lemma grow n0 n1 c es :
  peer_ok c -> Forall (fun e => eType e <> DeleteRoot) es -> dirs_settled c es -> edits_settled c es ->
  grown c es (foldl (onTop n0 n1) c es).
Proof.
  intros Hok. induction es as [|e es IH] using rev_ind; intros Hind Hdirs Hed.
  - split; [done|..]; simpl; try tauto. intros p k. split; [by left|]. intros [?|(e & He & _)]; [done|by apply elem_of_nil in He].
  - apply Forall_app in Hind as [Hind He]. rewrite Forall_singleton in He. rewrite foldl_snoc.
    assert (dirs_settled c es) as Hd' by (intros x Hx Hty; destruct (Hdirs x ltac:(set_solver) Hty) as [? Hy]; split; [done|]; intros y Hin; apply Hy; set_solver).
    assert (edits_settled c es) as He' by (intros p x y Hx Hy; apply (Hed p); set_solver).
    destruct (IH Hind Hd' He') as [G1 G2 G3 G4 G5 G6 G7]. set (c1 := foldl (onTop n0 n1) c es) in *.
    destruct (onTop_step n0 n1 c1 e G1 He) as [S1 S2 S3 S4 S5 S6 S7].
    { intros p x Ha Hx. apply G7 in Hx. split; apply (Hed p); set_solver. }
    { intros Hty k Hk. destruct (Hdirs e ltac:(set_solver) Hty) as [Hn Hy].
      destruct (G5 (ePath e) k Hk) as [?|(x & Hx & Hxt & Hxp & ->)]; [by apply Hn|apply Hy; [set_solver|done|done]]. }
    split; [done|..].
    + intros p k. rewrite S2, G2. set_solver.
    + intros p f Hf. destruct (S3 p f Hf) as [Hf'|?]; [destruct (G3 p f Hf') as [?|(x & ? & ?)]; [by left|right; exists x; set_solver]|right; exists e; set_solver].
    + intros p k Hk. destruct (S4 p k Hk) as [Hk'|?]; [destruct (G4 p k Hk') as [?|(x & ? & ?)]; [by left|right; exists x; set_solver]|right; exists e; set_solver].
    + intros d k Hd. destruct (S5 d k Hd) as [Hd2|?]; [destruct (G5 d k Hd2) as [?|(x & ? & ?)]; [by left|right; exists x; set_solver]|right; exists e; set_solver].
    + intros d k Hd. destruct (S6 d k Hd) as [Hd2|?]; [destruct (G6 d k Hd2) as [?|(x & ? & ?)]; [by left|right; exists x; set_solver]|right; exists e; set_solver].
    + intros p x Hx. destruct (S7 p x Hx) as [Hx2|?]; [destruct (G7 p x Hx2) as [?|(y & ? & ?)]; [by left|right; exists y; set_solver]|right; exists e; set_solver].
Qed.

(** ** The entries of a merge *)

Lemma elem_of_applied {A} (should : string -> A -> bool) entry (m : gmap string A) e :
  e ∈ applied should entry m <-> exists p x, m !! p = Some x /\ should p x = true /\ e = entry p x.
Proof.
  unfold applied. rewrite list_elem_of_omap. split.
  - intros ([p x] & Hin & H). apply sorted_items_spec in Hin. simpl in H. destruct (should p x) eqn:E; [|done]. injection H as <-. by exists p, x.
  - intros (p & x & Hm & Hs & ->). exists (p, x). split; [by apply sorted_items_spec|]. simpl. by rewrite Hs.
Qed.

(** One of the records of a snapshot, as the entry a merge appends for it. *)
Inductive recordOf (r : Snapshot) : Entry -> Prop :=
| rec_dirTomb p t : deletedDirs r !! p = Some t -> recordOf r (peerDeleteDir p t)
| rec_tomb p t : deleted r !! p = Some t -> recordOf r (peerDelete p t)
| rec_dir p d : dirs r !! p = Some d -> recordOf r (peerCreateDir p d)
| rec_file p f : files r !! p = Some f -> recordOf r (peerPut p f).

Lemma peerEntries_records l r e : deletedRoot r = None -> e ∈ peerEntries l r -> recordOf r e.
Proof.
  intros Hr. unfold peerEntries. rewrite Hr. simpl. rewrite !elem_of_app, !elem_of_applied.
  intros [(p & x & Hm & _ & ->)|[(p & x & Hm & _ & ->)|[(p & x & Hm & _ & ->)|(p & x & Hm & _ & ->)]]]; by constructor.
Qed.

Lemma coveringFrom_spec fuel path tombs t :
  coveringFrom fuel path tombs = Some t -> exists d, under d path /\ tombs !! d = Some t.
Proof.
  revert path. induction fuel as [|fuel IH]; intros path; cbn [coveringFrom]; [done|]. destruct (LastIndexByte path "/") as [i|] eqn:El; [|done].
  apply LastIndexByte_Some in El as (a & b & -> & Hi & Hb). rewrite <- Hi, str_take_app. change (String "/" b) with ("/" +:+ b).
  destruct (tombs !! a) as [t'|] eqn:E.
  - intros [= ->]. exists a. split; [by apply under_last; [|left]|done].
  - intros H. destruct (IH a H) as (d & Hu & Hd). exists d. split; [by apply under_last; [|right]|done].
Qed.

(** The fuel is enough: no tombstone found means that there is none above. *)
Lemma coveringFrom_none fuel path tombs :
  (String.length path < fuel)%nat -> coveringFrom fuel path tombs = None -> forall d, under d path -> tombs !! d = None.
Proof.
  revert path. induction fuel as [|fuel IH]; intros path Hf; [lia|]. cbn [coveringFrom]. destruct (LastIndexByte path "/") as [i|] eqn:El.
  - apply LastIndexByte_Some in El as (a & b & -> & Hi & Hb). rewrite <- Hi, str_take_app. change (String "/" b) with ("/" +:+ b) in *.
    destruct (tombs !! a) eqn:Ea; [done|]. intros Hn d Hd. apply under_last in Hd as [->|Hd]; [done| |done]. revert Hn d Hd. apply IH.
    rewrite !str_length_app in Hf. simpl in Hf. lia.
  - intros _ d [t ->]. exfalso. apply LastIndexByte_None in El. rewrite !str_forall_app in El. apply andb_prop in El as [_ El]. done.
Qed.

Lemma notBeaten_true {A} c (clock : A -> lwwClock) x : notBeaten c clock x = true -> exists y, x = Some y /\ clock_le c (clock y).
Proof. destruct x as [y|]; [|done]. simpl. rewrite negb_true_iff. by exists y. Qed.

(** The clock of a record that the test turns down for a newer tombstone. *)
Lemma notBeaten_tomb l c p :
  notBeaten c clockFromTombstone (deleted l !! p) = true -> knows l p c.
Proof. intros (t & E & Hle)%notBeaten_true. exists (tombstoneClock t). split; [by apply mark_tomb|done]. Qed.

Lemma notBeaten_covering l c p q :
  (q = p \/ under q p) -> notBeaten c clockFromTombstone (coveringDirTombstone q (deletedDirs l)) = true -> knows l p c.
Proof.
  intros Hq (t & E & Hle)%notBeaten_true. apply coveringFrom_spec in E as (d & Hu & Hd). exists (tombstoneClock t). split; [|done].
  apply (mark_dir _ _ d); [|done]. destruct Hq as [->|[rest ->]]; [done|]. destruct Hu as [r1 ->]. exists (r1 +:+ "/" +:+ rest). by rewrite !str_app_assoc.
Qed.

(** ** A merge joins what both know *)

(** A directory that one of the two records and either has deleted was deleted
    after it was recorded: it was not created again. *)
Definition stay_deleted (a b : Snapshot) : Prop :=
  forall d k k', dir_at a d k \/ dir_at b d k -> dir_gone a d k' \/ dir_gone b d k' -> beats k' k = true.

(** The versions that the two record of a path follow the clocks: the one that
    replaces the content of the other is the newer one. *)
Definition follow_clocks (a b : Snapshot) : Prop :=
  forall p x y, edit_of a p x -> edit_of b p y -> heeds x y /\ heeds y x.

(** What survives the way through an entry: whole seconds, and no empty slice. *)
Definition exact (c : Snapshot) : Prop :=
  forall p f, files c !! p = Some f -> whole (fiModified f) /\ fiChunks f <> Some [] /\ pendingUpload f = false.

Lemma peerPut_info p f : whole (fiModified f) -> fiChunks f <> Some [] -> fileInfoFromEntry (peerPut p f) = f.
Proof.
  unfold whole, fileInfoFromEntry, peerPut. cbn. intros Hw Hc. rewrite Hw. destruct f as [c s m k pc ns d q lt]. cbn in *. by destruct c as [[|]|].
Qed.

Lemma peerPut_type p f : eType (peerPut p f) = Put \/ eType (peerPut p f) = Symlink.
Proof. cbn. case_bool_decide; tauto. Qed.

Lemma record_affects r e p : recordOf r e -> affects p e = true -> knows r p (entryClock e).
Proof.
  intros [d t H|q t H|q d H|q f H] Ha.
  - unfold affects in Ha. cbn in Ha. apply under_prefix in Ha. apply knows_mark. by eapply (mark_dir r p d t).
  - unfold affects in Ha. cbn in Ha. apply bool_decide_eq_true in Ha as <-. apply knows_mark. by apply (mark_tomb r q t).
  - done.
  - rewrite affects_at in Ha by (destruct (peerPut_type q f); tauto). apply bool_decide_eq_true in Ha. cbn in Ha. subst q. apply knows_mark. by apply (mark_file r p f).
Qed.

Lemma record_edit r e p : recordOf r e -> affects p e = true -> edit_of r p (entryEdit e) \/ inert (entryEdit e).
Proof.
  intros [d t H|q t H|q d H|q f H] Ha.
  - by right.
  - left. unfold affects in Ha. cbn in Ha. apply bool_decide_eq_true in Ha as <-. exact (edit_tomb r q t H).
  - done.
  - left. rewrite affects_at in Ha by (destruct (peerPut_type q f); tauto). apply bool_decide_eq_true in Ha. cbn in Ha. subst q.
    assert (entryEdit (peerPut p f) = fileEdit f) as -> by (unfold entryEdit; by destruct (peerPut_type p f) as [-> | ->]).
    by apply edit_file.
Qed.

Lemma inert_heeds x y : inert x -> heeds x y /\ heeds y x.
Proof. intros [E1 E2]. unfold heeds. by rewrite E1, E2, same_checksum_empty, same_checksum_empty_r. Qed.

Lemma edit_of_unique c p x y : snapshot_ok c -> edit_of c p x -> edit_of c p y -> x = y.
Proof. intros Hok [f Hf|t Ht] [g Hg|u Hu]; try congruence; exfalso; by eapply (snap_disjoint _ Hok). Qed.

(** The versions of a path in two well-formed snapshots that follow the clocks. *)
Lemma follow_heeding a b p : snapshot_ok a -> snapshot_ok b -> follow_clocks a b ->
  heeding (fun x => edit_of a p x \/ edit_of b p x \/ inert x).
Proof.
  intros Ha Hb Hf x y [Hx|[Hx|Hx]] [Hy|[Hy|Hy]];
    first [by apply (inert_heeds x y)|by apply (inert_heeds y x)|left; exact (edit_of_unique _ _ _ _ Ha Hx Hy)|left; exact (edit_of_unique _ _ _ _ Hb Hx Hy)|by apply (Hf p x y)|by apply (Hf p y x)].
Qed.

Section Joined.
Context (l r : Snapshot) (Hl : peer_ok l) (Hr : peer_ok r) (Hap : stay_deleted l r) (Hfc : follow_clocks l r).

Lemma peerEntries_root : Forall (fun e => eType e <> DeleteRoot) (peerEntries l r).
Proof using Hr.
  apply Forall_forall. intros e He. apply peerEntries_records in He; [|apply (po_root _ Hr)].
  destruct He as [d t H|q t H|q d H|q f H]; try done. by destruct (peerPut_type q f) as [-> | ->].
Qed.

Lemma record_types e : recordOf r e ->
  (eType e = CreateDir -> dir_at r (ePath e) (entryClock e)) /\ (eType e = DeleteDir -> dir_gone r (ePath e) (entryClock e)).
Proof.
  intros [d t H|q t H|q d H|q f H]; (split; [|]); intros E; try done; try (by eexists); destruct (peerPut_type q f); congruence.
Qed.

Lemma peerEntries_dirs : dirs_settled l (peerEntries l r).
Proof using Hr Hap.
  intros e He Hty. apply peerEntries_records in He; [|apply (po_root _ Hr)]. pose proof (proj1 (record_types e He) Hty) as Hat. split.
  - intros k Hk. apply (Hap (ePath e)); tauto.
  - intros e' He' Hty' E. apply peerEntries_records in He'; [|apply (po_root _ Hr)]. pose proof (proj2 (record_types e' He') Hty') as Hgone.
    rewrite E in Hgone. apply (Hap (ePath e)); tauto.
Qed.

Lemma peerEntries_edits : edits_settled l (peerEntries l r).
Proof using Hl Hr Hfc.
  intros p. assert (forall x, edit_of l p x \/ (exists e, e ∈ peerEntries l r /\ affects p e = true /\ x = entryEdit e) ->
    edit_of l p x \/ edit_of r p x \/ inert x) as H.
  { intros x [?|(e & He & Ha & ->)]; [by left|right]. apply peerEntries_records in He; [|apply (po_root _ Hr)]. by apply record_edit. }
  intros x y Hx Hy. apply (follow_heeding l r p (po_ok _ Hl) (po_ok _ Hr) Hfc); by apply H.
Qed.

(** What the tests turn down is known already. *)
Lemma turned_down p k : mark r p k -> knows l p k \/ exists e, e ∈ peerEntries l r /\ affects p e = true /\ entryClock e = k.
Proof using Hl Hr Hap Hfc.
  unfold peerEntries. rewrite (po_root _ Hr), (po_root _ Hl). cbn [app]. setoid_rewrite elem_of_app. setoid_rewrite elem_of_app. setoid_rewrite elem_of_app. setoid_rewrite elem_of_applied.
  intros [f Hf|t Ht|d t Hu Ht].
  - destruct (shouldApplyRemoteFile p f l None) eqn:E.
    + right. exists (peerPut p f). split; [right; right; right; by exists p, f|]. split; [|done]. rewrite affects_at by (destruct (peerPut_type p f); tauto). by apply bool_decide_eq_true.
    + left. unfold shouldApplyRemoteFile in E. cbn [notBeaten negb andb] in E. apply andb_false_iff in E as [E|E]; [apply andb_false_iff in E as [E|E]|].
      * destruct (files l !! p) as [lf|] eqn:El; [|done]. exists (ClockTuple lf). split; [by apply mark_file|].
        apply andb_false_iff in E as [E|E]; [apply negb_false_iff in E|apply orb_false_iff in E as [_ E]; exact E].
        destruct (proj1 (Hfc p (fileEdit lf) (fileEdit f) (edit_file l p lf El) (edit_file r p f Hf)) E) as [Eq|Hb]; [|by apply clock_beats_asym].
        assert (ClockTuple lf = ClockTuple f) as <- by exact (f_equal edClock Eq). apply clock_beats_irrefl.
      * apply negb_false_iff in E. by apply (notBeaten_tomb l (ClockTuple f)).
      * apply negb_false_iff in E. apply (notBeaten_covering l (ClockTuple f) p p); [by left|done].
  - destruct (shouldApplyRemoteTombstone p t l None) eqn:E.
    + right. exists (peerDelete p t). split; [right; left; by exists p, t|]. split; [|done]. unfold affects. cbn. by apply bool_decide_eq_true.
    + left. unfold shouldApplyRemoteTombstone in E. cbn [notBeaten negb andb] in E. apply andb_false_iff in E as [E|E]; [apply andb_false_iff in E as [E|E]|].
      * destruct (files l !! p) as [lf|] eqn:El; [|done]. apply orb_false_iff in E as [_ E].
        exists (ClockTuple lf). split; [by apply mark_file|done].
      * apply negb_false_iff in E. by apply (notBeaten_tomb l (tombstoneClock t)).
      * apply negb_false_iff in E. apply (notBeaten_covering l (tombstoneClock t) p p); [by left|done].
  - destruct (shouldApplyRemoteDirTombstone d t l None) eqn:E.
    + right. exists (peerDeleteDir d t). split; [left; by exists d, t|]. split; [|done]. unfold affects. cbn. by apply under_prefix.
    + left. unfold shouldApplyRemoteDirTombstone in E. cbn [notBeaten negb andb] in E. apply andb_false_iff in E as [E|E]; [apply andb_false_iff in E as [E|E]|].
      * apply negb_false_iff in E. apply notBeaten_true in E as (i & Hi & Hle). exfalso.
        assert (beats (tombstoneClock t) (dirClock i) = true) as Hb by (apply (Hap d); [left; by exists i|right; by exists t]).
        unfold clock_le in Hle. change (beats (tombstoneClock t) (dirClock i) = false) in Hle. congruence.
      * apply negb_false_iff in E. apply notBeaten_true in E as (t' & Ht' & Hle). exists (tombstoneClock t'). split; [by eapply mark_dir|done].
      * apply negb_false_iff in E. apply (notBeaten_covering l (tombstoneClock t) p d); [by right|done].
Qed.

(** The snapshot after the merge. *)
Record joined (j : Snapshot) : Prop := {
  jn_ok : peer_ok j;
  jn_knows p k : knows j p k <-> knows l p k \/ knows r p k;
  jn_files p f : files j !! p = Some f -> files l !! p = Some f \/ exists g, files r !! p = Some g /\ f = fileInfoFromEntry (peerPut p g);
  jn_gone p k : gone j p k -> gone l p k \/ gone r p k;
  jn_dirs d k : dir_gone j d k -> dir_gone l d k \/ dir_gone r d k;
  jn_dirRecs d k : dir_at j d k -> dir_at l d k \/ dir_at r d k;
  jn_edits p x : edit_of j p x -> edit_of l p x \/ edit_of r p x \/ inert x
}.

Lemma merge_joined n0 n1 : joined (foldl (onTop n0 n1) l (peerEntries l r)).
Proof using Hl Hr Hap Hfc.
  destruct (grow n0 n1 l (peerEntries l r) Hl peerEntries_root peerEntries_dirs peerEntries_edits) as [G1 G2 G3 G4 G5 G6 G7].
  assert (forall e, e ∈ peerEntries l r -> recordOf r e) as Hrec by (intros e; apply peerEntries_records, (po_root _ Hr)). split; [done|..].
  - intros p k. rewrite G2. split; intros [H|H]; try by left.
    + right. destruct H as (e & He & Ha & Hle). pose proof (record_affects r e p (Hrec e He) Ha). by eapply knows_le.
    + destruct H as (k' & Hm & Hle). destruct (turned_down p k' Hm) as [Hk|(e & He & Ha & <-)]; [left; by eapply knows_le|]. right. by exists e.
  - intros p f Hf. destruct (G3 p f Hf) as [?|(e & He & -> & <- & Hty)]; [by left|]. right. destruct (Hrec e He) as [d t H|q t H|q d H|q g H]; try by destruct Hty. by exists g.
  - intros p k Hk. destruct (G4 p k Hk) as [?|(e & He & Ha & -> & Hty)]; [by left|]. right. destruct (Hrec e He) as [d t H|q t H|q d H|q g H].
    + unfold affects in Ha. cbn in Ha. apply under_prefix in Ha. by apply (gone_dir r p d t).
    + unfold affects in Ha. cbn in Ha. apply bool_decide_eq_true in Ha as <-. by apply (gone_tomb r q t).
    + by destruct Hty.
    + destruct (peerPut_type q g), Hty; congruence.
  - intros d k Hd. destruct (G5 d k Hd) as [?|(e & He & Hty & <- & ->)]; [by left|]. right. by apply (record_types e (Hrec e He)).
  - intros d k Hd. destruct (G6 d k Hd) as [?|(e & He & Hty & <- & ->)]; [by left|]. right. by apply (record_types e (Hrec e He)).
  - intros p x Hx. destruct (G7 p x Hx) as [?|(e & He & Ha & ->)]; [by left|]. right. by apply record_edit; [apply Hrec|].
Qed.

End Joined.

(** ** The exchange of two devices *)

(** What a device sends is what the other reads. *)
Definition sent (now : Time) (s : Snapshot) : Snapshot := UnmarshalPeerSnapshot (MarshalPeerSnapshot now (Some s)).

(** Clocks tell records apart: no two files of a path have the same clock, and no
    file has the clock of a deletion. *)
Definition consistent (a b : Snapshot) : Prop :=
  forall p f, files a !! p = Some f \/ files b !! p = Some f ->
    (forall g, files a !! p = Some g \/ files b !! p = Some g -> ClockTuple f = ClockTuple g -> f = g) /\
    (forall k, gone a p k \/ gone b p k -> ClockTuple f <> k).

Lemma sent_same now s : exact s ->
  files (sent now s) = files s /\ dirs (sent now s) = dirs s /\ deleted (sent now s) = deleted s /\
  deletedDirs (sent now s) = deletedDirs s /\ deletedRoot (sent now s) = deletedRoot s.
Proof.
  intros He. split_and!; try done. cbn. apply map_eq. intros p. apply option_eq. intros f. rewrite exportedFiles_lookup.
  split; [by intros [? _]|]. intros Hf. split; [done|by eapply He].
Qed.

Lemma peer_ok_sent now s : exact s -> peer_ok s -> peer_ok (sent now s).
Proof.
  intros He [[S1 S2 S3 S4 S5] H2]. destruct (sent_same now s He) as (E1 & E2 & E3 & E4 & E5).
  split; [split|..]; rewrite ?E1, ?E2, ?E3, ?E4, ?E5; done.
Qed.

Lemma gone_sent now s p k : gone (sent now s) p k -> gone s p k.
Proof. intros [t H|d t Hu H]; [by apply gone_tomb|by eapply gone_dir]. Qed.

Lemma edit_sent now s p x : edit_of (sent now s) p x -> edit_of s p x.
Proof. intros [f H|t H]; [|by apply edit_tomb]. cbn in H. apply exportedFiles_lookup in H as [H _]. by apply edit_file. Qed.

Lemma stay_deleted_sent now a b : stay_deleted a b -> stay_deleted a (sent now b).
Proof. done. Qed.

Lemma follow_clocks_sent now a b : follow_clocks a b -> follow_clocks a (sent now b).
Proof. intros H p x y Hx Hy%edit_sent. by apply (H p). Qed.

Lemma knows_sent now s p k : exact s -> knows (sent now s) p k <-> knows s p k.
Proof. intros He. destruct (sent_same now s He) as (E1 & E2 & E3 & E4 & E5). apply knows_same; intros; by rewrite ?E1, ?E3, ?E4. Qed.

Lemma file_highest c p f k : snapshot_ok c -> files c !! p = Some f -> mark c p k -> clock_le k (ClockTuple f).
Proof.
  intros Hok Hf [g Hg|t Ht|d t Hu Ht].
  - assert (g = f) as -> by congruence. apply clock_beats_irrefl.
  - exfalso. by eapply (snap_disjoint _ Hok).
  - by eapply (snap_file_under _ Hok).
Qed.

(** Who knows the same has the same files. *)
Lemma same_knowledge a b p f :
  snapshot_ok a -> (forall k, knows a p k <-> knows b p k) -> files a !! p = Some f ->
  (forall g, files b !! p = Some g -> ClockTuple f = ClockTuple g -> f = g) -> (forall k, gone b p k -> ClockTuple f <> k) ->
  files b !! p = Some f.
Proof.
  intros Hok Hk Hf Hfiles Hgone. destruct (proj1 (Hk (ClockTuple f)) (knows_mark _ _ _ (mark_file a p f Hf))) as (k & Hm & Hle).
  destruct (proj2 (Hk k) (knows_mark _ _ _ Hm)) as (k2 & Hm2 & Hle2). pose proof (clock_le_trans _ _ _ Hle2 (file_highest a p f k2 Hok Hf Hm2)) as Hback.
  assert (ClockTuple f = k) as <-.
  { destruct (decide (ClockTuple f = k)) as [|Hne]; [done|]. exfalso. unfold clock_le in *. apply clock_beats_total in Hle; [congruence|done]. }
  remember (ClockTuple f) as kf eqn:Ekf. destruct Hm as [g Hg'|t Ht|d t Hu Ht]; [by rewrite (Hfiles g Hg')|exfalso..].
  - by apply (Hgone _ (gone_tomb b p t Ht)).
  - by apply (Hgone _ (gone_dir b p d t Hu Ht)).
Qed.

Lemma joined_files a b j now p f : exact b -> joined a (sent now b) j -> files j !! p = Some f -> files a !! p = Some f \/ files b !! p = Some f.
Proof.
  intros He Hj Hf. destruct (jn_files _ _ _ Hj p f Hf) as [?|(g & Hg & ->)]; [by left|]. right. rewrite (proj1 (sent_same now b He)) in Hg.
  destruct (He p g Hg) as (Hw & Hc & _). by rewrite peerPut_info.
Qed.

(** One merge on each side, from the snapshots alone. *)
Lemma round_core n0 n1 n0' n1' a b now now' :
  peer_ok a -> peer_ok b -> exact a -> exact b -> stay_deleted a b -> follow_clocks a b -> consistent a b ->
  let j := foldl (onTop n0 n1) a (peerEntries a (sent now b)) in
  let k := foldl (onTop n0' n1') b (peerEntries b (sent now' j)) in
  exact j /\ files j = files k.
Proof.
  intros Ha Hb Hea Heb Hstay Hfollow Hcons j k.
  pose proof (merge_joined a (sent now b) Ha (peer_ok_sent now b Heb Hb) (stay_deleted_sent now a b Hstay)
    (follow_clocks_sent now a b Hfollow) n0 n1) as Hj. fold j in Hj.
  assert (forall p f, files j !! p = Some f -> files a !! p = Some f \/ files b !! p = Some f) as Hjf by (intros; by eapply joined_files).
  assert (exact j) as Hej by (intros p f Hf; destruct (Hjf p f Hf); [by eapply Hea|by eapply Heb]).
  assert (stay_deleted b j) as Hap2.
  { intros d x y Hx Hy. apply (Hstay d).
    - destruct Hx as [?|Hx]; [by right|]. exact (jn_dirRecs _ _ _ Hj d x Hx).
    - destruct Hy as [?|Hy]; [by right|]. exact (jn_dirs _ _ _ Hj d y Hy). }
  assert (follow_clocks b j) as Hfc2.
  { intros p x y Hx Hy. pose proof (follow_heeding a b p (po_ok _ Ha) (po_ok _ Hb) Hfollow) as H.
    assert (edit_of a p y \/ edit_of b p y \/ inert y) as Hy' by (destruct (jn_edits _ _ _ Hj p y Hy) as [?|[?%edit_sent|?]]; tauto).
    split; apply H; tauto. }
  pose proof (merge_joined b (sent now' j) Hb (peer_ok_sent now' j Hej (jn_ok _ _ _ Hj)) (stay_deleted_sent now' b j Hap2)
    (follow_clocks_sent now' b j Hfc2) n0' n1') as Hk. fold k in Hk.
  assert (forall p f, files k !! p = Some f -> files a !! p = Some f \/ files b !! p = Some f) as Hkf.
  { intros p f Hf. destruct (joined_files b j k now' p f Hej Hk Hf) as [?|?]; [by right|by apply Hjf]. }
  assert (forall p x, gone j p x -> gone a p x \/ gone b p x) as Hjg.
  { intros p x Hx. destruct (jn_gone _ _ _ Hj p x Hx) as [?|?%gone_sent]; tauto. }
  assert (forall p x, gone k p x -> gone a p x \/ gone b p x) as Hkg.
  { intros p x Hx. destruct (jn_gone _ _ _ Hk p x Hx) as [?|?%gone_sent]; [by right|by apply Hjg]. }
  assert (forall p x, knows j p x <-> knows k p x) as Hsame.
  { intros p x. rewrite (jn_knows _ _ _ Hk), (knows_sent now' j) by done. rewrite (jn_knows _ _ _ Hj), (knows_sent now b) by done. tauto. }
  split; [exact Hej|]. apply map_eq. intros p. apply option_eq. intros f. split; intros Hf.
  - destruct (Hcons p f (Hjf p f Hf)) as [C1 C2]. apply (same_knowledge j k p f); [apply po_ok, Hj|intros; apply Hsame|done| |].
    + intros g Hg. apply C1. by apply Hkf.
    + intros x Hx. apply C2. by apply Hkg.
  - destruct (Hcons p f (Hkf p f Hf)) as [C1 C2]. apply (same_knowledge k j p f); [apply po_ok, Hk|intros x; symmetry; apply Hsame|done| |].
    + intros g Hg. apply C1. by apply Hjf.
    + intros x Hx. apply C2. by apply Hjg.
Qed.

Section Exchange.
Context `{Codec : LineCodec Entry}.

Lemma appendEach_warm env es l c merged :
  cache l = Some c -> (forall e, pIO env e = WOk) ->
  exists l', appendEach env es l merged = (l', merged + Z.of_nat (length es), Ok tt) /\ cache l' = Some (foldl (onTop (pN0 env) (pN1 env)) c es).
Proof.
  intros Hc Hio. revert l c merged Hc. induction es as [|e es IH]; intros l c merged Hc; cbn [appendEach foldl length].
  - exists l. by rewrite Z.add_0_r.
  - rewrite Hio. destruct (Append WOk (pN0 env) (pN1 env) e l) as [l1 x] eqn:E. destruct (Append_warm _ _ _ _ _ _ _ Hc E) as (-> & _ & _ & Hc1).
    destruct (IH l1 _ (merged + 1) Hc1) as (l' & E' & Hc'). exists l'. rewrite E'. split; [|done]. do 2 f_equal. lia.
Qed.

Lemma mergePeer_warm env r l c :
  cache l = Some c -> (forall e, pIO env e = WOk) ->
  exists l', mergePeerSnapshot env r l = (l', Z.of_nat (length (peerEntries c r)), Ok tt) /\ cache l' = Some (foldl (onTop (pN0 env) (pN1 env)) c (peerEntries c r)).
Proof. intros Hc Hio. unfold mergePeerSnapshot, getSnapshot. rewrite Hc. by apply (appendEach_warm env _ l c 0). Qed.

(** C26 (invariant). A merge joins what both snapshots know: afterwards a device
    knows of every path exactly the clocks that it or the peer knew, every file is
    one of theirs, and the snapshot is well formed.  The appends succeed; neither
    drive was deleted as a whole; the peer has no upload pending; a directory that
    one of the two records and either has deleted was not created again after the
    deletion ([fs_peer_dir_comes_back]); and of two versions of a path, the one
    that names the content of the other as what it replaces ([PrevChecksum], as
    ordinary edits do) is the newer one ([fs_peer_revert_splits]). *)
Theorem fs_peer_merge_joins env l a b now
  (Hcache : cache l = Some a) (Hio : forall e, pIO env e = WOk)
  (Ha : peer_ok a) (Hb : peer_ok b) (Hexact : exact b) (Hstay : stay_deleted a b) (Hfollow : follow_clocks a b) :
  exists l' n j, mergePeerSnapshot env (sent now b) l = (l', n, Ok tt) /\ cache l' = Some j /\ snapshot_ok j /\
    (forall p k, knows j p k <-> knows a p k \/ knows b p k) /\
    (forall p f, files j !! p = Some f -> files a !! p = Some f \/ files b !! p = Some f).
Proof.
  destruct (mergePeer_warm env (sent now b) l a Hcache Hio) as (l' & E & Hc). do 3 eexists. split; [exact E|]. split; [exact Hc|].
  pose proof (merge_joined a (sent now b) Ha (peer_ok_sent now b Hexact Hb) (stay_deleted_sent now a b Hstay)
    (follow_clocks_sent now a b Hfollow) (pN0 env) (pN1 env)) as Hj. split_and!.
  - apply po_ok, Hj.
  - intros p k. rewrite (jn_knows _ _ _ Hj). by rewrite knows_sent.
  - intros p f Hf. by eapply joined_files.
Qed.

(** One round: a device merges the peer's snapshot and sends back
    what it has then, and the peer merges that.  Both have the same files. *)
Theorem fs_peer_round_converges env env' l m a b now now'
  (Hl : cache l = Some a) (Hm : cache m = Some b) (Hio : forall e, pIO env e = WOk) (Hio' : forall e, pIO env' e = WOk)
  (Ha : peer_ok a) (Hb : peer_ok b) (Hea : exact a) (Heb : exact b) (Hstay : stay_deleted a b) (Hfollow : follow_clocks a b)
  (Hcons : consistent a b) :
  exists l' n j m' n' k, mergePeerSnapshot env (sent now b) l = (l', n, Ok tt) /\ cache l' = Some j /\
    mergePeerSnapshot env' (sent now' j) m = (m', n', Ok tt) /\ cache m' = Some k /\ files j = files k.
Proof.
  destruct (mergePeer_warm env (sent now b) l a Hl Hio) as (l' & E & Hc). set (j := foldl _ a _) in Hc.
  destruct (mergePeer_warm env' (sent now' j) m b Hm Hio') as (m' & E' & Hc'). set (k := foldl _ b _) in Hc'.
  exists l', (Z.of_nat (length (peerEntries a (sent now b)))), j, m', (Z.of_nat (length (peerEntries b (sent now' j)))), k. split_and!; [done..|].
  by apply round_core.
Qed.

End Exchange.

(** ** Summaries *)

Record summaryFile := mkSummaryFile {
  sfPath : string; sfChunks : list string; sfSize : Z; sfModified : Z; sfChecksum : string; sfPrevChecksum : string;
  sfNamespace : string; sfDevice : string; sfSeq : Z; sfLinkTarget : string
}.
Record summaryDir := mkSummaryDir { sdPath : string; sdNamespace : string; sdDevice : string; sdSeq : Z; sdModified : Z }.
Record summaryTomb := mkSummaryTomb { smPath : string; smNamespace : string; smDevice : string; smSeq : Z; smModified : Z; smPrevChecksum : string }.

(** [None] and an empty slice of chunks are left out alike. *)
Record canonicalSnapshot := mkCanonical {
  csFiles : list summaryFile; csDirs : list summaryDir; csTombstones : list summaryTomb; csDirTombstones : list summaryTomb;
  csRootTombstone : option summaryTomb
}.

Definition fileSummary (kv : string * FileInfo) : summaryFile :=
  let '(path, fi) := kv in
  mkSummaryFile path (default [] (fiChunks fi)) (fiSize fi) (unix_seconds (fiModified fi)) (fiChecksum fi) (fiPrevChecksum fi)
    (fiNamespace fi) (fiDevice fi) (fiSeq fi) (fiLinkTarget fi).
Definition dirSummary (kv : string * DirInfo) : summaryDir :=
  let '(path, di) := kv in mkSummaryDir path (diNamespace di) (diDevice di) (diSeq di) (unix_seconds (diModified di)).
Definition tombSummary (kv : string * TombstoneInfo) : summaryTomb :=
  let '(path, t) := kv in mkSummaryTomb path (tiNamespace t) (tiDevice t) (tiSeq t) (unix_seconds (tiModified t)) (tiPrevChecksum t).

Definition canonical (snap : Snapshot) : canonicalSnapshot :=
  mkCanonical (map fileSummary (sorted_items (files snap))) (map dirSummary (sorted_items (dirs snap)))
    (map tombSummary (sorted_items (deleted snap))) (map tombSummary (sorted_items (deletedDirs snap)))
    ((fun t => tombSummary ("", t)) <$> deletedRoot snap).

Record fsSnapshotState := mkState {
  ssDigest : string; ssFiles : Z; ssDirs : Z; ssTombstones : Z; ssDirTombstones : Z; ssUpdatedUnix : Z
}.

#[export] Instance fsSnapshotState_eq_dec : EqDecision fsSnapshotState.
Proof. solve_decision. Defined.

Definition sameFSSnapshotState (a b : option fsSnapshotState) : bool := bool_decide (a = b).

(** [digest]: the SHA-256 of the JSON of the canonical snapshot, in hexadecimal. *)
Definition summarizeFSSnapshot (digest : canonicalSnapshot -> string) (snap : Snapshot) : fsSnapshotState :=
  mkState (digest (canonical snap)) (Z.of_nat (size (files snap))) (Z.of_nat (size (dirs snap))) (Z.of_nat (size (deleted snap)))
    (Z.of_nat (size (deletedDirs snap))) (unix_seconds (updated snap)).

Lemma applied_nil {A} (should : string -> A -> bool) entry (m : gmap string A) :
  (forall p x, m !! p = Some x -> should p x = false) -> applied should entry m = [].
Proof.
  intros H. destruct (applied should entry m) as [|e es] eqn:E; [done|]. assert (e ∈ applied should entry m) as Hin by (rewrite E; left).
  apply elem_of_applied in Hin as (p & x & Hm & Hs & _). by rewrite (H p x Hm) in Hs.
Qed.

Lemma file_not_again p f l : files l !! p = Some f -> shouldApplyRemoteFile p f l None = false.
Proof.
  intros Hf. unfold shouldApplyRemoteFile. rewrite Hf.
  assert (beats (clockFromFileInfo f) (clockFromFileInfo f) = false) as -> by apply clock_beats_irrefl. by destruct (fileDescendsFile f f).
Qed.

Lemma notBeaten_self {A} (clock : A -> lwwClock) x : notBeaten (clock x) clock (Some x) = true.
Proof. simpl. by rewrite clock_beats_irrefl. Qed.

(** A tombstone that one device has and the other turns down, because
    the directory above was deleted later, is never exchanged: neither merge changes
    anything, and the two keep different numbers of tombstones.  Their digests
    differ, so every later round sends both snapshots again. *)
Theorem fs_peer_never_settles b p t td
  (Hb : peer_ok b) (Ht : deleted b !! p = Some t) (Hc : coveringDirTombstone p (deletedDirs b) = Some td)
  (Hle : clock_le (tombstoneClock t) (tombstoneClock td)) :
  let a := mkSnapshot (files b) (dirs b) (delete p (deleted b)) (deletedDirs b) None (created b) (updated b) in
  peerEntries a b = [] /\ peerEntries b a = [] /\
  forall digest, ssTombstones (summarizeFSSnapshot digest b) = ssTombstones (summarizeFSSnapshot digest a) + 1.
Proof.
  intros a. destruct Hb as [Hok Hroot].
  assert (forall l r, deletedRoot l = None -> deletedRoot r = None -> files l = files r -> dirs l = dirs r -> deletedDirs l = deletedDirs r ->
    (forall q x, deleted r !! q = Some x -> shouldApplyRemoteTombstone q x l None = false) -> peerEntries l r = []) as Hnil.
  { intros l r E1 E2 E3 E4 E5 Hd. unfold peerEntries. rewrite E1, E2. cbn [app]. rewrite !applied_nil; [done|..].
    - intros q f Hq. apply file_not_again. by rewrite E3.
    - intros q d Hq. unfold shouldApplyRemoteDir. rewrite E4, Hq.
      assert (notBeaten (clockFromDirInfo d) clockFromDirInfo (Some d) = true) as -> by apply notBeaten_self. by rewrite andb_false_r.
    - exact Hd.
    - intros q x Hq. unfold shouldApplyRemoteDirTombstone. rewrite E5, Hq.
      assert (notBeaten (clockFromTombstone x) clockFromTombstone (Some x) = true) as -> by apply notBeaten_self. by rewrite andb_false_r. }
  assert (forall q x l, deleted l !! q = Some x -> shouldApplyRemoteTombstone q x l None = false) as Hself.
  { intros q x l Hq. unfold shouldApplyRemoteTombstone. rewrite Hq.
    assert (notBeaten (clockFromTombstone x) clockFromTombstone (Some x) = true) as -> by apply notBeaten_self. by rewrite andb_false_r. }
  split_and!.
  - apply Hnil; try done. intros q x Hq. destruct (decide (p = q)) as [<-|Hne]; [|apply Hself; cbn; by rewrite lookup_delete_ne].
    assert (x = t) as -> by congruence. unfold shouldApplyRemoteTombstone. cbn [deletedDirs a]. rewrite Hc.
    assert (notBeaten (clockFromTombstone t) clockFromTombstone (Some td) = true) as -> by (simpl; by apply negb_true_iff). by rewrite andb_false_r.
  - apply Hnil; try done. intros q x Hq. apply Hself. cbn in Hq. by apply lookup_delete_Some in Hq as [_ Hq].
  - intros digest. cbn. rewrite map_size_delete_Some by (by eexists). assert (size (deleted b) <> 0%nat) by (intros E; apply map_size_empty_inv in E; rewrite E, lookup_empty in Ht; done). lia.
Qed.

(** *** A digest tells snapshots apart *)

Lemma map_sorted_inj {A B} (f : string * A -> B) (P : A -> Prop) (m n : gmap string A) :
  (forall p q x y, P x -> P y -> f (p, x) = f (q, y) -> p = q /\ x = y) ->
  (forall p x, m !! p = Some x -> P x) -> (forall p x, n !! p = Some x -> P x) ->
  map f (sorted_items m) = map f (sorted_items n) -> m = n.
Proof.
  intros Hf Hm Hn E. assert (forall l k : list (string * A), Forall (fun kv => P kv.2) l -> Forall (fun kv => P kv.2) k -> map f l = map f k -> l = k) as Hinj.
  { intros l. induction l as [|[p x] l IH]; intros [|[q y] k] Hl Hk E'; try done. simpl in E'. inversion Hl; inversion Hk; subst. injection E' as E1 E2.
    destruct (Hf p q x y) as [-> ->]; try done. f_equal. by apply IH. }
  assert (forall l : gmap string A, (forall p x, l !! p = Some x -> P x) -> Forall (fun kv => P kv.2) (sorted_items l)) as HP.
  { intros l Hl. apply Forall_forall. intros [p x] Hin. apply sorted_items_spec in Hin. by eapply Hl. }
  apply Hinj in E; [|by apply HP..]. apply map_eq. intros p. apply option_eq. intros x. by rewrite <- !sorted_items_spec, E.
Qed.

(** Times of whole seconds and no empty slices of chunks, as in every snapshot
    that replay builds from entries it read. *)
Definition regular (s : Snapshot) : Prop :=
  (forall p f, files s !! p = Some f -> whole (fiModified f) /\ fiChunks f <> Some []) /\ (forall p d, dirs s !! p = Some d -> whole (diModified d)) /\
  (forall p t, deleted s !! p = Some t -> whole (tiModified t)) /\ (forall p t, deletedDirs s !! p = Some t -> whole (tiModified t)) /\
  (forall t, deletedRoot s = Some t -> whole (tiModified t)).

Lemma whole_inj t u : whole t -> whole u -> unix_seconds t = unix_seconds u -> t = u.
Proof. unfold whole. congruence. Qed.

Lemma tombSummary_inj p q (x y : TombstoneInfo) : whole (tiModified x) -> whole (tiModified y) -> tombSummary (p, x) = tombSummary (q, y) -> p = q /\ x = y.
Proof. intros Hx Hy [= -> E1 E2 E3 E4 E5]. split; [done|]. destruct x, y. cbn in *. f_equal; try done. by apply whole_inj. Qed.

Lemma fileSummary_inj p q (x y : FileInfo) :
  whole (fiModified x) /\ fiChunks x <> Some [] -> whole (fiModified y) /\ fiChunks y <> Some [] -> fileSummary (p, x) = fileSummary (q, y) -> p = q /\ x = y.
Proof.
  destruct x as [c s m k pc ns d sq lt], y as [c' s' m' k' pc' ns' d' sq' lt']. intros [Wx Cx] [Wy Cy]. unfold fileSummary. cbn in *.
  intros [= -> Ec -> Em -> -> -> -> -> ->]. split; [done|].
  rewrite (whole_inj m m') by done. f_equal. destruct c as [[|]|], c' as [[|]|]; cbn in *; try done; try congruence.
Qed.

(** Files of snapshots with the same canonical form. *)
Lemma canonical_files a b : exact a -> exact b -> canonical a = canonical b -> files a = files b.
Proof.
  intros Ha Hb E. apply (map_sorted_inj fileSummary (fun f => whole (fiModified f) /\ fiChunks f <> Some [])); [apply fileSummary_inj|..].
  - intros p f Hf. by destruct (Ha p f Hf) as (? & ? & _).
  - intros p f Hf. by destruct (Hb p f Hf) as (? & ? & _).
  - exact (f_equal csFiles E).
Qed.

(** Two snapshots have the same canonical form, and so the same
    digest, exactly when they hold the same files, directories and deletions; with
    a hash without collisions equal digests mean that there is nothing to
    exchange. *)
Theorem fs_digest_faithful (digest : canonicalSnapshot -> string) a b
  (Hdigest : forall x y, digest x = digest y -> x = y) (Ha : regular a) (Hb : regular b) :
  ssDigest (summarizeFSSnapshot digest a) = ssDigest (summarizeFSSnapshot digest b) <-> same_tree a b.
Proof.
  cbn. split.
  - intros [= E1 E2 E3 E4 E5]%Hdigest. destruct Ha as (A1 & A2 & A3 & A4 & A5), Hb as (B1 & B2 & B3 & B4 & B5). unfold same_tree. split_and!.
    + apply (map_sorted_inj fileSummary (fun f => whole (fiModified f) /\ fiChunks f <> Some [])); [apply fileSummary_inj|done..].
    + apply (map_sorted_inj dirSummary (fun d => whole (diModified d))); [|done..].
      intros p q [ns d sq m] [ns' d' sq' m'] Wx Wy. unfold dirSummary. cbn. intros [= -> -> -> -> Em]. split; [done|]. by rewrite (whole_inj m m').
    + apply (map_sorted_inj tombSummary (fun t => whole (tiModified t))); [apply tombSummary_inj|done..].
    + apply (map_sorted_inj tombSummary (fun t => whole (tiModified t))); [apply tombSummary_inj|done..].
    + destruct (deletedRoot a) as [x|], (deletedRoot b) as [y|]; cbn in E5; [|done|done|done]. injection E5 as E5. f_equal.
      apply (tombSummary_inj "" ""); [by apply A5|by apply B5|]. unfold tombSummary. congruence.
  - intros (E1 & E2 & E3 & E4 & E5). unfold canonical. by rewrite E1, E2, E3, E4, E5.
Qed.

(** ** The hypotheses of the theorems can hold *)

Module Demo.
#[local] Existing Instance demoCodec.

Definition peerFile (dev : string) (ts : Z) (sum : string) : FileInfo := mkFileInfo (Some [sum]) 1 (time_Unix ts) sum "" "Test" dev 1 "".
Definition peerTomb (dev : string) (ts : Z) : TombstoneInfo := mkTombstone "Test" dev 1 (time_Unix ts) "".
Definition peerEdit (dev : string) (ts : Z) (sum prev : string) : FileInfo := mkFileInfo (Some [sum]) 1 (time_Unix ts) sum prev "Test" dev 1 "".
Definition peerDeleted (dev : string) (ts : Z) (prev : string) : TombstoneInfo := mkTombstone "Test" dev 1 (time_Unix ts) prev.
Definition peerDir (dev : string) (ts : Z) : DirInfo := mkDirInfo "Test" dev 1 (time_Unix ts).
Definition logOf (dev : string) (c : Snapshot) : LocalOpsLog := mkLog None dev (Some c) 0 0.
Definition env : PollEnv := mkPollEnv (fun _ => WOk) true 0 0 0.

(** [A] has a file [f], and the directory [d] with a file in it; [B] edited [f],
    deleted [d] and before that a file of its own in it. *)
Definition A : Snapshot := mkSnapshot (<["f" := peerFile "A" 10 "a"]> {["d/x" := peerFile "A" 4 "x"]}) {["d" := peerDir "A" 3]} ∅ ∅ None 0 0.
Definition B : Snapshot := mkSnapshot {["f" := peerEdit "B" 11 "b" "a"]} ∅ {["d/y" := peerDeleted "B" 5 "y"]} {["d" := peerTomb "B" 9]} None 0 0.

Ltac by_lookup := repeat lazymatch goal with
  | H : <[_ := _]> _ !! _ = Some _ |- _ => apply lookup_insert_Some in H as [[H <-]|[? H]]; [first [discriminate H|subst]|]
  | H : {[_ := _]} !! _ = Some _ |- _ => apply lookup_singleton_Some in H as [H <-]; first [discriminate H|subst]
  | H : ∅ !! _ = Some _ |- _ => by rewrite lookup_empty in H
  | H : ?x <> ?x |- _ => by destruct H
  end.

Lemma peer_A : peer_ok A /\ exact A.
Proof.
  split; [split; [split|..]|]; cbn; unfold exact; cbn; intros; by_lookup; try done; by vm_compute.
Qed.

Lemma peer_B : peer_ok B /\ exact B.
Proof.
  split; [split; [split|..]|]; cbn; unfold exact; cbn; intros; by_lookup; try done; by vm_compute.
Qed.

Lemma peer_stay : stay_deleted A B.
Proof.
  intros d k k' Hd Ht. destruct Ht as [(t & H & <-)|(t & H & <-)]; cbn in H; by_lookup. destruct Hd as [(i & H & <-)|(i & H & <-)]; cbn in H; by_lookup.
  vm_compute. reflexivity.
Qed.

Lemma peer_follow : follow_clocks A B.
Proof.
  intros p x y [f Hf|t Ht] [g Hg|u Hu]; cbn in *; by_lookup; (split; apply (bool_decide_unpack _); vm_compute; exact I).
Qed.

Lemma gone_A p k : ~ gone A p k.
Proof. intros [t H|d t _ H]; cbn in H; by_lookup. Qed.

Lemma gone_B p k : gone B p k -> k = mkClock 5 "B" 1 \/ k = mkClock 9 "B" 1.
Proof. intros [t H|d t _ H]; cbn in H; by_lookup; vm_compute; tauto. Qed.

Lemma peer_consistent : consistent A B.
Proof.
  intros p f Hf. split.
  - intros g Hg. destruct Hf as [Hf|Hf], Hg as [Hg|Hg]; cbn in Hf, Hg; by_lookup;
      lazymatch goal with |- _ -> ?x = ?x => done | |- _ => intros E; apply (f_equal ctTs) in E; vm_compute in E; discriminate E end.
  - intros k [Hk|Hk]; [by apply gone_A in Hk|]. apply gone_B in Hk. destruct Hf as [Hf|Hf]; cbn in Hf; by_lookup; destruct Hk as [->| ->]; intros E; apply (f_equal ctTs) in E; vm_compute in E; discriminate E.
Qed.

Lemma fs_peer_merge_joins_witness :
  (peer_ok A /\ follow_clocks A B) /\
  exists l' n j, mergePeerSnapshot env (sent 0 B) (logOf "A" A) = (l', n, Ok tt) /\ cache l' = Some j /\ snapshot_ok j.
Proof.
  split; [exact (conj (proj1 peer_A) peer_follow)|].
  destruct (fs_peer_merge_joins env (logOf "A" A) A B 0 eq_refl (fun _ => eq_refl) (proj1 peer_A) (proj1 peer_B) (proj2 peer_B) peer_stay peer_follow)
    as (l' & n & j & H1 & H2 & H3 & _). exists l', n, j. exact (conj H1 (conj H2 H3)).
Defined.

Lemma fs_peer_round_converges_witness :
  consistent A B /\
  exists l' n j m' n' k, mergePeerSnapshot env (sent 0 B) (logOf "A" A) = (l', n, Ok tt) /\ cache l' = Some j /\
    mergePeerSnapshot env (sent 0 j) (logOf "B" B) = (m', n', Ok tt) /\ cache m' = Some k /\ files j = files k.
Proof.
  split; [apply peer_consistent|].
  exact (fs_peer_round_converges env env (logOf "A" A) (logOf "B" B) A B 0 0 eq_refl eq_refl (fun _ => eq_refl) (fun _ => eq_refl)
    (proj1 peer_A) (proj1 peer_B) (proj2 peer_A) (proj2 peer_B) peer_stay peer_follow peer_consistent).
Defined.

(** What it comes to: the later edit of [f], and nothing in [d]. *)
Example round_files : map_to_list (files (foldl (onTop 0 0) A (peerEntries A (sent 0 B)))) = [("f", peerEdit "B" 11 "b" "a")].
Proof. vm_compute. reflexivity. Qed.

Lemma fs_peer_never_settles_witness :
  (deleted B !! "d/y" = Some (peerDeleted "B" 5 "y") /\ clock_le (tombstoneClock (peerDeleted "B" 5 "y")) (tombstoneClock (peerTomb "B" 9))) /\
  peerEntries (mkSnapshot (files B) (dirs B) (delete "d/y" (deleted B)) (deletedDirs B) None (created B) (updated B)) B = [].
Proof.
  split; [split; [reflexivity|vm_compute; reflexivity]|].
  apply (fs_peer_never_settles B "d/y" (peerDeleted "B" 5 "y") (peerTomb "B" 9) (proj1 peer_B)); vm_compute; reflexivity.
Defined.

Lemma regular_exact s :
  exact s -> (forall p d, dirs s !! p = Some d -> whole (diModified d)) -> (forall p t, deleted s !! p = Some t -> whole (tiModified t)) -> (forall p t, deletedDirs s !! p = Some t -> whole (tiModified t)) ->
  deletedRoot s = None -> regular s.
Proof.
  intros He Hd H1 H2 Hr. split_and!; [|done|done|done|by rewrite Hr].
  intros p f Hf. by destruct (He p f Hf) as (? & ? & _).
Qed.

Lemma regular_AB : regular A /\ regular B.
Proof.
  split; [apply (regular_exact A (proj2 peer_A))|apply (regular_exact B (proj2 peer_B))]; cbn; intros; by_lookup; try done; by vm_compute.
Qed.

(** A digest without collisions: the number of the value. *)
#[local] Instance summaryFile_eq_dec : EqDecision summaryFile.
Proof. solve_decision. Defined.
#[local] Instance summaryDir_eq_dec : EqDecision summaryDir.
Proof. solve_decision. Defined.
#[local] Instance summaryTomb_eq_dec : EqDecision summaryTomb.
Proof. solve_decision. Defined.
#[local] Instance canonicalSnapshot_eq_dec : EqDecision canonicalSnapshot.
Proof. solve_decision. Defined.
#[local] Instance summaryFile_countable : Countable summaryFile.
Proof.
  apply (inj_countable' (fun '(mkSummaryFile a b c d e f g h i j) => ((a, b, c, d, e), (f, g, h, i, j))) (fun '((a, b, c, d, e), (f, g, h, i, j)) => mkSummaryFile a b c d e f g h i j)).
  by intros [].
Defined.
#[local] Instance summaryDir_countable : Countable summaryDir.
Proof. apply (inj_countable' (fun '(mkSummaryDir a b c d e) => (a, b, c, d, e)) (fun '(a, b, c, d, e) => mkSummaryDir a b c d e)). by intros []. Defined.
#[local] Instance summaryTomb_countable : Countable summaryTomb.
Proof. apply (inj_countable' (fun '(mkSummaryTomb a b c d e f) => (a, b, c, d, e, f)) (fun '(a, b, c, d, e, f) => mkSummaryTomb a b c d e f)). by intros []. Defined.
#[local] Instance canonicalSnapshot_countable : Countable canonicalSnapshot.
Proof. apply (inj_countable' (fun '(mkCanonical a b c d e) => (a, b, c, d, e)) (fun '(a, b, c, d, e) => mkCanonical a b c d e)). by intros []. Defined.

Definition number (s : canonicalSnapshot) : string := pretty (N.pos (encode s)).

Lemma number_inj x y : number x = number y -> x = y.
Proof. unfold number. intros H. apply (inj (pretty (A := N))) in H. apply (inj encode). by apply (inj N.pos). Qed.

Lemma fs_digest_faithful_witness :
  (regular A /\ regular B) /\ ssDigest (summarizeFSSnapshot number A) <> ssDigest (summarizeFSSnapshot number B).
Proof.
  split; [apply regular_AB|]. intros E. apply (fs_digest_faithful number A B number_inj (proj1 regular_AB) (proj2 regular_AB)) in E.
  destruct E as (_ & _ & E & _). symmetry in E. exact (map_non_empty_singleton "d/y" (peerDeleted "B" 5 "y") E).
Defined.

(** With directories that one device created again after the other deleted them,
    one round is not enough, and the file that the deletion removed comes back: a
    replay of all entries in their order has no such file. *)
Definition withDir : Snapshot := mkSnapshot {["d/f" := peerFile "A" 5 "x"]} {["d" := peerDir "A" 12]} ∅ ∅ None 0 0.
Definition noDir : Snapshot := mkSnapshot ∅ ∅ ∅ {["d" := peerTomb "B" 10]} None 0 0.
Definition mergedInto (l r : Snapshot) : Snapshot := foldl (onTop 0 0) l (peerEntries l (sent 0 r)).

Lemma fs_peer_dir_comes_back :
  let j := mergedInto withDir noDir in let k := mergedInto noDir j in
  keys_of (files j) = ["d/f"] /\ keys_of (files k) = [] /\ keys_of (files (mergedInto k (mergedInto j k))) = ["d/f"] /\
  keys_of (files (buildSnapshot 0 0 None [peerPut "d/f" (peerFile "A" 5 "x"); peerDeleteDir "d" (peerTomb "B" 10); peerCreateDir "d" (peerDir "A" 12)])) = [].
Proof. vm_compute. split_and!; reflexivity. Qed.

(** [A] went from ["x"] to ["y"], and [B] later from ["y"] back to ["x"]: each takes
    the file of the other for a version that its own replaced, in this round and
    in every later one. *)
Lemma fs_peer_revert_splits :
  let a := mkSnapshot {["f" := peerEdit "A" 10 "y" "x"]} ∅ ∅ ∅ None 0 0 in
  let b := mkSnapshot {["f" := peerEdit "B" 20 "x" "y"]} ∅ ∅ ∅ None 0 0 in
  peerEntries a (sent 0 b) = [] /\ peerEntries b (sent 0 a) = [] /\ mergedInto a b = a /\ mergedInto b a = b.
Proof. vm_compute. split_and!; reflexivity. Qed.

End Demo.
