(* ===== verification/FsPeerSync.v ===== *)
(** * The sync of a drive with its peers (pkg/fs/p2p.go, p2p_state.go)

    What a replica remembers of every peer and when it syncs with one again; the
    messages of a round, framed on a stream; the requests and answers of the two
    sides.  A round of two devices is a function of the states of both; which
    streams open, which appends to the logs and which saves succeed are
    arguments. *)

From Stdlib Require Import Ascii.
From stdpp Require Import base numbers list gmap strings sorting.
From S2P Require Import Prelude GoStrings JsonLines Seal FsOps FsLocalLog FsPoll FsPeer.
From S2P Require KvPush.

#[local] Open Scope Z_scope.

(** ** What is remembered of a peer (p2p_state.go) *)

Definition fsPeerSyncStateMaxPeers : nat := 256.
Definition fsPeerSyncErrorBackoff : Duration := 5 * minute.

Record fsPeerSyncState := mkPeerState {
  LastAttemptAt : Time;
  LastSuccessAt : Time;
  LastErrorAt : Time;
  LastError : string;
  LastLocalDigest : string;
  LastPeerDigest : string;
  LastLocalSummary : option fsSnapshotState;
  LastPeerSummary : option fsSnapshotState;
  LastSummaryAt : Time
}.

(** The state of a peer that is not in the map. *)
Definition zeroPeer : fsPeerSyncState := mkPeerState zeroTime zeroTime zeroTime "" "" "" None None zeroTime.

Record fsReplicaSyncState := mkReplicaState {
  rsNSID : string;
  rsLocalSummary : option fsSnapshotState;
  rsLocalStateAt : Time;
  rsPeers : gmap string fsPeerSyncState
}.

Definition laterOf (last candidate : Time) : Time := if last <? candidate then candidate else last.
Definition fsPeerSyncStateLastActivity (st : fsPeerSyncState) : Time :=
  laterOf (laterOf (laterOf (LastAttemptAt st) (LastSuccessAt st)) (LastErrorAt st)) (LastSummaryAt st).

(** The order of [pruneFSPeerSyncState]. *)
Definition activeBefore (a b : string * Time) : bool :=
  if a.2 =? b.2 then a.1 <s? b.1
  else if time_IsZero a.2 then false
  else if time_IsZero b.2 then true
  else b.2 <? a.2.

Definition byActivity (peers : gmap string fsPeerSyncState) : list (string * Time) :=
  sortBy activeBefore (map (fun kv => (kv.1, fsPeerSyncStateLastActivity kv.2)) (map_to_list peers)).

Definition prunePeers (peers : gmap string fsPeerSyncState) : gmap string fsPeerSyncState :=
  if (size peers <=? fsPeerSyncStateMaxPeers)%nat then peers
  else
    let kept := map fst (take fsPeerSyncStateMaxPeers (byActivity peers)) in
    filter (fun kv => kv.1 ∈ kept) peers.

Definition pruneFSPeerSyncState (st : fsReplicaSyncState) : fsReplicaSyncState :=
  mkReplicaState (rsNSID st) (rsLocalSummary st) (rsLocalStateAt st) (prunePeers (rsPeers st)).

(** ** A replica (p2p.go) *)

(** [rpNS]: the namespace and its key, once resolved; [rpResolve]: what the
    resolver answers; [rpStateDir]: whether there is a directory for the state;
    [rpSaved]: the file in it. *)
Record p2pReplica := mkReplica {
  rpID : string;
  rpLog : LocalOpsLog;
  rpResolve : option (string * string);
  rpNS : option (string * string);
  rpStateDir : bool;
  rpSync : fsReplicaSyncState;
  rpSaved : option fsReplicaSyncState
}.

Definition setLog (l : LocalOpsLog) (r : p2pReplica) : p2pReplica := mkReplica (rpID r) l (rpResolve r) (rpNS r) (rpStateDir r) (rpSync r) (rpSaved r).
Definition setNS (ns : option (string * string)) (r : p2pReplica) : p2pReplica := mkReplica (rpID r) (rpLog r) (rpResolve r) ns (rpStateDir r) (rpSync r) (rpSaved r).

(** An update of the state: the new state, and whether it is to be saved. *)
Abbreviation Update := (fsReplicaSyncState -> fsReplicaSyncState * bool).

Definition updateSyncState (saveOk : bool) (update : Update) (r : p2pReplica) : p2pReplica :=
  if negb (rpStateDir r) then r
  else
    let '(st, changed) := update (rpSync r) in
    if changed then
      let st := pruneFSPeerSyncState st in
      mkReplica (rpID r) (rpLog r) (rpResolve r) (rpNS r) true st (if saveOk then Some st else rpSaved r)
    else mkReplica (rpID r) (rpLog r) (rpResolve r) (rpNS r) true st (rpSaved r).

Definition nsidOf (r : p2pReplica) : string := match rpNS r with Some (id, _) => id | None => "" end.

(** [if r.nsID != "" && state.NSID != r.nsID] *)
Definition refreshNSID (id : string) (st : fsReplicaSyncState) : fsReplicaSyncState * bool :=
  if bool_decide (id <> "") && bool_decide (rsNSID st <> id) then (mkReplicaState id (rsLocalSummary st) (rsLocalStateAt st) (rsPeers st), true) else (st, false).

Definition setPeer (peerID : string) (p : fsPeerSyncState) (st : fsReplicaSyncState) : fsReplicaSyncState :=
  mkReplicaState (rsNSID st) (rsLocalSummary st) (rsLocalStateAt st) (<[peerID := p]> (rsPeers st)).

Definition peerOf (peerID : string) (st : fsReplicaSyncState) : fsPeerSyncState := default zeroPeer (rsPeers st !! peerID).

Definition persistResolvedNSID (saveOk : bool) (nsID : string) (r : p2pReplica) : p2pReplica :=
  if bool_decide (nsID = "") then r
  else updateSyncState saveOk (fun st => if bool_decide (rsNSID st = nsID) then (st, false)
                                         else (mkReplicaState nsID (rsLocalSummary st) (rsLocalStateAt st) (rsPeers st), true)) r.

(** A changed local summary, with the time of the change. *)
Definition noteLocal (now : Time) (summary : fsSnapshotState) (changed0 : bool) (st : fsReplicaSyncState) : fsReplicaSyncState * bool :=
  let differs := negb (sameFSSnapshotState (rsLocalSummary st) (Some summary)) in
  let changed := changed0 || differs in
  if changed || time_IsZero (rsLocalStateAt st) then (mkReplicaState (rsNSID st) (Some summary) now (rsPeers st), true)
  else (st, false).

Definition recordLocalSummary (saveOk : bool) (now : Time) (summary : fsSnapshotState) (r : p2pReplica) : p2pReplica :=
  updateSyncState saveOk (fun st => let '(st, changed) := refreshNSID (nsidOf r) st in noteLocal now summary changed st) r.

Definition recordSyncAttempt (saveOk : bool) (now : Time) (peerID : string) (local : fsSnapshotState) (r : p2pReplica) : p2pReplica :=
  if bool_decide (peerID = "") then r
  else updateSyncState saveOk (fun st =>
    let '(st, _) := refreshNSID (nsidOf r) st in
    let st := if sameFSSnapshotState (rsLocalSummary st) (Some local) then st else mkReplicaState (rsNSID st) (Some local) now (rsPeers st) in
    let p := peerOf peerID st in
    (setPeer peerID (mkPeerState now (LastSuccessAt p) (LastErrorAt p) (LastError p) (ssDigest local) (LastPeerDigest p) (Some local) (LastPeerSummary p) (LastSummaryAt p)) st, true)) r.

Definition recordPeerSummary (saveOk : bool) (now : Time) (peerID : string) (peer : fsSnapshotState) (r : p2pReplica) : p2pReplica :=
  if bool_decide (peerID = "") then r
  else updateSyncState saveOk (fun st =>
    let p := peerOf peerID st in
    let changed := negb (sameFSSnapshotState (LastPeerSummary p) (Some peer)) || bool_decide (LastPeerDigest p <> ssDigest peer) in
    let renew := changed || time_IsZero (LastSummaryAt p) in
    (setPeer peerID (mkPeerState (LastAttemptAt p) (LastSuccessAt p) (LastErrorAt p) (LastError p) (LastLocalDigest p) (ssDigest peer) (LastLocalSummary p) (Some peer)
                       (if renew then now else LastSummaryAt p)) st, renew)) r.

Definition recordSyncSuccess (saveOk : bool) (now : Time) (peerID : string) (local peer : fsSnapshotState) (r : p2pReplica) : p2pReplica :=
  if bool_decide (peerID = "") then r
  else updateSyncState saveOk (fun st =>
    let '(st, changed) := refreshNSID (nsidOf r) st in
    let '(st, _) := noteLocal now local changed st in
    (setPeer peerID (mkPeerState now now zeroTime "" (ssDigest local) (ssDigest peer) (Some local) (Some peer) now) st, true)) r.

Definition recordSyncError (saveOk : bool) (now : Time) (peerID : string) (local : option fsSnapshotState) (e : string) (r : p2pReplica) : p2pReplica :=
  if bool_decide (peerID = "") then r
  else updateSyncState saveOk (fun st =>
    let '(st, _) := refreshNSID (nsidOf r) st in
    let st := match local with
      | Some s => if sameFSSnapshotState (rsLocalSummary st) (Some s) then st else mkReplicaState (rsNSID st) (Some s) now (rsPeers st)
      | None => st
      end in
    let p := peerOf peerID st in
    let '(digest, summary) := match local with Some s => (ssDigest s, Some s) | None => (LastLocalDigest p, LastLocalSummary p) end in
    (setPeer peerID (mkPeerState now (LastSuccessAt p) now e digest (LastPeerDigest p) summary (LastPeerSummary p) (LastSummaryAt p)) st, true)) r.

(** [now] is not the zero time. *)
Definition shouldSyncPeer (peerID : string) (local : fsSnapshotState) (now : Time) (staleAfter : Duration) (r : p2pReplica) : bool * Time :=
  if bool_decide (peerID = "") then (false, zeroTime)
  else match rsPeers (rpSync r) !! peerID with
  | None => (true, zeroTime)
  | Some p =>
      if LastSuccessAt p <? LastErrorAt p then
        (negb (time_Sub now (LastErrorAt p) <? fsPeerSyncErrorBackoff), LastAttemptAt p)
      else if time_IsZero (LastSuccessAt p) then (true, zeroTime)
      else if negb (sameFSSnapshotState (LastLocalSummary p) (Some local)) then (true, LastAttemptAt p)
      else if (0 <? staleAfter) && (staleAfter <=? time_Sub now (LastSuccessAt p)) then (true, LastSuccessAt p)
      else (false, LastSuccessAt p)
  end.

(** ** Messages *)

Record fsSyncMsg := mkMsg {
  mType : string;
  mNSID : string;
  mSummary : option fsSnapshotState;
  mData : option string;          (** the encrypted snapshot *)
  mError : string;
  mExpectedNSID : string;
  mObservedNSID : string
}.

(** The codecs: JSON of messages and of peer snapshots, and the digest. *)
Class PeerLib := {
  digest : canonicalSnapshot -> string;
  peerJSON : peerSnapshotJSON -> string;
  peerParse : string -> option peerSnapshotJSON;
  msgJSON : fsSyncMsg -> string;
  msgParse : string -> option fsSyncMsg;
  digest_inj x y : digest x = digest y -> x = y;
  peer_parse_json m : peerParse (peerJSON m) = Some m;
  msg_parse_json m : msgParse (msgJSON m) = Some m
}.

Definition maxFSSyncMsg : Z := 4 * 1024 * 1024.
Definition writeFSSyncMsg (data : string) : string := KvPush.writeMsg data.
Definition readFSSyncMsg (stream : string) : result KvPush.ReadErr (string * string) := KvPush.readFrameMax maxFSSyncMsg stream.

(** What the environment of one side decides: appends, the clock, saves, the nonce
    of an encryption. *)
Record HostEnv := mkHost { heLog : PollEnv; heNow : Time; heSave : bool; heNonce : string }.

Section Protocol.
Context `{Codec : LineCodec Entry} `{CL : CryptoLib} `{PL : PeerLib}.

Definition readMsg (stream : string) : option fsSyncMsg :=
  match readFSSyncMsg stream with Ok (data, _) => msgParse data | Err _ => None end.

Definition encodeFSSnapshotData (env : HostEnv) (nsKey : string) (snap : Snapshot) : result string string :=
  match Encrypt (heNonce env) (peerJSON (MarshalPeerSnapshot (heNow env) (Some snap))) nsKey with
  | Err _ => Err "encrypt peer snapshot"
  | Ok enc => Ok enc
  end.

Definition decodeFSSnapshotData (nsKey data : string) : result string Snapshot :=
  match Decrypt data nsKey with
  | Err _ => Err "decrypt peer snapshot"
  | Ok plain => match peerParse plain with None => Err "unmarshal peer snapshot" | Some m => Ok (UnmarshalPeerSnapshot m) end
  end.

(** [state]: the namespace of a replica. *)
Definition replicaState (env : HostEnv) (r : p2pReplica) : p2pReplica * option (string * string) :=
  match rpNS r with
  | Some ns => (r, Some ns)
  | None =>
      match rpResolve r with
      | None => (r, None)
      | Some (nsID, nsKey) =>
          if bool_decide (nsID = "") || bool_decide (nsKey = "") then (r, None)
          else (persistResolvedNSID (heSave env) nsID (setNS (Some (nsID, nsKey)) r), Some (nsID, nsKey))
      end
  end.

Definition loadReplicaSnapshot (env : HostEnv) (r : p2pReplica) : p2pReplica * option (Snapshot * fsSnapshotState * string * string) :=
  match replicaState env r with
  | (r, None) => (r, None)
  | (r, Some (nsID, nsKey)) =>
      match getSnapshot (pRead (heLog env)) (pN0 (heLog env)) (pN1 (heLog env)) (rpLog r) with
      | (l, Err _) => (setLog l r, None)
      | (l, Ok snap) =>
          let summary := summarizeFSSnapshot digest snap in
          (recordLocalSummary (heSave env) (heNow env) summary (setLog l r), Some (snap, summary, nsID, nsKey))
      end
  end.

(** The replicas of a manager, in the order in which they are enumerated. *)
Abbreviation Replicas := (list p2pReplica).

Fixpoint findReplica (env : HostEnv) (nsID : string) (rs : Replicas) : Replicas * option nat :=
  match rs with
  | [] => ([], None)
  | r :: rest =>
      match replicaState env r with
      | (r, Some (id, _)) =>
          if bool_decide (id = nsID) then (r :: rest, Some O)
          else let '(rest, i) := findReplica env nsID rest in (r :: rest, S <$> i)
      | (r, None) => let '(rest, i) := findReplica env nsID rest in (r :: rest, S <$> i)
      end
  end.

(** The replica of a namespace, and whether it is certain; a manager with a single
    replica takes that one. *)
Definition replicaForNSID (env : HostEnv) (nsID : string) (rs : Replicas) : Replicas * option (nat * bool) :=
  match findReplica env nsID rs with
  | (rs, Some i) => (rs, Some (i, true))
  | (rs, None) => (rs, if Nat.eqb (length rs) 1 then Some (O, false) else None)
  end.

Definition mismatch (got want : string) : string := "namespace mismatch: got " +:+ got +:+ " want " +:+ want.

Definition mergeSnapshotMessage (env : HostEnv) (msg : fsSyncMsg) (from : string) (rs : Replicas) : Replicas * result string Z :=
  match replicaForNSID env (mNSID msg) rs with
  | (rs, None) => (rs, Err ("unknown namespace: " +:+ mNSID msg))
  | (rs, Some (i, exact)) =>
      match rs !! i with
      | None => (rs, Err ("unknown namespace: " +:+ mNSID msg))
      | Some r =>
          match replicaState env r with
          | (r, None) => (<[i := r]> rs, Err "namespace not resolved")
          | (r, Some (nsID, nsKey)) =>
              if negb exact || bool_decide (mNSID msg <> nsID) then (<[i := r]> rs, Err (mismatch (mNSID msg) nsID))
              else match mData msg with
              | None => (<[i := r]> rs, Ok 0)
              | Some data =>
                  match decodeFSSnapshotData nsKey data with
                  | Err e => (<[i := r]> rs, Err e)
                  | Ok remote =>
                      match mergePeerSnapshot (heLog env) remote (rpLog r) with
                      | (l, _, Err _) => (<[i := recordSyncError (heSave env) (heNow env) from None "append" (setLog l r)]> rs, Err "append")
                      | (l, merged, Ok _) =>
                          let '(r, loaded) := loadReplicaSnapshot env (setLog l r) in
                          let '(r, local) := match loaded with
                            | Some (_, summary, _, _) => (recordLocalSummary (heSave env) (heNow env) summary r, summary)
                            | None => (r, mkState "" 0 0 0 0 0)
                            end in
                          let r := match mSummary msg with Some s => recordPeerSummary (heSave env) (heNow env) from s r | None => r end in
                          let peer := default (mkState "" 0 0 0 0 0) (mSummary msg) in
                          (<[i := recordSyncSuccess (heSave env) (heNow env) from local peer r]> rs, Ok merged)
                      end
                  end
              end
          end
      end
  end.

Definition errorMsg (message expected observed : string) : fsSyncMsg := mkMsg "error" expected None None message expected observed.

(** [handleSummary]: the answer, and what is recorded if the answer could be
    written. *)
Definition handleSummary (env : HostEnv) (writeOk : bool) (msg : fsSyncMsg) (from : string) (rs : Replicas) : Replicas * fsSyncMsg :=
  match replicaForNSID env (mNSID msg) rs with
  | (rs, None) => (rs, errorMsg "unknown namespace" "" (mNSID msg))
  | (rs, Some (i, exact)) =>
      match rs !! i with
      | None => (rs, errorMsg "unknown namespace" "" (mNSID msg))
      | Some r =>
          match loadReplicaSnapshot env r with
          | (r, None) => (<[i := r]> rs, errorMsg "namespace not resolved" "" (mNSID msg))
          | (r, Some (snap, summary, nsID, nsKey)) =>
              let r := recordLocalSummary (heSave env) (heNow env) summary r in
              if negb exact || bool_decide (mNSID msg <> nsID) then (<[i := r]> rs, errorMsg (mismatch (mNSID msg) nsID) nsID (mNSID msg))
              else
                let r := match mSummary msg with Some s => recordPeerSummary (heSave env) (heNow env) from s r | None => r end in
                let same := match mSummary msg with Some s => bool_decide (ssDigest s = ssDigest summary) | None => false end in
                match (if same then Ok None else match encodeFSSnapshotData env nsKey snap with Ok enc => Ok (Some enc) | Err e => Err e end) with
                | Err _ => (<[i := r]> rs, errorMsg "encoding snapshot failed" nsID (mNSID msg))
                | Ok data =>
                    let answer := mkMsg "summary" nsID (Some summary) data "" "" "" in
                    let r := if writeOk then recordSyncSuccess (heSave env) (heNow env) from summary (default (mkState "" 0 0 0 0 0) (mSummary msg)) r
                             else recordSyncError (heSave env) (heNow env) from (Some summary) "write" r in
                    (<[i := r]> rs, answer)
                end
          end
      end
  end.

(** [handleStream]: a message that arrived; [None]: no answer. *)
Definition handleStream (env : HostEnv) (writeOk : bool) (stream : string) (from : string) (rs : Replicas) : Replicas * option string :=
  match readMsg stream with
  | None => (rs, None)
  | Some msg =>
      if bool_decide (mType msg = "summary") then
        let '(rs, answer) := handleSummary env writeOk msg from rs in (rs, Some (writeFSSyncMsg (msgJSON answer)))
      else if bool_decide (mType msg = "snapshot") then ((mergeSnapshotMessage env msg from rs).1, None)
      else (rs, None)
  end.

(** *** A round, from the side that begins it *)

(** What the network does: the stream of the request opens and carries it; the
    peer's write of the answer succeeds; the answer arrives; the write of the
    snapshot succeeds; it arrives. *)
Record Net := mkNet { netOpen : bool; netWrite : bool; netAnswer : bool; netSend : bool; netArrives : bool }.

Definition summaryRequest (nsID : string) (summary : fsSnapshotState) : fsSyncMsg := mkMsg "summary" nsID (Some summary) None "" "" "".
Definition snapshotMsg (nsID : string) (summary : fsSnapshotState) (data : string) : fsSyncMsg := mkMsg "snapshot" nsID (Some summary) (Some data) "" "" "".

(** [requestSummary], and what it makes the peer do. *)
Definition requestSummary (envB : HostEnv) (net : Net) (nsID : string) (summary : fsSnapshotState) (idA : string) (rsB : Replicas)
  : Replicas * result string fsSyncMsg :=
  if negb (netOpen net) then (rsB, Err "opening stream")
  else
    match handleStream envB (netWrite net) (writeFSSyncMsg (msgJSON (summaryRequest nsID summary))) idA rsB with
    | (rsB, None) => (rsB, Err "reading summary response")
    | (rsB, Some stream) =>
        if negb (netWrite net && netAnswer net) then (rsB, Err "reading summary response")
        else match readMsg stream with
        | None => (rsB, Err "reading summary response")
        | Some m => (rsB, if bool_decide (mType m = "error") then Err (mError m) else Ok m)
        end
    end.

(** [sendSnapshotMessage] *)
Definition sendSnapshotMessage (envA envB : HostEnv) (net : Net) (nsID nsKey : string) (snap : Snapshot) (idA : string) (rsB : Replicas)
  : Replicas * result string unit :=
  match encodeFSSnapshotData envA nsKey snap with
  | Err e => (rsB, Err e)
  | Ok enc =>
      let msg := snapshotMsg nsID (summarizeFSSnapshot digest snap) enc in
      if negb (netSend net) then (rsB, Err "writing snapshot")
      else ((if netArrives net then (handleStream envB true (writeFSSyncMsg (msgJSON msg)) idA rsB).1 else rsB), Ok tt)
  end.

(** What [syncWithPeer] does with the answer. *)
Definition afterAnswer (envA envB : HostEnv) (net : Net) (idA idB : string) (i : nat) (nsID nsKey : string) (summary : fsSnapshotState)
    (response : fsSyncMsg) (rsA rsB : Replicas) : Replicas * Replicas :=
  let rsA := match mSummary response with Some s => alter (recordPeerSummary (heSave envA) (heNow envA) idB s) i rsA | None => rsA end in
  let '(rsA, _) := mergeSnapshotMessage envA response idB rsA in
  match mSummary response, rsA !! i with
  | Some peerSummary, Some r =>
      match loadReplicaSnapshot envA r with
      | (r, None) => (<[i := recordSyncError (heSave envA) (heNow envA) idB (Some summary) "snapshot" r]> rsA, rsB)
      | (r, Some (latest, latestSummary, _, _)) =>
          if bool_decide (ssDigest latestSummary = ssDigest peerSummary) then
            (<[i := recordSyncSuccess (heSave envA) (heNow envA) idB latestSummary peerSummary r]> rsA, rsB)
          else match sendSnapshotMessage envA envB net nsID nsKey latest idA rsB with
          | (rsB, Err e) => (<[i := recordSyncError (heSave envA) (heNow envA) idB (Some latestSummary) e r]> rsA, rsB)
          | (rsB, Ok _) => (<[i := recordSyncSuccess (heSave envA) (heNow envA) idB latestSummary peerSummary r]> rsA, rsB)
          end
      end
  | _, _ => (rsA, rsB)
  end.

Definition syncWithPeer (envA envB : HostEnv) (net : Net) (idA idB : string) (i : nat) (rsA rsB : Replicas) : Replicas * Replicas :=
  match rsA !! i with
  | None => (rsA, rsB)
  | Some r =>
      match loadReplicaSnapshot envA r with
      | (r, None) => (<[i := r]> rsA, rsB)
      | (r, Some (snap, summary, nsID, nsKey)) =>
          let r := recordLocalSummary (heSave envA) (heNow envA) summary r in
          let r := recordSyncAttempt (heSave envA) (heNow envA) idB summary r in
          match requestSummary envB net nsID summary idA rsB with
          | (rsB, Err e) => (<[i := recordSyncError (heSave envA) (heNow envA) idB (Some summary) e r]> rsA, rsB)
          | (rsB, Ok response) => afterAnswer envA envB net idA idB i nsID nsKey summary response (<[i := r]> rsA) rsB
          end
      end
  end.

(** ** What leaves the log and the namespace alone *)

(** There is a directory for the state, and the map has room for the peer. *)
Definition room (id : string) (r : p2pReplica) : Prop :=
  rpStateDir r = true /\ (size (delete id (rsPeers (rpSync r))) < fsPeerSyncStateMaxPeers)%nat.

Definition steady (id : string) (r r' : p2pReplica) : Prop := rpLog r' = rpLog r /\ rpNS r' = rpNS r /\ (room id r -> room id r').

#[local] Instance steady_pre id : PreOrder (steady id).
Proof. split; [by split|]. intros r1 r2 r3 (H1 & H2 & H3) (H4 & H5 & H6). split_and!; [congruence..|tauto]. Qed.

Lemma prune_room (id : string) (m : gmap string fsPeerSyncState) : (size (delete id m) < fsPeerSyncStateMaxPeers)%nat -> prunePeers m = m.
Proof.
  intros H. unfold prunePeers. rewrite (proj2 (Nat.leb_le _ _)); [done|]. revert H. rewrite map_size_delete. destruct (m !! id); cbn; lia.
Qed.

Lemma update_room saveOk (u : Update) id r :
  room id r -> delete id (rsPeers (u (rpSync r)).1) = delete id (rsPeers (rpSync r)) ->
  rpSync (updateSyncState saveOk u r) = (u (rpSync r)).1 /\ room id (updateSyncState saveOk u r).
Proof.
  intros [Hd Hs] Hu. unfold updateSyncState. rewrite Hd. cbn [negb]. destruct (u (rpSync r)) as [st c] eqn:E. cbn [fst] in Hu.
  assert (pruneFSPeerSyncState st = st) as Hp. { unfold pruneFSPeerSyncState. rewrite (prune_room id) by (by rewrite Hu). by destruct st. }
  rewrite Hp. unfold room. destruct c; cbn; by rewrite Hu.
Qed.

Lemma update_steady saveOk (u : Update) id r :
  (forall st, delete id (rsPeers (u st).1) = delete id (rsPeers st)) -> steady id r (updateSyncState saveOk u r).
Proof.
  intros Hu. split_and!; [| |intros Hr; by apply update_room]; unfold updateSyncState; (destruct (negb _); [done|]); destruct (u _) as [st []]; done.
Qed.

Lemma refresh_peers id st : rsPeers (refreshNSID id st).1 = rsPeers st.
Proof. unfold refreshNSID. by destruct (_ && _). Qed.

Lemma note_peers now s b st : rsPeers (noteLocal now s b st).1 = rsPeers st.
Proof. unfold noteLocal. by destruct (_ || _). Qed.

Lemma setPeer_delete id p st : delete id (rsPeers (setPeer id p st)) = delete id (rsPeers st).
Proof. apply delete_insert_eq. Qed.

Lemma local_steady saveOk now s id r : steady id r (recordLocalSummary saveOk now s r).
Proof.
  apply update_steady. intros st. pose proof (refresh_peers (nsidOf r) st) as E. destruct (refreshNSID _ _) as [st1 b]. by rewrite note_peers, <- E.
Qed.

(** With room for the peer, a new local summary leaves what is known of the peers. *)
Lemma local_peers id saveOk now s r l : room id r -> rsPeers (rpSync (recordLocalSummary saveOk now s (setLog l r))) = rsPeers (rpSync r).
Proof.
  intros Hr. unfold recordLocalSummary.
  match goal with |- context[updateSyncState _ ?u ?r] => destruct (update_room saveOk u id r Hr) as [E _] end.
  - pose proof (refresh_peers (nsidOf (setLog l r)) (rpSync r)) as E. cbn [rpSync setLog]. destruct (refreshNSID _ _) as [st1 b]. by rewrite note_peers, <- E.
  - rewrite E. pose proof (refresh_peers (nsidOf (setLog l r)) (rpSync r)) as E1. cbn [rpSync setLog]. destruct (refreshNSID _ _) as [st1 b]. by rewrite note_peers.
Qed.

Lemma attempt_steady saveOk now id s r : steady id r (recordSyncAttempt saveOk now id s r).
Proof.
  unfold recordSyncAttempt. case_bool_decide; [reflexivity|]. apply update_steady. intros st. pose proof (refresh_peers (nsidOf r) st) as E.
  destruct (refreshNSID _ _) as [st1 b]. rewrite <- E. cbn [fst]. rewrite setPeer_delete. by destruct (sameFSSnapshotState _ _).
Qed.

Lemma peer_steady saveOk now id s r : steady id r (recordPeerSummary saveOk now id s r).
Proof. unfold recordPeerSummary. case_bool_decide; [reflexivity|]. apply update_steady. intros st. apply setPeer_delete. Qed.

Lemma success_steady saveOk now id s p r : steady id r (recordSyncSuccess saveOk now id s p r).
Proof.
  unfold recordSyncSuccess. case_bool_decide; [reflexivity|]. apply update_steady. intros st. pose proof (refresh_peers (nsidOf r) st) as E.
  destruct (refreshNSID _ _) as [st1 b]. pose proof (note_peers now s b st1) as E2. destruct (noteLocal _ _ _ _) as [st2 b2]. cbn [fst] in *.
  by rewrite setPeer_delete, E2, E.
Qed.

Lemma error_steady saveOk now id s e r : steady id r (recordSyncError saveOk now id s e r).
Proof.
  unfold recordSyncError. case_bool_decide; [reflexivity|]. apply update_steady. intros st. pose proof (refresh_peers (nsidOf r) st) as E.
  destruct (refreshNSID _ _) as [st1 b]. rewrite <- E. destruct s as [s|]; cbn [fst]; rewrite setPeer_delete; [by destruct (sameFSSnapshotState _ _)|done].
Qed.

(** A replica with its namespace resolved and a warm log. *)
Definition warm (nsID nsKey : string) (c : Snapshot) (r : p2pReplica) : Prop := rpNS r = Some (nsID, nsKey) /\ cache (rpLog r) = Some c.

Lemma steady_warm id nsID nsKey c r r' : steady id r r' -> warm nsID nsKey c r -> warm nsID nsKey c r'.
Proof. intros (H1 & H2 & _) [H3 H4]. split; congruence. Qed.

Lemma steady_room id r r' : steady id r r' -> room id r -> room id r'.
Proof. by intros (_ & _ & H). Qed.

Lemma loadReplica_warm env id nsID nsKey c r :
  warm nsID nsKey c r -> exists r', loadReplicaSnapshot env r = (r', Some (c, summarizeFSSnapshot digest c, nsID, nsKey)) /\ steady id r r'.
Proof.
  intros [H1 H2]. unfold loadReplicaSnapshot, replicaState, getSnapshot. rewrite H1, H2. eexists. split; [done|].
  transitivity (setLog (rpLog r) r); [by split_and!|apply local_steady].
Qed.

Lemma replicaForNSID_warm env nsID nsKey c r : warm nsID nsKey c r -> replicaForNSID env nsID [r] = ([r], Some (O, true)).
Proof. intros [H1 _]. unfold replicaForNSID, findReplica, replicaState. rewrite H1. by rewrite bool_decide_eq_true_2. Qed.

(** A message that the other side takes. *)
Definition fits (m : fsSyncMsg) : Prop := slen (msgJSON m) <= maxFSSyncMsg.

Lemma readMsg_write m : slen (msgJSON m) < 2 ^ 32 -> readMsg (writeFSSyncMsg (msgJSON m)) = if maxFSSyncMsg <? slen (msgJSON m) then None else Some m.
Proof.
  intros Hl. unfold readMsg, readFSSyncMsg, writeFSSyncMsg. pose proof (KvPush.frame_roundtrip maxFSSyncMsg (msgJSON m) "" Hl) as H.
  rewrite str_app_nil_r in H. rewrite H. destruct (_ <? _); [done|]. apply msg_parse_json.
Qed.

Lemma readMsg_fits m : fits m -> readMsg (writeFSSyncMsg (msgJSON m)) = Some m.
Proof.
  intros H. unfold fits in H. rewrite readMsg_write by (unfold maxFSSyncMsg in H; lia). by rewrite (proj2 (Z.ltb_ge _ _) H).
Qed.

Lemma decode_encode_snapshot env nsKey s :
  slen (heNonce env) = NonceSize -> slen nsKey = KeySize ->
  exists enc, encodeFSSnapshotData env nsKey s = Ok enc /\ decodeFSSnapshotData nsKey enc = Ok (sent (heNow env) s).
Proof.
  intros Hn Hk. destruct (Decrypt_Encrypt (heNonce env) (peerJSON (MarshalPeerSnapshot (heNow env) (Some s))) nsKey Hn Hk) as (enc & E & D & _).
  exists enc. unfold encodeFSSnapshotData, decodeFSSnapshotData. by rewrite E, D, peer_parse_json.
Qed.

(** What the merge of a snapshot leaves of a warm replica. *)
Definition mergedWith (env : HostEnv) (c s : Snapshot) : Snapshot := foldl (onTop (pN0 (heLog env)) (pN1 (heLog env))) c (peerEntries c s).

Lemma mergeMessage_warm env nsID nsKey c r from msg s enc :
  warm nsID nsKey c r -> mNSID msg = nsID -> mData msg = Some enc -> decodeFSSnapshotData nsKey enc = Ok s -> (forall e, pIO (heLog env) e = WOk) ->
  exists r' n, mergeSnapshotMessage env msg from [r] = ([r'], Ok n) /\ warm nsID nsKey (mergedWith env c s) r' /\ (room from r -> room from r').
Proof.
  intros Hw Hid Hdata Hdec Hio. unfold mergeSnapshotMessage. rewrite Hid, (replicaForNSID_warm _ _ _ _ _ Hw). cbn [lookup list_lookup].
  unfold replicaState. destruct Hw as [H1 H2]. rewrite H1, bool_decide_eq_false_2 by (by intros []). cbn [negb orb]. rewrite Hdata, Hdec.
  destruct (mergePeer_warm (heLog env) s (rpLog r) c H2 Hio) as (l' & E & Hc). rewrite E.
  destruct (loadReplica_warm env from nsID nsKey _ (setLog l' r) (conj H1 Hc)) as (r1 & E1 & Hs1). rewrite E1. cbn [list_insert].
  assert (forall m, steady from (setLog l' r) (recordSyncSuccess (heSave env) (heNow env) from (summarizeFSSnapshot digest (mergedWith env c s)) m
    (let r2 := recordLocalSummary (heSave env) (heNow env) (summarizeFSSnapshot digest (mergedWith env c s)) r1 in
     match mSummary msg with Some s => recordPeerSummary (heSave env) (heNow env) from s r2 | None => r2 end))) as Hst.
  { intros m. etransitivity; [exact Hs1|]. etransitivity; [|apply success_steady]. cbv zeta.
    destruct (mSummary msg); [etransitivity; [|apply peer_steady]|]; apply local_steady. }
  do 2 eexists. split_and!; [reflexivity|by eapply steady_warm; [apply Hst|split]|]. intros Hr. eapply steady_room; [apply Hst|exact Hr].
Qed.

(** The answer of a warm replica to the summary of a peer. *)
Lemma fsHandleSummary_warm env writeOk nsID nsKey c r msg from s enc :
  warm nsID nsKey c r -> mNSID msg = nsID -> mSummary msg = Some s -> encodeFSSnapshotData env nsKey c = Ok enc ->
  let mine := summarizeFSSnapshot digest c in
  exists r0, steady from r r0 /\
    handleSummary env writeOk msg from [r] =
      ([if writeOk then recordSyncSuccess (heSave env) (heNow env) from mine s r0 else recordSyncError (heSave env) (heNow env) from (Some mine) "write" r0],
       mkMsg "summary" nsID (Some mine) (if bool_decide (ssDigest s = ssDigest mine) then None else Some enc) "" "" "").
Proof.
  intros Hw Hid Hs Henc mine. unfold handleSummary. rewrite Hid, (replicaForNSID_warm _ _ _ _ _ Hw). cbn [lookup list_lookup].
  destruct (loadReplica_warm env from nsID nsKey c r Hw) as (r1 & E1 & Hs1). rewrite E1, bool_decide_eq_false_2 by (by intros []). cbn [negb orb].
  rewrite Hs. cbn [default]. fold mine.
  exists (recordPeerSummary (heSave env) (heNow env) from s (recordLocalSummary (heSave env) (heNow env) mine r1)). split.
  - etransitivity; [exact Hs1|]. etransitivity; [apply local_steady|apply peer_steady].
  - case_bool_decide; [|rewrite Henc]; by destruct writeOk.
Qed.

(** The record of a peer after a round that ended well, and after one that did not. *)
Lemma success_recorded saveOk now id s p r :
  id <> "" -> room id r ->
  rsPeers (rpSync (recordSyncSuccess saveOk now id s p r)) !! id = Some (mkPeerState now now zeroTime "" (ssDigest s) (ssDigest p) (Some s) (Some p) now) /\
  room id (recordSyncSuccess saveOk now id s p r).
Proof.
  intros Hid Hr. pose proof (steady_room _ _ _ (success_steady saveOk now id s p r) Hr) as Hr'. split; [|exact Hr'].
  unfold recordSyncSuccess. rewrite bool_decide_eq_false_2 by done.
  match goal with |- context[updateSyncState _ ?u r] => destruct (update_room saveOk u id r Hr) as [E _] end.
  - pose proof (refresh_peers (nsidOf r) (rpSync r)) as E. destruct (refreshNSID _ _) as [st1 b]. pose proof (note_peers now s b st1) as E2. destruct (noteLocal _ _ _ _) as [st2 b2].
    cbn [fst] in *. by rewrite setPeer_delete, E2, E.
  - rewrite E. destruct (refreshNSID _ _) as [st1 b]. destruct (noteLocal _ _ _ _) as [st2 b2]. cbn. by rewrite lookup_insert_eq.
Qed.

Lemma success_not_due id now s p r now' r' :
  rsPeers (rpSync r') !! id = Some (mkPeerState now now zeroTime "" (ssDigest s) (ssDigest p) (Some s) (Some p) r) -> id <> "" -> zeroTime < now ->
  shouldSyncPeer id s now' 0 r' = (false, now).
Proof.
  intros Hp Hid Hn. unfold shouldSyncPeer. rewrite bool_decide_eq_false_2 by done. rewrite Hp. cbn [LastSuccessAt LastErrorAt LastLocalSummary].
  rewrite (proj2 (Z.ltb_ge _ _)) by lia. assert (time_IsZero now = false) as -> by (unfold time_IsZero; apply Z.eqb_neq; lia).
  unfold sameFSSnapshotState. by rewrite bool_decide_eq_true_2.
Qed.

Lemma error_recorded saveOk now id s e r :
  id <> "" -> room id r ->
  exists p, rsPeers (rpSync (recordSyncError saveOk now id (Some s) e r)) !! id = Some p /\ LastErrorAt p = now /\ LastError p = e /\
    LastSuccessAt p = LastSuccessAt (peerOf id (rpSync r)).
Proof.
  intros Hid Hr. unfold recordSyncError. rewrite bool_decide_eq_false_2 by done.
  match goal with |- context[updateSyncState _ ?u r] => destruct (update_room saveOk u id r Hr) as [E _] end.
  - pose proof (refresh_peers (nsidOf r) (rpSync r)) as E. destruct (refreshNSID _ _) as [st1 b]. cbn [fst] in *. rewrite setPeer_delete. by destruct (sameFSSnapshotState _ _); cbn; rewrite E.
  - rewrite E. pose proof (refresh_peers (nsidOf r) (rpSync r)) as E1. destruct (refreshNSID _ _) as [st1 b]. cbn [fst] in *. eexists. split; [apply lookup_insert_eq|]. cbn.
    split_and!; [done|done|]. unfold peerOf. by destruct (sameFSSnapshotState _ _); cbn; rewrite E1.
Qed.

(** *** A round of two devices with one warm replica each *)

(** The network carries everything. *)
Definition netUp : Net := mkNet true true true true true.

Section Round.
Context (envA envB : HostEnv) (idA idB nsID keyA keyB : string) (a b : Snapshot) (rA rB : p2pReplica).
Context (HA : warm nsID keyA a rA) (HB : warm nsID keyB b rB).
Context (HioA : forall e, pIO (heLog envA) e = WOk) (HioB : forall e, pIO (heLog envB) e = WOk).
Context (HnA : slen (heNonce envA) = NonceSize) (HnB : slen (heNonce envB) = NonceSize) (HkA : slen keyA = KeySize) (HkB : slen keyB = KeySize).

Abbreviation sumA := (summarizeFSSnapshot digest a).
Abbreviation sumB := (summarizeFSSnapshot digest b).

(** The answer of [B], as a value. *)
Definition answerOf (enc : string) : fsSyncMsg :=
  mkMsg "summary" nsID (Some sumB) (if bool_decide (ssDigest sumA = ssDigest sumB) then None else Some enc) "" "" "".

Lemma sync_begins net : exists r1, steady idB rA r1 /\
  syncWithPeer envA envB net idA idB 0 [rA] [rB] =
    match requestSummary envB net nsID sumA idA [rB] with
    | (rsB, Err e) => ([recordSyncError (heSave envA) (heNow envA) idB (Some sumA) e r1], rsB)
    | (rsB, Ok response) => afterAnswer envA envB net idA idB 0 nsID keyA sumA response [r1] rsB
    end.
Proof using HA.
  unfold syncWithPeer. cbn [lookup list_lookup]. destruct (loadReplica_warm envA idB nsID keyA a rA HA) as (r & E & Hs). rewrite E.
  exists (recordSyncAttempt (heSave envA) (heNow envA) idB sumA (recordLocalSummary (heSave envA) (heNow envA) sumA r)). split; [|done].
  etransitivity; [exact Hs|]. etransitivity; [apply local_steady|apply attempt_steady].
Qed.

Lemma request_answered enc :
  fits (summaryRequest nsID sumA) -> encodeFSSnapshotData envB keyB b = Ok enc ->
  exists r0, steady idA rB r0 /\ requestSummary envB netUp nsID sumA idA [rB] =
      ([recordSyncSuccess (heSave envB) (heNow envB) idA sumB sumA r0],
       match readMsg (writeFSSyncMsg (msgJSON (answerOf enc))) with
       | None => Err "reading summary response"
       | Some m => if bool_decide (mType m = "error") then Err (mError m) else Ok m
       end).
Proof using HB.
  intros Hfit Henc. unfold requestSummary, handleStream. cbn [netUp netOpen netWrite netAnswer negb andb]. rewrite (readMsg_fits _ Hfit).
  cbn [mType summaryRequest]. rewrite bool_decide_eq_true_2 by done.
  destruct (fsHandleSummary_warm envB true nsID keyB b rB (summaryRequest nsID sumA) idA sumA enc HB eq_refl eq_refl Henc) as (r0 & Hs & E). rewrite E.
  exists r0. split; [exact Hs|]. unfold answerOf. by destruct (readMsg _).
Qed.

(** An answer that is too large is not read. *)
Lemma request_unread net enc :
  fits (summaryRequest nsID sumA) -> encodeFSSnapshotData envB keyB b = Ok enc -> maxFSSyncMsg < slen (msgJSON (answerOf enc)) < 2 ^ 32 ->
  exists rB' e, steady idA rB rB' /\ e <> "" /\ requestSummary envB net nsID sumA idA [rB] = ([rB'], Err e).
Proof using HB.
  intros Hfit Henc Hlarge. unfold requestSummary, handleStream. destruct (netOpen net); cbn [negb]; [|by exists rB, "opening stream"].
  rewrite (readMsg_fits _ Hfit). cbn [mType summaryRequest]. rewrite bool_decide_eq_true_2 by done.
  destruct (fsHandleSummary_warm envB (netWrite net) nsID keyB b rB (summaryRequest nsID sumA) idA sumA enc HB eq_refl eq_refl Henc) as (r0 & Hs & E). rewrite E.
  do 2 eexists. split; [|split]; [| |destruct (negb _); [reflexivity|]; fold (answerOf enc); rewrite readMsg_write by lia; by rewrite (proj2 (Z.ltb_lt _ _) (proj1 Hlarge))]; [|done].
  etransitivity; [exact Hs|]. destruct (netWrite net); [apply success_steady|apply error_steady].
Qed.

Lemma merge_nothing env nsKey c r from msg :
  warm nsID nsKey c r -> mNSID msg = nsID -> mData msg = None -> mergeSnapshotMessage env msg from [r] = ([r], Ok 0).
Proof.
  intros Hw Hid Hdata. unfold mergeSnapshotMessage. rewrite Hid, (replicaForNSID_warm _ _ _ _ _ Hw). cbn [lookup list_lookup].
  unfold replicaState. destruct Hw as [H1 H2]. rewrite H1, bool_decide_eq_false_2 by (by intros []). cbn [negb orb]. by rewrite Hdata.
Qed.

Lemma merge_undecoded env nsKey c r from msg enc e :
  warm nsID nsKey c r -> mNSID msg = nsID -> mData msg = Some enc -> decodeFSSnapshotData nsKey enc = Err e -> mergeSnapshotMessage env msg from [r] = ([r], Err e).
Proof.
  intros Hw Hid Hdata Hdec. unfold mergeSnapshotMessage. rewrite Hid, (replicaForNSID_warm _ _ _ _ _ Hw). cbn [lookup list_lookup].
  unfold replicaState. destruct Hw as [H1 H2]. rewrite H1, bool_decide_eq_false_2 by (by intros []). cbn [negb orb]. by rewrite Hdata, Hdec.
Qed.

Lemma after_merged response r1 r2 res x s rsB :
  mSummary response = Some s -> mergeSnapshotMessage envA response idB [recordPeerSummary (heSave envA) (heNow envA) idB s r1] = ([r2], res) -> warm nsID keyA x r2 ->
  exists r3, steady idB r2 r3 /\
    afterAnswer envA envB netUp idA idB 0 nsID keyA sumA response [r1] rsB =
      let mine := summarizeFSSnapshot digest x in
      if bool_decide (ssDigest mine = ssDigest s) then ([recordSyncSuccess (heSave envA) (heNow envA) idB mine s r3], rsB)
      else match sendSnapshotMessage envA envB netUp nsID keyA x idA rsB with
      | (rsB, Err e) => ([recordSyncError (heSave envA) (heNow envA) idB (Some mine) e r3], rsB)
      | (rsB, Ok _) => ([recordSyncSuccess (heSave envA) (heNow envA) idB mine s r3], rsB)
      end.
Proof.
  intros Hs Hm Hw. unfold afterAnswer. rewrite Hs. cbn [list_alter alter]. rewrite Hm. cbn [lookup list_lookup].
  destruct (loadReplica_warm envA idB nsID keyA x r2 Hw) as (r3 & E & Hst). rewrite E. by exists r3.
Qed.

Lemma snapshot_sent x enc r :
  encodeFSSnapshotData envA keyA x = Ok enc -> fits (snapshotMsg nsID (summarizeFSSnapshot digest x) enc) ->
  sendSnapshotMessage envA envB netUp nsID keyA x idA [r] = ((mergeSnapshotMessage envB (snapshotMsg nsID (summarizeFSSnapshot digest x) enc) idA [r]).1, Ok tt).
Proof.
  intros He Hf. unfold sendSnapshotMessage, handleStream. rewrite He. cbn [netUp netSend netArrives negb]. rewrite (readMsg_fits _ Hf). cbn [mType snapshotMsg].
  by rewrite bool_decide_eq_false_2, bool_decide_eq_true_2.
Qed.

(** The end of a round that went well: the same files on both sides, and a
    success recorded for the peer. *)
Definition settled (rs : Replicas * Replicas) : Prop :=
  exists rA' rB' x y p, rs = ([rA'], [rB']) /\ warm nsID keyA x rA' /\ warm nsID keyB y rB' /\ files x = files y /\
    rsPeers (rpSync rA') !! idB = Some p /\ LastSuccessAt p = heNow envA /\ LastError p = "".

Lemma round_ends x y mine r rB' :
  idB <> "" -> room idB r -> warm nsID keyA x r -> warm nsID keyB y rB' -> files x = files y ->
  settled ([recordSyncSuccess (heSave envA) (heNow envA) idB mine sumB r], [rB']).
Proof.
  intros Hid Hr Hx Hy Hf. destruct (success_recorded (heSave envA) (heNow envA) idB mine sumB r Hid Hr) as [Hp _].
  do 5 eexists. split; [reflexivity|]. split_and!; [eapply steady_warm; [apply success_steady|exact Hx]|exact Hy|exact Hf|exact Hp|done|done].
Qed.

(** C6 (liveness). A round between two devices of a drive, both with a warm replica
    of it and the namespace's key: if the network carries it, the messages fit and
    the appends succeed, both have the same files afterwards, and the device that
    began has recorded that it went well.  Digests do not collide and JSON reads
    back what was written ([PeerLib]).  The two snapshots are such that clocks
    can decide: neither drive was deleted as a whole, no upload is pending, no two
    different records of a path have the same clock, a directory that one of the
    two records and either has deleted was not created again after the deletion
    ([fs_peer_dir_comes_back]), and of two versions of a path the one that names
    the content of the other as what it replaces ([PrevChecksum], as ordinary edits
    and deletions do) is the newer one.  When a content came back after it was
    replaced the last need not hold, and the devices stay apart
    ([fs_peer_revert_splits]). *)
Theorem fs_peer_sync_converges encB encA
  (Hkey : keyA = keyB) (Ha : peer_ok a) (Hb : peer_ok b) (Hea : exact a) (Heb : exact b)
  (Hstay : stay_deleted a b) (Hfollow : follow_clocks a b) (Hcons : consistent a b)
  (HencB : encodeFSSnapshotData envB keyB b = Ok encB) (HencA : encodeFSSnapshotData envA keyA (mergedWith envA a (sent (heNow envB) b)) = Ok encA)
  (Hfit1 : fits (summaryRequest nsID sumA)) (Hfit2 : fits (answerOf encB))
  (Hfit3 : fits (snapshotMsg nsID (summarizeFSSnapshot digest (mergedWith envA a (sent (heNow envB) b))) encA))
  (Hroom : room idB rA) (Hid : idB <> "") :
  settled (syncWithPeer envA envB netUp idA idB 0 [rA] [rB]).
Proof using HA HB HioA HioB HnA HnB HkA HkB.
  destruct (sync_begins netUp) as (r1 & Hst1 & E). rewrite E. clear E.
  destruct (request_answered encB Hfit1 HencB) as (r0 & Hst0 & E). rewrite E. clear E. rewrite (readMsg_fits _ Hfit2). cbn [mType answerOf]. rewrite bool_decide_eq_false_2 by done.
  set (s1 := recordPeerSummary (heSave envA) (heNow envA) idB sumB r1).
  assert (steady idB rA s1) as Hs1 by (etransitivity; [exact Hst1|apply peer_steady]).
  pose proof (steady_warm _ _ _ _ _ _ Hs1 HA) as Hw1. pose proof (steady_room _ _ _ Hs1 Hroom) as Hr1.
  set (rB1 := recordSyncSuccess _ _ idA _ _ r0).
  assert (warm nsID keyB b rB1) as HB1 by (eapply steady_warm; [|exact HB]; etransitivity; [exact Hst0|apply success_steady]).
  destruct (decide (ssDigest sumA = ssDigest sumB)) as [Ed|Ed].
  - destruct (after_merged (answerOf encB) r1 s1 (Ok 0) a sumB [rB1] eq_refl) as (r3 & Hst3 & E); [|exact Hw1|].
    { apply (merge_nothing envA keyA a); [exact Hw1|done|]. cbn. by rewrite bool_decide_eq_true_2. }
    rewrite E. cbv zeta. rewrite bool_decide_eq_true_2 by done.
    apply (round_ends a b); [done|by eapply steady_room|by eapply steady_warm|exact HB1|]. exact (canonical_files a b Hea Heb (digest_inj _ _ Ed)).
  - destruct (decode_encode_snapshot envB keyB b HnB HkB) as (enc & E1 & Hdec). assert (enc = encB) as -> by congruence.
    set (j := mergedWith envA a (sent (heNow envB) b)) in *.
    destruct (mergeMessage_warm envA nsID keyA a s1 idB (answerOf encB) (sent (heNow envB) b) encB Hw1 eq_refl) as (r2 & n & Em & Hw2 & Hr2);
      [cbn; by rewrite bool_decide_eq_false_2|by rewrite Hkey|exact HioA|].
    destruct (after_merged (answerOf encB) r1 r2 (Ok n) j sumB [rB1] eq_refl Em Hw2) as (r3 & Hst3 & E). rewrite E. cbv zeta. clear E.
    destruct (round_core (pN0 (heLog envA)) (pN1 (heLog envA)) (pN0 (heLog envB)) (pN1 (heLog envB)) a b (heNow envB) (heNow envA) Ha Hb Hea Heb Hstay Hfollow Hcons) as [Hej Hjk].
    assert (room idB r3) as Hr3 by (eapply steady_room; [exact Hst3|by apply Hr2]).
    destruct (decide (ssDigest (summarizeFSSnapshot digest j) = ssDigest sumB)) as [Ej|Ej].
    + rewrite bool_decide_eq_true_2 by done. apply (round_ends j b); [done|exact Hr3|by eapply steady_warm|exact HB1|]. exact (canonical_files j b Hej Heb (digest_inj _ _ Ej)).
    + rewrite bool_decide_eq_false_2 by done. rewrite (snapshot_sent j encA rB1 HencA Hfit3).
      destruct (decode_encode_snapshot envA keyA j HnA HkA) as (enc & E2 & Hdec2). assert (enc = encA) as -> by congruence.
      destruct (mergeMessage_warm envB nsID keyB b rB1 idA (snapshotMsg nsID (summarizeFSSnapshot digest j) encA) (sent (heNow envA) j) encA HB1 eq_refl eq_refl) as (rB2 & n2 & Em2 & Hw3 & _);
        [by rewrite <- Hkey|exact HioB|]. rewrite Em2. cbn [fst].
      eapply (round_ends j); [done|exact Hr3|by eapply steady_warm|exact Hw3|exact Hjk].
Qed.

(** A drive whose snapshot makes an answer of more than 4 MiB is never
    read from its peers: whatever the network does, the round of a device with
    another snapshot changes no log and ends in an error. *)
Theorem fs_peer_too_large net encB
  (HencB : encodeFSSnapshotData envB keyB b = Ok encB) (Hfit1 : fits (summaryRequest nsID sumA))
  (Hlarge : maxFSSyncMsg < slen (msgJSON (answerOf encB)) < 2 ^ 32) (Hroom : room idB rA) (Hid : idB <> "") :
  exists rA' rB' p, syncWithPeer envA envB net idA idB 0 [rA] [rB] = ([rA'], [rB']) /\
    rpLog rA' = rpLog rA /\ rpLog rB' = rpLog rB /\
    rsPeers (rpSync rA') !! idB = Some p /\ LastErrorAt p = heNow envA /\ LastError p <> "".
Proof using HA HB.
  destruct (sync_begins net) as (r1 & Hst1 & E). rewrite E. clear E.
  destruct (request_unread net encB Hfit1 HencB Hlarge) as (rB' & e & Hst & He & E). rewrite E. clear E.
  destruct (error_recorded (heSave envA) (heNow envA) idB sumA e r1 Hid (steady_room _ _ _ Hst1 Hroom)) as (p & Hp & H1 & H2 & _).
  do 3 eexists. split; [reflexivity|]. split_and!; [|by destruct Hst|exact Hp|done|by rewrite H2].
  destruct (error_steady (heSave envA) (heNow envA) idB (Some sumA) e r1) as [-> _]. by destruct Hst1.
Qed.

(** C33 (error). Two devices that hold different keys for a drive (as after
    [fs_namespace_key_race]) cannot read each other's snapshots, but the round is
    recorded as a success: no log changes, and until the drive does the pushes
    pass the peer over. *)
Theorem fs_peer_wrong_key_is_success encB encA e1 e2 now
  (HencB : encodeFSSnapshotData envB keyB b = Ok encB) (HencA : encodeFSSnapshotData envA keyA a = Ok encA)
  (Hdiffer : ssDigest sumA <> ssDigest sumB)
  (HbadA : decodeFSSnapshotData keyA encB = Err e1) (HbadB : decodeFSSnapshotData keyB encA = Err e2)
  (Hfit1 : fits (summaryRequest nsID sumA)) (Hfit2 : fits (answerOf encB)) (Hfit3 : fits (snapshotMsg nsID sumA encA))
  (Hroom : room idB rA) (Hid : idB <> "") (Hnow : zeroTime < heNow envA) :
  exists rA' rB' p, syncWithPeer envA envB netUp idA idB 0 [rA] [rB] = ([rA'], [rB']) /\
    rpLog rA' = rpLog rA /\ rpLog rB' = rpLog rB /\
    rsPeers (rpSync rA') !! idB = Some p /\ LastSuccessAt p = heNow envA /\ LastError p = "" /\
    shouldSyncPeer idB sumA now 0 rA' = (false, heNow envA).
Proof using HA HB.
  destruct (sync_begins netUp) as (r1 & Hst1 & E). rewrite E. clear E.
  destruct (request_answered encB Hfit1 HencB) as (r0 & Hst0 & E). rewrite E. clear E. rewrite (readMsg_fits _ Hfit2). cbn [mType answerOf]. rewrite bool_decide_eq_false_2 by done.
  set (s1 := recordPeerSummary (heSave envA) (heNow envA) idB sumB r1).
  assert (steady idB rA s1) as Hs1 by (etransitivity; [exact Hst1|apply peer_steady]). pose proof (steady_warm _ _ _ _ _ _ Hs1 HA) as Hw1.
  set (rB1 := recordSyncSuccess _ _ idA _ _ r0).
  assert (steady idA rB rB1) as HsB by (etransitivity; [exact Hst0|apply success_steady]). pose proof (steady_warm _ _ _ _ _ _ HsB HB) as HB1.
  destruct (after_merged (answerOf encB) r1 s1 (Err e1) a sumB [rB1] eq_refl) as (r3 & Hst3 & E); [|exact Hw1|].
  { apply (merge_undecoded envA keyA a _ _ _ encB); [exact Hw1|done| |exact HbadA]. cbn. by rewrite bool_decide_eq_false_2. }
  rewrite E. cbv zeta. clear E. rewrite bool_decide_eq_false_2 by done. rewrite (snapshot_sent a encA rB1 HencA Hfit3).
  rewrite (merge_undecoded envB keyB b rB1 idA (snapshotMsg nsID sumA encA) encA e2 HB1 eq_refl eq_refl HbadB). cbn [fst].
  assert (steady idB rA r3) as Hs3 by (by etransitivity).
  destruct (success_recorded (heSave envA) (heNow envA) idB sumA sumB r3 Hid (steady_room _ _ _ Hs3 Hroom)) as [Hp _].
  do 3 eexists. split; [reflexivity|]. split_and!; [|by destruct HsB|exact Hp|done|done|].
  - destruct (success_steady (heSave envA) (heNow envA) idB sumA sumB r3) as [-> _]. by destruct Hs3.
  - by apply (success_not_due _ _ _ _ _ _ _ Hp).
Qed.

End Round.
End Protocol.

(** ** The state of the peers is bounded *)

Lemma activeBefore_weak : weak_order activeBefore.
Proof.
  split.
  - intros [i t] [j u]. unfold activeBefore, time_IsZero. cbn [fst snd]. destruct (Z.eqb_spec t u), (Z.eqb_spec u t); try lia; [apply str_ltb_asym|].
    destruct (Z.eqb_spec t zeroTime), (Z.eqb_spec u zeroTime); try done. rewrite Z.ltb_lt, Z.ltb_ge. lia.
  - intros [i t] [j u] [k v]. unfold activeBefore, time_IsZero. cbn [fst snd].
    destruct (Z.eqb_spec t u), (Z.eqb_spec u v), (Z.eqb_spec t v); try lia; [apply str_ltb_ntrans|..];
      destruct (Z.eqb_spec t zeroTime), (Z.eqb_spec u zeroTime), (Z.eqb_spec v zeroTime); try done; try lia; rewrite ?Z.ltb_ge; lia.
Qed.

Lemma elem_of_byActivity peers kv : kv ∈ byActivity peers <-> exists p, peers !! kv.1 = Some p /\ kv.2 = fsPeerSyncStateLastActivity p.
Proof.
  unfold byActivity. rewrite sortBy_perm, list_elem_of_fmap. split.
  - intros ([k p] & -> & H). apply elem_of_map_to_list in H. by exists p.
  - intros (p & Hp & E). exists (kv.1, p). split; [destruct kv; cbn in *; congruence|by apply elem_of_map_to_list].
Qed.

Lemma dropped_after peers k p k' p' :
  let kept := map fst (take fsPeerSyncStateMaxPeers (byActivity peers)) in
  peers !! k = Some p -> peers !! k' = Some p' -> k ∈ kept -> k' ∉ kept ->
  fsPeerSyncStateLastActivity p' = zeroTime \/ fsPeerSyncStateLastActivity p <> zeroTime /\ fsPeerSyncStateLastActivity p' <= fsPeerSyncStateLastActivity p.
Proof.
  intros kept.
  pose proof (sortBy_weak activeBefore (map (fun kv => (kv.1, fsPeerSyncStateLastActivity kv.2)) (map_to_list peers)) activeBefore_weak) as Hs.
  change (sortBy _ _) with (byActivity peers) in Hs. rewrite <- (take_drop fsPeerSyncStateMaxPeers (byActivity peers)) in Hs.
  intros Hp Hp' Hk Hk'. apply list_elem_of_fmap in Hk as ([k2 t] & -> & Ht). cbn [fst] in *.
  assert (t = fsPeerSyncStateLastActivity p) as ->.
  { apply elem_of_take in Ht as (i & Hi & _). apply list_elem_of_lookup_2 in Hi. apply elem_of_byActivity in Hi as (q & Hq & E). cbn in Hq, E. congruence. }
  assert ((k', fsPeerSyncStateLastActivity p') ∈ drop fsPeerSyncStateMaxPeers (byActivity peers)) as Hd.
  { assert ((k', fsPeerSyncStateLastActivity p') ∈ byActivity peers) as Hb by (apply elem_of_byActivity; by exists p').
    rewrite <- (take_drop fsPeerSyncStateMaxPeers (byActivity peers)) in Hb. apply elem_of_app in Hb as [Hb|Hb]; [|done].
    destruct Hk'. apply list_elem_of_fmap. exists (k', fsPeerSyncStateLastActivity p'). by split. }
  apply StronglySorted_app_1_elem_of with (x1 := (k2, fsPeerSyncStateLastActivity p)) (x2 := (k', fsPeerSyncStateLastActivity p')) in Hs; [|done|done].
  revert Hs. unfold activeBefore, time_IsZero. cbn [fst snd].
  destruct (Z.eqb_spec (fsPeerSyncStateLastActivity p') (fsPeerSyncStateLastActivity p)) as [->|]; [destruct (decide (fsPeerSyncStateLastActivity p = zeroTime)); [by left|right; lia]|].
  destruct (Z.eqb_spec (fsPeerSyncStateLastActivity p') zeroTime); [by left|]. destruct (Z.eqb_spec (fsPeerSyncStateLastActivity p) zeroTime); [done|].
  rewrite Z.ltb_ge. right. lia.
Qed.

(** The state of a replica remembers at most 256 peers: pruning keeps
    entries as they are, and drops none that was active later than one it keeps;
    an entry without any time goes first. *)
Theorem fs_peers_pruned (peers : gmap string fsPeerSyncState) :
  (size (prunePeers peers) <= fsPeerSyncStateMaxPeers)%nat /\ prunePeers peers ⊆ peers /\
  forall k p k' p', prunePeers peers !! k = Some p -> peers !! k' = Some p' -> prunePeers peers !! k' = None ->
    let kept := fsPeerSyncStateLastActivity p in let dropped := fsPeerSyncStateLastActivity p' in
    dropped = zeroTime \/ kept <> zeroTime /\ dropped <= kept.
Proof.
  unfold prunePeers. destruct (size peers <=? fsPeerSyncStateMaxPeers)%nat eqn:El; [apply Nat.leb_le in El|]; [split_and!; [done|done|congruence]|].
  set (kept := map fst (take fsPeerSyncStateMaxPeers (byActivity peers))). split_and!.
  - rewrite <- length_map_to_list, <- (length_fmap fst). transitivity (length kept); [apply submseteq_length, NoDup_submseteq; [apply NoDup_fst_map_to_list|]|].
    + intros k ([k2 p] & -> & H)%list_elem_of_fmap. apply elem_of_map_to_list, map_lookup_filter_Some in H as [_ H]. exact H.
    + unfold kept. rewrite length_map, length_take. lia.
  - apply map_filter_subseteq.
  - intros k p k' p' [Hp Hk]%map_lookup_filter_Some Hp' Hk'%map_lookup_filter_None. cbn [fst] in *.
    destruct Hk' as [?|Hk']; [congruence|]. specialize (Hk' p' Hp'). by eapply dropped_after.
Qed.

(** After a round that went well a peer is due again when the
    local summary is another or the last success is old enough; after one that did
    not, five minutes later, whatever has changed. *)
Theorem fs_peer_due saveOk now id s p e local now' staleAfter r
  (Hid : id <> "") (Hroom : room id r) (Hnow : zeroTime < now) (Hlast : LastSuccessAt (peerOf id (rpSync r)) < now) :
  (shouldSyncPeer id local now' staleAfter (recordSyncSuccess saveOk now id s p r)).1 =
    negb (bool_decide (s = local)) || (0 <? staleAfter) && (staleAfter <=? time_Sub now' now) /\
  (shouldSyncPeer id local now' staleAfter (recordSyncError saveOk now id (Some s) e r)).1 = (fsPeerSyncErrorBackoff <=? time_Sub now' now).
Proof.
  split; unfold shouldSyncPeer; rewrite bool_decide_eq_false_2 by done.
  - destruct (success_recorded saveOk now id s p r Hid Hroom) as [-> _]. cbn [LastSuccessAt LastErrorAt LastLocalSummary].
    rewrite (proj2 (Z.ltb_ge _ _)) by lia. assert (time_IsZero now = false) as -> by (unfold time_IsZero; apply Z.eqb_neq; lia).
    unfold sameFSSnapshotState. destruct (decide (s = local)) as [->|Hne]; [rewrite !bool_decide_eq_true_2 by done|rewrite !bool_decide_eq_false_2 by congruence; done].
    cbn [negb orb]. by destruct ((0 <? staleAfter) && (staleAfter <=? time_Sub now' now)).
  - destruct (error_recorded saveOk now id s e r Hid Hroom) as (q & -> & E1 & _ & E2). rewrite E1, E2, (proj2 (Z.ltb_lt _ _)) by done. cbn [fst].
    by rewrite Z.leb_antisym.
Qed.

(** ** The hypotheses of the theorems can hold *)

Module Demo.
Import FsPeer.Demo Seal.Demo.
#[local] Existing Instance demoCodec.
#[local] Existing Instance toyLib.

Abbreviation code := (list positive).

(** Records as lists of numbers. *)
Definition file_code (f : FileInfo) : code :=
  [encode (fiChunks f); encode (fiSize f); encode (fiModified f); encode (fiChecksum f); encode (fiPrevChecksum f); encode (fiNamespace f);
   encode (fiDevice f); encode (fiSeq f); encode (fiLinkTarget f)].
Definition file_decode (l : code) : option FileInfo :=
  match l with
  | [a; b; c; d; e; f; g; h; i] =>
      a ← decode a; b ← decode b; c ← decode c; d ← decode d; e ← decode e; f ← decode f; g ← decode g; h ← decode h; i ← decode i;
      Some (mkFileInfo a b c d e f g h i)
  | _ => None
  end.
#[local] Instance file_countable : Countable FileInfo.
Proof. apply (inj_countable file_code file_decode). intros []. unfold file_code, file_decode. cbn -[encode decode]. by rewrite !decode_encode. Defined.

Definition tomb_code (t : TombstoneInfo) : code := [encode (tiNamespace t); encode (tiDevice t); encode (tiSeq t); encode (tiModified t); encode (tiPrevChecksum t)].
Definition tomb_decode (l : code) : option TombstoneInfo :=
  match l with
  | [a; b; c; d; e] => a ← decode a; b ← decode b; c ← decode c; d ← decode d; e ← decode e; Some (mkTombstone a b c d e)
  | _ => None
  end.
#[local] Instance tomb_countable : Countable TombstoneInfo.
Proof. apply (inj_countable tomb_code tomb_decode). intros []. unfold tomb_code, tomb_decode. cbn -[encode decode]. by rewrite !decode_encode. Defined.

#[local] Instance dir_countable : Countable DirInfo.
Proof. apply (inj_countable' (fun '(mkDirInfo a b c d) => (a, b, (c, d))) (fun '(a, b, (c, d)) => mkDirInfo a b c d)). by intros []. Defined.

Definition peer_code (m : peerSnapshotJSON) : code :=
  [encode (pVersion m); encode (pCreated m); encode (pUpdated m); encode (pTree m); encode (pDirs m); encode (pDeleted m); encode (pDeletedDirs m); encode (pDeletedRoot m)].
Definition peer_decode (l : code) : option peerSnapshotJSON :=
  match l with
  | [a; b; c; d; e; f; g; h] =>
      a ← decode a; b ← decode b; c ← decode c; d ← decode d; e ← decode e; f ← decode f; g ← decode g; h ← decode h; Some (mkPeerJSON a b c d e f g h)
  | _ => None
  end.
Lemma peer_decode_code m : peer_decode (peer_code m) = Some m.
Proof. destruct m. unfold peer_code, peer_decode. cbn -[encode decode]. by rewrite !decode_encode. Qed.

(** The canonical form. *)
#[local] Instance sfile_eq_dec : EqDecision summaryFile.
Proof. solve_decision. Defined.
#[local] Instance sdir_eq_dec : EqDecision summaryDir.
Proof. solve_decision. Defined.
#[local] Instance stomb_eq_dec : EqDecision summaryTomb.
Proof. solve_decision. Defined.

Definition sfile_code (s : summaryFile) : code :=
  [encode (sfPath s); encode (sfChunks s); encode (sfSize s); encode (sfModified s); encode (sfChecksum s); encode (sfPrevChecksum s);
   encode (sfNamespace s); encode (sfDevice s); encode (sfSeq s); encode (sfLinkTarget s)].
Definition sfile_decode (l : code) : option summaryFile :=
  match l with
  | [a; b; c; d; e; f; g; h; i; j] =>
      a ← decode a; b ← decode b; c ← decode c; d ← decode d; e ← decode e; f ← decode f; g ← decode g; h ← decode h; i ← decode i; j ← decode j;
      Some (mkSummaryFile a b c d e f g h i j)
  | _ => None
  end.
#[local] Instance sfile_countable : Countable summaryFile.
Proof. apply (inj_countable sfile_code sfile_decode). intros []. unfold sfile_code, sfile_decode. cbn -[encode decode]. by rewrite !decode_encode. Defined.

#[local] Instance sdir_countable : Countable summaryDir.
Proof. apply (inj_countable' (fun '(mkSummaryDir a b c d e) => (a, b, (c, d, e))) (fun '(a, b, (c, d, e)) => mkSummaryDir a b c d e)). by intros []. Defined.

Definition stomb_code (s : summaryTomb) : code := [encode (smPath s); encode (smNamespace s); encode (smDevice s); encode (smSeq s); encode (smModified s); encode (smPrevChecksum s)].
Definition stomb_decode (l : code) : option summaryTomb :=
  match l with
  | [a; b; c; d; e; f] => a ← decode a; b ← decode b; c ← decode c; d ← decode d; e ← decode e; f ← decode f; Some (mkSummaryTomb a b c d e f)
  | _ => None
  end.
#[local] Instance stomb_countable : Countable summaryTomb.
Proof. apply (inj_countable stomb_code stomb_decode). intros []. unfold stomb_code, stomb_decode. cbn -[encode decode]. by rewrite !decode_encode. Defined.

Definition canonical_code (s : canonicalSnapshot) : code :=
  [encode (csFiles s); encode (csDirs s); encode (csTombstones s); encode (csDirTombstones s); encode (csRootTombstone s)].
Definition canonical_decode (l : code) : option canonicalSnapshot :=
  match l with
  | [a; b; c; d; e] => a ← decode a; b ← decode b; c ← decode c; d ← decode d; e ← decode e; Some (mkCanonical a b c d e)
  | _ => None
  end.
Lemma canonical_decode_code s : canonical_decode (canonical_code s) = Some s.
Proof. destruct s. unfold canonical_code, canonical_decode. cbn -[encode decode]. by rewrite !decode_encode. Qed.

#[local] Instance state_countable : Countable fsSnapshotState.
Proof. apply (inj_countable' (fun '(mkState a b c d e f) => (a, (b, c, d, e, f))) (fun '(a, (b, c, d, e, f)) => mkState a b c d e f)). by intros []. Defined.

(** The text of a list of numbers, and what follows it in a string. *)
Definition text (l : code) : string := bits_of_pos (positives_flatten l).
Definition untext (s : string) : option code := positives_unflatten (pos_of_bits s).

Fixpoint after (s : string) : string :=
  match s with
  | EmptyString => ""
  | String c s' => if Ascii.eqb c "1" then s' else after s'
  end.

Lemma pos_of_text p t : pos_of_bits (bits_of_pos p +:+ t) = p.
Proof. induction p; cbn [bits_of_pos]; rewrite ?str_app_cons; cbn [pos_of_bits Ascii.eqb]; rewrite ?IHp; done. Qed.

Lemma after_text p t : after (bits_of_pos p +:+ t) = t.
Proof. induction p; cbn [bits_of_pos]; rewrite ?str_app_cons; cbn; rewrite ?IHp; done. Qed.

Lemma untext_text l t : untext (text l +:+ t) = Some l.
Proof. unfold untext, text. by rewrite pos_of_text, positives_unflatten_flatten. Qed.

(** A message; the data is behind [n] more bytes. *)
Definition msg_code (m : fsSyncMsg) : code :=
  [encode (mType m); encode (mNSID m); encode (mSummary m); encode (match mData m with Some _ => true | None => false end); encode (mError m); encode (mExpectedNSID m); encode (mObservedNSID m)].
Definition demoMsgJSON (n : nat) (m : fsSyncMsg) : string :=
  text (msg_code m) +:+ match mData m with Some d => zeros n +:+ d | None => "" end.
Definition demoMsgParse (n : nat) (s : string) : option fsSyncMsg :=
  match untext s with
  | Some [a; b; c; d; e; f; g] =>
      a ← decode a; b ← decode b; c ← decode c; d ← decode d; e ← decode e; f ← decode f; g ← decode g;
      Some (mkMsg a b c (if d : bool then Some (str_drop n (after s)) else None) e f g)
  | _ => None
  end.

Lemma fsZeros_length n : String.length (zeros n) = n.
Proof. induction n; simpl; congruence. Qed.

Lemma demo_msg n m : demoMsgParse n (demoMsgJSON n m) = Some m.
Proof.
  unfold demoMsgParse, demoMsgJSON. rewrite untext_text. unfold msg_code. rewrite !decode_encode. cbn [mbind option_bind].
  destruct m as [a b c [d|] e f g]; cbn [mType mNSID mSummary mData mError mExpectedNSID mObservedNSID]; [|done].
  unfold text. rewrite after_text. pose proof (str_drop_app (zeros n) d) as E. rewrite fsZeros_length in E. by rewrite E.
Qed.

Lemma text_inj l k : text l = text k -> l = k.
Proof. intros E. apply (inj Some). by rewrite <- (untext_text l ""), <- (untext_text k ""), E. Qed.

Definition demoLib (n : nat) : PeerLib.
Proof.
  refine {| digest s := text (canonical_code s); peerJSON m := text (peer_code m); peerParse s := untext s ≫= peer_decode;
            msgJSON := demoMsgJSON n; msgParse := demoMsgParse n |}.
  - abstract (intros x y E%text_inj; apply (f_equal canonical_decode) in E; rewrite !canonical_decode_code in E; congruence).
  - abstract (intros m; rewrite <- (str_app_nil_r (text _)), untext_text; exact (peer_decode_code m)).
  - abstract (apply demo_msg).
Defined.

#[local] Instance smallLib : PeerLib := demoLib O.

(** Two devices with one replica each; [key1] and [key2] are keys of a drive. *)
Definition key1 : string := seedA.
Definition key2 : string := ephA.
Definition host (t : Time) : HostEnv := mkHost env t true "twelve bytes".
Definition replicaOf (dev key : string) (c : Snapshot) : p2pReplica :=
  mkReplica dev (logOf dev c) None (Some ("ns", key)) true (mkReplicaState "" None zeroTime ∅) None.

Definition encOf (h : HostEnv) (key : string) (c : Snapshot) : string :=
  match encodeFSSnapshotData h key c with Ok e => e | Err _ => "" end.
Definition J : Snapshot := mergedWith (host 5) A (sent (heNow (host 7)) B).

Lemma room_of dev id key c : room id (replicaOf dev key c).
Proof. split; [done|]. cbn. rewrite delete_empty, map_size_empty. unfold fsPeerSyncStateMaxPeers. lia. Qed.

Lemma warm_of dev key c : warm "ns" key c (replicaOf dev key c).
Proof. done. Qed.

Lemma fs_peer_sync_converges_witness :
  ((consistent A B /\ follow_clocks A B) /\ fits (summaryRequest "ns" (summarizeFSSnapshot digest A))) /\
  settled (host 5) "peerB" "ns" key1 key1 (syncWithPeer (host 5) (host 7) netUp "peerA" "peerB" 0 [replicaOf "A" key1 A] [replicaOf "B" key1 B]).
Proof.
  split; [split; [exact (conj peer_consistent peer_follow)|vm_compute; discriminate]|].
  apply (fs_peer_sync_converges (host 5) (host 7) "peerA" "peerB" "ns" key1 key1 A B (replicaOf "A" key1 A) (replicaOf "B" key1 B)
    (warm_of _ _ _) (warm_of _ _ _) (fun _ => eq_refl) (fun _ => eq_refl) eq_refl eq_refl eq_refl eq_refl (encOf (host 7) key1 B) (encOf (host 5) key1 J)
    eq_refl (proj1 peer_A) (proj1 peer_B) (proj2 peer_A) (proj2 peer_B) peer_stay peer_follow peer_consistent).
  - vm_compute. reflexivity.
  - vm_compute. reflexivity.
  - vm_compute. discriminate.
  - vm_compute. discriminate.
  - vm_compute. discriminate.
  - apply room_of.
  - discriminate.
Defined.

Lemma fs_peer_wrong_key_is_success_witness :
  (is_ok (decodeFSSnapshotData key1 (encOf (host 7) key2 B)) = false /\ is_ok (decodeFSSnapshotData key2 (encOf (host 5) key1 A)) = false) /\
  exists rA' rB' p, syncWithPeer (host 5) (host 7) netUp "peerA" "peerB" 0 [replicaOf "A" key1 A] [replicaOf "B" key2 B] = ([rA'], [rB']) /\
    rsPeers (rpSync rA') !! "peerB" = Some p /\ LastSuccessAt p = 5.
Proof.
  split; [split; vm_compute; reflexivity|].
  assert (forall rs : list p2pReplica * list p2pReplica, (exists rA' rB' p, rs = ([rA'], [rB']) /\ rpLog rA' = logOf "A" A /\ rpLog rB' = logOf "B" B /\
    rsPeers (rpSync rA') !! "peerB" = Some p /\ LastSuccessAt p = 5 /\ LastError p = "" /\ shouldSyncPeer "peerB" (summarizeFSSnapshot digest A) 100 0 rA' = (false, 5)) ->
    exists rA' rB' p, rs = ([rA'], [rB']) /\ rsPeers (rpSync rA') !! "peerB" = Some p /\ LastSuccessAt p = 5) as Hmp.
  { intros rs (rA' & rB' & p & E & _ & _ & Hp & Ht & _). exists rA', rB', p. exact (conj E (conj Hp Ht)). }
  apply Hmp.
  apply (fs_peer_wrong_key_is_success (host 5) (host 7) "peerA" "peerB" "ns" key1 key2 A B (replicaOf "A" key1 A) (replicaOf "B" key2 B)
    (warm_of _ _ _) (warm_of _ _ _) (encOf (host 7) key2 B) (encOf (host 5) key1 A) "decrypt peer snapshot" "decrypt peer snapshot" 100).
  - vm_compute. reflexivity.
  - vm_compute. reflexivity.
  - vm_compute. discriminate.
  - vm_compute. reflexivity.
  - vm_compute. reflexivity.
  - vm_compute. discriminate.
  - vm_compute. discriminate.
  - vm_compute. discriminate.
  - apply room_of.
  - discriminate.
  - vm_compute. reflexivity.
Defined.

Lemma fs_peers_pruned_witness :
  prunePeers {["peerB" := zeroPeer]} = {["peerB" := zeroPeer]} /\
  (size (prunePeers {["peerB" := zeroPeer]}) <= fsPeerSyncStateMaxPeers)%nat.
Proof. split; [vm_compute; reflexivity|]. exact (proj1 (fs_peers_pruned {["peerB" := zeroPeer]})). Defined.

Lemma fs_peer_due_witness :
  room "peerB" (replicaOf "A" key1 A) /\
  let s := summarizeFSSnapshot digest A in
  (shouldSyncPeer "peerB" s 4 10 (recordSyncError true 3 "peerB" (Some s) "opening stream" (replicaOf "A" key1 A))).1 = false.
Proof.
  split; [apply room_of|]. cbv zeta.
  rewrite (proj2 (fs_peer_due true 3 "peerB" (summarizeFSSnapshot digest A) (summarizeFSSnapshot digest A) "opening stream" (summarizeFSSnapshot digest A) 4 10 (replicaOf "A" key1 A)
    ltac:(discriminate) (room_of _ _ _ _) ltac:(vm_compute; reflexivity) ltac:(vm_compute; reflexivity))). vm_compute. reflexivity.
Defined.

(** An answer that carries four mebibytes and more. *)
Definition mebibytes4 : nat := Z.to_nat maxFSSyncMsg.
Definition largeLib : PeerLib := demoLib mebibytes4.

Lemma large_answer d :
  slen (msgJSON (PeerLib := largeLib) (answerOf (PL := largeLib) "ns" A B d)) =
  slen (msgJSON (PeerLib := smallLib) (answerOf (PL := smallLib) "ns" A B d)) + maxFSSyncMsg.
Proof.
  assert (bool_decide (ssDigest (summarizeFSSnapshot (digest (PeerLib := smallLib)) A) = ssDigest (summarizeFSSnapshot (digest (PeerLib := smallLib)) B)) = false) as E
    by (vm_compute; reflexivity).
  assert (forall n m, mData m = Some d -> slen (demoMsgJSON n m) = slen (text (msg_code m)) + Z.of_nat n + slen d) as Hn.
  { intros n m Hm. unfold demoMsgJSON. rewrite Hm, !slen_app. unfold slen at 2. rewrite fsZeros_length. lia. }
  unfold answerOf. change (digest (PeerLib := largeLib)) with (digest (PeerLib := smallLib)). rewrite E.
  change (msgJSON (PeerLib := largeLib)) with (demoMsgJSON mebibytes4). change (msgJSON (PeerLib := smallLib)) with (demoMsgJSON 0).
  rewrite !Hn by reflexivity. unfold mebibytes4. rewrite Z2Nat.id by (unfold maxFSSyncMsg; lia). lia.
Qed.

Lemma answer_small d : slen d < 2 ^ 20 -> slen (msgJSON (PeerLib := smallLib) (answerOf (PL := smallLib) "ns" A B d)) < 2 ^ 31.
Proof.
  intros Hd. unfold answerOf.
  assert (bool_decide (ssDigest (summarizeFSSnapshot (digest (PeerLib := smallLib)) A) = ssDigest (summarizeFSSnapshot (digest (PeerLib := smallLib)) B)) = false) as -> by (vm_compute; reflexivity).
  change (msgJSON (PeerLib := smallLib)) with (demoMsgJSON 0). unfold demoMsgJSON. cbn [mData]. rewrite slen_app. cbn [zeros]. rewrite str_app_nil_l.
  assert (slen (text (msg_code (mkMsg "summary" "ns" (Some (summarizeFSSnapshot (digest (PeerLib := smallLib)) B)) (Some d) "" "" ""))) <= 2 ^ 20) by (vm_compute; discriminate). lia.
Qed.

Lemma fs_peer_too_large_witness :
  is_ok (encodeFSSnapshotData (PL := largeLib) (host 7) key1 B) = true /\
  exists rA' rB', syncWithPeer (PL := largeLib) (host 5) (host 7) netUp "peerA" "peerB" 0 [replicaOf "A" key1 A] [replicaOf "B" key1 B] = ([rA'], [rB']) /\
    rpLog rA' = logOf "A" A /\ rpLog rB' = logOf "B" B.
Proof.
  split; [vm_compute; reflexivity|].
  assert (forall rs : list p2pReplica * list p2pReplica, (exists rA' rB' p, rs = ([rA'], [rB']) /\ rpLog rA' = logOf "A" A /\ rpLog rB' = logOf "B" B /\
    rsPeers (rpSync rA') !! "peerB" = Some p /\ LastErrorAt p = 5 /\ LastError p <> "") ->
    exists rA' rB', rs = ([rA'], [rB']) /\ rpLog rA' = logOf "A" A /\ rpLog rB' = logOf "B" B) as Hmp.
  { intros rs (rA' & rB' & p & E & HA & HB & _). exists rA', rB'. exact (conj E (conj HA HB)). }
  apply Hmp.
  apply (fs_peer_too_large (PL := largeLib) (host 5) (host 7) "peerA" "peerB" "ns" key1 key1 A B (replicaOf "A" key1 A) (replicaOf "B" key1 B)
    (warm_of _ _ _) (warm_of _ _ _) netUp (encOf (host 7) key1 B)).
  - vm_compute. reflexivity.
  - change (fits (PL := smallLib) (summaryRequest "ns" (summarizeFSSnapshot (digest (PeerLib := smallLib)) A))). vm_compute. discriminate.
  - rewrite large_answer. pose proof (answer_small (encOf (host 7) key1 B) ltac:(vm_compute; reflexivity)).
    pose proof (slen_nonneg (msgJSON (PeerLib := smallLib) (answerOf (PL := smallLib) "ns" A B (encOf (host 7) key1 B)))).
    assert (0 < slen (msgJSON (PeerLib := smallLib) (answerOf (PL := smallLib) "ns" A B (encOf (host 7) key1 B)))) by (vm_compute; reflexivity).
    unfold maxFSSyncMsg. lia.
  - apply room_of.
  - discriminate.
Defined.

End Demo.
