(* ===== verification/FsPeerNet.v ===== *)
(** * The manager of a drive's peers and the chunks they serve (pkg/fs/p2p.go)

    Which replicas are registered, which peers a round or the periodic pass is
    for, and the protocol by which a device asks its peers for a chunk.  What a peer
    answers is a string of bytes, of an honest device or of any other. *)

From Stdlib Require Import Ascii.
From stdpp Require Import base numbers list gmap strings sorting.
From S2P Require Import Prelude GoStrings JsonLines Seal FsOps FsLocalLog FsPoll FsPeer FsChunks FsPeerSync.
From S2P Require KvPush.

#[local] Open Scope Z_scope.

(** ** Replicas *)

Definition fsReconnectSyncMinInterval : Duration := 2 * second.
Definition defaultFSAntiEntropyInterval : Duration := 10 * second.
Definition fsPeriodicSyncBatchSize : Z := 1.

Record P2PSync := mkSync {
  syReplicas : gmap string p2pReplica;
  syRegistered : bool;
  syLastConnect : gmap string Time
}.

Definition NewP2PSync : P2PSync := mkSync ∅ false ∅.

Definition noState : fsReplicaSyncState := mkReplicaState "" None zeroTime ∅.

(** The file of a state: absent, unreadable, or what it holds. *)
Inductive StateFile := NoFile | BadFile | HasState (st : fsReplicaSyncState).

Definition loadFSPeerSyncState (stateDir : bool) (file : StateFile) : result string fsReplicaSyncState :=
  if negb stateDir then Ok noState
  else match file with
  | NoFile => Ok noState
  | BadFile => Err "decode fs peer sync state"
  | HasState st => Ok (pruneFSPeerSyncState st)
  end.

Definition newP2PReplica (saveOk : bool) (id : string) (l : LocalOpsLog) (resolve : option (string * string)) (stateDir : bool) (file : StateFile)
  : result string p2pReplica :=
  match loadFSPeerSyncState stateDir file with
  | Err e => Err e
  | Ok st =>
      let old := match file with HasState st => Some st | _ => None end in
      let saved := if stateDir && (fsPeerSyncStateMaxPeers <=? size (rsPeers st))%nat && saveOk then Some st else old in
      Ok (mkReplica id l resolve None stateDir st saved)
  end.

(** [AddReplica] of a replica with a log: the manager, and whether a push is
    started. *)
Definition AddReplica (saveOk : bool) (id : string) (l : LocalOpsLog) (hasResolver : bool) (resolve : option (string * string)) (stateDir : bool)
    (file : StateFile) (s : P2PSync) : P2PSync * bool :=
  if bool_decide (id = "") || negb hasResolver then (s, false)
  else
    let wrapped := match newP2PReplica saveOk id l resolve stateDir file with
      | Ok r => r
      | Err _ => mkReplica id l resolve None stateDir noState None
      end in
    (mkSync (<[id := wrapped]> (syReplicas s)) (syRegistered s) (syLastConnect s), syRegistered s).

Definition RemoveReplica (id : string) (s : P2PSync) : P2PSync :=
  if bool_decide (id = "") then s else mkSync (delete id (syReplicas s)) (syRegistered s) (syLastConnect s).

Definition RegisterProtocol (s : P2PSync) : P2PSync * bool := (mkSync (syReplicas s) true (syLastConnect s), true).

(** [handlePeerConnect]: whether a push is started. *)
Definition handlePeerConnect (self : string) (connected : list string) (now : Time) (pid : string) (s : P2PSync) : P2PSync * bool :=
  if bool_decide (pid = "") || bool_decide (pid = self) || negb (bool_decide (pid ∈ connected)) then (s, false)
  else
    let last := default zeroTime (syLastConnect s !! pid) in
    if negb (time_IsZero last) && (time_Sub now last <? fsReconnectSyncMinInterval) then (s, false)
    else (mkSync (syReplicas s) (syRegistered s) (<[pid := now]> (syLastConnect s)), negb (bool_decide (syReplicas s = ∅))).

(** [PushToAll] and [runPushLoop]: the loop of the key-value store, word for word. *)
Definition runPushLoop : KvPush.PushState -> KvPush.push_event -> KvPush.PushState -> Prop := KvPush.push_step.

(** ** Which peers a pass is for *)

Record fsSyncTarget := mkTarget { tgPeer : string; tgReplica : string; tgLastSync : Time }.

#[export] Instance fsSyncTarget_eq_dec : EqDecision fsSyncTarget.
Proof. solve_decision. Defined.

Definition targetBefore (a b : fsSyncTarget) : bool :=
  if tgLastSync a =? tgLastSync b then
    if bool_decide (tgPeer a = tgPeer b) then tgReplica a <s? tgReplica b else tgPeer a <s? tgPeer b
  else if time_IsZero (tgLastSync a) then true
  else if time_IsZero (tgLastSync b) then false
  else tgLastSync a <? tgLastSync b.

Definition targetsOf (self : string) (peers : list string) (summary : fsSnapshotState) (now : Time) (staleAfter : Duration) (r : p2pReplica) : list fsSyncTarget :=
  omap (fun pid =>
    if bool_decide (pid = self) then None
    else let '(due, lastSync) := shouldSyncPeer pid summary now staleAfter r in if due then Some (mkTarget pid (rpID r) lastSync) else None) peers.

Section Passes.
Context `{Codec : LineCodec Entry} `{CL : CryptoLib} `{PL : PeerLib}.

(** The replicas in the order in which they are enumerated; [again]: the summary is
    recorded once more, as [pushDue] does. *)
Fixpoint dueTargets (again : bool) (env : HostEnv) (self : string) (peers : list string) (staleAfter : Duration) (rs : list p2pReplica)
  : list p2pReplica * list fsSyncTarget :=
  match rs with
  | [] => ([], [])
  | r :: rest =>
      match loadReplicaSnapshot env r with
      | (r, None) => let '(rest, ts) := dueTargets again env self peers staleAfter rest in (r :: rest, ts)
      | (r, Some (_, summary, _, _)) =>
          let r := if again then recordLocalSummary (heSave env) (heNow env) summary r else r in
          let '(rest, ts) := dueTargets again env self peers staleAfter rest in
          (r :: rest, targetsOf self peers summary (heNow env) staleAfter r ++ ts)
      end
  end.

Definition runPushRound (env : HostEnv) (self : string) (peers : list string) (rs : list p2pReplica) : list p2pReplica * list fsSyncTarget :=
  if bool_decide (peers = []) then (rs, []) else dueTargets false env self peers 0 rs.

Definition pushDue (env : HostEnv) (self : string) (peers : list string) (limit : Z) (staleAfter : Duration) (rs : list p2pReplica)
  : list p2pReplica * list fsSyncTarget :=
  if bool_decide (peers = []) then (rs, [])
  else
    let '(rs, targets) := dueTargets true env self peers staleAfter rs in
    (rs, take (Z.to_nat (if limit <=? 0 then 1 else limit)) (sortBy targetBefore targets)).

End Passes.

(** ** Chunks *)

Record fsChunkMsg := mkChunkMsg { cmNSID : string; cmHash : string; cmData : string; cmError : string }.

(** The JSON of a chunk message: the data are base64, four bytes for three. *)
Class ChunkLib := {
  chunkJSON : fsChunkMsg -> string;
  chunkParse : string -> option fsChunkMsg;
  chunk_parse_json m : chunkParse (chunkJSON m) = Some m;
  chunk_parse_size s m : chunkParse s = Some m -> 4 * slen (cmData m) <= 3 * slen s
}.

(** The directory of objects of a device, its files and which of them can be read. *)
Record BlobCache := mkCache { bcDir : string; bcFiles : gmap string string; bcReadOk : string -> bool }.

Definition readLocalBlob (c : BlobCache) (nsID hash : string) : option string :=
  let path := localBlobPath (bcDir c) nsID hash in if bcReadOk c path then bcFiles c !! path else None.

Section Chunks.
Context `{CH : ChunkLib}.

Definition readChunkMsg (stream : string) : option fsChunkMsg :=
  match readFSSyncMsg stream with Ok (data, _) => chunkParse data | Err _ => None end.

Definition resolveNSID (env : HostEnv) (nsID : string) (rs : list p2pReplica) : list p2pReplica * string :=
  match replicaForNSID env nsID rs with
  | (rs, None) => (rs, nsID)
  | (rs, Some (i, _)) =>
      match rs !! i with
      | None => (rs, nsID)
      | Some r =>
          match replicaState env r with
          | (r, Some (id, _)) => (<[i := r]> rs, if bool_decide (id = "") then nsID else id)
          | (r, None) => (<[i := r]> rs, nsID)
          end
      end
  end.

(** [handleChunkStream]: the answer to a request; [None]: none. *)
Definition handleChunkStream (env : HostEnv) (cache : BlobCache) (stream : string) (rs : list p2pReplica) : list p2pReplica * option string :=
  match readChunkMsg stream with
  | None => (rs, None)
  | Some msg =>
      let '(rs, nsID) := resolveNSID env (cmNSID msg) rs in
      let resp := match readLocalBlob cache nsID (cmHash msg) with
        | Some raw => mkChunkMsg nsID (cmHash msg) raw ""
        | None => mkChunkMsg nsID (cmHash msg) "" "chunk not available"
        end in
      (rs, Some (writeFSSyncMsg (chunkJSON resp)))
  end.

Definition chunkRequest (nsID hash : string) : string := writeFSSyncMsg (chunkJSON (mkChunkMsg nsID hash "" "")).

(** [requestChunk], from what the peer answers on the stream; [None]: nothing. *)
Definition requestChunk (answer : option string) : result string string :=
  match answer with
  | None => Err "reading chunk response"
  | Some stream =>
      match readChunkMsg stream with
      | None => Err "reading chunk response"
      | Some resp =>
          if bool_decide (cmError resp <> "") then Err (cmError resp)
          else if bool_decide (cmData resp = "") then Err "empty chunk response"
          else Ok (cmData resp)
      end
  end.

(** [GetChunk]: the connected peers one after another; [ask]: what a peer answers to a
    request. *)
Fixpoint GetChunk (self : string) (ask : string -> string -> option string) (nsID hash : string) (peers : list string) : result ReadErr string :=
  match peers with
  | [] => Err (mkReadErr "chunk not available from connected peers" false)
  | pid :: rest =>
      if bool_decide (pid = self) then GetChunk self ask nsID hash rest
      else match requestChunk (ask pid (chunkRequest nsID hash)) with
      | Ok raw => Ok raw
      | Err _ => GetChunk self ask nsID hash rest
      end
  end.

(** ** Theorems *)

Lemma read_full_length n s d r : read_full n s = Some (d, r) -> String.length d = n.
Proof.
  unfold read_full. destruct (_ <=? _)%nat eqn:E; [|done]. apply Nat.leb_le in E. intros [= <- _]. rewrite str_length_take; lia.
Qed.

(** A message of at most four mebibytes, whatever the stream holds. *)
Lemma readFrame_le stream data rest : readFSSyncMsg stream = Ok (data, rest) -> slen data <= maxFSSyncMsg.
Proof.
  unfold readFSSyncMsg, KvPush.readFrameMax. destruct (read_full 4 stream) as [[header s]|]; [|done].
  destruct (bytes_of header) as [|b0 [|b1 [|b2 [|b3 [|]]]]]; try done. cbv zeta. destruct (_ <? _) eqn:E; [done|]. apply Z.ltb_ge in E.
  destruct (read_full _ s) as [[d r]|] eqn:Er; [|done]. intros [= <- <-]. apply read_full_length in Er. unfold slen. rewrite Er.
  unfold maxFSSyncMsg in *. lia.
Qed.

(** Who answers. *)
Lemma GetChunk_ok self ask nsID hash peers raw :
  GetChunk self ask nsID hash peers = Ok raw ->
  exists l1 pid l2, peers = l1 ++ pid :: l2 /\ pid <> self /\ requestChunk (ask pid (chunkRequest nsID hash)) = Ok raw /\
    Forall (fun p => p = self \/ is_ok (requestChunk (ask p (chunkRequest nsID hash))) = false) l1.
Proof.
  induction peers as [|p peers IH]; [done|]. cbn [GetChunk]. case_bool_decide as Hs.
  - intros (l1 & pid & l2 & -> & H1 & H2 & H3)%IH. exists (p :: l1), pid, l2. split_and!; [done..|]. constructor; [by left|done].
  - destruct (requestChunk (ask p _)) as [d|e] eqn:E.
    + intros [= ->]. by exists [], p, peers.
    + intros (l1 & pid & l2 & -> & H1 & H2 & H3)%IH. exists (p :: l1), pid, l2. split_and!; [done..|]. constructor; [by right; rewrite E|done].
Qed.

Lemma read_chunk_write m : slen (chunkJSON m) <= maxFSSyncMsg -> readChunkMsg (writeFSSyncMsg (chunkJSON m)) = Some m.
Proof.
  intros Hl. unfold readChunkMsg, readFSSyncMsg, writeFSSyncMsg.
  assert (slen (chunkJSON m) < 2 ^ 32) as Hl2 by (unfold maxFSSyncMsg in Hl; lia).
  pose proof (KvPush.frame_roundtrip maxFSSyncMsg (chunkJSON m) "" Hl2) as H.
  rewrite str_app_nil_r in H. rewrite H, (proj2 (Z.ltb_ge _ _) Hl). apply chunk_parse_json.
Qed.

(** C40 (bounds). Whatever the peers answer, a chunk that a device takes from them
    has at most three mebibytes; the larger ones (a sealed chunk has up to four and
    some bytes) come from the backend or not at all. *)
Theorem fs_peer_chunk_limit self ask nsID hash peers raw
  (Hget : GetChunk self ask nsID hash peers = Ok raw) :
  0 < slen raw <= 3 * 1024 * 1024.
Proof.
  apply GetChunk_ok in Hget as (l1 & pid & l2 & -> & _ & Hr & _). unfold requestChunk, readChunkMsg in Hr.
  destruct (ask pid _) as [stream|]; [|done]. destruct (readFSSyncMsg stream) as [[data rest]|] eqn:Es; [|done].
  destruct (chunkParse data) as [m|] eqn:Em; [|done]. case_bool_decide; [done|]. case_bool_decide as Hne; [done|]. injection Hr as <-.
  pose proof (chunk_parse_size _ _ Em). pose proof (readFrame_le _ _ _ Es). unfold maxFSSyncMsg in *.
  split; [|lia]. destruct (cmData m); [done|]. unfold slen. cbn. lia.
Qed.

(** A peer that has the blob of a chunk in its cache is found: the
    answer of its handler, when it fits, is the blob, and [GetChunk] returns it
    unless a peer asked before has answered. *)
Theorem fs_peer_chunk_served env cache rs rs' nsID hash raw self ask l1 pid l2
  (Hres : resolveNSID env nsID rs = (rs', nsID)) (Hraw : readLocalBlob cache nsID hash = Some raw) (Hne : raw <> "")
  (Hreq : slen (chunkJSON (mkChunkMsg nsID hash "" "")) <= maxFSSyncMsg) (Hfit : slen (chunkJSON (mkChunkMsg nsID hash raw "")) <= maxFSSyncMsg)
  (Hpid : pid <> self) (Hask : ask pid = fun stream => (handleChunkStream env cache stream rs).2)
  (Hbefore : Forall (fun p => p = self \/ is_ok (requestChunk (ask p (chunkRequest nsID hash))) = false) l1) :
  GetChunk self ask nsID hash (l1 ++ pid :: l2) = Ok raw.
Proof.
  induction Hbefore as [|p l1 Hp _ IH]; cbn [app GetChunk].
  - rewrite bool_decide_eq_false_2 by done. rewrite Hask. unfold handleChunkStream, chunkRequest. rewrite (read_chunk_write _ Hreq). cbn [cmNSID cmHash]. rewrite Hres, Hraw.
    cbn [snd requestChunk]. rewrite (read_chunk_write _ Hfit). cbn [cmError cmData]. by rewrite bool_decide_eq_false_2, bool_decide_eq_false_2 by (done || by intros ?).
  - case_bool_decide; [done|]. destruct Hp as [?|Hp]; [done|]. destruct (requestChunk (ask p _)); [done|]. exact IH.
Qed.

End Chunks.

(** ** Passes *)

(** The order of names: by peer, then by replica. *)
Definition nameBefore (a b : string * string) : bool := if bool_decide (a.1 = b.1) then a.2 <s? b.2 else a.1 <s? b.1.

Lemma nameBefore_weak : weak_order nameBefore.
Proof.
  split.
  - intros [p i] [q j]. unfold nameBefore. cbn. repeat case_bool_decide; try congruence; apply str_ltb_asym.
  - intros [p i] [q j] [r k]. unfold nameBefore. cbn.
    destruct (bool_decide_reflect (p = q)) as [E1|E1], (bool_decide_reflect (q = r)) as [E2|E2], (bool_decide_reflect (p = r)) as [E3|E3];
      try congruence; try apply str_ltb_ntrans.
    intros H1 H2. subst r. by rewrite (str_ltb_total p q E1 H1) in H2.
Qed.

Lemma targetBefore_weak : weak_order targetBefore.
Proof.
  destruct nameBefore_weak as [Ha Hn]. assert (forall a b, targetBefore a b =
    if tgLastSync a =? tgLastSync b then nameBefore (tgPeer a, tgReplica a) (tgPeer b, tgReplica b)
    else if time_IsZero (tgLastSync a) then true else if time_IsZero (tgLastSync b) then false else tgLastSync a <? tgLastSync b) as E by done.
  split.
  - intros a b. rewrite !E. unfold time_IsZero. destruct (Z.eqb_spec (tgLastSync a) (tgLastSync b)), (Z.eqb_spec (tgLastSync b) (tgLastSync a)); try lia; [apply Ha|].
    destruct (Z.eqb_spec (tgLastSync a) zeroTime), (Z.eqb_spec (tgLastSync b) zeroTime); try done; try lia; rewrite Z.ltb_lt, Z.ltb_ge; lia.
  - intros a b c. rewrite !E. unfold time_IsZero.
    destruct (Z.eqb_spec (tgLastSync a) (tgLastSync b)), (Z.eqb_spec (tgLastSync b) (tgLastSync c)), (Z.eqb_spec (tgLastSync a) (tgLastSync c)); try lia; [apply Hn|..];
      destruct (Z.eqb_spec (tgLastSync a) zeroTime), (Z.eqb_spec (tgLastSync b) zeroTime), (Z.eqb_spec (tgLastSync c) zeroTime); try done; try lia; rewrite ?Z.ltb_ge; lia.
Qed.

Section PassFacts.
Context `{Codec : LineCodec Entry} `{CL : CryptoLib} `{PL : PeerLib}.

(** The periodic pass takes as many of the due targets as its
    limit allows, and those that were synced longest ago: none that is left out is
    before one that is taken. *)
Theorem fs_push_due_oldest env self peers limit staleAfter rs (Hpeers : peers <> []) :
  let all := (dueTargets true env self peers staleAfter rs).2 in
  let taken := (pushDue env self peers limit staleAfter rs).2 in
  Z.of_nat (length taken) = Z.min (Z.max 1 limit) (Z.of_nat (length all)) /\
  (forall t, t ∈ taken -> t ∈ all) /\
  (forall t t', t ∈ taken -> t' ∈ all -> t' ∉ taken -> targetBefore t' t = false).
Proof.
  cbv zeta. unfold pushDue. rewrite bool_decide_eq_false_2 by done. destruct (dueTargets _ _ _ _ _ _) as [rs' all]. cbn [snd].
  set (n := Z.to_nat _). pose proof (sortBy_perm targetBefore all) as Hp. pose proof (sortBy_weak targetBefore all targetBefore_weak) as Hs.
  rewrite <- (take_drop n (sortBy targetBefore all)) in Hs. split_and!.
  - rewrite length_take, Hp. assert (Z.of_nat n = Z.max 1 limit) by (unfold n; destruct (Z.leb_spec limit 0); lia). lia.
  - intros t Ht. rewrite <- Hp. apply elem_of_take in Ht as (i & Hi & _). by apply list_elem_of_lookup_2 in Hi.
  - intros t t' Ht Ht' Hn. rewrite <- Hp, <- (take_drop n (sortBy targetBefore all)) in Ht'. apply elem_of_app in Ht' as [?|Ht']; [done|].
    by apply (StronglySorted_app_1_elem_of _ _ _ t t') in Hs.
Qed.

Lemma targetsOf_spec self peers summary now stale r t :
  t ∈ targetsOf self peers summary now stale r <->
  tgPeer t ∈ peers /\ tgPeer t <> self /\ tgReplica t = rpID r /\ shouldSyncPeer (tgPeer t) summary now stale r = (true, tgLastSync t).
Proof.
  unfold targetsOf. rewrite list_elem_of_omap. split.
  - intros (pid & Hp & E). case_bool_decide; [done|]. destruct (shouldSyncPeer pid summary now stale r) as [[] last] eqn:Es; [|done]. by injection E as <-.
  - intros (Hp & Hne & Hr & Es). exists (tgPeer t). split; [done|]. rewrite bool_decide_eq_false_2 by done. rewrite Es. destruct t; cbn in *; congruence.
Qed.

(** A connection that comes up again starts a round, but a peer with
    which the last round failed less than five minutes ago is no target of it,
    whatever has changed since. *)
Theorem fs_reconnect_waits env self peers nsID nsKey c r pid p s
  (Hwarm : warm nsID nsKey c r) (Hpeer : rsPeers (rpSync r) !! pid = Some p) (Hroom : room pid r)
  (Herr : LastSuccessAt p < LastErrorAt p) (Hsoon : time_Sub (heNow env) (LastErrorAt p) < fsPeerSyncErrorBackoff)
  (Hcon : pid ∈ peers) (Hid : pid <> "") (Hself : pid <> self) (Hreps : syReplicas s <> ∅) (Hfirst : syLastConnect s !! pid = None) :
  (handlePeerConnect self peers (heNow env) pid s).2 = true /\
  forall t, t ∈ (runPushRound env self peers [r]).2 -> tgPeer t <> pid.
Proof.
  split.
  - unfold handlePeerConnect. rewrite (bool_decide_eq_false_2 (pid = "")), (bool_decide_eq_false_2 (pid = self)), (bool_decide_eq_true_2 (pid ∈ peers)) by done. cbn [orb negb].
    rewrite Hfirst. cbn [default]. unfold time_IsZero. rewrite Z.eqb_refl. cbn [negb andb snd]. by rewrite bool_decide_eq_false_2.
  - intros t. unfold runPushRound. case_bool_decide; [by intros ?%elem_of_nil|]. cbn [dueTargets].
    destruct (loadReplica_warm env pid nsID nsKey c r Hwarm) as (r' & E & _). rewrite E. cbn [snd]. rewrite app_nil_r.
    intros (_ & _ & _ & Hdue)%targetsOf_spec Ht. rewrite Ht in Hdue. revert Hdue. unfold shouldSyncPeer. rewrite bool_decide_eq_false_2 by done.
    assert (rsPeers (rpSync r') !! pid = Some p) as ->.
    { unfold loadReplicaSnapshot, replicaState, getSnapshot in E. destruct Hwarm as [H1 H2]. rewrite H1, H2 in E. injection E as <-.
      rewrite <- Hpeer. f_equal. by apply (local_peers pid). }
    rewrite (proj2 (Z.ltb_lt _ _) Herr), (proj2 (Z.ltb_lt _ _) Hsoon). done.
Qed.

End PassFacts.

(** ** The hypotheses of the theorems can hold *)

Module Demo.
Import FsPeer.Demo Seal.Demo FsPeerSync.Demo.
#[local] Existing Instance demoCodec.
#[local] Existing Instance toyLib.
#[local] Existing Instance smallLib.

(** A codec of chunk messages: the other fields, then the data, every byte written
    twice. *)
Fixpoint twice (s : string) : string := match s with EmptyString => "" | String c s => String c (String c (twice s)) end.
Fixpoint untwice (s : string) : string := match s with String c (String _ s) => String c (untwice s) | _ => "" end.

Definition demoChunkJSON (m : fsChunkMsg) : string := text [encode (cmNSID m); encode (cmHash m); encode (cmError m)] +:+ twice (cmData m).
Definition demoChunkParse (s : string) : option fsChunkMsg :=
  match untext s with
  | Some [a; b; c] => a ← decode a; b ← decode b; c ← decode c; Some (mkChunkMsg a b (untwice (after s)) c)
  | _ => None
  end.

Lemma untwice_twice s : untwice (twice s) = s.
Proof. induction s; simpl; by f_equal. Qed.

Lemma untwice_size n s : (String.length s <= n)%nat -> 2 * slen (untwice s) <= slen s.
Proof.
  unfold slen. revert s. induction n as [|n IH]; intros [|c [|d s]] Hn; cbn in *; try lia. specialize (IH s ltac:(lia)). lia.
Qed.

Lemma after_size s : slen (after s) <= slen s.
Proof. unfold slen. induction s as [|c s IH]; cbn; [lia|]. destruct (Ascii.eqb c "1"); lia. Qed.

Lemma demo_chunk m : demoChunkParse (demoChunkJSON m) = Some m.
Proof.
  unfold demoChunkParse, demoChunkJSON. rewrite untext_text, !countable.decode_encode. cbn [mbind option_bind].
  unfold text. rewrite after_text, untwice_twice. by destruct m.
Qed.

Lemma demo_chunk_size s m : demoChunkParse s = Some m -> 4 * slen (cmData m) <= 3 * slen s.
Proof.
  unfold demoChunkParse. destruct (untext s) as [[|a [|b [|c [|]]]]|]; try done.
  destruct (decode a) as [x|]; [|done]. destruct (decode b) as [y|]; [|done]. destruct (decode c) as [z|]; [|done]. cbn [mbind option_bind]. intros [= <-]. cbn [cmData].
  pose proof (untwice_size (String.length (after s)) (after s) (Nat.le_refl _)). pose proof (after_size s). pose proof (slen_nonneg s). lia.
Qed.

#[local] Instance demoChunks : ChunkLib.
Proof.
  refine {| chunkJSON := demoChunkJSON; chunkParse := demoChunkParse |}.
  - abstract (apply demo_chunk).
  - abstract (apply demo_chunk_size).
Defined.

Definition cacheB : BlobCache := mkCache "/objects" {[localBlobPath "/objects" "ns" "0123456789abcdef" := "a sealed blob"]} (fun _ => true).
Definition askB (pid stream : string) : option string :=
  if bool_decide (pid = "peerB") then (handleChunkStream (host 7) cacheB stream [replicaOf "B" key1 B]).2 else None.

Lemma fs_peer_chunk_served_witness :
  (resolveNSID (host 7) "ns" [replicaOf "B" key1 B] = ([replicaOf "B" key1 B], "ns") /\ readLocalBlob cacheB "ns" "0123456789abcdef" = Some "a sealed blob") /\
  GetChunk "peerA" askB "ns" "0123456789abcdef" (["peerA"; "peerC"] ++ "peerB" :: []) = Ok "a sealed blob".
Proof.
  split; [split; vm_compute; reflexivity|].
  apply (fs_peer_chunk_served (host 7) cacheB [replicaOf "B" key1 B] [replicaOf "B" key1 B] "ns" "0123456789abcdef" "a sealed blob" "peerA" askB ["peerA"; "peerC"] "peerB" []).
  - vm_compute. reflexivity.
  - vm_compute. reflexivity.
  - discriminate.
  - vm_compute. discriminate.
  - vm_compute. discriminate.
  - discriminate.
  - reflexivity.
  - constructor; [left; reflexivity|]. constructor; [right; vm_compute; reflexivity|]. constructor.
Defined.

Lemma fs_peer_chunk_limit_witness :
  GetChunk "peerA" askB "ns" "0123456789abcdef" ["peerB"] = Ok "a sealed blob" /\ 0 < slen "a sealed blob" <= 3 * 1024 * 1024.
Proof.
  assert (GetChunk "peerA" askB "ns" "0123456789abcdef" ["peerB"] = Ok "a sealed blob") as E by (vm_compute; reflexivity).
  split; [exact E|]. exact (fs_peer_chunk_limit "peerA" askB "ns" "0123456789abcdef" ["peerB"] "a sealed blob" E).
Defined.

(** The name of a chunk is a piece of a path, as the peer wrote it. *)
Lemma fs_peer_names_path : localBlobPath "/home/me/.sky10/fs/objects" "ns" "../../../../../../../var/other" = "/var/other.blob".
Proof. vm_compute. reflexivity. Qed.

Lemma fs_push_due_oldest_witness :
  ["peerB"; "peerC"] <> [] /\
  Z.of_nat (length (pushDue (host 7) "peerA" ["peerB"; "peerC"] 1 (10 * second) [replicaOf "A" key1 A]).2) = 1.
Proof.
  split; [discriminate|].
  rewrite (proj1 (fs_push_due_oldest (host 7) "peerA" ["peerB"; "peerC"] 1 (10 * second) [replicaOf "A" key1 A] ltac:(discriminate))). vm_compute. reflexivity.
Defined.

(** A replica with which the last round to [peerB] failed. *)
Definition failed : p2pReplica := recordSyncError true 5 "peerB" None "opening stream" (replicaOf "A" key1 A).
Definition manager : P2PSync := mkSync {["A" := failed]} true ∅.

Lemma fs_reconnect_waits_witness :
  warm "ns" key1 A failed /\ (handlePeerConnect "peerA" ["peerB"] 7 "peerB" manager).2 = true /\
  forall t, t ∈ (runPushRound (host 7) "peerA" ["peerB"] [failed]).2 -> tgPeer t <> "peerB".
Proof.
  split; [split; vm_compute; reflexivity|].
  apply (fs_reconnect_waits (host 7) "peerA" ["peerB"] "ns" key1 A failed "peerB" (peerOf "peerB" (rpSync failed)) manager).
  - split; vm_compute; reflexivity.
  - vm_compute. reflexivity.
  - apply (steady_room "peerB" (replicaOf "A" key1 A)); [apply error_steady|apply room_of].
  - vm_compute. reflexivity.
  - vm_compute. reflexivity.
  - left.
  - discriminate.
  - discriminate.
  - intros E. apply (f_equal (fun m : gmap string p2pReplica => size m)) in E. vm_compute in E. discriminate E.
  - vm_compute. reflexivity.
Defined.

End Demo.
