(* ===== verification/AgentJobs.v ===== *)
(** * Jobs of agents (pkg/agent: jobs.go, job_store.go, job_rpc.go)

    A job is a snapshot in a JSONL log; the store reads the log back as one job
    per identifier, the latest saved first.  The store is shown to be a book of
    jobs, in which a finished job does not change.  An operation reads the book
    and then saves what it made of it, in two critical sections: what two of them
    do to each other, and what a call does to the agent it calls, is stated as it
    is. *)

From Stdlib Require Import Ascii.
From stdpp Require Import base numbers list gmap strings.
From S2P Require Import Prelude GoStrings GoStrconv GoText GoFloat GoPath JsonLines.

#[local] Open Scope Z_scope.

(** ** Jobs (jobs.go) *)

Definition JobWorkReceived : string := "received".
Definition JobWorkAccepted : string := "accepted".
Definition JobWorkQueued : string := "queued".
Definition JobWorkRunning : string := "running".
Definition JobWorkInputRequired : string := "input_required".
Definition JobWorkCompleted : string := "completed".
Definition JobWorkFailed : string := "failed".
Definition JobWorkCanceled : string := "canceled".
Definition JobWorkExpired : string := "expired".
Definition JobPaymentNone : string := "none".
Definition JobPaymentRequired : string := "required".
Definition JobPaymentAuthorized : string := "authorized".
Definition JobPaymentSettled : string := "settled".
Definition JobPaymentFailed : string := "failed".
Definition JobPaymentRefunded : string := "refunded".

Record AgentPayloadRef := mkPayloadRef {
  apKind : string; apKey : string; apURI : string; apMimeType : string; apSize : Z; apDigest : string
}.

Record DeliveryMetadata := mkDelivery {
  dmPolicy : string; dmScope : string; dmStatus : string; dmLiveTransport : string; dmDurableTransport : string;
  dmLastTransport : string; dmMailboxItemID : string; dmMailboxState : string; dmLastEvent : string; dmLastError : string;
  dmLiveAttempted : bool; dmDurableUsed : bool
}.

Record AgentJob := mkJob {
  jbJobID : string; jbBuyer : string; jbSeller : string; jbAgentID : string; jbAgentName : string; jbTool : string; jbCapability :
  string; jbBidID : string; jbWorkState : string; jbPaymentState : string; jbCreatedAt : string; jbUpdatedAt : string;
  jbStatusMessage : string; jbProgress : option float64; jbOutputDir : string; jbIdempotencyKey : string; jbInputDigest : string;
  jbResultDigest : string; jbPayloadRefs : list AgentPayloadRef; jbResultRefs : list AgentPayloadRef; jbMessageID : string;
  jbCancelReason : string; jbErrorCode : string; jbLastError : string; jbDelivery : option DeliveryMetadata
}.

(** Assignments to single fields. *)

Definition setJobWorkState (v : string) (j : AgentJob) : AgentJob := mkJob (jbJobID j) (jbBuyer j) (jbSeller j) (jbAgentID j)
  (jbAgentName j) (jbTool j) (jbCapability j) (jbBidID j) v (jbPaymentState j) (jbCreatedAt j) (jbUpdatedAt j) (jbStatusMessage j)
  (jbProgress j) (jbOutputDir j) (jbIdempotencyKey j) (jbInputDigest j) (jbResultDigest j) (jbPayloadRefs j) (jbResultRefs j)
  (jbMessageID j) (jbCancelReason j) (jbErrorCode j) (jbLastError j) (jbDelivery j).
Definition setJobStatusMessage (v : string) (j : AgentJob) : AgentJob := mkJob (jbJobID j) (jbBuyer j) (jbSeller j) (jbAgentID j)
  (jbAgentName j) (jbTool j) (jbCapability j) (jbBidID j) (jbWorkState j) (jbPaymentState j) (jbCreatedAt j) (jbUpdatedAt j) v
  (jbProgress j) (jbOutputDir j) (jbIdempotencyKey j) (jbInputDigest j) (jbResultDigest j) (jbPayloadRefs j) (jbResultRefs j)
  (jbMessageID j) (jbCancelReason j) (jbErrorCode j) (jbLastError j) (jbDelivery j).
Definition setJobProgress (v : option float64) (j : AgentJob) : AgentJob := mkJob (jbJobID j) (jbBuyer j) (jbSeller j) (jbAgentID
  j) (jbAgentName j) (jbTool j) (jbCapability j) (jbBidID j) (jbWorkState j) (jbPaymentState j) (jbCreatedAt j) (jbUpdatedAt j)
  (jbStatusMessage j) v (jbOutputDir j) (jbIdempotencyKey j) (jbInputDigest j) (jbResultDigest j) (jbPayloadRefs j) (jbResultRefs
  j) (jbMessageID j) (jbCancelReason j) (jbErrorCode j) (jbLastError j) (jbDelivery j).
Definition setJobUpdatedAt (v : string) (j : AgentJob) : AgentJob := mkJob (jbJobID j) (jbBuyer j) (jbSeller j) (jbAgentID j)
  (jbAgentName j) (jbTool j) (jbCapability j) (jbBidID j) (jbWorkState j) (jbPaymentState j) (jbCreatedAt j) v (jbStatusMessage j)
  (jbProgress j) (jbOutputDir j) (jbIdempotencyKey j) (jbInputDigest j) (jbResultDigest j) (jbPayloadRefs j) (jbResultRefs j)
  (jbMessageID j) (jbCancelReason j) (jbErrorCode j) (jbLastError j) (jbDelivery j).
Definition setJobCancelReason (v : string) (j : AgentJob) : AgentJob := mkJob (jbJobID j) (jbBuyer j) (jbSeller j) (jbAgentID j)
  (jbAgentName j) (jbTool j) (jbCapability j) (jbBidID j) (jbWorkState j) (jbPaymentState j) (jbCreatedAt j) (jbUpdatedAt j)
  (jbStatusMessage j) (jbProgress j) (jbOutputDir j) (jbIdempotencyKey j) (jbInputDigest j) (jbResultDigest j) (jbPayloadRefs j)
  (jbResultRefs j) (jbMessageID j) v (jbErrorCode j) (jbLastError j) (jbDelivery j).
Definition setJobResultDigest (v : string) (j : AgentJob) : AgentJob := mkJob (jbJobID j) (jbBuyer j) (jbSeller j) (jbAgentID j)
  (jbAgentName j) (jbTool j) (jbCapability j) (jbBidID j) (jbWorkState j) (jbPaymentState j) (jbCreatedAt j) (jbUpdatedAt j)
  (jbStatusMessage j) (jbProgress j) (jbOutputDir j) (jbIdempotencyKey j) (jbInputDigest j) v (jbPayloadRefs j) (jbResultRefs j)
  (jbMessageID j) (jbCancelReason j) (jbErrorCode j) (jbLastError j) (jbDelivery j).
Definition setJobResultRefs (v : list AgentPayloadRef) (j : AgentJob) : AgentJob := mkJob (jbJobID j) (jbBuyer j) (jbSeller j)
  (jbAgentID j) (jbAgentName j) (jbTool j) (jbCapability j) (jbBidID j) (jbWorkState j) (jbPaymentState j) (jbCreatedAt j)
  (jbUpdatedAt j) (jbStatusMessage j) (jbProgress j) (jbOutputDir j) (jbIdempotencyKey j) (jbInputDigest j) (jbResultDigest j)
  (jbPayloadRefs j) v (jbMessageID j) (jbCancelReason j) (jbErrorCode j) (jbLastError j) (jbDelivery j).
Definition setJobErrorCode (v : string) (j : AgentJob) : AgentJob := mkJob (jbJobID j) (jbBuyer j) (jbSeller j) (jbAgentID j)
  (jbAgentName j) (jbTool j) (jbCapability j) (jbBidID j) (jbWorkState j) (jbPaymentState j) (jbCreatedAt j) (jbUpdatedAt j)
  (jbStatusMessage j) (jbProgress j) (jbOutputDir j) (jbIdempotencyKey j) (jbInputDigest j) (jbResultDigest j) (jbPayloadRefs j)
  (jbResultRefs j) (jbMessageID j) (jbCancelReason j) v (jbLastError j) (jbDelivery j).
Definition setJobLastError (v : string) (j : AgentJob) : AgentJob := mkJob (jbJobID j) (jbBuyer j) (jbSeller j) (jbAgentID j)
  (jbAgentName j) (jbTool j) (jbCapability j) (jbBidID j) (jbWorkState j) (jbPaymentState j) (jbCreatedAt j) (jbUpdatedAt j)
  (jbStatusMessage j) (jbProgress j) (jbOutputDir j) (jbIdempotencyKey j) (jbInputDigest j) (jbResultDigest j) (jbPayloadRefs j)
  (jbResultRefs j) (jbMessageID j) (jbCancelReason j) (jbErrorCode j) v (jbDelivery j).
Definition setJobMessageID (v : string) (j : AgentJob) : AgentJob := mkJob (jbJobID j) (jbBuyer j) (jbSeller j) (jbAgentID j)
  (jbAgentName j) (jbTool j) (jbCapability j) (jbBidID j) (jbWorkState j) (jbPaymentState j) (jbCreatedAt j) (jbUpdatedAt j)
  (jbStatusMessage j) (jbProgress j) (jbOutputDir j) (jbIdempotencyKey j) (jbInputDigest j) (jbResultDigest j) (jbPayloadRefs j)
  (jbResultRefs j) v (jbCancelReason j) (jbErrorCode j) (jbLastError j) (jbDelivery j).
Definition setJobDelivery (v : option DeliveryMetadata) (j : AgentJob) : AgentJob := mkJob (jbJobID j) (jbBuyer j) (jbSeller j)
  (jbAgentID j) (jbAgentName j) (jbTool j) (jbCapability j) (jbBidID j) (jbWorkState j) (jbPaymentState j) (jbCreatedAt j)
  (jbUpdatedAt j) (jbStatusMessage j) (jbProgress j) (jbOutputDir j) (jbIdempotencyKey j) (jbInputDigest j) (jbResultDigest j)
  (jbPayloadRefs j) (jbResultRefs j) (jbMessageID j) (jbCancelReason j) (jbErrorCode j) (jbLastError j) v.

Record AgentJobStatusParams := mkStatusParams { spJobID : string; spWorkState : string; spMessage : string; spProgress : option float64 }.
Record AgentJobCompleteParams := mkCompleteParams {
  cpJobID : string; cpOutput : string; cpPayloadRef : option AgentPayloadRef; cpPayloadRefs : list AgentPayloadRef;
  cpResultDigest : string; cpMessage : string
}.
Record AgentJobFailParams := mkFailParams { fpJobID : string; fpCode : string; fpMessage : string }.
Record AgentJobListParams := mkListParams {
  lpRole : string; lpWorkState : string; lpPaymentState : string; lpTool : string; lpAgent : string; lpLimit : Z
}.

(** ** Checks (job_store.go) *)

Definition isKnownWorkState (state : string) : bool :=
  bool_decide (state ∈ [JobWorkReceived; JobWorkAccepted; JobWorkQueued; JobWorkRunning; JobWorkInputRequired; JobWorkCompleted;
    JobWorkFailed; JobWorkCanceled; JobWorkExpired]).
Definition isKnownPaymentState (state : string) : bool :=
  bool_decide (state ∈ [JobPaymentNone; JobPaymentRequired; JobPaymentAuthorized; JobPaymentSettled; JobPaymentFailed; JobPaymentRefunded]).
Definition isTerminalWorkState (state : string) : bool :=
  bool_decide (state ∈ [JobWorkCompleted; JobWorkFailed; JobWorkCanceled; JobWorkExpired]).

Definition f64_isNaN (x : float64) : bool := match x with SpecFloat.S754_nan => true | _ => false end.

Definition validateJobProgress (progress : option float64) : result string unit :=
  match progress with
  | None => Ok tt
  | Some p =>
      if f64_isNaN p || f64_lt p (f64_of_int 0) || f64_lt (f64_of_int 1) p then Err "job.progress must be between 0 and 1" else Ok tt
  end.

Definition defaultJobLimit : Z := 50.
Definition maxJobLimit : Z := 200.
Definition normalizeJobLimit (limit : Z) : Z :=
  if limit <=? 0 then defaultJobLimit else if maxJobLimit <? limit then maxJobLimit else limit.

Definition normalizePayloadRefs (one : option AgentPayloadRef) (many : list AgentPayloadRef) : list AgentPayloadRef :=
  match one with Some r => r :: many | None => many end.

Record jobEntry := mkJobEntry { jeType : string; jeSavedAt : string; jeJob : AgentJob }.

(** JSON, RFC 3339 texts and SHA-256 (in hexadecimal). *)
Class JobLib := {
  jl_codec :: LineCodec jobEntry;
  jl_trimmed e : TrimSpace (marshal e) = marshal e;      (** an object begins and ends with a brace *)
  jl_parseTime : string -> option Time;
  jl_formatTime : Time -> string;
  jl_time t : is_Some (jl_parseTime (jl_formatTime t));
  jl_normalizeJSON : string -> option string;            (** [Unmarshal] into any, then [Marshal] *)
  jl_refsJSON : list AgentPayloadRef -> string;
  jl_sha256 : string -> string;
  jl_unicodeLower : string -> string;
  jl_quote : string -> string                            (** [%q] *)
}.

Section Jobs.
Context `{JL : !JobLib}.

Definition validateAgentJob (j : AgentJob) : result string unit :=
  if isBlank (jbJobID j) then Err "job.job_id is required"
  else if isBlank (jbBuyer j) then Err "job.buyer is required"
  else if isBlank (jbSeller j) then Err "job.seller is required"
  else if isBlank (jbTool j) then Err "job.tool is required"
  else if negb (isKnownWorkState (jbWorkState j)) then Err "job.work_state is invalid"
  else if negb (isKnownPaymentState (jbPaymentState j)) then Err "job.payment_state is invalid"
  else match validateJobProgress (jbProgress j) with
  | Err e => Err e
  | Ok _ =>
      if negb (bool_decide (is_Some (jl_parseTime (jbCreatedAt j)))) then Err "job.created_at must be RFC3339"
      else if negb (bool_decide (is_Some (jl_parseTime (jbUpdatedAt j)))) then Err "job.updated_at must be RFC3339"
      else Ok tt
  end.

Definition digestJSON (raw : string) : result string string :=
  let source := TrimSpace raw in
  let source := if bool_decide (source = "") || bool_decide (source = "null") then "{}" else source in
  match jl_normalizeJSON source with
  | None => Err "input must be valid JSON"
  | Some normalized => Ok ("sha256:" +:+ jl_sha256 normalized)
  end.

Definition digestJobResult (output : string) (refs : list AgentPayloadRef) : result string string :=
  if negb (isBlank output) then digestJSON output
  else if bool_decide (length refs = 0%nat) then digestJSON "{}"
  else digestJSON (jl_refsJSON refs).

(** ** The log (job_store.go) *)

Inductive JobEvent := JobChanged (jobID workState paymentState : string) | JobCancel (jobID reason : string).

(** The file and the events emitted. *)
Record JobStore := mkJobStore { jsFile : option string; jsEmitted : list JobEvent }.

Definition NewJobStore (file : option string) : JobStore := mkJobStore file [].

Definition maxLine : Z := 16 * 2 ^ 20.

(** The clock, the context, [MkdirAll] and the write of one [Save]. *)
Record SaveIO := mkSaveIO { siNow : Time; siCtx : option string; siMkdir : bool; siWrite : WriteIO }.

Definition entryOf (io : SaveIO) (j : AgentJob) : jobEntry := mkJobEntry "job_saved" (jl_formatTime (siNow io)) j.

Definition Save (io : SaveIO) (j : AgentJob) (s : JobStore) : JobStore * result string AgentJob :=
  match validateAgentJob j with
  | Err e => (s, Err e)
  | Ok _ =>
      match siCtx io with
      | Some e => (s, Err e)
      | None =>
          if negb (siMkdir io) then (s, Err "create agent job directory")
          else match append_file (siWrite io) (jsFile s) (entryOf io j) with
          | (f, Err ErrOpen) => (mkJobStore f (jsEmitted s), Err "open agent job log")
          | (f, Err _) => (mkJobStore f (jsEmitted s), Err "write agent job log")
          | (f, Ok _) => (mkJobStore f (jsEmitted s ++ [JobChanged (jbJobID j) (jbWorkState j) (jbPaymentState j)]), Ok j)
          end
      end
  end.

(** The job of a line, if it is one. *)
Definition lineJob (line : string) : option AgentJob :=
  let line := TrimSpace (dropCR line) in
  if bool_decide (line = "") then None
  else match unmarshal line with
  | None => None
  | Some e => if bool_decide (jeType e = "job_saved") && is_ok (validateAgentJob (jeJob e)) then Some (jeJob e) else None
  end.

(** [byID] and [order]. *)
Definition absorb (st : gmap string AgentJob * list string) (j : AgentJob) : gmap string AgentJob * list string :=
  let '(byID, order) := st in
  let id := jbJobID j in
  (<[id := j]> byID, (if bool_decide (is_Some (byID !! id)) then filter (fun v => v <> id) order else order) ++ [id]).

Definition listLatest (rd : bool) (s : JobStore) : result string (list AgentJob) :=
  match jsFile s with
  | None => Ok []
  | Some f =>
      if negb rd then Err "open agent job log"
      else if existsb (fun line => maxLine <=? slen line) (scan_lines f) then Err "read agent job log"
      else
        let '(byID, order) := foldl absorb (∅, []) (omap lineJob (scan_lines f)) in
        Ok (omap (fun id => byID !! id) (reverse order))
  end.

(** ** Operations (job_store.go) *)

Definition findJob (jobID : string) (jobs : list AgentJob) : option AgentJob := find (fun j => bool_decide (jbJobID j = jobID)) jobs.

Definition notFound (jobID : string) : string := "agent job " +:+ jl_quote jobID +:+ " not found".

(** [Get] on the jobs read. *)
Definition lookupJob (jobID : string) (jobs : result string (list AgentJob)) : result string AgentJob :=
  let jobID := TrimSpace jobID in
  if bool_decide (jobID = "") then Err "job_id is required"
  else match jobs with
  | Err e => Err e
  | Ok jobs => match findJob jobID jobs with Some j => Ok j | None => Err (notFound jobID) end
  end.

Definition Get (rd : bool) (jobID : string) (s : JobStore) : result string AgentJob := lookupJob jobID (listLatest rd s).

Definition FindByIdempotency (rd : bool) (buyer seller tool key : string) (s : JobStore) : result string (option AgentJob) :=
  let key := TrimSpace key in
  if bool_decide (key = "") then Ok None
  else match listLatest rd s with
  | Err e => Err e
  | Ok jobs =>
      Ok (find (fun j => bool_decide (jbBuyer j = buyer) && bool_decide (jbSeller j = seller) && bool_decide (jbTool j = tool)
                         && bool_decide (jbIdempotencyKey j = key)) jobs)
  end.

(** A filter of [List] that is not set, or that holds. *)
Definition wanted (filter_ : string) (values : list string) : bool := bool_decide (filter_ = "") || bool_decide (filter_ ∈ values).

Definition agentJobMatchesListParams (j : AgentJob) (p : AgentJobListParams) (localBuyer : string) : bool :=
  let role := TrimSpace (lpRole p) in
  (if bool_decide (role = "") then true
   else if bool_decide (role = "buyer") then bool_decide (jbBuyer j = localBuyer)
   else if bool_decide (role = "seller") then negb (bool_decide (jbSeller j = localBuyer))
   else false)
  && wanted (TrimSpace (lpWorkState p)) [jbWorkState j]
  && wanted (TrimSpace (lpPaymentState p)) [jbPaymentState j]
  && wanted (TrimSpace (lpTool p)) [jbTool j; jbCapability j]
  && wanted (TrimSpace (lpAgent p)) [jbAgentID j; jbAgentName j; jbSeller j].

Definition List_ (rd : bool) (p : AgentJobListParams) (localBuyer : string) (s : JobStore) : result string (list AgentJob) :=
  match listLatest rd s with
  | Err e => Err e
  | Ok jobs => Ok (take (Z.to_nat (normalizeJobLimit (lpLimit p))) (filter (fun j => agentJobMatchesListParams j p localBuyer = true) jobs))
  end.

Definition alreadyDone (j : AgentJob) : string := "agent job " +:+ jl_quote (jbJobID j) +:+ " is already " +:+ jbWorkState j.

(** What each operation makes of the job it found: the reading half of the
    method, up to its [Save]. *)
Definition cancelled (now : Time) (reason : string) (j : AgentJob) : result string AgentJob :=
  if isTerminalWorkState (jbWorkState j) then Err (alreadyDone j)
  else Ok (setJobUpdatedAt (jl_formatTime now) (setJobStatusMessage (TrimSpace reason) (setJobCancelReason (TrimSpace reason)
             (setJobWorkState JobWorkCanceled j)))).

Definition statusUpdated (now : Time) (p : AgentJobStatusParams) (j : AgentJob) : result string AgentJob :=
  let workState := TrimSpace (spWorkState p) in
  if bool_decide (workState = "") then Err "work_state is required"
  else if negb (isKnownWorkState workState) then Err "work_state is invalid"
  else if isTerminalWorkState workState then Err "use agent.job.complete, agent.job.fail, or agent.cancel for terminal states"
  else match validateJobProgress (spProgress p) with
  | Err e => Err e
  | Ok _ =>
      if isTerminalWorkState (jbWorkState j) then Err (alreadyDone j)
      else Ok (setJobUpdatedAt (jl_formatTime now) (setJobProgress (spProgress p) (setJobStatusMessage (TrimSpace (spMessage p))
                 (setJobWorkState workState j))))
  end.

Definition completed (now : Time) (p : AgentJobCompleteParams) (j : AgentJob) : result string AgentJob :=
  if isTerminalWorkState (jbWorkState j) then Err (alreadyDone j)
  else
    let resultRefs := normalizePayloadRefs (cpPayloadRef p) (cpPayloadRefs p) in
    let resultDigest := TrimSpace (cpResultDigest p) in
    match (if bool_decide (resultDigest = "") then digestJobResult (cpOutput p) resultRefs else Ok resultDigest) with
    | Err e => Err e
    | Ok resultDigest =>
        Ok (setJobUpdatedAt (jl_formatTime now) (setJobResultRefs resultRefs (setJobResultDigest resultDigest
              (setJobProgress (Some (f64_of_int 1)) (setJobStatusMessage (TrimSpace (cpMessage p)) (setJobWorkState JobWorkCompleted j))))))
    end.

Definition failed (now : Time) (p : AgentJobFailParams) (j : AgentJob) : result string AgentJob :=
  let message := TrimSpace (fpMessage p) in
  if bool_decide (message = "") then Err "message is required"
  else if isTerminalWorkState (jbWorkState j) then Err (alreadyDone j)
  else
    let code := TrimSpace (fpCode p) in
    let code := if bool_decide (code = "") then "runtime_error" else code in
    Ok (setJobUpdatedAt (jl_formatTime now) (setJobLastError message (setJobErrorCode code (setJobStatusMessage message
          (setJobWorkState JobWorkFailed j))))).

Inductive JobOp :=
| DoCancel (jobID reason : string) | DoUpdateStatus (p : AgentJobStatusParams) | DoComplete (p : AgentJobCompleteParams) | DoFail (p : AgentJobFailParams).

Definition opJobID (op : JobOp) : string :=
  match op with DoCancel id _ => id | DoUpdateStatus p => spJobID p | DoComplete p => cpJobID p | DoFail p => fpJobID p end.

Definition opApply (now : Time) (op : JobOp) : AgentJob -> result string AgentJob :=
  match op with
  | DoCancel _ reason => cancelled now reason
  | DoUpdateStatus p => statusUpdated now p
  | DoComplete p => completed now p
  | DoFail p => failed now p
  end.

(** The reading half and the whole of [Cancel], [UpdateStatus], [Complete] and
    [Fail]; [now] is read between the two critical sections. *)
Definition readHalf (now : Time) (op : JobOp) (jobs : result string (list AgentJob)) : result string AgentJob :=
  match lookupJob (opJobID op) jobs with Err e => Err e | Ok j => opApply now op j end.

Definition runOp (rd : bool) (now : Time) (io : SaveIO) (op : JobOp) (s : JobStore) : JobStore * result string AgentJob :=
  match readHalf now op (listLatest rd s) with
  | Err e => (s, Err e)
  | Ok j => Save io j s
  end.

Definition Cancel rd now io jobID reason := runOp rd now io (DoCancel jobID reason).
Definition UpdateStatus rd now io p := runOp rd now io (DoUpdateStatus p).
Definition Complete rd now io p := runOp rd now io (DoComplete p).
Definition Fail_ rd now io p := runOp rd now io (DoFail p).

(** ** The book of jobs

    One job per identifier, the latest saved first. *)

Fixpoint book (newestFirst : list AgentJob) : list AgentJob :=
  match newestFirst with
  | [] => []
  | j :: l => j :: filter (fun k => jbJobID k <> jbJobID j) (book l)
  end.

(** Saving a job puts it in front. *)
Definition enter (j : AgentJob) (b : list AgentJob) : list AgentJob := j :: filter (fun k => jbJobID k <> jbJobID j) b.

Definition listing (st : gmap string AgentJob * list string) : list AgentJob := omap (fun id => st.1 !! id) (reverse st.2).

Record order_ok (st : gmap string AgentJob * list string) : Prop := {
  oo_keyed id j : st.1 !! id = Some j -> jbJobID j = id;
  oo_order id : id ∈ st.2 <-> is_Some (st.1 !! id);
  oo_nodup : NoDup st.2
}.

Lemma omap_insert_ne (m : gmap string AgentJob) j (l : list string) :
  jbJobID j ∉ l -> omap (fun id => <[jbJobID j := j]> m !! id) l = omap (fun id => m !! id) l.
Proof.
  induction l as [|id l IH]; [done|]. intros [Hn Hl]%not_elem_of_cons. cbn [omap list_omap]. rewrite lookup_insert_ne by done. by rewrite IH.
Qed.

Lemma listing_filter (m : gmap string AgentJob) id (l : list string) :
  (forall k j, m !! k = Some j -> jbJobID j = k) ->
  omap (fun k => m !! k) (filter (fun v => v <> id) l) = filter (fun k => jbJobID k <> id) (omap (fun k => m !! k) l).
Proof.
  intros Hk. induction l as [|k l IH]; [done|]. rewrite filter_cons. cbn [omap list_omap]. destruct (m !! k) as [j|] eqn:Ej.
  - rewrite filter_cons. rewrite (Hk _ _ Ej). destruct (decide (k <> id)); [|exact IH]. cbn [omap list_omap]. by rewrite Ej, IH.
  - destruct (decide (k <> id)); [|exact IH]. cbn [omap list_omap]. by rewrite Ej.
Qed.

Lemma filter_absent (id : string) (l : list string) : id ∉ l -> filter (fun v => v <> id) l = l.
Proof.
  induction l as [|k l IH]; [done|]. intros [Hn Hl]%not_elem_of_cons. rewrite filter_cons, decide_True by done. by rewrite IH.
Qed.

Lemma absorb_ok st j : order_ok st -> order_ok (absorb st j) /\ listing (absorb st j) = enter j (listing st).
Proof.
  destruct st as [m order]. intros [H1 H2 H3]. simpl in *.
  assert ((if bool_decide (is_Some (m !! jbJobID j)) then filter (fun v => v <> jbJobID j) order else order) = filter (fun v => v <> jbJobID j) order) as ->.
  { case_bool_decide as Hm; [done|]. symmetry. apply filter_absent. by rewrite H2. }
  assert (jbJobID j ∉ filter (fun v => v <> jbJobID j) order) as Hn by (rewrite list_elem_of_filter; intros [? _]; done).
  split; [split; simpl|].
  - intros id k. destruct (decide (id = jbJobID j)) as [->|]; [rewrite lookup_insert_eq; by intros [= <-]|rewrite lookup_insert_ne by done; apply H1].
  - intros id. rewrite elem_of_app, list_elem_of_singleton, list_elem_of_filter, H2. destruct (decide (id = jbJobID j)) as [->|].
    + rewrite lookup_insert_eq. split; [by eexists|by right].
    + rewrite lookup_insert_ne by done. tauto.
  - apply NoDup_app. split_and!; [by apply NoDup_filter| |apply NoDup_singleton]. intros id Hid ->%list_elem_of_singleton. done.
  - unfold listing, enter. simpl. rewrite reverse_app. cbn [reverse rev_append app omap list_omap].
    change (reverse [jbJobID j]) with [jbJobID j]. cbn [app omap list_omap]. rewrite lookup_insert_eq. f_equal.
    rewrite omap_insert_ne by (by rewrite elem_of_reverse). rewrite <- listing_filter by done. f_equal. symmetry. apply filter_reverse.
Qed.

Lemma book_snoc l j : book (reverse (l ++ [j])) = enter j (book (reverse l)).
Proof. by rewrite reverse_app. Qed.

Lemma absorb_book l : order_ok (foldl absorb (∅, []) l) /\ listing (foldl absorb (∅, []) l) = book (reverse l).
Proof.
  induction l as [|j l [IH1 IH2]] using rev_ind.
  - split; [|done]. split; simpl; [intros ? ? H; by rewrite lookup_empty in H| |constructor]. intros id. rewrite lookup_empty. split; [by intros ?%not_elem_of_nil|by intros [? ?]].
  - rewrite foldl_snoc, book_snoc, <- IH2. by apply absorb_ok.
Qed.

Lemma book_ids l : Forall (fun j => j ∈ l) (book l) /\ NoDup (map jbJobID (book l)).
Proof.
  induction l as [|j l [IH1 IH2]]; [by split; constructor|]. simpl. split.
  - constructor; [left|]. apply Forall_forall. intros k [_ Hk]%list_elem_of_filter. right. rewrite Forall_forall in IH1. by apply IH1.
  - apply NoDup_cons. split.
    + rewrite list_elem_of_fmap. intros (k & E & [Hk _]%list_elem_of_filter). by apply Hk.
    + clear IH1. induction (book l) as [|k b IHb]; [constructor|]. simpl in IH2. apply NoDup_cons in IH2 as [Hk Hb]. rewrite filter_cons.
      destruct (decide (jbJobID k <> jbJobID j)); [|by apply IHb]. simpl. apply NoDup_cons. split; [|by apply IHb].
      rewrite list_elem_of_fmap. intros (k' & E & [_ Hk']%list_elem_of_filter). apply Hk. rewrite list_elem_of_fmap. by exists k'.
Qed.

(** *** The log as a book *)

Definition savedJobs (s : JobStore) : list AgentJob := omap lineJob (scan_lines (default "" (jsFile s))).

(** A log of whole lines, none too long for the scanner, whose jobs are [b]. A log
    whose last line is torn, as a save cut short leaves it, is not one: the next
    save is written onto that line ([jobs_log_is_book] says nothing of it). *)
Record logs (s : JobStore) (b : list AgentJob) : Prop := {
  lo_ends : ends_line (default "" (jsFile s)) = true;
  lo_short : Forall (fun line => slen line < maxLine) (scan_lines (default "" (jsFile s)));
  lo_book : book (reverse (savedJobs s)) = b
}.

(** A save whose system calls succeed, of an entry that fits a line. *)
Record saves (io : SaveIO) (j : AgentJob) : Prop := {
  sv_ctx : siCtx io = None;
  sv_mkdir : siMkdir io = true;
  sv_write : siWrite io = WOk;
  sv_wire : wire_ok (entryOf io j);
  sv_fits : slen (marshal (entryOf io j)) < maxLine
}.

Lemma listLatest_book s b : logs s b -> listLatest true s = Ok b.
Proof.
  intros [He Hs Hb]. unfold listLatest, savedJobs in *. destruct (jsFile s) as [f|]; simpl in *; [|by rewrite <- Hb].
  assert (existsb (fun line => maxLine <=? slen line) (scan_lines f) = false) as ->.
  { apply not_true_iff_false. rewrite existsb_exists. intros (x & Hx & Hlen%Z.leb_le). rewrite <- list_elem_of_In in Hx.
    rewrite Forall_forall in Hs. specialize (Hs x Hx). lia. }
  destruct (absorb_book (omap lineJob (scan_lines f))) as [_ E]. unfold listing in E. destruct (foldl absorb _ _) as [m order]. simpl in E.
  by rewrite E, Hb.
Qed.

Lemma lineJob_marshal e : wire_ok e -> jeType e = "job_saved" -> validateAgentJob (jeJob e) = Ok tt -> lineJob (marshal e) = Some (jeJob e).
Proof.
  intros Hw Ht Hv. unfold lineJob, dropCR, TrimSuffix. rewrite marshal_no_cr, jl_trimmed, bool_decide_eq_false_2 by apply marshal_nonempty.
  by rewrite unmarshal_marshal, Ht, Hv.
Qed.

Lemma Save_logs io j s b :
  logs s b -> saves io j -> validateAgentJob j = Ok tt ->
  exists s', Save io j s = (s', Ok j) /\ logs s' (enter j b).
Proof.
  intros [He Hs Hb] [H1 H2 H3 H4 H5] Hv. unfold Save. rewrite Hv, H1, H2, H3, append_file_ok. eexists. split; [done|].
  pose proof (scan_append (jsFile s) (entryOf io j) He) as Hscan. split; simpl in *.
  - apply ends_line_app; [apply ends_line_line|by destruct (marshal (entryOf io j))].
  - rewrite Hscan. apply Forall_app_2; [done|by constructor].
  - unfold savedJobs in *. simpl. rewrite Hscan, omap_app. cbn [omap list_omap].
    rewrite (lineJob_marshal (entryOf io j)) by done. cbn [jeJob entryOf]. by rewrite book_snoc, Hb.
Qed.

Lemma Save_invalid io j s e : validateAgentJob j = Err e -> Save io j s = (s, Err e).
Proof. intros Hv. unfold Save. by rewrite Hv. Qed.

Lemma find_enter_eq j b : findJob (jbJobID j) (enter j b) = Some j.
Proof. unfold findJob, enter. simpl. by rewrite bool_decide_eq_true_2. Qed.

Lemma find_enter_ne id j b : id <> jbJobID j -> findJob id (enter j b) = findJob id b.
Proof.
  intros Hn. unfold findJob, enter. simpl. rewrite bool_decide_eq_false_2 by congruence. induction b as [|k b IH]; [done|].
  rewrite filter_cons. simpl. destruct (decide (jbJobID k <> jbJobID j)) as [Hk|Hk]; simpl.
  - by rewrite IH.
  - rewrite IH. apply dec_stable in Hk. by rewrite (bool_decide_eq_false_2 (jbJobID k = id)) by congruence.
Qed.

Lemma findJob_id id b j : findJob id b = Some j -> jbJobID j = id /\ j ∈ b.
Proof. intros H%find_some. destruct H as [Hin Hid%bool_decide_eq_true]. split; [done|by apply list_elem_of_In]. Qed.

(** *** Every job read back is valid *)

Lemma lineJob_valid line j : lineJob line = Some j -> validateAgentJob j = Ok tt.
Proof.
  unfold lineJob. destruct (bool_decide _); [done|]. destruct (unmarshal _) as [e|]; [|done].
  destruct (bool_decide (jeType e = "job_saved")); [|done]. simpl. destruct (validateAgentJob (jeJob e)) as [[]|] eqn:E; [|done]. by intros [= <-].
Qed.

Lemma logs_valid s b : logs s b -> Forall (fun j => validateAgentJob j = Ok tt) b.
Proof.
  intros [_ _ <-]. destruct (book_ids (reverse (savedJobs s))) as [H _]. eapply Forall_impl; [exact H|]. simpl. intros j Hj. rewrite elem_of_reverse in Hj.
  unfold savedJobs in Hj. apply list_elem_of_omap in Hj as (line & _ & Hl). by eapply lineJob_valid.
Qed.

Definition isOk {A} (r : result string A) : Prop := is_ok r = true.

Lemma validate_changed j j' :
  validateAgentJob j = Ok tt -> jbJobID j' = jbJobID j -> jbBuyer j' = jbBuyer j -> jbSeller j' = jbSeller j -> jbTool j' = jbTool j ->
  jbPaymentState j' = jbPaymentState j -> jbCreatedAt j' = jbCreatedAt j -> isKnownWorkState (jbWorkState j') = true ->
  validateJobProgress (jbProgress j') = Ok tt -> is_Some (jl_parseTime (jbUpdatedAt j')) -> validateAgentJob j' = Ok tt.
Proof.
  unfold validateAgentJob. intros Hv -> -> -> -> -> -> Hw Hp Hu. rewrite Hw, Hp. rewrite (bool_decide_eq_true_2 _ Hu).
  repeat (destruct (isBlank _); [discriminate|]). destruct (isKnownWorkState (jbWorkState j)); [|discriminate]. simpl in *.
  destruct (isKnownPaymentState (jbPaymentState j)); [|discriminate]. simpl in *. destruct (validateJobProgress (jbProgress j)); [|discriminate].
  by destruct (negb (bool_decide (is_Some (jl_parseTime (jbCreatedAt j))))).
Qed.

Lemma validate_parts j : validateAgentJob j = Ok tt -> validateJobProgress (jbProgress j) = Ok tt.
Proof.
  unfold validateAgentJob. repeat (destruct (isBlank _); [discriminate|]). destruct (negb (isKnownWorkState _)); [discriminate|].
  destruct (negb (isKnownPaymentState _)); [discriminate|]. by destruct (validateJobProgress (jbProgress j)) as [[]|].
Qed.

(** What an operation makes of a valid job is valid, has the job's identifier, and
    the job was not finished. *)
Lemma opApply_ok now op j j' :
  validateAgentJob j = Ok tt -> opApply now op j = Ok j' ->
  validateAgentJob j' = Ok tt /\ jbJobID j' = jbJobID j /\ isTerminalWorkState (jbWorkState j) = false.
Proof.
  intros Hv. pose proof (validate_parts j Hv) as Hp. destruct op as [id reason|p|p|p]; simpl.
  - unfold cancelled. destruct (isTerminalWorkState (jbWorkState j)) eqn:Et; [discriminate|]. intros [= <-]. split_and!; [|done|done].
    by apply (validate_changed j); [..|apply jl_time].
  - unfold statusUpdated. destruct (bool_decide _); [discriminate|]. destruct (isKnownWorkState (TrimSpace (spWorkState p))) eqn:Ek; [|discriminate]. simpl.
    destruct (isTerminalWorkState (TrimSpace (spWorkState p))); [discriminate|]. destruct (validateJobProgress (spProgress p)) as [[]|] eqn:Epp; [|discriminate].
    destruct (isTerminalWorkState (jbWorkState j)) eqn:Et; [discriminate|]. intros [= <-]. split_and!; [|done|done].
    by apply (validate_changed j); [..|apply jl_time].
  - unfold completed. destruct (isTerminalWorkState (jbWorkState j)) eqn:Et; [discriminate|]. destruct (if bool_decide _ then _ else _) as [d|]; [|discriminate].
    intros [= <-]. split_and!; [|done|done]. by apply (validate_changed j); [..|apply jl_time].
  - unfold failed. destruct (bool_decide _); [discriminate|]. destruct (isTerminalWorkState (jbWorkState j)) eqn:Et; [discriminate|].
    intros [= <-]. split_and!; [|done|done]. by apply (validate_changed j); [..|apply jl_time].
Qed.

Lemma lookupJob_some id b j : lookupJob id (Ok b) = Ok j -> findJob (TrimSpace id) b = Some j.
Proof. unfold lookupJob. destruct (bool_decide _); [done|]. destruct (findJob (TrimSpace id) b); [|done]. by intros [= ->]. Qed.

(** *** The book's operations *)

Definition bookOp (now : Time) (op : JobOp) (b : list AgentJob) : list AgentJob * result string AgentJob :=
  match readHalf now op (Ok b) with
  | Err e => (b, Err e)
  | Ok j => (enter j b, Ok j)
  end.

Lemma readHalf_ok now op s b j :
  logs s b -> readHalf now op (Ok b) = Ok j ->
  validateAgentJob j = Ok tt /\ exists k, findJob (jbJobID j) b = Some k /\ isTerminalWorkState (jbWorkState k) = false.
Proof.
  intros Hl. unfold readHalf. destruct (lookupJob (opJobID op) (Ok b)) as [k|] eqn:Ek; [|done]. intros Hj.
  apply lookupJob_some in Ek. destruct (findJob_id _ _ _ Ek) as [Hid Hin]. pose proof (logs_valid s b Hl) as Hv. rewrite Forall_forall in Hv.
  destruct (opApply_ok now op k j (Hv k Hin) Hj) as (H1 & H2 & H3). split; [done|]. exists k. rewrite H2, Hid. done.
Qed.

Lemma runOp_book now io op s b :
  logs s b -> (forall j, readHalf now op (Ok b) = Ok j -> saves io j) ->
  exists s', runOp true now io op s = (s', (bookOp now op b).2) /\ logs s' (bookOp now op b).1.
Proof.
  intros Hl Hs. unfold runOp, bookOp. rewrite (listLatest_book s b Hl). destruct (readHalf now op (Ok b)) as [j|e] eqn:Ej; [|by eexists].
  destruct (readHalf_ok now op s b j Hl Ej) as [Hv _]. by apply Save_logs; [| apply Hs|].
Qed.

(** One operation with its clock and system calls. *)
Record Turn := mkTurn { tnNow : Time; tnIO : SaveIO; tnOp : JobOp }.

Fixpoint runTurns (s : JobStore) (l : list Turn) : JobStore * list (result string AgentJob) :=
  match l with
  | [] => (s, [])
  | t :: l => let '(s, r) := runOp true (tnNow t) (tnIO t) (tnOp t) s in let '(s, rs) := runTurns s l in (s, r :: rs)
  end.

Fixpoint bookTurns (b : list AgentJob) (l : list Turn) : list AgentJob * list (result string AgentJob) :=
  match l with
  | [] => (b, [])
  | t :: l => let '(b, r) := bookOp (tnNow t) (tnOp t) b in let '(b, rs) := bookTurns b l in (b, r :: rs)
  end.

(** Every save of the turns succeeds. *)
Fixpoint turns_save (b : list AgentJob) (l : list Turn) : Prop :=
  match l with
  | [] => True
  | t :: l => (forall j, readHalf (tnNow t) (tnOp t) (Ok b) = Ok j -> saves (tnIO t) j) /\ turns_save (bookOp (tnNow t) (tnOp t) b).1 l
  end.

(** C24 (refinement). The log behaves like a book with one entry per job, the latest
    saved first: operations one after the other answer like operations on the book,
    and a reader finds the book. The log starts with whole lines of a length the
    scanner takes (an absent or empty log, or one that completed saves left, with
    any lines among them that are no job); a log that ends in a torn line is
    excluded, since the next save would be written onto that line and be lost.
    Every save that the book makes succeeds and fits a line. *)
Theorem jobs_log_is_book s b l (Hl : logs s b) (Hs : turns_save b l) :
  (runTurns s l).2 = (bookTurns b l).2 /\ listLatest true (runTurns s l).1 = Ok (bookTurns b l).1.
Proof.
  revert s b Hl Hs. induction l as [|t l IH]; intros s b Hl Hs; simpl; [split; [done|by apply listLatest_book]|].
  destruct Hs as [Hs Hs']. destruct (runOp_book (tnNow t) (tnIO t) (tnOp t) s b Hl Hs) as (s' & E & Hl'). rewrite E.
  destruct (bookOp (tnNow t) (tnOp t) b) as [b' r]. simpl in *. destruct (IH s' b' Hl' Hs') as [E1 E2].
  destruct (runTurns s' l) as [s2 rs]. destruct (bookTurns b' l) as [b2 rs']. simpl in *. by rewrite E1.
Qed.

Lemma bookTurns_logs s b l : logs s b -> turns_save b l -> logs (runTurns s l).1 (bookTurns b l).1.
Proof.
  revert s b. induction l as [|t l IH]; intros s b Hl Hs; simpl; [done|]. destruct Hs as [Hs Hs'].
  destruct (runOp_book (tnNow t) (tnIO t) (tnOp t) s b Hl Hs) as (s' & E & Hl'). rewrite E.
  destruct (bookOp (tnNow t) (tnOp t) b) as [b' r]. simpl in *. specialize (IH s' b' Hl' Hs').
  by destruct (runTurns s' l), (bookTurns b' l).
Qed.

(** A finished job stays as it is in the book. *)
Lemma bookOp_final now op s b id j :
  logs s b -> findJob id b = Some j -> isTerminalWorkState (jbWorkState j) = true -> findJob id (bookOp now op b).1 = Some j.
Proof.
  intros Hl Hj Ht. unfold bookOp. destruct (readHalf now op (Ok b)) as [k|e] eqn:Ek; [|done]. cbn [fst].
  destruct (readHalf_ok now op s b k Hl Ek) as (_ & k0 & Hk0 & Hn). destruct (decide (id = jbJobID k)) as [->|]; [|by rewrite find_enter_ne].
  rewrite Hj in Hk0. injection Hk0 as <-. by rewrite Ht in Hn.
Qed.

(** One after the other, operations never change a job that is
    completed, failed, canceled or expired. *)
Theorem jobs_finished_is_final s b l id j (Hl : logs s b) (Hs : turns_save b l)
  (Hj : Get true id s = Ok j) (Ht : isTerminalWorkState (jbWorkState j) = true) :
  Get true id (runTurns s l).1 = Ok j.
Proof.
  revert s b Hl Hs Hj. induction l as [|t l IH]; intros s b Hl Hs Hj; simpl; [done|]. destruct Hs as [Hs Hs'].
  destruct (runOp_book (tnNow t) (tnIO t) (tnOp t) s b Hl Hs) as (s' & E & Hl'). rewrite E.
  assert (Get true id s' = Ok j) as Hj'.
  { unfold Get in *. rewrite (listLatest_book _ _ Hl) in Hj. rewrite (listLatest_book _ _ Hl'). pose proof (lookupJob_some _ _ _ Hj) as Hf.
    unfold lookupJob in *. destruct (bool_decide _); [done|]. by rewrite (bookOp_final _ _ s b _ j). }
  specialize (IH s' _ Hl' Hs' Hj'). by destruct (runTurns s' l).
Qed.

(** What reads [now op] a store with book [b] found. *)
Lemma readHalf_get now op b j : readHalf now op (Ok b) = Ok j -> Forall (fun k => validateAgentJob k = Ok tt) b ->
  jbJobID j = TrimSpace (opJobID op) /\ bool_decide (TrimSpace (opJobID op) = "") = false /\ validateAgentJob j = Ok tt.
Proof.
  unfold readHalf. destruct (lookupJob (opJobID op) (Ok b)) as [k|] eqn:Ek; [|done]. intros Hj Hv.
  pose proof (lookupJob_some _ _ _ Ek) as Hf. destruct (findJob_id _ _ _ Hf) as [Hid Hin]. rewrite Forall_forall in Hv.
  destruct (opApply_ok now op k j (Hv k Hin) Hj) as (H1 & H2 & _). split_and!; [congruence| |done].
  unfold lookupJob in Ek. by destruct (bool_decide _).
Qed.

Lemma Get_entered op s b j :
  logs s (enter j b) -> jbJobID j = TrimSpace (opJobID op) -> bool_decide (TrimSpace (opJobID op) = "") = false ->
  Get true (opJobID op) s = Ok j.
Proof. intros Hl Hid Hb. unfold Get. rewrite (listLatest_book _ _ Hl). unfold lookupJob. rewrite Hb, <- Hid. by rewrite find_enter_eq. Qed.

(** The guard that keeps a finished job finished is checked in one
    critical section and the job saved in another: of two operations on a job that
    both read it before either saves, both succeed, and the job is what the second
    made of it, a completion or a cancellation that was acknowledged included. *)
Theorem jobs_race_overwrites s b now1 op1 io1 j1 now2 op2 io2 j2
  (Hl : logs s b) (H1 : readHalf now1 op1 (listLatest true s) = Ok j1) (H2 : readHalf now2 op2 (listLatest true s) = Ok j2)
  (Hid : jbJobID j1 = jbJobID j2) (Hs1 : saves io1 j1) (Hs2 : saves io2 j2) :
  exists s1 s2, Save io1 j1 s = (s1, Ok j1) /\ Get true (opJobID op1) s1 = Ok j1 /\
    Save io2 j2 s1 = (s2, Ok j2) /\ Get true (opJobID op1) s2 = Ok j2.
Proof.
  rewrite (listLatest_book s b Hl) in H1, H2. pose proof (logs_valid s b Hl) as Hv.
  destruct (readHalf_get _ _ _ _ H1 Hv) as (E1 & B1 & V1). destruct (readHalf_get _ _ _ _ H2 Hv) as (E2 & B2 & V2).
  destruct (Save_logs io1 j1 s b Hl Hs1 V1) as (s1 & S1 & L1). destruct (Save_logs io2 j2 s1 _ L1 Hs2 V2) as (s2 & S2 & L2).
  exists s1, s2. split_and!; [done|by eapply Get_entered|done|]. eapply Get_entered; [exact L2|by rewrite <- Hid|done].
Qed.

(** A line as long as the reader's buffer: the log cannot be read any more. *)
Lemma jobs_long_line_poisons s io j :
  siCtx io = None -> siMkdir io = true -> siWrite io = WOk -> validateAgentJob j = Ok tt -> ends_line (default "" (jsFile s)) = true ->
  maxLine <= slen (marshal (entryOf io j)) ->
  (Save io j s).2 = Ok j /\ listLatest true (Save io j s).1 = Err "read agent job log".
Proof.
  intros H1 H2 H3 Hv He Hlong. unfold Save. rewrite Hv, H1, H2, H3, append_file_ok. cbn [negb fst snd]. split; [done|].
  unfold listLatest. cbn [jsFile append_line].
  assert (scan_lines (default "" (jsFile s) +:+ (marshal (entryOf io j) +:+ String LF "")) = scan_lines (default "" (jsFile s)) ++ [marshal (entryOf io j)])
    as -> by (by apply scan_append).
  rewrite existsb_app. simpl.
  rewrite (proj2 (Z.leb_le maxLine (slen (marshal (entryOf io j)))) Hlong). by rewrite orb_true_r.
Qed.

(** The role [seller] selects the jobs of other sellers. *)
Lemma jobs_seller_role_inverted j localBuyer :
  agentJobMatchesListParams j (mkListParams "seller" "" "" "" "" 0) localBuyer = negb (bool_decide (jbSeller j = localBuyer)).
Proof. unfold agentJobMatchesListParams. simpl. by rewrite !andb_true_r. Qed.

(** ** Calls (job_rpc.go, types.go) *)

(** The fields of a tool and of an agent that a call reads. *)
Record AgentToolSpec := mkTool { tlName : string; tlCapability : string }.
Record AgentInfo := mkAgent { aiID : string; aiName : string; aiDeviceID : string; aiTools : list AgentToolSpec; aiSkills : list string }.

Definition HasSkill (a : AgentInfo) (skill : string) : bool :=
  let skill := TrimSpace skill in
  if bool_decide (skill = "") then false
  else bool_decide (skill ∈ aiSkills a)
       || existsb (fun t => bool_decide (tlCapability t = skill) || bool_decide (tlName t = skill)) (aiTools a).

Definition toolForCall (a : AgentInfo) (toolRef : string) : option AgentToolSpec :=
  let toolRef := TrimSpace toolRef in
  match find (fun t => bool_decide (tlName t = toolRef) || bool_decide (tlCapability t = toolRef)) (aiTools a) with
  | Some t =>
      let name := if isBlank (tlName t) then toolRef else tlName t in
      Some (mkTool name (if isBlank (tlCapability t) then name else tlCapability t))
  | None => if bool_decide (length (aiTools a) = 0%nat) && HasSkill a toolRef then Some (mkTool toolRef toolRef) else None
  end.

Definition effectiveToolCapability (t : AgentToolSpec) : string :=
  let capability := TrimSpace (tlCapability t) in
  if bool_decide (capability <> "") then capability else TrimSpace (tlName t).

Definition normalizeAgentCallRef (ref : string) : string := TrimPrefix (TrimPrefix (TrimSpace ref) "agent://") "sky10://".

Definition agentMatchesRef (a : AgentInfo) (ref : string) : bool :=
  let ref := normalizeAgentCallRef ref in
  if bool_decide (ref = "") then false
  else bool_decide (ref = aiID a) || bool_decide (ref = aiName a) || bool_decide (ref = ToLower jl_unicodeLower (aiName a)).

Definition agentSellerID (a : AgentInfo) : string :=
  if negb (isBlank (aiID a)) then "sky10://" +:+ TrimSpace (aiID a)
  else if negb (isBlank (aiName a)) then "sky10://" +:+ TrimSpace (aiName a)
  else "sky10://unknown-agent".

Definition agentAddressForSend (a : AgentInfo) : string := if negb (isBlank (aiID a)) then TrimSpace (aiID a) else TrimSpace (aiName a).

(** The agents are those of the router, or of the registry without one. *)
Definition resolveCallTarget (agents : list AgentInfo) (agentRef toolRef : string) : result string (AgentInfo * AgentToolSpec) :=
  let matches := filter (fun a => ((bool_decide (agentRef = "") || agentMatchesRef a agentRef) && bool_decide (is_Some (toolForCall a toolRef))) = true) agents in
  match matches with
  | [] =>
      Err (if bool_decide (agentRef <> "") then "agent " +:+ jl_quote agentRef +:+ " does not expose tool " +:+ jl_quote toolRef
           else "no agent exposes tool " +:+ jl_quote toolRef)
  | a :: rest =>
      if bool_decide (rest <> []) && bool_decide (agentRef = "") then Err ("multiple agents expose tool " +:+ jl_quote toolRef +:+ "; agent is required")
      else Ok (a, default (mkTool "" "") (toolForCall a toolRef))
  end.

(** [owner] and [device] are [None] where the handler has none. *)
Definition localBuyerID (owner device : option string) : string :=
  match owner with
  | Some address => if negb (isBlank address) then "sky10://" +:+ TrimSpace address
      else match device with Some d => if negb (isBlank d) then "device://" +:+ TrimSpace d else "sky10://local" | None => "sky10://local" end
  | None => match device with Some d => if negb (isBlank d) then "device://" +:+ TrimSpace d else "sky10://local" | None => "sky10://local" end
  end.

Definition agentJobOutputRoot : string := "/shared/jobs".
Definition defaultAgentJobOutputDir (jobID : string) : string := Clean (agentJobOutputRoot +:+ String slash (TrimSpace jobID +:+ "/outputs")).

Record AgentPaymentAsset := mkPaymentAsset { paChainID : string; paAssetID : string; paSymbol : string; paDecimals : Z }.
Record AgentCallBudget := mkCallBudget { abMaxAmount : string; abAcceptedPaymentAssets : list AgentPaymentAsset }.

Record AgentCallParams := mkCallParams {
  acAgent : string; acTool : string; acInput : string; acPayloadRef : option AgentPayloadRef; acPayloadRefs : list AgentPayloadRef;
  acBudget : option AgentCallBudget; acBidID : string; acIdempotencyKey : string
}.

Record CallError := mkCallError { ceCode : string; ceMessage : string }.
Record AgentCallResultEnvelope := mkCallResult { crType : string; crJob : AgentJob; crError : option CallError }.

Definition callEnvelopeForJob (j : AgentJob) : AgentCallResultEnvelope :=
  let callType :=
    if bool_decide (jbPaymentState j = JobPaymentRequired) then "payment_required"
    else if bool_decide (jbWorkState j = JobWorkCompleted) then "result"
    else if bool_decide (jbWorkState j = JobWorkInputRequired) then "input_required"
    else if bool_decide (jbWorkState j ∈ [JobWorkFailed; JobWorkCanceled; JobWorkExpired]) then "error"
    else "accepted" in
  mkCallResult callType j
    (if bool_decide (callType = "error") then
       Some (mkCallError (if isBlank (jbErrorCode j) then jbWorkState j else TrimSpace (jbErrorCode j))
               (if isBlank (jbLastError j) then "job is " +:+ jbWorkState j else TrimSpace (jbLastError j)))
     else None).

(** The message to the agent: its address and device, the job it is about (whose
    identifier is the session's, and from which the content takes the tool, the
    capability, the references, the bid, the key and the output directory), and
    the parameters it hands on. *)
Record ToolCall := mkToolCall {
  tcTo : string; tcDeviceID : string; tcJob : AgentJob; tcInput : string; tcPayloadRef : option AgentPayloadRef; tcBudget : option AgentCallBudget
}.

(** What a call reads: the agents, the two names of the caller, the clock and a
    UUID. *)
Record CallEnv := mkCallEnv { cvAgents : list AgentInfo; cvOwner : option string; cvDevice : option string; cvNow : Time; cvUUID : string }.

Definition newJob (env : CallEnv) (a : AgentInfo) (t : AgentToolSpec) (p : AgentCallParams) (digest : string) : AgentJob :=
  let now := jl_formatTime (cvNow env) in
  let jobID := "j_" +:+ cvUUID env in
  mkJob jobID (localBuyerID (cvOwner env) (cvDevice env)) (agentSellerID a) (aiID a) (aiName a) (tlName t) (effectiveToolCapability t)
    (TrimSpace (acBidID p)) JobWorkReceived JobPaymentNone now now "" None (defaultAgentJobOutputDir jobID) (TrimSpace (acIdempotencyKey p))
    digest "" (normalizePayloadRefs (acPayloadRef p) (acPayloadRefs p)) [] "" "" "" "" None.

(** [rpcCall] up to its message: an earlier job with the key, or a new one and
    what is sent. *)
Inductive CallStart := Earlier (r : AgentCallResultEnvelope) | Started (j : AgentJob) (msg : ToolCall).

Definition rpcCallStart (env : CallEnv) (rd : bool) (io : SaveIO) (p : AgentCallParams) (s : JobStore) : JobStore * result string CallStart :=
  let tool := TrimSpace (acTool p) in
  if bool_decide (tool = "") then (s, Err "tool is required")
  else match resolveCallTarget (cvAgents env) (TrimSpace (acAgent p)) tool with
  | Err e => (s, Err e)
  | Ok (a, t) =>
      match digestJSON (acInput p) with
      | Err e => (s, Err e)
      | Ok digest =>
          match FindByIdempotency rd (localBuyerID (cvOwner env) (cvDevice env)) (agentSellerID a) (tlName t) (TrimSpace (acIdempotencyKey p)) s with
          | Err e => (s, Err e)
          | Ok (Some existing) => (s, Ok (Earlier (callEnvelopeForJob existing)))
          | Ok None =>
              let j := newJob env a t p digest in
              match Save io j s with
              | (s, Err e) => (s, Err e)
              | (s, Ok _) =>
                  (s, Ok (Started j (mkToolCall (agentAddressForSend a) (aiDeviceID a) j (if isBlank (acInput p) then "{}" else acInput p)
                         (acPayloadRef p) (acBudget p))))
              end
          end
      end
  end.

Definition acceptedJob (now : Time) (id : string) (delivery : DeliveryMetadata) (j : AgentJob) : AgentJob :=
  setJobUpdatedAt (jl_formatTime now) (setJobDelivery (Some delivery) (setJobMessageID id (setJobWorkState JobWorkAccepted j))).

(** The rest, with the answer of [SendMessage]: the job [rpcCall] holds since it
    made it is saved again. *)
Definition rpcCallEnd (now : Time) (io : SaveIO) (j : AgentJob) (sent : result string (string * DeliveryMetadata)) (s : JobStore)
  : JobStore * result string AgentCallResultEnvelope :=
  match sent with
  | Err e => ((Save io (setJobUpdatedAt (jl_formatTime now) (setJobLastError e (setJobWorkState JobWorkFailed j))) s).1, Err e)
  | Ok (id, delivery) =>
      let j := acceptedJob now id delivery j in
      match Save io j s with
      | (s, Err e) => (s, Err e)
      | (s, Ok _) => (s, Ok (callEnvelopeForJob j))
      end
  end.

(** [rpcUpdateStatus], [rpcComplete] and [rpcFail] ask the forwarder for a job
    that is not here. *)
Definition isAgentJobNotFound (err : string) : bool := Contains err "agent job " && Contains err " not found".

Definition forwarded (forward : option (JobOp -> result string AgentJob)) (op : JobOp) (r : JobStore * result string AgentJob)
  : JobStore * result string AgentJob :=
  match r, forward with
  | (s, Err e), Some f => if isAgentJobNotFound e then (s, f op) else (s, Err e)
  | _, _ => r
  end.

Definition rpcJobOp (forward : option (JobOp -> result string AgentJob)) (rd : bool) (now : Time) (io : SaveIO) (op : JobOp) (s : JobStore)
  : JobStore * result string AgentJob :=
  match op with
  | DoCancel id reason =>
      match runOp rd now io op s with
      | (s, Ok j) => (mkJobStore (jsFile s) (jsEmitted s ++ [JobCancel (jbJobID j) (TrimSpace reason)]), Ok j)
      | r => r
      end
  | _ => forwarded forward op (runOp rd now io op s)
  end.

(** *** What a call leaves *)

Lemma Save_started io j s b s' :
  logs s b -> saves io j -> Save io j s = (s', Ok j) -> validateAgentJob j = Ok tt /\ logs s' (enter j b).
Proof.
  intros Hl Hs Hsave. destruct (validateAgentJob j) as [[]|e] eqn:Ev; [|by rewrite (Save_invalid _ _ _ _ Ev) in Hsave].
  split; [done|]. destruct (Save_logs io j s b Hl Hs Ev) as (s2 & E & Hl'). rewrite Hsave in E. by injection E as <-.
Qed.

Lemma rpcCallStart_started env io p s b s1 j msg :
  logs s b -> saves io j -> rpcCallStart env true io p s = (s1, Ok (Started j msg)) ->
  exists a t digest, resolveCallTarget (cvAgents env) (TrimSpace (acAgent p)) (TrimSpace (acTool p)) = Ok (a, t) /\
    bool_decide (TrimSpace (acTool p) = "") = false /\ digestJSON (acInput p) = Ok digest /\ j = newJob env a t p digest /\
    FindByIdempotency true (localBuyerID (cvOwner env) (cvDevice env)) (agentSellerID a) (tlName t) (TrimSpace (acIdempotencyKey p)) s = Ok None /\
    validateAgentJob j = Ok tt /\ logs s1 (enter j b).
Proof.
  intros Hl Hs. unfold rpcCallStart. destruct (bool_decide (TrimSpace (acTool p) = "")); [discriminate|].
  destruct (resolveCallTarget _ _ _) as [[a t]|e]; [|discriminate]. destruct (digestJSON (acInput p)) as [digest|e]; [|discriminate].
  destruct (FindByIdempotency _ _ _ _ _ s) as [[k|]|e] eqn:Ef; [discriminate| |discriminate].
  destruct (Save io (newJob env a t p digest) s) as [s2 [j2|e]] eqn:Es; [|discriminate]. intros Heq.
  assert (s2 = s1 /\ newJob env a t p digest = j) as [-> <-] by (split; congruence).
  assert (j2 = newJob env a t p digest) as ->.
  { unfold Save in Es. destruct (validateAgentJob _); [|discriminate]. destruct (siCtx io); [discriminate|]. destruct (negb (siMkdir io)); [discriminate|].
    destruct (append_file _ _ _) as [f [u|[]]]; congruence. }
  exists a, t, digest. destruct (Save_started _ _ _ _ _ Hl Hs Es). split_and!; done.
Qed.

(** A call that is acknowledged after its agent has finished the job
    forgets the result: [rpcCall] saves the copy it made before it sent the
    message, and a job that was completed, or failed, or canceled meanwhile is
    accepted again, without result. *)
Theorem jobs_call_forgets_completion env io p s b s1 j msg s2 b2 done_ now io2 mid dl
  (Hl : logs s b) (Hstart : rpcCallStart env true io p s = (s1, Ok (Started j msg))) (Hio : saves io j)
  (Huuid : str_forall solid (jbJobID j) = true)
  (Hl2 : logs s2 b2) (Hdone : Get true (jbJobID j) s2 = Ok done_) (Hfin : isTerminalWorkState (jbWorkState done_) = true)
  (Hio2 : saves io2 (acceptedJob now mid dl j)) :
  exists s3 r k, rpcCallEnd now io2 j (Ok (mid, dl)) s2 = (s3, Ok r) /\ Get true (jbJobID j) s3 = Ok k /\
    jbWorkState k = JobWorkAccepted /\ jbResultDigest k = "" /\ jbResultRefs k = [] /\ jbLastError k = "".
Proof.
  destruct (rpcCallStart_started _ _ _ _ _ _ _ _ Hl Hio Hstart) as (a & t & digest & _ & _ & _ & Hj & _ & Hv & _).
  set (k := acceptedJob now mid dl j) in *.
  assert (validateAgentJob k = Ok tt) as Hvk by (apply (validate_changed j); try done; [simpl; by rewrite Hj|apply jl_time]).
  destruct (Save_logs io2 k s2 b2 Hl2 Hio2 Hvk) as (s3 & E & Hl3). exists s3, (callEnvelopeForJob k), k.
  split_and!; [unfold rpcCallEnd; fold (acceptedJob now mid dl j); fold k; by rewrite E| |done|..]; [|by unfold k, acceptedJob; simpl; rewrite Hj..].
  unfold Get. rewrite (listLatest_book _ _ Hl3). unfold lookupJob. rewrite (TrimSpace_solid _ Huuid).
  assert (bool_decide (jbJobID j = "") = false) as ->; [|by rewrite (find_enter_eq k)].
  apply bool_decide_eq_false. intros E0. clear -Hv E0. unfold validateAgentJob in Hv. by rewrite E0 in Hv.
Qed.

(** **** Idempotent calls *)

Definition keyed (buyer seller tool key : string) (j : AgentJob) : bool :=
  bool_decide (jbBuyer j = buyer) && bool_decide (jbSeller j = seller) && bool_decide (jbTool j = tool) && bool_decide (jbIdempotencyKey j = key).

(** One job has the key, if any. *)
Definition sole (buyer seller tool key id : string) (b : list AgentJob) : Prop :=
  (exists j, j ∈ b /\ keyed buyer seller tool key j = true /\ jbJobID j = id) /\
  forall j, j ∈ b -> keyed buyer seller tool key j = true -> jbJobID j = id.

Lemma opApply_keyed now op j j' buyer seller tool key :
  opApply now op j = Ok j' -> keyed buyer seller tool key j' = keyed buyer seller tool key j.
Proof.
  destruct op as [id reason|p|p|p]; simpl; unfold cancelled, statusUpdated, completed, failed; repeat case_match; try discriminate; by intros [= <-].
Qed.

Lemma bookOp_sole now op s b buyer seller tool key id :
  logs s b -> sole buyer seller tool key id b -> sole buyer seller tool key id (bookOp now op b).1.
Proof.
  intros Hl [(j & Hj & Hk & Hid) Hall]. unfold bookOp. destruct (readHalf now op (Ok b)) as [j'|e] eqn:E; [|split; [by exists j|done]]. cbn [fst].
  unfold readHalf in E. destruct (lookupJob (opJobID op) (Ok b)) as [k|] eqn:Ek; [|done]. apply lookupJob_some in Ek.
  destruct (findJob_id _ _ _ Ek) as [Hkid Hin]. pose proof (logs_valid s b Hl) as Hv. rewrite Forall_forall in Hv.
  destruct (opApply_ok now op k j' (Hv k Hin) E) as (_ & Hid' & _). pose proof (opApply_keyed now op k j' buyer seller tool key E) as Hkk. split.
  - destruct (decide (jbJobID j = jbJobID j')) as [He|He].
    + exists j'. split_and!; [left| |congruence]. destruct (book_ids (reverse (savedJobs s))) as [_ Hnd]. destruct Hl as [_ _ Hb]. rewrite Hb in Hnd.
      rewrite Hkk. assert (j = k) as <-; [|done]. clear -Hnd Hj Hin He Hid'. rewrite Hid' in He. induction b as [|x b IH]; [by apply not_elem_of_nil in Hj|].
      simpl in Hnd. apply NoDup_cons in Hnd as [Hx Hnd]. apply elem_of_cons in Hj as [->|Hj]; apply elem_of_cons in Hin as [->|Hin]; [done| | |by apply IH].
      * exfalso. apply Hx. rewrite He. by apply list_elem_of_fmap_2.
      * exfalso. apply Hx. rewrite <- He. by apply list_elem_of_fmap_2.
    + exists j. split_and!; [|done|done]. right. by apply list_elem_of_filter.
  - intros x [->|[_ Hx]%list_elem_of_filter]%elem_of_cons Hkx; [|by apply Hall]. rewrite Hkk in Hkx. rewrite Hid'. by apply Hall.
Qed.

Lemma bookTurns_sole s b l buyer seller tool key id :
  logs s b -> turns_save b l -> sole buyer seller tool key id b -> sole buyer seller tool key id (bookTurns b l).1.
Proof.
  revert s b. induction l as [|t l IH]; intros s b Hl Hs Hsole; simpl; [done|]. destruct Hs as [Hs Hs'].
  destruct (runOp_book (tnNow t) (tnIO t) (tnOp t) s b Hl Hs) as (s' & _ & Hl'). pose proof (bookOp_sole (tnNow t) (tnOp t) s b _ _ _ _ _ Hl Hsole) as Hs2.
  destruct (bookOp (tnNow t) (tnOp t) b) as [b' r]. specialize (IH s' b' Hl' Hs' Hs2). by destruct (bookTurns b' l).
Qed.

Lemma find_sole buyer seller tool key id b :
  sole buyer seller tool key id b -> exists k, find (keyed buyer seller tool key) b = Some k /\ jbJobID k = id.
Proof.
  intros [(j & Hj & Hk & Hid) Hall]. destruct (find (keyed buyer seller tool key) b) as [k|] eqn:E.
  - apply find_some in E as [Hin Hkk]. exists k. split; [done|]. apply Hall; [by apply list_elem_of_In|done].
  - pose proof (find_none _ _ E j) as H. rewrite H in Hk; [done|]. by apply list_elem_of_In.
Qed.

(** A call with an idempotency key is made once: repeated later, by
    the same buyer for the same agent and tool, it returns the job it made, in
    whatever state the agent has brought it, and saves and sends nothing. *)
Theorem jobs_call_idempotent env env2 io io2 p s b s1 j msg l
  (Hl : logs s b) (Hstart : rpcCallStart env true io p s = (s1, Ok (Started j msg))) (Hio : saves io j)
  (Hkey : acIdempotencyKey p <> "") (Htrim : TrimSpace (acIdempotencyKey p) = acIdempotencyKey p)
  (Henv : cvAgents env2 = cvAgents env /\ cvOwner env2 = cvOwner env /\ cvDevice env2 = cvDevice env)
  (Hs : turns_save (enter j b) l) :
  exists k, rpcCallStart env2 true io2 p (runTurns s1 l).1 = ((runTurns s1 l).1, Ok (Earlier (callEnvelopeForJob k))) /\ jbJobID k = jbJobID j.
Proof.
  destruct (rpcCallStart_started _ _ _ _ _ _ _ _ Hl Hio Hstart) as (a & t & digest & Hres & Htool & Hdig & Hj & Hfind & Hv & Hl1).
  destruct Henv as (E1 & E2 & E3). unfold FindByIdempotency in Hfind. rewrite !Htrim in Hfind. rewrite (bool_decide_eq_false_2 _ Hkey) in Hfind.
  rewrite (listLatest_book _ _ Hl) in Hfind. injection Hfind as Hfind.
  set (buyer := localBuyerID (cvOwner env) (cvDevice env)) in *. set (seller := agentSellerID a) in *.
  assert (sole buyer seller (tlName t) (acIdempotencyKey p) (jbJobID j) (enter j b)) as Hsole.
  { assert (keyed buyer seller (tlName t) (acIdempotencyKey p) j = true) as Hk.
    { rewrite Hj. unfold keyed, newJob. simpl. rewrite Htrim. by rewrite !bool_decide_eq_true_2. }
    split; [exists j; split_and!; [left|done|done]|]. intros x [->|[_ Hx]%list_elem_of_filter]%elem_of_cons Hkx; [done|].
    pose proof (find_none _ _ Hfind x ltac:(by apply list_elem_of_In)) as Hn. unfold keyed in Hkx. cbn beta in Hn. by rewrite Hkx in Hn. }
  pose proof (bookTurns_logs _ _ _ Hl1 Hs) as Hl2. pose proof (bookTurns_sole _ _ _ _ _ _ _ _ Hl1 Hs Hsole) as Hsole2.
  destruct (find_sole _ _ _ _ _ _ Hsole2) as (k & Hk & Hid). exists k. split; [|done]. unfold rpcCallStart.
  rewrite E1, E2, E3, Htool, Hres, Hdig. unfold FindByIdempotency. rewrite !Htrim, (bool_decide_eq_false_2 _ Hkey), (listLatest_book _ _ Hl2).
  fold buyer. fold seller. unfold keyed in Hk. by rewrite Hk.
Qed.
End Jobs.

(** ** A concrete library, log and calls *)

Module Demo.

Definition float_code (x : float64) : positive * bool * positive * Z :=
  match x with
  | SpecFloat.S754_zero s => (1%positive, s, 1%positive, 0)
  | SpecFloat.S754_infinity s => (2%positive, s, 1%positive, 0)
  | SpecFloat.S754_nan => (3%positive, false, 1%positive, 0)
  | SpecFloat.S754_finite s m e => (4%positive, s, m, e)
  end.

Definition float_decode (c : positive * bool * positive * Z) : float64 :=
  match c with
  | (1%positive, s, _, _) => SpecFloat.S754_zero s
  | (2%positive, s, _, _) => SpecFloat.S754_infinity s
  | (4%positive, s, m, e) => SpecFloat.S754_finite s m e
  | _ => SpecFloat.S754_nan
  end.

Lemma float_decode_code x : float_decode (float_code x) = x.
Proof. by destruct x. Qed.

Definition ref_code (r : AgentPayloadRef) := (apKind r, apKey r, apURI r, apMimeType r, apSize r, apDigest r).
Definition ref_decode (c : string * string * string * string * Z * string) : AgentPayloadRef :=
  let '(a, b, c, d, e, f) := c in mkPayloadRef a b c d e f.

Lemma ref_decode_code r : ref_decode (ref_code r) = r.
Proof. by destruct r. Qed.

Definition delivery_code (d : DeliveryMetadata) :=
  ((dmPolicy d, dmScope d, dmStatus d, dmLiveTransport d, dmDurableTransport d, dmLastTransport d),
   (dmMailboxItemID d, dmMailboxState d, dmLastEvent d, dmLastError d, dmLiveAttempted d, dmDurableUsed d)).
Definition delivery_decode (c : (string * string * string * string * string * string) * (string * string * string * string * bool * bool))
  : DeliveryMetadata :=
  let '((a, b, c, d, e, f), (g, h, i, j, k, l)) := c in mkDelivery a b c d e f g h i j k l.

Lemma delivery_decode_code d : delivery_decode (delivery_code d) = d.
Proof. by destruct d. Qed.

Definition job_code (j : AgentJob) : list positive :=
  [encode (jbJobID j, jbBuyer j, jbSeller j, jbAgentID j, jbAgentName j);
   encode (jbTool j, jbCapability j, jbBidID j, jbWorkState j, jbPaymentState j);
   encode (jbCreatedAt j, jbUpdatedAt j, jbStatusMessage j, jbOutputDir j, jbIdempotencyKey j);
   encode (jbInputDigest j, jbResultDigest j, jbMessageID j, jbCancelReason j, jbErrorCode j, jbLastError j);
   encode (float_code <$> jbProgress j); encode (ref_code <$> jbPayloadRefs j); encode (ref_code <$> jbResultRefs j);
   encode (delivery_code <$> jbDelivery j)].

Definition job_decode (ps : list positive) : option AgentJob :=
  match ps with
  | [p1; p2; p3; p4; p5; p6; p7; p8] =>
      '(a1, a2, a3, a4, a5) ← decode p1; '(b1, b2, b3, b4, b5) ← decode p2; '(c1, c2, c3, c4, c5) ← decode p3;
      '(d1, d2, d3, d4, d5, d6) ← decode p4; pr ← decode p5; r1 ← decode p6; r2 ← decode p7; dl ← decode p8;
      Some (mkJob a1 a2 a3 a4 a5 b1 b2 b3 b4 b5 c1 c2 c3 (float_decode <$> pr) c4 c5 d1 d2
        (ref_decode <$> (r1 : list (string * string * string * string * Z * string))) (ref_decode <$> (r2 : list (string * string * string * string * Z * string)))
        d3 d4 d5 d6 (delivery_decode <$> dl))
  | _ => None
  end.

Lemma job_decode_code j : job_decode (job_code j) = Some j.
Proof.
  assert (Hr : forall l : list AgentPayloadRef, ref_decode <$> (ref_code <$> l) = l).
  { intros l. rewrite <- list_fmap_compose. etrans; [|apply list_fmap_id]. apply list_fmap_ext. intros ? r _. apply ref_decode_code. }
  destruct j as [? ? ? ? ? ? ? ? ? ? ? ? ? pr ? ? ? ? l1 l2 ? ? ? ? dl]. unfold job_code, job_decode.
  cbn [jbJobID jbBuyer jbSeller jbAgentID jbAgentName jbTool jbCapability jbBidID jbWorkState jbPaymentState jbCreatedAt jbUpdatedAt
    jbStatusMessage jbProgress jbOutputDir jbIdempotencyKey jbInputDigest jbResultDigest jbPayloadRefs jbResultRefs jbMessageID
    jbCancelReason jbErrorCode jbLastError jbDelivery].
  assert (Hd : delivery_decode <$> (delivery_code <$> dl) = dl) by (by destruct dl as [[]|]).
  assert (Hf : float_decode <$> (float_code <$> pr) = pr) by (by destruct pr as [[]|]).
  rewrite !decode_encode. cbn [mbind option_bind]. by rewrite !Hr, Hd, Hf.
Qed.

Definition entry_code (e : jobEntry) : list positive := encode (jeType e) :: encode (jeSavedAt e) :: job_code (jeJob e).
Definition entry_decode (ps : list positive) : option jobEntry :=
  match ps with
  | a :: b :: ps => a ← decode a; b ← decode b; j ← job_decode ps; Some (mkJobEntry a b j)
  | _ => None
  end.

Lemma job_entry_decode_code e : entry_decode (entry_code e) = Some e.
Proof. destruct e. unfold entry_code, entry_decode. cbn [jeType jeSavedAt jeJob]. rewrite !decode_encode. cbn [mbind option_bind]. by rewrite job_decode_code. Qed.

Lemma bits_solid p : str_forall solid (bits_of_pos p) = true.
Proof. by induction p. Qed.

Definition demoParse (s : string) : option Time := decode (pos_of_bits s).
Definition demoFormat (t : Time) : string := bits_of_pos (encode t).

Lemma demo_time t : is_Some (demoParse (demoFormat t)).
Proof. unfold demoParse, demoFormat. rewrite pos_of_bits_of_pos, decode_encode. by eexists. Qed.

Lemma demo_trimmed e : TrimSpace (marshal (LineCodec := bits_codec entry_code entry_decode job_entry_decode_code) e) = marshal (LineCodec := bits_codec entry_code entry_decode job_entry_decode_code) e.
Proof. apply TrimSpace_solid, bits_solid. Qed.

Definition demoLib : JobLib := {|
  jl_codec := bits_codec entry_code entry_decode job_entry_decode_code; jl_trimmed := demo_trimmed;
  jl_parseTime := demoParse; jl_formatTime := demoFormat; jl_time := demo_time;
  jl_normalizeJSON := Some; jl_refsJSON := fun _ => "[]"; jl_sha256 := fun s => s; jl_unicodeLower := fun s => s; jl_quote := fun s => s |}.

#[local] Existing Instance demoLib.

(** A worker with one tool, and a call of it. *)
Definition worker : AgentInfo := mkAgent "A-1" "worker" "D-1" [mkTool "sum" "math"] [].
Definition demoEnv : CallEnv := mkCallEnv [worker] (Some "sky1me") None 100 "u1".
Definition demoCall : AgentCallParams := mkCallParams "worker" "math" "{}" None [] None "" "key-1".
Definition demoIO : SaveIO := mkSaveIO 101 None true WOk.
Definition empty : JobStore := NewJobStore None.
Definition demoJob : AgentJob := newJob demoEnv worker (mkTool "sum" "math") demoCall "sha256:{}".
Definition demoStore : JobStore := (rpcCallStart demoEnv true demoIO demoCall empty).1.
Definition demoMsg : ToolCall := mkToolCall "A-1" "D-1" demoJob "{}" None None.

Example demo_started : rpcCallStart demoEnv true demoIO demoCall empty = (demoStore, Ok (Started demoJob demoMsg)).
Proof. vm_compute. reflexivity. Qed.

Example demo_second : (rpcCallStart demoEnv true demoIO demoCall demoStore).2 = Ok (Earlier (callEnvelopeForJob demoJob)).
Proof. vm_compute. reflexivity. Qed.

Lemma demo_saves j : (slen (marshal (entryOf demoIO j)) <? maxLine) = true -> saves demoIO j.
Proof. intros H. split; try done. by apply Z.ltb_lt. Qed.

Lemma demo_empty : logs empty [].
Proof. by split; [|constructor|]. Qed.

Lemma demo_job_saves : saves demoIO demoJob.
Proof. apply demo_saves. vm_compute. reflexivity. Qed.

Lemma demo_logs : logs demoStore [demoJob].
Proof. destruct (rpcCallStart_started _ _ _ _ _ _ _ _ demo_empty demo_job_saves demo_started) as (? & ? & ? & _ & _ & _ & _ & _ & _ & H). exact H. Qed.

Definition turn (op : JobOp) : Turn := mkTurn 200 demoIO op.

Lemma demo_turn op b :
  match readHalf 200 op (Ok b) with Ok j => slen (marshal (entryOf demoIO j)) <? maxLine | Err _ => true end = true ->
  forall j, readHalf 200 op (Ok b) = Ok j -> saves demoIO j.
Proof. intros H j Hj. rewrite Hj in H. by apply demo_saves. Qed.

Definition doneOp : JobOp := DoComplete (mkCompleteParams "j_u1" "42" None [] "" "done").
Definition runningOp : JobOp := DoUpdateStatus (mkStatusParams "j_u1" "running" "half" (Some (f64_of_int 1))).

Lemma demo_turns_save : turns_save [demoJob] [turn runningOp; turn doneOp; turn (DoCancel "j_u1" "late")].
Proof. do 3 (split; [apply demo_turn; vm_compute; reflexivity|]). exact I. Qed.

(** The finished job. *)
Definition finished : list AgentJob := (bookOp 200 doneOp [demoJob]).1.
Definition doneStore : JobStore := (runOp true 200 demoIO doneOp demoStore).1.
Definition doneJob : AgentJob := default demoJob (findJob "j_u1" finished).

Lemma demo_done : logs doneStore finished.
Proof.
  destruct (runOp_book 200 demoIO doneOp demoStore [demoJob] demo_logs) as (s' & E & H); [apply demo_turn; vm_compute; reflexivity|].
  unfold doneStore, finished. by rewrite E.
Qed.

Lemma demo_done_get : Get true "j_u1" doneStore = Ok doneJob.
Proof. vm_compute. reflexivity. Qed.

Lemma jobs_log_is_book_witness :
  (runTurns demoStore [turn runningOp; turn doneOp; turn (DoCancel "j_u1" "late")]).2
  = (bookTurns [demoJob] [turn runningOp; turn doneOp; turn (DoCancel "j_u1" "late")]).2 /\
  map is_ok (bookTurns [demoJob] [turn runningOp; turn doneOp; turn (DoCancel "j_u1" "late")]).2 = [true; true; false].
Proof.
  split; [exact (proj1 (jobs_log_is_book demoStore [demoJob] _ demo_logs demo_turns_save))|vm_compute; reflexivity].
Defined.

Lemma jobs_finished_is_final_witness :
  Get true "j_u1" (runTurns doneStore [turn (DoCancel "j_u1" "late"); turn runningOp]).1 = Ok doneJob.
Proof.
  refine (jobs_finished_is_final doneStore finished _ "j_u1" doneJob demo_done _ demo_done_get _); [|vm_compute; reflexivity].
  do 2 (split; [apply demo_turn; vm_compute; reflexivity|]). exact I.
Defined.

(** A cancellation and a completion that both read the job before either saved. *)
Definition half (op : JobOp) : AgentJob := match readHalf 200 op (listLatest true demoStore) with Ok j => j | Err _ => demoJob end.

Lemma demo_half_done : jbWorkState (half doneOp) = JobWorkCompleted.
Proof. vm_compute. reflexivity. Qed.

Lemma jobs_race_overwrites_witness :
  exists s1 s2, Save demoIO (half (DoCancel "j_u1" "stop")) demoStore = (s1, Ok (half (DoCancel "j_u1" "stop"))) /\
    Get true "j_u1" s1 = Ok (half (DoCancel "j_u1" "stop")) /\ Save demoIO (half doneOp) s1 = (s2, Ok (half doneOp)) /\
    Get true "j_u1" s2 = Ok (half doneOp) /\ jbWorkState (half doneOp) = JobWorkCompleted.
Proof.
  destruct (jobs_race_overwrites demoStore [demoJob] 200 (DoCancel "j_u1" "stop") demoIO (half (DoCancel "j_u1" "stop")) 200 doneOp demoIO
    (half doneOp) demo_logs ltac:(vm_compute; reflexivity) ltac:(vm_compute; reflexivity) ltac:(vm_compute; reflexivity)
    ltac:(apply demo_saves; vm_compute; reflexivity) ltac:(apply demo_saves; vm_compute; reflexivity)) as (s1 & s2 & H1 & H2 & H3 & H4).
  exists s1, s2. exact (conj H1 (conj H2 (conj H3 (conj H4 demo_half_done)))).
Defined.

(** The agent completes the job before the call has heard that it was sent. *)
Definition sent : string * DeliveryMetadata := ("m-1", mkDelivery "" "" "delivered" "" "" "" "" "" "" "" true false).

Lemma jobs_call_forgets_completion_witness :
  jbResultDigest doneJob = "sha256:42" /\
  exists s3 r k, rpcCallEnd 300 demoIO demoJob (Ok sent) doneStore = (s3, Ok r) /\ Get true (jbJobID demoJob) s3 = Ok k /\
    jbWorkState k = JobWorkAccepted /\ jbResultDigest k = "" /\ jbResultRefs k = [] /\ jbLastError k = "".
Proof.
  split; [vm_compute; reflexivity|].
  exact (jobs_call_forgets_completion demoEnv demoIO demoCall empty [] demoStore demoJob demoMsg doneStore finished doneJob 300 demoIO sent.1 sent.2
    demo_empty demo_started demo_job_saves ltac:(vm_compute; reflexivity) demo_done demo_done_get ltac:(vm_compute; reflexivity)
    ltac:(apply demo_saves; vm_compute; reflexivity)).
Defined.

Lemma jobs_call_idempotent_witness :
  exists k, rpcCallStart demoEnv true demoIO demoCall (runTurns demoStore [turn doneOp]).1
    = ((runTurns demoStore [turn doneOp]).1, Ok (Earlier (callEnvelopeForJob k))) /\ jbJobID k = "j_u1".
Proof.
  refine (jobs_call_idempotent demoEnv demoEnv demoIO demoIO demoCall empty [] demoStore demoJob demoMsg [turn doneOp] demo_empty demo_started
    demo_job_saves _ _ _ _); [done|vm_compute; reflexivity|done|].
  split; [apply demo_turn; vm_compute; reflexivity|exact I].
Defined.

End Demo.
